(* ===== verification/_CoqProject ===== *)
-Q . S2P
Prelude.v
CString.v
Module.v
Ring.v
MessageQueue.v
Timer.v
Handle.v
Node.v
Server.v
NodeProps.v
ServerProps.v
Frames.v
Package.v
Netpack.v
Seri.v
SeriWire.v
SeriProps.v
Chain.v
HashId.v
DataBuffer.v
Gate.v
GateText.v
GateProps.v
GateRefines.v
GateStreams.v
Locks.v
SocketServer.v
SocketPoll.v
SocketQueue.v
SocketMemory.v
SocketStreams.v
SocketRefines.v
SocketDelivers.v
Harbor.v
HarborProps.v
HarborTable.v
HarborRefines.v
HarborLinks.v
HarborDelivers.v
HarborRoundtrip.v
Crypt.v
CryptDes.v
CryptDh.v
CryptText.v
CryptHex.v
Sha1.v
Sha1Transform.v
Sha1Stream.v
Words.v
Interleave.v
Cluster.v
ClusterProps.v
ClusterDelivers.v
ClusterResponses.v
SprotoPack.v
SprotoPackProps.v
SprotoPacking.v
SprotoUnpack.v
Sproto.v
SprotoPool.v
SprotoCodec.v
SprotoLua.v
SprotoProps.v
SprotoSchema.v
SprotoEncode.v
SprotoView.v
SprotoDecode.v
SprotoRead.v
SprotoLoad.v
SprotoRoundtrip.v
SprotoBind.v
