(* ===== verification/Prelude.v ===== *)
(** * Skynet, the runtime of the halieutics game server

    Halieutics is a game server written for skynet, an actor framework in C and Lua.  The C
    code under [src/] has three layers, and this development follows them.

    - The node ([src/skynet/skynet-src/]).  Services are contexts with a handle, a message
      queue and a callback.  [skynet_mq.c] has the queues and the global list of non-empty
      queues; worker threads pop a queue, pop its messages and run the callback of the
      context ([skynet_server.c]), found by its handle ([skynet_handle.c]) and created from
      a shared library ([skynet_module.c]).  The timer ([skynet_timer.c]) and the socket
      thread ([skynet_socket.c]) push messages like any other sender.
    - The C libraries for Lua services ([src/skynet/lualib-src/]): serialisation of Lua
      values, the packet queue of a socket, cryptography, the cluster's packages, sproto.
    - The C services ([src/skynet/service-src/], [src/src/service/]): the gate, which
      accepts the clients' connections, the harbor, which connects the nodes of a cluster,
      and the package service.

    ** Files

    - [Prelude], [CString], [Chain], [Frames], [Ring]: shared parts.  The fault monad
      [res], machine integers, arrays, loops with fuel and their rules, the state monad
      [SM] ([Prelude]); the C library on strings ([CString]); linked lists inside an array,
      an interface ([Linked]) with two implementations ([Chain]); byte buffers and the
      16 bit framing ([Frames]); ring buffers ([Ring]).
    - [Module] - [skynet_module.c]; [MessageQueue] - [skynet_mq.c]; [Timer] -
      [skynet_timer.c]; [Handle] - [skynet_handle.c].  Each file has the state as a record,
      one definition per function under the function's name, an abstract specification
      and the refinement.
    - [Node], [Server] - [skynet_server.c] with [skynet_harbor.c], [skynet_error.c],
      [skynet_monitor.c], [skynet_log.c], [skynet_env.c], [skynet_socket.c]: one node as a
      record of memory, contexts, handles, queues, timer and modules, built on the states
      of the files before; what the services themselves do is the class [Services].
      [NodeProps] and [ServerProps] have the well-formedness of a node and its theorems.
    - [Package] - [src/src/service/package.c]; [Netpack] - [lua-netpack.c]; both cut a byte
      stream by [Frames].
    - [Seri], [SeriProps] - [lua-seri.c]: values live in a heap of tables, the buffer is the
      chain of 128 byte blocks.  [SeriWire] states the format without the code.
    - [HashId] - [service-src/hashid.h]; [DataBuffer] - [service-src/databuffer.h]; [Gate] -
      [service-src/service_gate.c], on top of both.  [GateText] has the text commands,
      [GateProps] the specification and the representation of a connection, [GateRefines]
      one message, [GateStreams] histories.
    - [Locks] - [spinlock.h], [rwlock.h], the counters of [atomic.h]: threads as programs of
      single memory accesses that interleave in any way; where a lock depends on more than the
      documented barrier of a builtin, the barrier is in the model.
    - [SocketServer], [SocketPoll] - [socket_server.c]: the slots with their write queues, and
      the commands, the event loop and the interface.  The operating system is a list of
      answers to come and a list of calls made.  [SocketQueue] has the specification of the
      write queues of one TCP socket and the steps of its histories, [SocketMemory] the
      ownership of memory blocks, [SocketStreams] the representation of a socket, the closing
      and the writing of a list, [SocketRefines] one lemma per step, [SocketDelivers] the
      theorems on histories.
    - [Harbor] - [service-src/service_harbor.c]: queues, the table of names, connections and
      their parser, commands, messages out.  [HarborProps] has the specification and the
      queues, [HarborTable] the hash table, [HarborRefines] and [HarborLinks] one lemma for
      each function, [HarborDelivers] histories, [HarborRoundtrip] two nodes and the stream
      between them, with runs that show the corners.
    - [Crypt] - [lua-crypt.c] and [src/src/lualib/crypt.c]; [CryptDes] has DES, [CryptDh] the
      key exchange, [CryptText] base 64, [CryptHex] hexadecimal and base 36.  [Sha1] -
      [lsha1.c]; [Sha1Transform] has the standard's compression function, [Sha1Stream]
      contexts fed in pieces and the keyed hash.
    - [Cluster] - [lua-cluster.c] with the code of [clusterd.lua] and [socketchannel.lua] that
      sends and collects large messages; [ClusterProps] says what each package looks like,
      [ClusterDelivers] is about requests, [ClusterResponses] about responses.
      [Interleave] has what they share: packages of several senders on one stream, and a
      receiver with one entry for each unfinished message.
    - [SprotoPack] - the zero packing of [sproto.c]; [SprotoPackProps] has the reference
      encoding, [SprotoPacking] packing, [SprotoUnpack] unpacking.
    - [Sproto] - the schemas of [sproto.c], their loader and queries; [SprotoCodec] -
      [sproto_encode] and [sproto_decode] over any callback; [SprotoLua] - the callbacks of
      [lsproto.c], which call the codec again for a struct in a struct; [SprotoBind] - the rest
      of [lsproto.c].  [SprotoPool] is about the allocator, [SprotoSchema] the search for a tag,
      [SprotoLoad] what the loader accepts.  [SprotoProps] has messages as trees with their
      reference encoding; [SprotoEncode] says that the codec writes the tree that its callback
      answers with, [SprotoView] that the callback answers with the table; [SprotoDecode] and
      [SprotoRead] are the same for reading; [SprotoRoundtrip] puts them together.

    ** How code becomes definitions

    C integers are [Z], wrapped where the type is unsigned ([u32] and so on) and checked
    where it is [int] ([int_chk] faults on overflow): the counters of sessions, of the bytes a
    stream has left and of the bytes packed or unpacked among them.  Arrays are lists read and written by
    [rd] and [wr], which fault outside the bounds; uninitialised memory is [None].  An
    [assert] is [assertb].  A theorem that a call is [Ok] is therefore a theorem that no
    assertion fails, nothing is read or written out of bounds or uninitialised, no signed
    overflow happens, and the loops end.  Effects on the outside are recorded in order: a
    list of actions in the services, files and the clock in [Node].  Functions of the
    operating system ([dlopen], [clock_gettime], [listen]) are parameters.  Code that runs
    under a lock is one step; threads interleave between steps ([Timer] lets other threads
    add timers inside an update).

    ** Bounds and fuel

    Every [iterate] and [iterateM] is given a number of rounds; the theorems say that the
    result is [Ok], so the number is enough.  A loop along a chain gets the number of nodes
    plus one, a loop over bytes the number of bytes plus two, the doubling loop of
    [hashid_init] 32.  The conditions on sizes are those of the code's types: at most
    2^20 connections, ids below 2^30 where [hashid_insert] adds them to an index, fewer
    than 2^31 bytes waiting on a connection, fewer than 2^29 messages waiting in a harbor
    (its queues double their [int] size), 2^24 bytes in a message between nodes.

    ** Theorems

    - C1-C3, the message queue: histories refine FIFOs; the overload mark; release hands
      every pending message to the drop callback once.
    - C4, C5, the timer: one update fires exactly the timers that are due; a timer fires at
      its tick, across the cascades and the wrap-around.  [Timer.updatetime_catches_up] is
      about the clock loop.
    - C7, handles: histories refine a finite map.
    - C10, modules: a query loads once; [Module.try_open_searches_path] is about the search.
    - C11, C12, C14, C15, the node: sending, as long as the context has a session left;
      retiring, through the releases that follow to the last; launching.
    - C13, C18, the harbor: every history of the service refines its specification; what one
      node sends to handles of another comes out there unchanged and in order, with an error
      back for each message that [skynet_send] gives a negative result for.
    - C19, C20, the package service; C22-C24, netpack: requests and packages are paired in
      order, streams come out whole whatever the pieces.  [Package.close_accounts_buffers] is
      about the buffers when a connection closes.
    - C25-C27, serialisation: equivalence with the format, the round trip, and unpacking
      arbitrary bytes, with the one place where an [int] overflows.
    - C28, the connection table; C29, C30, the gate: it refines a specification without
      slots, buffers and pool; a client's packages are delivered whole and in order.
      [GateStreams.gate_release_closes] is about the end of the service.
    - C34-C36, zero packing: equivalence with a reference encoding, except for inputs behind
      which the code reads ([overreads]), and with a reference decoder for all inputs, up to the
      size that overflows its [int]; all buffer sizes; the size [lpack] reserves; the round trip.
    - C33, C21, C6, sproto: the loader gives sound schemas, whatever bytes it reads; with such
      a schema a Lua table is written as its reference encoding, from any buffer when it is
      [tidy] and else from one with room; and it is read back, by a reader with the same schema
      or another.  [SprotoRoundtrip.lencode_overflow] and
      [SprotoRoundtrip.ldecode_overread] are runs that leave their memory.
    - C37-C38, the locks: in every interleaving of any number of threads, what the threads do
      inside the sections is what some order of whole sections does.  The spinlock needs the
      documented barriers only, the reader-writer lock a full one ([Locks.rwlock_acquire_unsafe]).
    - C39-C40, the socket server: the histories of a TCP socket refine its specification,
      with exactly the waiting payloads in memory; the bytes on the wire are a beginning of
      the payloads sent.  A socket is alone in the server there: other sockets have other
      slots, and share only the memory and the pipe.
    - C8, C16, C31, C32, cryptography: DES with its padding is undone by decoding; both sides
      of the key exchange get the same secret; base 64 is that of the standard and can be
      read back; SHA-1 and its keyed hash are those of the standards.
    - C9, C17, the cluster: requests and responses of any size arrive whole and once, however
      their packages are interleaved on the connection.

    ** Not modelled

    - Of the socket server: [do_bind] and [do_listen], the byte layout of a request in the
      pipe, [epoll] and [kqueue]: they call the operating system or depend on the layout of
      C structures.  C39 and C40 are about TCP sockets and plain memory; UDP sockets and user
      objects are modelled, without theorems.
    - The Lua interpreter, jemalloc, LPeg, cjson and md5: third-party code.  The bindings
      [lua-skynet.c], [lua-socket.c] and the like move arguments between a Lua state and
      the functions modelled here.
    - Of sproto: [sproto_dump], which prints a schema, and messages in userdata instead of Lua
      strings.  Conversions between numbers and strings and the arithmetic of decimals are those
      of the Lua VM, a parameter ([LuaNumbers]).  Tables are read without metatables.
    - [random()] and [srandom()] behind [lrandomkey] are a parameter.
    - The memory hook, the daemon mode, [skynet_main.c] and [skynet_start.c]: start-up and
      operating system calls.  The logger only writes text to a file.
    - The game itself and skynet's Lua library are Lua code. *)

From stdpp Require Export prelude gmap strings.

(** * The fault monad

    C statements that may go wrong (an [assert], an out-of-range index, a read of
    memory nobody wrote, a NULL or dangling pointer, signed overflow) are modelled
    as computations in [res]: [Ok] carries the value, [Fault] says which check
    failed.  A safety theorem is a theorem that the result is [Ok]. *)

Inductive fault : Set :=
| AssertFailed
| OutOfBounds
| Uninitialised
| BadPointer
| IntOverflow
| OutOfFuel
| ProcessExit.

#[global] Instance fault_eq_dec : EqDecision fault.
Proof. solve_decision. Defined.

Inductive res (A : Type) : Type :=
| Ok (a : A)
| Fault (f : fault).
Arguments Ok {A} a.
Arguments Fault {A} f.

#[global] Instance res_eq_dec {A} `{EqDecision A} : EqDecision (res A).
Proof. solve_decision. Defined.

#[global] Instance res_ret : MRet res := @Ok.
#[global] Instance res_bind : MBind res :=
  λ A B k m, match m with Ok a => k a | Fault f => Fault f end.
#[global] Instance res_fmap : FMap res :=
  λ A B k m, match m with Ok a => Ok (k a) | Fault f => Fault f end.

Definition is_ok {A} (m : res A) : Prop := ∃ a, m = Ok a.

(** The C [assert]. *)
Definition assertb (b : bool) : res unit :=
  if b then Ok () else Fault AssertFailed.

(** Turning an absent value into a given fault. *)
Definition or_fault {A} (f : fault) (o : option A) : res A :=
  match o with Some a => Ok a | None => Fault f end.

Lemma bind_ok {A B} (a : A) (k : A → res B) : (Ok a ≫= k) = k a.
Proof. reflexivity. Qed.

Lemma bind_ok_inv {A B} (m : res A) (k : A → res B) b :
  (m ≫= k) = Ok b → ∃ a, m = Ok a ∧ k a = Ok b.
Proof. destruct m; [eauto | discriminate]. Qed.

Lemma assertb_ok_inv b u : assertb b = Ok u → b = true.
Proof. by destruct b. Qed.

(** * Machine integers *)

Open Scope Z_scope.

Definition INT_MAX : Z := 2147483647.
Definition INT_MIN : Z := -2147483648.

(** Unsigned 32 and 64 bit values wrap around. *)
Definition u8 (z : Z) : Z := z mod 2 ^ 8.
Definition u16 (z : Z) : Z := z mod 2 ^ 16.
Definition u32 (z : Z) : Z := z mod 2 ^ 32.
Definition u64 (z : Z) : Z := z mod 2 ^ 64.

(** Conversion to a signed 32 or 64 bit value: two's complement. *)
Definition i32 (z : Z) : Z := (z + 2 ^ 31) mod 2 ^ 32 - 2 ^ 31.
Definition i64 (z : Z) : Z := (z + 2 ^ 63) mod 2 ^ 64 - 2 ^ 63.

(** The value of a signed [int] expression; overflow is undefined in C. *)
Definition int_chk (z : Z) : res Z :=
  if bool_decide (INT_MIN ≤ z ≤ INT_MAX) then Ok z else Fault IntOverflow.

Lemma int_chk_ok z : INT_MIN ≤ z ≤ INT_MAX → int_chk z = Ok z.
Proof. intros H. unfold int_chk. by rewrite bool_decide_eq_true_2. Qed.

Lemma int_chk_over z : INT_MAX < z → int_chk z = Fault IntOverflow.
Proof. intros H. unfold int_chk. rewrite bool_decide_eq_false_2; [done|]. lia. Qed.

Lemma int_chk_ok_inv z z' : int_chk z = Ok z' → z' = z ∧ INT_MIN ≤ z ≤ INT_MAX.
Proof. unfold int_chk. case_bool_decide; naive_solver. Qed.

Lemma u32_small z : 0 ≤ z < 2 ^ 32 → u32 z = z.
Proof. intros. unfold u32. by apply Z.mod_small. Qed.

Lemma u32_range z : 0 ≤ u32 z < 2 ^ 32.
Proof. unfold u32. apply Z.mod_pos_bound. lia. Qed.

Lemma i32_small z : - 2 ^ 31 ≤ z < 2 ^ 31 → i32 z = z.
Proof. intros. unfold i32. rewrite Z.mod_small; lia. Qed.

Lemma i32_range z : - 2 ^ 31 ≤ i32 z < 2 ^ 31.
Proof. unfold i32. pose proof (Z.mod_pos_bound (z + 2 ^ 31) (2 ^ 32)). lia. Qed.

Lemma lor_range a b n : 0 ≤ n → 0 ≤ a < 2 ^ n → 0 ≤ b < 2 ^ n → 0 ≤ Z.lor a b < 2 ^ n.
Proof.
  intros Hn Ha Hb. split; [apply Z.lor_nonneg; lia|].
  destruct (decide (Z.lor a b = 0)) as [->|Hne]; [lia|].
  apply Z.log2_lt_pow2; [pose proof (proj2 (Z.lor_nonneg a b)); lia|].
  rewrite Z.log2_lor by lia. apply Z.max_lub_lt.
  - destruct (decide (a = 0)) as [->|]; [|apply Z.log2_lt_pow2; lia].
    destruct (decide (n = 0)) as [->|]; [|cbn; lia]. exfalso. apply Hne.
    replace b with 0 by lia. done.
  - destruct (decide (b = 0)) as [->|]; [|apply Z.log2_lt_pow2; lia].
    destruct (decide (n = 0)) as [->|]; [|cbn; lia]. exfalso. apply Hne.
    replace a with 0 by lia. done.
Qed.

(** A low part and a shifted high part do not overlap. *)
Lemma lor_shiftl lo hi n : 0 ≤ n → 0 ≤ lo < 2 ^ n → Z.lor lo (Z.shiftl hi n) = lo + hi * 2 ^ n.
Proof.
  intros Hn Hlo. pose proof (Z.add_lor_land lo (Z.shiftl hi n)) as E.
  assert (Z.land lo (Z.shiftl hi n) = 0) as Hz; [|rewrite Z.shiftl_mul_pow2 in * by lia; lia].
  clear E. apply Z.bits_inj'. intros k Hk. rewrite Z.land_spec, Z.bits_0.
  destruct (Z_lt_le_dec k n).
  - rewrite Z.shiftl_spec_low by lia. by rewrite andb_false_r.
  - destruct (decide (lo = 0)) as [->|]; [by rewrite Z.bits_0|].
    rewrite (Z.bits_above_log2 lo k); [done|lia|].
    apply Z.lt_le_trans with n; [apply Z.log2_lt_pow2; lia|done].
Qed.

(** * Arrays

    An array is a list; an index is the C [int] it is computed as.  [rd] and [wr]
    fault outside the bounds. *)

Definition in_range {A} (l : list A) (i : Z) : bool :=
  bool_decide (0 ≤ i < Z.of_nat (length l)).

Definition rd {A} (l : list A) (i : Z) : res A :=
  if in_range l i then or_fault OutOfBounds (l !! Z.to_nat i) else Fault OutOfBounds.

Definition wr {A} (l : list A) (i : Z) (x : A) : res (list A) :=
  if in_range l i then Ok (<[Z.to_nat i := x]> l) else Fault OutOfBounds.

(** Reading a slot of freshly allocated memory faults until it is written. *)
Definition rd_init {A} (l : list (option A)) (i : Z) : res A :=
  o ← rd l i; or_fault Uninitialised o.

Lemma rd_ok {A} (l : list A) i x :
  0 ≤ i → l !! Z.to_nat i = Some x → rd l i = Ok x.
Proof.
  intros Hi Hx. unfold rd, in_range.
  pose proof (lookup_lt_Some _ _ _ Hx).
  rewrite bool_decide_eq_true_2 by lia. by rewrite Hx.
Qed.

Lemma rd_ok_inv {A} (l : list A) i x :
  rd l i = Ok x → 0 ≤ i < Z.of_nat (length l) ∧ l !! Z.to_nat i = Some x.
Proof.
  unfold rd, in_range. case_bool_decide; [|done].
  destruct (l !! Z.to_nat i) eqn:E; cbn; naive_solver.
Qed.

Lemma rd_in_range {A} (l : list A) i :
  0 ≤ i < Z.of_nat (length l) → ∃ x, l !! Z.to_nat i = Some x ∧ rd l i = Ok x.
Proof.
  intros Hi. destruct (lookup_lt_is_Some_2 l (Z.to_nat i)) as [x Hx]; [lia|].
  exists x. split; [done|]. apply rd_ok; [lia|done].
Qed.

Lemma wr_ok {A} (l : list A) i x :
  0 ≤ i < Z.of_nat (length l) → wr l i x = Ok (<[Z.to_nat i := x]> l).
Proof. intros Hi. unfold wr, in_range. by rewrite bool_decide_eq_true_2. Qed.

Lemma wr_ok_inv {A} (l l' : list A) i x :
  wr l i x = Ok l' → 0 ≤ i < Z.of_nat (length l) ∧ l' = <[Z.to_nat i := x]> l.
Proof. unfold wr, in_range. case_bool_decide; naive_solver. Qed.

Lemma rd_init_ok {A} (l : list (option A)) i x :
  0 ≤ i → l !! Z.to_nat i = Some (Some x) → rd_init l i = Ok x.
Proof. intros Hi Hx. unfold rd_init. by rewrite (rd_ok _ _ _ Hi Hx). Qed.

(** * Loops

    [for_range n i body s] is [for (j = i; j < i + n; j++) body(j)] on a state [s].
    [iterate] is [for (;;) body] with fuel: the body says whether to go round again
    with a new state or to leave the loop with a result. *)

Fixpoint for_range {S} (n : nat) (i : Z) (body : Z → S → res S) (s : S) : res S :=
  match n with
  | O => Ok s
  | Datatypes.S n' => s' ← body i s; for_range n' (i + 1) body s'
  end.

Inductive loop (S R : Type) : Type :=
| Continue (s : S)
| Break (r : R).
Arguments Continue {S R} s.
Arguments Break {S R} r.

Fixpoint iterate {S R} (fuel : nat) (body : S → res (loop S R)) (s : S) : res R :=
  match fuel with
  | O => Fault OutOfFuel
  | Datatypes.S fuel' =>
      r ← body s;
      match r with
      | Continue s' => iterate fuel' body s'
      | Break r => Ok r
      end
  end.

(** The loop rule: an invariant indexed by the counter. *)
Lemma for_range_inv {S} (P : Z → S → Prop) n : ∀ i body s,
  P i s →
  (∀ j t, i ≤ j < i + Z.of_nat n → P j t → ∃ t', body j t = Ok t' ∧ P (j + 1) t') →
  ∃ s', for_range n i body s = Ok s' ∧ P (i + Z.of_nat n) s'.
Proof.
  induction n as [|n IH]; intros i body s HP Hstep; cbn [for_range].
  - exists s. split; [done|]. by rewrite Z.add_0_r.
  - destruct (Hstep i s) as (s1 & -> & HP1); [lia|done|]. rewrite bind_ok.
    destruct (IH (i + 1) body s1 HP1) as (s2 & Hs2 & HP2).
    { intros j t Hj. apply Hstep. lia. }
    exists s2. split; [done|].
    by replace (i + Z.of_nat (Datatypes.S n)) with (i + 1 + Z.of_nat n) by lia.
Qed.

(** Total correctness of a fuelled loop: an invariant and a measure that every
    further round decreases; any fuel above the measure is enough. *)
Lemma iterate_total {S R} (I : S → Prop) (Q : R → Prop) (m : S → nat) body :
  (∀ s, I s →
     (∃ r, body s = Ok (Break r) ∧ Q r) ∨
     (∃ s', body s = Ok (Continue s') ∧ I s' ∧ (m s' < m s)%nat)) →
  ∀ fuel s, I s → (m s < fuel)%nat → ∃ r, iterate fuel body s = Ok r ∧ Q r.
Proof.
  intros Hbody fuel. induction fuel as [|fuel IH]; intros s HI Hm; [lia|].
  cbn [iterate]. destruct (Hbody s HI) as [(r & -> & HQ)|(s' & -> & HI' & Hlt)].
  - rewrite bind_ok. eauto.
  - rewrite bind_ok. apply IH; [done|lia].
Qed.

(** More fuel does not change a result. *)
Lemma iterate_mono {S R} (body : S → res (loop S R)) fuel : ∀ s r fuel',
  iterate fuel body s = Ok r → (fuel ≤ fuel')%nat → iterate fuel' body s = Ok r.
Proof.
  induction fuel as [|fuel IH]; intros s r fuel' H Hle; [done|].
  destruct fuel' as [|fuel']; [lia|]. cbn [iterate] in *.
  destruct (body s) as [[s'|r']|f]; rewrite ?bind_ok in *; [|done|done].
  apply IH; [done|lia].
Qed.

(** * State

    Code that changes a shared state and may fault: a state-passing version of [res]. *)

Definition SM (S A : Type) : Type := S → res (A * S).

#[global] Instance SM_ret {S} : MRet (SM S) := λ A a s, Ok (a, s).
#[global] Instance SM_bind {S} : MBind (SM S) :=
  λ A B k m s, match m s with Ok (a, s') => k a s' | Fault f => Fault f end.

Definition gets {S A} (f : S → A) : SM S A := λ s, Ok (f s, s).
Definition modify {S} (f : S → S) : SM S unit := λ s, Ok ((), f s).
Definition lift {S A} (m : res A) : SM S A := λ s, a ← m; Ok (a, s).

Lemma sbind_ok {S A B} (m : SM S A) (k : A → SM S B) s a s' :
  m s = Ok (a, s') → (m ≫= k) s = k a s'.
Proof. intros E. unfold mbind, SM_bind. by rewrite E. Qed.

Lemma sbind_ok_inv {S A B} (m : SM S A) (k : A → SM S B) s r :
  (m ≫= k) s = Ok r → ∃ a s', m s = Ok (a, s') ∧ k a s' = Ok r.
Proof. unfold mbind, SM_bind. destruct (m s) as [[a s']|]; [eauto|done]. Qed.

Lemma gets_bind {S A B} (f : S → A) (k : A → SM S B) s : (gets f ≫= k) s = k (f s) s.
Proof. reflexivity. Qed.

Lemma modify_bind {S B} (f : S → S) (k : unit → SM S B) s : (modify f ≫= k) s = k () (f s).
Proof. reflexivity. Qed.

Lemma lift_bind {S A B} (m : res A) (k : A → SM S B) s a :
  m = Ok a → (lift m ≫= k) s = k a s.
Proof. intros ->. reflexivity. Qed.

Lemma ret_bind {S A B} (a : A) (k : A → SM S B) s : ((mret a : SM S A) ≫= k) s = k a s.
Proof. reflexivity. Qed.

(** [for (i = i0; i < i0 + n; i++) body(i)] and [for (;;) body] with effects. *)
Fixpoint for_rangeM {S} (n : nat) (i : Z) (body : Z → SM S unit) : SM S unit :=
  match n with
  | O => mret ()
  | Datatypes.S n' => _ ← body i; for_rangeM n' (i + 1) body
  end.

Lemma for_rangeM_inv {S} (P : Z → S → Prop) n : ∀ i body s,
  P i s →
  (∀ j t, i ≤ j < i + Z.of_nat n → P j t → ∃ t', body j t = Ok ((), t') ∧ P (j + 1) t') →
  ∃ s', for_rangeM n i body s = Ok ((), s') ∧ P (i + Z.of_nat n) s'.
Proof.
  induction n as [|n IH]; intros i body s HP Hstep; cbn [for_rangeM].
  - exists s. split; [done|]. by rewrite Z.add_0_r.
  - destruct (Hstep i s) as (s1 & E & HP1); [lia|done|]. rewrite (sbind_ok _ _ _ _ _ E).
    destruct (IH (i + 1) body s1 HP1) as (s2 & Hs2 & HP2).
    { intros j t Hj. apply Hstep. lia. }
    exists s2. split; [done|].
    by replace (i + Z.of_nat (Datatypes.S n)) with (i + 1 + Z.of_nat n) by lia.
Qed.

Fixpoint iterateM {S L R} (fuel : nat) (body : L → SM S (loop L R)) (l : L) : SM S R :=
  match fuel with
  | O => lift (Fault OutOfFuel)
  | Datatypes.S fuel' =>
      r ← body l;
      match r with
      | Continue l' => iterateM fuel' body l'
      | Break r => mret r
      end
  end.

(** * Lists *)

Lemma filter_ext_in {A} (P Q : A → Prop) `{!∀ x, Decision (P x), !∀ x, Decision (Q x)}
    (l : list A) :
  (∀ x, x ∈ l → P x ↔ Q x) → filter P l = filter Q l.
Proof.
  induction l as [|x l IH]; intros Hl; [done|].
  assert (filter P l = filter Q l) as E by (apply IH; set_solver).
  rewrite !filter_cons, E. pose proof (Hl x). do 2 case_decide; set_solver.
Qed.

Lemma filter_none {A} (P : A → Prop) `{!∀ x, Decision (P x)} (l : list A) :
  (∀ x, x ∈ l → ¬ P x) → filter P l = [].
Proof.
  induction l as [|x l IH]; intros Hl; [done|].
  rewrite filter_cons_False by set_solver. apply IH. set_solver.
Qed.

Lemma filter_all {A} (P : A → Prop) `{!∀ x, Decision (P x)} (l : list A) :
  (∀ x, x ∈ l → P x) → filter P l = l.
Proof.
  induction l as [|x l IH]; intros Hl; [done|].
  rewrite filter_cons_True by set_solver. f_equal. apply IH. set_solver.
Qed.

(** An array that starts with the elements of [l], and one more. *)
Lemma elems_snoc {A} (l : list A) (arr arr' : list (option A)) e :
  (∀ p x, l !! p = Some x → arr !! p = Some (Some x)) →
  arr' !! length l = Some (Some e) →
  (∀ p, (p < length l)%nat → arr' !! p = arr !! p) →
  ∀ p x, (l ++ [e]) !! p = Some x → arr' !! p = Some (Some x).
Proof.
  intros Hl Hnew Hold p x Hx. apply lookup_app_Some in Hx as [Hx|[Hge Hx]].
  - rewrite Hold by (by eapply lookup_lt_Some). by apply Hl.
  - assert (p = length l) as -> by (apply lookup_lt_Some in Hx as ?; cbn in *; lia).
    rewrite Nat.sub_diag in Hx. by injection Hx as <-.
Qed.

Lemma Forall_elem {A} (P : A → Prop) (l : list A) x : Forall P l → x ∈ l → P x.
Proof. intros H Hx. by eapply (proj1 (Forall_forall _ _)) in H. Qed.

(** * Automation *)

Create HintDb skynet.

#[export] Hint Resolve u32_range i32_range : skynet.
Create Rewrite HintDb skynet_rw.
#[export] Hint Rewrite @bind_ok : skynet_rw.

(** Break a hypothesis [m ≫= k = Ok b] into its steps. *)
Ltac res_inv :=
  repeat match goal with
  | H : (_ ≫= _) = Ok _ |- _ => apply bind_ok_inv in H as (? & ? & H)
  | H : assertb _ = Ok _ |- _ => apply assertb_ok_inv in H
  | H : int_chk _ = Ok _ |- _ => apply int_chk_ok_inv in H as [-> ?]
  | H : Ok _ = Ok _ |- _ => injection H as H; subst
  | H : Fault _ = Ok _ |- _ => discriminate H
  end.

(** Unfold the state monad and compute with the results known so far. *)
Ltac sm := cbv [mbind SM_bind res_bind mret SM_ret gets modify lift id] in *;
  cbv beta iota zeta in *.
Ltac sm_by H := rewrite H; cbv beta iota.
