(* ===== verification/CString.v ===== *)
(** The C library on strings, as far as the runtime uses it: [strcmp], [strtoul] and
    [strtol], the conversions of [sprintf], [strsep], [strchr], and the [%s], [%u] and [%d] of [sscanf].
    A C string is the list of its bytes without the terminating zero; a pointer into
    a string is the rest of the list. *)

From S2P Require Import Prelude.
Open Scope Z_scope.

(** Bytes between 1 and 255. *)
Definition cstring : Set := list Z.

Definition cstr_ok (a : cstring) : Prop := Forall (λ x, 0 < x < 256) a.

(** [s[0]]. *)
Definition char0 (s : cstring) : Z := hd 0 s.

(** String literals. *)
Definition str (s : string) : cstring :=
  map (λ c, Z.of_nat (Ascii.nat_of_ascii c)) (String.list_ascii_of_string s).

Fixpoint strcmp (a b : cstring) : Z :=
  match a, b with
  | [], [] => 0
  | [], y :: _ => 0 - y
  | x :: _, [] => x - 0
  | x :: a, y :: b => if x =? y then strcmp a b else x - y
  end.

Definition is_space (c : Z) : bool := (c =? 32) || ((9 <=? c) && (c <=? 13)).

Fixpoint skip_spaces (s : cstring) : cstring :=
  match s with
  | c :: s' => if is_space c then skip_spaces s' else s
  | [] => []
  end.

(** ** Numbers *)

Definition digit_value (c : Z) : Z :=
  if (48 <=? c) && (c <=? 57) then c - 48
  else if (97 <=? c) && (c <=? 122) then c - 87
  else if (65 <=? c) && (c <=? 90) then c - 55
  else 99.

Fixpoint parse_digits (base acc : Z) (s : cstring) : Z :=
  match s with
  | c :: s' => if digit_value c <? base then parse_digits base (acc * base + digit_value c) s'
               else acc
  | [] => acc
  end.

(** The sign and the digits after the leading blanks; [0x] is skipped in base 16, and
    base 0 takes the base from the prefix. *)
Definition parse_sign (s : cstring) : bool * cstring :=
  match skip_spaces s with
  | 45 :: s' => (true, s')
  | 43 :: s' => (false, s')
  | s' => (false, s')
  end.

Definition skip_0x (s : cstring) : option cstring :=
  match s with
  | 48 :: x :: d :: s' =>
      if ((x =? 120) || (x =? 88)) && (digit_value d <? 16) then Some (d :: s') else None
  | _ => None
  end.

Definition parse_magnitude (base : Z) (s : cstring) : Z :=
  if base =? 0 then
    match skip_0x s with
    | Some s' => parse_digits 16 0 s'
    | None => parse_digits (if char0 s =? 48 then 8 else 10) 0 s
    end
  else if base =? 16 then parse_digits 16 0 (default s (skip_0x s))
  else parse_digits base 0 s.

Definition ULONG_MAX : Z := 2 ^ 64 - 1.

Definition strtoul (s : cstring) (base : Z) : Z :=
  let '(neg, s) := parse_sign s in
  let v := parse_magnitude base s in
  if v >? ULONG_MAX then ULONG_MAX else if neg then u64 (- v) else v.

Definition strtol (s : cstring) (base : Z) : Z :=
  let '(neg, s) := parse_sign s in
  let v := if neg then - parse_magnitude base s else parse_magnitude base s in
  Z.max (- 2 ^ 63) (Z.min (2 ^ 63 - 1) v).

Definition digit_char (d : Z) : Z := if d <? 10 then 48 + d else 87 + d.

(** Digits of a non-negative number, most significant first. *)
Fixpoint print_digits (fuel : nat) (base n : Z) (acc : cstring) : cstring :=
  match fuel with
  | O => acc
  | S fuel =>
      let acc := digit_char (n mod base) :: acc in
      if n / base =? 0 then acc else print_digits fuel base (n / base) acc
  end.

(** [%u], [%d], [%x] and [%08x]; 64 digits hold any 64 bit number. *)
Definition print_u (n : Z) : cstring := print_digits 64 10 n [].
Definition print_d (n : Z) : cstring :=
  if n <? 0 then 45 :: print_u (- n) else print_u n.
Definition print_x (n : Z) : cstring := print_digits 64 16 n [].
Definition print_08x (n : Z) : cstring :=
  replicate (8 - length (print_x n))%nat 48 ++ print_x n.
(** [%lf] of a number of microseconds divided by 1000000.0; the double has enough
    precision for six decimals as long as the number is below 10^15. *)
Definition print_micros (n : Z) : cstring :=
  let frac := print_u (n mod 1000000) in
  print_u (n / 1000000) ++ [46] ++ replicate (6 - length frac)%nat 48 ++ frac.

(** ** Splitting *)

(** [strchr]: the rest of the string from the character on, or NULL. *)
Fixpoint strchr (s : cstring) (c : Z) : option cstring :=
  match s with
  | [] => None
  | x :: s' => if x =? c then Some s else strchr s' c
  end.

(** [strsep]: the token before the first delimiter, and where the next one starts. *)
Fixpoint strsep (s : cstring) (delim : list Z) : cstring * option cstring :=
  match s with
  | [] => ([], None)
  | x :: s' =>
      if existsb (Z.eqb x) delim then ([], Some s')
      else let '(tok, rest) := strsep s' delim in (x :: tok, rest)
  end.

(** One [%s] of [sscanf]: the blank-delimited word, and what follows it. *)
Fixpoint take_word (s : cstring) : cstring * cstring :=
  match s with
  | [] => ([], [])
  | x :: s' => if is_space x then ([], s)
               else let '(w, rest) := take_word s' in (x :: w, rest)
  end.

Definition scan_s (s : cstring) : option (cstring * cstring) :=
  match take_word (skip_spaces s) with
  | ([], _) => None
  | (w, rest) => Some (w, rest)
  end.

(** One number of [sscanf], [%u] or [%d], and what follows it. *)
Fixpoint drop_digits (s : cstring) : cstring :=
  match s with
  | c :: s' => if digit_value c <? 10 then drop_digits s' else s
  | [] => []
  end.

Definition scan_number (s : cstring) : option (Z * cstring) :=
  let '(neg, d) := parse_sign s in
  if digit_value (char0 d) <? 10 then
    let v := parse_digits 10 0 d in
    Some (if neg : bool then - v else v, drop_digits d)
  else None.

(** ** The order of [strcmp] *)

Lemma strcmp_antisym a b : strcmp b a = - strcmp a b.
Proof.
  revert b. induction a as [|x a IH]; intros [|y b]; cbn [strcmp]; try lia.
  destruct (Z.eqb_spec x y) as [->|Hne]; [rewrite Z.eqb_refl; apply IH|].
  destruct (Z.eqb_spec y x); lia.
Qed.

Lemma strcmp_eq a b : cstr_ok a → cstr_ok b → strcmp a b = 0 ↔ a = b.
Proof.
  intros Ha. revert b. induction Ha as [|x a Hx Ha IH]; intros [|y b] Hb; cbn;
    inversion Hb; subst; try (split; (lia || done)).
  destruct (Z.eqb_spec x y) as [->|Hne].
  - rewrite IH by done. split; congruence.
  - split; [lia|congruence].
Qed.

Lemma strcmp_trans a b c :
  cstr_ok a → cstr_ok b → cstr_ok c → strcmp a b < 0 → strcmp b c < 0 → strcmp a c < 0.
Proof.
  intros Ha. revert b c. induction Ha as [|x a Hx Ha IH]; intros [|y b] [|z c] Hb Hc;
    inversion Hb; inversion Hc; subst; cbn; try lia.
  destruct (Z.eqb_spec x y), (Z.eqb_spec y z), (Z.eqb_spec x z); try lia.
  by apply IH.
Qed.

(** ** Printing and parsing numbers *)

Lemma digit_value_char d : 0 ≤ d < 36 → digit_value (digit_char d) = d.
Proof.
  intros Hd. unfold digit_value, digit_char.
  destruct (Z.ltb_spec d 10).
  - destruct (Z.leb_spec 48 (48 + d)), (Z.leb_spec (48 + d) 57); cbn; lia.
  - destruct (Z.leb_spec 48 (87 + d)), (Z.leb_spec (87 + d) 57); cbn; try lia;
    destruct (Z.leb_spec 97 (87 + d)), (Z.leb_spec (87 + d) 122); cbn; lia.
Qed.

Lemma parse_print_digits base fuel : ∀ n acc,
  2 ≤ base ≤ 36 → 0 ≤ n < base ^ Z.of_nat fuel → (0 < fuel)%nat →
  parse_digits base 0 (print_digits fuel base n acc) = parse_digits base n acc.
Proof.
  induction fuel as [|fuel IH]; intros n acc Hb Hn Hf; [lia|]. cbn [print_digits].
  assert (Hd := Z.mod_pos_bound n base ltac:(lia)).
  assert (Hq : 0 ≤ n / base) by (apply Z.div_pos; lia).
  assert (Hdm := Z.div_mod n base ltac:(lia)).
  destruct (Z.eqb_spec (n / base) 0) as [E|Hne].
  - cbn [parse_digits]. rewrite digit_value_char by lia.
    destruct (Z.ltb_spec (n mod base) base); [|lia]. f_equal. nia.
  - assert (n / base < base ^ Z.of_nat fuel).
    { apply Z.div_lt_upper_bound; [lia|]. rewrite Nat2Z.inj_succ, Z.pow_succ_r in Hn by lia. lia. }
    rewrite IH; [|lia|lia|].
    + cbn [parse_digits]. rewrite digit_value_char by lia.
      destruct (Z.ltb_spec (n mod base) base); [|lia]. f_equal. nia.
    + destruct fuel; [|lia]. change (base ^ Z.of_nat 0) with 1 in *. lia.
Qed.

(** The first digit printed is a digit of the base. *)
Lemma print_digits_head base fuel : ∀ n acc,
  2 ≤ base ≤ 36 → 0 ≤ n → (0 < fuel)%nat →
  ∃ d rest, print_digits fuel base n acc = digit_char d :: rest ∧ 0 ≤ d < base.
Proof.
  induction fuel as [|fuel IH]; intros n acc Hb Hn Hf; [lia|]. cbn [print_digits].
  assert (Hd := Z.mod_pos_bound n base ltac:(lia)).
  destruct (Z.eqb_spec (n / base) 0); [eauto|].
  destruct fuel as [|fuel]; [cbn; eauto|].
  apply IH; [lia| |lia]. apply Z.div_pos; lia.
Qed.

(** Digits of a base up to 16 never look like a blank, a sign or the [x] of a prefix. *)
Lemma digit_char_plain d : 0 ≤ d < 16 →
  is_space (digit_char d) = false ∧ digit_char d ≠ 45 ∧ digit_char d ≠ 43 ∧
  digit_char d ≠ 120 ∧ digit_char d ≠ 88.
Proof.
  intros Hd. unfold digit_char, is_space. destruct (Z.ltb_spec d 10).
  - destruct (Z.eqb_spec (48 + d) 32), (Z.leb_spec 9 (48 + d)), (Z.leb_spec (48 + d) 13);
      cbn; repeat split; lia.
  - destruct (Z.eqb_spec (87 + d) 32), (Z.leb_spec 9 (87 + d)), (Z.leb_spec (87 + d) 13);
      cbn; repeat split; lia.
Qed.

Lemma parse_sign_digit d s : 0 ≤ d < 16 → parse_sign (digit_char d :: s) = (false, digit_char d :: s).
Proof.
  intros Hd. destruct (digit_char_plain d Hd) as (Hs & H1 & H2 & _).
  unfold parse_sign. cbn [skip_spaces]. rewrite Hs.
  destruct (digit_char d) as [|p|p]; [done| |done].
  do 6 (destruct p as [p|p|]; try done).
Qed.

Lemma print_digits_chars base fuel : ∀ n acc,
  2 ≤ base ≤ 16 → 0 ≤ n → ∀ c, c ∈ print_digits fuel base n acc →
  (∃ d, 0 ≤ d < base ∧ c = digit_char d) ∨ c ∈ acc.
Proof.
  induction fuel as [|fuel IH]; intros n acc Hb Hn c Hc; [by right|]. cbn [print_digits] in Hc.
  assert (Hd := Z.mod_pos_bound n base ltac:(lia)).
  destruct (Z.eqb_spec (n / base) 0).
  - apply elem_of_cons in Hc as [->|Hc]; [left; eauto|by right].
  - apply IH in Hc as [?|Hc]; [by left| |lia|apply Z.div_pos; lia].
    apply elem_of_cons in Hc as [->|Hc]; [left; eauto|by right].
Qed.

Lemma skip_0x_none s : 120 ∉ s → 88 ∉ s → skip_0x s = None.
Proof.
  intros Hx HX. destruct s as [|c [|x [|d s]]]; try done.
  - unfold skip_0x. destruct c as [|p|p]; try done. do 6 (destruct p as [p|p|]; try done).
  - unfold skip_0x. destruct c as [|p|p]; try done. do 6 (destruct p as [p|p|]; try done).
  - unfold skip_0x.
    assert (x ≠ 120 ∧ x ≠ 88) as [H1 H2] by set_solver.
    destruct (Z.eqb_spec x 120), (Z.eqb_spec x 88); try done. cbn.
    destruct c as [|p|p]; try done. do 6 (destruct p as [p|p|]; try done).
Qed.

(** Reading back what [%x] prints. *)
Lemma strtoul_print_x n : 0 ≤ n < 2 ^ 64 → strtoul (print_x n) 16 = n.
Proof.
  intros Hn. unfold strtoul, print_x.
  destruct (print_digits_head 16 64 n [] ltac:(lia) ltac:(lia) ltac:(lia)) as (d & rest & E & Hd).
  rewrite E, parse_sign_digit by lia. rewrite <- E. unfold parse_magnitude. cbn [Z.eqb Pos.eqb].
  assert (Hplain : ∀ c, c ∈ print_digits 64 16 n [] → c ≠ 120 ∧ c ≠ 88).
  { intros c Hc. clear E.
    destruct (print_digits_chars 16 64 n [] ltac:(lia) ltac:(lia) c Hc) as [(e & He & ->)|Hn'];
      [|by apply not_elem_of_nil in Hn'].
    destruct (digit_char_plain e) as (_ & _ & _ & ? & ?); [lia|done]. }
  rewrite skip_0x_none by (intros Hc; by apply Hplain in Hc as [? ?]). cbn [default from_option].
  rewrite parse_print_digits by (change (16 ^ Z.of_nat 64) with (2 ^ 256); lia).
  cbn [parse_digits]. unfold ULONG_MAX. destruct (Z.gtb_spec n (2 ^ 64 - 1)); [lia|done].
Qed.

Lemma cstr_ok_str (s : string) :
  Forall (λ c, Ascii.nat_of_ascii c ≠ 0%nat) (String.list_ascii_of_string s) → cstr_ok (str s).
Proof.
  intros H. unfold cstr_ok, str. apply Forall_fmap. eapply Forall_impl; [exact H|].
  intros c Hc. change (0 < Z.of_nat (Ascii.nat_of_ascii c) < 256).
  pose proof (Ascii.nat_ascii_bounded c). cbv beta in Hc. lia.
Qed.
