(* ===== verification/Module.v ===== *)
(** [skynet-src/skynet_module.c]: the table of loaded C service modules.

    A module is found by name, or loaded by trying every template of the search path
    with [?] replaced by the name.  [dlopen] and [dlsym] are parameters: they return
    the address of a library and of a symbol, 0 when there is none.  A pointer to an
    entry of the table is its index plus one. *)

From S2P Require Import Prelude CString.
Open Scope Z_scope.

Definition MAX_MODULE_TYPE : Z := 32.

Record skynet_module : Set := Mod {
  m_name : cstring;
  m_module : Z;
  m_create : Z;
  m_init : Z;
  m_release : Z;
  m_signal : Z
}.

#[global] Instance skynet_module_eq_dec : EqDecision skynet_module.
Proof. solve_decision. Defined.

Record modules : Set := Modules {
  mods_count : Z;
  mods_path : cstring;
  mods_m : list (option skynet_module)
}.

Definition skynet_module_init (path : cstring) : modules :=
  Modules 0 path (replicate (Z.to_nat MAX_MODULE_TYPE) None).

(** ** The search path *)

Definition SEMICOLON : Z := 59.
Definition QUESTION : Z := 63.

(** [memcpy] and [strncpy] into a buffer. *)
Fixpoint wr_bytes (buf : list Z) (i : Z) (l : list Z) : res (list Z) :=
  match l with
  | [] => Ok buf
  | x :: l => buf ← wr buf i x; wr_bytes buf (i + 1) l
  end.

Fixpoint skip_semicolons (path : cstring) : cstring :=
  match path with
  | c :: path' => if c =? SEMICOLON then skip_semicolons path' else path
  | [] => []
  end.

(** [for (i=0; path[i]!='?' && i < len; i++) tmp[i] = path[i];], [n] the rounds left:
    where the loop stops and the buffer. *)
Fixpoint copy_prefix (n : nat) (path : cstring) (i : Z) (tmp : list Z) : res (Z * list Z) :=
  match n, path with
  | S n, c :: path =>
      if c =? QUESTION then Ok (i, tmp)
      else tmp ← wr tmp i c; copy_prefix n path (i + 1) tmp
  | _, _ => Ok (i, tmp)
  end.

(** The string in a buffer: it must be terminated inside the buffer. *)
Fixpoint buffer_string (buf : list Z) : res cstring :=
  match buf with
  | [] => Fault OutOfBounds
  | c :: buf => if c =? 0 then Ok [] else s ← buffer_string buf; Ok (c :: s)
  end.

Inductive opened : Set :=
| Opened (dl : Z)
| NotFound
| Exit.

Section loader.
Variable dlopen : cstring → Z.
Variable dlsym : Z → cstring → Z.

(** One round of the [do ... while(dl == NULL)] loop. *)
Definition try_step (name : cstring) (size : Z) (path : cstring) : res (loop cstring opened) :=
  let tmp := replicate (Z.to_nat size) 0 in
  let path := skip_semicolons path in
  if char0 path =? 0 then Ok (Break NotFound)
  else
    let l := default [] (strchr path SEMICOLON) in
    let len := Z.of_nat (length path) - Z.of_nat (length l) in
    '(i, tmp) ← copy_prefix (Z.to_nat len) path 0 tmp;
    tmp ← wr_bytes tmp i name;
    if char0 (drop (Z.to_nat i) path) =? QUESTION then
      tmp ← wr_bytes tmp (i + Z.of_nat (length name))
              (take (Z.to_nat (len - i - 1)) (drop (Z.to_nat (i + 1)) path));
      file ← buffer_string tmp;
      let dl := dlopen file in
      if dl =? 0 then Ok (Continue l) else Ok (Break (Opened dl))
    else Ok (Break Exit).

Definition _try_open (m : modules) (name : cstring) : res opened :=
  let size := Z.of_nat (length (mods_path m)) + Z.of_nat (length name) in
  iterate (S (length (mods_path m))) (try_step name size) (mods_path m).

(** ** The table *)

Fixpoint query_from (n : nat) (i : Z) (m : modules) (name : cstring) : res Z :=
  match n with
  | O => Ok 0
  | S n =>
      e ← rd_init (mods_m m) i;
      if strcmp (m_name e) name =? 0 then Ok (i + 1) else query_from n (i + 1) m name
  end.

Definition _query (m : modules) (name : cstring) : res Z :=
  query_from (Z.to_nat (mods_count m)) 0 m name.

(** [strrchr(tmp, '.')]: the part after the last dot, or everything. *)
Fixpoint after_last_dot (s : cstring) : option cstring :=
  match s with
  | [] => None
  | c :: s => match after_last_dot s with
              | Some r => Some r
              | None => if c =? 46 then Some s else None
              end
  end.

Definition get_api (name : cstring) (dl : Z) (api_name : cstring) : Z :=
  let tmp := name ++ api_name in
  dlsym dl (default tmp (after_last_dot tmp)).

(** The entry with its symbols, and the return value: 0 when it has an init function. *)
Definition open_sym (name : cstring) (dl : Z) : skynet_module * Z :=
  let md := Mod name dl (get_api name dl (str "_create")) (get_api name dl (str "_init"))
               (get_api name dl (str "_release")) (get_api name dl (str "_signal")) in
  (md, if m_init md =? 0 then 1 else 0).

(** The result is NULL or the module, or the process exits. *)
Definition skynet_module_query (m : modules) (name : cstring) : res (option Z * modules) :=
  result ← _query m name;
  if negb (result =? 0) then Ok (Some result, m)
  else
    result ← _query m name;
    if (result =? 0) && (mods_count m <? MAX_MODULE_TYPE) then
      let index := mods_count m in
      o ← _try_open m name;
      match o with
      | Exit => Ok (None, m)
      | NotFound => Ok (Some 0, m)
      | Opened dl =>
          let '(md, r) := open_sym name dl in
          l ← wr (mods_m m) index (Some md);
          if r =? 0 then Ok (Some (index + 1), Modules (mods_count m + 1) (mods_path m) l)
          else Ok (Some 0, Modules (mods_count m) (mods_path m) l)
      end
    else Ok (Some result, m).

Definition skynet_module_insert (m : modules) (md : skynet_module) : res modules :=
  r ← _query m (m_name md);
  _ ← assertb ((r =? 0) && (mods_count m <? MAX_MODULE_TYPE));
  let index := mods_count m in
  l ← wr (mods_m m) index (Some md);
  Ok (Modules (mods_count m + 1) (mods_path m) l).

(** ** Specification of the search *)

(** The templates of a path. *)
Fixpoint segments (path seg : cstring) : list cstring :=
  match path with
  | [] => match seg with [] => [] | _ => [seg] end
  | c :: path =>
      if c =? SEMICOLON then
        match seg with [] => segments path [] | _ => seg :: segments path [] end
      else segments path (seg ++ [c])
  end.

(** The file a template stands for. *)
Fixpoint instantiate (name seg : cstring) : option cstring :=
  match seg with
  | [] => None
  | c :: seg => if c =? QUESTION then Some (name ++ seg)
                else f ← instantiate name seg; Some (c :: f)
  end.

Fixpoint search (name : cstring) (segs : list cstring) : opened :=
  match segs with
  | [] => NotFound
  | seg :: segs =>
      match instantiate name seg with
      | None => Exit
      | Some f => if dlopen f =? 0 then search name segs else Opened (dlopen f)
      end
  end.

(** ** The search follows the path *)

Lemma segments_app seg rest acc :
  SEMICOLON ∉ seg → segments (seg ++ rest) acc = segments rest (acc ++ seg).
Proof.
  revert acc. induction seg as [|c seg IH]; intros acc Hn; cbn [app segments].
  - by rewrite app_nil_r.
  - destruct (Z.eqb_spec c SEMICOLON); [set_solver|].
    rewrite IH by set_solver. by rewrite <- app_assoc.
Qed.

Lemma segments_skip path : segments (skip_semicolons path) [] = segments path [].
Proof.
  induction path as [|c path IH]; [done|]. cbn [skip_semicolons].
  destruct (Z.eqb_spec c SEMICOLON) as [->|]; [|done]. by rewrite IH.
Qed.

(** The first template and the rest of the path. *)
Lemma strchr_split path :
  ∃ seg, let l := default [] (strchr path SEMICOLON) in
    path = seg ++ l ∧ SEMICOLON ∉ seg ∧ (l = [] ∨ ∃ l', l = SEMICOLON :: l').
Proof.
  induction path as [|c path IH]; cbn [strchr].
  - exists []. split; [done|]. split; [set_solver|by left].
  - destruct (Z.eqb_spec c SEMICOLON) as [->|Hne].
    + exists []. split; [done|]. split; [set_solver|right; eauto].
    + destruct IH as (seg & Hp & Hs & Hl). exists (c :: seg). cbv zeta in *.
      split; [cbn; by f_equal|].
      split; [set_solver|done].
Qed.

Lemma skip_head path : skip_semicolons path = [] ∨
  ∃ c path', skip_semicolons path = c :: path' ∧ c ≠ SEMICOLON ∧ c ∈ path.
Proof.
  induction path as [|c path IH]; [by left|]. cbn [skip_semicolons].
  destruct (Z.eqb_spec c SEMICOLON) as [->|].
  - destruct IH as [|(c' & p' & ? & ? & ?)]; [by left|]. right. eexists _, _. split; [done|].
    set_solver.
  - right. eexists _, _. split; [done|]. set_solver.
Qed.

Lemma skip_suffix path : ∃ pre, path = pre ++ skip_semicolons path.
Proof.
  induction path as [|c path IH]; [by exists []|]. cbn [skip_semicolons].
  destruct (c =? SEMICOLON); [|by exists []].
  destruct IH as [pre IH]. exists (c :: pre). cbn. by f_equal.
Qed.

(** A buffer with [w] written and the rest still zero. *)
Lemma wr_fill w m x :
  wr (w ++ replicate (S m) 0) (Z.of_nat (length w)) x = Ok ((w ++ [x]) ++ replicate m 0).
Proof.
  rewrite wr_ok by (rewrite length_app, length_replicate; lia).
  rewrite Nat2Z.id, insert_app_r_alt, Nat.sub_diag by lia.
  cbn. by rewrite <- app_assoc.
Qed.

Lemma wr_bytes_fill l : ∀ w m, (length l ≤ m)%nat →
  wr_bytes (w ++ replicate m 0) (Z.of_nat (length w)) l =
    Ok ((w ++ l) ++ replicate (m - length l) 0).
Proof.
  induction l as [|x l IH]; intros w m Hm; cbn [wr_bytes length] in *.
  - by rewrite app_nil_r, Nat.sub_0_r.
  - destruct m as [|m]; [lia|]. rewrite wr_fill, bind_ok.
    replace (Z.of_nat (length w) + 1) with (Z.of_nat (length (w ++ [x])))
      by (rewrite length_app; cbn; lia).
    rewrite IH by lia. by rewrite <- (app_assoc w [x] l).
Qed.

Lemma copy_prefix_fill pre : ∀ n path w m,
  QUESTION ∉ pre → (length pre ≤ m)%nat →
  (n = length pre ∨ ((length pre < n)%nat ∧ char0 path = QUESTION)) →
  copy_prefix n (pre ++ path) (Z.of_nat (length w)) (w ++ replicate m 0) =
    Ok (Z.of_nat (length (w ++ pre)), (w ++ pre) ++ replicate (m - length pre) 0).
Proof.
  induction pre as [|c pre IH]; intros n path w m Hq Hm Hn; cbn [length app] in *.
  - rewrite app_nil_r, Nat.sub_0_r. destruct n as [|n]; [done|].
    destruct Hn as [|[_ Hc]]; [done|]. destruct path as [|c path]; [done|].
    cbn in Hc. subst c. done.
  - destruct n as [|n]; [lia|]. cbn [copy_prefix].
    destruct (Z.eqb_spec c QUESTION); [set_solver|].
    destruct m as [|m]; [lia|]. rewrite wr_fill, bind_ok.
    replace (Z.of_nat (length w) + 1) with (Z.of_nat (length (w ++ [c])))
      by (rewrite length_app; cbn; lia).
    rewrite IH; [by rewrite <- (app_assoc w [c] pre)|set_solver|lia|].
    destruct Hn as [|[? ?]]; [left; lia|right; split; [lia|done]].
Qed.

Lemma buffer_string_ok s m : cstr_ok s → buffer_string (s ++ replicate (S m) 0) = Ok s.
Proof.
  induction 1 as [|c s Hc Hs IH]; [done|]. cbn [app buffer_string].
  destruct (Z.eqb_spec c 0); [lia|]. by rewrite IH.
Qed.

(** A template has a question mark, or it has none. *)
Lemma instantiate_split name seg :
  (∃ pre post, seg = pre ++ QUESTION :: post ∧ QUESTION ∉ pre ∧
     instantiate name seg = Some (pre ++ name ++ post)) ∨
  (QUESTION ∉ seg ∧ instantiate name seg = None).
Proof.
  induction seg as [|c seg IH]; cbn [instantiate]; [right; set_solver|].
  destruct (Z.eqb_spec c QUESTION) as [->|].
  - left. exists [], seg. split; [done|]. split; [set_solver|done].
  - destruct IH as [(pre & post & -> & Hq & ->)|[Hq ->]].
    + left. exists (c :: pre), post. split; [done|]. split; [set_solver|done].
    + right. split; [set_solver|done].
Qed.

(** One round opens the first template. *)
Lemma try_step_lemma name size path :
  cstr_ok path → cstr_ok name → Z.of_nat (length path) + Z.of_nat (length name) ≤ size →
  (segments path [] = [] ∧ try_step name size path = Ok (Break NotFound)) ∨
  ∃ seg l, segments path [] = seg :: segments l [] ∧ cstr_ok l ∧ (length l < length path)%nat ∧
    try_step name size path = Ok (match instantiate name seg with
      | None => Break Exit
      | Some f => if dlopen f =? 0 then Continue l else Break (Opened (dlopen f)) end).
Proof.
  intros Hp Hname Hsize. unfold try_step. cbv zeta.
  rewrite <- (segments_skip path).
  destruct (skip_suffix path) as [skipped Hskip].
  destruct (skip_head path) as [E|(c & path' & E & Hc & Hin)].
  { left. by rewrite E. }
  right. rewrite E in Hskip |- *. clear E. set (p := c :: path') in *.
  assert (Hok : cstr_ok p) by (rewrite Hskip in Hp; by apply Forall_app in Hp as [_ ?]).
  assert (char0 p =? 0 = false) as ->.
  { apply Z.eqb_neq. inversion Hok. cbn. lia. }
  destruct (strchr_split p) as (seg & Hsplit & Hsemi & Hl). cbv zeta in *.
  set (l := default [] _) in *. clearbody l.
  assert (seg ≠ []) as Hne.
  { intros ->. cbn in Hsplit. destruct Hl as [El|[l' El]]; rewrite El in Hsplit; [done|].
    by injection Hsplit. }
  assert (Hlen : Z.of_nat (length p) - Z.of_nat (length l) = Z.of_nat (length seg))
    by (rewrite Hsplit at 1; rewrite length_app; lia).
  rewrite Hlen, Nat2Z.id. exists seg, l.
  assert (length path = (length skipped + (length seg + length l))%nat) as Hpl
    by (rewrite Hskip, Hsplit, !length_app; done).
  assert (0 < length seg)%nat by (destruct seg; [done|cbn; lia]).
  assert (cstr_ok seg ∧ cstr_ok l) as [Hsok Hlok] by (rewrite Hsplit in Hok; by apply Forall_app in Hok).
  split; [|split; [done|split; [lia|]]].
  { rewrite Hsplit, segments_app by done. cbn [app].
    destruct Hl as [->|[l' ->]]; cbn [segments]; destruct seg; try done. }
  destruct (instantiate_split name seg) as [(pre & post & -> & Hq & ->)|[Hq ->]].
  - rewrite length_app in *. cbn [length] in *.
    rewrite Hsplit, <- !app_assoc.
    rewrite (copy_prefix_fill pre _ _ [] (Z.to_nat size));
      [|done|lia|right; split; [lia|done]].
    rewrite bind_ok. cbn [app]. rewrite wr_bytes_fill by lia.
    rewrite bind_ok, Nat2Z.id, drop_app_length. cbn [char0 hd app]. rewrite Z.eqb_refl.
    replace (Z.to_nat (Z.of_nat (length pre) + 1)) with (length pre + 1)%nat by lia.
    replace (Z.of_nat (length pre) + Z.of_nat (length name)) with
      (Z.of_nat (length (pre ++ name))) by (rewrite length_app; lia).
    rewrite <- drop_drop, drop_app_length. cbn [drop].
    replace (Z.to_nat (Z.of_nat (length pre + S (length post)) - Z.of_nat (length pre) - 1))
      with (length post) by lia. rewrite drop_0, take_app_length.
    rewrite wr_bytes_fill by (rewrite ?length_app; lia). rewrite bind_ok.
    replace (Z.to_nat size - length pre - length name - length post)%nat
      with (S (Z.to_nat size - length pre - length name - length post - 1)) by lia.
    rewrite buffer_string_ok, bind_ok, <- app_assoc.
    + by destruct (dlopen _ =? 0).
    + apply Forall_app in Hsok as [? Hpost]. inversion Hpost; subst.
      apply Forall_app; split; [by apply Forall_app|done].
  - rewrite Hsplit. rewrite (copy_prefix_fill seg _ _ [] (Z.to_nat size)); [|done|lia|by left].
    rewrite bind_ok. cbn [app]. rewrite wr_bytes_fill by lia.
    rewrite bind_ok, Nat2Z.id, drop_app_length.
    assert (char0 l =? QUESTION = false) as ->; [|done].
    by destruct Hl as [->|[l' ->]].
Qed.

Lemma try_open_lemma name size : cstr_ok name → ∀ fuel path,
  cstr_ok path → (length path < fuel)%nat →
  Z.of_nat (length path) + Z.of_nat (length name) ≤ size →
  iterate fuel (try_step name size) path = Ok (search name (segments path [])).
Proof.
  intros Hname fuel. induction fuel as [|fuel IH]; intros path Hp Hf Hs; [lia|].
  cbn [iterate].
  destruct (try_step_lemma name size path Hp Hname Hs) as [[-> ->]|(seg & l & -> & Hl & Hlen & ->)];
    [done|]. rewrite bind_ok. cbn [search].
  destruct (instantiate name seg) as [f|]; [|done].
  destruct (dlopen f =? 0); [|done]. apply IH; [done|lia|lia].
Qed.

End loader.

(** ** The table of modules *)

Record mods_ok (m : modules) (l : list skynet_module) : Prop := {
  md_count : mods_count m = Z.of_nat (length l);
  md_len : length (mods_m m) = Z.to_nat MAX_MODULE_TYPE;
  md_room : (length l ≤ Z.to_nat MAX_MODULE_TYPE)%nat;
  md_elem : ∀ i e, l !! i = Some e → mods_m m !! i = Some (Some e);
  md_cstr : ∀ e, e ∈ l → cstr_ok (m_name e);
  md_path : cstr_ok (mods_path m);
  md_nodup : NoDup (map m_name l)
}.

(** The position of a name in the table. *)
Fixpoint position (name : cstring) (l : list skynet_module) : option nat :=
  match l with
  | [] => None
  | e :: l => if decide (m_name e = name) then Some 0%nat
              else i ← position name l; Some (S i)
  end.

Lemma query_from_lemma m name : cstr_ok name → ∀ l i,
  (∀ j e, l !! j = Some e → mods_m m !! (i + j)%nat = Some (Some e)) →
  (∀ e, e ∈ l → cstr_ok (m_name e)) →
  query_from (length l) (Z.of_nat i) m name =
    Ok (match position name l with Some j => Z.of_nat (i + j) + 1 | None => 0 end).
Proof.
  intros Hname l. induction l as [|e l IH]; intros i Hel Hcs; cbn [query_from length position];
    [done|].
  rewrite (rd_init_ok _ _ e), bind_ok; [|lia|].
  2: { rewrite Nat2Z.id. specialize (Hel 0%nat e). rewrite Nat.add_0_r in Hel. by apply Hel. }
  assert (Hiff := strcmp_eq (m_name e) name (Hcs e ltac:(set_solver)) Hname).
  destruct (Z.eqb_spec (strcmp (m_name e) name) 0), (decide (m_name e = name)); try tauto.
  { by rewrite Nat.add_0_r. }
  replace (Z.of_nat i + 1) with (Z.of_nat (S i)) by lia. rewrite IH.
  - destruct (position name l); cbn; [|done]. do 2 f_equal. lia.
  - intros j e' Hj. rewrite <- (Hel (S j) e' Hj). f_equal. lia.
  - set_solver.
Qed.

Lemma query_lemma m l name :
  mods_ok m l → cstr_ok name →
  _query m name = Ok (match position name l with Some j => Z.of_nat j + 1 | None => 0 end).
Proof.
  intros [Hc _ _ Hel Hcs _ _] Hname. unfold _query. rewrite Hc, Nat2Z.id.
  exact (query_from_lemma m name Hname l 0 Hel Hcs).
Qed.

Lemma position_none name l : position name l = None ↔ name ∉ map m_name l.
Proof.
  induction l as [|e l IH]; cbn; [set_solver|]. rewrite not_elem_of_cons.
  destruct (decide (m_name e = name)); [naive_solver|].
  destruct (position name l); cbn; naive_solver.
Qed.

(** Adding an entry, or leaving garbage behind the last one. *)
Lemma mods_ok_write m l e :
  mods_ok m l → (length l < Z.to_nat MAX_MODULE_TYPE)%nat →
  ∃ a, wr (mods_m m) (mods_count m) (Some e) = Ok a ∧
    mods_ok (Modules (mods_count m) (mods_path m) a) l ∧
    (cstr_ok (m_name e) → position (m_name e) l = None →
     mods_ok (Modules (mods_count m + 1) (mods_path m) a) (l ++ [e])).
Proof.
  intros [Hc Hl Hr Hel Hcs Hp Hnd] Hroom. rewrite wr_ok by lia. eexists. split; [done|].
  rewrite Hc, Nat2Z.id. split; [split; cbn; try done|].
  - by rewrite length_insert.
  - intros i x Hi. rewrite list_lookup_insert_ne by (apply lookup_lt_Some in Hi; lia). by apply Hel.
  - intros He Hnone. split; cbn.
    + rewrite length_app. cbn. lia.
    + by rewrite length_insert.
    + rewrite length_app. cbn. lia.
    + apply (elems_snoc _ (mods_m m)); [done|apply list_lookup_insert_eq; lia|].
      intros p Hp'. by rewrite list_lookup_insert_ne by lia.
    + intros x Hx. apply elem_of_app in Hx as [Hx|Hx%list_elem_of_singleton]; [auto|by subst].
    + done.
    + rewrite map_app, NoDup_app. split; [done|]. split; [|apply NoDup_singleton].
      intros x Hx Hx'. apply list_elem_of_singleton in Hx' as ->.
      by apply position_none in Hnone.
Qed.

Section query.
Variable dlopen : cstring → Z.
Variable dlsym : Z → cstring → Z.

(** What a query returns and the modules that are loaded afterwards. *)
Definition query_spec (path name : cstring) (l : list skynet_module)
  : option Z * list skynet_module :=
  match position name l with
  | Some i => (Some (Z.of_nat i + 1), l)
  | None =>
      if (length l <? Z.to_nat MAX_MODULE_TYPE)%nat then
        match search dlopen name (segments path []) with
        | Exit => (None, l)
        | NotFound => (Some 0, l)
        | Opened dl =>
            if get_api dlsym name dl (str "_init") =? 0 then (Some 0, l)
            else (Some (Z.of_nat (length l) + 1), l ++ [(open_sym dlsym name dl).1])
        end
      else (Some 0, l)
  end.

Lemma module_query_lemma m l name :
  mods_ok m l → cstr_ok name →
  ∃ m', skynet_module_query dlopen dlsym m name = Ok ((query_spec (mods_path m) name l).1, m') ∧
    mods_ok m' (query_spec (mods_path m) name l).2 ∧ mods_path m' = mods_path m.
Proof.
  intros Hm Hname. unfold skynet_module_query, query_spec.
  rewrite (query_lemma m l name Hm Hname), bind_ok.
  destruct (position name l) as [i|] eqn:Epos.
  { destruct (Z.eqb_spec (Z.of_nat i + 1) 0); [lia|]. eauto. }
  cbn [Z.eqb negb andb]. rewrite bind_ok. cbn [Z.eqb andb].
  destruct (Nat.ltb_spec (length l) (Z.to_nat MAX_MODULE_TYPE)) as [Hlt|Hge].
  2: { destruct (Z.ltb_spec (mods_count m) MAX_MODULE_TYPE); [|eauto].
       rewrite (md_count _ _ Hm) in *. lia. }
  destruct (Z.ltb_spec (mods_count m) MAX_MODULE_TYPE); [|rewrite (md_count _ _ Hm) in *; lia].
  unfold _try_open. rewrite try_open_lemma by first [done|lia|apply Hm]. rewrite bind_ok.
  destruct (search dlopen name (segments (mods_path m) [])) as [dl| |]; [|eauto..].
  unfold open_sym. cbn [m_init fst snd].
  destruct (mods_ok_write m l (Mod name dl (get_api dlsym name dl (str "_create"))
    (get_api dlsym name dl (str "_init")) (get_api dlsym name dl (str "_release"))
    (get_api dlsym name dl (str "_signal"))) Hm Hlt) as (a & -> & Hgarbage & Hnew).
  rewrite bind_ok. destruct (get_api dlsym name dl (str "_init") =? 0); cbn [Z.eqb].
  - eexists. split; [done|]. done.
  - rewrite (md_count _ _ Hm). eexists. split; [done|]. cbn.
    rewrite <- (md_count _ _ Hm). split; [by apply Hnew|done].
Qed.

End query.

(** Loading tries the templates of the search path in order with the first [?]
    replaced by the service name, never writes outside the buffer of
    [strlen(path) + strlen(name)] bytes, always passes [dlopen] a terminated file name,
    and stops at the first library that opens (or exits at a template without [?]). *)
Theorem try_open_searches_path dlopen (m : modules) (name : cstring) :
  cstr_ok (mods_path m) → cstr_ok name →
  _try_open dlopen m name = Ok (search dlopen name (segments (mods_path m) [])).
Proof. intros Hp Hn. unfold _try_open. apply try_open_lemma; (done || lia). Qed.

Definition demo_dlopen (f : cstring) : Z := if strcmp f (str "b/gate.so") =? 0 then 7 else 0.
Definition demo_path : cstring := str ";a/?.so;;b/?.so".

Lemma try_open_searches_path_witness :
  cstr_ok demo_path ∧
  _try_open demo_dlopen (skynet_module_init demo_path) (str "gate") = Ok (Opened 7).
Proof.
  assert (Hp : cstr_ok demo_path) by (repeat constructor; lia).
  assert (Hn : cstr_ok (str "gate")) by (repeat constructor; lia).
  split; [exact Hp|].
  exact (try_open_searches_path demo_dlopen (skynet_module_init demo_path) (str "gate") Hp Hn).
Defined.


Lemma mods_init_ok path : cstr_ok path → mods_ok (skynet_module_init path) [].
Proof.
  intros Hp. split; try done.
  - cbn. lia.
  - intros e He. by apply not_elem_of_nil in He.
  - apply NoDup_nil_2.
Qed.

