(* ===== verification/Ring.v ===== *)
(** Circular buffers.

    Three components keep a queue in an array with a head and a tail index and grow
    it when the tail runs into the head: the per-service message queue
    ([skynet-src/skynet_mq.c]), the request and response queues of the package
    service ([src/service/package.c]) and the packet queue of netpack
    ([lualib-src/lua-netpack.c]).  This file has what they share: the representation
    relation between the array and the list it stores and the lemmas for reading at
    the head, writing at the tail and unrolling into a larger array. *)

From S2P Require Import Prelude.

Open Scope Z_scope.

(** [i + 1], back to [0] at the capacity. *)
Definition wrap1 (i cap : Z) : Z := if i + 1 >=? cap then 0 else i + 1.

Lemma wrap1_mod i cap : 0 ≤ i < cap → wrap1 i cap = (i + 1) mod cap.
Proof.
  intros Hi. unfold wrap1. destruct (Z.geb_spec (i + 1) cap) as [Hge|Hlt].
  - replace (i + 1) with cap by lia. by rewrite Z.mod_same by lia.
  - rewrite Z.mod_small; lia.
Qed.

Section ring.
Context {A : Type}.
Implicit Types (buf : list (option A)) (l : list A) (cap head tail : Z).

(** Slot [i] of the queue, counted from the head. *)
Definition ring_ix (head cap : Z) (i : nat) : nat :=
  Z.to_nat ((head + Z.of_nat i) mod cap).

Record ring_repr buf cap head tail l : Prop := {
  rr_len : Z.of_nat (length buf) = cap;
  rr_head : 0 ≤ head < cap;
  rr_room : Z.of_nat (length l) < cap;
  rr_tail : tail = (head + Z.of_nat (length l)) mod cap;
  rr_elem : ∀ i x, l !! i = Some x → buf !! ring_ix head cap i = Some (Some x)
}.

Lemma ring_repr_tail_range buf cap head tail l :
  ring_repr buf cap head tail l → 0 ≤ tail < cap.
Proof. intros [? ? ? -> ?]. apply Z.mod_pos_bound. lia. Qed.

Lemma ring_ix_inj head cap i j :
  0 < cap → Z.of_nat i < cap → Z.of_nat j < cap →
  ring_ix head cap i = ring_ix head cap j → i = j.
Proof.
  unfold ring_ix. intros Hc Hi Hj H.
  pose proof (Z.mod_pos_bound (head + Z.of_nat i) cap Hc).
  pose proof (Z.mod_pos_bound (head + Z.of_nat j) cap Hc).
  assert ((head + Z.of_nat i) mod cap = (head + Z.of_nat j) mod cap) as E by lia.
  assert ((Z.of_nat i - Z.of_nat j) mod cap = 0) as E'.
  { replace (Z.of_nat i - Z.of_nat j)
      with ((head + Z.of_nat i) - (head + Z.of_nat j)) by lia.
    rewrite Zminus_mod, E, Z.sub_diag. by apply Z.mod_0_l; lia. }
  apply Z.mod_divide in E' as [k Hk]; [|lia].
  assert (k = 0) by nia. lia.
Qed.

(** Head and tail meet exactly when the queue is empty. *)
Lemma ring_empty_iff buf cap head tail l :
  ring_repr buf cap head tail l → head = tail ↔ l = [].
Proof.
  intros [Hl Hh Hr -> _]. split.
  - intros E. destruct l as [|x l]; [done|exfalso]. cbn in *.
    assert (Hsub : (Z.of_nat (S (length l))) mod cap = 0).
    { replace (Z.of_nat (S (length l))) with
        ((head + Z.of_nat (S (length l))) - head) by lia.
      rewrite Zminus_mod, <- E, (Z.mod_small head cap Hh), Z.sub_diag.
      by apply Z.mod_0_l; lia. }
    rewrite Z.mod_small in Hsub; lia.
  - intros ->. cbn. rewrite Z.add_0_r, Z.mod_small; lia.
Qed.

(** The number of elements, as the code computes it from the indices. *)
Lemma ring_length buf cap head tail l :
  ring_repr buf cap head tail l →
  Z.of_nat (length l) = if head <=? tail then tail - head else tail + cap - head.
Proof.
  intros [Hl Hh Hr -> _].
  destruct (Z_lt_le_dec (head + Z.of_nat (length l)) cap).
  - rewrite Z.mod_small by lia. destruct (Z.leb_spec head (head + Z.of_nat (length l))); lia.
  - replace ((head + Z.of_nat (length l)) mod cap)
      with (head + Z.of_nat (length l) - cap).
    + destruct (Z.leb_spec head (head + Z.of_nat (length l) - cap)); lia.
    + apply Z.mod_unique with 1; lia.
Qed.

(** Reading at the head and stepping it. *)
Lemma ring_pop buf cap head tail x l :
  ring_repr buf cap head tail (x :: l) →
  rd_init buf head = Ok x ∧ ring_repr buf cap (wrap1 head cap) tail l.
Proof.
  intros [Hl Hh Hr -> He]. cbn [length] in *. split.
  - apply rd_init_ok; [lia|]. specialize (He 0%nat x eq_refl).
    unfold ring_ix in He. by rewrite Z.add_0_r, Z.mod_small in He.
  - rewrite wrap1_mod by done.
    assert (Hm : ∀ k, ((head + 1) mod cap + k) mod cap = (head + (1 + k)) mod cap).
    { intros k. rewrite Zplus_mod_idemp_l. f_equal. lia. }
    split; [done| |lia| |].
    + apply Z.mod_pos_bound. lia.
    + rewrite Hm. f_equal. lia.
    + intros i y Hy. unfold ring_ix. rewrite Hm.
      replace (head + (1 + Z.of_nat i)) with (head + Z.of_nat (S i)) by lia.
      by apply He.
Qed.

(** Writing at the tail and stepping it: the elements afterwards, with no claim
    that there is room. *)
Lemma ring_store_elem buf cap head tail l x i y :
  ring_repr buf cap head tail l →
  (l ++ [x]) !! i = Some y →
  <[Z.to_nat tail := Some x]> buf !! ring_ix head cap i = Some (Some y).
Proof.
  intros Hrr Hy. pose proof (ring_repr_tail_range _ _ _ _ _ Hrr) as Ht.
  destruct Hrr as [Hl Hh Hr Htl He].
  assert (Hti : Z.to_nat tail = ring_ix head cap (length l)) by (by rewrite Htl).
  apply lookup_app_Some in Hy as [Hy|[Hge Hy]].
  - rewrite list_lookup_insert_ne; [by apply He|].
    rewrite Hti. intros E. apply ring_ix_inj in E; [|lia|lia|];
      apply lookup_lt_Some in Hy; lia.
  - assert (i = length l) as ->.
    { apply lookup_lt_Some in Hy. cbn in Hy. lia. }
    rewrite Nat.sub_diag in Hy. injection Hy as ->.
    rewrite Hti. apply list_lookup_insert_eq. rewrite <- Hti. lia.
Qed.

Lemma ring_next_tail buf cap head tail l :
  ring_repr buf cap head tail l →
  wrap1 tail cap = (head + Z.of_nat (S (length l))) mod cap.
Proof.
  intros Hrr. pose proof (ring_repr_tail_range _ _ _ _ _ Hrr) as Ht.
  rewrite wrap1_mod by done. destruct Hrr as [_ _ _ -> _].
  rewrite Zplus_mod_idemp_l. f_equal. lia.
Qed.

Lemma ring_push buf cap head tail l x :
  ring_repr buf cap head tail l →
  Z.of_nat (length l) + 1 < cap →
  ring_repr (<[Z.to_nat tail := Some x]> buf) cap head (wrap1 tail cap) (l ++ [x])
  ∧ head ≠ wrap1 tail cap.
Proof.
  intros Hrr Hroom.
  assert (ring_repr (<[Z.to_nat tail := Some x]> buf) cap head (wrap1 tail cap) (l ++ [x]))
    as Hrr'.
  { split.
    - rewrite length_insert. apply Hrr.
    - apply Hrr.
    - rewrite length_app. cbn. lia.
    - rewrite (ring_next_tail _ _ _ _ _ Hrr), length_app. cbn. do 2 f_equal. lia.
    - intros i y Hy. by apply (ring_store_elem _ _ _ _ _ _ _ _ Hrr). }
  split; [done|]. rewrite (ring_empty_iff _ _ _ _ _ Hrr'). by destruct l.
Qed.

(** The tail reaches the head exactly when the last free slot is used. *)
Lemma ring_full buf cap head tail l :
  ring_repr buf cap head tail l →
  Z.of_nat (length l) + 1 = cap → head = wrap1 tail cap.
Proof.
  intros Hrr Hfull. rewrite (ring_next_tail _ _ _ _ _ Hrr).
  replace (Z.of_nat (S (length l))) with cap by lia.
  destruct Hrr as [_ Hh _ _ _].
  replace (head + cap) with (head + 1 * cap) by lia.
  rewrite Z.mod_add by lia. by rewrite Z.mod_small.
Qed.

Lemma ring_full_iff buf cap head tail l (x : A) :
  ring_repr buf cap head tail l →
  head = wrap1 tail cap ↔ Z.of_nat (length l) + 1 = cap.
Proof.
  intros Hrr. split; [|by eapply ring_full].
  intros E. destruct (decide (Z.of_nat (length l) + 1 < cap)) as [Hlt|Hge].
  - by destruct (ring_push _ _ _ _ _ x Hrr Hlt).
  - destruct Hrr. lia.
Qed.

(** The array a growing queue copies its elements to: elements first, the rest
    unwritten. *)
Lemma ring_repr_flat (new : list (option A)) cap l :
  Z.of_nat (length new) = cap → Z.of_nat (length l) < cap →
  (∀ i x, l !! i = Some x → new !! i = Some (Some x)) →
  ring_repr new cap 0 (Z.of_nat (length l)) l.
Proof.
  intros Hl Hr He. split; [done|lia|done| |].
  - rewrite Z.add_0_l, Z.mod_small; lia.
  - intros i x Hx. unfold ring_ix. rewrite Z.add_0_l.
    assert (i < length l)%nat by (by eapply lookup_lt_Some).
    rewrite Z.mod_small by lia. rewrite Nat2Z.id. by apply He.
Qed.

Lemma ring_repr_init cap :
  0 < cap → ring_repr (replicate (Z.to_nat cap) None) cap 0 0 [].
Proof.
  intros Hc. apply (ring_repr_flat _ cap []); [|cbn; lia|done].
  rewrite length_replicate. lia.
Qed.

End ring.

#[export] Hint Resolve ring_repr_tail_range : skynet.
