(* ===== verification/MessageQueue.v ===== *)
(** [skynet-src/skynet_mq.c]: the per-service message queues and the global queue
    of services that have work.

    Every function of the file takes one spin lock for its whole body (the lock of
    the queue, then the lock of the global queue), so a call is one atomic step on
    the shared state [mq_state]: the heap of [struct message_queue] by address and
    the two pointers of [struct global_queue].  Addresses are integers, [0] is NULL;
    a freed structure is absent from the heap, so a use after free faults. *)

From S2P Require Import Prelude Ring.

Open Scope Z_scope.

(** ** Data *)

Record skynet_message : Set := Message {
  source : Z;
  session : Z;
  data : Z;
  sz : Z
}.

#[global] Instance skynet_message_eq_dec : EqDecision skynet_message.
Proof. solve_decision. Defined.

(** The message type is in the high 8 bits of [sz] ([size_t] has 64 bits). *)
Definition MESSAGE_TYPE_MASK : Z := Z.shiftr (2 ^ 64 - 1) 8.
Definition MESSAGE_TYPE_SHIFT : Z := (8 - 1) * 8.

Definition PTYPE_TEXT : Z := 0.
Definition PTYPE_RESPONSE : Z := 1.
Definition PTYPE_CLIENT : Z := 3.
Definition PTYPE_SYSTEM : Z := 4.
Definition PTYPE_HARBOR : Z := 5.
Definition PTYPE_SOCKET : Z := 6.
Definition PTYPE_ERROR : Z := 7.
Definition PTYPE_TAG_DONTCOPY : Z := 0x10000.
Definition PTYPE_TAG_ALLOCSESSION : Z := 0x20000.

Definition DEFAULT_QUEUE_SIZE : Z := 64.
Definition MQ_IN_GLOBAL : Z := 1.
Definition MQ_OVERLOAD : Z := 1024.

Record message_queue : Set := MQ {
  mq_handle : Z;
  mq_cap : Z;
  mq_head : Z;
  mq_tail : Z;
  mq_release : Z;
  mq_in_global : Z;
  mq_overload : Z;
  mq_overload_threshold : Z;
  mq_queue : list (option skynet_message);
  mq_next : Z
}.

Record mq_state : Type := MQState {
  mq_heap : gmap Z message_queue;
  Q_head : Z;
  Q_tail : Z
}.

(** Field updates. *)
Definition set_next (n : Z) (q : message_queue) : message_queue :=
  MQ (mq_handle q) (mq_cap q) (mq_head q) (mq_tail q) (mq_release q) (mq_in_global q)
     (mq_overload q) (mq_overload_threshold q) (mq_queue q) n.
Definition set_in_global (g : Z) (q : message_queue) : message_queue :=
  MQ (mq_handle q) (mq_cap q) (mq_head q) (mq_tail q) (mq_release q) g
     (mq_overload q) (mq_overload_threshold q) (mq_queue q) (mq_next q).
Definition set_release (r : Z) (q : message_queue) : message_queue :=
  MQ (mq_handle q) (mq_cap q) (mq_head q) (mq_tail q) r (mq_in_global q)
     (mq_overload q) (mq_overload_threshold q) (mq_queue q) (mq_next q).
Definition set_overload (o t : Z) (q : message_queue) : message_queue :=
  MQ (mq_handle q) (mq_cap q) (mq_head q) (mq_tail q) (mq_release q) (mq_in_global q)
     o t (mq_queue q) (mq_next q).
Definition set_ring (c h t : Z) (b : list (option skynet_message)) (q : message_queue)
  : message_queue :=
  MQ (mq_handle q) c h t (mq_release q) (mq_in_global q)
     (mq_overload q) (mq_overload_threshold q) b (mq_next q).

Definition ldq (w : mq_state) (q : Z) : res message_queue :=
  or_fault BadPointer (mq_heap w !! q).
Definition stq (w : mq_state) (q : Z) (v : message_queue) : mq_state :=
  MQState (<[q := v]> (mq_heap w)) (Q_head w) (Q_tail w).

(** ** The global queue *)

Definition skynet_globalmq_push (w : mq_state) (queue : Z) : res mq_state :=
  mq ← ldq w queue;
  _ ← assertb (mq_next mq =? 0);
  if negb (Q_tail w =? 0) then
    t ← ldq w (Q_tail w);
    let w1 := stq w (Q_tail w) (set_next queue t) in
    Ok (MQState (mq_heap w1) (Q_head w1) queue)
  else
    Ok (MQState (mq_heap w) queue queue).

(** Returns the address popped, [0] when the queue is empty. *)
Definition skynet_globalmq_pop (w : mq_state) : res (Z * mq_state) :=
  let mq := Q_head w in
  if negb (mq =? 0) then
    m ← ldq w mq;
    w1 ← (if mq_next m =? 0 then
            _ ← assertb (mq =? Q_tail w);
            Ok (MQState (mq_heap w) 0 0)
          else Ok (MQState (mq_heap w) (mq_next m) (Q_tail w)));
    Ok (mq, stq w1 mq (set_next 0 m))
  else Ok (0, w).

(** ** One message queue *)

(** [addr] is the address the allocator returns. *)
Definition skynet_mq_create (w : mq_state) (addr : Z) (handle : Z) : mq_state :=
  stq w addr
    (MQ handle DEFAULT_QUEUE_SIZE 0 0 0 MQ_IN_GLOBAL 0 MQ_OVERLOAD
        (replicate (Z.to_nat DEFAULT_QUEUE_SIZE) None) 0).

Definition _release (w : mq_state) (q : Z) : res mq_state :=
  m ← ldq w q;
  _ ← assertb (mq_next m =? 0);
  Ok (MQState (delete q (mq_heap w)) (Q_head w) (Q_tail w)).

Definition skynet_mq_handle (w : mq_state) (q : Z) : res Z :=
  m ← ldq w q; Ok (mq_handle m).

Definition skynet_mq_length (w : mq_state) (q : Z) : res Z :=
  m ← ldq w q;
  if mq_head m <=? mq_tail m then int_chk (mq_tail m - mq_head m)
  else s ← int_chk (mq_tail m + mq_cap m); int_chk (s - mq_head m).

Definition skynet_mq_overload (w : mq_state) (q : Z) : res (Z * mq_state) :=
  m ← ldq w q;
  if negb (mq_overload m =? 0) then
    Ok (mq_overload m, stq w q (set_overload 0 (mq_overload_threshold m) m))
  else Ok (0, w).

(** [while (length > q->overload_threshold) { ... }]; the threshold doubles on every
    round, so 32 rounds exhaust the range of [int]. *)
Definition overload_loop (length : Z) (ot : Z * Z) : res (Z * Z) :=
  iterate 32 (λ '(o, t),
    if length >? t then t' ← int_chk (t * 2); Ok (Continue (length, t'))
    else Ok (Break (o, t))) ot.

(** Returns 0 and the message, or 1 when the queue is empty. *)
Definition skynet_mq_pop (w : mq_state) (q : Z)
  : res (Z * option skynet_message * mq_state) :=
  m ← ldq w q;
  if negb (mq_head m =? mq_tail m) then
    message ← rd_init (mq_queue m) (mq_head m);
    let head := mq_head m + 1 in
    let tail := mq_tail m in
    let cap := mq_cap m in
    let head := if head >=? cap then 0 else head in
    let length := tail - head in
    let length := if length <? 0 then length + cap else length in
    ot ← overload_loop length (mq_overload m, mq_overload_threshold m);
    Ok (0, Some message,
        stq w q (set_overload (fst ot) (snd ot) (set_ring cap head tail (mq_queue m) m)))
  else
    let m := set_overload (mq_overload m) MQ_OVERLOAD m in
    Ok (1, None, stq w q (set_in_global 0 m)).

Definition expand_queue (m : message_queue) : res message_queue :=
  cap2 ← int_chk (mq_cap m * 2);
  let new_queue := replicate (Z.to_nat cap2) None in
  new_queue ← for_range (Z.to_nat (mq_cap m)) 0 (λ i nq,
    h ← int_chk (mq_head m + i);
    x ← rd (mq_queue m) (Z.rem h (mq_cap m));
    wr nq i x) new_queue;
  Ok (set_ring cap2 0 (mq_cap m) new_queue m).

Definition skynet_mq_push (w : mq_state) (q : Z) (message : skynet_message)
  : res mq_state :=
  m ← ldq w q;
  buf ← wr (mq_queue m) (mq_tail m) (Some message);
  let tail := if mq_tail m + 1 >=? mq_cap m then 0 else mq_tail m + 1 in
  let m := set_ring (mq_cap m) (mq_head m) tail buf m in
  m ← (if mq_head m =? mq_tail m then expand_queue m else Ok m);
  if mq_in_global m =? 0 then
    skynet_globalmq_push (stq w q (set_in_global MQ_IN_GLOBAL m)) q
  else Ok (stq w q m).

Definition skynet_mq_init : mq_state := MQState ∅ 0 0.

Definition skynet_mq_mark_release (w : mq_state) (q : Z) : res mq_state :=
  m ← ldq w q;
  _ ← assertb (mq_release m =? 0);
  let w := stq w q (set_release 1 m) in
  if negb (mq_in_global m =? MQ_IN_GLOBAL) then skynet_globalmq_push w q else Ok w.

(** ** Dropping a queue

    The drop callback sends error replies, so it changes more than this component's
    state.  [MQView] is what the rest of the node promises: its state has an
    [mq_state] inside that can be read and replaced. *)

Class MQView (S : Type) := {
  mq_get : S → mq_state;
  mq_put : mq_state → S → S;
  mq_get_put w s : mq_get (mq_put w s) = w;
  mq_put_put w w' s : mq_put w (mq_put w' s) = mq_put w s;
  mq_put_get s : mq_put (mq_get s) s = s
}.

#[export] Instance mq_self : MQView mq_state :=
  {| mq_get := λ w, w; mq_put := λ w _, w;
     mq_get_put := λ _ _, eq_refl; mq_put_put := λ _ _ _, eq_refl;
     mq_put_get := λ _, eq_refl |}.

Section drop.
Context {S : Type} `{!MQView S}.
Variable drop_func : skynet_message → S → res S.

(** [while (!skynet_mq_pop(q, &msg)) drop_func(&msg, ud);] then free the queue. *)
Definition drop_step (q : Z) (s : S) : res (loop S S) :=
  '(ret, msg, w) ← skynet_mq_pop (mq_get s) q;
  if ret =? 0 then
    msg ← or_fault Uninitialised msg;
    s' ← drop_func msg (mq_put w s);
    Ok (Continue s')
  else Ok (Break (mq_put w s)).

Definition _drop_queue (fuel : nat) (s : S) (q : Z) : res S :=
  s ← iterate fuel (drop_step q) s;
  w ← _release (mq_get s) q;
  Ok (mq_put w s).

Definition skynet_mq_release (fuel : nat) (s : S) (q : Z) : res S :=
  m ← ldq (mq_get s) q;
  if negb (mq_release m =? 0) then _drop_queue fuel s q
  else w ← skynet_globalmq_push (mq_get s) q; Ok (mq_put w s).

End drop.

(** ** Abstraction

    What a message queue stores, and what the links of the global queue spell. *)

(** Capacities and thresholds are powers of two below the range of [int]. *)
Definition mq_cap_ok (c : Z) : Prop := ∃ k, 0 ≤ k ∧ c = 64 * 2 ^ k ∧ c ≤ 2 ^ 30.
Definition threshold_ok (t : Z) : Prop := ∃ k, 0 ≤ k ∧ t = 1024 * 2 ^ k ∧ t ≤ 2 ^ 30.

Record mq_repr (m : message_queue) (l : list skynet_message) : Prop := {
  mr_ring : ring_repr (mq_queue m) (mq_cap m) (mq_head m) (mq_tail m) l;
  mr_cap : mq_cap_ok (mq_cap m);
  mr_threshold : threshold_ok (mq_overload_threshold m)
}.

(** [chain h p qs]: following [next] from [p] visits exactly [qs]. *)
Fixpoint chain (h : gmap Z message_queue) (p : Z) (qs : list Z) : Prop :=
  match qs with
  | [] => p = 0
  | q :: qs' => p = q ∧ q ≠ 0 ∧ ∃ m, h !! q = Some m ∧ chain h (mq_next m) qs'
  end.

Record Q_repr (w : mq_state) (qs : list Z) : Prop := {
  qr_chain : chain (mq_heap w) (Q_head w) qs;
  qr_tail : Q_tail w = default 0 (last qs);
  qr_nodup : NoDup qs;
  qr_null : mq_heap w !! 0 = None;
  qr_out : ∀ q m, mq_heap w !! q = Some m → q ∉ qs → mq_next m = 0
}.

(** ** Abstract specification

    A message queue is a list of messages with its flags; the global queue is the
    list of the addresses that wait for a worker, oldest first. *)

Record aqueue : Set := AQ {
  a_handle : Z;
  a_release : bool;
  a_in_global : bool;
  a_msgs : list skynet_message
}.

Record aworld : Type := AW {
  a_queues : gmap Z aqueue;
  a_run : list Z
}.

Definition a_set (a : aworld) (q : Z) (aq : aqueue) : aworld :=
  AW (<[q := aq]> (a_queues a)) (a_run a).

(** Enqueue a message; an idle queue becomes runnable. *)
Definition a_push (a : aworld) (q : Z) (aq : aqueue) (x : skynet_message) : aworld :=
  AW (<[q := AQ (a_handle aq) (a_release aq) true (a_msgs aq ++ [x])]> (a_queues a))
     (if a_in_global aq then a_run a else a_run a ++ [q]).

(** Dequeue a message; an empty queue becomes idle. *)
Definition a_pop (a : aworld) (q : Z) (aq : aqueue)
  : Z * option skynet_message * aworld :=
  match a_msgs aq with
  | [] => (1, None, a_set a q (AQ (a_handle aq) (a_release aq) false []))
  | x :: l => (0, Some x, a_set a q (AQ (a_handle aq) (a_release aq) (a_in_global aq) l))
  end.

Definition a_gpush (a : aworld) (q : Z) : aworld := AW (a_queues a) (a_run a ++ [q]).

Definition a_gpop (a : aworld) : Z * aworld :=
  match a_run a with
  | [] => (0, a)
  | q :: qs => (q, AW (a_queues a) qs)
  end.

Definition a_create (a : aworld) (q handle : Z) : aworld :=
  a_set a q (AQ handle false true []).

Definition a_mark (a : aworld) (q : Z) (aq : aqueue) : aworld :=
  AW (<[q := AQ (a_handle aq) true (a_in_global aq) (a_msgs aq)]> (a_queues a))
     (if a_in_global aq then a_run a else a_run a ++ [q]).

Definition a_free (a : aworld) (q : Z) : aworld :=
  AW (delete q (a_queues a)) (a_run a).

Definition zbool (b : bool) : Z := if b then 1 else 0.

Record abs_mq (m : message_queue) (aq : aqueue) : Prop := {
  am_repr : mq_repr m (a_msgs aq);
  am_handle : mq_handle m = a_handle aq;
  am_release : mq_release m = zbool (a_release aq);
  am_in_global : mq_in_global m = zbool (a_in_global aq)
}.

Record refines (w : mq_state) (a : aworld) : Prop := {
  rf_Q : Q_repr w (a_run a);
  rf_mq : ∀ q, option_Forall2 abs_mq (mq_heap w !! q) (a_queues a !! q)
}.

(** ** Lemmas on the links *)

Lemma chain_next h h' p qs :
  (∀ q, q ∈ qs → mq_next <$> h !! q = mq_next <$> h' !! q) →
  chain h p qs → chain h' p qs.
Proof.
  revert p. induction qs as [|q qs IH]; intros p Hn; cbn; [done|].
  intros (-> & Hq & m & Hm & Hc). split; [done|]. split; [done|].
  assert (Hm' : mq_next <$> h' !! q = Some (mq_next m)).
  { rewrite <- Hn by set_solver. by rewrite Hm. }
  destruct (h' !! q) as [m'|]; [|done]. cbn in Hm'. injection Hm' as Hm'.
  exists m'. split; [done|]. rewrite Hm'.
  apply IH; [|done]. intros r Hr. apply Hn. set_solver.
Qed.

Lemma chain_insert_ne h p qs q m : q ∉ qs → chain h p qs → chain (<[q := m]> h) p qs.
Proof.
  intros Hq. apply chain_next. intros r Hr.
  rewrite lookup_insert_ne; [done|]. set_solver.
Qed.

(** Linking a new last element. *)
Lemma chain_snoc h p qs t mt q m :
  chain h p (qs ++ [t]) → NoDup (qs ++ [t]) → h !! t = Some mt → h !! q = Some m →
  mq_next m = 0 → q ∉ qs ++ [t] → q ≠ 0 →
  chain (<[t := set_next q mt]> h) p (qs ++ [t; q]).
Proof.
  revert p. induction qs as [|r qs IH]; intros p Hc Hnd Ht Hq Hm Hnq Hq0; cbn in *.
  - destruct Hc as (-> & Ht0 & m' & Hm' & _). split; [done|]. split; [done|].
    exists (set_next q mt). rewrite lookup_insert_eq. split; [done|]. cbn.
    split; [done|]. split; [done|]. exists m.
    rewrite lookup_insert_ne by set_solver. done.
  - destruct Hc as (-> & Hr0 & m' & Hm' & Hc). split; [done|]. split; [done|].
    apply NoDup_cons in Hnd as [Hr Hnd].
    exists m'. rewrite lookup_insert_ne by set_solver. split; [done|].
    apply IH; try done. set_solver.
Qed.

(** ** The refinement relation under updates *)

Lemma mq_repr_set_next n m l : mq_repr (set_next n m) l ↔ mq_repr m l.
Proof. split; intros [? ? ?]; by split. Qed.

Lemma abs_mq_set_next n m aq : abs_mq (set_next n m) aq ↔ abs_mq m aq.
Proof.
  split; intros [Hr ? ? ?]; split; try done; by apply (mq_repr_set_next n).
Qed.

Lemma refines_lookup w a q aq :
  refines w a → a_queues a !! q = Some aq →
  ∃ m, mq_heap w !! q = Some m ∧ ldq w q = Ok m ∧ abs_mq m aq.
Proof.
  intros [_ Hq] Ha. specialize (Hq q). rewrite Ha in Hq.
  destruct (mq_heap w !! q) as [m|] eqn:E; inversion Hq; subst.
  exists m. unfold ldq. by rewrite E.
Qed.

(** Replacing a queue by one with the same [next]. *)
Lemma refines_set w a q m m' aq' :
  refines w a → mq_heap w !! q = Some m → mq_next m' = mq_next m →
  abs_mq m' aq' → refines (stq w q m') (a_set a q aq').
Proof.
  intros [[Hc Ht Hnd H0 Ho] Hq] Hm Hn Habs. split; [split|]; cbn.
  - eapply chain_next; [|done]. intros r _. destruct (decide (r = q)) as [->|Hne].
    + rewrite Hm, lookup_insert_eq. cbn. by rewrite Hn.
    + by rewrite lookup_insert_ne.
  - done.
  - done.
  - rewrite lookup_insert_ne; [done|]. congruence.
  - intros r mr. destruct (decide (r = q)) as [->|Hne].
    + rewrite lookup_insert_eq. intros [= <-] Hr. rewrite Hn. by eapply Ho.
    + rewrite lookup_insert_ne by done. apply Ho.
  - intros r. destruct (decide (r = q)) as [->|Hne].
    + rewrite !lookup_insert_eq. by constructor.
    + rewrite !lookup_insert_ne by done. apply Hq.
Qed.

(** A fresh queue. *)
Lemma refines_new w a q m aq :
  refines w a → q ≠ 0 → mq_heap w !! q = None → q ∉ a_run a → mq_next m = 0 →
  abs_mq m aq → refines (stq w q m) (a_set a q aq).
Proof.
  intros [[Hc Ht Hnd H0 Ho] Hq] Hq0 Hnone Hrun Hn Habs. split; [split|]; cbn.
  - by apply chain_insert_ne.
  - done.
  - done.
  - by rewrite lookup_insert_ne.
  - intros r mr. rewrite lookup_insert. case_decide; naive_solver.
  - intros r. rewrite !lookup_insert. case_decide; [by constructor|]. apply Hq.
Qed.

Lemma refines_null w a : refines w a → a_queues a !! 0 = None.
Proof.
  intros [HQ Hq]. specialize (Hq 0). rewrite (qr_null _ _ HQ) in Hq.
  by inversion Hq.
Qed.

(** ** The global queue is a FIFO *)

Lemma globalmq_push_lemma w a q aq :
  refines w a → a_queues a !! q = Some aq → q ∉ a_run a →
  ∃ w', skynet_globalmq_push w q = Ok w' ∧ refines w' (a_gpush a q).
Proof.
  intros Href Ha Hrun.
  destruct (refines_lookup _ _ _ _ Href Ha) as (m & Hm & Hld & Habs).
  assert (Hq0 : q ≠ 0).
  { intros ->. rewrite (refines_null _ _ Href) in Ha. done. }
  destruct Href as [[Hc Ht Hnd H0 Ho] Hq].
  unfold skynet_globalmq_push. rewrite Hld, bind_ok.
  rewrite (Ho _ _ Hm Hrun). cbn [assertb Z.eqb]. rewrite bind_ok.
  destruct a as [aqs run]; cbn in *.
  destruct run as [|t run _] using rev_ind; cbn in *.
  - rewrite Ht. cbn. eexists. split; [done|].
    split; [split|]; cbn; try done.
    + split; [done|]. split; [done|]. exists m. by rewrite (Ho _ _ Hm Hrun).
    + apply NoDup_singleton.
    + intros r mr Hr Hnr. apply (Ho r); set_solver.
  - rewrite last_snoc in Ht. cbn in Ht. rewrite Ht.
    assert (∃ mt, mq_heap w !! t = Some mt ∧ t ≠ 0) as (mt & Hmt & Ht0).
    { clear -Hc. generalize dependent (Q_head w). induction run as [|r run IH]; cbn.
      - intros p (-> & ? & mt & ? & _). eauto.
      - intros p (_ & _ & mr & _ & Hc). eauto. }
    destruct (Z.eqb_spec t 0); [done|]. cbn [negb].
    unfold ldq. rewrite Hmt. cbn [or_fault]. rewrite bind_ok.
    eexists. split; [done|]. split; [split|]; cbn.
    + rewrite <- app_assoc. cbn. eapply chain_snoc; eauto.
    + by rewrite last_snoc.
    + apply NoDup_app. split; [done|]. split; [set_solver|]. apply NoDup_singleton.
    + by rewrite lookup_insert_ne.
    + intros r mr Hr Hnr. rewrite lookup_insert_ne in Hr by set_solver.
      apply (Ho r); set_solver.
    + intros r. rewrite lookup_insert. case_decide as E; [|apply Hq].
      subst r. specialize (Hq t). rewrite Hmt in Hq. inversion Hq; subst.
      constructor. by apply abs_mq_set_next.
Qed.

Lemma globalmq_pop_lemma w a :
  refines w a →
  ∃ w', skynet_globalmq_pop w = Ok ((a_gpop a).1, w') ∧ refines w' (a_gpop a).2.
Proof.
  intros [[Hc Ht Hnd H0 Ho] Hq]. destruct a as [aqs [|q run]]; cbn in *.
  { unfold skynet_globalmq_pop. rewrite Hc. cbn. exists w. split; [done|].
    split; [|done]. by split. }
  destruct Hc as (Hh & Hq0 & m & Hm & Hc). apply NoDup_cons in Hnd as [Hqr Hnd].
  unfold skynet_globalmq_pop. rewrite Hh.
  destruct (Z.eqb_spec q 0); [done|]. cbn [negb].
  unfold ldq. rewrite Hm. cbn [or_fault]. rewrite bind_ok.
  assert (∃ hd tl, (if mq_next m =? 0
      then _ ← assertb (q =? Q_tail w); Ok (MQState (mq_heap w) 0 0)
      else Ok (MQState (mq_heap w) (mq_next m) (Q_tail w)))
      = Ok (MQState (mq_heap w) hd tl) ∧
      chain (mq_heap w) hd run ∧ tl = default 0 (last run)) as (hd & tl & -> & Hc' & Htl).
  { destruct run as [|r run]; cbn in *.
    - rewrite Hc, Ht. cbn. rewrite Z.eqb_refl. cbn. eauto.
    - destruct Hc as (Hn & Hr0 & mr & Hmr & Hc). rewrite Hn.
      destruct (Z.eqb_spec r 0); [done|].
      exists r, (Q_tail w). split; [done|]. split; [eauto|].
      rewrite Ht. by destruct run. }
  rewrite bind_ok. eexists. split; [done|]. split; [split|]; cbn.
  - by apply chain_insert_ne.
  - done.
  - done.
  - by rewrite lookup_insert_ne.
  - intros r mr. rewrite lookup_insert. case_decide as E; [by intros [= <-]|].
    intros Hr Hnr. apply (Ho r); set_solver.
  - intros r. rewrite lookup_insert. case_decide as E; [subst r|apply Hq].
    specialize (Hq q). rewrite Hm in Hq. inversion Hq; subst. constructor.
    by apply abs_mq_set_next.
Qed.

(** ** Overload accounting *)

Lemma threshold_double t len :
  threshold_ok t → len > t → len < 2 ^ 30 →
  threshold_ok (t * 2) ∧ Z.log2 (t * 2) = Z.log2 t + 1 ∧ 0 ≤ Z.log2 t ≤ 29.
Proof.
  intros (k & Hk & -> & Hle) Hgt Hlen.
  assert (Hlog : ∀ j, 0 ≤ j → Z.log2 (1024 * 2 ^ j) = 10 + j).
  { intros j Hj. change 1024 with (2 ^ 10). rewrite <- Z.pow_add_r by lia.
    apply Z.log2_pow2. lia. }
  assert (k < 20).
  { destruct (Z_lt_le_dec k 20); [done|].
    assert (2 ^ 20 ≤ 2 ^ k) by (apply Z.pow_le_mono_r; lia). lia. }
  assert (Hs : 1024 * 2 ^ k * 2 = 1024 * 2 ^ (k + 1)).
  { rewrite Z.pow_add_r by lia. lia. }
  rewrite Hs, !Hlog by lia. split; [|lia]. exists (k + 1). split; [lia|]. split; [done|].
  assert (2 ^ (k + 1) ≤ 2 ^ 20) by (apply Z.pow_le_mono_r; lia). lia.
Qed.

(** The loop ends without overflow and leaves a threshold at least the length. *)
Lemma overload_loop_lemma len o t :
  threshold_ok t → 0 ≤ len < 2 ^ 30 →
  ∃ o' t', overload_loop len (o, t) = Ok (o', t') ∧ threshold_ok t' ∧ len ≤ t' ∧
    o' = if len >? t then len else o.
Proof.
  intros Ht Hlen. unfold overload_loop.
  destruct (iterate_total
    (λ '(o1, t1), threshold_ok t1 ∧ ((o1 = o ∧ t1 = t) ∨ (o1 = len ∧ len > t)))
    (λ '(o1, t1), threshold_ok t1 ∧ len ≤ t1 ∧ o1 = if len >? t then len else o)
    (λ '(o1, t1), Z.to_nat (31 - Z.log2 t1))
    (λ '(o1, t1), if len >? t1 then t' ← int_chk (t1 * 2); Ok (Continue (len, t'))
                  else Ok (Break (o1, t1)))) with (fuel := 32%nat) (s := (o, t))
    as ([o' t'] & Hr & Hq).
  - intros [o1 t1] [Ht1 Hor]. destruct (Z.gtb_spec len t1) as [Hgt|Hle].
    + right. destruct (threshold_double t1 len) as (Hok & Hlog & Hb); [done|lia|lia|].
      destruct Hok as (k & Hk & Hkt & Hk30).
      assert (0 < t1) by (destruct Ht1 as (k1 & ? & -> & _); lia).
      rewrite int_chk_ok by (unfold INT_MIN, INT_MAX; lia). rewrite bind_ok.
      eexists. split; [done|]. split; [split; [exists k; lia|lia]|]. lia.
    + left. eexists. split; [done|]. split; [done|]. split; [lia|].
      destruct Hor as [[-> ->]|[-> ?]]; destruct (Z.gtb_spec len t); lia.
  - auto.
  - pose proof (Z.log2_nonneg t). lia.
  - exists o', t'. rewrite Hr. naive_solver.
Qed.

(** ** Pop and push *)

Lemma mq_cap_bounds c : mq_cap_ok c → 64 ≤ c ≤ 2 ^ 30.
Proof. intros (k & Hk & -> & Hle). assert (1 ≤ 2 ^ k) by lia. lia. Qed.

(** What an operation on one queue leaves alone. *)
Definition same_meta (m m' : message_queue) : Prop :=
  mq_handle m' = mq_handle m ∧ mq_release m' = mq_release m ∧ mq_next m' = mq_next m.

Lemma mq_pop_nonempty w q m x l :
  mq_heap w !! q = Some m → mq_repr m (x :: l) →
  ∃ m', skynet_mq_pop w q = Ok (0, Some x, stq w q m') ∧ mq_repr m' l ∧
    same_meta m m' ∧ mq_in_global m' = mq_in_global m ∧
    Z.of_nat (length l) ≤ mq_overload_threshold m' ∧
    mq_overload m' = (if Z.of_nat (length l) >? mq_overload_threshold m
                      then Z.of_nat (length l) else mq_overload m).
Proof.
  intros Hm [Hring Hcap Hth]. pose proof (mq_cap_bounds _ Hcap) as Hcb.
  unfold skynet_mq_pop, ldq. rewrite Hm. cbn [or_fault]. rewrite bind_ok.
  assert (mq_head m ≠ mq_tail m) as Hne.
  { rewrite (ring_empty_iff _ _ _ _ _ Hring). done. }
  destruct (Z.eqb_spec (mq_head m) (mq_tail m)); [done|]. cbn [negb].
  destruct (ring_pop _ _ _ _ _ _ Hring) as [-> Hring']. rewrite bind_ok.
  fold (wrap1 (mq_head m) (mq_cap m)).
  set (h := wrap1 (mq_head m) (mq_cap m)) in *.
  assert (Hlen : (if mq_tail m - h <? 0 then mq_tail m - h + mq_cap m else mq_tail m - h)
                 = Z.of_nat (length l)).
  { rewrite (ring_length _ _ _ _ _ Hring').
    destruct (Z.ltb_spec (mq_tail m - h) 0), (Z.leb_spec h (mq_tail m)); lia. }
  rewrite Hlen.
  destruct (overload_loop_lemma (Z.of_nat (length l)) (mq_overload m)
              (mq_overload_threshold m) Hth) as (o' & t' & -> & Ht' & Hle & Ho').
  { destruct Hring'. lia. }
  rewrite bind_ok. eexists. split; [done|]. cbn. split; [by split|]. done.
Qed.

Lemma mq_pop_empty w q m :
  mq_heap w !! q = Some m → mq_repr m [] →
  ∃ m', skynet_mq_pop w q = Ok (1, None, stq w q m') ∧ mq_repr m' [] ∧
    same_meta m m' ∧ mq_in_global m' = 0 ∧ mq_overload_threshold m' = MQ_OVERLOAD.
Proof.
  intros Hm [Hring Hcap Hth]. unfold skynet_mq_pop, ldq. rewrite Hm. cbn [or_fault].
  rewrite bind_ok.
  assert (mq_head m = mq_tail m) as -> by (by rewrite (ring_empty_iff _ _ _ _ _ Hring)).
  rewrite Z.eqb_refl. cbn [negb]. eexists. split; [done|].
  split; [|done]. split; [done|done|]. exists 0. cbn. unfold MQ_OVERLOAD. lia.
Qed.

(** Copying a full ring to the front of an array of twice the size. *)
Lemma expand_queue_lemma m l :
  Z.of_nat (length (mq_queue m)) = mq_cap m → 0 ≤ mq_head m < mq_cap m →
  Z.of_nat (length l) = mq_cap m → mq_cap_ok (mq_cap m) → mq_cap m < 2 ^ 30 →
  threshold_ok (mq_overload_threshold m) →
  (∀ i y, l !! i = Some y →
     mq_queue m !! ring_ix (mq_head m) (mq_cap m) i = Some (Some y)) →
  ∃ m', expand_queue m = Ok m' ∧ mq_repr m' l ∧ same_meta m m' ∧
    mq_in_global m' = mq_in_global m ∧ mq_overload m' = mq_overload m.
Proof.
  intros Hlen Hh Hl Hcap Hc30 Hth Hel. pose proof (mq_cap_bounds _ Hcap) as Hcb.
  assert (Hcap2 : mq_cap_ok (mq_cap m * 2)).
  { destruct Hcap as (k & Hk & Hck & _). exists (k + 1).
    rewrite Z.pow_add_r by lia. split; [lia|]. split; [lia|].
    assert (k < 24).
    { destruct (Z_lt_le_dec k 24); [done|].
      assert (2 ^ 24 ≤ 2 ^ k) by (apply Z.pow_le_mono_r; lia). lia. }
    assert (2 ^ k ≤ 2 ^ 23) by (apply Z.pow_le_mono_r; lia). lia. }
  pose proof (mq_cap_bounds _ Hcap2) as Hcb2.
  unfold expand_queue. rewrite int_chk_ok by (unfold INT_MIN, INT_MAX; lia).
  rewrite bind_ok.
  destruct (for_range_inv (λ j nq,
     Z.of_nat (length nq) = mq_cap m * 2 ∧
     ∀ i, Z.of_nat i < j → nq !! i = mq_queue m !! ring_ix (mq_head m) (mq_cap m) i)
     (Z.to_nat (mq_cap m)) 0
     (λ i nq, h ← int_chk (mq_head m + i); x ← rd (mq_queue m) (Z.rem h (mq_cap m));
              wr nq i x) (replicate (Z.to_nat (mq_cap m * 2)) None))
     as (nq & -> & Hnql & Hnq).
  - rewrite length_replicate. split; [lia|]. intros i Hi. lia.
  - intros j nq Hj [Hnql Hnq].
    rewrite int_chk_ok by (unfold INT_MIN, INT_MAX; lia). rewrite bind_ok.
    rewrite Z.rem_mod_nonneg by lia.
    pose proof (Z.mod_pos_bound (mq_head m + j) (mq_cap m)).
    destruct (rd_in_range (mq_queue m) ((mq_head m + j) mod mq_cap m))
      as (x & Hx & ->); [lia|]. rewrite bind_ok, wr_ok by lia.
    eexists. split; [done|]. rewrite length_insert. split; [done|].
    intros i Hi. destruct (decide (i = Z.to_nat j)) as [->|Hij].
    + rewrite list_lookup_insert_eq by lia. unfold ring_ix. by rewrite Z2Nat.id, Hx by lia.
    + rewrite list_lookup_insert_ne by done. apply Hnq. lia.
  - rewrite bind_ok. eexists. split; [done|]. split; [|done].
    split; cbn; [|done|done]. rewrite <- Hl at 2.
    apply ring_repr_flat; [done|lia|]. intros i x Hx.
    pose proof (lookup_lt_Some _ _ _ Hx). rewrite Hnq by lia. by apply Hel.
Qed.

(** The ring part of [skynet_mq_push]: store, step the tail, grow when full. *)
Lemma mq_push_ring m l x :
  mq_repr m l → Z.of_nat (length l) + 1 < 2 ^ 30 →
  ∃ buf m', wr (mq_queue m) (mq_tail m) (Some x) = Ok buf ∧
    (let m1 := set_ring (mq_cap m) (mq_head m) (wrap1 (mq_tail m) (mq_cap m)) buf m in
     if mq_head m1 =? mq_tail m1 then expand_queue m1 else Ok m1) = Ok m' ∧
    mq_repr m' (l ++ [x]) ∧ same_meta m m' ∧ mq_in_global m' = mq_in_global m.
Proof.
  intros [Hring Hcap Hth] Hlen. pose proof (mq_cap_bounds _ Hcap) as Hcb.
  pose proof (ring_repr_tail_range _ _ _ _ _ Hring) as Htr.
  rewrite wr_ok by (rewrite (rr_len _ _ _ _ _ Hring); lia).
  eexists. cbn [set_ring mq_head mq_tail].
  destruct (Z.eqb_spec (mq_head m) (wrap1 (mq_tail m) (mq_cap m))) as [Efull|Hroom].
  - rewrite (ring_full_iff _ _ _ _ _ x Hring) in Efull.
    destruct (expand_queue_lemma
      (set_ring (mq_cap m) (mq_head m) (wrap1 (mq_tail m) (mq_cap m))
         (<[Z.to_nat (mq_tail m):=Some x]> (mq_queue m)) m) (l ++ [x]))
      as (m' & Hm' & Hr' & Hsame & Hig & _); cbn.
    + rewrite length_insert. apply Hring.
    + apply Hring.
    + rewrite length_app. cbn. lia.
    + done.
    + lia.
    + done.
    + intros i y Hy. by eapply ring_store_elem.
    + exists m'. split; [done|]. done.
  - assert (Z.of_nat (length l) + 1 < mq_cap m).
    { rewrite (ring_full_iff _ _ _ _ _ x Hring) in Hroom.
      destruct Hring. lia. }
    destruct (ring_push _ _ _ _ _ x Hring) as [Hring' _]; [done|].
    eexists. split; [done|]. split; [done|]. split; [by split|]. done.
Qed.

Lemma mq_push_lemma w a q aq x :
  refines w a → a_queues a !! q = Some aq →
  (a_in_global aq = false → q ∉ a_run a) →
  Z.of_nat (length (a_msgs aq)) + 1 < 2 ^ 30 →
  ∃ w', skynet_mq_push w q x = Ok w' ∧ refines w' (a_push a q aq x).
Proof.
  intros Href Ha Hrun Hlen.
  destruct (refines_lookup _ _ _ _ Href Ha) as (m & Hm & Hld & [Hr Hh Hrel Hig]).
  destruct (mq_push_ring m (a_msgs aq) x Hr Hlen)
    as (buf & m' & Hbuf & Hm' & Hr' & (Hmh & Hmr & Hmn) & Hmg).
  unfold skynet_mq_push. rewrite Hld, bind_ok, Hbuf, bind_ok.
  change (if mq_tail m + 1 >=? mq_cap m then 0 else mq_tail m + 1)
    with (wrap1 (mq_tail m) (mq_cap m)).
  cbv zeta in *. rewrite Hm', bind_ok, Hmg, Hig. unfold a_push.
  destruct (a_in_global aq) eqn:Eg; cbn [zbool Z.eqb].
  - eexists. split; [done|].
    apply (refines_set _ _ _ m); [done|done|done|].
    split; cbn; [done|congruence|congruence|]. by rewrite Hmg, Hig.
  - assert (refines (stq w q (set_in_global MQ_IN_GLOBAL m'))
              (a_set a q (AQ (a_handle aq) (a_release aq) true (a_msgs aq ++ [x]))))
      as Href'.
    { apply (refines_set _ _ _ m); [done|done|done|].
      destruct Hr'. split; cbn; [by split|congruence|congruence|done]. }
    destruct (globalmq_push_lemma _ _ q _ Href' (lookup_insert_eq _ _ _) (Hrun eq_refl))
      as (w' & Hw' & Href'').
    exists w'. split; [done|]. exact Href''.
Qed.

Lemma mq_pop_lemma w a q aq :
  refines w a → a_queues a !! q = Some aq →
  ∃ w', skynet_mq_pop w q = Ok ((a_pop a q aq).1, w') ∧ refines w' (a_pop a q aq).2.
Proof.
  intros Href Ha. destruct (refines_lookup _ _ _ _ Href Ha) as (m & Hm & _ & [Hr Hh Hrel Hig]).
  unfold a_pop. destruct (a_msgs aq) as [|x l] eqn:El.
  - destruct (mq_pop_empty w q m Hm Hr) as (m' & -> & Hr' & (? & ? & ?) & ? & _).
    eexists. split; [done|]. apply (refines_set _ _ _ m); [done..|].
    split; cbn; [done|congruence|congruence|done].
  - destruct (mq_pop_nonempty w q m x l Hm Hr) as (m' & -> & Hr' & (? & ? & ?) & Hg & _).
    eexists. split; [done|]. apply (refines_set _ _ _ m); [done..|].
    split; cbn; [done|congruence|congruence|congruence].
Qed.

Lemma mq_length_lemma w a q aq :
  refines w a → a_queues a !! q = Some aq →
  skynet_mq_length w q = Ok (Z.of_nat (length (a_msgs aq))).
Proof.
  intros Href Ha. destruct (refines_lookup _ _ _ _ Href Ha) as (m & Hm & Hld & [[Hr Hc _] _ _ _]).
  unfold skynet_mq_length. rewrite Hld, bind_ok.
  rewrite (ring_length _ _ _ _ _ Hr).
  pose proof (ring_repr_tail_range _ _ _ _ _ Hr). pose proof (mq_cap_bounds _ Hc).
  destruct Hr as [_ Hh _ _ _].
  destruct (Z.leb_spec (mq_head m) (mq_tail m)).
  - apply int_chk_ok. unfold INT_MIN, INT_MAX. lia.
  - rewrite int_chk_ok by (unfold INT_MIN, INT_MAX; lia). rewrite bind_ok.
    apply int_chk_ok. unfold INT_MIN, INT_MAX. lia.
Qed.

Lemma mq_create_lemma w a addr h :
  refines w a → addr ≠ 0 → a_queues a !! addr = None → addr ∉ a_run a →
  refines (skynet_mq_create w addr h) (a_create a addr h).
Proof.
  intros Href H0 Hn Hrun. apply refines_new; try done.
  - destruct Href as [_ Hq]. specialize (Hq addr). rewrite Hn in Hq. by inversion Hq.
  - split; try done. split; cbn.
    + by apply ring_repr_init.
    + exists 0. unfold DEFAULT_QUEUE_SIZE. lia.
    + exists 0. unfold MQ_OVERLOAD. lia.
Qed.

Lemma mq_mark_lemma w a q aq :
  refines w a → a_queues a !! q = Some aq → a_release aq = false →
  (a_in_global aq = false → q ∉ a_run a) →
  ∃ w', skynet_mq_mark_release w q = Ok w' ∧ refines w' (a_mark a q aq).
Proof.
  intros Href Ha Hrl Hrun.
  destruct (refines_lookup _ _ _ _ Href Ha) as (m & Hm & Hld & [Hr Hh Hrel Hig]).
  unfold skynet_mq_mark_release. rewrite Hld, bind_ok, Hrel, Hrl. cbn [zbool Z.eqb assertb].
  rewrite bind_ok.
  assert (refines (stq w q (set_release 1 m))
            (a_set a q (AQ (a_handle aq) true (a_in_global aq) (a_msgs aq)))) as Href'.
  { apply (refines_set _ _ _ m); [done..|]. destruct Hr. split; [by split|done..]. }
  rewrite Hig. unfold a_mark. destruct (a_in_global aq) eqn:Eg; cbn.
  - eexists. split; [done|]. exact Href'.
  - destruct (globalmq_push_lemma _ _ q _ Href' (lookup_insert_eq _ _ _) (Hrun eq_refl))
      as (w' & Hw' & Href'').
    exists w'. split; [done|]. exact Href''.
Qed.

Lemma release_lemma w a q aq :
  refines w a → a_queues a !! q = Some aq → q ∉ a_run a →
  ∃ w', _release w q = Ok w' ∧ refines w' (a_free a q).
Proof.
  intros Href Ha Hrun. destruct (refines_lookup _ _ _ _ Href Ha) as (m & Hm & Hld & _).
  destruct Href as [[Hc Ht Hnd H0 Ho] Hq].
  unfold _release. rewrite Hld, bind_ok, (Ho _ _ Hm Hrun). cbn [Z.eqb assertb].
  rewrite bind_ok. eexists. split; [done|]. split; [split|]; cbn; try done.
  - eapply chain_next; [|done]. intros r Hr. rewrite lookup_delete_ne; [done|]. set_solver.
  - rewrite lookup_delete. by case_decide.
  - intros r mr. rewrite lookup_delete. case_decide; [done|]. apply Ho.
  - intros r. rewrite !lookup_delete. case_decide; [constructor|apply Hq].
Qed.

(** ** Sequences of operations

    The operations other components call, as data, so that a whole history of calls
    can be run on the C state and on the abstract state side by side. *)

Inductive mq_op : Set :=
| OpCreate (addr handle : Z)
| OpPush (q : Z) (m : skynet_message)
| OpPop (q : Z)
| OpLength (q : Z)
| OpGlobalPush (q : Z)
| OpGlobalPop
| OpMark (q : Z)
| OpFree (q : Z).

Inductive mq_out : Set :=
| OutUnit
| OutInt (z : Z)
| OutMsg (r : Z) (m : option skynet_message).

Definition run_op (w : mq_state) (o : mq_op) : res (mq_out * mq_state) :=
  match o with
  | OpCreate addr h => Ok (OutUnit, skynet_mq_create w addr h)
  | OpPush q m => w ← skynet_mq_push w q m; Ok (OutUnit, w)
  | OpPop q => '(r, m, w) ← skynet_mq_pop w q; Ok (OutMsg r m, w)
  | OpLength q => n ← skynet_mq_length w q; Ok (OutInt n, w)
  | OpGlobalPush q => w ← skynet_globalmq_push w q; Ok (OutUnit, w)
  | OpGlobalPop => '(q, w) ← skynet_globalmq_pop w; Ok (OutInt q, w)
  | OpMark q => w ← skynet_mq_mark_release w q; Ok (OutUnit, w)
  | OpFree q => w ← _release w q; Ok (OutUnit, w)
  end.

(** The specification of the same calls; [None] when the caller breaks the contract
    (an address that is not a queue, a queue that is linked twice, an allocator that
    returns an address in use, a second release, 2^30 messages in one queue). *)
Definition spec_op (a : aworld) (o : mq_op) : option (mq_out * aworld) :=
  match o with
  | OpCreate addr h =>
      if decide (addr ≠ 0 ∧ a_queues a !! addr = None ∧ addr ∉ a_run a)
      then Some (OutUnit, a_create a addr h) else None
  | OpPush q m =>
      aq ← a_queues a !! q;
      if decide (Z.of_nat (length (a_msgs aq)) + 1 < 2 ^ 30 ∧
                 (a_in_global aq = true ∨ q ∉ a_run a))
      then Some (OutUnit, a_push a q aq m) else None
  | OpPop q =>
      aq ← a_queues a !! q;
      let p := a_pop a q aq in Some (OutMsg p.1.1 p.1.2, p.2)
  | OpLength q =>
      aq ← a_queues a !! q; Some (OutInt (Z.of_nat (length (a_msgs aq))), a)
  | OpGlobalPush q =>
      aq ← a_queues a !! q;
      if decide (q ∉ a_run a) then Some (OutUnit, a_gpush a q) else None
  | OpGlobalPop => Some (OutInt (a_gpop a).1, (a_gpop a).2)
  | OpMark q =>
      aq ← a_queues a !! q;
      if decide (a_release aq = false ∧ (a_in_global aq = true ∨ q ∉ a_run a))
      then Some (OutUnit, a_mark a q aq) else None
  | OpFree q =>
      aq ← a_queues a !! q;
      if decide (q ∉ a_run a) then Some (OutUnit, a_free a q) else None
  end.

Fixpoint run_ops (w : mq_state) (os : list mq_op) : res (list mq_out * mq_state) :=
  match os with
  | [] => Ok ([], w)
  | o :: os => '(r, w) ← run_op w o; '(rs, w) ← run_ops w os; Ok (r :: rs, w)
  end.

Fixpoint spec_ops (a : aworld) (os : list mq_op) : option (list mq_out * aworld) :=
  match os with
  | [] => Some ([], a)
  | o :: os => '(r, a) ← spec_op a o; '(rs, a) ← spec_ops a os; Some (r :: rs, a)
  end.

Lemma idle_guard (b : bool) (P : Prop) : b = true ∨ P → b = false → P.
Proof. by destruct b; intros [|]. Qed.

Lemma run_op_refines w a o r a' :
  refines w a → spec_op a o = Some (r, a') →
  ∃ w', run_op w o = Ok (r, w') ∧ refines w' a'.
Proof.
  intros Href Hs. destruct o as [addr h|q m|q|q|q| |q|q]; cbn [spec_op run_op] in *;
    try (apply bind_Some in Hs as (aq & Ha & Hs)); try (case_decide; [|done]);
    injection Hs as <- <-.
  - eexists. split; [done|]. apply mq_create_lemma; naive_solver.
  - destruct (mq_push_lemma w a q aq m Href Ha) as (w' & -> & ?);
      [apply idle_guard; tauto|lia|eauto].
  - destruct (mq_pop_lemma w a q aq Href Ha) as (w' & -> & ?). cbn.
    destruct (a_pop a q aq) as [[? ?] ?]. cbn in *. eauto.
  - rewrite (mq_length_lemma w a q aq Href Ha). cbn. eauto.
  - destruct (globalmq_push_lemma w a q aq Href Ha) as (w' & -> & ?); [done|eauto].
  - destruct (globalmq_pop_lemma w a Href) as (w' & -> & ?). cbn. eauto.
  - destruct (mq_mark_lemma w a q aq Href Ha) as (w' & -> & ?);
      [tauto|apply idle_guard; tauto|eauto].
  - destruct (release_lemma w a q aq Href Ha) as (w' & -> & ?); [done|eauto].
Qed.

Lemma refines_init : refines skynet_mq_init (AW ∅ []).
Proof.
  split; [split|]; cbn; try done; [constructor|..].
  intros q. rewrite !lookup_empty. constructor.
Qed.

Lemma run_ops_refines os : ∀ w a rs a',
  refines w a → spec_ops a os = Some (rs, a') →
  ∃ w', run_ops w os = Ok (rs, w') ∧ refines w' a'.
Proof.
  induction os as [|o os IH]; intros w a rs a' Href Hs; cbn in *.
  - injection Hs as <- <-. eauto.
  - destruct (spec_op a o) as [[r a1]|] eqn:E1; [|done]. cbn in Hs.
    destruct (spec_ops a1 os) as [[rs1 a2]|] eqn:E2; [|done]. cbn in Hs.
    injection Hs as <- <-.
    destruct (run_op_refines _ _ _ _ _ Href E1) as (w1 & -> & Href1). cbn.
    destruct (IH _ _ _ _ Href1 E2) as (w2 & -> & Href2). cbn. eauto.
Qed.

(** ** Properties *)

(** C1. From [skynet_mq_init] on, every history of calls that respects the contract of
    [skynet_mq.c] runs without a fault (no failed [assert], no out-of-range or
    uninitialised slot, no dangling pointer, no signed overflow) and returns exactly
    what the abstract queues return: per-service FIFOs of messages and a FIFO of
    runnable services, whatever the ring buffers and links look like inside. *)
Theorem mq_history_refines (os : list mq_op) (rs : list mq_out) (a : aworld)
  (Hspec : spec_ops (AW ∅ []) os = Some (rs, a)) :
  ∃ w, run_ops skynet_mq_init os = Ok (rs, w) ∧ refines w a.
Proof. exact (run_ops_refines os _ _ _ _ refines_init Hspec). Qed.

Definition demo_ops : list mq_op :=
  [OpCreate 8 257; OpCreate 16 258; OpGlobalPush 8; OpPop 16;
   OpPush 16 (Message 257 1 0 5); OpPush 16 (Message 257 2 0 6);
   OpGlobalPop; OpGlobalPop; OpPop 16; OpLength 16; OpMark 8; OpFree 8].

Lemma mq_history_refines_witness :
  ∃ rs a w, spec_ops (AW ∅ []) demo_ops = Some (rs, a) ∧
    run_ops skynet_mq_init demo_ops = Ok (rs, w) ∧ refines w a.
Proof.
  destruct (spec_ops (AW ∅ []) demo_ops) as [[rs a]|] eqn:E; [|vm_compute in E; discriminate E].
  destruct (mq_history_refines demo_ops rs a E) as (w & H1 & H2).
  exists rs, a, w. split; [reflexivity|]. split; assumption.
Defined.

(** C2. Popping from a queue that holds messages returns the oldest one, keeps the
    rest, never overflows the doubling of [overload_threshold], leaves the threshold
    at least as large as the queue and records the length as [overload] exactly when
    the old threshold was exceeded. *)
Theorem mq_pop_overload w q m x l
  (Hm : mq_heap w !! q = Some m) (Hr : mq_repr m (x :: l)) :
  ∃ m', skynet_mq_pop w q = Ok (0, Some x, stq w q m') ∧ mq_repr m' l ∧
    Z.of_nat (length l) ≤ mq_overload_threshold m' ∧
    mq_overload m' = (if Z.of_nat (length l) >? mq_overload_threshold m
                      then Z.of_nat (length l) else mq_overload m).
Proof.
  destruct (mq_pop_nonempty w q m x l Hm Hr) as (m' & ? & ? & _ & _ & ? & ?).
  by exists m'.
Qed.

Lemma mq_pop_overload_witness :
  let m := MQ 257 64 0 1 0 1 0 1024
             (Some (Message 1 2 3 4) :: replicate 63 None) 0 in
  let w := MQState {[ 8 := m ]} 0 0 in
  ∃ m', skynet_mq_pop w 8 = Ok (0, Some (Message 1 2 3 4), stq w 8 m') ∧ mq_repr m' [] ∧
    Z.of_nat (length (@nil skynet_message)) ≤ mq_overload_threshold m' ∧
    mq_overload m' = (if Z.of_nat (length (@nil skynet_message)) >? mq_overload_threshold m
                      then Z.of_nat (length (@nil skynet_message)) else mq_overload m).
Proof.
  intros m w. apply (mq_pop_overload w 8 m (Message 1 2 3 4) []); [reflexivity|].
  split.
  - split; [reflexivity|cbn; lia|cbn; lia|reflexivity|].
    intros [|i] y H; [|done]. injection H as <-. reflexivity.
  - exists 0. cbn. lia.
  - exists 0. cbn. lia.
Defined.

(** ** Draining a released queue *)

Section drain.
Context {S : Type} `{!MQView S}.
Variable drop_func : skynet_message → S → res S.
Variable q : Z.

(** An observer of the callback: the messages it was given so far. *)
Variable dropped : S → list skynet_message.
Hypothesis dropped_put : ∀ w s, dropped (mq_put w s) = dropped s.

(** The contract of the callback: it terminates, keeps the queues well formed and
    leaves the queue being drained alone. *)
Hypothesis drop_ok : ∀ msg s a aq,
  refines (mq_get s) a → a_queues a !! q = Some aq → q ∉ a_run a →
  ∃ s' a', drop_func msg s = Ok s' ∧ refines (mq_get s') a' ∧
    a_queues a' !! q = Some aq ∧ q ∉ a_run a' ∧ dropped s' = dropped s ++ [msg].

Lemma drain_loop l : ∀ fuel s a aq,
  refines (mq_get s) a → a_queues a !! q = Some aq → q ∉ a_run a → a_msgs aq = l →
  (length l < fuel)%nat →
  ∃ s' a' aq', iterate fuel (drop_step drop_func q) s = Ok s' ∧ refines (mq_get s') a' ∧
    a_queues a' !! q = Some aq' ∧ q ∉ a_run a' ∧ dropped s' = dropped s ++ l.
Proof.
  induction l as [|x l IH]; intros fuel s a aq Href Ha Hrun Hl Hf;
    (destruct fuel as [|fuel]; [cbn in Hf; lia|]); cbn [iterate];
    destruct (mq_pop_lemma _ _ _ _ Href Ha) as (w' & Hpop & Href');
    unfold drop_step at 2; rewrite Hpop; unfold a_pop in *; rewrite Hl in *; cbn.
  - exists (mq_put w' s), (a_set a q (AQ (a_handle aq) (a_release aq) false [])).
    eexists. split; [done|]. rewrite mq_get_put. split; [done|].
    split; [apply lookup_insert_eq|]. split; [done|]. by rewrite dropped_put, app_nil_r.
  - destruct (drop_ok x (mq_put w' s) _
        (AQ (a_handle aq) (a_release aq) (a_in_global aq) l)
        ltac:(rewrite mq_get_put; exact Href') (lookup_insert_eq _ _ _) Hrun)
      as (s1 & a1 & -> & Href1 & Ha1 & Hrun1 & Hd1). cbn.
    destruct (IH fuel s1 a1 _ Href1 Ha1 Hrun1 eq_refl) as (s2 & a2 & aq2 & ? & ? & ? & ? & Hd2).
    { cbn in Hf. lia. }
    exists s2, a2, aq2. repeat (split; [done|]).
    by rewrite Hd2, Hd1, dropped_put, <- app_assoc.
Qed.

(** C3. Releasing a queue that is marked for release hands every pending message to the
    drop callback exactly once, oldest first, and then frees the queue; the loop
    needs no more rounds than there are messages. *)
Theorem mq_release_drains fuel s a aq
  (Href : refines (mq_get s) a) (Ha : a_queues a !! q = Some aq) (Hrun : q ∉ a_run a)
  (Hrel : a_release aq = true) (Hfuel : (length (a_msgs aq) < fuel)%nat) :
  ∃ s' a', skynet_mq_release drop_func fuel s q = Ok s' ∧ refines (mq_get s') a' ∧
    a_queues a' !! q = None ∧ mq_heap (mq_get s') !! q = None ∧
    dropped s' = dropped s ++ a_msgs aq.
Proof.
  destruct (refines_lookup _ _ _ _ Href Ha) as (m & _ & Hld & Habs).
  destruct (drain_loop _ fuel s a aq Href Ha Hrun eq_refl Hfuel)
    as (s1 & a1 & aq1 & Hit & Href1 & Ha1 & Hrun1 & Hd1).
  destruct (release_lemma _ _ _ _ Href1 Ha1 Hrun1) as (w2 & Hw2 & Href2).
  exists (mq_put w2 s1), (a_free a1 q). unfold skynet_mq_release.
  rewrite Hld, bind_ok, (am_release _ _ Habs), Hrel. cbn [zbool Z.eqb negb].
  unfold _drop_queue. rewrite Hit, bind_ok, Hw2, bind_ok, mq_get_put.
  split; [done|]. split; [done|].
  assert (a_queues (a_free a1 q) !! q = None) as Hnone by apply lookup_delete_eq.
  split; [done|]. split.
  - destruct Href2 as [_ Hq]. specialize (Hq q). rewrite Hnone in Hq. by inversion Hq.
  - by rewrite dropped_put.
Qed.

End drain.

(** A callback that records what it is given. *)
#[local] Instance mq_logged : MQView (mq_state * list skynet_message) :=
  {| mq_get := fst; mq_put := λ w s, (w, s.2);
     mq_get_put := λ _ _, eq_refl; mq_put_put := λ _ _ _, eq_refl;
     mq_put_get := λ s, match s with (_, _) => eq_refl end |}.

Definition log_drop (m : skynet_message) (s : mq_state * list skynet_message)
  : res (mq_state * list skynet_message) := Ok (s.1, s.2 ++ [m]).

Lemma mq_release_drains_witness :
  ∃ a w aq s',
    spec_ops (AW ∅ []) [OpCreate 8 257; OpPush 8 (Message 1 2 0 0); OpMark 8]
      = Some ([OutUnit; OutUnit; OutUnit], a) ∧
    refines w a ∧ a_queues a !! 8 = Some aq ∧ a_msgs aq = [Message 1 2 0 0] ∧
    skynet_mq_release log_drop 2 (w, []) 8 = Ok s' ∧ s'.2 = [Message 1 2 0 0].
Proof.
  set (ops := [OpCreate 8 257; OpPush 8 (Message 1 2 0 0); OpMark 8]).
  destruct (spec_ops (AW ∅ []) ops) as [[rs a]|] eqn:E; [|vm_compute in E; discriminate E].
  assert (rs = [OutUnit; OutUnit; OutUnit] ∧ a_run a = [] ∧
    a_queues a !! 8 = Some (AQ 257 true true [Message 1 2 0 0])) as (-> & Hr & Hq).
  { vm_compute in E. injection E as <- <-. vm_compute. auto. }
  destruct (run_ops_refines ops _ _ _ _ refines_init E) as (w & _ & Href).
  destruct (@mq_release_drains _ mq_logged log_drop 8 snd ltac:(reflexivity)
    ltac:(intros msg s b bq H1 H2 H3; exists (s.1, s.2 ++ [msg]), b; auto)
    2 (w, []) a _ Href Hq ltac:(rewrite Hr; set_solver) ltac:(reflexivity) ltac:(cbn; lia))
    as (s' & a' & Hs' & _ & _ & _ & Hd).
  exists a, w, (AQ 257 true true [Message 1 2 0 0]), s'.
  split; [reflexivity|]. repeat (split; [assumption || reflexivity|]). exact Hd.
Defined.
