(* ===== verification/Timer.v ===== *)
(** [skynet-src/skynet_timer.c]: the hierarchical timing wheel.

    Time is a 32-bit counter of centiseconds that wraps around.  [near] has one list
    per tick of the current block of 256 ticks; [t[i]] has one list per block of
    [2^(8+6i)] ticks.  [timer_shift] advances the clock and redistributes the list
    of the block it enters.  A [struct link_list] (a sentinel head and a tail
    pointer) is modelled by the list of its nodes in link order: [link] appends,
    [link_clear] returns the nodes and leaves the list empty.  The functions that
    hold the spin lock throughout are atomic; [timer_execute] drops the lock while it
    dispatches, so its model takes the calls of [timer_add] that other threads make
    in each such window. *)

From S2P Require Import Prelude CString MessageQueue.
Open Scope Z_scope.

(** ** Data *)

Definition TIME_NEAR_SHIFT : Z := 8.
Definition TIME_NEAR : Z := Z.shiftl 1 TIME_NEAR_SHIFT.
Definition TIME_LEVEL_SHIFT : Z := 6.
Definition TIME_LEVEL : Z := Z.shiftl 1 TIME_LEVEL_SHIFT.
Definition TIME_NEAR_MASK : Z := TIME_NEAR - 1.
Definition TIME_LEVEL_MASK : Z := TIME_LEVEL - 1.

Record timer_event : Set := Event { ev_handle : Z; ev_session : Z }.

(** The allocation of a node holds the event behind the node. *)
Record timer_node : Set := Node { expire : Z; event : timer_event }.

Definition link_list : Set := list timer_node.

Record timer : Set := Timer {
  near : list link_list;
  t : list (list link_list);
  time : Z;
  starttime : Z;
  current : Z;
  current_point : Z
}.

Definition link (list : link_list) (node : timer_node) : link_list := list ++ [node].

Definition link_clear (list : link_list) : link_list * link_list := (list, []).

Definition set_near (n : list link_list) (T : timer) : timer :=
  Timer n (t T) (time T) (starttime T) (current T) (current_point T).
Definition set_t (l : list (list link_list)) (T : timer) : timer :=
  Timer (near T) l (time T) (starttime T) (current T) (current_point T).
Definition set_time (z : Z) (T : timer) : timer :=
  Timer (near T) (t T) z (starttime T) (current T) (current_point T).
Definition set_clock (st c cp : Z) (T : timer) : timer :=
  Timer (near T) (t T) (time T) st c cp.

(** ** Operations *)

(** [for (i=0;i<3;i++) { if (same block) break; mask <<= TIME_LEVEL_SHIFT; }] *)
Fixpoint find_level (n : nat) (i mask time current_time : Z) : Z :=
  match n with
  | O => i
  | S n =>
      if Z.lor time (u32 (mask - 1)) =? Z.lor current_time (u32 (mask - 1)) then i
      else find_level n (i + 1) (u32 (Z.shiftl mask TIME_LEVEL_SHIFT)) time current_time
  end.

Definition add_node (T : timer) (node : timer_node) : res timer :=
  let time := expire node in
  let current_time := Timer.time T in
  if Z.lor time TIME_NEAR_MASK =? Z.lor current_time TIME_NEAR_MASK then
    let ix := Z.land time TIME_NEAR_MASK in
    l ← rd (near T) ix;
    n ← wr (near T) ix (link l node);
    Ok (set_near n T)
  else
    let i := find_level 3 0 (Z.shiftl TIME_NEAR TIME_LEVEL_SHIFT) time current_time in
    let ix := Z.land (Z.shiftr time (TIME_NEAR_SHIFT + i * TIME_LEVEL_SHIFT))
                TIME_LEVEL_MASK in
    row ← rd (t T) i;
    l ← rd row ix;
    row ← wr row ix (link l node);
    tt ← wr (t T) i row;
    Ok (set_t tt T).

(** [time] is a C [int]; the sum with the unsigned clock wraps. *)
Definition timer_add (T : timer) (arg : timer_event) (time : Z) : res timer :=
  add_node T (Node (u32 (time + Timer.time T)) arg).

Fixpoint add_nodes (T : timer) (nodes : list timer_node) : res timer :=
  match nodes with
  | [] => Ok T
  | node :: nodes => T ← add_node T node; add_nodes T nodes
  end.

Definition move_list (T : timer) (level idx : Z) : res timer :=
  row ← rd (t T) level;
  l ← rd row idx;
  row ← wr row idx (link_clear l).2;
  tt ← wr (t T) level row;
  add_nodes (set_t tt T) (link_clear l).1.

(** The [while] loop of [timer_shift]: the state is [mask], [time] and [i].  A fifth
    round would shift [mask] out of the range of [int]. *)
Definition shift_step (T : timer) (ct : Z) (s : Z * Z * Z) : res (loop (Z * Z * Z) timer) :=
  let '(mask, time, i) := s in
  if Z.land ct (mask - 1) =? 0 then
    let idx := Z.land time TIME_LEVEL_MASK in
    if negb (idx =? 0) then T' ← move_list T i idx; Ok (Break T')
    else
      mask' ← int_chk (Z.shiftl mask TIME_LEVEL_SHIFT);
      Ok (Continue (mask', Z.shiftr time TIME_LEVEL_SHIFT, i + 1))
  else Ok (Break T).

Definition timer_shift (T : timer) : res timer :=
  let ct := u32 (time T + 1) in
  let T := set_time ct T in
  if ct =? 0 then move_list T 3 0
  else iterate 5 (shift_step T ct) (TIME_NEAR, Z.shiftr ct TIME_NEAR_SHIFT, 0).

(** ** Dispatch

    What the timer needs from the node: delivering a message to a handle
    ([skynet_context_push]), which returns 0, or -1 for an unknown handle. *)
Class ContextPush (S : Type) :=
  context_push : Z → skynet_message → S → res (Z * S).

Section dispatch.
Context {S : Type} `{!ContextPush S}.

(** The message a timer delivers. *)
Definition timeout_message (session : Z) : skynet_message :=
  Message 0 session 0 (Z.shiftl PTYPE_RESPONSE MESSAGE_TYPE_SHIFT).

Fixpoint dispatch_list (nodes : list timer_node) (s : S) : res S :=
  match nodes with
  | [] => Ok s
  | node :: nodes =>
      '(_, s) ← context_push (ev_handle (event node))
                  (timeout_message (ev_session (event node))) s;
      dispatch_list nodes s
  end.

(** Calls of [timer_add] by other threads while the lock is free. *)
Fixpoint timer_adds (T : timer) (adds : list (timer_event * Z)) : res timer :=
  match adds with
  | [] => Ok T
  | (arg, time) :: adds => T ← timer_add T arg time; timer_adds T adds
  end.

(** [env] has the calls made in each window where the lock is dropped. *)
Fixpoint timer_execute (fuel : nat) (env : list (list (timer_event * Z)))
    (T : timer) (s : S) : res (timer * S * list (list (timer_event * Z))) :=
  let idx := Z.land (time T) TIME_NEAR_MASK in
  l ← rd (near T) idx;
  match l with
  | [] => Ok (T, s, env)
  | _ :: _ =>
      match fuel with
      | O => Fault OutOfFuel
      | Datatypes.S fuel =>
          n ← wr (near T) idx (link_clear l).2;
          let T := set_near n T in
          s ← dispatch_list (link_clear l).1 s;
          T ← timer_adds T (hd [] env);
          timer_execute fuel (tl env) T s
      end
  end.

Definition timer_update (fuel : nat) (env : list (list (timer_event * Z)))
    (T : timer) (s : S) : res (timer * S * list (list (timer_event * Z))) :=
  '(T, s, env) ← timer_execute fuel env T s;
  T ← timer_shift T;
  timer_execute fuel env T s.

(** Returns the session, or -1 when an immediate timeout cannot be delivered. *)
Definition skynet_timeout (T : timer) (s : S) (handle time session : Z)
  : res (Z * timer * S) :=
  if time <=? 0 then
    '(r, s) ← context_push handle (timeout_message session) s;
    if negb (r =? 0) then Ok (-1, T, s) else Ok (session, T, s)
  else
    T ← timer_add T (Event handle session) time;
    Ok (session, T, s).

(** [for (i=0;i<diff;i++) timer_update(TI);] with one environment per update. *)
Fixpoint timer_updates (fuel n : nat) (env : list (list (timer_event * Z)))
    (T : timer) (s : S) : res (timer * S * list (list (timer_event * Z))) :=
  match n with
  | O => Ok (T, s, env)
  | Datatypes.S n =>
      '(T, s, env) ← timer_update fuel env T s;
      timer_updates fuel n env T s
  end.

Definition time_error (cp point : Z) : cstring :=
  str "time diff error: change from " ++ print_d (i64 cp) ++ str " to " ++ print_d (i64 point).

(** [cp] is the monotonic clock in centiseconds and [error] is [skynet_error].  The comparison
    [i<diff] converts [i] to unsigned, so the loop runs [diff] times, unless the [int] [i]
    overflows before. *)
Definition skynet_updatetime (error : cstring → S → res S) (fuel : nat) (env : list (list (timer_event * Z)))
    (cp : Z) (T : timer) (s : S) : res (timer * S * list (list (timer_event * Z))) :=
  if cp <? current_point T then
    s ← error (time_error cp (current_point T)) s;
    Ok (set_clock (starttime T) (current T) cp T, s, env)
  else if negb (cp =? current_point T) then
    let diff := u32 (cp - current_point T) in
    let T := set_clock (starttime T) (u64 (current T + diff)) cp T in
    let rounds := Z.min diff (INT_MAX + 1) in
    r ← timer_updates fuel (Z.to_nat rounds) env T s;
    _ ← int_chk rounds;
    Ok r
  else Ok (T, s, env).

End dispatch.

Definition timer_create_timer : timer :=
  Timer (replicate (Z.to_nat TIME_NEAR) [])
        (replicate 4 (replicate (Z.to_nat TIME_LEVEL) [])) 0 0 0 0.

Definition skynet_starttime (T : timer) : Z := starttime T.
Definition skynet_now (T : timer) : Z := current T.

(** The clocks: a [struct timespec] as the operating system returns it. *)
Record timespec : Set := Timespec { tv_sec : Z; tv_nsec : Z }.

Definition systime (ti : timespec) : Z * Z :=
  (u32 (tv_sec ti), u32 (Z.quot (tv_nsec ti) 10000000)).

Definition gettime (ti : timespec) : Z :=
  u64 (u64 (u64 (tv_sec ti) * 100) + Z.quot (tv_nsec ti) 10000000).

Definition skynet_thread_time (ti : timespec) : Z :=
  u64 (u64 (tv_sec ti) * 1000000 + Z.quot (u64 (tv_nsec ti)) 1000).

Definition skynet_timer_init (realtime monotonic : timespec) : timer :=
  let '(sec, cs) := systime realtime in
  set_clock sec cs (gettime monotonic) timer_create_timer.

(** ** Where a node belongs

    The list a node with expiry [e] is in when the clock shows [now]. *)

Inductive loc : Set :=
| Near (j : Z)
| Level (i j : Z).

#[global] Instance loc_eq_dec : EqDecision loc.
Proof. solve_decision. Defined.

Definition place (e now : Z) : loc :=
  if decide (e / 2 ^ 8 = now / 2 ^ 8) then Near (e mod 2 ^ 8)
  else if decide (e / 2 ^ 14 = now / 2 ^ 14) then Level 0 ((e / 2 ^ 8) mod 64)
  else if decide (e / 2 ^ 20 = now / 2 ^ 20) then Level 1 ((e / 2 ^ 14) mod 64)
  else if decide (e / 2 ^ 26 = now / 2 ^ 26) then Level 2 ((e / 2 ^ 20) mod 64)
  else Level 3 ((e / 2 ^ 26) mod 64).

Definition look (T : timer) (l : loc) : option link_list :=
  match l with
  | Near j => near T !! Z.to_nat j
  | Level i j => row ← t T !! Z.to_nat i; row !! Z.to_nat j
  end.

Definition loc_ok (l : loc) : Prop :=
  match l with
  | Near j => 0 ≤ j < 256
  | Level i j => 0 ≤ i < 4 ∧ 0 ≤ j < 64
  end.

(** Masks and shifts as division. *)
Lemma lor_ones_eq a b k : 0 ≤ k →
  Z.lor a (Z.ones k) = Z.lor b (Z.ones k) ↔ a / 2 ^ k = b / 2 ^ k.
Proof.
  intros Hk. rewrite <- !Z.shiftr_div_pow2 by done. split; intros E.
  - apply Z.bits_inj'. intros n Hn. rewrite !Z.shiftr_spec by done.
    apply (f_equal (λ z, Z.testbit z (n + k))) in E.
    rewrite !Z.lor_spec, Z.ones_spec_high, !orb_false_r in E by lia. done.
  - apply Z.bits_inj'. intros n Hn. rewrite !Z.lor_spec.
    destruct (Z_lt_le_dec n k).
    + by rewrite Z.ones_spec_low, !orb_true_r by lia.
    + rewrite Z.ones_spec_high, !orb_false_r by lia.
      apply (f_equal (λ z, Z.testbit z (n - k))) in E.
      rewrite !Z.shiftr_spec in E by lia.
      by replace (n - k + k) with n in E by lia.
Qed.

Lemma land_mask a k : 0 ≤ k → Z.land a (Z.shiftl 1 k - 1) = a mod 2 ^ k.
Proof.
  intros Hk. rewrite Z.shiftl_1_l, Z.sub_1_r, <- Z.ones_equiv. by apply Z.land_ones.
Qed.

(** Updating one list. *)
Definition upd (T : timer) (l : loc) (x : link_list) : timer :=
  match l with
  | Near j => set_near (<[Z.to_nat j := x]> (near T)) T
  | Level i j => set_t (alter (λ row, <[Z.to_nat j := x]> row) (Z.to_nat i) (t T)) T
  end.

Record shape_ok (T : timer) : Prop := {
  sh_near : length (near T) = 256%nat;
  sh_t : length (t T) = 4%nat;
  sh_row : ∀ i row, t T !! i = Some row → length row = 64%nat
}.

Lemma shape_upd T l x : shape_ok T → shape_ok (upd T l x).
Proof.
  intros [Hn Ht Hr]. destruct l as [j|i j]; split; cbn; try done.
  - by rewrite length_insert.
  - by rewrite length_alter.
  - intros k row. rewrite list_lookup_alter. case_decide as E; [subst k|apply Hr].
    destruct (t T !! Z.to_nat i) as [r|] eqn:Er; [|done]. cbn.
    intros [= <-]. rewrite length_insert. by eapply Hr.
Qed.

Lemma look_ok T l : shape_ok T → loc_ok l → ∃ x, look T l = Some x.
Proof.
  intros [Hn Ht Hr] Hl. destruct l as [j|i j]; cbn in *.
  - apply lookup_lt_is_Some_2. lia.
  - destruct (lookup_lt_is_Some_2 (t T) (Z.to_nat i)) as [row Hrow]; [lia|].
    rewrite Hrow. cbn. apply lookup_lt_is_Some_2. rewrite (Hr _ _ Hrow). lia.
Qed.

Lemma look_upd T l l' x :
  shape_ok T → loc_ok l → loc_ok l' →
  look (upd T l x) l' = if decide (l = l') then Some x else look T l'.
Proof.
  intros [Hn Ht Hr] Hl Hl'. destruct l as [j|i j], l' as [j'|i' j']; cbn in *.
  - destruct (decide (Near j = Near j')) as [[= <-]|Hne].
    + rewrite list_lookup_insert_eq; [done|lia].
    + rewrite list_lookup_insert_ne; [done|]. intros E. apply Hne. f_equal. lia.
  - by rewrite decide_False by done.
  - by rewrite decide_False by done.
  - destruct (decide (Z.to_nat i = Z.to_nat i')) as [Ei|Ei].
    + assert (i' = i) as -> by lia.
      destruct (lookup_lt_is_Some_2 (t T) (Z.to_nat i)) as [row Hrow]; [lia|].
      rewrite list_lookup_alter_eq, Hrow. cbn.
      destruct (decide (Level i j = Level i j')) as [[= <-]|Hne].
      * rewrite list_lookup_insert_eq; [done|]. rewrite (Hr _ _ Hrow). lia.
      * rewrite list_lookup_insert_ne; [done|]. intros E. apply Hne. f_equal. lia.
    + rewrite list_lookup_alter_ne by done.
      rewrite decide_False; [done|]. intros [= -> _]. done.
Qed.

Lemma time_upd T l x : time (upd T l x) = time T.
Proof. by destruct l. Qed.

Lemma place_ok e now : loc_ok (place e now).
Proof.
  unfold place. repeat case_decide; cbn; repeat split; try lia;
    apply Z.mod_pos_bound; lia.
Qed.

(** [add_node] puts a node where it belongs. *)
Lemma find_level_place e now :
  0 ≤ e < 2 ^ 32 →
  e / 2 ^ 8 ≠ now / 2 ^ 8 →
  let i := find_level 3 0 (Z.shiftl TIME_NEAR TIME_LEVEL_SHIFT) e now in
  0 ≤ i < 4 ∧
  place e now = Level i (Z.land (Z.shiftr e (TIME_NEAR_SHIFT + i * TIME_LEVEL_SHIFT))
                           TIME_LEVEL_MASK).
Proof.
  intros He Hne. unfold find_level.
  change (u32 (Z.shiftl TIME_NEAR TIME_LEVEL_SHIFT - 1)) with (Z.ones 14).
  change (u32 (Z.shiftl (u32 (Z.shiftl (Z.shiftl TIME_NEAR TIME_LEVEL_SHIFT)
    TIME_LEVEL_SHIFT)) TIME_LEVEL_SHIFT) - 1) with (2 ^ 26 - 1).
  change (u32 (u32 (Z.shiftl (Z.shiftl TIME_NEAR TIME_LEVEL_SHIFT) TIME_LEVEL_SHIFT) - 1))
    with (Z.ones 20).
  change (u32 (2 ^ 26 - 1)) with (Z.ones 26).
  unfold place. rewrite decide_False by done.
  destruct (Z.eqb_spec (Z.lor e (Z.ones 14)) (Z.lor now (Z.ones 14))) as [E|E];
    rewrite lor_ones_eq in E by lia.
  { rewrite decide_True by done. split; [lia|]. unfold TIME_LEVEL_MASK, TIME_LEVEL.
    by rewrite land_mask, Z.shiftr_div_pow2. }
  rewrite decide_False by done.
  destruct (Z.eqb_spec (Z.lor e (Z.ones 20)) (Z.lor now (Z.ones 20))) as [E2|E2];
    rewrite lor_ones_eq in E2 by lia.
  { rewrite decide_True by done. split; [lia|]. unfold TIME_LEVEL_MASK, TIME_LEVEL.
    by rewrite land_mask, Z.shiftr_div_pow2. }
  rewrite decide_False by done.
  destruct (Z.eqb_spec (Z.lor e (Z.ones 26)) (Z.lor now (Z.ones 26))) as [E3|E3];
    rewrite lor_ones_eq in E3 by lia;
    [rewrite decide_True by done|rewrite decide_False by done];
    (split; [lia|]; unfold TIME_LEVEL_MASK, TIME_LEVEL;
     by rewrite land_mask, Z.shiftr_div_pow2).
Qed.

Lemma rd_near T j l : 0 ≤ j → look T (Near j) = Some l → rd (near T) j = Ok l.
Proof. intros Hj Hl. by apply rd_ok. Qed.

Lemma rd_level T i j l :
  loc_ok (Level i j) → look T (Level i j) = Some l →
  ∃ row, rd (t T) i = Ok row ∧ t T !! Z.to_nat i = Some row ∧ rd row j = Ok l ∧
    ∀ x tt, wr row j x = Ok tt → wr (t T) i tt = Ok (t (upd T (Level i j) x)).
Proof.
  intros [Hi Hj] Hl. cbn in Hl. apply bind_Some in Hl as (row & Hrow & Hl).
  pose proof (lookup_lt_Some _ _ _ Hrow). pose proof (lookup_lt_Some _ _ _ Hl).
  exists row. split; [apply rd_ok; [lia|done]|]. split; [done|].
  split; [apply rd_ok; [lia|done]|].
  intros x tt Hw. apply wr_ok_inv in Hw as [_ ->]. rewrite wr_ok by lia. f_equal. cbn.
  apply list_eq. intros k. rewrite list_lookup_alter, list_lookup_insert.
  case_decide; repeat case_decide; simplify_eq; try lia; by rewrite ?Hrow.
Qed.

Lemma add_node_lemma T n :
  shape_ok T → 0 ≤ expire n < 2 ^ 32 →
  ∃ l, look T (place (expire n) (time T)) = Some l ∧
    add_node T n = Ok (upd T (place (expire n) (time T)) (l ++ [n])).
Proof.
  intros Hsh He. destruct (look_ok T _ Hsh (place_ok (expire n) (time T))) as [l Hl].
  exists l. split; [done|]. unfold add_node.
  change TIME_NEAR_MASK with (Z.ones 8).
  destruct (Z.eqb_spec (Z.lor (expire n) (Z.ones 8)) (Z.lor (time T) (Z.ones 8))) as [E|E];
    rewrite lor_ones_eq in E by lia.
  - unfold place in *. rewrite decide_True in * by done.
    rewrite Z.land_ones by lia.
    pose proof (Z.mod_pos_bound (expire n) (2 ^ 8)).
    rewrite (rd_near T _ l) by (done || lia). rewrite bind_ok, wr_ok.
    + done.
    + rewrite (sh_near _ Hsh). lia.
  - destruct (find_level_place (expire n) (time T) He E) as [Hi Hp].
    pose proof (place_ok (expire n) (time T)) as Hok. rewrite Hp in *.
    destruct (rd_level T _ _ l Hok Hl) as (row & -> & Hrow & Hrd & Hwr).
    rewrite bind_ok, Hrd, bind_ok. destruct Hok as [_ Hj].
    rewrite wr_ok by (rewrite (sh_row _ Hsh _ _ Hrow); lia). rewrite bind_ok.
    erewrite Hwr; [done|]. apply wr_ok. rewrite (sh_row _ Hsh _ _ Hrow). lia.
Qed.

(** A run of insertions, list by list. *)
Lemma add_nodes_lemma ns : ∀ T,
  shape_ok T → Forall (λ n, 0 ≤ expire n < 2 ^ 32) ns →
  ∃ T', add_nodes T ns = Ok T' ∧ shape_ok T' ∧ time T' = time T ∧
    ∀ l, loc_ok l → ∃ x, look T l = Some x ∧
      look T' l = Some (x ++ filter (λ n, place (expire n) (time T) = l) ns).
Proof.
  induction ns as [|n ns IH]; intros T Hsh Hns; cbn [add_nodes].
  - exists T. split; [done|]. split; [done|]. split; [done|]. intros l Hl.
    destruct (look_ok T l Hsh Hl) as [x Hx]. exists x.
    by rewrite filter_nil, app_nil_r.
  - apply Forall_cons in Hns as [Hn Hns].
    destruct (add_node_lemma T n Hsh Hn) as (l0 & Hl0 & ->). rewrite bind_ok.
    destruct (IH (upd T (place (expire n) (time T)) (l0 ++ [n])) (shape_upd _ _ _ Hsh) Hns)
      as (T' & HT' & Hsh' & Htm & Hlook).
    exists T'. rewrite time_upd in *. do 3 (split; [done|]). intros l Hl.
    destruct (Hlook l Hl) as (x & Hx & Hx').
    rewrite look_upd in Hx by (done || apply place_ok).
    rewrite filter_cons. destruct (decide (place (expire n) (time T) = l)) as [<-|E].
    + exists l0. split; [done|]. injection Hx as <-. by rewrite Hx', <- app_assoc.
    + by exists x.
Qed.

Lemma move_list_lemma T i j :
  shape_ok T → loc_ok (Level i j) →
  (∀ x, look T (Level i j) = Some x → Forall (λ n, 0 ≤ expire n < 2 ^ 32) x) →
  ∃ m T', look T (Level i j) = Some m ∧ move_list T i j = Ok T' ∧ shape_ok T' ∧
    time T' = time T ∧
    ∀ l, loc_ok l → ∃ x, look T l = Some x ∧
      look T' l = Some ((if decide (l = Level i j) then [] else x) ++
                        filter (λ n, place (expire n) (time T) = l) m).
Proof.
  intros Hsh Hl Hm. destruct (look_ok T _ Hsh Hl) as [m Hlm].
  destruct (rd_level T i j m Hl Hlm) as (row & Hrd & Hrow & Hrdr & Hwr).
  assert (Hw : wr row j [] = Ok (<[Z.to_nat j := []]> row)).
  { apply wr_ok. rewrite (sh_row _ Hsh _ _ Hrow). destruct Hl. lia. }
  destruct (add_nodes_lemma m (upd T (Level i j) []) (shape_upd _ _ _ Hsh) (Hm _ Hlm))
    as (T' & HT' & Hsh' & Htm & Hlook).
  exists m, T'. split; [done|]. split.
  { unfold move_list. rewrite Hrd, bind_ok, Hrdr, bind_ok. cbn [link_clear snd fst].
    rewrite Hw, bind_ok, (Hwr _ _ Hw), bind_ok. exact HT'. }
  split; [done|]. split; [done|]. intros l Hlo.
  destruct (Hlook l Hlo) as (x & Hx & Hx'). rewrite look_upd in Hx by done.
  destruct (look_ok T l Hsh Hlo) as [x0 Hx0]. exists x0. split; [done|].
  rewrite Hx', time_upd.
  destruct (decide (Level i j = l)) as [<-|E].
  - injection Hx as <-. by rewrite decide_True by done.
  - rewrite decide_False by congruence. rewrite Hx0 in Hx. by injection Hx as ->.
Qed.

(** ** One tick of the wheel

    [entered now'] is the list [timer_shift] redistributes when the clock reaches
    [now']: that of the largest block that begins there, if a block begins at all. *)

Definition entered (now : Z) : option loc :=
  if decide (now mod 2 ^ 8 ≠ 0) then None
  else if decide ((now / 2 ^ 8) mod 64 ≠ 0) then Some (Level 0 ((now / 2 ^ 8) mod 64))
  else if decide ((now / 2 ^ 14) mod 64 ≠ 0) then Some (Level 1 ((now / 2 ^ 14) mod 64))
  else if decide ((now / 2 ^ 20) mod 64 ≠ 0) then Some (Level 2 ((now / 2 ^ 20) mod 64))
  else Some (Level 3 ((now / 2 ^ 26) mod 64)).

(** A pending node expires after the present, less than half a turn away. *)
Definition ahead (e now : Z) : Prop :=
  0 ≤ e < 2 ^ 32 ∧ 0 < (e - now) mod 2 ^ 32 < 2 ^ 31.

Lemma ahead_lt e now :
  0 ≤ now < 2 ^ 32 → ahead e now →
  0 ≤ e < 2 ^ 32 ∧ (now < e < now + 2 ^ 31 ∨ (e < now ∧ e + 2 ^ 32 < now + 2 ^ 31)).
Proof.
  intros Hn [He Hd]. split; [done|].
  change (2 ^ 32) with 4294967296 in *. change (2 ^ 31) with 2147483648 in *.
  Z.div_mod_to_equations. lia.
Qed.

Lemma next_now now : 0 ≤ now < 2 ^ 32 →
  (now + 1 < 2 ^ 32 ∧ u32 (now + 1) = now + 1) ∨ (now = 2 ^ 32 - 1 ∧ u32 (now + 1) = 0).
Proof.
  intros Hn. destruct (decide (now = 2 ^ 32 - 1)) as [->|Hne]; [by right|].
  left. split; [lia|]. apply u32_small. lia.
Qed.

(** The block sizes of the wheel. *)
Definition wheel_block (B : Z) : Prop := B = 2 ^ 8 ∨ B = 2 ^ 14 ∨ B = 2 ^ 20 ∨ B = 2 ^ 26.

Lemma wheel_block_8 : wheel_block (2 ^ 8). Proof. unfold wheel_block; auto. Qed.
Lemma wheel_block_14 : wheel_block (2 ^ 14). Proof. unfold wheel_block; auto. Qed.
Lemma wheel_block_20 : wheel_block (2 ^ 20). Proof. unfold wheel_block; auto. Qed.
Lemma wheel_block_26 : wheel_block (2 ^ 26). Proof. unfold wheel_block; auto. Qed.
#[local] Hint Resolve wheel_block_8 wheel_block_14 wheel_block_20 wheel_block_26 : core.

Ltac pow_const :=
  change (2 ^ 26) with 67108864 in *; change (2 ^ 20) with 1048576 in *;
  change (2 ^ 14) with 16384 in *; change (2 ^ 8) with 256 in *;
  change (2 ^ 32) with 4294967296 in *; change (2 ^ 31) with 2147483648 in *.

(** Inside a block the tick does not change the block number. *)
Lemma tick_same B now :
  wheel_block B → 0 ≤ now < 2 ^ 32 → u32 (now + 1) mod B ≠ 0 →
  u32 (now + 1) / B = now / B.
Proof.
  intros HB Hn Hm. destruct (next_now now Hn) as [[Hlt E]|[_ E]]; rewrite E in *; clear E.
  - destruct HB as [->|[->|[->| ->]]]; pow_const; Z.div_mod_to_equations; lia.
  - exfalso. apply Hm. by rewrite Z.mod_0_l by (destruct HB as [->|[->|[->| ->]]]; lia).
Qed.

(** When a block begins, no pending node is in the block before it. *)
Lemma tick_new B e now :
  wheel_block B → 0 ≤ now < 2 ^ 32 → ahead e now → u32 (now + 1) mod B = 0 →
  e / B ≠ now / B.
Proof.
  intros HB Hn Ha Hm. destruct (ahead_lt e now Hn Ha) as [He Hlt].
  destruct (next_now now Hn) as [[Hlt' E]|[Hlast E]]; rewrite E in *; clear E Ha;
    destruct HB as [->|[->|[->| ->]]]; pow_const; Z.div_mod_to_equations; lia.
Qed.

(** Equal block number and equal digit give equal number of the smaller block. *)
Lemma digit_block B a b :
  0 < B → a / (B * 64) = b / (B * 64) → (a / B) mod 64 = (b / B) mod 64 → a / B = b / B.
Proof. intros HB. rewrite <- !Z.div_div by lia. Z.div_mod_to_equations. lia. Qed.

Lemma digit_zero B a : 0 < B → a mod B = 0 → (a / B) mod 64 = 0 → a mod (B * 64) = 0.
Proof.
  intros HB H1 H2. rewrite Z.rem_mul_r by lia. rewrite H1, H2. lia.
Qed.

Lemma digit_nonzero B a : 0 < B → (a / B) mod 64 ≠ 0 → a mod (B * 64) ≠ 0.
Proof.
  intros HB H1 H2. apply H1. rewrite Z.rem_mul_r in H2 by lia.
  pose proof (Z.mod_pos_bound a B HB). pose proof (Z.mod_pos_bound (a / B) 64). nia.
Qed.

Definition rank (l : loc) : Z := match l with Near _ => 0 | Level i _ => i + 1 end.

(** What the level entered says about the clock: [B] begins, the next larger block
    does not (or there is none). *)
Definition enters (now' i B : Z) : Prop :=
  (i = 0 ∧ B = 2 ^ 8 ∧ now' mod 2 ^ 14 ≠ 0) ∨
  (i = 1 ∧ B = 2 ^ 14 ∧ now' mod 2 ^ 20 ≠ 0) ∨
  (i = 2 ∧ B = 2 ^ 20 ∧ now' mod 2 ^ 26 ≠ 0) ∨
  (i = 3 ∧ B = 2 ^ 26).

Lemma entered_enters now' i j :
  entered now' = Some (Level i j) →
  ∃ B, enters now' i B ∧ j = (now' / B) mod 64 ∧
    now' mod B = 0 ∧ now' mod 2 ^ 8 = 0 ∧ (0 < i → now' mod 2 ^ 14 = 0) ∧
    (1 < i → now' mod 2 ^ 20 = 0) ∧ (2 < i → now' mod 2 ^ 26 = 0).
Proof.
  unfold entered, enters.
  repeat match goal with
  | |- context [decide (¬ (?x = 0))] => destruct (decide (¬ (x = 0)))
  end; intros [= <- <-];
  repeat match goal with H : ¬ (_ ≠ 0) |- _ => apply dec_stable in H end.
  - exists (2 ^ 8). pose proof (digit_nonzero (2 ^ 8) now' ltac:(lia)). naive_solver lia.
  - pose proof (digit_zero (2 ^ 8) now' ltac:(lia)).
    pose proof (digit_nonzero (2 ^ 14) now' ltac:(lia)). exists (2 ^ 14). naive_solver lia.
  - pose proof (digit_zero (2 ^ 8) now' ltac:(lia)).
    pose proof (digit_zero (2 ^ 14) now' ltac:(lia)).
    pose proof (digit_nonzero (2 ^ 20) now' ltac:(lia)). exists (2 ^ 20). naive_solver lia.
  - pose proof (digit_zero (2 ^ 8) now' ltac:(lia)).
    pose proof (digit_zero (2 ^ 14) now' ltac:(lia)).
    pose proof (digit_zero (2 ^ 20) now' ltac:(lia)). exists (2 ^ 26). naive_solver lia.
Qed.

(** Nodes pending when a block begins are at its level or above. *)
Lemma place_rank_high e now i j :
  0 ≤ now < 2 ^ 32 → ahead e now → entered (u32 (now + 1)) = Some (Level i j) →
  i + 1 ≤ rank (place e now).
Proof.
  intros Hn Ha Hent. destruct (entered_enters _ _ _ Hent) as (B & HB & _ & _ & H8 & H14 & H20 & H26).
  assert (HN : ∀ b, wheel_block b → u32 (now + 1) mod b = 0 → e / b ≠ now / b)
    by (intros b Hb; by apply tick_new).
  unfold place.
  destruct HB as [(-> & _ & _)|[(-> & _ & _)|[(-> & _ & _)|(-> & _)]]];
    rewrite decide_False by (apply HN; auto).
  - repeat case_decide; cbn [rank]; lia.
  - rewrite decide_False by (apply HN; [auto|by apply H14]).
    repeat case_decide; cbn [rank]; lia.
  - rewrite decide_False by (apply HN; [auto|by apply H14]).
    rewrite decide_False by (apply HN; [auto|by apply H20]).
    repeat case_decide; cbn [rank]; lia.
  - rewrite decide_False by (apply HN; [auto|by apply H14]).
    rewrite decide_False by (apply HN; [auto|by apply H20]).
    rewrite decide_False by (apply HN; [auto|by apply H26]). cbn [rank]. lia.
Qed.

(** A node of the list entered moves to a lower level. *)
Lemma place_moves e now i j :
  0 ≤ now < 2 ^ 32 → ahead e now →
  entered (u32 (now + 1)) = Some (Level i j) → place e now = Level i j →
  rank (place e (u32 (now + 1))) ≤ i.
Proof.
  intros Hn Ha Hent Hp.
  destruct (entered_enters _ _ _ Hent) as (B & HB & Hj & _).
  assert (Hn' := u32_range (now + 1)). set (now' := u32 (now + 1)) in *.
  assert (e / B = now' / B) as HT.
  { destruct Ha as [He _].
    pose proof (tick_same (2 ^ 14) now) as T14. pose proof (tick_same (2 ^ 20) now) as T20.
    pose proof (tick_same (2 ^ 26) now) as T26. fold now' in T14, T20, T26.
    destruct HB as [(-> & -> & Hnz)|[(-> & -> & Hnz)|[(-> & -> & Hnz)|(-> & ->)]]];
      apply digit_block; try lia.
    all: unfold place in Hp; repeat case_decide; simplify_eq.
    all: change (2 ^ 8 * 64) with (2 ^ 14); change (2 ^ 14 * 64) with (2 ^ 20);
      change (2 ^ 20 * 64) with (2 ^ 26); change (2 ^ 26 * 64) with (2 ^ 32);
      try congruence.
    - rewrite T14 by auto. done.
    - rewrite T20 by auto. done.
    - rewrite T26 by auto. done.
    - rewrite !Z.div_small by lia. done. }
  unfold place. destruct HB as [(-> & -> & _)|[(-> & -> & _)|[(-> & -> & _)|(-> & ->)]]];
    repeat case_decide; cbn [rank]; try lia; congruence.
Qed.

Lemma place_cong e m n :
  (∀ B, wheel_block B → (e / B = m / B ↔ e / B = n / B)) → place e m = place e n.
Proof.
  intros H. unfold place.
  rewrite !(decide_ext _ _ _ _ (H (2 ^ 8) wheel_block_8)).
  rewrite !(decide_ext _ _ _ _ (H (2 ^ 14) wheel_block_14)).
  rewrite !(decide_ext _ _ _ _ (H (2 ^ 20) wheel_block_20)).
  by rewrite !(decide_ext _ _ _ _ (H (2 ^ 26) wheel_block_26)).
Qed.

Lemma div_up B e m : 0 < B → e / B = m / B → e / (B * 64) = m / (B * 64).
Proof. intros HB E. by rewrite <- !Z.div_div, E by lia. Qed.

Lemma div_coarse B k e m : 0 < B → 0 < k → e / B = m / B → e / (B * k) = m / (B * k).
Proof. intros HB Hk E. by rewrite <- !Z.div_div, E by lia. Qed.

Lemma mod_fine B k m : 0 < B → 0 < k → m mod (B * k) = 0 → m mod B = 0.
Proof.
  intros HB Hk H. rewrite Z.rem_mul_r in H by lia.
  pose proof (Z.mod_pos_bound m B HB). pose proof (Z.mod_pos_bound (m / B) k Hk). nia.
Qed.

(** When a block begins the wheel enters some list, that of the largest block. *)
Lemma largest_block now' B :
  wheel_block B → now' mod B = 0 → ∃ i j, entered now' = Some (Level i j).
Proof.
  intros HB Hz. assert (now' mod 2 ^ 8 = 0) as H8.
  { destruct HB as [->|[->|[->| ->]]]; [done|..].
    - by apply (mod_fine (2 ^ 8) 64).
    - by apply (mod_fine (2 ^ 8) 4096).
    - by apply (mod_fine (2 ^ 8) 262144). }
  unfold entered. rewrite H8. repeat case_decide; eauto; congruence.
Qed.

Lemma enters_largest now' i B' B :
  enters now' i B' → wheel_block B → now' mod B = 0 → ∃ k, 0 < k ∧ B' = B * k.
Proof.
  intros HB' HB Hz.
  pose proof (mod_fine (2 ^ 14) 64 now' eq_refl eq_refl).
  pose proof (mod_fine (2 ^ 14) 4096 now' eq_refl eq_refl).
  pose proof (mod_fine (2 ^ 20) 64 now' eq_refl eq_refl).
  change (2 ^ 14 * 64) with (2 ^ 20) in *. change (2 ^ 14 * 4096) with (2 ^ 26) in *.
  change (2 ^ 20 * 64) with (2 ^ 26) in *.
  destruct HB as [->|[->|[->| ->]]];
    destruct HB' as [(-> & -> & ?)|[(-> & -> & ?)|[(-> & -> & ?)|(-> & ->)]]];
    try (exfalso; auto; fail);
    first [by exists 1|by exists 64|by exists 4096|by exists 262144].
Qed.

(** A node whose block the clock enters was in the list entered. *)
Lemma place_entered e now i B :
  0 ≤ now < 2 ^ 32 → ahead e now → enters (u32 (now + 1)) i B →
  u32 (now + 1) mod B = 0 → e / B = u32 (now + 1) / B →
  place e now = Level i ((u32 (now + 1) / B) mod 64).
Proof.
  intros Hn Ha HB Hm E. assert (HBp : 0 < B) by (unfold enters in HB; lia).
  pose proof (div_up B _ _ HBp E) as EU.
  assert (HN : e / B ≠ now / B).
  { apply tick_new; [|done..]. unfold enters, wheel_block in *. tauto. }
  rewrite <- E. unfold place.
  assert (Hup : ∀ b, 0 < b → e / b = now / b → e / (b * 64) = now / (b * 64))
    by (intros b; apply div_up).
  destruct HB as [(-> & -> & Hnz)|[(-> & -> & Hnz)|[(-> & -> & Hnz)|(-> & ->)]]];
    pose proof (Hup (2 ^ 8) eq_refl) as U8; pose proof (Hup (2 ^ 14) eq_refl) as U14;
    pose proof (Hup (2 ^ 20) eq_refl) as U20; clear Hup;
    change (2 ^ 8 * 64) with (2 ^ 14) in *; change (2 ^ 14 * 64) with (2 ^ 20) in *;
    change (2 ^ 20 * 64) with (2 ^ 26) in *.
  1-3: rewrite tick_same in EU by auto.
  all: repeat case_decide; try done; exfalso; auto.
Qed.

(** Nodes of every other list stay where they are. *)
Lemma place_stays e now :
  0 ≤ now < 2 ^ 32 → ahead e now →
  entered (u32 (now + 1)) ≠ Some (place e now) →
  place e (u32 (now + 1)) = place e now.
Proof.
  intros Hn Ha Hne. apply place_cong. intros B HB.
  destruct (decide (u32 (now + 1) mod B = 0)) as [Hz|Hnz];
    [|by rewrite tick_same by done].
  pose proof (tick_new B e now HB Hn Ha Hz) as HN. split; [|done]. intros E. exfalso.
  destruct (largest_block (u32 (now + 1)) B HB Hz) as (i & j & Hent).
  destruct (entered_enters _ _ _ Hent) as (B' & HB' & -> & Hz' & _).
  apply Hne. rewrite Hent. f_equal. symmetry. apply place_entered; try done.
  destruct (enters_largest _ _ _ _ HB' HB Hz) as (k & Hk & ->). 
  apply div_coarse; [unfold wheel_block in HB; lia|done|done].
Qed.

(** ** The shift redistributes the list entered *)

Definition shift_to (T : timer) (o : option loc) : res timer :=
  match o with
  | Some (Level i j) => move_list T i j
  | _ => Ok T
  end.

Lemma shift_round T ct m k i :
  0 ≤ k → m = 2 ^ k → ct mod 2 ^ k = 0 →
  shift_step T ct (m, Z.shiftr ct k, i) =
  if decide ((ct / 2 ^ k) mod 64 ≠ 0)
  then T' ← move_list T i ((ct / 2 ^ k) mod 64); Ok (Break T')
  else m' ← int_chk (Z.shiftl m 6); Ok (Continue (m', Z.shiftr ct (k + 6), i + 1)).
Proof.
  intros Hk -> Hm. unfold shift_step.
  replace (2 ^ k - 1) with (Z.shiftl 1 k - 1) by (by rewrite Z.shiftl_1_l).
  rewrite land_mask, Hm, Z.eqb_refl by done.
  assert (Z.land (Z.shiftr ct k) TIME_LEVEL_MASK = (ct / 2 ^ k) mod 64) as ->.
  { unfold TIME_LEVEL_MASK, TIME_LEVEL, TIME_LEVEL_SHIFT.
    by rewrite land_mask, Z.shiftr_div_pow2. }
  unfold TIME_LEVEL_SHIFT. rewrite Z.shiftr_shiftr by lia.
  destruct (Z.eqb_spec ((ct / 2 ^ k) mod 64) 0) as [E|Hne]; cbn [negb].
  - rewrite decide_False by (intros Hx; by apply Hx). done.
  - by rewrite decide_True by done.
Qed.

(** The loop ends within four rounds, before [mask] leaves the range of [int], and
    moves exactly the list [entered] names. *)
Lemma timer_shift_eq T :
  0 ≤ time T < 2 ^ 32 →
  timer_shift T = shift_to (set_time (u32 (time T + 1)) T) (entered (u32 (time T + 1))).
Proof.
  intros HT. unfold timer_shift. assert (Hc := u32_range (time T + 1)).
  set (ct := u32 (time T + 1)) in *. set (T1 := set_time ct T). clearbody ct T1.
  destruct (Z.eqb_spec ct 0) as [->|Hnz]; [done|].
  change TIME_NEAR with (2 ^ 8). change TIME_NEAR_SHIFT with 8. unfold entered.
  destruct (decide (ct mod 2 ^ 8 ≠ 0)) as [D|D].
  { cbn [iterate shift_step shift_to].
    change (2 ^ 8 - 1) with (Z.shiftl 1 8 - 1). rewrite land_mask by lia.
    destruct (Z.eqb_spec (ct mod 2 ^ 8) 0); [done|]. reflexivity. }
  apply dec_stable in D.
  pose proof (digit_zero (2 ^ 8) ct eq_refl D) as D14.
  pose proof (digit_zero (2 ^ 14) ct eq_refl) as D20.
  pose proof (digit_zero (2 ^ 20) ct eq_refl) as D26.
  change (2 ^ 8 * 64) with (2 ^ 14) in *. change (2 ^ 14 * 64) with (2 ^ 20) in *.
  change (2 ^ 20 * 64) with (2 ^ 26) in *.
  cbn [iterate]. rewrite shift_round by done. case_decide as E8.
  { cbn. by destruct (move_list T1 _ _). }
  specialize (D14 E8). specialize (D20 D14).
  change (int_chk (Z.shiftl (2 ^ 8) 6)) with (Ok (2 ^ 14)). rewrite !bind_ok.
  change (0 + 1) with 1. change (8 + 6) with 14. rewrite shift_round by done. case_decide as E14.
  { cbn [shift_to]. by destruct (move_list T1 1 _). }
  specialize (D20 E14). specialize (D26 D20).
  change (int_chk (Z.shiftl (2 ^ 14) 6)) with (Ok (2 ^ 20)). rewrite !bind_ok.
  change (1 + 1) with 2. change (14 + 6) with 20. rewrite shift_round by done. case_decide as E20.
  { cbn [shift_to]. by destruct (move_list T1 2 _). }
  specialize (D26 E20).
  change (int_chk (Z.shiftl (2 ^ 20) 6)) with (Ok (2 ^ 26)). rewrite !bind_ok.
  change (2 + 1) with 3. change (20 + 6) with 26. rewrite shift_round by done. rewrite decide_True.
  { cbn [shift_to]. by destruct (move_list T1 3 _). }
  intros E26. apply Hnz. pow_const. Z.div_mod_to_equations. lia.
Qed.

(** ** Abstract specification

    The timer is a list of pending nodes in the order of the calls of [timer_add]; a
    tick fires the nodes that expire at the new time.  [holds T P] says that every list of the
    wheel has exactly the pending nodes that belong there, in order. *)

Record holds (T : timer) (P : list timer_node) : Prop := {
  ho_shape : shape_ok T;
  ho_time : 0 ≤ time T < 2 ^ 32;
  ho_look : ∀ l, loc_ok l →
    look T l = Some (filter (λ n, place (expire n) (time T) = l) P)
}.

Definition pending_ok (now : Z) (P : list timer_node) : Prop :=
  Forall (λ n, ahead (expire n) now) P.

Lemma holds_init T :
  shape_ok T → 0 ≤ time T < 2 ^ 32 → (∀ l, loc_ok l → look T l = Some []) → holds T [].
Proof. intros Hs Ht Hl. split; [done|done|]. intros l Hlo. by rewrite Hl. Qed.

Lemma ahead_add time now :
  0 < time < 2 ^ 31 → ahead (u32 (time + now)) now.
Proof.
  intros Ht. split; [apply u32_range|]. unfold u32.
  rewrite Zminus_mod_idemp_l. replace (time + now - now) with time by lia.
  rewrite Z.mod_small; lia.
Qed.

Lemma timer_add_lemma T P arg time :
  holds T P → 0 < time < 2 ^ 31 →
  ∃ T', timer_add T arg time = Ok T' ∧ Timer.time T' = Timer.time T ∧
    holds T' (P ++ [Node (u32 (time + Timer.time T)) arg]).
Proof.
  intros [Hsh Htm Hlook] Ht. unfold timer_add.
  set (n := Node (u32 (time + Timer.time T)) arg).
  destruct (add_node_lemma T n Hsh) as (l & Hl & ->); [apply u32_range|].
  eexists. split; [done|]. rewrite time_upd. split; [done|].
  split; [by apply shape_upd|by rewrite time_upd|]. rewrite time_upd.
  intros l' Hl'. rewrite look_upd by (done || apply place_ok).
  rewrite filter_app, filter_cons, filter_nil.
  destruct (decide (place (expire n) (Timer.time T) = l')) as [<-|Hne].
  - rewrite Hlook in Hl by apply place_ok. by injection Hl as <-.
  - by rewrite app_nil_r, Hlook.
Qed.

(** The nodes a batch of calls adds at time [now]. *)
Definition new_nodes (now : Z) (adds : list (timer_event * Z)) : list timer_node :=
  map (λ a, Node (u32 (a.2 + now)) a.1) adds.

Definition adds_ok (adds : list (timer_event * Z)) : Prop :=
  Forall (λ a, 0 < a.2 < 2 ^ 31) adds.

Lemma timer_adds_lemma adds : ∀ T P,
  holds T P → adds_ok adds →
  ∃ T', timer_adds T adds = Ok T' ∧ time T' = time T ∧
    holds T' (P ++ new_nodes (time T) adds).
Proof.
  induction adds as [|[arg tm] adds IH]; intros T P HT Hok; cbn.
  - exists T. by rewrite app_nil_r.
  - apply Forall_cons in Hok as [H1 Hok].
    destruct (timer_add_lemma T P arg tm HT H1) as (T1 & -> & Ht1 & HT1). cbn.
    destruct (IH T1 _ HT1 Hok) as (T2 & -> & Ht2 & HT2).
    exists T2. rewrite Ht1 in *. split; [done|]. split; [done|].
    by rewrite <- app_assoc in HT2.
Qed.

Lemma pending_add now P adds :
  pending_ok now P → adds_ok adds → pending_ok now (P ++ new_nodes now adds).
Proof.
  intros HP Ha. apply Forall_app. split; [done|]. unfold new_nodes.
  apply Forall_map. eapply Forall_impl; [done|]. intros [? ?] ?. by apply ahead_add.
Qed.

(** Redistribution keeps every node in the right list and in order. *)
Lemma filter_shift (now : Z) (P : list timer_node) (M : loc) (l : loc) :
  0 ≤ now < 2 ^ 32 → pending_ok now P → entered (u32 (now + 1)) = Some M →
  (if decide (l = M) then [] else filter (λ n, place (expire n) now = l) P) ++
    filter (λ n, place (expire n) (u32 (now + 1)) = l)
      (filter (λ n, place (expire n) now = M) P)
  = filter (λ n, place (expire n) (u32 (now + 1)) = l) P.
Proof.
  intros Hn HP HM. destruct M as [j|i j].
  { unfold entered in HM. repeat case_decide; discriminate. }
  set (now' := u32 (now + 1)) in *.
  assert (Hmv : ∀ n, n ∈ P → place (expire n) now = Level i j →
            rank (place (expire n) now') ≤ i).
  { intros n HnP. eapply place_moves; [done|by eapply (Forall_elem _ _ _ HP)|done]. }
  assert (Hst : ∀ n, n ∈ P → place (expire n) now ≠ Level i j →
            place (expire n) now' = place (expire n) now).
  { intros n HnP Hne. apply place_stays; [done|by eapply (Forall_elem _ _ _ HP)|].
    fold now'. rewrite HM. congruence. }
  assert (Hhi : ∀ n, n ∈ P → i + 1 ≤ rank (place (expire n) now)).
  { intros n HnP. eapply place_rank_high; [done|by eapply (Forall_elem _ _ _ HP)|done]. }
  clearbody now'. clear HP Hn HM. rewrite list_filter_filter.
  destruct (decide (rank l ≤ i)) as [Hlow|Hhigh].
  - (* a list below was empty: all its nodes come from the list entered *)
    rewrite decide_False by (intros ->; cbn in Hlow; lia).
    rewrite filter_none.
    2: { intros n HnP E. specialize (Hhi n HnP). rewrite E in Hhi. lia. }
    apply filter_ext_in. intros n HnP. split; [tauto|]. intros E. split; [done|].
    destruct (decide (place (expire n) now = Level i j)) as [|Hne]; [done|].
    specialize (Hhi n HnP). rewrite <- (Hst n HnP Hne), E in Hhi. lia.
  - (* a list at or above the level keeps its nodes and receives none *)
    rewrite (filter_none (λ n, place (expire n) now' = l ∧ place (expire n) now = Level i j)).
    2: { intros n HnP [E1 E2]. specialize (Hmv n HnP E2). rewrite E1 in Hmv. lia. }
    rewrite app_nil_r. case_decide as El.
    + subst l. rewrite filter_none; [done|]. intros n HnP E.
      destruct (decide (place (expire n) now = Level i j)) as [Hy|Hne].
      * specialize (Hmv n HnP Hy). rewrite E in Hmv. cbn in Hmv. lia.
      * apply Hne. by rewrite <- (Hst n HnP Hne).
    + apply filter_ext_in. intros n HnP.
      destruct (decide (place (expire n) now = Level i j)) as [Hy|Hne].
      * specialize (Hmv n HnP Hy). split; intros E; [congruence|]. rewrite E in Hmv. lia.
      * by rewrite (Hst n HnP Hne).
Qed.

Lemma entered_ok now l : entered now = Some l → loc_ok l.
Proof.
  unfold entered. repeat case_decide; intros [= <-]; cbn; repeat split; try lia;
    apply Z.mod_pos_bound; lia.
Qed.

Lemma shift_lemma T P :
  holds T P → pending_ok (time T) P →
  ∃ T', timer_shift T = Ok T' ∧ time T' = u32 (time T + 1) ∧ holds T' P.
Proof.
  intros [Hsh Htm Hlook] HP. rewrite timer_shift_eq by done.
  assert (Hsh1 : shape_ok (set_time (u32 (time T + 1)) T)) by (destruct Hsh; by split).
  assert (Hr := u32_range (time T + 1)).
  assert (Hlk : ∀ z l, look (set_time z T) l = look T l) by (by intros z [|]).
  destruct (entered (u32 (time T + 1))) as [M|] eqn:HM; cbn [shift_to].
  - pose proof (entered_ok _ _ HM) as HMok. destruct M as [j|i j].
    { unfold entered in HM. repeat case_decide; discriminate. }
    destruct (move_list_lemma (set_time (u32 (time T + 1)) T) i j Hsh1 HMok)
      as (m & T' & Hm & -> & Hsh' & Htm' & Hlook').
    { intros x Hx. rewrite Hlk, Hlook in Hx by done. injection Hx as <-.
      apply Forall_forall. intros n Hin. apply list_elem_of_filter in Hin as [_ Hin].
      apply (Forall_elem _ _ _ HP Hin). }
    exists T'. split; [done|]. split; [done|]. cbn in Htm'. split; [done|by rewrite Htm'|].
    intros l Hl. destruct (Hlook' l Hl) as (x & Hx & ->). rewrite Htm'.
    rewrite Hlk, Hlook in Hx, Hm by done. injection Hx as <-. injection Hm as <-. cbn [time set_time].
    f_equal. by apply filter_shift.
  - eexists. split; [done|]. split; [done|]. split; [done|done|]. cbn [time set_time].
    intros l Hl. rewrite Hlk, Hlook by done. f_equal. apply filter_ext_in. intros n Hin.
    rewrite place_stays; [done|done|by eapply (Forall_elem _ _ _ HP)|]. by rewrite HM.
Qed.

(** The list [timer_execute] looks at has exactly the nodes that expire now. *)
Lemma place_now e now :
  0 ≤ e < 2 ^ 32 → place e now = Near (now mod 2 ^ 8) ↔ e = now.
Proof.
  intros He. unfold place. split; [|intros ->; by rewrite decide_True].
  repeat case_decide; try done. intros [= E].
  rewrite (Z.div_mod e (2 ^ 8)), (Z.div_mod now (2 ^ 8)) by lia. congruence.
Qed.

Lemma near_now T P :
  holds T P → Forall (λ n, 0 ≤ expire n < 2 ^ 32) P →
  rd (near T) (Z.land (time T) TIME_NEAR_MASK) = Ok (filter (λ n, expire n = time T) P) ∧
  look T (Near (time T mod 2 ^ 8)) = Some (filter (λ n, expire n = time T) P).
Proof.
  intros [Hsh Htm Hlook] HP. assert (Hb := Z.mod_pos_bound (time T) (2 ^ 8) eq_refl).
  assert (look T (Near (time T mod 2 ^ 8)) = Some (filter (λ n, expire n = time T) P)) as E.
  { rewrite Hlook by (cbn; lia). f_equal. apply filter_ext_in. intros n Hin.
    apply place_now. by apply (Forall_elem _ _ _ HP). }
  split; [|done]. unfold TIME_NEAR_MASK, TIME_NEAR. rewrite land_mask by done.
  unfold TIME_NEAR_SHIFT. apply rd_near; [lia|done].
Qed.

Lemma pending_range now P : pending_ok now P → Forall (λ n, 0 ≤ expire n < 2 ^ 32) P.
Proof. intros H. eapply Forall_impl; [done|]. by intros n [? _]. Qed.

(** Taking the current list out of the wheel. *)
Lemma clear_now T P :
  holds T P → Forall (λ n, 0 ≤ expire n < 2 ^ 32) P →
  ∃ n, wr (near T) (Z.land (time T) TIME_NEAR_MASK) [] = Ok n ∧
    holds (set_near n T) (filter (λ n, expire n ≠ time T) P).
Proof.
  intros [Hsh Htm Hlook] HP. assert (Hb := Z.mod_pos_bound (time T) (2 ^ 8) eq_refl).
  unfold TIME_NEAR_MASK, TIME_NEAR. rewrite land_mask by done.
  unfold TIME_NEAR_SHIFT. rewrite wr_ok by (rewrite (sh_near _ Hsh); lia).
  eexists. split; [done|].
  change (holds (upd T (Near (time T mod 2 ^ 8)) []) (filter (λ n, expire n ≠ time T) P)).
  split; [by apply shape_upd|by rewrite time_upd|]. rewrite time_upd. intros l Hl.
  rewrite look_upd by (done || (cbn; lia)). rewrite list_filter_filter.
  case_decide as E.
  - subst l. rewrite filter_none; [done|]. intros n Hin [H1 H2]. apply H2.
    eapply place_now; [|done]. by apply (Forall_elem _ _ _ HP).
  - rewrite Hlook by done. f_equal. apply filter_ext_in. intros n Hin.
    split; [|tauto]. intros <-. split; [done|]. intros En. apply E.
    rewrite En. symmetry. apply place_now; [|done].
    by rewrite <- En; apply (Forall_elem _ _ _ HP).
Qed.

(** No operation of the wheel touches the wall-clock fields. *)
Definition clock (T : timer) : Z * Z * Z := (starttime T, current T, current_point T).

Lemma add_node_clock T n T' : add_node T n = Ok T' → clock T' = clock T.
Proof. unfold add_node. intros H. case_match; res_inv; done. Qed.

Lemma add_nodes_clock ns : ∀ T T', add_nodes T ns = Ok T' → clock T' = clock T.
Proof.
  induction ns as [|n ns IH]; intros T T' H; cbn in H; res_inv; [done|].
  etrans; [by eapply IH|]. by eapply add_node_clock.
Qed.

Lemma move_list_clock T i j T' : move_list T i j = Ok T' → clock T' = clock T.
Proof. unfold move_list. intros H. res_inv. by apply add_nodes_clock in H. Qed.

Lemma timer_adds_clock adds : ∀ T T', timer_adds T adds = Ok T' → clock T' = clock T.
Proof.
  induction adds as [|[arg tm] adds IH]; intros T T' H; cbn in H; res_inv; [done|].
  etrans; [by eapply IH|]. by eapply add_node_clock.
Qed.

Lemma shift_clock T T' : 0 ≤ time T < 2 ^ 32 → timer_shift T = Ok T' → clock T' = clock T.
Proof.
  intros HT. rewrite timer_shift_eq by done.
  destruct (entered _) as [[j|i j]|]; cbn [shift_to]; intros H; res_inv; try done.
  by apply move_list_clock in H.
Qed.

Lemma holds_create : holds timer_create_timer [].
Proof.
  apply holds_init; [split| |]; cbn [near t time timer_create_timer].
  - reflexivity.
  - reflexivity.
  - intros i row. rewrite lookup_replicate. intros [-> _]. reflexivity.
  - lia.
  - intros [j|i j]; cbn [loc_ok look near t timer_create_timer]; intros Hl.
    + apply lookup_replicate. split; [done|].
      change (Z.to_nat TIME_NEAR) with (Z.to_nat 256). lia.
    + rewrite lookup_replicate_2 by lia.
      cbn [mbind option_bind]. apply lookup_replicate. split; [done|].
      change (Z.to_nat TIME_LEVEL) with (Z.to_nat 64). lia.
Qed.

(** ** Refinement of the update *)

Section update.
Context {S : Type} `{!ContextPush S}.

(** After a shift a pending node may be due. *)
Definition due_or_ahead (e now : Z) : Prop := 0 ≤ e < 2 ^ 32 ∧ (e - now) mod 2 ^ 32 < 2 ^ 31.

Lemma ahead_tick e now :
  ahead e now → due_or_ahead e (u32 (now + 1)).
Proof.
  intros [He Hd]. split; [done|]. unfold u32.
  rewrite Zminus_mod_idemp_r.
  change (2 ^ 32) with 4294967296 in *. change (2 ^ 31) with 2147483648 in *.
  Z.div_mod_to_equations. lia.
Qed.

Lemma not_due e now : due_or_ahead e now → 0 ≤ now < 2 ^ 32 → e ≠ now → ahead e now.
Proof.
  intros [He Hd] Hn Hne. split; [done|]. split; [|done].
  change (2 ^ 32) with 4294967296 in *. Z.div_mod_to_equations. lia.
Qed.

Lemma ahead_ne e now : ahead e now → e ≠ now.
Proof. intros [_ [Hd _]] ->. by rewrite Z.sub_diag in Hd. Qed.

(** Nothing is due between updates: the lists [timer_add] fills are in the future. *)
Lemma execute_idle fuel env T P (s : S) :
  holds T P → pending_ok (time T) P → timer_execute fuel env T s = Ok (T, s, env).
Proof.
  intros HT HP. destruct (near_now T P HT (pending_range _ _ HP)) as [Hrd _].
  rewrite filter_none in Hrd.
  2: { intros n Hin. apply ahead_ne. by apply (Forall_elem _ _ _ HP). }
  destruct fuel; cbn [timer_execute]; by rewrite Hrd.
Qed.

(** The nodes a tick adds: those of the window opened when something fires. *)
Definition window (now : Z) (fired : list timer_node) (env : list (list (timer_event * Z)))
  : list timer_node :=
  match fired with [] => [] | _ :: _ => new_nodes now (hd [] env) end.

Definition rest (fired : list timer_node) (env : list (list (timer_event * Z)))
  : list (list (timer_event * Z)) :=
  match fired with [] => env | _ :: _ => tl env end.

Lemma execute_due fuel env T P (s : S) :
  holds T P → Forall (λ n, due_or_ahead (expire n) (time T)) P → Forall adds_ok env →
  let fired := filter (λ n, expire n = time T) P in
  let P' := filter (λ n, expire n ≠ time T) P ++ window (time T) fired env in
  ∃ T', timer_execute (Datatypes.S fuel) env T s =
          (s' ← dispatch_list fired s; Ok (T', s', rest fired env)) ∧
    time T' = time T ∧ holds T' P' ∧ pending_ok (time T) P' ∧ clock T' = clock T.
Proof.
  intros HT HP Henv fired P'. assert (Htm := ho_time _ _ HT).
  assert (HPr : Forall (λ n, 0 ≤ expire n < 2 ^ 32) P).
  { eapply Forall_impl; [done|]. by intros n [? _]. }
  assert (Hkeep : pending_ok (time T) (filter (λ n, expire n ≠ time T) P)).
  { apply Forall_forall. intros n Hin. apply list_elem_of_filter in Hin as [Hne Hin].
    apply not_due; [by apply (Forall_elem _ _ _ HP)|done|done]. }
  destruct (near_now T P HT HPr) as [Hrd _].
  cbn [timer_execute]. rewrite Hrd, bind_ok. fold fired.
  destruct fired as [|f fs] eqn:Ef.
  - exists T. cbn in *. split; [done|]. split; [done|].
    unfold P'. rewrite app_nil_r. rewrite filter_all; [|intros n Hin En].
    + split; [done|]. split; [|done]. apply Forall_forall. intros n Hin.
      apply not_due; [by apply (Forall_elem _ _ _ HP)|done|]. intros En.
      assert (n ∈ filter (λ n, expire n = time T) P) as Hx
        by (by apply list_elem_of_filter). unfold fired in Ef. rewrite Ef in Hx.
      by apply not_elem_of_nil in Hx.
    + assert (n ∈ filter (λ n, expire n = time T) P) as Hx
        by (by apply list_elem_of_filter). unfold fired in Ef. rewrite Ef in Hx.
      by apply not_elem_of_nil in Hx.
  - destruct (clear_now T P HT HPr) as (nn & Hw & HT1). cbn [link_clear fst snd].
    rewrite Hw, bind_ok.
    destruct (timer_adds_lemma (hd [] env) _ _ HT1) as (T2 & Hadds & Ht2 & HT2).
    { destruct Henv; [constructor|done]. }
    cbn [time set_near] in *.
    assert (HP' : pending_ok (time T) P').
    { unfold P'. cbn [window]. apply pending_add; [done|]. by destruct Henv; [constructor|]. }
    exists T2. cbn [window rest] in *.
    split; [|rewrite Ht2; apply timer_adds_clock in Hadds; done].
    destruct (dispatch_list (f :: fs) s) as [s'|e]; [|done]. rewrite !bind_ok, Hadds, bind_ok.
    eapply execute_idle; [done|]. by rewrite Ht2.
Qed.

Lemma update_lemma fuel env T P (s : S) :
  holds T P → pending_ok (time T) P → Forall adds_ok env →
  let now := u32 (time T + 1) in
  let fired := filter (λ n, expire n = now) P in
  let P' := filter (λ n, expire n ≠ now) P ++ window now fired env in
  ∃ T', timer_update (Datatypes.S fuel) env T s =
          (s' ← dispatch_list fired s; Ok (T', s', rest fired env)) ∧
    time T' = now ∧ holds T' P' ∧ pending_ok now P' ∧ clock T' = clock T.
Proof.
  intros HT HP Henv now fired P'. unfold timer_update.
  rewrite (execute_idle _ _ T P) by done. rewrite bind_ok.
  destruct (shift_lemma T P HT HP) as (T1 & Hsh & Ht1 & HT1). rewrite Hsh, bind_ok.
  destruct (execute_due fuel env T1 P s HT1) as (T2 & Hex & Ht2 & HT2 & HP2 & Hc2); [|done|].
  { rewrite Ht1. eapply Forall_impl; [done|]. intros n Hn. by apply ahead_tick. }
  apply shift_clock in Hsh; [|apply HT]. rewrite Ht1, Hsh in *. by exists T2.
Qed.

Lemma dispatch_list_app l1 l2 (s : S) :
  dispatch_list (l1 ++ l2) s = (s' ← dispatch_list l1 s; dispatch_list l2 s').
Proof.
  revert s. induction l1 as [|x l1 IH]; intros s; [done|]. cbn.
  destruct (context_push _ _ s) as [[r s1]|f]; cbn; [apply IH|done].
Qed.

(** Ticks until a node fires. *)
Definition wait (now : Z) (n : timer_node) : Z := (expire n - now) mod 2 ^ 32.

(** The nodes that fire in the next [n] ticks, tick by tick. *)
Fixpoint fires (n : nat) (k now : Z) (P : list timer_node) : list timer_node :=
  match n with
  | O => []
  | Datatypes.S n => filter (λ x, wait now x = k) P ++ fires n (k + 1) now P
  end.

Lemma wait_tick now x :
  ahead (expire x) now →
  wait (u32 (now + 1)) x = wait now x - 1 ∧ (expire x = u32 (now + 1) ↔ wait now x = 1).
Proof.
  intros [He Hd]. unfold wait, u32. rewrite Zminus_mod_idemp_r.
  change (2 ^ 32) with 4294967296 in *. split; [|split; intros E];
  Z.div_mod_to_equations; lia.
Qed.

Lemma fires_tick n : ∀ k now P,
  pending_ok now P → 1 ≤ k →
  fires n k (u32 (now + 1)) (filter (λ x, expire x ≠ u32 (now + 1)) P)
  = fires n (k + 1) now P.
Proof.
  induction n as [|n IH]; intros k now P HP Hk; cbn; [done|].
  rewrite (IH (k + 1)) by (done || lia). f_equal. rewrite list_filter_filter.
  apply filter_ext_in. intros x Hin.
  destruct (wait_tick now x) as [Hw Hdue]; [by apply (Forall_elem _ _ _ HP)|].
  rewrite Hw, Hdue. lia.
Qed.

Lemma updates_lemma fuel n : ∀ T P (s : S),
  holds T P → pending_ok (time T) P →
  ∃ T', timer_updates (Datatypes.S fuel) n [] T s =
          (s' ← dispatch_list (fires n 1 (time T) P) s; Ok (T', s', [])) ∧
    time T' = u32 (time T + Z.of_nat n) ∧
    holds T' (filter (λ x, Z.of_nat n < wait (time T) x) P) ∧
    pending_ok (time T') (filter (λ x, Z.of_nat n < wait (time T) x) P) ∧
    clock T' = clock T.
Proof.
  induction n as [|n IH]; intros T P s HT HP.
  - exists T. cbn. rewrite Z.add_0_r, u32_small by apply HT.
    rewrite filter_all; [done|]. intros x Hin. by apply (Forall_elem _ _ _ HP).
  - assert (Htm := ho_time _ _ HT). cbn [timer_updates fires].
    destruct (update_lemma fuel [] T P s HT HP) as (T1 & Hup & Ht1 & HT1 & HP1 & Hc1); [done|].
    rewrite Hup. clear Hup.
    assert (Hwin : ∀ now l, window now l [] = []) by (by intros now []).
    assert (Hrest : ∀ l, rest l [] = []) by (by intros []).
    rewrite Hwin, app_nil_r in HT1, HP1. rewrite Hrest.
    set (now1 := u32 (time T + 1)) in *.
    assert (filter (λ x, expire x = now1) P = filter (λ x, wait (time T) x = 1) P) as Hf.
    { apply filter_ext_in. intros x Hin. apply wait_tick. by apply (Forall_elem _ _ _ HP). }
    rewrite <- Hf, dispatch_list_app.
    assert (Hkeep : filter (λ x, Z.of_nat n < wait now1 x) (filter (λ x, expire x ≠ now1) P)
              = filter (λ x, Z.of_nat (Datatypes.S n) < wait (time T) x) P).
    { rewrite list_filter_filter. apply filter_ext_in. intros x Hin.
      destruct (wait_tick (time T) x) as [Hw Hdue]; [by apply (Forall_elem _ _ _ HP)|].
      fold now1 in Hw, Hdue. rewrite Hw, Hdue. lia. }
    assert (HP1' : pending_ok (time T1) (filter (λ x, expire x ≠ now1) P)) by (by rewrite Ht1).
    assert (Ht2 : u32 (now1 + Z.of_nat n) = u32 (time T + Z.of_nat (Datatypes.S n))).
    { unfold now1, u32. rewrite Zplus_mod_idemp_l. f_equal. lia. }
    destruct (dispatch_list (filter (λ x, expire x = now1) P) s) as [s1|f].
    + destruct (IH T1 _ s1 HT1 HP1') as (T2 & Hr & Ht & HT2 & HP2 & Hc2). rewrite !bind_ok.
      exists T2. rewrite Ht1, Hkeep, Ht2, Hc1 in *. rewrite Hr.
      unfold now1. rewrite fires_tick by (done || lia). done.
    + destruct (IH T1 _ s HT1 HP1') as (T2 & _ & Ht & HT2 & HP2 & Hc2).
      exists T2. rewrite Ht1, Hkeep, Ht2, Hc1 in *. done.
Qed.
(** ** Properties *)

(** C4. One [timer_update] advances the clock by one tick (modulo 2^32) and delivers
    exactly the pending timers that expire at the new time, in the order they were
    added; all others stay pending, and the timers other threads add while the lock
    is dropped are neither lost nor fired early.  No list index, no shift of [mask]
    and no cascade goes out of range, and one round of [timer_execute] is enough. *)
Theorem timer_update_exact fuel env T P (s : S)
  (HT : holds T P) (HP : pending_ok (time T) P) (Henv : Forall adds_ok env) :
  let now := u32 (time T + 1) in
  let fired := filter (λ n, expire n = now) P in
  let P' := filter (λ n, expire n ≠ now) P ++ window now fired env in
  ∃ T', timer_update (Datatypes.S fuel) env T s =
          (s' ← dispatch_list fired s; Ok (T', s', rest fired env)) ∧
    time T' = now ∧ holds T' P' ∧ pending_ok now P'.
Proof.
  intros now fired P'.
  destruct (update_lemma fuel env T P s HT HP Henv) as (T' & ? & ? & ? & ? & _).
  by exists T'.
Qed.

Lemma fires_single n : ∀ k now node,
  wait now node < k + Z.of_nat n →
  fires n k now [node] = if k <=? wait now node then [node] else [].
Proof.
  induction n as [|n IH]; intros k now node Hw; cbn [fires].
  - destruct (Z.leb_spec k (wait now node)); [lia|done].
  - rewrite filter_singleton by exact []. case_decide as E.
    + rewrite IH by lia. subst k. rewrite Z.leb_refl.
      destruct (Z.leb_spec (wait now node + 1) (wait now node)); [lia|done].
    + rewrite IH by lia. cbn [app].
      destruct (Z.leb_spec (k + 1) (wait now node)), (Z.leb_spec k (wait now node));
        (done || lia).
Qed.

Lemma fires_none n : ∀ k now node, k + Z.of_nat n ≤ wait now node → fires n k now [node] = [].
Proof.
  induction n as [|n IH]; intros k now node Hw; cbn [fires]; [done|].
  rewrite filter_singleton by exact []. rewrite decide_False by lia. apply IH. lia.
Qed.

Lemma fires_app n : ∀ k now P Q x,
  x ∈ fires n k now (P ++ Q) ↔ x ∈ fires n k now P ∨ x ∈ fires n k now Q.
Proof.
  induction n as [|n IH]; intros k now P Q x; cbn [fires]; [set_solver|].
  rewrite filter_app, !elem_of_app, IH. tauto.
Qed.

(** C5. [skynet_timeout] with a positive delay of [d] ticks returns the session, and
    the timer fires exactly at the [d]-th update, not earlier, not later and not
    twice, whatever else is pending and also when the clock wraps around. *)
Theorem timeout_fires_on_time fuel n T P (s : S) handle d session
  (HT : holds T P) (HP : pending_ok (time T) P) (Hd : 0 < d < 2 ^ 31) :
  let node := Node (u32 (d + time T)) (Event handle session) in
  ∃ T1 T2, skynet_timeout T s handle d session = Ok (session, T1, s) ∧
    timer_updates (Datatypes.S fuel) n [] T1 s =
      (s' ← dispatch_list (fires n 1 (time T) (P ++ [node])) s; Ok (T2, s', [])) ∧
    fires n 1 (time T) [node] = (if d <=? Z.of_nat n then [node] else []) ∧
    time T2 = u32 (time T + Z.of_nat n) ∧
    holds T2 (filter (λ x, Z.of_nat n < wait (time T) x) (P ++ [node])).
Proof.
  intros node. destruct (timer_add_lemma T P (Event handle session) d HT Hd)
    as (T1 & Hadd & Ht1 & HT1). fold node in HT1.
  assert (HP1 : pending_ok (time T1) (P ++ [node])).
  { rewrite Ht1. apply Forall_app. split; [done|]. apply Forall_singleton.
    by apply ahead_add. }
  destruct (updates_lemma fuel n T1 _ s HT1 HP1) as (T2 & Hup & Ht2 & HT2 & _ & _).
  rewrite Ht1 in *. exists T1, T2. split.
  { unfold skynet_timeout. destruct (Z.leb_spec d 0); [lia|]. by rewrite Hadd. }
  split; [done|]. split; [|done].
  assert (Hw : wait (time T) node = d).
  { unfold wait, node, u32. cbn [expire]. rewrite Zminus_mod_idemp_l.
    replace (d + time T - time T) with d by lia. apply Z.mod_small. lia. }
  destruct (Z.leb_spec d (Z.of_nat n)).
  - rewrite fires_single by lia. rewrite Hw. by destruct (Z.leb_spec 1 d); [|lia].
  - apply fires_none. lia.
Qed.

(** [skynet_updatetime] catches up with the monotonic clock: it runs one update per
    elapsed centisecond and advances [current] by that amount; when the clock has not
    moved nothing happens, and when it went backwards no timer fires, the error is reported
    and only the reference point is reset. *)
Theorem updatetime_catches_up error fuel T P (s : S) cp
  (HT : holds T P) (HP : pending_ok (time T) P) (Hcp : 0 ≤ cp < 2 ^ 64)
  (Hdiff : cp - current_point T ≤ INT_MAX) :
  ∃ T', time T' = u32 (time T + Z.max 0 (cp - current_point T)) ∧ current_point T' = cp ∧
    current T' = (if cp <=? current_point T then current T
                  else u64 (current T + (cp - current_point T))) ∧
    skynet_updatetime error (Datatypes.S fuel) [] cp T s =
      (s' ← (if cp <? current_point T then error (time_error cp (current_point T)) s
             else dispatch_list (fires (Z.to_nat (cp - current_point T)) 1 (time T) P) s);
       Ok (T', s', [])).
Proof.
  unfold skynet_updatetime. destruct (Z.ltb_spec cp (current_point T)) as [Hback|Hfwd].
  { rewrite Z.max_l, Z.add_0_r, u32_small by (apply HT || lia).
    destruct (Z.leb_spec cp (current_point T)); [|lia].
    eexists. split; [|split; [|split; [|done]]]; done. }
  destruct (Z.eqb_spec cp (current_point T)) as [->|Hne]; cbn [negb].
  { rewrite Z.sub_diag, Z.max_id, Z.add_0_r, u32_small, Z.leb_refl by apply HT. by exists T. }
  rewrite (u32_small (cp - current_point T)) by (unfold INT_MAX in *; lia). cbv zeta.
  rewrite Z.min_l, (int_chk_ok (cp - current_point T)) by (unfold INT_MIN, INT_MAX in *; lia).
  set (T1 := set_clock (starttime T) (u64 (current T + (cp - current_point T))) cp T).
  assert (HT1 : holds T1 P).
  { destruct HT as [[? ? ?] ? Hl]. split; [by split|done|].
    intros l Hlo. rewrite <- Hl by done. by destruct l. }
  destruct (updates_lemma fuel (Z.to_nat (cp - current_point T)) T1 P s HT1 HP)
    as (T2 & Hup & Ht2 & _ & _ & Hc). injection Hc as Hst Hcur Hcpt.
  exists T2. rewrite Ht2, Hcur, Hcpt, Hup. cbn [time T1 set_clock current current_point].
  rewrite Z2Nat.id, Z.max_r by lia. destruct (Z.leb_spec cp (current_point T)); [lia|].
  split; [done|]. split; [done|]. split; [done|]. by destruct (dispatch_list _ s).
Qed.

End update.

(** A sink that records deliveries. *)
Definition deliveries : Type := list (Z * skynet_message).
#[local] Instance log_push : ContextPush deliveries := λ h m s, Ok (0, s ++ [(h, m)]).

Lemma timer_update_exact_witness :
  ∃ T', timer_update 1 [] timer_create_timer ([] : deliveries) = Ok (T', [], []) ∧ time T' = 1.
Proof.
  destruct (timer_update_exact 0 [] timer_create_timer [] ([] : deliveries)
    holds_create (Forall_nil_2 _) (Forall_nil_2 _)) as (T' & Hup & Ht & _).
  exists T'. split; [exact Hup|exact Ht].
Defined.

(** A delay of 300 ticks cascades from level 0 and fires at the 300th update. *)
Lemma timeout_fires_on_time_witness :
  ∃ T1 T2, skynet_timeout timer_create_timer ([] : deliveries) 257 300 9 = Ok (9, T1, []) ∧
    timer_updates 1 300 [] T1 ([] : deliveries)
      = Ok (T2, [(257, timeout_message 9)], []).
Proof.
  destruct (timeout_fires_on_time 0 300 timer_create_timer [] ([] : deliveries) 257 300 9
    holds_create (Forall_nil_2 _) ltac:(lia)) as (T1 & T2 & H1 & H2 & H3 & _).
  exists T1, T2. split; [exact H1|]. cbn [app] in H2. rewrite H3 in H2. exact H2.
Defined.

Lemma updatetime_catches_up_witness :
  ∃ T', skynet_updatetime (λ _, Ok) 1 [] 5 timer_create_timer ([] : deliveries) = Ok (T', [], []) ∧
    time T' = 5 ∧ current T' = 5.
Proof.
  destruct (updatetime_catches_up (λ _, Ok) 0 timer_create_timer [] ([] : deliveries) 5
    holds_create (Forall_nil_2 _) ltac:(lia) ltac:(unfold INT_MAX; cbn; lia)) as (T' & H1 & H2 & H3 & H4).
  exists T'. split; [exact H4|]. split; [exact H1|exact H3].
Defined.
