(* ===== verification/Handle.v ===== *)
(** [skynet-src/skynet_handle.c]: the table of services.

    A handle is 32 bits: the harbor id in the high 8 bits, the local id in the low 24.
    Contexts are stored in a table of [slot_size] slots (a power of two) at the index
    given by the low bits of their handle, and service names in an array sorted by
    [strcmp].  Every function takes the read-write lock for its whole body, so a call
    is one step on [handle_storage].  The table holds pointers to contexts and reads
    the handle out of a context; that access, [skynet_context_handle], is a parameter
    here and is provided by the node. *)

From S2P Require Import Prelude CString.
Open Scope Z_scope.

Definition HANDLE_MASK : Z := 0xffffff.
Definition HANDLE_REMOTE_SHIFT : Z := 24.
Definition DEFAULT_SLOT_SIZE : Z := 4.
Definition MAX_SLOT_SIZE : Z := 0x40000000.

Record handle_name : Set := HandleName { hn_name : cstring; hn_handle : Z }.

Record handle_storage : Set := Storage {
  harbor : Z;
  handle_index : Z;
  slot_size : Z;
  slot : list Z;
  name_cap : Z;
  name_count : Z;
  name : list (option handle_name)
}.

Definition set_slot (sz : Z) (l : list Z) (s : handle_storage) : handle_storage :=
  Storage (harbor s) (handle_index s) sz l (name_cap s) (name_count s) (name s).
Definition set_index (i : Z) (s : handle_storage) : handle_storage :=
  Storage (harbor s) i (slot_size s) (slot s) (name_cap s) (name_count s) (name s).
Definition set_names (cap count : Z) (l : list (option handle_name)) (s : handle_storage)
  : handle_storage :=
  Storage (harbor s) (handle_index s) (slot_size s) (slot s) cap count l.

Section handles.
Variable skynet_context_handle : Z → res Z.

(** ** Contexts *)

(** The inner loop of [skynet_handle_register]: [for (i=0;i<slot_size;i++)], [n] the
    rounds left; the result is the handle and the free slot. *)
Fixpoint find_free (s : handle_storage) (n : nat) (i : Z) : res (option (Z * Z)) :=
  match n with
  | O => Ok None
  | S n =>
      let handle := Z.land (u32 (i + handle_index s)) HANDLE_MASK in
      let hash := Z.land handle (slot_size s - 1) in
      c ← rd (slot s) hash;
      if c =? 0 then Ok (Some (handle, hash)) else find_free s n (i + 1)
  end.

(** Doubling the table. *)
Definition expand_slots (s : handle_storage) : res handle_storage :=
  _ ← assertb (slot_size s * 2 - 1 <=? HANDLE_MASK);
  let new_slot := replicate (Z.to_nat (slot_size s * 2)) 0 in
  new_slot ← for_range (Z.to_nat (slot_size s)) 0 (λ i ns,
    c ← rd (slot s) i;
    h ← skynet_context_handle c;
    let hash := Z.land h (slot_size s * 2 - 1) in
    old ← rd ns hash;
    _ ← assertb (old =? 0);
    wr ns hash c) new_slot;
  Ok (set_slot (slot_size s * 2) new_slot s).

Definition register_step (ctx : Z) (s : handle_storage)
  : res (loop handle_storage (Z * handle_storage)) :=
  free ← find_free s (Z.to_nat (slot_size s)) 0;
  match free with
  | Some (handle, hash) =>
      l ← wr (slot s) hash ctx;
      let s := set_index (u32 (handle + 1)) (set_slot (slot_size s) l s) in
      Ok (Break (Z.lor handle (harbor s), s))
  | None => s ← expand_slots s; Ok (Continue s)
  end.

(** The outer loop goes round once more after the table has grown. *)
Definition skynet_handle_register (s : handle_storage) (ctx : Z)
  : res (Z * handle_storage) :=
  iterate 2 (register_step ctx) s.

(** The compaction of the name array in [skynet_handle_retire]. *)
Definition drop_names (s : handle_storage) (handle : Z) : res handle_storage :=
  '(j, names) ← for_range (Z.to_nat (name_count s)) 0 (λ i '(j, names),
    e ← rd_init names i;
    if hn_handle e =? handle then Ok (j, names)
    else if negb (i =? j) then names ← wr names j (Some e); Ok (j + 1, names)
    else Ok (j + 1, names)) (0, name s);
  Ok (set_names (name_cap s) j names s).

(** The part of [skynet_handle_retire] under the lock: 1 and the context to release,
    or 0. *)
Definition handle_retire_locked (s : handle_storage) (handle : Z)
  : res (Z * Z * handle_storage) :=
  let hash := Z.land handle (slot_size s - 1) in
  ctx ← rd (slot s) hash;
  if negb (ctx =? 0) then
    h ← skynet_context_handle ctx;
    if h =? handle then
      l ← wr (slot s) hash 0;
      s ← drop_names (set_slot (slot_size s) l s) handle;
      Ok (1, ctx, s)
    else Ok (0, 0, s)
  else Ok (0, 0, s).

(** The part of [skynet_handle_grab] before the reference is taken: the context with
    the handle, or NULL. *)
Definition handle_lookup (s : handle_storage) (handle : Z) : res Z :=
  let hash := Z.land handle (slot_size s - 1) in
  ctx ← rd (slot s) hash;
  if negb (ctx =? 0) then
    h ← skynet_context_handle ctx;
    if h =? handle then Ok ctx else Ok 0
  else Ok 0.

End handles.

(** ** Names *)

(** The binary search both name functions use: the entry, or where it would go. *)
Definition search_step (s : handle_storage) (key : cstring) (be : Z * Z)
  : res (loop (Z * Z) (Z + handle_name)) :=
  let '(begin, end_) := be in
  if begin <=? end_ then
    let mid := Z.quot (begin + end_) 2 in
    n ← rd_init (name s) mid;
    let c := strcmp (hn_name n) key in
    if c =? 0 then Ok (Break (inr n))
    else if c <? 0 then Ok (Continue (mid + 1, end_))
    else Ok (Continue (begin, mid - 1))
  else Ok (Break (inl begin)).

Definition search_fuel (s : handle_storage) : nat := S (Z.to_nat (name_count s)).

Definition skynet_handle_findname (s : handle_storage) (key : cstring) : res Z :=
  r ← iterate (search_fuel s) (search_step s key) (0, name_count s - 1);
  match r with inr n => Ok (hn_handle n) | inl _ => Ok 0 end.

Definition _insert_name_before (s : handle_storage) (key : cstring) (handle before : Z)
  : res handle_storage :=
  '(cap, names) ←
    (if name_count s >=? name_cap s then
       cap ← int_chk (name_cap s * 2);
       _ ← assertb (cap <=? MAX_SLOT_SIZE);
       let n := replicate (Z.to_nat cap) None in
       n ← for_range (Z.to_nat before) 0 (λ i n, e ← rd (name s) i; wr n i e) n;
       n ← for_range (Z.to_nat (name_count s - before)) before
             (λ i n, e ← rd (name s) i; wr n (i + 1) e) n;
       Ok (cap, n)
     else
       n ← for_range (Z.to_nat (name_count s - before)) 0
             (λ k n, let i := name_count s - k in e ← rd n (i - 1); wr n i e) (name s);
       Ok (name_cap s, n));
  names ← wr names before (Some (HandleName key handle));
  Ok (set_names cap (name_count s + 1) names s).

(** Returns the stored copy of the name, or NULL when the name is taken. *)
Definition _insert_name (s : handle_storage) (key : cstring) (handle : Z)
  : res (option cstring * handle_storage) :=
  r ← iterate (search_fuel s) (search_step s key) (0, name_count s - 1);
  match r with
  | inr _ => Ok (None, s)
  | inl begin => s ← _insert_name_before s key handle begin; Ok (Some key, s)
  end.

Definition skynet_handle_namehandle (s : handle_storage) (handle : Z) (key : cstring)
  : res (option cstring * handle_storage) :=
  _insert_name s key handle.

Definition skynet_handle_init (harbor : Z) : handle_storage :=
  Storage (u32 (Z.shiftl (Z.land harbor 0xff) HANDLE_REMOTE_SHIFT)) 1
    DEFAULT_SLOT_SIZE (replicate (Z.to_nat DEFAULT_SLOT_SIZE) 0)
    2 0 (replicate 2 None).

(** ** The context table *)

Section slots.
Variable H : Z → res Z.

Record slots_ok (s : handle_storage) : Prop := {
  so_size : ∃ k, 2 ≤ k ≤ 24 ∧ slot_size s = 2 ^ k;
  so_len : Z.of_nat (length (slot s)) = slot_size s;
  so_home : ∀ i c, slot s !! i = Some c → c ≠ 0 →
    ∃ h, H c = Ok h ∧ h mod slot_size s = Z.of_nat i;
  so_harbor : 0 ≤ harbor s < 2 ^ 32 ∧ harbor s mod 2 ^ 24 = 0;
  so_index : 0 ≤ handle_index s ≤ 2 ^ 24
}.

(** Context [c] is registered under handle [h]. *)
Definition registered (s : handle_storage) (h c : Z) : Prop :=
  c ≠ 0 ∧ H c = Ok h ∧ c ∈ slot s.

Lemma size_bounds s : slots_ok s → 4 ≤ slot_size s ≤ 2 ^ 24 ∧ (slot_size s | 2 ^ 24).
Proof.
  intros [(k & Hk & ->) _ _ _ _]. split.
  - pose proof (Z.pow_le_mono_r 2 2 k). pose proof (Z.pow_le_mono_r 2 k 24). lia.
  - exists (2 ^ (24 - k)). rewrite <- Z.pow_add_r by lia. f_equal. lia.
Qed.

Lemma land_size s h : slots_ok s → Z.land h (slot_size s - 1) = h mod slot_size s.
Proof.
  intros [(k & Hk & ->) _ _ _ _].
  rewrite Z.sub_1_r, <- Z.ones_equiv. apply Z.land_ones. lia.
Qed.

Lemma land_mask_24 h : Z.land h HANDLE_MASK = h mod 2 ^ 24.
Proof. change HANDLE_MASK with (Z.ones 24). by apply Z.land_ones. Qed.

Lemma slot_read s p : slots_ok s → 0 ≤ p < slot_size s →
  ∃ c, slot s !! Z.to_nat p = Some c ∧ rd (slot s) p = Ok c.
Proof. intros Hs Hp. apply rd_in_range. rewrite (so_len _ Hs). lia. Qed.

(** The slot a handle hashes to decides who is registered under the handle. *)
Lemma slot_of s h :
  slots_ok s → ∃ c, 0 ≤ h mod slot_size s < slot_size s ∧
    slot s !! Z.to_nat (h mod slot_size s) = Some c ∧
    rd (slot s) (Z.land h (slot_size s - 1)) = Ok c ∧
    (c ≠ 0 → ∃ h0, H c = Ok h0) ∧
    (∀ c', registered s h c' ↔ c' = c ∧ c ≠ 0 ∧ H c = Ok h).
Proof.
  intros Hs. destruct (size_bounds s Hs) as [Hb _].
  assert (Hp := Z.mod_pos_bound h (slot_size s) ltac:(lia)).
  rewrite land_size by done.
  destruct (slot_read s _ Hs Hp) as (c & Hc & Hrd). exists c.
  split; [done|]. split; [done|]. split; [done|]. split.
  { intros Hne. destruct (so_home _ Hs _ _ Hc Hne) as (h0 & ? & _). eauto. }
  intros c'. split.
  - intros (Hc0 & HH & Hin). apply list_elem_of_lookup in Hin as [i Hi].
    destruct (so_home _ Hs _ _ Hi Hc0) as (h' & HH' & Hm).
    rewrite HH in HH'. injection HH' as <-. rewrite Hm, Nat2Z.id in Hc.
    assert (c' = c) as -> by congruence. done.
  - intros (-> & Hne & HH). split; [done|]. split; [done|]. apply list_elem_of_lookup. eauto.
Qed.

(** A context is found under its handle and only there. *)
Lemma lookup_lemma s h :
  slots_ok s → ∃ c, handle_lookup H s h = Ok c ∧ (c ≠ 0 → registered s h c) ∧
    (∀ c', registered s h c' → c' = c).
Proof.
  intros Hs. destruct (slot_of s h Hs) as (c & _ & _ & Hrd & Hh & Hreg).
  unfold handle_lookup. cbv zeta. rewrite Hrd, bind_ok.
  destruct (Z.eqb_spec c 0) as [->|Hne]; cbn [negb].
  { exists 0. split; [done|]. split; [done|]. intros c' Hr. by apply Hreg in Hr as [-> _]. }
  destruct (Hh Hne) as (h0 & HH). rewrite HH, bind_ok.
  destruct (Z.eqb_spec h0 h) as [->|Hne'].
  - exists c. split; [done|]. split; [intros _; by apply Hreg|].
    intros c' Hr. by apply Hreg in Hr as [-> _].
  - exists 0. split; [done|]. split; [done|]. intros c' Hr.
    apply Hreg in Hr as (_ & _ & HH'). congruence.
Qed.

Lemma index_mod s j : slots_ok s → 0 ≤ j < slot_size s →
  Z.land (u32 (j + handle_index s)) HANDLE_MASK = (j + handle_index s) mod 2 ^ 24 ∧
  ((j + handle_index s) mod 2 ^ 24) mod slot_size s = (j + handle_index s) mod slot_size s.
Proof.
  intros Hs Hj. destruct (size_bounds s Hs) as [Hb Hd]. destruct (so_index _ Hs).
  rewrite u32_small by lia. rewrite land_mask_24. split; [done|].
  symmetry. apply Znumtheory.Zmod_div_mod; [lia|lia|done].
Qed.

(** The search visits every slot. *)
Lemma find_free_lemma s n : ∀ i,
  slots_ok s → 0 ≤ i → i + Z.of_nat n = slot_size s →
  (∃ j, i ≤ j < slot_size s ∧
     let handle := (j + handle_index s) mod 2 ^ 24 in
     find_free s n i = Ok (Some (handle, handle mod slot_size s)) ∧
     slot s !! Z.to_nat (handle mod slot_size s) = Some 0) ∨
  (find_free s n i = Ok None ∧
   ∀ j c, i ≤ j < slot_size s →
     slot s !! Z.to_nat ((j + handle_index s) mod slot_size s) = Some c → c ≠ 0).
Proof.
  induction n as [|n IH]; intros i Hs Hi Hn; cbn [find_free].
  { right. split; [done|]. intros j c Hj. lia. }
  destruct (index_mod s i Hs) as [-> Hm]; [lia|]. rewrite land_size by done.
  destruct (size_bounds s Hs) as [Hb _].
  assert (Hp := Z.mod_pos_bound ((i + handle_index s) mod 2 ^ 24) (slot_size s) ltac:(lia)).
  destruct (slot_read s _ Hs Hp) as (c & Hc & ->). rewrite bind_ok.
  destruct (Z.eqb_spec c 0) as [->|Hne].
  { left. exists i. split; [lia|]. done. }
  destruct (IH (i + 1) Hs) as [(j & Hj & Hf & Hz)|[Hf Hall]]; [lia|lia|..].
  - left. exists j. split; [lia|]. done.
  - right. split; [done|]. intros j c' Hj Hc'.
    destruct (decide (j = i)) as [->|Hji]; [|by apply (Hall j); [lia|]].
    rewrite <- Hm in Hc'. congruence.
Qed.

Lemma find_none_full s i c :
  slots_ok s → find_free s (Z.to_nat (slot_size s)) 0 = Ok None → slot s !! i = Some c → c ≠ 0.
Proof.
  intros Hs Hf Hc. destruct (size_bounds s Hs) as [Hb _].
  destruct (find_free_lemma s (Z.to_nat (slot_size s)) 0 Hs) as [(j & _ & Hf' & _)|[_ Hall]];
    [lia|lia|congruence|].
  assert (Z.of_nat i < slot_size s).
  { rewrite <- (so_len _ Hs). apply lookup_lt_Some in Hc. lia. }
  apply (Hall ((Z.of_nat i - handle_index s) mod slot_size s)).
  - apply Z.mod_pos_bound. lia.
  - rewrite Zplus_mod_idemp_l. replace (Z.of_nat i - handle_index s + handle_index s)
      with (Z.of_nat i) by lia.
    by rewrite Z.mod_small, Nat2Z.id by lia.
Qed.

(** ** Rehashing into a table of twice the size *)

Definition rehash_body (s : handle_storage) (i : Z) (ns : list Z) : res (list Z) :=
  c ← rd (slot s) i;
  h ← H c;
  old ← rd ns (Z.land h (slot_size s * 2 - 1));
  _ ← assertb (old =? 0);
  wr ns (Z.land h (slot_size s * 2 - 1)) c.

(** After [j] rounds the new table has exactly the first [j] contexts, each at the
    place its handle gives. *)
Record rehashed (s : handle_storage) (j : Z) (ns : list Z) : Prop := {
  rh_len : Z.of_nat (length ns) = slot_size s * 2;
  rh_out : ∀ p c, ns !! p = Some c → c ≠ 0 → ∃ i h, Z.of_nat i < j ∧ slot s !! i = Some c ∧
    H c = Ok h ∧ h mod (slot_size s * 2) = Z.of_nat p;
  rh_in : ∀ i c, Z.of_nat i < j → slot s !! i = Some c → c ∈ ns
}.

Section rehash.
Variable s : handle_storage.
Hypothesis Hs : slots_ok s.
Hypothesis Hfull : ∀ i c, slot s !! i = Some c → c ≠ 0.

Lemma size2_land h : Z.land h (slot_size s * 2 - 1) = h mod (slot_size s * 2).
Proof.
  destruct (so_size _ Hs) as (k & Hk & ->).
  replace (2 ^ k * 2) with (2 ^ (k + 1)) by (rewrite Z.pow_add_r by lia; lia).
  rewrite Z.sub_1_r, <- Z.ones_equiv. apply Z.land_ones. lia.
Qed.

Lemma size2_mod h : (h mod (slot_size s * 2)) mod slot_size s = h mod slot_size s.
Proof.
  destruct (size_bounds s Hs) as [Hb _].
  symmetry. apply Znumtheory.Zmod_div_mod; [lia|lia|]. exists 2. lia.
Qed.

Lemma rehash_init : rehashed s 0 (replicate (Z.to_nat (slot_size s * 2)) 0).
Proof.
  destruct (size_bounds s Hs) as [Hb _]. split.
  - rewrite length_replicate. lia.
  - intros p c Hp. apply lookup_replicate in Hp as [-> _]. done.
  - intros i c Hi. lia.
Qed.

(** Two contexts never compete for a place. *)
Lemma rehash_place_free j ns h c old :
  rehashed s j ns → slot s !! Z.to_nat j = Some c → 0 ≤ j → H c = Ok h →
  ns !! Z.to_nat (h mod (slot_size s * 2)) = Some old → old = 0.
Proof.
  intros [_ Hout _] Hc Hj HH Hold. destruct (size_bounds s Hs) as [Hb _].
  destruct (decide (old = 0)) as [|Hne]; [done|]. exfalso.
  destruct (so_home _ Hs _ _ Hc (Hfull _ _ Hc)) as (h0 & HH0 & Hm).
  rewrite HH in HH0. injection HH0 as <-.
  destruct (Hout _ _ Hold Hne) as (i & h' & Hi & Hsi & HH' & Hm').
  destruct (so_home _ Hs _ _ Hsi Hne) as (h'' & HH'' & Hmi).
  rewrite HH' in HH''. injection HH'' as <-.
  assert (Hp := Z.mod_pos_bound h (slot_size s * 2) ltac:(lia)).
  rewrite <- size2_mod, Hm', Z2Nat.id, size2_mod, Hm in Hmi by lia. lia.
Qed.

Lemma rehash_step j ns :
  0 ≤ j < slot_size s → rehashed s j ns →
  ∃ ns', rehash_body s j ns = Ok ns' ∧ rehashed s (j + 1) ns'.
Proof.
  intros Hj Hr. destruct (size_bounds s Hs) as [Hb _]. unfold rehash_body.
  destruct (slot_read s j Hs Hj) as (c & Hc & ->). rewrite bind_ok.
  destruct (so_home _ Hs _ _ Hc (Hfull _ _ Hc)) as (h & HH & Hm).
  rewrite HH, bind_ok, size2_land.
  assert (Hp := Z.mod_pos_bound h (slot_size s * 2) ltac:(lia)).
  assert (Hlen := rh_len _ _ _ Hr).
  destruct (rd_in_range ns (h mod (slot_size s * 2))) as (old & Hold & ->); [lia|].
  rewrite bind_ok.
  assert (old = 0) as -> by exact (rehash_place_free j ns h c old Hr Hc ltac:(lia) HH Hold).
  cbn [assertb Z.eqb]. rewrite bind_ok, wr_ok by lia.
  destruct Hr as [_ Hout Hin]. eexists. split; [done|]. split.
  - by rewrite length_insert.
  - intros p c'. rewrite list_lookup_insert. case_decide as E.
    + destruct E as [<- _]. intros [= <-] _. exists (Z.to_nat j), h.
      rewrite !Z2Nat.id by lia. split; [lia|]. done.
    + intros Hp' Hne. destruct (Hout _ _ Hp' Hne) as (i & h' & ? & ? & ? & ?).
      exists i, h'. split; [lia|]. done.
  - intros i c' Hi Hc'. apply list_elem_of_lookup.
    destruct (decide (i = Z.to_nat j)) as [->|Hne].
    + exists (Z.to_nat (h mod (slot_size s * 2))).
      rewrite list_lookup_insert_eq by lia. congruence.
    + assert (c' ∈ ns) as Hc'' by (apply (Hin i); [lia|done]).
      apply list_elem_of_lookup in Hc'' as [p Hp']. exists p.
      rewrite list_lookup_insert_ne; [done|]. intros <-. rewrite Hold in Hp'.
      injection Hp' as <-. by destruct (Hfull _ _ Hc').
Qed.

(** The context in slot 0 leaves one of its two candidate places empty. *)
Lemma rehash_free ns : rehashed s (slot_size s) ns → 0 ∈ ns.
Proof.
  intros [Hlen Hout _]. destruct (size_bounds s Hs) as [Hb _].
  destruct (slot_read s 0 Hs) as (c0 & Hc0 & _); [lia|].
  destruct (so_home _ Hs _ _ Hc0 (Hfull _ _ Hc0)) as (h0 & HH0 & Hm0).
  assert (Hpb := Z.mod_pos_bound (h0 + slot_size s) (slot_size s * 2) ltac:(lia)).
  set (p := Z.to_nat ((h0 + slot_size s) mod (slot_size s * 2))).
  destruct (lookup_lt_is_Some_2 ns p) as [c Hc]; [unfold p; lia|].
  apply list_elem_of_lookup. exists p. destruct (decide (c = 0)) as [->|Hne]; [done|].
  exfalso. destruct (Hout _ _ Hc Hne) as (i & h & Hi & Hsi & HH & Hm).
  destruct (so_home _ Hs _ _ Hsi Hne) as (h' & HH' & Hmi).
  rewrite HH in HH'. injection HH' as <-. unfold p in Hm. rewrite Z2Nat.id in Hm by lia.
  rewrite <- size2_mod, Hm, size2_mod in Hmi.
  replace (h0 + slot_size s) with (h0 + 1 * slot_size s) in Hmi by lia.
  rewrite Z.mod_add, Hm0 in Hmi by lia.
  assert (i = 0%nat) as -> by lia. change (Z.to_nat 0) with 0%nat in Hc0.
  rewrite Hc0 in Hsi. injection Hsi as <-. rewrite HH0 in HH. injection HH as <-.
  apply (f_equal (λ z, (z - h0) mod (slot_size s * 2))) in Hm.
  rewrite !Zminus_mod_idemp_l in Hm.
  replace (h0 + slot_size s - h0) with (slot_size s) in Hm by lia.
  rewrite Z.sub_diag, Z.mod_0_l, Z.mod_small in Hm by lia. lia.
Qed.

Lemma rehash_ok ns :
  slot_size s * 2 ≤ 2 ^ 24 → rehashed s (slot_size s) ns →
  slots_ok (set_slot (slot_size s * 2) ns s) ∧
  ∀ h c, registered (set_slot (slot_size s * 2) ns s) h c ↔ registered s h c.
Proof.
  intros Hmax [Hlen Hout Hin]. destruct Hs as [(k & Hk & Esz) Hl _ Hhb Hix]. split; [split|]; cbn.
  - exists (k + 1). rewrite Z.pow_add_r, <- Esz by lia. split; [|lia].
    destruct (decide (k = 24)) as [->|]; lia.
  - done.
  - intros p c Hp Hne. destruct (Hout _ _ Hp Hne) as (i & h & _ & _ & ? & ?). eauto.
  - done.
  - done.
  - intros h c. unfold registered. cbn.
    assert (c ≠ 0 → c ∈ ns ↔ c ∈ slot s) as Heq; [|tauto]. intros Hc0.
    rewrite !list_elem_of_lookup. split.
    + intros [p Hp]. destruct (Hout _ _ Hp Hc0) as (i & _ & _ & ? & _). eauto.
    + intros [i Hi]. apply list_elem_of_lookup. apply (Hin i); [|done].
      apply lookup_lt_Some in Hi. lia.
Qed.

Lemma expand_lemma :
  slot_size s * 2 ≤ 2 ^ 24 →
  ∃ ns, expand_slots H s = Ok (set_slot (slot_size s * 2) ns s) ∧
    rehashed s (slot_size s) ns.
Proof.
  intros Hmax. destruct (size_bounds s Hs) as [Hb _]. unfold expand_slots. cbv zeta.
  assert (slot_size s * 2 - 1 <=? HANDLE_MASK = true) as ->.
  { apply Z.leb_le. unfold HANDLE_MASK. change (2 ^ 24) with 16777216 in *. lia. }
  cbn [assertb]. rewrite bind_ok. fold (rehash_body s).
  destruct (for_range_inv (rehashed s) (Z.to_nat (slot_size s)) 0 (rehash_body s)
    (replicate (Z.to_nat (slot_size s * 2)) 0) rehash_init) as (ns & Hns & Hr).
  { intros j ns Hj. apply rehash_step. lia. }
  exists ns. rewrite Hns, bind_ok. split; [done|].
  by rewrite Z2Nat.id in Hr by lia.
Qed.

End rehash.

(** The next free handle of the table, when it has a free slot. *)
Lemma find_free_some s :
  slots_ok s → 0 ∈ slot s →
  ∃ handle, 0 ≤ handle < 2 ^ 24 ∧
    find_free s (Z.to_nat (slot_size s)) 0 = Ok (Some (handle, handle mod slot_size s)) ∧
    slot s !! Z.to_nat (handle mod slot_size s) = Some 0.
Proof.
  intros Hs H0. destruct (size_bounds s Hs) as [Hb _].
  destruct (find_free_lemma s (Z.to_nat (slot_size s)) 0 Hs)
    as [(j & _ & Hf & Hz)|[Hf _]]; [lia|lia|..].
  - eexists. split; [|split; [exact Hf|exact Hz]]. apply Z.mod_pos_bound. lia.
  - apply list_elem_of_lookup in H0 as [i Hi].
    by destruct (find_none_full s i 0 Hs Hf Hi).
Qed.

End slots.

(** Handles: the local id with the harbor on top. *)
Lemma harbor_handle handle hb :
  0 ≤ handle < 2 ^ 24 → hb mod 2 ^ 24 = 0 → Z.lor handle hb mod 2 ^ 24 = handle.
Proof.
  intros Hh Hb. rewrite <- !Z.land_ones in * by lia.
  rewrite Z.land_lor_distr_l, Hb, Z.lor_0_r, Z.land_ones by lia. by apply Z.mod_small.
Qed.

Lemma harbor_handle_size handle hb s H :
  slots_ok H s → 0 ≤ handle < 2 ^ 24 → hb mod 2 ^ 24 = 0 →
  Z.lor handle hb mod slot_size s = handle mod slot_size s.
Proof.
  intros Hs Hh Hb. destruct (size_bounds H s Hs) as [Hsz Hd].
  rewrite (Znumtheory.Zmod_div_mod (slot_size s) (2 ^ 24) (Z.lor handle hb)) by (lia || done).
  by rewrite harbor_handle.
Qed.

(** What a registration does to the table. *)
Record registration (H : Z → res Z) (s : handle_storage) (ctx h : Z) (s' : handle_storage)
  : Prop := {
  rg_range : 0 ≤ h < 2 ^ 32;
  rg_fresh : ∀ c, ¬ registered H s h c;
  rg_slots : ∀ c, c ≠ 0 → c ∈ slot s' ↔ c = ctx ∨ c ∈ slot s;
  rg_names : name_cap s' = name_cap s ∧ name_count s' = name_count s ∧ name s' = name s;
  rg_harbor : harbor s' = harbor s;
  rg_index : handle_index s' = h mod 2 ^ 24 + 1;
  rg_ok : ∀ H', H' ctx = Ok h → (∀ c, c ∈ slot s → c ≠ 0 → H' c = H c) → slots_ok H' s'
}.

(** Storing the context in the free slot. *)
Lemma register_at H s ctx handle :
  slots_ok H s → ctx ≠ 0 → 0 ≤ handle < 2 ^ 24 →
  slot s !! Z.to_nat (handle mod slot_size s) = Some 0 →
  ∃ l, wr (slot s) (handle mod slot_size s) ctx = Ok l ∧
    registration H s ctx (Z.lor handle (harbor s))
      (set_index (u32 (handle + 1)) (set_slot (slot_size s) l s)).
Proof.
  intros Hs Hctx Hh Hz. destruct (size_bounds H s Hs) as [Hb Hd].
  assert (Hp := Z.mod_pos_bound handle (slot_size s) ltac:(lia)).
  destruct (so_harbor _ _ Hs) as [Hr Hm24].
  assert (Hpos : Z.lor handle (harbor s) mod slot_size s = handle mod slot_size s)
    by (by apply (harbor_handle_size _ _ _ H)).
  assert (Hlen := so_len _ _ Hs).
  rewrite wr_ok by lia. eexists. split; [done|].
  assert (Hslots : ∀ c, c ≠ 0 → c ∈ <[Z.to_nat (handle mod slot_size s):=ctx]> (slot s) ↔
            c = ctx ∨ c ∈ slot s).
  { intros c Hc. rewrite !list_elem_of_lookup. split.
    - intros [i Hi]. rewrite list_lookup_insert in Hi. case_decide; [left; congruence|eauto].
    - intros [->|[i Hi]].
      + exists (Z.to_nat (handle mod slot_size s)). apply list_lookup_insert_eq. lia.
      + exists i. rewrite list_lookup_insert_ne; [done|]. congruence. }
  split; cbn.
  - apply lor_range; lia.
  - intros c (Hc0 & HH & Hin). apply list_elem_of_lookup in Hin as [i Hi].
    destruct (so_home _ _ Hs _ _ Hi Hc0) as (h & HH' & Hmi). rewrite HH in HH'.
    injection HH' as <-. rewrite Hpos in Hmi. rewrite Hmi, Nat2Z.id in Hz. congruence.
  - done.
  - done.
  - done.
  - rewrite u32_small by lia. by rewrite harbor_handle.
  - intros H' HH' Hext. split; cbn.
    + apply Hs.
    + by rewrite length_insert.
    + intros i c Hi Hc0. rewrite list_lookup_insert in Hi. case_decide as E.
      * destruct E as [<- _]. injection Hi as <-. eexists. split; [done|].
        rewrite Hpos, Z2Nat.id by lia. done.
      * rewrite Hext; [|by apply list_elem_of_lookup; eauto|done].
        by apply (so_home _ _ Hs).
    + apply Hs.
    + rewrite u32_small by lia. lia.
Qed.

Lemma register_step_free H s ctx :
  slots_ok H s → ctx ≠ 0 → 0 ∈ slot s →
  ∃ h s', register_step H ctx s = Ok (Break (h, s')) ∧ registration H s ctx h s'.
Proof.
  intros Hs Hctx H0. destruct (find_free_some H s Hs H0) as (handle & Hh & Hf & Hz).
  destruct (register_at H s ctx handle Hs Hctx Hh Hz) as (l & Hl & Hreg).
  unfold register_step. rewrite Hf, bind_ok, Hl, bind_ok. eauto.
Qed.

Lemma register_lemma H s ctx :
  slots_ok H s → ctx ≠ 0 → (slot_size s < 2 ^ 24 ∨ 0 ∈ slot s) →
  ∃ h s', skynet_handle_register H s ctx = Ok (h, s') ∧ registration H s ctx h s'.
Proof.
  intros Hs Hctx Hroom. unfold skynet_handle_register. cbn [iterate].
  destruct (decide (0 ∈ slot s)) as [H0|H0].
  { destruct (register_step_free H s ctx Hs Hctx H0) as (h & s' & -> & Hreg). cbn. eauto. }
  assert (Hfull : ∀ i c, slot s !! i = Some c → c ≠ 0).
  { intros i c Hi ->. apply H0. apply list_elem_of_lookup. eauto. }
  assert (Hmax : slot_size s * 2 ≤ 2 ^ 24).
  { destruct Hroom as [Hlt|]; [|done]. destruct (so_size _ _ Hs) as (k & Hk & E).
    rewrite E in *. assert (k < 24) by (apply (Z.pow_lt_mono_r_iff 2); lia).
    replace (2 ^ k * 2) with (2 ^ (k + 1)) by (rewrite Z.pow_add_r by lia; lia).
    apply Z.pow_le_mono_r; lia. }
  destruct (expand_lemma H s Hs Hfull Hmax) as (ns & Hex & Hrh).
  destruct (rehash_ok H s Hs ns Hmax Hrh) as [Hs1 Hreg1].
  set (s1 := set_slot (slot_size s * 2) ns s) in *.
  destruct (register_step_free H s1 ctx Hs1 Hctx) as (h & s' & Hst & Hreg).
  { exact (rehash_free H s Hs Hfull ns Hrh). }
  unfold register_step at 2.
  destruct (find_free_lemma H s (Z.to_nat (slot_size s)) 0 Hs) as [(j & _ & _ & Hz)|[-> _]].
  { lia. } { destruct (size_bounds H s Hs). lia. }
  { by destruct (Hfull _ _ Hz). }
  rewrite bind_ok, Hex, bind_ok, bind_ok, Hst, bind_ok.
  exists h, s'. split; [done|].
  assert (Hin : ∀ c, c ≠ 0 → c ∈ ns ↔ c ∈ slot s).
  { intros c Hc. rewrite !list_elem_of_lookup. split.
    - intros [p Hp]. destruct (rh_out _ _ _ _ Hrh _ _ Hp Hc) as (i & _ & _ & ? & _). eauto.
    - intros [i Hi]. apply list_elem_of_lookup. apply (rh_in _ _ _ _ Hrh i); [|done].
      apply lookup_lt_Some in Hi. rewrite <- (so_len _ _ Hs). lia. }
  destruct Hreg as [Hr Hfr Hsl Hnm Hhb Hix Hok]. split; try done.
  - intros c Hc. by apply (Hfr c), Hreg1.
  - intros c Hc. rewrite Hsl by done. cbn. by rewrite Hin.
  - intros H' HH' Hext. apply Hok; [done|]. intros c Hc Hc0. apply Hext; [|done].
    by apply Hin.
Qed.

(** ** The name table *)

(** The name array holds [l], sorted. *)
Record names_ok (s : handle_storage) (l : list handle_name) : Prop := {
  no_count : name_count s = Z.of_nat (length l);
  no_cap : Z.of_nat (length (name s)) = name_cap s;
  no_room : name_count s ≤ name_cap s;
  no_pow : ∃ k, 1 ≤ k ≤ 30 ∧ name_cap s = 2 ^ k;
  no_elem : ∀ i e, l !! i = Some e → name s !! i = Some (Some e);
  no_cstr : ∀ e, e ∈ l → cstr_ok (hn_name e);
  no_sorted : ∀ i j a b, (i < j)%nat → l !! i = Some a → l !! j = Some b →
    strcmp (hn_name a) (hn_name b) < 0
}.

Definition name_pairs (l : list handle_name) : list (cstring * Z) :=
  map (λ e, (hn_name e, hn_handle e)) l.

(** What the array means: a finite map from names to handles. *)
Definition names_repr (s : handle_storage) (M : gmap cstring Z) : Prop :=
  ∃ l, names_ok s l ∧ M = list_to_map (name_pairs l).

Lemma names_nodup s l : names_ok s l → NoDup (name_pairs l).*1.
Proof.
  intros Hn. apply NoDup_alt. intros i j x Hi Hj.
  unfold name_pairs in *. rewrite !list_lookup_fmap in Hi, Hj.
  destruct (l !! i) as [a|] eqn:Ea; [|done]. destruct (l !! j) as [b|] eqn:Eb; [|done].
  cbn in Hi, Hj. injection Hi as <-. injection Hj as Hj.
  assert (strcmp (hn_name a) (hn_name a) = 0) as H0.
  { apply strcmp_eq; [..|done]; apply (no_cstr _ _ Hn); eapply list_elem_of_lookup_2; eauto. }
  destruct (lt_eq_lt_dec i j) as [[Hlt|]|Hgt]; [|done|].
  - pose proof (no_sorted _ _ Hn _ _ _ _ Hlt Ea Eb). rewrite Hj in *. lia.
  - pose proof (no_sorted _ _ Hn _ _ _ _ Hgt Eb Ea). rewrite Hj in *. lia.
Qed.

Lemma name_pairs_elem l k v :
  (k, v) ∈ name_pairs l ↔ ∃ e, e ∈ l ∧ hn_name e = k ∧ hn_handle e = v.
Proof.
  unfold name_pairs. rewrite list_elem_of_fmap. split.
  - intros (e & [= -> ->] & He). eauto.
  - intros (e & He & <- & <-). eauto.
Qed.

(** ** The binary search *)

Definition search_post (l : list handle_name) (key : cstring) (r : Z + handle_name) : Prop :=
  match r with
  | inr e => e ∈ l ∧ hn_name e = key
  | inl b => 0 ≤ b ≤ Z.of_nat (length l) ∧
      (∀ i e, l !! i = Some e → Z.of_nat i < b → strcmp (hn_name e) key < 0) ∧
      (∀ i e, l !! i = Some e → b ≤ Z.of_nat i → strcmp (hn_name e) key > 0)
  end.

Lemma search_lemma s l key :
  names_ok s l → cstr_ok key →
  ∃ r, iterate (search_fuel s) (search_step s key) (0, name_count s - 1) = Ok r ∧
    search_post l key r.
Proof.
  intros Hn Hkey. destruct Hn as [Hcnt Hcap Hroom Hpow Hel Hcs Hsort] eqn:En. clear En.
  apply (iterate_total
    (λ '(b, e), 0 ≤ b ∧ e < Z.of_nat (length l) ∧ b ≤ e + 1 ∧
       (∀ i x, l !! i = Some x → Z.of_nat i < b → strcmp (hn_name x) key < 0) ∧
       (∀ i x, l !! i = Some x → e < Z.of_nat i → strcmp (hn_name x) key > 0))
    (search_post l key) (λ '(b, e), Z.to_nat (e - b + 1))).
  - intros [b e] (Hb & He & Hbe & Hlo & Hhi). unfold search_step.
    destruct (Z.leb_spec b e) as [Hle|Hgt].
    2: { left. exists (inl b). split; [done|]. cbn. split; [lia|].
         split; [done|]. intros i x Hx Hi. apply (Hhi i); [done|lia]. }
    rewrite Z.quot_div_nonneg by lia.
    assert (b ≤ (b + e) / 2 ≤ e) as Hmid by (Z.div_mod_to_equations; lia).
    destruct (lookup_lt_is_Some_2 l (Z.to_nat ((b + e) / 2))) as [x Hx]; [lia|].
    rewrite (rd_init_ok _ _ x) by (lia || by apply Hel). rewrite bind_ok.
    assert (Hxin : x ∈ l) by (eapply list_elem_of_lookup_2; eauto).
    destruct (Z.eqb_spec (strcmp (hn_name x) key) 0) as [E|Hne].
    { left. exists (inr x). split; [done|]. split; [done|]. by apply strcmp_eq; auto. }
    right. destruct (Z.ltb_spec (strcmp (hn_name x) key) 0) as [Hlt|Hge].
    + eexists. split; [done|]. split; [|lia]. repeat split; try lia.
      * intros i y Hy Hi. destruct (decide (i = Z.to_nat ((b + e) / 2))) as [->|Hni].
        { rewrite Hx in Hy. by injection Hy as <-. }
        eapply strcmp_trans; [..|exact Hlt]; eauto using list_elem_of_lookup_2.
        eapply (Hsort i (Z.to_nat ((b + e) / 2))); eauto. lia.
      * intros i y Hy Hi. apply (Hhi i); [done|lia].
    + eexists. split; [done|]. split; [|lia]. repeat split; try lia.
      * intros i y Hy Hi. by apply (Hlo i).
      * intros i y Hy Hi. destruct (decide (i = Z.to_nat ((b + e) / 2))) as [->|Hni].
        { rewrite Hx in Hy. injection Hy as <-. lia. }
        assert (strcmp key (hn_name y) < 0); [|pose proof (strcmp_antisym key (hn_name y)); lia].
        apply (strcmp_trans _ (hn_name x)); eauto using list_elem_of_lookup_2.
        { rewrite strcmp_antisym. lia. }
        eapply (Hsort (Z.to_nat ((b + e) / 2)) i); eauto. lia.
  - rewrite Hcnt. repeat split; try lia. intros i x Hx Hi.
    apply lookup_lt_Some in Hx. lia.
  - unfold search_fuel. lia.
Qed.

Lemma names_lookup s l key :
  names_ok s l → cstr_ok key →
  (∀ e, e ∈ l → hn_name e = key → (list_to_map (name_pairs l) : gmap cstring Z) !! key = Some (hn_handle e)) ∧
  ((∀ e, e ∈ l → hn_name e ≠ key) → (list_to_map (name_pairs l) : gmap cstring Z) !! key = None).
Proof.
  intros Hn Hkey. split.
  - intros e He <-. apply elem_of_list_to_map; [by eapply names_nodup|].
    apply name_pairs_elem. eauto.
  - intros Hno. apply not_elem_of_list_to_map. rewrite list_elem_of_fmap.
    intros ([k v] & Hk & Hin). apply name_pairs_elem in Hin as (e & He & <- & _).
    cbn in Hk. by apply (Hno e).
Qed.

Lemma search_absent l key b :
  search_post l key (inl b) → ∀ e, e ∈ l → hn_name e ≠ key.
Proof.
  intros (_ & Hlo & Hhi) e He E. apply list_elem_of_lookup in He as [i Hi].
  pose proof (strcmp_antisym key key).
  destruct (decide (Z.of_nat i < b)).
  - specialize (Hlo _ _ Hi). rewrite E in Hlo. lia.
  - specialize (Hhi _ _ Hi ltac:(lia)). rewrite E in Hhi. lia.
Qed.

Lemma findname_lemma s M key :
  names_repr s M → cstr_ok key → skynet_handle_findname s key = Ok (default 0 (M !! key)).
Proof.
  intros (l & Hn & ->) Hkey. destruct (names_lookup s l key Hn Hkey) as [Hyes Hno].
  destruct (search_lemma s l key Hn Hkey) as ([b|e] & Hr & Hpost);
    unfold skynet_handle_findname; rewrite Hr, bind_ok.
  - rewrite Hno; [done|]. by eapply search_absent.
  - destruct Hpost as [He Hk]. by rewrite (Hyes e He Hk).
Qed.

(** ** Insertion in the array *)

(** Both branches of [_insert_name_before] open a gap at [before]. *)
Definition gap_at (old new : list (option handle_name)) (before count : Z) : Prop :=
  (∀ p, Z.of_nat p < before → new !! p = old !! p) ∧
  (∀ p, before ≤ Z.of_nat p < count → new !! S p = old !! p).

Lemma shift_loop (old : list (option handle_name)) before count :
  0 ≤ before ≤ count → count < Z.of_nat (length old) →
  ∃ new, for_range (Z.to_nat (count - before)) 0
    (λ k n, let i := count - k in e ← rd n (i - 1); wr n i e) old = Ok new ∧
    length new = length old ∧ gap_at old new before count.
Proof.
  intros Hb Hc.
  destruct (for_range_inv (λ k n, length n = length old ∧
      (∀ p, Z.of_nat p < count - k → n !! p = old !! p) ∧
      (∀ p, count - k ≤ Z.of_nat p < count → n !! S p = old !! p))
    (Z.to_nat (count - before)) 0
    (λ k n, let i := count - k in e ← rd n (i - 1); wr n i e) old)
    as (new & Hf & Hlen & Hlo & Hhi).
  - split; [done|]. split; [done|]. intros p Hp. lia.
  - intros k n Hk (Hlen & Hlo & Hhi). cbv zeta.
    destruct (rd_in_range n (count - k - 1)) as (e & He & ->); [lia|].
    rewrite bind_ok, wr_ok by lia. eexists. split; [done|]. split; [by rewrite length_insert|].
    split.
    + intros p Hp. rewrite list_lookup_insert_ne by lia. apply Hlo. lia.
    + intros p Hp. rewrite list_lookup_insert. case_decide as E.
      * rewrite <- He, Hlo by lia. f_equal. lia.
      * apply Hhi. lia.
  - exists new. split; [done|]. split; [done|]. rewrite Z2Nat.id in * by lia.
    split; intros p Hp; [apply Hlo|apply Hhi]; lia.
Qed.

Lemma copy_loops (old : list (option handle_name)) before count cap :
  0 ≤ before ≤ count → count ≤ Z.of_nat (length old) → count < cap →
  ∃ n1 n2, for_range (Z.to_nat before) 0 (λ i n, e ← rd old i; wr n i e)
             (replicate (Z.to_nat cap) None) = Ok n1 ∧
    for_range (Z.to_nat (count - before)) before (λ i n, e ← rd old i; wr n (i + 1) e) n1
      = Ok n2 ∧
    Z.of_nat (length n2) = cap ∧ gap_at old n2 before count.
Proof.
  intros Hb Hc Hcap.
  destruct (for_range_inv (λ j n, Z.of_nat (length n) = cap ∧
      (∀ p, Z.of_nat p < j → n !! p = old !! p)) (Z.to_nat before) 0
    (λ i n, e ← rd old i; wr n i e) (replicate (Z.to_nat cap) None)) as (n1 & Hf1 & Hl1 & H1).
  - rewrite length_replicate. split; [lia|]. intros p Hp. lia.
  - intros j n Hj (Hlen & Hlo). destruct (rd_in_range old j) as (e & He & ->); [lia|].
    rewrite bind_ok, wr_ok by lia. eexists. split; [done|]. split; [by rewrite length_insert|].
    intros p Hp. rewrite list_lookup_insert. case_decide as E.
    + by destruct E as [<- _].
    + apply Hlo. lia.
  - rewrite Z2Nat.id in H1 by lia.
    destruct (for_range_inv (λ j n, Z.of_nat (length n) = cap ∧
        (∀ p, Z.of_nat p < before → n !! p = old !! p) ∧
        (∀ p, before ≤ Z.of_nat p < j → n !! S p = old !! p))
      (Z.to_nat (count - before)) before
      (λ i n, e ← rd old i; wr n (i + 1) e) n1) as (n2 & Hf2 & Hl2 & H2 & H3).
    + split; [done|]. split; [intros p Hp; apply H1; lia|]. intros p Hp. lia.
    + intros j n Hj (Hlen & Hlo & Hhi). destruct (rd_in_range old j) as (e & He & ->); [lia|].
      rewrite bind_ok, wr_ok by lia. eexists. split; [done|].
      split; [by rewrite length_insert|]. split.
      * intros p Hp. rewrite list_lookup_insert_ne by lia. by apply Hlo.
      * intros p Hp. rewrite list_lookup_insert. case_decide as E.
        -- rewrite <- He. f_equal. lia.
        -- apply Hhi. lia.
    + exists n1, n2. split; [done|]. split; [done|]. split; [done|].
      split; [done|]. intros p Hp. apply H3. lia.
Qed.

Definition insert_at (b : Z) (e : handle_name) (l : list handle_name) : list handle_name :=
  take (Z.to_nat b) l ++ e :: drop (Z.to_nat b) l.

(** Every element of the longer list is the new one or comes from the old list, on
    the same side of the gap. *)
Lemma insert_at_lookup b e l i x :
  0 ≤ b ≤ Z.of_nat (length l) → insert_at b e l !! i = Some x →
  (Z.of_nat i < b ∧ l !! i = Some x) ∨ (Z.of_nat i = b ∧ x = e) ∨
  (∃ j, i = S j ∧ b ≤ Z.of_nat j ∧ l !! j = Some x).
Proof.
  intros Hb Hx. unfold insert_at in Hx.
  destruct (decide (Z.of_nat i < b)) as [Hlt|Hge].
  - left. split; [done|]. rewrite lookup_app_l in Hx by (rewrite length_take; lia).
    by rewrite lookup_take in Hx; case_decide; [|lia].
  - right. rewrite lookup_app_r, length_take in Hx by (rewrite length_take; lia).
    destruct (decide (Z.of_nat i = b)) as [Ei|Hne].
    + left. split; [done|]. replace (i - _)%nat with 0%nat in Hx by lia. by injection Hx as ->.
    + right. exists (pred i). split; [lia|]. split; [lia|].
      replace (i - min (Z.to_nat b) (length l))%nat with (S (pred i - Z.to_nat b)) in Hx by lia.
      rewrite lookup_cons, lookup_drop in Hx.
      by replace (Z.to_nat b + _)%nat with (pred i) in Hx by lia.
Qed.

Lemma insert_at_elem b e l x : x ∈ insert_at b e l ↔ x = e ∨ x ∈ l.
Proof.
  unfold insert_at. rewrite elem_of_app, elem_of_cons.
  rewrite <- (take_drop (Z.to_nat b) l) at 3. rewrite elem_of_app. tauto.
Qed.

(** Writing the entry into the gap keeps the array sorted. *)
Lemma gap_names_ok s l key h b cap names :
  names_ok s l → cstr_ok key → search_post l key (inl b) →
  gap_at (name s) names b (name_count s) → Z.of_nat (length names) = cap →
  name_count s < cap → (∃ k, 1 ≤ k ≤ 30 ∧ cap = 2 ^ k) →
  ∃ n, wr names b (Some (HandleName key h)) = Ok n ∧
    names_ok (set_names cap (name_count s + 1) n s) (insert_at b (HandleName key h) l).
Proof.
  intros Hn Hkey (Hb & Hlo & Hhi) [Hg1 Hg2] Hlen Hroom Hpow.
  destruct Hn as [Hcnt Hcap _ _ Hel Hcs Hsort].
  rewrite wr_ok by lia. eexists. split; [done|].
  assert (Hkk : ∀ i e, l !! i = Some e → b ≤ Z.of_nat i → strcmp key (hn_name e) < 0).
  { intros i e Hi Hbi. rewrite strcmp_antisym. specialize (Hhi _ _ Hi Hbi). lia. }
  split; cbn.
  - rewrite Hcnt. unfold insert_at. rewrite length_app. cbn. rewrite length_take, length_drop. lia.
  - by rewrite length_insert.
  - lia.
  - done.
  - intros i e Hi. apply insert_at_lookup in Hi as [[Hlt Hi]|[[Ei ->]|(j & -> & Hj & Hi)]];
      [| | |done].
    + rewrite list_lookup_insert_ne by lia. rewrite Hg1 by done. by apply Hel.
    + replace i with (Z.to_nat b) by lia. apply list_lookup_insert_eq. lia.
    + rewrite list_lookup_insert_ne by lia. pose proof (lookup_lt_Some _ _ _ Hi).
      rewrite Hg2 by lia. by apply Hel.
  - intros e He. apply insert_at_elem in He as [->|He]; [done|by apply Hcs].
  - intros i j x y Hij Hx Hy.
    apply insert_at_lookup in Hx as [[? Hx]|[[? ->]|(i' & -> & ? & Hx)]]; [| | |done];
    apply insert_at_lookup in Hy as [[? Hy]|[[? ->]|(j' & -> & ? & Hy)]]; try done; try lia; cbn.
    + by apply (Hsort i j).
    + by eapply Hlo.
    + apply (Hsort i j'); [lia|done..].
    + by eapply Hkk.
    + apply (Hsort i' j'); [lia|done..].
Qed.

Lemma insert_name_before_lemma s l key h b :
  names_ok s l → cstr_ok key → search_post l key (inl b) → Z.of_nat (length l) < 2 ^ 30 →
  ∃ cap n, _insert_name_before s key h b = Ok (set_names cap (name_count s + 1) n s) ∧
    names_ok (set_names cap (name_count s + 1) n s) (insert_at b (HandleName key h) l).
Proof.
  intros Hn Hkey Hpost Hmax. destruct Hpost as (Hb & Hsides) eqn:E. clear E.
  destruct (Hn) as [Hcnt Hcap Hroom (k & Hk & Hpow) _ _ _]. unfold _insert_name_before.
  destruct (Z.geb_spec (name_count s) (name_cap s)) as [Hge|Hlt].
  - assert (k < 30) by (apply (Z.pow_lt_mono_r_iff 2); lia).
    assert (2 ^ k * 2 = 2 ^ (k + 1)) as E2 by (rewrite Z.pow_add_r by lia; lia).
    assert (2 ^ (k + 1) ≤ 2 ^ 30) by (apply Z.pow_le_mono_r; lia).
    assert (0 < 2 ^ k) by lia.
    rewrite Hpow, E2, int_chk_ok, bind_ok by (unfold INT_MIN, INT_MAX; lia).
    assert (2 ^ (k + 1) <=? MAX_SLOT_SIZE = true) as -> by (apply Z.leb_le; unfold MAX_SLOT_SIZE; lia).
    cbn [assertb]. rewrite bind_ok.
    destruct (copy_loops (name s) b (name_count s) (2 ^ (k + 1)))
      as (n1 & n2 & Hf1 & Hf2 & Hl2 & Hg2); [lia|lia|lia|].
    cbv zeta. rewrite Hf1, bind_ok, Hf2, !bind_ok.
    destruct (gap_names_ok s l key h b (2 ^ (k + 1)) n2) as (n & -> & Hok); try done; [lia| |].
    { exists (k + 1). lia. }
    rewrite bind_ok. eauto.
  - destruct (shift_loop (name s) b (name_count s)) as (n2 & Hf2 & Hl2 & Hg2); [lia|lia|].
    cbv zeta in *. rewrite Hf2, !bind_ok.
    destruct (gap_names_ok s l key h b (name_cap s) n2) as (n & -> & Hok); try done; [lia|eauto|].
    rewrite bind_ok. eauto.
Qed.

Lemma namehandle_lemma s M h key :
  names_repr s M → cstr_ok key → Z.of_nat (size M) < 2 ^ 30 →
  match M !! key with
  | Some _ => skynet_handle_namehandle s h key = Ok (None, s)
  | None => ∃ cap n, let s' := set_names cap (name_count s + 1) n s in
      skynet_handle_namehandle s h key = Ok (Some key, s') ∧ names_repr s' (<[key := h]> M)
  end.
Proof.
  intros (l & Hn & ->) Hkey Hmax. destruct (names_lookup s l key Hn Hkey) as [Hyes Hno].
  assert (Hnd := names_nodup s l Hn).
  assert (size (list_to_map (name_pairs l) : gmap cstring Z) = length l) as Hsize.
  { rewrite map_size_list_to_map by done. unfold name_pairs. by rewrite length_map. }
  unfold skynet_handle_namehandle, _insert_name.
  destruct (search_lemma s l key Hn Hkey) as ([b|e] & -> & Hpost); rewrite bind_ok.
  - rewrite Hno by (by eapply search_absent).
    destruct (insert_name_before_lemma s l key h b Hn Hkey Hpost) as (cap & n & -> & Hok).
    { rewrite <- Hsize. done. }
    exists cap, n. cbv zeta. rewrite bind_ok. split; [done|].
    eexists. split; [done|]. change (<[key:=h]> (list_to_map (name_pairs l)) : gmap cstring Z)
      with (list_to_map ((key, h) :: name_pairs l) : gmap cstring Z).
    apply list_to_map_proper.
    + cbn. apply NoDup_cons. split; [|done]. rewrite list_elem_of_fmap.
      intros ([k v] & Hk & Hin). apply name_pairs_elem in Hin as (e & He & <- & _).
      by apply (search_absent _ _ _ Hpost e He).
    + unfold name_pairs, insert_at. rewrite map_app. cbn.
      rewrite <- Permutation_middle, <- map_app, take_drop. done.
  - destruct Hpost as [He Hk]. by rewrite (Hyes e He Hk).
Qed.

(** ** Removing the names of a handle *)

Lemma drop_loop s l h :
  names_ok s l →
  ∃ names, drop_names s h =
      Ok (set_names (name_cap s) (Z.of_nat (length (filter (λ e, hn_handle e ≠ h) l))) names s) ∧
    length names = length (name s) ∧
    ∀ p e, filter (λ e, hn_handle e ≠ h) l !! p = Some e → names !! p = Some (Some e).
Proof.
  intros Hn. destruct Hn as [Hcnt Hcap Hroom _ Hel _ _]. unfold drop_names.
  set (F := λ i : Z, filter (λ e, hn_handle e ≠ h) (take (Z.to_nat i) l)).
  destruct (for_range_inv (λ i '(j, names),
      j = Z.of_nat (length (F i)) ∧ j ≤ i ∧ length names = length (name s) ∧
      (∀ p e, F i !! p = Some e → names !! p = Some (Some e)) ∧
      (∀ p, i ≤ Z.of_nat p → names !! p = name s !! p))
    (Z.to_nat (name_count s)) 0
    (λ i '(j, names), e ← rd_init names i;
      if hn_handle e =? h then Ok (j, names)
      else if negb (i =? j) then names ← wr names j (Some e); Ok (j + 1, names)
      else Ok (j + 1, names)) (0, name s)) as ([j names] & Hf & Hj & _ & Hlen & Hlo & _).
  - unfold F. cbn. split; [done|]. split; [lia|]. done.
  - intros i [j names] Hi (Hj & Hji & Hlen & Hlo & Hhi).
    destruct (lookup_lt_is_Some_2 l (Z.to_nat i)) as [e He]; [lia|].
    rewrite (rd_init_ok _ _ e); [|lia|rewrite Hhi by lia; by apply Hel].
    rewrite bind_ok.
    assert (HF : F (i + 1) = F i ++ (if decide (hn_handle e ≠ h) then [e] else [])).
    { unfold F. replace (Z.to_nat (i + 1)) with (S (Z.to_nat i)) by lia.
      rewrite (take_S_r _ _ e He), filter_app, filter_cons, filter_nil. done. }
    destruct (Z.eqb_spec (hn_handle e) h) as [Eh|Hh].
    + eexists. split; [done|]. rewrite HF, decide_False, app_nil_r by tauto.
      split; [done|]. split; [lia|]. split; [done|]. split; [done|].
      intros p Hp. apply Hhi. lia.
    + rewrite HF, decide_True, length_app by done. cbn [length].
      destruct (Z.eqb_spec i j) as [Eij|Hij]; cbn [negb].
      * eexists. split; [done|]. split; [lia|]. split; [lia|]. split; [done|]. split.
        -- apply (elems_snoc _ names); [done| |done]. rewrite Hhi by lia.
           replace (length (F i)) with (Z.to_nat i) by lia. by apply Hel.
        -- intros p Hp. apply Hhi. lia.
      * rewrite wr_ok, bind_ok by lia. eexists. split; [done|]. split; [lia|].
        split; [lia|]. split; [by rewrite length_insert|]. split.
        -- apply (elems_snoc _ names); [done|..].
           ++ replace (length (F i)) with (Z.to_nat j) by lia.
              apply list_lookup_insert_eq. lia.
           ++ intros p Hp. rewrite list_lookup_insert_ne by lia. done.
        -- intros p Hp. rewrite list_lookup_insert_ne by lia. apply Hhi. lia.
  - rewrite Hf, bind_ok. exists names. unfold F in *.
    rewrite Z.add_0_l, Z2Nat.id, Hcnt, Nat2Z.id, take_ge in Hj, Hlo by lia. rewrite Hj. done.
Qed.

(** A filtered list keeps the order of the entries. *)
Lemma filter_sorted (P : handle_name → Prop) `{!∀ x, Decision (P x)} (l : list handle_name) :
  (∀ i j a b, (i < j)%nat → l !! i = Some a → l !! j = Some b →
     strcmp (hn_name a) (hn_name b) < 0) →
  ∀ i j a b, (i < j)%nat → filter P l !! i = Some a → filter P l !! j = Some b →
     strcmp (hn_name a) (hn_name b) < 0.
Proof.
  induction l as [|x l IH]; intros Hl i j a b Hij Ha Hb; [done|].
  assert (Htl : ∀ i j a b, (i < j)%nat → filter P l !! i = Some a → filter P l !! j = Some b →
     strcmp (hn_name a) (hn_name b) < 0).
  { apply IH. intros i' j' a' b' Hij' Ha' Hb'. apply (Hl (S i') (S j')); [lia|done..]. }
  rewrite filter_cons in Ha, Hb. case_decide; [|by apply (Htl i j)].
  destruct j as [|j]; [lia|]. destruct i as [|i]; cbn in Ha, Hb.
  - injection Ha as <-. apply list_elem_of_lookup_2, list_elem_of_filter in Hb as [_ Hb].
    apply list_elem_of_lookup in Hb as [p Hp]. apply (Hl 0%nat (S p)); [lia|done..].
  - apply (Htl i j); [lia|done..].
Qed.

Lemma drop_names_lemma s M h :
  names_repr s M →
  ∃ cnt names, drop_names s h = Ok (set_names (name_cap s) cnt names s) ∧
    names_repr (set_names (name_cap s) cnt names s) (filter (λ kv, kv.2 ≠ h) M).
Proof.
  intros (l & Hn & ->). assert (Hnd := names_nodup s l Hn).
  destruct (drop_loop s l h Hn) as (names & Hd & Hlen & Hel).
  eexists _, names. split; [exact Hd|].
  exists (filter (λ e, hn_handle e ≠ h) l). split.
  - destruct Hn as [Hcnt Hcap Hroom Hpow Hel0 Hcs Hsort]. split; cbn; try done.
    + by rewrite Hlen.
    + pose proof (length_filter (λ e, hn_handle e ≠ h) l). lia.
    + intros e He. apply list_elem_of_filter in He as [_ He]. by apply Hcs.
    + by apply filter_sorted.
  - apply map_eq. intros k. apply option_eq. intros v.
    assert (Hnd' : NoDup (name_pairs (filter (λ e, hn_handle e ≠ h) l)).*1).
    { eapply sublist_NoDup; [exact Hnd|]. unfold name_pairs.
      do 2 apply fmap_sublist. apply sublist_filter. }
    rewrite map_lookup_filter_Some, <- !elem_of_list_to_map by done.
    rewrite !name_pairs_elem. cbn. split.
    + intros [(e & He & <- & <-) Hv]. exists e. by rewrite list_elem_of_filter.
    + intros (e & He & <- & <-). apply list_elem_of_filter in He as [Hv He]. eauto.
Qed.

(** ** Retiring a handle *)

(** [s'] is [s] without the context [c]. *)
Definition without (H : Z → res Z) (s : handle_storage) (c : Z) (s' : handle_storage) : Prop :=
  slots_ok H s' ∧ harbor s' = harbor s ∧ handle_index s' = handle_index s ∧
  slot_size s' = slot_size s ∧ ∀ h' c', registered H s' h' c' ↔ registered H s h' c' ∧ c' ≠ c.

Lemma retire_slot H s h c :
  slots_ok H s → c ≠ 0 → H c = Ok h → slot s !! Z.to_nat (h mod slot_size s) = Some c →
  without H s c (set_slot (slot_size s) (<[Z.to_nat (h mod slot_size s) := 0]> (slot s)) s).
Proof.
  intros Hs Hc0 HH Hc. destruct (size_bounds H s Hs) as [Hb _].
  assert (Hp := Z.mod_pos_bound h (slot_size s) ltac:(lia)).
  destruct (Hs) as [Hsz Hl Hh Hhb Hix]. split; [split; cbn; try done|].
  - by rewrite length_insert.
  - intros i c'. rewrite list_lookup_insert. case_decide; [naive_solver|]. apply Hh.
  - split; [done|]. split; [done|]. split; [done|]. intros h' c'. unfold registered. cbn.
    rewrite !list_elem_of_lookup. split.
    + intros (Hc' & HH' & i & Hi). rewrite list_lookup_insert in Hi.
      case_decide as E; [congruence|]. split; [eauto|]. intros ->.
      destruct (Hh _ _ Hi Hc0) as (h2 & HH2 & Hm). rewrite HH in HH2. injection HH2 as <-.
      apply E. rewrite Hm, Nat2Z.id. split; [done|]. by apply lookup_lt_Some in Hi.
    + intros ((Hc' & HH' & i & Hi) & Hne). split; [done|]. split; [done|]. exists i.
      rewrite list_lookup_insert_ne; [done|]. congruence.
Qed.

(** The names take no part in the context table, and the other way round. *)
Lemma slots_ok_names H cap cnt l s : slots_ok H s → slots_ok H (set_names cap cnt l s).
Proof. intros [? ? ? ? ?]. by split. Qed.

Lemma names_repr_ext s s' M :
  name_cap s' = name_cap s → name_count s' = name_count s → name s' = name s →
  names_repr s M → names_repr s' M.
Proof.
  intros E1 E2 E3 (l & [? ? ? ? ? ? ?] & ->). exists l. split; [|done].
  split; rewrite ?E1, ?E2, ?E3; done.
Qed.

Lemma retire_lemma H s M h :
  slots_ok H s → names_repr s M →
  (∃ c s', handle_retire_locked H s h = Ok (1, c, s') ∧ registered H s h c ∧
     without H s c s' ∧ names_repr s' (filter (λ kv, kv.2 ≠ h) M)) ∨
  (handle_retire_locked H s h = Ok (0, 0, s) ∧ ∀ c, ¬ registered H s h c).
Proof.
  intros Hs HM. destruct (slot_of H s h Hs) as (c & Hp & Hc & Hrd & Hh & Hreg).
  unfold handle_retire_locked. cbv zeta. rewrite Hrd, bind_ok.
  destruct (Z.eqb_spec c 0) as [->|Hne]; cbn [negb].
  { right. split; [done|]. intros c' Hr. by apply Hreg in Hr as (_ & ? & _). }
  destruct (Hh Hne) as (h0 & HH). rewrite HH, bind_ok.
  destruct (Z.eqb_spec h0 h) as [->|Hne'].
  2: { right. split; [done|]. intros c' Hr. apply Hreg in Hr as (_ & _ & ?). congruence. }
  left. rewrite (land_size H), wr_ok, bind_ok by (done || rewrite (so_len _ _ Hs); lia).
  destruct (retire_slot H s h c Hs Hne HH Hc) as (Hok & ? & ? & ? & Hr).
  set (s1 := set_slot _ _ s) in *.
  destruct (drop_names_lemma s1 M h) as (cnt & names & Hd & HM').
  { by apply (names_repr_ext s). }
  rewrite Hd, bind_ok. eexists c, _. split; [done|]. split; [by apply Hreg|].
  split; [|done]. split; [by apply slots_ok_names|]. done.
Qed.

Lemma init_lemma H hb :
  slots_ok H (skynet_handle_init hb) ∧ names_repr (skynet_handle_init hb) ∅ ∧
  (∀ h c, ¬ registered H (skynet_handle_init hb) h c).
Proof.
  split; [|split].
  - split; cbn.
    + exists 2. split; [lia|done].
    + done.
    + intros i c Hi. apply (lookup_replicate_1 4) in Hi as [-> _]. done.
    + assert (0 ≤ Z.land hb 255 < 2 ^ 8) as Hr.
      { change 255 with (Z.ones 8). rewrite Z.land_ones by lia. apply Z.mod_pos_bound. lia. }
      rewrite Z.shiftl_mul_pow2 by (unfold HANDLE_REMOTE_SHIFT; lia).
      unfold HANDLE_REMOTE_SHIFT. rewrite u32_small by lia. split; [lia|].
      apply Z.mod_mul. lia.
    + lia.
  - exists []. split; [|done]. split; cbn; try done.
    + exists 1. lia.
    + intros e He. by apply not_elem_of_nil in He.
  - intros h c (Hc & _ & Hin). by apply (elem_of_replicate_inv c 4 0) in Hin.
Qed.

(** ** Histories

    The clients of the table register fresh contexts (and store the handle they get in
    the context, as [skynet_context_new] does), retire handles, look handles up, and
    give and look up names.  [ctxs] is the handle field of every context. *)

Inductive hop : Set :=
| HRegister (ctx : Z)
| HRetire (h : Z)
| HGrab (h : Z)
| HName (h : Z) (key : cstring)
| HFind (key : cstring).

Inductive hans : Set :=
| AHandle (h : Z)
| AFreed (r : Z)
| ACtx (c : Z)
| AName (r : option cstring).

Definition ctx_handle (ctxs : gmap Z Z) (c : Z) : res Z := or_fault BadPointer (ctxs !! c).

Definition hop_run (op : hop) (st : handle_storage * gmap Z Z)
  : res (hans * (handle_storage * gmap Z Z)) :=
  let '(s, ctxs) := st in
  match op with
  | HRegister ctx =>
      '(h, s) ← skynet_handle_register (ctx_handle ctxs) s ctx;
      Ok (AHandle h, (s, <[ctx := h]> ctxs))
  | HRetire h =>
      '(r, _, s) ← handle_retire_locked (ctx_handle ctxs) s h; Ok (AFreed r, (s, ctxs))
  | HGrab h => c ← handle_lookup (ctx_handle ctxs) s h; Ok (ACtx c, (s, ctxs))
  | HName h key => '(r, s) ← skynet_handle_namehandle s h key; Ok (AName r, (s, ctxs))
  | HFind key => h ← skynet_handle_findname s key; Ok (AHandle h, (s, ctxs))
  end.

Fixpoint hops_run (ops : list hop) (st : handle_storage * gmap Z Z)
  : res (list hans * (handle_storage * gmap Z Z)) :=
  match ops with
  | [] => Ok ([], st)
  | op :: ops =>
      '(a, st) ← hop_run op st; '(l, st) ← hops_run ops st; Ok (a :: l, st)
  end.

(** What the table promises: a finite map from handles to contexts and one from names
    to handles.  A new handle is one nobody has; which one is up to the table. *)
Record hworld : Type := HWorld { hw_ctx : gmap Z Z; hw_name : gmap cstring Z }.

Inductive hspec : hworld → hop → hans → hworld → Prop :=
| spec_register R M ctx h :
    0 ≤ h < 2 ^ 32 → R !! h = None →
    hspec (HWorld R M) (HRegister ctx) (AHandle h) (HWorld (<[h := ctx]> R) M)
| spec_retire R M h c :
    R !! h = Some c →
    hspec (HWorld R M) (HRetire h) (AFreed 1)
      (HWorld (delete h R) (filter (λ kv, kv.2 ≠ h) M))
| spec_retire_unknown R M h :
    R !! h = None → hspec (HWorld R M) (HRetire h) (AFreed 0) (HWorld R M)
| spec_grab R M h :
    hspec (HWorld R M) (HGrab h) (ACtx (default 0 (R !! h))) (HWorld R M)
| spec_name R M h key :
    M !! key = None →
    hspec (HWorld R M) (HName h key) (AName (Some key)) (HWorld R (<[key := h]> M))
| spec_name_taken R M h key h' :
    M !! key = Some h' → hspec (HWorld R M) (HName h key) (AName None) (HWorld R M)
| spec_find R M key :
    hspec (HWorld R M) (HFind key) (AHandle (default 0 (M !! key))) (HWorld R M).

Inductive hspecs : hworld → list hop → list hans → hworld → Prop :=
| hspecs_nil w : hspecs w [] [] w
| hspecs_cons w op a w1 ops l w2 :
    hspec w op a w1 → hspecs w1 ops l w2 → hspecs w (op :: ops) (a :: l) w2.

(** What the clients must respect: a context is registered once at a time, there are
    at most 2^24 services and 2^30 names, and names are C strings. *)
Definition hop_ok (w : hworld) (op : hop) : Prop :=
  match op with
  | HRegister ctx =>
      ctx ≠ 0 ∧ (∀ h, hw_ctx w !! h ≠ Some ctx) ∧ Z.of_nat (size (hw_ctx w)) < 2 ^ 24
  | HName _ key => cstr_ok key ∧ Z.of_nat (size (hw_name w)) < 2 ^ 30
  | HFind key => cstr_ok key
  | _ => True
  end.

Fixpoint hops_ok (ops : list hop) (w : hworld) : Prop :=
  match ops with
  | [] => True
  | op :: ops => hop_ok w op ∧ ∀ a w', hspec w op a w' → hops_ok ops w'
  end.

Record hrefines (st : handle_storage * gmap Z Z) (w : hworld) : Prop := {
  hr_slots : slots_ok (ctx_handle st.2) st.1;
  hr_names : names_repr st.1 (hw_name w);
  hr_ctx : ∀ h c, hw_ctx w !! h = Some c ↔ registered (ctx_handle st.2) st.1 h c
}.

(** A full table of [n] slots has [n] registered handles. *)
Lemma full_size s ctxs w :
  hrefines (s, ctxs) w → 0 ∉ slot s → (length (slot s) ≤ size (hw_ctx w))%nat.
Proof.
  intros [Hs _ Hc] H0. cbn in *.
  assert (Hall : Forall2 (λ c h, ctx_handle ctxs c = Ok h) (slot s)
            (map (λ c, default 0 (ctxs !! c)) (slot s))).
  { apply Forall2_fmap_r, Forall_Forall2_diag, Forall_forall. intros c Hin.
    apply list_elem_of_lookup in Hin as [i Hi].
    destruct (so_home _ _ Hs _ _ Hi) as (h & HH & _); [intros ->; apply H0;
      by eapply list_elem_of_lookup_2|].
    unfold ctx_handle, compose in *. by destruct (ctxs !! c). }
  set (hs := map _ _) in *.
  assert (NoDup hs) as Hnd.
  { apply NoDup_alt. intros i j h Hi Hj.
    destruct (Forall2_lookup_r _ _ _ _ _ Hall Hi) as (ci & Hci & Ei).
    destruct (Forall2_lookup_r _ _ _ _ _ Hall Hj) as (cj & Hcj & Ej).
    destruct (so_home _ _ Hs _ _ Hci) as (h1 & H1 & M1);
      [intros ->; apply H0; by eapply list_elem_of_lookup_2|].
    destruct (so_home _ _ Hs _ _ Hcj) as (h2 & H2 & M2);
      [intros ->; apply H0; by eapply list_elem_of_lookup_2|].
    rewrite Ei in H1. rewrite Ej in H2. injection H1 as <-. injection H2 as <-. lia. }
  rewrite (Forall2_length _ _ _ Hall), <- (size_list_to_set (C:=gset Z)) by done.
  rewrite <- size_dom. apply subseteq_size. intros h Hh.
  apply elem_of_list_to_set, list_elem_of_lookup in Hh as [i Hi].
  destruct (Forall2_lookup_r _ _ _ _ _ Hall Hi) as (c & Hci & Ei).
  apply elem_of_dom. exists c. apply Hc. pose proof (list_elem_of_lookup_2 _ _ _ Hci).
  split; [intros ->; done|]. done.
Qed.

Lemma hrefines_register s ctxs w ctx :
  hrefines (s, ctxs) w → hop_ok w (HRegister ctx) →
  ∃ a st' w', hop_run (HRegister ctx) (s, ctxs) = Ok (a, st') ∧
    hspec w (HRegister ctx) a w' ∧ hrefines st' w'.
Proof.
  intros Hr (Hctx & Hnew & Hsize). destruct (Hr) as [Hs HM HR].
  unfold hop_run. cbn [fst snd] in *.
  destruct (register_lemma (ctx_handle ctxs) s ctx Hs Hctx) as (h & s' & Hrun & Hreg).
  { destruct (decide (0 ∈ slot s)) as [|H0]; [by right|left].
    pose proof (full_size _ _ _ Hr H0). rewrite <- (so_len _ _ Hs). lia. }
  destruct Hreg as [Hrange Hfresh Hslots (E1 & E2 & E3) _ _ Hok].
  rewrite Hrun, bind_ok. destruct w as [R M]. cbn [hw_ctx hw_name] in *.
  assert (Hfr : R !! h = None).
  { destruct (R !! h) as [c|] eqn:E; [|done]. exfalso. by apply (Hfresh c), HR. }
  eexists _, _, _. split; [done|]. split; [by constructor|].
  assert (Hold : ∀ c, c ∈ slot s → c ≠ 0 → c ≠ ctx).
  { intros c Hin Hc ->. destruct (proj1 (list_elem_of_lookup _ _) Hin) as [i Hi].
    destruct (so_home _ _ Hs _ _ Hi Hc) as (h0 & HH & _).
    by apply (Hnew h0), HR. }
  split; cbn.
  - apply Hok; [unfold ctx_handle; by rewrite lookup_insert_eq|].
    intros c Hin Hc. unfold ctx_handle. by rewrite lookup_insert_ne by (apply not_eq_sym; auto).
  - by apply (names_repr_ext s).
  - intros h' c. unfold registered, ctx_handle in *. cbn.
    destruct (decide (c = ctx)) as [->|Hc].
    + rewrite lookup_insert_eq. cbn. rewrite Hslots by done.
      rewrite lookup_insert_Some. split; [intros [[-> _]|[_ ?]]; [auto|by destruct (Hnew h')]|].
      intros (_ & [= ->] & _). auto.
    + rewrite (lookup_insert_ne ctxs) by done. rewrite lookup_insert_Some, HR.
      split; [intros [[_ ?]|[_ (? & ? & ?)]]; [done|]|].
      * rewrite Hslots by done. auto.
      * intros (? & HH & Hin). apply Hslots in Hin as [?|Hin]; [done| |done]. right. split; [|auto].
        intros ->. by apply (Hfresh c).
Qed.

Lemma hrefines_step st w op :
  hrefines st w → hop_ok w op →
  ∃ a st' w', hop_run op st = Ok (a, st') ∧ hspec w op a w' ∧ hrefines st' w'.
Proof.
  destruct st as [s ctxs]. intros Hr Hop. destruct op as [ctx|h|h|h key|key].
  { by apply hrefines_register. }
  all: destruct (Hr) as [Hs HM HR]; destruct w as [R M]; unfold hop_run;
    cbn [fst snd hw_ctx hw_name] in *.
  - destruct (retire_lemma _ s M h Hs HM) as [(c & s' & -> & Hc & Hw & HM')|[-> Hno]];
      rewrite bind_ok; (eexists _, _, _; split; [done|]).
    + split; [econstructor; by apply HR|]. destruct Hw as (Hok & _ & _ & _ & Hreg).
      split; [done..|]. cbn. intros h' c'. rewrite Hreg, lookup_delete_Some, HR.
      destruct Hc as (Hc0 & Hch & Hcin). split.
      * intros [Hne (? & Hc'h & ?)]. split; [done|]. intros ->. congruence.
      * intros [Hc' Hne]. split; [|done]. intros <-. apply Hne.
        apply HR in Hc'. assert (R !! h = Some c) as E by (by apply HR). congruence.
    + split; [|done]. constructor. destruct (R !! h) eqn:E; [|done]. apply HR in E.
      by destruct (Hno z).
  - destruct (lookup_lemma _ s h Hs) as (c & -> & Hyes & Honly). rewrite bind_ok.
    eexists _, _, _. split; [done|]. split; [|done].
    destruct (R !! h) as [c'|] eqn:E.
    + assert (c = c') as -> by (symmetry; by apply Honly, HR).
      assert (c' = default 0 (R !! h)) as E' by (by rewrite E). rewrite E' at 1. constructor.
    + destruct (decide (c = 0)) as [->|Hc]; [|apply Hyes, HR in Hc; congruence].
      assert (0 = default 0 (R !! h)) as E' by (by rewrite E). rewrite E' at 1. constructor.
  - destruct Hop as [Hk Hsz]. assert (Hn := namehandle_lemma s M h key HM Hk Hsz).
    destruct (M !! key) as [h'|] eqn:E.
    + rewrite Hn, bind_ok. eexists _, _, _. split; [done|]. split; [by econstructor|done].
    + destruct Hn as (cap & n & -> & Hn). rewrite bind_ok.
      eexists _, _, _. split; [done|]. split; [by econstructor|].
      split; cbn; [by apply slots_ok_names|done|done].
  - rewrite (findname_lemma s M key HM Hop), bind_ok.
    eexists _, _, _. split; [done|]. split; [constructor|done].
Qed.

Lemma hrefines_run ops : ∀ st w,
  hrefines st w → hops_ok ops w →
  ∃ l st' w', hops_run ops st = Ok (l, st') ∧ hspecs w ops l w' ∧ hrefines st' w'.
Proof.
  induction ops as [|op ops IH]; intros st w Hr Hok; cbn [hops_run].
  { eexists _, _, _. split; [done|]. split; [constructor|done]. }
  destruct Hok as [Hop Hnext].
  destruct (hrefines_step st w op Hr Hop) as (a & st1 & w1 & -> & Hsp & Hr1).
  rewrite bind_ok.
  destruct (IH st1 w1 Hr1 (Hnext _ _ Hsp)) as (l & st2 & w2 & -> & Hsps & Hr2).
  rewrite bind_ok. eexists _, _, _. split; [done|]. split; [by econstructor|done].
Qed.

Lemma hrefines_init hb : hrefines (skynet_handle_init hb, ∅) (HWorld ∅ ∅).
Proof.
  destruct (init_lemma (ctx_handle ∅) hb) as (Hs & HM & Hno).
  split; cbn; [done|done|]. intros h c. rewrite lookup_empty. split; [done|].
  by intros ?%Hno.
Qed.

(** ** Wrap-around of [handle_index]

    A node that starts and stops services goes through the local ids in order. *)

Definition churn_step (ctx : Z) (st : handle_storage * gmap Z Z)
  : res (handle_storage * gmap Z Z) :=
  '(a, st) ← hop_run (HRegister ctx) st;
  match a with
  | AHandle h => '(_, st) ← hop_run (HRetire h) st; Ok st
  | _ => Ok st
  end.

Fixpoint churn (n : nat) (ctx : Z) (st : handle_storage * gmap Z Z)
  : res (handle_storage * gmap Z Z) :=
  match n with
  | O => Ok st
  | S n => st ← churn n ctx st; churn_step ctx st
  end.

(** The initial table with another [handle_index]. *)
Definition empty_table (hb i : Z) : handle_storage := set_index i (skynet_handle_init hb).

Lemma empty_table_ok H hb i : 0 ≤ i ≤ 2 ^ 24 → slots_ok H (empty_table hb i).
Proof. intros Hi. destruct (init_lemma H hb) as [[? ? ? ? ?] _]. by split. Qed.

(** The first slot tried is free. *)
Lemma empty_register H hb i ctx :
  0 ≤ i ≤ 2 ^ 24 →
  let h := i mod 2 ^ 24 in
  skynet_handle_register H (empty_table hb i) ctx =
    Ok (Z.lor h (harbor (skynet_handle_init hb)),
        set_index (u32 (h + 1)) (set_slot 4
          (<[Z.to_nat (h mod 4) := ctx]> (replicate 4 0)) (empty_table hb i))).
Proof.
  intros Hi h. assert (Hs := empty_table_ok H hb i Hi).
  assert (Hp := Z.mod_pos_bound h 4 ltac:(lia)).
  assert (Hf : find_free (empty_table hb i) (Z.to_nat 4) 0 = Ok (Some (h, h mod 4))).
  { change (Z.to_nat 4) with (S 3). cbn [find_free].
    destruct (index_mod H _ 0 Hs) as [-> _]; [change (0 ≤ 0 < 4); lia|].
    rewrite (land_size H) by done. cbn [handle_index slot_size empty_table set_index].
    rewrite Z.add_0_l. fold h. change (slot_size (skynet_handle_init hb)) with 4.
    rewrite (rd_ok _ (h mod 4) 0); [reflexivity|lia|]. apply lookup_replicate. split; [done|]. change (Z.to_nat (h mod 4) < 4)%nat. lia. }
  unfold skynet_handle_register. cbn [iterate]. unfold register_step.
  change (slot_size (empty_table hb i)) with 4 in *. rewrite Hf, bind_ok.
  rewrite wr_ok by (change (0 ≤ h mod 4 < 4); lia). rewrite !bind_ok. done.
Qed.

Lemma drop_names_none s h : name_count s = 0 → drop_names s h = Ok s.
Proof. destruct s. cbn. intros ->. done. Qed.

Lemma churn_step_lemma hb i ctx ctxs :
  0 ≤ i < 2 ^ 24 → ctx ≠ 0 →
  ∃ ctxs', churn_step ctx (empty_table hb i, ctxs) = Ok (empty_table hb (i + 1), ctxs').
Proof.
  intros Hi Hctx. unfold churn_step, hop_run.
  rewrite empty_register by lia. rewrite Z.mod_small by lia. rewrite !bind_ok.
  set (h := Z.lor i _). set (s1 := set_index _ _).
  assert (Hp := Z.mod_pos_bound i 4 ltac:(lia)).
  destruct (so_harbor _ _ (empty_table_ok (ctx_handle ctxs) hb i ltac:(lia))) as [_ Hhb].
  assert (Hhash : Z.land h (slot_size s1 - 1) = i mod 4).
  { change (slot_size s1 - 1) with (Z.ones 2). rewrite Z.land_ones by lia.
    exact (harbor_handle_size i _ _ (ctx_handle ∅) (empty_table_ok _ hb i ltac:(lia)) Hi Hhb). }
  eexists. unfold handle_retire_locked. rewrite Hhash.
  rewrite (rd_ok _ _ ctx); [|lia|apply list_lookup_insert_eq; rewrite length_replicate; lia].
  rewrite bind_ok. destruct (Z.eqb_spec ctx 0) as [|_]; [done|]. cbn [negb].
  unfold ctx_handle at 1. rewrite lookup_insert_eq. cbn [or_fault]. rewrite bind_ok, Z.eqb_refl.
  rewrite wr_ok by (cbn [slot s1 set_index set_slot]; rewrite length_insert, length_replicate; lia).
  rewrite bind_ok, drop_names_none, !bind_ok by done.
  unfold empty_table, s1, set_index, set_slot, set_names.
  cbn [slot slot_size name_cap name_count name harbor handle_index].
  rewrite list_insert_insert_eq, u32_small by lia. do 4 f_equal.
  apply list_insert_id, lookup_replicate. split; [done|change (Z.to_nat (i mod 4) < 4)%nat; lia].
Qed.

Lemma churn_lemma hb ctx n :
  ctx ≠ 0 → Z.of_nat n < 2 ^ 24 →
  ∃ ctxs, churn n ctx (skynet_handle_init hb, ∅) = Ok (empty_table hb (1 + Z.of_nat n), ctxs).
Proof.
  intros Hctx. induction n as [|n IH]; intros Hn; cbn [churn]; [by exists ∅|].
  destruct IH as (ctxs & ->); [lia|]. rewrite bind_ok.
  destruct (churn_step_lemma hb (1 + Z.of_nat n) ctx ctxs) as (ctxs' & ->); [lia|done|].
  exists ctxs'. do 3 f_equal. lia.
Qed.

(** ** Properties *)

(** C7. A history of registrations, retirements, lookups and namings on a fresh handle
    table runs without a fault, and every answer is one the specification allows: a new
    handle is a 32 bit number nobody holds, lookups return the context registered under
    the handle or NULL, retiring removes exactly that service and every name bound to
    it, a name is bound once and is found again with the handle it was bound to. *)
Theorem handle_history_refines (hb : Z) (ops : list hop) :
  hops_ok ops (HWorld ∅ ∅) →
  ∃ l st w, hops_run ops (skynet_handle_init hb, ∅) = Ok (l, st) ∧
    hspecs (HWorld ∅ ∅) ops l w ∧ hrefines st w.
Proof. intros Hok. apply hrefines_run; [apply hrefines_init|done]. Qed.

Definition sample_hops : list hop :=
  [HRegister 700; HName 0x5000001 [97; 98]; HFind [97; 98]; HRegister 800; HGrab 0x5000001;
   HName 0x5000002 [97; 98]; HRetire 0x5000001].

Lemma hops_ok_cons op ops w :
  hop_ok w op → (∀ a w', hspec w op a w' → hops_ok ops w') → hops_ok (op :: ops) w.
Proof. by split. Qed.

(** Go through the answers the specification allows. *)
Ltac spec_histories :=
  lazymatch goal with
  | |- hops_ok [] _ => exact I
  | |- hops_ok (_ :: _) _ => apply hops_ok_cons; [|intros ? ?; inversion 1; subst; spec_histories]
  end.

Lemma sample_hops_ok : hops_ok sample_hops (HWorld ∅ ∅).
Proof.
  assert (Hk : cstr_ok [97; 98]) by (repeat constructor; lia).
  unfold sample_hops.
  spec_histories; cbn [hop_ok hw_ctx hw_name];
    lazymatch goal with |- True => exact I | |- cstr_ok _ => exact Hk | _ => idtac end.
  - rewrite map_size_empty. split; [lia|]. split; [|lia]. intros h. by rewrite lookup_empty.
  - rewrite map_size_empty. split; [done|lia].
  - rewrite map_size_insert_None, map_size_empty by done. split; [lia|]. split; [|lia].
    intros h'. rewrite lookup_insert_Some, lookup_empty. intros [[_ ?]|[_ ?]]; [lia|done].
  - rewrite map_size_insert_None, map_size_empty by done. split; [done|lia].
  - by rewrite lookup_empty in *.
  - by rewrite lookup_empty in *.
Qed.

Lemma handle_history_refines_witness :
  hops_run sample_hops (skynet_handle_init 5, ∅) =
    Ok ([AHandle 0x5000001; AName (Some [97; 98]); AHandle 0x5000001; AHandle 0x5000002;
         ACtx 700; AName None; AFreed 1],
        match hops_run sample_hops (skynet_handle_init 5, ∅) with
        | Ok (_, st) => st | Fault _ => (skynet_handle_init 5, ∅) end) ∧
  ∃ l st w, hops_run sample_hops (skynet_handle_init 5, ∅) = Ok (l, st) ∧
    hspecs (HWorld ∅ ∅) sample_hops l w ∧ hrefines st w.
Proof.
  split; [vm_compute; reflexivity|].
  exact (handle_history_refines 5 sample_hops sample_hops_ok).
Defined.

(** [handle_index] is never reset to 1: after 2^24 - 1 services have come and gone
    the next registration is given local id 0, which the initialisation reserves
    (on harbor 0 the handle itself is 0, the value that means no service). *)
Theorem register_issues_reserved_id (hb ctx : Z) (n : nat) :
  ctx ≠ 0 → Z.of_nat n = 2 ^ 24 - 1 →
  ∃ st h st', churn n ctx (skynet_handle_init hb, ∅) = Ok st ∧
    hop_run (HRegister ctx) st = Ok (AHandle h, st') ∧
    h mod 2 ^ 24 = 0 ∧ h = harbor (skynet_handle_init hb).
Proof.
  intros Hctx Hn. destruct (churn_lemma hb ctx n Hctx) as (ctxs & ->); [lia|].
  replace (1 + Z.of_nat n) with (2 ^ 24) by lia.
  destruct (so_harbor _ _ (empty_table_ok (ctx_handle ctxs) hb 1 ltac:(lia))) as [_ Hhb].
  eexists _, _, _. split; [done|]. unfold hop_run. rewrite empty_register by lia.
  rewrite Z.mod_same by lia. rewrite bind_ok. split; [done|].
  rewrite Z.lor_0_l. split; done.
Qed.

Lemma register_issues_reserved_id_witness :
  ∃ st h st', churn (Z.to_nat (2 ^ 24 - 1)) 9 (skynet_handle_init 0, ∅) = Ok st ∧
    hop_run (HRegister 9) st = Ok (AHandle h, st') ∧
    h mod 2 ^ 24 = 0 ∧ h = harbor (skynet_handle_init 0).
Proof.
  apply (register_issues_reserved_id 0 9 (Z.to_nat (2 ^ 24 - 1))); [lia|].
  apply Z2Nat.id. lia.
Defined.
