(* ===== verification/Node.v ===== *)
(** The node: [skynet-src/skynet_server.c] (contexts and sending), [skynet_harbor.c],
    [skynet_error.c] and the functions of [skynet_handle.c] that count references.

    The state [node] has every structure the runtime shares: the blocks allocated for
    messages, the contexts by address, the handle table, the message queues, the
    timer, the module table and the static variables.  Addresses are integers, 0 is
    NULL; a freed block or context is absent, so using or freeing it again faults.
    Each definition is one call of the C function run without interference. *)

From S2P Require Import Prelude CString Module MessageQueue Timer Handle.
Open Scope Z_scope.

(** ** State *)

Definition GLOBALNAME_LENGTH : nat := 16.
Definition LOG_MESSAGE_SIZE : Z := 256.
Definition THREAD_WORKER : Z := 0.
Definition THREAD_MAIN : Z := 1.

Record remote_name : Set := RemoteName { rn_name : list Z; rn_handle : Z }.

Record remote_message : Set := RemoteMessage {
  rm_destination : remote_name;
  rm_message : Z;
  rm_sz : Z
}.

(** [struct skynet_socket_message] and the padding allocated behind it. *)
Record skynet_socket_message : Set := SocketMessage {
  sm_type : Z;
  sm_id : Z;
  sm_ud : Z;
  sm_buffer : Z;
  sm_padding : list Z
}.

(** Allocated memory: the bytes of a payload, or one of the structures above. *)
Inductive block : Set :=
| Bytes (l : list Z)
| Remote (r : remote_message)
| SocketMsg (m : skynet_socket_message).

Record skynet_context : Set := Ctx {
  c_instance : Z;
  c_mod : Z;
  c_cb_ud : Z;
  c_cb : Z;
  c_queue : Z;
  c_logfile : Z;
  c_cpu_cost : Z;
  c_cpu_start : Z;
  c_result : cstring;
  c_handle : Z;
  c_session_id : Z;
  c_ref : Z;
  c_message_count : Z;
  c_init : bool;
  c_endless : bool;
  c_profile : bool
}.

(** [G_NODE] and the other static variables; [G_key] is the thread-specific value
    under [G_NODE.handle_key], [G_clock] the readings [skynet_thread_time] will
    return, [G_files] what was done to log files. *)
Inductive file_event : Set :=
| FOpened (f : Z)
| FClosed (f : Z)
| FPrinted (f : Z) (text : cstring).

Record globals : Type := Globals {
  G_total : Z;
  G_init : Z;
  G_monitor_exit : Z;
  G_key : Z;
  G_profile : bool;
  G_logger : Z;
  G_REMOTE : Z;
  G_HARBOR : Z;
  G_env : gmap cstring cstring;
  G_clock : list Z;
  G_files : list file_event
}.

Record node : Type := Node {
  n_brk : Z;
  n_mem : gmap Z block;
  n_ctx : gmap Z skynet_context;
  n_handles : handle_storage;
  n_mq : mq_state;
  n_timer : timer;
  n_modules : modules;
  n_glob : globals
}.

Definition set_mem (brk : Z) (m : gmap Z block) (n : node) : node :=
  Node brk m (n_ctx n) (n_handles n) (n_mq n) (n_timer n) (n_modules n) (n_glob n).
Definition set_ctxs (c : gmap Z skynet_context) (n : node) : node :=
  Node (n_brk n) (n_mem n) c (n_handles n) (n_mq n) (n_timer n) (n_modules n) (n_glob n).
Definition set_handles (s : handle_storage) (n : node) : node :=
  Node (n_brk n) (n_mem n) (n_ctx n) s (n_mq n) (n_timer n) (n_modules n) (n_glob n).
Definition set_mq (w : mq_state) (n : node) : node :=
  Node (n_brk n) (n_mem n) (n_ctx n) (n_handles n) w (n_timer n) (n_modules n) (n_glob n).
Definition set_timer (t : timer) (n : node) : node :=
  Node (n_brk n) (n_mem n) (n_ctx n) (n_handles n) (n_mq n) t (n_modules n) (n_glob n).
Definition set_modules (m : modules) (n : node) : node :=
  Node (n_brk n) (n_mem n) (n_ctx n) (n_handles n) (n_mq n) (n_timer n) m (n_glob n).
Definition set_glob (g : globals) (n : node) : node :=
  Node (n_brk n) (n_mem n) (n_ctx n) (n_handles n) (n_mq n) (n_timer n) (n_modules n) g.

Definition set_total (z : Z) (g : globals) : globals :=
  Globals z (G_init g) (G_monitor_exit g) (G_key g) (G_profile g) (G_logger g) (G_REMOTE g)
    (G_HARBOR g) (G_env g) (G_clock g) (G_files g).
Definition set_monitor_exit (z : Z) (g : globals) : globals :=
  Globals (G_total g) (G_init g) z (G_key g) (G_profile g) (G_logger g) (G_REMOTE g)
    (G_HARBOR g) (G_env g) (G_clock g) (G_files g).
Definition set_key (z : Z) (g : globals) : globals :=
  Globals (G_total g) (G_init g) (G_monitor_exit g) z (G_profile g) (G_logger g) (G_REMOTE g)
    (G_HARBOR g) (G_env g) (G_clock g) (G_files g).
Definition set_profile (b : bool) (g : globals) : globals :=
  Globals (G_total g) (G_init g) (G_monitor_exit g) (G_key g) b (G_logger g) (G_REMOTE g)
    (G_HARBOR g) (G_env g) (G_clock g) (G_files g).
Definition set_logger (z : Z) (g : globals) : globals :=
  Globals (G_total g) (G_init g) (G_monitor_exit g) (G_key g) (G_profile g) z (G_REMOTE g)
    (G_HARBOR g) (G_env g) (G_clock g) (G_files g).
Definition set_remote (z : Z) (g : globals) : globals :=
  Globals (G_total g) (G_init g) (G_monitor_exit g) (G_key g) (G_profile g) (G_logger g) z
    (G_HARBOR g) (G_env g) (G_clock g) (G_files g).
Definition set_HARBOR (z : Z) (g : globals) : globals :=
  Globals (G_total g) (G_init g) (G_monitor_exit g) (G_key g) (G_profile g) (G_logger g)
    (G_REMOTE g) z (G_env g) (G_clock g) (G_files g).
Definition set_env (e : gmap cstring cstring) (g : globals) : globals :=
  Globals (G_total g) (G_init g) (G_monitor_exit g) (G_key g) (G_profile g) (G_logger g)
    (G_REMOTE g) (G_HARBOR g) e (G_clock g) (G_files g).
Definition set_clock_files (c : list Z) (f : list file_event) (g : globals) : globals :=
  Globals (G_total g) (G_init g) (G_monitor_exit g) (G_key g) (G_profile g) (G_logger g)
    (G_REMOTE g) (G_HARBOR g) (G_env g) c f.

Definition set_ref (r : Z) (x : skynet_context) : skynet_context :=
  Ctx (c_instance x) (c_mod x) (c_cb_ud x) (c_cb x) (c_queue x) (c_logfile x) (c_cpu_cost x)
    (c_cpu_start x) (c_result x) (c_handle x) (c_session_id x) r (c_message_count x) (c_init x)
    (c_endless x) (c_profile x).
Definition set_session (s : Z) (x : skynet_context) : skynet_context :=
  Ctx (c_instance x) (c_mod x) (c_cb_ud x) (c_cb x) (c_queue x) (c_logfile x) (c_cpu_cost x)
    (c_cpu_start x) (c_result x) (c_handle x) s (c_ref x) (c_message_count x) (c_init x)
    (c_endless x) (c_profile x).
Definition set_result (s : cstring) (x : skynet_context) : skynet_context :=
  Ctx (c_instance x) (c_mod x) (c_cb_ud x) (c_cb x) (c_queue x) (c_logfile x) (c_cpu_cost x)
    (c_cpu_start x) s (c_handle x) (c_session_id x) (c_ref x) (c_message_count x) (c_init x)
    (c_endless x) (c_profile x).
Definition set_callback (ud cb : Z) (x : skynet_context) : skynet_context :=
  Ctx (c_instance x) (c_mod x) ud cb (c_queue x) (c_logfile x) (c_cpu_cost x)
    (c_cpu_start x) (c_result x) (c_handle x) (c_session_id x) (c_ref x) (c_message_count x)
    (c_init x) (c_endless x) (c_profile x).
Definition set_identity (h q : Z) (x : skynet_context) : skynet_context :=
  Ctx (c_instance x) (c_mod x) (c_cb_ud x) (c_cb x) q (c_logfile x) (c_cpu_cost x)
    (c_cpu_start x) (c_result x) h (c_session_id x) (c_ref x) (c_message_count x) (c_init x)
    (c_endless x) (c_profile x).
Definition set_init (b : bool) (x : skynet_context) : skynet_context :=
  Ctx (c_instance x) (c_mod x) (c_cb_ud x) (c_cb x) (c_queue x) (c_logfile x) (c_cpu_cost x)
    (c_cpu_start x) (c_result x) (c_handle x) (c_session_id x) (c_ref x) (c_message_count x) b
    (c_endless x) (c_profile x).
Definition set_endless (b : bool) (x : skynet_context) : skynet_context :=
  Ctx (c_instance x) (c_mod x) (c_cb_ud x) (c_cb x) (c_queue x) (c_logfile x) (c_cpu_cost x)
    (c_cpu_start x) (c_result x) (c_handle x) (c_session_id x) (c_ref x) (c_message_count x)
    (c_init x) b (c_profile x).
Definition set_logfile (f : Z) (x : skynet_context) : skynet_context :=
  Ctx (c_instance x) (c_mod x) (c_cb_ud x) (c_cb x) (c_queue x) f (c_cpu_cost x)
    (c_cpu_start x) (c_result x) (c_handle x) (c_session_id x) (c_ref x) (c_message_count x)
    (c_init x) (c_endless x) (c_profile x).
Definition set_cpu (cost start : Z) (x : skynet_context) : skynet_context :=
  Ctx (c_instance x) (c_mod x) (c_cb_ud x) (c_cb x) (c_queue x) (c_logfile x) cost
    start (c_result x) (c_handle x) (c_session_id x) (c_ref x) (c_message_count x)
    (c_init x) (c_endless x) (c_profile x).
Definition set_message_count (k : Z) (x : skynet_context) : skynet_context :=
  Ctx (c_instance x) (c_mod x) (c_cb_ud x) (c_cb x) (c_queue x) (c_logfile x) (c_cpu_cost x)
    (c_cpu_start x) (c_result x) (c_handle x) (c_session_id x) (c_ref x) k
    (c_init x) (c_endless x) (c_profile x).

#[export] Instance node_mq : MQView node :=
  {| mq_get := n_mq; mq_put := set_mq;
     mq_get_put := λ _ _, eq_refl; mq_put_put := λ _ _ _, eq_refl;
     mq_put_get := λ s, match s with Node _ _ _ _ _ _ _ _ => eq_refl end |}.

(** ** Memory *)

(** [skynet_malloc] returns an address that is not in use. *)
Definition malloc (b : block) : SM node Z := λ n,
  Ok (n_brk n, set_mem (n_brk n + 1) (<[n_brk n := b]> (n_mem n)) n).

Definition alloc_addr : SM node Z := λ n, Ok (n_brk n, set_mem (n_brk n + 1) (n_mem n) n).

Definition skynet_free (p : Z) : SM node unit := λ n,
  if p =? 0 then Ok ((), n)
  else match n_mem n !! p with
       | Some _ => Ok ((), set_mem (n_brk n) (delete p (n_mem n)) n)
       | None => Fault BadPointer
       end.

(** Copying [sz] bytes out of a payload. *)
Definition read_bytes (p sz : Z) : SM node (list Z) := λ n,
  match n_mem n !! p with
  | Some (Bytes l) =>
      if sz <=? Z.of_nat (length l) then Ok (take (Z.to_nat sz) l, n) else Fault OutOfBounds
  | _ => Fault BadPointer
  end.

(** ** Contexts *)

Definition ldctx (c : Z) : SM node skynet_context := λ n,
  match n_ctx n !! c with Some x => Ok (x, n) | None => Fault BadPointer end.
Definition stctx (c : Z) (x : skynet_context) : SM node unit :=
  modify (λ n, set_ctxs (<[c := x]> (n_ctx n)) n).

Definition skynet_context_handle (n : node) (c : Z) : res Z :=
  x ← or_fault BadPointer (n_ctx n !! c); Ok (c_handle x).

Definition with_mq (f : mq_state → res mq_state) : SM node unit := λ n,
  w ← f (n_mq n); Ok ((), set_mq w n).
Definition with_mq_ret {A} (f : mq_state → res (A * mq_state)) : SM node A := λ n,
  '(a, w) ← f (n_mq n); Ok (a, set_mq w n).

Definition skynet_context_total : SM node Z := gets (λ n, G_total (n_glob n)).
Definition context_inc : SM node unit :=
  modify (λ n, set_glob (set_total (i32 (G_total (n_glob n) + 1)) (n_glob n)) n).
Definition context_dec : SM node unit :=
  modify (λ n, set_glob (set_total (i32 (G_total (n_glob n) - 1)) (n_glob n)) n).

(** The session number is always positive; the increment of the [int] may overflow. *)
Definition skynet_context_newsession (c : Z) : SM node Z :=
  x ← ldctx c;
  session ← lift (int_chk (c_session_id x + 1));
  if session <=? 0 then _ ← stctx c (set_session 1 x); mret 1
  else _ ← stctx c (set_session session x); mret session.

Definition skynet_context_grab (c : Z) : SM node unit :=
  x ← ldctx c; stctx c (set_ref (i32 (c_ref x + 1)) x).

Definition skynet_context_reserve (c : Z) : SM node unit :=
  _ ← skynet_context_grab c; context_dec.

Definition fclose (f : Z) : SM node unit :=
  modify (λ n, set_glob (set_clock_files (G_clock (n_glob n))
                           (G_files (n_glob n) ++ [FClosed f]) (n_glob n)) n).

(** ** Services

    The functions of the C services, called through the pointers of their module or
    through the callback a service has set.  They are loaded at run time and may do
    anything to the node; what a theorem needs of them is a hypothesis.  [os_fopen] and
    [os_ctime] are the operating system's. *)

Class Services := {
  sv_create : Z → SM node Z;
  sv_init : Z → Z → Z → option cstring → SM node Z;
  sv_release : Z → Z → SM node unit;
  sv_signal : Z → Z → Z → SM node unit;
  sv_callback : Z → Z → Z → Z → Z → Z → Z → Z → SM node Z;
  os_fopen : cstring → SM node Z;
  os_ctime : Z → cstring
}.

Section services.
Context `{!Services}.

Definition ldmod (p : Z) : SM node skynet_module := λ n,
  e ← rd_init (mods_m (n_modules n)) (p - 1); Ok (e, n).

Definition skynet_module_instance_create (m : Z) : SM node Z :=
  e ← ldmod m; if negb (m_create e =? 0) then sv_create (m_create e) else mret (-1).
Definition skynet_module_instance_init (m inst ctx : Z) (parm : option cstring) : SM node Z :=
  e ← ldmod m; sv_init (m_init e) inst ctx parm.
Definition skynet_module_instance_release (m inst : Z) : SM node unit :=
  e ← ldmod m; if negb (m_release e =? 0) then sv_release (m_release e) inst else mret ().
Definition skynet_module_instance_signal (m inst signal : Z) : SM node unit :=
  e ← ldmod m; if negb (m_signal e =? 0) then sv_signal (m_signal e) inst signal else mret ().

(** ** References *)

Definition delete_context (ctx : Z) : SM node unit :=
  x ← ldctx ctx;
  _ ← (if negb (c_logfile x =? 0) then fclose (c_logfile x) else mret ());
  _ ← skynet_module_instance_release (c_mod x) (c_instance x);
  x ← ldctx ctx;
  _ ← with_mq (λ w, skynet_mq_mark_release w (c_queue x));
  _ ← modify (λ n, set_ctxs (delete ctx (n_ctx n)) n);
  context_dec.

(** Returns the context, or NULL when this was the last reference. *)
Definition skynet_context_release (ctx : Z) : SM node Z :=
  x ← ldctx ctx;
  let ref := i32 (c_ref x - 1) in
  _ ← stctx ctx (set_ref ref x);
  if ref =? 0 then _ ← delete_context ctx; mret 0 else mret ctx.

Definition skynet_handle_grab (handle : Z) : SM node Z :=
  n ← gets id;
  ctx ← lift (handle_lookup (skynet_context_handle n) (n_handles n) handle);
  if negb (ctx =? 0) then _ ← skynet_context_grab ctx; mret ctx else mret 0.

Definition skynet_handle_retire (handle : Z) : SM node Z :=
  n ← gets id;
  '(ret, ctx, s) ← lift (handle_retire_locked (skynet_context_handle n) (n_handles n) handle);
  _ ← modify (set_handles s);
  if negb (ctx =? 0) then _ ← skynet_context_release ctx; mret ret else mret ret.

(** The body of the loop over the slots; [i] and the number retired so far. *)
Definition retire_slot_step (st : Z * Z) : SM node (loop (Z * Z) Z) :=
  let '(i, k) := st in
  n ← gets id;
  if i <? slot_size (n_handles n) then
    ctx ← lift (rd (slot (n_handles n)) i);
    handle ← lift (if negb (ctx =? 0) then skynet_context_handle n ctx else Ok 0);
    if negb (handle =? 0) then
      r ← skynet_handle_retire handle;
      mret (Continue (i + 1, if negb (r =? 0) then k + 1 else k))
    else mret (Continue (i + 1, k))
  else mret (Break k).

Definition skynet_handle_retireall (fuel : nat) : SM node unit :=
  iterateM fuel (λ _ : unit,
    k ← iterateM fuel retire_slot_step (0, 0);
    if k =? 0 then mret (Break ()) else mret (Continue ())) ().

(** ** Delivery *)

Definition skynet_context_push (handle : Z) (message : skynet_message) : SM node Z :=
  ctx ← skynet_handle_grab handle;
  if ctx =? 0 then mret (-1)
  else
    x ← ldctx ctx;
    _ ← with_mq (λ w, skynet_mq_push w (c_queue x) message);
    _ ← skynet_context_release ctx;
    mret 0.

#[export] Instance node_push : ContextPush node := skynet_context_push.

Definition skynet_context_endless (handle : Z) : SM node unit :=
  ctx ← skynet_handle_grab handle;
  if ctx =? 0 then mret ()
  else
    x ← ldctx ctx;
    _ ← stctx ctx (set_endless true x);
    _ ← skynet_context_release ctx;
    mret ().

Definition skynet_context_send (ctx msg size src type sess : Z) : SM node unit :=
  x ← ldctx ctx;
  let smsg := Message src sess msg (Z.lor size (u64 (Z.shiftl type MESSAGE_TYPE_SHIFT))) in
  with_mq (λ w, skynet_mq_push w (c_queue x) smsg).

(** ** Errors

    [text] is the message after formatting.  A long message is formatted into buffers
    of doubled size until it fits; only the bytes up to the terminator are kept. *)

Definition error_buffer (text : cstring) (max_size : Z) : SM node (loop Z Z) :=
  let max_size := max_size * 2 in
  data ← malloc (Bytes (take (Z.to_nat (max_size - 1)) text ++ [0]));
  if Z.of_nat (length text) <? max_size then mret (Break data)
  else _ ← skynet_free data; mret (Continue max_size).

Definition skynet_error (context : Z) (text : cstring) : SM node unit :=
  n ← gets id;
  logger ← (if G_logger (n_glob n) =? 0 then
              h ← lift (skynet_handle_findname (n_handles n) (str "logger"));
              _ ← modify (λ n, set_glob (set_logger h (n_glob n)) n);
              mret h
            else mret (G_logger (n_glob n)));
  if logger =? 0 then mret ()
  else
    let len := Z.of_nat (length text) in
    data ← (if len <? LOG_MESSAGE_SIZE then malloc (Bytes (text ++ [0]))
            else iterateM 22 (error_buffer text) LOG_MESSAGE_SIZE);
    src ← (if context =? 0 then mret 0 else x ← ldctx context; mret (c_handle x));
    let smsg := Message src 0 data
                  (Z.lor len (Z.shiftl PTYPE_TEXT MESSAGE_TYPE_SHIFT)) in
    _ ← skynet_context_push logger smsg;
    mret ().

(** ** Harbor *)

Definition SIZEOF_REMOTE_MESSAGE : Z := 40.

Definition skynet_harbor_send (rmsg src sess : Z) : SM node unit :=
  n ← gets id;
  match n_mem n !! rmsg with
  | Some (Remote r) =>
      let type := Z.shiftr (rm_sz r) MESSAGE_TYPE_SHIFT in
      let r' := RemoteMessage (rm_destination r) (rm_message r)
                  (Z.land (rm_sz r) MESSAGE_TYPE_MASK) in
      _ ← modify (λ n, set_mem (n_brk n) (<[rmsg := Remote r']> (n_mem n)) n);
      _ ← lift (assertb (negb (type =? PTYPE_SYSTEM) && negb (type =? PTYPE_HARBOR) &&
                         negb (G_REMOTE (n_glob n) =? 0)));
      skynet_context_send (G_REMOTE (n_glob n)) rmsg SIZEOF_REMOTE_MESSAGE src type sess
  | _ => lift (Fault BadPointer)
  end.

Definition skynet_harbor_message_isremote (handle : Z) : SM node bool :=
  n ← gets id;
  _ ← lift (assertb (negb (G_HARBOR (n_glob n) =? 0xffffffff)));
  let h := i32 (Z.land handle (u32 (Z.lnot HANDLE_MASK))) in
  mret (negb (u32 h =? G_HARBOR (n_glob n)) && negb (h =? 0)).

Definition skynet_harbor_init (harbor : Z) : SM node unit :=
  modify (λ n, set_glob (set_HARBOR (u32 (Z.shiftl (u32 harbor) HANDLE_REMOTE_SHIFT)) (n_glob n)) n).

Definition skynet_harbor_start (ctx : Z) : SM node unit :=
  _ ← skynet_context_reserve ctx;
  modify (λ n, set_glob (set_remote ctx (n_glob n)) n).

Definition skynet_harbor_exit : SM node unit :=
  ctx ← gets (λ n, G_REMOTE (n_glob n));
  _ ← modify (λ n, set_glob (set_remote 0 (n_glob n)) n);
  if negb (ctx =? 0) then _ ← skynet_context_release ctx; mret () else mret ().

Definition skynet_isremote (handle : Z) : SM node (bool * Z) :=
  ret ← skynet_harbor_message_isremote handle;
  mret (ret, Z.shiftr handle HANDLE_REMOTE_SHIFT).

(** ** Sending *)

(** The session, data and size after the flags of [type] have been applied. *)
Definition _filter_args (context type sess dat size : Z) : SM node (Z * Z * Z) :=
  let needcopy := Z.land type PTYPE_TAG_DONTCOPY =? 0 in
  let allocsession := negb (Z.land type PTYPE_TAG_ALLOCSESSION =? 0) in
  let type := Z.land type 0xff in
  sess ← (if allocsession then
            _ ← lift (assertb (sess =? 0));
            skynet_context_newsession context
          else mret sess);
  dat ← (if needcopy && negb (dat =? 0) then
           l ← read_bytes dat size;
           malloc (Bytes (l ++ [0]))
         else mret dat);
  mret (sess, dat, Z.lor size (Z.shiftl type MESSAGE_TYPE_SHIFT)).

Definition skynet_send (context src destination type sess dat size : Z) : SM node Z :=
  if negb (Z.land size MESSAGE_TYPE_MASK =? size) then
    _ ← skynet_error context (str "The message to " ++ print_x destination ++ str " is too large");
    _ ← (if negb (Z.land type PTYPE_TAG_DONTCOPY =? 0) then skynet_free dat else mret ());
    mret (-1)
  else
    '(sess, dat, size) ← _filter_args context type sess dat size;
    src ← (if src =? 0 then x ← ldctx context; mret (c_handle x) else mret src);
    if destination =? 0 then mret sess
    else
      remote ← skynet_harbor_message_isremote destination;
      if remote : bool then
        rmsg ← malloc (Remote (RemoteMessage (RemoteName [] destination) dat size));
        _ ← skynet_harbor_send rmsg src sess;
        mret sess
      else
        r ← skynet_context_push destination (Message src sess dat size);
        if negb (r =? 0) then _ ← skynet_free dat; mret (-1) else mret sess.

(** [name[GLOBALNAME_LENGTH]] is padded with zeros and need not be terminated. *)
Definition copy_name (addr : cstring) : list Z :=
  take GLOBALNAME_LENGTH addr ++ replicate (GLOBALNAME_LENGTH - length addr) 0.

Definition skynet_sendname (context src : Z) (addr : cstring) (type sess dat size : Z)
  : SM node Z :=
  src ← (if src =? 0 then x ← ldctx context; mret (c_handle x) else mret src);
  if char0 addr =? 58 then
    skynet_send context src (u32 (strtoul (tl addr) 16)) type sess dat size
  else if char0 addr =? 46 then
    n ← gets id;
    des ← lift (skynet_handle_findname (n_handles n) (tl addr));
    if des =? 0 then
      _ ← (if negb (Z.land type PTYPE_TAG_DONTCOPY =? 0) then skynet_free dat else mret ());
      mret (-1)
    else skynet_send context src des type sess dat size
  else
    '(sess, dat, size) ← _filter_args context type sess dat size;
    rmsg ← malloc (Remote (RemoteMessage (RemoteName (copy_name addr) 0) dat size));
    _ ← skynet_harbor_send rmsg src sess;
    mret sess.

(** The drop callback of [skynet_mq_release]. *)
Definition drop_message (handle : Z) (msg : skynet_message) : SM node unit :=
  _ ← skynet_free (data msg);
  _ ← lift (assertb (negb (handle =? 0)));
  _ ← skynet_send 0 handle (source msg) PTYPE_ERROR 0 0 0;
  mret ().

End services.
