(* ===== verification/Server.v ===== *)
(** The rest of [skynet-src/skynet_server.c]: starting services, dispatching messages and
    the text commands, with [skynet_log.c], [skynet_env.c], [skynet_monitor.c] and the
    part of [skynet_socket.c] that turns socket events into messages. *)

From S2P Require Import Prelude CString Module MessageQueue Timer Handle Node.
Open Scope Z_scope.

(** ** [skynet_monitor.c]

    Every worker has one monitor; the monitor thread compares the versions. *)

Record skynet_monitor : Set := Monitor {
  mon_version : Z;
  mon_check_version : Z;
  mon_source : Z;
  mon_destination : Z
}.

Definition skynet_monitor_new : skynet_monitor := Monitor 0 0 0 0.

Definition skynet_monitor_trigger (sm : skynet_monitor) (src destination : Z) : skynet_monitor :=
  Monitor (i32 (mon_version sm + 1)) (mon_check_version sm) src destination.

(** ** [skynet_env.c]: a Lua state used as a table of strings *)

Definition skynet_getenv (key : cstring) : SM node (option cstring) :=
  gets (λ n, G_env (n_glob n) !! key).

Definition skynet_setenv (key value : cstring) : SM node unit :=
  n ← gets id;
  _ ← lift (assertb (bool_decide (G_env (n_glob n) !! key = None)));
  modify (λ n, set_glob (set_env (<[key := value]> (G_env (n_glob n))) (n_glob n)) n).

(** ** Threads *)

Definition skynet_current_handle : SM node Z :=
  n ← gets id;
  if negb (G_init (n_glob n) =? 0) then mret (u32 (G_key (n_glob n)))
  else mret (u32 (- THREAD_MAIN)).

Definition skynet_initthread (m : Z) : SM node unit :=
  modify (λ n, set_glob (set_key (u32 (- m)) (n_glob n)) n).

Definition skynet_globalinit : SM node unit :=
  _ ← modify (λ n, let g := n_glob n in set_glob (Globals 0 1 0 (G_key g) (G_profile g)
        (G_logger g) (G_REMOTE g) (G_HARBOR g) (G_env g) (G_clock g) (G_files g)) n);
  skynet_initthread THREAD_MAIN.

Definition skynet_profile_enable (enable : Z) : SM node unit :=
  modify (λ n, set_glob (set_profile (negb (enable =? 0)) (n_glob n)) n).

(** One reading of the thread clock. *)
Definition thread_time : SM node Z := λ n,
  let g := n_glob n in
  Ok (hd 0 (G_clock g), set_glob (set_clock_files (tl (G_clock g)) (G_files g) g) n).

Definition fprintf (f : Z) (text : cstring) : SM node unit :=
  modify (λ n, set_glob (set_clock_files (G_clock (n_glob n))
                           (G_files (n_glob n) ++ [FPrinted f text]) (n_glob n)) n).

(** ** Names and numbers *)

(** [sprintf(str, ":%08X", id)] by hand. *)
Definition id_to_hex (id : Z) : cstring :=
  58 :: map (λ i, let d := Z.land (Z.shiftr id ((7 - i) * 4)) 0xf in
                  if d <? 10 then 48 + d else 55 + d) [0; 1; 2; 3; 4; 5; 6; 7].

(** [cmd_setenv]'s loop: the key before the first blank, and the rest from there on. *)
Fixpoint split_blank (s : cstring) : cstring * cstring :=
  match s with
  | [] => ([], [])
  | c :: s' => if c =? 32 then ([], s) else let '(k, r) := split_blank s' in (c :: k, r)
  end.

Section server.
Context `{!Services}.

Definition skynet_callback (context ud cb : Z) : SM node unit :=
  x ← ldctx context; stctx context (set_callback ud cb x).

Definition skynet_monitor_check (sm : skynet_monitor) : SM node skynet_monitor :=
  if mon_version sm =? mon_check_version sm then
    if negb (mon_destination sm =? 0) then
      _ ← skynet_context_endless (mon_destination sm);
      _ ← skynet_error 0 (str "A message from [ :" ++ print_08x (mon_source sm) ++ str " ] to [ :" ++
            print_08x (mon_destination sm) ++ str " ] maybe in an endless loop (version = " ++
            print_d (mon_version sm) ++ str ")");
      mret sm
    else mret sm
  else mret (Monitor (mon_version sm) (mon_version sm) (mon_source sm) (mon_destination sm)).

(** ** [skynet_log.c] *)

Definition skynet_log_open (ctx handle : Z) : SM node Z :=
  logpath ← skynet_getenv (str "logpath");
  match logpath with
  | None => mret 0
  | Some logpath =>
      let tmp := logpath ++ [47] ++ print_08x handle ++ str ".log" in
      f ← os_fopen tmp;
      n ← gets id;
      if negb (f =? 0) then
        let currenttime := skynet_now (n_timer n) in
        let ti := skynet_starttime (n_timer n) + currenttime / 100 in
        _ ← skynet_error ctx (str "Open log file " ++ tmp);
        _ ← fprintf f (str "open time: " ++ print_u (u32 currenttime) ++ [32] ++ os_ctime ti);
        mret f
      else
        _ ← skynet_error ctx (str "Open log file " ++ tmp ++ str " fail");
        mret f
  end.

Definition skynet_log_close (ctx f handle : Z) : SM node unit :=
  _ ← skynet_error ctx (str "Close log file :" ++ print_08x handle);
  n ← gets id;
  _ ← fprintf f (str "close time: " ++ print_u (u32 (skynet_now (n_timer n))) ++ [10]);
  fclose f.

(** [%02x] of a byte. *)
Definition print_02x (b : Z) : cstring := [digit_char (b / 16); digit_char (b mod 16)].

Definition log_blob (f buffer size : Z) : SM node unit :=
  l ← read_bytes buffer size;
  fprintf f (flat_map print_02x l).

Definition SIZEOF_SOCKET_MESSAGE : Z := 24.

(** The string [%*s] prints: everything up to the terminator, which must be inside the
    padding, right-justified in the given width. *)
Definition print_width (width : Z) (s : cstring) : cstring :=
  replicate (Z.to_nat width - length s)%nat 32 ++ s.

Definition log_socket (f message size : Z) : SM node unit :=
  n ← gets id;
  match n_mem n !! message with
  | Some (SocketMsg m) =>
      _ ← fprintf f (str "[socket] " ++ print_d (sm_type m) ++ [32] ++ print_d (sm_id m) ++ [32] ++
            print_d (sm_ud m) ++ [32]);
      _ ← (if sm_buffer m =? 0 then
             let size := u64 (size - SIZEOF_SOCKET_MESSAGE) in
             let head := take (Z.to_nat size) (sm_padding m) in
             let size := match list_find (λ c, c = 0) head with
                         | Some (i, _) => Z.of_nat i
                         | None => size
                         end in
             s ← lift (buffer_string (sm_padding m));
             fprintf f ([91] ++ print_width (i32 size) s ++ [93])
           else log_blob f (sm_buffer m) (sm_ud m));
      fprintf f [10]
  | _ => lift (Fault BadPointer)
  end.

Definition skynet_log_output (f src type sess buffer size : Z) : SM node unit :=
  if type =? PTYPE_SOCKET then log_socket f buffer size
  else
    n ← gets id;
    _ ← fprintf f (58 :: print_08x src ++ [32] ++ print_d type ++ [32] ++ print_d sess ++ [32] ++
          print_u (u32 (skynet_now (n_timer n))) ++ [32]);
    _ ← (if size =? 0 then mret () else log_blob f buffer size);
    fprintf f [10].

(** ** Starting a service

    [fuel] bounds the loop that empties the queue of a service that failed to start. *)

Definition query_module (nm : cstring) (dlopen : cstring → Z) (dlsym : Z → cstring → Z)
  : SM node Z := λ n,
  '(r, m) ← skynet_module_query dlopen dlsym (n_modules n) nm;
  match r with
  | Some md => Ok (md, set_modules m n)
  | None => Fault ProcessExit
  end.

Definition register_context (ctx : Z) : SM node Z := λ n,
  '(h, s) ← skynet_handle_register (skynet_context_handle n) (n_handles n) ctx;
  Ok (h, set_handles s n).

Definition release_queue (fuel : nat) (handle q : Z) : SM node unit := λ n,
  n ← skynet_mq_release (λ msg n, '(_, n) ← drop_message handle msg n; Ok n) fuel n q;
  Ok ((), n).

Section loader.
Variable dlopen : cstring → Z.
Variable dlsym : Z → cstring → Z.

Definition skynet_context_new (fuel : nat) (nm : cstring) (param : option cstring) : SM node Z :=
  md ← query_module nm dlopen dlsym;
  if md =? 0 then mret 0
  else
    inst ← skynet_module_instance_create md;
    if inst =? 0 then mret 0
    else
      ctx ← alloc_addr;
      profile ← gets (λ n, G_profile (n_glob n));
      _ ← stctx ctx (Ctx inst md 0 0 0 0 0 0 [] 0 0 2 0 false false profile);
      handle ← register_context ctx;
      queue ← alloc_addr;
      x ← ldctx ctx;
      _ ← stctx ctx (set_identity handle queue x);
      _ ← with_mq (λ w, Ok (skynet_mq_create w queue handle));
      _ ← context_inc;
      r ← skynet_module_instance_init md inst ctx param;
      if r =? 0 then
        ret ← skynet_context_release ctx;
        _ ← (if negb (ret =? 0) then x ← ldctx ctx; stctx ctx (set_init true x) else mret ());
        _ ← with_mq (λ w, skynet_globalmq_push w queue);
        _ ← (if negb (ret =? 0) then
               skynet_error ret (str "LAUNCH " ++ nm ++ [32] ++ default [] param)
             else mret ());
        mret ret
      else
        _ ← skynet_error ctx (str "FAILED launch " ++ nm);
        x ← ldctx ctx;
        let handle := c_handle x in
        _ ← skynet_context_release ctx;
        _ ← skynet_handle_retire handle;
        _ ← release_queue fuel handle queue;
        mret 0.

(** ** Dispatching *)

Definition dispatch_message (ctx : Z) (msg : skynet_message) : SM node unit :=
  x ← ldctx ctx;
  _ ← lift (assertb (c_init x));
  _ ← modify (λ n, set_glob (set_key (c_handle x) (n_glob n)) n);
  let type := i32 (Z.shiftr (sz msg) MESSAGE_TYPE_SHIFT) in
  let size := Z.land (sz msg) MESSAGE_TYPE_MASK in
  _ ← (if negb (c_logfile x =? 0)
       then skynet_log_output (c_logfile x) (source msg) type (session msg) (data msg) size
       else mret ());
  x ← ldctx ctx;
  count ← lift (int_chk (c_message_count x + 1));
  _ ← stctx ctx (set_message_count count x);
  let call := sv_callback (c_cb x) ctx (c_cb_ud x) type (session msg) (source msg) (data msg) size in
  reserve_msg ←
    (if c_profile x then
       start ← thread_time;
       x ← ldctx ctx;
       _ ← stctx ctx (set_cpu (c_cpu_cost x) start x);
       r ← call;
       stop ← thread_time;
       x ← ldctx ctx;
       let cost_time := u64 (stop - c_cpu_start x) in
       _ ← stctx ctx (set_cpu (u64 (c_cpu_cost x + cost_time)) (c_cpu_start x) x);
       mret r
     else call);
  if reserve_msg =? 0 then skynet_free (data msg) else mret ().

Definition pop_message (q : Z) : SM node (option skynet_message) :=
  r ← with_mq_ret (λ w, '(ret, msg, w) ← skynet_mq_pop w q; Ok ((ret, msg), w));
  let '(ret, msg) := r in
  if negb (ret =? 0) then mret None else m ← lift (or_fault Uninitialised msg); mret (Some m).

Definition skynet_context_dispatchall (fuel : nat) (ctx : Z) : SM node unit :=
  x ← ldctx ctx;
  iterateM fuel (λ q : Z,
    msg ← pop_message q;
    match msg with
    | None => mret (Break ())
    | Some m => _ ← dispatch_message ctx m; mret (Continue q)
    end) (c_queue x).

Definition globalmq_pop : SM node Z := with_mq_ret skynet_globalmq_pop.

(** One round of the loop of [skynet_context_message_dispatch]: it leaves with the
    queue to return when the queue was empty, and with NULL-free [inr] when [n]
    messages have been dispatched. *)
Definition dispatch_round (handle q weight ctx : Z) (st : Z * Z * skynet_monitor)
  : SM node (loop (Z * Z * skynet_monitor) (Z * skynet_monitor + skynet_monitor)) :=
  let '(i, k, sm) := st in
  if i <? k then
    msg ← pop_message q;
    match msg with
    | None =>
        _ ← skynet_context_release ctx;
        r ← globalmq_pop;
        mret (Break (inl (r, sm)))
    | Some m =>
        k ← (if (i =? 0) && (weight >=? 0) then
               n ← gets id;
               len ← lift (skynet_mq_length (n_mq n) q);
               mret (Z.shiftr len weight)
             else mret k);
        overload ← with_mq_ret (λ w, skynet_mq_overload w q);
        _ ← (if negb (overload =? 0) then
               skynet_error ctx (str "May overload, message queue length = " ++ print_d overload)
             else mret ());
        let sm := skynet_monitor_trigger sm (source m) handle in
        x ← ldctx ctx;
        _ ← (if c_cb x =? 0 then skynet_free (data m) else dispatch_message ctx m);
        let sm := skynet_monitor_trigger sm 0 0 in
        mret (Continue (i + 1, k, sm))
    end
  else mret (Break (inr sm)).

(** Returns the next queue to work on, and the monitor. *)
Definition skynet_context_message_dispatch (fuel : nat) (sm : skynet_monitor) (q weight : Z)
  : SM node (Z * skynet_monitor) :=
  q ← (if q =? 0 then globalmq_pop else mret q);
  if q =? 0 then mret (0, sm)
  else
    n ← gets id;
    handle ← lift (skynet_mq_handle (n_mq n) q);
    ctx ← skynet_handle_grab handle;
    if ctx =? 0 then
      _ ← release_queue fuel handle q;
      r ← globalmq_pop;
      mret (r, sm)
    else
      out ← iterateM fuel (dispatch_round handle q weight ctx) (0, 1, sm);
      match out with
      | inl r => mret r
      | inr sm =>
          x ← ldctx ctx;
          _ ← lift (assertb (q =? c_queue x));
          nq ← globalmq_pop;
          q ← (if negb (nq =? 0) then _ ← with_mq (λ w, skynet_globalmq_push w q); mret nq
               else mret q);
          _ ← skynet_context_release ctx;
          mret (q, sm)
      end.

(** ** Names *)

Definition skynet_queryname (context : Z) (nm : cstring) : SM node Z :=
  if char0 nm =? 58 then mret (u32 (strtoul (tl nm) 16))
  else if char0 nm =? 46 then
    n ← gets id; lift (skynet_handle_findname (n_handles n) (tl nm))
  else _ ← skynet_error context (str "Don't support query global name " ++ nm); mret 0.

Definition namehandle (handle : Z) (nm : cstring) : SM node (option cstring) := λ n,
  '(r, s) ← skynet_handle_namehandle (n_handles n) handle nm; Ok (r, set_handles s n).

Definition handle_exit (context handle : Z) : SM node unit :=
  handle ← (if handle =? 0 then
              x ← ldctx context;
              _ ← skynet_error context (str "KILL self");
              mret (c_handle x)
            else
              _ ← skynet_error context (str "KILL :" ++ print_x handle);
              mret handle);
  n ← gets id;
  _ ← (if negb (G_monitor_exit (n_glob n) =? 0) then
         _ ← skynet_send context handle (G_monitor_exit (n_glob n)) PTYPE_CLIENT 0 0 0;
         mret ()
       else mret ());
  _ ← skynet_handle_retire handle;
  mret ().

(** ** Commands

    A command takes a parameter string, or NULL, and returns a string or NULL.  The
    result is usually [context->result], which the command has filled. *)

Definition deref (param : option cstring) : SM node cstring := lift (or_fault BadPointer param).

Definition ret_result (context : Z) (text : cstring) : SM node (option cstring) :=
  x ← ldctx context;
  _ ← stctx context (set_result text x);
  mret (Some text).

Definition cmd_timeout (context : Z) (param : option cstring) : SM node (option cstring) :=
  param ← deref param;
  let ti := i32 (strtol param 10) in
  sess ← skynet_context_newsession context;
  x ← ldctx context;
  _ ← (λ n, '(_, T, n') ← skynet_timeout (n_timer n) n (c_handle x) ti sess;
            Ok ((), if ti <=? 0 then n' else set_timer T n'));
  ret_result context (print_d sess).

Definition cmd_reg (context : Z) (param : option cstring) : SM node (option cstring) :=
  x ← ldctx context;
  match param with
  | None | Some [] => ret_result context (58 :: print_x (c_handle x))
  | Some param =>
      if char0 param =? 46 then namehandle (c_handle x) (tl param)
      else
        _ ← skynet_error context (str "Can't register global name " ++ param ++ str " in C");
        mret None
  end.

Definition cmd_query (context : Z) (param : option cstring) : SM node (option cstring) :=
  param ← deref param;
  if char0 param =? 46 then
    n ← gets id;
    handle ← lift (skynet_handle_findname (n_handles n) (tl param));
    if negb (handle =? 0) then ret_result context (58 :: print_x handle) else mret None
  else mret None.

(** [sscanf] fills [name] and [handle] only as far as there are words. *)
Definition cmd_name (context : Z) (param : option cstring) : SM node (option cstring) :=
  param ← deref param;
  let w1 := scan_s param in
  let nm := fst <$> w1 in
  let handle := w ← w1; fst <$> scan_s (snd w) in
  handle ← lift (or_fault Uninitialised handle);
  if negb (char0 handle =? 58) then mret None
  else
    let handle_id := u32 (strtoul (tl handle) 16) in
    if handle_id =? 0 then mret None
    else
      nm ← lift (or_fault Uninitialised nm);
      if char0 nm =? 46 then namehandle handle_id (tl nm)
      else
        _ ← skynet_error context (str "Can't set global name " ++ nm ++ str " in C");
        mret None.

Definition cmd_exit (context : Z) (param : option cstring) : SM node (option cstring) :=
  _ ← handle_exit context 0; mret None.

Definition tohandle (context : Z) (param : cstring) : SM node Z :=
  if char0 param =? 58 then mret (u32 (strtoul (tl param) 16))
  else if char0 param =? 46 then
    n ← gets id; lift (skynet_handle_findname (n_handles n) (tl param))
  else
    _ ← skynet_error context (str "Can't convert " ++ param ++ str " to handle"); mret 0.

Definition cmd_kill (context : Z) (param : option cstring) : SM node (option cstring) :=
  param ← deref param;
  handle ← tohandle context param;
  _ ← (if negb (handle =? 0) then handle_exit context handle else mret ());
  mret None.

Definition cmd_launch (fuel : nat) (context : Z) (param : option cstring)
  : SM node (option cstring) :=
  param ← deref param;
  let '(md, args) := strsep param [32; 9; 13; 10] in
  let args := match args with Some a => Some (fst (strsep a [13; 10])) | None => None end in
  inst ← skynet_context_new fuel md args;
  if inst =? 0 then mret None
  else x ← ldctx inst; ret_result context (id_to_hex (c_handle x)).

Definition cmd_getenv (context : Z) (param : option cstring) : SM node (option cstring) :=
  param ← deref param; skynet_getenv param.

Definition cmd_setenv (context : Z) (param : option cstring) : SM node (option cstring) :=
  param ← deref param;
  let '(key, rest) := split_blank param in
  match rest with
  | [] => mret None
  | _ :: value => _ ← skynet_setenv key value; mret None
  end.

Definition cmd_starttime (context : Z) (param : option cstring) : SM node (option cstring) :=
  sec ← gets (λ n, skynet_starttime (n_timer n));
  ret_result context (print_u sec).

Definition cmd_abort (fuel : nat) (context : Z) (param : option cstring)
  : SM node (option cstring) :=
  _ ← skynet_handle_retireall fuel; mret None.

Definition cmd_monitor (context : Z) (param : option cstring) : SM node (option cstring) :=
  match param with
  | None | Some [] =>
      n ← gets id;
      if negb (G_monitor_exit (n_glob n) =? 0)
      then ret_result context (58 :: print_x (G_monitor_exit (n_glob n)))
      else mret None
  | Some param =>
      handle ← tohandle context param;
      _ ← modify (λ n, set_glob (set_monitor_exit handle (n_glob n)) n);
      mret None
  end.

Definition cmd_stat (context : Z) (param : option cstring) : SM node (option cstring) :=
  param ← deref param;
  x ← ldctx context;
  if strcmp param (str "mqlen") =? 0 then
    n ← gets id;
    len ← lift (skynet_mq_length (n_mq n) (c_queue x));
    ret_result context (print_d len)
  else if strcmp param (str "endless") =? 0 then
    if c_endless x then
      _ ← stctx context (set_endless false x); ret_result context (str "1")
    else ret_result context (str "0")
  else if strcmp param (str "cpu") =? 0 then
    ret_result context (print_micros (c_cpu_cost x))
  else if strcmp param (str "time") =? 0 then
    if c_profile x then
      t ← thread_time; ret_result context (print_micros (u64 (t - c_cpu_start x)))
    else ret_result context (str "0")
  else if strcmp param (str "message") =? 0 then
    ret_result context (print_d (c_message_count x))
  else ret_result context [].

Definition cmd_logon (context : Z) (param : option cstring) : SM node (option cstring) :=
  param ← deref param;
  handle ← tohandle context param;
  if handle =? 0 then mret None
  else
    ctx ← skynet_handle_grab handle;
    if ctx =? 0 then mret None
    else
      x ← ldctx ctx;
      _ ← (if c_logfile x =? 0 then
             f ← skynet_log_open context handle;
             if negb (f =? 0) then
               x ← ldctx ctx;
               if c_logfile x =? 0 then stctx ctx (set_logfile f x) else fclose f
             else mret ()
           else mret ());
      _ ← skynet_context_release ctx;
      mret None.

Definition cmd_logoff (context : Z) (param : option cstring) : SM node (option cstring) :=
  param ← deref param;
  handle ← tohandle context param;
  if handle =? 0 then mret None
  else
    ctx ← skynet_handle_grab handle;
    if ctx =? 0 then mret None
    else
      x ← ldctx ctx;
      _ ← (if negb (c_logfile x =? 0) then
             _ ← stctx ctx (set_logfile 0 x);
             skynet_log_close context (c_logfile x) handle
           else mret ());
      _ ← skynet_context_release ctx;
      mret None.

Definition cmd_signal (context : Z) (param : option cstring) : SM node (option cstring) :=
  param ← deref param;
  handle ← tohandle context param;
  if handle =? 0 then mret None
  else
    ctx ← skynet_handle_grab handle;
    if ctx =? 0 then mret None
    else
      let sig := match strchr param 32 with Some p => i32 (strtol p 0) | None => 0 end in
      x ← ldctx ctx;
      _ ← skynet_module_instance_signal (c_mod x) (c_instance x) sig;
      _ ← skynet_context_release ctx;
      mret None.

Definition cmd_funcs (fuel : nat)
  : list (cstring * (Z → option cstring → SM node (option cstring))) :=
  [ (str "TIMEOUT", cmd_timeout); (str "REG", cmd_reg); (str "QUERY", cmd_query);
    (str "NAME", cmd_name); (str "EXIT", cmd_exit); (str "KILL", cmd_kill);
    (str "LAUNCH", cmd_launch fuel); (str "GETENV", cmd_getenv); (str "SETENV", cmd_setenv);
    (str "STARTTIME", cmd_starttime); (str "ABORT", cmd_abort fuel);
    (str "MONITOR", cmd_monitor); (str "STAT", cmd_stat); (str "LOGON", cmd_logon);
    (str "LOGOFF", cmd_logoff); (str "SIGNAL", cmd_signal) ].

Fixpoint find_command {A} (cmd : cstring) (l : list (cstring * A)) : option A :=
  match l with
  | [] => None
  | (nm, f) :: l => if strcmp cmd nm =? 0 then Some f else find_command cmd l
  end.

Definition skynet_command (fuel : nat) (context : Z) (cmd : cstring) (param : option cstring)
  : SM node (option cstring) :=
  match find_command cmd (cmd_funcs fuel) with
  | Some func => func context param
  | None => mret None
  end.

End loader.

(** ** [skynet_socket.c]: events of the socket thread become messages *)

Definition SKYNET_SOCKET_TYPE_DATA : Z := 1.
Definition SKYNET_SOCKET_TYPE_CONNECT : Z := 2.
Definition SKYNET_SOCKET_TYPE_CLOSE : Z := 3.
Definition SKYNET_SOCKET_TYPE_ACCEPT : Z := 4.
Definition SKYNET_SOCKET_TYPE_ERROR : Z := 5.
Definition SKYNET_SOCKET_TYPE_UDP : Z := 6.
Definition SKYNET_SOCKET_TYPE_WARNING : Z := 7.

(** [struct socket_message]; [so_text] is the string at [data], for the events whose
    [data] is a string. *)
Record socket_message : Set := SocketResult {
  so_id : Z;
  so_opaque : Z;
  so_ud : Z;
  so_data : Z;
  so_text : option cstring
}.

Definition forward_message (type : Z) (padding : bool) (result : socket_message) : SM node unit :=
  let pad := if padding then take 128 (default [] (so_text result)) else [] in
  let size := SIZEOF_SOCKET_MESSAGE + Z.of_nat (length pad) in
  let buffer := if padding then 0 else so_data result in
  p ← malloc (SocketMsg (SocketMessage type (so_id result) (so_ud result) buffer pad));
  let message := Message 0 0 p (Z.lor size (Z.shiftl PTYPE_SOCKET MESSAGE_TYPE_SHIFT)) in
  r ← skynet_context_push (u32 (so_opaque result)) message;
  if negb (r =? 0) then _ ← skynet_free buffer; skynet_free p else mret ().

End server.
