(* ===== verification/NodeProps.v ===== *)
(** What the node guarantees: reference counts, delivery, the life and death of a
    service.  The theorems are about the definitions of [Node] and [Server]. *)

From S2P Require Import Prelude CString Module MessageQueue Timer Handle Node Server.
Open Scope Z_scope.

(** ** The invariant

    [a] is what the message queues hold, [R c] the number of references to [c] that are
    held outside the handle table. *)

Record ctx_ok (n : node) (a : aworld) (R : Z → Z) (c : Z) (x : skynet_context) : Prop := {
  co_ptr : c ≠ 0;
  co_ref : 1 ≤ c_ref x < 2 ^ 31 - 1;
  co_count : c_ref x = (if decide (c ∈ slot (n_handles n)) then 1 else 0) + R c;
  co_queue : ∃ aq, a_queues a !! c_queue x = Some aq ∧ a_release aq = false ∧
               a_handle aq = c_handle x
}.

(** A queue that is not in the global queue, and not on its way out, is not runnable. *)
Definition idle_ok (a : aworld) : Prop :=
  ∀ q aq, a_queues a !! q = Some aq → a_release aq = false → a_in_global aq = false → q ∉ a_run a.

Record node_ok (n : node) (a : aworld) (R : Z → Z) : Prop := {
  nk_mq : refines (n_mq n) a;
  nk_idle : idle_ok a;
  nk_slots : slots_ok (skynet_context_handle n) (n_handles n);
  nk_names : ∃ M, names_repr (n_handles n) M;
  nk_ctx : ∀ c x, n_ctx n !! c = Some x → ctx_ok n a R c x;
  nk_own : ∀ c1 c2 x1 x2, n_ctx n !! c1 = Some x1 → n_ctx n !! c2 = Some x2 →
             c_queue x1 = c_queue x2 → c1 = c2;
  nk_brk : 0 < n_brk n;
  nk_mem : ∀ p b, n_mem n !! p = Some b → 0 < p < n_brk n;
  nk_fresh : (∀ c x, n_ctx n !! c = Some x → c < n_brk n) ∧
             (∀ q aq, a_queues a !! q = Some aq → q < n_brk n)
}.

(** Service [h] is context [c] with structure [x] and message queue [aq]. *)
Record service (n : node) (a : aworld) (h c : Z) (x : skynet_context) (aq : aqueue) : Prop := {
  sv_reg : registered (skynet_context_handle n) (n_handles n) h c;
  sv_ctx : n_ctx n !! c = Some x;
  sv_handle : c_handle x = h;
  sv_queue : a_queues a !! c_queue x = Some aq;
  sv_room : Z.of_nat (length (a_msgs aq)) + 1 < 2 ^ 30
}.

Definition no_service (n : node) (h : Z) : Prop :=
  ∀ c, ¬ registered (skynet_context_handle n) (n_handles n) h c.

Lemma registered_ctx n h c :
  registered (skynet_context_handle n) (n_handles n) h c →
  ∃ x, n_ctx n !! c = Some x ∧ c_handle x = h ∧ c ∈ slot (n_handles n).
Proof.
  intros (_ & HH & Hin). unfold skynet_context_handle in HH.
  destruct (n_ctx n !! c) as [x|] eqn:E; [|done]. injection HH as <-. eauto.
Qed.

Lemma lookup_service n a R h c :
  node_ok n a R → registered (skynet_context_handle n) (n_handles n) h c →
  handle_lookup (skynet_context_handle n) (n_handles n) h = Ok c.
Proof.
  intros Hn Hr. destruct (lookup_lemma _ _ h (nk_slots _ _ _ Hn)) as (c' & -> & _ & Hone).
  by rewrite (Hone c Hr).
Qed.

Lemma lookup_no_service n a R h :
  node_ok n a R → no_service n h →
  handle_lookup (skynet_context_handle n) (n_handles n) h = Ok 0.
Proof.
  intros Hn Hno. destruct (lookup_lemma _ _ h (nk_slots _ _ _ Hn)) as (c' & -> & Hc & _).
  destruct (decide (c' = 0)) as [->|Hne]; [done|]. by destruct (Hno c'), (Hc Hne).
Qed.

Lemma node_ext_ctx n x c : n_ctx n !! c = Some x → set_ctxs (<[c := x]> (n_ctx n)) n = n.
Proof. intros Hx. destruct n. unfold set_ctxs. cbn in *. f_equal. by apply insert_id. Qed.

(** ** Parts of the node that do not matter to the invariant *)

(** The queues of the node may change as long as no queue goes away or is released. *)
Definition queues_grow (a a' : aworld) : Prop :=
  ∀ q aq, a_queues a !! q = Some aq →
    ∃ aq', a_queues a' !! q = Some aq' ∧ a_release aq' = a_release aq ∧ a_handle aq' = a_handle aq.

Lemma node_ok_mq n a R w' a' :
  node_ok n a R → refines w' a' → queues_grow a a' →
  idle_ok a' → (∀ q aq, a_queues a' !! q = Some aq → q < n_brk n) →
  node_ok (set_mq w' n) a' R.
Proof.
  intros [H1 H2 H3 H4 H5 H6 H7 H8 [H9 H10]] Hr Hg Hi Hb. split; try done.
  intros c x Hx. destruct (H5 c x Hx) as [? ? ? (aq & Hq & Hrel & Hh)]. split; try done.
  destruct (Hg _ _ Hq) as (aq' & ? & ? & ?). exists aq'. split; [done|]. split; congruence.
Qed.

Lemma push_grow a q aq msg : a_queues a !! q = Some aq → queues_grow a (a_push a q aq msg).
Proof.
  intros Hq r ar Hr. cbn. rewrite lookup_insert. case_decide as E; [|eauto].
  subst. rewrite Hq in Hr. injection Hr as <-. eauto.
Qed.

Lemma push_idle a q aq msg :
  idle_ok a → a_queues a !! q = Some aq → idle_ok (a_push a q aq msg).
Proof.
  intros Hi Hq r ar. cbn. rewrite lookup_insert. case_decide as E; [naive_solver|].
  intros Hr Hl Hg. specialize (Hi _ _ Hr Hl Hg). destruct (a_in_global aq); [done|]. set_solver.
Qed.

Lemma node_ok_push n a R q aq msg w' :
  node_ok n a R → a_queues a !! q = Some aq → refines w' (a_push a q aq msg) →
  node_ok (set_mq w' n) (a_push a q aq msg) R.
Proof.
  intros Hn Hq Hw. eapply node_ok_mq; [done|done|by apply push_grow| |].
  - apply push_idle; [apply Hn|done].
  - intros r ar. cbn. rewrite lookup_insert. destruct (nk_fresh _ _ _ Hn) as [_ Hf].
    case_decide; [subst; intros _|]; by eapply Hf.
Qed.

Lemma node_ok_mem n a R brk m :
  node_ok n a R → n_brk n ≤ brk → (∀ p b, m !! p = Some b → 0 < p < brk) →
  node_ok (set_mem brk m n) a R.
Proof.
  intros [H1 H2 H3 H4 H5 H6 H7 H8 [H9 H10]] Hle Hm. split; try done; cbn.
  - intros c x Hx. destruct (H5 c x Hx). by split.
  - lia.
  - split; [intros c x Hx; specialize (H9 _ _ Hx)|intros q aq Hq; specialize (H10 _ _ Hq)]; lia.
Qed.

Lemma node_ok_glob n a R g : node_ok n a R → node_ok (set_glob g n) a R.
Proof.
  intros [H1 H2 H3 H4 H5 H6 H7 H8 H9]. split; try done.
  intros c x Hx. destruct (H5 c x Hx). by split.
Qed.

(** A context may change everything but its identity. *)
Lemma node_ok_ctx n a R c x x' :
  node_ok n a R → n_ctx n !! c = Some x →
  c_handle x' = c_handle x → c_queue x' = c_queue x → c_ref x' = c_ref x →
  node_ok (set_ctxs (<[c := x']> (n_ctx n)) n) a R.
Proof.
  intros [H1 H2 H3 H4 H5 H6 H7 H8 [H9 H10]] Hx Hh Hq Hr.
  assert (HH : ∀ k, skynet_context_handle (set_ctxs (<[c := x']> (n_ctx n)) n) k =
                    skynet_context_handle n k).
  { intros k. unfold skynet_context_handle. cbn. rewrite lookup_insert. case_decide; [|done].
    subst. rewrite Hx. cbn. by rewrite Hh. }
  split; cbn; try done.
  - destruct H3 as [? ? Hhome ? ?]. split; try done. intros i k Hi Hk.
    destruct (Hhome i k Hi Hk) as (h & ? & ?). exists h. by rewrite HH.
  - intros k y. rewrite lookup_insert. case_decide as E.
    + subst. intros [= <-]. destruct (H5 _ _ Hx) as [? ? ? ?].
      split; cbn; rewrite ?Hr, ?Hq, ?Hh; done.
    + intros Hy. destruct (H5 _ _ Hy) as [? ? ? ?]. by split.
  - intros c1 c2 x1 x2. rewrite !lookup_insert.
    repeat case_decide; intros; simplify_eq; try done.
    + apply (H6 c1 c2 x x2); [done..|]. congruence.
    + apply (H6 c1 c2 x1 x); [done..|]. congruence.
    + by apply (H6 c1 c2 x1 x2).
  - split; [|done]. intros k y. rewrite lookup_insert. case_decide; [subst; intros _|]; by eapply H9.
Qed.

(** Services are the same in nodes that agree on handles and contexts. *)
Lemma service_mem n a h c x aq brk m :
  service n a h c x aq → service (set_mem brk m n) a h c x aq.
Proof. intros [? ? ? ? ?]. by split. Qed.

Definition next_session (s : Z) : Z := if s + 1 <=? 0 then 1 else s + 1.

(** The context can hand out another session. *)
Definition session_left (x : skynet_context) : Prop := INT_MIN ≤ c_session_id x < INT_MAX.

(** What the flags of a message type ask for. *)
Definition allocs (type : Z) : bool := negb (Z.land type PTYPE_TAG_ALLOCSESSION =? 0).
Definition copies (type dat : Z) : bool :=
  (Z.land type PTYPE_TAG_DONTCOPY =? 0) && negb (dat =? 0).

(** What the caller owes: no session of its own when one is to be allocated, of which the
    context has one left, and a readable payload when it is to be copied. *)
Record args_ok (n : node) (context type sess dat size : Z) : Prop := {
  ao_session : allocs type = true → sess = 0 ∧ ∃ x, n_ctx n !! context = Some x ∧ session_left x;
  ao_data : copies type dat = true → ∃ l, n_mem n !! dat = Some (Bytes l) ∧ size ≤ Z.of_nat (length l);
  ao_size : 0 ≤ size ≤ MESSAGE_TYPE_MASK;
  ao_type : 0 ≤ type
}.

Definition new_session (n : node) (context type sess : Z) : Z :=
  if allocs type then match n_ctx n !! context with
                      | Some x => next_session (c_session_id x)
                      | None => 0
                      end
  else sess.

Definition after_session (context type : Z) (n : node) : node :=
  if allocs type then match n_ctx n !! context with
    | Some x => set_ctxs (<[context := set_session (next_session (c_session_id x)) x]> (n_ctx n)) n
    | None => n
    end
  else n.

Definition payload (n : node) (dat size : Z) : list Z :=
  match n_mem n !! dat with Some (Bytes l) => take (Z.to_nat size) l ++ [0] | _ => [] end.

Definition new_data (n : node) (type dat : Z) : Z := if copies type dat then n_brk n else dat.

Definition after_copy (type dat size : Z) (n : node) : node :=
  if copies type dat
  then set_mem (n_brk n + 1) (<[n_brk n := Bytes (payload n dat size)]> (n_mem n)) n
  else n.

(** The node when the flags have been dealt with. *)
Definition prepared (context type dat size : Z) (n : node) : node :=
  after_copy type dat size (after_session context type n).

Definition message_sz (type size : Z) : Z :=
  Z.lor size (Z.shiftl (Z.land type 0xff) MESSAGE_TYPE_SHIFT).

Lemma newsession_lemma c n x :
  n_ctx n !! c = Some x → session_left x →
  skynet_context_newsession c n =
    Ok (next_session (c_session_id x),
        set_ctxs (<[c := set_session (next_session (c_session_id x)) x]> (n_ctx n)) n).
Proof.
  intros Hx [H1 H2]. unfold skynet_context_newsession, ldctx, stctx. sm. sm_by Hx.
  sm_by (int_chk_ok (c_session_id x + 1) ltac:(lia)).
  unfold next_session. by destruct (c_session_id x + 1 <=? 0).
Qed.

(** The session behind the last is not 1: the increment overflows before the code looks at
    the sign of the result. *)
Lemma newsession_overflow c n x :
  n_ctx n !! c = Some x → c_session_id x = INT_MAX → skynet_context_newsession c n = Fault IntOverflow.
Proof. intros Hx E. unfold skynet_context_newsession, ldctx. sm. sm_by Hx. by rewrite E. Qed.

Lemma filter_args_lemma n context type sess dat size :
  args_ok n context type sess dat size →
  _filter_args context type sess dat size n =
    Ok ((new_session n context type sess, new_data n type dat, message_sz type size),
        prepared context type dat size n).
Proof.
  intros [Hs Hd Hsz Ht]. unfold _filter_args. fold (allocs type).
  assert (Hsess : (if allocs type
      then _ ← lift (assertb (sess =? 0)); skynet_context_newsession context
      else mret sess) n = Ok (new_session n context type sess, after_session context type n)).
  { unfold new_session, after_session. destruct (allocs type) eqn:E; [|done].
    destruct (Hs eq_refl) as [-> (x & Hx & Hl)]. rewrite Hx. sm. cbn [assertb Z.eqb].
    by rewrite (newsession_lemma context n x Hx Hl). }
  rewrite (sbind_ok _ _ _ _ _ Hsess).
  fold (copies type dat). unfold prepared, after_copy, new_data.
  assert (Emem : n_mem (after_session context type n) = n_mem n ∧
                 n_brk (after_session context type n) = n_brk n).
  { unfold after_session. destruct (allocs type); [|done]. by destruct (n_ctx n !! context). }
  destruct Emem as [Em Eb].
  destruct (copies type dat) eqn:Ec.
  - destruct (Hd eq_refl) as (l & Hl & Hlen). unfold read_bytes, malloc, payload. sm.
    rewrite Em, Hl. destruct (Z.leb_spec size (Z.of_nat (length l))); [|lia].
    by rewrite Eb, Em.
  - sm. done.
Qed.

Lemma node_ok_session n a R context type :
  node_ok n a R → node_ok (after_session context type n) a R.
Proof.
  intros Hn. unfold after_session. destruct (allocs type); [|done].
  destruct (n_ctx n !! context) as [x|] eqn:E; [|done]. by apply (node_ok_ctx _ _ _ _ x).
Qed.

Lemma node_ok_copy n a R type dat size :
  node_ok n a R → node_ok (after_copy type dat size n) a R.
Proof.
  intros Hn. assert (Hb := nk_brk _ _ _ Hn). unfold after_copy. destruct (copies type dat); [|done].
  apply node_ok_mem; [done|lia|]. intros p b Hp. rewrite lookup_insert in Hp.
  case_decide; [lia|]. apply (nk_mem _ _ _ Hn) in Hp. lia.
Qed.

Lemma after_session_brk context type n : n_brk (after_session context type n) = n_brk n.
Proof. unfold after_session. destruct (allocs type); [|done]. by destruct (n_ctx n !! context). Qed.

Lemma node_ok_prepared n a R context type dat size :
  node_ok n a R → node_ok (prepared context type dat size n) a R.
Proof. intros Hn. by apply node_ok_copy, node_ok_session. Qed.

(** Preparing a message changes neither handles nor queues. *)
Lemma prepared_parts context type dat size n :
  let n1 := prepared context type dat size n in
  n_handles n1 = n_handles n ∧ n_mq n1 = n_mq n ∧ n_glob n1 = n_glob n ∧
  (∀ c, skynet_context_handle n1 c = skynet_context_handle n c) ∧
  (∀ c x, n_ctx n !! c = Some x → ∃ x1, n_ctx n1 !! c = Some x1 ∧ c_queue x1 = c_queue x ∧
     c_handle x1 = c_handle x).
Proof.
  cbv zeta. unfold prepared.
  assert (n_handles (after_session context type n) = n_handles n ∧
    n_mq (after_session context type n) = n_mq n ∧
    n_glob (after_session context type n) = n_glob n ∧
    (∀ c, skynet_context_handle (after_session context type n) c = skynet_context_handle n c) ∧
    (∀ c x, n_ctx n !! c = Some x → ∃ x1, n_ctx (after_session context type n) !! c = Some x1 ∧
       c_queue x1 = c_queue x ∧ c_handle x1 = c_handle x)) as (E1 & E2 & E3 & E4 & E5).
  { unfold after_session. destruct (allocs type); [|repeat split; eauto].
    destruct (n_ctx n !! context) as [x|] eqn:E; [|repeat split; eauto].
    split; [done|]. split; [done|]. split; [done|]. split.
    - intros c. unfold skynet_context_handle. cbn. rewrite lookup_insert.
      case_decide; [subst; by rewrite E|done].
    - intros c y Hy. cbn. rewrite lookup_insert. case_decide; [|eauto].
      subst. rewrite E in Hy. injection Hy as <-. eauto. }
  unfold after_copy. by destruct (copies type dat).
Qed.

Lemma service_prepared n a h c x aq context type dat size :
  service n a h c x aq →
  ∃ x1, service (prepared context type dat size n) a h c x1 aq ∧ c_queue x1 = c_queue x.
Proof.
  intros [(Hc & HH & Hin) Hx Hh Hq Hroom].
  destruct (prepared_parts context type dat size n) as (E1 & E2 & E3 & E4 & E5).
  destruct (E5 c x Hx) as (x1 & Hx1 & Hq1 & Hh1). exists x1. split; [|done].
  split; [|done|congruence|congruence|done]. split; [done|]. rewrite E1. by rewrite E4.
Qed.

Lemma no_service_prepared n h context type dat size :
  no_service n h → no_service (prepared context type dat size n) h.
Proof.
  intros Hno c (Hc & HH & Hin).
  destruct (prepared_parts context type dat size n) as (E1 & _ & _ & E4 & _).
  apply (Hno c). rewrite E4 in HH. rewrite E1 in Hin. done.
Qed.

(** ** Local and remote handles *)

Definition harbor_part (h : Z) : Z := Z.land h 0xff000000.

(** The handle belongs to this node: its harbor is ours, or it has none. *)
Definition is_local (n : node) (h : Z) : bool :=
  (harbor_part h =? G_HARBOR (n_glob n)) || (harbor_part h =? 0).

Lemma harbor_part_range h : 0 ≤ h → 0 ≤ harbor_part h < 2 ^ 32.
Proof.
  intros Hh. unfold harbor_part. split; [apply Z.land_nonneg; lia|].
  assert (Z.land h 0xff000000 = Z.land (Z.land h 0xff000000) (Z.ones 32)) as E.
  { rewrite <- Z.land_assoc. done. }
  rewrite E, Z.land_ones by lia. apply Z.mod_pos_bound. lia.
Qed.

Lemma u32_i32 z : 0 ≤ z < 2 ^ 32 → u32 (i32 z) = z.
Proof.
  intros Hz. unfold u32, i32.
  replace ((z + 2 ^ 31) mod 2 ^ 32 - 2 ^ 31) with
    (z + (- ((z + 2 ^ 31) / 2 ^ 32)) * 2 ^ 32) by (rewrite Z.mod_eq by lia; lia).
  rewrite Z.mod_add by lia. by apply Z.mod_small.
Qed.

Lemma isremote_lemma n h :
  0 ≤ h → G_HARBOR (n_glob n) ≠ 0xffffffff →
  skynet_harbor_message_isremote h n = Ok (negb (is_local n h), n).
Proof.
  intros Hh Hb. unfold skynet_harbor_message_isremote. sm.
  destruct (Z.eqb_spec (G_HARBOR (n_glob n)) 0xffffffff); [done|]. cbn [negb assertb].
  change (Z.land h (u32 (Z.lnot HANDLE_MASK))) with (harbor_part h).
  pose proof (harbor_part_range h Hh). rewrite u32_i32 by done. unfold is_local.
  assert (i32 (harbor_part h) =? 0 = (harbor_part h =? 0)) as ->.
  { destruct (Z.eqb_spec (harbor_part h) 0) as [->|Hne]; [done|].
    apply Z.eqb_neq. intros E. apply (f_equal u32) in E. by rewrite u32_i32 in E. }
  by rewrite negb_orb.
Qed.

(** ** Grab and release *)

Section services.
Context `{!Services}.

(** Taking a reference and giving it back leaves the node as it was, as long as
    somebody else keeps the context alive meanwhile. *)
Lemma grab_registered n a R h c x :
  node_ok n a R → registered (skynet_context_handle n) (n_handles n) h c →
  n_ctx n !! c = Some x →
  skynet_handle_grab h n = Ok (c, set_ctxs (<[c := set_ref (c_ref x + 1) x]> (n_ctx n)) n).
Proof.
  intros Hn Hr Hx. destruct (nk_ctx _ _ _ Hn _ _ Hx) as [Hc Href _ _].
  unfold skynet_handle_grab, skynet_context_grab, ldctx, stctx. sm.
  sm_by (lookup_service n a R h c Hn Hr). destruct (Z.eqb_spec c 0); [done|]. cbn [negb].
  sm_by Hx. by rewrite i32_small by lia.
Qed.

Lemma grab_unknown n a R h :
  node_ok n a R → no_service n h → skynet_handle_grab h n = Ok (0, n).
Proof.
  intros Hn Hno. unfold skynet_handle_grab. sm. sm_by (lookup_no_service n a R h Hn Hno). done.
Qed.

Lemma release_shared n c x :
  n_ctx n !! c = Some x → 1 < c_ref x < 2 ^ 31 →
  skynet_context_release c n = Ok (c, set_ctxs (<[c := set_ref (c_ref x - 1) x]> (n_ctx n)) n).
Proof.
  intros Hx Href. unfold skynet_context_release, ldctx, stctx. sm. sm_by Hx.
  rewrite i32_small by lia. destruct (Z.eqb_spec (c_ref x - 1) 0); [lia|]. done.
Qed.

Lemma set_ref_id x r : set_ref (c_ref x) (set_ref r x) = x.
Proof. by destruct x. Qed.

Lemma set_ref_back n c x r w :
  n_ctx n !! c = Some x →
  set_ctxs (<[c := set_ref (c_ref x) (set_ref r x)]>
    (n_ctx (set_mq w (set_ctxs (<[c := set_ref r x]> (n_ctx n)) n))))
    (set_mq w (set_ctxs (<[c := set_ref r x]> (n_ctx n)) n)) = set_mq w n.
Proof.
  intros Hx. rewrite set_ref_id. destruct n. unfold set_ctxs, set_mq. cbn in *.
  f_equal. rewrite insert_insert_eq. by apply insert_id.
Qed.

(** ** Pushing a message to a service *)

Lemma push_lemma n a R h c x aq msg :
  node_ok n a R → service n a h c x aq →
  ∃ w', skynet_context_push h msg n = Ok (0, set_mq w' n) ∧
    refines w' (a_push a (c_queue x) aq msg).
Proof.
  intros Hn [Hr Hx Hh Hq Hroom].
  destruct (nk_ctx _ _ _ Hn _ _ Hx) as [Hc Href _ (aq' & Hq' & Hrel & _)].
  assert (aq' = aq) as -> by congruence.
  destruct (mq_push_lemma (n_mq n) a (c_queue x) aq msg (nk_mq _ _ _ Hn) Hq) as (w' & Hw & Hw').
  { intros. by eapply nk_idle. } { done. }
  exists w'. split; [|done]. unfold skynet_context_push, ldctx, with_mq. sm.
  sm_by (grab_registered n a R h c x Hn Hr Hx).
  destruct (Z.eqb_spec c 0); [done|]. cbn [n_ctx set_ctxs]. rewrite lookup_insert_eq.
  cbn [c_queue set_ref n_mq set_ctxs]. sm_by Hw.
  rewrite (release_shared _ c (set_ref (c_ref x + 1) x)); cbn [c_ref set_ref];
    [|apply lookup_insert_eq|lia].
  replace (c_ref x + 1 - 1) with (c_ref x) by lia.
  cbv beta iota. by rewrite set_ref_back.
Qed.

Lemma push_unknown n a R h msg :
  node_ok n a R → no_service n h → skynet_context_push h msg n = Ok (-1, n).
Proof.
  intros Hn Hno. unfold skynet_context_push. sm. by sm_by (grab_unknown n a R h Hn Hno).
Qed.

(** ** Sending *)

Definition sender (n : node) (context src : Z) : option Z :=
  if src =? 0 then c_handle <$> n_ctx n !! context else Some src.

Lemma mask_small size : 0 ≤ size ≤ MESSAGE_TYPE_MASK → Z.land size MESSAGE_TYPE_MASK = size.
Proof.
  intros Hs. change MESSAGE_TYPE_MASK with (Z.ones 56) in *. rewrite Z.land_ones by lia.
  apply Z.mod_small. change (Z.ones 56) with (2 ^ 56 - 1) in Hs. lia.
Qed.

(** What remains of a send once the flags have been dealt with. *)
Definition send_tail (destination src sess dat size : Z) : SM node Z :=
  if destination =? 0 then mret sess
  else
    remote ← skynet_harbor_message_isremote destination;
    if remote : bool then
      rmsg ← malloc (Remote (RemoteMessage (RemoteName [] destination) dat size));
      _ ← skynet_harbor_send rmsg src sess;
      mret sess
    else
      r ← skynet_context_push destination (Message src sess dat size);
      if negb (r =? 0) then _ ← skynet_free dat; mret (-1) else mret sess.

Lemma send_prepared n context src from destination type sess dat size :
  args_ok n context type sess dat size → sender n context src = Some from →
  skynet_send context src destination type sess dat size n =
  send_tail destination from (new_session n context type sess) (new_data n type dat)
    (message_sz type size) (prepared context type dat size n).
Proof.
  intros Ha Hsrc. unfold skynet_send. rewrite (mask_small _ (ao_size _ _ _ _ _ _ Ha)).
  rewrite Z.eqb_refl. cbn [negb]. rewrite (sbind_ok _ _ _ _ _ (filter_args_lemma _ _ _ _ _ _ Ha)).
  cbv beta iota. unfold sender in Hsrc.
  set (n1 := prepared context type dat size n).
  assert ((if src =? 0 then x ← ldctx context; mret (c_handle x) else mret src) n1 = Ok (from, n1))
    as E.
  { destruct (src =? 0); [|by injection Hsrc as ->].
    destruct (n_ctx n !! context) as [x|] eqn:Ex; [|done]. injection Hsrc as <-.
    destruct (prepared_parts context type dat size n) as (_ & _ & _ & _ & E5).
    destruct (E5 context x Ex) as (x1 & Hx1 & _ & Hh). unfold ldctx. sm. fold n1 in Hx1.
    rewrite Hx1. by rewrite Hh. }
  by rewrite (sbind_ok _ _ _ _ _ E).
Qed.

Lemma is_local_prepared n h context type dat size :
  is_local (prepared context type dat size n) h = is_local n h.
Proof.
  unfold is_local. by destruct (prepared_parts context type dat size n) as (_ & _ & -> & _).
Qed.

(** A local destination: the tail of the send pushes the message. *)
Lemma send_tail_local n destination src sess dat size :
  0 < destination → G_HARBOR (n_glob n) ≠ 0xffffffff → is_local n destination = true →
  send_tail destination src sess dat size n =
  (r ← skynet_context_push destination (Message src sess dat size);
   if negb (r =? 0) then _ ← skynet_free dat; mret (-1) else mret sess) n.
Proof.
  intros Hd Hb Hl. unfold send_tail. destruct (Z.eqb_spec destination 0); [lia|].
  rewrite (sbind_ok _ _ _ _ _ (isremote_lemma n destination ltac:(lia) Hb)).
  by rewrite Hl.
Qed.

Lemma send_local_lemma n a R context src from destination type sess dat size c x aq :
  node_ok n a R → args_ok n context type sess dat size →
  sender n context src = Some from →
  0 < destination → G_HARBOR (n_glob n) ≠ 0xffffffff → is_local n destination = true →
  service n a destination c x aq →
  let m := Message from (new_session n context type sess) (new_data n type dat)
             (message_sz type size) in
  ∃ w', skynet_send context src destination type sess dat size n =
      Ok (new_session n context type sess, set_mq w' (prepared context type dat size n)) ∧
    refines w' (a_push a (c_queue x) aq m) ∧
    node_ok (set_mq w' (prepared context type dat size n)) (a_push a (c_queue x) aq m) R.
Proof.
  intros Hn Ha Hfrom Hd Hb Hl Hsv m.
  rewrite (send_prepared n context src from) by done.
  destruct (service_prepared _ _ _ _ _ _ context type dat size Hsv) as (x1 & Hsv1 & Hq1).
  assert (Hn1 := node_ok_prepared n a R context type dat size Hn).
  destruct (push_lemma _ a R destination c x1 aq m Hn1 Hsv1) as (w' & Hpush & Hw).
  rewrite send_tail_local; [|done| |by rewrite is_local_prepared].
  2: { by destruct (prepared_parts context type dat size n) as (_ & _ & -> & _). }
  rewrite (sbind_ok _ _ _ _ _ Hpush). cbn [Z.eqb negb]. rewrite Hq1 in Hw.
  exists w'. split; [done|]. split; [done|].
  apply node_ok_push; [done| |done]. rewrite <- Hq1. apply Hsv1.
Qed.

(** An unknown destination: the copy is freed again. *)
Lemma send_unknown_lemma n a R context src from destination type sess dat size :
  node_ok n a R → args_ok n context type sess dat size →
  sender n context src = Some from →
  0 < destination → G_HARBOR (n_glob n) ≠ 0xffffffff → is_local n destination = true →
  no_service n destination →
  (dat ≠ 0 → is_Some (n_mem n !! dat)) →
  skynet_send context src destination type sess dat size n =
    Ok (-1, let n1 := after_session context type n in
            if copies type dat then set_mem (n_brk n + 1) (n_mem n) n1
            else if dat =? 0 then n1 else set_mem (n_brk n) (delete dat (n_mem n)) n1).
Proof.
  intros Hn Ha Hfrom Hd Hb Hl Hno Hdat.
  rewrite (send_prepared n context src from) by done.
  assert (Hn1 := node_ok_prepared n a R context type dat size Hn).
  rewrite send_tail_local; [|done| |by rewrite is_local_prepared].
  2: { by destruct (prepared_parts context type dat size n) as (_ & _ & -> & _). }
  rewrite (sbind_ok _ _ _ _ _ (push_unknown _ a R _ _ Hn1 (no_service_prepared _ _ _ _ _ _ Hno))).
  cbn [Z.eqb negb]. unfold prepared, after_copy, new_data, skynet_free.
  assert (n_mem (after_session context type n) = n_mem n) as Em.
  { unfold after_session. destruct (allocs type); [|done]. by destruct (n_ctx n !! context). }
  assert (Eb := after_session_brk context type n). cbv zeta.
  destruct (copies type dat) eqn:Ec; sm.
  - rewrite Eb, Em. assert (Hb0 := nk_brk _ _ _ Hn).
    destruct (Z.eqb_spec (n_brk n) 0); [lia|]. cbn [n_mem set_mem]. rewrite lookup_insert_eq. cbn [n_brk set_mem].
    rewrite delete_insert_id; [done|].
    destruct (n_mem n !! n_brk n) eqn:E; [|done]. apply (nk_mem _ _ _ Hn) in E. lia.
  - destruct (Z.eqb_spec dat 0) as [->|Hne]; [done|].
    rewrite Em. destruct (Hdat Hne) as [b ->]. by rewrite Eb.
Qed.

(** No destination: the call succeeds and the copy stays allocated. *)
Lemma send_nowhere_lemma n context src from type sess dat size :
  args_ok n context type sess dat size → sender n context src = Some from →
  skynet_send context src 0 type sess dat size n =
    Ok (new_session n context type sess, prepared context type dat size n).
Proof.
  intros Ha Hfrom. by rewrite (send_prepared n context src from) by done.
Qed.

(** ** Error messages *)

Definition room (a : aworld) (k : Z) : Prop :=
  ∀ q aq, a_queues a !! q = Some aq → Z.of_nat (length (a_msgs aq)) + k < 2 ^ 30.

(** [a'] has at most one message more than [a]. *)
Definition pushed (a a' : aworld) : Prop :=
  a' = a ∨ ∃ q aq m, a_queues a !! q = Some aq ∧ a' = a_push a q aq m.

Lemma error_buffer_lemma text : ∀ fuel max_size n,
  0 < n_brk n → (∀ p b, n_mem n !! p = Some b → p < n_brk n) →
  0 < max_size → Z.of_nat (length text) < max_size * 2 ^ Z.of_nat fuel →
  (0 < fuel)%nat →
  ∃ dat brk, iterateM fuel (error_buffer text) max_size n =
      Ok (dat, set_mem brk (<[dat := Bytes (text ++ [0])]> (n_mem n)) n) ∧
    n_brk n ≤ dat < brk.
Proof.
  intros fuel. induction fuel as [|fuel IH]; intros max_size n Hb Hm Hmax Hlen Hf; [lia|].
  cbn [iterateM].
  assert (Hstep : error_buffer text max_size n =
    if Z.of_nat (length text) <? max_size * 2
    then Ok (Break (n_brk n), set_mem (n_brk n + 1) (<[n_brk n := Bytes (text ++ [0])]> (n_mem n)) n)
    else Ok (Continue (max_size * 2), set_mem (n_brk n + 1) (n_mem n) n)).
  { unfold error_buffer, malloc, skynet_free. sm.
    destruct (Z.ltb_spec (Z.of_nat (length text)) (max_size * 2)).
    - by rewrite take_ge by lia.
    - destruct (Z.eqb_spec (n_brk n) 0); [lia|]. cbn [n_mem set_mem]. rewrite lookup_insert_eq.
      rewrite delete_insert_id; [done|].
      destruct (n_mem n !! n_brk n) eqn:E; [|done]. apply Hm in E. lia. }
  destruct (Z.ltb_spec (Z.of_nat (length text)) (max_size * 2)) as [Hlt|Hge];
    rewrite (sbind_ok _ _ _ _ _ Hstep).
  - eexists _, _. split; [done|]. lia.
  - rewrite Nat2Z.inj_succ, Z.pow_succ_r in Hlen by lia.
    destruct fuel as [|fuel]; [change (2 ^ Z.of_nat 0) with 1 in Hlen; lia|].
    destruct (IH (max_size * 2) (set_mem (n_brk n + 1) (n_mem n) n)) as (dat & brk & -> & Hd);
      cbn; try lia.
    + intros p b Hp. apply Hm in Hp. lia.
    + eexists _, _. split; [done|]. cbn in Hd. lia.
Qed.

Lemma error_alloc_lemma text n :
  0 < n_brk n → (∀ p b, n_mem n !! p = Some b → p < n_brk n) →
  Z.of_nat (length text) < 2 ^ 30 →
  ∃ dat brk, (if Z.of_nat (length text) <? LOG_MESSAGE_SIZE then malloc (Bytes (text ++ [0]))
              else iterateM 22 (error_buffer text) LOG_MESSAGE_SIZE) n =
      Ok (dat, set_mem brk (<[dat := Bytes (text ++ [0])]> (n_mem n)) n) ∧
    n_brk n ≤ dat < brk.
Proof.
  intros Hb Hm Hlen. destruct (Z.ltb_spec (Z.of_nat (length text)) LOG_MESSAGE_SIZE).
  - unfold malloc. eexists _, _. split; [done|]. lia.
  - apply error_buffer_lemma; [done|done|unfold LOG_MESSAGE_SIZE; lia| |lia].
    change (LOG_MESSAGE_SIZE * 2 ^ Z.of_nat 22) with (2 ^ 30). lia.
Qed.

(** Everything but memory, queues and the cached logger handle. *)
Definition same_services (n n' : node) : Prop :=
  n_ctx n' = n_ctx n ∧ n_handles n' = n_handles n ∧ n_modules n' = n_modules n ∧
  n_timer n' = n_timer n ∧ n_brk n ≤ n_brk n' ∧
  (∀ p b, n_mem n !! p = Some b → n_mem n' !! p = Some b) ∧
  (∃ h, n_glob n' = set_logger h (n_glob n)).

Lemma set_logger_id g : set_logger (G_logger g) g = g.
Proof. by destruct g. Qed.

Lemma logger_lemma n a R :
  node_ok n a R →
  ∃ h, (if G_logger (n_glob n) =? 0 then
          h ← lift (skynet_handle_findname (n_handles n) (str "logger"));
          _ ← modify (λ n, set_glob (set_logger h (n_glob n)) n);
          mret h
        else mret (G_logger (n_glob n))) n = Ok (h, set_glob (set_logger h (n_glob n)) n).
Proof.
  intros Hn. destruct (Z.eqb_spec (G_logger (n_glob n)) 0) as [E|Hne].
  - destruct (nk_names _ _ _ Hn) as [M HM]. exists (default 0 (M !! str "logger")).
    unfold lift, modify. sm. rewrite (findname_lemma _ M); [done|done|].
    repeat constructor.
  - eexists. rewrite set_logger_id. by destruct n.
Qed.

Lemma error_lemma n a R context text :
  node_ok n a R → room a 1 → (context = 0 ∨ is_Some (n_ctx n !! context)) →
  Z.of_nat (length text) < 2 ^ 30 →
  ∃ n' a', skynet_error context text n = Ok ((), n') ∧ node_ok n' a' R ∧ pushed a a' ∧
    same_services n n'.
Proof.
  intros Hn Hroom Hctx Hlen. unfold skynet_error. rewrite gets_bind. cbv [id].
  destruct (logger_lemma n a R Hn) as (h & Hlog). rewrite (sbind_ok _ _ _ _ _ Hlog).
  set (n1 := set_glob (set_logger h (n_glob n)) n).
  assert (Hn1 : node_ok n1 a R) by (by apply node_ok_glob).
  destruct (Z.eqb_spec h 0) as [->|Hh].
  { exists n1, a. split; [done|]. split; [done|]. split; [by left|].
    repeat split; try done. eauto. }
  cbv zeta. destruct (error_alloc_lemma text n1) as (dat & brk & Ha & Hdat).
  { apply Hn1. } { intros p b Hp. by apply (nk_mem _ _ _ Hn1) in Hp as [_ ?]. } { done. }
  rewrite (sbind_ok _ _ _ _ _ Ha).
  set (n2 := set_mem brk _ n1).
  assert (Hb1 := nk_brk _ _ _ Hn1).
  assert (Hn2 : node_ok n2 a R).
  { apply node_ok_mem; [done|lia|]. intros p b Hp. rewrite lookup_insert in Hp.
    case_decide; [lia|]. apply (nk_mem _ _ _ Hn1) in Hp. lia. }
  assert (Hsame : same_services n n2).
  { repeat split; try done; cbn; [cbn in Hdat; lia| |eauto]. intros p b Hp.
    rewrite lookup_insert_ne; [done|]. apply (nk_mem _ _ _ Hn) in Hp. cbn in Hdat. lia. }
  assert (∃ src, (if context =? 0 then mret 0 else x ← ldctx context; mret (c_handle x)) n2
            = Ok (src, n2)) as (src & Hsrc).
  { destruct (Z.eqb_spec context 0); [by eexists|]. destruct Hctx as [|[x Hx]]; [done|].
    unfold ldctx. sm. cbn [n2 n_ctx set_mem n1 set_glob]. rewrite Hx. by eexists. }
  rewrite (sbind_ok _ _ _ _ _ Hsrc).
  destruct (lookup_lemma _ _ h (nk_slots _ _ _ Hn2)) as (c & _ & Hyes & Hone).
  destruct (decide (c = 0)) as [->|Hc].
  - assert (no_service n2 h) as Hno.
    { intros c Hr. pose proof (Hone c Hr). subst. by destruct Hr. }
    rewrite (sbind_ok _ _ _ _ _ (push_unknown n2 a R h _ Hn2 Hno)).
    exists n2, a. split; [done|]. split; [done|]. split; [by left|done].
  - assert (Hr := Hyes Hc). destruct (registered_ctx n2 h c Hr) as (x & Hx & Hxh & _).
    destruct (nk_ctx _ _ _ Hn2 _ _ Hx) as [_ _ _ (aq & Hq & _ & _)].
    edestruct (push_lemma n2 a R h c x aq) as (w' & Hpush & Hw); [done| |].
    { split; try done. by eapply Hroom. }
    rewrite (sbind_ok _ _ _ _ _ Hpush).
    eexists (set_mq w' n2), _. split; [done|]. split; [by apply node_ok_push|].
    split; [right; eauto|done].
Qed.

(** ** A new context *)

Definition new_ctx (inst md : Z) (profile : bool) : skynet_context :=
  Ctx inst md 0 0 0 0 0 0 [] 0 0 2 0 false false profile.

(** The part of [skynet_context_new] between creating and initialising the instance. *)
Definition enter_context (inst md : Z) : SM node (Z * Z * Z) :=
  ctx ← alloc_addr;
  profile ← gets (λ n, G_profile (n_glob n));
  _ ← stctx ctx (new_ctx inst md profile);
  handle ← register_context ctx;
  queue ← alloc_addr;
  x ← ldctx ctx;
  _ ← stctx ctx (set_identity handle queue x);
  _ ← with_mq (λ w, Ok (skynet_mq_create w queue handle));
  _ ← context_inc;
  mret (ctx, handle, queue).

(** The references, with one more for [c]. *)
Definition plus_ref (R : Z → Z) (c k : Z) : Z → Z := λ c', if decide (c' = c) then k else R c'.

Lemma slot_below n a R c : node_ok n a R → c ∈ slot (n_handles n) → c ≠ 0 →
  ∃ x, n_ctx n !! c = Some x ∧ c < n_brk n.
Proof.
  intros Hn Hin Hc. destruct (proj1 (list_elem_of_lookup _ _) Hin) as [i Hi].
  destruct (so_home _ _ (nk_slots _ _ _ Hn) _ _ Hi Hc) as (h & HH & _).
  unfold skynet_context_handle in HH. destruct (n_ctx n !! c) as [x|] eqn:E; [|done].
  exists x. split; [done|]. destruct (nk_fresh _ _ _ Hn) as [Hf _]. by eapply Hf.
Qed.

Lemma run_below n a R q : node_ok n a R → q ∈ a_run a → q < n_brk n.
Proof.
  intros Hn Hq. destruct (nk_fresh _ _ _ Hn) as [_ Hf].
  destruct (nk_mq _ _ _ Hn) as [[Hc _ _ _ _] Hrel].
  assert (is_Some (mq_heap (n_mq n) !! q)) as [m Hm].
  { clear -Hc Hq. revert Hc. generalize (Q_head (n_mq n)).
    induction (a_run a) as [|r qs IH]; intros p Hc; [by apply not_elem_of_nil in Hq|].
    destruct Hc as (-> & _ & m & Hm & Hc). apply elem_of_cons in Hq as [->|Hq]; [eauto|].
    by eapply IH. }
  specialize (Hrel q). rewrite Hm in Hrel. inversion Hrel as [? aq Habs E1 E2|]. by eapply Hf.
Qed.

(** Adding the context [ctx] with its queue [q] under a new handle keeps the invariant. *)
Lemma enter_ok n a R inst md h s' g :
  let ctx := n_brk n in let q := n_brk n + 1 in
  let n' := Node (n_brk n + 2) (n_mem n)
    (<[ctx := set_identity h q (new_ctx inst md (G_profile (n_glob n)))]> (n_ctx n)) s'
    (skynet_mq_create (n_mq n) q h) (n_timer n) (n_modules n) g in
  node_ok n a R →
  name_cap s' = name_cap (n_handles n) → name_count s' = name_count (n_handles n) →
  name s' = name (n_handles n) →
  (∀ c, c ≠ 0 → c ∈ slot s' ↔ c = ctx ∨ c ∈ slot (n_handles n)) →
  slots_ok (skynet_context_handle n') s' →
  node_ok n' (a_create a q h) (plus_ref R ctx 1) ∧ q ∉ a_run (a_create a q h).
Proof.
  intros ctx q n' Hn E1 E2 E3 Hslots Hs'. assert (Hb := nk_brk _ _ _ Hn).
  destruct (nk_fresh _ _ _ Hn) as [Hfc Hfq].
  assert (Hqfresh : a_queues a !! q = None).
  { destruct (a_queues a !! q) eqn:E; [|done]. apply Hfq in E. lia. }
  assert (Hqrun : q ∉ a_run a) by (intros Hq%(run_below n a R q Hn); lia).
  split; [|done]. destruct Hn as [H1 H2 H3 [M HM] H5 H6 H7 H8 _]. split; cbn; try done.
  - apply mq_create_lemma; [done|lia|done|done].
  - intros r ar. cbn. rewrite lookup_insert. case_decide; [naive_solver|]. apply H2.
  - exists M. by apply (names_repr_ext (n_handles n)).
  - intros c x. rewrite lookup_insert. case_decide as E.
    + intros [= <-]. subst c. split; cbn; [lia|lia| |].
      * rewrite decide_True by (apply Hslots; [lia|by left]).
        unfold plus_ref. by rewrite decide_True.
      * exists (AQ h false true []). by rewrite lookup_insert_eq.
    + intros Hx. destruct (H5 c x Hx) as [Hc Hr Hcnt (aq & Hq & Hrel & Hh)].
      split; cbn; [done|done| |].
      * unfold plus_ref. rewrite (decide_False (P := c = ctx)) by congruence. rewrite Hcnt.
        f_equal. apply decide_ext. rewrite Hslots by done.
        split; [by right|intros [->|]; done].
      * exists aq. rewrite lookup_insert_ne by (apply Hfq in Hq; lia). done.
  - intros c1 c2 x1 x2. rewrite !lookup_insert.
    assert (∀ c x, n_ctx n !! c = Some x → c_queue x ≠ q) as Hne.
    { intros c x Hx. destruct (H5 c x Hx) as [_ _ _ (aq & Hq & _)]. apply Hfq in Hq. lia. }
    repeat case_decide; intros ? ? E; simplify_eq; try done; cbn in E.
    + by destruct (Hne c2 x2).
    + by destruct (Hne c1 x1).
    + by apply (H6 c1 c2 x1 x2).
  - lia.
  - intros p b Hp. apply H8 in Hp. lia.
  - split.
    + intros c x. rewrite lookup_insert. case_decide; [lia|]. intros Hx. apply Hfc in Hx. lia.
    + intros r ar. rewrite lookup_insert. case_decide; [lia|]. intros Hx. apply Hfq in Hx. lia.
Qed.

Lemma enter_context_lemma n a R inst md :
  node_ok n a R → (slot_size (n_handles n) < 2 ^ 24 ∨ 0 ∈ slot (n_handles n)) →
  let ctx := n_brk n in let q := n_brk n + 1 in
  ∃ h n', enter_context inst md n = Ok ((ctx, h, q), n') ∧
    node_ok n' (a_create a q h) (plus_ref R ctx 1) ∧ no_service n h ∧ 0 ≤ h < 2 ^ 32 ∧
    registered (skynet_context_handle n') (n_handles n') h ctx ∧
    n_ctx n' = <[ctx := set_identity h q (new_ctx inst md (G_profile (n_glob n)))]> (n_ctx n) ∧
    n_brk n' = n_brk n + 2 ∧ n_modules n' = n_modules n ∧ n_mem n' = n_mem n ∧
    q ∉ a_run (a_create a q h) ∧
    n_glob n' = set_total (i32 (G_total (n_glob n) + 1)) (n_glob n) ∧
    slot_size (n_handles n') ≤ 2 ^ 24.
Proof.
  intros Hn Hcap ctx q. assert (Hb := nk_brk _ _ _ Hn).
  set (x0 := new_ctx inst md (G_profile (n_glob n))).
  set (n1 := set_ctxs (<[ctx := x0]> (n_ctx n)) (set_mem (n_brk n + 1) (n_mem n) n)).
  assert (Hold : ∀ c, c ≠ ctx → skynet_context_handle n1 c = skynet_context_handle n c).
  { intros c Hc. unfold skynet_context_handle. cbn. by rewrite lookup_insert_ne. }
  assert (Hctxslot : ∀ c, c ∈ slot (n_handles n) → c ≠ 0 → c ≠ ctx).
  { intros c Hin Hc. destruct (slot_below n a R c Hn Hin Hc) as (x & _ & ?). lia. }
  assert (Hs1 : slots_ok (skynet_context_handle n1) (n_handles n)).
  { destruct (nk_slots _ _ _ Hn) as [? ? Hhome ? ?]. split; try done. intros i c Hi Hc.
    rewrite Hold; [by apply Hhome|]. apply Hctxslot; [|done]. by eapply list_elem_of_lookup_2. }
  destruct (register_lemma (skynet_context_handle n1) (n_handles n) ctx Hs1 ltac:(lia) Hcap)
    as (h & s' & Hreg & [Hrange Hfresh Hslots (E1 & E2 & E3) _ _ Hok]).
  set (x1 := set_identity h q x0).
  set (n' := Node (n_brk n + 2) (n_mem n) (<[ctx := x1]> (n_ctx n)) s'
    (skynet_mq_create (n_mq n) q h) (n_timer n) (n_modules n)
    (set_total (i32 (G_total (n_glob n) + 1)) (n_glob n))).
  assert (Hold' : ∀ c, c ≠ ctx → skynet_context_handle n' c = skynet_context_handle n1 c).
  { intros c Hc. unfold skynet_context_handle. cbn. by rewrite !lookup_insert_ne. }
  assert (Hs' : slots_ok (skynet_context_handle n') s').
  { apply Hok; [unfold skynet_context_handle; cbn; by rewrite lookup_insert_eq|].
    intros c Hin Hc. apply Hold'. by apply Hctxslot. }
  destruct (enter_ok n a R inst md h s' (set_total (i32 (G_total (n_glob n) + 1)) (n_glob n))
    Hn E1 E2 E3 Hslots Hs') as [Hn' Hrun'].
  exists h, n'. split.
  { unfold enter_context.
    rewrite (sbind_ok alloc_addr _ n ctx (set_mem (n_brk n + 1) (n_mem n) n) eq_refl).
    rewrite gets_bind. rewrite (sbind_ok (stctx _ _) _ _ () n1 eq_refl).
    assert (register_context ctx n1 = Ok (h, set_handles s' n1)) as Hr1.
    { unfold register_context. change (n_handles n1) with (n_handles n). by rewrite Hreg. }
    rewrite (sbind_ok _ _ _ _ _ Hr1). unfold alloc_addr, ldctx, stctx, with_mq, context_inc.
    sm. cbn [n_ctx set_handles set_mem set_ctxs n1]. rewrite lookup_insert_eq. cbv beta iota.
    unfold n', set_glob, set_mq, set_ctxs, set_mem, set_handles. cbn.
    rewrite insert_insert_eq. replace (n_brk n + 1 + 1) with (n_brk n + 2) by lia. done. }
  split; [exact Hn'|]. split.
  { intros c (Hc & HH & Hin). apply (Hfresh c). split; [done|].
    rewrite Hold by (by apply Hctxslot). done. }
  split; [done|]. split.
  { split; [lia|]. split; [unfold skynet_context_handle; cbn; by rewrite lookup_insert_eq|].
    cbn. apply Hslots; [lia|by left]. }
  split; [done|]. split; [done|]. split; [done|]. split; [done|]. split; [done|]. split; [done|].
  cbn. by destruct (size_bounds _ _ Hs') as [[_ ?] _].
Qed.

(** ** The end of a context *)

Lemma plus_ref_same R c k : plus_ref R c k c = k.
Proof. unfold plus_ref. by rewrite decide_True. Qed.

Lemma plus_ref_ne R c k c' : c' ≠ c → plus_ref R c k c' = R c'.
Proof. intros. unfold plus_ref. by rewrite decide_False. Qed.

(** The table's reference passes to whoever retires the handle. *)
Lemma node_ok_unregister n a R h c s' M :
  node_ok n a R → registered (skynet_context_handle n) (n_handles n) h c →
  without (skynet_context_handle n) (n_handles n) c s' → names_repr s' M →
  node_ok (set_handles s' n) a (plus_ref R c (R c + 1)).
Proof.
  intros [H1 H2 H3 H4 H5 H6 H7 H8 H9] Hr (Hs' & _ & _ & _ & Hwo) HM.
  assert (Hslot : ∀ k x, n_ctx n !! k = Some x → k ≠ 0 →
    k ∈ slot s' ↔ k ∈ slot (n_handles n) ∧ k ≠ c).
  { intros k x Hx Hk. assert (skynet_context_handle n k = Ok (c_handle x)) as HH
      by (unfold skynet_context_handle; by rewrite Hx).
    specialize (Hwo (c_handle x) k). unfold registered in Hwo. tauto. }
  split; cbn; try done.
  - eauto.
  - intros k x Hx. destruct (H5 k x Hx) as [Hk Href Hcnt Hq]. split; cbn; try done.
    assert (Hs := Hslot k x Hx Hk). destruct (decide (k = c)) as [->|Hne].
    + rewrite plus_ref_same, decide_False by tauto. rewrite Hcnt, decide_True; [lia|].
      by destruct Hr as (_ & _ & ?).
    + rewrite plus_ref_ne, Hcnt by done. f_equal. apply decide_ext. tauto.
Qed.

Lemma node_ok_release n a R c x :
  node_ok n a R → n_ctx n !! c = Some x → 1 < c_ref x →
  node_ok (set_ctxs (<[c := set_ref (c_ref x - 1) x]> (n_ctx n)) n) a (plus_ref R c (R c - 1)).
Proof.
  intros [H1 H2 H3 H4 H5 H6 H7 H8 [H9 H10]] Hx Hlt.
  assert (HH : ∀ k, skynet_context_handle (set_ctxs (<[c := set_ref (c_ref x - 1) x]> (n_ctx n)) n) k
                    = skynet_context_handle n k).
  { intros k. unfold skynet_context_handle. cbn. rewrite lookup_insert. case_decide; [|done].
    subst. by rewrite Hx. }
  split; cbn; try done.
  - destruct H3 as [? ? Hhome ? ?]. split; try done. intros i k Hi Hk.
    destruct (Hhome i k Hi Hk) as (h & ? & ?). exists h. by rewrite HH.
  - intros k y. rewrite lookup_insert. case_decide as E.
    + subst. intros [= <-]. destruct (H5 _ _ Hx) as [? ? Hcnt ?].
      split; cbn; [done|lia| |done]. rewrite plus_ref_same. lia.
    + intros Hy. destruct (H5 _ _ Hy) as [? ? ? ?]. split; try done.
      by rewrite plus_ref_ne by congruence.
  - intros c1 c2 x1 x2. rewrite !lookup_insert.
    repeat case_decide; intros; simplify_eq; try done.
    + by apply (H6 c1 c2 x x2).
    + by apply (H6 c1 c2 x1 x).
    + by apply (H6 c1 c2 x1 x2).
  - split; [|done]. intros k y. rewrite lookup_insert. case_decide; [subst; intros _|]; by eapply H9.
Qed.

(** A release function that only frees what belongs to its own instance. *)
Definition quiet_release (n : node) (x : skynet_context) : Prop :=
  ∀ n', n_modules n' = n_modules n →
    skynet_module_instance_release (c_mod x) (c_instance x) n' = Ok ((), n').

Lemma mark_ok n a R c x aq w' g :
  node_ok n a R → n_ctx n !! c = Some x → a_queues a !! c_queue x = Some aq →
  refines w' (a_mark a (c_queue x) aq) → c ∉ slot (n_handles n) →
  node_ok (set_glob g (set_ctxs (delete c (n_ctx n)) (set_mq w' n)))
    (a_mark a (c_queue x) aq) (plus_ref R c 0).
Proof.
  intros [H1 H2 H3 H4 H5 H6 H7 H8 [H9 H10]] Hx Hq Hw Hslot.
  assert (Hne : ∀ k y, n_ctx n !! k = Some y → k ≠ c → c_queue y ≠ c_queue x).
  { intros k y Hy Hk E. by apply Hk, (H6 k c y x). }
  split; cbn; try done.
  - intros r ar. cbn. rewrite lookup_insert. case_decide as E; [naive_solver|].
    intros Hr Hl Hg. specialize (H2 _ _ Hr Hl Hg). destruct (a_in_global aq); [done|]. set_solver.
  - destruct H3 as [? ? Hhome ? ?]. split; try done. intros i k Hi Hk.
    destruct (Hhome i k Hi Hk) as (h & HH & ?). exists h. split; [|done].
    unfold skynet_context_handle in *. cbn. rewrite lookup_delete_ne; [done|].
    intros <-. by apply Hslot, (list_elem_of_lookup_2 _ i).
  - intros k y. rewrite lookup_delete_Some. intros [Hk Hy].
    destruct (H5 _ _ Hy) as [? ? ? (ar & Hr & ? & ?)]. split; try done.
    + by rewrite plus_ref_ne by congruence.
    + exists ar. cbn. rewrite lookup_insert_ne; [done|]. apply not_eq_sym. by apply (Hne k).
  - intros c1 c2 x1 x2. rewrite !lookup_delete_Some. intros [_ ?] [_ ?]. by apply (H6 c1 c2).
  - split.
    + intros k y. rewrite lookup_delete_Some. intros [_ ?]. by eapply H9.
    + intros r ar. rewrite lookup_insert. case_decide; [subst; intros _|]; by eapply H10.
Qed.

(** Giving back the last reference frees the context and hands its queue to the
    workers, marked for release. *)
Lemma release_last n a R c x aq :
  node_ok n a R → n_ctx n !! c = Some x → a_queues a !! c_queue x = Some aq →
  c ∉ slot (n_handles n) → R c = 1 → quiet_release n x →
  ∃ n', skynet_context_release c n = Ok (0, n') ∧
    node_ok n' (a_mark a (c_queue x) aq) (plus_ref R c 0) ∧
    n_ctx n' = delete c (n_ctx n) ∧ n_handles n' = n_handles n ∧ n_mem n' = n_mem n ∧
    n_modules n' = n_modules n ∧ G_total (n_glob n') = i32 (G_total (n_glob n) - 1).
Proof.
  intros Hn Hx Hq Hslot HR Hquiet.
  destruct (nk_ctx _ _ _ Hn _ _ Hx) as [Hc Href Hcnt (aq' & Hq' & Hrel & _)].
  assert (aq' = aq) as -> by congruence. rewrite decide_False, HR in Hcnt by done.
  destruct (mq_mark_lemma (n_mq n) a (c_queue x) aq (nk_mq _ _ _ Hn) Hq Hrel) as (w' & Hw & Hw').
  { intros Hg. by apply (nk_idle _ _ _ Hn _ aq). }
  set (n1 := set_ctxs (<[c := set_ref 0 x]> (n_ctx n)) n).
  set (n2 := if negb (c_logfile x =? 0) then set_glob (set_clock_files (G_clock (n_glob n1))
    (G_files (n_glob n1) ++ [FClosed (c_logfile x)]) (n_glob n1)) n1 else n1).
  set (n3 := set_ctxs (delete c (n_ctx n)) (set_mq w' n)).
  exists (set_glob (set_total (i32 (G_total (n_glob n2) - 1)) (n_glob n2)) n3).
  split; [|split; [by apply mark_ok|]].
  - unfold skynet_context_release, ldctx, stctx. sm. rewrite Hx. rewrite Hcnt.
    change (i32 (0 + 1 - 1)) with 0. cbn [Z.eqb]. fold n1.
    assert (delete_context c n1 =
      Ok ((), set_glob (set_total (i32 (G_total (n_glob n2) - 1)) (n_glob n2)) n3)) as ->; [|done].
    unfold delete_context.
    assert (Hx1 : n_ctx n1 !! c = Some (set_ref 0 x)) by apply lookup_insert_eq.
    assert (ldctx c n1 = Ok (set_ref 0 x, n1)) as E1 by (unfold ldctx; by rewrite Hx1).
    rewrite (sbind_ok _ _ _ _ _ E1). cbn [c_logfile c_mod c_instance set_ref].
    assert ((if negb (c_logfile x =? 0) then fclose (c_logfile x) else mret ()) n1 = Ok ((), n2))
      as E2 by (unfold n2; by destruct (c_logfile x =? 0)).
    rewrite (sbind_ok _ _ _ _ _ E2).
    assert (n_ctx n2 = n_ctx n1 ∧ n_modules n2 = n_modules n ∧ n_mq n2 = n_mq n) as (C2 & M2 & Q2)
      by (unfold n2; by destruct (c_logfile x =? 0)).
    rewrite (sbind_ok _ _ _ _ _ (Hquiet n2 M2)).
    assert (ldctx c n2 = Ok (set_ref 0 x, n2)) as E3 by (unfold ldctx; by rewrite C2, Hx1).
    rewrite (sbind_ok _ _ _ _ _ E3). unfold with_mq, context_dec. sm.
    cbn [c_queue set_ref]. rewrite Q2, Hw. unfold n3, n2, n1, set_glob, set_ctxs, set_mq.
    destruct (negb (c_logfile x =? 0)); cbn; by rewrite delete_insert_eq.
  - unfold n2, n1. cbn. by destruct (negb (c_logfile x =? 0)).
Qed.

(** [k] references given back one after the other, with what each call returns. *)
Fixpoint releases (k : nat) (c : Z) : SM node (list Z) :=
  match k with
  | O => mret []
  | S k => r ← skynet_context_release c; l ← releases k c; mret (r :: l)
  end.

Lemma releases_app k k' c n :
  releases (k + k') c n = (l ← releases k c; l' ← releases k' c; mret (l ++ l')) n.
Proof.
  revert n. induction k as [|k IH]; intros n; cbn [releases Nat.add].
  - rewrite ret_bind. unfold mbind, SM_bind. by destruct (releases k' c n) as [[l n']|].
  - unfold mbind, SM_bind in *. destruct (skynet_context_release c n) as [[r n1]|]; [|done]. cbn. rewrite IH.
    destruct (releases k c n1) as [[l n2]|]; [|done]. cbn. by destruct (releases k' c n2) as [[l' n3]|].
Qed.

(** ** Retiring a service *)

Lemma node_ok_ext n a R R' : (∀ c, R c = R' c) → node_ok n a R → node_ok n a R'.
Proof.
  intros E [H1 H2 H3 H4 H5 H6 H7 H8 H9]. split; try done.
  intros c x Hx. destruct (H5 c x Hx). split; try done. by rewrite <- E.
Qed.

(** As long as a reference is left the context lives. *)
Lemma releases_shared k : ∀ c n a R x,
  node_ok n a R → n_ctx n !! c = Some x → Z.of_nat k < c_ref x →
  ∃ n', releases k c n = Ok (replicate k c, n') ∧
    n_ctx n' = <[c := set_ref (c_ref x - Z.of_nat k) x]> (n_ctx n) ∧
    node_ok n' a (plus_ref R c (R c - Z.of_nat k)) ∧
    n_modules n' = n_modules n ∧ n_handles n' = n_handles n.
Proof.
  induction k as [|k IH]; intros c n a R x Hn Hx Hk.
  { exists n. split; [done|]. split; [rewrite Z.sub_0_r; symmetry; apply insert_id; by destruct x|].
    split; [|done]. eapply node_ok_ext; [|exact Hn]. intros j. unfold plus_ref. case_decide; subst; lia. }
  destruct (nk_ctx _ _ _ Hn _ _ Hx) as [_ Href _ _].
  pose proof (node_ok_release n a R c x Hn Hx ltac:(lia)) as Hn1. set (n1 := set_ctxs _ n) in Hn1.
  destruct (IH c n1 a _ (set_ref (c_ref x - 1) x) Hn1) as (n' & Ek & Ec & Hok & Em & Eh);
    [apply lookup_insert_eq|cbn; lia|].
  exists n'. cbn [releases]. rewrite (sbind_ok _ _ _ _ _ (release_shared n c x Hx ltac:(lia))). fold n1.
  rewrite (sbind_ok _ _ _ _ _ Ek). split; [done|]. split; [|split; [|done]].
  - rewrite Ec. cbn [n1 n_ctx set_ctxs c_ref set_ref]. rewrite insert_insert_eq. f_equal. unfold set_ref. cbn. f_equal. lia.
  - eapply node_ok_ext; [|exact Hok]. intros j. rewrite plus_ref_same. unfold plus_ref. repeat case_decide; lia.
Qed.

Lemma no_service_set n s' h c :
  registered (skynet_context_handle n) (n_handles n) h c → slots_ok (skynet_context_handle n) (n_handles n) →
  without (skynet_context_handle n) (n_handles n) c s' → no_service (set_handles s' n) h.
Proof.
  intros Hr Hs (_ & _ & _ & _ & Hwo) c' Hr'. change (n_handles (set_handles s' n)) with s' in Hr'.
  apply Hwo in Hr' as [Hr' Hne]. apply Hne.
  destruct (slot_of _ _ h Hs) as (c0 & _ & _ & _ & _ & Hone).
  apply Hone in Hr as [-> _]. by apply Hone in Hr' as [-> _].
Qed.

Lemma retire_node_unknown n a R h :
  node_ok n a R → no_service n h → skynet_handle_retire h n = Ok (0, n).
Proof.
  intros Hn Hno. destruct (nk_names _ _ _ Hn) as [M HM].
  destruct (retire_lemma _ _ M h (nk_slots _ _ _ Hn) HM) as [(c & _ & _ & Hr & _)|[E _]].
  { by destruct (Hno c). }
  unfold skynet_handle_retire. sm. rewrite E. cbn. by destruct n.
Qed.

Lemma retire_node n a R h c x aq :
  node_ok n a R → registered (skynet_context_handle n) (n_handles n) h c →
  n_ctx n !! c = Some x → a_queues a !! c_queue x = Some aq → 0 ≤ R c →
  (R c = 0 → quiet_release n x) →
  ∃ n', skynet_handle_retire h n = Ok (1, n') ∧ no_service n' h ∧ n_modules n' = n_modules n ∧
    if R c =? 0
    then n_ctx n' = delete c (n_ctx n) ∧ node_ok n' (a_mark a (c_queue x) aq) R ∧ c ∉ slot (n_handles n')
    else n_ctx n' = <[c := set_ref (c_ref x - 1) x]> (n_ctx n) ∧ node_ok n' a R ∧ c ∉ slot (n_handles n').
Proof.
  intros Hn Hr Hx Hq HRc Hquiet. destruct (nk_names _ _ _ Hn) as [M HM].
  destruct (retire_lemma _ _ M h (nk_slots _ _ _ Hn) HM) as [(c' & s' & E & Hr' & Hwo & HM')|[_ Hno]].
  2: { by destruct (Hno c). }
  assert (c' = c) as ->.
  { destruct (slot_of _ _ h (nk_slots _ _ _ Hn)) as (c0 & _ & _ & _ & _ & Hone).
    apply Hone in Hr as [-> _]. by apply Hone in Hr' as [-> _]. }
  assert (Hn1 := node_ok_unregister n a R h c s' _ Hn Hr Hwo HM').
  assert (Hno1 := no_service_set n s' h c Hr (nk_slots _ _ _ Hn) Hwo).
  set (n1 := set_handles s' n) in *.
  destruct (nk_ctx _ _ _ Hn _ _ Hx) as [Hc Href Hcnt _].
  rewrite decide_True in Hcnt by (by destruct Hr as (_ & _ & ?)).
  assert (Hctxs : ∀ n2 k, n_handles n2 = s' →
    (∀ k, is_Some (n_ctx n2 !! k) → ∃ x1 x2, n_ctx n !! k = Some x1 ∧ n_ctx n2 !! k = Some x2 ∧
       c_handle x1 = c_handle x2) →
    ¬ registered (skynet_context_handle n2) (n_handles n2) h k).
  { intros n2 k Eh Hsub Hr2. destruct (registered_ctx n2 h k Hr2) as (x2 & Hx2 & Hh2 & Hin2).
    destruct (Hsub k ltac:(eauto)) as (x1 & x3 & Hx1 & Hx3 & Hh).
    assert (x3 = x2) as -> by congruence. apply (Hno1 k). destruct Hr2 as (Hk & _ & _). rewrite Eh in Hin2.
    split; [done|]. split; [|done]. unfold skynet_context_handle. cbn. rewrite Hx1. cbn.
    by rewrite Hh, Hh2. }
  unfold skynet_handle_retire. rewrite gets_bind. cbv [id]. rewrite (lift_bind _ _ _ _ E).
  cbv beta iota. rewrite modify_bind. destruct (Z.eqb_spec c 0); [done|]. cbn [negb]. fold n1.
  assert (c ∉ slot (n_handles n1)) as Hslot1.
  { intros Hin. apply (Hno1 c). destruct Hr as (_ & HH & _). done. }
  destruct (Z.eqb_spec (R c) 0) as [E0|Hpos].
  - destruct (release_last n1 a (plus_ref R c (R c + 1)) c x aq Hn1 Hx Hq Hslot1)
      as (n2 & Hrel & Hn2 & Hc2 & Hh2 & _ & Hm2 & _).
    { rewrite plus_ref_same. lia. } { intros n' Hm. by apply Hquiet. }
    rewrite (sbind_ok _ _ _ _ _ Hrel). exists n2. split; [done|]. split; [|split; [done|]].
    + intros k. apply Hctxs; [done|]. rewrite Hc2. intros j [y Hy].
      rewrite Hy. apply lookup_delete_Some in Hy as [_ Hy]. eauto 6.
    + split; [done|]. split; [|by rewrite Hh2]. eapply node_ok_ext; [|exact Hn2]. intros k. unfold plus_ref.
      repeat case_decide; simplify_eq; done.
  - rewrite (sbind_ok _ _ _ _ _ (release_shared n1 c x Hx ltac:(lia))).
    eexists. split; [done|]. split; [|split; [done|]].
    + intros k. apply Hctxs; [done|]. cbn. intros j [y Hy]. rewrite Hy.
      rewrite lookup_insert in Hy. case_decide; simplify_eq; eauto 6.
    + split; [done|]. split; [|done].
      assert (Hn2 := node_ok_release n1 a _ c x Hn1 Hx ltac:(lia)).
      eapply node_ok_ext; [|exact Hn2]. intros k. rewrite plus_ref_same. unfold plus_ref.
      repeat case_decide; simplify_eq; lia.
Qed.

(** ** Launching a service *)

(** What follows once the instance has been initialised with success. *)
Definition launch_success (nm : cstring) (param : option cstring) (ctx queue : Z) : SM node Z :=
  ret ← skynet_context_release ctx;
  _ ← (if negb (ret =? 0) then x ← ldctx ctx; stctx ctx (set_init true x) else mret ());
  _ ← with_mq (λ w, skynet_globalmq_push w queue);
  _ ← (if negb (ret =? 0) then
         skynet_error ret (str "LAUNCH " ++ nm ++ [32] ++ default [] param)
       else mret ());
  mret ret.

Lemma context_new_steps dlopen dlsym fuel nm param n n0 md inst ctx h q n1 n2 :
  query_module nm dlopen dlsym n = Ok (md, n0) → md ≠ 0 →
  skynet_module_instance_create md n0 = Ok (inst, n0) → inst ≠ 0 →
  enter_context inst md n0 = Ok ((ctx, h, q), n1) →
  skynet_module_instance_init md inst ctx param n1 = Ok (0, n2) →
  skynet_context_new dlopen dlsym fuel nm param n = launch_success nm param ctx q n2.
Proof.
  intros Hq Hmd Hc Hinst He Hi. unfold skynet_context_new.
  rewrite (sbind_ok _ _ _ _ _ Hq). destruct (Z.eqb_spec md 0); [done|].
  rewrite (sbind_ok _ _ _ _ _ Hc). destruct (Z.eqb_spec inst 0); [done|].
  unfold enter_context in He.
  repeat (apply sbind_ok_inv in He as (? & ? & E & He); rewrite (sbind_ok _ _ _ _ _ E); clear E).
  injection He as <- <- <- <-. rewrite (sbind_ok _ _ _ _ _ Hi). done.
Qed.

(** The invariant does not look at the modules, and running a queue nobody holds in the
    global list is fine. *)
Lemma node_ok_modules n a R m : node_ok n a R → node_ok (set_modules m n) a R.
Proof.
  intros [H1 H2 H3 H4 H5 H6 H7 H8 H9]. split; try done.
  intros c x Hx. destruct (H5 c x Hx). by split.
Qed.

Lemma node_ok_run n a R q aq :
  node_ok n a R → a_queues a !! q = Some aq → a_in_global aq = true → q ∉ a_run a →
  ∃ w', skynet_globalmq_push (n_mq n) q = Ok w' ∧ node_ok (set_mq w' n) (a_gpush a q) R.
Proof.
  intros Hn Hq Hg Hrun.
  destruct (globalmq_push_lemma _ _ _ _ (nk_mq _ _ _ Hn) Hq Hrun) as (w' & Hw & Hw').
  exists w'. split; [done|]. apply (node_ok_mq n a); [done|done| | |].
  - intros r ar Hr. eauto.
  - intros r ar Hr Hl Hgr. cbn in *. rewrite not_elem_of_app, list_elem_of_singleton.
    split; [by eapply (nk_idle _ _ _ Hn)|]. intros ->. congruence.
  - intros r ar Hr. by eapply (nk_fresh _ _ _ Hn).
Qed.

(** An initialisation function that keeps the node well formed, keeps its service
    registered and leaves the new queue to the launcher. *)
Definition init_contract (R : Z → Z) (ms : modules) (md inst ctx h q : Z)
    (param : option cstring) : Prop :=
  ∀ n1 a1 x1 aq1, n_modules n1 = ms →
    node_ok n1 a1 (plus_ref R ctx 1) → room a1 1 → n_ctx n1 !! ctx = Some x1 → c_queue x1 = q → c_handle x1 = h →
    ctx ∈ slot (n_handles n1) → a_queues a1 !! q = Some aq1 → a_in_global aq1 = true → q ∉ a_run a1 →
    ∃ n2 a2 x2 aq2, skynet_module_instance_init md inst ctx param n1 = Ok (0, n2) ∧
      node_ok n2 a2 (plus_ref R ctx 1) ∧ room a2 1 ∧
      n_ctx n2 !! ctx = Some x2 ∧ c_queue x2 = q ∧ c_handle x2 = h ∧ ctx ∈ slot (n_handles n2) ∧
      a_queues a2 !! q = Some aq2 ∧ a_in_global aq2 = true ∧ q ∉ a_run a2.

Lemma pushed_queue a a' q aq :
  pushed a a' → a_queues a !! q = Some aq → q ∈ a_run a →
  ∃ aq', a_queues a' !! q = Some aq' ∧ q ∈ a_run a'.
Proof.
  intros [->|(r & ar & m & Hr & ->)] Hq Hrun; [eauto|]. cbn. rewrite lookup_insert.
  case_decide.
  - subst. eexists. split; [done|]. destruct (a_in_global ar); [done|]. set_solver.
  - eexists. split; [done|]. destruct (a_in_global ar); [done|]. set_solver.
Qed.

Lemma launch_success_lemma n a R nm param ctx x aq :
  node_ok n a (plus_ref R ctx 1) → room a 1 → n_ctx n !! ctx = Some x → ctx ∈ slot (n_handles n) →
  a_queues a !! c_queue x = Some aq → a_in_global aq = true → c_queue x ∉ a_run a →
  Z.of_nat (length nm) + Z.of_nat (length (default [] param)) < 2 ^ 29 →
  ∃ n' a', launch_success nm param ctx (c_queue x) n = Ok (ctx, n') ∧
    node_ok n' a' (plus_ref R ctx 0) ∧ c_queue x ∈ a_run a' ∧
    n_ctx n' = <[ctx := set_init true (set_ref 1 x)]> (n_ctx n) ∧ n_handles n' = n_handles n.
Proof.
  intros Hn Hroom Hx Hslot Hq Hg Hrun Hlen. unfold launch_success.
  destruct (nk_ctx _ _ _ Hn _ _ Hx) as [Hc Href Hcnt _].
  rewrite decide_True, plus_ref_same in Hcnt by done.
  rewrite (sbind_ok _ _ _ _ _ (release_shared n ctx x Hx ltac:(lia))).
  assert (Hn1 := node_ok_release n a _ ctx x Hn Hx ltac:(lia)). rewrite Hcnt in *.
  change (1 + 1 - 1) with 1 in *.
  set (n1 := set_ctxs _ n) in *. destruct (Z.eqb_spec ctx 0); [done|]. cbn [negb].
  assert (Hx1 : n_ctx n1 !! ctx = Some (set_ref 1 x)) by apply lookup_insert_eq.
  assert ((x ← ldctx ctx; stctx ctx (set_init true x)) n1 =
    Ok ((), set_ctxs (<[ctx := set_init true (set_ref 1 x)]> (n_ctx n1)) n1)) as E.
  { unfold ldctx, stctx. sm. by rewrite Hx1. }
  rewrite (sbind_ok _ _ _ _ _ E).
  assert (Hn2 := node_ok_ctx n1 a _ ctx _ (set_init true (set_ref 1 x)) Hn1 Hx1
    ltac:(done) ltac:(done) ltac:(done)).
  set (n2 := set_ctxs _ n1) in *.
  destruct (node_ok_run n2 a _ (c_queue x) aq Hn2 Hq Hg Hrun) as (w' & Hw & Hn3).
  assert (with_mq (λ w, skynet_globalmq_push w (c_queue x)) n2 = Ok ((), set_mq w' n2)) as Ew
    by (unfold with_mq; by rewrite Hw).
  rewrite (sbind_ok _ _ _ _ _ Ew). set (n3 := set_mq w' n2) in *.
  destruct (error_lemma n3 _ _ ctx (str "LAUNCH " ++ nm ++ [32] ++ default [] param) Hn3)
    as (n4 & a4 & Herr & Hn4 & Hp & (Ec & Eh & _)).
  - intros r ar Hr. by eapply Hroom.
  - right. exists (set_init true (set_ref 1 x)). apply lookup_insert_eq.
  - rewrite !length_app. cbn [length]. change (length (str "LAUNCH ")) with 7%nat. lia.
  - rewrite (sbind_ok _ _ _ _ _ Herr). exists n4, a4. split; [done|]. split.
    + eapply node_ok_ext; [|exact Hn4]. intros k. rewrite plus_ref_same. unfold plus_ref.
      repeat case_decide; done.
    + split.
      * destruct (pushed_queue _ _ (c_queue x) aq Hp) as (? & _ & ?); [done| |done].
        cbn. set_solver.
      * rewrite Ec, Eh. cbn. by rewrite insert_insert_eq.
Qed.

End services.
