(* ===== verification/ServerProps.v ===== *)
(** The properties of the node: sending, launching and retiring services, sessions,
    handles as text, logging. *)

From S2P Require Import Prelude CString Module MessageQueue Timer Handle Node Server NodeProps.
Open Scope Z_scope.

(** ** A node to try things on

    Harbor 1, one service (context 1, queue 2, handle [:1000001]) whose functions do
    nothing, and a payload at address 3. *)

Definition demo_services : Services :=
  {| sv_create := λ _, mret 77;
     sv_init := λ _ _ ctx _, _ ← skynet_callback ctx 5 6; mret 0;
     sv_release := λ _ _, mret ();
     sv_signal := λ _ _ _, mret ();
     sv_callback := λ _ _ _ _ _ _ _ _, mret 0;
     os_fopen := λ _, mret 0;
     os_ctime := λ _, [] |}.

Definition demo_module : skynet_module := Mod (str "echo") 7 0 11 12 0.

Definition boot_node : node :=
  Node 1 ∅ ∅ (skynet_handle_init 1) skynet_mq_init timer_create_timer
    (Modules 1 (str "./?.so") (Some demo_module :: replicate 31 None))
    (Globals 0 1 0 0 false 0 0 0x1000000 ∅ [] []).

Definition no_refs : Z → Z := λ _, 0.

Lemma boot_ok : node_ok boot_node (AW ∅ []) no_refs.
Proof.
  destruct (init_lemma (skynet_context_handle boot_node) 1) as (Hs & HM & _).
  split; try done.
  - exact refines_init.
  - by exists ∅.
Qed.

Definition demo_handle : Z := 0x1000001.
Definition demo_world : aworld := a_create (AW ∅ []) 2 demo_handle.
Definition demo_refs : Z → Z := plus_ref no_refs 1 1.
Definition entered_node : node :=
  match enter_context 77 1 boot_node with Ok (_, n) => n | Fault _ => boot_node end.
Definition demo_node : node := set_mem 4 {[3 := Bytes [104; 105]]} entered_node.

Lemma entered_facts :
  enter_context 77 1 boot_node = Ok ((1, demo_handle, 2), entered_node) ∧
  node_ok entered_node demo_world demo_refs ∧
  registered (skynet_context_handle entered_node) (n_handles entered_node) demo_handle 1.
Proof.
  assert (enter_context 77 1 boot_node = Ok ((1, demo_handle, 2), entered_node)) as E
    by (vm_compute; reflexivity).
  destruct (enter_context_lemma boot_node (AW ∅ []) no_refs 77 1 boot_ok)
    as (h & n' & E' & Hok & _ & _ & Hr & _); [left; reflexivity|].
  cbn [n_brk boot_node] in E', Hok, Hr. rewrite E in E'. injection E' as <- <-. done.
Qed.

Lemma demo_ok : node_ok demo_node demo_world demo_refs.
Proof.
  destruct entered_facts as (_ & Hok & _). apply node_ok_mem; [done|vm_compute; done|].
  intros p b Hp. rewrite lookup_singleton_Some in Hp. lia.
Qed.

Definition demo_ctx : skynet_context := Ctx 77 1 0 0 2 0 0 0 [] demo_handle 0 2 0 false false false.

Lemma demo_service :
  service demo_node demo_world demo_handle 1 demo_ctx (AQ demo_handle false true []).
Proof.
  destruct entered_facts as (_ & _ & Hr). by split.
Qed.

(** ** Properties *)

(** C11. Sending to a live local service.  Where a session is to be allocated, the [int] counter of
    the sending context must have one left ([session_left]): at [INT_MAX] its increment
    overflows.  Then the call returns the session (a fresh one when asked to), the message is appended to that service's queue and to no
    other, it carries the sender, the payload (a zero-terminated private copy unless the
    caller gave its buffer away), and a size word from which type and size are read back
    exactly; the reference count of the service is back where it was and the node stays
    well formed. *)
Theorem skynet_send_delivers `{!Services} n a R context src from destination type sess dat size
    c x aq :
  node_ok n a R → args_ok n context type sess dat size → sender n context src = Some from →
  0 < destination → G_HARBOR (n_glob n) ≠ 0xffffffff → is_local n destination = true →
  service n a destination c x aq →
  let m := Message from (new_session n context type sess) (new_data n type dat)
             (message_sz type size) in
  ∃ w', skynet_send context src destination type sess dat size n =
      Ok (new_session n context type sess, set_mq w' (prepared context type dat size n)) ∧
    refines w' (a_push a (c_queue x) aq m) ∧
    node_ok (set_mq w' (prepared context type dat size n)) (a_push a (c_queue x) aq m) R ∧
    Z.shiftr (sz m) MESSAGE_TYPE_SHIFT = Z.land type 0xff ∧
    Z.land (sz m) MESSAGE_TYPE_MASK = size.
Proof.
  intros Hn Ha Hfrom Hd Hb Hl Hsv m.
  destruct (send_local_lemma n a R context src from destination type sess dat size c x aq)
    as (w' & Hrun & Hw & Hok); try done.
  exists w'. split; [done|]. split; [done|]. split; [done|].
  assert (Hs := ao_size _ _ _ _ _ _ Ha). assert (0 ≤ size < 2 ^ 56) as Hsize by
    (change MESSAGE_TYPE_MASK with (2 ^ 56 - 1) in Hs; lia).
  unfold m, message_sz. cbn [sz]. change MESSAGE_TYPE_SHIFT with 56.
  change MESSAGE_TYPE_MASK with (Z.ones 56). split.
  - rewrite Z.shiftr_lor, Z.shiftr_shiftl_l by lia. rewrite Z.sub_diag, Z.shiftl_0_r.
    rewrite Z.shiftr_div_pow2, Z.div_small by lia. apply Z.lor_0_l.
  - rewrite Z.land_lor_distr_l, !Z.land_ones, (Z.mod_small size) by lia.
    rewrite Z.shiftl_mul_pow2, Z.mod_mul by lia. apply Z.lor_0_r.
Qed.

Lemma demo_args : args_ok demo_node 1 0x20009 0 3 2.
Proof.
  split.
  - intros _. split; [done|]. by exists demo_ctx.
  - intros _. exists [104; 105]. split; [done|]. cbn. lia.
  - vm_compute. split; discriminate.
  - lia.
Qed.

Lemma skynet_send_delivers_witness :
  ∃ w', @skynet_send demo_services 1 0 demo_handle 0x20009 0 3 2 demo_node =
      Ok (1, set_mq w' (prepared 1 0x20009 3 2 demo_node)) ∧
    refines w' (a_push demo_world 2 (AQ demo_handle false true [])
                  (Message demo_handle 1 4 (message_sz 0x20009 2))) ∧
    n_mem (prepared 1 0x20009 3 2 demo_node) !! 4 = Some (Bytes [104; 105; 0]).
Proof.
  destruct (@skynet_send_delivers demo_services demo_node demo_world demo_refs 1 0 demo_handle
    demo_handle 0x20009 0 3 2 1 demo_ctx (AQ demo_handle false true []) demo_ok demo_args
    ltac:(reflexivity) ltac:(reflexivity) ltac:(discriminate) ltac:(reflexivity) demo_service)
    as (w' & Hrun & Hw & _).
  exists w'. split; [exact Hrun|]. split; [exact Hw|reflexivity].
Defined.

(** C12. Sending to a local handle nobody has: the call returns -1, no queue changes, and
    no memory is left behind: a private copy is freed again, and a buffer the caller gave
    away is freed. *)
Theorem skynet_send_unknown `{!Services} n a R context src from destination type sess dat size :
  node_ok n a R → args_ok n context type sess dat size → sender n context src = Some from →
  0 < destination → G_HARBOR (n_glob n) ≠ 0xffffffff → is_local n destination = true →
  no_service n destination → (dat ≠ 0 → is_Some (n_mem n !! dat)) →
  ∃ n', skynet_send context src destination type sess dat size n = Ok (-1, n') ∧
    n_mq n' = n_mq n ∧ n_handles n' = n_handles n ∧
    n_mem n' = (if copies type dat then n_mem n else delete dat (n_mem n)).
Proof.
  intros Hn Ha Hfrom Hd Hb Hl Hno Hdat. eexists. split.
  { by apply (send_unknown_lemma n a R context src from). }
  assert (n_mem n !! 0 = None) as H0.
  { destruct (n_mem n !! 0) eqn:E; [|done]. apply (nk_mem _ _ _ Hn) in E. lia. }
  assert (n_mq (after_session context type n) = n_mq n ∧
    n_handles (after_session context type n) = n_handles n ∧
    n_mem (after_session context type n) = n_mem n) as (E1 & E2 & E3).
  { unfold after_session. destruct (allocs type); [|done]. by destruct (n_ctx n !! context). }
  cbv zeta. destruct (copies type dat); [done|].
  destruct (Z.eqb_spec dat 0) as [->|]; [|done]. by rewrite delete_id.
Qed.

Lemma skynet_send_unknown_witness :
  ∃ n', @skynet_send demo_services 1 0 0x1000002 0x20009 0 3 2 demo_node = Ok (-1, n') ∧
    n_mem n' = {[3 := Bytes [104; 105]]}.
Proof.
  assert (Hno : no_service demo_node 0x1000002).
  { intros c (_ & HH & _). unfold skynet_context_handle in HH.
    destruct (n_ctx demo_node !! c) as [y|] eqn:E; [|done].
    assert (n_ctx demo_node = {[1 := demo_ctx]}) as Ec by (vm_compute; reflexivity).
    rewrite Ec, lookup_singleton_Some in E. destruct E as [<- <-]. discriminate HH. }
  destruct (@skynet_send_unknown demo_services demo_node demo_world demo_refs 1 0 demo_handle
    0x1000002 0x20009 0 3 2 demo_ok demo_args ltac:(reflexivity) ltac:(reflexivity)
    ltac:(discriminate) ltac:(reflexivity) Hno ltac:(intros _; by eexists))
    as (n' & Hrun & _ & _ & Hm).
  exists n'. split; [exact Hrun|]. rewrite Hm. reflexivity.
Defined.

(** Sending to handle 0 succeeds although nothing is sent, and the private copy of
    the payload is never freed: it stays allocated at an address no message refers to
    and no caller knows. *)
Theorem send_to_zero_leaks `{!Services} n a R context src from type sess dat size :
  node_ok n a R → args_ok n context type sess dat size → sender n context src = Some from →
  copies type dat = true →
  ∃ n', skynet_send context src 0 type sess dat size n =
      Ok (new_session n context type sess, n') ∧
    n_mq n' = n_mq n ∧ n_mem n !! n_brk n = None ∧
    n_mem n' = <[n_brk n := Bytes (payload n dat size)]> (n_mem n).
Proof.
  intros Hn Ha Hfrom Hc. eexists. split; [by apply (send_nowhere_lemma n context src from)|].
  destruct (prepared_parts context type dat size n) as (_ & -> & _). split; [done|]. split.
  - destruct (n_mem n !! n_brk n) eqn:E; [|done]. apply (nk_mem _ _ _ Hn) in E. lia.
  - unfold prepared, after_copy. rewrite Hc, after_session_brk. cbn. unfold payload.
    assert (n_mem (after_session context type n) = n_mem n) as ->; [|done].
    unfold after_session. destruct (allocs type); [|done]. by destruct (n_ctx n !! context).
Qed.

Lemma send_to_zero_leaks_witness :
  ∃ n', @skynet_send demo_services 1 0 0 0x20009 0 3 2 demo_node = Ok (1, n') ∧
    n_mem n' = <[4 := Bytes [104; 105; 0]]> {[3 := Bytes [104; 105]]}.
Proof.
  destruct (@send_to_zero_leaks demo_services demo_node demo_world demo_refs 1 0 demo_handle
    0x20009 0 3 2 demo_ok demo_args ltac:(reflexivity) ltac:(reflexivity)) as (n' & Hrun & _ & _ & Hm).
  exists n'. split; [exact Hrun|exact Hm].
Defined.

(** C14. Retiring the handle of a service removes it from the table at once, so that no
    later send finds it.  The context is freed with its last reference: as long as holders
    are left it lives, with one reference less for each that has let go, and when the last
    of them has let go - at once, when there was none - it is gone, its queue is marked for
    release and handed to the workers, and the node is well formed in between and at the end. *)
Theorem retire_ends_service `{!Services} n a R h c x aq :
  node_ok n a R → registered (skynet_context_handle n) (n_handles n) h c →
  n_ctx n !! c = Some x → a_queues a !! c_queue x = Some aq → 0 ≤ R c → quiet_release n x →
  ∃ n', skynet_handle_retire h n = Ok (1, n') ∧
    (∀ msg, skynet_context_push h msg n' = Ok (-1, n')) ∧
    (∀ k, 0 ≤ k < R c → ∃ nk, releases (Z.to_nat k) c n' = Ok (replicate (Z.to_nat k) c, nk) ∧
       n_ctx nk = <[c := set_ref (R c - k) x]> (n_ctx n) ∧ node_ok nk a (plus_ref R c (R c - k))) ∧
    ∃ nf l, releases (Z.to_nat (R c)) c n' = Ok (l, nf) ∧ (0 < R c → last l = Some 0) ∧
      n_ctx nf = delete c (n_ctx n) ∧ node_ok nf (a_mark a (c_queue x) aq) (plus_ref R c 0).
Proof.
  intros Hn Hr Hx Hq HR Hquiet.
  destruct (retire_node n a R h c x aq Hn Hr Hx Hq HR (λ _, Hquiet)) as (n' & Hrun & Hno & Hmod & Hrest).
  exists n'. split; [done|]. destruct (Z.eqb_spec (R c) 0) as [E0|Hpos]; destruct Hrest as (Ec & Hok & Hsl).
  - split; [intros msg; by eapply push_unknown|]. split; [lia|]. exists n', []. rewrite E0. split; [done|]. split; [lia|].
    split; [done|]. eapply node_ok_ext; [|exact Hok]. intros k. unfold plus_ref. case_decide; by subst.
  - split; [intros msg; by eapply push_unknown|]. set (x1 := set_ref (c_ref x - 1) x) in *.
    assert (Hx1 : n_ctx n' !! c = Some x1) by (rewrite Ec; apply lookup_insert_eq).
    assert (Eref : c_ref x1 = R c) by (rewrite (co_count _ _ _ _ _ (nk_ctx _ _ _ Hok _ _ Hx1)), decide_False by done; lia).
    assert (Hshared : ∀ k, 0 ≤ k < R c → ∃ nk, releases (Z.to_nat k) c n' = Ok (replicate (Z.to_nat k) c, nk) ∧
      n_ctx nk = <[c := set_ref (R c - k) x]> (n_ctx n) ∧ node_ok nk a (plus_ref R c (R c - k)) ∧
      n_modules nk = n_modules n ∧ c ∉ slot (n_handles nk)).
    { intros k Hk. destruct (releases_shared (Z.to_nat k) c n' a R x1 Hok Hx1 ltac:(lia)) as (nk & Ek & Eck & Hokk & Emk & Ehk).
      exists nk. rewrite Z2Nat.id in Eck, Hokk by lia. split; [exact Ek|]. split; [|split; [exact Hokk|split; [congruence|by rewrite Ehk]]].
      rewrite Eck, Ec, insert_insert_eq, Eref. done. }
    split; [intros k Hk; destruct (Hshared k Hk) as (nk & ? & ? & ? & _); by exists nk|].
    destruct (Hshared (R c - 1) ltac:(lia)) as (nk & Ek & Eck & Hokk & Emk & Hslk).
    replace (R c - (R c - 1)) with 1 in Eck, Hokk by lia.
    destruct (release_last nk a _ c (set_ref 1 x) aq Hokk) as (nf & Ef & Hokf & Ecf & _);
      [rewrite Eck; apply lookup_insert_eq|done|done|apply plus_ref_same|intros n2 Hm; apply Hquiet; congruence|].
    exists nf, (replicate (Z.to_nat (R c - 1)) c ++ [0]). split; [|split; [|split]].
    + replace (Z.to_nat (R c)) with (Z.to_nat (R c - 1) + 1)%nat by lia. rewrite (releases_app _ 1), (sbind_ok _ _ _ _ _ Ek).
      cbn [releases]. unfold mbind, SM_bind. by rewrite Ef.
    + intros _. apply last_snoc.
    + by rewrite Ecf, Eck, delete_insert_eq.
    + eapply node_ok_ext; [|exact Hokf]. intros k. unfold plus_ref. by case_decide.
Qed.

(** The demonstration service when its only holder has let go. *)
Definition unheld_node : node := set_ctxs {[1 := set_ref 1 demo_ctx]} demo_node.

Lemma unheld_ok : node_ok unheld_node demo_world no_refs.
Proof.
  pose proof (node_ok_release demo_node demo_world demo_refs 1 demo_ctx demo_ok (sv_ctx _ _ _ _ _ _ demo_service) ltac:(reflexivity)) as H.
  assert (set_ctxs (<[1 := set_ref (c_ref demo_ctx - 1) demo_ctx]> (n_ctx demo_node)) demo_node = unheld_node) as <- by (vm_compute; reflexivity).
  eapply node_ok_ext; [|exact H]. intros k. unfold demo_refs, plus_ref, no_refs. cbn. by repeat case_decide.
Qed.

(** With one holder, who lets go after the handle is retired; and with none. *)
Lemma retire_ends_service_witness :
  (∃ n' nf, @skynet_handle_retire demo_services demo_handle demo_node = Ok (1, n') ∧
    n_ctx n' !! 1 = Some (set_ref 1 demo_ctx) ∧
    @skynet_context_push demo_services demo_handle (Message 0 0 0 0) n' = Ok (-1, n') ∧
    @releases demo_services 1 1 n' = Ok ([0], nf) ∧ n_ctx nf !! 1 = None ∧
    node_ok nf (a_mark demo_world 2 (AQ demo_handle false true [])) (plus_ref demo_refs 1 0)) ∧
  ∃ n', @skynet_handle_retire demo_services demo_handle unheld_node = Ok (1, n') ∧ n_ctx n' = ∅.
Proof.
  split.
  - destruct (@retire_ends_service demo_services demo_node demo_world demo_refs demo_handle 1
      demo_ctx (AQ demo_handle false true []) demo_ok (sv_reg _ _ _ _ _ _ demo_service)
      (sv_ctx _ _ _ _ _ _ demo_service) (sv_queue _ _ _ _ _ _ demo_service)
      ltac:(discriminate) ltac:(intros n' Hm; unfold skynet_module_instance_release, ldmod; sm; rewrite Hm; reflexivity))
      as (n' & Hrun & Hpush & Hheld & nf & l & Hrel & Hlast & Hc & Hok).
    destruct (Hheld 0 ltac:(by split)) as (n0 & E0 & Ec0 & _). injection E0 as ->.
    exists n0, nf. split; [exact Hrun|]. split; [rewrite Ec0; reflexivity|]. split; [apply Hpush|].
    split; [|split; [rewrite Hc; reflexivity|exact Hok]].
    change (Z.to_nat (demo_refs 1)) with 1%nat in Hrel. specialize (Hlast eq_refl).
    cbn [releases] in Hrel |- *. destruct (@skynet_context_release demo_services 1 n0) as [[r n1]|] eqn:Er; [|unfold mbind, SM_bind in Hrel; rewrite Er in Hrel; discriminate Hrel].
    rewrite (sbind_ok _ _ _ _ _ Er) in Hrel |- *. injection Hrel as <- <-. cbn in Hlast. injection Hlast as ->. reflexivity.
  - assert (Hreg : registered (skynet_context_handle unheld_node) (n_handles unheld_node) demo_handle 1).
    { destruct (sv_reg _ _ _ _ _ _ demo_service) as (H1 & H2 & H3). split; [done|]. split; [vm_compute; reflexivity|exact H3]. }
    destruct (@retire_ends_service demo_services unheld_node demo_world no_refs demo_handle 1
      (set_ref 1 demo_ctx) (AQ demo_handle false true []) unheld_ok Hreg ltac:(reflexivity)
      (sv_queue _ _ _ _ _ _ demo_service) ltac:(discriminate)
      ltac:(intros n' Hm; unfold skynet_module_instance_release, ldmod; sm; rewrite Hm; reflexivity))
      as (n' & Hrun & _ & _ & nf & l & Hrel & _ & Hc & _).
    exists n'. split; [exact Hrun|]. injection Hrel as _ ->. rewrite Hc. vm_compute. reflexivity.
Defined.

(** C15. Launching a service whose module is found and whose initialisation succeeds
    returns a new context with exactly one reference (the handle table's), marked
    initialised, registered under a handle nobody had, its queue waiting for a worker. *)
Theorem context_new_launches `{!Services} dlopen dlsym fuel nm param n n0 a R md inst :
  node_ok n0 a R → room a 1 → query_module nm dlopen dlsym n = Ok (md, n0) → md ≠ 0 →
  skynet_module_instance_create md n0 = Ok (inst, n0) → inst ≠ 0 →
  (slot_size (n_handles n0) < 2 ^ 24 ∨ 0 ∈ slot (n_handles n0)) →
  (∀ h, init_contract R (n_modules n0) md inst (n_brk n0) h (n_brk n0 + 1) param) →
  Z.of_nat (length nm) + Z.of_nat (length (default [] param)) < 2 ^ 29 →
  ∃ n' a' h x, skynet_context_new dlopen dlsym fuel nm param n = Ok (n_brk n0, n') ∧
    node_ok n' a' (plus_ref R (n_brk n0) 0) ∧ no_service n0 h ∧
    registered (skynet_context_handle n') (n_handles n') h (n_brk n0) ∧
    n_ctx n' !! n_brk n0 = Some x ∧ c_ref x = 1 ∧ c_init x = true ∧ c_handle x = h ∧
    c_queue x ∈ a_run a'.
Proof.
  intros Hn Hroom0 Hq Hmd Hc Hinst Hcap Hinit Hlen.
  destruct (enter_context_lemma n0 a R inst md Hn Hcap)
    as (h & n1 & Hent & Hn1 & Hno & _ & Hr1 & Hctx1 & _ & Hmods & _ & Hrun1 & _).
  assert (room (a_create a (n_brk n0 + 1) h) 1) as Hroom1.
  { intros r ar. cbn. rewrite lookup_insert. case_decide; [intros [= <-]; cbn; lia|apply Hroom0]. }
  destruct (Hinit h n1 _ _ (AQ h false true []) Hmods Hn1 Hroom1
    ltac:(rewrite Hctx1; apply lookup_insert_eq) eq_refl eq_refl
    ltac:(by destruct Hr1 as (_ & _ & ?)) (lookup_insert_eq _ _ _) eq_refl Hrun1)
    as (n2 & a2 & x2 & aq2 & Hi & Hn2 & Hroom & Hx2 & Hq2 & Hh2 & Hsl2 & Haq2 & Hg2 & Hrun2).
  destruct (launch_success_lemma n2 a2 R nm param (n_brk n0) x2 aq2 Hn2 Hroom Hx2 Hsl2)
    as (n' & a' & Hl & Hok & Hrun' & Hctx' & Hh'); try congruence.
  rewrite Hq2 in *.
  exists n', a', h, (set_init true (set_ref 1 x2)).
  split; [by rewrite (context_new_steps dlopen dlsym fuel nm param n n0 md inst (n_brk n0) h
                        (n_brk n0 + 1) n1 n2)|].
  split; [done|]. split; [done|].
  assert (n_ctx n' !! n_brk n0 = Some (set_init true (set_ref 1 x2))) as Hx'
    by (rewrite Hctx'; apply lookup_insert_eq).
  split; [|cbn; by rewrite Hq2]. split; [|split].
  - assert (Hb := nk_brk _ _ _ Hn). lia.
  - unfold skynet_context_handle. rewrite Hx'. cbn. by rewrite Hh2.
  - by rewrite Hh'.
Qed.

(** The init function of the demonstration module sets its callback. *)
Lemma demo_init_contract h :
  @init_contract demo_services no_refs (n_modules boot_node) 1 (-1) 1 h 2 None.
Proof.
  intros n1 a1 x1 aq1 Hm Hn Hroom Hx Hq Hh Hsl Haq Hg Hrun.
  exists (set_ctxs (<[1 := set_callback 5 6 x1]> (n_ctx n1)) n1), a1, (set_callback 5 6 x1), aq1.
  split.
  { unfold skynet_module_instance_init.
    assert (ldmod 1 n1 = Ok (demo_module, n1)) as E by (unfold ldmod; by rewrite Hm).
    rewrite (sbind_ok _ _ _ _ _ E). cbn [sv_init demo_services].
    unfold skynet_callback, ldctx, stctx. sm. by rewrite Hx. }
  split; [by apply (node_ok_ctx _ _ _ _ x1)|]. split; [done|].
  split; [apply lookup_insert_eq|]. done.
Qed.

Lemma context_new_launches_witness :
  ∃ n' a' h x,
    @skynet_context_new demo_services (λ _, 0) (λ _ _, 0) 1 (str "echo") None boot_node = Ok (1, n') ∧
    node_ok n' a' (plus_ref no_refs 1 0) ∧
    registered (skynet_context_handle n') (n_handles n') h 1 ∧
    n_ctx n' !! 1 = Some x ∧ c_ref x = 1.
Proof.
  destruct (@context_new_launches demo_services (λ _, 0) (λ _ _, 0) 1 (str "echo") None boot_node
    boot_node (AW ∅ []) no_refs 1 (-1) boot_ok) as (n' & a' & h & x & Hrun & Hok & _ & Hr & Hx & Href & _).
  - intros r ar Hr. discriminate Hr.
  - vm_compute. reflexivity.
  - discriminate.
  - vm_compute. reflexivity.
  - discriminate.
  - left. reflexivity.
  - intros h. exact (demo_init_contract h).
  - reflexivity.
  - exists n', a', h, x. split; [exact Hrun|]. split; [exact Hok|]. split; [exact Hr|].
    split; [exact Hx|exact Href].
Defined.

(** ** Sessions *)

(** [k] sessions allocated one after the other. *)
Fixpoint new_sessions (k : nat) (c : Z) : SM node (list Z) :=
  match k with
  | O => mret []
  | S k => s ← skynet_context_newsession c; l ← new_sessions k c; mret (s :: l)
  end.

Lemma new_sessions_lemma k : ∀ c n x,
  n_ctx n !! c = Some x → 0 ≤ c_session_id x → c_session_id x + Z.of_nat k ≤ INT_MAX →
  ∃ n', new_sessions k c n = Ok (map (λ i, c_session_id x + 1 + Z.of_nat i) (seq 0 k), n') ∧
    ∃ x', n_ctx n' !! c = Some x' ∧ c_session_id x' = c_session_id x + Z.of_nat k.
Proof.
  induction k as [|k IH]; intros c n x Hx Hs Hk; cbn [new_sessions].
  { exists n. split; [done|]. exists x. split; [done|lia]. }
  rewrite (sbind_ok _ _ _ _ _ (newsession_lemma c n x Hx ltac:(split; unfold INT_MIN in *; lia))).
  unfold next_session. destruct (Z.leb_spec (c_session_id x + 1) 0); [lia|].
  set (x1 := set_session (c_session_id x + 1) x).
  destruct (IH c (set_ctxs (<[c := x1]> (n_ctx n)) n) x1) as (n' & Hl & x' & Hx' & Es);
    [apply lookup_insert_eq|cbn; lia|cbn; lia|].
  rewrite (sbind_ok _ _ _ _ _ Hl). exists n'. split; [|exists x'; split; [done|cbn in Es; lia]].
  cbn [seq map]. rewrite Z.add_0_r, <- seq_shift, map_map.
  unfold mret, SM_ret. do 3 f_equal. apply map_ext. intros i. cbn. lia.
Qed.

(** The sessions a context hands out are positive and pairwise different, until the last
    positive [int]; behind it the increment overflows: the test of the sign comes too late. *)
Theorem sessions_positive_distinct k c n x :
  n_ctx n !! c = Some x → 0 ≤ c_session_id x → c_session_id x + Z.of_nat k ≤ INT_MAX →
  ∃ l n', new_sessions k c n = Ok (l, n') ∧ length l = k ∧ (∀ s, s ∈ l → 0 < s ≤ INT_MAX) ∧ NoDup l ∧
    (c_session_id x + Z.of_nat k = INT_MAX → skynet_context_newsession c n' = Fault IntOverflow).
Proof.
  intros Hx Hs Hk. destruct (new_sessions_lemma k c n x Hx Hs Hk) as (n' & Hl & x' & Hx' & Es).
  eexists _, n'. split; [exact Hl|]. split; [by rewrite length_map, length_seq|]. split; [|split].
  - intros s (i & -> & Hi)%list_elem_of_fmap. apply list_elem_of_In, in_seq in Hi. lia.
  - apply NoDup_fmap_2; [|apply NoDup_seq]. intros i j. lia.
  - intros Emax. apply (newsession_overflow c n' x' Hx'). lia.
Qed.

Lemma sessions_positive_distinct_witness :
  ∃ l n', new_sessions 3 1 demo_node = Ok (l, n') ∧ length l = 3%nat ∧
    (∀ s, s ∈ l → 0 < s ≤ INT_MAX).
Proof.
  destruct (sessions_positive_distinct 3 1 demo_node demo_ctx ltac:(reflexivity) ltac:(cbn; lia) ltac:(unfold INT_MAX; cbn; lia))
    as (l & n' & Hl & Hlen & Hpos & _).
  exists l, n'. split; [exact Hl|]. split; [exact Hlen|exact Hpos].
Defined.

(** ** Handles as text *)

Definition hex_digit (d : Z) : Z := if d <? 10 then 48 + d else 55 + d.

Lemma hex_digit_value d : 0 ≤ d < 16 → digit_value (hex_digit d) = d.
Proof.
  intros Hd. unfold digit_value, hex_digit.
  destruct (Z.ltb_spec d 10).
  - destruct (Z.leb_spec 48 (48 + d)), (Z.leb_spec (48 + d) 57); cbn; lia.
  - destruct (Z.leb_spec 48 (55 + d)), (Z.leb_spec (55 + d) 57); cbn; try lia;
    destruct (Z.leb_spec 97 (55 + d)), (Z.leb_spec (55 + d) 122); cbn; try lia;
    destruct (Z.leb_spec 65 (55 + d)), (Z.leb_spec (55 + d) 90); cbn; lia.
Qed.

Lemma hex_digit_plain d : 0 ≤ d < 16 →
  is_space (hex_digit d) = false ∧ hex_digit d ≠ 45 ∧ hex_digit d ≠ 43 ∧
  hex_digit d ≠ 120 ∧ hex_digit d ≠ 88.
Proof.
  intros Hd. unfold hex_digit, is_space. destruct (Z.ltb_spec d 10).
  - destruct (Z.eqb_spec (48 + d) 32), (Z.leb_spec 9 (48 + d)), (Z.leb_spec (48 + d) 13);
      cbn; repeat split; lia.
  - destruct (Z.eqb_spec (55 + d) 32), (Z.leb_spec 9 (55 + d)), (Z.leb_spec (55 + d) 13);
      cbn; repeat split; lia.
Qed.

Lemma parse_sign_plain c s : is_space c = false → c ≠ 45 → c ≠ 43 → parse_sign (c :: s) = (false, c :: s).
Proof.
  intros Hs H1 H2. unfold parse_sign. cbn [skip_spaces]. rewrite Hs.
  destruct c as [|p|p]; [done| |done]. do 6 (destruct p as [p|p|]; try done).
Qed.

Lemma strtoul_hex_digits l :
  Forall (λ d, 0 ≤ d < 16) l → l ≠ [] →
  fold_left (λ acc d, acc * 16 + d) l 0 < 2 ^ 64 →
  strtoul (map hex_digit l) 16 = fold_left (λ acc d, acc * 16 + d) l 0.
Proof.
  intros Hl Hne Hmax. unfold strtoul.
  assert (parse_sign (map hex_digit l) = (false, map hex_digit l)) as ->.
  { destruct Hl as [|d l Hd Hl]; [done|]. cbn.
    destruct (hex_digit_plain d Hd) as (? & ? & ? & _). by apply parse_sign_plain. }
  unfold parse_magnitude. cbn [Z.eqb Pos.eqb].
  rewrite skip_0x_none.
  2,3: intros Hin; apply list_elem_of_fmap in Hin as (d & E & Hd);
       eapply Forall_elem in Hl; [|exact Hd]; destruct (hex_digit_plain d Hl) as (_ & _ & _ & ? & ?);
       congruence.
  cbn [default from_option].
  assert (∀ acc, parse_digits 16 acc (map hex_digit l) = fold_left (λ acc d, acc * 16 + d) l acc) as E.
  { clear Hne Hmax. induction Hl as [|d l Hd Hl IH]; intros acc; [done|]. cbn [map parse_digits fold_left].
    rewrite hex_digit_value by done. destruct (Z.ltb_spec d 16); [|lia]. apply IH. }
  rewrite E. unfold ULONG_MAX. destruct (Z.gtb_spec (fold_left (λ acc d, acc * 16 + d) l 0) (2 ^ 64 - 1));
    [lia|done].
Qed.

Definition nibbles (id : Z) : list Z :=
  map (λ i, Z.land (Z.shiftr id ((7 - i) * 4)) 0xf) [0; 1; 2; 3; 4; 5; 6; 7].

Lemma nibbles_ok id : 0 ≤ id < 2 ^ 32 →
  Forall (λ d, 0 ≤ d < 16) (nibbles id) ∧ fold_left (λ acc d, acc * 16 + d) (nibbles id) 0 = id.
Proof.
  intros Hid.
  assert (∀ k, 0 ≤ k → Z.land (Z.shiftr id k) 0xf = (id / 2 ^ k) mod 16) as E.
  { intros k Hk. change 0xf with (Z.ones 4). by rewrite Z.land_ones, Z.shiftr_div_pow2 by lia. }
  split.
  - apply Forall_fmap. repeat constructor; unfold compose; rewrite E by lia; apply Z.mod_pos_bound; lia.
  - unfold nibbles. cbn [map fold_left]. rewrite !E by lia.
    change ((7 - 0) * 4) with 28. change ((7 - 1) * 4) with 24. change ((7 - 2) * 4) with 20.
    change ((7 - 3) * 4) with 16. change ((7 - 4) * 4) with 12. change ((7 - 5) * 4) with 8.
    change ((7 - 6) * 4) with 4. change ((7 - 7) * 4) with 0. rewrite Z.pow_0_r, Z.div_1_r.
    assert (∀ k k', 0 < k → k' = k * 16 → id / k' = (id / k) / 16) as D
      by (intros k k' Hk ->; by rewrite Z.div_div by lia).
    rewrite (D (2 ^ 24) (2 ^ 28)), (D (2 ^ 20) (2 ^ 24)), (D (2 ^ 16) (2 ^ 20)),
      (D (2 ^ 12) (2 ^ 16)), (D (2 ^ 8) (2 ^ 12)), (D (2 ^ 4) (2 ^ 8)) by lia.
    change (2 ^ 4) with 16. Z.div_mod_to_equations. lia.
Qed.

(** A handle printed by the runtime, as [:%x] (REG, QUERY, MONITOR) or by the
    hand-written hexadecimal conversion of LAUNCH, is read back as the same handle by the
    commands that take one and by name queries. *)
Theorem handle_text_roundtrip `{!Services} (context h : Z) (n : node) :
  0 ≤ h < 2 ^ 32 →
  tohandle context (58 :: print_x h) n = Ok (h, n) ∧
  tohandle context (id_to_hex h) n = Ok (h, n) ∧
  skynet_queryname context (58 :: print_x h) n = Ok (h, n) ∧
  skynet_queryname context (id_to_hex h) n = Ok (h, n).
Proof.
  intros Hh. destruct (nibbles_ok h Hh) as [Hf Hv].
  assert (strtoul (print_x h) 16 = h) as E1 by (apply strtoul_print_x; lia).
  assert (strtoul (tl (id_to_hex h)) 16 = h) as E2.
  { change (tl (id_to_hex h)) with (map hex_digit (nibbles h)).
    rewrite strtoul_hex_digits; [done|done|done|lia]. }
  unfold tohandle, skynet_queryname. change (char0 (id_to_hex h)) with 58.
  cbn [char0 hd tl Z.eqb Pos.eqb]. rewrite E1, E2, u32_small by done. done.
Qed.

Lemma handle_text_roundtrip_witness :
  @tohandle demo_services 1 (str ":1000001") demo_node = Ok (demo_handle, demo_node) ∧
  @tohandle demo_services 1 (str ":01000001") demo_node = Ok (demo_handle, demo_node).
Proof.
  destruct (@handle_text_roundtrip demo_services 1 demo_handle demo_node) as (H1 & H2 & _).
  - unfold demo_handle. lia.
  - split; [exact H1|exact H2].
Defined.

(** ** Logging a socket event *)

(** A service whose log is on and that is sent a socket event with text makes
    the dispatcher read past the end of the message: [forward_message] copies the text
    without its terminator, and the log prints it with [%*s], a minimum width, so the
    read only stops at a zero byte that is not there. *)
Theorem log_socket_overreads n p f type sid ud text size :
  n_mem n !! p = Some (SocketMsg (SocketMessage type sid ud 0 text)) → cstr_ok text →
  skynet_log_output f 0 PTYPE_SOCKET 0 p size n = Fault OutOfBounds.
Proof.
  intros Hp Ht. unfold skynet_log_output, log_socket. rewrite Z.eqb_refl, gets_bind. cbv [id].
  rewrite Hp. unfold fprintf. rewrite modify_bind. cbn [sm_buffer Z.eqb sm_padding].
  assert (buffer_string text = Fault OutOfBounds) as E.
  { clear Hp. induction Ht as [|c text Hc Ht IH]; [done|]. cbn [buffer_string].
    destruct (Z.eqb_spec c 0); [lia|]. by rewrite IH. }
  unfold lift. rewrite E. done.
Qed.

(** The message [forward_message] allocates for an accepted connection. *)
Definition accept_event : socket_message := SocketResult 9 demo_handle 10 0 (Some (str "127.0.0.1:80")).

Lemma log_socket_overreads_witness :
  ∃ n', @forward_message demo_services SKYNET_SOCKET_TYPE_ACCEPT true accept_event demo_node = Ok ((), n') ∧
    skynet_log_output 8 0 PTYPE_SOCKET 0 4 36 n' = Fault OutOfBounds.
Proof.
  assert (∃ n', @forward_message demo_services SKYNET_SOCKET_TYPE_ACCEPT true accept_event demo_node
    = Ok ((), n') ∧ n_mem n' !! 4 = Some (SocketMsg (SocketMessage 4 9 10 0 (str "127.0.0.1:80"))))
    as (n' & Hrun & Hm).
  { eexists. split; [vm_compute; reflexivity|vm_compute; reflexivity]. }
  exists n'. split; [exact Hrun|].
  apply (log_socket_overreads n' 4 8 4 9 10 (str "127.0.0.1:80") 36 Hm).
  repeat constructor.
Defined.
