(* ===== verification/Frames.v ===== *)
(** Byte buffers and the length-prefixed framing.

    Two components cut a byte stream into packages of a 16 bit big-endian length and
    that many bytes: the package service ([src/service/package.c]) and netpack
    ([lualib-src/lua-netpack.c]).  This file has the format as a specification: the
    complete packages of a stream and the bytes left over ([frames]), how a stream that
    arrives in pieces parses ([frames_app]) and that a sequence of packages parses back
    ([wire_frames]); and the buffers of [skynet_malloc] the packages are collected in. *)

From S2P Require Import Prelude.

Open Scope Z_scope.

(** ** Buffers *)

(** A buffer of [skynet_malloc]: a byte is [None] until it is written. *)
Definition buffer : Set := list (option Z).

(** [memcpy] into a buffer at an offset. *)
Fixpoint wr_at (buf : buffer) (i : Z) (l : list Z) : res buffer :=
  match l with
  | [] => Ok buf
  | x :: l => buf ← wr buf i (Some x); wr_at buf (i + 1) l
  end.

Lemma wr_at_over l : ∀ (pre : list Z) (rest : buffer),
  (length l ≤ length rest)%nat →
  wr_at (map Some pre ++ rest) (Z.of_nat (length pre)) l = Ok (map Some (pre ++ l) ++ drop (length l) rest).
Proof.
  induction l as [|x l IH]; intros pre rest Hm; cbn [wr_at length] in *.
  { by rewrite app_nil_r, drop_0. }
  destruct rest as [|y rest]; [cbn in Hm; lia|].
  rewrite wr_ok by (rewrite length_app, length_map; cbn; lia).
  rewrite bind_ok, Nat2Z.id, insert_app_r_alt, length_map, Nat.sub_diag by (rewrite length_map; lia).
  cbn [insert list_insert].
  replace (Z.of_nat (length pre) + 1) with (Z.of_nat (length (pre ++ [x])))
    by (rewrite length_app; cbn; lia).
  replace (map Some pre ++ Some x :: rest) with (map Some (pre ++ [x]) ++ rest)
    by (rewrite map_app, <- app_assoc; done).
  rewrite IH by (cbn in Hm; lia). by rewrite <- (app_assoc pre [x] l).
Qed.

Lemma wr_at_fill l (pre : list Z) m :
  (length l ≤ m)%nat →
  wr_at (map Some pre ++ replicate m None) (Z.of_nat (length pre)) l =
    Ok (map Some (pre ++ l) ++ replicate (m - length l) None).
Proof. intros Hm. rewrite wr_at_over by (by rewrite length_replicate). by rewrite drop_replicate. Qed.

(** A byte shifted to the top of a signed word: the same number modulo 2^32. *)
Lemma i32_top_byte b : 0 ≤ b < 2 ^ 8 → ∃ hi, i32 (Z.shiftl b 24) = Z.shiftl hi 24 ∧ hi mod 2 ^ 8 = b.
Proof.
  intros Hb. rewrite Z.shiftl_mul_pow2 by lia. destruct (Z.ltb_spec b 128).
  - exists b. rewrite Z.shiftl_mul_pow2 by lia. split; [|apply Z.mod_small; lia]. apply i32_small. lia.
  - exists (b - 256). rewrite Z.shiftl_mul_pow2 by lia. split.
    + unfold i32. replace (b * 2 ^ 24 + 2 ^ 31) with ((b - 256) * 2 ^ 24 + 2 ^ 31 + 1 * 2 ^ 32) by lia.
      rewrite Z.mod_add, Z.mod_small by lia. lia.
    + replace b with (b - 256 + 1 * 2 ^ 8) at 2 by lia. rewrite <- (Z.mod_add (b - 256) 1) by lia. apply Z.mod_small. lia.
Qed.

(** The [n] bytes of a block at an offset, the source of a [memcpy]. *)
Definition rd_at (l : list Z) (off n : Z) : res (list Z) :=
  if bool_decide (0 ≤ off ∧ 0 ≤ n ∧ off + n ≤ Z.of_nat (length l)) then
    Ok (take (Z.to_nat n) (drop (Z.to_nat off) l))
  else Fault OutOfBounds.

Lemma rd_at_ok l off n : 0 ≤ off → 0 ≤ n → off + n ≤ Z.of_nat (length l) →
  rd_at l off n = Ok (take (Z.to_nat n) (drop (Z.to_nat off) l)).
Proof. intros. unfold rd_at. by rewrite bool_decide_eq_true_2. Qed.

(** ** The format on the wire *)

(** The complete packages of a byte stream, and the bytes left over. *)
Fixpoint frames_ (fuel : nat) (s : list Z) : list (list Z) * list Z :=
  match fuel with
  | O => ([], s)
  | S fuel =>
      match s with
      | b0 :: b1 :: rest =>
          let n := Z.to_nat (b0 * 256 + b1) in
          if (n <=? length rest)%nat then
            let '(fs, r) := frames_ fuel (drop n rest) in (take n rest :: fs, r)
          else ([], s)
      | _ => ([], s)
      end
  end.

Definition frames (s : list Z) : list (list Z) * list Z := frames_ (S (length s)) s.

Definition byte (b : Z) : Prop := 0 ≤ b < 256.

Lemma frames_fuel fuel : ∀ fuel' s, (length s < fuel)%nat → (length s < fuel')%nat →
  frames_ fuel s = frames_ fuel' s.
Proof.
  induction fuel as [|fuel IH]; intros fuel' s H1 H2; [lia|].
  destruct fuel' as [|fuel']; [lia|]. cbn [frames_].
  destruct s as [|b0 [|b1 rest]]; [done..|]. cbn [length] in *.
  destruct (Nat.leb_spec (Z.to_nat (b0 * 256 + b1)) (length rest)); [|done].
  rewrite (IH fuel'); [done|rewrite length_drop; lia|rewrite length_drop; lia].
Qed.

Lemma frames_short s : (length s < 2)%nat → frames s = ([], s).
Proof. destruct s as [|b0 [|b1 s]]; [done|done|]. cbn. lia. Qed.

Lemma frames_incomplete b0 b1 got : byte b0 → byte b1 →
  Z.of_nat (length got) < b0 * 256 + b1 → frames (b0 :: b1 :: got) = ([], b0 :: b1 :: got).
Proof.
  unfold byte. intros H0 H1 Hlt. unfold frames. cbn [frames_].
  destruct (Nat.leb_spec (Z.to_nat (b0 * 256 + b1)) (length got)); [lia|done].
Qed.

Lemma frames_step fuel b0 b1 rest :
  frames_ (S fuel) (b0 :: b1 :: rest) =
    let n := Z.to_nat (b0 * 256 + b1) in
    if (n <=? length rest)%nat then
      let '(fs, r) := frames_ fuel (drop n rest) in (take n rest :: fs, r)
    else ([], b0 :: b1 :: rest).
Proof. reflexivity. Qed.

Lemma frames_complete b0 b1 f rest : byte b0 → byte b1 →
  Z.of_nat (length f) = b0 * 256 + b1 →
  frames (b0 :: b1 :: f ++ rest) = (f :: (frames rest).1, (frames rest).2).
Proof.
  unfold byte. intros H0 H1 Hn. unfold frames at 1. rewrite frames_step. cbv zeta.
  replace (Z.to_nat (b0 * 256 + b1)) with (length f) by lia. rewrite length_app.
  destruct (Nat.leb_spec (length f) (length f + length rest)); [|lia].
  rewrite drop_app_length, take_app_length. unfold frames.
  rewrite (frames_fuel _ (S (length rest)) rest); [|cbn; rewrite length_app; lia|lia].
  by destruct (frames_ (S (length rest)) rest).
Qed.

#[export] Instance byte_decision x : Decision (byte x).
Proof. unfold byte. apply _. Defined.

(** ** Streams in pieces *)

Lemma frames_cases s :
  Forall byte s → frames s = ([], s) ∨
  ∃ b0 b1 f rest, s = b0 :: b1 :: f ++ rest ∧ byte b0 ∧ byte b1 ∧
    Z.of_nat (length f) = b0 * 256 + b1 ∧
    frames s = (f :: (frames rest).1, (frames rest).2) ∧ Forall byte rest.
Proof.
  intros Hs. destruct s as [|b0 [|b1 rest]]; [by left..|].
  apply Forall_cons in Hs as [H0 Hs]. apply Forall_cons in Hs as [H1 Hs].
  destruct (Z_lt_le_dec (Z.of_nat (length rest)) (b0 * 256 + b1)) as [Hlt|Hge].
  - left. by apply frames_incomplete.
  - right. set (n := Z.to_nat (b0 * 256 + b1)). exists b0, b1, (take n rest), (drop n rest).
    assert (Z.of_nat (length (take n rest)) = b0 * 256 + b1).
    { rewrite length_take_le; unfold byte in *; unfold n; lia. }
    rewrite <- (frames_complete b0 b1 (take n rest) (drop n rest)) by done.
    rewrite take_drop. split; [done|]. split; [done|]. split; [done|]. split; [done|].
    split; [done|]. by apply Forall_drop.
Qed.

(** Parsing a stream in two pieces, keeping the bytes left over in between. *)
Lemma frames_app t n : ∀ s, (length s ≤ n)%nat → Forall byte s → Forall byte t →
  frames (s ++ t) =
    ((frames s).1 ++ (frames ((frames s).2 ++ t)).1, (frames ((frames s).2 ++ t)).2).
Proof.
  induction n as [|n IH]; intros s Hn Hs Ht.
  { destruct s; [|cbn in Hn; lia]. change (frames []) with (@nil (list Z), @nil Z).
    cbn [fst snd app]. by destruct (frames t). }
  destruct (frames_cases s Hs) as [->|(b0 & b1 & f & rest & -> & H0 & H1 & Hf & E & Hrest)].
  - cbn [fst snd app]. by destruct (frames (s ++ t)).
  - rewrite E. cbn [fst snd app]. rewrite <- app_assoc, frames_complete by done.
    rewrite IH; [done| |done|done]. cbn in Hn. rewrite length_app in Hn. lia.
Qed.

Lemma frames_bound n : ∀ s, (length s ≤ n)%nat → Forall byte s →
  (2 * length (frames s).1 + length (frames s).2 ≤ length s)%nat.
Proof.
  induction n as [|n IH]; intros s Hn Hs.
  { destruct s; [done|cbn in Hn; lia]. }
  destruct (frames_cases s Hs) as [->|(b0 & b1 & f & rest & -> & H0 & H1 & Hf & E & Hrest)]; [done|].
  rewrite E. cbn [fst snd length] in *. rewrite length_app in *. specialize (IH rest ltac:(lia) Hrest). lia.
Qed.

(** What is left over is incomplete. *)
Lemma frames_rest n : ∀ s, (length s ≤ n)%nat → Forall byte s →
  Forall byte (frames s).2 ∧ frames (frames s).2 = ([], (frames s).2).
Proof.
  induction n as [|n IH]; intros s Hn Hs.
  { destruct s; [done|cbn in Hn; lia]. }
  destruct (frames_cases s Hs) as [E|(b0 & b1 & f & rest & -> & H0 & H1 & Hf & E & Hrest)].
  - by rewrite E.
  - rewrite E. cbn [fst snd length] in *. apply IH; [|done]. rewrite length_app in Hn. lia.
Qed.

(** An incomplete package counts for one package at most. *)
Lemma frames_count r t :
  Forall byte r → Forall byte t → frames r = ([], r) →
  (length (frames (r ++ t)).1 ≤ 1 + length t)%nat.
Proof.
  intros Hr Ht Hinc. assert (Hrt : Forall byte (r ++ t)) by (by apply Forall_app).
  destruct (frames_cases (r ++ t) Hrt) as [->|(b0 & b1 & f & rest & E & H0 & H1 & Hf & Ef & Hrest)];
    [cbn; lia|].
  rewrite Ef. cbn [fst length]. pose proof (frames_bound _ rest (Nat.le_refl _) Hrest).
  assert (length r < 2 + length f)%nat.
  { apply not_ge. intros Hge. pose proof (f_equal (take (2 + length f)) E) as E2.
    rewrite take_app_le in E2 by lia. cbn [Nat.add take] in E2. rewrite take_app_length in E2.
    pose proof (take_drop (2 + length f) r) as Er. cbn [Nat.add] in Er. rewrite E2 in Er.
    rewrite <- Er in Hinc. cbn [app] in Hinc. by rewrite frames_complete in Hinc. }
  apply (f_equal length) in E. cbn in E. rewrite !length_app in E. lia.
Qed.

(** ** Writing packages *)

(** A message as it goes on the wire. *)
Definition wire (msg : list Z) : list Z :=
  Z.shiftr (Z.land (Z.of_nat (length msg)) 0xff00) 8 :: Z.land (Z.of_nat (length msg)) 0xff :: msg.

Definition sendable (msg : list Z) : Prop := Forall byte msg ∧ Z.of_nat (length msg) ≤ 0xffff.

#[export] Instance sendable_decision msg : Decision (sendable msg).
Proof. unfold sendable. apply _. Defined.

Lemma header_value n : 0 ≤ n ≤ 0xffff →
  byte (Z.shiftr (Z.land n 0xff00) 8) ∧ byte (Z.land n 0xff) ∧
  n = Z.shiftr (Z.land n 0xff00) 8 * 256 + Z.land n 0xff.
Proof.
  intros Hn.
  assert (Z.shiftr (Z.land n 0xff00) 8 = n / 256) as ->.
  { rewrite Z.shiftr_land. change (Z.shiftr 0xff00 8) with (Z.ones 8).
    rewrite Z.land_ones, Z.shiftr_div_pow2 by lia. apply Z.mod_small.
    split; [apply Z.div_pos; lia|apply Z.div_lt_upper_bound; lia]. }
  change 0xff with (Z.ones 8). rewrite Z.land_ones by lia. unfold byte. change (2 ^ 8) with 256.
  pose proof (Z.mod_pos_bound n 256). pose proof (Z.div_mod n 256).
  pose proof (Z.div_lt_upper_bound n 256 256). pose proof (Z.div_pos n 256). lia.
Qed.

Lemma wire_frames ms : Forall sendable ms → frames (concat (map wire ms)) = (ms, []).
Proof.
  induction 1 as [|m ms [Hb Hl] _ IH]; [done|]. cbn [map concat]. unfold wire at 1.
  destruct (header_value (Z.of_nat (length m))) as (H0 & H1 & E); [lia|].
  cbn [app]. rewrite frames_complete by done. by rewrite IH.
Qed.
