(* ===== verification/Package.v ===== *)
(** [src/src/service/package.c]: the service that turns the byte stream of a connection
    into packages.

    A package on the wire is a 16 bit big-endian length and that many bytes.  Bytes
    arrive in chunks of any size; complete packages queue up until somebody asks for
    them, and requests queue up until packages arrive.  What the service asks of the
    runtime is recorded in order as a list of actions: the calls of [skynet_send],
    [skynet_error], [skynet_command] and the socket functions, and the allocations and
    frees of package buffers. *)

From S2P Require Import Prelude CString Ring Frames MessageQueue.
From S2P Require Import Node Server.
Open Scope Z_scope.

(** ** State *)

Record response : Set := Response { resp_sz : Z; resp_msg : buffer }.
Record request : Set := Request { req_source : Z; req_session : Z }.

Record queue (A : Type) : Type := Queue {
  q_cap : Z;
  q_sz : Z;
  q_head : Z;
  q_tail : Z;
  q_buffer : list (option A)
}.
Arguments Queue {A}. Arguments q_cap {A}. Arguments q_sz {A}. Arguments q_head {A}.
Arguments q_tail {A}. Arguments q_buffer {A}.

Record package : Type := Package {
  p_manager : Z;
  p_fd : Z;
  p_heartbeat : Z;
  p_recv : Z;
  p_init : Z;
  p_closed : Z;
  p_header_sz : Z;
  p_header : Z * Z;
  p_uncomplete_sz : Z;
  p_uncomplete : response;
  p_request : queue request;
  p_response : queue response
}.

Inductive action : Set :=
| ASend (destination type session : Z) (payload : list Z)
| AReply (destination session : Z) (msg : response)
| AError (text : cstring)
| ACommand (cmd : cstring) (param : option cstring)
| AShutdown (fd : Z)
| ASocketStart (fd : Z)
| ASocketNodelay (fd : Z)
| ASocketSend (fd : Z) (bytes : list Z)
| ACallback
| AAlloc (size : Z)
| AFree (msg : buffer)
| AFreeChunk.

(** The service and what it has done so far. *)
Record pstate : Type := PState { ps : package; acts : list action }.

Definition act (a : action) : SM pstate unit := modify (λ s, PState (ps s) (acts s ++ [a])).
Definition getP : SM pstate package := gets ps.
Definition putP (p : package) : SM pstate unit := modify (λ s, PState p (acts s)).

(** ** Queues *)

Definition queue_init {A} (size : Z) : queue A := Queue 4 size 0 0 (replicate 4 None).

Definition queue_empty {A} (q : queue A) : bool := q_head q =? q_tail q.

(** 1 when the queue is empty, else 0 and the oldest element. *)
Definition queue_pop {A} (q : queue A) : res (Z * option A * queue A) :=
  if q_head q =? q_tail q then Ok (1, None, q)
  else
    v ← rd_init (q_buffer q) (q_head q);
    let head := q_head q + 1 in
    let head := if head >=? q_cap q then 0 else head in
    Ok (0, Some v, Queue (q_cap q) (q_sz q) head (q_tail q) (q_buffer q)).

(** The copy loop: [head] runs along the old ring. *)
Definition grow_step {A} (q : queue A) (i : Z) (st : Z * list (option A))
  : res (Z * list (option A)) :=
  v ← rd (q_buffer q) (fst st);
  tmp ← wr (snd st) i v;
  let head := fst st + 1 in
  Ok (if head >=? q_cap q then 0 else head, tmp).

Definition grow_buffer {A} (q : queue A) (cap : Z) : res (list (option A)) :=
  st ← for_range (Z.to_nat (q_cap q)) 0 (grow_step q) (q_head q, replicate (Z.to_nat cap) None);
  Ok (snd st).

Definition queue_push {A} (q : queue A) (v : A) : res (queue A) :=
  let slot := q_tail q in
  let tail := q_tail q + 1 in
  let tail := if tail >=? q_cap q then 0 else tail in
  if q_head q =? tail then
    _ ← assertb (q_sz q >? 0);
    cap ← int_chk (q_cap q * 2);
    _ ← int_chk (cap * q_sz q);
    tmp ← grow_buffer q cap;
    tmp ← wr tmp (q_cap q - 1) (Some v);
    Ok (Queue cap (q_sz q) 0 (q_cap q) tmp)
  else
    b ← wr (q_buffer q) slot (Some v);
    Ok (Queue (q_cap q) (q_sz q) (q_head q) tail b).

Definition queue_size {A} (q : queue A) : Z :=
  if q_head q >? q_tail q then q_tail q + q_cap q - q_head q else q_tail q - q_head q.

(** ** Field updates *)

Definition set_uncomplete (hsz : Z) (h : Z * Z) (usz : Z) (u : response) (p : package) : package :=
  Package (p_manager p) (p_fd p) (p_heartbeat p) (p_recv p) (p_init p) (p_closed p)
    hsz h usz u (p_request p) (p_response p).
Definition set_queues (rq : queue request) (rs : queue response) (p : package) : package :=
  Package (p_manager p) (p_fd p) (p_heartbeat p) (p_recv p) (p_init p) (p_closed p)
    (p_header_sz p) (p_header p) (p_uncomplete_sz p) (p_uncomplete p) rq rs.
Definition set_flags (hb rc ini cl : Z) (p : package) : package :=
  Package (p_manager p) (p_fd p) hb rc ini cl
    (p_header_sz p) (p_header p) (p_uncomplete_sz p) (p_uncomplete p) (p_request p) (p_response p).
Definition set_owner (manager fd : Z) (p : package) : package :=
  Package manager fd (p_heartbeat p) (p_recv p) (p_init p) (p_closed p)
    (p_header_sz p) (p_header p) (p_uncomplete_sz p) (p_uncomplete p) (p_request p) (p_response p).

(** ** The byte stream *)

(** The header is complete: a buffer for the package. *)
Definition start_package (h : Z * Z) (rest : list Z) : SM pstate (loop (list Z) unit) :=
  p ← getP;
  let sz := fst h * 256 + snd h in
  _ ← act (AAlloc sz);
  _ ← putP (set_uncomplete 0 h sz (Response sz (replicate (Z.to_nat sz) None)) p);
  mret (Continue rest).

(** The second half of a round, with no package being filled. *)
Definition read_header (msg : list Z) : SM pstate (loop (list Z) unit) :=
  p ← getP;
  match msg with
  | [] => mret (Break ())
  | b0 :: rest =>
      if p_header_sz p =? 0 then
        match rest with
        | [] =>
            _ ← putP (set_uncomplete 1 (b0, snd (p_header p)) (p_uncomplete_sz p)
                        (p_uncomplete p) p);
            mret (Break ())
        | b1 :: rest => start_package (b0, b1) rest
        end
      else
        _ ← lift (assertb (p_header_sz p =? 1));
        start_package (fst (p_header p), b0) rest
  end.

(** One round of [for (;;)]: the bytes left, or [Break] when the function returns. *)
Definition message_round (msg : list Z) : SM pstate (loop (list Z) unit) :=
  p ← getP;
  let size := Z.of_nat (length msg) in
  if p_uncomplete_sz p >=? 0 then
    let u := p_uncomplete p in
    let offset := resp_sz u - p_uncomplete_sz p in
    if size >=? p_uncomplete_sz p then
      b ← lift (wr_at (resp_msg u) offset (take (Z.to_nat (p_uncomplete_sz p)) msg));
      let u := Response (resp_sz u) b in
      q ← lift (queue_push (p_response p) u);
      _ ← putP (set_queues (p_request p) q
                  (set_uncomplete (p_header_sz p) (p_header p) (-1) u p));
      read_header (drop (Z.to_nat (p_uncomplete_sz p)) msg)
    else
      b ← lift (wr_at (resp_msg u) offset msg);
      _ ← putP (set_uncomplete (p_header_sz p) (p_header p) (p_uncomplete_sz p - size)
                  (Response (resp_sz u) b) p);
      mret (Break ())
  else read_header msg.

(** Every round consumes at least one byte of [msg] or returns. *)
Definition new_message (msg : list Z) : SM pstate unit :=
  p ← getP;
  recv ← lift (int_chk (p_recv p + 1));
  _ ← putP (set_flags (p_heartbeat p) recv (p_init p) (p_closed p) p);
  iterateM (S (S (length msg))) message_round msg.

(** ** Requests *)

(** Pair requests with packages while both are waiting. *)
Definition response_step (_ : unit) : SM pstate (loop unit unit) :=
  p ← getP;
  if queue_empty (p_request p) then mret (Break ())
  else if queue_empty (p_response p) then mret (Break ())
  else
    '(_, req, rq) ← lift (queue_pop (p_request p));
    '(_, resp, rs) ← lift (queue_pop (p_response p));
    req ← lift (or_fault Uninitialised req);
    resp ← lift (or_fault Uninitialised resp);
    _ ← putP (set_queues rq rs p);
    _ ← act (AReply (req_source req) (req_session req) resp);
    mret (Continue ()).

Definition response_ (fuel : nat) : SM pstate unit := iterateM fuel response_step ().

(** The two loops of [service_exit]: every request is answered with an error, every
    package is dropped. *)
Definition exit_request_step (_ : unit) : SM pstate (loop unit unit) :=
  p ← getP;
  if queue_empty (p_request p) then mret (Break ())
  else
    '(_, req, rq) ← lift (queue_pop (p_request p));
    req ← lift (or_fault Uninitialised req);
    _ ← putP (set_queues rq (p_response p) p);
    _ ← act (ASend (req_source req) PTYPE_ERROR (req_session req) []);
    mret (Continue ()).

Definition exit_response_step (_ : unit) : SM pstate (loop unit unit) :=
  p ← getP;
  if queue_empty (p_response p) then mret (Break ())
  else
    '(_, resp, rs) ← lift (queue_pop (p_response p));
    resp ← lift (or_fault Uninitialised resp);
    _ ← putP (set_queues (p_request p) rs p);
    _ ← act (AFree (resp_msg resp));
    mret (Continue ()).

(** [fuel] bounds the loops over the queues; one more than their length is enough. *)
Definition service_exit (fuel : nat) : SM pstate unit :=
  p ← getP;
  _ ← putP (set_flags (p_heartbeat p) (p_recv p) (p_init p) 1 p);
  _ ← iterateM fuel exit_request_step ();
  _ ← iterateM fuel exit_response_step ();
  p ← getP;
  _ ← act (ASend (p_manager p) PTYPE_TEXT 0 (str "CLOSED"));
  act (ACommand (str "EXIT") None).

Definition report_info (sess src : Z) : SM pstate unit :=
  p ← getP;
  let '(uncomplete, uncomplete_sz) :=
    if negb (p_header_sz p =? 0) then (-1, 0)
    else if p_uncomplete_sz p =? 0 then (0, 0)
    else (p_uncomplete_sz p, resp_sz (p_uncomplete p)) in
  act (ASend src PTYPE_RESPONSE sess
    (str "req=" ++ print_d (queue_size (p_request p)) ++ str " resp=" ++
     print_d (queue_size (p_response p)) ++ str " uncomplete=" ++ print_d uncomplete ++ [47] ++
     print_d uncomplete_sz)).

(** [msg] is the text of the command; reading [msg[0]] of an empty message is out of
    bounds. *)
Definition command (sess src : Z) (msg : list Z) : SM pstate unit :=
  c ← lift (rd msg 0);
  p ← getP;
  if c =? 82 then
    if negb (p_closed p =? 0) then act (ASend src PTYPE_ERROR sess [])
    else if negb (queue_empty (p_response p)) then
      _ ← lift (assertb (queue_empty (p_request p)));
      '(_, resp, rs) ← lift (queue_pop (p_response p));
      resp ← lift (or_fault Uninitialised resp);
      _ ← putP (set_queues (p_request p) rs p);
      act (AReply src sess resp)
    else
      rq ← lift (queue_push (p_request p) (Request src sess));
      putP (set_queues rq (p_response p) p)
  else if c =? 75 then act (AShutdown (p_fd p))
  else if c =? 73 then report_info sess src
  else
    _ ← act (AError (str "Invalid command " ++ msg));
    act (ASend src PTYPE_ERROR sess []).

(** ** Events *)

Definition heartbeat : SM pstate unit :=
  p ← getP;
  if p_recv p =? p_heartbeat p then
    if p_closed p =? 0 then
      _ ← act (AShutdown (p_fd p));
      act (AError (str "timeout " ++ print_d (p_fd p)))
    else mret ()
  else
    _ ← putP (set_flags 0 0 (p_init p) (p_closed p) p);
    act (ACommand (str "TIMEOUT") (Some (str "2400"))).

(** A socket event: its type, connection, and the bytes of a DATA event. *)
Record socket_event : Set := SocketEvent { se_type : Z; se_id : Z; se_data : list Z }.

Definition socket_message_ (fuel : nat) (e : socket_event) : SM pstate unit :=
  p ← getP;
  if se_type e =? SKYNET_SOCKET_TYPE_CONNECT then
    if (p_init p =? 0) && (se_id e =? p_fd p) then
      _ ← act (ASend (p_manager p) PTYPE_TEXT 0 (str "SUCC"));
      putP (set_flags (p_heartbeat p) (p_recv p) 1 (p_closed p) p)
    else mret ()
  else if (se_type e =? SKYNET_SOCKET_TYPE_CLOSE) || (se_type e =? SKYNET_SOCKET_TYPE_ERROR) then
    _ ← (if (p_init p =? 0) && (se_id e =? p_fd p) then
           _ ← act (ASend (p_manager p) PTYPE_TEXT 0 (str "FAIL"));
           putP (set_flags (p_heartbeat p) (p_recv p) 1 (p_closed p) p)
         else mret ());
    if negb (se_id e =? p_fd p) then
      act (AError (str "Invalid fd (" ++ print_d (se_id e) ++ str "), should be (" ++
             print_d (p_fd p) ++ str ")"))
    else _ ← response_ fuel; service_exit fuel
  else if se_type e =? SKYNET_SOCKET_TYPE_DATA then
    _ ← act (AError (str "Recv " ++ print_d (Z.of_nat (length (se_data e))) ++ str " bytes from " ++
               print_d (p_fd p)));
    _ ← new_message (se_data e);
    _ ← act AFreeChunk;
    response_ fuel
  else if se_type e =? SKYNET_SOCKET_TYPE_WARNING then
    act (AError (str "Overload on " ++ print_d (p_fd p)))
  else mret ().

Definition send_out (msg : list Z) : SM pstate unit :=
  p ← getP;
  let sz := Z.of_nat (length msg) in
  if sz >? 0xffff then act (AError (str "package too long (" ++ print_08x (u32 sz) ++ str ")"))
  else
    let p0 := Z.shiftr (Z.land sz 0xff00) 8 in
    let p1 := Z.land sz 0xff in
    _ ← act (ASocketSend (p_fd p) (p0 :: p1 :: msg));
    act (AError (str "Send " ++ print_d sz ++ str " bytes to " ++ print_d (p_fd p))).

(** A message for the service: its payload is text or bytes, or a socket event. *)
Inductive payload_of : Set :=
| PBytes (l : list Z)
| PSocket (e : socket_event).

Definition message_handler (fuel : nat) (type sess src : Z) (msg : payload_of) : SM pstate Z :=
  _ ← (if type =? PTYPE_TEXT then
         match msg with PBytes l => command sess src l | _ => lift (Fault BadPointer) end
       else if type =? PTYPE_CLIENT then
         match msg with PBytes l => send_out l | _ => lift (Fault BadPointer) end
       else if type =? PTYPE_RESPONSE then heartbeat
       else if type =? PTYPE_SOCKET then
         match msg with PSocket e => socket_message_ fuel e | _ => lift (Fault BadPointer) end
       else if type =? PTYPE_ERROR then mret ()
       else if sess >? 0 then act (ASend src PTYPE_ERROR sess [])
       else mret ());
  mret 0.

Definition package_create : package :=
  Package 0 0 (-1) 0 0 0 0 (0, 0) (-1) (Response 0 []) (queue_init 8) (queue_init 16).

Definition package_init (param : option cstring) : SM pstate Z :=
  p ← getP;
  let r1 := scan_number (default [] param) in
  let r2 := '(_, rest) ← r1; scan_number rest in
  let manager := match r1 with Some (m, _) => u32 m | None => p_manager p end in
  let fd := match r2 with Some (f, _) => i32 f | None => p_fd p end in
  _ ← putP (set_owner manager fd p);
  if negb (bool_decide (is_Some r2)) || (manager =? 0) || (fd =? 0) then
    _ ← act (AError (str "Invalid param [" ++ default (str "(null)") param ++ str "]")); mret 1
  else
    _ ← act (ASocketStart fd);
    _ ← act (ASocketNodelay fd);
    _ ← heartbeat;
    _ ← act ACallback;
    mret 0.

(** ** Queues are FIFOs *)

Section queues.
Context {A : Type}.
Implicit Types (q : queue A) (l : list A).

Record queue_repr q l : Prop := {
  qr_ring : ring_repr (q_buffer q) (q_cap q) (q_head q) (q_tail q) l;
  qr_cap : 4 ≤ q_cap q ≤ 2 ^ 26 ∧ ∃ k, 0 ≤ k ∧ q_cap q = 4 * 2 ^ k;
  qr_size : 1 ≤ q_sz q ≤ 16
}.

Lemma queue_init_repr size : 1 ≤ size ≤ 16 → queue_repr (queue_init size) [].
Proof.
  intros Hs. split; cbn; [apply (ring_repr_init 4); lia| |done].
  split; [lia|]. exists 0. lia.
Qed.

Lemma queue_empty_lemma q l : queue_repr q l → queue_empty q = bool_decide (l = []).
Proof.
  intros [Hr _ _]. unfold queue_empty. pose proof (ring_empty_iff _ _ _ _ _ Hr) as H.
  destruct (Z.eqb_spec (q_head q) (q_tail q)); case_bool_decide; tauto.
Qed.

Lemma queue_pop_lemma q l :
  queue_repr q l →
  match l with
  | [] => queue_pop q = Ok (1, None, q)
  | x :: l => ∃ q', queue_pop q = Ok (0, Some x, q') ∧ queue_repr q' l
  end.
Proof.
  intros Hq. assert (He := queue_empty_lemma q l Hq). unfold queue_empty in He.
  unfold queue_pop. rewrite He. destruct Hq as [Hr Hc Hs].
  destruct l as [|x l]; [done|]. cbn [bool_decide decide].
  rewrite bool_decide_eq_false_2 by done.
  destruct (ring_pop _ _ _ _ _ _ Hr) as [-> Hr']. rewrite bind_ok. eexists. split; [done|].
  by split.
Qed.

Lemma queue_size_lemma q l : queue_repr q l → queue_size q = Z.of_nat (length l).
Proof.
  intros [Hr _ _]. unfold queue_size. rewrite (ring_length _ _ _ _ _ Hr).
  destruct (Z.gtb_spec (q_head q) (q_tail q)), (Z.leb_spec (q_head q) (q_tail q)); lia.
Qed.

(** The growing loop copies the ring in order. *)
Lemma grow_lemma q cap :
  Z.of_nat (length (q_buffer q)) = q_cap q → 0 ≤ q_head q < q_cap q → q_cap q ≤ cap →
  ∃ tmp, grow_buffer q cap = Ok tmp ∧ Z.of_nat (length tmp) = cap ∧
    ∀ i, Z.of_nat i < q_cap q → tmp !! i = q_buffer q !! ring_ix (q_head q) (q_cap q) i.
Proof.
  intros Hlen Hh Hcap. unfold grow_buffer.
  destruct (for_range_inv (λ j '(h, tmp),
      h = (q_head q + j) mod q_cap q ∧ Z.of_nat (length tmp) = cap ∧
      ∀ i, Z.of_nat i < j → tmp !! i = q_buffer q !! ring_ix (q_head q) (q_cap q) i)
    (Z.to_nat (q_cap q)) 0
    (grow_step q) (q_head q, replicate (Z.to_nat cap) None)) as ([h tmp] & Hf & _ & Hl & Hel).
  - rewrite Z.add_0_r, Z.mod_small, length_replicate by lia. split; [done|]. split; [lia|].
    intros i Hi. lia.
  - intros j [h tmp] Hj (Hhd & Hl & Hel). unfold grow_step. cbn [fst snd].
    assert (Hb := Z.mod_pos_bound (q_head q + j) (q_cap q) ltac:(lia)).
    destruct (rd_in_range (q_buffer q) h) as (v & Hv & ->); [lia|]. rewrite bind_ok.
    rewrite wr_ok, bind_ok by lia. eexists. split; [done|]. cbv zeta.
    change (if h + 1 >=? q_cap q then 0 else h + 1) with (wrap1 h (q_cap q)).
    rewrite wrap1_mod by lia. split.
    { rewrite Hhd, Zplus_mod_idemp_l. f_equal. lia. }
    rewrite length_insert. split; [done|]. intros i Hi. rewrite list_lookup_insert.
    case_decide as E.
    + destruct E as [<- _]. rewrite <- Hv. f_equal. unfold ring_ix. rewrite Z2Nat.id, <- Hhd; lia.
    + apply Hel. lia.
  - rewrite Hf, bind_ok. exists tmp. split; [done|]. split; [done|].
    rewrite Z2Nat.id in Hel by lia. exact Hel.
Qed.

Lemma queue_push_lemma q l x :
  queue_repr q l → Z.of_nat (length l) < 2 ^ 25 →
  ∃ q', queue_push q x = Ok q' ∧ queue_repr q' (l ++ [x]).
Proof.
  intros [Hr ((Hc4 & Hc) & k & Hk & Ek) Hs] Hlen. unfold queue_push. cbv zeta.
  assert (Htr := ring_repr_tail_range _ _ _ _ _ Hr).
  change (if q_tail q + 1 >=? q_cap q then 0 else q_tail q + 1) with (wrap1 (q_tail q) (q_cap q)).
  destruct (Z.eqb_spec (q_head q) (wrap1 (q_tail q) (q_cap q))) as [Ef|Hroom].
  - rewrite (ring_full_iff _ _ _ _ _ x Hr) in Ef.
    destruct (Z.gtb_spec (q_sz q) 0); [|lia]. cbn [assertb]. rewrite bind_ok.
    assert (k < 24).
    { apply (Z.pow_lt_mono_r_iff 2); [lia|lia|]. lia. }
    assert (2 ^ k ≤ 2 ^ 23) by (apply Z.pow_le_mono_r; lia).
    rewrite int_chk_ok, bind_ok by (unfold INT_MIN, INT_MAX; lia).
    rewrite int_chk_ok, bind_ok by (unfold INT_MIN, INT_MAX; nia).
    destruct (grow_lemma q (q_cap q * 2)) as (tmp & -> & Hl & Hel);
      [apply Hr|apply Hr|lia|]. rewrite bind_ok, wr_ok, bind_ok by lia.
    eexists. split; [done|]. split; cbn; [|split; [lia|exists (k + 1); rewrite Z.pow_add_r; lia]|done].
    replace (q_cap q) with (Z.of_nat (length (l ++ [x]))) at 3 by (rewrite length_app; cbn; lia).
    apply ring_repr_flat; [by rewrite length_insert|rewrite length_app; cbn; lia|].
    intros i y Hy. apply lookup_app_Some in Hy as [Hy|[Hge Hy]].
    + pose proof (lookup_lt_Some _ _ _ Hy). rewrite list_lookup_insert_ne by lia.
      rewrite Hel by lia. by apply (rr_elem _ _ _ _ _ Hr).
    + assert (i = length l) as -> by (apply lookup_lt_Some in Hy; cbn in Hy; lia).
      rewrite Nat.sub_diag in Hy. injection Hy as <-.
      replace (length l) with (Z.to_nat (q_cap q - 1)) by lia.
      apply list_lookup_insert_eq. lia.
  - assert (Z.of_nat (length l) + 1 < q_cap q).
    { rewrite (ring_full_iff _ _ _ _ _ x Hr) in Hroom. destruct Hr. lia. }
    destruct (ring_push _ _ _ _ _ x Hr) as [Hr' _]; [done|].
    rewrite wr_ok, bind_ok by (rewrite (rr_len _ _ _ _ _ Hr); lia).
    eexists. split; [done|]. split; [done|cbn; eauto|done].
Qed.

End queues.

(** ** What the parser has seen *)

Definition mk_response (f : list Z) : response := Response (Z.of_nat (length f)) (map Some f).

(** The parser is in the middle of the bytes [r]: nothing, one header byte, or a header
    and the first bytes of a package of which [k] are missing. *)
Inductive partial (p : package) : list Z → Z → Prop :=
| part_idle : p_uncomplete_sz p = -1 → p_header_sz p = 0 → partial p [] (-1)
| part_header b :
    p_uncomplete_sz p = -1 → p_header_sz p = 1 → fst (p_header p) = b → byte b →
    partial p [b] (-1)
| part_body b0 b1 got k :
    p_uncomplete_sz p = k → 0 ≤ k → p_header_sz p = 0 → byte b0 → byte b1 →
    Z.of_nat (length got) + k = b0 * 256 + b1 →
    p_uncomplete p = Response (b0 * 256 + b1) (map Some got ++ replicate (Z.to_nat k) None) →
    partial p (b0 :: b1 :: got) k.

Lemma partial_idle p r :
  partial p r (-1) → p_uncomplete_sz p = -1 ∧
    ((r = [] ∧ p_header_sz p = 0) ∨
     (∃ b, r = [b] ∧ p_header_sz p = 1 ∧ fst (p_header p) = b ∧ byte b)).
Proof. inversion 1; subst; [naive_solver|split; [done|right; eauto]|lia]. Qed.

Lemma partial_filling p r k :
  partial p r k → 0 ≤ k → ∃ b0 b1 got, r = b0 :: b1 :: got ∧ p_uncomplete_sz p = k ∧
    p_header_sz p = 0 ∧ byte b0 ∧ byte b1 ∧ Z.of_nat (length got) + k = b0 * 256 + b1 ∧
    p_uncomplete p = Response (b0 * 256 + b1) (map Some got ++ replicate (Z.to_nat k) None).
Proof. inversion 1; subst; intros; [lia|lia|]. eexists _, _, _. done. Qed.

(** The parts of the service the parser leaves alone. *)
Definition same_front (p p' : package) : Prop :=
  p_manager p' = p_manager p ∧ p_fd p' = p_fd p ∧ p_heartbeat p' = p_heartbeat p ∧
  p_recv p' = p_recv p ∧ p_init p' = p_init p ∧ p_closed p' = p_closed p ∧
  p_request p' = p_request p.

Lemma same_front_trans p1 p2 p3 : same_front p1 p2 → same_front p2 p3 → same_front p1 p3.
Proof. unfold same_front. intuition congruence. Qed.

(** Number of packages that are allocated but not complete. *)
Definition open_packages (k : Z) : Z := if k >=? 0 then 1 else 0.

(** How the parser state relates before and after: packages queued, bytes left, buffers
    allocated. *)
Record parsed (s : pstate) (l : list response) (k : Z) (bytes : list Z) (s' : pstate) : Prop := {
  pd_queue : queue_repr (p_response (ps s')) (l ++ map mk_response (frames bytes).1);
  pd_rest : ∃ k', partial (ps s') (frames bytes).2 k' ∧ k' ≠ 0 ∧
    ∃ al, acts s' = acts s ++ map AAlloc al ∧
      Z.of_nat (length al) + open_packages k =
        Z.of_nat (length (frames bytes).1) + open_packages k';
  pd_front : same_front (ps s) (ps s')
}.

(** Reading a header: it ends the call with the bytes seen so far, or goes on with the
    body of a package. *)
Lemma read_header_lemma s r msg :
  partial (ps s) r (-1) → Forall byte msg →
  (∃ s', read_header msg s = Ok (Break (), s') ∧ acts s' = acts s ∧
     p_response (ps s') = p_response (ps s) ∧ same_front (ps s) (ps s') ∧
     partial (ps s') (r ++ msg) (-1) ∧ (length (r ++ msg) < 2)%nat) ∨
  (∃ s' b0 b1 rest, read_header msg s = Ok (Continue rest, s') ∧ r ++ msg = b0 :: b1 :: rest ∧
     acts s' = acts s ++ [AAlloc (b0 * 256 + b1)] ∧
     p_response (ps s') = p_response (ps s) ∧ same_front (ps s) (ps s') ∧
     partial (ps s') [b0; b1] (b0 * 256 + b1) ∧ (length rest < length msg)%nat ∧ Forall byte rest).
Proof.
  intros Hp Hmsg. unfold read_header, start_package, getP, putP, act. sm.
  assert (∀ b0 b1 p a, byte b0 → byte b1 →
    partial (ps (PState (set_uncomplete 0 (b0, b1) (b0 * 256 + b1)
      (Response (b0 * 256 + b1) (replicate (Z.to_nat (b0 * 256 + b1)) None)) p) a)) [b0; b1]
      (b0 * 256 + b1)) as Hstart.
  { unfold byte. intros b0 b1 p a H0 H1. apply part_body; cbn; try done; lia. }
  destruct (partial_idle _ _ Hp) as [Hu [[-> Hh]|(b & -> & Hh & Hb & Hbb)]];
    (destruct msg as [|c msg];
     [left; exists s; repeat split; cbn; (done || lia)|apply Forall_cons in Hmsg as [Hc Hmsg]]).
  - rewrite Hh. cbn [Z.eqb]. destruct msg as [|c1 msg].
    + left. eexists. split; [done|]. cbn. repeat split; try done; [|lia]. by apply part_header.
    + right. apply Forall_cons in Hmsg as [Hc1 Hmsg]. eexists _, c, c1, msg. split; [done|].
      cbn [fst snd]. split; [done|]. split; [done|]. split; [done|]. split; [done|].
      split; [by apply Hstart|]. split; [cbn; lia|done].
  - rewrite Hh. cbn [Z.eqb Pos.eqb assertb fst snd]. rewrite Hb. right. eexists _, b, c, msg. split; [done|].
    cbn [fst snd]. split; [done|]. split; [done|]. split; [done|]. split; [done|].
    split; [by apply Hstart|]. split; [cbn; lia|done].
Qed.

(** Completing the package that is being filled. *)
Lemma finish_package_lemma s b0 b1 got k l msg :
  partial (ps s) (b0 :: b1 :: got) k → 0 ≤ k ≤ Z.of_nat (length msg) →
  queue_repr (p_response (ps s)) l → Z.of_nat (length l) < 2 ^ 25 →
  ∃ s', message_round msg s = read_header (drop (Z.to_nat k) msg) s' ∧ acts s' = acts s ∧
    same_front (ps s) (ps s') ∧ partial (ps s') [] (-1) ∧
    queue_repr (p_response (ps s')) (l ++ [mk_response (got ++ take (Z.to_nat k) msg)]).
Proof.
  intros Hp Hk Hq Hroom.
  destruct (partial_filling _ _ _ Hp) as (b0' & b1' & got' & E & Hu & Hh & H0 & H1 & Hlen & Hbuf);
    [lia|]. injection E as <- <- <-. subst k.
  assert (Hw : wr_at (resp_msg (p_uncomplete (ps s)))
      (resp_sz (p_uncomplete (ps s)) - p_uncomplete_sz (ps s))
      (take (Z.to_nat (p_uncomplete_sz (ps s))) msg) =
    Ok (map Some (got ++ take (Z.to_nat (p_uncomplete_sz (ps s))) msg))).
  { rewrite Hbuf. cbn [resp_msg resp_sz].
    replace (b0 * 256 + b1 - p_uncomplete_sz (ps s)) with (Z.of_nat (length got)) by lia.
    rewrite wr_at_fill by (rewrite length_take; lia).
    rewrite length_take_le, Nat.sub_diag by lia. by rewrite app_nil_r. }
  destruct (queue_push_lemma (p_response (ps s)) l
    (mk_response (got ++ take (Z.to_nat (p_uncomplete_sz (ps s))) msg)) Hq Hroom) as (q & Hpush & Hq').
  eexists. split.
  { unfold message_round, getP, putP. sm. destruct (Z.geb_spec (p_uncomplete_sz (ps s)) 0); [|lia].
    destruct (Z.geb_spec (Z.of_nat (length msg)) (p_uncomplete_sz (ps s))); [|lia].
    rewrite Hw. rewrite Hbuf. cbn [resp_sz].
    replace (b0 * 256 + b1) with
      (Z.of_nat (length (got ++ take (Z.to_nat (p_uncomplete_sz (ps s))) msg)))
      by (rewrite length_app, length_take_le by lia; lia).
    fold (mk_response (got ++ take (Z.to_nat (p_uncomplete_sz (ps s))) msg)).
    rewrite Hpush. reflexivity. }
  cbn. split; [done|]. split; [done|]. split; [by apply part_idle|done].
Qed.

(** The calls of [new_message]'s loop with [fuel] rounds left parse all bytes. *)
Definition parses (fuel : nat) : Prop := ∀ msg s l r k,
  (length msg < fuel)%nat → partial (ps s) r k → Forall byte msg →
  queue_repr (p_response (ps s)) l →
  Z.of_nat (length l) + Z.of_nat (length r) + Z.of_nat (length msg) < 2 ^ 25 →
  ∃ s', iterateM fuel message_round msg s = Ok ((), s') ∧ parsed s l k (r ++ msg) s'.

Definition continue_with (fuel : nat) (r : loop (list Z) unit) : SM pstate unit :=
  match r with
  | Continue msg => iterateM fuel message_round msg
  | Break r => mret r
  end.

(** The second half of a round and all that follows. *)
Lemma header_loop fuel msg s l r :
  parses fuel → (length msg ≤ fuel)%nat → partial (ps s) r (-1) → Forall byte msg →
  queue_repr (p_response (ps s)) l →
  Z.of_nat (length l) + Z.of_nat (length r) + Z.of_nat (length msg) < 2 ^ 25 →
  ∃ s', (read_header msg ≫= continue_with fuel) s = Ok ((), s') ∧
    parsed s l (-1) (r ++ msg) s'.
Proof.
  intros IH Hf Hp Hmsg Hq Hroom.
  destruct (read_header_lemma s r msg Hp Hmsg)
    as [(s' & Hrun & Ha & Hr & Hfr & Hp' & Hshort)|
        (s1 & b0 & b1 & rest & Hrun & E & Ha & Hr & Hfr & Hp1 & Hlen & Hrest)];
    rewrite (sbind_ok _ _ _ _ _ Hrun); cbn [continue_with].
  - exists s'. split; [done|]. split.
    + rewrite frames_short by done. cbn. rewrite app_nil_r. by rewrite Hr.
    + exists (-1). rewrite frames_short by done. split; [done|]. split; [done|].
      exists []. cbn. by rewrite app_nil_r.
    + done.
  - assert (Hlr : (length rest + 2 = length r + length msg)%nat).
    { rewrite <- length_app, E. cbn. lia. }
    destruct (IH rest s1 l [b0; b1] (b0 * 256 + b1)) as (s' & Hrun' & [Hq' Hrest' Hfr']);
      [lia|done|done|by rewrite Hr|cbn; lia|].
    exists s'. split; [done|]. rewrite E. cbn [app] in *.
    destruct Hrest' as (k' & Hp' & Hk' & al & Hal & Hcount).
    split; [done| |by eapply same_front_trans].
    exists k'. split; [done|]. split; [done|]. exists ((b0 * 256 + b1) :: al). split.
    + rewrite Hal, Ha, <- app_assoc. done.
    + assert (open_packages (b0 * 256 + b1) = 1) as E1.
      { inversion Hp1; subst. unfold byte in *. unfold open_packages.
        destruct (Z.geb_spec (b0 * 256 + b1) 0); lia. }
      rewrite E1 in Hcount. change (open_packages (-1)) with 0. cbn [length]. lia.
Qed.

Lemma parse_loop fuel : parses fuel.
Proof.
  induction fuel as [|fuel IH]; intros msg s l r k Hf Hp Hmsg Hq Hroom; [lia|].
  cbn [iterateM]. fold (continue_with fuel).
  change (λ r0 : loop (list Z) (),
    match r0 with Continue l' => iterateM fuel message_round l' | Break r1 => mret r1 end)
    with (continue_with fuel).
  assert (k = -1 ∨ 0 ≤ k) as [->|Hk] by (inversion Hp; subst; lia).
  - assert (message_round msg s = read_header msg s) as E.
    { destruct (partial_idle _ _ Hp) as [Hu _]. unfold message_round, getP. sm. by rewrite Hu. }
    unfold mbind, SM_bind. rewrite E.
    destruct (header_loop fuel msg s l r IH) as (s' & Hrun & Hpd); try done; [lia|].
    exists s'. split; [exact Hrun|done].
  - destruct (partial_filling _ _ _ Hp Hk) as (b0 & b1 & got & -> & Hu & Hh & H0 & H1 & Hlen & Hbuf).
    destruct (Z_lt_le_dec (Z.of_nat (length msg)) k) as [Hlt|Hge].
    + assert (∃ s', message_round msg s = Ok (Break (), s') ∧ acts s' = acts s ∧
        p_response (ps s') = p_response (ps s) ∧ same_front (ps s) (ps s') ∧
        partial (ps s') (b0 :: b1 :: got ++ msg) (k - Z.of_nat (length msg)))
        as (s' & Hrun & Ha & Hr & Hfr & Hp').
      { eexists. split.
        { unfold message_round, getP, putP. sm. rewrite Hu.
          destruct (Z.geb_spec k 0); [|lia].
          destruct (Z.geb_spec (Z.of_nat (length msg)) k); [lia|].
          rewrite Hbuf. cbn [resp_msg resp_sz].
          replace (b0 * 256 + b1 - k) with (Z.of_nat (length got)) by lia.
          rewrite wr_at_fill by lia. done. }
        cbn. split; [done|]. split; [done|]. split; [done|].
        apply part_body; cbn; try done; [lia|rewrite length_app; lia|].
        do 2 f_equal. f_equal. lia. }
      rewrite (sbind_ok _ _ _ _ _ Hrun). exists s'. split; [done|].
      assert (frames ((b0 :: b1 :: got) ++ msg) = ([], b0 :: b1 :: got ++ msg)) as E.
      { apply frames_incomplete; [done|done|]. rewrite length_app. lia. }
      split; rewrite ?E; cbn.
      * rewrite app_nil_r. by rewrite Hr.
      * exists (k - Z.of_nat (length msg)). split; [done|]. split; [lia|]. exists [].
        cbn. rewrite app_nil_r. split; [done|]. unfold open_packages.
        destruct (Z.geb_spec k 0), (Z.geb_spec (k - Z.of_nat (length msg)) 0); lia.
      * done.
    + destruct (finish_package_lemma s b0 b1 got k l msg) as (s1 & Erun & Ha & Hfr & Hp1 & Hq1);
        [done|lia|done|lia|].
      set (f := got ++ take (Z.to_nat k) msg) in *.
      destruct (header_loop fuel (drop (Z.to_nat k) msg) s1 (l ++ [mk_response f]) [] IH)
        as (s' & Hrun & [Hq' (k' & Hp' & Hk' & al & Hal & Hcount) Hfr']).
      { rewrite length_drop. lia. } { done. } { by apply Forall_drop. } { done. }
      { rewrite length_app, length_drop. cbn [length] in *. lia. }
      exists s'. split; [unfold mbind, SM_bind in *; by rewrite Erun|].
      assert (frames ((b0 :: b1 :: got) ++ msg) =
        (f :: (frames (drop (Z.to_nat k) msg)).1, (frames (drop (Z.to_nat k) msg)).2)) as E.
      { rewrite <- (frames_complete b0 b1 f); [|done|done|].
        - unfold f. cbn. by rewrite <- app_assoc, take_drop.
        - unfold f. rewrite length_app, length_take_le by lia. lia. }
      split; rewrite ?E; cbn [fst snd map].
      * by rewrite <- app_assoc in Hq'.
      * exists k'. split; [done|]. split; [done|]. exists al. rewrite <- Ha. split; [done|].
        change (open_packages (-1)) with 0 in Hcount. cbn [app length] in *.
        unfold open_packages at 1. destruct (Z.geb_spec k 0); [|lia]. lia.
      * by eapply same_front_trans.
Qed.

(** ** Requests meet packages *)

Definition reply (rq : request) (f : list Z) : action :=
  AReply (req_source rq) (req_session rq) (mk_response f).

Lemma zip_app {A B C} (g : A → B → C) (Q : list A) : ∀ (F : list B) Q' F',
  zip_with g (Q ++ Q') (F ++ F') =
  zip_with g Q F ++ zip_with g (drop (length F) Q ++ Q') (drop (length Q) F ++ F').
Proof.
  induction Q as [|x Q IH]; intros [|y F] Q' F'; cbn; [done..|]. by rewrite IH.
Qed.

(** The service is open, with requests [rq] or packages [rs] waiting, after the bytes [r]
    of an incomplete package. *)
Record open_service (s : pstate) (rq : list request) (rs : list (list Z)) (r : list Z) : Prop := {
  os_request : queue_repr (p_request (ps s)) rq;
  os_response : queue_repr (p_response (ps s)) (map mk_response rs);
  os_partial : ∃ k, partial (ps s) r k ∧ k ≠ 0;
  os_closed : p_closed (ps s) = 0
}.

Lemma partial_queues p r k rq rs : partial p r k → partial (set_queues rq rs p) r k.
Proof. inversion 1; subst; by constructor. Qed.

Lemma response_lemma rq : ∀ fuel s rs r,
  open_service s rq rs r → (length rq < fuel)%nat →
  ∃ s', response_ fuel s = Ok ((), s') ∧
    open_service s' (drop (length rs) rq) (drop (length rq) rs) r ∧
    acts s' = acts s ++ zip_with reply rq rs ∧
    p_recv (ps s') = p_recv (ps s) ∧ p_manager (ps s') = p_manager (ps s).
Proof.
  unfold response_. induction rq as [|q rq IH]; intros fuel s rs r [Hrq Hrs (k & Hp & Hk) Hc] Hf;
    (destruct fuel as [|fuel]; [cbn in Hf; lia|]); cbn [iterateM].
  - exists s. split; [|split; [by rewrite drop_nil; split; eauto|by rewrite app_nil_r]].
    unfold response_step, getP. sm. by rewrite (queue_empty_lemma _ _ Hrq).
  - destruct rs as [|f rs].
    + exists s. split; [|split; [by split; eauto|by rewrite app_nil_r]].
      unfold response_step, getP. sm.
      rewrite (queue_empty_lemma _ _ Hrq), (queue_empty_lemma _ _ Hrs). done.
    + destruct (queue_pop_lemma _ _ Hrq) as (q1 & Hq1 & Hrq1).
      destruct (queue_pop_lemma _ _ Hrs) as (q2 & Hq2 & Hrs2).
      set (s1 := PState (set_queues q1 q2 (ps s)) (acts s ++ [reply q f])).
      assert (response_step () s = Ok (Continue (), s1)) as E.
      { unfold response_step, getP, putP, act. sm.
        rewrite (queue_empty_lemma _ _ Hrq), (queue_empty_lemma _ _ Hrs).
        rewrite !bool_decide_eq_false_2 by done. by rewrite Hq1, Hq2. }
      rewrite (sbind_ok _ _ _ _ _ E). destruct (IH fuel s1 rs r) as (s' & -> & Ho & Ha & Hr & Hfd).
      { split; cbn; [done|done| |done]. exists k. split; [by apply partial_queues|done]. }
      { cbn in Hf. lia. }
      exists s'. split; [done|]. split; [done|]. split; [|done].
      rewrite Ha. cbn. by rewrite <- app_assoc.
Qed.

(** 1 when the bytes [r] left over include a header, so that a buffer has been allocated. *)
Definition pending (r : list Z) : Z := if (2 <=? length r)%nat then 1 else 0.

Lemma open_pending p r k : partial p r k → open_packages k = pending r.
Proof.
  inversion 1; subst; try done. unfold open_packages, pending. cbn.
  by destruct (Z.geb_spec (p_uncomplete_sz p) 0); [|lia].
Qed.

Lemma new_message_lemma s rq rs r msg :
  open_service s rq rs r → Forall byte msg → p_recv (ps s) < INT_MAX → 0 ≤ p_recv (ps s) →
  Z.of_nat (length rs) + Z.of_nat (length r) + Z.of_nat (length msg) < 2 ^ 25 →
  ∃ s' al, new_message msg s = Ok ((), s') ∧
    open_service s' rq (rs ++ (frames (r ++ msg)).1) (frames (r ++ msg)).2 ∧
    acts s' = acts s ++ map AAlloc al ∧
    p_recv (ps s') = p_recv (ps s) + 1 ∧
    Z.of_nat (length al) + pending r =
      Z.of_nat (length (frames (r ++ msg)).1) + pending (frames (r ++ msg)).2.
Proof.
  intros [Hrq Hrs (k & Hp & Hk) Hc] Hmsg Hr1 Hr2 Hroom. unfold new_message, getP, putP.
  assert (Hchk : int_chk (p_recv (ps s) + 1) = Ok (p_recv (ps s) + 1))
    by (apply int_chk_ok; unfold INT_MIN, INT_MAX in *; lia).
  rewrite gets_bind, (lift_bind _ _ _ _ Hchk).
  rewrite modify_bind.
  set (s1 := PState (set_flags (p_heartbeat (ps s)) (p_recv (ps s) + 1) (p_init (ps s))
    (p_closed (ps s)) (ps s)) (acts s)).
  destruct (parse_loop (S (S (length msg))) msg s1 (map mk_response rs) r k) as (s' & -> & Hpd).
  { lia. } { inversion Hp; subst; by constructor. } { done. } { done. }
  { rewrite length_map. lia. }
  destruct Hpd as [Hq (k' & Hp' & Hk' & al & Ha & Hcnt) (Hm & Hfd & _ & Hrecv & _ & Hcl & Hreq)].
  rewrite (open_pending _ _ _ Hp), (open_pending _ _ _ Hp') in Hcnt.
  exists s', al. split; [done|]. split; [|done]. split.
  - by rewrite Hreq.
  - by rewrite map_app.
  - eauto.
  - by rewrite Hcl.
Qed.

(** ** Histories of an open connection *)

Inductive conn_event : Set :=
| Chunk (bytes : list Z)
| Ask (src sess : Z).

Definition run_event (fuel : nat) (e : conn_event) : SM pstate Z :=
  match e with
  | Chunk bytes =>
      p ← getP;
      message_handler fuel PTYPE_SOCKET 0 0
        (PSocket (SocketEvent SKYNET_SOCKET_TYPE_DATA (p_fd p) bytes))
  | Ask src sess => message_handler fuel PTYPE_TEXT sess src (PBytes (str "R"))
  end.

Fixpoint run_events (fuel : nat) (es : list conn_event) : SM pstate unit :=
  match es with
  | [] => mret ()
  | e :: es => _ ← run_event fuel e; run_events fuel es
  end.

Fixpoint asked (es : list conn_event) : list request :=
  match es with
  | [] => []
  | Ask src sess :: es => Request src sess :: asked es
  | Chunk _ :: es => asked es
  end.

Fixpoint received (es : list conn_event) : list Z :=
  match es with
  | [] => []
  | Chunk bytes :: es => bytes ++ received es
  | Ask _ _ :: es => received es
  end.

Definition is_reply (a : action) : bool := match a with AReply _ _ _ => true | _ => false end.
Definition replies (s : pstate) : list action := filter (λ a, is_reply a = true) (acts s).

(** Buffers allocated, and buffers given away or freed. *)
Definition is_alloc (a : action) : bool := match a with AAlloc _ => true | _ => false end.
Definition is_free (a : action) : bool := match a with AFree _ => true | _ => false end.
Definition count (f : action → bool) (l : list action) : Z :=
  Z.of_nat (length (filter (λ a, f a = true) l)).

Lemma count_app f l l' : count f (l ++ l') = count f l + count f l'.
Proof. unfold count. rewrite filter_app, length_app. lia. Qed.

Lemma count_zero f l : (∀ a, a ∈ l → f a = false) → count f l = 0.
Proof. intros H. unfold count. rewrite filter_none; [done|]. intros a Ha. by rewrite (H a Ha). Qed.

(** The service after requests [Q] and bytes [B]. *)
Record after (s : pstate) (Q : list request) (B : list Z) : Prop := {
  af_open : open_service s (drop (length (frames B).1) Q) (drop (length Q) (frames B).1) (frames B).2;
  af_replies : replies s = zip_with reply Q (frames B).1;
  af_recv : 0 ≤ p_recv (ps s);
  af_alloc : count is_alloc (acts s) = Z.of_nat (length (frames B).1) + pending (frames B).2;
  af_free : count is_free (acts s) = 0
}.

Lemma drop_pair1 {X Y} (Q : list X) (F N : list Y) :
  drop (length (drop (length Q) F ++ N)) (drop (length F) Q) = drop (length (F ++ N)) Q.
Proof.
  rewrite drop_drop, !length_app, length_drop.
  destruct (le_lt_dec (length Q) (length F)).
  - rewrite !drop_ge by lia. done.
  - f_equal. lia.
Qed.

Lemma drop_pair2 {X Y} (Q : list X) (F N : list Y) :
  drop (length (drop (length F) Q)) (drop (length Q) F ++ N) = drop (length Q) (F ++ N).
Proof.
  rewrite length_drop. destruct (le_lt_dec (length Q) (length F)).
  - replace (length Q - length F)%nat with 0%nat by lia. rewrite drop_0. by rewrite drop_app_le.
  - rewrite (drop_ge F) by lia. cbn. by rewrite drop_app_ge by lia.
Qed.

Lemma replies_app s s' l : acts s' = acts s ++ l → replies s' = replies s ++ filter (λ a, is_reply a = true) l.
Proof. intros E. unfold replies. by rewrite E, filter_app. Qed.

Lemma filter_replies Q F : filter (λ a, is_reply a = true) (zip_with reply Q F) = zip_with reply Q F.
Proof. revert F. induction Q as [|q Q IH]; intros [|f F]; cbn; [done..|]. by rewrite IH. Qed.

Lemma filter_allocs al : filter (λ a, is_reply a = true) (map AAlloc al) = [].
Proof. by induction al. Qed.

Lemma chunk_lemma fuel s Q B msg :
  after s Q B → Forall byte B → Forall byte msg → (length Q < fuel)%nat →
  p_recv (ps s) < INT_MAX → Z.of_nat (length B) + Z.of_nat (length msg) < 2 ^ 25 →
  ∃ s', run_event fuel (Chunk msg) s = Ok (0, s') ∧ after s' Q (B ++ msg) ∧
    p_recv (ps s') = p_recv (ps s) + 1.
Proof.
  intros [Ho Hr Hrecv Hal Hfr] HB Hmsg Hf Hmax Hsize. cbn [run_event].
  assert (Hbound := frames_bound (length B) B ltac:(lia) HB).
  set (s1 := PState (ps s) (acts s ++
    [AError (str "Recv " ++ print_d (Z.of_nat (length msg)) ++ str " bytes from " ++ print_d (p_fd (ps s)))])).
  assert (Ho1 : open_service s1 (drop (length (frames B).1) Q) (drop (length Q) (frames B).1) (frames B).2)
    by (by destruct Ho).
  destruct (new_message_lemma s1 _ _ _ msg Ho1 Hmsg Hmax Hrecv)
    as (s2 & al & Hnew & Ho2 & Ha2 & Hr2 & Hcnt).
  { rewrite length_drop. lia. }
  set (s3 := PState (ps s2) (acts s2 ++ [AFreeChunk])).
  assert (Ho3 : open_service s3 (drop (length (frames B).1) Q)
    (drop (length Q) (frames B).1 ++ (frames ((frames B).2 ++ msg)).1) (frames ((frames B).2 ++ msg)).2)
    by (by destruct Ho2).
  destruct (response_lemma _ fuel s3 _ _ Ho3) as (s4 & Hresp & Ho4 & Ha4 & Hr4 & _).
  { rewrite length_drop. lia. }
  exists s4. split; [|split].
  - unfold getP. rewrite gets_bind. unfold message_handler. cbn [Z.eqb PTYPE_SOCKET PTYPE_TEXT PTYPE_CLIENT PTYPE_RESPONSE Pos.eqb].
    unfold socket_message_. cbn [se_type se_data se_id Z.eqb Pos.eqb SKYNET_SOCKET_TYPE_DATA
      SKYNET_SOCKET_TYPE_CONNECT SKYNET_SOCKET_TYPE_CLOSE SKYNET_SOCKET_TYPE_ERROR orb].
    unfold getP, act in *. sm. fold s1. rewrite Hnew. fold s3. by rewrite Hresp.
  - rewrite drop_pair1, drop_pair2 in Ho4.
    assert (E := frames_app msg (length B) B ltac:(lia) HB Hmsg).
    assert (Hzip : ∀ f X Y, (∀ a b c, f (AReply a b c) = false) → count f (zip_with reply X Y) = 0).
    { intros f X Y Hf'. apply count_zero. intros x Hx. apply elem_of_zip_with in Hx as (? & ? & -> & _).
      apply Hf'. }
    split.
    + rewrite E. cbn [fst snd]. exact Ho4.
    + rewrite (replies_app s3 s4 _ Ha4), filter_replies.
      assert (replies s3 = replies s) as ->.
      { unfold replies, s3. cbn [acts]. rewrite Ha2. cbn [acts s1].
        rewrite !filter_app, filter_allocs. cbn. by rewrite !app_nil_r. }
      rewrite Hr, E. cbn [fst].
      assert (Ez := zip_app reply Q (frames B).1 [] (frames ((frames B).2 ++ msg)).1).
      rewrite !app_nil_r in Ez. by rewrite Ez.
    + rewrite Hr4. cbn. rewrite Hr2. cbn. lia.
    + rewrite Ha4, count_app, (Hzip is_alloc) by done. cbn [acts s3].
      rewrite count_app, Ha2, count_app. cbn [acts s1]. rewrite count_app, Hal, E. cbn [fst snd].
      assert (count is_alloc (map AAlloc al) = Z.of_nat (length al)) as ->.
      { unfold count. rewrite filter_all; [by rewrite length_map|].
        intros x Hx. by apply list_elem_of_fmap in Hx as (? & -> & _). }
      rewrite !(count_zero is_alloc [_]) by (intros x Hx; by apply list_elem_of_singleton in Hx as ->).
      rewrite length_app. lia.
    + rewrite Ha4, count_app, (Hzip is_free) by done. cbn [acts s3].
      rewrite count_app, Ha2, count_app. cbn [acts s1]. rewrite count_app, Hfr.
      rewrite (count_zero is_free (map AAlloc al))
        by (intros x Hx; by apply list_elem_of_fmap in Hx as (? & -> & _)).
      rewrite !(count_zero is_free [_]) by (intros x Hx; by apply list_elem_of_singleton in Hx as ->).
      done.
  - rewrite Hr4. cbn. by rewrite Hr2.
Qed.

Lemma ask_lemma fuel s Q B src sess :
  after s Q B → Z.of_nat (length Q) < 2 ^ 25 →
  ∃ s', run_event fuel (Ask src sess) s = Ok (0, s') ∧ after s' (Q ++ [Request src sess]) B ∧
    p_recv (ps s') = p_recv (ps s).
Proof.
  intros [[Hrq Hrs (k & Hp & Hk) Hc] Hr Hrecv Hal Hfr] HQ. set (F := (frames B).1) in *.
  assert (Hrun : run_event fuel (Ask src sess) s = (_ ← command sess src (str "R"); mret 0) s)
    by reflexivity.
  rewrite Hrun. unfold command. change (rd (str "R") 0) with (Ok 82).
  assert (∀ s', p_closed (ps s') = p_closed (ps s) → partial (ps s') (frames B).2 k →
    queue_repr (p_request (ps s')) (drop (length F) (Q ++ [Request src sess])) →
    queue_repr (p_response (ps s')) (map mk_response (drop (length (Q ++ [Request src sess])) F)) →
    replies s' = zip_with reply (Q ++ [Request src sess]) F → p_recv (ps s') = p_recv (ps s) →
    count is_alloc (acts s') = count is_alloc (acts s) →
    count is_free (acts s') = count is_free (acts s) →
    after s' (Q ++ [Request src sess]) B) as Hafter.
  { intros s' E1 E2 E3 E4 E5 E6 E7 E8. split; fold F; [|done|by rewrite E6|congruence|congruence].
    split; [done|done|eauto|congruence]. }
  destruct (le_lt_dec (length F) (length Q)) as [Hle|Hlt].
  - (* no package: the request waits *)
    rewrite (drop_ge F) in Hrs by lia. cbn [map] in Hrs.
    destruct (queue_push_lemma _ _ (Request src sess) Hrq) as (q & Hpush & Hq).
    { rewrite length_drop. lia. }
    eexists. split.
    { unfold getP, putP. sm. cbn [Z.eqb Pos.eqb]. rewrite Hc. cbn [Z.eqb negb].
      rewrite (queue_empty_lemma _ _ Hrs). rewrite Hpush. reflexivity. }
    split; [|done]. apply Hafter; cbn; try done.
    + by apply partial_queues.
    + by rewrite drop_app_le.
    + by rewrite drop_ge by (rewrite length_app; lia).
    + assert (Ez := zip_app reply Q F [Request src sess] []).
      rewrite (drop_ge F), !app_nil_r in Ez by lia. rewrite Ez.
      assert (∀ l, zip_with reply l [] = []) as Enil by (by intros []).
      rewrite Enil, app_nil_r. exact Hr.
  - (* a package is there *)
    destruct (lookup_lt_is_Some_2 F (length Q)) as [f Hfl]; [lia|].
    rewrite (drop_S F f (length Q) Hfl) in Hrs. cbn [map] in Hrs.
    rewrite (drop_ge Q) in Hrq by lia.
    destruct (queue_pop_lemma _ _ Hrs) as (q & Hpop & Hq).
    eexists. split.
    { unfold getP, putP, act. sm. cbn [Z.eqb Pos.eqb]. rewrite Hc. cbn [Z.eqb negb].
      rewrite (queue_empty_lemma _ _ Hrs), bool_decide_eq_false_2 by done.
      rewrite (queue_empty_lemma _ _ Hrq). cbn [negb bool_decide decide assertb].
      rewrite bool_decide_eq_true_2 by done. cbn [assertb]. rewrite Hpop. reflexivity. }
    split; [|done]. apply Hafter; cbn; try done.
    + by apply partial_queues.
    + rewrite drop_ge by (rewrite length_app; cbn; lia). done.
    + rewrite length_app, Nat.add_1_r. done.
    + unfold replies. cbn [acts]. rewrite filter_app. fold (replies s). rewrite Hr.
      assert (Ez := zip_app reply Q F [Request src sess] []).
      rewrite (drop_ge Q), (drop_S F f (length Q) Hfl), !app_nil_r in Ez by lia. rewrite Ez. done.
    + rewrite count_app. rewrite (count_zero is_alloc [_]); [lia|].
      intros x Hx. by apply list_elem_of_singleton in Hx as ->.
    + rewrite count_app. rewrite (count_zero is_free [_]); [lia|].
      intros x Hx. by apply list_elem_of_singleton in Hx as ->.
Qed.

Lemma events_lemma fuel es : ∀ s Q B,
  after s Q B → Forall byte (B ++ received es) →
  (length Q + length (asked es) < fuel)%nat →
  Z.of_nat (length Q) + Z.of_nat (length (asked es)) < 2 ^ 25 →
  p_recv (ps s) + Z.of_nat (length es) ≤ INT_MAX →
  Z.of_nat (length B) + Z.of_nat (length (received es)) < 2 ^ 25 →
  ∃ s', run_events fuel es s = Ok ((), s') ∧ after s' (Q ++ asked es) (B ++ received es).
Proof.
  induction es as [|[msg|src sess] es IH]; intros s Q B Haf Hb Hf HQ Hrecv Hsize;
    cbn [run_events asked received length] in *.
  - exists s. by rewrite !app_nil_r.
  - rewrite !length_app in *. rewrite app_assoc in Hb |- *.
    apply Forall_app in Hb as [HBm Hes]. apply Forall_app in HBm as [HB Hm].
    destruct (chunk_lemma fuel s Q B msg) as (s1 & Hrun & Haf1 & Hr1); try done; try lia.
    rewrite (sbind_ok _ _ _ _ _ Hrun).
    destruct (IH s1 Q (B ++ msg)) as (s' & Hrun' & Haf'); try done; try lia.
    + apply Forall_app; split; [by apply Forall_app|done].
    + rewrite length_app. lia.
    + eauto.
  - destruct (ask_lemma fuel s Q B src sess) as (s1 & Hrun & Haf1 & Hr1); [done|lia|].
    rewrite (sbind_ok _ _ _ _ _ Hrun).
    destruct (IH s1 (Q ++ [Request src sess]) B) as (s' & Hrun' & Haf'); try done; try lia.
    + rewrite length_app. cbn. lia.
    + rewrite length_app. cbn. lia.
    + exists s'. split; [done|]. by rewrite <- app_assoc in Haf'.
Qed.

Definition sent_bytes (a : action) : list Z :=
  match a with ASocketSend _ l => l | _ => [] end.

(** The service before [package_init]. *)
Definition created : pstate := PState package_create [].

Lemma after_init param s :
  package_init param created = Ok (0, s) →
  after s [] [] ∧ p_recv (ps s) = 0 ∧ concat (map sent_bytes (acts s)) = [].
Proof.
  unfold package_init, getP, putP. rewrite gets_bind. cbv zeta. rewrite modify_bind.
  case_match; [unfold act; rewrite modify_bind; done|].
  unfold heartbeat, getP, putP, act, created. rewrite !modify_bind. sm. intros [= <-].
  split; [|done]. split; try done.
  split; cbn; [apply queue_init_repr; lia|apply queue_init_repr; lia| |done].
  exists (-1). split; [by constructor|done].
Qed.

(** The end of a connection. *)
Lemma drain_requests rq : ∀ fuel s,
  queue_repr (p_request (ps s)) rq → (length rq < fuel)%nat →
  ∃ q, iterateM fuel exit_request_step () s =
    Ok ((), PState (set_queues q (p_response (ps s)) (ps s))
              (acts s ++ map (λ r, ASend (req_source r) PTYPE_ERROR (req_session r) []) rq)).
Proof.
  induction rq as [|r rq IH]; intros fuel s Hq Hf; (destruct fuel as [|fuel]; [cbn in Hf; lia|]);
    cbn [iterateM].
  - exists (p_request (ps s)).
    assert (exit_request_step () s = Ok (Break (), s)) as E.
    { unfold exit_request_step, getP. sm. by rewrite (queue_empty_lemma _ _ Hq). }
    rewrite (sbind_ok _ _ _ _ _ E). cbn. rewrite app_nil_r. by destruct s as [[] ?].
  - destruct (queue_pop_lemma _ _ Hq) as (q1 & Hpop & Hq1).
    set (s1 := PState (set_queues q1 (p_response (ps s)) (ps s))
      (acts s ++ [ASend (req_source r) PTYPE_ERROR (req_session r) []])).
    assert (exit_request_step () s = Ok (Continue (), s1)) as E.
    { unfold exit_request_step, getP, putP, act. sm. rewrite (queue_empty_lemma _ _ Hq).
      rewrite bool_decide_eq_false_2 by done. by rewrite Hpop. }
    rewrite (sbind_ok _ _ _ _ _ E).
    destruct (IH fuel s1) as (q & ->); [done|cbn in Hf; lia|].
    exists q. cbn. by rewrite <- app_assoc.
Qed.

Lemma drain_responses rs : ∀ fuel s,
  queue_repr (p_response (ps s)) rs → (length rs < fuel)%nat →
  ∃ q, iterateM fuel exit_response_step () s =
    Ok ((), PState (set_queues (p_request (ps s)) q (ps s))
              (acts s ++ map (λ r, AFree (resp_msg r)) rs)).
Proof.
  induction rs as [|r rs IH]; intros fuel s Hq Hf; (destruct fuel as [|fuel]; [cbn in Hf; lia|]);
    cbn [iterateM].
  - exists (p_response (ps s)).
    assert (exit_response_step () s = Ok (Break (), s)) as E.
    { unfold exit_response_step, getP. sm. by rewrite (queue_empty_lemma _ _ Hq). }
    rewrite (sbind_ok _ _ _ _ _ E). cbn. rewrite app_nil_r. by destruct s as [[] ?].
  - destruct (queue_pop_lemma _ _ Hq) as (q1 & Hpop & Hq1).
    set (s1 := PState (set_queues (p_request (ps s)) q1 (ps s)) (acts s ++ [AFree (resp_msg r)])).
    assert (exit_response_step () s = Ok (Continue (), s1)) as E.
    { unfold exit_response_step, getP, putP, act. sm. rewrite (queue_empty_lemma _ _ Hq).
      rewrite bool_decide_eq_false_2 by done. by rewrite Hpop. }
    rewrite (sbind_ok _ _ _ _ _ E).
    destruct (IH fuel s1) as (q & ->); [done|cbn in Hf; lia|].
    exists q. cbn. by rewrite <- app_assoc.
Qed.

(** What closing adds to the actions. *)
Lemma service_exit_lemma fuel s rq rs r :
  open_service s rq rs r → (length rq < fuel)%nat → (length rs < fuel)%nat →
  ∃ s', service_exit fuel s = Ok ((), s') ∧ p_closed (ps s') = 1 ∧
    acts s' = acts s ++ map (λ r, ASend (req_source r) PTYPE_ERROR (req_session r) []) rq ++
      map (λ f, AFree (map Some f)) rs ++
      [ASend (p_manager (ps s)) PTYPE_TEXT 0 (str "CLOSED"); ACommand (str "EXIT") None].
Proof.
  intros [Hrq Hrs _ _] Hf1 Hf2. unfold service_exit, getP, putP.
  rewrite gets_bind, modify_bind.
  set (s1 := PState (set_flags _ _ _ 1 (ps s)) (acts s)).
  destruct (drain_requests rq fuel s1 Hrq Hf1) as (q1 & E1). rewrite (sbind_ok _ _ _ _ _ E1).
  set (s2 := PState _ _).
  destruct (drain_responses (map mk_response rs) fuel s2 Hrs) as (q2 & E2).
  { by rewrite length_map. }
  rewrite (sbind_ok _ _ _ _ _ E2). unfold getP, act. sm. eexists. split; [done|].
  cbn. split; [done|]. rewrite <- !app_assoc. cbn. do 3 f_equal. by rewrite map_map.
Qed.

(** ** Properties *)

Definition run_bounds (fuel : nat) (es : list conn_event) : Prop :=
  Forall byte (received es) ∧ (length (asked es) < fuel)%nat ∧
  Z.of_nat (length (asked es)) < 2 ^ 25 ∧ Z.of_nat (length es) ≤ INT_MAX ∧
  Z.of_nat (length (received es)) < 2 ^ 25.

#[export] Instance run_bounds_decision fuel es : Decision (run_bounds fuel es).
Proof. unfold run_bounds. apply _. Defined.

Lemma history_lemma fuel param es s0 :
  package_init param created = Ok (0, s0) → run_bounds fuel es →
  ∃ s, run_events fuel es s0 = Ok ((), s) ∧ after s (asked es) (received es).
Proof.
  intros Hi (Hb & Hf & Hq & He & Hr). destruct (after_init _ _ Hi) as (Haf & Hz & _).
  destruct (events_lemma fuel es s0 [] []) as (s & Hrun & Ha); cbn; try done; try lia. eauto.
Qed.

(** C19. From a successful [package_init], for every interleaving of chunks of bytes
    (cut anywhere) and requests ["R"], the handler does not fault and the replies it sends
    are exactly: the k-th request, in order of arrival, is answered with the k-th package
    of the byte stream, under the session and to the address of that request, with every
    byte of the package written; requests and packages without a partner wait in their
    queues. *)
Theorem package_replies_in_order fuel param es s0 :
  package_init param created = Ok (0, s0) → run_bounds fuel es →
  ∃ s, run_events fuel es s0 = Ok ((), s) ∧
    replies s = zip_with reply (asked es) (frames (received es)).1 ∧
    queue_repr (p_request (ps s)) (drop (length (frames (received es)).1) (asked es)) ∧
    queue_repr (p_response (ps s))
      (map mk_response (drop (length (asked es)) (frames (received es)).1)).
Proof.
  intros Hi Hb. destruct (history_lemma _ _ _ _ Hi Hb) as (s & Hrun & [[Hrq Hrs _ _] Hr _ _ _]). eauto 6.
Qed.

Fixpoint run_sends (ms : list (list Z)) : SM pstate unit :=
  match ms with
  | [] => mret ()
  | m :: ms => _ ← message_handler 1 PTYPE_CLIENT 0 0 (PBytes m); run_sends ms
  end.

Lemma run_sends_lemma ms : ∀ s, Forall sendable ms →
  ∃ s', run_sends ms s = Ok ((), s') ∧
    concat (map sent_bytes (acts s')) = concat (map sent_bytes (acts s)) ++ concat (map wire ms).
Proof.
  induction ms as [|m ms IH]; intros s Hm; cbn [run_sends map concat].
  { exists s. by rewrite app_nil_r. }
  apply Forall_cons in Hm as [[Hb Hl] Hms].
  assert (∃ s1, message_handler 1 PTYPE_CLIENT 0 0 (PBytes m) s = Ok (0, s1) ∧
    concat (map sent_bytes (acts s1)) = concat (map sent_bytes (acts s)) ++ wire m) as (s1 & E & Es).
  { unfold message_handler. cbn [Z.eqb PTYPE_CLIENT PTYPE_TEXT Pos.eqb].
    unfold send_out, getP, act. sm.
    destruct (Z.gtb_spec (Z.of_nat (length m)) 0xffff); [lia|]. eexists. split; [done|].
    cbn [acts]. rewrite !map_app, !concat_app. cbn. by rewrite !app_nil_r. }
  rewrite (sbind_ok _ _ _ _ _ E). destruct (IH s1 Hms) as (s' & -> & Es').
  exists s'. split; [done|]. by rewrite Es', Es, app_assoc.
Qed.

(** C20. Framing round trip between two services: whatever messages of at most 65535
    bytes one service is told to send, a peer that receives those bytes, cut into chunks
    anywhere and mixed with requests anywhere, answers its k-th request with the k-th
    message, nothing lost, split, merged or reordered, and holds no incomplete package at
    the end. *)
Theorem wire_roundtrip fuel param es s0 peer t0 ms :
  package_init param created = Ok (0, s0) → package_init peer created = Ok (0, t0) →
  run_bounds fuel es → Forall sendable ms → length (asked es) = length ms →
  ∃ t, run_sends ms t0 = Ok ((), t) ∧
    (received es = concat (map sent_bytes (acts t)) →
     ∃ s, run_events fuel es s0 = Ok ((), s) ∧
       replies s = zip_with reply (asked es) ms ∧
       p_uncomplete_sz (ps s) = -1 ∧ p_header_sz (ps s) = 0).
Proof.
  intros Hi Hpeer Hb Hm Hlen. destruct (run_sends_lemma ms t0 Hm) as (t & Et & Est).
  destruct (after_init _ _ Hpeer) as (_ & _ & E0). rewrite E0 in Est. cbn in Est.
  exists t. split; [done|]. rewrite Est. intros Hrecv.
  destruct (history_lemma _ _ _ _ Hi Hb) as (s & Hrun & [[_ _ (k & Hp & Hk) _] Hr _ _ _]).
  rewrite Hrecv, wire_frames in Hr, Hp by done. exists s. split; [done|]. split; [done|].
  by inversion Hp.
Qed.

(** The close of a connection, as the socket layer reports it. *)
Definition close_event (fuel : nat) : SM pstate Z :=
  p ← getP;
  message_handler fuel PTYPE_SOCKET 0 0 (PSocket (SocketEvent SKYNET_SOCKET_TYPE_CLOSE (p_fd p) [])).

Definition error_reply (r : request) : action := ASend (req_source r) PTYPE_ERROR (req_session r) [].

(** Of requests and packages one side has nobody waiting. *)
Lemma paired_off {X Y C} (g : X → Y → C) (Q : list X) (F : list Y) :
  zip_with g (drop (length F) Q) (drop (length Q) F) = [].
Proof.
  destruct (le_lt_dec (length Q) (length F)).
  - by rewrite (drop_ge Q) by lia.
  - rewrite (drop_ge F) by lia. by destruct (drop _ _).
Qed.

(** The actions that close a service. *)
Definition closing_acts (manager : Z) (rq : list request) (rs : list (list Z)) : list action :=
  map error_reply rq ++ map (λ f, AFree (map Some f)) rs ++
  [ASend manager PTYPE_TEXT 0 (str "CLOSED"); ACommand (str "EXIT") None].

Lemma count_closing f manager rq rs :
  (∀ a b c d, f (ASend a b c d) = false) → (∀ c p, f (ACommand c p) = false) →
  count f (closing_acts manager rq rs) = count f (map (λ r, AFree (map Some r)) rs).
Proof.
  intros Hs Hc. unfold closing_acts. rewrite !count_app.
  rewrite (count_zero f (map error_reply rq)), (count_zero f [_; _]); [lia| |].
  - intros x Hx. rewrite !elem_of_cons in Hx. destruct Hx as [Hx|[Hx|Hx]];
      [by subst..|by apply not_elem_of_nil in Hx].
  - intros x Hx. apply list_elem_of_fmap in Hx as (? & -> & _). apply Hs.
Qed.

Lemma count_freed rs :
  count is_free (map (λ r, AFree (map Some r)) rs) = Z.of_nat (length rs) ∧
  count is_alloc (map (λ r, AFree (map Some r)) rs) = 0 ∧
  count is_reply (map (λ r, AFree (map Some r)) rs) = 0.
Proof.
  split; [|split].
  - unfold count. rewrite filter_all; [by rewrite length_map|].
    intros x Hx. by apply list_elem_of_fmap in Hx as (? & -> & _).
  - apply count_zero. intros x Hx. by apply list_elem_of_fmap in Hx as (? & -> & _).
  - apply count_zero. intros x Hx. by apply list_elem_of_fmap in Hx as (? & -> & _).
Qed.

Lemma close_lemma fuel s Q B :
  after s Q B → (length Q < fuel)%nat → (length (frames B).1 < fuel)%nat →
  ∃ s' pre, close_event fuel s = Ok (0, s') ∧ p_closed (ps s') = 1 ∧
    (pre = [] ∨ pre = [ASend (p_manager (ps s)) PTYPE_TEXT 0 (str "FAIL")]) ∧
    acts s' = acts s ++ pre ++ closing_acts (p_manager (ps s))
      (drop (length (frames B).1) Q) (drop (length Q) (frames B).1).
Proof.
  intros [Ho _ _ _ _] HQ HF.
  set (ini := if p_init (ps s) =? 0 then 1 else p_init (ps s)).
  set (pre := if p_init (ps s) =? 0
              then [ASend (p_manager (ps s)) PTYPE_TEXT 0 (str "FAIL")] else []).
  set (s1 := PState (set_flags (p_heartbeat (ps s)) (p_recv (ps s)) ini (p_closed (ps s)) (ps s))
    (acts s ++ pre)).
  assert (Ho1 : open_service s1 (drop (length (frames B).1) Q) (drop (length Q) (frames B).1) (frames B).2).
  { destruct Ho as [Hrq Hrs (k & Hp & Hk) Hc]. split; try done.
    exists k. split; [inversion Hp; subst; by constructor|done]. }
  destruct (response_lemma _ fuel s1 _ _ Ho1) as (s2 & Hresp & Ho2 & Ha2 & _ & Hm2).
  { rewrite length_drop. lia. }
  rewrite paired_off, app_nil_r in Ha2.
  pose proof (drop_pair1 Q (frames B).1 []) as E1. pose proof (drop_pair2 Q (frames B).1 []) as E2.
  rewrite !app_nil_r in E1, E2. rewrite E1, E2 in Ho2.
  destruct (service_exit_lemma fuel s2 _ _ _ Ho2) as (s3 & Hexit & Hc3 & Ha3);
    [rewrite length_drop; lia..|].
  exists s3, pre. split; [|split; [done|split]].
  - unfold close_event, getP. rewrite gets_bind. unfold message_handler, socket_message_.
    unfold getP, putP, act. cbn [se_type se_data se_id Z.eqb Pos.eqb orb PTYPE_SOCKET PTYPE_TEXT
      PTYPE_CLIENT PTYPE_RESPONSE SKYNET_SOCKET_TYPE_CONNECT SKYNET_SOCKET_TYPE_CLOSE].
    sm. rewrite Z.eqb_refl, andb_true_r. unfold s1, ini, pre in *.
    destruct (p_init (ps s) =? 0); sm.
    + cbn in Hresp |- *. by rewrite Hresp, Hexit.
    + assert (PState (set_flags (p_heartbeat (ps s)) (p_recv (ps s)) (p_init (ps s))
        (p_closed (ps s)) (ps s)) (acts s ++ []) = s) as E
        by (rewrite app_nil_r; by destruct s as [[] ?]).
      rewrite E in Hresp. cbn. by rewrite Hresp, Hexit.
  - unfold pre. case_match; auto.
  - rewrite Ha3, Ha2. cbn [acts s1]. unfold closing_acts, error_reply. rewrite <- !app_assoc.
    by rewrite Hm2.
Qed.

(** Closing a connection: every request that is still waiting is answered with an
    error, in order; every complete package that nobody asked for is freed; the manager
    is told; and the service exits.  The buffers allocated over the life of the
    connection are those handed to requesters, those freed, and - when the peer closed in
    the middle of a package - one buffer that is neither: [service_exit] does not free
    [uncomplete.msg]. *)
Theorem close_accounts_buffers fuel param es s0 :
  package_init param created = Ok (0, s0) → run_bounds fuel es →
  (length (received es) < fuel)%nat →
  ∃ s s' pre, run_events fuel es s0 = Ok ((), s) ∧ close_event fuel s = Ok (0, s') ∧
    p_closed (ps s') = 1 ∧
    acts s' = pre ++ closing_acts (p_manager (ps s))
      (drop (length (frames (received es)).1) (asked es))
      (drop (length (asked es)) (frames (received es)).1) ∧
    count is_alloc (acts s') =
      count is_reply (acts s') + count is_free (acts s') + pending (frames (received es)).2.
Proof.
  intros Hi Hb Hf. destruct (history_lemma _ _ _ _ Hi Hb) as (s & Hrun & Haf).
  destruct Hb as (Hby & Hq & _). pose proof (frames_bound _ (received es) (Nat.le_refl _) Hby) as Hn.
  destruct (close_lemma fuel s _ _ Haf) as (s' & pre & Hc & Hcl & Hpre & Ha); [lia..|].
  exists s, s', (acts s ++ pre). split; [done|]. split; [done|]. split; [done|].
  split; [by rewrite Ha, app_assoc|]. destruct Haf as [_ Hr _ Hal Hfr].
  assert (Hp : ∀ f, (∀ a b c d, f (ASend a b c d) = false) → count f pre = 0).
  { intros f Hf'. apply count_zero. intros x Hx. destruct Hpre as [ -> | -> ];
      [by apply not_elem_of_nil in Hx|by apply list_elem_of_singleton in Hx as ->]. }
  rewrite Ha, !count_app, !Hp, Hal, Hfr by done.
  rewrite !count_closing by done.
  assert (count is_reply (acts s) = Z.of_nat (length (asked es) `min` length (frames (received es)).1)) as ->.
  { unfold count. fold (replies s). by rewrite Hr, length_zip_with. }
  destruct (count_freed (drop (length (asked es)) (frames (received es)).1)) as (-> & -> & ->).
  rewrite length_drop. lia.
Qed.

(** A connection asked twice before 5 bytes arrive in two chunks: one package of 2 bytes and
    the first byte of another header. *)
Definition demo_events : list conn_event := [Ask 5 1; Chunk [0; 2; 104]; Ask 6 2; Chunk [105; 0]].
Definition demo_param : option cstring := Some (str "5 7").
Definition demo_service : pstate :=
  match package_init demo_param created with Ok (_, s) => s | _ => created end.

Lemma package_replies_in_order_witness :
  ∃ s, run_events 10 demo_events demo_service = Ok ((), s) ∧
    replies s = [reply (Request 5 1) [104; 105]] ∧
    queue_repr (p_request (ps s)) [Request 6 2] ∧ queue_repr (p_response (ps s)) [].
Proof.
  apply (package_replies_in_order 10 demo_param demo_events demo_service).
  - vm_compute. reflexivity.
  - apply (bool_decide_unpack _). vm_compute. exact I.
Defined.

Definition demo_messages : list (list Z) := [[1; 2; 3]; []; [4]].
Definition demo_traffic : list conn_event :=
  [Chunk [0]; Ask 5 1; Chunk [3; 1; 2]; Chunk [3; 0; 0; 0]; Ask 6 2; Ask 7 3; Chunk [1; 4]].

Lemma wire_roundtrip_witness :
  ∃ t, run_sends demo_messages demo_service = Ok ((), t) ∧
    ∃ s, run_events 10 demo_traffic demo_service = Ok ((), s) ∧
      replies s = zip_with reply (asked demo_traffic) demo_messages ∧
      p_uncomplete_sz (ps s) = -1 ∧ p_header_sz (ps s) = 0.
Proof.
  destruct (wire_roundtrip 10 demo_param demo_traffic demo_service demo_param demo_service demo_messages)
    as (t & Et & H).
  - vm_compute. reflexivity.
  - vm_compute. reflexivity.
  - apply (bool_decide_unpack _). vm_compute. exact I.
  - repeat constructor; vm_compute; congruence.
  - reflexivity.
  - exists t. split; [exact Et|]. apply H. vm_compute in Et. injection Et as <-. reflexivity.
Defined.

Definition demo_cut : list conn_event := [Chunk [0; 1; 9; 0; 3; 7]; Ask 5 1; Ask 6 2].

Lemma close_accounts_buffers_witness :
  ∃ s s' pre, run_events 10 demo_cut demo_service = Ok ((), s) ∧ close_event 10 s = Ok (0, s') ∧
    p_closed (ps s') = 1 ∧
    acts s' = pre ++ closing_acts (p_manager (ps s)) [Request 6 2] [] ∧
    count is_alloc (acts s') = count is_reply (acts s') + count is_free (acts s') + 1.
Proof.
  apply (close_accounts_buffers 10 demo_param demo_cut demo_service).
  - vm_compute. reflexivity.
  - apply (bool_decide_unpack _). vm_compute. exact I.
  - vm_compute. lia.
Defined.
