(* ===== verification/Netpack.v ===== *)
(** [lualib-src/lua-netpack.c]: the packet queue behind the gate.

    One Lua value holds, for all connections of a gate, the packages that are only
    partly received (a hash table of chains, by connection) and the complete packages
    that are waiting (a circular buffer that grows by 1024 entries).  [filter] is given
    every socket message; it returns a complete package, or says that packages are
    waiting for [pop], or nothing.

    The Lua stack slot 1 holds the queue; it is [None] until the first package needs
    one.  [live] counts the blocks the module allocated minus those it freed. *)

From S2P Require Import Prelude CString Ring Frames.
From S2P Require Import Server.
Open Scope Z_scope.

(** ** State *)

Definition QUEUESIZE : Z := 1024.
Definition HASHSIZE : Z := 4096.

(** A NULL buffer is [None]. *)
Record netpack : Set := Netpack { np_id : Z; np_size : Z; np_buffer : option buffer }.

(** The [next] pointer is the position in the chain. *)
Record uncomplete : Set := Uncomplete { uc_pack : netpack; uc_read : Z; uc_header : Z }.

Record queue : Set := Queue {
  q_cap : Z;
  q_head : Z;
  q_tail : Z;
  q_hash : list (list uncomplete);
  q_queue : list (option netpack)
}.

Record nstate : Set := NState { slot1 : option queue; live : Z }.

Definition set_queue (q : queue) : SM nstate unit := modify (λ s, NState (Some q) (live s)).
Definition set_hash (q : queue) (h : list (list uncomplete)) : queue :=
  Queue (q_cap q) (q_head q) (q_tail q) h (q_queue q).
Definition malloc_block : SM nstate unit := modify (λ s, NState (slot1 s) (live s + 1)).
Definition free_block : SM nstate unit := modify (λ s, NState (slot1 s) (live s - 1)).

(** [skynet_free] of a pointer that may be NULL. *)
Definition free_buffer (b : option buffer) : SM nstate unit :=
  match b with Some _ => free_block | None => mret () end.

(** ** Chains of incomplete packages *)

Fixpoint clear_list (uc : list uncomplete) : SM nstate unit :=
  match uc with
  | [] => mret ()
  | u :: uc =>
      _ ← free_buffer (np_buffer (uc_pack u));
      _ ← free_block;
      clear_list uc
  end.

Definition hash_fd (fd : Z) : res Z :=
  let a := Z.shiftr fd 24 in
  let b := Z.shiftr fd 12 in
  let c := fd in
  ab ← int_chk (a + b);
  abc ← int_chk (ab + c);
  Ok (u32 abc mod HASHSIZE).

(** Unlink the first entry for [fd]. *)
Fixpoint unlink (fd : Z) (chain : list uncomplete) : option (uncomplete * list uncomplete) :=
  match chain with
  | [] => None
  | u :: chain =>
      if np_id (uc_pack u) =? fd then Some (u, chain)
      else '(u', chain') ← unlink fd chain; Some (u', u :: chain')
  end.

Definition find_uncomplete (fd : Z) : SM nstate (option uncomplete) :=
  oq ← gets slot1;
  match oq with
  | None => mret None
  | Some q =>
      h ← lift (hash_fd fd);
      chain ← lift (rd (q_hash q) h);
      match unlink fd chain with
      | None => mret None
      | Some (uc, chain') =>
          hash ← lift (wr (q_hash q) h chain');
          _ ← set_queue (set_hash q hash);
          mret (Some uc)
      end
  end.

(** ** The queue *)

Definition new_queue : queue :=
  Queue QUEUESIZE 0 0 (replicate (Z.to_nat HASHSIZE) []) (replicate (Z.to_nat QUEUESIZE) None).

Definition get_queue : SM nstate queue :=
  oq ← gets slot1;
  match oq with
  | Some q => mret q
  | None => _ ← set_queue new_queue; mret new_queue
  end.

Definition expand_step (q : queue) (i : Z) (dst : list (option netpack))
  : res (list (option netpack)) :=
  let idx := (q_head q + i) mod q_cap q in
  v ← rd (q_queue q) idx;
  wr dst i v.

(** The new queue goes to stack slot 1; nothing refers to the old one any more. *)
Definition expand_queue (q : queue) : SM nstate unit :=
  cap ← lift (int_chk (q_cap q + QUEUESIZE));
  dst ← lift (for_range (Z.to_nat (q_cap q)) 0 (expand_step q) (replicate (Z.to_nat cap) None));
  set_queue (Queue cap 0 (q_cap q) (q_hash q) dst).

(** [clone]: the bytes are copied to a block of their own. *)
Definition push_data (fd : Z) (b : buffer) (size : Z) (clone : bool) : SM nstate unit :=
  _ ← (if clone then malloc_block else mret ());
  q ← get_queue;
  dst ← lift (wr (q_queue q) (q_tail q) (Some (Netpack fd size (Some b))));
  let tail := q_tail q + 1 in
  let tail := if tail >=? q_cap q then tail - q_cap q else tail in
  let q' := Queue (q_cap q) (q_head q) tail (q_hash q) dst in
  if q_head q' =? q_tail q' then expand_queue q' else set_queue q'.

(** Allocate an entry and link it; [uc] has the fields the caller sets in it. *)
Definition save_uncomplete (fd : Z) (uc : uncomplete) : SM nstate unit :=
  q ← get_queue;
  h ← lift (hash_fd fd);
  _ ← malloc_block;
  chain ← lift (rd (q_hash q) h);
  hash ← lift (wr (q_hash q) h (uc :: chain));
  set_queue (set_hash q hash).

(** The caller's code after [save_uncomplete]: one byte of a header. *)
Definition save_header (fd : Z) (b : Z) : SM nstate unit :=
  save_uncomplete fd (Uncomplete (Netpack fd 0 None) (-1) b).

(** Or a header and the first bytes of the body. *)
Definition save_body (fd : Z) (pack_size : Z) (bytes : list Z) : SM nstate unit :=
  _ ← malloc_block;
  b ← lift (wr_at (replicate (Z.to_nat pack_size) None) 0 bytes);
  save_uncomplete fd (Uncomplete (Netpack fd pack_size (Some b)) (Z.of_nat (length bytes)) 0).

Definition read_size (bytes : list Z) : res Z :=
  b0 ← rd bytes 0;
  b1 ← rd bytes 1;
  Ok (Z.lor (Z.shiftl b0 8) b1).

Fixpoint push_more (fuel : nat) (fd : Z) (bytes : list Z) : SM nstate unit :=
  match fuel with
  | O => lift (Fault OutOfFuel)
  | S fuel =>
      if Z.of_nat (length bytes) =? 1 then
        b ← lift (rd bytes 0);
        save_header fd b
      else
        pack_size ← lift (read_size bytes);
        let body := drop 2 bytes in
        if Z.of_nat (length body) <? pack_size then save_body fd pack_size body
        else
          _ ← push_data fd (map Some (take (Z.to_nat pack_size) body)) pack_size true;
          let rest := drop (Z.to_nat pack_size) body in
          if Z.of_nat (length rest) >? 0 then push_more fuel fd rest else mret ()
  end.

Definition close_uncomplete (fd : Z) : SM nstate unit :=
  uc ← find_uncomplete fd;
  match uc with
  | Some uc => _ ← free_buffer (np_buffer (uc_pack uc)); free_block
  | None => mret ()
  end.

(** ** The filter *)

(** What [filter] returns besides the queue. *)
Inductive filter_result : Set :=
| FNone
| FData (fd : Z) (buf : buffer) (size : Z)
| FMore
| FError (fd : Z) (text : list Z)
| FOpen (fd : Z) (text : list Z)
| FClose (fd : Z)
| FWarning (fd ud : Z).

(** The first branch: an incomplete package of the connection was waiting.  [read < 0]
    means that only the first byte of its header has been seen. *)
Definition read_header (uc : uncomplete) (bytes : list Z) : SM nstate (uncomplete * list Z) :=
  if uc_read uc <? 0 then
    _ ← lift (assertb (uc_read uc =? -1));
    b ← lift (rd bytes 0);
    let pack_size := Z.lor b (Z.shiftl (uc_header uc) 8) in
    _ ← malloc_block;
    mret (Uncomplete (Netpack (np_id (uc_pack uc)) pack_size
                        (Some (replicate (Z.to_nat pack_size) None))) 0 (uc_header uc),
          drop 1 bytes)
  else mret (uc, bytes).

Definition fill_uncomplete (fd : Z) (uc : uncomplete) (bytes : list Z) : SM nstate filter_result :=
  '(uc, bytes) ← read_header uc bytes;
  let size := Z.of_nat (length bytes) in
  let need := np_size (uc_pack uc) - uc_read uc in
  buf ← lift (or_fault BadPointer (np_buffer (uc_pack uc)));
  if size <? need then
    buf ← lift (wr_at buf (uc_read uc) bytes);
    oq ← gets slot1;
    q ← lift (or_fault BadPointer oq);
    h ← lift (hash_fd fd);
    chain ← lift (rd (q_hash q) h);
    let uc' := Uncomplete (Netpack (np_id (uc_pack uc)) (np_size (uc_pack uc)) (Some buf))
                 (uc_read uc + size) (uc_header uc) in
    hash ← lift (wr (q_hash q) h (uc' :: chain));
    _ ← set_queue (set_hash q hash);
    mret FNone
  else
    buf ← lift (wr_at buf (uc_read uc) (take (Z.to_nat need) bytes));
    let rest := drop (Z.to_nat need) bytes in
    if Z.of_nat (length rest) =? 0 then
      _ ← free_block;
      mret (FData fd buf (np_size (uc_pack uc)))
    else
      _ ← push_data fd buf (np_size (uc_pack uc)) false;
      _ ← free_block;
      _ ← push_more (S (length rest)) fd rest;
      mret FMore.

Definition filter_data_ (fd : Z) (bytes : list Z) : SM nstate filter_result :=
  uc ← find_uncomplete fd;
  match uc with
  | Some uc => fill_uncomplete fd uc bytes
  | None =>
      if Z.of_nat (length bytes) =? 1 then
        b ← lift (rd bytes 0);
        _ ← save_header fd b;
        mret FNone
      else
        pack_size ← lift (read_size bytes);
        let body := drop 2 bytes in
        let size := Z.of_nat (length body) in
        if size <? pack_size then
          _ ← save_body fd pack_size body;
          mret FNone
        else if size =? pack_size then
          _ ← malloc_block;
          mret (FData fd (map Some body) size)
        else
          _ ← push_data fd (map Some (take (Z.to_nat pack_size) body)) pack_size true;
          let rest := drop (Z.to_nat pack_size) body in
          _ ← push_more (S (length rest)) fd rest;
          mret FMore
  end.

(** The socket layer's buffer is freed afterwards. *)
Definition filter_data (fd : Z) (bytes : list Z) : SM nstate filter_result :=
  ret ← filter_data_ fd bytes;
  _ ← free_block;
  mret ret.

(** A socket message: a buffer, or a string that follows the struct. *)
Record socket_msg : Set := SocketMsg {
  sm_type : Z;
  sm_id : Z;
  sm_ud : Z;
  sm_buffer : option (list Z);
  sm_padding : list Z
}.

(** [pushstring]: the size of a message with a buffer is -1, and a Lua string of that
    size cannot be read. *)
Definition pushstring (m : socket_msg) : res (list Z) :=
  match sm_buffer m with None => Ok (sm_padding m) | Some _ => Fault OutOfBounds end.

Definition lfilter (m : socket_msg) : SM nstate filter_result :=
  let size := match sm_buffer m with None => Z.of_nat (length (sm_padding m)) | Some _ => -1 end in
  let buffer := default (sm_padding m) (sm_buffer m) in
  if sm_type m =? SKYNET_SOCKET_TYPE_DATA then
    _ ← lift (assertb (size =? -1));
    filter_data (sm_id m) buffer
  else if sm_type m =? SKYNET_SOCKET_TYPE_CONNECT then mret FNone
  else if sm_type m =? SKYNET_SOCKET_TYPE_CLOSE then
    _ ← close_uncomplete (sm_id m);
    mret (FClose (sm_id m))
  else if sm_type m =? SKYNET_SOCKET_TYPE_ACCEPT then
    t ← lift (pushstring m);
    mret (FOpen (sm_ud m) t)
  else if sm_type m =? SKYNET_SOCKET_TYPE_ERROR then
    _ ← close_uncomplete (sm_id m);
    t ← lift (pushstring m);
    mret (FError (sm_id m) t)
  else if sm_type m =? SKYNET_SOCKET_TYPE_WARNING then mret (FWarning (sm_id m) (sm_ud m))
  else mret FNone.

(** ** Pop and clear *)

Definition lpop : SM nstate (option netpack) :=
  oq ← gets slot1;
  match oq with
  | None => mret None
  | Some q =>
      if q_head q =? q_tail q then mret None
      else
        np ← lift (rd_init (q_queue q) (q_head q));
        let head := q_head q + 1 in
        let head := if head >=? q_cap q then 0 else head in
        _ ← set_queue (Queue (q_cap q) head (q_tail q) (q_hash q) (q_queue q));
        mret (Some np)
  end.

Definition clear_bucket (q : queue) (i : Z) : SM nstate unit :=
  chain ← lift (rd (q_hash q) i);
  clear_list chain.

Definition clear_slot (q : queue) (i : Z) : SM nstate unit :=
  np ← lift (rd_init (q_queue q) (i mod q_cap q));
  free_buffer (np_buffer np).

Definition lclear : SM nstate unit :=
  oq ← gets slot1;
  match oq with
  | None => mret ()
  | Some q =>
      _ ← for_rangeM (Z.to_nat HASHSIZE) 0 (clear_bucket q);
      let tail := if q_head q >? q_tail q then q_tail q + q_cap q else q_tail q in
      _ ← for_rangeM (Z.to_nat (tail - q_head q)) (q_head q) (clear_slot q);
      set_queue (Queue (q_cap q) 0 0 (replicate (Z.to_nat HASHSIZE) []) (q_queue q))
  end.

(** ** Packing *)

Inductive pack_result : Set :=
| PackError (len : Z)
| Packed (bytes : list Z).

Definition write_size (len : Z) : list Z := [Z.land (Z.shiftr len 8) 0xff; Z.land len 0xff].

Definition lpack (msg : list Z) : SM nstate pack_result :=
  let len := Z.of_nat (length msg) in
  if len >=? 0x10000 then mret (PackError (i32 len))
  else
    _ ← malloc_block;
    mret (Packed (write_size len ++ msg)).

(** [ltostring] makes a string of a package and frees the block. *)
Definition ltostring (p : option buffer) (size : Z) : SM nstate buffer :=
  match p with
  | None => mret []
  | Some b =>
      _ ← lift (if bool_decide (0 ≤ size ≤ Z.of_nat (length b)) then Ok () else Fault OutOfBounds);
      _ ← free_block;
      mret (take (Z.to_nat size) b)
  end.

(** ** The abstract queue

    For every connection the bytes of its incomplete package, and the packages that are
    waiting, in order. *)

Record aqueue : Type := AQueue { a_parts : gmap Z (list Z); a_waiting : list (Z * list Z) }.

Definition put_part (fd : Z) (r : list Z) (P : gmap Z (list Z)) : gmap Z (list Z) :=
  match r with [] => delete fd P | _ => <[fd := r]> P end.

Definition a_data (fd : Z) (bytes : list Z) (a : aqueue) : filter_result * aqueue :=
  let '(fs, r) := frames (default [] (a_parts a !! fd) ++ bytes) in
  let P := put_part fd r (a_parts a) in
  match fs, r with
  | [], _ => (FNone, AQueue P (a_waiting a))
  | [f], [] => (FData fd (map Some f) (Z.of_nat (length f)), AQueue P (a_waiting a))
  | _, _ => (FMore, AQueue P (a_waiting a ++ map (pair fd) fs))
  end.

Definition mk_netpack (e : Z * list Z) : netpack :=
  Netpack (fst e) (Z.of_nat (length (snd e))) (Some (map Some (snd e))).

Definition a_pop (a : aqueue) : option netpack * aqueue :=
  match a_waiting a with
  | [] => (None, a)
  | e :: w => (Some (mk_netpack e), AQueue (a_parts a) w)
  end.

(** ** Representation *)

(** An entry of the table for a connection that has sent the bytes [r] of a package. *)
Inductive uc_ok (uc : uncomplete) : list Z → Prop :=
| uc_ok_header b :
    byte b → np_buffer (uc_pack uc) = None → uc_read uc = -1 → uc_header uc = b → uc_ok uc [b]
| uc_ok_body b0 b1 got :
    byte b0 → byte b1 → Z.of_nat (length got) < b0 * 256 + b1 →
    np_size (uc_pack uc) = b0 * 256 + b1 → uc_read uc = Z.of_nat (length got) →
    np_buffer (uc_pack uc) =
      Some (map Some got ++ replicate (Z.to_nat (b0 * 256 + b1) - length got) None) →
    uc_ok uc (b0 :: b1 :: got).

Definition uc_id (uc : uncomplete) : Z := np_id (uc_pack uc).

(** Blocks an entry owns: itself and its buffer. *)
Definition uc_blocks (uc : uncomplete) : Z :=
  match np_buffer (uc_pack uc) with Some _ => 2 | None => 1 end.
Fixpoint chain_blocks (chain : list uncomplete) : Z :=
  match chain with [] => 0 | uc :: chain => uc_blocks uc + chain_blocks chain end.
Fixpoint hash_blocks (hash : list (list uncomplete)) : Z :=
  match hash with [] => 0 | chain :: hash => chain_blocks chain + hash_blocks hash end.

Record hash_repr (hash : list (list uncomplete)) (P : gmap Z (list Z)) : Prop := {
  hr_len : Z.of_nat (length hash) = HASHSIZE;
  hr_chain : ∀ i chain, hash !! i = Some chain → NoDup (map uc_id chain);
  hr_sound : ∀ i chain uc, hash !! i = Some chain → uc ∈ chain →
    hash_fd (uc_id uc) = Ok (Z.of_nat i) ∧ ∃ r, P !! uc_id uc = Some r ∧ uc_ok uc r;
  hr_complete : ∀ fd r, P !! fd = Some r →
    ∃ i chain uc, hash_fd fd = Ok (Z.of_nat i) ∧ hash !! i = Some chain ∧ uc ∈ chain ∧ uc_id uc = fd
}.

Definition queue_repr (q : queue) (a : aqueue) : Prop :=
  hash_repr (q_hash q) (a_parts a) ∧ QUEUESIZE ≤ q_cap q ≤ 2 ^ 30 ∧
  ring_repr (q_queue q) (q_cap q) (q_head q) (q_tail q) (map mk_netpack (a_waiting a)).

(** The blocks the module holds are those its queue reaches, after [fed] socket buffers
    came in and [given] packages went out. *)
Definition repr (s : nstate) (a : aqueue) (owed : Z) : Prop :=
  match slot1 s with
  | None => a = AQueue ∅ [] ∧ live s = owed
  | Some q => queue_repr q a ∧
      live s = owed + hash_blocks (q_hash q) + Z.of_nat (length (a_waiting a))
  end.

(** ** Chains *)

Lemma hash_fd_ok fd : 0 ≤ fd < 2 ^ 30 → ∃ i, hash_fd fd = Ok (Z.of_nat i) ∧ Z.of_nat i < HASHSIZE.
Proof.
  intros Hfd. unfold hash_fd. rewrite !Z.shiftr_div_pow2 by lia. cbv zeta.
  assert (0 ≤ fd / 2 ^ 24 < 2 ^ 6) by (split; [apply Z.div_pos|apply Z.div_lt_upper_bound]; lia).
  assert (0 ≤ fd / 2 ^ 12 < 2 ^ 18) by (split; [apply Z.div_pos|apply Z.div_lt_upper_bound]; lia).
  rewrite !int_chk_ok, bind_ok by (unfold INT_MIN, INT_MAX; lia).
  rewrite int_chk_ok, bind_ok by (unfold INT_MIN, INT_MAX; lia).
  pose proof (Z.mod_pos_bound (u32 (fd / 2 ^ 24 + fd / 2 ^ 12 + fd)) HASHSIZE).
  exists (Z.to_nat (u32 (fd / 2 ^ 24 + fd / 2 ^ 12 + fd) mod HASHSIZE)).
  unfold HASHSIZE in *. rewrite Z2Nat.id by lia. split; [done|lia].
Qed.

Lemma unlink_some fd chain : ∀ uc chain',
  unlink fd chain = Some (uc, chain') →
  uc_id uc = fd ∧ ∃ l1 l2, chain = l1 ++ uc :: l2 ∧ chain' = l1 ++ l2.
Proof.
  induction chain as [|u chain IH]; intros uc chain' H; cbn in H; [done|].
  destruct (Z.eqb_spec (np_id (uc_pack u)) fd) as [E|].
  - injection H as -> ->. split; [done|]. by exists [], chain'.
  - destruct (unlink fd chain) as [[u1 c1]|] eqn:E1; [|done]. cbn in H. injection H as <- <-.
    destruct (IH _ _ eq_refl) as (Hid & l1 & l2 & -> & ->). split; [done|]. by exists (u :: l1), l2.
Qed.

Lemma unlink_none fd chain : unlink fd chain = None → ∀ uc, uc ∈ chain → uc_id uc ≠ fd.
Proof.
  induction chain as [|u chain IH]; intros H uc Huc; cbn in H; [by apply not_elem_of_nil in Huc|].
  destruct (Z.eqb_spec (np_id (uc_pack u)) fd) as [E|]; [done|].
  destruct (unlink fd chain) as [[]|] eqn:E1; [done|]. apply elem_of_cons in Huc as [->|]; [done|].
  by apply IH.
Qed.

Lemma chain_blocks_app l1 l2 : chain_blocks (l1 ++ l2) = chain_blocks l1 + chain_blocks l2.
Proof. induction l1 as [|u l1 IH]; cbn; [done|]. rewrite IH. lia. Qed.

Lemma hash_blocks_insert hash i chain chain' :
  hash !! i = Some chain →
  hash_blocks (<[i := chain']> hash) = hash_blocks hash - chain_blocks chain + chain_blocks chain'.
Proof.
  revert i. induction hash as [|c hash IH]; intros [|i] H; cbn in *; [done..| |].
  - injection H as ->. lia.
  - rewrite IH by done. lia.
Qed.

Lemma uc_ok_nonempty uc r : uc_ok uc r → r ≠ [].
Proof. by inversion 1. Qed.

Section hash.
Context {hash : list (list uncomplete)} {P : gmap Z (list Z)} (Hr : hash_repr hash P).

Lemma chain_unique i chain l1 uc l2 : hash !! i = Some chain → chain = l1 ++ uc :: l2 →
  ∀ u, u ∈ l1 ++ l2 → uc_id u ≠ uc_id uc.
Proof.
  intros Hi -> u Hu E. pose proof (hr_chain _ _ Hr _ _ Hi) as Hnd.
  rewrite map_app, map_cons in Hnd.
  apply NoDup_app in Hnd as (_ & H1 & H2). apply NoDup_cons in H2 as [H2 _].
  apply elem_of_app in Hu as [Hu|Hu].
  - apply (H1 (uc_id u)); [by apply (list_elem_of_fmap_2 uc_id)|]. rewrite E. by left.
  - apply H2. rewrite <- E. by apply (list_elem_of_fmap_2 uc_id).
Qed.

Lemma chain_remove i l1 uc l2 :
  hash !! i = Some (l1 ++ uc :: l2) →
  hash_repr (<[i := l1 ++ l2]> hash) (delete (uc_id uc) P).
Proof.
  intros Hi. pose proof (chain_unique _ _ _ _ _ Hi eq_refl) as Hu.
  assert (Hfd : hash_fd (uc_id uc) = Ok (Z.of_nat i)).
  { apply (hr_sound _ _ Hr _ _ _ Hi). set_solver. }
  split.
  - rewrite length_insert. apply Hr.
  - intros j chain Hj. apply list_lookup_insert_Some in Hj as [(<- & <- & _)|[_ Hj]].
    + pose proof (hr_chain _ _ Hr _ _ Hi) as Hnd. rewrite map_app in *. cbn in Hnd.
      apply NoDup_app in Hnd as (? & H1 & H2). apply NoDup_cons in H2 as [_ H2].
      apply NoDup_app. split; [done|]. split; [|done]. intros x Hx Hx2. apply (H1 x Hx). by right.
    + by apply (hr_chain _ _ Hr j).
  - intros j chain u Hj Hin. apply list_lookup_insert_Some in Hj as [(<- & <- & _)|[Hne Hj]].
    + assert (u ∈ l1 ++ uc :: l2) as Hin' by set_solver.
      destruct (hr_sound _ _ Hr _ _ _ Hi Hin') as (? & r & ? & ?). split; [done|].
      exists r. rewrite lookup_delete_ne; [done|]. intros E. by apply (Hu u Hin).
    + destruct (hr_sound _ _ Hr _ _ _ Hj Hin) as (Hf & r & ? & ?). split; [done|].
      exists r. rewrite lookup_delete_ne; [done|]. intros E. rewrite <- E, Hfd in Hf.
      injection Hf as ?. lia.
  - intros fd r Hfr. apply lookup_delete_Some in Hfr as [Hne Hfr].
    destruct (hr_complete _ _ Hr _ _ Hfr) as (j & chain & u & Hf & Hj & Hin & Hid).
    destruct (decide (i = j)) as [<-|Hij].
    + rewrite Hi in Hj. injection Hj as <-. exists i, (l1 ++ l2), u. split; [done|].
      split; [apply list_lookup_insert_eq; by eapply lookup_lt_Some|].
      split; [|done]. set_solver.
    + exists j, chain, u. by rewrite list_lookup_insert_ne.
Qed.

Lemma chain_add i chain uc r :
  P !! uc_id uc = None → hash_fd (uc_id uc) = Ok (Z.of_nat i) → hash !! i = Some chain →
  uc_ok uc r → hash_repr (<[i := uc :: chain]> hash) (<[uc_id uc := r]> P).
Proof.
  intros Hn Hfd Hi Hok.
  assert (Hfresh : ∀ u j c, hash !! j = Some c → u ∈ c → uc_id u ≠ uc_id uc).
  { intros u j c Hj Hin E. destruct (hr_sound _ _ Hr _ _ _ Hj Hin) as (_ & ? & H & _). congruence. }
  split.
  - rewrite length_insert. apply Hr.
  - intros j c Hj. apply list_lookup_insert_Some in Hj as [(<- & <- & _)|[_ Hj]].
    + cbn. apply NoDup_cons. split; [|by apply (hr_chain _ _ Hr i)].
      intros Hin. apply list_elem_of_fmap in Hin as (u & E & Hin). by apply (Hfresh u i chain).
    + by apply (hr_chain _ _ Hr j).
  - intros j c u Hj Hin. apply list_lookup_insert_Some in Hj as [(<- & <- & _)|[Hne Hj]].
    + apply elem_of_cons in Hin as [->|Hin].
      { split; [done|]. exists r. by rewrite lookup_insert_eq. }
      destruct (hr_sound _ _ Hr _ _ _ Hi Hin) as (? & r' & ? & ?). split; [done|].
      exists r'. rewrite lookup_insert_ne; [done|]. intros E. by apply (Hfresh u i chain).
    + destruct (hr_sound _ _ Hr _ _ _ Hj Hin) as (? & r' & ? & ?). split; [done|].
      exists r'. rewrite lookup_insert_ne; [done|]. intros E. by apply (Hfresh u j c).
  - intros fd r' Hfr. apply lookup_insert_Some in Hfr as [[<- <-]|[Hne Hfr]].
    + exists i, (uc :: chain), uc. split; [done|].
      split; [apply list_lookup_insert_eq; by eapply lookup_lt_Some|]. split; [by left|done].
    + destruct (hr_complete _ _ Hr _ _ Hfr) as (j & c & u & Hf & Hj & Hin & Hid).
      destruct (decide (i = j)) as [<-|Hij].
      * rewrite Hi in Hj. injection Hj as <-. exists i, (uc :: chain), u. split; [done|].
        split; [apply list_lookup_insert_eq; by eapply lookup_lt_Some|]. split; [by right|done].
      * exists j, c, u. by rewrite list_lookup_insert_ne.
Qed.

Lemma chain_exists i : Z.of_nat i < HASHSIZE → ∃ chain, hash !! i = Some chain.
Proof. intros Hi. apply lookup_lt_is_Some_2. pose proof (hr_len _ _ Hr). lia. Qed.

Lemma chain_find fd i chain :
  hash_fd fd = Ok (Z.of_nat i) → hash !! i = Some chain →
  match unlink fd chain with
  | None => P !! fd = None
  | Some (uc, chain') =>
      (∃ r, P !! fd = Some r ∧ uc_ok uc r) ∧ uc_id uc = fd ∧
      hash_repr (<[i := chain']> hash) (delete fd P) ∧
      hash_blocks (<[i := chain']> hash) = hash_blocks hash - uc_blocks uc
  end.
Proof.
  intros Hfd Hi. destruct (unlink fd chain) as [[uc chain']|] eqn:E.
  - apply unlink_some in E as (<- & l1 & l2 & -> & ->).
    split; [|split; [done|split; [by apply chain_remove|]]].
    + destruct (hr_sound _ _ Hr _ _ uc Hi) as (_ & H); [set_solver|done].
    + rewrite (hash_blocks_insert _ _ _ _ Hi), !chain_blocks_app. cbn. lia.
  - destruct (P !! fd) as [r|] eqn:Hp; [|done].
    destruct (hr_complete _ _ Hr _ _ Hp) as (j & c & uc & Hf & Hj & Hin & Hid).
    rewrite Hfd in Hf. injection Hf as Hij. replace j with i in Hj by lia.
    rewrite Hi in Hj. injection Hj as <-. by destruct (unlink_none _ _ E uc Hin).
Qed.

End hash.

(** ** Operations on the representation *)

Lemma hash_repr_empty : hash_repr (replicate (Z.to_nat HASHSIZE) []) ∅.
Proof.
  split.
  - rewrite length_replicate. done.
  - intros i chain Hi. apply lookup_replicate in Hi as [-> _]. constructor.
  - intros i chain uc Hi Huc. apply lookup_replicate in Hi as [-> _]. by apply not_elem_of_nil in Huc.
  - intros fd r H. by rewrite lookup_empty in H.
Qed.

Lemma hash_blocks_empty n : hash_blocks (replicate n []) = 0.
Proof. induction n; cbn; lia. Qed.

Lemma get_queue_lemma s a owed :
  repr s a owed → ∃ q, get_queue s = Ok (q, NState (Some q) (live s)) ∧ queue_repr q a ∧
    live s = owed + hash_blocks (q_hash q) + Z.of_nat (length (a_waiting a)).
Proof.
  unfold repr, get_queue, set_queue. sm. destruct s as [[q|] n]; cbn [slot1 live].
  - intros [Hq Hl]. by exists q.
  - intros [-> ->]. exists new_queue. split; [done|]. split.
    + split; [apply hash_repr_empty|]. split; [done|]. apply (ring_repr_init 1024). lia.
    + change (q_hash new_queue) with (replicate (Z.to_nat HASHSIZE) (@nil uncomplete)).
      rewrite hash_blocks_empty. cbn. lia.
Qed.

Lemma np_expand_lemma q :
  Z.of_nat (length (q_queue q)) = q_cap q → 0 ≤ q_head q < q_cap q → q_cap q ≤ 2 ^ 30 →
  ∃ dst, (∀ s, expand_queue q s =
      Ok ((), NState (Some (Queue (q_cap q + QUEUESIZE) 0 (q_cap q) (q_hash q) dst)) (live s))) ∧
    Z.of_nat (length dst) = q_cap q + QUEUESIZE ∧
    ∀ i, Z.of_nat i < q_cap q → dst !! i = q_queue q !! ring_ix (q_head q) (q_cap q) i.
Proof.
  intros Hlen Hh Hcap.
  destruct (for_range_inv (λ j dst, Z.of_nat (length dst) = q_cap q + QUEUESIZE ∧
      ∀ i, Z.of_nat i < j → dst !! i = q_queue q !! ring_ix (q_head q) (q_cap q) i)
    (Z.to_nat (q_cap q)) 0 (expand_step q)
    (replicate (Z.to_nat (q_cap q + QUEUESIZE)) None)) as (dst & Hf & Hl & Hel).
  - rewrite length_replicate. unfold QUEUESIZE. split; lia.
  - intros j dst Hj (Hl & Hel). unfold expand_step. cbv zeta.
    assert (Hb := Z.mod_pos_bound (q_head q + j) (q_cap q) ltac:(lia)).
    destruct (rd_in_range (q_queue q) ((q_head q + j) mod q_cap q)) as (v & Hv & ->); [lia|].
    rewrite bind_ok, wr_ok by (unfold QUEUESIZE in *; lia). eexists. split; [done|].
    rewrite length_insert. split; [done|]. intros i Hi. rewrite list_lookup_insert.
    case_decide as E.
    + destruct E as [<- _]. rewrite <- Hv. f_equal. unfold ring_ix. by rewrite Z2Nat.id by lia.
    + apply Hel. unfold QUEUESIZE in *. lia.
  - exists dst. split; [|split; [done|]].
    + intros s. unfold expand_queue, set_queue.
      rewrite (lift_bind _ _ _ (q_cap q + QUEUESIZE))
        by (apply int_chk_ok; unfold INT_MIN, INT_MAX, QUEUESIZE; lia).
      by rewrite (lift_bind _ _ _ dst) by done.
    + rewrite Z2Nat.id in Hel by lia. exact Hel.
Qed.

Lemma push_data_lemma s a owed fd f clone :
  repr s a owed → Z.of_nat (length (a_waiting a)) < 2 ^ 29 →
  ∃ s', push_data fd (map Some f) (Z.of_nat (length f)) clone s = Ok ((), s') ∧
    repr s' (AQueue (a_parts a) (a_waiting a ++ [(fd, f)])) (if clone then owed else owed - 1).
Proof.
  intros Hs Hw. unfold push_data.
  set (s1 := if clone then NState (slot1 s) (live s + 1) else s).
  assert (Hs1 : repr s1 a (if clone then owed + 1 else owed)).
  { unfold s1. destruct clone; [|done]. unfold repr in *. cbn. destruct (slot1 s); intuition lia. }
  assert ((if clone then malloc_block else mret ()) s = Ok ((), s1)) as E by (by destruct clone).
  rewrite (sbind_ok _ _ _ _ _ E).
  destruct (get_queue_lemma _ _ _ Hs1) as (q & Eq & (Hh & Hc & Hr) & Hl).
  rewrite (sbind_ok _ _ _ _ _ Eq).
  set (w := map mk_netpack (a_waiting a)) in *. set (e := mk_netpack (fd, f)).
  assert (Htr := ring_repr_tail_range _ _ _ _ _ Hr). assert (Hlen := rr_len _ _ _ _ _ Hr).
  rewrite (lift_bind _ _ _ (<[Z.to_nat (q_tail q) := Some e]> (q_queue q)))
    by (by apply wr_ok; lia). cbv zeta.
  assert ((if q_tail q + 1 >=? q_cap q then q_tail q + 1 - q_cap q else q_tail q + 1) =
    wrap1 (q_tail q) (q_cap q)) as ->.
  { unfold wrap1. destruct (Z.geb_spec (q_tail q + 1) (q_cap q)); lia. }
  cbn [q_head q_tail].
  assert (Hw' : map mk_netpack (a_waiting a ++ [(fd, f)]) = w ++ [e]) by (by rewrite map_app).
  assert (Hlw : length w = length (a_waiting a)) by (unfold w; by rewrite length_map).
  destruct (Z.eqb_spec (q_head q) (wrap1 (q_tail q) (q_cap q))) as [Ef|Hroom].
  - rewrite (ring_full_iff _ _ _ _ _ e Hr) in Ef.
    set (q' := Queue _ _ _ _ _).
    destruct (np_expand_lemma q') as (dst & Hrun & Hld & Hel); cbn;
      [by rewrite length_insert|apply Hr|lia|].
    exists (NState (Some (Queue (q_cap q + QUEUESIZE) 0 (q_cap q) (q_hash q) dst)) (live s1)).
    split; [by rewrite Hrun|]. unfold repr, queue_repr. cbn. rewrite Hw', length_app. cbn.
    split; [|destruct clone; lia]. split; [done|]. split; [unfold QUEUESIZE in *; lia|].
    replace (q_cap q) with (Z.of_nat (length (w ++ [e]))) at 2 by (rewrite length_app; cbn; lia).
    apply ring_repr_flat; [done|rewrite length_app; unfold QUEUESIZE in *; cbn; lia|].
    intros i y Hy. pose proof (lookup_lt_Some _ _ _ Hy) as Hi. rewrite length_app in Hi. cbn in Hi.
    rewrite Hel by (cbn; lia). cbn. by apply (ring_store_elem _ _ _ _ w).
  - eexists. split; [done|]. unfold repr, queue_repr. cbn. rewrite Hw', length_app. cbn.
    split; [|destruct clone; lia]. split; [done|]. split; [done|].
    apply ring_push; [done|]. rewrite (ring_full_iff _ _ _ _ _ e Hr) in Hroom.
    pose proof (rr_room _ _ _ _ _ Hr). lia.
Qed.

(** Taking the entry of a connection out of the table. *)
Lemma find_lemma s a owed fd :
  repr s a owed → 0 ≤ fd < 2 ^ 30 →
  match a_parts a !! fd with
  | None => find_uncomplete fd s = Ok (None, s)
  | Some r => ∃ uc s', find_uncomplete fd s = Ok (Some uc, s') ∧ uc_ok uc r ∧ uc_id uc = fd ∧
      repr s' (AQueue (delete fd (a_parts a)) (a_waiting a)) (owed + uc_blocks uc) ∧
      is_Some (slot1 s')
  end.
Proof.
  unfold repr, find_uncomplete. intros Hs Hfd. destruct (hash_fd_ok fd Hfd) as (i & Hi & Hlt).
  rewrite gets_bind. destruct (slot1 s) as [q|].
  - destruct Hs as [(Hh & Hc & Hr) Hl]. rewrite (lift_bind _ _ _ _ Hi).
    destruct (chain_exists Hh i Hlt) as [chain Hch].
    rewrite (lift_bind _ _ _ chain) by (apply rd_ok; [lia|by rewrite Nat2Z.id]).
    pose proof (chain_find Hh fd i chain Hi Hch) as Hf.
    destruct (unlink fd chain) as [[uc chain']|].
    + destruct Hf as ((r & -> & Hok) & Hid & Hrepr & Hblocks).
      pose proof (lookup_lt_Some _ _ _ Hch).
      rewrite (lift_bind _ _ _ (<[i := chain']> (q_hash q)))
        by (rewrite wr_ok, Nat2Z.id by lia; done).
      eexists uc, _. split; [done|]. split; [done|]. split; [done|]. split; [|done]. cbn.
      split; [done|]. lia.
    + by rewrite Hf.
  - destruct Hs as [-> _]. cbn. by rewrite lookup_empty.
Qed.

(** Linking an entry. *)
Lemma link_lemma q a fd uc r :
  queue_repr q a → a_parts a !! fd = None → 0 ≤ fd < 2 ^ 30 → uc_ok uc r → uc_id uc = fd →
  ∃ h chain hash, hash_fd fd = Ok h ∧ rd (q_hash q) h = Ok chain ∧
    wr (q_hash q) h (uc :: chain) = Ok hash ∧
    queue_repr (set_hash q hash) (AQueue (<[fd := r]> (a_parts a)) (a_waiting a)) ∧
    hash_blocks hash = hash_blocks (q_hash q) + uc_blocks uc.
Proof.
  intros (Hh & Hc & Hr) Hn Hfd Hok Hid. destruct (hash_fd_ok fd Hfd) as (i & Hi & Hlt).
  destruct (chain_exists Hh i Hlt) as [chain Hch].
  exists (Z.of_nat i), chain, (<[i := uc :: chain]> (q_hash q)).
  pose proof (lookup_lt_Some _ _ _ Hch). subst fd.
  split; [done|]. split; [apply rd_ok; [lia|by rewrite Nat2Z.id]|].
  split; [rewrite wr_ok, Nat2Z.id by lia; done|]. split.
  - split; [|done]. cbn. by apply chain_add.
  - rewrite (hash_blocks_insert _ _ _ _ Hch). cbn. lia.
Qed.

Lemma save_lemma s a owed fd uc r :
  repr s a owed → a_parts a !! fd = None → 0 ≤ fd < 2 ^ 30 → uc_ok uc r → uc_id uc = fd →
  ∃ s', save_uncomplete fd uc s = Ok ((), s') ∧
    repr s' (AQueue (<[fd := r]> (a_parts a)) (a_waiting a)) (owed + 1 - uc_blocks uc).
Proof.
  intros Hs Hn Hfd Hok Hid. unfold save_uncomplete, malloc_block, set_queue.
  destruct (get_queue_lemma _ _ _ Hs) as (q & Eq & Hq & Hl). rewrite (sbind_ok _ _ _ _ _ Eq).
  destruct (link_lemma q a fd uc r) as (h & chain & hash & E1 & E2 & E3 & Hq' & Hb); try done.
  rewrite (lift_bind _ _ _ _ E1), modify_bind, (lift_bind _ _ _ _ E2), (lift_bind _ _ _ _ E3).
  eexists. split; [done|]. unfold repr. cbn. split; [done|]. lia.
Qed.

(** ** Reading the header *)

Lemma lor_header b0 b1 : byte b0 → byte b1 → Z.lor (Z.shiftl b0 8) b1 = b0 * 256 + b1.
Proof. unfold byte. intros H0 H1. rewrite Z.lor_comm, lor_shiftl; lia. Qed.

Lemma read_size_lemma b0 b1 rest :
  byte b0 → byte b1 → read_size (b0 :: b1 :: rest) = Ok (b0 * 256 + b1).
Proof.
  intros H0 H1. unfold read_size.
  rewrite (rd_ok (b0 :: b1 :: rest) 0 b0) by (done || lia). rewrite bind_ok.
  rewrite (rd_ok (b0 :: b1 :: rest) 1 b1) by (done || lia). rewrite bind_ok.
  by rewrite lor_header.
Qed.

Lemma save_header_lemma s a owed fd b :
  repr s a owed → a_parts a !! fd = None → 0 ≤ fd < 2 ^ 30 → byte b →
  ∃ s', save_header fd b s = Ok ((), s') ∧
    repr s' (AQueue (<[fd := [b]]> (a_parts a)) (a_waiting a)) owed.
Proof.
  intros Hs Hn Hfd Hb. set (uc := Uncomplete (Netpack fd 0 None) (-1) b).
  destruct (save_lemma s a owed fd uc [b]) as (s' & Hrun & Hs'); try done; [by apply uc_ok_header|].
  exists s'. split; [done|]. cbn in Hs'. by replace (owed + 1 - 1) with owed in Hs' by lia.
Qed.

Lemma save_body_lemma s a owed fd b0 b1 got :
  repr s a owed → a_parts a !! fd = None → 0 ≤ fd < 2 ^ 30 → byte b0 → byte b1 →
  Z.of_nat (length got) < b0 * 256 + b1 →
  ∃ s', save_body fd (b0 * 256 + b1) got s = Ok ((), s') ∧
    repr s' (AQueue (<[fd := b0 :: b1 :: got]> (a_parts a)) (a_waiting a)) owed.
Proof.
  intros Hs Hn Hfd H0 H1 Hlt. unfold save_body, malloc_block. rewrite modify_bind.
  pose proof (wr_at_fill got [] (Z.to_nat (b0 * 256 + b1)) ltac:(lia)) as Hw. cbn [map app length] in Hw.
  rewrite (lift_bind _ _ _ _ Hw).
  set (s1 := NState (slot1 s) (live s + 1)).
  assert (Hs1 : repr s1 a (owed + 1)).
  { unfold repr in *. cbn. destruct (slot1 s); intuition lia. }
  set (uc := Uncomplete _ _ _).
  destruct (save_lemma s1 a (owed + 1) fd uc (b0 :: b1 :: got)) as (s' & Hrun & Hs'); try done.
  { by apply uc_ok_body. }
  exists s'. split; [done|]. cbn in Hs'. by replace (owed + 1 + 1 - 2) with owed in Hs' by lia.
Qed.

(** ** Streams *)

(** The queue after the bytes of a connection that has no incomplete package. *)
Definition a_push (fd : Z) (bytes : list Z) (a : aqueue) : aqueue :=
  AQueue (put_part fd (frames bytes).2 (a_parts a))
         (a_waiting a ++ map (pair fd) (frames bytes).1).

(** The three shapes of a non-empty stream. *)
Lemma stream_cases bytes :
  bytes ≠ [] → Forall byte bytes →
  (∃ b, bytes = [b] ∧ byte b) ∨
  (∃ b0 b1 got, bytes = b0 :: b1 :: got ∧ byte b0 ∧ byte b1 ∧ Z.of_nat (length got) < b0 * 256 + b1) ∨
  (∃ b0 b1 f rest, bytes = b0 :: b1 :: f ++ rest ∧ byte b0 ∧ byte b1 ∧
     Z.of_nat (length f) = b0 * 256 + b1 ∧ Forall byte rest).
Proof.
  intros Hne Hb. destruct bytes as [|b0 [|b1 body]]; [done|left; exists b0; by inversion Hb|right].
  apply Forall_cons in Hb as [H0 Hb]. apply Forall_cons in Hb as [H1 Hb]. unfold byte in *.
  destruct (Z_lt_le_dec (Z.of_nat (length body)) (b0 * 256 + b1)); [left; eauto 8|right].
  exists b0, b1, (take (Z.to_nat (b0 * 256 + b1)) body), (drop (Z.to_nat (b0 * 256 + b1)) body).
  rewrite take_drop, length_take_le by lia. split; [done|]. split; [done|]. split; [done|].
  split; [lia|]. by apply Forall_drop.
Qed.

Lemma push_more_lemma fuel : ∀ fd bytes s a owed,
  repr s a owed → a_parts a !! fd = None → 0 ≤ fd < 2 ^ 30 → bytes ≠ [] → Forall byte bytes →
  (length bytes < fuel)%nat → Z.of_nat (length (a_waiting a)) + Z.of_nat (length bytes) < 2 ^ 29 →
  ∃ s', push_more fuel fd bytes s = Ok ((), s') ∧ repr s' (a_push fd bytes a) owed.
Proof.
  induction fuel as [|fuel IH]; intros fd bytes s a owed Hs Hn Hfd Hne Hb Hf Hw; [lia|].
  cbn [push_more]. unfold a_push.
  destruct (stream_cases bytes Hne Hb) as
    [(b & -> & Hb0)|[(b0 & b1 & got & -> & H0 & H1 & Hlt)|(b0 & b1 & f & rest & -> & H0 & H1 & Hlen & Hrest)]].
  - cbn [length]. change (Z.of_nat 1 =? 1) with true. cbv iota.
    rewrite (lift_bind _ _ _ b) by (apply rd_ok; [lia|done]).
    cbn. rewrite app_nil_r. by apply save_header_lemma.
  - destruct (Z.eqb_spec (Z.of_nat (length (b0 :: b1 :: got))) 1) as [E|_]; [cbn in E; lia|].
    rewrite (lift_bind _ _ _ (b0 * 256 + b1)) by (by apply read_size_lemma).
    change (drop 2 (b0 :: b1 :: got)) with got. cbv zeta.
    destruct (Z.ltb_spec (Z.of_nat (length got)) (b0 * 256 + b1)); [|lia].
    rewrite frames_incomplete by done. cbn [fst snd map put_part]. rewrite app_nil_r.
    by apply save_body_lemma.
  - destruct (Z.eqb_spec (Z.of_nat (length (b0 :: b1 :: f ++ rest))) 1) as [E|_]; [cbn in E; lia|].
    rewrite (lift_bind _ _ _ (b0 * 256 + b1)) by (by apply read_size_lemma).
    change (drop 2 (b0 :: b1 :: f ++ rest)) with (f ++ rest). cbv zeta. rewrite length_app.
    destruct (Z.ltb_spec (Z.of_nat (length f + length rest)) (b0 * 256 + b1)); [lia|].
    replace (Z.to_nat (b0 * 256 + b1)) with (length f) by lia.
    rewrite take_app_length, drop_app_length, <- Hlen. cbn [length] in Hf, Hw. rewrite length_app in Hf, Hw.
    destruct (push_data_lemma s a owed fd f true) as (s1 & E1 & Hs1); [done|lia|].
    rewrite (sbind_ok _ _ _ _ _ E1), frames_complete by done. cbn [fst snd map].
    destruct rest as [|c rest].
    + exists s1. split; [done|]. cbn. by rewrite delete_id.
    + destruct (Z.gtb_spec (Z.of_nat (length (c :: rest))) 0) as [_|E]; [|cbn in E; lia].
      destruct (IH fd (c :: rest) s1 _ owed Hs1) as (s' & Hrun & Hs'); try done; [lia| |].
      { cbn [a_waiting]. rewrite length_app. cbn [length] in *. lia. }
      exists s'. split; [done|]. unfold a_push in Hs'. cbn [a_parts a_waiting] in Hs'.
      by rewrite <- app_assoc in Hs'.
Qed.

(** [a_data] when a package comes with more bytes behind it. *)
Lemma a_data_more fd bytes a B b0 b1 f rest :
  default [] (a_parts a !! fd) ++ bytes = B → B = b0 :: b1 :: f ++ rest → byte b0 → byte b1 →
  Z.of_nat (length f) = b0 * 256 + b1 → rest ≠ [] → Forall byte rest →
  a_data fd bytes a = (FMore, a_push fd rest
    (AQueue (delete fd (a_parts a)) (a_waiting a ++ [(fd, f)]))).
Proof.
  intros EB -> H0 H1 Hlen Hne Hb. unfold a_data, a_push. rewrite EB, frames_complete by done.
  cbn [a_parts a_waiting].
  assert (put_part fd (frames rest).2 (delete fd (a_parts a)) = put_part fd (frames rest).2 (a_parts a)) as ->.
  { unfold put_part. case_match; [by rewrite delete_delete_eq|by rewrite insert_delete_eq]. }
  rewrite <- app_assoc. cbn [app].
  destruct (frames rest) as [fs r] eqn:E. cbn [fst snd map].
  destruct fs as [|f1 fs]; [|by destruct r].
  destruct r as [|c r]; [|done].
  destruct (stream_cases rest Hne Hb) as
    [(b & -> & Hb0)|[(c0 & c1 & got & -> & Hc0 & Hc1 & Hlt)|(c0 & c1 & g & rest' & -> & Hc0 & Hc1 & Hl & Hr)]].
  - by rewrite frames_short in E by (cbn; lia).
  - by rewrite frames_incomplete in E.
  - by rewrite frames_complete in E.
Qed.

(** The state of a filled entry: what [read_header] makes of an entry for [r] and more
    bytes. *)
Lemma np_read_header_lemma s uc r bytes :
  uc_ok uc r → bytes ≠ [] → Forall byte bytes →
  ∃ uc' got b0 b1 more n, read_header uc bytes s = Ok ((uc', more), NState (slot1 s) (live s + n)) ∧
    r ++ bytes = b0 :: b1 :: got ++ more ∧ byte b0 ∧ byte b1 ∧ Forall byte more ∧
    uc_id uc' = uc_id uc ∧ np_size (uc_pack uc') = b0 * 256 + b1 ∧
    uc_read uc' = Z.of_nat (length got) ∧ Z.of_nat (length got) ≤ b0 * 256 + b1 ∧
    np_buffer (uc_pack uc') =
      Some (map Some got ++ replicate (Z.to_nat (b0 * 256 + b1) - length got) None) ∧
    uc_blocks uc + n = 2 ∧ (length more ≤ length bytes)%nat.
Proof.
  intros Hok Hne Hb. unfold read_header, malloc_block. inversion Hok; subst.
  - rewrite H1. change (-1 <? 0) with true. change (-1 =? -1) with true. cbv iota.
    destruct bytes as [|c bytes]; [done|]. apply Forall_cons in Hb as [Hc Hb].
    unfold assertb. rewrite (lift_bind _ _ _ ()) by done.
    rewrite (lift_bind _ _ _ c) by (apply rd_ok; [lia|done]). rewrite modify_bind.
    rewrite (Z.lor_comm c), lor_header by done.
    eexists _, [], (uc_header uc), c, bytes, 1. split; [reflexivity|]. cbn.
    rewrite Nat.sub_0_r. unfold uc_blocks. rewrite H0. unfold byte in *. repeat split; (done || lia).
  - rewrite H3. destruct (Z.ltb_spec (Z.of_nat (length got)) 0); [lia|].
    exists uc, got, b0, b1, bytes, 0. rewrite Z.add_0_r. split; [by destruct s|].
    cbn. unfold uc_blocks. rewrite H4. unfold byte in *. repeat split; (done || lia).
Qed.

Lemma a_data_incomplete fd bytes a b0 b1 got :
  default [] (a_parts a !! fd) ++ bytes = b0 :: b1 :: got → byte b0 → byte b1 →
  Z.of_nat (length got) < b0 * 256 + b1 →
  a_data fd bytes a = (FNone, AQueue (<[fd := b0 :: b1 :: got]> (a_parts a)) (a_waiting a)).
Proof. intros E H0 H1 Hlt. unfold a_data. rewrite E, frames_incomplete by done. done. Qed.

Lemma a_data_exact fd bytes a b0 b1 f :
  default [] (a_parts a !! fd) ++ bytes = b0 :: b1 :: f → byte b0 → byte b1 →
  Z.of_nat (length f) = b0 * 256 + b1 →
  a_data fd bytes a = (FData fd (map Some f) (Z.of_nat (length f)),
    AQueue (delete fd (a_parts a)) (a_waiting a)).
Proof.
  intros E H0 H1 Hlen. unfold a_data.
  pose proof (frames_complete b0 b1 f [] H0 H1 Hlen) as Ef. rewrite app_nil_r in Ef. by rewrite E, Ef.
Qed.

(** How many blocks a result hands over. *)
Definition handed (r : filter_result) : Z := match r with FData _ _ _ => 1 | _ => 0 end.

Lemma live_shift s a owed n m :
  repr s a owed → m = owed + n → repr (NState (slot1 s) (live s + n)) a m.
Proof. unfold repr. cbn. intros H ->. destruct (slot1 s); intuition lia. Qed.

Lemma fill_lemma s a P w owed fd uc r bytes :
  uc_ok uc r → uc_id uc = fd → 0 ≤ fd < 2 ^ 30 → bytes ≠ [] → Forall byte bytes →
  a = AQueue P w → P !! fd = Some r → is_Some (slot1 s) →
  repr s (AQueue (delete fd P) w) (owed + uc_blocks uc) →
  Z.of_nat (length w) + Z.of_nat (length bytes) < 2 ^ 28 →
  ∃ s', fill_uncomplete fd uc bytes s = Ok ((a_data fd bytes a).1, s') ∧
    repr s' (a_data fd bytes a).2 (owed + handed (a_data fd bytes a).1).
Proof.
  intros Hok Hid Hfd Hne Hb -> HP [q Hq] Hs Hw.
  destruct (np_read_header_lemma s uc r bytes Hok Hne Hb)
    as (uc' & got & b0 & b1 & more & n & Erun & EB & H0 & H1 & Hm & Hid' & Hsz & Hrd & Hle & Hbuf & Hn & Hlen).
  assert (EB' : default [] (a_parts (AQueue P w) !! fd) ++ bytes = b0 :: b1 :: got ++ more)
    by (cbn; by rewrite HP).
  pose proof (live_shift _ _ _ n (owed + 2) Hs ltac:(lia)) as Hs1. set (s1 := NState _ _) in *.
  unfold fill_uncomplete. rewrite (sbind_ok _ _ _ _ _ Erun). cbv zeta.
  rewrite Hbuf. cbn [or_fault]. rewrite (lift_bind _ _ _ _ eq_refl), Hsz, Hrd.
  destruct (Z.ltb_spec (Z.of_nat (length more)) (b0 * 256 + b1 - Z.of_nat (length got))) as [Hlt|Hge].
  - pose proof (wr_at_fill more got (Z.to_nat (b0 * 256 + b1) - length got) ltac:(lia)) as Ew.
    rewrite (lift_bind _ _ _ _ Ew), gets_bind.
    change (slot1 s1) with (slot1 s). rewrite Hq. cbn [or_fault]. rewrite (lift_bind _ _ _ _ eq_refl).
    set (uc2 := Uncomplete _ _ _).
    unfold repr in Hs1. change (slot1 s1) with (slot1 s) in Hs1. rewrite Hq in Hs1.
    destruct Hs1 as [Hqr Hl].
    destruct (link_lemma q _ fd uc2 (b0 :: b1 :: got ++ more) Hqr)
      as (h & chain & hash & E1 & E2 & E3 & Hq' & Hbl).
    { apply lookup_delete_eq. } { done. }
    { apply uc_ok_body; cbn; rewrite ?length_app; try done; [lia|lia|].
      do 3 f_equal. lia. }
    { unfold uc2, uc_id in *. cbn. congruence. }
    rewrite (lift_bind _ _ _ _ E1), (lift_bind _ _ _ _ E2), (lift_bind _ _ _ _ E3).
    rewrite (a_data_incomplete fd bytes _ b0 b1 (got ++ more)) by (done || (rewrite length_app; lia)).
    eexists. split; [reflexivity|]. unfold repr. cbn in Hq' |- *.
    rewrite insert_delete_eq in Hq'. split; [done|]. cbn in Hbl, Hl. lia.
  - set (k := Z.to_nat (b0 * 256 + b1 - Z.of_nat (length got))).
    assert (Hf : Z.of_nat (length (got ++ take k more)) = b0 * 256 + b1).
    { rewrite length_app, length_take_le by (unfold k; lia). unfold k. lia. }
    assert (Htk : (length (take k more) = k)%nat) by (apply length_take_le; unfold k; lia).
    assert (Ew : wr_at (map Some got ++ replicate (Z.to_nat (b0 * 256 + b1) - length got) None)
      (Z.of_nat (length got)) (take k more) = Ok (map Some (got ++ take k more))).
    { rewrite wr_at_fill by (rewrite Htk; unfold k; lia). rewrite Htk.
      replace (Z.to_nat (b0 * 256 + b1) - length got - k)%nat with 0%nat by (unfold k; lia).
      by rewrite app_nil_r. }
    rewrite (lift_bind _ _ _ _ Ew).
    assert (EB2 : b0 :: b1 :: got ++ more = b0 :: b1 :: (got ++ take k more) ++ drop k more)
      by (by rewrite <- app_assoc, take_drop).
    rewrite EB2 in EB'. destruct (drop k more) as [|c rest] eqn:Ed.
    + cbn [length]. change (Z.of_nat 0 =? 0) with true. cbv iota. unfold free_block. rewrite modify_bind.
      rewrite app_nil_r in EB'. rewrite (a_data_exact fd bytes _ b0 b1 (got ++ take k more)) by done.
      rewrite <- Hf. eexists. split; [reflexivity|]. cbn [fst snd handed a_parts a_waiting].
      by apply (live_shift _ _ _ (-1) _ Hs1); lia.
    + destruct (Z.eqb_spec (Z.of_nat (length (c :: rest))) 0) as [E|_]; [cbn in E; lia|].
      rewrite <- Hf.
      destruct (push_data_lemma s1 _ _ fd (got ++ take k more) false Hs1) as (s2 & E2 & Hs2);
        [cbn; lia|].
      rewrite (sbind_ok _ _ _ _ _ E2). unfold free_block. rewrite modify_bind.
      assert (Forall byte (c :: rest)) as Hcr by (rewrite <- Ed; by apply Forall_drop).
      pose proof (live_shift _ _ _ (-1) owed Hs2 ltac:(lia)) as Hs3.
      destruct (push_more_lemma (S (length (c :: rest))) fd (c :: rest) _ _ _ Hs3) as (s' & E3 & Hs');
        try done; [apply lookup_delete_eq|lia| |].
      { rewrite <- Ed, length_drop. cbn. rewrite length_app. cbn. lia. }
      rewrite (sbind_ok _ _ _ _ _ E3).
      rewrite (a_data_more fd bytes _ _ b0 b1 (got ++ take k more) (c :: rest) EB') by done.
      exists s'. split; [done|]. cbn [fst snd handed]. by rewrite Z.add_0_r.
Qed.

Lemma filter_data_lemma s a owed fd bytes :
  repr s a owed → 0 ≤ fd < 2 ^ 30 → bytes ≠ [] → Forall byte bytes →
  Z.of_nat (length (a_waiting a)) + Z.of_nat (length bytes) < 2 ^ 28 →
  ∃ s', filter_data fd bytes s = Ok ((a_data fd bytes a).1, s') ∧
    repr s' (a_data fd bytes a).2 (owed + handed (a_data fd bytes a).1 - 1).
Proof.
  intros Hs Hfd Hne Hb Hw.
  assert (∃ s', filter_data_ fd bytes s = Ok ((a_data fd bytes a).1, s') ∧
    repr s' (a_data fd bytes a).2 (owed + handed (a_data fd bytes a).1)) as (s' & E & Hs').
  2:{ unfold filter_data, free_block. rewrite (sbind_ok _ _ _ _ _ E), modify_bind.
      eexists. split; [reflexivity|]. by apply (live_shift _ _ _ (-1) _ Hs'); lia. }
  unfold filter_data_. pose proof (find_lemma s a owed fd Hs Hfd) as Hfind.
  destruct (a_parts a !! fd) as [r|] eqn:HP.
  { destruct Hfind as (uc & s1 & E & Hok & Hid & Hs1 & Hsome). rewrite (sbind_ok _ _ _ _ _ E).
    destruct a as [P w]. by apply (fill_lemma s1 _ P w owed fd uc r). }
  rewrite (sbind_ok _ _ _ _ _ Hfind).
  assert (ED : default [] (a_parts a !! fd) ++ bytes = bytes) by (by rewrite HP).
  destruct (stream_cases bytes Hne Hb) as
    [(b & -> & Hb0)|[(b0 & b1 & got & -> & H0 & H1 & Hlt)|(b0 & b1 & f & rest & -> & H0 & H1 & Hlen & Hrest)]].
  - cbn [length]. change (Z.of_nat 1 =? 1) with true. cbv iota.
    rewrite (lift_bind _ _ _ b) by (apply rd_ok; [lia|done]).
    destruct (save_header_lemma s a owed fd b) as (s' & E & Hs'); try done.
    rewrite (sbind_ok _ _ _ _ _ E). unfold a_data. rewrite ED. exists s'. split; [done|].
    cbn. by rewrite Z.add_0_r.
  - destruct (Z.eqb_spec (Z.of_nat (length (b0 :: b1 :: got))) 1) as [E|_]; [cbn in E; lia|].
    rewrite (lift_bind _ _ _ (b0 * 256 + b1)) by (by apply read_size_lemma).
    change (drop 2 (b0 :: b1 :: got)) with got. cbv zeta.
    destruct (Z.ltb_spec (Z.of_nat (length got)) (b0 * 256 + b1)); [|lia].
    destruct (save_body_lemma s a owed fd b0 b1 got) as (s' & E & Hs'); try done.
    rewrite (sbind_ok _ _ _ _ _ E), (a_data_incomplete fd _ a b0 b1 got) by done.
    exists s'. split; [done|]. cbn. by rewrite Z.add_0_r.
  - destruct (Z.eqb_spec (Z.of_nat (length (b0 :: b1 :: f ++ rest))) 1) as [E|_]; [cbn in E; lia|].
    rewrite (lift_bind _ _ _ (b0 * 256 + b1)) by (by apply read_size_lemma).
    change (drop 2 (b0 :: b1 :: f ++ rest)) with (f ++ rest). cbv zeta. rewrite length_app.
    cbn [length] in Hw. rewrite length_app in Hw.
    destruct (Z.ltb_spec (Z.of_nat (length f + length rest)) (b0 * 256 + b1)); [lia|].
    destruct rest as [|c rest].
    + rewrite app_nil_r in *. destruct (Z.eqb_spec (Z.of_nat (length f + length (@nil Z))) (b0 * 256 + b1)) as [_|E];
        [|cbn in E; lia].
      rewrite (a_data_exact fd _ a b0 b1 f) by done. cbn [length]. rewrite Nat.add_0_r.
      eexists. split; [reflexivity|]. cbn [fst snd handed]. rewrite delete_id by done.
      destruct a. by apply (live_shift _ _ _ 1 _ Hs).
    + destruct (Z.eqb_spec (Z.of_nat (length f + length (c :: rest))) (b0 * 256 + b1)) as [E|_];
        [cbn [length] in E; lia|].
      replace (Z.to_nat (b0 * 256 + b1)) with (length f) by lia.
      rewrite take_app_length, drop_app_length, <- Hlen.
      destruct (push_data_lemma s a owed fd f true) as (s1 & E1 & Hs1); [done|lia|].
      rewrite (sbind_ok _ _ _ _ _ E1).
      destruct (push_more_lemma (S (length (c :: rest))) fd (c :: rest) _ _ _ Hs1) as (s' & E3 & Hs');
        try done; [lia| |].
      { cbn [a_waiting]. rewrite length_app. cbn [length] in *. lia. }
      rewrite (sbind_ok _ _ _ _ _ E3).
      rewrite (a_data_more fd _ a _ b0 b1 f (c :: rest) ED) by done.
      exists s'. split; [done|]. cbn [fst snd handed]. rewrite Z.add_0_r, delete_id by done. done.
Qed.

(** ** Pop, close and clear *)

Lemma pop_lemma s a owed :
  repr s a owed → ∃ s', lpop s = Ok ((a_pop a).1, s') ∧
    repr s' (a_pop a).2 (owed + (if (a_pop a).1 then 1 else 0)).
Proof.
  unfold repr, lpop, a_pop. intros Hs. rewrite gets_bind. destruct (slot1 s) as [q|] eqn:Eq.
  - destruct Hs as [(Hh & Hc & Hr) Hl]. destruct a as [P [|e w]]; cbn [a_waiting a_parts] in *.
    + destruct (Z.eqb_spec (q_head q) (q_tail q)) as [_|Hne];
        [|by destruct Hne; apply (ring_empty_iff _ _ _ _ _ Hr)].
      exists s. split; [done|]. rewrite Eq. cbn. split; [done|]. cbn in Hl. lia.
    + destruct (Z.eqb_spec (q_head q) (q_tail q)) as [E|_];
        [by apply (ring_empty_iff _ _ _ _ _ Hr) in E|].
      destruct (ring_pop _ _ _ _ _ _ Hr) as [Ep Hr'].
      rewrite (lift_bind _ _ _ _ Ep). eexists. split; [reflexivity|]. cbn.
      split; [done|]. cbn [length] in Hl. lia.
  - destruct Hs as [-> Hl]. exists s. split; [done|]. rewrite Eq. cbn. split; [done|lia].
Qed.

Definition a_close (fd : Z) (a : aqueue) : aqueue := AQueue (delete fd (a_parts a)) (a_waiting a).

Lemma np_close_lemma s a owed fd :
  repr s a owed → 0 ≤ fd < 2 ^ 30 →
  ∃ s', close_uncomplete fd s = Ok ((), s') ∧ repr s' (a_close fd a) owed.
Proof.
  intros Hs Hfd. unfold close_uncomplete, a_close. pose proof (find_lemma s a owed fd Hs Hfd) as Hf.
  destruct (a_parts a !! fd) as [r|] eqn:HP.
  - destruct Hf as (uc & s1 & E & Hok & Hid & Hs1 & _). rewrite (sbind_ok _ _ _ _ _ E).
    unfold free_buffer, free_block, uc_blocks in *. destruct (np_buffer (uc_pack uc)).
    + rewrite modify_bind. eexists. split; [reflexivity|]. cbn.
      replace (live s1 - 1 - 1) with (live s1 + -2) by lia. by apply (live_shift _ _ _ _ _ Hs1); lia.
    + rewrite ret_bind. eexists. split; [reflexivity|]. by apply (live_shift _ _ _ (-1) _ Hs1); lia.
  - rewrite (sbind_ok _ _ _ _ _ Hf). exists s. split; [done|]. rewrite delete_id by done. by destruct a.
Qed.

Lemma clear_list_lemma chain : ∀ s,
  clear_list chain s = Ok ((), NState (slot1 s) (live s - chain_blocks chain)).
Proof.
  induction chain as [|u chain IH]; intros s; cbn [clear_list chain_blocks].
  - rewrite Z.sub_0_r. by destruct s.
  - unfold free_buffer, uc_blocks. destruct (np_buffer (uc_pack u)); unfold free_block;
      rewrite ?modify_bind, ?ret_bind, ?modify_bind, IH; cbn; do 3 f_equal; lia.
Qed.

Lemma hash_blocks_app l1 l2 : hash_blocks (l1 ++ l2) = hash_blocks l1 + hash_blocks l2.
Proof. induction l1 as [|c l1 IH]; cbn; [done|]. rewrite IH. lia. Qed.

Lemma clear_buckets_lemma q s :
  Z.of_nat (length (q_hash q)) = HASHSIZE →
  for_rangeM (Z.to_nat HASHSIZE) 0 (clear_bucket q) s =
    Ok ((), NState (slot1 s) (live s - hash_blocks (q_hash q))).
Proof.
  intros Hlen.
  destruct (for_rangeM_inv (λ j t,
    t = NState (slot1 s) (live s - hash_blocks (take (Z.to_nat j) (q_hash q))))
    (Z.to_nat HASHSIZE) 0 (clear_bucket q) s) as (s' & -> & ->).
  - cbn. rewrite Z.sub_0_r. by destruct s.
  - intros j t Hj ->. unfold clear_bucket.
    destruct (rd_in_range (q_hash q) j) as (chain & Hc & E); [lia|].
    rewrite (lift_bind _ _ _ _ E), clear_list_lemma. eexists. split; [reflexivity|]. cbn.
    replace (Z.to_nat (j + 1)) with (S (Z.to_nat j)) by lia.
    rewrite (take_S_r _ _ _ Hc), hash_blocks_app. cbn. f_equal. lia.
  - rewrite take_ge by lia. done.
Qed.

Lemma clear_slots_lemma q a s :
  queue_repr q a → let tail := if q_head q >? q_tail q then q_tail q + q_cap q else q_tail q in
  for_rangeM (Z.to_nat (tail - q_head q)) (q_head q) (clear_slot q) s =
    Ok ((), NState (slot1 s) (live s - Z.of_nat (length (a_waiting a)))).
Proof.
  intros (_ & _ & Hr) tail.
  assert (Hlen : Z.of_nat (length (a_waiting a)) = tail - q_head q).
  { rewrite <- (length_map mk_netpack), (ring_length _ _ _ _ _ Hr). unfold tail.
    destruct (Z.gtb_spec (q_head q) (q_tail q)), (Z.leb_spec (q_head q) (q_tail q)); lia. }
  destruct (for_rangeM_inv (λ j t, t = NState (slot1 s) (live s - (j - q_head q)))
    (Z.to_nat (tail - q_head q)) (q_head q) (clear_slot q) s) as (s' & -> & ->).
  - rewrite Z.sub_diag, Z.sub_0_r. by destruct s.
  - intros j t Hj ->. unfold clear_slot.
    destruct (lookup_lt_is_Some_2 (a_waiting a) (Z.to_nat (j - q_head q))) as [e He]; [lia|].
    pose proof (rr_elem _ _ _ _ _ Hr (Z.to_nat (j - q_head q)) (mk_netpack e)) as Hel.
    rewrite list_lookup_fmap, He in Hel. specialize (Hel eq_refl). unfold ring_ix in Hel.
    replace (q_head q + Z.of_nat (Z.to_nat (j - q_head q))) with j in Hel by lia.
    pose proof (rr_head _ _ _ _ _ Hr).
    rewrite (lift_bind _ _ _ (mk_netpack e)) by (apply rd_init_ok; [apply Z.mod_pos_bound; lia|done]).
    cbn. eexists. split; [reflexivity|]. cbn. f_equal. lia.
  - do 3 f_equal. lia.
Qed.

Lemma clear_lemma s a owed :
  repr s a owed → ∃ s', lclear s = Ok ((), s') ∧ repr s' (AQueue ∅ []) owed.
Proof.
  unfold repr, lclear. intros Hs. rewrite gets_bind. destruct (slot1 s) as [q|] eqn:Eq.
  - destruct Hs as [Hq Hl]. pose proof Hq as (Hh & Hc & Hr).
    rewrite (sbind_ok _ _ _ _ _ (clear_buckets_lemma q s (hr_len _ _ Hh))). cbv zeta.
    rewrite (sbind_ok _ _ _ _ _ (clear_slots_lemma q a _ Hq)).
    eexists. split; [reflexivity|]. unfold queue_repr. cbn [slot1 live q_hash q_cap q_head q_tail q_queue a_parts a_waiting].
    rewrite hash_blocks_empty. split; [|cbn; lia]. split; [apply hash_repr_empty|]. split; [done|].
    apply (ring_repr_flat _ _ []); [apply Hr|cbn; unfold QUEUESIZE in *; lia|done].
  - exists s. split; [done|]. rewrite Eq. destruct Hs as [_ ?]. done.
Qed.

(** ** Histories *)

Inductive op : Set :=
| OFilter (m : socket_msg)
| OPop
| OClear.

Inductive out : Set :=
| RFilter (r : filter_result)
| RPop (np : option netpack)
| RClear.

Definition run_op (o : op) : SM nstate out :=
  match o with
  | OFilter m => r ← lfilter m; mret (RFilter r)
  | OPop => np ← lpop; mret (RPop np)
  | OClear => _ ← lclear; mret RClear
  end.

Fixpoint run_ops (os : list op) : SM nstate (list out) :=
  match os with
  | [] => mret []
  | o :: os => r ← run_op o; rs ← run_ops os; mret (r :: rs)
  end.

Definition a_filter (m : socket_msg) (a : aqueue) : filter_result * aqueue :=
  if sm_type m =? SKYNET_SOCKET_TYPE_DATA then a_data (sm_id m) (default [] (sm_buffer m)) a
  else if sm_type m =? SKYNET_SOCKET_TYPE_CONNECT then (FNone, a)
  else if sm_type m =? SKYNET_SOCKET_TYPE_CLOSE then (FClose (sm_id m), a_close (sm_id m) a)
  else if sm_type m =? SKYNET_SOCKET_TYPE_ACCEPT then (FOpen (sm_ud m) (sm_padding m), a)
  else if sm_type m =? SKYNET_SOCKET_TYPE_ERROR then
    (FError (sm_id m) (sm_padding m), a_close (sm_id m) a)
  else if sm_type m =? SKYNET_SOCKET_TYPE_WARNING then (FWarning (sm_id m) (sm_ud m), a)
  else (FNone, a).

Definition a_op (o : op) (a : aqueue) : out * aqueue :=
  match o with
  | OFilter m => let '(r, a) := a_filter m a in (RFilter r, a)
  | OPop => let '(np, a) := a_pop a in (RPop np, a)
  | OClear => (RClear, AQueue ∅ [])
  end.

Fixpoint a_ops (os : list op) (a : aqueue) : list out * aqueue :=
  match os with
  | [] => ([], a)
  | o :: os => let '(r, a) := a_op o a in let '(rs, a) := a_ops os a in (r :: rs, a)
  end.

(** Bytes of the data messages. *)
Definition op_bytes (o : op) : list Z :=
  match o with OFilter m => default [] (sm_buffer m) | _ => [] end.

(** What the socket layer sends: data in a buffer and not empty, texts behind the
    struct. *)
Definition op_ok (o : op) : Prop :=
  match o with
  | OFilter m => 0 ≤ sm_id m < 2 ^ 30 ∧
      (sm_type m = SKYNET_SOCKET_TYPE_DATA → sm_buffer m ≠ None ∧ op_bytes o ≠ [] ∧ Forall byte (op_bytes o)) ∧
      (sm_type m ≠ SKYNET_SOCKET_TYPE_DATA → sm_buffer m = None)
  | _ => True
  end.

#[export] Instance op_ok_decision o : Decision (op_ok o).
Proof. destruct o; cbn; apply _. Defined.

(** Blocks that came in (the socket layer's buffers) and that went out. *)
Definition came_in (o : op) : Z :=
  match o with OFilter m => if sm_type m =? SKYNET_SOCKET_TYPE_DATA then 1 else 0 | _ => 0 end.
Definition went_out (r : out) : Z :=
  match r with RFilter r => handed r | RPop (Some _) => 1 | _ => 0 end.
Definition sum (l : list Z) : Z := foldr Z.add 0 l.

(** The parts of an abstract queue are incomplete packages. *)
Definition aq_ok (a : aqueue) : Prop :=
  ∀ fd r, a_parts a !! fd = Some r → Forall byte r ∧ frames r = ([], r).

Lemma aq_ok_part a fd : aq_ok a →
  Forall byte (default [] (a_parts a !! fd)) ∧
  frames (default [] (a_parts a !! fd)) = ([], default [] (a_parts a !! fd)).
Proof. intros Ha. destruct (a_parts a !! fd) eqn:E; [by apply (Ha fd)|done]. Qed.

Lemma a_data_parts fd bytes a :
  a_parts (a_data fd bytes a).2 =
  put_part fd (frames (default [] (a_parts a !! fd) ++ bytes)).2 (a_parts a).
Proof. unfold a_data. destruct (frames _) as [[|f [|g fs]] r]; [done| |done]. by destruct r. Qed.

Lemma a_data_ok fd bytes a : aq_ok a → Forall byte bytes →
  aq_ok (a_data fd bytes a).2 ∧
  (length (a_waiting (a_data fd bytes a).2) ≤ length (a_waiting a) + (1 + length bytes))%nat.
Proof.
  intros Ha Hb. destruct (aq_ok_part a fd Ha) as [Hp Hinc]. split.
  - intros fd' r'. rewrite a_data_parts. unfold put_part.
    destruct (frames_rest _ _ (Nat.le_refl _) (Forall_app_2 _ _ _ Hp Hb)) as [H1 H2].
    destruct (frames (default [] (a_parts a !! fd) ++ bytes)).2.
    + intros H. apply lookup_delete_Some in H as [_ H]. by apply (Ha fd').
    + intros H. apply lookup_insert_Some in H as [[<- <-]|[_ H]]; [done|by apply (Ha fd')].
  - pose proof (frames_count _ _ Hp Hb Hinc) as Hc. unfold a_data.
    destruct (frames (default [] (a_parts a !! fd) ++ bytes)) as [[|f [|g fs]] r]; cbn in *; [lia| |].
    + destruct r; cbn; rewrite ?length_app; cbn; lia.
    + rewrite length_app. cbn. rewrite length_map. lia.
Qed.

Lemma a_op_ok o a : aq_ok a → op_ok o →
  aq_ok (a_op o a).2 ∧
  (length (a_waiting (a_op o a).2) ≤ length (a_waiting a) + 2 * length (op_bytes o))%nat.
Proof.
  intros Ha Ho.
  assert (Hclose : ∀ fd, aq_ok (a_close fd a)).
  { intros fd fd' r H. cbn in H. apply lookup_delete_Some in H as [_ H]. by apply (Ha fd'). }
  destruct o as [m| |]; cbn.
  - destruct Ho as (Hfd & Hd & _). unfold a_filter.
    destruct (Z.eqb_spec (sm_type m) SKYNET_SOCKET_TYPE_DATA) as [E|_].
    + destruct (Hd E) as (_ & Hne & Hb). cbn in Hne, Hb.
      destruct (a_data_ok (sm_id m) _ a Ha Hb) as [H1 H2]. destruct (a_data _ _ _). split; [done|].
      cbn in *. destruct (default [] (sm_buffer m)); [done|]. cbn in *. lia.
    + repeat case_match; simplify_eq; cbn; (split; [done || apply Hclose|lia]).
  - unfold a_pop. destruct a as [P [|e w]]; cbn; (split; [done|lia]).
  - split; [|cbn; lia]. intros fd r H. cbn in H. by rewrite lookup_empty in H.
Qed.

Lemma op_lemma s a owed o :
  repr s a owed → aq_ok a → op_ok o →
  Z.of_nat (length (a_waiting a)) + Z.of_nat (length (op_bytes o)) < 2 ^ 28 →
  ∃ s', run_op o s = Ok ((a_op o a).1, s') ∧
    repr s' (a_op o a).2 (owed + went_out (a_op o a).1 - came_in o).
Proof.
  intros Hs Ha Ho Hw. destruct o as [m| |]; cbn [run_op a_op].
  - destruct Ho as (Hfd & Hd & Hnd). cbn [op_bytes] in *.
    assert (∃ s', lfilter m s = Ok ((a_filter m a).1, s') ∧
      repr s' (a_filter m a).2 (owed + handed (a_filter m a).1 - came_in (OFilter m)))
      as (s' & E & Hs').
    { unfold lfilter, a_filter. cbn [came_in].
      assert (Hsame : owed + 0 - 0 = owed) by lia.
      destruct (Z.eqb_spec (sm_type m) SKYNET_SOCKET_TYPE_DATA) as [Et|Hne].
      { destruct (Hd Et) as (Hsome & Hnil & Hb). destruct (sm_buffer m) as [bytes|]; [|done].
        cbn [default]. rewrite (lift_bind _ _ _ ()) by done. by apply filter_data_lemma. }
      rewrite (Hnd Hne) in *. unfold pushstring. rewrite (Hnd Hne).
      destruct (np_close_lemma s a owed (sm_id m) Hs Hfd) as (s1 & Ec & Hs1).
      repeat case_match; rewrite ?(sbind_ok _ _ _ _ _ Ec); eexists; (split; [reflexivity|]);
        cbn [fst snd handed]; by rewrite Hsame. }
    rewrite (sbind_ok _ _ _ _ _ E). exists s'. by destruct (a_filter m a).
  - destruct (pop_lemma s a owed Hs) as (s' & E & Hs'). rewrite (sbind_ok _ _ _ _ _ E). exists s'.
    destruct (a_pop a) as [np a']. split; [done|]. cbn in *. rewrite Z.sub_0_r. by destruct np.
  - destruct (clear_lemma s a owed Hs) as (s' & E & Hs'). rewrite (sbind_ok _ _ _ _ _ E). exists s'.
    split; [done|]. cbn. by replace (owed + 0 - 0) with owed by lia.
Qed.

Lemma ops_lemma os : ∀ s a owed,
  repr s a owed → aq_ok a → Forall op_ok os →
  Z.of_nat (length (a_waiting a)) + 2 * Z.of_nat (length (concat (map op_bytes os))) < 2 ^ 28 →
  ∃ s', run_ops os s = Ok ((a_ops os a).1, s') ∧
    repr s' (a_ops os a).2
      (owed + sum (map went_out (a_ops os a).1) - sum (map came_in os)).
Proof.
  induction os as [|o os IH]; intros s a owed Hs Ha Ho Hw; cbn [run_ops a_ops map concat] in *.
  { exists s. split; [done|]. cbn. by replace (owed + 0 - 0) with owed by lia. }
  apply Forall_cons in Ho as [Ho Hos]. rewrite length_app in Hw.
  destruct (op_lemma s a owed o) as (s1 & E1 & Hs1); [done..|lia|].
  destruct (a_op_ok o a Ha Ho) as [Ha1 Hw1]. rewrite (sbind_ok _ _ _ _ _ E1).
  destruct (a_op o a) as [r1 a1]. cbn [fst snd] in *.
  destruct (IH s1 a1 _ Hs1 Ha1 Hos) as (s2 & E2 & Hs2); [lia|]. rewrite (sbind_ok _ _ _ _ _ E2).
  destruct (a_ops os a1) as [rs a2]. cbn [fst snd] in *. exists s2. split; [done|]. cbn.
  match type of Hs2 with repr _ _ ?x => match goal with |- repr _ _ ?y =>
    replace y with x by (unfold sum; cbn; lia) end end. done.
Qed.

(** ** A consumer that empties the queue *)

(** [netpack.pop] until it returns nothing. *)
Fixpoint drain (fuel : nat) : SM nstate (list netpack) :=
  match fuel with
  | O => lift (Fault OutOfFuel)
  | S fuel =>
      np ← lpop;
      match np with
      | None => mret []
      | Some np => l ← drain fuel; mret (np :: l)
      end
  end.

Definition data_msg (fd : Z) (bytes : list Z) : socket_msg :=
  SocketMsg SKYNET_SOCKET_TYPE_DATA fd (Z.of_nat (length bytes)) (Some bytes) [].

(** One data message, as the gate handles it: the package, or all packages waiting. *)
Definition feed (fuel : nat) (e : Z * list Z) : SM nstate (list netpack) :=
  r ← lfilter (data_msg (fst e) (snd e));
  match r with
  | FData fd b sz => mret [Netpack fd sz (Some b)]
  | FMore => drain fuel
  | _ => mret []
  end.

Fixpoint run_feeds (fuel : nat) (es : list (Z * list Z)) : SM nstate (list netpack) :=
  match es with
  | [] => mret []
  | e :: es => l ← feed fuel e; l' ← run_feeds fuel es; mret (l ++ l')
  end.

(** The bytes of one connection. *)
Fixpoint stream (fd : Z) (es : list (Z * list Z)) : list Z :=
  match es with
  | [] => []
  | e :: es => (if fst e =? fd then snd e else []) ++ stream fd es
  end.

Lemma drain_lemma P w : ∀ fuel s owed,
  repr s (AQueue P w) owed → (length w < fuel)%nat →
  ∃ s' owed', drain fuel s = Ok (map mk_netpack w, s') ∧ repr s' (AQueue P []) owed'.
Proof.
  induction w as [|e w IH]; intros fuel s owed Hs Hf; (destruct fuel as [|fuel]; [cbn in Hf; lia|]);
    cbn [drain]; destruct (pop_lemma _ _ _ Hs) as (s1 & E1 & Hs1); rewrite (sbind_ok _ _ _ _ _ E1);
    cbn [a_pop a_waiting a_parts fst snd map] in *.
  - eauto.
  - destruct (IH fuel s1 _ Hs1) as (s2 & owed2 & E2 & Hs2); [cbn in Hf; lia|].
    rewrite (sbind_ok _ _ _ _ _ E2). eauto.
Qed.

Lemma feed_lemma fuel s P owed fd bytes :
  repr s (AQueue P []) owed → aq_ok (AQueue P []) → 0 ≤ fd < 2 ^ 30 → bytes ≠ [] →
  Forall byte bytes → (S (length bytes) < fuel)%nat → Z.of_nat (length bytes) < 2 ^ 28 →
  let B := default [] (P !! fd) ++ bytes in
  ∃ s' owed', feed fuel (fd, bytes) s = Ok (map (λ f, mk_netpack (fd, f)) (frames B).1, s') ∧
    repr s' (AQueue (put_part fd (frames B).2 P) []) owed'.
Proof.
  intros Hs Ha Hfd Hne Hb Hf Hlen B. unfold feed. cbn [fst snd].
  destruct (filter_data_lemma s _ owed fd bytes Hs Hfd Hne Hb) as (s1 & E1 & Hs1); [cbn; lia|].
  assert (lfilter (data_msg fd bytes) s = filter_data fd bytes s) as El by reflexivity.
  rewrite <- El in E1. rewrite (sbind_ok _ _ _ _ _ E1).
  destruct (aq_ok_part _ fd Ha) as [Hp Hinc]. cbn [a_parts] in Hp, Hinc.
  pose proof (frames_count _ _ Hp Hb Hinc) as Hc. unfold a_data in *. cbn [a_parts a_waiting] in *.
  fold B in Hs1, Hc |- *. destruct (frames B) as [[|f [|g fs]] r]; cbn [fst snd map app] in *.
  - eauto.
  - destruct r as [|c r]; [eauto|]. cbn [fst snd] in *.
    destruct (drain_lemma _ _ fuel s1 _ Hs1) as (s2 & o2 & E2 & Hs2); [cbn in *; lia|]. eauto.
  - cbn [fst snd] in *.
    destruct (drain_lemma _ _ fuel s1 _ Hs1) as (s2 & o2 & E2 & Hs2).
    { cbn in *. rewrite length_map. lia. }
    exists s2, o2. split; [|done]. rewrite E2. cbn. by rewrite map_map.
Qed.

Lemma aq_ok_put P fd B : aq_ok (AQueue P []) → Forall byte B →
  aq_ok (AQueue (put_part fd (frames B).2 P) []).
Proof.
  intros Ha HB fd' r'. destruct (frames_rest _ B (Nat.le_refl _) HB) as [H1 H2]. unfold put_part. cbn [a_parts].
  destruct (frames B).2; intros H.
  - apply lookup_delete_Some in H as [_ H]. by apply (Ha fd').
  - apply lookup_insert_Some in H as [[<- <-]|[_ H]]; [done|by apply (Ha fd')].
Qed.

Definition feed_ok (fuel : nat) (e : Z * list Z) : Prop :=
  0 ≤ fst e < 2 ^ 30 ∧ snd e ≠ [] ∧ Forall byte (snd e) ∧ (S (length (snd e)) < fuel)%nat ∧
  Z.of_nat (length (snd e)) < 2 ^ 28.

#[export] Instance feed_ok_decision fuel e : Decision (feed_ok fuel e).
Proof. unfold feed_ok. apply _. Defined.

Lemma put_part_lookup fd fd' r P :
  default [] (put_part fd r P !! fd') = if fd =? fd' then r else default [] (P !! fd').
Proof.
  unfold put_part. destruct (Z.eqb_spec fd fd') as [<-|Hne]; destruct r;
    by rewrite ?lookup_delete_eq, ?lookup_insert_eq, ?lookup_delete_ne, ?lookup_insert_ne.
Qed.

Lemma stream_bytes fuel fd es : Forall (feed_ok fuel) es → Forall byte (stream fd es).
Proof.
  induction 1 as [|e es (_ & _ & Hb & _) _ IH]; cbn; [done|]. case_match; cbn; [|done].
  by apply Forall_app.
Qed.

Lemma filter_same fd fs :
  filter (λ np, np_id np = fd) (map (λ f, mk_netpack (fd, f)) fs) = map (λ f, mk_netpack (fd, f)) fs.
Proof. apply filter_all. intros x Hx. by apply list_elem_of_fmap in Hx as (? & -> & _). Qed.

Lemma filter_other fd fd' fs : fd ≠ fd' →
  filter (λ np, np_id np = fd') (map (λ f, mk_netpack (fd, f)) fs) = [].
Proof. intros Hne. apply filter_none. intros x Hx. by apply list_elem_of_fmap in Hx as (? & -> & _). Qed.

Lemma feeds_lemma fuel es : ∀ s P owed,
  repr s (AQueue P []) owed → aq_ok (AQueue P []) → Forall (feed_ok fuel) es →
  ∃ s' l, run_feeds fuel es s = Ok (l, s') ∧
    ∀ fd, filter (λ np, np_id np = fd) l =
      map (λ f, mk_netpack (fd, f)) (frames (default [] (P !! fd) ++ stream fd es)).1.
Proof.
  induction es as [|[fd bytes] es IH]; intros s P owed Hs Ha Hes; cbn [run_feeds stream].
  { exists s, []. split; [done|]. intros fd. rewrite app_nil_r.
    destruct (aq_ok_part _ fd Ha) as [_ E]. cbn [a_parts] in E. by rewrite E. }
  apply Forall_cons in Hes as [(Hfd & Hne & Hb & Hf & Hlen) Hes]. cbn [fst snd] in *.
  destruct (feed_lemma fuel s P owed fd bytes) as (s1 & o1 & E1 & Hs1); try done.
  destruct (aq_ok_part _ fd Ha) as [Hp _]. cbn in Hp.
  set (B := default [] (P !! fd) ++ bytes) in *.
  assert (HB : Forall byte B) by (by apply Forall_app).
  rewrite (sbind_ok _ _ _ _ _ E1).
  destruct (IH s1 _ o1 Hs1 (aq_ok_put _ fd _ Ha HB) Hes) as (s2 & l2 & E2 & Hl2).
  rewrite (sbind_ok _ _ _ _ _ E2). eexists s2, _. split; [done|]. intros fd'.
  rewrite filter_app, Hl2, put_part_lookup. destruct (Z.eqb_spec fd fd') as [<-|Hne'].
  - rewrite filter_same, app_assoc. fold B.
    rewrite (frames_app (stream fd es) _ B (Nat.le_refl _) HB (stream_bytes _ _ _ Hes)). cbn [fst].
    by rewrite map_app.
  - by rewrite filter_other.
Qed.

(** ** Properties *)

(** Blocks the queue holds. *)
Definition held (s : nstate) : Z :=
  match slot1 s with
  | None => 0
  | Some q => hash_blocks (q_hash q) +
      (if q_head q <=? q_tail q then q_tail q - q_head q else q_tail q + q_cap q - q_head q)
  end.

(** C22. Every sequence of [filter], [pop] and [clear] calls, from the nil queue, runs
    without a fault and returns exactly what the abstract queue returns: per connection
    the bytes of its incomplete package, and one FIFO of complete packages, whatever the
    collisions in the hash table and however often the ring grows.  And no block is
    leaked or freed twice: the blocks allocated and not freed are those handed to the
    caller and those the queue holds. *)
Theorem netpack_refines os :
  Forall op_ok os → 2 * Z.of_nat (length (concat (map op_bytes os))) < 2 ^ 28 →
  ∃ s, run_ops os (NState None 0) = Ok ((a_ops os (AQueue ∅ [])).1, s) ∧
    live s + sum (map came_in os) = sum (map went_out (a_ops os (AQueue ∅ [])).1) + held s.
Proof.
  intros Ho Hw. destruct (ops_lemma os (NState None 0) (AQueue ∅ []) 0) as (s & E & Hs);
    [done|done|done|done|].
  exists s. split; [done|]. unfold repr, held in *. destruct (slot1 s) as [q|].
  - destruct Hs as [(_ & _ & Hr) Hl]. rewrite <- (ring_length _ _ _ _ _ Hr), length_map. lia.
  - lia.
Qed.

(** C23. Streams do not mix: for any interleaving of data messages of any number of
    connections, cut anywhere, a consumer that pops until the queue is empty whenever
    [filter] says "more" receives, for each connection, exactly the packages of that
    connection's byte stream, in order. *)
Theorem netpack_streams fuel es :
  Forall (feed_ok fuel) es →
  ∃ s l, run_feeds fuel es (NState None 0) = Ok (l, s) ∧
    ∀ fd, filter (λ np, np_id np = fd) l =
      map (λ f, mk_netpack (fd, f)) (frames (stream fd es)).1.
Proof.
  intros Hes. destruct (feeds_lemma fuel es (NState None 0) ∅ 0) as (s & l & E & Hl); [done| |done|].
  { intros fd r H. cbn in H. by rewrite lookup_empty in H. }
  exists s, l. split; [done|]. intros fd. by rewrite Hl, lookup_empty.
Qed.

Lemma write_size_wire msg : Z.of_nat (length msg) < 0x10000 →
  write_size (Z.of_nat (length msg)) ++ msg = wire msg.
Proof.
  intros Hl. unfold write_size, wire. cbn [app]. f_equal.
  rewrite Z.shiftr_land. by change (Z.shiftr 0xff00 8) with 0xff.
Qed.

(** The bytes [lpack] returns. *)
Definition packed (m : list Z) : list Z :=
  match lpack m (NState None 0) with Ok (Packed b, _) => b | _ => [] end.

(** C24. [pack] and [filter] are inverse: packing messages of less than 65536 bytes and
    feeding the bytes, cut into chunks anywhere, gives the messages back, in order and
    complete. *)
Theorem netpack_pack_roundtrip fuel fd msgs chunks :
  Forall sendable msgs → Forall (λ c, feed_ok fuel (fd, c)) chunks →
  concat chunks = concat (map packed msgs) →
  ∃ s l, run_feeds fuel (map (pair fd) chunks) (NState None 0) = Ok (l, s) ∧
    filter (λ np, np_id np = fd) l = map (λ m, mk_netpack (fd, m)) msgs.
Proof.
  intros Hm Hc Heq.
  destruct (feeds_lemma fuel (map (pair fd) chunks) (NState None 0) ∅ 0) as (s & l & E & Hl); [done| | |].
  { intros fd' r H. cbn in H. by rewrite lookup_empty in H. }
  { by apply Forall_fmap. }
  exists s, l. split; [done|]. rewrite Hl, lookup_empty. cbn [default app].
  assert (stream fd (map (pair fd) chunks) = concat chunks) as ->.
  { clear. induction chunks as [|c cs IH]; cbn; [done|]. by rewrite Z.eqb_refl, IH. }
  rewrite Heq. replace (concat _) with (concat (map wire msgs)); [by rewrite wire_frames|].
  clear -Hm. induction Hm as [|m ms [Hb Hl] _ IH]; cbn [map concat]; [done|]. rewrite IH. f_equal.
  unfold packed, lpack. destruct (Z.geb_spec (Z.of_nat (length m)) 0x10000); [lia|].
  cbn -[write_size wire]. by rewrite write_size_wire by lia.
Qed.

(** Two connections in the same hash bucket, with packages cut in the header and in the
    body. *)
Definition demo_ops : list op :=
  [OFilter (data_msg 1 [0]); OFilter (data_msg 4096 [0; 3; 7]); OFilter (data_msg 1 [1; 65]);
   OFilter (data_msg 4096 [8; 9; 0; 0; 0]); OPop; OPop; OPop;
   OFilter (SocketMsg SKYNET_SOCKET_TYPE_CLOSE 4096 0 None []); OClear].

Definition demo_outs : list out :=
  [RFilter FNone; RFilter FNone; RFilter (FData 1 [Some 65] 1); RFilter FMore;
   RPop (Some (mk_netpack (4096, [7; 8; 9]))); RPop (Some (mk_netpack (4096, []))); RPop None;
   RFilter (FClose 4096); RClear].

Lemma netpack_refines_witness :
  ∃ s, run_ops demo_ops (NState None 0) = Ok (demo_outs, s) ∧ live s + 4 = 3 + held s.
Proof.
  assert (E : (a_ops demo_ops (AQueue ∅ [])).1 = demo_outs) by (vm_compute; reflexivity).
  destruct (netpack_refines demo_ops) as (s & H1 & H2).
  - apply (bool_decide_unpack _). vm_compute. exact I.
  - vm_compute. reflexivity.
  - exists s. rewrite E in H1, H2. split; [exact H1|exact H2].
Defined.

Definition demo_feeds : list (Z * list Z) :=
  [(1, [0]); (4096, [0; 3; 7]); (1, [1; 65; 0; 1]); (4096, [8; 9]); (1, [66])].

Lemma netpack_streams_witness :
  ∃ s l, run_feeds 10 demo_feeds (NState None 0) = Ok (l, s) ∧
    filter (λ np, np_id np = 1) l = [mk_netpack (1, [65]); mk_netpack (1, [66])] ∧
    filter (λ np, np_id np = 4096) l = [mk_netpack (4096, [7; 8; 9])].
Proof.
  destruct (netpack_streams 10 demo_feeds) as (s & l & H1 & H2).
  - apply (bool_decide_unpack _). vm_compute. exact I.
  - exists s, l. split; [exact H1|]. split; [apply (H2 1)|apply (H2 4096)].
Defined.

Lemma netpack_pack_roundtrip_witness :
  ∃ s l, run_feeds 10 (map (pair 5) [[0; 2; 1]; [2; 0]; [0]]) (NState None 0) = Ok (l, s) ∧
    filter (λ np, np_id np = 5) l = [mk_netpack (5, [1; 2]); mk_netpack (5, [])].
Proof.
  apply (netpack_pack_roundtrip 10 5 [[1; 2]; []]).
  - apply (bool_decide_unpack _). vm_compute. exact I.
  - apply (bool_decide_unpack _). vm_compute. exact I.
  - vm_compute. reflexivity.
Defined.
