(* ===== verification/Seri.v ===== *)
(** [lualib-src/lua-seri.c]: serialisation of Lua values.

    [pack] writes values to a chain of blocks of 128 bytes and copies the chain to one
    buffer; [unpack] reads them back.  Lua tables are references: [pack] reads them from
    a heap, so shared and cyclic tables are covered, and gives up below depth 32.  Each
    table [unpack] builds is fresh, so its results are trees.

    What the code uses of the Lua VM, where memory does not run out: [lua_next] visits the entries of a table in some
    order, [lua_rawlen] returns a border, [lua_rawset] stores under a normalised key (a
    float with an integer value is that integer), and the [__pairs] metamethod produces
    a sequence of pairs.  Multi-byte values are in the byte order of the host, which is
    little endian here. *)

From S2P Require Import Prelude CString Frames.
Open Scope Z_scope.

(** ** Lua values *)

Definition ref : Set := positive.

(** A value on the Lua stack.  Doubles and pointers are their 64 bits. *)
Inductive lval : Set :=
| LNil
| LBool (b : bool)
| LInt (z : Z)
| LReal (bits : Z)
| LStr (s : list Z)
| LPointer (p : Z)
| LTable (r : ref)
| LOther.

(** A table: the border [lua_rawlen] reports, its entries in the order of [lua_next],
    and what its [__pairs] metamethod produces, when it has one. *)
Record ltable : Set := {
  t_rawlen : Z;
  t_entries : list (lval * lval);
  t_pairs : option (list (lval * lval))
}.

Definition lheap : Type := gmap ref ltable.

#[global] Instance lval_eq_dec : EqDecision lval.
Proof. solve_decision. Defined.

(** A decoded value. *)
Inductive value : Set :=
| VNil
| VBool (b : bool)
| VInt (z : Z)
| VReal (bits : Z)
| VStr (s : list Z)
| VPointer (p : Z)
| VTable (entries : list (value * value)).

(** [lua_rawgeti] *)
Definition rawgeti (t : ltable) (i : Z) : lval :=
  match list_find (λ e, fst e = LInt i) (t_entries t) with
  | Some (_, e) => snd e
  | None => LNil
  end.

(** ** Lua errors

    [luaL_error] leaves the function with a message; undefined behaviour is a [Fault]. *)

Inductive lua_error : Set :=
| TooDeep
| Unsupported
| InvalidStream (len : Z)
| NullPointer
| BadArgument
| BadIndex
| BlockTooBig.

Definition LM (S A : Type) : Type := S → res (S * (lua_error + A)).

#[global] Instance LM_ret {S} : MRet (LM S) := λ A a s, Ok (s, inr a).
#[global] Instance LM_bind {S} : MBind (LM S) :=
  λ A B k m s, match m s with
               | Ok (s', inr a) => k a s'
               | Ok (s', inl e) => Ok (s', inl e)
               | Fault f => Fault f
               end.
Definition lget {S} : LM S S := λ s, Ok (s, inr s).
Definition lput {S} (s : S) : LM S unit := λ _, Ok (s, inr ()).
Definition lerror {S A} (e : lua_error) : LM S A := λ s, Ok (s, inl e).
Definition lres {S A} (m : res A) : LM S A :=
  λ s, match m with Ok a => Ok (s, inr a) | Fault f => Fault f end.

(** ** Constants *)

Definition TYPE_NIL : Z := 0.
Definition TYPE_BOOLEAN : Z := 1.
Definition TYPE_NUMBER : Z := 2.
Definition TYPE_NUMBER_ZERO : Z := 0.
Definition TYPE_NUMBER_BYTE : Z := 1.
Definition TYPE_NUMBER_WORD : Z := 2.
Definition TYPE_NUMBER_DWORD : Z := 4.
Definition TYPE_NUMBER_QWORD : Z := 6.
Definition TYPE_NUMBER_REAL : Z := 8.
Definition TYPE_USERDATA : Z := 3.
Definition TYPE_SHORT_STRING : Z := 4.
Definition TYPE_LONG_STRING : Z := 5.
Definition TYPE_TABLE : Z := 6.
Definition MAX_COOKIE : Z := 32.
Definition BLOCK_SIZE : Z := 128.
Definition MAX_DEPTH : Z := 32.

Definition COMBINE_TYPE (t v : Z) : Z := u8 (Z.lor t (Z.shiftl v 3)).

(** The bytes of an unsigned value in memory, and back. *)
Fixpoint le_bytes (n : nat) (z : Z) : list Z :=
  match n with
  | O => []
  | S n => z mod 256 :: le_bytes n (z / 256)
  end.

Fixpoint le_value (l : list Z) : Z :=
  match l with
  | [] => 0
  | b :: l => b + 256 * le_value l
  end.

(** ** The writer

    What the packing code needs of a writer: to push bytes, and to release everything on
    the way to an error.  The code writes to a chain of blocks; on a plain list of bytes it
    is easier to compare with the format. *)

Class Writer (S : Type) := {
  wb_push : list Z → LM S unit;
  wb_release : LM S unit
}.

(** The chain: the blocks before the current one, and the current one. *)
Record write_block : Set := WriteBlock {
  wb_blocks : list buffer;
  wb_current : buffer;
  wb_len : Z;
  wb_ptr : Z
}.

Definition blk_alloc : buffer := replicate (Z.to_nat BLOCK_SIZE) None.

(** [b->current = b->current->next = blk_alloc(); b->ptr = 0] *)
Definition wb_next (b : write_block) : write_block :=
  WriteBlock (wb_blocks b ++ [wb_current b]) blk_alloc (wb_len b) 0.

(** From the second [if] on; [goto _again] takes a new block. *)
Fixpoint wb_copy (fuel : nat) (b : write_block) (bytes : list Z) : res write_block :=
  match fuel with
  | O => Fault OutOfFuel
  | S fuel =>
      let sz := Z.of_nat (length bytes) in
      if wb_ptr b <=? BLOCK_SIZE - sz then
        cur ← wr_at (wb_current b) (wb_ptr b) bytes;
        len ← int_chk (wb_len b + sz);
        Ok (WriteBlock (wb_blocks b) cur len (wb_ptr b + sz))
      else
        let copy := BLOCK_SIZE - wb_ptr b in
        cur ← wr_at (wb_current b) (wb_ptr b) (take (Z.to_nat copy) bytes);
        len ← int_chk (wb_len b + copy);
        wb_copy fuel (wb_next (WriteBlock (wb_blocks b) cur len (wb_ptr b)))
          (drop (Z.to_nat copy) bytes)
  end.

Definition wb_push_ (b : write_block) (bytes : list Z) : res write_block :=
  wb_copy (S (length bytes)) (if wb_ptr b =? BLOCK_SIZE then wb_next b else b) bytes.

Definition wb_init : write_block := WriteBlock [] blk_alloc 0 0.

Definition wb_free : write_block := WriteBlock [] [] 0 0.

#[global] Instance block_writer : Writer write_block := {
  wb_push bytes := b ← lget; b' ← lres (wb_push_ b bytes); lput b';
  wb_release := lput wb_free
}.

(** Bytes in a list. *)
#[global] Instance list_writer : Writer (list Z) := {
  wb_push bytes := out ← lget; lput (out ++ bytes);
  wb_release := mret ()
}.

(** *** Writing values *)

Section write.
Context {W : Type} `{!Writer W}.

Definition wb_nil : LM W unit := wb_push [TYPE_NIL].

Definition wb_boolean (b : bool) : LM W unit :=
  wb_push [COMBINE_TYPE TYPE_BOOLEAN (if b then 1 else 0)].

Definition wb_integer (v : Z) : LM W unit :=
  if v =? 0 then wb_push [COMBINE_TYPE TYPE_NUMBER TYPE_NUMBER_ZERO]
  else if negb (v =? i32 v) then
    _ ← wb_push [COMBINE_TYPE TYPE_NUMBER TYPE_NUMBER_QWORD];
    wb_push (le_bytes 8 (u64 v))
  else if v <? 0 then
    _ ← wb_push [COMBINE_TYPE TYPE_NUMBER TYPE_NUMBER_DWORD];
    wb_push (le_bytes 4 (u32 v))
  else if v <? 0x100 then
    _ ← wb_push [COMBINE_TYPE TYPE_NUMBER TYPE_NUMBER_BYTE];
    wb_push (le_bytes 1 (u8 v))
  else if v <? 0x10000 then
    _ ← wb_push [COMBINE_TYPE TYPE_NUMBER TYPE_NUMBER_WORD];
    wb_push (le_bytes 2 (u16 v))
  else
    _ ← wb_push [COMBINE_TYPE TYPE_NUMBER TYPE_NUMBER_DWORD];
    wb_push (le_bytes 4 (u32 v)).

Definition wb_real (bits : Z) : LM W unit :=
  _ ← wb_push [COMBINE_TYPE TYPE_NUMBER TYPE_NUMBER_REAL];
  wb_push (le_bytes 8 bits).

Definition wb_pointer (p : Z) : LM W unit :=
  _ ← wb_push [TYPE_USERDATA];
  wb_push (le_bytes 8 p).

(** [len] is the length converted to [int]. *)
Definition wb_string (s : list Z) : LM W unit :=
  let len := i32 (Z.of_nat (length s)) in
  if len <? MAX_COOKIE then
    _ ← wb_push [COMBINE_TYPE TYPE_SHORT_STRING len];
    if len >? 0 then wb_push s else mret ()
  else
    _ ← (if len <? 0x10000 then
           _ ← wb_push [COMBINE_TYPE TYPE_LONG_STRING 2];
           wb_push (le_bytes 2 (u16 len))
         else
           _ ← wb_push [COMBINE_TYPE TYPE_LONG_STRING 4];
           wb_push (le_bytes 4 (u32 len)));
    wb_push s.

End write.

(** ** Packing *)

Section pack.
Context {W : Type} `{!Writer W} (pack : lval → LM W unit).

Fixpoint pack_array (n : nat) (i : Z) (t : ltable) : LM W unit :=
  match n with
  | O => mret ()
  | S n => _ ← pack (rawgeti t i); pack_array n (i + 1) t
  end.

Definition wb_table_array (t : ltable) : LM W Z :=
  let array_size := i32 (t_rawlen t) in
  _ ← (if array_size >=? MAX_COOKIE - 1 then
         _ ← wb_push [COMBINE_TYPE TYPE_TABLE (MAX_COOKIE - 1)];
         wb_integer array_size
       else wb_push [COMBINE_TYPE TYPE_TABLE array_size]);
  _ ← pack_array (Z.to_nat array_size) 1 t;
  mret array_size.

(** The key is in the array part, which has been written. *)
Definition in_array (array_size : Z) (k : lval) : bool :=
  match k with LInt x => (x >? 0) && (x <=? array_size) | _ => false end.

Fixpoint pack_hash (array_size : Z) (es : list (lval * lval)) : LM W unit :=
  match es with
  | [] => mret ()
  | (k, v) :: es =>
      _ ← (if in_array array_size k then mret () else _ ← pack k; pack v);
      pack_hash array_size es
  end.

Definition wb_table_hash (array_size : Z) (t : ltable) : LM W unit :=
  _ ← pack_hash array_size (t_entries t);
  wb_nil.

(** The iterator stops at the first nil key. *)
Fixpoint pack_pairs (kvs : list (lval * lval)) : LM W unit :=
  match kvs with
  | [] => mret ()
  | (LNil, _) :: _ => mret ()
  | (k, v) :: kvs => _ ← pack k; _ ← pack v; pack_pairs kvs
  end.

Definition wb_table_metapairs (kvs : list (lval * lval)) : LM W unit :=
  _ ← wb_push [COMBINE_TYPE TYPE_TABLE 0];
  _ ← pack_pairs kvs;
  wb_nil.

Definition wb_table (t : ltable) : LM W unit :=
  match t_pairs t with
  | Some kvs => wb_table_metapairs kvs
  | None => array_size ← wb_table_array t; wb_table_hash array_size t
  end.

End pack.

(** [lev] bounds the recursion; at depth [d] it is [33 - d]. *)
Fixpoint pack_one {W} `{!Writer W} (H : lheap) (lev : nat) (depth : Z) (v : lval) : LM W unit :=
  if depth >? MAX_DEPTH then _ ← wb_release; lerror TooDeep
  else
    match v with
    | LNil => wb_nil
    | LInt z => wb_integer z
    | LReal bits => wb_real bits
    | LBool b => wb_boolean b
    | LStr s => wb_string s
    | LPointer p => wb_pointer p
    | LTable r =>
        match lev, H !! r with
        | S lev, Some t => wb_table (pack_one H lev (depth + 1)) t
        | O, _ => lres (Fault OutOfFuel)
        | _, None => lres (Fault BadPointer)
        end
    | LOther => _ ← wb_release; lerror Unsupported
    end.

Definition pack_from {W} `{!Writer W} (H : lheap) (vs : list lval) : LM W unit :=
  (fix go vs := match vs with
                | [] => mret ()
                | v :: vs => _ ← pack_one H 33 0 v; go vs
                end) vs.

(** Copy the chain to one buffer. *)
Fixpoint seri (bs : list buffer) (len : Z) : res buffer :=
  if len <=? 0 then Ok []
  else
    match bs with
    | [] => Fault BadPointer
    | b :: bs =>
        if len >=? BLOCK_SIZE then rest ← seri bs (len - BLOCK_SIZE); Ok (b ++ rest)
        else Ok (take (Z.to_nat len) b)
    end.

(** The result is the buffer, or an error. *)
Definition luaseri_pack (H : lheap) (vs : list lval) : res (lua_error + buffer) :=
  '(wb, r) ← pack_from H vs wb_init;
  match r with
  | inl e => Ok (inl e)
  | inr _ => b ← seri (wb_blocks wb ++ [wb_current wb]) (wb_len wb); Ok (inr b)
  end.

(** ** The reader *)

Record read_block : Set := ReadBlock { rb_buffer : list Z; rb_len : Z; rb_ptr : Z }.

Definition rball_init (buf : list Z) (size : Z) : read_block := ReadBlock buf size 0.

(** The offset of the bytes, or NULL.  [sz] may be negative: [len -= sz] can overflow. *)
Definition rb_read (sz : Z) : LM read_block (option Z) :=
  rb ← lget;
  if rb_len rb <? sz then mret None
  else
    ptr ← lres (int_chk (rb_ptr rb + sz));
    len ← lres (int_chk (rb_len rb - sz));
    _ ← lput (ReadBlock (rb_buffer rb) len ptr);
    mret (Some (rb_ptr rb)).

Definition invalid_stream {A} : LM read_block A := rb ← lget; lerror (InvalidStream (rb_len rb)).

(** [memcpy] of [n] bytes at an offset. *)
Fixpoint rd_at (buf : list Z) (i : Z) (n : nat) : res (list Z) :=
  match n with
  | O => Ok []
  | S n => b ← rd buf i; l ← rd_at buf (i + 1) n; Ok (b :: l)
  end.

(** [rb_read] of a fixed size, and the copy to a local. *)
Definition rb_get (n : nat) : LM read_block (list Z) :=
  p ← rb_read (Z.of_nat n);
  match p with
  | None => invalid_stream
  | Some p => rb ← lget; lres (rd_at (rb_buffer rb) p n)
  end.

Definition get_integer (cookie : Z) : LM read_block Z :=
  if cookie =? TYPE_NUMBER_ZERO then mret 0
  else if cookie =? TYPE_NUMBER_BYTE then l ← rb_get 1; mret (le_value l)
  else if cookie =? TYPE_NUMBER_WORD then l ← rb_get 2; mret (le_value l)
  else if cookie =? TYPE_NUMBER_DWORD then l ← rb_get 4; mret (i32 (le_value l))
  else if cookie =? TYPE_NUMBER_QWORD then l ← rb_get 8; mret (i64 (le_value l))
  else invalid_stream.

Definition get_real : LM read_block Z := l ← rb_get 8; mret (le_value l).

Definition get_pointer : LM read_block Z := l ← rb_get 8; mret (le_value l).

(** A negative [len] passes the test of [rb_read]; as a [size_t] it is more than a Lua
    string can have, and [lua_pushlstring] raises an error. *)
Definition get_buffer (len : Z) : LM read_block (list Z) :=
  p ← rb_read len;
  match p with
  | None => invalid_stream
  | Some p =>
      if len <? 0 then lerror BlockTooBig
      else rb ← lget; lres (rd_at (rb_buffer rb) p (Z.to_nat len))
  end.

(** *** Building a table *)

(** The integer a double is equal to, when it is one that fits. *)
Definition real_exponent (bits : Z) : Z := Z.land (Z.shiftr bits 52) 0x7ff.
Definition real_mantissa (bits : Z) : Z := Z.land bits (2 ^ 52 - 1).
Definition real_int (bits : Z) : option Z :=
  let e := real_exponent bits in
  let m := real_mantissa bits in
  let signed v := if Z.testbit bits 63 then - v else v in
  if e =? 0 then (if m =? 0 then Some 0 else None)
  else if e >? 1086 then None
  else
    let mant := m + 2 ^ 52 in
    let v := if e >=? 1075 then Some (mant * 2 ^ (e - 1075))
             else if mant mod 2 ^ (1075 - e) =? 0 then Some (mant / 2 ^ (1075 - e)) else None in
    match v with
    | Some v => if (- 2 ^ 63 <=? signed v) && (signed v <? 2 ^ 63) then Some (signed v) else None
    | None => None
    end.
Definition real_nan (bits : Z) : bool :=
  (real_exponent bits =? 0x7ff) && negb (real_mantissa bits =? 0).

Definition normal_key (k : value) : value :=
  match k with
  | VReal bits => match real_int bits with Some z => VInt z | None => k end
  | _ => k
  end.

(** Equality of keys; a decoded table is a fresh object, different from every other. *)
Definition key_eqb (k1 k2 : value) : bool :=
  match k1, k2 with
  | VBool b1, VBool b2 => eqb b1 b2
  | VInt z1, VInt z2 => z1 =? z2
  | VReal x1, VReal x2 => x1 =? x2
  | VStr s1, VStr s2 => bool_decide (s1 = s2)
  | VPointer p1, VPointer p2 => p1 =? p2
  | _, _ => false
  end.

Definition is_vnil (v : value) : bool := match v with VNil => true | _ => false end.

Fixpoint rawset_entries (es : list (value * value)) (k v : value) : list (value * value) :=
  match es with
  | [] => if is_vnil v then [] else [(k, v)]
  | (k', v') :: es =>
      if key_eqb k' k then (if is_vnil v then es else (k, v) :: es)
      else (k', v') :: rawset_entries es k v
  end.

(** [lua_rawset]: a nil or NaN key is an error. *)
Definition rawset (es : list (value * value)) (k v : value) : LM read_block (list (value * value)) :=
  match k with
  | VNil => lerror BadIndex
  | VReal bits => if real_nan bits then lerror BadIndex else mret (rawset_entries es (normal_key k) v)
  | _ => mret (rawset_entries es k v)
  end.

(** *** Unpacking *)

Section unpack.
Context (unpack : LM read_block value).

(** [for (i=1;i<=array_size;i++)]; every round reads at least a byte, so [n] rounds are
    enough for [n] bytes. *)
Fixpoint unpack_array (n : nat) (i array_size : Z) (es : list (value * value))
  : LM read_block (list (value * value)) :=
  if i <=? array_size then
    match n with
    | O => lres (Fault OutOfFuel)
    | S n => v ← unpack; unpack_array n (i + 1) array_size (rawset_entries es (VInt i) v)
    end
  else mret es.

Fixpoint unpack_hash (n : nat) (es : list (value * value)) : LM read_block (list (value * value)) :=
  match n with
  | O => lres (Fault OutOfFuel)
  | S n =>
      k ← unpack;
      match k with
      | VNil => mret es
      | _ => v ← unpack; es ← rawset es k v; unpack_hash n es
      end
  end.

Definition unpack_size (cookie : Z) : LM read_block Z :=
  if cookie =? MAX_COOKIE - 1 then
    l ← rb_get 1;
    let type := le_value l in
    let cookie := Z.shiftr type 3 in
    if negb (Z.land type 7 =? TYPE_NUMBER) || (cookie =? TYPE_NUMBER_REAL) then invalid_stream
    else n ← get_integer cookie; mret (i32 n)
  else mret cookie.

Definition unpack_table (fuel : nat) (cookie : Z) : LM read_block value :=
  array_size ← unpack_size cookie;
  es ← unpack_array fuel 1 array_size [];
  es ← unpack_hash fuel es;
  mret (VTable es).

Definition push_value_ (fuel : nat) (type cookie : Z) : LM read_block value :=
  if type =? TYPE_NIL then mret VNil
  else if type =? TYPE_BOOLEAN then mret (VBool (negb (cookie =? 0)))
  else if type =? TYPE_NUMBER then
    if cookie =? TYPE_NUMBER_REAL then x ← get_real; mret (VReal x)
    else z ← get_integer cookie; mret (VInt z)
  else if type =? TYPE_USERDATA then p ← get_pointer; mret (VPointer p)
  else if type =? TYPE_SHORT_STRING then s ← get_buffer cookie; mret (VStr s)
  else if type =? TYPE_LONG_STRING then
    if cookie =? 2 then l ← rb_get 2; s ← get_buffer (le_value l); mret (VStr s)
    else
      _ ← (if negb (cookie =? 4) then invalid_stream else mret ());
      l ← rb_get 4;
      s ← get_buffer (i32 (le_value l));
      mret (VStr s)
  else if type =? TYPE_TABLE then unpack_table fuel cookie
  else invalid_stream.

End unpack.

(** [unpack_one], with [push_value] inlined into the recursion. *)
Fixpoint unpack_one (fuel : nat) : LM read_block value :=
  match fuel with
  | O => lres (Fault OutOfFuel)
  | S fuel =>
      l ← rb_get 1;
      push_value_ (unpack_one fuel) fuel (Z.land (le_value l) 7) (Z.shiftr (le_value l) 3)
  end.

Definition push_value (fuel : nat) (type cookie : Z) : LM read_block value :=
  push_value_ (unpack_one fuel) fuel type cookie.

(** The loop of [luaseri_unpack]: it ends where [rb_read] finds no byte. *)
Fixpoint unpack_all (n fuel : nat) : LM read_block (list value) :=
  match n with
  | O => lres (Fault OutOfFuel)
  | S n =>
      p ← rb_read 1;
      match p with
      | None => mret []
      | Some p =>
          rb ← lget;
          type ← lres (rd (rb_buffer rb) p);
          v ← push_value fuel (Z.land type 7) (Z.shiftr type 3);
          vs ← unpack_all n fuel;
          mret (v :: vs)
      end
  end.

(** The arguments: none or nil, a string, or a userdata and a length.  [lua_touserdata] is
    NULL for what is not a userdata, and [luaL_checkinteger] raises an error where the second
    argument is not an integer; the memory a userdata points to is the block from there on. *)
Inductive unpack_arg : Set :=
| NoArg
| StringArg (s : list Z)
| BlockArg (p : option (list Z)) (len : option Z).

(** From the test of [len] on. *)
Definition unpack_buffer (buffer : option (list Z)) (len : Z) : res (lua_error + list value) :=
  if len =? 0 then Ok (inr [])
  else
    match buffer with
    | None => Ok (inl NullPointer)
    | Some buf =>
        '(_, r) ← unpack_all (S (length buf)) (S (length buf)) (rball_init buf len);
        Ok r
    end.

Definition luaseri_unpack (arg : unpack_arg) : res (lua_error + list value) :=
  match arg with
  | NoArg => Ok (inr [])
  | StringArg s => unpack_buffer (Some s) (i32 (Z.of_nat (length s)))
  | BlockArg p None => Ok (inl BadArgument)
  | BlockArg p (Some len) => unpack_buffer p (i32 len)
  end.
