(* ===== verification/SeriWire.v ===== *)
(** The serialisation format of [lualib-src/lua-seri.c], independent of the code that writes it.

    A value is a tag, whose low three bits are its type and whose other five bits are a
    cookie, and a payload.  The tags are written out here as numbers, and the format is a
    function from a value to the bytes that [pack] puts out for it, with the error [pack] gives
    up with, if it does.  Types and cookies:

    - 0 nil;
    - 1 boolean, the cookie is the value;
    - 2 number: 0 for zero, 1, 2, 4 and 6 for integers of 1, 2, 4 and 8 bytes, 8 for a double;
    - 3 light userdata, 8 bytes;
    - 4 short string, the cookie is the length; 5 long string, cookie 2 or 4 is the number of
      bytes of the length;
    - 6 table, the cookie is the size of the array part, 31 when an integer with the size
      follows; then the array part, the other keys with their values, and a nil. *)

From S2P Require Import Prelude Seri.
Open Scope Z_scope.

(** The [n] low bytes of a number, the lowest first; of a negative number the bytes of its
    two's complement. *)
Definition little (n z : Z) : list Z := map (λ i, (z / 256 ^ i) mod 256) (seqZ 0 n).

(** Bytes, and the error that stopped them. *)
Definition wire : Type := list Z * option lua_error.

Definition wire_app (w1 w2 : wire) : wire :=
  match w1 with
  | (b, Some e) => (b, Some e)
  | (b, None) => (b ++ fst w2, snd w2)
  end.

Definition wire_all (ws : list wire) : wire := foldr wire_app ([], None) ws.

Definition wire_integer (z : Z) : list Z :=
  if decide (z = 0) then [2]
  else if decide (0 < z < 2 ^ 8) then [10; z]
  else if decide (0 < z < 2 ^ 16) then 18 :: little 2 z
  else if decide (- 2 ^ 31 ≤ z < 2 ^ 31) then 34 :: little 4 z
  else 50 :: little 8 z.

Definition wire_string (s : list Z) : list Z :=
  let n := Z.of_nat (length s) in
  if decide (n < 32) then (4 + 8 * n) :: s
  else if decide (n < 2 ^ 16) then 21 :: little 2 n ++ s
  else 37 :: little 4 n ++ s.

(** A table with an array part of [n] values. *)
Definition wire_size (n : Z) : list Z :=
  if decide (n < 31) then [6 + 8 * n] else 254 :: wire_integer n.

(** The key is one of 1, ..., [n]. *)
Definition array_key (n : Z) (k : lval) : Prop := ∃ i, k = LInt i ∧ 1 ≤ i ≤ n.

#[export] Instance array_key_decision n k : Decision (array_key n k).
Proof.
  refine (match k with LInt i => cast_if (decide (1 ≤ i ≤ n)) | _ => right _ end);
    unfold array_key; naive_solver.
Defined.

(** What is written of a table, in order: with a [__pairs] metamethod the keys and values it
    produces; else the values under 1, ..., [n], where [n] is the border, and the other
    entries, each a key and its value. *)
Definition wire_parts (t : ltable) : Z * list lval :=
  match t_pairs t with
  | Some kvs => (0, concat (map (λ kv, [fst kv; snd kv]) kvs))
  | None =>
      (t_rawlen t,
       map (rawgeti t) (seqZ 1 (t_rawlen t)) ++
       concat (map (λ kv, [fst kv; snd kv]) (filter (λ kv, ¬ array_key (t_rawlen t) (fst kv)) (t_entries t))))
  end.

(** A value that may nest [lev] values more: below that [pack] gives up.  A heap that makes
    sense has every table. *)
Fixpoint wire_value (H : lheap) (lev : nat) (v : lval) : wire :=
  match lev with
  | O => ([], Some TooDeep)
  | S lev =>
      match v with
      | LNil => ([0], None)
      | LBool b => ([if b then 9 else 1], None)
      | LInt z => (wire_integer z, None)
      | LReal bits => (66 :: little 8 bits, None)
      | LStr s => (wire_string s, None)
      | LPointer p => (3 :: little 8 p, None)
      | LTable r =>
          let '(n, vs) := from_option wire_parts (0, []) (H !! r) in
          wire_app (wire_size n, None) (wire_app (wire_all (map (wire_value H lev) vs)) ([0], None))
      | LOther => ([], Some Unsupported)
      end
  end.

(** The values one after the other; a value itself is at depth 0, and 32 is the last depth. *)
Definition wire_values (H : lheap) (vs : list lval) : wire := wire_all (map (wire_value H 33) vs).

Example wire_example :
  wire_values ∅ [LInt (-2); LStr [104; 105]; LBool true; LInt 258] =
    ([34; 254; 255; 255; 255; 20; 104; 105; 9; 18; 2; 1], None).
Proof. reflexivity. Qed.
