(* ===== verification/SeriProps.v ===== *)
(** Properties of [lualib-src/lua-seri.c].

    The writer on a chain of blocks does what the reference writer on a list does; what
    is written reads back; [pack] fails exactly on values that nest too deep or are of an
    unsupported type; [unpack] of arbitrary bytes never leaves the buffer. *)

From S2P Require Import Prelude CString Frames Seri SeriWire.
Open Scope Z_scope.

(** ** Rules for the error monad *)

Lemma lbind_ok {S A B} (m : LM S A) (k : A → LM S B) s s' a :
  m s = Ok (s', inr a) → (m ≫= k) s = k a s'.
Proof. intros E. unfold mbind, LM_bind. by rewrite E. Qed.

Lemma lbind_err {S A B} (m : LM S A) (k : A → LM S B) s s' e :
  m s = Ok (s', inl e) → (m ≫= k) s = Ok (s', inl e).
Proof. intros E. unfold mbind, LM_bind. by rewrite E. Qed.

Lemma lbind_ext {S A B} (m m' : LM S A) (k k' : A → LM S B) s :
  m s = m' s → (∀ a s', k a s' = k' a s') → (m ≫= k) s = (m' ≫= k') s.
Proof. intros E Hk. unfold mbind, LM_bind. rewrite E. destruct (m' s) as [[s' [e|a]]|f]; auto. Qed.

Lemma lbind_assoc {S A B C} (m : LM S A) (k : A → LM S B) (l : B → LM S C) s :
  ((m ≫= k) ≫= l) s = (m ≫= λ a, k a ≫= l) s.
Proof. unfold mbind, LM_bind. by destruct (m s) as [[s' [e|a]]|f]. Qed.

(** ** The chain of blocks *)

Definition NBLOCK : nat := Z.to_nat BLOCK_SIZE.

Record wb_repr (wb : write_block) (out : list Z) : Prop := {
  wr_shape : ∃ full pre, wb_blocks wb = map (map Some) full ∧ Forall (λ b, length b = NBLOCK) full ∧
    wb_current wb = map Some pre ++ replicate (NBLOCK - length pre) None ∧
    (length pre ≤ NBLOCK)%nat ∧ wb_ptr wb = Z.of_nat (length pre) ∧ out = concat full ++ pre;
  wr_len : wb_len wb = Z.of_nat (length out)
}.

Lemma wb_init_repr : wb_repr wb_init [].
Proof. split; [|done]. exists [], []. repeat split; try done. cbn. lia. Qed.

Lemma wb_next_repr wb out :
  wb_repr wb out → wb_ptr wb = BLOCK_SIZE → wb_repr (wb_next wb) out ∧ wb_ptr (wb_next wb) = 0.
Proof.
  intros [(full & pre & Hb & Hf & Hc & Hl & Hp & ->) Hlen] E. split; [|done]. split; [|done].
  assert (length pre = NBLOCK) as El by (unfold NBLOCK, BLOCK_SIZE in *; lia).
  exists (full ++ [pre]), []. cbn [wb_next wb_blocks wb_current wb_ptr]. repeat split; try done.
  - rewrite map_app, Hb, Hc, El, Nat.sub_diag. cbn. by rewrite app_nil_r.
  - apply Forall_app. by split; [|constructor].
  - cbn. lia.
  - rewrite concat_app. cbn. by rewrite !app_nil_r.
Qed.

Lemma wb_copy_repr fuel : ∀ wb out bytes,
  wb_repr wb out → wb_ptr wb < BLOCK_SIZE → (length bytes < fuel)%nat →
  Z.of_nat (length out + length bytes) < 2 ^ 31 →
  ∃ wb', wb_copy fuel wb bytes = Ok wb' ∧ wb_repr wb' (out ++ bytes).
Proof.
  induction fuel as [|fuel IH]; intros wb out bytes Hr Hp Hf Hlen; [lia|].
  destruct Hr as [(full & pre & Hb & Hfl & Hc & Hl & Hptr & ->) Hwl].
  assert (HN : Z.of_nat NBLOCK = BLOCK_SIZE) by reflexivity.
  assert (∀ l, (length pre + length l ≤ NBLOCK)%nat →
    wr_at (wb_current wb) (wb_ptr wb) l =
      Ok (map Some (pre ++ l) ++ replicate (NBLOCK - length (pre ++ l)) None)) as Hw.
  { intros l Hl'. rewrite Hc, Hptr, wr_at_fill by lia. do 3 f_equal. rewrite length_app. lia. }
  cbn [wb_copy]. cbv zeta. destruct (Z.leb_spec (wb_ptr wb) (BLOCK_SIZE - Z.of_nat (length bytes))).
  - rewrite Hw, bind_ok by lia.
    rewrite int_chk_ok, bind_ok by (unfold INT_MIN, INT_MAX; lia).
    eexists. split; [done|]. split; cbn; [|rewrite app_length; lia].
    exists full, (pre ++ bytes). rewrite length_app, app_assoc. repeat split; try done; lia.
  - set (k := Z.to_nat (BLOCK_SIZE - wb_ptr wb)).
    assert (Hk : length (take k bytes) = k) by (apply length_take_le; unfold k; lia).
    rewrite Hw, bind_ok by (rewrite Hk; unfold k; lia).
    rewrite int_chk_ok, bind_ok by (unfold INT_MIN, INT_MAX; lia).
    set (wb1 := WriteBlock _ _ _ _).
    assert (Hr1 : wb_repr (WriteBlock (wb_blocks wb1) (wb_current wb1) (wb_len wb1) BLOCK_SIZE)
      ((concat full ++ pre) ++ take k bytes)).
    { split; cbn; [|rewrite (length_app (concat full ++ pre)), Hk; unfold k; lia].
      exists full, (pre ++ take k bytes). rewrite (length_app pre), Hk, app_assoc.
      repeat split; try done; unfold k; lia. }
    destruct (wb_next_repr _ _ Hr1 eq_refl) as [Hr2 _].
    destruct (IH (wb_next wb1) ((concat full ++ pre) ++ take k bytes) (drop k bytes)) as (wb' & -> & Hr').
    + done.
    + done.
    + rewrite length_drop. unfold k. lia.
    + rewrite length_app, Hk, length_drop. unfold k. lia.
    + exists wb'. split; [done|]. by rewrite <- app_assoc, take_drop in Hr'.
Qed.

Lemma wb_push_repr wb out bytes :
  wb_repr wb out → Z.of_nat (length out + length bytes) < 2 ^ 31 →
  ∃ wb', wb_push_ wb bytes = Ok wb' ∧ wb_repr wb' (out ++ bytes).
Proof.
  intros Hr Hlen. unfold wb_push_. destruct (Z.eqb_spec (wb_ptr wb) BLOCK_SIZE) as [E|Hne].
  - destruct (wb_next_repr _ _ Hr E) as [Hr' Hp']. apply wb_copy_repr; [done| |lia|done].
    by rewrite Hp'.
  - apply wb_copy_repr; [done| |lia|done].
    destruct Hr as [(full & pre & _ & _ & _ & Hl & Hp & _) _]. unfold NBLOCK, BLOCK_SIZE in *. lia.
Qed.

(** [seri] copies out what was written. *)
Lemma seri_lemma wb out :
  wb_repr wb out → seri (wb_blocks wb ++ [wb_current wb]) (wb_len wb) = Ok (map Some out).
Proof.
  intros [(full & pre & -> & Hf & -> & Hl & _ & ->) ->].
  induction Hf as [|b full Hb Hf IH]; cbn [map concat app seri].
  - destruct (Z.leb_spec (Z.of_nat (length pre)) 0).
    + by replace pre with (@nil Z) by (destruct pre; [done|cbn in *; lia]).
    + destruct (Z.geb_spec (Z.of_nat (length pre)) BLOCK_SIZE) as [Hge|Hlt].
      * assert (length pre = NBLOCK) as E by (unfold NBLOCK, BLOCK_SIZE in *; lia). rewrite E, Nat.sub_diag.
        replace (Z.of_nat NBLOCK - BLOCK_SIZE) with 0 by done. cbn. by rewrite !app_nil_r.
      * rewrite Nat2Z.id, take_app_le, take_ge; [done|rewrite length_map; lia..].
  - rewrite !length_app, Hb. destruct (Z.leb_spec (Z.of_nat (NBLOCK + length (concat full) + length pre)) 0)
      as [|_]; [unfold NBLOCK, BLOCK_SIZE in *; lia|].
    destruct (Z.geb_spec (Z.of_nat (NBLOCK + length (concat full) + length pre)) BLOCK_SIZE) as [_|];
      [|unfold NBLOCK, BLOCK_SIZE in *; lia].
    replace (Z.of_nat (NBLOCK + length (concat full) + length pre) - BLOCK_SIZE)
      with (Z.of_nat (length (concat full ++ pre))) by (rewrite length_app; unfold NBLOCK, BLOCK_SIZE; lia).
    rewrite IH, bind_ok, <- map_app. by rewrite <- app_assoc.
Qed.

(** ** Writing: both writers at once

    [both m1 m2 bs r]: the code on a list appends [bs] and returns [r], and the code on a
    chain of blocks does the same to the bytes of the chain, as long as they number less
    than 2^31. *)

Definition emits {A} (m : LM (list Z) A) (bs : list Z) (r : lua_error + A) : Prop :=
  ∀ out, m out = Ok (out ++ bs, r).

Definition writes {A} (m : LM write_block A) (bs : list Z) (r : lua_error + A) : Prop :=
  ∀ wb out, wb_repr wb out → Z.of_nat (length out + length bs) < 2 ^ 31 →
    ∃ wb', m wb = Ok (wb', r) ∧ (∀ a, r = inr a → wb_repr wb' (out ++ bs)).

Definition both {A} (m1 : LM write_block A) (m2 : LM (list Z) A) bs r : Prop :=
  emits m2 bs r ∧ writes m1 bs r.

Lemma both_ret {A} (a : A) : both (mret a) (mret a) [] (inr a).
Proof.
  split; [intros out; by rewrite app_nil_r|]. intros wb out Hr _. exists wb. split; [done|].
  intros. by rewrite app_nil_r.
Qed.

Lemma both_push bytes : both (wb_push bytes) (wb_push bytes) bytes (inr ()).
Proof.
  split; [done|]. intros wb out Hr Hlen. destruct (wb_push_repr wb out bytes Hr Hlen) as (wb' & E & Hr').
  exists wb'. split; [|done]. unfold wb_push, block_writer, mbind, LM_bind, lget, lres. by rewrite E.
Qed.

Lemma both_release e :
  both (A:=()) (_ ← wb_release; lerror e) (_ ← wb_release; lerror e) [] (inl e).
Proof.
  split; [intros out; by rewrite app_nil_r|]. intros wb out _ _. by exists wb_free.
Qed.

Lemma both_bind {A B} (m1 : LM write_block A) m2 (k1 : A → LM write_block B) k2 bs1 a bs2 r :
  both m1 m2 bs1 (inr a) → both (k1 a) (k2 a) bs2 r → both (m1 ≫= k1) (m2 ≫= k2) (bs1 ++ bs2) r.
Proof.
  intros [He1 Hw1] [He2 Hw2]. split.
  - intros out. rewrite (lbind_ok _ _ _ _ _ (He1 out)), He2. by rewrite app_assoc.
  - intros wb out Hr Hlen. rewrite length_app in Hlen.
    destruct (Hw1 wb out Hr) as (wb1 & E1 & Hr1); [lia|]. rewrite (lbind_ok _ _ _ _ _ E1).
    destruct (Hw2 wb1 (out ++ bs1) (Hr1 a eq_refl)) as (wb2 & E2 & Hr2); [rewrite length_app; lia|].
    exists wb2. split; [done|]. intros b Hb. rewrite app_assoc. eauto.
Qed.

Lemma both_bind_err {A B} (m1 : LM write_block A) m2 (k1 : A → LM write_block B) k2 bs e :
  both m1 m2 bs (inl e) → both (m1 ≫= k1) (m2 ≫= k2) bs (inl e).
Proof.
  intros [He Hw]. split.
  - intros out. by rewrite (lbind_err _ _ _ _ _ (He out)).
  - intros wb out Hr Hlen. destruct (Hw wb out Hr Hlen) as (wb1 & E & _).
    exists wb1. by rewrite (lbind_err _ _ _ _ _ E).
Qed.

Lemma both_ext {A} (m1 m1' : LM write_block A) m2 m2' bs r :
  (∀ s, m1 s = m1' s) → (∀ s, m2 s = m2' s) → both m1' m2' bs r → both m1 m2 bs r.
Proof.
  intros E1 E2 [He Hw]. split; [intros out; by rewrite E2|].
  intros wb out Hr Hlen. rewrite E1. by apply Hw.
Qed.

Create HintDb seri.
#[export] Hint Resolve both_ret both_push both_bind : seri.

(** ** Reading

    [reads m bs a]: the code consumes exactly [bs] and returns [a]. *)

(** The bytes left; the block may go on behind them. *)
Definition rb_repr (rb : read_block) (rest : list Z) : Prop :=
  0 ≤ rb_ptr rb ∧ (∃ behind, drop (Z.to_nat (rb_ptr rb)) (rb_buffer rb) = rest ++ behind) ∧
  rb_len rb = Z.of_nat (length rest) ∧ rb_ptr rb + rb_len rb ≤ INT_MAX.

Definition reads {A} (m : LM read_block A) (bs : list Z) (a : A) : Prop :=
  ∀ rb rest, rb_repr rb (bs ++ rest) → ∃ rb', m rb = Ok (rb', inr a) ∧ rb_repr rb' rest.

Lemma reads_ret {A} (a : A) : reads (mret a) [] a.
Proof. intros rb rest Hr. eauto. Qed.

Lemma reads_bind {A B} (m : LM read_block A) (k : A → LM read_block B) bs1 a bs2 b :
  reads m bs1 a → reads (k a) bs2 b → reads (m ≫= k) (bs1 ++ bs2) b.
Proof.
  intros Hm Hk rb rest Hr. rewrite <- app_assoc in Hr. destruct (Hm rb _ Hr) as (rb1 & E1 & Hr1).
  rewrite (lbind_ok _ _ _ _ _ E1). by apply Hk.
Qed.

Lemma reads_ret_bind {A B} (a : A) (k : A → LM read_block B) bs b :
  reads (k a) bs b → reads (mret a ≫= k) bs b.
Proof. done. Qed.

Lemma rd_at_lemma l : ∀ buf i rest,
  0 ≤ i → drop (Z.to_nat i) buf = l ++ rest → rd_at buf i (length l) = Ok l.
Proof.
  induction l as [|x l IH]; intros buf i rest Hi Hd; cbn [rd_at length]; [done|].
  assert (buf !! Z.to_nat i = Some x) as Hx.
  { rewrite <- (Nat.add_0_r (Z.to_nat i)), <- lookup_drop, Hd. done. }
  rewrite (rd_ok _ _ _ Hi Hx), bind_ok, (IH buf (i + 1) rest); [done|lia|].
  replace (Z.to_nat (i + 1)) with (Z.to_nat i + 1)%nat by lia.
  by rewrite <- drop_drop, Hd.
Qed.

Lemma rb_read_lemma rb bs rest :
  rb_repr rb (bs ++ rest) →
  rb_read (Z.of_nat (length bs)) rb =
    Ok (ReadBlock (rb_buffer rb) (rb_len rb - Z.of_nat (length bs)) (rb_ptr rb + Z.of_nat (length bs)),
        inr (Some (rb_ptr rb))) ∧
  rb_repr (ReadBlock (rb_buffer rb) (rb_len rb - Z.of_nat (length bs)) (rb_ptr rb + Z.of_nat (length bs)))
    rest.
Proof.
  intros (Hp & [behind Hd] & Hl & Hmax). rewrite length_app in Hl. unfold INT_MAX in Hmax. split.
  - unfold rb_read, mbind, LM_bind, lget, lres. destruct (Z.ltb_spec (rb_len rb) (Z.of_nat (length bs))); [lia|].
    by rewrite !int_chk_ok by (unfold INT_MIN, INT_MAX; lia).
  - split; [cbn; lia|]. split; [|cbn; unfold INT_MAX; lia]. exists behind. cbn [rb_ptr rb_buffer].
    rewrite Z2Nat.inj_add, Nat2Z.id by lia. by rewrite <- drop_drop, Hd, <- app_assoc, drop_app_length.
Qed.

(** The copy of bytes that are there. *)
Lemma rb_copy_lemma rb bs rest : rb_repr rb (bs ++ rest) → rd_at (rb_buffer rb) (rb_ptr rb) (length bs) = Ok bs.
Proof. intros (Hp & [behind Hd] & _). rewrite <- app_assoc in Hd. exact (rd_at_lemma _ _ _ _ Hp Hd). Qed.

Lemma reads_get bs : reads (rb_get (length bs)) bs bs.
Proof.
  intros rb rest Hr. unfold rb_get. destruct (rb_read_lemma _ _ _ Hr) as [E Hr'].
  rewrite (lbind_ok _ _ _ _ _ E). eexists. split; [|exact Hr'].
  unfold mbind, LM_bind, lget, lres. cbn [rb_buffer]. by rewrite (rb_copy_lemma _ _ _ Hr).
Qed.

Lemma reads_buffer bs : reads (get_buffer (Z.of_nat (length bs))) bs bs.
Proof.
  intros rb rest Hr. unfold get_buffer. destruct (rb_read_lemma _ _ _ Hr) as [E Hr'].
  rewrite (lbind_ok _ _ _ _ _ E). eexists. split; [|exact Hr'].
  destruct (Z.ltb_spec (Z.of_nat (length bs)) 0); [lia|]. rewrite Nat2Z.id.
  unfold mbind, LM_bind, lget, lres. cbn [rb_buffer]. by rewrite (rb_copy_lemma _ _ _ Hr).
Qed.

(** ** Tags and numbers *)

Lemma length_le_bytes n : ∀ z, length (le_bytes n z) = n.
Proof. induction n as [|n IH]; intros z; cbn; [done|]. by rewrite IH. Qed.

Lemma le_value_bytes n : ∀ z, le_value (le_bytes n z) = z mod 2 ^ (8 * Z.of_nat n).
Proof.
  induction n as [|n IH]; intros z; cbn [le_bytes le_value]; [by rewrite Z.mod_1_r|].
  rewrite IH. replace (8 * Z.of_nat (S n)) with (8 + 8 * Z.of_nat n) by lia.
  rewrite Z.pow_add_r by lia. change (2 ^ 8) with 256.
  rewrite Z.rem_mul_r by lia. lia.
Qed.

Lemma reads_le n z : reads (rb_get n) (le_bytes n z) (le_bytes n z).
Proof. pose proof (reads_get (le_bytes n z)) as H. by rewrite length_le_bytes in H. Qed.

Lemma tag_value ty c : 0 ≤ ty < 8 → 0 ≤ c < 32 → COMBINE_TYPE ty c = ty + c * 8.
Proof.
  intros Ht Hc. unfold COMBINE_TYPE. rewrite lor_shiftl by lia. unfold u8.
  change (2 ^ 3) with 8. apply Z.mod_small. lia.
Qed.

Lemma tag_parts ty c : 0 ≤ ty < 8 → 0 ≤ c < 32 →
  Z.land (COMBINE_TYPE ty c) 7 = ty ∧ Z.shiftr (COMBINE_TYPE ty c) 3 = c.
Proof.
  intros Ht Hc. rewrite tag_value by done. split.
  - change 7 with (Z.ones 3). rewrite Z.land_ones by lia. change (2 ^ 3) with 8.
    rewrite Z.mod_add by lia. by apply Z.mod_small.
  - rewrite Z.shiftr_div_pow2 by lia. change (2 ^ 3) with 8.
    rewrite Z.div_add, Z.div_small by lia. done.
Qed.

(** The bytes [bs] are the encoding of the value [w]; fuel for their number is enough. *)
Definition decodes (bs : list Z) (w : value) : Prop :=
  bs ≠ [] ∧ ∀ fuel, (length bs ≤ fuel)%nat → reads (unpack_one fuel) bs w.

Lemma decodes_tag ty c bs w :
  0 ≤ ty < 8 → 0 ≤ c < 32 →
  (∀ fuel, (length bs ≤ fuel)%nat → reads (push_value fuel ty c) bs w) →
  decodes (COMBINE_TYPE ty c :: bs) w.
Proof.
  intros Ht Hc Hp. split; [done|]. intros [|fuel] Hf; cbn in Hf; [lia|]. cbn [unpack_one].
  change (COMBINE_TYPE ty c :: bs) with ([COMBINE_TYPE ty c] ++ bs).
  eapply reads_bind; [apply (reads_get [_])|]. destruct (tag_parts ty c Ht Hc) as [E1 E2].
  cbn [le_value]. rewrite Z.mul_0_r, Z.add_0_r, E1, E2. apply Hp. lia.
Qed.

(** A tag and a payload. *)
Lemma tagged_both t l :
  both (_ ← wb_push [t]; wb_push l) (_ ← wb_push [t]; wb_push l) (t :: l) (inr ()).
Proof. apply (both_bind _ _ _ _ [t] ()); auto with seri. Qed.

(** A payload of [n] bytes that is converted with [f]. *)
Lemma reads_value {A} (f : Z → A) n z u :
  f (z mod 2 ^ (8 * Z.of_nat n)) = u → reads (l ← rb_get n; mret (f (le_value l))) (le_bytes n z) u.
Proof.
  intros <-. pose proof (reads_bind _ (λ l, mret (f (le_value l))) _ _ [] _ (reads_le n z) (reads_ret _)) as H.
  by rewrite app_nil_r, le_value_bytes in H.
Qed.

(** Each integer is written in one of the five forms. *)
Lemma integer_lemma v :
  - 2 ^ 63 ≤ v < 2 ^ 63 →
  ∃ c bs, 0 ≤ c < 8 ∧ both (wb_integer v) (wb_integer v) (COMBINE_TYPE TYPE_NUMBER c :: bs) (inr ()) ∧
    reads (get_integer c) bs v.
Proof.
  intros Hv. unfold wb_integer.
  assert (Hi32 : v = i32 v → i32 (u32 v mod 2 ^ (8 * Z.of_nat 4)) = v).
  { intros E. unfold u32. rewrite Z.mod_mod by lia. unfold i32 in *. rewrite Zplus_mod_idemp_l. lia. }
  destruct (Z.eqb_spec v 0) as [->|Hne].
  { exists TYPE_NUMBER_ZERO, []. split; [done|]. split; [apply both_push|apply reads_ret]. }
  destruct (Z.eqb_spec v (i32 v)) as [E|E]; cbn [negb].
  - pose proof (i32_range v).
    destruct (Z.ltb_spec v 0); [|destruct (Z.ltb_spec v 0x100); [|destruct (Z.ltb_spec v 0x10000)]].
    + exists TYPE_NUMBER_DWORD, (le_bytes 4 (u32 v)).
      split; [done|]. split; [apply tagged_both|]. apply (reads_value i32). auto.
    + exists TYPE_NUMBER_BYTE, (le_bytes 1 (u8 v)).
      split; [done|]. split; [apply tagged_both|]. apply (reads_value id).
      unfold u8, id. rewrite Z.mod_mod by lia. apply Z.mod_small. lia.
    + exists TYPE_NUMBER_WORD, (le_bytes 2 (u16 v)).
      split; [done|]. split; [apply tagged_both|]. apply (reads_value id).
      unfold u16, id. rewrite Z.mod_mod by lia. apply Z.mod_small. lia.
    + exists TYPE_NUMBER_DWORD, (le_bytes 4 (u32 v)).
      split; [done|]. split; [apply tagged_both|]. apply (reads_value i32). auto.
  - exists TYPE_NUMBER_QWORD, (le_bytes 8 (u64 v)).
    split; [done|]. split; [apply tagged_both|]. apply (reads_value i64).
    unfold u64. rewrite Z.mod_mod by lia. unfold i64. rewrite Zplus_mod_idemp_l, Z.mod_small; lia.
Qed.

(** ** Values that make sense *)

Section heap.
Context (H : lheap).

Definition contents (t : ltable) : list (lval * lval) := default (t_entries t) (t_pairs t).

Definition value_ok (v : lval) : Prop :=
  match v with
  | LInt z => - 2 ^ 63 ≤ z < 2 ^ 63
  | LReal b => 0 ≤ b < 2 ^ 64
  | LPointer p => 0 ≤ p < 2 ^ 64
  | LStr s => Z.of_nat (length s) < 2 ^ 31
  | LTable r => is_Some (H !! r)
  | _ => True
  end.

(** A key of a Lua table: not nil, not NaN, and not a float that is an integer. *)
Definition key_ok (k : lval) : Prop :=
  match k with
  | LNil => False
  | LReal b => real_int b = None ∧ real_nan b = false
  | _ => True
  end.

Definition entry_ok (kv : lval * lval) : Prop :=
  value_ok (fst kv) ∧ value_ok (snd kv) ∧ key_ok (fst kv) ∧ snd kv ≠ LNil.

Definition table_ok (t : ltable) : Prop :=
  0 ≤ t_rawlen t < 2 ^ 31 ∧ Forall entry_ok (contents t) ∧ NoDup (map fst (contents t)).

Definition heap_ok : Prop := map_Forall (λ _ t, table_ok t) H.

#[export] Instance value_ok_decision v : Decision (value_ok v).
Proof. destruct v; cbn; apply _. Defined.
#[export] Instance key_ok_decision k : Decision (key_ok k).
Proof. destruct k; cbn; apply _. Defined.
#[export] Instance entry_ok_decision kv : Decision (entry_ok kv).
Proof. unfold entry_ok. apply _. Defined.
#[export] Instance table_ok_decision t : Decision (table_ok t).
Proof. unfold table_ok. apply _. Defined.
#[export] Instance heap_ok_decision : Decision heap_ok.
Proof. unfold heap_ok. apply _. Defined.

(** The decoded value [w] has the contents of [v]: equal scalars, and tables with the same
    entries, in any order. *)
Inductive rep : lval → value → Prop :=
| rep_nil : rep LNil VNil
| rep_bool b : rep (LBool b) (VBool b)
| rep_int z : rep (LInt z) (VInt z)
| rep_real x : rep (LReal x) (VReal x)
| rep_str s : rep (LStr s) (VStr s)
| rep_pointer p : rep (LPointer p) (VPointer p)
| rep_table r t kvs es :
    H !! r = Some t → kvs ≡ₚ contents t →
    Forall2 (λ kv e, rep (fst kv) (fst e) ∧ rep (snd kv) (snd e)) kvs es →
    rep (LTable r) (VTable es).

(** ** Scalars *)

Definition encoded (m1 : LM write_block unit) (m2 : LM (list Z) unit) (v : lval) : Prop :=
  ∃ bs w, both m1 m2 bs (inr ()) ∧ decodes bs w ∧ rep v w.

Lemma encoded_integer z : value_ok (LInt z) → encoded (wb_integer z) (wb_integer z) (LInt z).
Proof.
  intros Hz. destruct (integer_lemma z Hz) as (c & bs & Hc & Hb & Hr). eexists _, (VInt z).
  split; [exact Hb|]. split; [|constructor]. apply decodes_tag; [done|lia|]. intros fuel _.
  assert (push_value fuel TYPE_NUMBER c = (z ← get_integer c; mret (VInt z))) as ->.
  { unfold push_value, push_value_. cbn [Z.eqb TYPE_NUMBER TYPE_NIL TYPE_BOOLEAN Pos.eqb].
    destruct (Z.eqb_spec c TYPE_NUMBER_REAL) as [E|]; [unfold TYPE_NUMBER_REAL in E; lia|done]. }
  rewrite <- (app_nil_r bs). eapply reads_bind; [exact Hr|apply reads_ret].
Qed.

Lemma encoded_real x : value_ok (LReal x) → encoded (wb_real x) (wb_real x) (LReal x).
Proof.
  intros Hx. eexists _, (VReal x). split; [apply tagged_both|]. split; [|constructor].
  apply decodes_tag; [done|done|]. intros fuel _.
  pose proof (reads_value VReal 8 x (VReal x)) as Hr. rewrite Z.mod_small in Hr by done.
  pose proof (Hr eq_refl) as Hr'. intros rb rest Hrb. destruct (Hr' rb rest Hrb) as (rb' & E & Hrb').
  exists rb'. split; [|done]. rewrite <- E. unfold push_value, push_value_, get_real.
  cbn [Z.eqb TYPE_NUMBER TYPE_NIL TYPE_BOOLEAN TYPE_NUMBER_REAL Pos.eqb]. by rewrite lbind_assoc.
Qed.

Lemma encoded_pointer p : value_ok (LPointer p) → encoded (wb_pointer p) (wb_pointer p) (LPointer p).
Proof.
  intros Hp. eexists _, (VPointer p). split; [apply tagged_both|]. split; [|constructor].
  change TYPE_USERDATA with (COMBINE_TYPE TYPE_USERDATA 0).
  apply decodes_tag; [done|done|]. intros fuel _.
  pose proof (reads_value VPointer 8 p (VPointer p)) as Hr. rewrite Z.mod_small in Hr by done.
  pose proof (Hr eq_refl) as Hr'. intros rb rest Hrb. destruct (Hr' rb rest Hrb) as (rb' & E & Hrb').
  exists rb'. split; [|done]. rewrite <- E. unfold push_value, push_value_, get_pointer.
  cbn [Z.eqb TYPE_NUMBER TYPE_NIL TYPE_BOOLEAN TYPE_USERDATA Pos.eqb]. by rewrite lbind_assoc.
Qed.

Lemma encoded_small :
  encoded wb_nil wb_nil LNil ∧ ∀ b, encoded (wb_boolean b) (wb_boolean b) (LBool b).
Proof.
  split.
  - eexists _, VNil. split; [apply both_push|]. split; [|constructor].
    change TYPE_NIL with (COMBINE_TYPE TYPE_NIL 0). apply decodes_tag; [done|done|].
    intros fuel _. apply reads_ret.
  - intros b. eexists _, (VBool b). split; [apply both_push|]. split; [|constructor].
    apply decodes_tag; [done|by destruct b|]. intros fuel _. destruct b; apply reads_ret.
Qed.

(** Reading a string of which the length is known. *)
Lemma reads_string n s : n = Z.of_nat (length s) → reads (s ← get_buffer n; mret (VStr s)) s (VStr s).
Proof.
  intros ->. pose proof (reads_bind _ (λ s, mret (VStr s)) _ _ [] _ (reads_buffer s) (reads_ret _)) as Hr.
  by rewrite app_nil_r in Hr.
Qed.

Lemma encoded_string s : value_ok (LStr s) → encoded (wb_string s) (wb_string s) (LStr s).
Proof.
  cbn. intros Hs. unfold wb_string. rewrite i32_small by lia. set (len := Z.of_nat (length s)) in *.
  destruct (Z.ltb_spec len MAX_COOKIE) as [Hlt|Hge].
  - exists (COMBINE_TYPE TYPE_SHORT_STRING len :: s), (VStr s). split; [|split; [|constructor]].
    + apply (both_bind _ _ _ _ [_] ()); [apply both_push|].
      destruct (Z.gtb_spec len 0); [apply both_push|].
      replace s with (@nil Z) by (destruct s; [done|unfold len in *; cbn in *; lia]). apply both_ret.
    + apply decodes_tag; [done|unfold MAX_COOKIE, len in *; lia|]. intros fuel _. by apply reads_string.
  - assert (Hlong : ∀ c n, (c = 2 ∧ n = 2%nat ∧ len < 2 ^ 16) ∨ (c = 4 ∧ n = 4%nat) →
      decodes (COMBINE_TYPE TYPE_LONG_STRING c :: le_bytes n len ++ s) (VStr s)).
    { intros c n Hcn. apply decodes_tag; [done|naive_solver lia|]. intros fuel _.
      destruct Hcn as [(-> & -> & Hl)|(-> & ->)].
      - eapply reads_bind; [apply reads_le|]. apply reads_string. rewrite le_value_bytes.
        apply Z.mod_small. unfold len in *. lia.
      - change (push_value fuel TYPE_LONG_STRING 4) with
          (_ ← mret (); l ← rb_get 4; s ← get_buffer (i32 (le_value l)); mret (VStr s)).
        apply reads_ret_bind.
        eapply reads_bind; [apply reads_le|]. apply reads_string. rewrite le_value_bytes.
        rewrite Z.mod_small by (unfold len in *; lia). apply i32_small. unfold len in *. lia. }
    destruct (Z.ltb_spec len 0x10000).
    + eexists _, (VStr s). split; [|split; [apply (Hlong 2 2%nat); lia|constructor]].
      rewrite app_comm_cons. eapply both_bind; [|apply both_push].
      replace (u16 len) with len by (unfold u16; rewrite Z.mod_small; unfold len in *; lia).
      apply tagged_both.
    + eexists _, (VStr s). split; [|split; [apply (Hlong 4 4%nat); lia|constructor]].
      rewrite app_comm_cons. eapply both_bind; [|apply both_push].
      rewrite u32_small by (unfold len in *; lia). apply tagged_both.
Qed.

(** ** Sequences of values *)

Fixpoint pack_seq {W} (pack : lval → LM W unit) (vs : list lval) : LM W unit :=
  match vs with
  | [] => mret ()
  | v :: vs => _ ← pack v; pack_seq pack vs
  end.

Definition flat {A} (kvs : list (A * A)) : list A := concat (map (λ kv, [fst kv; snd kv]) kvs).

Section seq.
Context {W : Type} `{!Writer W} (pack : lval → LM W unit).

Lemma pack_array_seq t n : ∀ i s,
  pack_array pack n i t s = pack_seq pack (map (rawgeti t) (seqZ i (Z.of_nat n))) s.
Proof.
  induction n as [|n IH]; intros i s; cbn [pack_array]; [done|].
  rewrite seqZ_cons by lia. cbn [map pack_seq]. apply lbind_ext; [done|]. intros _ s'. rewrite IH.
  by replace (Z.pred (Z.of_nat (S n))) with (Z.of_nat n) by lia.
Qed.

Lemma pack_hash_seq sz es : ∀ s,
  pack_hash pack sz es s = pack_seq pack (flat (filter (λ kv, in_array sz (fst kv) = false) es)) s.
Proof.
  induction es as [|[k v] es IH]; intros s; cbn [pack_hash]; [done|].
  rewrite filter_cons. cbn [fst]. destruct (in_array sz k).
  - rewrite decide_False by done. by rewrite <- IH.
  - rewrite decide_True by done. cbn [flat map concat app pack_seq fst snd]. rewrite lbind_assoc.
    apply lbind_ext; [done|]. intros _ s1. apply lbind_ext; [done|]. intros _ s2. apply IH.
Qed.

Lemma pack_pairs_seq kvs : Forall (λ kv, fst kv ≠ LNil) kvs → ∀ s,
  pack_pairs pack kvs s = pack_seq pack (flat kvs) s.
Proof.
  induction 1 as [|[k v] kvs Hk _ IH]; intros s; [done|]. cbn [flat map concat app pack_seq fst snd].
  cbn in Hk. destruct k; [done|..]; cbn [pack_pairs];
    (apply lbind_ext; [done|]; intros _ s1; apply lbind_ext; [done|]; intros _ s2; apply IH).
Qed.
End seq.

(** What a level of packing promises about a value: it is encoded when it fits, and there
    is an error when not. *)
Definition packs (m1 : LM write_block unit) (m2 : LM (list Z) unit) (fit : bool) (v : lval) : Prop :=
  if fit then encoded m1 m2 v else ∃ bs e, both m1 m2 bs (inl e).

Section level.
Context (pack1 : lval → LM write_block unit) (pack2 : lval → LM (list Z) unit) (fit : lval → bool).
Context (Hpack : ∀ v, value_ok v → packs (pack1 v) (pack2 v) (fit v) v).

Lemma seq_lemma vs : Forall value_ok vs →
  if forallb fit vs
  then ∃ bss ws, both (pack_seq pack1 vs) (pack_seq pack2 vs) (concat bss) (inr ()) ∧
         Forall2 decodes bss ws ∧ Forall2 rep vs ws
  else ∃ bs e, both (pack_seq pack1 vs) (pack_seq pack2 vs) bs (inl e).
Proof.
  induction 1 as [|v vs Hv _ IH]; cbn [forallb pack_seq].
  { exists [], []. split; [apply both_ret|]. by split. }
  specialize (Hpack v Hv). unfold packs in Hpack. destruct (fit v); cbn [andb].
  - destruct Hpack as (bs & w & Hb & Hd & Hw). destruct (forallb fit vs).
    + destruct IH as (bss & ws & Hbs & Hds & Hws). exists (bs :: bss), (w :: ws).
      split; [by eapply both_bind|]. by split; constructor.
    + destruct IH as (bs' & e & Hbs). exists (bs ++ bs'), e. by eapply both_bind.
  - destruct Hpack as (bs & e & Hb). exists bs, e. by apply both_bind_err.
Qed.
End level.

(** ** Reading sequences *)

Fixpoint set_array (es : list (value * value)) (i : Z) (ws : list value) : list (value * value) :=
  match ws with
  | [] => es
  | w :: ws => set_array (rawset_entries es (VInt i) w) (i + 1) ws
  end.

Fixpoint set_pairs (es kws : list (value * value)) : list (value * value) :=
  match kws with
  | [] => es
  | (k, w) :: kws => set_pairs (rawset_entries es (normal_key k) w) kws
  end.

(** A key [lua_rawset] accepts. *)
Definition good_key (k : value) : bool :=
  match k with VNil => false | VReal b => negb (real_nan b) | _ => true end.

Lemma decodes_length bss ws : Forall2 decodes bss ws → (length ws ≤ length (concat bss))%nat.
Proof.
  induction 1 as [|bs w bss ws [Hne _] _ IH]; cbn; [lia|]. rewrite length_app.
  destruct bs; [done|cbn; lia].
Qed.

Lemma reads_array fuel bss : ∀ ws n i es,
  Forall2 decodes bss ws → (length (concat bss) ≤ fuel)%nat → (length ws ≤ n)%nat →
  reads (unpack_array (unpack_one fuel) n i (i + Z.of_nat (length ws) - 1) es) (concat bss)
    (set_array es i ws).
Proof.
  induction bss as [|bs bss IH]; intros ws n i es Hd Hf Hn;
    inversion Hd as [|? w ? l' [_ Hr] Hd']; subst; cbn [concat set_array length] in *.
  - assert (unpack_array (unpack_one fuel) n i (i + Z.of_nat 0 - 1) es = mret es) as ->;
      [|apply reads_ret].
    destruct n; cbn [unpack_array]; (destruct (Z.leb_spec i (i + Z.of_nat 0 - 1)); [lia|done]).
  - destruct n as [|n]; [lia|]. cbn [unpack_array]. rewrite length_app in Hf.
    destruct (Z.leb_spec i (i + Z.of_nat (S (length l')) - 1)); [|lia].
    eapply reads_bind; [apply Hr; lia|].
    replace (i + Z.of_nat (S (length l')) - 1) with (i + 1 + Z.of_nat (length l') - 1) by lia.
    apply IH; [done|lia|lia].
Qed.

Lemma reads_rawset es k w : good_key k = true →
  reads (rawset es k w) [] (rawset_entries es (normal_key k) w).
Proof.
  intros Hk. destruct k; cbn in Hk |- *; try apply reads_ret; [done|].
  apply negb_true_iff in Hk. rewrite Hk. apply reads_ret.
Qed.

Lemma reads_hash fuel kws : ∀ bss n es,
  Forall2 decodes bss (flat kws) → Forall (λ kw, good_key (fst kw) = true) kws →
  (S (length (concat bss)) ≤ fuel)%nat → (length kws < n)%nat →
  reads (unpack_hash (unpack_one fuel) n es) (concat bss ++ [TYPE_NIL]) (set_pairs es kws).
Proof.
  induction kws as [|[k w] kws IH]; intros bss n es Hd Hk Hf Hn; (destruct n as [|n]; [cbn in Hn; lia|]);
    cbn [unpack_hash flat map concat app set_pairs fst snd] in *.
  - inversion Hd; subst. cbn [concat app].
    destruct (proj1 encoded_small) as (bs & w & Hb & [_ Hr] & Hrep). inversion Hrep; subst.
    assert (bs = [TYPE_NIL]) as ->.
    { destruct Hb as [He _]. specialize (He []). cbn in He. by injection He. }
    eapply (reads_bind _ _ [TYPE_NIL] _ []); [apply Hr; cbn; lia|apply reads_ret].
  - apply Forall_cons in Hk as [Hk Hks]. cbn [fst] in Hk. fold (@flat value kws) in Hd.
    inversion Hd as [|bk ? bss1 ? Hdk Hd1]; subst. inversion Hd1 as [|bw ? bss2 ? Hdw Hd2]; subst.
    cbn [concat] in *. rewrite !length_app in Hf. rewrite <- !app_assoc.
    eapply reads_bind; [apply Hdk; lia|].
    assert (reads (v ← unpack_one fuel; es0 ← rawset es k v; unpack_hash (unpack_one fuel) n es0)
      (bw ++ concat bss2 ++ [TYPE_NIL]) (set_pairs (rawset_entries es (normal_key k) w) kws)) as Hr.
    { eapply reads_bind; [apply Hdw; lia|].
      eapply (reads_bind _ _ []); [by apply reads_rawset|]. apply IH; [done|done|lia|cbn in Hn; lia]. }
    by destruct k.
Qed.

(** ** The entries of a decoded table *)

Definition rep_entry (kv : lval * lval) (e : value * value) : Prop :=
  rep (fst kv) (fst e) ∧ rep (snd kv) (snd e).

Lemma rep_key_eqb k1 k2 w1 w2 : rep k1 w1 → rep k2 w2 → key_eqb w1 w2 = true → k1 = k2.
Proof.
  intros H1 H2. inversion H1; subst; inversion H2; subst; cbn; try done; intros E.
  - apply eqb_prop in E. by subst.
  - apply Z.eqb_eq in E. by subst.
  - apply Z.eqb_eq in E. by subst.
  - apply bool_decide_eq_true in E. by subst.
  - apply Z.eqb_eq in E. by subst.
Qed.

Lemma rep_good_key k w : rep k w → key_ok k → good_key w = true ∧ normal_key w = w.
Proof. intros Hr Hk. inversion Hr; subst; try done. destruct Hk as [E1 E2]. cbn. by rewrite E1, E2. Qed.

Lemma rep_nil_iff v w : rep v w → is_vnil w = true ↔ v = LNil.
Proof. by inversion 1. Qed.

Lemma rawset_fresh es k w :
  Forall (λ e, key_eqb (fst e) k = false) es →
  rawset_entries es k w = es ++ if is_vnil w then [] else [(k, w)].
Proof.
  induction 1 as [|[k' w'] es Hk _ IH]; cbn [rawset_entries app]; [done|].
  cbn [fst] in Hk. by rewrite Hk, IH.
Qed.

Lemma fresh_key kvs es k w :
  Forall2 rep_entry kvs es → rep k w → k ∉ map fst kvs → Forall (λ e, key_eqb (fst e) w = false) es.
Proof.
  intros Hf Hr. induction Hf as [|kv e kvs es [Hk _] _ IH]; intros Hni; constructor.
  - destruct (key_eqb (fst e) w) eqn:E; [|done]. destruct Hni. cbn.
    rewrite (rep_key_eqb _ _ _ _ Hk Hr E). by left.
  - apply IH. intros Hin. apply Hni. by right.
Qed.

(** The array part: the values that are not nil, under 1, 2, ... *)
Fixpoint array_kvs (i : Z) (vs : list lval) : list (lval * lval) :=
  match vs with
  | [] => []
  | v :: vs => (if bool_decide (v = LNil) then [] else [(LInt i, v)]) ++ array_kvs (i + 1) vs
  end.

Lemma elem_of_array_kvs vs : ∀ i kv,
  kv ∈ array_kvs i vs ↔ ∃ j, vs !! j = Some (snd kv) ∧ fst kv = LInt (i + Z.of_nat j) ∧ snd kv ≠ LNil.
Proof.
  induction vs as [|v vs IH]; intros i kv; cbn [array_kvs].
  - split; [intros Hin; by apply not_elem_of_nil in Hin|by intros (j & Hj & _)].
  - rewrite elem_of_app, IH. split.
    + intros [Hin|(j & Hj & Hk & Hv)].
      * case_bool_decide; [by apply not_elem_of_nil in Hin|].
        apply list_elem_of_singleton in Hin as ->. exists 0%nat. by rewrite Z.add_0_r.
      * exists (S j). split; [done|]. split; [|done]. rewrite Hk. f_equal. lia.
    + intros ([|j] & Hj & Hk & Hv).
      * left. injection Hj as ->. rewrite bool_decide_eq_false_2 by done.
        apply list_elem_of_singleton. destruct kv. cbn in *. by rewrite Hk, Z.add_0_r.
      * right. exists j. split; [done|]. split; [|done]. rewrite Hk. f_equal. lia.
Qed.

Lemma array_kvs_nodup vs : ∀ i, NoDup (array_kvs i vs).
Proof.
  induction vs as [|v vs IH]; intros i; cbn [array_kvs]; [constructor|].
  case_bool_decide; [apply IH|]. cbn. apply NoDup_cons. split; [|apply IH].
  intros (j & _ & Hk & _)%elem_of_array_kvs. cbn in Hk. injection Hk as Hk. lia.
Qed.

Lemma set_array_lemma vs ws : Forall2 rep vs ws → ∀ i es kvs,
  Forall2 rep_entry kvs es → (∀ j, i ≤ j → LInt j ∉ map fst kvs) →
  Forall2 rep_entry (kvs ++ array_kvs i vs) (set_array es i ws).
Proof.
  induction 1 as [|v w vs ws Hv _ IH]; intros i es kvs Hes Hfr; cbn [array_kvs set_array].
  - by rewrite app_nil_r.
  - rewrite rawset_fresh by (apply (fresh_key kvs _ (LInt i)); [done|constructor|apply Hfr; lia]).
    rewrite app_assoc. pose proof (rep_nil_iff v w Hv) as Hnil. apply IH.
    + apply Forall2_app; [done|]. destruct (is_vnil w); case_bool_decide; [constructor| | |].
      * by destruct Hnil as [Hn _]; specialize (Hn eq_refl).
      * by destruct Hnil as [_ Hn]; specialize (Hn ltac:(done)).
      * constructor; [|constructor]. by split; [constructor|].
    + intros j Hj. rewrite map_app, not_elem_of_app. split; [apply Hfr; lia|].
      case_bool_decide; cbn; [apply not_elem_of_nil|]. intros E. apply list_elem_of_singleton in E.
      injection E as ->. lia.
Qed.

Lemma set_pairs_lemma kvs kws : Forall2 rep_entry kvs kws → ∀ kvs0 es,
  Forall2 rep_entry kvs0 es → Forall entry_ok kvs → NoDup (map fst (kvs0 ++ kvs)) →
  Forall2 rep_entry (kvs0 ++ kvs) (set_pairs es kws).
Proof.
  induction 1 as [|[k v] [k' w] kvs kws [Hk Hv] _ IH]; intros kvs0 es Hes Hok Hnd; cbn [set_pairs].
  - by rewrite app_nil_r.
  - apply Forall_cons in Hok as [(_ & _ & Hkey & Hnn) Hok]. cbn [fst snd] in *.
    destruct (rep_good_key k k' Hk Hkey) as [_ ->].
    assert (k ∉ map fst kvs0) as Hni.
    { rewrite map_app in Hnd. apply NoDup_app in Hnd as (_ & Hnd & _). intros Hin.
      apply (Hnd k Hin). by left. }
    rewrite (rawset_fresh es k' w) by (by apply (fresh_key kvs0 _ k)).
    assert (is_vnil w = false) as ->.
    { destruct (is_vnil w) eqn:E; [|done]. by apply (rep_nil_iff v w Hv) in E. }
    rewrite cons_middle, app_assoc. apply IH; [|done|by rewrite <- app_assoc].
    apply Forall2_app; [done|]. constructor; [done|constructor].
Qed.

(** The array part and the rest are the table. *)
Lemma rawgeti_elem t i : NoDup (map fst (t_entries t)) →
  (∀ v, (LInt i, v) ∈ t_entries t → rawgeti t i = v) ∧
  (rawgeti t i ≠ LNil → (LInt i, rawgeti t i) ∈ t_entries t).
Proof.
  intros Hnd. unfold rawgeti.
  destruct (list_find (λ e, fst e = LInt i) (t_entries t)) as [[n e]|] eqn:E.
  - apply list_find_Some in E as (Hn & Hk & _). destruct e as [k x]. cbn in Hk |- *. subst k. split.
    + intros v Hin. apply list_elem_of_lookup in Hin as [m Hm].
      assert (n = m) as <-.
      { apply (NoDup_lookup (map fst (t_entries t)) n m (LInt i) Hnd); by rewrite list_lookup_fmap, ?Hn, ?Hm. }
      rewrite Hn in Hm. by injection Hm.
    + intros _. by apply (list_elem_of_lookup_2 _ n).
  - apply list_find_None in E. split; [|done]. intros v Hin.
    by apply (proj1 (Forall_forall _ _) E) in Hin.
Qed.

Lemma parts_permutation t n :
  NoDup (map fst (t_entries t)) → Forall (λ kv, snd kv ≠ LNil) (t_entries t) → 0 ≤ n →
  array_kvs 1 (map (rawgeti t) (seqZ 1 n)) ++ filter (λ kv, in_array n (fst kv) = false) (t_entries t)
    ≡ₚ t_entries t.
Proof.
  intros Hnd Hnn Hn. assert (Hnd' : NoDup (t_entries t)) by (by eapply NoDup_fmap_1).
  assert (Hin : ∀ k v, (k, v) ∈ array_kvs 1 (map (rawgeti t) (seqZ 1 n)) ↔
    in_array n k = true ∧ (k, v) ∈ t_entries t).
  { intros k v. rewrite elem_of_array_kvs. cbn [fst snd]. split.
    - intros (j & Hj & -> & Hv). apply list_lookup_fmap_Some in Hj as (z & -> & Hz).
      apply lookup_seqZ in Hz as [-> Hlt]. split; [|by apply rawgeti_elem].
      cbn. destruct (Z.gtb_spec (1 + Z.of_nat j) 0), (Z.leb_spec (1 + Z.of_nat j) n); lia || done.
    - intros [Hk Hkv]. destruct k; try done. cbn in Hk.
      destruct (Z.gtb_spec z 0), (Z.leb_spec z n); try done. exists (Z.to_nat (z - 1)).
      pose proof (proj1 (rawgeti_elem t z Hnd) v Hkv) as <-. split; [|split].
      + pose proof (proj2 (lookup_seqZ 1 n (Z.to_nat (z - 1)) z) ltac:(lia)) as Hz.
        by rewrite list_lookup_fmap, Hz.
      + f_equal. lia.
      + by apply (proj1 (Forall_forall _ _) Hnn (LInt z, rawgeti t z)) in Hkv. }
  apply NoDup_Permutation; [|done|].
  - apply NoDup_app. split; [apply array_kvs_nodup|]. split; [|by apply NoDup_filter].
    intros [k v] [Hk _]%Hin [Hk' _]%list_elem_of_filter. cbn in Hk'. congruence.
  - intros [k v]. rewrite elem_of_app, Hin, list_elem_of_filter. cbn [fst].
    destruct (in_array n k); naive_solver.
Qed.

(** ** Tables *)

Definition write_size {W} `{!Writer W} (n : Z) : LM W unit :=
  if n >=? MAX_COOKIE - 1 then
    _ ← wb_push [COMBINE_TYPE TYPE_TABLE (MAX_COOKIE - 1)];
    wb_integer n
  else wb_push [COMBINE_TYPE TYPE_TABLE n].

Lemma size_lemma n : 0 ≤ n < 2 ^ 31 →
  ∃ c bs, 0 ≤ c < 32 ∧
    both (write_size n) (write_size n) (COMBINE_TYPE TYPE_TABLE c :: bs) (inr ()) ∧
    reads (unpack_size c) bs n.
Proof.
  intros Hn. unfold write_size. destruct (Z.geb_spec n (MAX_COOKIE - 1)).
  - destruct (integer_lemma n) as (c & bs & Hc & Hb & Hr); [lia|].
    exists (MAX_COOKIE - 1), (COMBINE_TYPE TYPE_NUMBER c :: bs). split; [done|].
    split; [by apply (both_bind _ _ _ _ [_] ()); [apply both_push|]|].
    unfold unpack_size. rewrite Z.eqb_refl.
    change (COMBINE_TYPE TYPE_NUMBER c :: bs) with ([COMBINE_TYPE TYPE_NUMBER c] ++ bs).
    eapply reads_bind; [apply (reads_get [_])|]. cbn [le_value]. rewrite Z.mul_0_r, Z.add_0_r.
    destruct (tag_parts TYPE_NUMBER c) as [-> ->]; [done|lia|].
    destruct (Z.eqb_spec c TYPE_NUMBER_REAL); [unfold TYPE_NUMBER_REAL in *; lia|].
    rewrite Z.eqb_refl. cbn [negb orb]. rewrite <- (app_nil_r bs).
    eapply reads_bind; [exact Hr|]. rewrite i32_small by lia. apply reads_ret.
  - unfold MAX_COOKIE in *. exists n, []. split; [lia|]. split; [apply both_push|].
    unfold unpack_size. destruct (Z.eqb_spec n (MAX_COOKIE - 1)); [unfold MAX_COOKIE in *; lia|].
    apply reads_ret.
Qed.

Lemma flat_length {A} (kvs : list (A * A)) : length (flat kvs) = (2 * length kvs)%nat.
Proof.
  induction kvs as [|kv kvs IH]; cbn [flat map concat app length]; [done|].
  fold (flat kvs). rewrite IH. lia.
Qed.

Lemma decodes_table c hb n bssA wsA bssH kws :
  0 ≤ c < 32 → reads (unpack_size c) hb n → Z.of_nat (length wsA) = n → Forall2 decodes bssA wsA →
  Forall2 decodes bssH (flat kws) → Forall (λ kw, good_key (fst kw) = true) kws →
  decodes (COMBINE_TYPE TYPE_TABLE c :: hb ++ concat bssA ++ concat bssH ++ [TYPE_NIL])
    (VTable (set_pairs (set_array [] 1 wsA) kws)).
Proof.
  intros Hc Hh <- HA HH Hk. apply decodes_tag; [done|done|]. intros fuel Hf.
  rewrite !length_app in Hf. cbn [length] in Hf.
  pose proof (decodes_length _ _ HA). pose proof (decodes_length _ _ HH) as HlH.
  rewrite flat_length in HlH.
  change (push_value fuel TYPE_TABLE c) with (unpack_table (unpack_one fuel) fuel c).
  unfold unpack_table. eapply reads_bind; [exact Hh|].
  eapply reads_bind.
  - replace (Z.of_nat (length wsA)) with (1 + Z.of_nat (length wsA) - 1) by lia.
    apply reads_array; [done|lia|lia].
  - rewrite <- (app_nil_r (concat bssH ++ _)). eapply reads_bind; [|apply reads_ret].
    apply reads_hash; [done|done|lia|lia].
Qed.

(** The values [wb_table] packs, in order. *)
Definition array_part (t : ltable) : list lval := map (rawgeti t) (seqZ 1 (t_rawlen t)).
Definition hash_part (t : ltable) : list (lval * lval) :=
  filter (λ kv, in_array (t_rawlen t) (fst kv) = false) (t_entries t).
Definition packed_values (t : ltable) : list lval :=
  match t_pairs t with
  | Some kvs => flat kvs
  | None => array_part t ++ flat (hash_part t)
  end.

Definition wb_table_seq {W} `{!Writer W} (pack : lval → LM W unit) (t : ltable) : LM W unit :=
  match t_pairs t with
  | Some kvs => _ ← write_size 0; _ ← pack_seq pack (flat kvs); wb_nil
  | None => _ ← write_size (t_rawlen t); _ ← pack_seq pack (array_part t ++ flat (hash_part t)); wb_nil
  end.

Lemma pack_seq_app {W} (pack : lval → LM W unit) vs vs' s :
  pack_seq pack (vs ++ vs') s = (_ ← pack_seq pack vs; pack_seq pack vs') s.
Proof.
  revert s. induction vs as [|v vs IH]; intros s; cbn [app pack_seq]; [done|].
  rewrite lbind_assoc. apply lbind_ext; [done|]. intros _ s'. apply IH.
Qed.

Lemma entries_keys t : table_ok t → Forall (λ kv, fst kv ≠ LNil) (contents t).
Proof. intros (_ & Hc & _). eapply Forall_impl; [exact Hc|]. intros [[] v] (_ & _ & Hk & _); done. Qed.

Lemma wb_table_seq_eq {W} `{!Writer W} (pack : lval → LM W unit) t s :
  table_ok t → wb_table pack t s = wb_table_seq pack t s.
Proof.
  intros Hok. pose proof (entries_keys t Hok) as Hk. destruct Hok as (Hn & _).
  unfold wb_table, wb_table_seq, contents in *. destruct (t_pairs t) as [kvs|]; cbn [default] in Hk.
  - unfold wb_table_metapairs. apply lbind_ext; [done|]. intros _ s1.
    apply lbind_ext; [|done]. by apply pack_pairs_seq.
  - unfold wb_table_array, wb_table_hash. rewrite i32_small by lia. cbv zeta.
    rewrite !lbind_assoc. apply lbind_ext; [done|]. intros _ s1. rewrite !lbind_assoc.
    transitivity ((_ ← (_ ← pack_seq pack (array_part t); pack_seq pack (flat (hash_part t))); wb_nil) s1).
    + rewrite lbind_assoc. apply lbind_ext.
      * rewrite pack_array_seq. unfold array_part. by rewrite Z2Nat.id by lia.
      * intros _ s2. change ((_ ← pack_hash pack (t_rawlen t) (t_entries t); wb_nil) s2 =
          (_ ← pack_seq pack (flat (hash_part t)); wb_nil) s2).
        apply lbind_ext; [|done]. apply pack_hash_seq.
    + apply lbind_ext; [|done]. symmetry. apply pack_seq_app.
Qed.

Lemma forallb_flat {A} (P : A → bool) kvs :
  forallb P (flat kvs) = forallb (λ kv, P (fst kv) && P (snd kv)) kvs.
Proof.
  induction kvs as [|kv kvs IH]; [done|]. cbn [flat map concat app forallb]. fold (flat kvs).
  by rewrite IH, andb_assoc.
Qed.

Lemma Forall2_unflat kvs : ∀ ws, Forall2 rep (flat kvs) ws →
  ∃ kws, ws = flat kws ∧ Forall2 rep_entry kvs kws.
Proof.
  induction kvs as [|[k v] kvs IH]; intros ws Hf; cbn [flat map concat app fst snd] in Hf.
  - inversion Hf. exists []. by split.
  - fold (flat kvs) in Hf. inversion Hf as [|? k' ? l1 Hk Hf1]; subst.
    inversion Hf1 as [|? v' ? l2 Hv Hf2]; subst. destruct (IH _ Hf2) as (kws & -> & Hkws).
    exists ((k', v') :: kws). split; [done|]. by constructor.
Qed.

Lemma good_keys kvs kws : Forall2 rep_entry kvs kws → Forall entry_ok kvs →
  Forall (λ kw, good_key (fst kw) = true) kws.
Proof.
  induction 1 as [|[k v] [k' w] kvs kws [Hk _] _ IH]; intros Hok; [constructor|].
  apply Forall_cons in Hok as [(_ & _ & Hkey & _) Hok]. constructor; [|auto].
  by apply (rep_good_key k k').
Qed.

Lemma flat_ok kvs : Forall entry_ok kvs → Forall value_ok (flat kvs).
Proof.
  induction 1 as [|kv kvs (Hk & Hv & _) _ IH]; cbn [flat map concat app]; [constructor|].
  by repeat constructor.
Qed.

Lemma array_ok t : t_pairs t = None → table_ok t → Forall value_ok (array_part t).
Proof.
  intros Hp (_ & Hc & Hnd). unfold contents in *. rewrite Hp in *. cbn [default] in *.
  apply Forall_forall. intros v Hv. apply list_elem_of_fmap in Hv as (i & -> & _).
  destruct (decide (rawgeti t i = LNil)) as [->|Hne]; [done|].
  apply (proj2 (rawgeti_elem t i Hnd)) in Hne.
  by apply (proj1 (Forall_forall _ _) Hc) in Hne as (_ & Hv & _).
Qed.

Lemma both_table n c hb vs bss {pack1 : lval → LM write_block unit} {pack2 : lval → LM (list Z) unit} :
  both (write_size n) (write_size n) (COMBINE_TYPE TYPE_TABLE c :: hb) (inr ()) →
  both (pack_seq pack1 vs) (pack_seq pack2 vs) bss (inr ()) →
  both (_ ← write_size n; _ ← pack_seq pack1 vs; wb_nil) (_ ← write_size n; _ ← pack_seq pack2 vs; wb_nil)
    (COMBINE_TYPE TYPE_TABLE c :: hb ++ bss ++ [TYPE_NIL]) (inr ()).
Proof.
  intros H1 H2. rewrite app_comm_cons. eapply both_bind; [exact H1|].
  eapply both_bind; [exact H2|apply both_push].
Qed.

Section table.
Context (pack1 : lval → LM write_block unit) (pack2 : lval → LM (list Z) unit) (fit : lval → bool).
Context (Hpack : ∀ v, value_ok v → packs (pack1 v) (pack2 v) (fit v) v).

(** A table with its array part [vs] and its other entries [kvs]. *)
Lemma table_encoded r t n vs kvs :
  H !! r = Some t → 0 ≤ n < 2 ^ 31 → Z.of_nat (length vs) = n →
  Forall value_ok vs → Forall entry_ok kvs → NoDup (map fst (array_kvs 1 vs ++ kvs)) →
  array_kvs 1 vs ++ kvs ≡ₚ contents t →
  packs (_ ← write_size n; _ ← pack_seq pack1 (vs ++ flat kvs); wb_nil)
    (_ ← write_size n; _ ← pack_seq pack2 (vs ++ flat kvs); wb_nil)
    (forallb fit (vs ++ flat kvs)) (LTable r).
Proof.
  intros Hr Hn Hlen Hvs Hkvs Hnd Hperm.
  destruct (size_lemma n Hn) as (c & hb & Hc & Hb & Hread).
  assert (Hok : Forall value_ok (vs ++ flat kvs)) by (apply Forall_app; split; [done|by apply flat_ok]).
  pose proof (seq_lemma pack1 pack2 fit Hpack _ Hok) as Hseq.
  unfold packs. destruct (forallb fit (vs ++ flat kvs)).
  - destruct Hseq as (bss & ws & Hbs & Hdec & Hrep).
    apply Forall2_app_inv_l in Hrep as (wsA & wsH & HA & HH & ->).
    apply Forall2_app_inv_r in Hdec as (bssA & bssH & HdA & HdH & ->).
    destruct (Forall2_unflat _ _ HH) as (kws & -> & Hkws).
    eexists _, (VTable (set_pairs (set_array [] 1 wsA) kws)).
    split; [by apply both_table|]. rewrite concat_app, <- app_assoc. split.
    + eapply decodes_table; try done; [|by eapply good_keys].
      rewrite <- Hlen. f_equal. symmetry. by eapply Forall2_length.
    + apply (rep_table r t (array_kvs 1 vs ++ kvs)); [done|done|].
      apply (set_pairs_lemma kvs kws Hkws (array_kvs 1 vs)); [|done|done].
      apply (set_array_lemma vs wsA HA 1 [] []); [constructor|]. intros j _. apply not_elem_of_nil.
  - destruct Hseq as (bs & e & Hbs). eexists _, e. eapply both_bind; [exact Hb|].
    apply both_bind_err. exact Hbs.
Qed.

Lemma table_lemma r t : H !! r = Some t → table_ok t →
  packs (wb_table pack1 t) (wb_table pack2 t) (forallb fit (packed_values t)) (LTable r).
Proof.
  intros Hr Hok.
  assert (packs (wb_table_seq pack1 t) (wb_table_seq pack2 t) (forallb fit (packed_values t)) (LTable r)) as Hp.
  2:{ assert (Hext : ∀ bs x, both (wb_table_seq pack1 t) (wb_table_seq pack2 t) bs x →
        both (wb_table pack1 t) (wb_table pack2 t) bs x).
      { intros bs x. apply both_ext; intros s; by apply wb_table_seq_eq. }
      unfold packs, encoded in *. destruct (forallb fit (packed_values t)); naive_solver. }
  destruct Hok as (Hn & Hc & Hnd). unfold wb_table_seq, packed_values.
  destruct (t_pairs t) as [kvs|] eqn:Hp.
  - assert (contents t = kvs) as E by (unfold contents; by rewrite Hp).
    apply (table_encoded r t 0 [] kvs); rewrite <- ?E; try done.
  - assert (contents t = t_entries t) as E by (unfold contents; by rewrite Hp). rewrite E in *.
    assert (Hnn : Forall (λ kv, snd kv ≠ LNil) (t_entries t))
      by (eapply Forall_impl; [exact Hc|]; by intros ? (_ & _ & _ & ?)).
    pose proof (parts_permutation t (t_rawlen t) Hnd Hnn ltac:(lia)) as Hperm.
    apply (table_encoded r t (t_rawlen t) (array_part t) (hash_part t)); try done.
    + unfold array_part. rewrite length_map, length_seqZ. lia.
    + apply (array_ok t Hp). split; [done|]. by rewrite E.
    + apply Forall_forall. intros x [_ Hx]%list_elem_of_filter. by apply (Forall_elem _ _ _ Hc).
    + unfold array_part, hash_part. by rewrite Hperm.
    + by rewrite E.
Qed.
End table.

(** The value nests less than [lev] tables deep and everything in it can be packed. *)
Fixpoint fits (lev : nat) (v : lval) : bool :=
  match lev with
  | O => false
  | S lev =>
      match v with
      | LOther => false
      | LTable r => match H !! r with Some t => forallb (fits lev) (packed_values t) | None => false end
      | _ => true
      end
  end.

Lemma pack_lemma (Hheap : heap_ok) lev : ∀ depth v,
  depth + Z.of_nat lev = 33 → value_ok v →
  packs (pack_one H lev depth v) (pack_one H lev depth v) (fits lev v) v.
Proof.
  induction lev as [|lev IH]; intros depth v Hd Hv; cbn [fits].
  - unfold pack_one. destruct (Z.gtb_spec depth MAX_DEPTH); [|unfold MAX_DEPTH in *; lia].
    eexists _, _. apply both_release.
  - destruct v; cbn [pack_one]; (destruct (Z.gtb_spec depth MAX_DEPTH); [unfold MAX_DEPTH in *; lia|]).
    + apply encoded_small.
    + apply encoded_small.
    + by apply encoded_integer.
    + by apply encoded_real.
    + by apply encoded_string.
    + by apply encoded_pointer.
    + destruct Hv as [t Ht]. rewrite Ht. apply table_lemma; [|done|by apply (Hheap r t)].
      intros v Hv. apply IH; [lia|done].
    + eexists _, _. apply both_release.
Qed.
End heap.

(** ** Unpacking never leaves the buffer

    [safe F m need bound]: with at most [bound] bytes left, [m] ends with a value or a Lua
    error, or the counter overflows and [F] holds of the bytes left; a value costs at least
    [need] bytes. *)

Definition safe {A} (F : list Z → Prop) (m : LM read_block A) (need bound : nat) : Prop :=
  ∀ rb rest, rb_repr rb rest → Forall byte rest → (length rest ≤ bound)%nat →
    m rb = Fault IntOverflow ∧ F rest ∨
    ∃ rb' r, m rb = Ok (rb', r) ∧
      (∀ a, r = inr a → ∃ used rest', rest = used ++ rest' ∧ rb_repr rb' rest' ∧ (need ≤ length used)%nat).

(** Somewhere in the bytes there is a long string with a length that is negative as an [int]
    and less than what can be taken off the bytes that follow. *)
Definition overflows (bs : list Z) : Prop :=
  ∃ used len rest, bs = used ++ [37] ++ len ++ rest ∧ length len = 4%nat ∧
    INT_MAX < Z.of_nat (length rest) - i32 (le_value len).

(** What holds of the end of a list and so of the list. *)
Definition at_the_end (F : list Z → Prop) : Prop := ∀ used rest, F rest → F (used ++ rest).

Lemma overflows_end : at_the_end overflows.
Proof.
  intros used rest (used' & len & rest' & -> & Hl & Ho). exists (used ++ used'), len, rest'.
  by rewrite <- app_assoc.
Qed.

Lemma safe_ret {A} F (a : A) b : safe F (mret a) 0 b.
Proof.
  intros rb rest Hr _ _. right. eexists _, _. split; [done|]. intros _ _. exists [], rest. split; [done|].
  split; [done|cbn; lia].
Qed.

Lemma safe_error {A} F (e : lua_error) n b : safe (A:=A) F (lerror e) n b.
Proof. intros rb rest Hr _ _. right. by eexists _, _. Qed.

Lemma safe_invalid {A} F n b : safe (A:=A) F invalid_stream n b.
Proof. intros rb rest Hr _ _. right. by eexists _, _. Qed.

Lemma safe_weaken {A} F F' (m : LM read_block A) n n' b :
  safe F m n b → (∀ rest, F rest → F' rest) → (n' ≤ n)%nat → safe F' m n' b.
Proof.
  intros Hm HF Hn rb rest Hr Hbs Hb. destruct (Hm rb rest Hr Hbs Hb) as [[E Hf]|(rb' & r & E & Hx)]; [auto|].
  right. exists rb', r. split; [done|]. intros a Ha. destruct (Hx a Ha) as (used & rest' & ? & ? & ?).
  exists used, rest'. split_and!; [done|done|lia].
Qed.

Lemma safe_bind {A B} F (m : LM read_block A) (k : A → LM read_block B) n1 n2 b : at_the_end F →
  safe F m n1 b → ((n1 ≤ b)%nat → ∀ a, safe F (k a) n2 (b - n1)) → safe F (m ≫= k) (n1 + n2) b.
Proof.
  intros HF Hm Hk rb rest Hr Hbs Hb. destruct (Hm rb rest Hr Hbs Hb) as [[E Hf]|(rb1 & [e|a] & E & Hx)].
  - left. split; [|done]. unfold mbind, LM_bind. by rewrite E.
  - right. exists rb1, (inl e). split; [by apply lbind_err|done].
  - destruct (Hx a eq_refl) as (used & rest1 & -> & Hr1 & Hl1). apply Forall_app in Hbs as [_ Hbs].
    rewrite length_app in Hb. rewrite (lbind_ok _ _ _ _ _ E).
    destruct (Hk ltac:(lia) a rb1 rest1 Hr1 Hbs) as [[E2 Hf]|(rb2 & r & E2 & Hx2)]; [lia|auto|].
    right. exists rb2, r. split; [done|]. intros b' Hb'. destruct (Hx2 b' Hb') as (used2 & rest2 & -> & Hr2 & Hl2).
    exists (used ++ used2), rest2. rewrite <- app_assoc, length_app. split_and!; [done|done|lia].
Qed.

Lemma rb_read_short rb rest n :
  rb_repr rb rest → (length rest < n)%nat → rb_read (Z.of_nat n) rb = Ok (rb, inr None).
Proof.
  intros (_ & _ & Hl & _) Hn. unfold rb_read, mbind, LM_bind, lget.
  destruct (Z.ltb_spec (rb_len rb) (Z.of_nat n)); [done|lia].
Qed.

(** A read of [n] bytes and what is done with them, which may depend on what they are. *)
Lemma safe_get_bind {B} F n (k : list Z → LM read_block B) n2 b :
  (∀ l, length l = n → Forall byte l → (n ≤ b)%nat → safe (λ rest, F (l ++ rest)) (k l) n2 (b - n)) →
  safe F (l ← rb_get n; k l) (n + n2) b.
Proof.
  intros Hk rb rest Hr Hbs Hb. destruct (le_lt_dec n (length rest)) as [Hle|Hlt].
  - rewrite <- (take_drop n rest) in Hr, Hbs |- *. set (l := take n rest) in *. set (rest1 := drop n rest) in *.
    assert (length l = n) as El by (by apply length_take_le). apply Forall_app in Hbs as [Hl Hbs].
    destruct (reads_get l rb _ Hr) as (rb' & E & Hr'). rewrite El in E. rewrite (lbind_ok _ _ _ _ _ E).
    destruct (Hk l El Hl ltac:(lia) rb' rest1 Hr' Hbs) as [?|(rb2 & r & E2 & Hx)]; [unfold rest1; rewrite length_drop; lia|auto|].
    right. exists rb2, r. split; [done|]. intros a Ha. destruct (Hx a Ha) as (used & rest2 & -> & ? & ?).
    exists (l ++ used), rest2. rewrite <- app_assoc, length_app. split_and!; [done|done|lia].
  - right. unfold rb_get. rewrite lbind_assoc, (lbind_ok _ _ _ _ _ (rb_read_short _ _ _ Hr Hlt)). by eexists _, _.
Qed.

Lemma safe_get F n b : safe F (rb_get n) n b.
Proof.
  replace n with (n + 0)%nat at 2 by lia. intros rb rest Hr Hbs Hb.
  destruct (safe_get_bind F n mret 0 b (λ l _ _ _, safe_ret _ l _) rb rest Hr Hbs Hb) as [H|H]; [left|right];
    unfold mbind, LM_bind, mret, LM_ret in H; destruct (rb_get n rb) as [[rb' [e|a]]|f]; naive_solver.
Qed.

(** Where a length is negative, it may be too small to be taken off. *)
Lemma safe_buffer len b : safe (λ rest, INT_MAX < Z.of_nat (length rest) - len) (get_buffer len) 0 b.
Proof.
  intros rb rest Hr Hbs Hb. destruct (Z_lt_le_dec len 0) as [Hneg|Hpos].
  - unfold get_buffer, rb_read, mbind, LM_bind, lget, lput, lres. destruct Hr as (Hp & _ & Hl & Hmax).
    destruct (Z.ltb_spec (rb_len rb) len); [lia|]. destruct (Z.leb_spec (rb_len rb - len) INT_MAX) as [Hle|Hgt].
    + right. destruct (Z.leb_spec INT_MIN (rb_ptr rb + len)).
      * rewrite !int_chk_ok by (unfold INT_MIN, INT_MAX in *; lia). destruct (Z.ltb_spec len 0); [|lia]. by eexists _, _.
      * unfold INT_MIN, INT_MAX in *. lia.
    + left. split; [|lia]. destruct (int_chk (rb_ptr rb + len)) as [ptr|f] eqn:E.
      * by rewrite int_chk_over by lia.
      * unfold int_chk in E. case_bool_decide; [done|by injection E as <-].
  - right. replace len with (Z.of_nat (Z.to_nat len)) by lia. set (n := Z.to_nat len).
    destruct (le_lt_dec n (length rest)) as [Hle|Hlt].
    + rewrite <- (take_drop n rest) in Hr |- *.
      assert (length (take n rest) = n) as El by (by apply length_take_le).
      destruct (reads_buffer (take n rest) rb _ Hr) as (rb' & E & Hr'). rewrite El in E.
      eexists _, _. split; [exact E|]. intros _ _. eexists _, _. split_and!; [done|done|lia].
    + unfold get_buffer. rewrite (lbind_ok _ _ _ _ _ (rb_read_short _ _ _ Hr Hlt)). by eexists _, _.
Qed.

(** A string with a length that is not negative. *)
Lemma safe_string F len b : 0 ≤ len → safe F (s ← get_buffer len; mret (VStr s)) 0 b.
Proof.
  intros Hlen rb rest Hr Hbs Hb. destruct (safe_buffer len b rb rest Hr Hbs Hb) as [[_ Ho]|(rb' & r & E & Hx)].
  - destruct Hr as (Hp & _ & Hl & Hmax). unfold INT_MAX in *. lia.
  - right. destruct r as [e|s]; [rewrite (lbind_err _ _ _ _ _ E)|rewrite (lbind_ok _ _ _ _ _ E)]; eexists _, _; [done|].
    split; [done|]. intros v _. exact (Hx s eq_refl).
Qed.

#[export] Hint Resolve safe_ret safe_error safe_invalid overflows_end : seri.

(** A step that may read [n] bytes, in a context that needs none. *)
Lemma safe_step {A B} F (m : LM read_block A) (k : A → LM read_block B) n b : at_the_end F →
  safe F m n b → ((n ≤ b)%nat → ∀ a, safe F (k a) 0 (b - n)) → safe F (m ≫= k) 0 b.
Proof. intros HF Hm Hk. eapply safe_weaken; [by eapply safe_bind|done|lia]. Qed.

(** Bytes that are only converted. *)
Lemma safe_value {A} F n (f : list Z → A) b : safe F (l ← rb_get n; mret (f l)) 0 b.
Proof. eapply safe_weaken; [apply (safe_get_bind F n _ 0)|done|lia]. auto with seri. Qed.

#[export] Hint Resolve safe_value : seri.

Lemma safe_integer F c b : safe F (get_integer c) 0 b.
Proof. unfold get_integer. repeat (case_match; [auto with seri|]). auto with seri. Qed.

Lemma safe_map {A B} F (m : LM read_block A) (f : A → B) b : safe F m 0 b → safe F (a ← m; mret (f a)) 0 b.
Proof.
  intros Hm rb rest Hr Hbs Hb. destruct (Hm rb rest Hr Hbs Hb) as [[E Hf]|(rb' & r & E & Hx)].
  - left. split; [|done]. unfold mbind, LM_bind. by rewrite E.
  - right. destruct r as [e|a]; [rewrite (lbind_err _ _ _ _ _ E)|rewrite (lbind_ok _ _ _ _ _ E)]; eexists _, _; [done|].
    split; [done|]. intros b' _. exact (Hx a eq_refl).
Qed.

Lemma safe_array F unpack n : ∀ i sz es b, at_the_end F →
  (∀ b', (b' ≤ b)%nat → safe F unpack 1 b') → (b < n)%nat → safe F (unpack_array unpack n i sz es) 0 b.
Proof.
  induction n as [|n IH]; intros i sz es b HF Hu Hb; [lia|]. cbn [unpack_array].
  destruct (i <=? sz); [|auto with seri]. eapply safe_step; [done|by apply Hu|]. intros H1 a.
  apply IH; [done| |lia]. intros b' Hb'. apply Hu. lia.
Qed.

Lemma safe_rawset F es k v b : safe F (rawset es k v) 0 b.
Proof. unfold rawset. destruct k; auto with seri. destruct (real_nan bits); auto with seri. Qed.

Lemma safe_hash F unpack n : ∀ es b, at_the_end F →
  (∀ b', (b' ≤ b)%nat → safe F unpack 1 b') → (b < n)%nat → safe F (unpack_hash unpack n es) 0 b.
Proof.
  induction n as [|n IH]; intros es b HF Hu Hb; [lia|]. cbn [unpack_hash].
  eapply safe_step; [done|by apply Hu|]. intros H1 k.
  assert (safe F (v ← unpack; es0 ← rawset es k v; unpack_hash unpack n es0) 0 (b - 1)) as Hrest.
  { eapply safe_step; [done|apply Hu; lia|]. intros H2 v. eapply (safe_step _ _ _ 0); [done|apply safe_rawset|].
    intros _ es'. apply IH; [done| |lia]. intros b' Hb'. apply Hu. lia. }
  destruct k; auto with seri.
Qed.

Lemma safe_size F c b : at_the_end F → safe F (unpack_size c) 0 b.
Proof.
  intros HF. unfold unpack_size. destruct (c =? MAX_COOKIE - 1); [|auto with seri].
  eapply safe_step; [done|apply safe_get|]. intros _ l. cbv zeta.
  destruct (negb _ || _); [auto with seri|]. apply safe_map, safe_integer.
Qed.

Lemma le_value_range l : Forall byte l → 0 ≤ le_value l.
Proof. induction 1 as [|b l Hb _ IH]; cbn [le_value]; [lia|]. unfold byte in Hb. lia. Qed.

(** The bytes after a tag, in which the length comes at once when the tag says so. *)
Definition payload_overflows (ty c : Z) (bs : list Z) : Prop :=
  overflows bs ∨ ty = TYPE_LONG_STRING ∧ c = 4 ∧ overflows (37 :: bs).

Lemma safe_push_value unpack fuel ty c b : 0 ≤ c →
  (∀ b', (b' ≤ b)%nat → safe overflows unpack 1 b') → (b < fuel)%nat →
  safe (payload_overflows ty c) (push_value_ unpack fuel ty c) 0 b.
Proof.
  intros Hc Hu Hb. unfold push_value_, get_real, get_pointer.
  destruct (ty =? TYPE_NIL), (ty =? TYPE_BOOLEAN), (ty =? TYPE_NUMBER), (ty =? TYPE_USERDATA), (ty =? TYPE_SHORT_STRING);
    auto using safe_string with seri;
    try (destruct (c =? TYPE_NUMBER_REAL); apply safe_map; [apply safe_value|apply safe_integer]);
    try (apply safe_map, safe_value).
  destruct (Z.eqb_spec ty TYPE_LONG_STRING) as [->|_]; [destruct (Z.eqb_spec c 2) as [->|_]|].
  - eapply safe_weaken; [apply (safe_get_bind _ 2 _ 0)|done|lia]. intros l _ Hl _.
    apply safe_string. by apply le_value_range.
  - destruct (Z.eqb_spec c 4) as [->|_]; cbn [negb]; [|by intros rb rest _ _ _; right; eexists _, _].
    change (safe (payload_overflows TYPE_LONG_STRING 4) (l ← rb_get 4; s ← get_buffer (i32 (le_value l)); mret (VStr s)) 0 b).
    eapply safe_weaken; [apply (safe_get_bind _ 4 _ 0)|done|lia]. intros l El _ _. apply safe_map.
    eapply safe_weaken; [apply safe_buffer| |done]. intros rest Ho. right. split_and!; [done|done|].
    by exists [], l, rest.
  - eapply (safe_weaken overflows _ _ 0 0); [|by left|done]. destruct (ty =? TYPE_TABLE); [|auto with seri].
    unfold unpack_table. eapply (safe_step _ _ _ 0); [auto with seri|apply safe_size; auto with seri|]. intros _ n. rewrite Nat.sub_0_r.
    eapply (safe_step _ _ _ 0); [auto with seri|apply safe_array; auto with seri|]. intros _ es. rewrite Nat.sub_0_r.
    apply safe_map, safe_hash; auto with seri.
Qed.

Lemma tag_37 t : byte t → Z.land t 7 = TYPE_LONG_STRING → Z.shiftr t 3 = 4 → t = 37.
Proof.
  intros Ht. change 7 with (Z.ones 3). rewrite Z.land_ones, Z.shiftr_div_pow2 by lia. unfold TYPE_LONG_STRING, byte in *.
  intros H1 H2. rewrite (Z.div_mod t (2 ^ 3)), H1, H2 by lia. done.
Qed.

Lemma safe_unpack_one fuel : ∀ b, (b < fuel)%nat → safe overflows (unpack_one fuel) 1 b.
Proof.
  induction fuel as [|fuel IH]; intros b Hb; [lia|]. cbn [unpack_one].
  apply (safe_get_bind _ 1 _ 0). intros l El Hbl H1. destruct l as [|t [|]]; [done| |done].
  apply Forall_cons in Hbl as [Ht _]. cbn [le_value]. rewrite Z.mul_0_r, Z.add_0_r.
  eapply safe_weaken; [apply safe_push_value| |done].
  - rewrite Z.shiftr_nonneg. unfold byte in Ht. lia.
  - intros b' Hb'. apply IH. lia.
  - lia.
  - intros rest [Ho|(Hty & Hc & Ho)]; [by apply overflows_end|]. by rewrite (tag_37 t Ht Hty Hc).
Qed.

(** ** The entry points *)

Lemma pack_from_seq {W} `{!Writer W} H vs : pack_from H vs = pack_seq (pack_one H 33 0) vs.
Proof. unfold pack_from. induction vs as [|v vs IH]; [done|]. cbn [pack_seq]. by rewrite <- IH. Qed.

(** One round of the loop of [luaseri_unpack] is [unpack_one]. *)
Lemma unpack_all_cons n fuel rb b rest : rb_repr rb (b :: rest) →
  unpack_all (S n) fuel rb = (v ← unpack_one (S fuel); vs ← unpack_all n fuel; mret (v :: vs)) rb.
Proof.
  intros Hr. cbn [unpack_all unpack_one].
  destruct (rb_read_lemma rb [b] rest Hr) as [E Hr']. cbn [length] in E. change (Z.of_nat 1) with 1 in E.
  rewrite (lbind_ok _ _ _ _ _ E). destruct (reads_get [b] rb rest Hr) as (rb' & E2 & Hr2).
  cbn [length] in E2. unfold rb_get in E2. rewrite (lbind_ok _ _ _ _ _ E) in E2.
  rewrite !lbind_assoc. unfold rb_get. rewrite lbind_assoc. rewrite (lbind_ok _ _ _ _ _ E).
  unfold mbind, LM_bind, lget, lres in E2 |- *.
  pose proof (rb_copy_lemma rb [b] rest Hr) as Erd. cbn [rd_at length rb_buffer] in Erd |- *.
  destruct (rd (rb_buffer rb) (rb_ptr rb)) as [b'|]; [|done]. cbn in Erd |- *. injection Erd as ->.
  by rewrite Z.add_0_r.
Qed.

Lemma unpack_all_nil n fuel rb : rb_repr rb [] → unpack_all (S n) fuel rb = Ok (rb, inr []).
Proof.
  intros Hr. cbn [unpack_all]. by rewrite (lbind_ok _ _ _ _ _ (rb_read_short rb [] 1 Hr ltac:(cbn; lia))).
Qed.

Lemma unpack_all_lemma fuel bss ws : Forall2 decodes bss ws → ∀ n rb,
  rb_repr rb (concat bss) → (length (concat bss) ≤ fuel)%nat → (length ws < n)%nat →
  ∃ rb', unpack_all n fuel rb = Ok (rb', inr ws).
Proof.
  induction 1 as [|bs w bss ws [Hne Hd] _ IH]; intros n rb Hr Hf Hn; (destruct n as [|n]; [cbn in Hn; lia|]).
  - rewrite unpack_all_nil by done. eauto.
  - cbn [concat length] in *. rewrite length_app in Hf. destruct bs as [|b bs]; [done|].
    rewrite (unpack_all_cons n fuel rb b (bs ++ concat bss)) by done.
    destruct (Hd (S fuel) ltac:(lia) rb _ Hr) as (rb1 & E1 & Hr1). rewrite (lbind_ok _ _ _ _ _ E1).
    destruct (IH n rb1 Hr1) as (rb2 & E2); [cbn in *; lia|lia|]. rewrite (lbind_ok _ _ _ _ _ E2). eauto.
Qed.

Lemma unpack_all_safe fuel n : ∀ rb rest,
  rb_repr rb rest → Forall byte rest → (length rest < n)%nat → (length rest ≤ fuel)%nat →
  unpack_all n fuel rb = Fault IntOverflow ∧ overflows rest ∨ ∃ rb' r, unpack_all n fuel rb = Ok (rb', r).
Proof.
  induction n as [|n IH]; intros rb rest Hr Hbs Hn Hf; [lia|]. destruct rest as [|b rest].
  { rewrite unpack_all_nil by done. eauto. }
  rewrite (unpack_all_cons _ _ _ _ _ Hr).
  destruct (safe_unpack_one (S fuel) (length (b :: rest)) ltac:(lia) rb _ Hr Hbs ltac:(lia))
    as [[E Ho]|(rb1 & [e|v] & E & Hx)].
  - left. split; [|done]. unfold mbind, LM_bind. by rewrite E.
  - rewrite (lbind_err _ _ _ _ _ E). eauto.
  - destruct (Hx v eq_refl) as (used & rest1 & Eu & Hr1 & Hl). rewrite (lbind_ok _ _ _ _ _ E), Eu in *.
    apply Forall_app in Hbs as [_ Hbs]. rewrite length_app in Hn, Hf.
    destruct (IH rb1 rest1 Hr1 Hbs) as [[E2 Ho]|(rb2 & [e|vs] & E2)]; [lia|lia|..].
    + left. split; [|by apply overflows_end]. unfold mbind, LM_bind. by rewrite E2.
    + rewrite (lbind_err _ _ _ _ _ E2). eauto.
    + rewrite (lbind_ok _ _ _ _ _ E2). eauto.
Qed.

Lemma rball_init_repr buf n : n ≤ INT_MAX → 0 ≤ n ≤ Z.of_nat (length buf) →
  rb_repr (rball_init buf n) (take (Z.to_nat n) buf).
Proof.
  intros Hm Hn. split; [done|]. cbn [rb_ptr rb_len rb_buffer rball_init Z.to_nat drop].
  rewrite length_take. split_and!; [|lia|lia]. exists (drop (Z.to_nat n) buf). by rewrite take_drop.
Qed.

(** What is written to a list of bytes, and whether it ends with an error. *)
Definition encoding (H : lheap) (vs : list lval) : list Z :=
  match pack_from H vs [] with Ok (bs, _) => bs | _ => [] end.
Definition packable (H : lheap) (vs : list lval) : bool := forallb (fits H 33) vs.

Lemma pack_result H vs : heap_ok H → Forall (value_ok H) vs →
  if packable H vs
  then both (pack_from H vs) (pack_from H vs) (encoding H vs) (inr ()) ∧
       ∃ bss ws, encoding H vs = concat bss ∧ Forall2 decodes bss ws ∧ Forall2 (rep H) vs ws
  else ∃ e, both (pack_from H vs) (pack_from H vs) (encoding H vs) (inl e).
Proof.
  intros Hh Hv. unfold encoding, packable. rewrite !pack_from_seq.
  pose proof (seq_lemma H _ _ (fits H 33) (λ v, pack_lemma H Hh 33 0 v eq_refl) vs Hv) as Hs.
  destruct (forallb (fits H 33) vs).
  - destruct Hs as (bss & ws & Hb & Hd & Hr). rewrite (proj1 Hb []). eauto 7.
  - destruct Hs as (bs & e & Hb). rewrite (proj1 Hb []). eauto.
Qed.

(** ** The format

    [yields m w]: the code on a list appends the bytes of [w] and ends the way [w] does. *)

Definition outcome (e : option lua_error) : lua_error + unit :=
  match e with Some e => inl e | None => inr () end.

Definition yields (m : LM (list Z) unit) (w : wire) : Prop := emits m (fst w) (outcome (snd w)).

Lemma yields_app m1 m2 w1 w2 : yields m1 w1 → yields m2 w2 → yields (_ ← m1; m2) (wire_app w1 w2).
Proof.
  destruct w1 as [b1 [e|]]; intros H1 H2 out; cbn [wire_app fst snd].
  - by rewrite (lbind_err _ _ _ _ _ (H1 out)).
  - by rewrite (lbind_ok _ _ _ _ _ (H1 out)), H2, app_assoc.
Qed.

Lemma yields_seq pack f vs : Forall (λ v, yields (pack v) (f v)) vs → yields (pack_seq pack vs) (wire_all (map f vs)).
Proof.
  induction 1 as [|v vs Hv _ IH]; [intros out; by rewrite app_nil_r|]. by apply yields_app.
Qed.

Lemma yields_push bs : yields (wb_push bs) (bs, None).
Proof. done. Qed.

Lemma yields_tagged t t' l l' : t = t' → l = l' → yields (_ ← wb_push [t]; wb_push l) (t' :: l', None).
Proof. intros -> ->. exact (proj1 (tagged_both t' l')). Qed.

Lemma le_bytes_little n : ∀ z, le_bytes n z = little (Z.of_nat n) z.
Proof.
  unfold little. induction n as [|n IH]; intros z; [done|]. cbn [le_bytes]. rewrite seqZ_cons by lia. cbn [map].
  f_equal; [by rewrite Z.pow_0_r, Z.div_1_r|]. rewrite IH. replace (Z.succ 0) with (1 + 0) by lia.
  rewrite <- fmap_add_seqZ. replace (Z.pred (Z.of_nat (S n))) with (Z.of_nat n) by lia.
  change (Z.add 1 <$> ?l) with (map (Z.add 1) l). rewrite map_map. apply map_ext_in. intros i Hi.
  apply list_elem_of_In, elem_of_seqZ in Hi. rewrite Z.pow_add_r, Z.pow_1_r, Z.div_div by lia. done.
Qed.

Lemma le_bytes_low n : ∀ z, le_bytes n (z mod 2 ^ (8 * Z.of_nat n)) = le_bytes n z.
Proof.
  induction n as [|n IH]; intros z; [done|]. cbn [le_bytes].
  replace (2 ^ (8 * Z.of_nat (S n))) with (256 * 2 ^ (8 * Z.of_nat n))
    by (replace (8 * Z.of_nat (S n)) with (8 + 8 * Z.of_nat n) by lia; rewrite Z.pow_add_r by lia; done).
  pose proof (Z.pow_pos_nonneg 2 (8 * Z.of_nat n)). pose proof (Z.mod_pos_bound z 256).
  rewrite Z.rem_mul_r, (Z.mul_comm 256) by lia. rewrite Z.mod_add, Z.div_add, Z.mod_mod, (Z.div_small (z mod 256)) by lia.
  by rewrite Z.add_0_l, IH.
Qed.

Lemma yields_integer z : value_ok ∅ (LInt z) → yields (wb_integer z) (wire_integer z, None).
Proof.
  cbn. intros Hz. unfold wb_integer, wire_integer. destruct (Z.eqb_spec z 0) as [->|Hne]; [done|].
  rewrite (decide_False (P := z = 0)) by done. destruct (Z.eqb_spec z (i32 z)) as [E|E]; cbn [negb].
  - pose proof (i32_range z).
    destruct (Z.ltb_spec z 0); [|destruct (Z.ltb_spec z 0x100); [|destruct (Z.ltb_spec z 0x10000)]].
    + rewrite !decide_False, decide_True by lia. apply yields_tagged; [done|].
      by rewrite <- (le_bytes_little 4), <- (le_bytes_low 4 z).
    + rewrite decide_True by lia. apply yields_tagged; [done|]. cbn. unfold u8. by rewrite Z.mod_mod, Z.mod_small by lia.
    + rewrite decide_False, decide_True by lia. apply yields_tagged; [done|].
      by rewrite <- (le_bytes_little 2), <- (le_bytes_low 2 z).
    + rewrite !decide_False, decide_True by lia. apply yields_tagged; [done|].
      by rewrite <- (le_bytes_little 4), <- (le_bytes_low 4 z).
  - rewrite !decide_False by (intros Hd; apply E; rewrite i32_small; lia). apply yields_tagged; [done|].
    by rewrite <- (le_bytes_little 8), <- (le_bytes_low 8 z).
Qed.

Lemma yields_string s : Z.of_nat (length s) < 2 ^ 31 → yields (wb_string s) (wire_string s, None).
Proof.
  intros Hs. unfold wb_string, wire_string. rewrite i32_small by lia. set (n := Z.of_nat (length s)) in *. cbv zeta.
  destruct (Z.ltb_spec n MAX_COOKIE) as [Hlt|Hge]; unfold MAX_COOKIE in *.
  - rewrite decide_True by lia. rewrite tag_value by (unfold TYPE_SHORT_STRING, n in *; lia).
    replace (TYPE_SHORT_STRING + n * 8) with (4 + 8 * n) by (unfold TYPE_SHORT_STRING; lia).
    apply (yields_app _ _ ([_], None) (s, None)); [apply yields_push|]. destruct (Z.gtb_spec n 0); [apply yields_push|].
    replace s with (@nil Z) by (destruct s; [done|unfold n in *; cbn in *; lia]). intros out. by rewrite app_nil_r.
  - rewrite decide_False by lia. destruct (Z.ltb_spec n 0x10000).
    + rewrite decide_True by lia. apply (yields_app _ _ (21 :: little 2 n, None) (s, None)); [|apply yields_push].
      apply yields_tagged; [done|]. by rewrite <- (le_bytes_little 2), <- (le_bytes_low 2 n).
    + rewrite decide_False by lia. apply (yields_app _ _ (37 :: little 4 n, None) (s, None)); [|apply yields_push].
      apply yields_tagged; [done|]. by rewrite <- (le_bytes_little 4), <- (le_bytes_low 4 n).
Qed.

Lemma yields_size n : 0 ≤ n < 2 ^ 31 → yields (write_size n) (wire_size n, None).
Proof.
  intros Hn. unfold write_size, wire_size. destruct (Z.geb_spec n (MAX_COOKIE - 1)); unfold MAX_COOKIE in *.
  - rewrite decide_False by lia. apply (yields_app _ _ ([254], None) (wire_integer n, None)); [done|].
    apply yields_integer. cbn. lia.
  - rewrite decide_True by lia. rewrite tag_value by (unfold TYPE_TABLE; lia).
    replace (TYPE_TABLE + n * 8) with (6 + 8 * n) by (unfold TYPE_TABLE; lia). apply yields_push.
Qed.

(** The format names the values the code visits, in the order of the code. *)
Lemma wire_parts_eq t :
  wire_parts t = (match t_pairs t with Some _ => 0 | None => t_rawlen t end, packed_values t).
Proof.
  unfold wire_parts, packed_values, array_part, hash_part, flat. destruct (t_pairs t); [done|]. do 4 f_equal.
  apply list_filter_iff. intros [k v]. cbn [fst]. unfold array_key. destruct k; cbn [in_array]; try naive_solver.
  rewrite andb_false_iff. split.
  - intros Hn. destruct (Z.gtb_spec z 0), (Z.leb_spec z (t_rawlen t)); try naive_solver. destruct Hn. exists z. split; [done|lia].
  - intros Hn (i & [= <-] & Hi). destruct (Z.gtb_spec z 0), (Z.leb_spec z (t_rawlen t)); lia || naive_solver.
Qed.

Lemma packed_ok H t : table_ok H t → Forall (value_ok H) (packed_values t).
Proof.
  intros Hok. pose proof Hok as (_ & Hc & _). unfold packed_values, contents in *.
  destruct (t_pairs t) as [kvs|] eqn:Hp; cbn [default] in Hc; [by apply flat_ok|]. apply Forall_app. split.
  - by apply array_ok.
  - apply flat_ok, Forall_forall. intros x [_ Hx]%list_elem_of_filter. by apply (Forall_elem _ _ _ Hc).
Qed.

Lemma yields_table H pack f t : table_ok H t → Forall (λ v, yields (pack v) (f v)) (packed_values t) →
  yields (wb_table pack t)
    (let '(n, vs) := wire_parts t in wire_app (wire_size n, None) (wire_app (wire_all (map f vs)) ([0], None))).
Proof.
  intros Hok Hp. rewrite wire_parts_eq. intros out. rewrite (wb_table_seq_eq H) by done. revert out.
  unfold wb_table_seq, packed_values in *. pose proof Hok as (Hn & _).
  destruct (t_pairs t) as [kvs|]; (apply yields_app; [apply yields_size; lia|]);
    (apply yields_app; [by apply yields_seq|apply yields_push]).
Qed.

Lemma yields_value H (Hheap : heap_ok H) lev : ∀ depth v,
  depth + Z.of_nat lev = 33 → value_ok H v → yields (pack_one H lev depth v) (wire_value H lev v).
Proof.
  induction lev as [|lev IH]; intros depth v Hd Hv; cbn [wire_value].
  - unfold pack_one. destruct (Z.gtb_spec depth MAX_DEPTH); [|unfold MAX_DEPTH in *; lia]. exact (proj1 (both_release _)).
  - destruct v; cbn [pack_one]; (destruct (Z.gtb_spec depth MAX_DEPTH); [unfold MAX_DEPTH in *; lia|]).
    + apply yields_push.
    + by destruct b.
    + by apply yields_integer.
    + apply yields_tagged; [done|]. apply (le_bytes_little 8).
    + by apply yields_string.
    + apply yields_tagged; [done|]. apply (le_bytes_little 8).
    + destruct Hv as [t Ht]. rewrite Ht. cbn [from_option]. pose proof (Hheap r t Ht) as Hok.
      apply (yields_table H); [exact Hok|]. eapply Forall_impl; [exact (packed_ok H t Hok)|]. intros v Hv. apply IH; [lia|done].
    + exact (proj1 (both_release _)).
Qed.

Lemma yields_values H vs : heap_ok H → Forall (value_ok H) vs → yields (pack_from H vs) (wire_values H vs).
Proof.
  intros Hh Hv. rewrite pack_from_seq. apply yields_seq. eapply Forall_impl; [exact Hv|].
  intros v Hok. by apply yields_value.
Qed.

(** What the code on the chain of blocks writes is the format. *)
Lemma writes_wire H vs : heap_ok H → Forall (value_ok H) vs →
  writes (pack_from H vs) (fst (wire_values H vs)) (outcome (snd (wire_values H vs))) ∧
  (snd (wire_values H vs) = None ↔ packable H vs = true).
Proof.
  intros Hh Hv. pose proof (yields_values H vs Hh Hv []) as Hy. pose proof (pack_result H vs Hh Hv) as Hp.
  destruct (packable H vs).
  - destruct Hp as [[He Hw] _]. rewrite (He []) in Hy. injection Hy as <- Hr. rewrite <- Hr.
    split; [done|]. by destruct (snd (wire_values H vs)).
  - destruct Hp as (e & He & Hw). rewrite (He []) in Hy. injection Hy as <- Hr. rewrite <- Hr.
    split; [done|]. by destruct (snd (wire_values H vs)).
Qed.

Lemma pack_outcome H vs bs r : writes (pack_from H vs) bs r → Z.of_nat (length bs) < 2 ^ 31 →
  luaseri_pack H vs = Ok (match r with inr _ => inr (map Some bs) | inl e => inl e end).
Proof.
  intros Hw Hl. unfold luaseri_pack. destruct (Hw wb_init [] wb_init_repr) as (wb & -> & Hr); [cbn; lia|].
  destruct r as [e|u]; [done|]. cbn. by rewrite (seri_lemma wb _ (Hr u eq_refl)).
Qed.

(** C25. [pack] on the chain of 128 byte blocks, in which a value may straddle any number of
    blocks, puts out exactly the bytes of the format - every tag, size, number and length, the
    array part, the other entries - for every list of values over every well-formed heap, cyclic
    ones included; or it raises the error of the first value on the way that lies 33 tables
    deep or is of an unsupported type, and exactly when there is one. *)
Theorem seri_pack_correct H vs :
  heap_ok H → Forall (value_ok H) vs → Z.of_nat (length (fst (wire_values H vs))) < 2 ^ 31 →
  luaseri_pack H vs =
    Ok (match snd (wire_values H vs) with
        | None => inr (map Some (fst (wire_values H vs)))
        | Some e => inl e
        end) ∧
  (snd (wire_values H vs) = None ↔ packable H vs = true).
Proof.
  intros Hh Hv Hl. destruct (writes_wire H vs Hh Hv) as [Hw Hp]. split; [|exact Hp].
  rewrite (pack_outcome H vs _ _ Hw Hl). by destruct (snd (wire_values H vs)).
Qed.

(** C26. Round trip: whatever [pack] accepts, [unpack] turns back - as a string, or as the block
    and its size that [pack] returns - into values with the same contents: equal scalars of
    every kind and width, strings byte for byte, and tables with the same entries, whether in
    the array part or not, nested to any admissible depth, and shared or not. *)
Theorem seri_roundtrip H vs :
  heap_ok H → Forall (value_ok H) vs → Z.of_nat (length (encoding H vs)) < 2 ^ 31 →
  packable H vs = true →
  ∃ bs ws, luaseri_pack H vs = Ok (inr (map Some bs)) ∧
    luaseri_unpack (StringArg bs) = Ok (inr ws) ∧
    luaseri_unpack (BlockArg (Some bs) (Some (Z.of_nat (length bs)))) = Ok (inr ws) ∧
    Forall2 (rep H) vs ws.
Proof.
  intros Hh Hv Hl Hok. pose proof (pack_result H vs Hh Hv) as Hp. rewrite Hok in Hp.
  destruct Hp as ([_ Hw] & bss & ws & Ebs & Hd & Hr). exists (encoding H vs), ws.
  assert (luaseri_unpack (StringArg (encoding H vs)) = Ok (inr ws)) as Hu;
    [|by split_and!; [apply (pack_outcome H vs _ _ Hw Hl)|exact Hu|exact Hu|]].
  unfold luaseri_unpack, unpack_buffer. rewrite i32_small by lia.
  destruct (Z.eqb_spec (Z.of_nat (length (encoding H vs))) 0) as [E0|_].
  - rewrite Ebs in E0. pose proof (decodes_length _ _ Hd). destruct ws; [done|cbn in *; lia].
  - pose proof (rball_init_repr (encoding H vs) (Z.of_nat (length (encoding H vs))) ltac:(unfold INT_MAX; lia) (conj (Zle_0_nat _) (Z.le_refl _))) as Hi.
    rewrite Nat2Z.id, firstn_all in Hi. rewrite Ebs in Hi |- *. pose proof (decodes_length _ _ Hd).
    destruct (unpack_all_lemma (S (length (concat bss))) bss ws Hd (S (length (concat bss))) _ Hi) as (rb' & ->);
      [lia|lia|done].
Qed.

(** The bytes an argument stands for. *)
Definition given (arg : unpack_arg) : list Z :=
  match arg with
  | StringArg s => s
  | BlockArg (Some p) (Some len) => take (Z.to_nat (i32 len)) p
  | _ => []
  end.

(** A string of less than 2 GB; a block that is at least as long as the length says. *)
Definition arg_ok (arg : unpack_arg) : Prop :=
  match arg with
  | StringArg s => Z.of_nat (length s) < 2 ^ 31 ∧ Forall byte s
  | BlockArg (Some p) (Some len) => i32 len ≤ Z.of_nat (length p) ∧ Forall byte p
  | _ => True
  end.

Lemma unpack_buffer_safe p n : n ≤ INT_MAX → n ≤ Z.of_nat (length p) → Forall byte p →
  unpack_buffer (Some p) n = Fault IntOverflow ∧ overflows (take (Z.to_nat n) p) ∨ ∃ r, unpack_buffer (Some p) n = Ok r.
Proof.
  intros Hm Hn Hbs. unfold unpack_buffer. destruct (Z.eqb_spec n 0); [eauto|]. destruct (Z_lt_le_dec n 0) as [Hneg|Hpos].
  - right. cbn [unpack_all].
    assert (rb_read 1 (rball_init p n) = Ok (rball_init p n, inr None)) as E.
    { unfold rb_read, mbind, LM_bind, lget, rball_init. cbn [rb_len]. destruct (Z.ltb_spec n 1); [done|lia]. }
    rewrite (lbind_ok _ _ _ _ _ E). by eexists.
  - destruct (unpack_all_safe (S (length p)) (S (length p)) _ _ (rball_init_repr p n Hm (conj Hpos Hn)))
      as [[E Ho]|(rb' & r & E)]; rewrite ?length_take; [by apply Forall_take|lia|lia|left|right]; rewrite E; [done|].
    by exists r.
Qed.

(** C27. [unpack] on untrusted input.  For every string of less than 2 GB, and every block with
    a length it has, a negative length included, it ends: with values or a Lua error, and it
    never reads outside the bytes - truncated payloads, wrong tags, negative string lengths and
    huge array sizes included.  The one thing that can go wrong is the counter of the bytes
    left: it overflows only where the bytes contain a long string with a length that is
    negative as an [int], and so far below 0 that taking it off the bytes that follow exceeds
    the largest [int]; with no such length there is a result.  The null pointer is an error
    whatever its length, unless that is 0. *)
Theorem seri_unpack_safe arg : arg_ok arg →
  (luaseri_unpack arg = Fault IntOverflow ∧ overflows (given arg) ∨ ∃ r, luaseri_unpack arg = Ok r) ∧
  (∀ n, arg = BlockArg None (Some n) → i32 n ≠ 0 → luaseri_unpack arg = Ok (inl NullPointer)).
Proof.
  intros Hok. split.
  - destruct arg as [|s|[p|] [n|]]; cbn [arg_ok luaseri_unpack given] in *; try (right; by eexists).
    + destruct Hok as [Hl Hbs]. rewrite i32_small by lia.
      pose proof (unpack_buffer_safe s (Z.of_nat (length s)) ltac:(unfold INT_MAX; lia) ltac:(lia) Hbs) as Hs.
      by rewrite Nat2Z.id, firstn_all in Hs.
    + destruct Hok as [Hl Hbs]. pose proof (i32_range n). apply unpack_buffer_safe; [unfold INT_MAX; lia|done|done].
    + unfold unpack_buffer. destruct (i32 n =? 0); right; by eexists.
  - intros n -> Hn. cbn. unfold unpack_buffer. by destruct (Z.eqb_spec (i32 n) 0).
Qed.

(** Two references to one table, a table with an array part and other keys, and a table
    that contains itself. *)
Definition demo_heap : lheap :=
  {[ 1%positive := {| t_rawlen := 2;
       t_entries := [(LStr [97], LTable 2%positive); (LInt 1, LInt 300); (LInt 2, LReal 4609434218613702656);
                     (LBool true, LTable 2%positive); (LInt (-7), LInt (2 ^ 40))];
       t_pairs := None |};
     2%positive := {| t_rawlen := 0; t_entries := [(LInt 1, LStr [])]; t_pairs := Some [(LPointer 8, LInt (-1))] |};
     3%positive := {| t_rawlen := 1; t_entries := [(LInt 1, LTable 3%positive)]; t_pairs := None |} ]}.

Definition demo_values : list lval := [LTable 1%positive; LNil; LStr (replicate 300 120); LBool false].

(** The bytes of the last three values are written out; the cyclic table is too deep. *)
Lemma seri_pack_correct_witness :
  (∃ bs, luaseri_pack demo_heap demo_values = Ok (inr (map Some (bs ++ [0] ++ [21; 44; 1] ++ replicate 300 120 ++ [1])))) ∧
  luaseri_pack demo_heap [LTable 3%positive; LNil] = Ok (inl TooDeep).
Proof.
  split.
  - exists (fst (wire_value demo_heap 33 (LTable 1%positive))). apply (seri_pack_correct demo_heap demo_values).
    + apply (bool_decide_unpack _). vm_compute. exact I.
    + apply (bool_decide_unpack _). vm_compute. exact I.
    + vm_compute. reflexivity.
  - apply (seri_pack_correct demo_heap [LTable 3%positive; LNil]).
    + apply (bool_decide_unpack _). vm_compute. exact I.
    + apply (bool_decide_unpack _). vm_compute. exact I.
    + vm_compute. reflexivity.
Defined.

Lemma seri_roundtrip_witness :
  ∃ bs ws, luaseri_pack demo_heap demo_values = Ok (inr (map Some bs)) ∧
    luaseri_unpack (StringArg bs) = Ok (inr ws) ∧
    luaseri_unpack (BlockArg (Some bs) (Some (Z.of_nat (length bs)))) = Ok (inr ws) ∧
    Forall2 (rep demo_heap) demo_values ws.
Proof.
  apply (seri_roundtrip demo_heap demo_values).
  - apply (bool_decide_unpack _). vm_compute. exact I.
  - apply (bool_decide_unpack _). vm_compute. exact I.
  - vm_compute. reflexivity.
  - vm_compute. reflexivity.
Defined.

(** A table with an array part of 2^31 - 1 that ends early; a length of -4, which [rb_read]
    lets pass; a length of -2^31, which overflows; a null pointer and a negative length. *)
Definition demo_streams : list (list Z) :=
  [[254; 34; 255; 255; 255; 127; 0; 0]; [37; 252; 255; 255; 255; 1; 2]; [37; 0; 0; 0; 128; 1; 2]].

Example demo_results :
  map (λ s, luaseri_unpack (StringArg s)) demo_streams =
    [Ok (inl (InvalidStream 0)); Ok (inl BlockTooBig); Fault IntOverflow].
Proof. vm_compute. reflexivity. Qed.

Lemma seri_unpack_safe_witness :
  (∃ r, luaseri_unpack (StringArg [254; 34; 255; 255; 255; 127; 0; 0]) = Ok r) ∧
  overflows [37; 0; 0; 0; 128; 1; 2] ∧
  (∃ r, luaseri_unpack (BlockArg (Some [37; 252; 255; 255; 255; 1; 2]) (Some 7)) = Ok r) ∧
  luaseri_unpack (BlockArg None (Some (-5))) = Ok (inl NullPointer).
Proof.
  assert (Hb : ∀ s, bool_decide (Forall byte s) = true → Forall byte s) by (intros s; apply bool_decide_eq_true_1).
  split_and!.
  - destruct (seri_unpack_safe (StringArg [254; 34; 255; 255; 255; 127; 0; 0])) as [[[E _]|Hr] _];
      [split; [reflexivity|by apply Hb]|vm_compute in E; discriminate E|exact Hr].
  - destruct (seri_unpack_safe (StringArg [37; 0; 0; 0; 128; 1; 2])) as [[[_ Ho]|[r E]] _];
      [split; [reflexivity|by apply Hb]|exact Ho|vm_compute in E; discriminate E].
  - destruct (seri_unpack_safe (BlockArg (Some [37; 252; 255; 255; 255; 1; 2]) (Some 7))) as [[[E _]|Hr] _];
      [split; [vm_compute; discriminate|by apply Hb]|vm_compute in E; discriminate E|exact Hr].
  - apply (proj2 (seri_unpack_safe (BlockArg None (Some (-5))) I) (-5)); [done|]. vm_compute. discriminate.
Defined.
