(* ===== verification/Chain.v ===== *)
(** Linked lists inside an array.

    Several components keep the nodes of linked lists in blocks of one allocation and link
    them by pointers into the block.  A pointer is the index of its node, NULL is -1; a
    node type says where its link is ([Linked]).  [chain nodes c l]: following the links
    from [c] visits the nodes [l] and ends at NULL. *)

From S2P Require Import Prelude.
Open Scope Z_scope.

Definition NULL : Z := -1.

(** The link of a node; a node nobody has written has none. *)
Class Linked (N : Type) : Type := link_of : N → option Z.

Section chain.
Context {N : Type} `{Linked N}.
Implicit Types (nodes : list N) (l : list Z).

Inductive chain nodes : Z → list Z → Prop :=
| chain_nil : chain nodes NULL []
| chain_cons c n p l :
    0 ≤ c → nodes !! Z.to_nat c = Some n → link_of n = Some p → chain nodes p l →
    chain nodes c (c :: l).

Lemma chain_inv nodes c l : chain nodes c l →
  match l with
  | [] => c = NULL
  | x :: l' => c = x ∧ 0 ≤ c ∧ c ≠ NULL ∧
      ∃ n p, nodes !! Z.to_nat c = Some n ∧ rd nodes c = Ok n ∧ link_of n = Some p ∧
        chain nodes p l'
  end.
Proof.
  intros Hc. inversion Hc as [|? n p l' H0 Hn Hp Hl]; subst; [done|]. split; [done|]. split; [done|].
  split; [unfold NULL; lia|]. exists n, p. split; [done|]. split; [by apply rd_ok|done].
Qed.

Lemma chain_null nodes l : chain nodes NULL l → l = [].
Proof. intros Hc. inversion Hc; [done|unfold NULL in *; lia]. Qed.

Lemma chain_range nodes c l : chain nodes c l → ∀ i, i ∈ l → 0 ≤ i < Z.of_nat (length nodes).
Proof.
  induction 1 as [|c n p l H0 Hn Hp _ IH]; intros i Hi; [by apply not_elem_of_nil in Hi|].
  apply elem_of_cons in Hi as [->|Hi]; [|by apply IH]. apply lookup_lt_Some in Hn. lia.
Qed.

(** Nodes outside the chain do not matter. *)
Lemma chain_frame nodes nodes' c l :
  chain nodes c l → (∀ i, i ∈ l → nodes' !! Z.to_nat i = nodes !! Z.to_nat i) → chain nodes' c l.
Proof.
  induction 1 as [|c n p l H0 Hn Hp _ IH]; intros He; [constructor|].
  apply (chain_cons _ c n p l); [done|by rewrite He, Hn by left|done|].
  apply IH. intros i Hi. apply He. by right.
Qed.

Lemma chain_insert nodes c l i n :
  chain nodes c l → 0 ≤ i → i ∉ l → chain (<[Z.to_nat i := n]> nodes) c l.
Proof.
  intros Hc Hi Hni. apply (chain_frame nodes); [done|]. intros j Hj.
  pose proof (chain_range _ _ _ Hc j Hj). rewrite list_lookup_insert_ne; [done|].
  intros E. apply Hni. by replace i with j by lia.
Qed.

Lemma chain_length nodes c l : chain nodes c l → NoDup l → (length l ≤ length nodes)%nat.
Proof.
  intros Hc Hnd. pose proof (chain_range _ _ _ Hc) as Hr.
  assert (l ⊆+ seqZ 0 (Z.of_nat (length nodes))) as Hs.
  { apply NoDup_submseteq; [done|]. intros i Hi. apply elem_of_seqZ. specialize (Hr i Hi). lia. }
  apply submseteq_length in Hs. rewrite length_seqZ in Hs. lia.
Qed.

(** Linking a new node [m] behind the last one. *)
Lemma chain_link nodes nodes' c l t m n k :
  chain nodes c (l ++ [t]) → (∀ i, i ∈ l → nodes' !! Z.to_nat i = nodes !! Z.to_nat i) →
  nodes' !! Z.to_nat t = Some n → link_of n = Some m →
  0 ≤ m → nodes' !! Z.to_nat m = Some k → link_of k = Some NULL →
  chain nodes' c ((l ++ [t]) ++ [m]).
Proof.
  intros Hc He Ht Hlt Hm Hk Hlk. revert c Hc. induction l as [|x l IH]; intros c Hc; cbn [app] in *;
    apply chain_inv in Hc as (-> & H0 & _ & n0 & p & Hn & _ & Hp & Hc).
  - apply (chain_cons _ _ n m); [done|done|done|]. by apply (chain_cons _ _ k NULL); [..|constructor].
  - apply (chain_cons _ _ n0 p); [done|by rewrite He by left|done|]. apply IH; [|done].
    intros i Hi. apply He. by right.
Qed.

(** A run of nodes that link to their neighbours. *)
Lemma chain_run nodes base k : ∀ i,
  (∀ j, i ≤ j < i + Z.of_nat k → ∃ n, 0 ≤ base + j ∧ nodes !! Z.to_nat (base + j) = Some n ∧
     link_of n = Some (if j =? i + Z.of_nat k - 1 then NULL else base + j + 1)) →
  chain nodes (if (k =? 0)%nat then NULL else base + i) (seqZ (base + i) (Z.of_nat k)).
Proof.
  induction k as [|k IH]; intros i Hn; [constructor|]. rewrite seqZ_cons by lia. cbn [Nat.eqb].
  replace (Z.pred (Z.of_nat (S k))) with (Z.of_nat k) by lia.
  replace (Z.succ (base + i)) with (base + (i + 1)) by lia.
  destruct (Hn i) as (n & H0 & Hi & Hl); [lia|].
  apply (chain_cons _ _ n (if (k =? 0)%nat then NULL else base + (i + 1))); [done|done| |].
  - rewrite Hl. f_equal. destruct (Nat.eqb_spec k 0), (Z.eqb_spec i (i + Z.of_nat (S k) - 1)); lia || done.
  - apply IH. intros j Hj. destruct (Hn j) as (n' & H0' & Hj' & Hl'); [lia|].
    exists n'. split; [done|]. split; [done|]. rewrite Hl'.
    replace (i + 1 + Z.of_nat k - 1) with (i + Z.of_nat (S k) - 1) by lia. done.
Qed.

End chain.
