(* ===== verification/HashId.v ===== *)
(** [service-src/hashid.h]: the table from socket ids to connection slots.

    The nodes live in one array and are chained by pointers into it, one chain per hash
    value; a node with id -1 is free.  Pointers and chains are those of [Chain]. *)

From S2P Require Import Prelude Chain.
Open Scope Z_scope.

Record hashid_node : Set := Node { hn_id : Z; hn_next : Z }.

#[export] Instance hashid_linked : Linked hashid_node := λ n, Some (hn_next n).

Record hashid : Set := HashId {
  hi_hashmod : Z;
  hi_cap : Z;
  hi_count : Z;
  hi_id : list hashid_node;
  hi_hash : list Z
}.

(** [while (hashcap < max) hashcap *= 2] *)
Definition cap_step (max hashcap : Z) : res (loop Z Z) :=
  if hashcap <? max then c ← int_chk (hashcap * 2); Ok (Continue c) else Ok (Break hashcap).

Definition hashid_init (max : Z) : res hashid :=
  hashcap ← iterate 32 (cap_step max) 16;
  Ok (HashId (hashcap - 1) max 0 (replicate (Z.to_nat max) (Node (-1) NULL))
        (replicate (Z.to_nat hashcap) NULL)).

Definition hashid_clear : hashid := HashId 1 0 0 [] [].

Definition lookup_step (hi : hashid) (id c : Z) : res (loop Z Z) :=
  if c =? NULL then Ok (Break (-1))
  else
    n ← rd (hi_id hi) c;
    if hn_id n =? id then Ok (Break c) else Ok (Continue (hn_next n)).

(** Fuel: a chain is no longer than the array. *)
Definition chain_fuel (hi : hashid) : nat := S (length (hi_id hi)).

Definition hashid_lookup (hi : hashid) (id : Z) : res Z :=
  let h := Z.land id (hi_hashmod hi) in
  c ← rd (hi_hash hi) h;
  iterate (chain_fuel hi) (lookup_step hi id) c.

(** [while (c->next)]: the node and the nodes after unlinking, or -1. *)
Definition remove_step (nodes : list hashid_node) (id c : Z)
  : res (loop Z (Z * list hashid_node)) :=
  n ← rd nodes c;
  if hn_next n =? NULL then Ok (Break (-1, nodes))
  else
    temp ← rd nodes (hn_next n);
    if hn_id temp =? id then
      nodes' ← wr nodes c (Node (hn_id n) (hn_next temp));
      Ok (Break (hn_next n, nodes'))
    else Ok (Continue (hn_next n)).

(** The code at [_clear]. *)
Definition clear_node (hi : hashid) (hash : list Z) (nodes : list hashid_node) (c : Z)
  : res (Z * hashid) :=
  _ ← rd nodes c;
  nodes ← wr nodes c (Node (-1) NULL);
  Ok (c, HashId (hi_hashmod hi) (hi_cap hi) (hi_count hi - 1) nodes hash).

Definition hashid_remove (hi : hashid) (id : Z) : res (Z * hashid) :=
  let h := Z.land id (hi_hashmod hi) in
  c ← rd (hi_hash hi) h;
  if c =? NULL then Ok (-1, hi)
  else
    n ← rd (hi_id hi) c;
    if hn_id n =? id then
      hash ← wr (hi_hash hi) h (hn_next n);
      clear_node hi hash (hi_id hi) c
    else
      '(t, nodes) ← iterate (chain_fuel hi) (remove_step (hi_id hi) id) c;
      if t =? -1 then Ok (-1, hi) else clear_node hi (hi_hash hi) nodes t.

Definition free_step (hi : hashid) (id i : Z) : res (loop Z (option Z)) :=
  if i <? hi_cap hi then
    s ← int_chk (i + id);
    let index := Z.rem s (hi_cap hi) in
    n ← rd (hi_id hi) index;
    if hn_id n =? -1 then Ok (Break (Some index)) else Ok (Continue (i + 1))
  else Ok (Break None).

Definition hashid_insert (hi : hashid) (id : Z) : res (Z * hashid) :=
  f ← iterate (S (Z.to_nat (hi_cap hi))) (free_step hi id) 0;
  c ← or_fault AssertFailed f;
  n ← rd (hi_id hi) c;
  _ ← assertb (hn_next n =? NULL);
  let h := Z.land id (hi_hashmod hi) in
  head ← rd (hi_hash hi) h;
  nodes ← wr (hi_id hi) c (Node id (if negb (head =? NULL) then head else hn_next n));
  hash ← wr (hi_hash hi) h c;
  Ok (c, HashId (hi_hashmod hi) (hi_cap hi) (hi_count hi + 1) nodes hash).

Definition hashid_full (hi : hashid) : bool := hi_count hi =? hi_cap hi.

(** ** Chains *)

Lemma node_chain_cons (nodes : list hashid_node) c n l :
  0 ≤ c → nodes !! Z.to_nat c = Some n → chain nodes (hn_next n) l → chain nodes c (c :: l).
Proof. intros H0 Hn Hl. by apply (chain_cons _ c n (hn_next n)). Qed.

Lemma node_chain_inv (nodes : list hashid_node) c l : chain nodes c l →
  match l with
  | [] => c = NULL
  | x :: l' => c = x ∧ 0 ≤ c ∧ c ≠ NULL ∧
      ∃ n, nodes !! Z.to_nat c = Some n ∧ rd nodes c = Ok n ∧ chain nodes (hn_next n) l'
  end.
Proof.
  intros Hc%chain_inv. destruct l as [|x l]; [done|].
  destruct Hc as (? & ? & ? & n & p & ? & ? & [= <-] & ?). eauto 10.
Qed.

Definition id_at (nodes : list hashid_node) (i : Z) : option Z := hn_id <$> nodes !! Z.to_nat i.

Lemma lookup_loop hi id c l fuel :
  chain (hi_id hi) c l → (length l < fuel)%nat →
  (∃ i, iterate fuel (lookup_step hi id) c = Ok i ∧ i ∈ l ∧ id_at (hi_id hi) i = Some id) ∨
  (iterate fuel (lookup_step hi id) c = Ok (-1) ∧ ∀ i, i ∈ l → id_at (hi_id hi) i ≠ Some id).
Proof.
  revert c fuel. induction l as [|x l IH]; intros c fuel Hc Hf; (destruct fuel as [|fuel]; [cbn in Hf; lia|]);
    apply node_chain_inv in Hc; cbn [iterate].
  - subst c. change (lookup_step hi id NULL) with (Ok (Break (S:=Z) (-1))). rewrite bind_ok. right. split; [done|]. intros i Hi. by apply not_elem_of_nil in Hi.
  - destruct Hc as (<- & H0 & Hne & n & Hn & Hrd & Hl).
    assert (lookup_step hi id c = Ok (if hn_id n =? id then Break c else Continue (hn_next n))) as ->.
    { unfold lookup_step. destruct (Z.eqb_spec c NULL); [done|]. rewrite Hrd, bind_ok. by case_match. }
    assert (Hid : id_at (hi_id hi) c = Some (hn_id n)) by (unfold id_at; by rewrite Hn).
    rewrite bind_ok. destruct (Z.eqb_spec (hn_id n) id) as [<-|Hni].
    + left. exists c. split; [done|]. split; [by left|done].
    + destruct (IH _ fuel Hl) as [(i & E & Hi & Hx)|[E Hx]]; [cbn in Hf; lia| |].
      * left. exists i. split; [done|]. split; [by right|done].
      * right. split; [done|]. intros i [->|Hi]%elem_of_cons; [|by apply Hx].
        rewrite Hid. congruence.
Qed.

(** Unlinking from behind a node that stays. *)
Lemma remove_loop nodes id l : ∀ c fuel,
  chain nodes c (c :: l) → NoDup (c :: l) → (length l < fuel)%nat →
  (∃ t nodes' l1 l2, iterate fuel (remove_step nodes id) c = Ok (t, nodes') ∧ l = l1 ++ t :: l2 ∧
     0 ≤ t ∧ id_at nodes t = Some id ∧ chain nodes' c (c :: l1 ++ l2) ∧ length nodes' = length nodes ∧
     nodes' !! Z.to_nat t = nodes !! Z.to_nat t ∧
     (∀ i, id_at nodes' i = id_at nodes i) ∧
     (∀ i, 0 ≤ i → i ∉ c :: l → nodes' !! Z.to_nat i = nodes !! Z.to_nat i)) ∨
  (iterate fuel (remove_step nodes id) c = Ok (-1, nodes) ∧ ∀ i, i ∈ l → id_at nodes i ≠ Some id).
Proof.
  induction l as [|x l IH]; intros c fuel Hc Hnd Hf; (destruct fuel as [|fuel]; [cbn in Hf; lia|]);
    apply node_chain_inv in Hc as (_ & H0 & Hne & n & Hn & Hrd & Hl); cbn [iterate]; apply node_chain_inv in Hl as Hl'.
  - assert (remove_step nodes id c = Ok (Break (-1, nodes))) as ->
      by (unfold remove_step; by rewrite Hrd, bind_ok, Hl').
    rewrite bind_ok. right. split; [done|]. intros i Hi. by apply not_elem_of_nil in Hi.
  - destruct Hl' as (E & H0x & Hnex & m & Hm & Hrdm & Hlm). rewrite E in *.
    assert (Estep : remove_step nodes id c = if hn_id m =? id
      then nodes' ← wr nodes c (Node (hn_id n) (hn_next m)); Ok (Break (x, nodes')) else Ok (Continue x)).
    { unfold remove_step. rewrite Hrd, bind_ok, E. destruct (Z.eqb_spec x NULL); [done|].
      by rewrite Hrdm, bind_ok. }
    rewrite Estep. clear Estep.
    assert (Hidx : id_at nodes x = Some (hn_id m)) by (unfold id_at; by rewrite Hm).
    destruct (Z.eqb_spec (hn_id m) id) as [<-|Hni].
    + pose proof (lookup_lt_Some _ _ _ Hn) as Hlt. rewrite wr_ok, !bind_ok by lia. left.
      assert (Hcx : c ≠ x) by (apply NoDup_cons in Hnd as [Hni _]; set_solver).
      eexists x, _, [], l. split; [done|]. split; [done|]. split; [done|]. split; [done|].
      split; [|split; [by rewrite length_insert|split; [|split]]].
      * apply (node_chain_cons _ c (Node (hn_id n) (hn_next m))); [done|apply list_lookup_insert_eq; lia|].
        apply (chain_frame nodes); [done|]. intros i Hi. rewrite list_lookup_insert_ne; [done|].
        pose proof (chain_range _ _ _ Hlm i Hi). intros Heq. assert (c = i) as -> by lia.
        apply NoDup_cons in Hnd as [Hnn _]. set_solver.
      * rewrite list_lookup_insert_ne; [done|lia].
      * intros i. unfold id_at. rewrite list_lookup_insert. case_decide as Hd; [|done].
        destruct Hd as [<- _]. by rewrite Hn.
      * intros i Hi Hnn. rewrite list_lookup_insert_ne; [done|]. intros Heq. apply Hnn.
        assert (c = i) as -> by lia. by left.
    + rewrite bind_ok. apply NoDup_cons in Hnd as [Hnc Hnd].
      destruct (IH x fuel) as [(t & nodes' & l1 & l2 & E' & -> & Ht & Hidt & Hch & Hlen & Hkt & Hids & Hkeep)|[E' Hx]];
        [done|done|cbn in Hf; lia| |].
      * left. exists t, nodes', (x :: l1), l2. split; [done|]. split; [done|]. split; [done|]. split; [done|].
        split; [|split; [done|split; [done|split; [done|]]]].
        -- apply (node_chain_cons _ c n); [done|by rewrite Hkeep|]. by rewrite E.
        -- intros i Hi Hnn. apply Hkeep; [done|]. set_solver.
      * right. split; [done|]. intros i [->|Hi]%elem_of_cons; [|by apply Hx]. rewrite Hidx. congruence.
Qed.

(** ** Representation *)

(** Node [i] is in use, and its id hashes to [h]. *)
Definition hashes_to (hi : hashid) (nodes : list hashid_node) (h : nat) (i : Z) : Prop :=
  0 ≤ i ∧ ∃ id, id_at nodes i = Some id ∧ 0 ≤ id ∧ Z.land id (hi_hashmod hi) = Z.of_nat h.

(** The table represents the map [M] from ids to slots: a chain has exactly the used nodes
    of its hash value. *)
Record hash_repr (hi : hashid) (M : gmap Z Z) : Prop := {
  ho_mod : 0 ≤ hi_hashmod hi ∧ hi_hashmod hi + 1 = Z.of_nat (length (hi_hash hi));
  ho_cap : Z.of_nat (length (hi_id hi)) = hi_cap hi ∧ 1 ≤ hi_cap hi ≤ 2 ^ 30;
  ho_chain : ∀ h c, hi_hash hi !! h = Some c →
    ∃ l, chain (hi_id hi) c l ∧ NoDup l ∧ ∀ i, i ∈ l ↔ hashes_to hi (hi_id hi) h i;
  ho_map : ∀ id i, M !! id = Some i ↔ 0 ≤ id ∧ 0 ≤ i ∧ id_at (hi_id hi) i = Some id;
  ho_free : ∀ i n, hi_id hi !! i = Some n → hn_id n < 0 → n = Node (-1) NULL;
  ho_count : hi_count hi = Z.of_nat (size M)
}.

Lemma land_bound id m : 0 ≤ m → 0 ≤ Z.land id m ≤ m.
Proof.
  intros Hm. split; [apply Z.land_nonneg; lia|]. pose proof (Z.lor_ldiff_and m id) as E.
  assert (Z.land (Z.ldiff m id) (Z.land m id) = 0) as Hd.
  { apply Z.bits_inj'. intros n _. rewrite !Z.land_spec, Z.ldiff_spec, Z.bits_0.
    destruct (Z.testbit m n), (Z.testbit id n); done. }
  pose proof (Z.add_lor_land (Z.ldiff m id) (Z.land m id)) as Ea. rewrite Hd, E in Ea.
  rewrite Z.land_comm. assert (0 ≤ Z.ldiff m id) by (apply Z.ldiff_nonneg; lia). lia.
Qed.

(** The chain an id belongs to. *)
Lemma chain_of hi M id : hash_repr hi M →
  ∃ h l c, Z.land id (hi_hashmod hi) = Z.of_nat h ∧ hi_hash hi !! h = Some c ∧
    rd (hi_hash hi) (Z.land id (hi_hashmod hi)) = Ok c ∧ chain (hi_id hi) c l ∧ NoDup l ∧
    (∀ i, i ∈ l ↔ hashes_to hi (hi_id hi) h i) ∧ (length l < chain_fuel hi)%nat.
Proof.
  intros Ho. destruct (ho_mod _ _ Ho) as [Hm0 Hm]. pose proof (land_bound id _ Hm0).
  destruct (lookup_lt_is_Some_2 (hi_hash hi) (Z.to_nat (Z.land id (hi_hashmod hi)))) as [c Hc]; [lia|].
  destruct (ho_chain _ _ Ho _ _ Hc) as (l & Hch & Hnd & Hl).
  exists (Z.to_nat (Z.land id (hi_hashmod hi))), l, c. rewrite Z2Nat.id by lia.
  split; [done|]. split; [done|]. split; [apply rd_ok; [lia|done]|].
  split; [done|]. split; [done|]. split; [intros i; by rewrite Hl|].
  unfold chain_fuel. pose proof (chain_length _ _ _ Hch Hnd). lia.
Qed.

(** An id that is not in its chain is not in the table. *)
Lemma not_in_chain hi M id h (l : list Z) : hash_repr hi M → Z.land id (hi_hashmod hi) = Z.of_nat h →
  (∀ i, i ∈ l ↔ hashes_to hi (hi_id hi) h i) → (∀ i, i ∈ l → id_at (hi_id hi) i ≠ Some id) → M !! id = None.
Proof.
  intros Ho Eh Hl Hx. destruct (M !! id) as [i|] eqn:E; [|done]. exfalso.
  apply (ho_map _ _ Ho) in E as (Hid & Hi & Hat). apply (Hx i); [|done]. apply Hl.
  split; [done|]. by exists id.
Qed.

Lemma hashid_lookup_lemma hi M id : hash_repr hi M →
  hashid_lookup hi id = Ok (default (-1) (M !! id)).
Proof.
  intros Ho. destruct (chain_of hi M id Ho) as (h & l & c & Eh & Hc & Hrd & Hch & Hnd & Hl & Hf).
  unfold hashid_lookup. rewrite Hrd, bind_ok.
  destruct (lookup_loop hi id c l _ Hch Hf) as [(i & -> & Hi & Hx)|[-> Hx]].
  - assert (M !! id = Some i) as ->; [|done]. apply (ho_map _ _ Ho).
    apply Hl in Hi as (Hi & x & Hat & H0 & _). rewrite Hx in Hat. injection Hat as <-. done.
  - by rewrite (not_in_chain hi M id h l).
Qed.

(** The node array after a removal: [t] is free, some links of its chain have changed. *)
Record cleared (hi : hashid) (l : list Z) (t : Z) (nodes : list hashid_node) : Prop := {
  cl_len : length nodes = length (hi_id hi);
  cl_t : nodes !! Z.to_nat t = Some (Node (-1) NULL);
  cl_ids : ∀ i, 0 ≤ i → i ≠ t → id_at nodes i = id_at (hi_id hi) i;
  cl_keep : ∀ i, 0 ≤ i → i ∉ l → nodes !! Z.to_nat i = hi_id hi !! Z.to_nat i;
  cl_free : ∀ i n, nodes !! i = Some n → hn_id n < 0 → n = Node (-1) NULL
}.

Lemma removed_ok hi M id h l1 t l2 c' nodes count :
  hash_repr hi M → Z.land id (hi_hashmod hi) = Z.of_nat h → is_Some (hi_hash hi !! h) →
  (∀ i, i ∈ l1 ++ t :: l2 ↔ hashes_to hi (hi_id hi) h i) → NoDup (l1 ++ t :: l2) →
  M !! id = Some t → chain nodes c' (l1 ++ l2) → cleared hi (l1 ++ t :: l2) t nodes →
  count = hi_count hi - 1 →
  hash_repr (HashId (hi_hashmod hi) (hi_cap hi) count nodes (<[h := c']> (hi_hash hi))) (delete id M).
Proof.
  intros Ho Eh [ch Hh] Hl Hnd HM Hch [Hlen Hct Hids Hkeep Hfree] ->.
  pose proof (proj1 (ho_map _ _ Ho _ _) HM) as (Hid & Ht & Hat).
  assert (Hhash : ∀ h' i, hashes_to hi nodes h' i ↔ i ≠ t ∧ hashes_to hi (hi_id hi) h' i).
  { intros h' i. unfold hashes_to. split.
    - intros (Hi & id' & Hat' & H0 & E'). assert (i ≠ t) as Hne.
      { intros ->. unfold id_at in Hat'. rewrite Hct in Hat'. injection Hat' as <-. done. }
      split; [done|]. split; [done|]. exists id'. by rewrite <- Hids.
    - intros (Hne & Hi & id' & Hat' & H0 & E'). split; [done|]. exists id'. by rewrite Hids. }
  split; cbn [hi_hashmod hi_cap hi_count hi_id hi_hash].
  - rewrite length_insert. apply Ho.
  - rewrite Hlen. apply Ho.
  - intros h' c Hc. apply list_lookup_insert_Some in Hc as [(<- & <- & _)|[Hne Hc]].
    + exists (l1 ++ l2). split; [done|]. apply NoDup_app in Hnd as (H1 & H2 & H3).
      apply NoDup_cons in H3 as [H3 H4]. split.
      * apply NoDup_app. split; [done|]. split; [|done]. intros x Hx Hx2. apply (H2 x Hx). by right.
      * intros i. specialize (Hl i). rewrite elem_of_app, elem_of_cons in Hl.
        unfold hashes_to in *. cbn [hi_hashmod]. rewrite (Hhash h i), elem_of_app. unfold hashes_to.
        rewrite <- Hl. split; [|naive_solver]. intros Hi. split; [|naive_solver]. intros ->.
        destruct Hi as [Hi|Hi]; [|done]. apply (H2 t Hi). by left.
    + destruct (ho_chain _ _ Ho _ _ Hc) as (l & Hcl & Hnl & Hm). exists l. split; [|split; [done|]].
      * apply (chain_frame (hi_id hi)); [done|]. intros i Hi. apply Hm in Hi as Hx.
        apply Hkeep; [apply Hx|]. intros Hin%Hl. apply Hne.
        destruct Hx as (_ & x & Hx1 & _ & Hx2), Hin as (_ & y & Hy1 & _ & Hy2). simplify_eq. lia.
      * intros i. rewrite Hm. unfold hashes_to in *. cbn [hi_hashmod]. rewrite (Hhash h' i).
        split; [|naive_solver]. intros Hx. split; [|done]. intros ->.
        destruct Hx as (_ & x & Hx1 & _ & Hx2). simplify_eq. lia.
  - intros id' i. rewrite lookup_delete_Some, (ho_map _ _ Ho). split.
    + intros (Hne & H0 & Hi & Hat'). rewrite Hids; [done|done|]. intros ->. congruence.
    + intros (H0 & Hi & Hat'). assert (i ≠ t) as Hnt.
      { intros ->. unfold id_at in Hat'. rewrite Hct in Hat'. injection Hat' as <-. done. }
      rewrite Hids in Hat' by done. split; [|done]. intros <-.
      assert (M !! id = Some i) as HM' by (by apply (ho_map _ _ Ho)). congruence.
  - exact Hfree.
  - rewrite (ho_count _ _ Ho), map_size_delete_Some by done.
    assert (size M ≠ 0%nat) by (apply map_size_ne_0_lookup_2 with id; eauto). lia.
Qed.

Lemma cleared_insert hi M h (l : list Z) t nodes :
  hash_repr hi M → (∀ i, i ∈ l ↔ hashes_to hi (hi_id hi) h i) → t ∈ l →
  length nodes = length (hi_id hi) → (∀ i, id_at nodes i = id_at (hi_id hi) i) →
  (∀ i, 0 ≤ i → i ∉ l → nodes !! Z.to_nat i = hi_id hi !! Z.to_nat i) →
  cleared hi l t (<[Z.to_nat t := Node (-1) NULL]> nodes).
Proof.
  intros Ho Hl Ht Hlen Hids Hkeep. apply Hl in Ht as Hx. destruct Hx as (H0 & y & Hy & _).
  assert (Z.to_nat t < length nodes)%nat as Hlt.
  { rewrite Hlen. unfold id_at in Hy. destruct (hi_id hi !! Z.to_nat t) eqn:E; [|done].
    by apply lookup_lt_Some in E. }
  split.
  - by rewrite length_insert.
  - by apply list_lookup_insert_eq.
  - intros i Hi Hnt'. rewrite <- Hids. unfold id_at. rewrite list_lookup_insert_ne; [done|lia].
  - intros i Hi Hni. rewrite list_lookup_insert_ne; [by apply Hkeep|]. intros Heq. apply Hni.
    by replace i with t by lia.
  - intros i m [(_ & <- & _)|[Hni Hm]]%list_lookup_insert_Some Hneg; [done|].
    assert (id_at (hi_id hi) (Z.of_nat i) = Some (hn_id m)) as Hatm.
    { rewrite <- Hids. unfold id_at. by rewrite Nat2Z.id, Hm. }
    destruct (decide (Z.of_nat i ∈ l)) as [Hin|Hnin].
    + apply Hl in Hin as (_ & z & Hz & Hz0 & _). rewrite Hatm in Hz. injection Hz as <-. lia.
    + rewrite <- (Nat2Z.id i), Hkeep, Nat2Z.id in Hm by (done || lia). by apply (ho_free _ _ Ho i).
Qed.

(** ** Operations *)

Lemma hashid_init_lemma max : 1 ≤ max ≤ 2 ^ 20 →
  ∃ hi, hashid_init max = Ok hi ∧ hi_cap hi = max ∧ hash_repr hi ∅.
Proof.
  intros Hmax. unfold hashid_init.
  destruct (iterate_total (λ c, ∃ k : Z, 0 ≤ k ≤ 16 ∧ c = 16 * 2 ^ k) (λ c, 16 ≤ c) (λ c, Z.to_nat (20 - Z.log2 c))
    (cap_step max)) with (fuel := 32%nat) (s := 16) as (hc & -> & Hhc).
  - intros c (k & Hk & ->). unfold cap_step.
    assert (Hpow : 16 * 2 ^ k = 2 ^ (k + 4)) by (rewrite Z.pow_add_r by lia; lia).
    pose proof (Z.pow_pos_nonneg 2 k). destruct (Z.ltb_spec (16 * 2 ^ k) max) as [Hlt|Hge].
    + right. assert (k < 16) as Hk16.
      { apply (Z.pow_lt_mono_r_iff 2); [lia|lia|]. lia. }
      assert (2 ^ k ≤ 2 ^ 16) by (apply Z.pow_le_mono_r; lia).
      rewrite int_chk_ok, bind_ok by (unfold INT_MIN, INT_MAX; lia). eexists. split; [done|]. split.
      * exists (k + 1). split; [lia|]. rewrite Z.pow_add_r; lia.
      * replace (16 * 2 ^ k * 2) with (2 ^ (k + 5)) by (rewrite Z.pow_add_r by lia; lia).
        rewrite Hpow, !Z.log2_pow2 by lia. lia.
    + left. eexists. split; [done|]. lia.
  - by exists 0.
  - vm_compute. lia.
  - rewrite bind_ok. eexists. split; [done|]. split; [done|].
    split; cbn [hi_hashmod hi_cap hi_count hi_id hi_hash]; rewrite ?length_replicate; try done; try lia.
    + intros h c Hc. apply lookup_replicate in Hc as [-> _]. exists []. split; [constructor|].
      split; [constructor|]. intros i. split; [intros Hi; by apply not_elem_of_nil in Hi|].
      intros (Hi & id & Hat & Hid & _). unfold id_at in Hat. cbn in Hat.
      destruct (replicate _ _ !! Z.to_nat i) eqn:E; [|done]. apply lookup_replicate in E as [-> _].
      injection Hat as <-. done.
    + intros id i. rewrite lookup_empty. split; [done|]. intros (H0 & _ & Hat). unfold id_at in Hat.
      destruct (replicate _ _ !! Z.to_nat i) eqn:E; [|done]. apply lookup_replicate in E as [-> _].
      injection Hat as <-. done.
    + intros i n Hn _. by apply lookup_replicate in Hn as [-> _].
Qed.

Lemma hashid_remove_lemma hi M id : hash_repr hi M →
  match M !! id with
  | None => hashid_remove hi id = Ok (-1, hi)
  | Some i => ∃ hi', hashid_remove hi id = Ok (i, hi') ∧ hi_cap hi' = hi_cap hi ∧
      hash_repr hi' (delete id M)
  end.
Proof.
  intros Ho. destruct (chain_of hi M id Ho) as (h & l & c & Eh & Hc & Hrd & Hch & Hnd & Hl & Hf).
  assert (Hwr : ∀ x, wr (hi_hash hi) (Z.land id (hi_hashmod hi)) x = Ok (<[h := x]> (hi_hash hi))).
  { intros x. apply lookup_lt_Some in Hc. by rewrite Eh, wr_ok, Nat2Z.id by lia. }
  assert (Hused : ∀ i, i ∈ l → id_at (hi_id hi) i = Some id → M !! id = Some i).
  { intros i (Hi & x & Hat' & H0 & _)%Hl Hat. rewrite Hat in Hat'. injection Hat' as <-.
    by apply (ho_map _ _ Ho). }
  unfold hashid_remove. rewrite Hrd, bind_ok. destruct l as [|x l]; apply node_chain_inv in Hch as Hinv.
  { subst c. rewrite Z.eqb_refl. rewrite (not_in_chain hi M id h []); [done|done|done|done|].
    intros i Hi. by apply not_elem_of_nil in Hi. }
  destruct Hinv as (<- & H0 & Hne & n & Hn & Hrdn & Hcl). destruct (Z.eqb_spec c NULL); [done|].
  rewrite Hrdn, bind_ok. pose proof (lookup_lt_Some _ _ _ Hn) as Hlt.
  assert (Hatc : id_at (hi_id hi) c = Some (hn_id n)) by (unfold id_at; by rewrite Hn).
  destruct (Z.eqb_spec (hn_id n) id) as [E|Hnid].
  - rewrite (Hused c) by (rewrite ?Hatc, ?E; done || by left). rewrite Hwr, bind_ok. unfold clear_node.
    rewrite Hrdn, bind_ok, wr_ok, bind_ok by lia. eexists. split; [reflexivity|]. split; [done|].
    apply (removed_ok hi M id h [] c l); try done.
    + apply Hused; [by left|]. by rewrite Hatc, E.
    + apply (chain_frame (hi_id hi)); [done|]. intros i Hi. pose proof (chain_range _ _ _ Hcl i Hi).
      apply NoDup_cons in Hnd as [Hni _]. rewrite list_lookup_insert_ne; [done|].
      intros Heq. apply Hni. by replace c with i by lia.
    + apply (cleared_insert hi M h); try done. by left.
  - destruct (remove_loop (hi_id hi) id l c (chain_fuel hi) Hch Hnd ltac:(cbn [length] in Hf; lia))
      as [(t & nodes & l1 & l2 & -> & -> & Ht & Hat & Hcn & Hlen & Hkt & Hids & Hkeep)|[-> Hx]]; rewrite bind_ok.
    + destruct (Z.eqb_spec t (-1)); [lia|]. rewrite (Hused t) by (done || set_solver).
      unfold clear_node. assert (∃ nt, nodes !! Z.to_nat t = Some nt) as [nt Hnt].
      { rewrite Hkt. unfold id_at in Hat. destruct (hi_id hi !! Z.to_nat t); [eauto|done]. }
      pose proof (lookup_lt_Some _ _ _ Hnt). rewrite (rd_ok _ _ nt), bind_ok, wr_ok, bind_ok by (done || lia).
      eexists. split; [reflexivity|]. split; [done|].
      assert (Etl : c :: l1 ++ t :: l2 = (c :: l1) ++ t :: l2) by done. rewrite Etl in *.
      assert (Htn : t ∉ (c :: l1) ++ l2).
      { apply NoDup_app in Hnd as (_ & Hd & [Hn2 _]%NoDup_cons). intros [Hin|Hin]%elem_of_app; [|done].
        apply (Hd t Hin). by left. }
      rewrite <- (list_insert_id _ _ _ Hc).
      apply (removed_ok hi M id h (c :: l1) t l2); try done; [by apply Hused; [set_solver|]| |].
      * apply (chain_frame nodes); [done|]. intros i Hi. pose proof (chain_range _ _ _ Hcn i Hi).
        rewrite list_lookup_insert_ne; [done|]. intros Heq. apply Htn. by replace t with i by lia.
      * apply (cleared_insert hi M h); try done. set_solver.
    + rewrite Z.eqb_refl. rewrite (not_in_chain hi M id h (c :: l)); [done|done|done|done|].
      intros i [->|Hi]%elem_of_cons; [|by apply Hx]. rewrite Hatc. congruence.
Qed.

(** A table that is not full has a free node. *)
Lemma free_exists hi M : hash_repr hi M → Z.of_nat (size M) < hi_cap hi →
  ∃ f, 0 ≤ f < hi_cap hi ∧ id_at (hi_id hi) f = Some (-1).
Proof.
  intros Ho Hsz. destruct (ho_cap _ _ Ho) as [Hlen Hcap].
  destruct (decide (Exists (λ n, hn_id n = -1) (hi_id hi))) as [Hex|Hall].
  - apply Exists_exists in Hex as (n & Hin & Hn). apply list_elem_of_lookup in Hin as [i Hi].
    exists (Z.of_nat i). pose proof (lookup_lt_Some _ _ _ Hi). split; [lia|].
    unfold id_at. rewrite Nat2Z.id, Hi. cbn. by rewrite Hn.
  - exfalso. assert (Hpos : ∀ i n, hi_id hi !! i = Some n → M !! hn_id n = Some (Z.of_nat i)).
    { intros i n Hi. apply (ho_map _ _ Ho). split; [|split; [lia|unfold id_at; by rewrite Nat2Z.id, Hi]].
      destruct (Z_lt_le_dec (hn_id n) 0) as [Hneg|]; [|done]. exfalso. apply Hall.
      apply Exists_exists. exists n. split; [by apply list_elem_of_lookup_2 in Hi|].
      by rewrite (ho_free _ _ Ho i n Hi Hneg). }
    assert (Hnd : NoDup (map hn_id (hi_id hi))).
    { apply NoDup_alt. intros i j x Hi Hj. apply list_lookup_fmap_Some in Hi as (n & -> & Hi).
      apply list_lookup_fmap_Some in Hj as (m & E & Hj). apply Hpos in Hi, Hj.
      rewrite E in Hi. rewrite Hi in Hj. injection Hj. lia. }
    assert (Hsub : (list_to_set (map hn_id (hi_id hi)) : gset Z) ⊆ dom M).
    { intros x Hx. apply elem_of_list_to_set, list_elem_of_fmap in Hx as (n & -> & Hn).
      apply list_elem_of_lookup in Hn as [i Hi]. apply elem_of_dom. eauto. }
    apply subseteq_size in Hsub. rewrite (size_list_to_set _ Hnd), length_map, size_dom in Hsub. lia.
Qed.

Lemma free_loop hi M id : hash_repr hi M → 0 ≤ id < 2 ^ 30 → Z.of_nat (size M) < hi_cap hi →
  ∃ f, iterate (S (Z.to_nat (hi_cap hi))) (free_step hi id) 0 = Ok (Some f) ∧
    0 ≤ f < hi_cap hi ∧ id_at (hi_id hi) f = Some (-1).
Proof.
  intros Ho Hid Hsz. destruct (free_exists hi M Ho Hsz) as (g & Hg & Hgid).
  destruct (ho_cap _ _ Ho) as [Hlen Hcap].
  set (k := (g - id) mod hi_cap hi). pose proof (Z.mod_pos_bound (g - id) (hi_cap hi) ltac:(lia)) as Hk.
  fold k in Hk.
  assert (Hkg : (k + id) mod hi_cap hi = g).
  { unfold k. rewrite Zplus_mod_idemp_l. replace (g - id + id) with g by lia. by apply Z.mod_small. }
  assert (∃ r, iterate (S (Z.to_nat (hi_cap hi))) (free_step hi id) 0 = Ok r ∧
      ∃ f, r = Some f ∧ 0 ≤ f < hi_cap hi ∧ id_at (hi_id hi) f = Some (-1)) as (r & -> & f & -> & Hf);
    [|by exists f].
  apply (iterate_total (λ i, 0 ≤ i ≤ k) _ (λ i, Z.to_nat (k - i))); [|lia|lia].
  intros i Hi. unfold free_step. destruct (Z.ltb_spec i (hi_cap hi)); [|lia].
  rewrite int_chk_ok, bind_ok by (unfold INT_MIN, INT_MAX; lia). cbv zeta.
  rewrite Z.rem_mod_nonneg by lia.
  pose proof (Z.mod_pos_bound (i + id) (hi_cap hi) ltac:(lia)).
  destruct (rd_in_range (hi_id hi) ((i + id) mod hi_cap hi)) as (n & Hn & ->); [lia|]. rewrite bind_ok.
  assert (Hat : id_at (hi_id hi) ((i + id) mod hi_cap hi) = Some (hn_id n)) by (unfold id_at; by rewrite Hn).
  destruct (Z.eqb_spec (hn_id n) (-1)) as [E|Hne].
  - left. eexists. split; [done|]. eexists. split; [done|]. split; [lia|]. by rewrite Hat, E.
  - right. eexists. split; [done|]. assert (i ≠ k) by (intros ->; congruence). lia.
Qed.

Lemma hashid_insert_lemma hi M id :
  hash_repr hi M → 0 ≤ id < 2 ^ 30 → M !! id = None → Z.of_nat (size M) < hi_cap hi →
  ∃ i hi', hashid_insert hi id = Ok (i, hi') ∧ 0 ≤ i < hi_cap hi ∧ (∀ id', M !! id' ≠ Some i) ∧
    hi_cap hi' = hi_cap hi ∧ hash_repr hi' (<[id := i]> M).
Proof.
  intros Ho Hid HM Hsz. destruct (free_loop hi M id Ho Hid Hsz) as (f & Hfree & Hf & Hat).
  destruct (ho_cap _ _ Ho) as [Hlen Hcap].
  destruct (chain_of hi M id Ho) as (h & l & c & Eh & Hc & Hrd & Hch & Hnd & Hl & _).
  destruct (rd_in_range (hi_id hi) f) as (n & Hn & Hrdn); [lia|].
  assert (n = Node (-1) NULL) as ->.
  { unfold id_at in Hat. rewrite Hn in Hat. injection Hat as Hx.
    apply (ho_free _ _ Ho (Z.to_nat f)); [done|]. rewrite Hx. lia. }
  assert (Hfl : ∀ h', ¬ hashes_to hi (hi_id hi) h' f) by (intros h' (_ & x & Hx & H0 & _); simplify_eq; lia).
  unfold hashid_insert. rewrite Hfree, bind_ok. cbn [or_fault]. rewrite bind_ok, Hrdn, bind_ok.
  cbn [hn_next hn_id]. rewrite Z.eqb_refl. cbn [assertb]. rewrite bind_ok. cbv zeta. rewrite Hrd, bind_ok.
  pose proof (lookup_lt_Some _ _ _ Hc) as Hlth.
  rewrite Eh, (wr_ok (hi_id hi) f), bind_ok by lia.
  rewrite wr_ok, bind_ok, Nat2Z.id by lia.
  assert ((if negb (c =? NULL) then c else NULL) = c) as -> by (by destruct (Z.eqb_spec c NULL)).
  eexists f, _. split; [reflexivity|]. split; [done|]. split.
  { intros id' Hx. apply (ho_map _ _ Ho) in Hx as (H0 & _ & Hx). rewrite Hat in Hx. injection Hx. lia. }
  split; [done|]. set (nodes := <[Z.to_nat f := Node id c]> (hi_id hi)).
  assert (Hatf : id_at nodes f = Some id)
    by (unfold id_at, nodes; rewrite list_lookup_insert_eq; [done|lia]).
  assert (Hother : ∀ i, 0 ≤ i → i ≠ f → nodes !! Z.to_nat i = hi_id hi !! Z.to_nat i)
    by (intros i Hi Hne; unfold nodes; rewrite list_lookup_insert_ne; [done|lia]).
  assert (Hato : ∀ i, 0 ≤ i → i ≠ f → id_at nodes i = id_at (hi_id hi) i)
    by (intros i Hi Hne; unfold id_at; by rewrite Hother).
  assert (Hframe : ∀ h' c' l', chain (hi_id hi) c' l' → (∀ i, i ∈ l' ↔ hashes_to hi (hi_id hi) h' i) →
    chain nodes c' l').
  { intros h' c' l' Hcl Hm. apply (chain_frame (hi_id hi)); [done|]. intros i Hi%Hm.
    apply Hother; [apply Hi|]. intros ->. by apply (Hfl h'). }
  assert (Hto : ∀ h' i, hashes_to hi nodes h' i ↔
    (i = f ∧ h' = h) ∨ hashes_to hi (hi_id hi) h' i).
  { intros h' i. destruct (decide (i = f)) as [->|Hne].
    - unfold hashes_to. rewrite Hatf. split.
      + intros (_ & x & [= <-] & _ & E). left. split; [done|lia].
      + intros [[_ ->]|Hx]; [|by destruct (Hfl h')]. split; [lia|].
        exists id. split; [done|]. split; [lia|done].
    - split.
      + intros (Hi & x & Hx & Hx2). right. split; [done|]. exists x. by rewrite <- Hato.
      + intros [[? _]|(Hi & x & Hx & Hx2)]; [done|]. split; [done|]. exists x. by rewrite Hato. }
  split; cbn [hi_hashmod hi_cap hi_count hi_id hi_hash].
  - rewrite length_insert. apply Ho.
  - unfold nodes. rewrite length_insert. apply Ho.
  - intros h' c' Hc'. apply list_lookup_insert_Some in Hc' as [(<- & <- & _)|[Hne Hc']].
    + exists (f :: l). split; [|split].
      * apply (node_chain_cons _ f (Node id c)); [lia|apply list_lookup_insert_eq; lia|by apply (Hframe h)].
      * constructor; [|done]. intros Hin%Hl. by apply (Hfl h).
      * intros i. rewrite elem_of_cons, Hl. unfold hashes_to in *. cbn [hi_hashmod]. rewrite (Hto h i). naive_solver.
    + destruct (ho_chain _ _ Ho _ _ Hc') as (l' & Hcl & Hnl & Hm). exists l'.
      split; [by apply (Hframe h')|]. split; [done|]. intros i. rewrite Hm.
      unfold hashes_to in *. cbn [hi_hashmod]. rewrite (Hto h' i). naive_solver.
  - intros id' i. rewrite lookup_insert_Some, (ho_map _ _ Ho). split.
    + intros [[<- <-]|(Hne & H0 & Hi & Hx)]; [split; [lia|split; [lia|done]]|].
      split; [done|]. split; [done|]. rewrite Hato; [done|done|]. intros ->. rewrite Hat in Hx. injection Hx. lia.
    + intros (H0 & Hi & Hx). destruct (decide (i = f)) as [->|Hne].
      * rewrite Hatf in Hx. injection Hx as ->. by left.
      * rewrite Hato in Hx by done. right. split; [|done]. intros <-.
        assert (M !! id = Some i) by (by apply (ho_map _ _ Ho)). congruence.
  - intros i m [(_ & <- & _)|[_ Hm]]%list_lookup_insert_Some Hneg; [cbn in Hneg; lia|].
    by apply (ho_free _ _ Ho i).
  - rewrite map_size_insert_None by done. rewrite (ho_count _ _ Ho). lia.
Qed.

(** There are no more entries than slots. *)
Lemma hash_size hi M : hash_repr hi M → Z.of_nat (size M) ≤ hi_cap hi.
Proof.
  intros Ho. destruct (ho_cap _ _ Ho) as [Hlen _].
  assert (Hm : ∀ x, x ∈ map_to_list M → 0 ≤ x.2 < hi_cap hi ∧ id_at (hi_id hi) x.2 = Some x.1).
  { intros [id i] Hx%elem_of_map_to_list. apply (ho_map _ _ Ho) in Hx as (_ & H0 & Hx). cbn.
    split; [|done]. unfold id_at in Hx. destruct (hi_id hi !! Z.to_nat i) eqn:E; [|done].
    apply lookup_lt_Some in E. lia. }
  assert (NoDup (map snd (map_to_list M))) as Hnd.
  { apply NoDup_fmap_2_strong; [|apply NoDup_map_to_list]. intros x y Hx Hy E.
    destruct (Hm x Hx) as [_ H1], (Hm y Hy) as [_ H2]. rewrite E, H2 in H1. injection H1 as H1.
    destruct x, y; cbn in *; congruence. }
  assert (map snd (map_to_list M) ⊆+ seqZ 0 (hi_cap hi)) as Hs.
  { apply NoDup_submseteq; [done|]. intros i Hi. apply list_elem_of_fmap in Hi as (x & -> & Hx).
    apply elem_of_seqZ. by apply Hm in Hx as [Hx _]. }
  apply submseteq_length in Hs. rewrite length_map, length_seqZ, length_map_to_list in Hs. lia.
Qed.

Lemma hashid_full_lemma hi M : hash_repr hi M → hashid_full hi = (Z.of_nat (size M) =? hi_cap hi).
Proof. intros Ho. unfold hashid_full. by rewrite (ho_count _ _ Ho). Qed.

(** [i + id] is computed as an [int]: with ids near the largest one the search for a free
    slot overflows as soon as the first slot it tries is taken. *)
Lemma hashid_insert_overflows :
  (hi ← hashid_init 2; '(_, hi) ← hashid_insert hi 1; hashid_insert hi INT_MAX) = Fault IntOverflow.
Proof. reflexivity. Qed.

(** ** Histories

    The table behind a history of calls. *)

Inductive hash_op : Set :=
| HInsert (id : Z)
| HRemove (id : Z)
| HLookup (id : Z)
| HFull.

Inductive hash_out : Set :=
| OutSlot (i : Z)
| OutBool (b : bool).

Definition run_hash_op (op : hash_op) (hi : hashid) : res (hash_out * hashid) :=
  match op with
  | HInsert id => '(i, hi) ← hashid_insert hi id; Ok (OutSlot i, hi)
  | HRemove id => '(i, hi) ← hashid_remove hi id; Ok (OutSlot i, hi)
  | HLookup id => i ← hashid_lookup hi id; Ok (OutSlot i, hi)
  | HFull => Ok (OutBool (hashid_full hi), hi)
  end.

Fixpoint run_hash_ops (ops : list hash_op) (hi : hashid) : res (list hash_out * hashid) :=
  match ops with
  | [] => Ok ([], hi)
  | op :: ops => '(o, hi) ← run_hash_op op hi; '(os, hi) ← run_hash_ops ops hi; Ok (o :: os, hi)
  end.

(** The specification: a partial map with at most [max] entries into distinct slots below
    [max]; which free slot an insertion takes is the table's choice. *)
Inductive table_step (max : Z) (M : gmap Z Z) : hash_op → hash_out → gmap Z Z → Prop :=
| ts_insert id i :
    M !! id = None → 0 ≤ i < max → (∀ id', M !! id' ≠ Some i) →
    table_step max M (HInsert id) (OutSlot i) (<[id := i]> M)
| ts_remove id : table_step max M (HRemove id) (OutSlot (default (-1) (M !! id))) (delete id M)
| ts_lookup id : table_step max M (HLookup id) (OutSlot (default (-1) (M !! id))) M
| ts_full : table_step max M HFull (OutBool (bool_decide (Z.of_nat (size M) = max))) M.

Inductive table_steps (max : Z) : gmap Z Z → list hash_op → list hash_out → gmap Z Z → Prop :=
| tss_nil M : table_steps max M [] [] M
| tss_cons M op o M1 ops os M2 :
    table_step max M op o M1 → table_steps max M1 ops os M2 →
    table_steps max M (op :: ops) (o :: os) M2.

(** What the table asks of its caller, for the set [K] of ids in the table: an insertion
    is of a new socket id and there is room for it. *)
Definition op_legal (max : Z) (K : gset Z) (op : hash_op) : Prop :=
  match op with
  | HInsert id => 0 ≤ id < 2 ^ 30 ∧ id ∉ K ∧ Z.of_nat (size K) < max
  | HRemove _ | HLookup _ | HFull => True
  end.

#[global] Instance op_legal_dec max K op : Decision (op_legal max K op).
Proof. destruct op; cbn [op_legal]; apply _. Defined.

Definition op_keys (op : hash_op) (K : gset Z) : gset Z :=
  match op with
  | HInsert id => {[id]} ∪ K
  | HRemove id => K ∖ {[id]}
  | _ => K
  end.

Fixpoint ops_legal (max : Z) (K : gset Z) (ops : list hash_op) : Prop :=
  match ops with
  | [] => True
  | op :: ops => op_legal max K op ∧ ops_legal max (op_keys op K) ops
  end.

#[global] Instance ops_legal_dec max ops : ∀ K, Decision (ops_legal max K ops).
Proof. induction ops; intros K; cbn [ops_legal]; apply _. Defined.

Lemma run_hash_op_lemma max hi M op :
  hash_repr hi M → hi_cap hi = max → op_legal max (dom M) op →
  ∃ o hi' M', run_hash_op op hi = Ok (o, hi') ∧ table_step max M op o M' ∧
    hash_repr hi' M' ∧ hi_cap hi' = max ∧ dom M' = op_keys op (dom M).
Proof.
  intros Ho Hcap Hl. destruct op as [id|id|id|]; cbn [op_legal op_keys run_hash_op] in *.
  - destruct Hl as (Hid & HM & Hsz). rewrite size_dom in Hsz. apply not_elem_of_dom in HM.
    destruct (hashid_insert_lemma hi M id Ho Hid HM ltac:(lia)) as (i & hi' & -> & Hi & Hf & Hc & Ho').
    exists (OutSlot i), hi', (<[id := i]> M). rewrite bind_ok, dom_insert_L.
    split; [done|]. split; [constructor; [done|lia|done]|]. split; [done|]. split; [congruence|set_solver].
  - pose proof (hashid_remove_lemma hi M id Ho) as Hr. exists (OutSlot (default (-1) (M !! id))).
    destruct (M !! id) as [i|] eqn:E.
    + destruct Hr as (hi' & -> & Hc & Ho'). exists hi', (delete id M). rewrite bind_ok, dom_delete_L.
      split; [done|]. split; [rewrite <- E; constructor|]. split; [done|]. split; [congruence|done].
    + rewrite Hr, bind_ok. exists hi, (delete id M). rewrite dom_delete_L.
      split; [done|]. split; [rewrite <- E; constructor|]. by rewrite delete_id.
  - rewrite (hashid_lookup_lemma hi M id Ho), bind_ok.
    eexists _, hi, M. split; [done|]. split; [constructor|done].
  - rewrite (hashid_full_lemma hi M Ho), Hcap. eexists _, hi, M. split; [done|].
    split; [|done]. assert ((Z.of_nat (size M) =? max) = bool_decide (Z.of_nat (size M) = max)) as ->;
      [|constructor]. by case_bool_decide; apply Z.eqb_eq || apply Z.eqb_neq.
Qed.

Lemma run_hash_ops_lemma max ops : ∀ hi M,
  hash_repr hi M → hi_cap hi = max → ops_legal max (dom M) ops →
  ∃ os hi' M', run_hash_ops ops hi = Ok (os, hi') ∧ table_steps max M ops os M'.
Proof.
  induction ops as [|op ops IH]; intros hi M Ho Hcap Hl; [by exists [], hi, M; split; constructor|].
  destruct Hl as [Hop Hops]. cbn [run_hash_ops].
  destruct (run_hash_op_lemma max hi M op Ho Hcap Hop) as (o & hi1 & M1 & -> & Ht & Ho1 & Hc1 & Hd).
  rewrite bind_ok. rewrite <- Hd in Hops.
  destruct (IH hi1 M1 Ho1 Hc1 Hops) as (os & hi2 & M2 & -> & Hts). rewrite bind_ok.
  exists (o :: os), hi2, M2. split; [done|]. by econstructor.
Qed.

(** C28.  The connection table is a partial map from socket ids to connection slots: after
    [hashid_init], any history of insertions (of new ids, while there is room), removals,
    lookups and fullness tests runs without a fault, and gives the results of a map with at
    most [max] entries: a lookup or a removal finds the slot its id was given, or -1; an
    insertion takes a slot in range that no other id has; [hashid_full] says when there are
    [max] ids. *)
Theorem hashid_history_refines (max : Z) (ops : list hash_op) :
  1 ≤ max ≤ 2 ^ 20 → ops_legal max ∅ ops →
  ∃ hi os hi' M, hashid_init max = Ok hi ∧ run_hash_ops ops hi = Ok (os, hi') ∧
    table_steps max ∅ ops os M.
Proof.
  intros Hmax Hl. destruct (hashid_init_lemma max Hmax) as (hi & -> & Hcap & Ho).
  destruct (run_hash_ops_lemma max ops hi ∅ Ho Hcap) as (os & hi' & M & E & Hs);
    [by rewrite dom_empty_L|]. by exists hi, os, hi', M.
Qed.

(** Two ids of one chain (5 and 21), removed head first, in a table of two slots. *)
Lemma hashid_history_refines_witness :
  ∃ os hi', (hi ← hashid_init 2;
    run_hash_ops [HInsert 5; HInsert 21; HFull; HRemove 21; HLookup 5; HInsert 37; HLookup 21] hi)
    = Ok (os, hi') ∧ os = [OutSlot 1; OutSlot 0; OutBool true; OutSlot 0; OutSlot 1; OutSlot 0; OutSlot (-1)].
Proof.
  destruct (hashid_history_refines 2
    [HInsert 5; HInsert 21; HFull; HRemove 21; HLookup 5; HInsert 37; HLookup 21])
    as (hi & os & hi' & M & Hi & E & _).
  - lia.
  - apply (bool_decide_unpack _). vm_compute. exact I.
  - exists os, hi'. rewrite Hi, bind_ok, E. split; [reflexivity|].
    vm_compute in Hi. injection Hi as <-. vm_compute in E. injection E as <- <-. reflexivity.
Defined.
