(* ===== verification/DataBuffer.v ===== *)
(** [service-src/databuffer.h]: the bytes received from a connection, as a list of the
    buffers they arrived in.

    All connections of a gate take their list nodes from one pool: blocks of
    [MESSAGEPOOL] nodes, the unused ones chained in a free list.  Here the nodes of all
    blocks are one array, a pointer is an index into it, and a node nobody has written is
    [None].  The buffers given to [skynet_free] are recorded in order. *)

From S2P Require Import Prelude Chain Frames.
Open Scope Z_scope.

Definition MESSAGEPOOL : Z := 1023.

Record message : Set := Message {
  m_buffer : option (list Z);
  m_size : Z;
  m_next : Z
}.

#[export] Instance message_linked : Linked (option message) := fmap m_next.

Record databuffer : Set := DataBuffer {
  db_header : Z;
  db_offset : Z;
  db_size : Z;
  db_head : Z;
  db_tail : Z
}.

(** [mp_pool] has the first node of every block, the latest first. *)
Record messagepool : Set := MessagePool {
  mp_nodes : list (option message);
  mp_pool : list Z;
  mp_freelist : Z
}.

(** The buffer an operation works on, the pool, and the buffers freed so far. *)
Record bufstate : Set := BufState {
  bs_db : databuffer;
  bs_mp : messagepool;
  bs_freed : list (list Z)
}.

(** The state [memset] gives. *)
Definition databuffer_zero : databuffer := DataBuffer 0 0 0 NULL NULL.
Definition messagepool_zero : messagepool := MessagePool [] [] NULL.

Definition set_db (db : databuffer) : SM bufstate unit :=
  modify (λ s, BufState db (bs_mp s) (bs_freed s)).
Definition set_mp (mp : messagepool) : SM bufstate unit :=
  modify (λ s, BufState (bs_db s) mp (bs_freed s)).
Definition free_buffer (b : option (list Z)) : SM bufstate unit :=
  modify (λ s, BufState (bs_db s) (bs_mp s) (bs_freed s ++ option_list b)).

Definition set_size (z : Z) (db : databuffer) : databuffer :=
  DataBuffer (db_header db) (db_offset db) z (db_head db) (db_tail db).
Definition set_offset (z : Z) (db : databuffer) : databuffer :=
  DataBuffer (db_header db) z (db_size db) (db_head db) (db_tail db).
Definition set_header (z : Z) (db : databuffer) : databuffer :=
  DataBuffer z (db_offset db) (db_size db) (db_head db) (db_tail db).
Definition set_ends (hd tl : Z) (db : databuffer) : databuffer :=
  DataBuffer (db_header db) (db_offset db) (db_size db) hd tl.

(** Every block is freed. *)
Definition messagepool_free (pool : messagepool) : messagepool := messagepool_zero.

Definition return_message : SM bufstate unit :=
  db ← gets bs_db;
  mp ← gets bs_mp;
  let m := db_head db in
  n ← lift (rd_init (mp_nodes mp) m);
  _ ← (if m_next n =? NULL then
         _ ← lift (assertb (db_tail db =? m));
         set_db (set_ends NULL NULL db)
       else set_db (set_ends (m_next n) (db_tail db) db));
  _ ← free_buffer (m_buffer n);
  nodes ← lift (wr (mp_nodes mp) m (Some (Message None 0 (mp_freelist mp))));
  set_mp (MessagePool nodes (mp_pool mp) m).

(** [memcpy] of [n] bytes from the current message to position [pos] of the
    destination. *)
Definition copy_out (n : message) (off : Z) (dst : buffer) (pos len : Z) : res buffer :=
  b ← or_fault BadPointer (m_buffer n);
  l ← rd_at b off len;
  wr_at dst pos l.

(** One round of the loop: the destination, the position in it, the bytes missing. *)
Definition read_round (st : buffer * Z * Z) : SM bufstate (loop (buffer * Z * Z) buffer) :=
  let '(dst, pos, sz) := st in
  db ← gets bs_db;
  mp ← gets bs_mp;
  current ← lift (rd_init (mp_nodes mp) (db_head db));
  bsz ← lift (int_chk (m_size current - db_offset db));
  if bsz >? sz then
    dst ← lift (copy_out current (db_offset db) dst pos sz);
    _ ← set_db (set_offset (db_offset db + sz) db);
    mret (Break dst)
  else if bsz =? sz then
    dst ← lift (copy_out current (db_offset db) dst pos sz);
    _ ← set_db (set_offset 0 db);
    _ ← return_message;
    mret (Break dst)
  else
    dst ← lift (copy_out current (db_offset db) dst pos bsz);
    _ ← return_message;
    db ← gets bs_db;
    _ ← set_db (set_offset 0 db);
    mret (Continue (dst, pos + bsz, sz - bsz)).

(** Every round but the last gives a node back. *)
Definition databuffer_read (dst : buffer) (pos sz : Z) : SM bufstate buffer :=
  db ← gets bs_db;
  mp ← gets bs_mp;
  _ ← lift (assertb (db_size db >=? sz));
  _ ← set_db (set_size (db_size db - sz) db);
  iterateM (S (length (mp_nodes mp))) read_round (dst, pos, sz).

(** A new block at index [base]: node 0 is handed out, the others are the free list. *)
Definition pool_node (base i : Z) : option message :=
  if i =? 0 then None
  else Some (Message None 0 (if i =? MESSAGEPOOL - 1 then NULL else base + i + 1)).

Definition new_pool (base : Z) : list (option message) :=
  map (λ i, pool_node base (Z.of_nat i)) (seq 0 (Z.to_nat MESSAGEPOOL)).

Definition take_message : SM bufstate Z :=
  mp ← gets bs_mp;
  if negb (mp_freelist mp =? NULL) then
    let m := mp_freelist mp in
    n ← lift (rd_init (mp_nodes mp) m);
    _ ← set_mp (MessagePool (mp_nodes mp) (mp_pool mp) (m_next n));
    mret m
  else
    let base := Z.of_nat (length (mp_nodes mp)) in
    _ ← set_mp (MessagePool (mp_nodes mp ++ new_pool base) (base :: mp_pool mp) (base + 1));
    mret base.

Definition databuffer_push (data : list Z) (sz : Z) : SM bufstate unit :=
  m ← take_message;
  mp ← gets bs_mp;
  nodes ← lift (wr (mp_nodes mp) m (Some (Message (Some data) sz NULL)));
  db ← gets bs_db;
  size ← lift (int_chk (db_size db + sz));
  let db := set_size size db in
  if db_head db =? NULL then
    _ ← lift (assertb (db_tail db =? NULL));
    _ ← set_db (set_ends m m db);
    set_mp (MessagePool nodes (mp_pool mp) (mp_freelist mp))
  else
    t ← lift (rd_init nodes (db_tail db));
    nodes ← lift (wr nodes (db_tail db) (Some (Message (m_buffer t) (m_size t) m)));
    _ ← set_db (set_ends (db_head db) m db);
    set_mp (MessagePool nodes (mp_pool mp) (mp_freelist mp)).

(** The length in a header.  [plen[0] << 24] is an [int]: from 128 on the top bit is the
    sign. *)
Definition header_length (header_size : Z) (plen : buffer) : res Z :=
  p0 ← rd_init plen 0;
  p1 ← rd_init plen 1;
  if header_size =? 2 then Ok (Z.lor (Z.shiftl p0 8) p1)
  else
    p2 ← rd_init plen 2;
    p3 ← rd_init plen 3;
    Ok (Z.lor (Z.lor (Z.lor (i32 (Z.shiftl p0 24)) (Z.shiftl p1 16)) (Z.shiftl p2 8)) p3).

Definition databuffer_readheader (header_size : Z) : SM bufstate Z :=
  db ← gets bs_db;
  let body :=
    db ← gets bs_db;
    if db_size db <? db_header db then mret (-1) else mret (db_header db) in
  if db_header db =? 0 then
    if db_size db <? header_size then mret (-1)
    else
      plen ← databuffer_read (replicate 4 None) 0 header_size;
      h ← lift (header_length header_size plen);
      db ← gets bs_db;
      _ ← set_db (set_header h db);
      body
  else body.

Definition databuffer_reset : SM bufstate unit :=
  db ← gets bs_db;
  set_db (set_header 0 db).

Definition clear_step (_ : unit) : SM bufstate (loop unit unit) :=
  db ← gets bs_db;
  if db_head db =? NULL then mret (Break ())
  else _ ← return_message; mret (Continue ()).

Definition databuffer_clear : SM bufstate unit :=
  mp ← gets bs_mp;
  _ ← iterateM (S (length (mp_nodes mp))) clear_step ();
  set_db databuffer_zero.

(** ** Representation *)

(** The nodes [ps] hold the buffers [chunks]. *)
Definition contents (nodes : list (option message)) : list Z → list (list Z) → Prop :=
  Forall2 (λ p b, Z.of_nat (length b) ≤ INT_MAX ∧
    ∃ nx, nodes !! Z.to_nat p = Some (Some (Message (Some b) (Z.of_nat (length b)) nx))).

(** A buffer with the nodes [ps], and the free list [F] of the pool. *)
Record store (st : bufstate) (ps F : list Z) (chunks : list (list Z)) : Prop := {
  so_chain : chain (mp_nodes (bs_mp st)) (db_head (bs_db st)) ps;
  so_tail : db_tail (bs_db st) = default NULL (last ps);
  so_cont : contents (mp_nodes (bs_mp st)) ps chunks;
  so_free : chain (mp_nodes (bs_mp st)) (mp_freelist (bs_mp st)) F;
  so_nodup : NoDup (ps ++ F)
}.

(** Nodes are reached from [own0] only, or are new; the others have not changed. *)
Record evolves (nodes0 : list (option message)) (own0 : list Z) (nodes : list (option message))
    (own : list Z) : Prop := {
  ev_own : ∀ i, i ∈ own → i ∈ own0 ∨ Z.of_nat (length nodes0) ≤ i;
  ev_keep : ∀ i, 0 ≤ i < Z.of_nat (length nodes0) → i ∉ own0 →
    nodes !! Z.to_nat i = nodes0 !! Z.to_nat i;
  ev_len : (length nodes0 ≤ length nodes)%nat
}.

Lemma evolves_refl nodes own own' : own ≡ₚ own' → evolves nodes own nodes own'.
Proof. intros Hp. split; [intros i Hi; left; by rewrite Hp|done|done]. Qed.

Lemma evolves_trans n0 o0 n1 o1 n2 o2 :
  evolves n0 o0 n1 o1 → evolves n1 o1 n2 o2 → evolves n0 o0 n2 o2.
Proof.
  intros [Ho1 Hk1 Hl1] [Ho2 Hk2 Hl2]. split; [| |lia].
  - intros i Hi. apply Ho2 in Hi as [Hi|Hi]; [by apply Ho1|right; lia].
  - intros i Hi Hni. rewrite Hk2, Hk1; [done|done|done|lia|]. intros [?|?]%Ho1; [done|lia].
Qed.

Lemma evolves_insert nodes own own' i n :
  0 ≤ i → i ∈ own → own ≡ₚ own' → evolves nodes own (<[Z.to_nat i := n]> nodes) own'.
Proof.
  intros H0 Hi Hp. split; [intros j Hj; left; by rewrite Hp| |by rewrite length_insert].
  intros j Hj Hnj. rewrite list_lookup_insert_ne; [done|]. intros E. apply Hnj. by replace j with i by lia.
Qed.

Lemma contents_frame nodes nodes' ps chunks :
  contents nodes ps chunks → (∀ i, i ∈ ps → nodes' !! Z.to_nat i = nodes !! Z.to_nat i) →
  contents nodes' ps chunks.
Proof.
  unfold contents. induction 1 as [|p b ps chunks [Hb [nx Hp]] _ IH]; intros He; constructor.
  - split; [done|]. exists nx. by rewrite He by left.
  - apply IH. intros i Hi. apply He. by right.
Qed.

Lemma contents_insert nodes ps chunks i n :
  contents nodes ps chunks → 0 ≤ i → (∀ p, p ∈ ps → 0 ≤ p) → i ∉ ps →
  contents (<[Z.to_nat i := n]> nodes) ps chunks.
Proof.
  intros Hco H0 Hps Hni. apply (contents_frame nodes); [done|]. intros j Hj. pose proof (Hps j Hj).
  rewrite list_lookup_insert_ne; [done|]. intros E. apply Hni. by replace i with j by lia.
Qed.

Lemma return_message_lemma st p ps F b chunks :
  store st (p :: ps) F (b :: chunks) →
  ∃ st', return_message st = Ok ((), st') ∧ store st' ps (p :: F) chunks ∧
    bs_freed st' = bs_freed st ++ [b] ∧
    db_header (bs_db st') = db_header (bs_db st) ∧ db_offset (bs_db st') = db_offset (bs_db st) ∧
    db_size (bs_db st') = db_size (bs_db st) ∧
    evolves (mp_nodes (bs_mp st)) ((p :: ps) ++ F) (mp_nodes (bs_mp st')) (ps ++ p :: F) ∧
    length (mp_nodes (bs_mp st')) = length (mp_nodes (bs_mp st)).
Proof.
  intros [Hc Ht Hco Hf Hnd]. apply chain_inv in Hc as (Eh & H0 & Hne & n & nx & Hn & _ & Hl & Hc).
  apply Forall2_cons in Hco as [[Hb [nx' Hp]] Hco]. rewrite Eh in *. rewrite Hp in Hn. injection Hn as <-.
  injection Hl as <-. pose proof (lookup_lt_Some _ _ _ Hp) as Hlt.
  apply NoDup_cons in Hnd as [Hni Hnd]. apply not_elem_of_app in Hni as [Hn1 Hn2].
  assert (Hps : ∀ q, q ∈ ps → 0 ≤ q) by (intros q Hq; pose proof (chain_range _ _ _ Hc q Hq); lia).
  eexists. split.
  { unfold return_message. sm. rewrite Eh, (rd_init_ok _ _ _ H0 Hp). cbn [m_next m_buffer].
    instantiate (1 := BufState (set_ends nx' (if nx' =? NULL then NULL else db_tail (bs_db st)) (bs_db st))
      (MessagePool (<[Z.to_nat p := Some (Message None 0 (mp_freelist (bs_mp st)))]> (mp_nodes (bs_mp st)))
         (mp_pool (bs_mp st)) p) (bs_freed st ++ [b])).
    destruct (Z.eqb_spec nx' NULL) as [E|E].
    - subst nx'. apply chain_null in Hc as E. subst ps. cbn in Ht. rewrite Ht, Z.eqb_refl. cbn [assertb].
      unfold set_db, free_buffer, set_mp. sm. cbn [bs_db bs_mp bs_freed option_list mp_nodes mp_pool mp_freelist].
      rewrite wr_ok by lia. done.
    - unfold set_db, free_buffer, set_mp. sm. cbn [bs_db bs_mp bs_freed option_list mp_nodes mp_pool mp_freelist].
      rewrite wr_ok by lia. done. }
  cbn. split; [|split; [done|split; [done|split; [done|split; [done|]]]]].
  - split; cbn.
    + by apply chain_insert.
    + destruct (Z.eqb_spec nx' NULL) as [->|E]; [by apply chain_null in Hc as ->|].
      destruct ps as [|q ps]; [by inversion Hc|]. rewrite Ht. by rewrite last_cons_cons.
    + by apply contents_insert.
    + eapply chain_cons; [done|apply list_lookup_insert_eq; lia|done|]. by apply chain_insert.
    + rewrite <- Permutation_middle. constructor; [by apply not_elem_of_app|done].
  - split; [|by rewrite length_insert]. apply evolves_insert; [done|by left|]. by rewrite <- Permutation_middle.
Qed.

(** Reading from a message: the bytes arrive at their place. *)
Lemma copy_out_lemma b nx off (pre : list Z) (rest : buffer) len :
  0 ≤ off → 0 ≤ len → off + len ≤ Z.of_nat (length b) → len ≤ Z.of_nat (length rest) →
  copy_out (Message (Some b) (Z.of_nat (length b)) nx) off (map Some pre ++ rest)
    (Z.of_nat (length pre)) len =
  Ok (map Some (pre ++ take (Z.to_nat len) (drop (Z.to_nat off) b)) ++ drop (Z.to_nat len) rest).
Proof.
  intros H0 Hl Hb Hm. unfold copy_out. cbn [m_buffer or_fault]. rewrite bind_ok, rd_at_ok, bind_ok by lia.
  assert (length (take (Z.to_nat len) (drop (Z.to_nat off) b)) = Z.to_nat len) as E
    by (rewrite length_take, length_drop; lia).
  rewrite wr_at_over by lia. by rewrite E.
Qed.

(** What reading [n] bytes does to the store: [gone] buffers are given back. *)
Record read_off (st : bufstate) (own : list Z) (chunks : list (list Z)) (skip : Z) (st' : bufstate)
    (ps F : list Z) (chunks' : list (list Z)) : Prop := {
  ro_store : store st' ps F chunks';
  ro_bytes : drop (Z.to_nat (db_offset (bs_db st'))) (concat chunks') = drop (Z.to_nat skip) (concat chunks);
  ro_off : 0 ≤ db_offset (bs_db st') ≤ Z.of_nat (length (hd [] chunks'));
  ro_same : db_header (bs_db st') = db_header (bs_db st) ∧ db_size (bs_db st') = db_size (bs_db st);
  ro_freed : bs_freed st' ++ chunks' = bs_freed st ++ chunks;
  ro_own : evolves (mp_nodes (bs_mp st)) own (mp_nodes (bs_mp st')) (ps ++ F)
}.

(** A round that empties the first message. *)
Lemma read_empty_lemma st p ps F b chunks :
  store st (p :: ps) F (b :: chunks) →
  ∃ st', return_message st = Ok ((), st') ∧
    read_off st ((p :: ps) ++ F) (b :: chunks) (Z.of_nat (length b))
      (BufState (set_offset 0 (bs_db st')) (bs_mp st') (bs_freed st')) ps (p :: F) chunks ∧
    length (mp_nodes (bs_mp st')) = length (mp_nodes (bs_mp st)).
Proof.
  intros Hs. destruct (return_message_lemma st p ps F b chunks Hs)
    as (st' & E & [Hc Ht Hco Hf Hnd] & Hfr & Hh & Ho & Hsz & Hev & Hlen).
  exists st'. split; [done|]. split; [|done]. split; cbn.
  - by split.
  - by rewrite Nat2Z.id, drop_app_length.
  - lia.
  - done.
  - by rewrite Hfr, <- app_assoc.
  - done.
Qed.

Lemma return_message_offset z st :
  return_message (BufState (set_offset z (bs_db st)) (bs_mp st) (bs_freed st)) =
  match return_message st with
  | Ok (u, st') => Ok (u, BufState (set_offset z (bs_db st')) (bs_mp st') (bs_freed st'))
  | Fault f => Fault f
  end.
Proof.
  unfold return_message, set_db, free_buffer, set_mp. sm.
  cbn [bs_db bs_mp bs_freed set_offset set_ends db_head db_tail db_offset db_size db_header].
  destruct (rd_init _ _) as [n|]; [|done].
  destruct (m_next n =? NULL); [destruct (assertb _); [|done]|];
    cbn [bs_db bs_mp bs_freed set_offset set_ends db_head db_tail db_offset db_size db_header];
    by destruct (wr _ _ _).
Qed.

Lemma store_offset st ps F chunks z :
  store st ps F chunks → store (BufState (set_offset z (bs_db st)) (bs_mp st) (bs_freed st)) ps F chunks.
Proof. intros []. by split. Qed.

(** One round, at the first message. *)
Lemma read_round_lemma st p ps F b chunks (pre : list Z) (rest : buffer) sz :
  let off := db_offset (bs_db st) in
  let bsz := Z.of_nat (length b) - off in
  let dst k := map Some (pre ++ take (Z.to_nat k) (drop (Z.to_nat off) b)) ++ drop (Z.to_nat k) rest in
  store st (p :: ps) F (b :: chunks) → 0 ≤ off ≤ Z.of_nat (length b) → 0 ≤ sz ≤ Z.of_nat (length rest) →
  read_round (map Some pre ++ rest, Z.of_nat (length pre), sz) st =
  if bsz >? sz then
    Ok (Break (dst sz), BufState (set_offset (off + sz) (bs_db st)) (bs_mp st) (bs_freed st))
  else match return_message st with
       | Ok (_, st') => Ok (if bsz =? sz then Break (dst sz)
                            else Continue (dst bsz, Z.of_nat (length pre) + bsz, sz - bsz),
                            BufState (set_offset 0 (bs_db st')) (bs_mp st') (bs_freed st'))
       | Fault f => Fault f
       end.
Proof.
  cbv zeta. intros [Hc Ht Hco Hfr Hnd] Ho Hsz.
  apply Forall2_cons in Hco as [[Hb [nx Hp]] _]. apply chain_inv in Hc as (Eh & H0 & _). rewrite Eh in H0.
  set (off := db_offset (bs_db st)) in *. set (bsz := Z.of_nat (length b) - off).
  pose proof (rd_init_ok _ _ _ H0 Hp) as Hrd. unfold INT_MAX in Hb.
  assert (Hchk : int_chk (Z.of_nat (length b) - off) = Ok bsz)
    by (apply int_chk_ok; unfold INT_MIN, INT_MAX; lia).
  unfold read_round, set_db. sm. rewrite Eh, Hrd. cbn [m_size]. fold off. rewrite Hchk.
  destruct (Z.gtb_spec bsz sz) as [Hgt|Hle].
  { rewrite copy_out_lemma by lia. done. }
  destruct (Z.eqb_spec bsz sz) as [E|Hne].
  - rewrite copy_out_lemma by lia.
    change (BufState (set_offset 0 (bs_db st)) (bs_mp st) (bs_freed st))
      with (BufState (set_offset 0 (bs_db st)) (bs_mp st) (bs_freed st)).
    rewrite return_message_offset. by destruct (return_message st) as [[? ?]|].
  - rewrite copy_out_lemma by lia. by destruct (return_message st) as [[? ?]|].
Qed.

Lemma read_loop chunks : ∀ fuel st ps F pre (rest : buffer) sz,
  store st ps F chunks → chunks ≠ [] → (length chunks ≤ fuel)%nat →
  0 ≤ db_offset (bs_db st) ≤ Z.of_nat (length (hd [] chunks)) →
  0 ≤ sz ≤ Z.of_nat (length rest) → db_offset (bs_db st) + sz ≤ Z.of_nat (length (concat chunks)) →
  ∃ st' ps' F' chunks',
    iterateM fuel read_round (map Some pre ++ rest, Z.of_nat (length pre), sz) st =
      Ok (map Some (pre ++ take (Z.to_nat sz) (drop (Z.to_nat (db_offset (bs_db st))) (concat chunks)))
            ++ drop (Z.to_nat sz) rest, st') ∧
    read_off st (ps ++ F) chunks (db_offset (bs_db st) + sz) st' ps' F' chunks' ∧
    length (mp_nodes (bs_mp st')) = length (mp_nodes (bs_mp st)).
Proof.
  induction chunks as [|b chunks IH]; intros fuel st ps F pre rest sz Hs Hne Hf Ho Hsz Htot; [done|]. clear Hne.
  destruct fuel as [|fuel]; [cbn in Hf; lia|]. cbn [iterateM].
  destruct ps as [|p ps]; [pose proof (so_cont _ _ _ _ Hs) as Hco; inversion Hco|].
  cbn [hd concat] in *. rewrite length_app in Htot.
  pose proof (read_round_lemma st p ps F b chunks pre rest sz Hs Ho Hsz) as Er. cbv zeta in Er.
  set (off := db_offset (bs_db st)) in *. set (bsz := Z.of_nat (length b) - off) in *.
  assert (Hdrop : drop (Z.to_nat off) (b ++ concat chunks) = drop (Z.to_nat off) b ++ concat chunks)
    by (rewrite drop_app_le; [done|lia]).
  assert (Hlb : length (drop (Z.to_nat off) b) = Z.to_nat bsz) by (rewrite length_drop; lia).
  rewrite Hdrop. destruct (Z.gtb_spec bsz sz) as [Hgt|Hle].
  { rewrite (sbind_ok _ _ _ _ _ Er). eexists _, (p :: ps), F, (b :: chunks). split.
    { rewrite take_app_le by lia. reflexivity. }
    split; [|done]. split; cbn; try done; [by apply store_offset|lia|by apply evolves_refl]. }
  destruct (read_empty_lemma st p ps F b chunks Hs) as (st1 & E1 & Hro & Hlen). rewrite E1 in Er.
  destruct (Z.eqb_spec bsz sz) as [E|Hne]; rewrite (sbind_ok _ _ _ _ _ Er).
  - eexists _, ps, (p :: F), chunks. split.
    { rewrite take_app_le by lia. reflexivity. }
    split; [|done]. destruct Hro. split; try done. cbn in *.
    by replace (off + sz) with (Z.of_nat (length b)) by lia.
  - set (st2 := BufState (set_offset 0 (bs_db st1)) (bs_mp st1) (bs_freed st1)) in *.
    replace (Z.of_nat (length pre) + bsz) with (Z.of_nat (length (pre ++ take (Z.to_nat bsz) (drop (Z.to_nat off) b))))
      by (rewrite length_app, length_take; lia).
    destruct (IH fuel st2 ps (p :: F) (pre ++ take (Z.to_nat bsz) (drop (Z.to_nat off) b))
      (drop (Z.to_nat bsz) rest) (sz - bsz)) as (st' & ps' & F' & chunks' & Erun & Hro' & Hlen').
    { apply Hro. } { intros ->. cbn in Htot. lia. } { cbn [length] in Hf. lia. } { cbn. lia. } { rewrite length_drop. lia. } { cbn. lia. }
    exists st', ps', F', chunks'. split; [rewrite Erun|split; [|by rewrite Hlen']].
    + change (db_offset (bs_db st2)) with 0. rewrite drop_0. do 2 f_equal. f_equal.
      * f_equal. rewrite <- app_assoc. f_equal. rewrite !(take_ge (drop _ b)), take_app_ge by lia.
        f_equal; f_equal; lia.
      * rewrite drop_drop. f_equal. lia.
    + destruct Hro as [_ _ _ [Hh1 Hz1] Hf1 Ho1], Hro' as [Hs2 Hb2 Hof2 [Hh2 Hz2] Hf2 Ho2].
      change (db_offset (bs_db st2)) with 0 in Hb2.
      split; [done| |done|split; congruence|congruence|by eapply evolves_trans].
      rewrite Hb2. cbn [concat]. rewrite (drop_app_ge b) by lia. f_equal. lia.
Qed.

(** The buffer holds the bytes [s], in what is left of the buffers [chunks]. *)
Record db_ok (st : bufstate) (ps F : list Z) (chunks : list (list Z)) (s : list Z) : Prop := {
  dk_store : store st ps F chunks;
  dk_bytes : s = drop (Z.to_nat (db_offset (bs_db st))) (concat chunks);
  dk_off : 0 ≤ db_offset (bs_db st) ≤ Z.of_nat (length (hd [] chunks));
  dk_size : db_size (bs_db st) = Z.of_nat (length s)
}.

Lemma hd_concat_le {A} (l : list (list A)) : (length (hd [] l) ≤ length (concat l))%nat.
Proof. destruct l as [|x l]; cbn; [lia|rewrite length_app; lia]. Qed.

Lemma databuffer_read_lemma st ps F chunks s (pre : list Z) (rest : buffer) sz :
  db_ok st ps F chunks s → 1 ≤ sz ≤ Z.of_nat (length s) → sz ≤ Z.of_nat (length rest) →
  ∃ st' ps' F' chunks',
    databuffer_read (map Some pre ++ rest) (Z.of_nat (length pre)) sz st =
      Ok (map Some (pre ++ take (Z.to_nat sz) s) ++ drop (Z.to_nat sz) rest, st') ∧
    db_ok st' ps' F' chunks' (drop (Z.to_nat sz) s) ∧
    db_header (bs_db st') = db_header (bs_db st) ∧
    bs_freed st' ++ chunks' = bs_freed st ++ chunks ∧
    evolves (mp_nodes (bs_mp st)) (ps ++ F) (mp_nodes (bs_mp st')) (ps' ++ F').
Proof.
  intros [Hs Hb Ho Hsz] Hr Hm. set (off := db_offset (bs_db st)) in *.
  pose proof (hd_concat_le chunks) as Hhd.
  assert (Hls : (length s = length (concat chunks) - Z.to_nat off)%nat) by (by rewrite Hb, length_drop).
  set (st1 := BufState (set_size (db_size (bs_db st) - sz) (bs_db st)) (bs_mp st) (bs_freed st)).
  assert (Hs1 : store st1 ps F chunks) by (destruct Hs; by split).
  assert (Hlen : (length chunks ≤ length (mp_nodes (bs_mp st)))%nat).
  { destruct Hs as [Hc _ Hco _ Hnd]. apply NoDup_app in Hnd as (Hnd & _ & _).
    rewrite <- (Forall2_length _ _ _ Hco). by eapply chain_length. }
  destruct (read_loop chunks (S (length (mp_nodes (bs_mp st)))) st1 ps F pre rest sz)
    as (st' & ps' & F' & chunks' & Erun & [Hs' Hb' Ho' [Hh Hz] Hf Hev] & _);
    [done|intros ->; cbn in *; lia|lia|cbn; fold off; lia|lia|cbn; fold off; lia|].
  exists st', ps', F', chunks'. split.
  - assert (E : databuffer_read (map Some pre ++ rest) (Z.of_nat (length pre)) sz st =
      iterateM (S (length (mp_nodes (bs_mp st)))) read_round
        (map Some pre ++ rest, Z.of_nat (length pre), sz) st1).
    { clear Erun. unfold databuffer_read, set_db. sm. by destruct (Z.geb_spec (db_size (bs_db st)) sz); [|lia]. }
    rewrite E, Erun. cbn. fold off. by rewrite Hb.
  - cbn in Hh, Hz, Hf, Hb'. fold off in Hb'. split; [|done].
    split; [done| |done|rewrite Hz, length_drop; lia].
    rewrite Hb', Hb, drop_drop. f_equal. lia.
Qed.

(** ** Taking a node from the pool *)

Lemma new_pool_lookup nodes j : 0 ≤ j < MESSAGEPOOL →
  (nodes ++ new_pool (Z.of_nat (length nodes))) !! Z.to_nat (Z.of_nat (length nodes) + j) =
  Some (pool_node (Z.of_nat (length nodes)) j).
Proof.
  intros Hj. rewrite lookup_app_r by lia. unfold new_pool.
  replace (Z.to_nat (Z.of_nat (length nodes) + j) - length nodes)%nat with (Z.to_nat j) by lia.
  apply list_lookup_fmap_Some. exists (Z.to_nat j). rewrite Z2Nat.id by lia. split; [done|].
  apply lookup_seq. lia.
Qed.

Lemma new_pool_chain nodes : let base := Z.of_nat (length nodes) in
  chain (nodes ++ new_pool base) (base + 1) (seqZ (base + 1) (MESSAGEPOOL - 1)).
Proof.
  cbv zeta. apply (chain_run _ (Z.of_nat (length nodes)) (Z.to_nat (MESSAGEPOOL - 1)) 1).
  intros j Hj. unfold MESSAGEPOOL in *.
  exists (pool_node (Z.of_nat (length nodes)) j). split; [lia|]. split; [apply new_pool_lookup; unfold MESSAGEPOOL; lia|].
  unfold pool_node, MESSAGEPOOL. destruct (Z.eqb_spec j 0); [lia|]. 
  unfold link_of, message_linked. cbn [fmap option_fmap option_map m_next].
  by f_equal.
Qed.

Lemma take_message_lemma st ps F chunks :
  store st ps F chunks →
  ∃ m mp' F', take_message st = Ok (m, BufState (bs_db st) mp' (bs_freed st)) ∧
    store (BufState (bs_db st) mp' (bs_freed st)) ps F' chunks ∧
    0 ≤ m < Z.of_nat (length (mp_nodes mp')) ∧ m ∉ ps ++ F' ∧
    evolves (mp_nodes (bs_mp st)) (ps ++ F) (mp_nodes mp') (ps ++ m :: F').
Proof.
  intros [Hc Ht Hco Hf Hnd]. unfold take_message, set_mp. sm.
  destruct F as [|m F]; apply chain_inv in Hf as Hinv.
  - rewrite Hinv. set (nodes := mp_nodes (bs_mp st)) in *. set (base := Z.of_nat (length nodes)).
    assert (Hold : ∀ i, 0 ≤ i < base → (nodes ++ new_pool base) !! Z.to_nat i = nodes !! Z.to_nat i)
      by (intros i Hi; apply lookup_app_l; lia).
    assert (Hlen : Z.of_nat (length (nodes ++ new_pool base)) = base + MESSAGEPOOL).
    { unfold new_pool. rewrite length_app, length_map, length_seq. unfold MESSAGEPOOL, base. lia. }
    assert (Hnew : ∀ i, i ∈ seqZ (base + 1) (MESSAGEPOOL - 1) → base + 1 ≤ i)
      by (intros i Hi; apply elem_of_seqZ in Hi; lia).
    exists base, (MessagePool (nodes ++ new_pool base) (base :: mp_pool (bs_mp st)) (base + 1)),
      (seqZ (base + 1) (MESSAGEPOOL - 1)).
    split; [done|]. rewrite app_nil_r in *. assert (Hps := chain_range _ _ _ Hc). fold nodes base in Hps.
    cbn [mp_nodes]. split; [|split; [unfold MESSAGEPOOL in *; lia|split; [|split]]].
    + split; cbn; [|done| |apply new_pool_chain|].
      * apply (chain_frame nodes); [done|]. intros i Hi. by apply Hold, Hps.
      * eapply (contents_frame nodes); [done|]. intros i Hi. by apply Hold, Hps.
      * apply NoDup_app. split; [done|]. split; [|apply NoDup_seqZ].
        intros i Hi%Hps Hi2%Hnew. lia.
    + intros [Hi%Hps|Hi%Hnew]%elem_of_app; lia.
    + intros i [Hi|[->|Hi%Hnew]%elem_of_cons]%elem_of_app; [by left|right; lia|right; lia].
    + intros i Hi _. by apply Hold.
    + rewrite length_app. lia.
  - destruct Hinv as (E & H0 & Hne & n & p & Hn & _ & Hl & Hcf). rewrite E in *.
    destruct (Z.eqb_spec m NULL); [done|]. cbn [negb].
    destruct n as [n|]; [|done]. injection Hl as Hl. rewrite (rd_init_ok _ _ _ H0 Hn).
    eexists m, _, F. split; [reflexivity|]. cbn. pose proof (lookup_lt_Some _ _ _ Hn).
    rewrite <- Permutation_middle in Hnd. apply NoDup_cons in Hnd as [Hni Hnd].
    split; [split; cbn; try done; by rewrite Hl|]. split; [lia|]. split; [done|]. by apply evolves_refl.
Qed.

(** ** Pushing, clearing *)

Lemma last_snoc_inv {A} (l : list A) t : last l = Some t → ∃ l', l = l' ++ [t].
Proof. intros H. by apply last_Some in H. Qed.

(** Appending the node [m], which has been written, behind the others. *)
Lemma append_node_lemma st ps F chunks m data :
  store st ps F chunks → 0 ≤ m → m ∉ ps ++ F → Z.of_nat (length data) ≤ INT_MAX →
  mp_nodes (bs_mp st) !! Z.to_nat m = Some (Some (Message (Some data) (Z.of_nat (length data)) NULL)) →
  ∃ nodes, (if db_head (bs_db st) =? NULL then Ok (mp_nodes (bs_mp st)) else
      t ← rd_init (mp_nodes (bs_mp st)) (db_tail (bs_db st));
      wr (mp_nodes (bs_mp st)) (db_tail (bs_db st)) (Some (Message (m_buffer t) (m_size t) m))) = Ok nodes ∧
    (if db_head (bs_db st) =? NULL then db_tail (bs_db st) = NULL else True) ∧
    (∀ hdr off sz, store (BufState (DataBuffer hdr off sz
        (if db_head (bs_db st) =? NULL then m else db_head (bs_db st)) m)
      (MessagePool nodes (mp_pool (bs_mp st)) (mp_freelist (bs_mp st))) (bs_freed st))
      (ps ++ [m]) F (chunks ++ [data])) ∧
    evolves (mp_nodes (bs_mp st)) (ps ++ m :: F) nodes ((ps ++ [m]) ++ F).
Proof.
  intros [Hc Ht Hco Hf Hnd] H0 Hni Hdata Hm. set (nodes := mp_nodes (bs_mp st)) in *.
  apply not_elem_of_app in Hni as [Hn1 Hn2].
  assert (Hperm : ps ++ m :: F ≡ₚ (ps ++ [m]) ++ F) by (by rewrite <- app_assoc).
  assert (Hnd' : NoDup ((ps ++ [m]) ++ F)).
  { rewrite <- Hperm, <- Permutation_middle. constructor; [by apply not_elem_of_app|done]. }
  assert (Hone : contents nodes [m] [data]) by (constructor; [split; [done|by exists NULL]|constructor]).
  destruct (last ps) as [t|] eqn:El.
  - apply last_snoc_inv in El as [ps0 ->].
    assert (db_head (bs_db st) ≠ NULL) as Hhd.
    { intros E. rewrite E in Hc. apply chain_null in Hc. by destruct ps0. }
    destruct (Z.eqb_spec (db_head (bs_db st)) NULL); [done|]. cbn [default] in Ht.
    apply Forall2_app_inv_l in Hco as (ch0 & ch1 & Hco0 & Hco1 & ->).
    apply Forall2_cons_inv_l in Hco1 as (b & ch2 & (Hb & nx & Hnt) & Hnil & ->).
    apply Forall2_nil_inv_l in Hnil as ->.
    assert (Hpos := chain_range _ _ _ Hc). assert (0 ≤ t < Z.of_nat (length nodes)) as Ht0 by (apply Hpos; set_solver).
    assert (t ∉ ps0) as Htps.
    { apply NoDup_app in Hnd as (Hnd & _). apply NoDup_app in Hnd as (_ & Hd & _).
      intros Hin. apply (Hd t Hin). by left. }
    cbn in Ht. rewrite Ht. rewrite (rd_init_ok _ _ _ (proj1 Ht0) Hnt), bind_ok, wr_ok by done.
    eexists. split; [reflexivity|]. split; [done|]. cbn [m_buffer m_size]. split.
    + intros hdr off sz. assert (Hmt : m ≠ t) by set_solver. split; cbn; [| | | |done].
      * eapply chain_link; [exact Hc| |apply list_lookup_insert_eq; lia|done|done| |].
        -- intros i Hi. assert (0 ≤ i) by (apply Hpos; set_solver).
           rewrite list_lookup_insert_ne; [done|]. intros E. apply Htps. by replace t with i by lia.
        -- rewrite list_lookup_insert_ne; [exact Hm|]. intros E. lia.
        -- done.
      * by rewrite last_snoc.
      * assert (0 ≤ t) by lia. apply Forall2_app; [apply Forall2_app|].
        -- apply contents_insert; [done|done| |done]. intros q Hq. apply Hpos. set_solver.
        -- constructor; [|constructor]. split; [done|]. exists m. apply list_lookup_insert_eq. lia.
        -- apply contents_insert; [done|done| |set_solver]. intros q Hq. set_solver.
      * apply chain_insert; [done|lia|]. apply NoDup_app in Hnd as (_ & Hd & _). apply Hd. set_solver.
    + apply evolves_insert; [lia|set_solver|done].
  - apply last_None in El as ->. apply chain_inv in Hc. rewrite Hc in *. cbn [Z.eqb NULL Pos.eqb]. cbn in Ht.
    inversion Hco; subst. exists nodes. split; [done|]. split; [done|]. cbn [app]. split; [|by apply evolves_refl].
    intros hdr off sz. split; cbn; try done. eapply chain_cons; [done|exact Hm|reflexivity|constructor].
Qed.

Lemma databuffer_push_lemma st ps F chunks s data :
  db_ok st ps F chunks s → Z.of_nat (length s) + Z.of_nat (length data) ≤ INT_MAX →
  ∃ st' ps' F', databuffer_push data (Z.of_nat (length data)) st = Ok ((), st') ∧
    db_ok st' ps' F' (chunks ++ [data]) (s ++ data) ∧
    db_header (bs_db st') = db_header (bs_db st) ∧ bs_freed st' = bs_freed st ∧
    evolves (mp_nodes (bs_mp st)) (ps ++ F) (mp_nodes (bs_mp st')) (ps' ++ F').
Proof.
  intros [Hs Hb Ho Hsz] Hlen. destruct (take_message_lemma st ps F chunks Hs)
    as (m & mp1 & F1 & Etake & Hs1 & [Hm0 Hmlt] & Hni & Hev1).
  set (node := Some (Message (Some data) (Z.of_nat (length data)) NULL)).
  set (nodes2 := <[Z.to_nat m := node]> (mp_nodes mp1)).
  set (st2 := BufState (bs_db st) (MessagePool nodes2 (mp_pool mp1) (mp_freelist mp1)) (bs_freed st)).
  pose proof Hni as [Hn1 Hn2]%not_elem_of_app.
  assert (Hs2 : store st2 ps F1 chunks).
  { destruct Hs1 as [Hc Ht Hco Hf Hnd]. cbn in *. split; cbn; [by apply chain_insert|done| |by apply chain_insert|done].
    apply contents_insert; [done|done| |done]. intros q Hq. by apply (chain_range _ _ _ Hc). }
  assert (Hnode : nodes2 !! Z.to_nat m = Some node) by (apply list_lookup_insert_eq; lia).
  destruct (append_node_lemma st2 ps F1 chunks m data Hs2 Hm0 Hni ltac:(lia) Hnode)
    as (nodes3 & Enodes & Htail & Hs3 & Hev3). cbn in Enodes, Htail, Hs3, Hev3.
  assert (Hchk : int_chk (db_size (bs_db st) + Z.of_nat (length data)) =
    Ok (db_size (bs_db st) + Z.of_nat (length data))).
  { rewrite Hsz. apply int_chk_ok. unfold INT_MIN, INT_MAX in *. lia. }
  pose proof (hd_concat_le chunks) as Hhd.
  exists (BufState (DataBuffer (db_header (bs_db st)) (db_offset (bs_db st))
      (db_size (bs_db st) + Z.of_nat (length data))
      (if db_head (bs_db st) =? NULL then m else db_head (bs_db st)) m)
    (MessagePool nodes3 (mp_pool mp1) (mp_freelist mp1)) (bs_freed st)), (ps ++ [m]), F1. split.
  - unfold databuffer_push. rewrite (sbind_ok _ _ _ _ _ Etake). clear Etake. unfold set_db, set_mp.
    rewrite gets_bind. cbn [bs_mp]. rewrite (lift_bind (wr _ _ _) _ _ nodes2) by (apply wr_ok; lia).
    rewrite gets_bind. cbn [bs_db]. rewrite (lift_bind _ _ _ _ Hchk). cbn [set_size db_head db_tail].
    destruct (Z.eqb_spec (db_head (bs_db st)) NULL) as [E|E].
    + rewrite Htail. injection Enodes as <-. reflexivity.
    + apply bind_ok_inv in Enodes as (t & Et & Ew). rewrite (lift_bind _ _ _ _ Et), (lift_bind _ _ _ _ Ew).
      reflexivity.
  - split; [|split; [done|split; [done|]]].
    + split; cbn.
      * apply Hs3.
      * rewrite concat_app. cbn. rewrite app_nil_r, drop_app_le by lia. by rewrite Hb.
      * destruct chunks; [cbn in *; lia|done].
      * rewrite length_app. lia.
    + cbn. eapply evolves_trans; [exact Hev1|]. eapply evolves_trans; [|exact Hev3].
      apply evolves_insert; [done|set_solver|done].
Qed.

Lemma clear_loop chunks : ∀ fuel st ps F,
  store st ps F chunks → (length chunks < fuel)%nat →
  ∃ st' F', iterateM fuel clear_step () st = Ok ((), st') ∧ store st' [] F' [] ∧
    bs_freed st' = bs_freed st ++ chunks ∧
    evolves (mp_nodes (bs_mp st)) (ps ++ F) (mp_nodes (bs_mp st')) F'.
Proof.
  induction chunks as [|b chunks IH]; intros fuel st ps F Hs Hf; (destruct fuel as [|fuel]; [cbn in Hf; lia|]);
    cbn [iterateM]; pose proof (so_cont _ _ _ _ Hs) as Hco; pose proof (so_chain _ _ _ _ Hs) as Hc.
  - inversion Hco; subst. apply chain_inv in Hc. exists st, F. split.
    { unfold clear_step. sm. by rewrite Hc. }
    split; [done|]. split; [by rewrite app_nil_r|]. by apply evolves_refl.
  - destruct ps as [|p ps]; [inversion Hco|]. apply chain_inv in Hc as (_ & _ & Hne & _).
    destruct (return_message_lemma st p ps F b chunks Hs) as (st1 & E1 & Hs1 & Hf1 & _ & _ & _ & Hev1 & _).
    assert (clear_step () st = Ok (Continue (), st1)) as E.
    { unfold clear_step. rewrite gets_bind. destruct (Z.eqb_spec (db_head (bs_db st)) NULL); [done|].
      by rewrite (sbind_ok _ _ _ _ _ E1). }
    rewrite (sbind_ok _ _ _ _ _ E). destruct (IH fuel st1 ps (p :: F) Hs1) as (st' & F' & Erun & Hs' & Hf' & Hev');
      [cbn in Hf; lia|].
    exists st', F'. split; [done|]. split; [done|]. split; [by rewrite Hf', Hf1, <- app_assoc|].
    by eapply evolves_trans.
Qed.

Lemma store_length st ps F chunks : store st ps F chunks → (length chunks ≤ length (mp_nodes (bs_mp st)))%nat.
Proof.
  intros [Hc _ Hco _ Hnd]. apply NoDup_app in Hnd as (Hnd & _ & _).
  rewrite <- (Forall2_length _ _ _ Hco). by eapply chain_length.
Qed.

Lemma databuffer_clear_lemma st ps F chunks s :
  db_ok st ps F chunks s →
  ∃ st' F', databuffer_clear st = Ok ((), st') ∧ db_ok st' [] F' [] [] ∧
    bs_db st' = databuffer_zero ∧ bs_freed st' = bs_freed st ++ chunks ∧
    evolves (mp_nodes (bs_mp st)) (ps ++ F) (mp_nodes (bs_mp st')) F'.
Proof.
  intros [Hs _ _ _]. pose proof (store_length _ _ _ _ Hs) as Hlen.
  destruct (clear_loop chunks (S (length (mp_nodes (bs_mp st)))) st ps F Hs) as (st' & F' & Erun & Hs' & Hf & Hev); [lia|].
  eexists (BufState databuffer_zero (bs_mp st') (bs_freed st')), F'. split.
  { unfold databuffer_clear. rewrite gets_bind, (sbind_ok _ _ _ _ _ Erun). done. }
  split; [|done]. destruct Hs'. split; [|done|cbn; lia|done]. split; cbn; try done. constructor.
Qed.

(** ** Headers *)

(** The length in the header bytes [l]. *)
Definition header_value (header_size : Z) (l : list Z) : Z :=
  if header_size =? 2 then nth 0 l 0 * 2 ^ 8 + nth 1 l 0
  else i32 (nth 0 l 0 * 2 ^ 24 + nth 1 l 0 * 2 ^ 16 + nth 2 l 0 * 2 ^ 8 + nth 3 l 0).

Definition header_ok (header_size : Z) : Prop := header_size = 2 ∨ header_size = 4.

Lemma header_length_lemma hs l r : header_ok hs → length l = Z.to_nat hs → Forall byte l →
  header_length hs (map Some l ++ r) = Ok (header_value hs l).
Proof.
  intros [-> | ->] Hl Hb; unfold header_length, header_value, rd_init.
  - destruct l as [|b0 [|b1 [|]]]; try done.
    apply Forall_cons in Hb as [H0 Hb]. apply Forall_cons in Hb as [H1 _].
    rewrite (rd_ok _ 0 (Some b0)), (rd_ok _ 1 (Some b1)) by (lia || done).
    cbn [mbind res_bind or_fault Z.eqb Pos.eqb nth]. f_equal. unfold byte in *.
    rewrite Z.lor_comm, lor_shiftl by lia. lia.
  - destruct l as [|b0 [|b1 [|b2 [|b3 [|]]]]]; try done.
    apply Forall_cons in Hb as [H0 Hb]. apply Forall_cons in Hb as [H1 Hb].
    apply Forall_cons in Hb as [H2 Hb]. apply Forall_cons in Hb as [H3 _].
    rewrite (rd_ok _ 0 (Some b0)), (rd_ok _ 1 (Some b1)), (rd_ok _ 2 (Some b2)), (rd_ok _ 3 (Some b3))
      by (lia || done).
    cbn [mbind res_bind or_fault Z.eqb Pos.eqb nth].
    f_equal. unfold byte in *.
    assert (i32 (Z.shiftl b0 24) = Z.shiftl (if b0 <? 128 then b0 else b0 - 256) 24) as ->.
    { rewrite !Z.shiftl_mul_pow2 by lia. unfold i32. destruct (Z.ltb_spec b0 128).
      - rewrite Z.mod_small; lia.
      - rewrite <- (Z_mod_plus_full _ (-1)), Z.mod_small; lia. }
    set (a := if b0 <? 128 then b0 else b0 - 256).
    rewrite (Z.lor_comm _ (Z.shiftl b1 16)), (lor_shiftl _ a 24) by (rewrite ?Z.shiftl_mul_pow2; lia).
    replace (Z.shiftl b1 16 + a * 2 ^ 24) with (Z.shiftl (b1 + a * 2 ^ 8) 16) by (rewrite !Z.shiftl_mul_pow2; lia).
    rewrite (Z.lor_comm _ (Z.shiftl b2 8)), (lor_shiftl _ _ 16) by (rewrite ?Z.shiftl_mul_pow2; lia).
    replace (Z.shiftl b2 8 + (b1 + a * 2 ^ 8) * 2 ^ 16) with (Z.shiftl (b2 + (b1 + a * 2 ^ 8) * 2 ^ 8) 8)
      by (rewrite !Z.shiftl_mul_pow2; lia).
    rewrite Z.lor_comm, lor_shiftl by lia. unfold i32, a. destruct (Z.ltb_spec b0 128).
    + rewrite Z.mod_small; lia.
    + rewrite <- (Z_mod_plus_full _ (-1)), Z.mod_small; lia.
Qed.

(** What [databuffer_readheader] answers for a header and the bytes behind it. *)
Definition header_answer (h : Z) (s : list Z) : Z := if Z.of_nat (length s) <? h then -1 else h.

Lemma readheader_known st ps F chunks s hs :
  db_ok st ps F chunks s → db_header (bs_db st) ≠ 0 →
  databuffer_readheader hs st = Ok (header_answer (db_header (bs_db st)) s, st).
Proof.
  intros [_ _ _ Hsz] Hh. unfold databuffer_readheader. sm. destruct (Z.eqb_spec (db_header (bs_db st)) 0); [done|].
  rewrite Hsz. unfold header_answer. by destruct (_ <? _).
Qed.

Lemma readheader_short st ps F chunks s hs :
  db_ok st ps F chunks s → db_header (bs_db st) = 0 → Z.of_nat (length s) < hs →
  databuffer_readheader hs st = Ok (-1, st).
Proof.
  intros [_ _ _ Hsz] Hh Hlt. unfold databuffer_readheader. sm. rewrite Hh, Hsz. cbn [Z.eqb].
  by destruct (Z.ltb_spec (Z.of_nat (length s)) hs); [|lia].
Qed.

Lemma readheader_full st ps F chunks s hs :
  db_ok st ps F chunks s → db_header (bs_db st) = 0 → header_ok hs → hs ≤ Z.of_nat (length s) →
  Forall byte s →
  ∃ st' ps' F' chunks', let h := header_value hs (take (Z.to_nat hs) s) in
    databuffer_readheader hs st = Ok (header_answer h (drop (Z.to_nat hs) s), st') ∧
    db_ok st' ps' F' chunks' (drop (Z.to_nat hs) s) ∧ db_header (bs_db st') = h ∧
    bs_freed st' ++ chunks' = bs_freed st ++ chunks ∧
    evolves (mp_nodes (bs_mp st)) (ps ++ F) (mp_nodes (bs_mp st')) (ps' ++ F').
Proof.
  intros Hd Hh Hhs Hle Hb. assert (Hhs' : 1 ≤ hs ≤ 4) by (destruct Hhs; lia).
  destruct (databuffer_read_lemma st ps F chunks s [] (replicate 4 None) hs Hd) as (st1 & ps1 & F1 & ch1 & Er & Hd1 & _ & Hf1 & Hev1);
    [lia|cbn; lia|]. cbn [map app] in Er. change (Z.of_nat (length [])) with 0 in Er.
  rewrite drop_replicate in Er.
  set (h := header_value hs (take (Z.to_nat hs) s)).
  assert (Ehl : header_length hs (map Some (take (Z.to_nat hs) s) ++ replicate (4 - Z.to_nat hs) None) = Ok h)
    by (apply header_length_lemma; [done|rewrite length_take; lia|by apply Forall_take]).
  set (st2 := BufState (set_header h (bs_db st1)) (bs_mp st1) (bs_freed st1)).
  assert (Hd2 : db_ok st2 ps1 F1 ch1 (drop (Z.to_nat hs) s)) by (destruct Hd1 as [[] ? ? ?]; split; [by split|done..]).
  exists st2, ps1, F1, ch1. split; [|done].
  unfold databuffer_readheader. rewrite gets_bind. cbv zeta. rewrite Hh, (dk_size _ _ _ _ _ Hd). cbn [Z.eqb].
  destruct (Z.ltb_spec (Z.of_nat (length s)) hs); [lia|]. rewrite (sbind_ok _ _ _ _ _ Er), (lift_bind _ _ _ _ Ehl).
  rewrite gets_bind. unfold set_db. rewrite modify_bind, gets_bind. fold st2. cbn [bs_db st2].
  assert (db_size (bs_db st2) = Z.of_nat (length (drop (Z.to_nat hs) s))) as Esz by apply Hd2.
  cbn in Esz. cbn [set_header db_size db_header]. rewrite Esz. unfold header_answer. by destruct (_ <? _).
Qed.
