(* ===== verification/Gate.v ===== *)
(** [service-src/service_gate.c]: the service that accepts the clients' connections.

    The gate listens on a port, keeps the state of every connection in a slot of a table,
    cuts the bytes a client sends into packages (a 2 or 4 byte big-endian length and that
    many bytes) and hands each package to the broker, the connection's agent or the
    watchdog.  What the gate asks of the runtime is recorded in order as a list of
    actions: the calls of [skynet_send], [skynet_error] and the socket functions, and the
    buffers it frees. *)

From S2P Require Import Prelude CString MessageQueue Node Server.
From S2P Require Import Chain Frames HashId DataBuffer.
Open Scope Z_scope.

Definition BACKLOG : Z := 32.

Record connection : Set := Connection {
  cn_id : Z;
  cn_agent : Z;
  cn_client : Z;
  cn_remote_name : list Z;
  cn_buffer : databuffer
}.

Record gate : Set := Gate {
  g_listen_id : Z;
  g_watchdog : Z;
  g_broker : Z;
  g_client_tag : Z;
  g_header_size : Z;
  g_max_connection : Z;
  g_hash : hashid;
  g_conn : list connection;
  g_mp : messagepool
}.

Inductive gaction : Set :=
| GSend (src destination type session : Z) (payload : list Z)
| GError (text : cstring)
| GSocketClose (id : Z)
| GSocketStart (id : Z)
| GSocketListen (host : cstring) (port backlog : Z)
| GSocketSend (id : Z) (bytes : list Z)
| GCallback
| GFree (buf : list Z).

(** The service and what it has done so far. *)
Record gstate : Set := GState { gs : gate; gacts : list gaction }.

(** What the gate reads from the runtime: the handle of a name and the id of a new
    listening socket. *)
Class GateRuntime : Set := {
  rt_queryname : cstring → Z;
  rt_listen : cstring → Z → Z
}.

Definition gact (a : gaction) : SM gstate unit := modify (λ s, GState (gs s) (gacts s ++ [a])).
Definition getG : SM gstate gate := gets gs.
Definition putG (g : gate) : SM gstate unit := modify (λ s, GState g (gacts s)).

Definition set_listen (id : Z) (g : gate) : gate :=
  Gate id (g_watchdog g) (g_broker g) (g_client_tag g) (g_header_size g) (g_max_connection g)
    (g_hash g) (g_conn g) (g_mp g).
Definition set_broker (b : Z) (g : gate) : gate :=
  Gate (g_listen_id g) (g_watchdog g) b (g_client_tag g) (g_header_size g) (g_max_connection g)
    (g_hash g) (g_conn g) (g_mp g).
Definition set_watchdog (w : Z) (g : gate) : gate :=
  Gate (g_listen_id g) w (g_broker g) (g_client_tag g) (g_header_size g) (g_max_connection g)
    (g_hash g) (g_conn g) (g_mp g).
Definition set_table (h : hashid) (conn : list connection) (mp : messagepool) (g : gate) : gate :=
  Gate (g_listen_id g) (g_watchdog g) (g_broker g) (g_client_tag g) (g_header_size g)
    (g_max_connection g) h conn mp.

Definition connection_zero : connection := Connection 0 0 0 (replicate 32 0) databuffer_zero.
Definition set_cn_id (i : Z) (c : connection) : connection :=
  Connection i (cn_agent c) (cn_client c) (cn_remote_name c) (cn_buffer c).

Definition gate_create : gate := Gate (-1) 0 0 0 0 0 hashid_clear [] messagepool_zero.

(** An operation on the buffer of the connection in a slot. *)
Definition on_buffer {A} (slot : Z) (m : SM bufstate A) : SM gstate A := λ s,
  let g := gs s in
  c ← rd (g_conn g) slot;
  '(a, b) ← m (BufState (cn_buffer c) (g_mp g) []);
  conn ← wr (g_conn g) slot (Connection (cn_id c) (cn_agent c) (cn_client c) (cn_remote_name c) (bs_db b));
  Ok (a, GState (set_table (g_hash g) conn (bs_mp b) g) (gacts s ++ map GFree (bs_freed b))).

(** [_parm]: the argument of a command moves to the start of the buffer. *)
Definition parm_skip (msg : list Z) (sz command_sz : Z) : res (loop Z Z) :=
  if command_sz <? sz then
    c ← rd msg command_sz;
    if negb (c =? 32) then Ok (Break command_sz) else Ok (Continue (command_sz + 1))
  else Ok (Break command_sz).

Definition parm_copy (command_sz i : Z) (msg : list Z) : res (list Z) :=
  c ← rd msg i; wr msg (i - command_sz) c.

Definition parm (msg : list Z) (sz command_sz : Z) : res (list Z) :=
  command_sz ← iterate (S (Z.to_nat (sz - command_sz))) (parm_skip msg sz) command_sz;
  msg ← for_range (Z.to_nat (sz - command_sz)) command_sz (parm_copy command_sz) msg;
  wr msg (sz - command_sz) 0.

(** The string a pointer into a buffer points to. *)
Fixpoint c_string (l : list Z) : option cstring :=
  match l with
  | [] => None
  | x :: l => if x =? 0 then Some [] else cons x <$> c_string l
  end.

Definition c_str_at (buf : list Z) (p : Z) : res cstring :=
  if bool_decide (0 ≤ p) then or_fault OutOfBounds (c_string (drop (Z.to_nat p) buf))
  else Fault OutOfBounds.

(** [strsep(&p, " ")] in a buffer: where the next token starts. *)
Fixpoint index_of (c : Z) (s : cstring) : option Z :=
  match s with
  | [] => None
  | x :: s => if x =? c then Some 0 else Z.add 1 <$> index_of c s
  end.

Definition strsep_at (buf : list Z) (p : Z) : res (list Z * option Z) :=
  s ← c_str_at buf p;
  match index_of 32 s with
  | Some k => buf ← wr buf (p + k) 0; Ok (buf, Some (p + k + 1))
  | None => Ok (buf, None)
  end.

(** [memcmp(command, literal, n) == 0], with the bytes read up to the first difference. *)
Fixpoint memcmp_eq (n : nat) (a b : list Z) : res bool :=
  match n with
  | O => Ok true
  | S n =>
      match a, b with
      | x :: a, y :: b => if x =? y then memcmp_eq n a b else Ok false
      | _, _ => Fault OutOfBounds
      end
  end.

Definition forward_agent (fd agentaddr clientaddr : Z) : SM gstate unit :=
  g ← getG;
  slot ← lift (hashid_lookup (g_hash g) fd);
  if slot >=? 0 then
    c ← lift (rd (g_conn g) slot);
    conn ← lift (wr (g_conn g) slot
                   (Connection (cn_id c) agentaddr clientaddr (cn_remote_name c) (cn_buffer c)));
    putG (set_table (g_hash g) conn (g_mp g) g)
  else mret ().

(** The length of the first word. *)
Definition word_step (command : list Z) (sz i : Z) : res (loop Z Z) :=
  if i <? sz then
    c ← rd command i;
    if c =? 32 then Ok (Break i) else Ok (Continue (i + 1))
  else Ok (Break i).

Section gate.
Context `{!GateRuntime}.

Definition ctrl_forward (tmp : list Z) : SM gstate unit :=
  '(tmp, next) ← lift (strsep_at tmp 0);
  match next with
  | None => mret ()
  | Some agent =>
      idstr ← lift (c_str_at tmp 0);
      let id := i32 (strtol idstr 10) in
      '(tmp, next) ← lift (strsep_at tmp agent);
      match next with
      | None => mret ()
      | Some client =>
          agentstr ← lift (c_str_at tmp (agent + 1));
          clientstr ← lift (c_str_at tmp (client + 1));
          forward_agent id (u32 (strtoul agentstr 16)) (u32 (strtoul clientstr 16))
      end
  end.

Definition ctrl (msg : list Z) : SM gstate unit :=
  let sz := Z.of_nat (length msg) in
  let command := msg ++ [0] in
  if sz =? 0 then mret ()
  else
    i ← lift (iterate (S (length msg)) (word_step command sz) 0);
    let is_cmd (lit : string) := lift (memcmp_eq (Z.to_nat i) command (str lit ++ [0])) in
    kick ← is_cmd "kick"%string;
    if kick : bool then
      tmp ← lift (parm command sz i);
      s ← lift (c_str_at tmp 0);
      let uid := i32 (strtol s 10) in
      g ← getG;
      slot ← lift (hashid_lookup (g_hash g) uid);
      if slot >=? 0 then gact (GSocketClose uid) else mret ()
    else
    forward ← is_cmd "forward"%string;
    if forward : bool then tmp ← lift (parm command sz i); ctrl_forward tmp
    else
    broker ← is_cmd "broker"%string;
    if broker : bool then
      tmp ← lift (parm command sz i);
      s ← lift (c_str_at tmp 0);
      g ← getG;
      putG (set_broker (rt_queryname s) g)
    else
    start ← is_cmd "start"%string;
    if start : bool then
      tmp ← lift (parm command sz i);
      s ← lift (c_str_at tmp 0);
      let uid := i32 (strtol s 10) in
      g ← getG;
      slot ← lift (hashid_lookup (g_hash g) uid);
      if slot >=? 0 then gact (GSocketStart uid) else mret ()
    else
    close ← is_cmd "close"%string;
    if close : bool then
      g ← getG;
      if g_listen_id g >=? 0 then
        _ ← gact (GSocketClose (g_listen_id g));
        putG (set_listen (-1) g)
      else mret ()
    else
      s ← lift (c_str_at command 0);
      gact (GError (str "[gate] Unkown command : " ++ s)).

(** [tmp] has room for 1024 bytes; the length sent is that of the whole text. *)
Definition report (data : cstring) : SM gstate unit :=
  g ← getG;
  if g_watchdog g =? 0 then mret ()
  else if bool_decide (Z.of_nat (length data) < 1024) then
    gact (GSend 0 (g_watchdog g) PTYPE_TEXT 0 data)
  else lift (Fault OutOfBounds).

(** The first [n] bytes of a block, all of them written. *)
Definition init_bytes (buf : buffer) (n : Z) : res (list Z) :=
  if bool_decide (0 ≤ n ≤ Z.of_nat (length buf)) then
    mapM (or_fault Uninitialised) (take (Z.to_nat n) buf)
  else Fault OutOfBounds.

Definition forward (slot size : Z) : SM gstate unit :=
  g ← getG;
  c ← lift (rd (g_conn g) slot);
  if negb (g_broker g =? 0) then
    temp ← on_buffer slot (databuffer_read (replicate (Z.to_nat size) None) 0 size);
    l ← lift (init_bytes temp size);
    gact (GSend 0 (g_broker g) (Z.lor (g_client_tag g) PTYPE_TAG_DONTCOPY) 1 l)
  else if negb (cn_agent c =? 0) then
    temp ← on_buffer slot (databuffer_read (replicate (Z.to_nat size) None) 0 size);
    l ← lift (init_bytes temp size);
    gact (GSend (cn_client c) (cn_agent c) (Z.lor (g_client_tag g) PTYPE_TAG_DONTCOPY) 1 l)
  else if negb (g_watchdog g =? 0) then
    let text := take 31 (print_d (cn_id c) ++ str " data ") in
    let n := Z.of_nat (length (print_d (cn_id c) ++ str " data ")) in
    tmp ← lift (wr_at (replicate (Z.to_nat (size + 32)) None) 0 (text ++ [0]));
    tmp ← on_buffer slot (databuffer_read tmp n size);
    l ← lift (init_bytes tmp (size + n));
    gact (GSend 0 (g_watchdog g) (Z.lor PTYPE_TEXT PTYPE_TAG_DONTCOPY) 1 l)
  else mret ().

(** The loop body for a package of [size] bytes. *)
Definition dispatch_size (slot fd size : Z) : SM gstate (loop unit unit) :=
  if size <? 0 then mret (Break ())
  else if size >? 0 then
    if size >=? 0x1000000 then
      _ ← on_buffer slot databuffer_clear;
      _ ← gact (GSocketClose fd);
      _ ← gact (GError (str "Recv socket message > 16M"));
      mret (Break ())
    else
      _ ← forward slot size;
      _ ← on_buffer slot databuffer_reset;
      mret (Continue ())
  else mret (Continue ()).

Definition dispatch_round (slot fd : Z) (_ : unit) : SM gstate (loop unit unit) :=
  g ← getG;
  size ← on_buffer slot (databuffer_readheader (g_header_size g));
  dispatch_size slot fd size.

(** Every round but the first two takes a header off the buffer. *)
Definition dispatch_message (slot fd : Z) (data : list Z) (sz : Z) : SM gstate unit :=
  _ ← on_buffer slot (databuffer_push data sz);
  g ← getG;
  c ← lift (rd (g_conn g) slot);
  iterateM (2 + Z.to_nat (db_size (cn_buffer c))) (dispatch_round slot fd) ().

(** A socket event: [ev_buffer] has the bytes of a DATA event, [ev_name] the bytes behind
    the message. *)
Record gate_event : Set := GateEvent {
  ev_type : Z;
  ev_id : Z;
  ev_ud : Z;
  ev_buffer : list Z;
  ev_name : list Z
}.

(** [memcpy] into an array of bytes. *)
Definition poke (l : list Z) (bytes : list Z) : res (list Z) :=
  if bool_decide (length bytes ≤ length l)%nat then Ok (bytes ++ drop (length bytes) l)
  else Fault OutOfBounds.

Definition socket_data (e : gate_event) : SM gstate unit :=
  g ← getG;
  slot ← lift (hashid_lookup (g_hash g) (ev_id e));
  if slot >=? 0 then dispatch_message slot (ev_id e) (ev_buffer e) (ev_ud e)
  else
    _ ← gact (GError (str "Drop unknown connection " ++ print_d (ev_id e) ++ str " message"));
    _ ← gact (GSocketClose (ev_id e));
    gact (GFree (ev_buffer e)).

Definition socket_connect (e : gate_event) : SM gstate unit :=
  g ← getG;
  if ev_id e =? g_listen_id g then mret ()
  else
    slot ← lift (hashid_lookup (g_hash g) (ev_id e));
    if slot <? 0 then
      _ ← gact (GError (str "Close unknown connection " ++ print_d (ev_id e)));
      gact (GSocketClose (ev_id e))
    else mret ().

Definition socket_close (e : gate_event) : SM gstate unit :=
  g ← getG;
  '(slot, hash) ← lift (hashid_remove (g_hash g) (ev_id e));
  _ ← putG (set_table hash (g_conn g) (g_mp g) g);
  if slot >=? 0 then
    _ ← on_buffer slot databuffer_clear;
    g ← getG;
    conn ← lift (wr (g_conn g) slot (set_cn_id (-1) connection_zero));
    _ ← putG (set_table (g_hash g) conn (g_mp g) g);
    report (print_d (ev_id e) ++ str " close")
  else mret ().

Definition socket_accept (e : gate_event) : SM gstate unit :=
  g ← getG;
  _ ← lift (assertb (g_listen_id g =? ev_id e));
  if hashid_full (g_hash g) then gact (GSocketClose (ev_ud e))
  else
    '(slot, hash) ← lift (hashid_insert (g_hash g) (ev_ud e));
    c ← lift (rd (g_conn g) slot);
    let nm := take 31 (ev_name e) in
    remote ← lift (poke (cn_remote_name c) (nm ++ [0]));
    conn ← lift (wr (g_conn g) slot
                   (Connection (ev_ud e) (cn_agent c) (cn_client c) remote (cn_buffer c)));
    _ ← putG (set_table hash conn (g_mp g) g);
    s ← lift (c_str_at remote 0);
    _ ← report (print_d (ev_ud e) ++ str " open " ++ print_d (ev_ud e) ++ str " " ++ s ++ str ":0");
    gact (GError (str "socket open: " ++ print_x (u32 (ev_ud e)))).

Definition dispatch_socket_message (e : gate_event) : SM gstate unit :=
  if ev_type e =? SKYNET_SOCKET_TYPE_DATA then socket_data e
  else if ev_type e =? SKYNET_SOCKET_TYPE_CONNECT then socket_connect e
  else if (ev_type e =? SKYNET_SOCKET_TYPE_CLOSE) || (ev_type e =? SKYNET_SOCKET_TYPE_ERROR) then
    socket_close e
  else if ev_type e =? SKYNET_SOCKET_TYPE_ACCEPT then socket_accept e
  else if ev_type e =? SKYNET_SOCKET_TYPE_WARNING then
    gact (GError (str "fd (" ++ print_d (ev_id e) ++ str ") send buffer (" ++ print_d (ev_ud e) ++ str ")K"))
  else mret ().

(** A message for the gate: bytes, or a socket event. *)
Inductive gate_payload : Set :=
| GBytes (l : list Z)
| GSocket (e : gate_event).

(** The id in the last four bytes of a client message. *)
Definition client_uid (idbuf : list Z) : Z :=
  u32 (Z.lor (Z.lor (Z.lor (nth 0 idbuf 0) (Z.shiftl (nth 1 idbuf 0) 8)) (Z.shiftl (nth 2 idbuf 0) 16))
         (i32 (Z.shiftl (nth 3 idbuf 0) 24))).

Definition client_message (src : Z) (msg : list Z) : SM gstate Z :=
  let sz := length msg in
  if (sz <=? 4)%nat then
    _ ← gact (GError (str "Invalid client message from " ++ print_x src)); mret 0
  else
    let uid := i32 (client_uid (drop (sz - 4) msg)) in
    g ← getG;
    slot ← lift (hashid_lookup (g_hash g) uid);
    if slot >=? 0 then
      _ ← gact (GSocketSend uid (take (sz - 4) msg)); mret 1
    else
      _ ← gact (GError (str "Invalid client id " ++ print_d uid ++ str " from " ++ print_x src)); mret 0.

Definition cb (type src : Z) (msg : gate_payload) : SM gstate Z :=
  if type =? PTYPE_TEXT then
    match msg with GBytes l => _ ← ctrl l; mret 0 | _ => lift (Fault BadPointer) end
  else if type =? PTYPE_CLIENT then
    match msg with GBytes l => client_message src l | _ => lift (Fault BadPointer) end
  else if type =? PTYPE_SOCKET then
    match msg with GSocket e => _ ← dispatch_socket_message e; mret 0 | _ => lift (Fault BadPointer) end
  else mret 0.

Definition start_listen (listen_addr : cstring) : SM gstate Z :=
  let portstr := strchr listen_addr 58 in
  let port := i32 (strtol (match portstr with None => listen_addr | Some p => tl p end) 10) in
  if port <=? 0 then
    _ ← gact (GError (str "Invalid gate address " ++ listen_addr)); mret 1
  else
    let host := match portstr with
                | None => []
                | Some p => take (length listen_addr - length p) listen_addr
                end in
    _ ← gact (GSocketListen host port BACKLOG);
    g ← getG;
    let id := rt_listen host port in
    _ ← putG (set_listen id g);
    if id <? 0 then mret 1
    else _ ← gact (GSocketStart id); mret 0.

(** The fields of [sscanf(parm, "%c %s %s %d %d", ...)]. *)
Definition scan_d (s : cstring) : option (Z * cstring) :=
  '(v, rest) ← scan_number s; Some (i32 (Z.max (- 2 ^ 63) (Z.min (2 ^ 63 - 1) v)), rest).

Definition scan_parm (parm : cstring) : option (Z * cstring * cstring * Z * Z) :=
  match parm with
  | [] => None
  | header :: s =>
      '(watchdog, s) ← scan_s s;
      '(binding, s) ← scan_s s;
      '(client_tag, s) ← scan_d s;
      Some (header, watchdog, binding, client_tag, from_option fst 0 (scan_d s))
  end.

Definition gate_init (parm : option cstring) : SM gstate Z :=
  match parm with
  | None => mret 1
  | Some parm =>
      match scan_parm parm with
      | None => _ ← gact (GError (str "Invalid gate parm " ++ parm)); mret 1
      | Some (header, watchdog, binding, client_tag, max) =>
          if max <=? 0 then _ ← gact (GError (str "Need max connection")); mret 1
          else if negb (header =? 83) && negb (header =? 76) then
            _ ← gact (GError (str "Invalid data header style")); mret 1
          else
            let client_tag := if client_tag =? 0 then PTYPE_CLIENT else client_tag in
            let wd := if char0 watchdog =? 33 then 0 else rt_queryname watchdog in
            g ← getG;
            _ ← putG (set_watchdog wd g);
            if negb (char0 watchdog =? 33) && (wd =? 0) then
              _ ← gact (GError (str "Invalid watchdog " ++ watchdog)); mret 1
            else
              hash ← lift (hashid_init max);
              g ← getG;
              _ ← putG (Gate (g_listen_id g) (g_watchdog g) (g_broker g) client_tag
                          (if header =? 83 then 2 else 4) max hash
                          (replicate (Z.to_nat max) (set_cn_id (-1) connection_zero)) (g_mp g));
              _ ← gact GCallback;
              start_listen binding
      end
  end.

(** The service ends: sockets are closed, the pool, the table and the slots are freed. *)
Definition release_step (i : Z) : SM gstate unit :=
  g ← getG;
  c ← lift (rd (g_conn g) i);
  if cn_id c >=? 0 then gact (GSocketClose (cn_id c)) else mret ().

Definition gate_release : SM gstate unit :=
  g ← getG;
  _ ← for_rangeM (Z.to_nat (g_max_connection g)) 0 release_step;
  _ ← (if g_listen_id g >=? 0 then gact (GSocketClose (g_listen_id g)) else mret ());
  putG (set_table hashid_clear [] (messagepool_free (g_mp g)) g).

End gate.
