(* ===== verification/GateText.v ===== *)
(** The text commands of the gate: what [_ctrl] finds in the texts the Lua side writes
    ([kick <id>], [forward <id> :<agent> :<client>] and so on). *)

From S2P Require Import Prelude CString MessageQueue Node Server.
From S2P Require Import Chain Frames HashId DataBuffer Gate.
Open Scope Z_scope.

(** ** Numbers in texts *)

Lemma digit_char_text d : 0 ≤ d < 16 → 0 < digit_char d ∧ digit_char d ≠ 32.
Proof. unfold digit_char. intros Hd. destruct (Z.ltb_spec d 10); lia. Qed.

(** A word: no blank and no zero in it, nor at its front. *)
Definition word (s : list Z) : Prop := Forall (λ c, c ≠ 0 ∧ c ≠ 32) s.

Lemma print_digits_word base n : 2 ≤ base ≤ 16 → 0 ≤ n → word (print_digits 64 base n []).
Proof.
  intros Hb Hn. apply Forall_forall. intros c Hc.
  destruct (print_digits_chars base 64 n [] Hb Hn c Hc) as [(d & Hd & ->)|Hc']; [|by apply not_elem_of_nil in Hc'].
  destruct (digit_char_text d); lia.
Qed.

Lemma print_d_word n : 0 ≤ n → word (print_d n).
Proof. intros Hn. unfold print_d. destruct (Z.ltb_spec n 0); [lia|]. apply print_digits_word; lia. Qed.

Lemma print_x_word n : 0 ≤ n → word (print_x n).
Proof. intros Hn. apply print_digits_word; lia. Qed.

Lemma print_d_nonempty n : 0 ≤ n → print_d n ≠ [].
Proof.
  intros Hn. unfold print_d, print_u. destruct (Z.ltb_spec n 0); [lia|].
  destruct (print_digits_head 10 64 n [] ltac:(lia) Hn ltac:(lia)) as (d & rest & -> & _). done.
Qed.

Lemma strtol_print_d n : 0 ≤ n < 2 ^ 31 → strtol (print_d n) 10 = n.
Proof.
  intros Hn. unfold strtol, print_d, print_u. destruct (Z.ltb_spec n 0); [lia|].
  destruct (print_digits_head 10 64 n [] ltac:(lia) ltac:(lia) ltac:(lia)) as (d & rest & E & Hd).
  rewrite E, parse_sign_digit by lia. rewrite <- E. unfold parse_magnitude. cbn [Z.eqb Pos.eqb].
  rewrite parse_print_digits by (change (10 ^ Z.of_nat 64) with (10 ^ 64); lia). cbn [parse_digits]. lia.
Qed.

(** ** Strings in buffers *)

Lemma c_string_app s tail : Forall (λ c, c ≠ 0) s → c_string (s ++ 0 :: tail) = Some s.
Proof.
  induction 1 as [|x s Hx _ IH]; [done|]. cbn [app c_string]. destruct (Z.eqb_spec x 0); [done|]. by rewrite IH.
Qed.

Lemma c_str_at_app pre s tail p : Forall (λ c, c ≠ 0) s → p = Z.of_nat (length pre) →
  c_str_at (pre ++ s ++ 0 :: tail) p = Ok s.
Proof.
  intros Hs ->. unfold c_str_at. rewrite bool_decide_eq_true_2 by lia.
  by rewrite Nat2Z.id, drop_app_length, c_string_app.
Qed.

Lemma index_of_app s y : Forall (λ c, c ≠ 32) s → index_of 32 (s ++ 32 :: y) = Some (Z.of_nat (length s)).
Proof.
  induction 1 as [|x s Hx _ IH]; [done|]. cbn [app index_of length]. destruct (Z.eqb_spec x 32); [done|].
  rewrite IH. cbn. f_equal. lia.
Qed.

Lemma word_nonzero s : word s → Forall (λ c, c ≠ 0) s.
Proof. intros Hs. eapply Forall_impl; [exact Hs|]. naive_solver. Qed.
Lemma word_nonblank s : word s → Forall (λ c, c ≠ 32) s.
Proof. intros Hs. eapply Forall_impl; [exact Hs|]. naive_solver. Qed.

(** Splitting off a word. *)
Lemma strsep_at_lemma pre s y tail p : word s → Forall (λ c, c ≠ 0) y → p = Z.of_nat (length pre) →
  strsep_at (pre ++ s ++ 32 :: y ++ 0 :: tail) p =
    Ok (pre ++ s ++ 0 :: y ++ 0 :: tail, Some (p + Z.of_nat (length s) + 1)).
Proof.
  intros Hs Hy ->. unfold strsep_at. assert (Hz : Forall (λ c, c ≠ 0) (s ++ 32 :: y)).
  { apply Forall_app. split; [by apply word_nonzero|by constructor]. }
  assert (E : pre ++ s ++ 32 :: y ++ 0 :: tail = pre ++ (s ++ 32 :: y) ++ 0 :: tail) by (by rewrite <- app_assoc).
  rewrite E, c_str_at_app, bind_ok, index_of_app, <- E by (done || by apply word_nonblank).
  rewrite wr_ok, bind_ok by (rewrite !length_app; cbn; lia).
  replace (Z.to_nat (Z.of_nat (length pre) + Z.of_nat (length s))) with (length (pre ++ s))
    by (rewrite length_app; lia).
  rewrite (assoc_L (++) pre s (32 :: _)), insert_app_r_alt, Nat.sub_diag by lia.
  cbn [insert list_insert]. by rewrite <- (assoc_L (++)).
Qed.

(** ** The command word *)

Lemma word_loop command sz w fuel :
  word w → w `prefix_of` command → Z.of_nat (length w) ≤ sz →
  (Z.of_nat (length w) < sz → command !! length w = Some 32) → (length w < fuel)%nat →
  iterate fuel (word_step command sz) 0 = Ok (Z.of_nat (length w)).
Proof.
  intros Hw [k ->] Hsz Hend Hf.
  destruct (iterate_total (λ i, 0 ≤ i ≤ Z.of_nat (length w)) (λ r, r = Z.of_nat (length w))
    (λ i, (length w - Z.to_nat i)%nat) (word_step (w ++ k) sz)) with (fuel := fuel) (s := 0) as (r & -> & ->);
    [|lia|lia|done].
  intros i Hi. unfold word_step. destruct (Z.ltb_spec i sz) as [Hlt|Hge].
  2:{ left. eexists. split; [done|]. lia. }
  destruct (decide (i = Z.of_nat (length w))) as [->|Hne].
  - rewrite (rd_ok _ _ 32), bind_ok by (lia || (rewrite Nat2Z.id; by apply Hend)). left. eexists. by split.
  - destruct (lookup_lt_is_Some_2 w (Z.to_nat i)) as [c Hc]; [lia|].
    rewrite (rd_ok _ _ c), bind_ok by (lia || by apply lookup_app_l_Some).
    eapply Forall_lookup_1 in Hw as [_ Hcw]; [|exact Hc]. destruct (Z.eqb_spec c 32); [done|].
    right. eexists. split; [done|]. lia.
Qed.

Lemma memcmp_eq_prefix w a k : memcmp_eq (length w) (w ++ a) (w ++ k) = Ok true.
Proof. induction w as [|x w IH]; [done|]. cbn. by rewrite Z.eqb_refl. Qed.

(** ** The argument *)

(** The command [w], a blank and the argument. *)
Definition command_text (w arg : list Z) : list Z := w ++ 32 :: arg.

Lemma parm_skip_lemma w arg : hd 0 arg ≠ 32 →
  let msg := command_text w arg ++ [0] in
  let sz := Z.of_nat (length (command_text w arg)) in
  iterate (S (Z.to_nat (sz - Z.of_nat (length w)))) (parm_skip msg sz) (Z.of_nat (length w)) =
    Ok (Z.of_nat (length w) + 1).
Proof.
  intros Hhd. cbv zeta. unfold command_text. rewrite length_app. cbn [length].
  replace (Z.to_nat _) with (S (length arg)) by lia. cbn [iterate].
  assert (E1 : parm_skip ((w ++ 32 :: arg) ++ [0]) (Z.of_nat (length w + S (length arg))) (Z.of_nat (length w)) =
    Ok (Continue (Z.of_nat (length w) + 1))).
  { unfold parm_skip. destruct (Z.ltb_spec (Z.of_nat (length w)) (Z.of_nat (length w + S (length arg)))); [|lia].
    rewrite (rd_ok _ _ 32), bind_ok; [done|lia|]. rewrite Nat2Z.id, <- app_assoc. by apply list_lookup_middle. }
  rewrite E1, bind_ok. unfold parm_skip.
  destruct (Z.ltb_spec (Z.of_nat (length w) + 1) (Z.of_nat (length w + S (length arg)))) as [Hlt|Hge].
  - destruct arg as [|c arg]; [cbn in Hlt; lia|]. rewrite (rd_ok _ _ c); [| lia|].
    + rewrite bind_ok. cbn in Hhd. by destruct (Z.eqb_spec c 32).
    + replace (Z.to_nat (Z.of_nat (length w) + 1)) with (length (w ++ [32])) by (rewrite length_app; cbn; lia).
      replace ((w ++ 32 :: c :: arg) ++ [0]) with ((w ++ [32]) ++ c :: arg ++ [0]) by (by rewrite <- !app_assoc).
      by apply list_lookup_middle.
  - rewrite bind_ok. done.
Qed.

(** The argument moves to the front; what is behind its zero does not matter. *)
Lemma parm_lemma w arg : hd 0 arg ≠ 32 →
  ∃ tail, parm (command_text w arg ++ [0]) (Z.of_nat (length (command_text w arg))) (Z.of_nat (length w)) =
    Ok (arg ++ 0 :: tail).
Proof.
  intros Hhd. unfold parm. rewrite parm_skip_lemma, bind_ok by done.
  set (k := Z.of_nat (length w) + 1). set (msg := command_text w arg ++ [0]).
  assert (Hsz : Z.of_nat (length (command_text w arg)) - k = Z.of_nat (length arg)).
  { unfold command_text, k. rewrite length_app. cbn. lia. }
  assert (Hlen : Z.of_nat (length msg) = k + Z.of_nat (length arg) + 1).
  { unfold msg. rewrite length_app. cbn. lia. }
  assert (Harg : ∀ i c, arg !! i = Some c → msg !! (Z.to_nat k + i)%nat = Some c).
  { intros i c Hc. unfold msg, command_text. replace ((w ++ 32 :: arg) ++ [0]) with ((w ++ [32]) ++ arg ++ [0])
      by (by rewrite <- !app_assoc).
    rewrite lookup_app_r by (rewrite length_app; cbn; lia). apply lookup_app_l_Some.
    rewrite length_app. cbn. replace (Z.to_nat k + i - (length w + 1))%nat with i by lia. done. }
  rewrite Hsz. destruct (for_range_inv (λ j m, length m = length msg ∧
      (∀ p, (Z.to_nat j ≤ p)%nat → m !! p = msg !! p) ∧
      (∀ p, (p < Z.to_nat (j - k))%nat → m !! p = arg !! p))
    (Z.to_nat (Z.of_nat (length arg))) k (parm_copy k) msg) as (m & -> & Hl & _ & Hm).
  - split; [done|]. split; [done|]. intros p Hp. lia.
  - intros j m Hj (Hl & Hr & Hm). unfold parm_copy.
    destruct (lookup_lt_is_Some_2 arg (Z.to_nat (j - k))) as [c Hc]; [lia|].
    rewrite (rd_ok _ _ c); [|lia|].
    2:{ rewrite Hr by lia. apply Harg in Hc. by replace (Z.to_nat j) with (Z.to_nat k + Z.to_nat (j - k))%nat by lia. }
    rewrite bind_ok, wr_ok by lia. eexists. split; [done|]. rewrite length_insert. split; [done|]. split.
    + intros p Hp. rewrite list_lookup_insert_ne by lia. apply Hr. lia.
    + intros p Hp. destruct (decide (p = Z.to_nat (j - k))) as [->|Hne].
      * rewrite list_lookup_insert_eq by lia. done.
      * rewrite list_lookup_insert_ne by lia. apply Hm. lia.
  - rewrite bind_ok, wr_ok by lia. exists (drop (S (length arg)) m).
    rewrite Nat2Z.id in *. replace (Z.to_nat (k + Z.of_nat (length arg) - k)) with (length arg) in Hm by lia.
    assert (E : take (length arg) m = arg).
    { apply list_eq. intros i. destruct (decide (i < length arg)%nat).
      - rewrite lookup_take_lt by done. by apply Hm.
      - rewrite !lookup_ge_None_2; [done|lia|rewrite length_take; lia]. }
    f_equal. rewrite insert_take_drop by lia. by rewrite E.
Qed.

(** ** The commands *)

Section commands.
Context `{!GateRuntime}.

Lemma ctrl_word w arg : word w →
  iterate (S (length (command_text w arg))) (word_step (command_text w arg ++ [0]) (Z.of_nat (length (command_text w arg)))) 0
    = Ok (Z.of_nat (length w)).
Proof.
  intros Hw. unfold command_text. apply word_loop; [done| |rewrite length_app; lia| |rewrite length_app; lia].
  - exists (32 :: arg ++ [0]). by rewrite <- app_assoc.
  - intros _. rewrite <- app_assoc. by apply list_lookup_middle.
Qed.

Lemma command_text_nonempty w arg : (Z.of_nat (length (command_text w arg)) =? 0) = false.
Proof. apply Z.eqb_neq. unfold command_text. rewrite length_app. cbn. lia. Qed.

Definition kick_effect (fd : Z) : SM gstate unit :=
  g ← getG;
  slot ← lift (hashid_lookup (g_hash g) fd);
  if slot >=? 0 then gact (GSocketClose fd) else mret ().

Definition start_effect (fd : Z) : SM gstate unit :=
  g ← getG;
  slot ← lift (hashid_lookup (g_hash g) fd);
  if slot >=? 0 then gact (GSocketStart fd) else mret ().

Lemma print_d_arg n : 0 ≤ n → hd 0 (print_d n) ≠ 32 ∧ Forall (λ c, c ≠ 0) (print_d n).
Proof.
  intros Hn. pose proof (print_d_word n Hn) as Hw. split; [|by apply word_nonzero].
  destruct (print_d n) as [|c l]; [done|]. by apply Forall_cons in Hw as [[_ Hc] _].
Qed.

Lemma i32_print_d n : 0 ≤ n < 2 ^ 31 → i32 (strtol (print_d n) 10) = n.
Proof. intros Hn. rewrite strtol_print_d by done. apply i32_small. lia. Qed.

(** Any beginning of [kick], the empty one too, is taken for it. *)
Lemma ctrl_kick w fd s : w `prefix_of` str "kick" → 0 ≤ fd < 2 ^ 31 →
  ctrl (command_text w (print_d fd)) s = kick_effect fd s.
Proof.
  intros [k Ek] Hfd. destruct (print_d_arg fd ltac:(lia)) as [Hhd Hnz].
  assert (Hw : word w).
  { assert (word (str "kick")) as Hk by (repeat constructor; done). rewrite Ek in Hk. by apply Forall_app in Hk as [? _]. }
  unfold ctrl. rewrite command_text_nonempty, (lift_bind _ _ _ _ (ctrl_word w _ Hw)). cbv zeta.
  rewrite (lift_bind _ _ _ true).
  2:{ rewrite Nat2Z.id, Ek. unfold command_text. rewrite <- !app_assoc. apply memcmp_eq_prefix. }
  destruct (parm_lemma w (print_d fd) Hhd) as [tail Ep]. rewrite (lift_bind _ _ _ _ Ep).
  rewrite (lift_bind _ _ _ _ (c_str_at_app [] (print_d fd) tail 0 Hnz eq_refl)).
  by rewrite i32_print_d.
Qed.

Lemma ctrl_start fd s : 0 ≤ fd < 2 ^ 31 →
  ctrl (command_text (str "start") (print_d fd)) s = start_effect fd s.
Proof.
  intros Hfd. destruct (print_d_arg fd ltac:(lia)) as [Hhd Hnz].
  assert (Hw : word (str "start")) by (repeat constructor; done).
  unfold ctrl. rewrite command_text_nonempty, (lift_bind _ _ _ _ (ctrl_word _ _ Hw)). cbv zeta.
  rewrite (lift_bind _ _ _ false), (lift_bind _ _ _ false), (lift_bind _ _ _ false), (lift_bind _ _ _ true) by reflexivity.
  destruct (parm_lemma (str "start") (print_d fd) Hhd) as [tail Ep]. rewrite (lift_bind _ _ _ _ Ep).
  rewrite (lift_bind _ _ _ _ (c_str_at_app [] (print_d fd) tail 0 Hnz eq_refl)).
  by rewrite i32_print_d.
Qed.

Lemma ctrl_broker nm s : hd 0 nm ≠ 32 → Forall (λ c, c ≠ 0) nm →
  ctrl (command_text (str "broker") nm) s = Ok ((), GState (set_broker (rt_queryname nm) (gs s)) (gacts s)).
Proof.
  intros Hhd Hnz. assert (Hw : word (str "broker")) by (repeat constructor; done).
  unfold ctrl. rewrite command_text_nonempty, (lift_bind _ _ _ _ (ctrl_word _ _ Hw)). cbv zeta.
  rewrite (lift_bind _ _ _ false), (lift_bind _ _ _ false), (lift_bind _ _ _ true) by reflexivity.
  destruct (parm_lemma (str "broker") nm Hhd) as [tail Ep]. rewrite (lift_bind _ _ _ _ Ep).
  by rewrite (lift_bind _ _ _ _ (c_str_at_app [] nm tail 0 Hnz eq_refl)).
Qed.

Lemma ctrl_close s :
  ctrl (str "close") s = (g ← getG;
    if g_listen_id g >=? 0 then _ ← gact (GSocketClose (g_listen_id g)); putG (set_listen (-1) g)
    else mret ()) s.
Proof. reflexivity. Qed.

(** Concatenations without brackets. *)
Ltac flat := repeat (rewrite <- ?(assoc_L (++)); progress cbn [app]); rewrite <- ?(assoc_L (++)).
Ltac flat_in H := repeat (rewrite <- ?(assoc_L (++)) in H; progress cbn [app] in H); rewrite <- ?(assoc_L (++)) in H.

(** The argument of [forward]. *)
Definition forward_args (fd agentaddr clientaddr : Z) : list Z :=
  print_d fd ++ 32 :: (58 :: print_x agentaddr) ++ 32 :: (58 :: print_x clientaddr).

Lemma ctrl_forward_lemma fd agentaddr clientaddr tail s :
  0 ≤ fd < 2 ^ 31 → 0 ≤ agentaddr < 2 ^ 32 → 0 ≤ clientaddr < 2 ^ 32 →
  ctrl_forward (forward_args fd agentaddr clientaddr ++ 0 :: tail) s = forward_agent fd agentaddr clientaddr s.
Proof.
  intros Hfd Ha Hc. unfold forward_args. set (D := print_d fd). set (X := print_x agentaddr). set (Y := print_x clientaddr).
  assert (HD : word D) by (apply print_d_word; lia).
  assert (HX : word (58 :: X)) by (constructor; [lia|apply print_x_word; lia]).
  assert (HY : word (58 :: Y)) by (constructor; [lia|apply print_x_word; lia]).
  assert (HXY : Forall (λ c, c ≠ 0) ((58 :: X) ++ 32 :: 58 :: Y)).
  { apply Forall_app. split; [by apply word_nonzero|]. constructor; [done|by apply word_nonzero]. }
  pose proof (strsep_at_lemma [] D ((58 :: X) ++ 32 :: (58 :: Y)) tail 0 HD HXY eq_refl) as E1.
  pose proof (strsep_at_lemma (D ++ [0]) (58 :: X) (58 :: Y) tail (0 + Z.of_nat (length D) + 1) HX (word_nonzero _ HY)
    ltac:(rewrite length_app; cbn [length]; lia)) as E2.
  flat_in E1. flat_in E2. unfold ctrl_forward. flat. rewrite (lift_bind _ _ _ _ E1). cbv beta iota.
  rewrite (lift_bind _ _ _ D); [|by apply (c_str_at_app [] D); [apply word_nonzero|]].
  rewrite (lift_bind _ _ _ _ E2). cbv beta iota zeta.
  rewrite (lift_bind _ _ _ X).
  2:{ replace (D ++ 0 :: 58 :: X ++ 0 :: 58 :: Y ++ 0 :: tail) with ((D ++ [0; 58]) ++ X ++ 0 :: 58 :: Y ++ 0 :: tail)
        by (by flat).
      apply c_str_at_app; [apply word_nonzero; by apply Forall_cons in HX as [_ ?]|rewrite length_app; cbn [length]; lia]. }
  rewrite (lift_bind _ _ _ Y).
  2:{ replace (D ++ 0 :: 58 :: X ++ 0 :: 58 :: Y ++ 0 :: tail) with ((D ++ [0; 58] ++ X ++ [0; 58]) ++ Y ++ 0 :: tail)
        by (by flat).
      apply c_str_at_app; [apply word_nonzero; by apply Forall_cons in HY as [_ ?]|
        repeat first [rewrite length_app|progress cbn [length app]]; lia]. }
  unfold D, X, Y. rewrite i32_print_d, !strtoul_print_x, !u32_small by lia. done.
Qed.

Lemma ctrl_forward_text fd agentaddr clientaddr s :
  0 ≤ fd < 2 ^ 31 → 0 ≤ agentaddr < 2 ^ 32 → 0 ≤ clientaddr < 2 ^ 32 →
  ctrl (command_text (str "forward") (forward_args fd agentaddr clientaddr)) s = forward_agent fd agentaddr clientaddr s.
Proof.
  intros Hfd Ha Hc. assert (Hw : word (str "forward")) by (repeat constructor; done).
  assert (Hhd : hd 0 (forward_args fd agentaddr clientaddr) ≠ 32).
  { unfold forward_args. pose proof (print_d_nonempty fd ltac:(lia)). destruct (print_d_arg fd ltac:(lia)) as [Hh _].
    by destruct (print_d fd). }
  unfold ctrl. rewrite command_text_nonempty, (lift_bind _ _ _ _ (ctrl_word _ _ Hw)). cbv zeta.
  rewrite (lift_bind _ _ _ false), (lift_bind _ _ _ true) by reflexivity.
  destruct (parm_lemma (str "forward") _ Hhd) as [tail Ep]. rewrite (lift_bind _ _ _ _ Ep).
  by apply ctrl_forward_lemma.
Qed.

End commands.
