(* ===== verification/GateProps.v ===== *)
(** What the gate promises.

    The specification ([agate], [astep]) knows a connection as its agent, its client and
    the bytes that have not been taken yet; it has no slots, no hash table, no buffers and
    no pool.  [gate_repr] relates it to the state of [Gate]; every message refines a step
    of it. *)

From S2P Require Import Prelude CString MessageQueue Node Server.
From S2P Require Import Chain Frames HashId DataBuffer Gate.
Open Scope Z_scope.

(** ** The specification *)

(** [ac_header] is the length of the package whose header has been read, or 0. *)
Record aconn : Set := AConn {
  ac_agent : Z;
  ac_client : Z;
  ac_header : Z;
  ac_bytes : list Z
}.

Record agate : Set := AGate {
  ag_listen : Z;
  ag_watchdog : Z;
  ag_broker : Z;
  ag_tag : Z;
  ag_hs : Z;
  ag_max : Z;
  ag_conns : gmap Z aconn
}.

Inductive cut_end : Set :=
| More (header : Z) (bytes : list Z)
| TooLong.

(** The length of the next package and the bytes behind its header, once the header is
    there; [h] is the length when it has been read before, or 0. *)
Definition next_header (hs h : Z) (s : list Z) : option (Z * list Z) :=
  if h =? 0 then
    if Z.of_nat (length s) <? hs then None
    else Some (header_value hs (take (Z.to_nat hs) s), drop (Z.to_nat hs) s)
  else Some (h, s).

(** The packages in a header (or 0) and the bytes behind it, and what is left: a negative
    length is never complete, an empty package is skipped, and a package that is too long
    ends the stream.  Without a destination ([keep]) the bytes of a package stay where
    they are. *)
Fixpoint cut_ (fuel : nat) (hs : Z) (keep : bool) (h : Z) (s : list Z) : list (list Z) * cut_end :=
  match fuel with
  | O => ([], More h s)
  | S fuel =>
      match next_header hs h s with
      | None => ([], More 0 s)
      | Some (h, s) =>
          if (Z.of_nat (length s) <? h) || (h <? 0) then ([], More h s)
          else if h =? 0 then cut_ fuel hs keep 0 s
          else if h >=? 0x1000000 then ([], TooLong)
          else let '(ps, e) := cut_ fuel hs keep 0 (if keep then s else drop (Z.to_nat h) s) in
               (take (Z.to_nat h) s :: ps, e)
      end
  end.

Definition cut (hs : Z) (keep : bool) (h : Z) (s : list Z) : list (list Z) * cut_end :=
  cut_ (2 + length s) hs keep h s.

Definition has_destination (A : agate) (a : aconn) : bool :=
  negb (ag_broker A =? 0) || negb (ac_agent a =? 0) || negb (ag_watchdog A =? 0).

(** How a package is handed on: to the broker, or the agent, or the watchdog. *)
Definition deliver (A : agate) (fd : Z) (a : aconn) (p : list Z) : gaction :=
  if negb (ag_broker A =? 0) then GSend 0 (ag_broker A) (Z.lor (ag_tag A) PTYPE_TAG_DONTCOPY) 1 p
  else if negb (ac_agent a =? 0) then
    GSend (ac_client a) (ac_agent a) (Z.lor (ag_tag A) PTYPE_TAG_DONTCOPY) 1 p
  else GSend 0 (ag_watchdog A) (Z.lor PTYPE_TEXT PTYPE_TAG_DONTCOPY) 1 (print_d fd ++ str " data " ++ p).

Definition deliveries (A : agate) (fd : Z) (a : aconn) (ps : list (list Z)) : list gaction :=
  if has_destination A a then map (deliver A fd a) ps else [].

Definition set_conns (conns : gmap Z aconn) (A : agate) : agate :=
  AGate (ag_listen A) (ag_watchdog A) (ag_broker A) (ag_tag A) (ag_hs A) (ag_max A) conns.

Definition areport (A : agate) (text : cstring) : list gaction :=
  if ag_watchdog A =? 0 then [] else [GSend 0 (ag_watchdog A) PTYPE_TEXT 0 text].

(** What a connection becomes when bytes arrive. *)
Definition a_data (A : agate) (fd : Z) (a : aconn) (data : list Z) : aconn * list gaction :=
  let '(ps, e) := cut (ag_hs A) (negb (has_destination A a)) (ac_header a) (ac_bytes a ++ data) in
  match e with
  | More h s => (AConn (ac_agent a) (ac_client a) h s, deliveries A fd a ps)
  | TooLong => (AConn (ac_agent a) (ac_client a) 0 [],
                deliveries A fd a ps ++ [GSocketClose fd; GError (str "Recv socket message > 16M")])
  end.

(** ** Actions *)

(** The frees are accounted for separately. *)
Definition is_gfree (a : gaction) : bool := match a with GFree _ => true | _ => false end.

Definition visible (l : list gaction) : list gaction := filter (λ a, is_gfree a = false) l.

Lemma visible_app l1 l2 : visible (l1 ++ l2) = visible l1 ++ visible l2.
Proof. apply filter_app. Qed.

Lemma visible_frees l : visible (map GFree l) = [].
Proof. apply filter_none. intros x Hx. by apply list_elem_of_fmap in Hx as (? & -> & _). Qed.

Definition freed (l : list gaction) : list (list Z) :=
  omap (λ a, match a with GFree b => Some b | _ => None end) l.

Lemma freed_app l1 l2 : freed (l1 ++ l2) = freed l1 ++ freed l2.
Proof. apply omap_app. Qed.

Lemma freed_frees l : freed (map GFree l) = l.
Proof. induction l as [|b l IH]; [done|]. cbn. f_equal. exact IH. Qed.

(** ** Representation *)

Record conn_repr (g : gate) (F : list Z) (fd : Z) (c : connection) (a : aconn)
    (ps : list Z) (ch : list (list Z)) : Prop := {
  cr_id : cn_id c = fd;
  cr_agent : cn_agent c = ac_agent a;
  cr_client : cn_client c = ac_client a;
  cr_name : length (cn_remote_name c) = 32%nat;
  cr_header : db_header (cn_buffer c) = ac_header a;
  cr_buffer : db_ok (BufState (cn_buffer c) (g_mp g) []) ps F ch (ac_bytes a);
  cr_bytes : Forall byte (ac_bytes a)
}.

(** [M] is the table's map, [F] the free list of the pool, [B] has the nodes and the
    buffers of every connection. *)
Record gate_repr (g : gate) (A : agate) (M : gmap Z Z) (F : list Z) (B : gmap Z (list Z * list (list Z)))
    : Prop := {
  gr_fields : g_listen_id g = ag_listen A ∧ g_watchdog g = ag_watchdog A ∧ g_broker g = ag_broker A ∧
    g_client_tag g = ag_tag A ∧ g_header_size g = ag_hs A ∧ g_max_connection g = ag_max A;
  gr_hs : header_ok (ag_hs A);
  gr_hash : hash_repr (g_hash g) M;
  gr_cap : hi_cap (g_hash g) = ag_max A ∧ Z.of_nat (length (g_conn g)) = ag_max A;
  gr_dom : dom M = dom (ag_conns A) ∧ dom B = dom M;
  gr_conn : ∀ fd slot, M !! fd = Some slot → ∃ c a ps ch,
    g_conn g !! Z.to_nat slot = Some c ∧ ag_conns A !! fd = Some a ∧ B !! fd = Some (ps, ch) ∧
    conn_repr g F fd c a ps ch;
  gr_unused : ∀ slot c, g_conn g !! slot = Some c → (∀ fd, M !! fd ≠ Some (Z.of_nat slot)) →
    c = set_cn_id (-1) connection_zero;
  gr_disj : ∀ fd1 fd2 b1 b2, fd1 ≠ fd2 → B !! fd1 = Some b1 → B !! fd2 = Some b2 → b1.1 ## b2.1;
  gr_free : chain (mp_nodes (g_mp g)) (mp_freelist (g_mp g)) F ∧ NoDup F
}.

Section repr.
Context (g : gate) (A : agate) (M : gmap Z Z) (F : list Z) (B : gmap Z (list Z * list (list Z))).
Context (Hg : gate_repr g A M F B).

Lemma gr_slot fd slot : M !! fd = Some slot → 0 ≤ slot < Z.of_nat (length (g_conn g)) ∧ 0 ≤ fd.
Proof.
  intros HM. pose proof (gr_hash _ _ _ _ _ Hg) as Ho. apply (ho_map _ _ Ho) in HM as (Hfd & H0 & Hat).
  destruct (gr_cap _ _ _ _ _ Hg) as [Hc Hl]. destruct (ho_cap _ _ Ho) as [Hlen _].
  unfold id_at in Hat. destruct (hi_id (g_hash g) !! Z.to_nat slot) eqn:E; [|done].
  apply lookup_lt_Some in E. lia.
Qed.

Lemma gr_inj fd1 fd2 slot : M !! fd1 = Some slot → M !! fd2 = Some slot → fd1 = fd2.
Proof.
  intros H1 H2. pose proof (gr_hash _ _ _ _ _ Hg) as Ho.
  apply (ho_map _ _ Ho) in H1 as (_ & _ & H1). apply (ho_map _ _ Ho) in H2 as (_ & _ & H2). congruence.
Qed.

Lemma gr_lookup fd : hashid_lookup (g_hash g) fd = Ok (default (-1) (M !! fd)).
Proof. apply hashid_lookup_lemma. apply Hg. Qed.

Lemma gr_none fd : M !! fd = None ↔ ag_conns A !! fd = None.
Proof. rewrite <- !not_elem_of_dom. by destruct (gr_dom _ _ _ _ _ Hg) as [-> _]. Qed.

Lemma gr_some fd a : ag_conns A !! fd = Some a → ∃ slot c ps ch, M !! fd = Some slot ∧
  0 ≤ slot < Z.of_nat (length (g_conn g)) ∧
  g_conn g !! Z.to_nat slot = Some c ∧ B !! fd = Some (ps, ch) ∧ conn_repr g F fd c a ps ch.
Proof.
  intros Ha. destruct (M !! fd) as [slot|] eqn:HM; [|apply gr_none in HM; congruence].
  destruct (gr_conn _ _ _ _ _ Hg fd slot HM) as (c & a' & ps & ch & Hc & Ha' & HB & Hr).
  rewrite Ha in Ha'. injection Ha' as <-. exists slot, c, ps, ch. split; [done|].
  split; [by apply (gr_slot fd)|done].
Qed.

End repr.

(** The nodes of another connection are untouched. *)
Lemma db_ok_frame c mp mp' ps F F' own own0 ch s fr fr' :
  db_ok (BufState c mp fr) ps F ch s → evolves (mp_nodes mp) own0 (mp_nodes mp') own →
  ps ## own0 → (∀ i, i ∈ F' → i ∈ own) →
  chain (mp_nodes mp') (mp_freelist mp') F' → NoDup F' → db_ok (BufState c mp' fr') ps F' ch s.
Proof.
  intros [[Hc Ht Hco Hf Hnd] Hb Ho Hsz] [Hown Hkeep Hlen] Hdisj HF' Hf' Hnd'. cbn in *.
  assert (Hr := chain_range _ _ _ Hc).
  assert (He : ∀ i, i ∈ ps → mp_nodes mp' !! Z.to_nat i = mp_nodes mp !! Z.to_nat i).
  { intros i Hi. apply Hkeep; [by apply Hr|]. intros Hi0. by apply (Hdisj i). }
  split; [|done|done|done]. split; cbn; [by apply (chain_frame (mp_nodes mp))|done| |done|].
  - by apply (contents_frame (mp_nodes mp)).
  - apply NoDup_app. apply NoDup_app in Hnd as (Hnd & _ & _). split; [done|]. split; [|done].
    intros i Hi Hi'. apply HF', Hown in Hi' as [Hi'|Hi']; [by apply (Hdisj i)|]. apply Hr in Hi. lia.
Qed.

(** An operation on one connection's buffer. *)
Lemma on_buffer_lemma {X} s A M F B fd slot c a ps ch (op : SM bufstate X) r st' ps' F' ch' bytes' :
  gate_repr (gs s) A M F B → M !! fd = Some slot → g_conn (gs s) !! Z.to_nat slot = Some c →
  ag_conns A !! fd = Some a → B !! fd = Some (ps, ch) →
  op (BufState (cn_buffer c) (g_mp (gs s)) []) = Ok (r, st') →
  db_ok st' ps' F' ch' bytes' → Forall byte bytes' →
  evolves (mp_nodes (g_mp (gs s))) (ps ++ F) (mp_nodes (bs_mp st')) (ps' ++ F') →
  ∃ s' c', on_buffer slot op s = Ok (r, s') ∧
    gate_repr (gs s') (set_conns (<[fd := AConn (ac_agent a) (ac_client a) (db_header (bs_db st')) bytes']> (ag_conns A)) A)
      M F' (<[fd := (ps', ch')]> B) ∧
    g_conn (gs s') !! Z.to_nat slot = Some c' ∧ cn_buffer c' = bs_db st' ∧ cn_id c' = fd ∧
    cn_agent c' = cn_agent c ∧ cn_client c' = cn_client c ∧ g_mp (gs s') = bs_mp st' ∧
    gacts s' = gacts s ++ map GFree (bs_freed st').
Proof.
  intros Hg HM Hc Ha HB Hop Hd Hbytes Hev.
  destruct (gr_slot _ _ _ _ _ Hg fd slot HM) as [Hsl Hfd].
  set (c' := Connection (cn_id c) (cn_agent c) (cn_client c) (cn_remote_name c) (bs_db st')).
  assert (Hcr : conn_repr (gs s) F fd c a ps ch).
  { destruct (gr_conn _ _ _ _ _ Hg fd slot HM) as (c2 & a2 & ps2 & ch2 & ? & ? & ? & ?). by simplify_eq. }
  exists (GState (set_table (g_hash (gs s)) (<[Z.to_nat slot := c']> (g_conn (gs s))) (bs_mp st') (gs s))
    (gacts s ++ map GFree (bs_freed st'))), c'.
  split; [|split].
  - unfold on_buffer. rewrite (rd_ok _ slot c), bind_ok by (lia || done). rewrite Hop, bind_ok.
    rewrite wr_ok, bind_ok by lia. done.
  - assert (HF : chain (mp_nodes (bs_mp st')) (mp_freelist (bs_mp st')) F' ∧ NoDup F').
    { destruct Hd as [[_ _ _ Hf Hnd] _ _ _]. split; [done|]. by apply NoDup_app in Hnd as (_ & _ & ?). }
    split; cbn.
    + apply Hg.
    + apply Hg.
    + apply Hg.
    + rewrite length_insert. apply Hg.
    + destruct (gr_dom _ _ _ _ _ Hg) as [E1 E2]. rewrite !dom_insert_L.
      assert (fd ∈ dom M) by (by apply elem_of_dom_2 in HM). set_solver.
    + intros fd2 slot2 HM2. destruct (decide (fd2 = fd)) as [->|Hne].
      * rewrite HM in HM2. injection HM2 as <-. exists c', (AConn (ac_agent a) (ac_client a) (db_header (bs_db st')) bytes'), ps', ch'.
        rewrite list_lookup_insert_eq, !lookup_insert_eq by lia. destruct Hcr as [Hid Hag Hcl Hnm _ _ _].
        split; [done|]. split; [done|]. split; [done|]. split; try done.
        cbn. destruct Hd as [[] ? ? ?]. split; [by split|done..].
      * destruct (gr_conn _ _ _ _ _ Hg fd2 slot2 HM2) as (c2 & a2 & ps2 & ch2 & Hc2 & Ha2 & HB2 & Hr2).
        assert (slot2 ≠ slot) by (intros ->; by apply Hne, (gr_inj _ _ _ _ _ Hg _ _ slot)).
        destruct (gr_slot _ _ _ _ _ Hg fd2 slot2 HM2) as [Hsl2 _].
        exists c2, a2, ps2, ch2. rewrite list_lookup_insert_ne, !lookup_insert_ne by (done || lia).
        split; [done|]. split; [done|]. split; [done|]. destruct Hr2 as [? ? ? ? ? Hdb2 ?]. split; try done.
        cbn. eapply (db_ok_frame _ _ _ _ _ _ _ _ _ _ _ _ Hdb2 Hev); [|set_solver|apply HF..].
        pose proof (gr_disj _ _ _ _ _ Hg fd2 fd _ _ Hne HB2 HB) as Hdj. cbn in Hdj.
        pose proof (so_nodup _ _ _ _ (dk_store _ _ _ _ _ Hdb2)) as Hnd. apply NoDup_app in Hnd as (_ & Hnd & _).
        set_solver.
    + intros slot2 c2 Hc2 Hun. destruct (decide (slot2 = Z.to_nat slot)) as [->|Hne].
      * exfalso. apply (Hun fd). rewrite Z2Nat.id by lia. done.
      * rewrite list_lookup_insert_ne in Hc2 by done. by apply (gr_unused _ _ _ _ _ Hg slot2).
    + assert (Hdj : ∀ fd2 b2, fd2 ≠ fd → B !! fd2 = Some b2 → ps' ## b2.1).
      { intros fd2 [ps2 ch2] Hne HB2. assert (is_Some (M !! fd2)) as [slot2 HM2].
        { apply elem_of_dom. destruct (gr_dom _ _ _ _ _ Hg) as [_ <-]. by apply elem_of_dom_2 in HB2. }
        destruct (gr_conn _ _ _ _ _ Hg fd2 slot2 HM2) as (c2 & a2 & ps3 & ch3 & _ & _ & HB3 & Hr2).
        simplify_eq. destruct Hr2 as [_ _ _ _ _ [[Hch2 _ _ _ Hnd2] _ _ _] _].
        pose proof (chain_range _ _ _ Hch2) as Hrg. apply NoDup_app in Hnd2 as (_ & Hnd2 & _).
        pose proof (gr_disj _ _ _ _ _ Hg fd fd2 _ _ ltac:(done) HB HB2) as Hdj. cbn in *.
        intros i Hi Hi2. destruct (ev_own _ _ _ _ Hev i) as [[Hi0|Hi0]%elem_of_app|Hi0]; [set_solver|..].
        - by apply (Hdj i). - by apply (Hnd2 i). - apply Hrg in Hi2. lia. }
      intros fd1 fd2 b1 b2 Hne H1 H2.
      apply lookup_insert_Some in H1 as [[<- <-]|[Hn1 H1]]; apply lookup_insert_Some in H2 as [[<- <-]|[Hn2 H2]].
      * done.
      * by apply (Hdj fd2).
      * intros i Hi1 Hi2. by apply (Hdj fd1 b1 Hne H1 i).
      * by apply (gr_disj _ _ _ _ _ Hg fd1 fd2).
    + done.
  - cbn. rewrite list_lookup_insert_eq by lia. by destruct Hcr.
Qed.

(** ** Accounting for the buffers *)

Definition held (B : gmap Z (list Z * list (list Z))) : list (list Z) :=
  concat (map (λ x, x.2.2) (map_to_list B)).

Lemma held_insert_new B fd b : B !! fd = None → held (<[fd := b]> B) ≡ₚ b.2 ++ held B.
Proof.
  intros HB. unfold held. rewrite (map_to_list_insert B fd b HB). done.
Qed.

Lemma held_delete B fd b : B !! fd = Some b → held B ≡ₚ b.2 ++ held (delete fd B).
Proof.
  intros HB. rewrite <- (insert_delete_id B fd b HB) at 1.
  by rewrite held_insert_new by apply lookup_delete_eq.
Qed.

Lemma held_insert B fd b b' : B !! fd = Some b → held (<[fd := b']> B) ≡ₚ b'.2 ++ held (delete fd B).
Proof.
  intros HB. rewrite <- insert_delete_eq. by rewrite held_insert_new by apply lookup_delete_eq.
Qed.

(** The gate stands for [A]; [all] are the buffers it has been given: every one is freed
    or held. *)
Definition stands (s : gstate) (A : agate) (M : gmap Z Z) (all : list (list Z)) : Prop :=
  ∃ F B, gate_repr (gs s) A M F B ∧ freed (gacts s) ++ held B ≡ₚ all.

Definition upd (A : agate) (fd : Z) (a : aconn) : agate := set_conns (<[fd := a]> (ag_conns A)) A.

Lemma upd_upd A fd a a' : upd (upd A fd a) fd a' = upd A fd a'.
Proof. unfold upd, set_conns. cbn. by rewrite insert_insert_eq. Qed.

Lemma upd_id A fd a : ag_conns A !! fd = Some a → upd A fd a = A.
Proof. intros Ha. unfold upd, set_conns. rewrite insert_id by done. by destruct A. Qed.

Lemma upd_lookup A fd a : ag_conns (upd A fd a) !! fd = Some a.
Proof. apply lookup_insert_eq. Qed.

(** An operation on the buffer of a connection: the abstract connection changes with it. *)
Lemma on_buffer_stands {X} s A M all fd slot a (op : SM bufstate X) r h' bytes' new :
  stands s A M all → M !! fd = Some slot → ag_conns A !! fd = Some a → Forall byte bytes' →
  (∀ st ps F ch, db_ok st ps F ch (ac_bytes a) → db_header (bs_db st) = ac_header a →
     ∃ st' ps' F' ch', op st = Ok (r, st') ∧ db_ok st' ps' F' ch' bytes' ∧
       db_header (bs_db st') = h' ∧ bs_freed st' ++ ch' = bs_freed st ++ ch ++ new ∧
       evolves (mp_nodes (bs_mp st)) (ps ++ F) (mp_nodes (bs_mp st')) (ps' ++ F')) →
  ∃ s', on_buffer slot op s = Ok (r, s') ∧
    stands s' (upd A fd (AConn (ac_agent a) (ac_client a) h' bytes')) M (all ++ new) ∧
    visible (gacts s') = visible (gacts s).
Proof.
  intros (F & B & Hg & Hall) HM Ha Hb Hop.
  destruct (gr_some _ _ _ _ _ Hg fd a Ha) as (slot' & c & ps & ch & HM' & Hsl & Hc & HB & Hcr).
  rewrite HM in HM'. injection HM' as <-.
  destruct (Hop (BufState (cn_buffer c) (g_mp (gs s)) []) ps F ch) as (st' & ps' & F' & ch' & Eop & Hd & Hh & Hf & Hev);
    [apply Hcr|apply Hcr|].
  destruct (on_buffer_lemma s A M F B fd slot c a ps ch op r st' ps' F' ch' bytes' Hg HM Hc Ha HB Eop Hd Hb Hev)
    as (s' & c' & E & Hg' & _ & _ & _ & _ & _ & _ & Hacts).
  exists s'. split; [done|]. rewrite Hh in Hg'. split.
  - eexists F', _. split; [exact Hg'|]. rewrite Hacts, freed_app, freed_frees.
    rewrite (held_insert B fd (ps, ch)) by done. cbn [snd]. rewrite <- Hall, (held_delete B fd (ps, ch)) by done.
    cbn [snd app bs_freed] in *. rewrite <- !(assoc_L (++)), (assoc_L (++) (bs_freed st')), Hf.
    rewrite <- !(assoc_L (++)). apply Permutation_app_head, Permutation_app_head. apply Permutation_app_comm.
  - by rewrite Hacts, visible_app, visible_frees, app_nil_r.
Qed.

Lemma stands_conn s A M all fd slot a : stands s A M all → M !! fd = Some slot → ag_conns A !! fd = Some a →
  ∃ c, rd (g_conn (gs s)) slot = Ok c ∧ cn_id c = fd ∧ cn_agent c = ac_agent a ∧ cn_client c = ac_client a ∧
    db_size (cn_buffer c) = Z.of_nat (length (ac_bytes a)) ∧ Forall byte (ac_bytes a) ∧ 0 ≤ fd.
Proof.
  intros (F & B & Hg & Hall) HM Ha.
  destruct (gr_some _ _ _ _ _ Hg fd a Ha) as (slot' & c & ps & ch & HM' & Hsl & Hc & HB & Hcr).
  rewrite HM in HM'. injection HM' as <-. exists c. split; [apply rd_ok; [lia|done]|].
  destruct Hcr. split; [done|]. split; [done|]. split; [done|]. split; [apply cr_buffer0|].
  split; [done|]. by apply (gr_slot _ _ _ _ _ Hg fd slot).
Qed.

(** An action that is not a free changes nothing but the record. *)
Lemma stands_act s A M all x : is_gfree x = false → stands s A M all →
  stands (GState (gs s) (gacts s ++ [x])) A M all.
Proof.
  intros Hx (F & B & Hg & Hall). exists F, B. split; [done|]. cbn [gacts]. rewrite freed_app.
  assert (freed [x] = []) as -> by (by destruct x). by rewrite app_nil_r.
Qed.

Lemma visible_act l x : is_gfree x = false → visible (l ++ [x]) = visible l ++ [x].
Proof.
  intros Hx. rewrite visible_app. f_equal. unfold visible. by rewrite filter_cons_True by done.
Qed.

(** ** Forwarding a package *)

Lemma init_bytes_lemma (l : list Z) rest : init_bytes (map Some l ++ rest) (Z.of_nat (length l)) = Ok l.
Proof.
  unfold init_bytes. rewrite bool_decide_eq_true_2 by (rewrite length_app, length_map; lia).
  rewrite Nat2Z.id, take_app_le, take_ge by (rewrite length_map; lia).
  induction l as [|x l IH]; [done|]. cbn [map]. cbn. by rewrite IH.
Qed.

Lemma print_digits_length base k : ∀ fuel n acc,
  2 ≤ base → 0 ≤ n < base ^ Z.of_nat (S k) → (length (print_digits fuel base n acc) ≤ S k + length acc)%nat.
Proof.
  induction k as [|k IH]; intros fuel n acc Hb Hn; (destruct fuel as [|fuel]; [cbn; lia|]); cbn [print_digits].
  - rewrite Z.div_small by (change (Z.of_nat 1) with 1 in Hn; lia). cbn [Z.eqb length]. lia.
  - destruct (n / base =? 0); [cbn [length]; lia|].
    assert (0 ≤ n / base < base ^ Z.of_nat (S k)) as Hd.
    { split; [apply Z.div_pos; lia|]. apply Z.div_lt_upper_bound; [lia|].
      rewrite <- Z.pow_succ_r by lia. replace (Z.succ (Z.of_nat (S k))) with (Z.of_nat (S (S k))) by lia. lia. }
    pose proof (IH fuel (n / base) (digit_char (n mod base) :: acc) Hb Hd). cbn [length] in *. lia.
Qed.

Lemma print_d_length n : 0 ≤ n < 2 ^ 31 → (length (print_d n) ≤ 10)%nat.
Proof.
  intros Hn. unfold print_d. destruct (Z.ltb_spec n 0); [lia|].
  pose proof (print_digits_length 10 9 64 n []) as H9. cbn [length] in H9. unfold print_u.
  change (10 ^ Z.of_nat 10) with 10000000000 in H9. lia.
Qed.

(** Taking the next [sz] bytes of a connection. *)
Lemma take_bytes_lemma s A M all fd slot a (pre : list Z) (rest : buffer) sz :
  stands s A M all → M !! fd = Some slot → ag_conns A !! fd = Some a →
  1 ≤ sz ≤ Z.of_nat (length (ac_bytes a)) → sz ≤ Z.of_nat (length rest) →
  ∃ s', on_buffer slot (databuffer_read (map Some pre ++ rest) (Z.of_nat (length pre)) sz) s =
      Ok (map Some (pre ++ take (Z.to_nat sz) (ac_bytes a)) ++ drop (Z.to_nat sz) rest, s') ∧
    stands s' (upd A fd (AConn (ac_agent a) (ac_client a) (ac_header a) (drop (Z.to_nat sz) (ac_bytes a)))) M all ∧
    visible (gacts s') = visible (gacts s).
Proof.
  intros Hs HM Ha Hsz Hrest. destruct (stands_conn _ _ _ _ _ _ _ Hs HM Ha) as (_ & _ & _ & _ & _ & _ & Hb & _).
  destruct (on_buffer_stands s A M all fd slot a (databuffer_read (map Some pre ++ rest) (Z.of_nat (length pre)) sz)
    (map Some (pre ++ take (Z.to_nat sz) (ac_bytes a)) ++ drop (Z.to_nat sz) rest)
    (ac_header a) (drop (Z.to_nat sz) (ac_bytes a)) [] Hs HM Ha) as (s' & E & Hs' & Hv).
  - by apply Forall_drop.
  - intros st ps F ch Hd Hh.
    destruct (databuffer_read_lemma st ps F ch (ac_bytes a) pre rest sz Hd Hsz Hrest)
      as (st' & ps' & F' & ch' & E & Hd' & Hh' & Hf & Hev).
    exists st', ps', F', ch'. rewrite app_nil_r. split; [done|]. split; [done|]. split; [congruence|done].
  - exists s'. rewrite app_nil_r in Hs'. done.
Qed.

(** The buffer of a package whose header has been read loses its bytes. *)
Definition taken (a : aconn) (sz : Z) : aconn :=
  AConn (ac_agent a) (ac_client a) (ac_header a) (drop (Z.to_nat sz) (ac_bytes a)).

Lemma stands_fields s A M all : stands s A M all →
  g_listen_id (gs s) = ag_listen A ∧ g_watchdog (gs s) = ag_watchdog A ∧ g_broker (gs s) = ag_broker A ∧
  g_client_tag (gs s) = ag_tag A ∧ g_header_size (gs s) = ag_hs A ∧ g_max_connection (gs s) = ag_max A.
Proof. intros (F & B & Hg & _). apply Hg. Qed.

Lemma send_taken s A M all fd slot a (pre : list Z) (rest : buffer) sz n (x : list Z → gaction) :
  stands s A M all → M !! fd = Some slot → ag_conns A !! fd = Some a →
  1 ≤ sz ≤ Z.of_nat (length (ac_bytes a)) → sz ≤ Z.of_nat (length rest) →
  n = sz + Z.of_nat (length pre) → (∀ l, is_gfree (x l) = false) →
  ∃ s', (temp ← on_buffer slot (databuffer_read (map Some pre ++ rest) (Z.of_nat (length pre)) sz);
         l ← lift (init_bytes temp n); gact (x l)) s = Ok ((), s') ∧
    stands s' (upd A fd (taken a sz)) M all ∧
    visible (gacts s') = visible (gacts s) ++ [x (pre ++ take (Z.to_nat sz) (ac_bytes a))].
Proof.
  intros Hs HM Ha Hsz Hrest -> Hx. set (p := take (Z.to_nat sz) (ac_bytes a)).
  assert (Hplen : length p = Z.to_nat sz) by (unfold p; rewrite length_take; lia).
  destruct (take_bytes_lemma s A M all fd slot a pre rest sz Hs HM Ha Hsz Hrest) as (s' & E & Hs' & Hv).
  fold p in E. eexists. split.
  - rewrite (sbind_ok _ _ _ _ _ E), (lift_bind _ _ _ (pre ++ p)); [reflexivity|].
    replace (sz + Z.of_nat (length pre)) with (Z.of_nat (length (pre ++ p))) by (rewrite length_app; lia).
    apply init_bytes_lemma.
  - split; [by apply stands_act|]. cbn [gacts]. by rewrite visible_act, Hv.
Qed.

Lemma forward_lemma s A M all fd slot a sz :
  stands s A M all → M !! fd = Some slot → ag_conns A !! fd = Some a → fd < 2 ^ 31 →
  1 ≤ sz ≤ Z.of_nat (length (ac_bytes a)) →
  if has_destination A a then
    ∃ s', forward slot sz s = Ok ((), s') ∧ stands s' (upd A fd (taken a sz)) M all ∧
      visible (gacts s') = visible (gacts s) ++ [deliver A fd a (take (Z.to_nat sz) (ac_bytes a))]
  else forward slot sz s = Ok ((), s).
Proof.
  intros Hs HM Ha Hfd Hsz.
  destruct (stands_conn _ _ _ _ _ _ _ Hs HM Ha) as (c & Hrd & Hid & Hag & Hcl & _ & _ & H0).
  destruct (stands_fields _ _ _ _ Hs) as (_ & Ewd & Ebr & Etag & _ & _).
  unfold forward, has_destination, deliver, getG. rewrite gets_bind, (lift_bind _ _ _ _ Hrd).
  rewrite Hid, Hag, Hcl, Ewd, Ebr, Etag.
  assert (Hsend := λ x, send_taken s A M all fd slot a [] (replicate (Z.to_nat sz) None) sz sz x
    Hs HM Ha Hsz ltac:(rewrite length_replicate; lia) ltac:(cbn [length]; lia)). cbn [app map length] in Hsend.
  change (Z.of_nat 0) with 0 in Hsend.
  destruct (negb (ag_broker A =? 0)); cbn [orb]; [by apply (Hsend (λ l, GSend _ _ _ _ l))|].
  destruct (negb (ac_agent a =? 0)); cbn [orb]; [by apply (Hsend (λ l, GSend _ _ _ _ l))|].
  destruct (negb (ag_watchdog A =? 0)); [|done]. clear Hsend.
  set (text := print_d fd ++ str " data ").
  assert (Htl : (length text ≤ 16)%nat).
  { unfold text. rewrite length_app. pose proof (print_d_length fd ltac:(lia)) as Hd.
    change (length (str " data ")) with 6%nat. lia. }
  rewrite (take_ge text) by lia.
  assert (Hw : wr_at (replicate (Z.to_nat (sz + 32)) None) 0 (text ++ [0]) =
    Ok (map Some text ++ Some 0 :: replicate (Z.to_nat sz + 31 - length text) None)).
  { pose proof (wr_at_fill (text ++ [0]) [] (Z.to_nat (sz + 32))) as Hw. cbn [map app length] in Hw.
    change (Z.of_nat 0) with 0 in Hw. rewrite length_app in Hw. cbn [length] in Hw. rewrite Hw by lia.
    rewrite map_app, <- app_assoc. cbn [map app]. do 4 f_equal. lia. }
  rewrite (lift_bind _ _ _ _ Hw). rewrite (assoc_L (++) (print_d fd)). fold text.
  apply (send_taken s A M all fd slot a text _ sz _ (λ l, GSend _ _ _ _ l)); try done.
  cbn [length]. rewrite length_replicate. lia.
Qed.

(** ** Cutting the stream *)

Definition with_bytes (a : aconn) (h : Z) (s : list Z) : aconn := AConn (ac_agent a) (ac_client a) h s.

Lemma next_header_bytes hs h s h1 s1 :
  next_header hs h s = Some (h1, s1) → Forall byte s → Forall byte s1 ∧ (length s1 ≤ length s)%nat ∧
    (h = 0 → 0 ≤ hs → (length s1 + Z.to_nat hs = length s)%nat).
Proof.
  unfold next_header. intros E Hs. destruct (Z.eqb_spec h 0) as [->|Hne].
  - destruct (Z.ltb_spec (Z.of_nat (length s)) hs); [done|]. injection E as <- <-.
    split; [by apply Forall_drop|]. rewrite length_drop. lia.
  - injection E as <- <-. split; [done|]. split; [lia|done].
Qed.

Lemma readheader_stands s A M all fd slot a :
  stands s A M all → M !! fd = Some slot → ag_conns A !! fd = Some a → header_ok (ag_hs A) →
  let r := next_header (ag_hs A) (ac_header a) (ac_bytes a) in
  let a' := match r with None => a | Some (h, b) => with_bytes a h b end in
  ∃ s', on_buffer slot (databuffer_readheader (ag_hs A)) s =
      Ok (match r with None => -1 | Some (h, b) => header_answer h b end, s') ∧
    stands s' (upd A fd a') M all ∧ visible (gacts s') = visible (gacts s).
Proof.
  intros Hs HM Ha Hhs. destruct (stands_conn _ _ _ _ _ _ _ Hs HM Ha) as (_ & _ & _ & _ & _ & _ & Hb & _).
  cbv zeta. unfold next_header.
  assert (Hid : AConn (ac_agent a) (ac_client a) (ac_header a) (ac_bytes a) = a) by (by destruct a).
  destruct (Z.eqb_spec (ac_header a) 0) as [Eh|Hne].
  - destruct (Z.ltb_spec (Z.of_nat (length (ac_bytes a))) (ag_hs A)) as [Hlt|Hge].
    + destruct (on_buffer_stands s A M all fd slot a (databuffer_readheader (ag_hs A)) (-1) (ac_header a) (ac_bytes a) []
        Hs HM Ha Hb) as (s' & E & Hs' & Hv); [|rewrite Hid, app_nil_r in Hs'; eauto].
      intros st ps F ch Hd Hh. exists st, ps, F, ch. rewrite app_nil_r.
      split; [eapply readheader_short; [done|congruence|done]|]. split; [done|]. split; [done|]. split; [done|by apply evolves_refl].
    + set (h := header_value (ag_hs A) (take (Z.to_nat (ag_hs A)) (ac_bytes a))).
      destruct (on_buffer_stands s A M all fd slot a (databuffer_readheader (ag_hs A))
        (header_answer h (drop (Z.to_nat (ag_hs A)) (ac_bytes a))) h (drop (Z.to_nat (ag_hs A)) (ac_bytes a)) []
        Hs HM Ha) as (s' & E & Hs' & Hv); [by apply Forall_drop| |rewrite app_nil_r in Hs'; eauto].
      intros st ps F ch Hd Hh.
      destruct (readheader_full st ps F ch (ac_bytes a) (ag_hs A) Hd ltac:(congruence) Hhs Hge Hb)
        as (st' & ps' & F' & ch' & E & Hd' & Hh' & Hf & Hev).
      exists st', ps', F', ch'. by rewrite app_nil_r.
  - destruct (on_buffer_stands s A M all fd slot a (databuffer_readheader (ag_hs A))
      (header_answer (ac_header a) (ac_bytes a)) (ac_header a) (ac_bytes a) [] Hs HM Ha Hb) as (s' & E & Hs' & Hv);
      [|rewrite app_nil_r in Hs'; unfold with_bytes; eauto].
    intros st ps F ch Hd Hh. exists st, ps, F, ch. rewrite app_nil_r.
    split; [rewrite <- Hh; eapply readheader_known; [done|congruence]|]. split; [done|]. split; [done|]. split; [done|by apply evolves_refl].
Qed.

Lemma reset_stands s A M all fd slot a :
  stands s A M all → M !! fd = Some slot → ag_conns A !! fd = Some a →
  ∃ s', on_buffer slot databuffer_reset s = Ok ((), s') ∧
    stands s' (upd A fd (with_bytes a 0 (ac_bytes a))) M all ∧ visible (gacts s') = visible (gacts s).
Proof.
  intros Hs HM Ha. destruct (stands_conn _ _ _ _ _ _ _ Hs HM Ha) as (_ & _ & _ & _ & _ & _ & Hb & _).
  destruct (on_buffer_stands s A M all fd slot a databuffer_reset () 0 (ac_bytes a) [] Hs HM Ha Hb)
    as (s' & E & Hs' & Hv); [|rewrite app_nil_r in Hs'; eauto].
  intros st ps F ch [[] ? ? ?] Hh. exists (BufState (set_header 0 (bs_db st)) (bs_mp st) (bs_freed st)), ps, F, ch.
  rewrite app_nil_r. split; [done|]. split; [split; [by split|done..]|]. split; [done|]. split; [done|by apply evolves_refl].
Qed.

Lemma clear_stands s A M all fd slot a :
  stands s A M all → M !! fd = Some slot → ag_conns A !! fd = Some a →
  ∃ s', on_buffer slot databuffer_clear s = Ok ((), s') ∧
    stands s' (upd A fd (with_bytes a 0 [])) M all ∧ visible (gacts s') = visible (gacts s).
Proof.
  intros Hs HM Ha.
  destruct (on_buffer_stands s A M all fd slot a databuffer_clear () 0 [] [] Hs HM Ha (Forall_nil_2 _))
    as (s' & E & Hs' & Hv); [|rewrite app_nil_r in Hs'; eauto].
  intros st ps F ch Hd Hh. destruct (databuffer_clear_lemma st ps F ch _ Hd) as (st' & F' & E & Hd' & Edb & Hf & Hev).
  exists st', [], F', []. rewrite !app_nil_r. split; [done|]. split; [done|]. split; [by rewrite Edb|done].
Qed.

(** The state after the loop, for what [cut_] says. *)
Definition cut_result (s : gstate) (A : agate) (M : gmap Z Z) (all : list (list Z)) (fd : Z) (a : aconn)
    (r : list (list Z) * cut_end) (s' : gstate) : Prop :=
  match r.2 with
  | More h b => stands s' (upd A fd (with_bytes a h b)) M all ∧
      visible (gacts s') = visible (gacts s) ++ deliveries A fd a r.1
  | TooLong => stands s' (upd A fd (with_bytes a 0 [])) M all ∧
      visible (gacts s') = visible (gacts s) ++ deliveries A fd a r.1 ++
        [GSocketClose fd; GError (str "Recv socket message > 16M")]
  end.

(** One package: it is handed on and the next header is awaited. *)
Lemma package_lemma s A M all fd slot a :
  stands s A M all → M !! fd = Some slot → ag_conns A !! fd = Some a → fd < 2 ^ 31 →
  let h := ac_header a in
  1 ≤ h ≤ Z.of_nat (length (ac_bytes a)) → h < 0x1000000 →
  ∃ s', dispatch_size slot fd h s = Ok (Continue (), s') ∧
    stands s' (upd A fd (with_bytes a 0 (if has_destination A a then drop (Z.to_nat h) (ac_bytes a) else ac_bytes a))) M all ∧
    visible (gacts s') = visible (gacts s) ++ deliveries A fd a [take (Z.to_nat h) (ac_bytes a)].
Proof.
  intros Hs HM Ha Hfd h Hh Hmax. unfold dispatch_size.
  destruct (Z.ltb_spec h 0); [lia|]. destruct (Z.gtb_spec h 0); [|lia].
  destruct (Z.geb_spec h 0x1000000); [lia|].
  pose proof (forward_lemma s A M all fd slot a h Hs HM Ha Hfd Hh) as Hf. unfold deliveries.
  destruct (has_destination A a).
  - destruct Hf as (s1 & E1 & Hs1 & Hv1). rewrite (sbind_ok _ _ _ _ _ E1).
    destruct (reset_stands s1 _ M all fd slot (taken a h) Hs1 HM (upd_lookup _ _ _)) as (s2 & E2 & Hs2 & Hv2).
    rewrite (sbind_ok _ _ _ _ _ E2). exists s2. split; [done|]. rewrite upd_upd in Hs2. split; [done|].
    by rewrite Hv2, Hv1.
  - rewrite (sbind_ok _ _ _ _ _ Hf).
    destruct (reset_stands s A M all fd slot a Hs HM Ha) as (s2 & E2 & Hs2 & Hv2).
    rewrite (sbind_ok _ _ _ _ _ E2). exists s2. split; [done|]. split; [done|]. by rewrite Hv2, app_nil_r.
Qed.

Lemma deliveries_cons A fd a p ps : deliveries A fd a (p :: ps) = deliveries A fd a [p] ++ deliveries A fd a ps.
Proof. unfold deliveries. by destruct (has_destination A a). Qed.

Lemma cut_result_shift s A M all fd a s1 a1 s' h b l r :
  a1 = with_bytes a h b → visible (gacts s1) = visible (gacts s) ++ deliveries A fd a l →
  cut_result s1 (upd A fd a1) M all fd a1 r s' → cut_result s A M all fd a (l ++ r.1, r.2) s'.
Proof.
  intros -> Hv. unfold cut_result. cbn [fst snd].
  assert (∀ x, deliveries A fd a (l ++ x) = deliveries A fd a l ++ deliveries A fd a x) as Hd.
  { intros x. unfold deliveries. destruct (has_destination A a); [apply map_app|done]. }
  rewrite Hd. destruct r as [ps [h' b'|]]; cbn [fst snd]; intros [Hs Hv']; rewrite upd_upd in Hs;
    (split; [done|]); rewrite Hv', Hv, <- !(assoc_L (++)); done.
Qed.

(** Rounds the loop needs: one for every header, one more for a header that is known. *)
Definition rounds (a : aconn) : nat :=
  (length (ac_bytes a) + (if (ac_header a =? 0)%Z then 0 else 1))%nat.

Section loop.
Context (slot fd : Z) (M : gmap Z Z) (all : list (list Z)).

(** What [fuel] rounds do, for every state with few enough bytes. *)
Definition cuts (fuel : nat) : Prop := ∀ s A a,
  stands s A M all → ag_conns A !! fd = Some a → header_ok (ag_hs A) → (rounds a < fuel)%nat →
  ∃ s', iterateM fuel (dispatch_round slot fd) () s = Ok ((), s') ∧
    cut_result s A M all fd a (cut_ fuel (ag_hs A) (negb (has_destination A a)) (ac_header a) (ac_bytes a)) s'.

Lemma round_stop fuel s A a s1 h b :
  dispatch_round slot fd () s = Ok (Break (), s1) →
  stands s1 (upd A fd (with_bytes a h b)) M all → visible (gacts s1) = visible (gacts s) →
  ∃ s', iterateM (S fuel) (dispatch_round slot fd) () s = Ok ((), s') ∧
    cut_result s A M all fd a ([], More h b) s'.
Proof.
  intros Er Hs1 Hv. cbn [iterateM]. rewrite (sbind_ok _ _ _ _ _ Er). exists s1. split; [done|].
  split; [done|]. rewrite Hv. unfold deliveries. destruct (has_destination A a); by rewrite app_nil_r.
Qed.

Lemma round_continue fuel s A a s2 b l : cuts fuel →
  header_ok (ag_hs A) → (length b < fuel)%nat →
  dispatch_round slot fd () s = Ok (Continue (), s2) →
  stands s2 (upd A fd (with_bytes a 0 b)) M all →
  visible (gacts s2) = visible (gacts s) ++ deliveries A fd a l →
  ∃ s', iterateM (S fuel) (dispatch_round slot fd) () s = Ok ((), s') ∧
    cut_result s A M all fd a
      (let '(ps, e) := cut_ fuel (ag_hs A) (negb (has_destination A a)) 0 b in (l ++ ps, e)) s'.
Proof.
  intros IH Hhs Hb Er Hs2 Hv2. cbn [iterateM]. rewrite (sbind_ok _ _ _ _ _ Er).
  destruct (IH s2 (upd A fd (with_bytes a 0 b)) (with_bytes a 0 b) Hs2 (upd_lookup _ _ _) Hhs) as (s' & E & Hr);
    [unfold rounds; cbn; lia|].
  exists s'. split; [done|].
  pose proof (cut_result_shift s A M all fd a s2 _ s' 0 b l _ eq_refl Hv2 Hr) as Hr'.
  cbn [ag_hs upd set_conns ac_header ac_bytes with_bytes] in Hr'.
  change (has_destination (upd _ _ _) _) with (has_destination A a) in Hr'.
  by destruct (cut_ fuel (ag_hs A) (negb (has_destination A a)) 0 b).
Qed.

Lemma dispatch_loop fuel : M !! fd = Some slot → fd < 2 ^ 31 → cuts fuel.
Proof.
  intros HM Hfd. induction fuel as [|fuel IH]; intros s A a Hs Ha Hhs Hf; [lia|].
  destruct (stands_conn _ _ _ _ _ _ _ Hs HM Ha) as (_ & _ & _ & _ & _ & _ & Hb & _).
  destruct (stands_fields _ _ _ _ Hs) as (_ & _ & _ & _ & Ehs & _).
  destruct (readheader_stands s A M all fd slot a Hs HM Ha Hhs) as (s1 & E1 & Hs1 & Hv1).
  assert (Er : dispatch_round slot fd () s = dispatch_size slot fd
    (match next_header (ag_hs A) (ac_header a) (ac_bytes a) with None => -1 | Some (h, b) => header_answer h b end) s1).
  { unfold dispatch_round, getG. by rewrite gets_bind, Ehs, (sbind_ok _ _ _ _ _ E1). }
  assert (Hstop : ∀ z, z < 0 → dispatch_size slot fd z s1 = Ok (Break (), s1)).
  { intros z Hz. unfold dispatch_size. by destruct (Z.ltb_spec z 0); [|lia]. }
  cbn [cut_]. destruct (next_header (ag_hs A) (ac_header a) (ac_bytes a)) as [[h b]|] eqn:En.
  2:{ rewrite Hstop in Er by lia. apply (round_stop fuel s A a s1); [done| |done].
      assert (ac_header a = 0) as Eh.
      { unfold next_header in En. by destruct (Z.eqb_spec (ac_header a) 0). }
      assert (with_bytes a 0 (ac_bytes a) = a) as -> by (destruct a; cbn in *; by subst). done. }
  destruct (next_header_bytes _ _ _ _ _ En Hb) as (Hb1 & Hl1 & Hl2).
  assert (Hfb : (length b < fuel)%nat).
  { unfold rounds in Hf. destruct (Z.eqb_spec (ac_header a) 0) as [E0|]; [|lia].
    specialize (Hl2 E0). destruct Hhs as [E | E]; rewrite E in Hl2; specialize (Hl2 ltac:(lia)); lia. }
  unfold header_answer in Er. destruct (Z.ltb_spec (Z.of_nat (length b)) h) as [Hlt|Hge]; cbn [orb].
  { rewrite Hstop in Er by lia. by apply (round_stop fuel s A a s1). }
  destruct (Z.ltb_spec h 0) as [Hneg|Hpos].
  { rewrite Hstop in Er by lia. by apply (round_stop fuel s A a s1). }
  set (A1 := upd A fd (with_bytes a h b)) in *. destruct (Z.eqb_spec h 0) as [->|Hne].
  { destruct (round_continue fuel s A a s1 b [] IH Hhs Hfb) as (s' & E & Hr); [done|done| |].
    - rewrite Hv1. unfold deliveries. destruct (has_destination A a); by rewrite app_nil_r.
    - exists s'. split; [done|]. by destruct (cut_ fuel (ag_hs A) _ 0 b). }
  destruct (Z.geb_spec h 0x1000000) as [Hbig|Hsmall].
  - destruct (clear_stands s1 A1 M all fd slot (with_bytes a h b) Hs1 HM (upd_lookup _ _ _)) as (s2 & E2 & Hs2 & Hv2).
    unfold A1 in Hs2. rewrite upd_upd in Hs2. cbn [iterateM].
    set (s3 := GState (gs s2) ((gacts s2 ++ [GSocketClose fd]) ++ [GError (str "Recv socket message > 16M")])).
    assert (dispatch_round slot fd () s = Ok (Break (), s3)) as Er'.
    { rewrite Er. unfold dispatch_size. destruct (Z.ltb_spec h 0); [lia|]. destruct (Z.gtb_spec h 0); [|lia].
      destruct (Z.geb_spec h 0x1000000); [|lia]. by rewrite (sbind_ok _ _ _ _ _ E2). }
    rewrite (sbind_ok _ _ _ _ _ Er'). exists s3. split; [done|]. split.
    + cbn [fst snd]. apply (stands_act (GState _ _)); [done|]. by apply stands_act.
    + cbn [gacts s3 fst]. rewrite !visible_act, Hv2, Hv1 by done. unfold deliveries.
      destruct (has_destination A a); by rewrite <- app_assoc.
  - destruct (package_lemma s1 A1 M all fd slot (with_bytes a h b) Hs1 HM (upd_lookup _ _ _) Hfd) as (s2 & E2 & Hs2 & Hv2);
      [cbn; lia|cbn; lia|].
    cbn [ac_header ac_bytes with_bytes] in E2, Hs2, Hv2. unfold A1 in Hs2. rewrite upd_upd in Hs2.
    change (has_destination (upd _ _ _) _) with (has_destination A a) in Hs2.
    change (deliveries A1 fd (with_bytes a h b)) with (deliveries A fd a) in Hv2.
    rewrite E2 in Er.
    set (b2 := if negb (has_destination A a) then b else drop (Z.to_nat h) b).
    destruct (round_continue fuel s A a s2 b2 [take (Z.to_nat h) b] IH Hhs) as (s' & E & Hr); [|done| | |].
    + unfold b2. destruct (negb _); [done|]. rewrite length_drop. lia.
    + unfold b2. revert Hs2. by destruct (has_destination A a).
    + by rewrite Hv2, Hv1.
    + exists s'. split; [done|]. fold b2. by destruct (cut_ fuel (ag_hs A) _ 0 b2).
Qed.

End loop.
