(* ===== verification/GateRefines.v ===== *)
(** The gate refines its specification: histories of messages.

    [gate_op] has the messages a gate gets, [astep] what the specification does with each,
    and [run_op] the message itself, given to the gate's callback. *)

From S2P Require Import Prelude CString MessageQueue Node Server.
From S2P Require Import Chain Frames HashId DataBuffer Gate GateText GateProps.
Open Scope Z_scope.

(** ** Messages *)

Inductive gate_op : Set :=
| OpData (fd : Z) (data : list Z)
| OpConnect (fd : Z)
| OpClose (err : bool) (fd : Z)
| OpAccept (fd : Z) (nm : list Z)
| OpWarning (fd ud : Z)
| OpClient (src fd : Z) (data : list Z)
| OpForward (fd agentaddr clientaddr : Z)
| OpKick (fd : Z)
| OpStart (fd : Z)
| OpBroker (nm : cstring)
| OpShut.

(** An id at the end of a client's message, as its four bytes. *)
Definition id_bytes (fd : Z) : list Z :=
  [Z.land fd 255; Z.land (Z.shiftr fd 8) 255; Z.land (Z.shiftr fd 16) 255; Z.land (Z.shiftr fd 24) 255].

Section refines.
Context `{!GateRuntime}.

Definition text_op (w arg : list Z) : SM gstate Z := cb PTYPE_TEXT 0 (GBytes (command_text w arg)).

Definition run_op (op : gate_op) : SM gstate Z :=
  match op with
  | OpData fd data =>
      cb PTYPE_SOCKET 0 (GSocket (GateEvent SKYNET_SOCKET_TYPE_DATA fd (Z.of_nat (length data)) data []))
  | OpConnect fd => cb PTYPE_SOCKET 0 (GSocket (GateEvent SKYNET_SOCKET_TYPE_CONNECT fd 0 [] []))
  | OpClose err fd =>
      cb PTYPE_SOCKET 0 (GSocket (GateEvent
        (if err : bool then SKYNET_SOCKET_TYPE_ERROR else SKYNET_SOCKET_TYPE_CLOSE) fd 0 [] []))
  | OpAccept fd nm =>
      g ← getG;
      cb PTYPE_SOCKET 0 (GSocket (GateEvent SKYNET_SOCKET_TYPE_ACCEPT (g_listen_id g) fd [] nm))
  | OpWarning fd ud => cb PTYPE_SOCKET 0 (GSocket (GateEvent SKYNET_SOCKET_TYPE_WARNING fd ud [] []))
  | OpClient src fd data => cb PTYPE_CLIENT src (GBytes (data ++ id_bytes fd))
  | OpForward fd agentaddr clientaddr => text_op (str "forward") (forward_args fd agentaddr clientaddr)
  | OpKick fd => text_op (str "kick") (print_d fd)
  | OpStart fd => text_op (str "start") (print_d fd)
  | OpBroker nm => text_op (str "broker") nm
  | OpShut => cb PTYPE_TEXT 0 (GBytes (str "close"))
  end.

Fixpoint run_ops (ops : list gate_op) : SM gstate (list Z) :=
  match ops with
  | [] => mret []
  | op :: ops => r ← run_op op; rs ← run_ops ops; mret (r :: rs)
  end.

(** ** The specification *)

Definition with_conn (A : agate) (fd : Z) (f : aconn → agate * list gaction) (none : list gaction)
  : agate * list gaction :=
  match ag_conns A !! fd with Some a => f a | None => (A, none) end.

Definition set_alisten (id : Z) (A : agate) : agate :=
  AGate id (ag_watchdog A) (ag_broker A) (ag_tag A) (ag_hs A) (ag_max A) (ag_conns A).
Definition set_abroker (b : Z) (A : agate) : agate :=
  AGate (ag_listen A) (ag_watchdog A) b (ag_tag A) (ag_hs A) (ag_max A) (ag_conns A).

(** The address of a client as the watchdog sees it. *)
Definition shown_name (nm : list Z) : cstring := default [] (c_string (take 31 nm ++ [0])).

Definition a_accept (A : agate) (fd : Z) (nm : list Z) : agate * list gaction :=
  if bool_decide (Z.of_nat (size (ag_conns A)) = ag_max A) then (A, [GSocketClose fd])
  else (upd A fd (AConn 0 0 0 []),
        areport A (print_d fd ++ str " open " ++ print_d fd ++ str " " ++ shown_name nm ++ str ":0") ++
        [GError (str "socket open: " ++ print_x fd)]).

(** The gate after a message, and what it does, the freeing of buffers left out. *)
Definition astep (A : agate) (op : gate_op) : agate * list gaction :=
  match op with
  | OpData fd data =>
      with_conn A fd (λ a, let '(a', acts) := a_data A fd a data in (upd A fd a', acts))
        [GError (str "Drop unknown connection " ++ print_d fd ++ str " message"); GSocketClose fd]
  | OpConnect fd =>
      if fd =? ag_listen A then (A, [])
      else with_conn A fd (λ _, (A, []))
             [GError (str "Close unknown connection " ++ print_d fd); GSocketClose fd]
  | OpClose _ fd =>
      with_conn A fd (λ _, (set_conns (delete fd (ag_conns A)) A, areport A (print_d fd ++ str " close"))) []
  | OpAccept fd nm => a_accept A fd nm
  | OpWarning fd ud =>
      (A, [GError (str "fd (" ++ print_d fd ++ str ") send buffer (" ++ print_d ud ++ str ")K")])
  | OpClient src fd data =>
      with_conn A fd (λ _, (A, [GSocketSend fd data]))
        [GError (str "Invalid client id " ++ print_d fd ++ str " from " ++ print_x src)]
  | OpForward fd agentaddr clientaddr =>
      with_conn A fd (λ a, (upd A fd (AConn agentaddr clientaddr (ac_header a) (ac_bytes a)), [])) []
  | OpKick fd => with_conn A fd (λ _, (A, [GSocketClose fd])) []
  | OpStart fd => with_conn A fd (λ _, (A, [GSocketStart fd])) []
  | OpBroker nm => (set_abroker (rt_queryname nm) A, [])
  | OpShut => if ag_listen A >=? 0 then (set_alisten (-1) A, [GSocketClose (ag_listen A)]) else (A, [])
  end.

(** 1: the message belongs to the socket server now. *)
Definition aret (A : agate) (op : gate_op) : Z :=
  match op with OpClient _ fd _ => if ag_conns A !! fd then 1 else 0 | _ => 0 end.

Fixpoint asteps (A : agate) (ops : list gate_op) : agate * list gaction :=
  match ops with
  | [] => (A, [])
  | op :: ops => let '(A1, l1) := astep A op in let '(A2, l2) := asteps A1 ops in (A2, l1 ++ l2)
  end.

Fixpoint arets (A : agate) (ops : list gate_op) : list Z :=
  match ops with [] => [] | op :: ops => aret A op :: arets (astep A op).1 ops end.

(** What the gate relies on: ids are those of sockets, a new connection has a new id, the
    bytes waiting on a connection fit an [int], and commands are well formed. *)
Definition gop_ok (A : agate) (op : gate_op) : Prop :=
  match op with
  | OpData fd data => 0 ≤ fd < 2 ^ 31 ∧ Forall byte data ∧
      match ag_conns A !! fd with
      | Some a => Z.of_nat (length (ac_bytes a)) + Z.of_nat (length data) ≤ INT_MAX
      | None => True
      end
  | OpAccept fd nm => 0 ≤ fd < 2 ^ 30 ∧ ag_conns A !! fd = None
  | OpClient _ fd data => 0 ≤ fd < 2 ^ 31 ∧ data ≠ []
  | OpForward fd agentaddr clientaddr =>
      0 ≤ fd < 2 ^ 31 ∧ 0 ≤ agentaddr < 2 ^ 32 ∧ 0 ≤ clientaddr < 2 ^ 32
  | OpKick fd | OpStart fd | OpClose _ fd => 0 ≤ fd < 2 ^ 31
  | OpBroker nm => hd 0 nm ≠ 32 ∧ Forall (λ c, c ≠ 0) nm
  | OpConnect _ | OpWarning _ _ | OpShut => True
  end.

Fixpoint gops_ok (A : agate) (ops : list gate_op) : Prop :=
  match ops with [] => True | op :: ops => gop_ok A op ∧ gops_ok (astep A op).1 ops end.

#[global] Instance gop_ok_dec A op : Decision (gop_ok A op).
Proof. destruct op; cbn [gop_ok]; try apply _. destruct (ag_conns A !! fd); apply _. Defined.

#[global] Instance gops_ok_dec ops : ∀ A, Decision (gops_ok A ops).
Proof. induction ops; intros A; cbn [gops_ok]; apply _. Defined.

(** The buffers a message brings. *)
Definition brings (op : gate_op) : list (list Z) := match op with OpData _ data => [data] | _ => [] end.

(** The gate stands for [A] after being given the buffers [all]. *)
Definition gate_inv (s : gstate) (A : agate) (all : list (list Z)) : Prop := ∃ M, stands s A M all.

(** ** One message *)

Definition refines_op (s : gstate) (A : agate) (all : list (list Z)) (r : res (Z * gstate)) (ret : Z)
    (A' : agate) (acts : list gaction) (new : list (list Z)) : Prop :=
  ∃ s', r = Ok (ret, s') ∧ gate_inv s' A' (all ++ new) ∧ visible (gacts s') = visible (gacts s) ++ acts.

Definition plain (l : list gaction) : Prop := Forall (λ x, is_gfree x = false) l.

Lemma plain_facts l : plain l → freed l = [] ∧ visible l = l.
Proof.
  intros Hl. split; [|apply filter_all; intros x Hx; by eapply Forall_elem in Hl].
  induction Hl as [|x l Hx _ IH]; [done|]. unfold freed in *. cbn. destruct x; try done; exact IH.
Qed.

Lemma stands_acts s A M all l : plain l → stands s A M all → stands (GState (gs s) (gacts s ++ l)) A M all.
Proof.
  intros [Hl _]%plain_facts (F & B & Hg & Hall). exists F, B. split; [done|].
  cbn [gacts]. by rewrite freed_app, Hl, app_nil_r.
Qed.

Lemma refines_acts s A all acts ret : gate_inv s A all → plain acts →
  refines_op s A all (Ok (ret, GState (gs s) (gacts s ++ acts))) ret A acts [].
Proof.
  intros [M Hs] Hacts. eexists. split; [done|]. rewrite app_nil_r. split.
  - exists M. by apply stands_acts.
  - cbn [gacts]. rewrite visible_app. by rewrite (proj2 (plain_facts _ Hacts)).
Qed.

Lemma refines_none s A all ret : gate_inv s A all → refines_op s A all (Ok (ret, s)) ret A [] [].
Proof.
  intros Hs. pose proof (refines_acts s A all [] ret Hs (Forall_nil_2 _)) as Hr.
  rewrite app_nil_r in Hr. by destruct s.
Qed.

Lemma plain_report A text : plain (areport A text).
Proof. unfold areport, plain. destruct (_ =? _); repeat constructor. Qed.

Lemma report_lemma s A M all text : stands s A M all → Z.of_nat (length text) < 1024 →
  report text s = Ok ((), GState (gs s) (gacts s ++ areport A text)).
Proof.
  intros Hs Hlen. destruct (stands_fields _ _ _ _ Hs) as (_ & Ewd & _).
  unfold report, areport, getG. rewrite gets_bind, Ewd. destruct (ag_watchdog A =? 0).
  - rewrite app_nil_r. by destruct s.
  - by rewrite bool_decide_eq_true_2.
Qed.

(** The table's answer for an id. *)
Lemma gate_lookup_lemma s A M all fd : stands s A M all →
  hashid_lookup (g_hash (gs s)) fd = Ok (default (-1) (M !! fd)) ∧
  match M !! fd with
  | Some slot => 0 ≤ slot ∧ ∃ a, ag_conns A !! fd = Some a
  | None => ag_conns A !! fd = None
  end.
Proof.
  intros (F & B & Hg & _). split; [by eapply gr_lookup|]. destruct (M !! fd) as [slot|] eqn:HM.
  - split; [by apply (gr_slot _ _ _ _ _ Hg fd)|].
    destruct (gr_conn _ _ _ _ _ Hg fd slot HM) as (c & a & ps & ch & _ & Ha & _). by exists a.
  - by apply (gr_none _ _ _ _ _ Hg).
Qed.

(** A handler that looks the id up and does one thing. *)
Lemma lookup_act s A all fd (f : Z → gaction) :
  gate_inv s A all → is_gfree (f fd) = false →
  ∃ s', (g ← getG; slot ← lift (hashid_lookup (g_hash g) fd);
         if slot >=? 0 then gact (f fd) else mret ()) s = Ok ((), s') ∧
    gate_inv s' A all ∧
    visible (gacts s') = visible (gacts s) ++ (with_conn A fd (λ _, (A, [f fd])) []).2.
Proof.
  intros [M Hs] Hf. destruct (gate_lookup_lemma s A M all fd Hs) as [El Hm]. unfold getG, with_conn.
  rewrite gets_bind, (lift_bind _ _ _ _ El). destruct (M !! fd) as [slot|]; cbn [default from_option id].
  - destruct Hm as (H0 & a & ->). cbn [snd]. destruct (Z.geb_spec slot 0); [|lia]. eexists. split; [reflexivity|].
    split; [exists M; by apply stands_act|]. cbn [gacts]. by apply visible_act.
  - rewrite Hm. exists s. split; [done|]. cbn [snd]. rewrite app_nil_r. split; [by exists M|done].
Qed.

(** ** Data *)

Lemma data_lemma s A M all fd slot a data :
  stands s A M all → M !! fd = Some slot → ag_conns A !! fd = Some a → header_ok (ag_hs A) →
  fd < 2 ^ 31 → Forall byte data → Z.of_nat (length (ac_bytes a)) + Z.of_nat (length data) ≤ INT_MAX →
  ∃ s', dispatch_message slot fd data (Z.of_nat (length data)) s = Ok ((), s') ∧
    stands s' (upd A fd (a_data A fd a data).1) M (all ++ [data]) ∧
    visible (gacts s') = visible (gacts s) ++ (a_data A fd a data).2.
Proof.
  intros Hs HM Ha Hhs Hfd Hdata Hlen.
  destruct (stands_conn _ _ _ _ _ _ _ Hs HM Ha) as (_ & _ & _ & _ & _ & _ & Hb & _).
  set (a1 := with_bytes a (ac_header a) (ac_bytes a ++ data)).
  destruct (on_buffer_stands s A M all fd slot a (databuffer_push data (Z.of_nat (length data))) ()
    (ac_header a) (ac_bytes a ++ data) [data] Hs HM Ha) as (s1 & E1 & Hs1 & Hv1).
  { by apply Forall_app. }
  { intros st ps F ch Hd Hh. destruct (databuffer_push_lemma st ps F ch _ data Hd Hlen)
      as (st' & ps' & F' & E & Hd' & Hh' & Hf & Hev).
    exists st', ps', F', (ch ++ [data]). rewrite Hf. split; [done|]. split; [done|]. split; [congruence|done]. }
  fold (with_bytes a (ac_header a) (ac_bytes a ++ data)) in Hs1. fold a1 in Hs1.
  destruct (stands_conn s1 (upd A fd a1) M _ fd slot a1 Hs1 HM (upd_lookup _ _ _)) as (c1 & Hrd & _ & _ & _ & Hsz & _).
  destruct (dispatch_loop slot fd M (all ++ [data]) (2 + length (ac_bytes a1)) HM Hfd s1 (upd A fd a1) a1 Hs1
    (upd_lookup _ _ _) Hhs) as (s' & E & Hr); [unfold rounds; destruct (ac_header a1 =? 0); lia|].
  exists s'. split.
  - unfold dispatch_message, getG. rewrite (sbind_ok _ _ _ _ _ E1), gets_bind, (lift_bind _ _ _ _ Hrd).
    rewrite Hsz, Nat2Z.id. exact E.
  - unfold a_data, cut. change (ac_bytes a ++ data) with (ac_bytes a1). change (ac_header a) with (ac_header a1).
    unfold cut_result in Hr. change (has_destination (upd A fd a1) a1) with (has_destination A a) in Hr.
    change (ag_hs (upd A fd a1)) with (ag_hs A) in Hr.
    destruct (cut_ _ _ _ _ _) as [ps [h b|]]; cbn [fst snd] in *; rewrite upd_upd, Hv1 in Hr; exact Hr.
Qed.

(** ** Closing a connection *)

Lemma delete_repr g A M F B fd slot h : gate_repr g A M F B → M !! fd = Some slot →
  hash_repr h (delete fd M) → hi_cap h = hi_cap (g_hash g) →
  gate_repr (set_table h (<[Z.to_nat slot := set_cn_id (-1) connection_zero]> (g_conn g)) (g_mp g) g)
    (set_conns (delete fd (ag_conns A)) A) (delete fd M) F (delete fd B).
Proof.
  intros Hg HM Hh Hcap. destruct (gr_slot _ _ _ _ _ Hg fd slot HM) as [Hsl _]. split; cbn; try apply Hg; try done.
  - rewrite length_insert, Hcap. apply Hg.
  - rewrite !dom_delete_L. destruct (gr_dom _ _ _ _ _ Hg) as [-> ->]. by destruct (gr_dom _ _ _ _ _ Hg) as [-> _].
  - intros fd2 slot2 [Hne HM2]%lookup_delete_Some.
    destruct (gr_conn _ _ _ _ _ Hg fd2 slot2 HM2) as (c & a & ps & ch & Hc & Ha & HB & Hr).
    destruct (gr_slot _ _ _ _ _ Hg fd2 slot2 HM2) as [Hsl2 _].
    assert (slot2 ≠ slot) by (intros ->; by apply Hne, (gr_inj _ _ _ _ _ Hg _ _ slot)).
    exists c, a, ps, ch. rewrite list_lookup_insert_ne, !lookup_delete_ne by (done || lia). destruct Hr. done.
  - intros slot2 c Hc Hun. apply list_lookup_insert_Some in Hc as [(_ & <- & _)|[Hne Hc]]; [done|].
    apply (gr_unused _ _ _ _ _ Hg slot2); [done|]. intros fd2 HM2. apply (Hun fd2).
    apply lookup_delete_Some. split; [|done]. intros <-. rewrite HM in HM2. injection HM2. lia.
  - intros fd1 fd2 b1 b2 Hne [_ H1]%lookup_delete_Some [_ H2]%lookup_delete_Some.
    by apply (gr_disj _ _ _ _ _ Hg fd1 fd2).
Qed.

Definition set_hash (h : hashid) (s : gstate) : gstate :=
  GState (set_table h (g_conn (gs s)) (g_mp (gs s)) (gs s)) (gacts s).

Lemma on_buffer_hash {X} slot (m : SM bufstate X) h s :
  on_buffer slot m (set_hash h s) =
    match on_buffer slot m s with Ok (x, s') => Ok (x, set_hash h s') | Fault f => Fault f end.
Proof.
  unfold on_buffer, set_hash. cbn [gs gacts g_conn set_table g_mp g_hash].
  destruct (rd (g_conn (gs s)) slot) as [c|]; [|done]. rewrite !bind_ok.
  destruct (m _) as [[x b]|]; [|done]. rewrite !bind_ok.
  destruct (wr (g_conn (gs s)) slot _); [|done]. done.
Qed.

Lemma close_conn_lemma s A M all fd slot a : stands s A M all → M !! fd = Some slot → ag_conns A !! fd = Some a →
  fd < 2 ^ 31 →
  ∃ h s', hashid_remove (g_hash (gs s)) fd = Ok (slot, h) ∧
    (_ ← on_buffer slot databuffer_clear; g ← getG;
     conn ← lift (wr (g_conn g) slot (set_cn_id (-1) connection_zero));
     _ ← putG (set_table (g_hash g) conn (g_mp g) g); report (print_d fd ++ str " close")) (set_hash h s) = Ok ((), s') ∧
    stands s' (set_conns (delete fd (ag_conns A)) A) (delete fd M) all ∧
    visible (gacts s') = visible (gacts s) ++ areport A (print_d fd ++ str " close").
Proof.
  intros (F & B & Hg & Hall) HM Ha Hfd.
  destruct (gr_some _ _ _ _ _ Hg fd a Ha) as (slot' & c & ps & ch & HM' & Hsl & Hc & HB & Hcr).
  rewrite HM in HM'. injection HM' as <-.
  destruct (gr_slot _ _ _ _ _ Hg fd slot HM) as [_ H0].
  pose proof (hashid_remove_lemma (g_hash (gs s)) M fd (gr_hash _ _ _ _ _ Hg)) as Hrm. rewrite HM in Hrm.
  destruct Hrm as (h & Erm & Hcap & Hh).
  destruct (databuffer_clear_lemma (BufState (cn_buffer c) (g_mp (gs s)) []) ps F ch (ac_bytes a) (cr_buffer _ _ _ _ _ _ _ Hcr))
    as (st' & F' & Eop & Hd & Edb & Hf & Hev).
  destruct (on_buffer_lemma s A M F B fd slot c a ps ch databuffer_clear () st' [] F' [] [] Hg HM Hc Ha HB Eop Hd
    (Forall_nil_2 _) Hev) as (s1 & c1 & E1 & Hg1 & Hc1 & _ & _ & _ & _ & _ & Hacts1).
  set (A1 := set_conns _ A) in Hg1. set (B1 := <[fd := ([], [])]> B) in Hg1.
  pose proof (delete_repr _ _ _ _ _ fd slot h Hg1 HM Hh) as Hg2.
  assert (hi_cap h = hi_cap (g_hash (gs s1))) as Hcap1.
  { rewrite Hcap. destruct (gr_cap _ _ _ _ _ Hg1) as [-> _]. by destruct (gr_cap _ _ _ _ _ Hg) as [-> _]. }
  specialize (Hg2 Hcap1). unfold A1, B1 in Hg2. cbn [ag_conns set_conns] in Hg2.
  rewrite !delete_insert_eq in Hg2.
  set (s2 := GState (set_table h (<[Z.to_nat slot := set_cn_id (-1) connection_zero]> (g_conn (gs s1))) (g_mp (gs s1)) (gs s1)) (gacts s1)).
  set (A2 := set_conns (delete fd (ag_conns A)) A).
  assert (Hs2 : stands s2 A2 (delete fd M) all).
  { exists F', (delete fd B). split; [exact Hg2|]. cbn [gacts s2]. rewrite Hacts1, freed_app, freed_frees, Hf.
    cbn [bs_freed app]. rewrite <- Hall, (held_delete B fd (ps, ch)) by done. cbn [snd]. by rewrite (assoc_L (++)). }
  assert (Hlen : Z.of_nat (length (print_d fd ++ str " close")) < 1024).
  { rewrite length_app. pose proof (print_d_length fd ltac:(lia)). change (length (str " close")) with 6%nat. lia. }
  pose proof (report_lemma s2 A2 (delete fd M) all _ Hs2 Hlen) as Erep.
  exists h, (GState (gs s2) (gacts s2 ++ areport A2 (print_d fd ++ str " close"))). split; [done|]. split.
  - pose proof (on_buffer_hash slot databuffer_clear h s) as Eh. rewrite E1 in Eh.
    rewrite (sbind_ok _ _ _ _ _ Eh). unfold getG, putG. rewrite gets_bind.
    cbn [gs set_hash g_conn set_table g_mp g_hash].
    rewrite (lift_bind _ _ _ (<[Z.to_nat slot := set_cn_id (-1) connection_zero]> (g_conn (gs s1)))).
    + rewrite modify_bind. exact Erep.
    + apply wr_ok. destruct (gr_cap _ _ _ _ _ Hg1) as [_ E]. destruct (gr_cap _ _ _ _ _ Hg) as [_ E']. cbn in E. lia.
  - split; [by apply stands_acts; [apply plain_report|]|]. cbn [gacts].
    rewrite visible_app. rewrite (proj2 (plain_facts _ (plain_report _ _))). cbn [gacts s2].
    rewrite Hacts1, visible_app, visible_frees, app_nil_r. done.
Qed.

(** ** Accepting a connection *)

Lemma insert_repr g A M F B fd slot c h remote : gate_repr g A M F B → M !! fd = None → 0 ≤ slot < hi_cap (g_hash g) →
  (∀ id, M !! id ≠ Some slot) → g_conn g !! Z.to_nat slot = Some c → length remote = 32%nat →
  hash_repr h (<[fd := slot]> M) → hi_cap h = hi_cap (g_hash g) →
  gate_repr (set_table h (<[Z.to_nat slot := Connection fd (cn_agent c) (cn_client c) remote (cn_buffer c)]> (g_conn g)) (g_mp g) g)
    (upd A fd (AConn 0 0 0 [])) (<[fd := slot]> M) F (<[fd := ([], [])]> B).
Proof.
  intros Hg HM Hsl Hun Hc Hrem Hh Hcap.
  assert (c = set_cn_id (-1) connection_zero) as ->.
  { apply (gr_unused _ _ _ _ _ Hg (Z.to_nat slot)); [done|]. by rewrite Z2Nat.id by lia. }
  pose proof (lookup_lt_Some _ _ _ Hc) as Hlt. split; cbn; try apply Hg; try done.
  - rewrite length_insert, Hcap. apply Hg.
  - rewrite !dom_insert_L. destruct (gr_dom _ _ _ _ _ Hg) as [-> ->]. by destruct (gr_dom _ _ _ _ _ Hg) as [-> _].
  - intros fd2 slot2 HM2. destruct (decide (fd2 = fd)) as [->|Hne].
    + rewrite lookup_insert_eq in HM2. injection HM2 as <-.
      eexists _, _, [], []. rewrite list_lookup_insert_eq, !lookup_insert_eq by lia.
      split; [reflexivity|]. split; [reflexivity|]. split; [done|]. destruct (gr_free _ _ _ _ _ Hg) as [Hf Hnd].
      split; try done. split; cbn; [|done|lia|done]. split; cbn; try done; constructor.
    + rewrite lookup_insert_ne in HM2 by done.
      destruct (gr_conn _ _ _ _ _ Hg fd2 slot2 HM2) as (c & a & ps & ch & Hc2 & Ha & HB & Hr).
      destruct (gr_slot _ _ _ _ _ Hg fd2 slot2 HM2) as [Hsl2 _].
      assert (slot2 ≠ slot) by (intros ->; by apply (Hun fd2)).
      exists c, a, ps, ch. rewrite list_lookup_insert_ne, !lookup_insert_ne by (done || lia). destruct Hr. done.
  - intros slot2 c2 Hc2 Hun2. apply list_lookup_insert_Some in Hc2 as [(<- & _ & _)|[Hne Hc2]].
    + exfalso. apply (Hun2 fd). rewrite Z2Nat.id by lia. apply lookup_insert_eq.
    + apply (gr_unused _ _ _ _ _ Hg slot2); [done|]. intros fd2 HM2. apply (Hun2 fd2).
      rewrite lookup_insert_ne; [done|]. intros <-. congruence.
  - intros fd1 fd2 b1 b2 Hne H1 H2. apply lookup_insert_Some in H1 as [[_ <-]|[_ H1]]; [set_solver|].
    apply lookup_insert_Some in H2 as [[_ <-]|[_ H2]]; [set_solver|]. by apply (gr_disj _ _ _ _ _ Hg fd1 fd2).
Qed.

Lemma c_string_cut l t : c_string (l ++ 0 :: t) = c_string (l ++ [0]) ∧
  ∃ n, c_string (l ++ [0]) = Some n ∧ (length n ≤ length l)%nat.
Proof.
  induction l as [|x l (IH & n & E & Hn)]; [split; [done|]; by exists []|]. cbn [app c_string].
  destruct (x =? 0); [split; [done|]; exists []; cbn; split; [done|lia]|]. rewrite IH, E. cbn [fmap option_fmap option_map].
  split; [done|]. exists (x :: n). split; [done|]. cbn. lia.
Qed.

Lemma full_lemma s A M all : stands s A M all →
  hashid_full (g_hash (gs s)) = bool_decide (Z.of_nat (size (ag_conns A)) = ag_max A).
Proof.
  intros (F & B & Hg & _). rewrite (hashid_full_lemma _ M) by apply Hg.
  destruct (gr_cap _ _ _ _ _ Hg) as [-> _]. rewrite <- !size_dom.
  destruct (gr_dom _ _ _ _ _ Hg) as [-> _]. by case_bool_decide; apply Z.eqb_eq || apply Z.eqb_neq.
Qed.

Lemma accept_lemma s A all fd nm : gate_inv s A all → 0 ≤ fd < 2 ^ 30 → ag_conns A !! fd = None →
  ∃ s', socket_accept (GateEvent SKYNET_SOCKET_TYPE_ACCEPT (g_listen_id (gs s)) fd [] nm) s = Ok ((), s') ∧
    gate_inv s' (a_accept A fd nm).1 all ∧ visible (gacts s') = visible (gacts s) ++ (a_accept A fd nm).2.
Proof.
  intros [M Hs] Hfd Hnone. pose proof (full_lemma s A M all Hs) as Efull.
  unfold socket_accept, a_accept, getG. rewrite gets_bind. cbn [ev_id ev_ud ev_name]. rewrite Z.eqb_refl.
  rewrite (lift_bind _ _ _ () eq_refl), Efull. case_bool_decide as Hfull.
  { eexists. split; [reflexivity|]. cbn [fst snd gacts]. split; [exists M; by apply stands_act|by apply visible_act]. }
  destruct Hs as (F & B & Hg & Hall). pose proof (gr_hash _ _ _ _ _ Hg) as Hh.
  assert (HM : M !! fd = None) by (by apply (gr_none _ _ _ _ _ Hg)).
  assert (Hsz : Z.of_nat (size M) < hi_cap (g_hash (gs s))).
  { pose proof (hashid_full_lemma _ _ Hh) as E. rewrite Efull in E. symmetry in E. apply Z.eqb_neq in E. pose proof (hash_size _ _ Hh). lia. }
  destruct (hashid_insert_lemma _ M fd Hh Hfd HM Hsz) as (slot & h & Eins & Hsl & Hun & Hcap & Hh').
  destruct (gr_cap _ _ _ _ _ Hg) as [Ec El].
  destruct (lookup_lt_is_Some_2 (g_conn (gs s)) (Z.to_nat slot)) as [c Hc]; [lia|].
  assert (c = set_cn_id (-1) connection_zero) as Ecz.
  { apply (gr_unused _ _ _ _ _ Hg (Z.to_nat slot)); [done|]. by rewrite Z2Nat.id by lia. }
  set (remote := (take 31 nm ++ [0]) ++ drop (length (take 31 nm ++ [0])) (cn_remote_name c)).
  assert (Hr32 : length (cn_remote_name c) = 32%nat) by (by rewrite Ecz).
  assert (Hnl : (length (take 31 nm ++ [0%Z]) ≤ 32)%nat) by (rewrite length_app, length_take; cbn [length]; lia).
  assert (Hwr : ∀ x, wr (g_conn (gs s)) slot x = Ok (<[Z.to_nat slot := x]> (g_conn (gs s))))
    by (intros x; apply wr_ok; lia).
  assert (Hrl : length remote = 32%nat).
  { unfold remote. rewrite (length_app (_ ++ _)), length_drop. lia. }
  destruct (c_string_cut (take 31 nm) (drop (length (take 31 nm ++ [0])) (cn_remote_name c))) as (Ecut & n & En & Hn).
  assert (Enm : shown_name nm = n) by (unfold shown_name; by rewrite En).
  pose proof (insert_repr _ A M F B fd slot c h remote Hg HM Hsl Hun Hc Hrl Hh' Hcap) as Hg'.
  set (s1 := GState (set_table h (<[Z.to_nat slot := Connection fd (cn_agent c) (cn_client c) remote (cn_buffer c)]>
    (g_conn (gs s))) (g_mp (gs s)) (gs s)) (gacts s)).
  set (A1 := upd A fd (AConn 0 0 0 [])) in *.
  assert (Hs1 : stands s1 A1 (<[fd := slot]> M) all).
  { exists F, (<[fd := ([], [])]> B). split; [exact Hg'|]. cbn [gacts s1]. rewrite held_insert_new; [done|].
    apply not_elem_of_dom. destruct (gr_dom _ _ _ _ _ Hg) as [_ ->]. by apply not_elem_of_dom. }
  set (text := print_d fd ++ str " open " ++ print_d fd ++ str " " ++ n ++ str ":0").
  assert (Hlen : Z.of_nat (length text) < 1024).
  { unfold text. rewrite !length_app. pose proof (print_d_length fd ltac:(lia)).
    rewrite length_take in Hn. change (length (str " open ")) with 6%nat. change (length (str " ")) with 1%nat.
    change (length (str ":0")) with 2%nat. lia. }
  eexists (GState (gs s1) ((gacts s1 ++ areport A1 text) ++ [GError (str "socket open: " ++ print_x fd)])). split.
  - rewrite (lift_bind _ _ _ _ Eins). cbv beta iota zeta. rewrite (lift_bind _ _ _ c) by (apply rd_ok; [lia|done]).
    rewrite (lift_bind _ _ _ remote) by (unfold poke; by rewrite bool_decide_eq_true_2 by (rewrite Hr32; exact Hnl)).
    rewrite (lift_bind _ _ _ _ (Hwr _)). unfold putG. rewrite modify_bind. fold s1.
    rewrite (lift_bind _ _ _ n).
    2:{ unfold c_str_at. rewrite bool_decide_eq_true_2 by lia. change (drop (Z.to_nat 0) remote) with remote.
        unfold remote. rewrite <- app_assoc. cbn [app]. by rewrite Ecut, En. }
    fold text. rewrite (sbind_ok _ _ _ _ _ (report_lemma s1 A1 _ all text Hs1 Hlen)).
    by rewrite u32_small by lia.
  - cbn [fst snd]. rewrite Enm. fold text. split.
    + exists (<[fd := slot]> M). apply (stands_act (GState (gs s1) (gacts s1 ++ areport A1 text))); [done|].
      apply (stands_acts s1); [apply plain_report|exact Hs1].
    + cbn [gacts s1]. rewrite visible_act, visible_app by done.
      rewrite (proj2 (plain_facts _ (plain_report _ _))). by rewrite <- app_assoc.
Qed.

(** ** The other messages *)

Lemma agent_repr g A M F B fd slot c a agentaddr clientaddr :
  gate_repr g A M F B → M !! fd = Some slot → g_conn g !! Z.to_nat slot = Some c → ag_conns A !! fd = Some a →
  gate_repr (set_table (g_hash g) (<[Z.to_nat slot :=
      Connection (cn_id c) agentaddr clientaddr (cn_remote_name c) (cn_buffer c)]> (g_conn g)) (g_mp g) g)
    (upd A fd (AConn agentaddr clientaddr (ac_header a) (ac_bytes a))) M F B.
Proof.
  intros Hg HM Hc Ha. destruct (gr_slot _ _ _ _ _ Hg fd slot HM) as [Hsl _].
  destruct (gr_dom _ _ _ _ _ Hg) as [Hd1 Hd2].
  split; cbn; try apply Hg; try done.
  - rewrite length_insert. apply Hg.
  - rewrite dom_insert_L, <- Hd1. apply elem_of_dom_2 in HM. split; [set_solver|done].
  - intros fd2 slot2 HM2. destruct (gr_conn _ _ _ _ _ Hg fd2 slot2 HM2) as (c2 & a2 & ps & ch & Hc2 & Ha2 & HB & Hr).
    destruct (decide (fd2 = fd)) as [->|Hne].
    + assert (slot2 = slot) as -> by congruence. rewrite Hc in Hc2. rewrite Ha in Ha2. simplify_eq.
      eexists _, _, ps, ch. rewrite list_lookup_insert_eq, lookup_insert_eq by lia.
      split; [reflexivity|]. split; [reflexivity|]. split; [done|]. by destruct Hr.
    + assert (slot2 ≠ slot) by (intros ->; by apply Hne, (gr_inj _ _ _ _ _ Hg _ _ slot)).
      destruct (gr_slot _ _ _ _ _ Hg fd2 slot2 HM2) as [Hsl2 _].
      exists c2, a2, ps, ch. rewrite list_lookup_insert_ne, lookup_insert_ne by (done || lia). destruct Hr. done.
  - intros slot2 c2 Hc2 Hun. apply list_lookup_insert_Some in Hc2 as [(<- & _ & _)|[_ Hc2]].
    + exfalso. apply (Hun fd). by rewrite Z2Nat.id by lia.
    + by apply (gr_unused _ _ _ _ _ Hg slot2).
Qed.

Lemma forward_agent_lemma s A all fd agentaddr clientaddr : gate_inv s A all →
  let op := OpForward fd agentaddr clientaddr in
  ∃ s', forward_agent fd agentaddr clientaddr s = Ok ((), s') ∧ gate_inv s' (astep A op).1 all ∧
    visible (gacts s') = visible (gacts s) ++ (astep A op).2.
Proof.
  intros [M Hs]. cbv zeta. cbn [astep]. destruct (gate_lookup_lemma s A M all fd Hs) as [El Hm].
  unfold forward_agent, getG, with_conn. rewrite gets_bind, (lift_bind _ _ _ _ El).
  destruct (M !! fd) as [slot|] eqn:HM; cbn [default from_option id].
  - destruct Hm as (H0 & a & Ha). rewrite Ha. destruct (Z.geb_spec slot 0); [|lia]. destruct Hs as (F & B & Hg & Hall).
    destruct (gr_some _ _ _ _ _ Hg fd a Ha) as (slot' & c & ps & ch & HM' & Hsl & Hc & _).
    rewrite HM in HM'. injection HM' as <-.
    rewrite (lift_bind _ _ _ c) by (apply rd_ok; [lia|done]).
    rewrite (lift_bind _ _ _ _ (wr_ok _ _ _ Hsl)). eexists. split; [reflexivity|]. cbn [fst snd gacts].
    rewrite app_nil_r. split; [|done]. exists M, F, B. split; [|exact Hall]. cbn [gs].
    by apply agent_repr.
  - rewrite Hm. exists s. cbn [fst snd]. rewrite app_nil_r. split; [done|]. split; [by exists M|done].
Qed.

Lemma client_uid_lemma fd : 0 ≤ fd < 2 ^ 31 → i32 (client_uid (id_bytes fd)) = fd.
Proof.
  intros Hfd. unfold client_uid, id_bytes. cbn [nth]. change 255 with (Z.ones 8).
  rewrite !Z.land_ones, !Z.shiftr_div_pow2 by lia.
  pose proof (Z.mod_pos_bound fd (2 ^ 8) ltac:(lia)). pose proof (Z.mod_pos_bound (fd / 2 ^ 8) (2 ^ 8) ltac:(lia)).
  pose proof (Z.mod_pos_bound (fd / 2 ^ 16) (2 ^ 8) ltac:(lia)).
  assert (0 ≤ fd / 2 ^ 24 < 128) by (split; [apply Z.div_pos; lia|apply Z.div_lt_upper_bound; lia]).
  rewrite (Z.mod_small (fd / 2 ^ 24)) by lia. rewrite (i32_small (Z.shiftl _ 24)) by (rewrite Z.shiftl_mul_pow2; lia).
  rewrite (lor_shiftl _ (fd / 2 ^ 8 mod 2 ^ 8) 8), (lor_shiftl _ _ 16), (lor_shiftl _ _ 24) by lia.
  pose proof (Z.div_mod fd (2 ^ 8)). pose proof (Z.div_mod (fd / 2 ^ 8) (2 ^ 8)).
  pose proof (Z.div_mod (fd / 2 ^ 16) (2 ^ 8)).
  replace (fd / 2 ^ 8 / 2 ^ 8) with (fd / 2 ^ 16) in * by (rewrite Z.div_div by lia; done).
  replace (fd / 2 ^ 16 / 2 ^ 8) with (fd / 2 ^ 24) in * by (rewrite Z.div_div by lia; done).
  assert (fd mod 2 ^ 8 + fd / 2 ^ 8 mod 2 ^ 8 * 2 ^ 8 + fd / 2 ^ 16 mod 2 ^ 8 * 2 ^ 16 + fd / 2 ^ 24 * 2 ^ 24 = fd) as -> by lia.
  rewrite u32_small, i32_small; lia.
Qed.

Lemma client_lemma s A all src fd data : gate_inv s A all → 0 ≤ fd < 2 ^ 31 → data ≠ [] →
  let op := OpClient src fd data in
  ∃ s', client_message src (data ++ id_bytes fd) s = Ok (aret A op, s') ∧ gate_inv s' (astep A op).1 all ∧
    visible (gacts s') = visible (gacts s) ++ (astep A op).2.
Proof.
  intros [M Hs] Hfd Hne. cbv zeta. cbn [astep aret]. destruct (gate_lookup_lemma s A M all fd Hs) as [El Hm].
  assert (Hlen : (length (data ++ id_bytes fd) - 4 = length data)%nat) by (rewrite length_app; cbn [length id_bytes]; lia).
  unfold client_message, getG, with_conn. destruct (Nat.leb_spec (length (data ++ id_bytes fd)) 4) as [Hle|_].
  { rewrite length_app in Hle. destruct data; [done|]. cbn [length id_bytes] in Hle. lia. }
  rewrite Hlen, drop_app_length, take_app_length, client_uid_lemma by done.
  cbv zeta. rewrite gets_bind, (lift_bind _ _ _ _ El).
  destruct (M !! fd) as [slot|] eqn:HM; cbn [default from_option id].
  - destruct Hm as (H0 & a & ->). destruct (Z.geb_spec slot 0); [|lia]. eexists. split; [reflexivity|].
    cbn [fst snd gacts]. split; [exists M; by apply stands_act|by apply visible_act].
  - rewrite Hm. eexists. split; [reflexivity|].
    cbn [fst snd gacts]. split; [exists M; by apply stands_act|by apply visible_act].
Qed.

Lemma unknown_data_lemma s A M all fd data : stands s A M all → M !! fd = None → ag_conns A !! fd = None →
  let op := OpData fd data in
  ∃ s', socket_data (GateEvent SKYNET_SOCKET_TYPE_DATA fd (Z.of_nat (length data)) data []) s = Ok ((), s') ∧
    gate_inv s' (astep A op).1 (all ++ [data]) ∧ visible (gacts s') = visible (gacts s) ++ (astep A op).2.
Proof.
  intros Hs HM Hnone. cbv zeta. cbn [astep]. unfold with_conn. rewrite Hnone.
  destruct (gate_lookup_lemma s A M all fd Hs) as [El _]. rewrite HM in El.
  unfold socket_data, getG. rewrite gets_bind. cbn [ev_id ev_buffer ev_ud]. rewrite (lift_bind _ _ _ _ El).
  eexists. split; [reflexivity|]. cbn [fst snd gacts]. split.
  - destruct Hs as (F & B & Hg & Hall). exists M, F, B. split; [exact Hg|]. cbn [gacts].
    rewrite !freed_app. change (freed [GFree data]) with [data]. change (freed [GError _]) with (@nil (list Z)).
    change (freed [GSocketClose fd]) with (@nil (list Z)). rewrite !app_nil_r, <- (assoc_L (++)), <- Hall.
    rewrite <- (assoc_L (++)). apply Permutation_app_head, Permutation_app_comm.
  - rewrite !visible_app. change (visible [GFree data]) with (@nil gaction). rewrite app_nil_r, <- (assoc_L (++)). done.
Qed.

Lemma fields_lemma s A M all b id : stands s A M all →
  stands (GState (set_broker b (gs s)) (gacts s)) (set_abroker b A) M all ∧
  stands (GState (set_listen id (gs s)) (gacts s)) (set_alisten id A) M all.
Proof.
  intros (F & B & [Hf Hhs Hh Hcap Hdom Hconn Hun Hdj Hfr] & Hall).
  destruct Hf as (H1 & H2 & H3 & H4 & H5 & H6).
  split; exists F, B; (split; [|exact Hall]); split; try done; intros fd slot HM;
    destruct (Hconn fd slot HM) as (c & a & ps & ch & Hc & Ha & HB & []);
    exists c, a, ps, ch; (split; [done|split; [done|split; [done|by split]]]).
Qed.

(** ** Every message refines a step *)

Lemma gate_inv_hs s A all : gate_inv s A all → header_ok (ag_hs A).
Proof. intros (M & F & B & Hg & _). apply Hg. Qed.

Lemma data_op_lemma s A all fd data : gate_inv s A all → gop_ok A (OpData fd data) →
  let op := OpData fd data in
  ∃ s', socket_data (GateEvent SKYNET_SOCKET_TYPE_DATA fd (Z.of_nat (length data)) data []) s = Ok ((), s') ∧
    gate_inv s' (astep A op).1 (all ++ [data]) ∧ visible (gacts s') = visible (gacts s) ++ (astep A op).2.
Proof.
  intros Hi (Hfd & Hdata & Hlen). pose proof (gate_inv_hs _ _ _ Hi) as Hhs. destruct Hi as [M Hs]. cbv zeta.
  destruct (gate_lookup_lemma s A M all fd Hs) as [El Hm].
  destruct (M !! fd) as [slot|] eqn:HM; [|by apply (unknown_data_lemma s A M)].
  destruct Hm as (H0 & a & Ha). rewrite Ha in Hlen.
  destruct (data_lemma s A M all fd slot a data Hs HM Ha Hhs ltac:(lia) Hdata Hlen) as (s' & E & Hs' & Hv).
  exists s'. split.
  - unfold socket_data, getG. rewrite gets_bind. cbn [ev_id ev_buffer ev_ud]. rewrite (lift_bind _ _ _ _ El).
    cbn [default from_option id]. destruct (Z.geb_spec slot 0); [done|lia].
  - cbn [astep]. unfold with_conn. rewrite Ha. destruct (a_data A fd a data) as [a' acts]. cbn [fst snd] in *.
    split; [by exists M|done].
Qed.

Lemma connect_lemma s A all fd : gate_inv s A all →
  ∃ s', socket_connect (GateEvent SKYNET_SOCKET_TYPE_CONNECT fd 0 [] []) s = Ok ((), s') ∧
    gate_inv s' (astep A (OpConnect fd)).1 all ∧
    visible (gacts s') = visible (gacts s) ++ (astep A (OpConnect fd)).2.
Proof.
  intros [M Hs]. destruct (gate_lookup_lemma s A M all fd Hs) as [El Hm]. destruct (stands_fields _ _ _ _ Hs) as (E & _).
  unfold socket_connect, getG. rewrite gets_bind. cbn [ev_id astep]. rewrite E. unfold with_conn.
  destruct (fd =? ag_listen A).
  { exists s. cbn [fst snd]. rewrite app_nil_r. split; [done|]. split; [by exists M|done]. }
  rewrite (lift_bind _ _ _ _ El). destruct (M !! fd) as [slot|]; cbn [default from_option id].
  - destruct Hm as (H0 & a & ->). destruct (Z.ltb_spec slot 0); [lia|]. exists s. cbn [fst snd].
    rewrite app_nil_r. split; [done|]. split; [by exists M|done].
  - rewrite Hm. eexists. split; [reflexivity|]. cbn [fst snd gacts]. split.
    + exists M. apply (stands_act (GState (gs s) (gacts s ++ [_]))); [done|]. by apply stands_act.
    + rewrite !visible_act, <- (assoc_L (++)) by done. done.
Qed.

Lemma close_lemma_gate s A all e fd : gate_inv s A all → 0 ≤ fd < 2 ^ 31 → ev_id e = fd →
  ∃ s', socket_close e s = Ok ((), s') ∧ gate_inv s' (astep A (OpClose false fd)).1 all ∧
    visible (gacts s') = visible (gacts s) ++ (astep A (OpClose false fd)).2.
Proof.
  intros [M Hs] Hfd He. destruct (gate_lookup_lemma s A M all fd Hs) as [_ Hm].
  unfold socket_close, getG, putG. rewrite gets_bind, He. cbn [astep]. unfold with_conn.
  destruct (M !! fd) as [slot|] eqn:HM.
  - destruct Hm as (H0 & a & Ha). rewrite Ha.
    destruct (close_conn_lemma s A M all fd slot a Hs HM Ha ltac:(lia)) as (h & s' & Erm & E & Hs' & Hv).
    rewrite (lift_bind _ _ _ _ Erm). cbv beta iota. rewrite modify_bind.
    destruct (Z.geb_spec slot 0); [|lia]. exists s'. split; [exact E|]. cbn [fst snd]. split; [by eexists|done].
  - rewrite Hm. cbn [fst snd]. rewrite app_nil_r. pose proof Hs as (F & B & Hg & _).
    pose proof (hashid_remove_lemma (g_hash (gs s)) M fd (gr_hash _ _ _ _ _ Hg)) as Erm. rewrite HM in Erm.
    rewrite (lift_bind _ _ _ _ Erm). cbv beta iota. rewrite modify_bind. cbn [Z.geb Z.compare].
    exists s. split; [by destruct s as [[] ?]|]. split; [by exists M|done].
Qed.

Lemma op_lemma_gate s A all op : gate_inv s A all → gop_ok A op →
  ∃ s', run_op op s = Ok (aret A op, s') ∧ gate_inv s' (astep A op).1 (all ++ brings op) ∧
    visible (gacts s') = visible (gacts s) ++ (astep A op).2.
Proof.
  intros Hi Hok. assert (Hcb : ∀ type src p (m : SM gstate unit),
    (∃ s', m s = Ok ((), s') ∧ gate_inv s' (astep A op).1 (all ++ brings op) ∧
       visible (gacts s') = visible (gacts s) ++ (astep A op).2) →
    (∀ t, cb type src p t = (_ ← m; mret 0) t) →
    ∃ s', cb type src p s = Ok (0, s') ∧ gate_inv s' (astep A op).1 (all ++ brings op) ∧
       visible (gacts s') = visible (gacts s) ++ (astep A op).2).
  { intros type src p m (s' & E & Hrest) Ecb. exists s'. rewrite Ecb, (sbind_ok _ _ _ _ _ E). done. }
  destruct op as [fd data|fd|err fd|fd nm|fd ud|src fd data|fd ag cl|fd|fd|nm|]; cbn [brings run_op aret] in *;
    rewrite ?app_nil_r in *; cbn [gop_ok] in Hok.
  - eapply Hcb; [by apply data_op_lemma|reflexivity].
  - eapply Hcb; [by apply connect_lemma|reflexivity].
  - apply (Hcb _ _ _ (socket_close (GateEvent
      (if err then SKYNET_SOCKET_TYPE_ERROR else SKYNET_SOCKET_TYPE_CLOSE) fd 0 [] []))); [|by destruct err].
    by apply (close_lemma_gate s A all _ fd).
  - unfold getG. rewrite gets_bind. destruct Hok as [Hfd Hnone].
    eapply Hcb; [by apply accept_lemma|reflexivity].
  - eapply (Hcb _ _ _ (gact _)); [|reflexivity]. eexists. split; [reflexivity|]. cbn [gacts astep fst snd].
    destruct Hi as [M Hs]. split; [exists M; by apply stands_act|by apply visible_act].
  - destruct Hok as [Hfd Hne]. by apply client_lemma.
  - eapply Hcb; [|reflexivity]. cbn beta. rewrite ctrl_forward_text by apply Hok. by apply forward_agent_lemma.
  - eapply Hcb; [|reflexivity]. rewrite ctrl_kick by done. cbn [astep].
    destruct (lookup_act s A all fd GSocketClose Hi eq_refl) as (s' & E & Hi' & Hv). exists s'. split; [exact E|].
    unfold with_conn in *. by destruct (ag_conns A !! fd).
  - eapply Hcb; [|reflexivity]. rewrite ctrl_start by done. cbn [astep].
    destruct (lookup_act s A all fd GSocketStart Hi eq_refl) as (s' & E & Hi' & Hv). exists s'. split; [exact E|].
    unfold with_conn in *. by destruct (ag_conns A !! fd).
  - eapply Hcb; [|reflexivity]. rewrite ctrl_broker by apply Hok. eexists. split; [reflexivity|].
    cbn [astep fst snd gacts]. rewrite ?app_nil_r. destruct Hi as [M Hs]. split; [|done]. exists M.
    by apply (fields_lemma s A M all _ 0 Hs).
  - eapply Hcb; [|reflexivity]. rewrite ctrl_close. unfold getG, putG. rewrite gets_bind. cbn [astep].
    destruct Hi as [M Hs]. destruct (stands_fields _ _ _ _ Hs) as (E & _). rewrite E.
    destruct (ag_listen A >=? 0); cbn [fst snd].
    + eexists. split; [reflexivity|]. cbn [gacts]. split; [|by apply visible_act]. exists M.
      apply (fields_lemma (GState (gs s) (gacts s ++ [_])) A M all 0 (-1)). by apply stands_act.
    + exists s. rewrite app_nil_r. split; [done|]. split; [by exists M|done].
Qed.

Lemma ops_lemma_gate ops : ∀ s A all, gate_inv s A all → gops_ok A ops →
  ∃ s', run_ops ops s = Ok (arets A ops, s') ∧ gate_inv s' (asteps A ops).1 (all ++ concat (map brings ops)) ∧
    visible (gacts s') = visible (gacts s) ++ (asteps A ops).2.
Proof.
  induction ops as [|op ops IH]; intros s A all Hi Hok; cbn [run_ops asteps arets map concat].
  { exists s. rewrite !app_nil_r. done. }
  destruct Hok as [Hop Hops]. destruct (op_lemma_gate s A all op Hi Hop) as (s1 & E1 & Hi1 & Hv1).
  destruct (IH s1 _ _ Hi1 Hops) as (s2 & E2 & Hi2 & Hv2). exists s2.
  rewrite (sbind_ok _ _ _ _ _ E1), (sbind_ok _ _ _ _ _ E2). split; [done|].
  destruct (astep A op) as [A1 l1]. cbn [fst snd] in *. destruct (asteps A1 ops) as [A2 l2]. cbn [fst snd] in *.
  rewrite (assoc_L (++)), Hv2, Hv1. split; [exact Hi2|]. by rewrite (assoc_L (++)).
Qed.

End refines.
