(* ===== verification/GateStreams.v ===== *)
(** What the gate does, end to end: histories from [gate_init], the packages of a client,
    commands, the end of the service, and two streams the gate gets wrong. *)

From S2P Require Import Prelude CString MessageQueue Node Server.
From S2P Require Import Chain Frames HashId DataBuffer Gate GateText GateProps GateRefines.
Open Scope Z_scope.

(** ** Packages as a client sends them *)

Definition header_bytes (hs n : Z) : list Z :=
  if hs =? 2 then [n / 2 ^ 8; n mod 2 ^ 8]
  else [n / 2 ^ 24; n / 2 ^ 16 mod 2 ^ 8; n / 2 ^ 8 mod 2 ^ 8; n mod 2 ^ 8].

Definition gwire (hs : Z) (p : list Z) : list Z := header_bytes hs (Z.of_nat (length p)) ++ p.

Definition gsendable (hs : Z) (p : list Z) : Prop :=
  Forall byte p ∧ 1 ≤ Z.of_nat (length p) ∧ Z.of_nat (length p) < (if hs =? 2 then 2 ^ 16 else 2 ^ 24).

#[export] Instance gsendable_dec hs p : Decision (gsendable hs p).
Proof. unfold gsendable. apply _. Defined.

Lemma header_bytes_lemma hs n : header_ok hs → 0 ≤ n < (if hs =? 2 then 2 ^ 16 else 2 ^ 24) →
  length (header_bytes hs n) = Z.to_nat hs ∧ header_value hs (header_bytes hs n) = n ∧ Forall byte (header_bytes hs n).
Proof.
  intros [-> | ->] Hn; unfold header_bytes, header_value; cbn [Z.eqb Pos.eqb nth length] in *; unfold byte.
  - split; [done|]. pose proof (Z.div_mod n (2 ^ 8)). pose proof (Z.mod_pos_bound n (2 ^ 8)).
    pose proof (Z.div_pos n (2 ^ 8)). pose proof (Z.div_lt_upper_bound n (2 ^ 8) (2 ^ 8)).
    split; [lia|]. repeat constructor; lia.
  - split; [done|].
    assert (n / 2 ^ 24 = 0) as -> by (apply Z.div_small; lia).
    pose proof (Z.div_mod n (2 ^ 8) ltac:(lia)) as H1. pose proof (Z.mod_pos_bound n (2 ^ 8) ltac:(lia)).
    pose proof (Z.div_mod (n / 2 ^ 8) (2 ^ 8) ltac:(lia)) as H2. pose proof (Z.mod_pos_bound (n / 2 ^ 8) (2 ^ 8) ltac:(lia)).
    rewrite Z.div_div in H2 by lia. change (2 ^ 8 * 2 ^ 8) with (2 ^ 16) in H2.
    pose proof (Z.div_pos n (2 ^ 16) ltac:(lia) ltac:(lia)).
    pose proof (Z.div_lt_upper_bound n (2 ^ 16) (2 ^ 8) ltac:(lia) ltac:(lia)).
    rewrite (Z.mod_small (n / 2 ^ 16)) by lia. split; [rewrite i32_small; lia|]. repeat constructor; lia.
Qed.

(** Reading the header of a package off the front of a stream. *)
Lemma next_header_wire hs p t : header_ok hs → gsendable hs p →
  next_header hs 0 (gwire hs p ++ t) = Some (Z.of_nat (length p), p ++ t).
Proof.
  intros Hhs (_ & H1 & Hn). destruct (header_bytes_lemma hs (Z.of_nat (length p)) Hhs ltac:(lia)) as (Hl & Hv & _).
  unfold next_header, gwire. cbn [Z.eqb]. rewrite <- app_assoc. assert (0 ≤ hs) by (destruct Hhs; lia).
  destruct (Z.ltb_spec (Z.of_nat (length (header_bytes hs (Z.of_nat (length p)) ++ p ++ t))) hs) as [Hlt|_].
  { rewrite length_app in Hlt. lia. }
  rewrite <- Hl, take_app_length, drop_app_length, Hv. done.
Qed.

(** The bytes [s] are what is left to send of the packages [ps], after the header of the
    first one when [h] is not 0. *)
Definition unsent (hs h : Z) (s : list Z) (ps : list (list Z)) : Prop :=
  (h = 0 ∧ s = concat (map (gwire hs) ps)) ∨
  (∃ p ps', ps = p :: ps' ∧ h = Z.of_nat (length p) ∧ 1 ≤ h ∧ s = p ++ concat (map (gwire hs) ps')).

Lemma gwire_length hs p : header_ok hs → gsendable hs p → (length (gwire hs p) = Z.to_nat hs + length p)%nat.
Proof.
  intros Hhs (_ & H1 & Hn). destruct (header_bytes_lemma hs (Z.of_nat (length p)) Hhs ltac:(lia)) as (Hl & _).
  unfold gwire. by rewrite length_app, Hl.
Qed.

(** The next header, as far as it has arrived. *)
Lemma unsent_header hs h s t ps : header_ok hs → Forall (gsendable hs) ps → unsent hs h (s ++ t) ps →
  match next_header hs h s with
  | None => h = 0 ∧ (t = [] → ps = [])
  | Some (h', s') => 1 ≤ h' < 0x1000000 ∧ ∃ p ps', ps = p :: ps' ∧ h' = Z.of_nat (length p) ∧
      s' ++ t = p ++ concat (map (gwire hs) ps') ∧ (length s' ≤ length s)%nat ∧ (h = 0%Z → length s' + 2 ≤ length s)%nat
  end.
Proof.
  intros Hhs Hps [[-> E]|(p & ps' & -> & -> & H1 & E)].
  - destruct ps as [|p ps].
    { apply app_eq_nil in E as [-> ->]. unfold next_header. cbn [Z.eqb length]. change (Z.of_nat 0) with 0. destruct (Z.ltb_spec 0 hs); [naive_solver|]. destruct Hhs; lia. }
    apply Forall_cons in Hps as [Hp _]. cbn [map concat] in E.
    pose proof (next_header_wire hs p (concat (map (gwire hs) ps)) Hhs Hp) as En. rewrite <- E in En.
    pose proof (f_equal length E) as El. rewrite !length_app, (gwire_length _ _ Hhs Hp) in El.
    unfold next_header in *. cbn [Z.eqb] in *.
    destruct (Z.ltb_spec (Z.of_nat (length s)) hs) as [Hlt|Hge].
    + split; [done|]. intros ->. cbn in El. lia.
    + destruct (Z.ltb_spec (Z.of_nat (length (s ++ t))) hs) as [Hlt|_]; [done|].
      assert (0 ≤ hs) by (destruct Hhs; lia).
      rewrite take_app_le, drop_app_le in En by lia. injection En as Ev Ed. rewrite Ev.
      destruct Hp as (_ & Hp1 & Hp2). split; [destruct Hhs as [-> | ->]; cbn in Hp2; lia|].
      exists p, ps. split; [done|]. split; [done|]. split; [done|]. rewrite length_drop. destruct Hhs; lia.
  - apply Forall_cons in Hps as [(_ & Hp1 & Hp2) _]. unfold next_header.
    destruct (Z.eqb_spec (Z.of_nat (length p)) 0); [lia|].
    split; [destruct Hhs as [-> | ->]; cbn in Hp2; lia|]. exists p, ps'. split; [done|]. split; [done|]. split; [done|].
    split; [done|]. intros ?. lia.
Qed.

(** Cutting what has arrived: some packages come out whole, the others are still unsent. *)
Lemma cut_unsent hs fuel : header_ok hs → ∀ h s t ps,
  Forall (gsendable hs) ps → unsent hs h (s ++ t) ps → (length s + (if (h =? 0)%Z then 0 else 1) < fuel)%nat →
  ∃ ps1 ps2 h' s', cut_ fuel hs false h s = (ps1, More h' s') ∧ ps = ps1 ++ ps2 ∧
    unsent hs h' (s' ++ t) ps2 ∧ (t = [] → ps2 = []) ∧ (length s' ≤ length s)%nat.
Proof.
  intros Hhs. induction fuel as [|fuel IH]; intros h s t ps Hps Hu Hf; [lia|]. cbn [cut_].
  pose proof (unsent_header hs h s t ps Hhs Hps Hu) as Hn.
  destruct (next_header hs h s) as [[h1 s1]|].
  2:{ destruct Hn as [-> Ht]. exists [], ps, 0, s. done. }
  destruct Hn as (Hh1 & p & ps' & -> & -> & E & Hl & Hl0).
  destruct (Z.ltb_spec (Z.of_nat (length s1)) (Z.of_nat (length p))) as [Hlt|Hge]; cbn [orb].
  { exists [], (p :: ps'), (Z.of_nat (length p)), s1. split; [done|]. split; [done|].
    split; [right; exists p, ps'; repeat split; [lia|done]|]. split; [|done].
    intros ->. rewrite app_nil_r in E. apply (f_equal length) in E. rewrite length_app in E. lia. }
  destruct (Z.ltb_spec (Z.of_nat (length p)) 0); [lia|]. destruct (Z.eqb_spec (Z.of_nat (length p)) 0); [lia|].
  destruct (Z.geb_spec (Z.of_nat (length p)) 0x1000000); [lia|]. rewrite Nat2Z.id.
  assert (take (length p) s1 = p) as Etake.
  { apply (f_equal (take (length p))) in E. by rewrite take_app_le, take_app_length in E by lia. }
  assert (drop (length p) s1 ++ t = concat (map (gwire hs) ps')) as Edrop.
  { apply (f_equal (drop (length p))) in E. by rewrite drop_app_le, drop_app_length in E by lia. }
  apply Forall_cons in Hps as [_ Hps'].
  destruct (IH 0 (drop (length p) s1) t ps' Hps') as (ps1 & ps2 & h' & s' & -> & -> & Hu' & Ht & Hl').
  { by left. }
  { cbn [Z.eqb]. rewrite length_drop. destruct (Z.eqb_spec h 0) as [->|]; lia. }
  rewrite Etake. exists (p :: ps1), ps2, h', s'. split; [done|]. split; [done|]. split; [done|]. split; [done|].
  rewrite length_drop in Hl'. lia.
Qed.

Section gate.
Context `{!GateRuntime}.

(** ** Histories with their actions *)

(** Each message with the actions it caused. *)
Fixpoint run_log (ops : list gate_op) : SM gstate (list (gate_op * list gaction)) :=
  match ops with
  | [] => mret []
  | op :: ops =>
      before ← gets gacts;
      _ ← run_op op;
      after ← gets gacts;
      rest ← run_log ops;
      mret ((op, drop (length (visible before)) (visible after)) :: rest)
  end.

Fixpoint alog (A : agate) (ops : list gate_op) : list (gate_op * list gaction) :=
  match ops with
  | [] => []
  | op :: ops => (op, (astep A op).2) :: alog (astep A op).1 ops
  end.

Lemma log_lemma ops : ∀ s A all, gate_inv s A all → gops_ok A ops →
  ∃ s', run_log ops s = Ok (alog A ops, s') ∧ gate_inv s' (asteps A ops).1 (all ++ concat (map brings ops)).
Proof.
  induction ops as [|op ops IH]; intros s A all Hi Hok; cbn [run_log asteps alog map concat].
  { exists s. by rewrite app_nil_r. }
  destruct Hok as [Hop Hops]. destruct (op_lemma_gate s A all op Hi Hop) as (s1 & E1 & Hi1 & Hv1).
  destruct (IH s1 _ _ Hi1 Hops) as (s2 & E2 & Hi2). exists s2.
  rewrite gets_bind, (sbind_ok _ _ _ _ _ E1), gets_bind, (sbind_ok _ _ _ _ _ E2), Hv1, drop_app_length.
  split; [done|]. destruct (astep A op) as [A1 l1]. cbn [fst snd] in *.
  destruct (asteps A1 ops) as [A2 l2]. cbn [fst snd] in *. by rewrite (assoc_L (++)).
Qed.

(** ** The packages of one connection *)

Definition is_data (fd : Z) (op : gate_op) : bool :=
  match op with OpData fd' _ => fd' =? fd | _ => false end.

(** The bytes that arrive on a connection. *)
Definition data_for (fd : Z) (ops : list gate_op) : list Z :=
  concat (map (λ op, match op with OpData fd' data => if fd' =? fd then data else [] | _ => [] end) ops).

(** What was done with them. *)
Definition done_for (fd : Z) (log : list (gate_op * list gaction)) : list gaction :=
  concat (map (λ x, if is_data fd x.1 then x.2 else []) log).

(** Messages that do not change where the packages of a connection go. *)
Definition quiet (fd : Z) (op : gate_op) : bool :=
  match op with
  | OpClose _ fd' | OpForward fd' _ _ => negb (fd' =? fd)
  | OpBroker _ => false
  | _ => true
  end.

(** Same destination. *)
Definition same_way (fd : Z) (A A' : agate) (a a' : aconn) : Prop :=
  ag_hs A' = ag_hs A ∧ ag_broker A' = ag_broker A ∧ ag_tag A' = ag_tag A ∧ ag_watchdog A' = ag_watchdog A ∧
  ac_agent a' = ac_agent a ∧ ac_client a' = ac_client a.

Lemma same_way_deliver fd A A' a a' : same_way fd A A' a a' →
  has_destination A' a' = has_destination A a ∧ ∀ ps, map (deliver A' fd a') ps = map (deliver A fd a) ps.
Proof.
  intros (_ & Hb & Ht & Hw & Ha & Hc). unfold has_destination, deliver. rewrite Hb, Hw, Ha. split; [done|].
  intros ps. apply map_ext. intros p. by rewrite Ht, Hc.
Qed.

Lemma quiet_step fd A a op : quiet fd op → is_data fd op = false → gop_ok A op → ag_conns A !! fd = Some a →
  ag_conns (astep A op).1 !! fd = Some a ∧ same_way fd A (astep A op).1 a a.
Proof.
  intros Hq Hd Hok Ha.
  destruct op as [fd2 data|fd2|err fd2|fd2 nm|fd2 ud|src fd2 data|fd2 ag cl|fd2|fd2|nm|];
    cbn [quiet is_data gop_ok astep] in *; unfold with_conn, a_accept; try done.
  - apply Z.eqb_neq in Hd. destruct (ag_conns A !! fd2); [|done]. destruct (a_data A fd2 a0 data).
    cbn. by rewrite lookup_insert_ne.
  - destruct (fd2 =? ag_listen A); [done|]. by destruct (ag_conns A !! fd2).
  - apply Is_true_true, negb_true_iff, Z.eqb_neq in Hq. destruct (ag_conns A !! fd2); [|done].
    cbn. by rewrite lookup_delete_ne.
  - destruct Hok as [_ Hn]. case_bool_decide; [done|]. cbn. rewrite lookup_insert_ne; [done|]. congruence.
  - by destruct (ag_conns A !! fd2).
  - apply Is_true_true, negb_true_iff, Z.eqb_neq in Hq. destruct (ag_conns A !! fd2); [|done].
    cbn. by rewrite lookup_insert_ne.
  - by destruct (ag_conns A !! fd2).
  - by destruct (ag_conns A !! fd2).
  - by destruct (ag_listen A >=? 0).
Qed.

Lemma stream_lemma fd ops : ∀ A a ps,
  header_ok (ag_hs A) → gops_ok A ops → Forall (quiet fd) ops → ag_conns A !! fd = Some a →
  has_destination A a = true → Forall (gsendable (ag_hs A)) ps →
  unsent (ag_hs A) (ac_header a) (ac_bytes a ++ data_for fd ops) ps → (data_for fd ops = [] → ps = []) →
  done_for fd (alog A ops) = map (deliver A fd a) ps.
Proof.
  induction ops as [|op ops IH]; intros A a ps Hhs Hok Hq Ha Hdest Hps Hu Hnil.
  { by rewrite (Hnil eq_refl). }
  destruct Hok as [Hop Hops]. apply Forall_cons in Hq as [Hqo Hqs].
  unfold done_for. cbn [alog map concat fst]. fold (done_for fd (alog (astep A op).1 ops)).
  destruct (is_data fd op) eqn:Ed.
  - destruct op as [fd2 data| | | | | | | | | |]; try done. cbn [is_data] in Ed. apply Z.eqb_eq in Ed as ->.
    assert (Hdf : data_for fd (OpData fd data :: ops) = data ++ data_for fd ops).
    { unfold data_for. cbn [map concat]. by rewrite Z.eqb_refl. }
    rewrite Hdf in *. rewrite (assoc_L (++)) in Hu.
    destruct (cut_unsent (ag_hs A) (2 + length (ac_bytes a ++ data)) Hhs (ac_header a) (ac_bytes a ++ data)
      (data_for fd ops) ps Hps Hu) as (ps1 & ps2 & h' & s' & Ecut & -> & Hu' & Hnil' & _);
      [destruct (ac_header a =? 0); lia|].
    assert (Estep : astep A (OpData fd data) = (upd A fd (with_bytes a h' s'), map (deliver A fd a) ps1)).
    { cbn [astep]. unfold with_conn. rewrite Ha. unfold a_data, cut. rewrite Hdest. cbn [negb]. rewrite Ecut.
      unfold deliveries. by rewrite Hdest. }
    rewrite Estep in *. cbn [fst snd] in *. apply Forall_app in Hps as [_ Hps2].
    rewrite map_app. f_equal.
    rewrite (IH (upd A fd (with_bytes a h' s')) (with_bytes a h' s') ps2); try done. apply upd_lookup.
  - assert (Hdf : data_for fd (op :: ops) = data_for fd ops).
    { unfold data_for. cbn [map concat]. destruct op as [fd2 data| | | | | | | | | |]; try done.
      cbn [is_data] in Ed. by rewrite Ed. }
    rewrite Hdf in *. destruct (quiet_step fd A a op Hqo Ed Hop Ha) as [Ha' Hway]. cbn [app].
    destruct (same_way_deliver fd A _ a a Hway) as [Hd' Hmap]. destruct Hway as (Ehs & _).
    rewrite <- Hmap. apply IH; rewrite ?Ehs; try done. by rewrite Hd'.
Qed.

Lemma gops_ok_app ops1 ops2 : ∀ A, gops_ok A (ops1 ++ ops2) →
  gops_ok A ops1 ∧ gops_ok (asteps A ops1).1 ops2.
Proof.
  induction ops1 as [|op ops1 IH]; intros A Hok; [done|]. destruct Hok as [Hop Hops].
  destruct (IH _ Hops) as [H1 H2]. cbn [gops_ok asteps]. destruct (astep A op) as [A1 l1]. cbn [fst] in *.
  destruct (asteps A1 ops1). done.
Qed.

(** More fuel does not change a cut. *)
Lemma cut_fuel fuel hs keep : ∀ h s fuel', header_ok hs →
  (length s + (if (h =? 0)%Z then 0 else 1) < fuel)%nat →
  (length s + (if (h =? 0)%Z then 0 else 1) < fuel')%nat → cut_ fuel hs keep h s = cut_ fuel' hs keep h s.
Proof.
  induction fuel as [|fuel IH]; intros h s fuel' Hhs H1 H2; [lia|]. destruct fuel' as [|fuel']; [lia|]. cbn [cut_].
  destruct (next_header hs h s) as [[h1 s1]|] eqn:En; [|done].
  assert (Hl : (length s1 < fuel)%nat ∧ (length s1 < fuel')%nat).
  { unfold next_header in En. destruct (Z.eqb_spec h 0).
    - destruct (Z.ltb_spec (Z.of_nat (length s)) hs); [done|]. injection En as <- <-. rewrite length_drop.
      destruct Hhs; lia.
    - injection En as <- <-. lia. }
  destruct ((_ <? h1) || (h1 <? 0)); [done|]. destruct (h1 =? 0); [apply IH; cbn [Z.eqb]; lia || done|].
  destruct (h1 >=? 0x1000000); [done|].
  rewrite (IH 0 _ fuel'); [done|done| |]; destruct keep; cbn [Z.eqb]; rewrite ?length_drop; lia.
Qed.

(** Without a destination the bytes of a package stay. *)
Lemma cut_keep fuel hs p : header_ok hs → gsendable hs p →
  cut_ (S fuel) hs true 0 (gwire hs p) = let '(ps, e) := cut_ fuel hs true 0 p in (p :: ps, e).
Proof.
  intros Hhs Hp. cbn [cut_]. pose proof (next_header_wire hs p [] Hhs Hp) as En. rewrite !app_nil_r in En. rewrite En.
  pose proof Hp as (_ & Hp1 & Hp2). assert (Hlen : Z.of_nat (length p) < 2 ^ 24) by (destruct (hs =? 2); lia).
  destruct (Z.ltb_spec (Z.of_nat (length p)) (Z.of_nat (length p))); [lia|].
  destruct (Z.ltb_spec (Z.of_nat (length p)) 0); [lia|]. cbn [orb].
  destruct (Z.eqb_spec (Z.of_nat (length p)) 0); [lia|].
  destruct (Z.geb_spec (Z.of_nat (length p)) 0x1000000); [lia|]. by rewrite Nat2Z.id, take_ge by lia.
Qed.

(** A connection that waits for a negative number of bytes keeps what arrives. *)
Lemma stuck_lemma fd a h chunks : h < 0 → ∀ rest A,
  asteps (upd A fd (with_bytes a h rest)) (map (OpData fd) chunks) = (upd A fd (with_bytes a h (rest ++ concat chunks)), []) ∧
  arets (upd A fd (with_bytes a h rest)) (map (OpData fd) chunks) = map (λ _, 0) chunks.
Proof.
  intros Hneg. induction chunks as [|c chunks IH]; intros rest A; cbn [map concat asteps arets aret].
  { by rewrite app_nil_r. }
  assert (E : astep (upd A fd (with_bytes a h rest)) (OpData fd c) = (upd A fd (with_bytes a h (rest ++ c)), [])).
  { cbn [astep]. unfold with_conn. rewrite upd_lookup. unfold a_data, cut. cbn [Nat.add cut_ with_bytes ac_header ac_bytes].
    unfold next_header. destruct (Z.eqb_spec h 0); [lia|]. destruct (Z.ltb_spec h 0); [|lia]. rewrite orb_true_r.
    rewrite upd_upd. unfold deliveries. by destruct (has_destination _ _). }
  rewrite E. cbn [fst]. destruct (IH (rest ++ c) A) as [-> ->]. by rewrite <- app_assoc.
Qed.

(** ** The start of the service *)

Definition created : gstate := GState gate_create [].

(** The specification's view of a gate that has just been started. *)
Definition started (s : gstate) : agate :=
  AGate (g_listen_id (gs s)) (g_watchdog (gs s)) (g_broker (gs s)) (g_client_tag (gs s)) (g_header_size (gs s))
    (g_max_connection (gs s)) ∅.

Lemma start_listen_lemma addr s r s' : start_listen addr s = Ok (r, s') →
  (∃ id, gs s' = set_listen id (gs s)) ∧ freed (gacts s') = freed (gacts s).
Proof.
  unfold start_listen, getG, putG, gact. destruct (i32 _ <=? 0).
  { sm. intros [= <- <-]. cbn [gs gacts]. rewrite freed_app. cbn. rewrite app_nil_r. 
    split; [|done]. exists (g_listen_id (gs s)). by destruct (gs s). }
  sm. destruct (rt_listen _ _ <? 0); intros [= <- <-]; cbn [gs gacts]; rewrite ?freed_app; cbn;
    rewrite ?app_nil_r; by eauto.
Qed.

Lemma gate_repr_start g max h : hash_repr h ∅ → hi_cap h = max → 1 ≤ max → header_ok (g_header_size g) →
  g_hash g = h → g_max_connection g = max →
  g_conn g = replicate (Z.to_nat max) (set_cn_id (-1) connection_zero) → g_mp g = messagepool_zero →
  gate_repr g (AGate (g_listen_id g) (g_watchdog g) (g_broker g) (g_client_tag g) (g_header_size g) max ∅) ∅ [] ∅.
Proof.
  intros Hh Hcap Hmax Hhs Eh Em Ec Emp. split; cbn; try done.
  - by rewrite Eh.
  - rewrite Eh, Ec, length_replicate. split; [done|lia].
  - intros slot c Hc _. rewrite Ec in Hc. by apply lookup_replicate in Hc as [-> _].
  - rewrite Emp. split; [constructor|constructor].
Qed.

Lemma gate_init_lemma parm s0 : gate_init parm created = Ok (0, s0) → g_max_connection (gs s0) ≤ 2 ^ 20 →
  gate_inv s0 (started s0) [].
Proof.
  intros Hi Hmax. unfold gate_init in Hi. destruct parm as [parm|]; [|done].
  destruct (scan_parm parm) as [[[[[header watchdog] binding] tag] max]|]; [|done].
  destruct (Z.leb_spec max 0) as [|Hpos]; [done|].
  destruct (negb (header =? 83) && negb (header =? 76)) eqn:Ehd; [done|].
  unfold getG, putG in Hi. rewrite gets_bind, modify_bind in Hi. cbv zeta in Hi.
  destruct (negb (char0 watchdog =? 33) && _); [done|].
  apply sbind_ok_inv in Hi as (h & s1 & Eh & Hi). unfold lift in Eh. apply bind_ok_inv in Eh as (h' & Eh & E1).
  injection E1 as -> <-. rewrite gets_bind, modify_bind in Hi. unfold gact in Hi. rewrite modify_bind in Hi.
  apply start_listen_lemma in Hi as [[id Eg] Ef]. cbn [gs gacts set_watchdog gate_create created g_listen_id g_watchdog
    g_broker g_mp] in Eg, Ef.
  assert (Emax : g_max_connection (gs s0) = max) by (by rewrite Eg). rewrite Emax in Hmax.
  destruct (hashid_init_lemma max ltac:(lia)) as (h2 & Eh2 & Hcap & Hrep). rewrite Eh in Eh2. injection Eh2 as <-.
  exists ∅, [], ∅. split.
  - unfold started. rewrite Emax. apply (gate_repr_start _ max h); rewrite ?Eg; try done; [lia|].
    cbn. destruct (Z.eqb_spec header 83); [by left|by right].
  - rewrite Ef. done.
Qed.

(** C29.  The gate implements its specification.  From a start that succeeded, any history
    of messages (data, connects, closes and errors, accepts, warnings, messages to clients,
    and the commands [forward], [kick], [start], [broker] and [close]) that keeps the
    conditions [gops_ok] runs without a fault; it does exactly what the specification says
    (sends, socket calls, reports, log lines, in order) and answers what it says; the
    state stands for the specification's; and every buffer it was given has been freed or
    is held by one connection. *)
Theorem gate_refines parm s0 ops :
  gate_init parm created = Ok (0, s0) → g_max_connection (gs s0) ≤ 2 ^ 20 → gops_ok (started s0) ops →
  ∃ s, run_ops ops s0 = Ok (arets (started s0) ops, s) ∧
    visible (gacts s) = visible (gacts s0) ++ (asteps (started s0) ops).2 ∧
    ∃ M F B, gate_repr (gs s) (asteps (started s0) ops).1 M F B ∧
      freed (gacts s) ++ held B ≡ₚ concat (map brings ops).
Proof.
  intros Hi Hmax Hok. pose proof (gate_init_lemma parm s0 Hi Hmax) as Hinv.
  destruct (ops_lemma_gate ops s0 _ [] Hinv Hok) as (s & E & (M & F & B & Hg & Hall) & Hv).
  exists s. split; [done|]. split; [done|]. by exists M, F, B.
Qed.

(** C30.  The packages of a connection come out whole, once and in order.  A connection is
    open, its next byte starts a header and its packages have somewhere to go; while other
    messages arrive (on any connection, commands for others included) the client's bytes
    arrive in pieces of any size.  If the bytes are the packages [ps] as a client sends
    them, with 2 or 4 byte headers, then the data messages of this connection cause exactly
    the deliveries of [ps]: to the broker, or else to the agent, or else, behind the
    connection's number, to the watchdog. *)
Theorem gate_streams parm s0 setup ops fd a ps :
  gate_init parm created = Ok (0, s0) → g_max_connection (gs s0) ≤ 2 ^ 20 →
  gops_ok (started s0) (setup ++ ops) →
  let A := (asteps (started s0) setup).1 in
  ag_conns A !! fd = Some a → ac_header a = 0 → ac_bytes a = [] → has_destination A a = true →
  Forall (quiet fd) ops → Forall (gsendable (ag_hs A)) ps →
  data_for fd ops = concat (map (gwire (ag_hs A)) ps) →
  ∃ s rets log s', run_ops setup s0 = Ok (rets, s) ∧ run_log ops s = Ok (log, s') ∧
    done_for fd log = map (deliver A fd a) ps.
Proof.
  intros Hi Hmax Hok A Ha Hh Hb Hdest Hq Hps Hdata. pose proof (gate_init_lemma parm s0 Hi Hmax) as Hinv.
  apply gops_ok_app in Hok as [Hok1 Hok2]. fold A in Hok2.
  destruct (ops_lemma_gate setup s0 _ [] Hinv Hok1) as (s & E1 & Hi1 & _). fold A in Hi1.
  destruct (log_lemma ops s A _ Hi1 Hok2) as (s' & E2 & _).
  exists s, (arets (started s0) setup), (alog A ops), s'. split; [done|]. split; [done|].
  apply stream_lemma; try done.
  - by apply (gate_inv_hs s A _ Hi1).
  - left. by rewrite Hb, Hdata.
  - rewrite Hdata. destruct ps as [|p ps]; [done|]. intros Hnil. exfalso.
    apply Forall_cons in Hps as [(_ & Hp & _) _]. cbn [map concat] in Hnil. apply app_eq_nil in Hnil as [Hnil _].
    unfold gwire in Hnil. apply app_eq_nil in Hnil as [_ ->]. cbn in Hp. lia.
Qed.

(** A package nobody is there to take is not dropped: [_forward] leaves its bytes in
    the buffer and the next round reads them as headers.  On a connection without broker,
    agent and watchdog, sending the package [p] has the effect of sending the bytes of [p]
    with no header at all. *)
Theorem gate_payload_becomes_headers parm s0 setup fd a p :
  gate_init parm created = Ok (0, s0) → g_max_connection (gs s0) ≤ 2 ^ 20 → gops_ok (started s0) setup →
  let A := (asteps (started s0) setup).1 in
  ag_conns A !! fd = Some a → ac_header a = 0 → ac_bytes a = [] → has_destination A a = false →
  gsendable (ag_hs A) p → 0 ≤ fd < 2 ^ 31 →
  ∃ s s1 s2 A', run_ops setup s0 = Ok (arets (started s0) setup, s) ∧
    run_op (OpData fd (gwire (ag_hs A) p)) s = Ok (0, s1) ∧ run_op (OpData fd p) s = Ok (0, s2) ∧
    (∃ all1 all2, gate_inv s1 A' all1 ∧ gate_inv s2 A' all2) ∧ visible (gacts s1) = visible (gacts s2).
Proof.
  intros Hi Hmax Hok A Ha Hh Hb Hdest Hp Hfd. pose proof (gate_init_lemma parm s0 Hi Hmax) as Hinv.
  destruct (ops_lemma_gate setup s0 _ [] Hinv Hok) as (s & E & Hi1 & _). fold A in Hi1.
  pose proof (gate_inv_hs s A _ Hi1) as Hhs. pose proof Hp as (Hby & Hp1 & Hp2).
  destruct (header_bytes_lemma (ag_hs A) (Z.of_nat (length p)) Hhs ltac:(lia)) as (Hl & _ & Hhb).
  assert (Hlen : Z.of_nat (length p) < 2 ^ 24) by (destruct (ag_hs A =? 2); lia).
  pose proof (gwire_length (ag_hs A) p Hhs Hp) as Hwl.
  assert (Hok1 : gop_ok A (OpData fd (gwire (ag_hs A) p))).
  { cbn [gop_ok]. rewrite Ha, Hb. split; [done|]. split; [by apply Forall_app|]. unfold INT_MAX. cbn [length].
    destruct Hhs as [Eh | Eh]; rewrite Eh in Hwl |- *; lia. }
  assert (Hok2 : gop_ok A (OpData fd p)).
  { cbn [gop_ok]. rewrite Ha, Hb. unfold INT_MAX. cbn [length]. split; [done|]. split; [done|lia]. }
  destruct (op_lemma_gate s A _ _ Hi1 Hok1) as (s1 & E1 & Hs1 & Hv1).
  destruct (op_lemma_gate s A _ _ Hi1 Hok2) as (s2 & E2 & Hs2 & Hv2).
  assert (Estep : astep A (OpData fd (gwire (ag_hs A) p)) = astep A (OpData fd p)).
  { cbn [astep]. unfold with_conn. rewrite Ha. unfold a_data, cut. rewrite Hh, Hb, Hdest. cbn [app negb].
    assert (Ew : cut_ (2 + length (gwire (ag_hs A) p)) (ag_hs A) true 0 (gwire (ag_hs A) p) =
      let '(ps, e) := cut_ (2 + length p) (ag_hs A) true 0 p in (p :: ps, e)).
    { cbn [Nat.add]. rewrite cut_keep by done. rewrite (cut_fuel _ _ true 0 p (2 + length p)); [done|done|..];
        cbn [Z.eqb]; destruct Hhs as [Eh | Eh]; rewrite ?Eh in *; lia. }
    rewrite Ew. destruct (cut_ (2 + length p) (ag_hs A) true 0 p) as [ps [h b|]]; unfold deliveries; by rewrite Hdest. }
  rewrite Estep in Hs1, Hv1. exists s, s1, s2, (astep A (OpData fd p)).1.
  split; [done|]. split; [done|]. split; [done|]. split; [by eexists _, _|congruence].
Qed.

(** A 4 byte header whose first byte is 128 or more is a negative length: the test of
    [dispatch_message] for packages of more than 16M never sees it.  The connection stays
    open and holds everything that arrives after it; nothing is delivered, nothing is
    closed, nothing is logged. *)
Theorem gate_negative_header parm s0 setup fd a b0 b1 b2 b3 rest chunks :
  gate_init parm created = Ok (0, s0) → g_max_connection (gs s0) ≤ 2 ^ 20 →
  let A := (asteps (started s0) setup).1 in
  let ops := OpData fd (b0 :: b1 :: b2 :: b3 :: rest) :: map (OpData fd) chunks in
  gops_ok (started s0) (setup ++ ops) →
  ag_conns A !! fd = Some a → ac_header a = 0 → ac_bytes a = [] → ag_hs A = 4 → 128 ≤ b0 →
  ∃ s rets s', run_ops setup s0 = Ok (rets, s) ∧ run_ops ops s = Ok (0 :: map (λ _, 0) chunks, s') ∧
    visible (gacts s') = visible (gacts s) ∧
    ∃ all h, h < 0 ∧ gate_inv s' (upd A fd (with_bytes a h (rest ++ concat chunks))) all.
Proof.
  intros Hi Hmax A ops Hok Ha Hh Hb Hhs Hb0. pose proof (gate_init_lemma parm s0 Hi Hmax) as Hinv.
  apply gops_ok_app in Hok as [Hok1 Hok2]. fold A in Hok2.
  destruct (ops_lemma_gate setup s0 _ [] Hinv Hok1) as (s & E1 & Hi1 & _). fold A in Hi1.
  destruct (ops_lemma_gate ops s A _ Hi1 Hok2) as (s' & E2 & Hi2 & Hv2).
  set (h := header_value 4 [b0; b1; b2; b3]).
  assert (Hneg : h < 0).
  { destruct Hok2 as [(_ & Hby & _) _]. repeat (apply Forall_cons in Hby as [? Hby]). unfold byte in *.
    unfold h, header_value, i32. cbn [Z.eqb Pos.eqb nth]. rewrite <- (Z_mod_plus_full _ (-1)), Z.mod_small; lia. }
  assert (Efirst : astep A (OpData fd (b0 :: b1 :: b2 :: b3 :: rest)) = (upd A fd (with_bytes a h rest), [])).
  { cbn [astep]. unfold with_conn, a_data, cut. rewrite Ha, Hh, Hb, Hhs. cbn [app Nat.add length cut_].
    unfold next_header. cbn [Z.eqb]. destruct (Z.ltb_spec (Z.of_nat (length (b0 :: b1 :: b2 :: b3 :: rest))) 4);
      [cbn [length] in *; lia|].
    change (take (Z.to_nat 4) (b0 :: b1 :: b2 :: b3 :: rest)) with [b0; b1; b2; b3]. fold h.
    change (drop (Z.to_nat 4) (b0 :: b1 :: b2 :: b3 :: rest)) with rest.
    destruct (Z.ltb_spec h 0); [|lia]. rewrite orb_true_r. unfold deliveries. by destruct (has_destination A a). }
  destruct (stuck_lemma fd a h chunks Hneg rest A) as (Est & Eret).
  unfold ops in E2, Hv2, Hi2. cbn [asteps arets aret] in E2, Hv2, Hi2. rewrite Efirst in E2, Hv2, Hi2. cbn [fst] in E2.
  rewrite Est in Hv2, Hi2. rewrite Eret in E2. cbn [fst snd app] in Hv2, Hi2. rewrite app_nil_r in Hv2.
  exists s, (arets (started s0) setup), s'. split; [done|]. split; [done|]. split; [done|].
  by eexists _, h.
Qed.

(** ** The end of the service *)

Definition open_ids (g : gate) : list Z := filter (λ x, 0 ≤ x) (map cn_id (g_conn g)).

Lemma filter_nodup (l : list Z) :
  (∀ i j x, l !! i = Some x → l !! j = Some x → 0 ≤ x → i = j) → NoDup (filter (λ x, 0 ≤ x) l).
Proof.
  induction l as [|x l IH]; intros Hl; [constructor|]. rewrite filter_cons. case_decide as Hx.
  - constructor.
    + intros [_ [j Hj]%list_elem_of_lookup]%list_elem_of_filter. by specialize (Hl 0%nat (S j) x eq_refl Hj Hx).
    + apply IH. intros i j y Hi Hj Hy. specialize (Hl (S i) (S j) y Hi Hj Hy). lia.
  - apply IH. intros i j y Hi Hj Hy. specialize (Hl (S i) (S j) y Hi Hj Hy). lia.
Qed.

Lemma open_ids_lemma g A M F B : gate_repr g A M F B → open_ids g ≡ₚ elements (dom (ag_conns A)).
Proof.
  intros Hg. destruct (gr_dom _ _ _ _ _ Hg) as [<- _].
  assert (Hslot : ∀ i c, g_conn g !! i = Some c → 0 ≤ cn_id c → M !! cn_id c = Some (Z.of_nat i)).
  { intros i c Hc H0. assert (Hdec : (∃ fd, M !! fd = Some (Z.of_nat i)) ∨ ¬ ∃ fd, M !! fd = Some (Z.of_nat i)).
    { pose proof (ho_map _ _ (gr_hash _ _ _ _ _ Hg)) as Hm.
      destruct (id_at (hi_id (g_hash g)) (Z.of_nat i)) as [fd|] eqn:Ef.
      - destruct (decide (0 ≤ fd)); [left; exists fd; apply Hm; by repeat split; [|lia|]|].
        right. intros [fd' (Hp & _ & E)%Hm]. rewrite Ef in E. injection E as ->. done.
      - right. intros [fd' (_ & _ & E)%Hm]. congruence. }
    destruct Hdec as [[fd HM]|Hno].
    - destruct (gr_conn _ _ _ _ _ Hg fd _ HM) as (c' & a & ps & ch & Hc' & _ & _ & Hr).
      rewrite Nat2Z.id in Hc'. assert (c' = c) as -> by congruence. by rewrite (cr_id _ _ _ _ _ _ _ Hr).
    - exfalso. rewrite (gr_unused _ _ _ _ _ Hg i c Hc) in H0; [cbn in H0; lia|].
      intros fd HM. apply Hno. by exists fd. }
  apply NoDup_Permutation; [|apply NoDup_elements|].
  - apply filter_nodup. intros i j x Hi Hj H0.
    apply list_lookup_fmap_Some in Hi as (c & -> & Hi). apply list_lookup_fmap_Some in Hj as (c' & E & Hj).
    apply Hslot in Hi; [|done]. rewrite E in Hi. apply Hslot in Hj; [|lia]. rewrite Hi in Hj. injection Hj. lia.
  - intros x. unfold open_ids. rewrite elem_of_elements, elem_of_dom, list_elem_of_filter. split.
    + intros [H0 (c & -> & [i Hi]%list_elem_of_lookup)%list_elem_of_fmap]. eexists. by apply (Hslot i).
    + intros [slot HM]. split; [by apply (gr_slot _ _ _ _ _ Hg x slot)|].
      destruct (gr_conn _ _ _ _ _ Hg x _ HM) as (c & a & ps & ch & Hc & _ & _ & Hr).
      apply list_elem_of_fmap. exists c. split; [symmetry; apply Hr|by apply list_elem_of_lookup_2 in Hc].
Qed.

Lemma release_loop g acts :
  for_rangeM (length (g_conn g)) 0 release_step (GState g acts) =
    Ok ((), GState g (acts ++ map GSocketClose (open_ids g))).
Proof.
  destruct (for_rangeM_inv (λ i t, t = GState g (acts ++ map GSocketClose (filter (λ x, 0 ≤ x) (take (Z.to_nat i) (map cn_id (g_conn g))))))
    (length (g_conn g)) 0 release_step (GState g acts)) as (t & E & Ht).
  - by rewrite app_nil_r.
  - intros j t Hj ->. destruct (rd_in_range (g_conn g) j) as (c & Hc & Hrd); [lia|].
    unfold release_step, getG. rewrite gets_bind, (lift_bind _ _ _ _ Hrd).
    assert (map cn_id (g_conn g) !! Z.to_nat j = Some (cn_id c)) as Hid by (apply list_lookup_fmap_Some; by exists c).
    replace (Z.to_nat (j + 1)) with (S (Z.to_nat j)) by lia. rewrite (take_S_r _ _ _ Hid), filter_app, map_app.
    destruct (Z.geb_spec (cn_id c) 0).
    + eexists. split; [reflexivity|]. cbn [gs gacts]. rewrite filter_cons_True, <- app_assoc by lia. done.
    + eexists. split; [reflexivity|]. rewrite filter_cons_False by lia. cbn. by rewrite app_nil_r.
  - rewrite E. f_equal. f_equal. rewrite Ht, take_ge; [done|]. rewrite length_map. lia.
Qed.

(** When the service ends, every open connection's socket is closed, each once, and
    then the listening socket, and nothing else is done.  In particular no buffer is freed:
    [messagepool_free] gives back the nodes of the pool, and the bytes that were waiting on
    the connections ([held B]) are freed by nobody. *)
Theorem gate_release_closes parm s0 ops :
  gate_init parm created = Ok (0, s0) → g_max_connection (gs s0) ≤ 2 ^ 20 → gops_ok (started s0) ops →
  let A := (asteps (started s0) ops).1 in
  ∃ rets s s' closed, run_ops ops s0 = Ok (rets, s) ∧ gate_release s = Ok ((), s') ∧
    closed ≡ₚ elements (dom (ag_conns A)) ∧
    gacts s' = gacts s ++ map GSocketClose closed ++
      (if ag_listen A >=? 0 then [GSocketClose (ag_listen A)] else []) ∧
    ∃ M F B, gate_repr (gs s) A M F B ∧ freed (gacts s') ++ held B ≡ₚ concat (map brings ops).
Proof.
  intros Hi Hmax Hok A. pose proof (gate_init_lemma parm s0 Hi Hmax) as Hinv.
  destruct (ops_lemma_gate ops s0 _ [] Hinv Hok) as (s & E & (M & F & B & Hg & Hall) & _). fold A in Hg.
  destruct (gr_fields _ _ _ _ _ Hg) as (El & _ & _ & _ & _ & Em). destruct (gr_cap _ _ _ _ _ Hg) as [_ Elen].
  set (tail := if ag_listen A >=? 0 then [GSocketClose (ag_listen A)] else []).
  eexists _, s, (GState (set_table hashid_clear [] messagepool_zero (gs s))
    (gacts s ++ map GSocketClose (open_ids (gs s)) ++ tail)), (open_ids (gs s)).
  split; [exact E|]. split; [|split; [by eapply open_ids_lemma|split; [done|]]].
  - unfold gate_release, getG, putG. rewrite gets_bind, Em, <- Elen, Nat2Z.id.
    pose proof (release_loop (gs s) (gacts s)) as Eloop. assert (GState (gs s) (gacts s) = s) as Es by (by destruct s).
    rewrite Es in Eloop. rewrite (sbind_ok _ _ _ _ _ Eloop), El. unfold tail.
    destruct (ag_listen A >=? 0); rewrite ?app_nil_r, ?(assoc_L (++)); reflexivity.
  - exists M, F, B. split; [done|]. cbn [gacts].
    assert (freed (map GSocketClose (open_ids (gs s)) ++ tail) = []) as Ef.
    { rewrite freed_app. assert (freed tail = []) as -> by (unfold tail; by destruct (ag_listen A >=? 0)).
      rewrite app_nil_r. by induction (open_ids (gs s)). }
    by rewrite freed_app, Ef, app_nil_r.
Qed.

End gate.

(** ** A gate *)

(** Every name is handle 9, and the listening socket is 3. *)
#[local] Instance demo_runtime : GateRuntime := { rt_queryname := λ _, 9; rt_listen := λ _ _, 3 }.

Definition gate_demo_parm : option cstring := Some (str "S ! 0.0.0.0:8888 0 2").
Definition gate_demo_parm4 : option cstring := Some (str "L ! 0.0.0.0:8888 0 2").
Definition gate_of (parm : option cstring) : gstate :=
  match gate_init parm created with Ok (_, s) => s | _ => created end.

Definition gate_demo_setup : list gate_op :=
  [OpAccept 7 (str "1.2.3.4"); OpStart 7; OpForward 7 16 32; OpAccept 23 (str "1.2.3.5")].

(** Two packages for connection 7, in three pieces, with another connection in between. *)
Definition gate_demo_traffic : list gate_op :=
  [OpData 7 [0]; OpData 23 [0; 1]; OpData 7 [2; 104; 105; 0; 1]; OpForward 23 5 0; OpData 7 [33]; OpAccept 24 []].

Lemma gate_refines_witness :
  ∃ s, run_ops (gate_demo_setup ++ gate_demo_traffic ++ [OpClient 5 7 [1]; OpClose false 7; OpKick 7])
      (gate_of gate_demo_parm) = Ok ([0; 0; 0; 0; 0; 0; 0; 0; 0; 0; 1; 0; 0], s) ∧
    visible (gacts s) = visible (gacts (gate_of gate_demo_parm)) ++
      [GError (str "socket open: 7"); GSocketStart 7; GError (str "socket open: 17");
       GSend 32 16 65539 1 [104; 105]; GSend 32 16 65539 1 [33]; GSocketClose 24; GSocketSend 7 [1]].
Proof.
  destruct (gate_refines gate_demo_parm (gate_of gate_demo_parm)
    (gate_demo_setup ++ gate_demo_traffic ++ [OpClient 5 7 [1]; OpClose false 7; OpKick 7])) as (s & E & Hv & _).
  - vm_compute. reflexivity.
  - vm_compute. congruence.
  - apply (bool_decide_unpack _). vm_compute. exact I.
  - exists s. split; [rewrite E; vm_compute; reflexivity|]. rewrite Hv. apply f_equal. vm_compute. reflexivity.
Defined.

Lemma gate_streams_witness :
  ∃ s rets log s', run_ops gate_demo_setup (gate_of gate_demo_parm) = Ok (rets, s) ∧
    run_log gate_demo_traffic s = Ok (log, s') ∧
    done_for 7 log = [GSend 32 16 65539 1 [104; 105]; GSend 32 16 65539 1 [33]].
Proof.
  apply (gate_streams gate_demo_parm (gate_of gate_demo_parm) gate_demo_setup gate_demo_traffic 7 (AConn 16 32 0 [])
    [[104; 105]; [33]]).
  - vm_compute. reflexivity.
  - vm_compute. congruence.
  - apply (bool_decide_unpack _). vm_compute. exact I.
  - vm_compute. reflexivity.
  - reflexivity.
  - reflexivity.
  - vm_compute. reflexivity.
  - repeat constructor.
  - apply (bool_decide_unpack _). vm_compute. exact I.
  - vm_compute. reflexivity.
Defined.

(** The package [0; 1; 65] on a connection that nobody serves. *)
Lemma gate_payload_becomes_headers_witness :
  ∃ s s1 s2 A', run_ops [OpAccept 7 []] (gate_of gate_demo_parm) = Ok ([0], s) ∧
    run_op (OpData 7 [0; 3; 0; 1; 65]) s = Ok (0, s1) ∧ run_op (OpData 7 [0; 1; 65]) s = Ok (0, s2) ∧
    (∃ all1 all2, gate_inv s1 A' all1 ∧ gate_inv s2 A' all2) ∧ visible (gacts s1) = visible (gacts s2).
Proof.
  apply (gate_payload_becomes_headers gate_demo_parm (gate_of gate_demo_parm) [OpAccept 7 []] 7 (AConn 0 0 0 []) [0; 1; 65]).
  - vm_compute. reflexivity.
  - vm_compute. congruence.
  - apply (bool_decide_unpack _). vm_compute. exact I.
  - vm_compute. reflexivity.
  - reflexivity.
  - reflexivity.
  - vm_compute. reflexivity.
  - apply (bool_decide_unpack _). vm_compute. exact I.
  - lia.
Defined.

Lemma gate_negative_header_witness :
  ∃ s rets s', run_ops gate_demo_setup (gate_of gate_demo_parm4) = Ok (rets, s) ∧
    run_ops [OpData 7 [128; 0; 0; 0; 1]; OpData 7 [2; 3]; OpData 7 [4]] s = Ok ([0; 0; 0], s') ∧
    visible (gacts s') = visible (gacts s) ∧
    ∃ all h, h < 0 ∧ gate_inv s' (upd (asteps (started (gate_of gate_demo_parm4)) gate_demo_setup).1 7
      (AConn 16 32 h [1; 2; 3; 4])) all.
Proof.
  apply (gate_negative_header gate_demo_parm4 (gate_of gate_demo_parm4) gate_demo_setup 7 (AConn 16 32 0 [])
    128 0 0 0 [1] [[2; 3]; [4]]).
  - vm_compute. reflexivity.
  - vm_compute. congruence.
  - apply (bool_decide_unpack _). vm_compute. exact I.
  - vm_compute. reflexivity.
  - reflexivity.
  - reflexivity.
  - vm_compute. reflexivity.
  - lia.
Defined.

Lemma gate_release_closes_witness :
  ∃ rets s s' closed, run_ops (gate_demo_setup ++ [OpData 23 [0]]) (gate_of gate_demo_parm) = Ok (rets, s) ∧
    gate_release s = Ok ((), s') ∧ closed ≡ₚ [23; 7] ∧
    gacts s' = gacts s ++ map GSocketClose closed ++ [GSocketClose 3] ∧
    ∃ M F B, gate_repr (gs s) (asteps (started (gate_of gate_demo_parm)) (gate_demo_setup ++ [OpData 23 [0]])).1 M F B ∧
      freed (gacts s') ++ held B ≡ₚ [[0]].
Proof.
  destruct (gate_release_closes gate_demo_parm (gate_of gate_demo_parm) (gate_demo_setup ++ [OpData 23 [0]]))
    as (rets & s & s' & closed & E & Er & Hc & Ha & Hheld).
  - vm_compute. reflexivity.
  - vm_compute. congruence.
  - apply (bool_decide_unpack _). vm_compute. exact I.
  - exists rets, s, s', closed. split; [exact E|]. split; [exact Er|].
    split; [etrans; [exact Hc|vm_compute; reflexivity]|]. split; [exact Ha|exact Hheld].
Defined.
