(* ===== verification/Locks.v ===== *)
(** The locks of the node ([spinlock.h], [rwlock.h], [atomic.h]) and what they are for:
    threads that run sections of code under a lock behave as if every section were one step.

    A lock is a class: the shared words, the program counters inside the lock functions and one
    atomic access of a thread; a second class has an invariant of the words and the threads'
    positions that excludes two threads inside.  The threads and their sections are proved
    atomic against the classes; the two locks are instances.

    An access is one step of an interleaving.  What the builtins order is in the model where a
    lock depends on it.  [__sync_add_and_fetch], [__sync_sub_and_fetch] and
    [__sync_synchronize] are full barriers.  [__sync_lock_release] is a release barrier: the
    step that leaves is the moment its store is seen, which may be as late as the scheduler
    likes, behind all accesses of the section; the thread's next access to the word comes
    behind its own store.  [__sync_lock_test_and_set] is documented as an acquire barrier only:
    what follows does not come before it, but its store may be seen late ([Acquire]); on x86 it
    is a full barrier ([Full]).  The spinlock has one word and needs no more than acquire.  The
    writer of the rwlock stores one word and loads another, which needs [Full]: its theorem is
    for such a target, and [rwlock_acquire_unsafe] has the other case. *)

From S2P Require Import Prelude.
Open Scope Z_scope.

(** ** The [__sync] builtins: the value they return and the new value of the word *)

Definition sync_lock_test_and_set (x n : Z) : Z * Z := (x, n).
Definition ATOM_INC (x : Z) : Z * Z := let x := i32 (x + 1) in (x, x).
Definition ATOM_DEC (x : Z) : Z * Z := let x := i32 (x - 1) in (x, x).
Definition sync_lock_release : Z := 0.

(** ** The interface *)

(** Where a thread is: outside, at some point of the lock function, or inside. *)
Inductive position (M P : Type) : Type :=
| Outside
| Acquiring (m : M) (p : P)
| Inside (m : M).
Arguments Outside {M P}.
Arguments Acquiring {M P} m p.
Arguments Inside {M P} m.

Inductive outcome (P : Type) : Type :=
| Goes (p : P)
| Acquired
| Failed.
Arguments Goes {P} p.
Arguments Acquired {P}.
Arguments Failed {P}.

Definition after {M P} (m : M) (o : outcome P) : position M P :=
  match o with Goes p => Acquiring m p | Acquired => Inside m | Failed => Outside end.

(** [M] are the ways to take the lock: [excl] for those that let the section write, [try]
    for those that may fail. *)
Class LockOps (Λ M P : Type) := {
  excl : M → bool;
  try : M → bool;
  lock_init : Λ;
  enter : M → P;
  access : Λ → P → Λ * outcome P;
  leave : M → Λ → Λ
}.

(** What a lock promises, for a number of threads. *)
Class Lock (Λ M P : Type) `{!LockOps Λ M P} := {
  threads_max : Z;
  lock_ok : Λ → list (position M P) → Prop;
  lock_ok_init n : Z.of_nat n ≤ threads_max → lock_ok lock_init (replicate n Outside);
  lock_ok_enter l ps i m : lock_ok l ps → ps !! i = Some Outside → lock_ok l (<[i := Acquiring m (enter m)]> ps);
  lock_ok_access l ps i m p : lock_ok l ps → ps !! i = Some (Acquiring m p) →
    lock_ok (access l p).1 (<[i := after m (access l p).2]> ps) ∧ ((access l p).2 = Failed → try m = true);
  lock_ok_leave l ps i m : lock_ok l ps → ps !! i = Some (Inside m) → lock_ok (leave m l) (<[i := Outside]> ps);
  lock_ok_safe l ps i j m m' : lock_ok l ps → ps !! i = Some (Inside m) → ps !! j = Some (Inside m') → i ≠ j →
    excl m = false ∧ excl m' = false
}.

(** ** Threads that run sections *)

Section Threads.
Context {Λ M P : Type} `{!LockOps Λ M P} {D L : Type}.

(** One statement of a section works on the shared data and the thread's own; what a
    section under a shared lock would write is not written. *)
Definition stmt : Type := D → L → D * L.

Record section := Sect { sec_mode : M; sec_code : list stmt }.

Inductive place : Type :=
| Idle
| Taking (s : section) (p : P)
| Running (m : M) (code : list stmt).

Record thread := Thread { th_place : place; th_loc : L; th_todo : list section }.

Record threads := Threads { ts_lock : Λ; ts_data : D; ts_threads : list thread }.

Definition pos_of (t : thread) : position M P :=
  match th_place t with
  | Idle => Outside
  | Taking s p => Acquiring (sec_mode s) p
  | Running m _ => Inside m
  end.

Definition run_stmt (m : M) (f : stmt) (x : D * L) : D * L :=
  let '(d', l') := f x.1 x.2 in (if excl m then d' else x.1, l').

Definition run_code (m : M) (code : list stmt) (x : D * L) : D * L :=
  foldl (λ x f, run_stmt m f x) x code.

(** One step of a thread. *)
Definition thread_step (l : Λ) (d : D) (t : thread) : Λ * D * thread :=
  match th_place t with
  | Idle =>
      match th_todo t with
      | [] => (l, d, t)
      | s :: todo => (l, d, Thread (Taking s (enter (sec_mode s))) (th_loc t) todo)
      end
  | Taking s p =>
      let '(l', o) := access l p in
      let place := match o with Goes p => Taking s p | Acquired => Running (sec_mode s) (sec_code s) | Failed => Idle end in
      (l', d, Thread place (th_loc t) (th_todo t))
  | Running m (f :: code) =>
      let '(d', x) := run_stmt m f (d, th_loc t) in (l, d', Thread (Running m code) x (th_todo t))
  | Running m [] => (leave m l, d, Thread Idle (th_loc t) (th_todo t))
  end.

Definition sched_step (s : threads) (i : nat) : threads :=
  match ts_threads s !! i with
  | Some t =>
      let '(l, d, t') := thread_step (ts_lock s) (ts_data s) t in Threads l d (<[i := t']> (ts_threads s))
  | None => s
  end.

Definition run_sched (s : threads) (sched : list nat) : threads := foldl sched_step s sched.

Definition start (d : D) (progs : list (L * list section)) : threads :=
  Threads lock_init d (map (λ x, Thread Idle x.1 x.2) progs).

(** *** The specification: a section is one step *)

Definition atomic : Type := D * list (L * list section).

(** Thread [i] runs its next section, or skips it where taking the lock may fail. *)
Definition atomic_step (a : atomic) (c : nat * bool) : atomic :=
  match a.2 !! c.1 with
  | Some (x, s :: todo) =>
      if c.2 then
        let '(d, x) := run_code (sec_mode s) (sec_code s) (a.1, x) in (d, <[c.1 := (x, todo)]> a.2)
      else if try (sec_mode s) then (a.1, <[c.1 := (x, todo)]> a.2) else a
  | _ => a
  end.

Definition run_atomic (a : atomic) (choices : list (nat * bool)) : atomic := foldl atomic_step a choices.

(** The state in which every thread that is inside has finished its section. *)
Definition writing (t : thread) : Prop :=
  match th_place t with Running m _ => excl m = true | _ => False end.

#[export] Instance writing_dec t : Decision (writing t).
Proof. unfold writing. destruct (th_place t); apply _. Defined.

Definition finish_thread (d : D) (t : thread) : L * list section :=
  match th_place t with
  | Idle => (th_loc t, th_todo t)
  | Taking s _ => (th_loc t, s :: th_todo t)
  | Running m code => ((run_code m code (d, th_loc t)).2, th_todo t)
  end.

Definition finish_data (d : D) (t : thread) : D :=
  match th_place t with Running m code => (run_code m code (d, th_loc t)).1 | _ => d end.

Definition completed (s : threads) : atomic :=
  (from_option (λ t, finish_data (ts_data s) t.2) (ts_data s) (list_find writing (ts_threads s)),
   map (finish_thread (ts_data s)) (ts_threads s)).

(** *** Sections are atomic *)

Context `{!Lock Λ M P}.

Definition threads_ok (s : threads) : Prop := lock_ok (ts_lock s) (map pos_of (ts_threads s)).

Lemma run_code_shared m code d x : excl m = false → (run_code m code (d, x)).1 = d.
Proof.
  intros Hm. revert x. induction code as [|f code IH]; intros x; [done|]. cbn [run_code foldl]. unfold run_stmt at 2. cbn [fst snd].
  destruct (f d x) as [d' x']. rewrite Hm. apply IH.
Qed.

Lemma finish_data_none d ts : (∀ j t, ts !! j = Some t → ¬ writing t) →
  from_option (λ t, finish_data d t.2) d (list_find writing ts) = d.
Proof.
  intros Hn. destruct (list_find writing ts) as [[j t]|] eqn:E; [|done].
  apply list_find_Some in E as (Hj & Hw & _). by destruct (Hn j t Hj).
Qed.

Lemma finish_data_one d ts i t : ts !! i = Some t → (∀ j t', ts !! j = Some t' → i ≠ j → ¬ writing t') →
  from_option (λ t, finish_data d t.2) d (list_find writing ts) = finish_data d t.
Proof.
  intros Hi Hn. destruct (list_find writing ts) as [[j t']|] eqn:E.
  - apply list_find_Some in E as (Hj & Hw & _). destruct (decide (i = j)) as [->|Hne]; [|by destruct (Hn j t' Hj)].
    by simplify_eq.
  - cbn. apply list_find_None in E. pose proof (Forall_lookup_1 _ _ _ _ E Hi) as Hw. unfold writing, finish_data in *. cbn beta in *.
    destruct (th_place t) as [| |m code]; [done..|]. symmetry. apply run_code_shared. by destruct (excl m).
Qed.
Definition running (t : thread) : Prop := match th_place t with Running _ _ => True | _ => False end.

#[export] Instance running_dec t : Decision (running t).
Proof. unfold running. destruct (th_place t); apply _. Defined.

Lemma running_excludes s i j t t' m code : threads_ok s → ts_threads s !! i = Some t → th_place t = Running m code →
  ts_threads s !! j = Some t' → i ≠ j → running t' → excl m = false ∧ ¬ writing t'.
Proof.
  unfold running, writing. intros Hok Hi Hp Hj Hne Hr. destruct (th_place t') as [| |m' code'] eqn:Hp'; [done..|].
  destruct (lock_ok_safe _ _ i j m m' Hok) as [H1 H2]; [| |done|by rewrite H2].
  - rewrite list_lookup_fmap, Hi. cbn. unfold pos_of. by rewrite Hp.
  - rewrite list_lookup_fmap, Hj. cbn. unfold pos_of. by rewrite Hp'.
Qed.

Lemma writing_running t : writing t → running t.
Proof. unfold writing, running. by destruct (th_place t). Qed.

(** The data when thread [i] is inside. *)
Lemma completed_running s i t m code : threads_ok s → ts_threads s !! i = Some t → th_place t = Running m code →
  (completed s).1 = (run_code m code (ts_data s, th_loc t)).1.
Proof.
  intros Hok Hi Hp. unfold completed. cbn [fst]. rewrite (finish_data_one _ _ i t Hi).
  - unfold finish_data. by rewrite Hp.
  - intros j t' Hj Hne Hw. destruct (running_excludes s i j t t' m code Hok Hi Hp Hj Hne (writing_running _ Hw)). done.
Qed.

(** A thread that is outside or in the lock function does not matter for the data. *)
Lemma completed_same s i t t' l : threads_ok s → ts_threads s !! i = Some t → ¬ running t → ¬ running t' →
  let s' := Threads l (ts_data s) (<[i := t']> (ts_threads s)) in
  threads_ok s' → (completed s').1 = (completed s).1.
Proof.
  intros Hok Hi Hr Hr' s' Hok'. destruct (decide (Exists writing (ts_threads s))) as [Hex|Hnone].
  - apply Exists_exists in Hex as (tw & Hin & Hw). apply list_elem_of_lookup in Hin as [j Hj].
    assert (Hne : i ≠ j) by (intros ->; simplify_eq; by apply Hr, writing_running).
    unfold writing in Hw. destruct (th_place tw) as [| |m code] eqn:Hp; [done..|].
    rewrite (completed_running s j tw m code), (completed_running s' j tw m code); try done.
    cbn [s' ts_threads]. by rewrite list_lookup_insert_ne.
  - unfold completed, s'. cbn [fst ts_data ts_threads]. rewrite !finish_data_none; [done|..].
    + intros j tj Hj Hw. apply Hnone, Exists_exists. exists tj. split; [by eapply list_elem_of_lookup_2|done].
    + intros j tj Hj Hw. destruct (decide (i = j)) as [->|Hne].
      * rewrite list_lookup_insert_eq in Hj by (by eapply lookup_lt_Some). simplify_eq. by apply Hr', writing_running.
      * rewrite list_lookup_insert_ne in Hj by done. apply Hnone, Exists_exists. exists tj. split; [by eapply list_elem_of_lookup_2|done].
Qed.

Lemma threads_ok_insert s i t t' l d : ts_threads s !! i = Some t →
  lock_ok l (<[i := pos_of t']> (map pos_of (ts_threads s))) → threads_ok (Threads l d (<[i := t']> (ts_threads s))).
Proof. intros Hi Hok. unfold threads_ok. cbn [ts_lock ts_threads]. by rewrite list_fmap_insert. Qed.

Lemma pos_lookup s i t : ts_threads s !! i = Some t → map pos_of (ts_threads s) !! i = Some (pos_of t).
Proof. intros Hi. by rewrite list_lookup_fmap, Hi. Qed.

(** What one step of a thread is to the specification: nothing, or one of its steps. *)
Definition choice_of (s : threads) (i : nat) : list (nat * bool) :=
  match ts_threads s !! i with
  | Some t =>
      match th_place t with
      | Taking _ p => match (access (ts_lock s) p).2 with Goes _ => [] | Acquired => [(i, true)] | Failed => [(i, false)] end
      | _ => []
      end
  | None => []
  end.

Definition step_refines (s : threads) (i : nat) : Prop :=
  threads_ok (sched_step s i) ∧ completed (sched_step s i) = run_atomic (completed s) (choice_of s i).

(** Neither before nor after the step is the thread inside, and it keeps what it has to do. *)
Lemma refines_quiet s i t t' l : threads_ok s → ts_threads s !! i = Some t → ¬ running t → ¬ running t' →
  finish_thread (ts_data s) t' = finish_thread (ts_data s) t →
  let s' := Threads l (ts_data s) (<[i := t']> (ts_threads s)) in threads_ok s' → completed s' = completed s.
Proof.
  intros Hok Hi Hr Hr' Hf s' Hok'. apply injective_projections; [by eapply completed_same|].
  unfold completed, s'. cbn [snd ts_data ts_threads]. rewrite list_fmap_insert, Hf. apply list_insert_id.
  by rewrite list_lookup_fmap, Hi.
Qed.
Lemma step_idle s i t : threads_ok s → ts_threads s !! i = Some t → th_place t = Idle → step_refines s i.
Proof.
  intros Hok Hi Hp. unfold step_refines, choice_of, sched_step, thread_step. rewrite Hi, Hp.
  destruct (th_todo t) as [|sec todo] eqn:Htodo.
  { rewrite list_insert_id by done. by destruct s. }
  cbn [run_atomic foldl].
  assert (Hok' : threads_ok (Threads (ts_lock s) (ts_data s)
    (<[i := Thread (Taking sec (enter (sec_mode sec))) (th_loc t) todo]> (ts_threads s)))).
  { eapply threads_ok_insert; [done|]. apply lock_ok_enter; [done|]. rewrite (pos_lookup _ _ _ Hi). unfold pos_of. by rewrite Hp. }
  split; [done|]. eapply refines_quiet; [done|exact Hi|..]; unfold running, finish_thread; cbn; rewrite ?Hp; try (done || by intros []).
  by rewrite Htodo.
Qed.

Lemma atomic_at s i t : ts_threads s !! i = Some t → (completed s).2 !! i = Some (finish_thread (ts_data s) t).
Proof. intros Hi. unfold completed. cbn [snd]. by rewrite list_lookup_fmap, Hi. Qed.

(** The moment a thread gets in is the moment its section takes effect. *)
Lemma step_acquired s i t sec p : threads_ok s → ts_threads s !! i = Some t → th_place t = Taking sec p →
  (access (ts_lock s) p).2 = Acquired → step_refines s i.
Proof.
  intros Hok Hi Hp Ho. unfold step_refines, choice_of, sched_step, thread_step. rewrite Hi, Hp.
  pose proof (pos_lookup _ _ _ Hi) as Hpos. unfold pos_of at 2 in Hpos. rewrite Hp in Hpos.
  destruct (lock_ok_access _ _ _ _ _ Hok Hpos) as [Hacc _].
  destruct (access (ts_lock s) p) as [l' o]. cbn [fst snd] in *. subst o.
  set (t' := Thread (Running (sec_mode sec) (sec_code sec)) (th_loc t) (th_todo t)).
  set (s' := Threads l' (ts_data s) (<[i := t']> (ts_threads s))).
  assert (Hok' : threads_ok s') by (by eapply threads_ok_insert).
  assert (Hi' : ts_threads s' !! i = Some t') by (apply list_lookup_insert_eq; by eapply lookup_lt_Some).
  split; [done|]. pose proof (atomic_at s i t Hi) as Ha. unfold finish_thread in Ha. rewrite Hp in Ha.
  cbn [run_atomic foldl]. unfold atomic_step. cbn [fst snd]. rewrite Ha.
  assert (Hd : (completed s).1 = ts_data s).
  { apply finish_data_none. intros j tj Hj Hw. pose proof (writing_running _ Hw) as Hr. destruct (decide (i = j)) as [->|Hne].
    - simplify_eq. unfold running in Hr. by rewrite Hp in Hr.
    - destruct (running_excludes s' i j t' tj (sec_mode sec) (sec_code sec) Hok' Hi' eq_refl) as [_ Hn]; [|done|done|done].
      cbn [s' ts_threads]. by rewrite list_lookup_insert_ne. }
  pose proof (completed_running s' i t' _ _ Hok' Hi' eq_refl) as Hd'. rewrite Hd.
  destruct (run_code (sec_mode sec) (sec_code sec) (ts_data s, th_loc t)) as [d' x'] eqn:Erun.
  apply injective_projections.
  - rewrite Hd'. cbn [s' t' ts_data th_loc fst]. by rewrite Erun.
  - unfold completed at 1, s'. cbn [snd ts_data ts_threads]. rewrite list_fmap_insert.
    unfold finish_thread at 1, t'. cbn [th_place th_loc th_todo]. by rewrite Erun.
Qed.

Lemma step_taking s i t sec p : threads_ok s → ts_threads s !! i = Some t → th_place t = Taking sec p → step_refines s i.
Proof.
  intros Hok Hi Hp. destruct (access (ts_lock s) p).2 as [p'| |] eqn:Ho; [|by eapply step_acquired|].
  all: pose proof (pos_lookup _ _ _ Hi) as Hpos; unfold pos_of at 2 in Hpos; rewrite Hp in Hpos.
  all: destruct (lock_ok_access _ _ _ _ _ Hok Hpos) as [Hacc Htry].
  all: unfold step_refines, choice_of, sched_step, thread_step; rewrite Hi, Hp;
    destruct (access (ts_lock s) p) as [l' o]; cbn [fst snd] in *; subst o; cbn [run_atomic foldl].
  - assert (Hok' : threads_ok (Threads l' (ts_data s) (<[i := Thread (Taking sec p') (th_loc t) (th_todo t)]> (ts_threads s))))
      by (by eapply threads_ok_insert).
    split; [done|]. eapply refines_quiet; [done|exact Hi|..]; unfold running, finish_thread; cbn; rewrite ?Hp; done || by intros [].
  - set (t' := Thread Idle (th_loc t) (th_todo t)).
    assert (Hok' : threads_ok (Threads l' (ts_data s) (<[i := t']> (ts_threads s)))) by (by eapply threads_ok_insert).
    split; [done|]. unfold atomic_step. cbn [fst snd]. pose proof (atomic_at s i t Hi) as Ha. unfold finish_thread in Ha.
    rewrite Hp in Ha. rewrite Ha, (Htry eq_refl). apply injective_projections.
    + eapply completed_same; [done|exact Hi|..]; unfold running; cbn; rewrite ?Hp; done || by intros [].
    + unfold completed at 1. cbn [snd ts_data ts_threads]. by rewrite list_fmap_insert.
Qed.

(** A statement of a section: the data of nobody else changes. *)
Lemma step_statement s i t m f code : threads_ok s → ts_threads s !! i = Some t → th_place t = Running m (f :: code) →
  step_refines s i.
Proof.
  intros Hok Hi Hp. unfold step_refines, choice_of, sched_step, thread_step. rewrite Hi, Hp.
  destruct (run_stmt m f (ts_data s, th_loc t)) as [d' x] eqn:Ef.
  set (t' := Thread (Running m code) x (th_todo t)). set (s' := Threads (ts_lock s) d' (<[i := t']> (ts_threads s))).
  pose proof (pos_lookup _ _ _ Hi) as Hpos.
  assert (Hok' : threads_ok s').
  { eapply threads_ok_insert; [done|]. rewrite list_insert_id; [done|]. rewrite Hpos. unfold pos_of. by rewrite Hp. }
  assert (Hi' : ts_threads s' !! i = Some t') by (apply list_lookup_insert_eq; by eapply lookup_lt_Some).
  assert (Hrun : run_code m (f :: code) (ts_data s, th_loc t) = run_code m code (d', x)) by (unfold run_code; cbn [foldl]; by rewrite Ef).
  split; [done|]. cbn [run_atomic foldl]. apply injective_projections.
  - rewrite (completed_running s' i t' m code), (completed_running s i t m (f :: code)), Hrun by done. done.
  - unfold completed. cbn [snd s' ts_data ts_threads]. apply list_eq. intros j. rewrite !list_lookup_fmap.
    destruct (decide (i = j)) as [<-|Hne].
    { rewrite list_lookup_insert_eq, Hi by (by eapply lookup_lt_Some). cbn. unfold finish_thread. rewrite Hp, Hrun. done. }
    rewrite list_lookup_insert_ne by done. destruct (ts_threads s !! j) as [tj|] eqn:Hj; [|done]. cbn. f_equal.
    assert (Hcase : d' = ts_data s ∨ ¬ running tj).
    { destruct (decide (running tj)) as [Hr|]; [left|by right].
      destruct (running_excludes s i j t tj m (f :: code) Hok Hi Hp Hj Hne Hr) as [Hm _].
      unfold run_stmt in Ef. cbn [fst snd] in Ef. destruct (f (ts_data s) (th_loc t)). rewrite Hm in Ef. by simplify_eq. }
    destruct Hcase as [->|Hr]; [done|]. unfold running, finish_thread in *. by destruct (th_place tj).
Qed.

(** Leaving. *)
Lemma step_leave s i t m : threads_ok s → ts_threads s !! i = Some t → th_place t = Running m [] → step_refines s i.
Proof.
  intros Hok Hi Hp. unfold step_refines, choice_of, sched_step, thread_step. rewrite Hi, Hp.
  set (t' := Thread Idle (th_loc t) (th_todo t)). set (s' := Threads (leave m (ts_lock s)) (ts_data s) (<[i := t']> (ts_threads s))).
  assert (Hok' : threads_ok s').
  { eapply threads_ok_insert; [done|]. apply lock_ok_leave; [done|]. rewrite (pos_lookup _ _ _ Hi). unfold pos_of. by rewrite Hp. }
  split; [done|]. cbn [run_atomic foldl]. apply injective_projections.
  - rewrite (completed_running s i t m [] Hok Hi Hp). apply finish_data_none. cbn [s' ts_threads]. intros j tj Hj Hw.
    destruct (decide (i = j)) as [<-|Hne].
    + rewrite list_lookup_insert_eq in Hj by (by eapply lookup_lt_Some). by simplify_eq.
    + rewrite list_lookup_insert_ne in Hj by done.
      by destruct (running_excludes s i j t tj m [] Hok Hi Hp Hj Hne (writing_running _ Hw)).
  - unfold completed. cbn [snd s' ts_data ts_threads]. rewrite list_fmap_insert. apply list_insert_id.
    rewrite list_lookup_fmap, Hi. cbn. unfold finish_thread. by rewrite Hp.
Qed.

Lemma step_lemma s i : threads_ok s → step_refines s i.
Proof.
  intros Hok. destruct (ts_threads s !! i) as [t|] eqn:Hi.
  - destruct (th_place t) as [|sec p|m [|f code]] eqn:Hp;
      [by eapply step_idle|by eapply step_taking|by eapply step_leave|by eapply step_statement].
  - unfold step_refines, choice_of, sched_step. by rewrite Hi.
Qed.

(** The sections in the order in which their threads got in. *)
Fixpoint choices (s : threads) (sched : list nat) : list (nat * bool) :=
  match sched with
  | [] => []
  | i :: sched => choice_of s i ++ choices (sched_step s i) sched
  end.

Lemma run_lemma sched : ∀ s, threads_ok s →
  threads_ok (run_sched s sched) ∧ completed (run_sched s sched) = run_atomic (completed s) (choices s sched).
Proof.
  induction sched as [|i sched IH]; intros s Hok; [done|]. cbn [choices run_sched foldl].
  destruct (step_lemma s i Hok) as [Hok' Hc]. destruct (IH _ Hok') as [Hok'' Hc']. split; [done|].
  unfold run_sched in Hc'. rewrite Hc', Hc. unfold run_atomic. by rewrite foldl_app.
Qed.

Lemma start_lemma d progs : Z.of_nat (length progs) ≤ threads_max →
  threads_ok (start d progs) ∧ completed (start d progs) = (d, progs).
Proof.
  intros Hn. split.
  - unfold threads_ok, start. cbn [ts_lock ts_threads]. rewrite map_map.
    replace (map (λ x, pos_of (Thread Idle x.1 x.2)) progs) with (replicate (length progs) (@Outside M P)); [by apply lock_ok_init|].
    clear Hn. induction progs as [|x progs IH]; [done|]. cbn [length replicate map]. by rewrite IH.
  - unfold completed, start. cbn [ts_data ts_threads]. apply injective_projections; cbn [fst snd].
    + apply finish_data_none. intros j t Hj. apply list_lookup_fmap_Some in Hj as (x & -> & _). by intros [].
    + rewrite map_map. cbn. clear Hn. induction progs as [|[x todo] progs IH]; [done|]. cbn [map]. by rewrite IH.
Qed.

(** Two threads that are inside at once share the lock. *)
Definition excludes (s : threads) : Prop :=
  ∀ i j t t' m m' code code', ts_threads s !! i = Some t → ts_threads s !! j = Some t' → i ≠ j →
    th_place t = Running m code → th_place t' = Running m' code' → excl m = false ∧ excl m' = false.

Lemma excludes_lemma s : threads_ok s → excludes s.
Proof.
  intros Hok i j t t' m m' code code' Hi Hj Hne Hp Hp'. apply (lock_ok_safe _ _ i j m m' Hok); [| |done].
  - rewrite (pos_lookup _ _ _ Hi). unfold pos_of. by rewrite Hp.
  - rewrite (pos_lookup _ _ _ Hj). unfold pos_of. by rewrite Hp'.
Qed.

(** What a lock promises the code that uses it. *)
Lemma sections_atomic d progs sched : Z.of_nat (length progs) ≤ threads_max →
  let s := run_sched (start d progs) sched in
  excludes s ∧ completed s = run_atomic (d, progs) (choices (start d progs) sched).
Proof.
  intros Hn s. destruct (start_lemma d progs Hn) as [Hok Hc]. destruct (run_lemma sched _ Hok) as [Hok' Hc'].
  split; [by apply excludes_lemma|]. by rewrite <- Hc.
Qed.
End Threads.

(** ** Counting threads *)

Definition countb {A} (f : A → bool) (l : list A) : Z := foldr (λ x n, (if f x then 1 else 0) + n) 0 l.

Arguments countb : simpl never.

Lemma countb_cons {A} (f : A → bool) x l : countb f (x :: l) = (if f x then 1 else 0) + countb f l.
Proof. done. Qed.

Lemma countb_insert {A} (f : A → bool) l i x y : l !! i = Some x →
  countb f (<[i := y]> l) = countb f l - (if f x then 1 else 0) + (if f y then 1 else 0).
Proof.
  revert i. induction l as [|z l IH]; intros [|i] Hi; [done..| |].
  - change (<[0%nat := y]> (z :: l)) with (y :: l). cbn in Hi. simplify_eq. rewrite !countb_cons. lia.
  - change (<[S i := y]> (z :: l)) with (z :: <[i := y]> l). cbn in Hi. rewrite !countb_cons, (IH i Hi). lia.
Qed.

Lemma countb_range {A} (f : A → bool) l : 0 ≤ countb f l ≤ Z.of_nat (length l).
Proof. induction l as [|x l IH]; [done|]. rewrite countb_cons. cbn [length]. destruct (f x); lia. Qed.

Lemma countb_one {A} (f : A → bool) l i x : l !! i = Some x → f x = true → 1 ≤ countb f l.
Proof.
  revert i. induction l as [|z l IH]; intros [|i] Hi Hf; [done..| |]; cbn in *; rewrite countb_cons; pose proof (countb_range f l).
  - simplify_eq. rewrite Hf. lia.
  - pose proof (IH i Hi Hf). destruct (f z); lia.
Qed.

Lemma countb_two {A} (f : A → bool) l : ∀ i j x y, l !! i = Some x → l !! j = Some y → i ≠ j → f x = true → f y = true →
  2 ≤ countb f l.
Proof.
  induction l as [|z l IH]; intros i j x y Hi Hj Hne Hx Hy; [done|]. rewrite countb_cons.
  destruct i as [|i], j as [|j]; [done|..]; cbn in *; simplify_eq.
  - rewrite Hx. pose proof (countb_one f l j y Hj Hy). lia.
  - rewrite Hy. pose proof (countb_one f l i x Hi Hx). lia.
  - pose proof (IH i j x y Hi Hj ltac:(congruence) Hx Hy). destruct (f z); lia.
Qed.

Lemma countb_replicate {A} (f : A → bool) n x : f x = false → countb f (replicate n x) = 0.
Proof. intros Hx. induction n as [|n IH]; [done|]. cbn [replicate]. by rewrite countb_cons, Hx, IH. Qed.

(** ** The spinlock *)

Record spinlock : Set := Spinlock { sl_lock : Z }.

Definition spinlock_init : spinlock := Spinlock 0.

(** One round of the loop of [spinlock_lock]: whether it goes round again. *)
Definition spinlock_lock (l : spinlock) : bool * spinlock :=
  let '(old, new) := sync_lock_test_and_set (sl_lock l) 1 in (negb (old =? 0), Spinlock new).

Definition spinlock_trylock (l : spinlock) : bool * spinlock :=
  let '(old, new) := sync_lock_test_and_set (sl_lock l) 1 in (old =? 0, Spinlock new).

Definition spinlock_unlock (l : spinlock) : spinlock := Spinlock sync_lock_release.

(** [spinlock_lock] or [spinlock_trylock]. *)
Inductive spin_mode : Set := SPIN_LOCK | SPIN_TRYLOCK.

Definition spin_access (l : spinlock) (p : spin_mode) : spinlock * outcome spin_mode :=
  match p with
  | SPIN_LOCK => let '(spins, l) := spinlock_lock l in (l, if spins then Goes SPIN_LOCK else Acquired)
  | SPIN_TRYLOCK => let '(got, l) := spinlock_trylock l in (l, if got then Acquired else Failed)
  end.

Definition is_inside {M P} (x : position M P) : bool := match x with Inside _ => true | _ => false end.

(** The word is 1 when a thread is inside and 0 when none is; a thread in [spinlock_trylock]
    is there to try. *)
Definition spin_ok (l : spinlock) (ps : list (position spin_mode spin_mode)) : Prop :=
  sl_lock l = countb is_inside ps ∧ countb is_inside ps ≤ 1 ∧
  ∀ i m p, ps !! i = Some (Acquiring m p) → p = m.

Lemma spin_ok_set l ps i x y : spin_ok l ps → ps !! i = Some x → (∀ m p, y = Acquiring m p → p = m) →
  ∀ l', sl_lock l' = sl_lock l - (if is_inside x then 1 else 0) + (if is_inside y then 1 else 0) → sl_lock l' ≤ 1 →
  spin_ok l' (<[i := y]> ps).
Proof.
  intros (Hl & Hmax & Hp) Hi Hy l' Hl' Hmax'. unfold spin_ok. rewrite (countb_insert _ _ _ _ _ Hi).
  split; [lia|]. split; [lia|]. intros j m p Hj. destruct (decide (i = j)) as [<-|Hne].
  - rewrite list_lookup_insert_eq in Hj by (by eapply lookup_lt_Some). simplify_eq. by apply Hy.
  - rewrite list_lookup_insert_ne in Hj by done. by eapply Hp.
Qed.

Lemma spin_ok_access l ps i m p : spin_ok l ps → ps !! i = Some (Acquiring m p) →
  spin_ok (spin_access l p).1 (<[i := after m (spin_access l p).2]> ps) ∧
  ((spin_access l p).2 = Failed → match m with SPIN_TRYLOCK => true | SPIN_LOCK => false end = true).
Proof.
  intros Hok Hi. pose proof Hok as (Hl & Hmax & Hp). pose proof (Hp _ _ _ Hi) as ->. pose proof (countb_range is_inside ps).
  destruct m; cbn [spin_access]; unfold spinlock_lock, spinlock_trylock, sync_lock_test_and_set;
    (destruct (Z.eqb_spec (sl_lock l) 0) as [H0|H0]; cbn [negb fst snd after]; (split; [|done]));
    (eapply spin_ok_set; [done|exact Hi|..]; cbn [is_inside sl_lock]; try lia); try done; by intros ? ? [= <- <-].
Qed.

#[export] Instance spin_ops : LockOps spinlock spin_mode spin_mode :=
  {| excl := λ _, true;
     try := λ m, match m with SPIN_TRYLOCK => true | SPIN_LOCK => false end;
     lock_init := spinlock_init; enter := λ m, m; access := spin_access; leave := λ _, spinlock_unlock |}.

#[export] Instance spin_Lock : Lock spinlock spin_mode spin_mode.
Proof.
  refine {| threads_max := INT_MAX; lock_ok := spin_ok |}.
  - intros n _. unfold spin_ok. rewrite countb_replicate by done. split; [done|]. split; [lia|].
    intros i m p Hi. by apply lookup_replicate in Hi as [? _].
  - intros l ps i m Hok Hi. eapply spin_ok_set; [done|exact Hi|..]; cbn [is_inside]; [by intros ? ? [= <- <-]|lia|].
    destruct Hok as (? & ? & _). lia.
  - apply spin_ok_access.
  - intros l ps i m Hok Hi. pose proof (countb_one is_inside ps i _ Hi eq_refl). destruct Hok as (Hl & Hmax & Hp).
    eapply spin_ok_set; [done|exact Hi|done|..]; cbn; unfold sync_lock_release; lia.
  - intros l ps i j m m' (_ & Hmax & _) Hi Hj Hne. pose proof (countb_two is_inside ps i j _ _ Hi Hj Hne eq_refl eq_refl). lia.
Defined.

(** ** The reader-writer lock *)

(** What [__sync_lock_test_and_set] is on the target. *)
Inductive barrier : Set := Full | Acquire.

(** The two words, and what a thread that did not store it last loads from [write]. *)
Record rwlock : Set := Rwlock { rw_write : Z; rw_seen : Z; rw_read : Z }.

Definition rwlock_init : rwlock := Rwlock 0 0 0.

Inductive rw_mode : Set := RLOCK | WLOCK.

(** [while (lock->write)], the increment, [if (lock->write)] and the decrement of
    [rwlock_rlock]; the two loops of [rwlock_wlock]. *)
Inductive rw_pc : Set := RWait | RInc | RCheck | RDec | WSet | WWait.

Definition rwlock_rlock (l : rwlock) (p : rw_pc) : rwlock * outcome rw_pc :=
  match p with
  | RWait => (l, if negb (rw_seen l =? 0) then Goes RWait else Goes RInc)
  | RInc => (Rwlock (rw_write l) (rw_seen l) (ATOM_INC (rw_read l)).2, Goes RCheck)
  | RCheck => (l, if negb (rw_seen l =? 0) then Goes RDec else Acquired)
  | RDec => (Rwlock (rw_write l) (rw_seen l) (ATOM_DEC (rw_read l)).2, Goes RWait)
  | WSet | WWait => (l, Goes p)
  end.

(** The barrier in the second loop lets the others see the store of the first. *)
Definition rwlock_wlock (b : barrier) (l : rwlock) (p : rw_pc) : rwlock * outcome rw_pc :=
  match p with
  | WSet =>
      let '(old, new) := sync_lock_test_and_set (rw_write l) 1 in
      (Rwlock new (match b with Full => new | Acquire => rw_seen l end) (rw_read l),
       if negb (old =? 0) then Goes WSet else Goes WWait)
  | WWait =>
      if negb (rw_read l =? 0) then (Rwlock (rw_write l) (rw_write l) (rw_read l), Goes WWait) else (l, Acquired)
  | _ => (l, Goes p)
  end.

Definition rwlock_wunlock (l : rwlock) : rwlock := Rwlock sync_lock_release sync_lock_release (rw_read l).
Definition rwlock_runlock (l : rwlock) : rwlock := Rwlock (rw_write l) (rw_seen l) (ATOM_DEC (rw_read l)).2.

Definition rw_access (b : barrier) (l : rwlock) (p : rw_pc) : rwlock * outcome rw_pc :=
  match p with WSet | WWait => rwlock_wlock b l p | _ => rwlock_rlock l p end.

Definition rw_leave (m : rw_mode) : rwlock → rwlock :=
  match m with RLOCK => rwlock_runlock | WLOCK => rwlock_wunlock end.

(** The threads that count in each word, and those that are inside. *)
Definition counts_write (x : position rw_mode rw_pc) : bool :=
  match x with Acquiring _ WWait | Inside WLOCK => true | _ => false end.
Definition counts_read (x : position rw_mode rw_pc) : bool :=
  match x with Acquiring _ RCheck | Acquiring _ RDec | Inside RLOCK => true | _ => false end.
Definition reads (x : position rw_mode rw_pc) : bool := match x with Inside RLOCK => true | _ => false end.
Definition writes (x : position rw_mode rw_pc) : bool := match x with Inside WLOCK => true | _ => false end.

Definition pc_ok (x : position rw_mode rw_pc) : bool :=
  match x with
  | Acquiring WLOCK (WSet | WWait) | Acquiring RLOCK (RWait | RInc | RCheck | RDec) | Outside | Inside _ => true
  | _ => false
  end.

Record rw_ok (l : rwlock) (ps : list (position rw_mode rw_pc)) : Prop := {
  ro_max : Z.of_nat (length ps) ≤ INT_MAX;
  ro_write : rw_write l = countb counts_write ps;
  ro_seen : rw_seen l = rw_write l;
  ro_one : countb counts_write ps ≤ 1;
  ro_read : rw_read l = countb counts_read ps;
  ro_excl : 1 ≤ countb writes ps → countb reads ps = 0;
  ro_pc i x : ps !! i = Some x → pc_ok x = true
}.

Lemma countb_le {A} (f g : A → bool) l : (∀ x, f x = true → g x = true) → countb f l ≤ countb g l.
Proof.
  intros Hfg. induction l as [|x l IH]; [done|]. rewrite !countb_cons. specialize (Hfg x).
  destruct (f x), (g x); lia || by specialize (Hfg eq_refl).
Qed.

(** Every step of the lock replaces the position of one thread. *)
Lemma rw_ok_set l l' ps i x y : rw_ok l ps → ps !! i = Some x → pc_ok y = true →
  rw_seen l' = rw_write l' →
  rw_write l' = rw_write l - Z.b2z (counts_write x) + Z.b2z (counts_write y) → rw_write l' ≤ 1 →
  rw_read l' = i32 (rw_read l - Z.b2z (counts_read x) + Z.b2z (counts_read y)) →
  (1 ≤ countb writes ps - Z.b2z (writes x) + Z.b2z (writes y) → countb reads ps - Z.b2z (reads x) + Z.b2z (reads y) = 0) →
  rw_ok l' (<[i := y]> ps).
Proof.
  intros [Hmax Hw Hv H1 Hr Hx Hp] Hi Hy Ev Ew E1 Er Ex. unfold Z.b2z in *.
  pose proof (countb_insert counts_read ps i x y Hi) as Hcr. pose proof (countb_range counts_read (<[i := y]> ps)) as Hrange.
  rewrite length_insert in Hrange. unfold INT_MAX in *.
  assert (Er' : rw_read l' = countb counts_read (<[i := y]> ps)) by (rewrite Er, i32_small; lia).
  split; rewrite ?length_insert, ?(countb_insert _ ps i x y Hi); try (done || lia).
  intros j z Hj. destruct (decide (i = j)) as [<-|Hne].
  - rewrite list_lookup_insert_eq in Hj by (by eapply lookup_lt_Some). by simplify_eq.
  - rewrite list_lookup_insert_ne in Hj by done. by eapply Hp.
Qed.

Lemma rw_ok_i32 l ps : rw_ok l ps → i32 (rw_read l) = rw_read l ∧ i32 (rw_read l - 0 + 0) = rw_read l.
Proof.
  intros [Hmax _ _ _ Hr _ _]. pose proof (countb_range counts_read ps). unfold INT_MAX in *.
  rewrite Z.sub_0_r, Z.add_0_r, i32_small by lia. done.
Qed.

Lemma rw_ok_access l ps i m p : rw_ok l ps → ps !! i = Some (Acquiring m p) →
  rw_ok (rw_access Full l p).1 (<[i := after m (rw_access Full l p).2]> ps) ∧ ((rw_access Full l p).2 = Failed → false = true).
Proof.
  intros Hok Hi. pose proof Hok as [Hmax Hw Hv H1 Hr Hx Hp]. destruct (rw_ok_i32 _ _ Hok) as [E0 E00]. pose proof (Hp _ _ Hi) as Hpc.
  pose proof (countb_range counts_write ps) as Rw. pose proof (countb_range counts_read ps) as Rr.
  pose proof (countb_le writes counts_write ps ltac:(by intros [|? []|[]])) as Lw.
  pose proof (countb_le reads counts_read ps ltac:(by intros [|? []|[]])) as Lr.
  pose proof (countb_range reads ps) as R0.
  destruct m, p; try done; cbn [rw_access rwlock_rlock rwlock_wlock sync_lock_test_and_set ATOM_INC ATOM_DEC fst snd];
    rewrite ?Hv; try (destruct (Z.eqb_spec (rw_write l) 0) as [Hz|Hz]); try (destruct (Z.eqb_spec (rw_read l) 0) as [Hz'|Hz']);
    cbn [negb fst snd after]; (split; [|done]); (eapply rw_ok_set; [done|exact Hi|done|..]);
    cbn [counts_write counts_read reads writes Z.b2z rw_write rw_seen rw_read]; rewrite ?Z.sub_0_r, ?Z.add_0_r, ?Z.sub_add; try (done || lia).
Qed.

Definition rw_ops (b : barrier) : LockOps rwlock rw_mode rw_pc :=
  {| excl := λ m, match m with WLOCK => true | RLOCK => false end; try := λ _, false;
     lock_init := rwlock_init; enter := λ m, match m with WLOCK => WSet | RLOCK => RWait end;
     access := rw_access b; leave := rw_leave |}.

#[export] Instance rw_full : LockOps rwlock rw_mode rw_pc := rw_ops Full.

#[export] Instance rw_Lock : Lock rwlock rw_mode rw_pc.
Proof.
  refine {| threads_max := INT_MAX; lock_ok := rw_ok |}.
  - intros n Hn. split; rewrite ?length_replicate, ?countb_replicate by done; try (done || (unfold INT_MAX in *; lia)).
    by intros i x [-> _]%lookup_replicate.
  - intros l ps i m Hok Hi. destruct (rw_ok_i32 _ _ Hok) as [E0 E00]. pose proof Hok as [Hmax Hw Hv H1 Hr Hx Hp].
    eapply rw_ok_set; [done|exact Hi|by destruct m|..]; destruct m; cbn [counts_write counts_read reads writes Z.b2z];
      rewrite ?Z.sub_0_r, ?Z.add_0_r, ?Z.sub_add; try (done || lia).
  - apply rw_ok_access.
  - intros l ps i m Hok Hi. destruct (rw_ok_i32 _ _ Hok) as [E0 E00]. pose proof Hok as [Hmax Hw Hv H1 Hr Hx Hp].
    pose proof (countb_range reads ps) as R0. pose proof (countb_range writes ps) as R1.
    eapply rw_ok_set; [done|exact Hi|done|..];
      destruct m; cbn [leave rw_full rw_ops rw_leave rwlock_runlock rwlock_wunlock ATOM_DEC counts_write counts_read reads writes Z.b2z rw_write rw_seen rw_read fst snd];
      rewrite ?Z.sub_0_r, ?Z.add_0_r, ?Z.sub_add; unfold sync_lock_release; try (done || lia).
    + pose proof (countb_one writes ps i _ Hi eq_refl).
      pose proof (countb_le writes counts_write ps ltac:(by intros [|? []|[]])). lia.
    + pose proof (countb_one reads ps i _ Hi eq_refl). lia.
  - intros l ps i j m m' [_ _ _ H1 _ Hx _] Hi Hj Hne. pose proof (countb_range reads ps) as R0.
    pose proof (countb_le writes counts_write ps ltac:(by intros [|? []|[]])) as Lw.
    destruct m, m'; try done.
    + pose proof (countb_one reads ps i _ Hi eq_refl). pose proof (countb_one writes ps j _ Hj eq_refl). lia.
    + pose proof (countb_one reads ps j _ Hj eq_refl). pose proof (countb_one writes ps i _ Hi eq_refl). lia.
    + pose proof (countb_two writes ps i j _ _ Hi Hj Hne eq_refl eq_refl). lia.
Defined.

Lemma completed_idle {Λ M P D L : Type} `{Lock Λ M P} (s : threads (Λ := Λ) (M := M) (P := P) (D := D) (L := L)) :
  Forall (λ t, th_place t = Idle) (ts_threads s) →
  completed s = (ts_data s, map (λ t, (th_loc t, th_todo t)) (ts_threads s)).
Proof.
  intros Hidle. apply injective_projections; cbn [fst snd].
  - apply finish_data_none. intros j t Hj Hw. pose proof (Forall_lookup_1 _ _ _ _ Hidle Hj) as Hp. cbn beta in Hp.
    unfold writing in Hw. by rewrite Hp in Hw.
  - unfold completed. cbn [snd]. apply map_ext_in. intros t Ht. unfold finish_thread.
    rewrite Forall_forall in Hidle. by rewrite (Hidle t (proj2 (list_elem_of_In _ _) Ht)).
Qed.

(** C37.  The spinlock makes sections atomic.  However the threads are interleaved, access by
    access and statement by statement, at most one is between [spinlock_lock] (or a
    successful [spinlock_trylock]) and [spinlock_unlock]; and the data, the threads' own
    state and what they have still to do, once the section under way is finished, are those
    of running the sections one after the other as single steps, in the order in which the
    threads got the lock; a section is skipped only where [spinlock_trylock] failed. *)
Theorem spinlock_sections_atomic {D L : Type} (d : D) (progs : list (L * list (@section spin_mode D L))) sched :
  Z.of_nat (length progs) ≤ INT_MAX →
  let s := run_sched (start d progs) sched in
  (∀ i j t t', ts_threads s !! i = Some t → ts_threads s !! j = Some t' → running t → running t' → i = j) ∧
  completed s = run_atomic (d, progs) (choices (start d progs) sched) ∧
  (Forall (λ t, th_place t = Idle) (ts_threads s) →
   run_atomic (d, progs) (choices (start d progs) sched) =
     (ts_data s, map (λ t, (th_loc t, th_todo t)) (ts_threads s))).
Proof.
  intros Hn s. destruct (sections_atomic d progs sched) as [Hex Hc]; [done|].
  split; [|split; [exact Hc|intros Hidle; rewrite <- (completed_idle s Hidle); symmetry; exact Hc]].
  intros i j t t' Hi Hj Hr Hr'. destruct (decide (i = j)) as [|Hne]; [done|]. unfold running in Hr, Hr'.
  destruct (th_place t) as [| |m code] eqn:Hp; [done..|]. destruct (th_place t') as [| |m' code'] eqn:Hp'; [done..|].
  by destruct (Hex i j t t' m m' code code' Hi Hj Hne Hp Hp').
Qed.

(** Nobody stores or has stored to [write]. *)
Definition no_writer {D L : Type} (ts : list (@thread rw_mode rw_pc D L)) : Prop :=
  ∀ j t, ts !! j = Some t → counts_write (pos_of t) = false.

Lemma no_writer_zero {D L : Type} (s : @threads rwlock rw_mode rw_pc D L) : threads_ok s → no_writer (ts_threads s) →
  rw_seen (ts_lock s) = 0.
Proof.
  intros [_ Hw Hv _ _ _ _] Hno. rewrite Hv, Hw. clear Hv Hw. unfold no_writer in Hno. induction (ts_threads s) as [|t ts IH]; [done|].
  cbn [map]. rewrite countb_cons, (Hno 0%nat t eq_refl), IH; [done|]. intros j t' Hj. by apply (Hno (S j)).
Qed.

(** A reader gets in by its own steps, whoever reads. *)
Lemma reader_enters {D L : Type} (s : @threads rwlock rw_mode rw_pc D L) i t sec todo : threads_ok s → no_writer (ts_threads s) →
  ts_threads s !! i = Some t → th_place t = Idle → th_todo t = sec :: todo → sec_mode sec = RLOCK →
  ts_threads (run_sched s [i; i; i; i]) = <[i := Thread (Running RLOCK (sec_code sec)) (th_loc t) todo]> (ts_threads s).
Proof.
  intros Hok Hno Hi Hp Ht Hm. pose proof (no_writer_zero s Hok Hno) as Hz. pose proof (lookup_lt_Some _ _ _ Hi) as Hlt.
  destruct s as [[w v r] d ts]. cbn [ts_lock ts_data ts_threads rw_seen] in *. subst v.
  unfold run_sched. cbn [foldl]. unfold sched_step at 4. cbn [ts_threads ts_lock ts_data]. rewrite Hi. unfold thread_step. rewrite Hp, Ht, Hm.
  cbn [enter rw_full rw_ops]. unfold sched_step at 3. cbn [ts_threads ts_lock ts_data]. rewrite list_lookup_insert_eq by done. cbn [thread_step th_place th_loc th_todo].
  unfold thread_step. cbn [th_place th_loc th_todo access rw_full rw_ops rw_access rwlock_rlock rw_seen Z.eqb negb]. rewrite list_insert_insert_eq.
  unfold sched_step at 2. cbn [ts_threads ts_lock ts_data]. rewrite list_lookup_insert_eq by done. unfold thread_step.
  cbn [th_place th_loc th_todo access rw_full rw_ops rw_access rwlock_rlock rw_seen rw_write rw_read]. rewrite list_insert_insert_eq.
  unfold sched_step at 1. cbn [ts_threads ts_lock ts_data]. rewrite list_lookup_insert_eq by done. unfold thread_step.
  cbn [th_place th_loc th_todo access rw_full rw_ops rw_access rwlock_rlock rw_seen Z.eqb negb]. cbn [ts_threads]. by rewrite list_insert_insert_eq, Hm.
Qed.

(** C38.  The reader-writer lock makes sections atomic, where [__sync_lock_test_and_set] is a full
    barrier.  While a thread is inside with [rwlock_wlock] no other thread is inside, reader or
    writer, also when a reader has already passed the first test of [rwlock_rlock] or has
    counted itself before it backs off.  Readers share the lock: while no thread has taken
    [write], a thread that is about to read gets in by its own four steps and leaves the
    others where they are, the readers that are inside too.  The result is that of running the
    sections of readers and writers one after the other, and when no thread is in the lock or
    its function the words are 0 again. *)
Theorem rwlock_sections_atomic {D L : Type} (d : D) (progs : list (L * list (@section rw_mode D L))) sched :
  Z.of_nat (length progs) ≤ INT_MAX →
  let s := run_sched (start d progs) sched in
  (∀ i j t t' code, ts_threads s !! i = Some t → ts_threads s !! j = Some t' → i ≠ j →
     th_place t = Running WLOCK code → ¬ running t') ∧
  (∀ i t sec todo, no_writer (ts_threads s) → ts_threads s !! i = Some t → th_place t = Idle → th_todo t = sec :: todo →
     sec_mode sec = RLOCK →
     ts_threads (run_sched s [i; i; i; i]) = <[i := Thread (Running RLOCK (sec_code sec)) (th_loc t) todo]> (ts_threads s)) ∧
  completed s = run_atomic (d, progs) (choices (start d progs) sched) ∧
  (Forall (λ t, th_place t = Idle) (ts_threads s) → ts_lock s = rwlock_init).
Proof.
  intros Hn s. destruct (start_lemma d progs) as [Hok0 _]; [done|].
  destruct (sections_atomic d progs sched) as [Hex Hc]; [done|]. destruct (run_lemma sched _ Hok0) as [Hok _]. fold s in Hok.
  split; [|split; [|split; [exact Hc|]]].
  - intros i j t t' code Hi Hj Hne Hp Hr. unfold running in Hr. destruct (th_place t') as [| |m' code'] eqn:Hp'; [done..|].
    by destruct (Hex i j t t' WLOCK m' code code' Hi Hj Hne Hp Hp').
  - intros i t sec todo Hno Hi Hp Ht Hm. by apply reader_enters.
  - intros Hidle. destruct Hok as [_ Hw Hv _ Hr _ _].
    assert (Hps : map pos_of (ts_threads s) = replicate (length (ts_threads s)) Outside).
    { clear -Hidle. induction Hidle as [|t ts Ht _ IH]; [done|]. cbn [map length replicate]. rewrite IH. unfold pos_of. by rewrite Ht. }
    rewrite Hps, countb_replicate in Hw, Hr by done. destruct (ts_lock s). cbn in *. by subst.
Qed.

(** ** Two threads that add to a counter, and a third that tries *)

(** [x = d; d = x + 1], as two statements. *)
Definition increment : list (stmt (D := Z) (L := Z)) := [λ d x, (d, d); λ d x, (x + 1, x)].

(** Without the lock the second increment can be lost; the schedule interleaves the lock
    functions and the statements. *)
Definition spin_example : list (Z * list (@section spin_mode Z Z)) :=
  [(0, [Sect SPIN_LOCK increment]); (0, [Sect SPIN_LOCK increment]); (0, [Sect SPIN_TRYLOCK increment])].

Lemma spinlock_sections_atomic_witness :
  let s := run_sched (start 0 spin_example) [0; 1; 2; 0; 1; 2; 0; 1; 0; 1; 0; 1; 1; 1; 1]%nat in
  Z.of_nat (length spin_example) ≤ INT_MAX ∧
  choices (start 0 spin_example) [0; 1; 2; 0; 1; 2; 0; 1; 0; 1; 0; 1; 1; 1; 1]%nat = [(0%nat, true); (2%nat, false); (1%nat, true)] ∧
  ts_data s = 2 ∧ completed s = run_atomic (0, spin_example) [(0%nat, true); (2%nat, false); (1%nat, true)].
Proof.
  cbv zeta. assert (Hn : Z.of_nat (length spin_example) ≤ INT_MAX) by (by vm_compute).
  destruct (spinlock_sections_atomic 0 spin_example [0; 1; 2; 0; 1; 2; 0; 1; 0; 1; 0; 1; 1; 1; 1]%nat Hn) as (_ & Hc & _).
  split; [exact Hn|]. split; [by vm_compute|]. split; [by vm_compute|]. exact Hc.
Defined.

(** Two readers and a writer: a reader that has passed the first test backs off; behind the
    writer the two are inside together. *)
Definition rw_example : list (Z * list (@section rw_mode Z Z)) :=
  [(0, [Sect RLOCK [λ d x, (d, d)]]); (0, [Sect WLOCK increment]); (7, [Sect RLOCK [λ d x, (d, d)]])].

Definition rw_inside : list nat := [0; 0; 1; 1; 0; 0; 1; 0; 1; 0; 1; 1; 1; 0; 0; 0]%nat.
Definition rw_schedule : list nat := (rw_inside ++ [2; 2; 2; 2; 0; 0; 2; 2])%nat.

Lemma rwlock_sections_atomic_witness :
  let s := run_sched (start 0 rw_example) rw_schedule in
  Z.of_nat (length rw_example) ≤ INT_MAX ∧
  choices (start 0 rw_example) rw_schedule = [(1%nat, true); (0%nat, true); (2%nat, true)] ∧
  Forall (λ t, match th_place t with Running RLOCK _ => True | _ => False end)
    (omap (λ i, ts_threads (run_sched (run_sched (start 0 rw_example) rw_inside) [2; 2; 2; 2]%nat) !! i) [0; 2]%nat) ∧
  ts_lock s = rwlock_init ∧ ts_data s = 1 ∧ map th_loc (ts_threads s) = [1; 0; 1].
Proof.
  cbv zeta. assert (Hn : Z.of_nat (length rw_example) ≤ INT_MAX) by (by vm_compute).
  destruct (rwlock_sections_atomic 0 rw_example rw_schedule Hn) as (_ & _ & _ & Hfree).
  destruct (rwlock_sections_atomic 0 rw_example rw_inside Hn) as (_ & Hshare & _ & _).
  split; [exact Hn|]. split; [by vm_compute|]. split; [|split; [|split; by vm_compute]].
  - assert (Hno : no_writer (ts_threads (run_sched (start 0 rw_example) rw_inside))).
    { intros [|[|[|j]]] t Hj; vm_compute in Hj; injection Hj as <- || discriminate Hj; reflexivity. }
    rewrite (Hshare 2%nat (Thread Idle 7 [Sect RLOCK [λ d x, (d, d)]]) (Sect RLOCK [λ d x, (d, d)]) [] Hno
      ltac:(vm_compute; reflexivity) ltac:(reflexivity) ltac:(reflexivity) ltac:(reflexivity)).
    vm_compute. repeat constructor.
  - apply Hfree. vm_compute. repeat constructor.
Defined.

(** With the acquire barrier that is documented, the store to [write] may be seen behind the load
    of [read]: a writer and a reader are inside together. *)
Lemma rwlock_acquire_unsafe :
  let s := @run_sched rwlock rw_mode rw_pc (rw_ops Acquire) Z Z (@start rwlock rw_mode rw_pc (rw_ops Acquire) Z Z 0 (take 2 rw_example))
    [1; 1; 1; 0; 0; 0; 0]%nat in
  map (λ t, match th_place t with Running m _ => Some m | _ => None end) (ts_threads s) = [Some RLOCK; Some WLOCK].
Proof. by vm_compute. Qed.
