(* ===== verification/SocketServer.v ===== *)
(** [skynet-src/socket_server.c], the slots and their write queues.

    The state is the [struct socket_server], the memory its buffers live in, the control
    pipe, and the operating system as a list of answers to come and a list of calls made: a
    call takes the next answer, and when there is none it would block.  A [struct socket *]
    is the index of its slot; a slot nobody has touched is as [socket_server_create] leaves
    it.  A payload is a block of [mem]; a freed block and a freed write buffer are [None]. *)

From S2P Require Import Prelude Chain Frames Locks.
Open Scope Z_scope.

Definition MAX_SOCKET : Z := 65536.
Definition MIN_READ_BUFFER : Z := 64.
Definition MAX_UDP_PACKAGE : Z := 65535.
Definition WARNING_SIZE : Z := 1024 * 1024.

Definition SOCKET_TYPE_INVALID : Z := 0.
Definition SOCKET_TYPE_RESERVE : Z := 1.
Definition SOCKET_TYPE_PLISTEN : Z := 2.
Definition SOCKET_TYPE_LISTEN : Z := 3.
Definition SOCKET_TYPE_CONNECTING : Z := 4.
Definition SOCKET_TYPE_CONNECTED : Z := 5.
Definition SOCKET_TYPE_HALFCLOSE : Z := 6.
Definition SOCKET_TYPE_PACCEPT : Z := 7.
Definition SOCKET_TYPE_BIND : Z := 8.

Definition PRIORITY_HIGH : Z := 0.
Definition PRIORITY_LOW : Z := 1.

Definition PROTOCOL_TCP : Z := 0.
Definition PROTOCOL_UDP : Z := 1.
Definition PROTOCOL_UDPv6 : Z := 2.

(** What the functions return, [-1] for nothing to report. *)
Definition SOCKET_DATA : Z := 0.
Definition SOCKET_CLOSE : Z := 1.
Definition SOCKET_OPEN : Z := 2.
Definition SOCKET_ACCEPT : Z := 3.
Definition SOCKET_ERR : Z := 4.
Definition SOCKET_EXIT : Z := 5.
Definition SOCKET_UDP : Z := 6.
Definition SOCKET_WARNING : Z := 7.

Definition HASH_ID (id : Z) : Z := u32 id mod MAX_SOCKET.

(** ** Data *)

(** A pointer into a payload: its block and the offset. *)
Definition ptr : Set := Z * Z.

Record write_buffer : Set := WriteBuffer {
  wb_next : Z;
  wb_buffer : Z;
  wb_ptr : ptr;
  wb_sz : Z;
  wb_userobject : bool;
  wb_udp_address : list Z
}.

#[export] Instance wb_linked : Linked (option write_buffer) := fmap wb_next.

Record wb_list : Set := WbList { head : Z; tail : Z }.

Inductive socket_p : Set :=
| PSize (size : Z)
| PAddress (udp_address : list Z).

Record socket : Set := Socket {
  s_opaque : Z;
  s_high : wb_list;
  s_low : wb_list;
  s_wb_size : Z;
  s_fd : Z;
  s_id : Z;
  s_protocol : Z;
  s_type : Z;
  s_udpconnecting : Z;
  s_warn_size : Z;
  s_p : socket_p;
  s_dw_lock : spinlock;
  s_dw_offset : Z;
  s_dw_buffer : Z;
  s_dw_size : Z
}.

Definition clear_wb_list : wb_list := WbList NULL NULL.

Definition socket_init : socket :=
  Socket 0 clear_wb_list clear_wb_list 0 0 0 0 SOCKET_TYPE_INVALID 0 0 (PSize 0) spinlock_init 0 NULL 0.

Inductive mdata : Set :=
| DNull
| DText (s : string)
| DBytes (l : list Z).

Record socket_message : Set := SocketMessage { m_id : Z; m_opaque : Z; m_ud : Z; m_data : mdata }.

(** The functions of [socket_server_userobject]: where the bytes of an object are and how
    many. *)
Record object_interface : Set := ObjectInterface { soi_buffer : Z → ptr; soi_size : Z → Z }.

(** The commands of the control pipe. *)
Inductive request : Set :=
| ReqStart (id opaque : Z)
| ReqBind (id fd opaque : Z)
| ReqListen (id fd opaque : Z)
| ReqClose (id shutdown opaque : Z)
| ReqOpen (id port opaque : Z) (host : string)
| ReqExit
| ReqSend (id sz buffer : Z)
| ReqSendLow (id sz buffer : Z)
| ReqSendUdp (id sz buffer : Z) (address : list Z)
| ReqSetUdp (id : Z) (address : list Z)
| ReqSetopt (id what value : Z)
| ReqUdp (id fd family opaque : Z).

Record event : Set := Event { e_s : option Z; e_read : bool; e_write : bool; e_error : bool }.

(** ** The operating system *)

Inductive errno : Set := EINTR | EAGAIN | EINPROGRESS | EMFILE | ENFILE | EOTHER (text : string).

Inductive answer : Set :=
| Ret (n : Z)
| Err (e : errno)
| Received (l : list Z)
| ReceivedFrom (l address : list Z)
| Accepted (fd : Z) (peer : option string)
| Peer (address : option string)
| Events (l : list event).

Inductive call : Set :=
| Wrote (fd : Z) (l : list Z)
| Sent (fd : Z) (l : list Z) (address : option (list Z))
| SpAdd (fd slot : Z)
| SpDel (fd : Z)
| SpWrite (fd slot : Z) (enable : bool)
| Closed (fd : Z)
| SetOpt (fd what value : Z)
| KeepAlive (fd : Z)
| NonBlocking (fd : Z)
| FreeObject (object : Z).

Record server : Set := Server {
  ss_alloc_id : Z;
  ss_slot : gmap Z socket;
  ss_soi : option object_interface;
  ss_checkctrl : bool;
  ss_events : list event;
  ss_index : Z;
  ss_pipe : list request;
  ss_wbs : list (option write_buffer);
  ss_mem : list (option (list Z));
  ss_answers : list answer;
  ss_calls : list call
}.

Definition set_alloc_id (z : Z) (s : server) : server :=
  Server z (ss_slot s) (ss_soi s) (ss_checkctrl s) (ss_events s) (ss_index s) (ss_pipe s) (ss_wbs s) (ss_mem s) (ss_answers s) (ss_calls s).
Definition set_slot (m : gmap Z socket) (s : server) : server :=
  Server (ss_alloc_id s) m (ss_soi s) (ss_checkctrl s) (ss_events s) (ss_index s) (ss_pipe s) (ss_wbs s) (ss_mem s) (ss_answers s) (ss_calls s).
Definition set_soi (o : option object_interface) (s : server) : server :=
  Server (ss_alloc_id s) (ss_slot s) o (ss_checkctrl s) (ss_events s) (ss_index s) (ss_pipe s) (ss_wbs s) (ss_mem s) (ss_answers s) (ss_calls s).
Definition set_poll (c : bool) (ev : list event) (i : Z) (s : server) : server :=
  Server (ss_alloc_id s) (ss_slot s) (ss_soi s) c ev i (ss_pipe s) (ss_wbs s) (ss_mem s) (ss_answers s) (ss_calls s).
Definition set_pipe (p : list request) (s : server) : server :=
  Server (ss_alloc_id s) (ss_slot s) (ss_soi s) (ss_checkctrl s) (ss_events s) (ss_index s) p (ss_wbs s) (ss_mem s) (ss_answers s) (ss_calls s).
Definition set_wbs (w : list (option write_buffer)) (s : server) : server :=
  Server (ss_alloc_id s) (ss_slot s) (ss_soi s) (ss_checkctrl s) (ss_events s) (ss_index s) (ss_pipe s) w (ss_mem s) (ss_answers s) (ss_calls s).
Definition set_mem (m : list (option (list Z))) (s : server) : server :=
  Server (ss_alloc_id s) (ss_slot s) (ss_soi s) (ss_checkctrl s) (ss_events s) (ss_index s) (ss_pipe s) (ss_wbs s) m (ss_answers s) (ss_calls s).
Definition set_os (a : list answer) (c : list call) (s : server) : server :=
  Server (ss_alloc_id s) (ss_slot s) (ss_soi s) (ss_checkctrl s) (ss_events s) (ss_index s) (ss_pipe s) (ss_wbs s) (ss_mem s) a c.

Definition slot_of (s : server) (i : Z) : socket := default socket_init (ss_slot s !! i).
Definition get_socket (i : Z) : SM server socket := gets (λ ss, slot_of ss i).
Definition put_socket (i : Z) (s : socket) : SM server unit := modify (λ ss, set_slot (<[i := s]> (ss_slot ss)) ss).
Definition upd_socket (i : Z) (f : socket → socket) : SM server unit := s ← get_socket i; put_socket i (f s).

Definition with_type (t : Z) (s : socket) : socket :=
  Socket (s_opaque s) (s_high s) (s_low s) (s_wb_size s) (s_fd s) (s_id s) (s_protocol s) t (s_udpconnecting s)
    (s_warn_size s) (s_p s) (s_dw_lock s) (s_dw_offset s) (s_dw_buffer s) (s_dw_size s).
Definition with_lists (hi lo : wb_list) (s : socket) : socket :=
  Socket (s_opaque s) hi lo (s_wb_size s) (s_fd s) (s_id s) (s_protocol s) (s_type s) (s_udpconnecting s)
    (s_warn_size s) (s_p s) (s_dw_lock s) (s_dw_offset s) (s_dw_buffer s) (s_dw_size s).
Definition with_wb_size (z : Z) (s : socket) : socket :=
  Socket (s_opaque s) (s_high s) (s_low s) z (s_fd s) (s_id s) (s_protocol s) (s_type s) (s_udpconnecting s)
    (s_warn_size s) (s_p s) (s_dw_lock s) (s_dw_offset s) (s_dw_buffer s) (s_dw_size s).
Definition with_warn_size (z : Z) (s : socket) : socket :=
  Socket (s_opaque s) (s_high s) (s_low s) (s_wb_size s) (s_fd s) (s_id s) (s_protocol s) (s_type s) (s_udpconnecting s)
    z (s_p s) (s_dw_lock s) (s_dw_offset s) (s_dw_buffer s) (s_dw_size s).
Definition with_p (p : socket_p) (s : socket) : socket :=
  Socket (s_opaque s) (s_high s) (s_low s) (s_wb_size s) (s_fd s) (s_id s) (s_protocol s) (s_type s) (s_udpconnecting s)
    (s_warn_size s) p (s_dw_lock s) (s_dw_offset s) (s_dw_buffer s) (s_dw_size s).
Definition with_opaque (z : Z) (s : socket) : socket :=
  Socket z (s_high s) (s_low s) (s_wb_size s) (s_fd s) (s_id s) (s_protocol s) (s_type s) (s_udpconnecting s)
    (s_warn_size s) (s_p s) (s_dw_lock s) (s_dw_offset s) (s_dw_buffer s) (s_dw_size s).
Definition with_udpconnecting (z : Z) (s : socket) : socket :=
  Socket (s_opaque s) (s_high s) (s_low s) (s_wb_size s) (s_fd s) (s_id s) (s_protocol s) (s_type s) z
    (s_warn_size s) (s_p s) (s_dw_lock s) (s_dw_offset s) (s_dw_buffer s) (s_dw_size s).
Definition with_lock (l : spinlock) (s : socket) : socket :=
  Socket (s_opaque s) (s_high s) (s_low s) (s_wb_size s) (s_fd s) (s_id s) (s_protocol s) (s_type s) (s_udpconnecting s)
    (s_warn_size s) (s_p s) l (s_dw_offset s) (s_dw_buffer s) (s_dw_size s).
Definition with_dw (off buf sz : Z) (s : socket) : socket :=
  Socket (s_opaque s) (s_high s) (s_low s) (s_wb_size s) (s_fd s) (s_id s) (s_protocol s) (s_type s) (s_udpconnecting s)
    (s_warn_size s) (s_p s) (s_dw_lock s) off buf sz.

Definition os_answer : SM server answer :=
  a ← gets ss_answers;
  match a with
  | [] => mret (Err EAGAIN)
  | x :: a => _ ← modify (λ ss, set_os a (ss_calls ss) ss); mret x
  end.

Definition os_call (c : call) : SM server unit := modify (λ ss, set_os (ss_answers ss) (ss_calls ss ++ [c]) ss).

(** The error, if the descriptor could not be added. *)
Definition sp_add (fd i : Z) : SM server (option errno) :=
  _ ← os_call (SpAdd fd i);
  a ← os_answer;
  mret (match a with Ret _ => None | Err e => Some e | _ => Some EAGAIN end).

(** ** Memory *)

Definition read_mem (p : ptr) (n : Z) : SM server (list Z) :=
  m ← gets ss_mem;
  o ← lift (rd m p.1);
  b ← lift (or_fault BadPointer o);
  lift (rd_at b p.2 n).

Definition FREE (b : Z) : SM server unit :=
  m ← gets ss_mem;
  o ← lift (rd m b);
  _ ← lift (or_fault BadPointer o);
  m ← lift (wr m b None);
  modify (set_mem m).

Definition read_wb (w : Z) : SM server write_buffer :=
  m ← gets ss_wbs;
  o ← lift (rd m w);
  lift (or_fault BadPointer o).

Definition write_wb (w : Z) (b : write_buffer) : SM server unit :=
  m ← gets ss_wbs;
  m ← lift (wr m w (Some b));
  modify (set_wbs m).

Definition malloc_wb (b : write_buffer) : SM server Z :=
  m ← gets ss_wbs;
  _ ← modify (set_wbs (m ++ [Some b]));
  mret (Z.of_nat (length m)).

(** ** Payloads *)

Inductive free_func : Set := FreeMem | FreeSoi.

Record send_object : Set := SendObject { so_buffer : ptr; so_sz : Z; so_free_func : free_func }.

Definition run_free (f : free_func) (b : Z) : SM server unit :=
  match f with FreeMem => FREE b | FreeSoi => os_call (FreeObject b) end.

(** The interface is all NULL until [socket_server_userobject] sets it. *)
Definition send_object_init (object sz : Z) : SM server (send_object * bool) :=
  if sz <? 0 then
    o ← gets ss_soi;
    soi ← lift (or_fault BadPointer o);
    mret (SendObject (soi_buffer soi object) (soi_size soi object) FreeSoi, true)
  else mret (SendObject (object, 0) sz FreeMem, false).

Definition write_buffer_free (w : Z) : SM server unit :=
  wb ← read_wb w;
  _ ← (if wb_userobject wb then os_call (FreeObject (wb_buffer wb)) else FREE (wb_buffer wb));
  m ← gets ss_wbs;
  m ← lift (wr m w None);
  modify (set_wbs m).

Definition free_buffer (buffer sz : Z) : SM server unit :=
  so ← send_object_init buffer sz;
  run_free (so_free_func so.1) buffer.

Definition free_round (wb : Z) : SM server (loop Z unit) :=
  if wb =? NULL then mret (Break tt)
  else
    b ← read_wb wb;
    _ ← write_buffer_free wb;
    mret (Continue (wb_next b)).

(** At most every write buffer there is. *)
Definition free_wb_list (l : wb_list) : SM server wb_list :=
  n ← gets (λ ss, length (ss_wbs ss));
  _ ← iterateM (S n) free_round (head l);
  mret clear_wb_list.

(** ** The direct write lock, with the count of [struct socket_lock] *)

(** A lock another thread holds does not come free in this step. *)
Definition socket_lock (i l : Z) : SM server Z :=
  if l =? 0 then
    s ← get_socket i;
    let '(spins, lock) := spinlock_lock (s_dw_lock s) in
    if spins then lift (Fault OutOfFuel)
    else _ ← put_socket i (with_lock lock s); mret (l + 1)
  else mret (l + 1).

Definition socket_trylock (i l : Z) : SM server (option Z) :=
  if l =? 0 then
    s ← get_socket i;
    let '(got, lock) := spinlock_trylock (s_dw_lock s) in
    _ ← put_socket i (with_lock lock s);
    if got then mret (Some (l + 1)) else mret None
  else mret (Some (l + 1)).

Definition socket_unlock (i l : Z) : SM server unit :=
  let l := l - 1 in
  if l <=? 0 then
    _ ← lift (assertb (l =? 0));
    upd_socket i (λ s, with_lock (spinlock_unlock (s_dw_lock s)) s)
  else mret tt.

(** ** Slots *)

Definition reserve_round (n : Z) : SM server (loop Z Z) :=
  if n <? MAX_SOCKET then
    a ← gets ss_alloc_id;
    let id := i32 (a + 1) in
    let id := if id <? 0 then Z.land id 0x7fffffff else id in
    _ ← modify (set_alloc_id id);
    s ← get_socket (HASH_ID id);
    if s_type s =? SOCKET_TYPE_INVALID then
      _ ← put_socket (HASH_ID id)
            (Socket (s_opaque s) (s_high s) (s_low s) (s_wb_size s) (-1) id (s_protocol s) SOCKET_TYPE_RESERVE 0
               (s_warn_size s) (s_p s) (s_dw_lock s) (s_dw_offset s) (s_dw_buffer s) (s_dw_size s));
      mret (Break id)
    else mret (Continue (n + 1))
  else mret (Break (-1)).

Definition reserve_id : SM server Z := iterateM (S (Z.to_nat MAX_SOCKET)) reserve_round 0.

Definition force_close (i l : Z) : SM server socket_message :=
  s ← get_socket i;
  let result := SocketMessage (s_id s) (s_opaque s) 0 DNull in
  if s_type s =? SOCKET_TYPE_INVALID then mret result
  else
    _ ← lift (assertb (negb (s_type s =? SOCKET_TYPE_RESERVE)));
    hi ← free_wb_list (s_high s);
    _ ← upd_socket i (λ s, with_lists hi (s_low s) s);
    lo ← free_wb_list (s_low s);
    _ ← upd_socket i (λ s, with_lists (s_high s) lo s);
    _ ← (if negb (s_type s =? SOCKET_TYPE_PACCEPT) && negb (s_type s =? SOCKET_TYPE_PLISTEN) then
           os_call (SpDel (s_fd s))
         else mret tt);
    l ← (socket_lock i l : SM server Z);
    _ ← (if negb (s_type s =? SOCKET_TYPE_BIND) then os_call (Closed (s_fd s)) else mret tt);
    _ ← upd_socket i (with_type SOCKET_TYPE_INVALID);
    s ← get_socket i;
    _ ← (if negb (s_dw_buffer s =? NULL) then
           _ ← free_buffer (s_dw_buffer s) (s_dw_size s);
           upd_socket i (λ s, with_dw (s_dw_offset s) NULL (s_dw_size s) s)
         else mret tt);
    _ ← socket_unlock i l;
    mret result.

Definition check_wb_list (l : wb_list) : res unit :=
  _ ← assertb (head l =? NULL); assertb (tail l =? NULL).

(** The slot, if the descriptor could be added to the poll. *)
Definition new_fd (id fd protocol opaque : Z) (add : bool) : SM server (option Z) :=
  let i := HASH_ID id in
  s ← get_socket i;
  _ ← lift (assertb (s_type s =? SOCKET_TYPE_RESERVE));
  e ← (if add then sp_add fd i else mret None);
  match e with
  | None =>
    _ ← lift (check_wb_list (s_high s));
    _ ← lift (check_wb_list (s_low s));
    _ ← put_socket i
          (Socket opaque (s_high s) (s_low s) 0 fd id protocol (s_type s) (s_udpconnecting s)
             0 (PSize MIN_READ_BUFFER) spinlock_init (s_dw_offset s) NULL 0);
    mret (Some i)
  | Some _ => _ ← upd_socket i (with_type SOCKET_TYPE_INVALID); mret None
  end.

(** ** Sending *)

Definition no_message : socket_message := SocketMessage 0 0 0 DNull.

(** What a function reports: its result and the message, [no_message] with -1. *)
Definition report : Set := Z * socket_message.
Definition ignore : report := (-1, no_message).

Definition list_of (hi : bool) (s : socket) : wb_list := if hi then s_high s else s_low s.
Definition with_list (hi : bool) (l : wb_list) (s : socket) : socket :=
  if hi then with_lists l (s_low s) s else with_lists (s_high s) l s.

(** [write]: the system takes part of the bytes, or says why not. *)
Definition os_write (fd : Z) (p : ptr) (sz : Z) : SM server (Z + errno) :=
  l ← read_mem p sz;
  a ← os_answer;
  match a with
  | Ret n =>
      let n := Z.max 0 (Z.min n sz) in
      _ ← os_call (Wrote fd (take (Z.to_nat n) l)); mret (inl n)
  | Err e => mret (inr e)
  | _ => mret (inr EAGAIN)
  end.

Definition write_round (fd : Z) (tmp : write_buffer) (_ : unit) : SM server (loop unit (Z + errno)) :=
  r ← os_write fd (wb_ptr tmp) (wb_sz tmp);
  match r with
  | inr EINTR => mret (Continue tt)
  | _ => mret (Break r)
  end.

(** One buffer of [send_list_tcp]. *)
Definition send_tcp_round (i : Z) (hi : bool) (l : Z) (_ : unit) : SM server (loop unit report) :=
  s ← get_socket i;
  let w := head (list_of hi s) in
  if w =? NULL then
    _ ← upd_socket i (with_list hi (WbList NULL NULL)); mret (Break ignore)
  else
    tmp ← read_wb w;
    n ← gets (λ ss, length (ss_answers ss));
    r ← iterateM (S n) (write_round (s_fd s) tmp) tt;
    match r with
    | inr EAGAIN => mret (Break ignore)
    | inr _ => m ← force_close i l; mret (Break (SOCKET_CLOSE, m))
    | inl sz =>
        _ ← upd_socket i (λ s, with_wb_size (s_wb_size s - sz) s);
        if negb (sz =? wb_sz tmp) then
          _ ← write_wb w (WriteBuffer (wb_next tmp) (wb_buffer tmp) ((wb_ptr tmp).1, (wb_ptr tmp).2 + sz) (wb_sz tmp - sz)
                            (wb_userobject tmp) (wb_udp_address tmp));
          mret (Break ignore)
        else
          _ ← upd_socket i (λ s, with_list hi (WbList (wb_next tmp) (tail (list_of hi s))) s);
          _ ← write_buffer_free w;
          mret (Continue tt)
    end.

Definition send_list_tcp (i : Z) (hi : bool) (l : Z) : SM server report :=
  n ← gets (λ ss, length (ss_wbs ss));
  iterateM (S n) (send_tcp_round i hi l) tt.

(** The port and the address for the [sockaddr], [None] for length 0.  A write buffer of
    [SIZEOF_TCPBUFFER] bytes has no address to read. *)
Definition udp_socket_address (s : socket) (udp_address : list Z) : res (option (list Z)) :=
  type ← rd udp_address 0;
  if negb (type =? s_protocol s) then Ok None
  else if s_protocol s =? PROTOCOL_UDP then l ← rd_at udp_address 1 6; Ok (Some l)
  else if s_protocol s =? PROTOCOL_UDPv6 then l ← rd_at udp_address 1 18; Ok (Some l)
  else Ok None.

Definition os_sendto (fd : Z) (p : ptr) (sz : Z) (address : option (list Z)) : SM server (Z + errno) :=
  l ← read_mem p sz;
  a ← os_answer;
  match a with
  | Ret n => _ ← os_call (Sent fd l address); mret (inl (Z.max 0 n))
  | Err e => mret (inr e)
  | _ => mret (inr EAGAIN)
  end.

Definition send_udp_round (i : Z) (hi : bool) (_ : unit) : SM server (loop unit report) :=
  s ← get_socket i;
  let w := head (list_of hi s) in
  if w =? NULL then
    _ ← upd_socket i (with_list hi (WbList NULL NULL)); mret (Break ignore)
  else
    tmp ← read_wb w;
    sa ← lift (udp_socket_address s (wb_udp_address tmp));
    err ← os_sendto (s_fd s) (wb_ptr tmp) (wb_sz tmp) sa;
    match err with
    | inr _ => mret (Break ignore)
    | inl _ =>
        _ ← upd_socket i (λ s, with_wb_size (s_wb_size s - wb_sz tmp) s);
        _ ← upd_socket i (λ s, with_list hi (WbList (wb_next tmp) (tail (list_of hi s))) s);
        _ ← write_buffer_free w;
        mret (Continue tt)
    end.

Definition send_list_udp (i : Z) (hi : bool) : SM server report :=
  n ← gets (λ ss, length (ss_wbs ss));
  iterateM (S n) (send_udp_round i hi) tt.

Definition send_list (i : Z) (hi : bool) (l : Z) : SM server report :=
  s ← get_socket i;
  if s_protocol s =? PROTOCOL_TCP then send_list_tcp i hi l else send_list_udp i hi.

Definition list_uncomplete (l : wb_list) : SM server bool :=
  if head l =? NULL then mret false
  else wb ← read_wb (head l); mret (negb (bool_decide (wb_ptr wb = (wb_buffer wb, 0)))).

Definition raise_uncomplete (i : Z) : SM server unit :=
  s ← get_socket i;
  let w := head (s_low s) in
  tmp ← read_wb w;
  let low := if wb_next tmp =? NULL then WbList NULL NULL else WbList (wb_next tmp) (tail (s_low s)) in
  _ ← lift (assertb (head (s_high s) =? NULL));
  _ ← write_wb w (WriteBuffer NULL (wb_buffer tmp) (wb_ptr tmp) (wb_sz tmp) (wb_userobject tmp) (wb_udp_address tmp));
  upd_socket i (with_lists (WbList w w) low).

Definition send_buffer_empty (s : socket) : bool := (head (s_high s) =? NULL) && (head (s_low s) =? NULL).

(** Step 4: nothing is left. *)
Definition send_done (i l : Z) : SM server report :=
  s ← get_socket i;
  _ ← lift (assertb (send_buffer_empty s && (s_wb_size s =? 0)));
  _ ← os_call (SpWrite (s_fd s) i false);
  if s_type s =? SOCKET_TYPE_HALFCLOSE then
    m ← force_close i l; mret (SOCKET_CLOSE, m)
  else if s_warn_size s >? 0 then
    _ ← upd_socket i (with_warn_size 0);
    mret (SOCKET_WARNING, SocketMessage (s_id s) (s_opaque s) 0 DNull)
  else mret ignore.

(** Steps 2 and 3: the low list, when the high list is empty. *)
Definition send_low (i l : Z) : SM server report :=
  s ← get_socket i;
  if negb (head (s_low s) =? NULL) then
    r ← send_list i false l;
    if r.1 =? SOCKET_CLOSE then mret r
    else
      s ← get_socket i;
      u ← list_uncomplete (s_low s);
      if (u : bool) then _ ← raise_uncomplete i; mret ignore else send_done i l
  else send_done i l.

Definition send_buffer_ (i l : Z) : SM server report :=
  s ← get_socket i;
  u ← list_uncomplete (s_low s);
  _ ← lift (assertb (negb u));
  r ← send_list i true l;
  if r.1 =? SOCKET_CLOSE then mret r
  else
    s ← get_socket i;
    if head (s_high s) =? NULL then send_low i l else mret ignore.

(** The rest of a direct write becomes the head of the high list. *)
Definition requeue_dw (i : Z) : SM server unit :=
  s ← get_socket i;
  if negb (s_dw_buffer s =? NULL) then
    '(so, userobject) ← send_object_init (s_dw_buffer s) (s_dw_size s);
    let sz := so_sz so - s_dw_offset s in
    let old := head (s_high s) in
    w ← malloc_wb (WriteBuffer (if old =? NULL then NULL else old) (s_dw_buffer s)
                     ((so_buffer so).1, (so_buffer so).2 + s_dw_offset s) sz userobject []);
    let high := if old =? NULL then WbList w w else WbList w (tail (s_high s)) in
    upd_socket i (λ s, with_dw (s_dw_offset s) NULL (s_dw_size s) (with_wb_size (s_wb_size s + sz) (with_lists high (s_low s) s)))
  else mret tt.

Definition send_buffer (i l : Z) : SM server report :=
  o ← socket_trylock i l;
  match o with
  | None => mret ignore
  | Some l =>
      _ ← requeue_dw i;
      r ← send_buffer_ i l;
      _ ← socket_unlock i l;
      mret r
  end.

(** The new buffer and the list with it at the end. *)
Definition append_sendbuffer_ (l : wb_list) (buffer sz : Z) (udp : list Z) : SM server (wb_list * Z) :=
  '(so, userobject) ← send_object_init buffer sz;
  w ← malloc_wb (WriteBuffer NULL buffer (so_buffer so) (so_sz so) userobject udp);
  if head l =? NULL then mret (WbList w w, so_sz so)
  else
    _ ← lift (assertb (negb (tail l =? NULL)));
    t ← read_wb (tail l);
    _ ← lift (assertb (wb_next t =? NULL));
    _ ← write_wb (tail l) (WriteBuffer w (wb_buffer t) (wb_ptr t) (wb_sz t) (wb_userobject t) (wb_udp_address t));
    mret (WbList (head l) w, so_sz so).

(** [append_sendbuffer], [append_sendbuffer_low], [append_sendbuffer_udp]. *)
Definition append_to (i : Z) (hi : bool) (buffer sz : Z) (udp : list Z) : SM server unit :=
  s ← get_socket i;
  '(l, n) ← append_sendbuffer_ (list_of hi s) buffer sz udp;
  upd_socket i (λ s, with_wb_size (s_wb_size s + n) (with_list hi l s)).

Definition append_sendbuffer (i buffer sz : Z) : SM server unit := append_to i true buffer sz [].
Definition append_sendbuffer_low (i buffer sz : Z) : SM server unit := append_to i false buffer sz [].
Definition append_sendbuffer_udp (i priority buffer sz : Z) (udp : list Z) : SM server unit :=
  append_to i (priority =? PRIORITY_HIGH) buffer sz udp.

(** The address of the request, or the one of the socket. *)
Definition address_of (s : socket) (udp_address : option (list Z)) : res (list Z) :=
  match udp_address with
  | Some a => Ok a
  | None => match s_p s with PAddress a => Ok a | PSize _ => Fault BadPointer end
  end.

(** The warning about a queue that has grown. *)
Definition send_warning (i : Z) : SM server report :=
  s ← get_socket i;
  if (s_wb_size s >=? WARNING_SIZE) && (s_wb_size s >=? s_warn_size s) then
    _ ← put_socket i (with_warn_size (if s_warn_size s =? 0 then WARNING_SIZE * 2 else s_warn_size s * 2) s);
    let ud := if Z.rem (s_wb_size s) 1024 =? 0 then Z.quot (s_wb_size s) 1024 else Z.quot (s_wb_size s) 1024 + 1 in
    mret (SOCKET_WARNING, SocketMessage (s_id s) (s_opaque s) (i32 ud) DNull)
  else mret ignore.

(** An empty UDP socket sends at once. *)
Definition send_udp_now (i buffer sz priority : Z) (so : send_object) (udp_address : option (list Z)) : SM server bool :=
  s ← get_socket i;
  a ← lift (address_of s udp_address);
  sa ← lift (udp_socket_address s a);
  n ← os_sendto (s_fd s) (so_buffer so) (so_sz so) sa;
  if (match n with inl n => n =? so_sz so | inr _ => false end) then
    _ ← run_free (so_free_func so) buffer; mret true
  else
    _ ← append_sendbuffer_udp i priority buffer sz a; mret false.

Definition send_socket (id sz buffer priority : Z) (udp_address : option (list Z)) : SM server report :=
  let i := HASH_ID id in
  s ← get_socket i;
  '(so, _) ← send_object_init buffer sz;
  if (s_type s =? SOCKET_TYPE_INVALID) || negb (s_id s =? id) || (s_type s =? SOCKET_TYPE_HALFCLOSE) ||
     (s_type s =? SOCKET_TYPE_PACCEPT) then
    _ ← run_free (so_free_func so) buffer; mret ignore
  else if (s_type s =? SOCKET_TYPE_PLISTEN) || (s_type s =? SOCKET_TYPE_LISTEN) then
    _ ← run_free (so_free_func so) buffer; mret ignore
  else if send_buffer_empty s && (s_type s =? SOCKET_TYPE_CONNECTED) then
    sent ← (if s_protocol s =? PROTOCOL_TCP then _ ← append_sendbuffer i buffer sz; mret false
            else send_udp_now i buffer sz priority so udp_address);
    if (sent : bool) then mret ignore
    else _ ← os_call (SpWrite (s_fd s) i true); send_warning i
  else
    _ ← (if s_protocol s =? PROTOCOL_TCP then
           if priority =? PRIORITY_LOW then append_sendbuffer_low i buffer sz else append_sendbuffer i buffer sz
         else a ← lift (address_of s udp_address); append_sendbuffer_udp i priority buffer sz a);
    send_warning i.

Definition nomore_send_data (s : socket) : bool := send_buffer_empty s && (s_dw_buffer s =? NULL).

Definition close_socket (id shutdown opaque : Z) : SM server report :=
  let i := HASH_ID id in
  s ← get_socket i;
  if (s_type s =? SOCKET_TYPE_INVALID) || negb (s_id s =? id) then
    mret (SOCKET_CLOSE, SocketMessage id opaque 0 DNull)
  else
    r ← (if negb (nomore_send_data s) then send_buffer i 0 else mret ignore);
    if negb (r.1 =? -1) && negb (r.1 =? SOCKET_WARNING) then mret r
    else
      s ← get_socket i;
      if negb (shutdown =? 0) || nomore_send_data s then
        m ← force_close i 0; mret (SOCKET_CLOSE, SocketMessage id opaque (m_ud m) (m_data m))
      else
        _ ← upd_socket i (with_type SOCKET_TYPE_HALFCLOSE); mret ignore.

(** ** Sending from another thread *)

Definition can_direct_write (s : socket) (id : Z) : bool :=
  (s_id s =? id) && nomore_send_data s && (s_type s =? SOCKET_TYPE_CONNECTED) && (s_udpconnecting s =? 0).

Definition send_request (r : request) : SM server unit := modify (λ ss, set_pipe (ss_pipe ss ++ [r]) ss).

(** Under the lock: whether the payload was dealt with, and what frees it if it was written. *)
Definition direct_write (i id buffer sz : Z) : SM server (option (option free_func)) :=
  s ← get_socket i;
  if can_direct_write s id then
    '(so, _) ← send_object_init buffer sz;
    r ← (if s_protocol s =? PROTOCOL_TCP then os_write (s_fd s) (so_buffer so) (so_sz so)
         else
           a ← lift (address_of s None);
           sa ← lift (udp_socket_address s a);
           os_sendto (s_fd s) (so_buffer so) (so_sz so) sa);
    let n := match r with inl n => n | inr _ => 0 end in
    if n =? so_sz so then mret (Some (Some (so_free_func so)))
    else
      _ ← upd_socket i (with_dw n buffer sz);
      _ ← os_call (SpWrite (s_fd s) i true); mret (Some None)
  else mret None.

(** The lock is given back, then the payload is freed. *)
Definition finish_direct (i l buffer : Z) (r : option (option free_func)) : SM server bool :=
  _ ← socket_unlock i l;
  match r with
  | Some (Some f) => _ ← run_free f buffer; mret true
  | Some None => mret true
  | None => mret false
  end.

Definition socket_server_send (id buffer sz : Z) : SM server Z :=
  let i := HASH_ID id in
  s ← get_socket i;
  if negb (s_id s =? id) || (s_type s =? SOCKET_TYPE_INVALID) then
    _ ← free_buffer buffer sz; mret (-1)
  else
    o ← (if can_direct_write s id then socket_trylock i 0 else mret None);
    sent ← (match o with
            | Some l => r ← direct_write i id buffer sz; finish_direct i l buffer r
            | None => mret false
            end);
    if (sent : bool) then mret 0
    else _ ← send_request (ReqSend id sz buffer); mret 0.

Definition socket_server_send_lowpriority (id buffer sz : Z) : SM server Z :=
  s ← get_socket (HASH_ID id);
  if negb (s_id s =? id) || (s_type s =? SOCKET_TYPE_INVALID) then
    _ ← free_buffer buffer sz; mret (-1)
  else _ ← send_request (ReqSendLow id sz buffer); mret 0.
