(* ===== verification/SocketPoll.v ===== *)
(** [skynet-src/socket_server.c], the commands, the event loop and the interface.

    The control pipe is a list of requests, written and read whole; the layout of a request
    in bytes is not modelled.  Names and addresses as text are answers of the system. *)

From S2P Require Import Prelude Chain Frames Locks SocketServer.
Open Scope Z_scope.

Definition NUMBER_LIMIT : string := "reach skynet socket number limit".

Definition errno_text (e : errno) : mdata :=
  match e with
  | EINTR => DText "EINTR" | EAGAIN => DText "EAGAIN" | EINPROGRESS => DText "EINPROGRESS"
  | EMFILE => DText "EMFILE" | ENFILE => DText "ENFILE" | EOTHER t => DText t
  end.

(** A result, or the error; any other answer would block. *)
Definition os_ret : SM server (Z + errno) :=
  a ← os_answer;
  match a with Ret n => mret (inl n) | Err e => mret (inr e) | _ => mret (inr EAGAIN) end.

Definition text_of (o : option string) : mdata := match o with Some t => DText t | None => DNull end.

Definition with_data (d : mdata) (m : socket_message) : socket_message :=
  SocketMessage (m_id m) (m_opaque m) (m_ud m) d.

(** ** Commands *)

(** One address of [open_socket]: a connected or connecting socket, or the error. *)
Definition connect_one : SM server (Z * Z + errno) :=
  r ← os_ret;
  match r with
  | inr e => mret (inr e)
  | inl sock =>
      _ ← os_call (KeepAlive sock);
      _ ← os_call (NonBlocking sock);
      c ← os_ret;
      match c with
      | inl status => mret (inl (sock, status))
      | inr EINPROGRESS => mret (inl (sock, -1))
      | inr e => _ ← os_call (Closed sock); mret (inr e)
      end
  end.

Fixpoint connect_any (n : nat) (last : errno) : SM server (Z * Z + errno) :=
  match n with
  | O => mret (inr last)
  | S n =>
      r ← connect_one;
      match r with inl x => mret (inl x) | inr e => connect_any n e end
  end.

Definition open_failed (id opaque : Z) (data : mdata) : SM server report :=
  _ ← upd_socket (HASH_ID id) (with_type SOCKET_TYPE_INVALID);
  mret (SOCKET_ERR, SocketMessage id opaque 0 data).

(** [getaddrinfo] answers with the number of addresses. *)
Definition open_socket (id port opaque : Z) (host : string) : SM server report :=
  a ← os_ret;
  match a with
  | inr e => open_failed id opaque (errno_text e)
  | inl n =>
      r ← connect_any (Z.to_nat n) (EOTHER EmptyString);
      match r with
      | inr e => open_failed id opaque (errno_text e)
      | inl (sock, status) =>
          o ← new_fd id sock PROTOCOL_TCP opaque true;
          match o with
          | None =>
              _ ← os_call (Closed sock);
              open_failed id opaque (DText NUMBER_LIMIT)
          | Some ns =>
              if status =? 0 then
                _ ← upd_socket ns (with_type SOCKET_TYPE_CONNECTED);
                p ← os_answer;
                mret (SOCKET_OPEN, SocketMessage id opaque 0 (match p with Peer t => text_of t | _ => DNull end))
              else
                _ ← upd_socket ns (with_type SOCKET_TYPE_CONNECTING);
                s ← get_socket ns;
                _ ← os_call (SpWrite (s_fd s) ns true);
                mret ignore
          end
      end
  end.

Definition listen_socket (id fd opaque : Z) : SM server report :=
  o ← new_fd id fd PROTOCOL_TCP opaque false;
  match o with
  | Some i => _ ← upd_socket i (with_type SOCKET_TYPE_PLISTEN); mret ignore
  | None =>
      _ ← os_call (Closed fd);
      open_failed id opaque (DText NUMBER_LIMIT)
  end.

Definition bind_socket (id fd opaque : Z) : SM server report :=
  o ← new_fd id fd PROTOCOL_TCP opaque true;
  match o with
  | None => mret (SOCKET_ERR, SocketMessage id opaque 0 (DText NUMBER_LIMIT))
  | Some i =>
      _ ← os_call (NonBlocking fd);
      _ ← upd_socket i (with_type SOCKET_TYPE_BIND);
      mret (SOCKET_OPEN, SocketMessage id opaque 0 (DText "binding"))
  end.

Definition start_socket (id opaque : Z) : SM server report :=
  let i := HASH_ID id in
  s ← get_socket i;
  if (s_type s =? SOCKET_TYPE_INVALID) || negb (s_id s =? id) then
    mret (SOCKET_ERR, SocketMessage id opaque 0 (DText "invalid socket"))
  else if (s_type s =? SOCKET_TYPE_PACCEPT) || (s_type s =? SOCKET_TYPE_PLISTEN) then
    e ← sp_add (s_fd s) i;
    match e with
    | None =>
        _ ← put_socket i (with_opaque opaque
              (with_type (if s_type s =? SOCKET_TYPE_PACCEPT then SOCKET_TYPE_CONNECTED else SOCKET_TYPE_LISTEN) s));
        mret (SOCKET_OPEN, SocketMessage id opaque 0 (DText "start"))
    | Some e => m ← force_close i 0; mret (SOCKET_ERR, with_data (errno_text e) m)
    end
  else if s_type s =? SOCKET_TYPE_CONNECTED then
    _ ← put_socket i (with_opaque opaque s);
    mret (SOCKET_OPEN, SocketMessage id opaque 0 (DText "transfer"))
  else mret ignore.

Definition setopt_socket (id what value : Z) : SM server unit :=
  s ← get_socket (HASH_ID id);
  if (s_type s =? SOCKET_TYPE_INVALID) || negb (s_id s =? id) then mret tt
  else os_call (SetOpt (s_fd s) what value).

Definition AF_INET6 : Z := 10.

Definition add_udp_socket (id fd family opaque : Z) : SM server unit :=
  let protocol := if family =? AF_INET6 then PROTOCOL_UDPv6 else PROTOCOL_UDP in
  o ← new_fd id fd protocol opaque true;
  match o with
  | None =>
      _ ← os_call (Closed fd);
      upd_socket (HASH_ID id) (with_type SOCKET_TYPE_INVALID)
  | Some i => upd_socket i (λ s, with_p (PAddress (replicate 19 0)) (with_type SOCKET_TYPE_CONNECTED s))
  end.

(** [memcpy] of the first [n] bytes of an address over the one of the socket. *)
Definition copy_address (s : socket) (address : list Z) (n : nat) : res (list Z) :=
  l ← rd_at address 0 (Z.of_nat n);
  old ← address_of s None;
  Ok (l ++ drop n old).

Definition set_udp_address (id : Z) (address : list Z) : SM server report :=
  let i := HASH_ID id in
  s ← get_socket i;
  if (s_type s =? SOCKET_TYPE_INVALID) || negb (s_id s =? id) then mret ignore
  else
    type ← lift (rd address 0);
    if negb (type =? s_protocol s) then
      mret (SOCKET_ERR, SocketMessage (s_id s) (s_opaque s) 0 (DText "protocol mismatch"))
    else
      a ← lift (copy_address s address (if type =? PROTOCOL_UDP then 7 else 19));
      _ ← put_socket i (with_udpconnecting (u16 (s_udpconnecting s - 1)) (with_p (PAddress a) s));
      mret ignore.

Definition run_request (r : request) : SM server report :=
  match r with
  | ReqStart id opaque => start_socket id opaque
  | ReqBind id fd opaque => bind_socket id fd opaque
  | ReqListen id fd opaque => listen_socket id fd opaque
  | ReqClose id shutdown opaque => close_socket id shutdown opaque
  | ReqOpen id port opaque host => open_socket id port opaque host
  | ReqExit => mret (SOCKET_EXIT, no_message)
  | ReqSend id sz buffer => send_socket id sz buffer PRIORITY_HIGH None
  | ReqSendLow id sz buffer => send_socket id sz buffer PRIORITY_LOW None
  | ReqSendUdp id sz buffer address => send_socket id sz buffer PRIORITY_HIGH (Some address)
  | ReqSetUdp id address => set_udp_address id address
  | ReqSetopt id what value => _ ← setopt_socket id what value; mret ignore
  | ReqUdp id fd family opaque => _ ← add_udp_socket id fd family opaque; mret ignore
  end.

(** [ctrl_cmd] is called when there is a command. *)
Definition ctrl_cmd : SM server report :=
  p ← gets ss_pipe;
  match p with
  | [] => mret ignore
  | r :: p => _ ← modify (set_pipe p); run_request r
  end.

Definition has_cmd : SM server bool := gets (λ ss, negb (bool_decide (length (ss_pipe ss) = 0%nat))).

(** ** Events *)

Definition forward_message_tcp (i l : Z) : SM server report :=
  s ← get_socket i;
  sz ← lift (match s_p s with PSize z => Ok z | PAddress _ => Fault BadPointer end);
  a ← os_answer;
  match a with
  | Err EINTR | Err EAGAIN | Ret _ | ReceivedFrom _ _ | Accepted _ _ | Peer _ | Events _ => mret ignore
  | Err e => m ← force_close i l; mret (SOCKET_ERR, with_data (errno_text e) m)
  | Received bytes =>
      let bytes := take (Z.to_nat sz) bytes in
      let n := Z.of_nat (length bytes) in
      if n =? 0 then m ← force_close i l; mret (SOCKET_CLOSE, m)
      else if s_type s =? SOCKET_TYPE_HALFCLOSE then mret ignore
      else
        size ← lift (if n =? sz then int_chk (sz * 2)
                     else if (sz >? MIN_READ_BUFFER) && (n * 2 <? sz) then Ok (Z.quot sz 2) else Ok sz);
        _ ← put_socket i (with_p (PSize size) s);
        mret (SOCKET_DATA, SocketMessage (s_id s) (s_opaque s) n (DBytes bytes))
  end.

Definition gen_udp_address (protocol : Z) (sa : list Z) : list Z :=
  protocol :: take (if protocol =? PROTOCOL_UDP then 6%nat else 18%nat) sa.

(** An address of six bytes is that of IPv4. *)
Definition forward_message_udp (i l : Z) : SM server report :=
  s ← get_socket i;
  a ← os_answer;
  match a with
  | ReceivedFrom bytes sa =>
      let bytes := take (Z.to_nat MAX_UDP_PACKAGE) bytes in
      let protocol := if (length sa =? 6)%nat then PROTOCOL_UDP else PROTOCOL_UDPv6 in
      if negb (s_protocol s =? protocol) then mret ignore
      else mret (SOCKET_UDP, SocketMessage (s_id s) (s_opaque s) (Z.of_nat (length bytes)) (DBytes (bytes ++ gen_udp_address protocol sa)))
  | Err EINTR | Err EAGAIN | Ret _ | Received _ | Accepted _ _ | Peer _ | Events _ => mret ignore
  | Err e => m ← force_close i l; mret (SOCKET_ERR, with_data (errno_text e) m)
  end.

(** [getsockopt] of [SO_ERROR]: the error of the socket, if any, or of the call. *)
Definition socket_error : SM server (option errno) :=
  r ← os_ret;
  mret (match r with inl _ => None | inr e => Some e end).

Definition report_connect (i l : Z) : SM server report :=
  e ← socket_error;
  match e with
  | Some e => m ← force_close i l; mret (SOCKET_ERR, with_data (errno_text e) m)
  | None =>
      _ ← upd_socket i (with_type SOCKET_TYPE_CONNECTED);
      s ← get_socket i;
      _ ← (if nomore_send_data s then os_call (SpWrite (s_fd s) i false) else mret tt);
      p ← os_answer;
      mret (SOCKET_OPEN, SocketMessage (s_id s) (s_opaque s) 0 (match p with Peer t => text_of t | _ => DNull end))
  end.

Definition report_accept (i : Z) : SM server report :=
  s ← get_socket i;
  a ← os_answer;
  match a with
  | Accepted client_fd peer =>
      id ← reserve_id;
      if id <? 0 then _ ← os_call (Closed client_fd); mret (0, no_message)
      else
        _ ← os_call (KeepAlive client_fd);
        _ ← os_call (NonBlocking client_fd);
        o ← new_fd id client_fd PROTOCOL_TCP (s_opaque s) false;
        match o with
        | None => _ ← os_call (Closed client_fd); mret (0, no_message)
        | Some ns =>
            _ ← upd_socket ns (with_type SOCKET_TYPE_PACCEPT);
            mret (1, SocketMessage (s_id s) (s_opaque s) id (text_of peer))
        end
  | Err EMFILE => mret (-1, SocketMessage (s_id s) (s_opaque s) 0 (errno_text EMFILE))
  | Err ENFILE => mret (-1, SocketMessage (s_id s) (s_opaque s) 0 (errno_text ENFILE))
  | _ => mret (0, no_message)
  end.

(** Events of a socket that was closed are dropped: the first one, if any. *)
Fixpoint clear_first (slots : gmap Z socket) (id : Z) (l : list event) : list event :=
  match l with
  | [] => []
  | e :: l =>
      match e_s e with
      | Some i =>
          let s := default socket_init (slots !! i) in
          if (s_type s =? SOCKET_TYPE_INVALID) && (s_id s =? id) then
            Event None (e_read e) (e_write e) (e_error e) :: l
          else e :: clear_first slots id l
      | None => e :: clear_first slots id l
      end
  end.

Definition clear_closed_event (r : report) : SM server unit :=
  if (r.1 =? SOCKET_CLOSE) || (r.1 =? SOCKET_ERR) then
    modify (λ ss, let k := Z.to_nat (ss_index ss) in
      set_poll (ss_checkctrl ss) (take k (ss_events ss) ++ clear_first (ss_slot ss) (m_id r.2) (drop k (ss_events ss))) (ss_index ss) ss)
  else mret tt.

Definition set_index (k : Z) : SM server unit := modify (λ ss, set_poll (ss_checkctrl ss) (ss_events ss) k ss).
Definition set_checkctrl (b : bool) : SM server unit := modify (λ ss, set_poll b (ss_events ss) (ss_index ss) ss).

(** [e->read = false] and [--event_index]: the write part of the event comes next. *)
Definition again_for_write (k : Z) (e : event) : SM server unit :=
  modify (λ ss, set_poll (ss_checkctrl ss) (<[Z.to_nat k := Event (e_s e) false (e_write e) (e_error e)]> (ss_events ss)) k ss).

(** An event of a socket that is open, by its flags. *)
Definition socket_event (k : Z) (e : event) (i : Z) (s : socket) : SM server report :=
  if e_read e then
    r ← (if s_protocol s =? PROTOCOL_TCP then forward_message_tcp i 0 else forward_message_udp i 0);
    if r.1 =? SOCKET_UDP then _ ← set_index k; mret r
    else
      _ ← (if e_write e && negb (r.1 =? SOCKET_CLOSE) && negb (r.1 =? SOCKET_ERR) then again_for_write k e else mret tt);
      mret r
  else if e_write e then send_buffer i 0
  else if e_error e then
    o ← socket_error;
    m ← force_close i 0;
    mret (SOCKET_ERR, with_data (match o with Some e => errno_text e | None => DText "Unknown error" end) m)
  else mret ignore.

Definition dispatch_event (k : Z) (e : event) (i : Z) : SM server (loop unit report) :=
  s ← get_socket i;
  if s_type s =? SOCKET_TYPE_CONNECTING then r ← report_connect i 0; mret (Break r)
  else if s_type s =? SOCKET_TYPE_LISTEN then
    r ← report_accept i;
    if r.1 >? 0 then mret (Break (SOCKET_ACCEPT, r.2))
    else if r.1 <? 0 then mret (Break (SOCKET_ERR, r.2))
    else mret (Continue tt)
  else if s_type s =? SOCKET_TYPE_INVALID then mret (Continue tt)
  else
    r ← socket_event k e i s;
    mret (if r.1 =? -1 then Continue tt else Break r).

(** [sp_wait]: the next events, or [None] to go round again, or to return. *)
Definition wait_events : SM server (option bool) :=
  a ← os_answer;
  match a with
  | Events (e :: l) => _ ← modify (λ ss, set_poll true (e :: l) 0 ss); mret (Some true)
  | Err EINTR => _ ← modify (λ ss, set_poll true [] 0 ss); mret (Some false)
  | _ => _ ← modify (λ ss, set_poll true [] 0 ss); mret None
  end.

Definition next_event : SM server (loop unit report) :=
  k ← gets ss_index;
  ev ← gets ss_events;
  e ← lift (rd ev k);
  _ ← set_index (k + 1);
  match e_s e with
  | None => mret (Continue tt)
  | Some i => dispatch_event k e i
  end.

(** One round of [socket_server_poll]; the [more] flag is cleared when it waits. *)
Definition poll_round (more : bool) : SM server (loop bool (report * bool)) :=
  check ← gets ss_checkctrl;
  cmd ← (if (check : bool) then has_cmd else mret false);
  if (cmd : bool) then
    r ← ctrl_cmd;
    if r.1 =? -1 then mret (Continue more)
    else _ ← clear_closed_event r; mret (Break (r, more))
  else
    _ ← set_checkctrl false;
    k ← gets ss_index;
    n ← gets (λ ss, Z.of_nat (length (ss_events ss)));
    w ← (if k =? n then wait_events else mret (Some true));
    let more := if k =? n then false else more in
    match w with
    | None => mret (Break (ignore, more))
    | Some false => mret (Continue more)
    | Some true =>
        r ← next_event;
        mret (match r with Continue _ => Continue more | Break r => Break (r, more) end)
    end.

Definition socket_server_poll (fuel : nat) : SM server (report * bool) := iterateM fuel poll_round true.

(** ** The interface *)

Definition socket_server_create : server := Server 0 ∅ None true [] 0 [] [] [] [] [].

Definition socket_server_release : SM server unit :=
  for_rangeM (Z.to_nat MAX_SOCKET) 0 (λ i,
    s ← get_socket i;
    if negb (s_type s =? SOCKET_TYPE_RESERVE) then _ ← force_close i 0; mret tt else mret tt).

(** A host name that does not fit the one byte length is refused. *)
Definition SIZEOF_REQUEST_OPEN : Z := 24.

Definition socket_server_connect (opaque : Z) (addr : string) (port : Z) : SM server Z :=
  if Z.of_nat (String.length addr) + SIZEOF_REQUEST_OPEN >=? 256 then mret (-1)
  else
    id ← reserve_id;
    if id <? 0 then mret (-1)
    else _ ← send_request (ReqOpen id port opaque addr); mret id.

Definition socket_server_exit : SM server unit := send_request ReqExit.
Definition socket_server_close (opaque id : Z) : SM server unit := send_request (ReqClose id 0 opaque).
Definition socket_server_shutdown (opaque id : Z) : SM server unit := send_request (ReqClose id 1 opaque).

(** [do_listen] answers with the descriptor. *)
Definition socket_server_listen (opaque : Z) : SM server Z :=
  r ← os_ret;
  match r with
  | inr _ => mret (-1)
  | inl fd =>
      id ← reserve_id;
      if id <? 0 then _ ← os_call (Closed fd); mret id
      else _ ← send_request (ReqListen id fd opaque); mret id
  end.

Definition socket_server_bind (opaque fd : Z) : SM server Z :=
  id ← reserve_id;
  if id <? 0 then mret (-1) else _ ← send_request (ReqBind id fd opaque); mret id.

Definition socket_server_start (opaque id : Z) : SM server unit := send_request (ReqStart id opaque).

Definition TCP_NODELAY : Z := 1.
Definition socket_server_nodelay (id : Z) : SM server unit := send_request (ReqSetopt id TCP_NODELAY 1).
Definition socket_server_userobject (soi : object_interface) : SM server unit := modify (set_soi (Some soi)).

(** The descriptor and the family are the system's. *)
Definition socket_server_udp (opaque family : Z) : SM server Z :=
  r ← os_ret;
  match r with
  | inr _ => mret (-1)
  | inl fd =>
      _ ← os_call (NonBlocking fd);
      id ← reserve_id;
      if id <? 0 then _ ← os_call (Closed fd); mret (-1)
      else _ ← send_request (ReqUdp id fd family opaque); mret id
  end.

Definition direct_udp (i id buffer sz : Z) (udp_address : list Z) : SM server (option (option free_func)) :=
  s ← get_socket i;
  if can_direct_write s id then
    '(so, _) ← send_object_init buffer sz;
    sa ← lift (udp_socket_address s udp_address);
    n ← os_sendto (s_fd s) (so_buffer so) (so_sz so) sa;
    match n with
    | inl _ => mret (Some (Some (so_free_func so)))
    | inr _ => mret None
    end
  else mret None.

Definition socket_server_udp_send (id : Z) (udp_address : list Z) (buffer sz : Z) : SM server Z :=
  let i := HASH_ID id in
  s ← get_socket i;
  if negb (s_id s =? id) || (s_type s =? SOCKET_TYPE_INVALID) then
    _ ← free_buffer buffer sz; mret (-1)
  else
    type ← lift (rd udp_address 0);
    if negb (type =? PROTOCOL_UDP) && negb (type =? PROTOCOL_UDPv6) then
      _ ← free_buffer buffer sz; mret (-1)
    else
      let addrsz := if type =? PROTOCOL_UDP then 7 else 19 in
      o ← (if can_direct_write s id then socket_trylock i 0 else mret None);
      sent ← (match o with
              | Some l => r ← direct_udp i id buffer sz udp_address; finish_direct i l buffer r
              | None => mret false
              end);
      if (sent : bool) then mret 0
      else
        a ← lift (rd_at udp_address 0 addrsz);
        _ ← send_request (ReqSendUdp id sz buffer a); mret 0.

(** [getaddrinfo] answers with the family, and the address as port and host bytes. *)
Definition socket_server_udp_connect (id : Z) : SM server Z :=
  let i := HASH_ID id in
  s ← get_socket i;
  if negb (s_id s =? id) || (s_type s =? SOCKET_TYPE_INVALID) then mret (-1)
  else
    l ← socket_lock i 0;
    s ← get_socket i;
    if negb (s_id s =? id) || (s_type s =? SOCKET_TYPE_INVALID) then _ ← socket_unlock i l; mret (-1)
    else
      _ ← upd_socket i (λ s, with_udpconnecting (u16 (s_udpconnecting s + 1)) s);
      _ ← socket_unlock i l;
      a ← os_answer;
      match a with
      | ReceivedFrom _ sa =>
          let protocol := if (length sa =? 6)%nat then PROTOCOL_UDP else PROTOCOL_UDPv6 in
          _ ← send_request (ReqSetUdp id (gen_udp_address protocol sa)); mret 0
      | _ => mret (-1)
      end.

Definition socket_server_udp_address (m : socket_message) : option (list Z) :=
  match m_data m with
  | DBytes l =>
      let address := drop (Z.to_nat (m_ud m)) l in
      match address with
      | type :: _ => if type =? PROTOCOL_UDP then Some (take 7 address)
                     else if type =? PROTOCOL_UDPv6 then Some (take 19 address) else None
      | [] => None
      end
  | _ => None
  end.
