(* ===== verification/SocketQueue.v ===== *)
(** The write queues of a TCP socket: what they promise, and how they are in memory.

    The specification ([wq]) has the payloads of a socket as lists of bytes, the number of
    bytes of the first one that the system has taken, and the commands in the pipe.  The
    memory ([owns]) is a list of blocks with a list of what is in the live ones. *)

From S2P Require Import Prelude Chain Frames Locks SocketServer SocketPoll.
Open Scope Z_scope.

(** ** The specification *)

Definition payload : Set := list Z.

Inductive qstate : Set := Open | Half | Dead.

Inductive command : Set :=
| CData (high : bool) (d : payload)
| CClose (shutdown : bool).

(** [q_off] bytes of the first payload of [q_high] have been taken; [q_dw] says that it is the
    rest of a direct write.  [q_cut] is what had been taken of a payload when the socket was
    closed; [q_dropped] are the payloads that were freed. *)
Record wq : Set := WQ {
  q_state : qstate;
  q_done : list payload;
  q_dw : bool;
  q_off : Z;
  q_high : list payload;
  q_low : list payload;
  q_pipe : list command;
  q_dropped : list payload;
  q_cut : list Z
}.

Inductive taken : Set := Took (n : Z) | Again | Broken (e : errno).

(** What the system says to a [write] of [sz] bytes that is repeated when interrupted. *)
Fixpoint sys_write (ans : list answer) (sz : Z) : taken * list answer :=
  match ans with
  | [] => (Again, [])
  | Ret n :: ans => (Took (Z.max 0 (Z.min n sz)), ans)
  | Err EINTR :: ans => sys_write ans sz
  | Err EAGAIN :: ans => (Again, ans)
  | Err e :: ans => (Broken e, ans)
  | _ :: ans => (Again, ans)
  end.

Record flushed : Set := Flushed {
  f_done : list payload;
  f_off : Z;
  f_rest : list payload;
  f_broken : bool;
  f_ans : list answer
}.

(** Payloads are written one after the other until the system takes less than all. *)
Fixpoint flush (l : list payload) (off : Z) (ans : list answer) : flushed :=
  match l with
  | [] => Flushed [] 0 [] false ans
  | d :: l' =>
      let sz := Z.of_nat (length d) - off in
      match sys_write ans sz with
      | (Took n, ans) =>
          if n =? sz then
            let f := flush l' 0 ans in Flushed (d :: f_done f) (f_off f) (f_rest f) (f_broken f) (f_ans f)
          else Flushed [] (off + n) l false ans
      | (Again, ans) => Flushed [] off l false ans
      | (Broken _, ans) => Flushed [] off l true ans
      end
  end.

(** The socket is closed; [rest] has not been sent. *)
Definition spec_dead (q : wq) (done rest : list payload) (cut : list Z) : wq :=
  WQ Dead done false 0 [] [] (q_pipe q) (q_dropped q ++ rest) cut.

(** Everything has been written. *)
Definition spec_finish (q : wq) (done : list payload) : wq :=
  match q_state q with
  | Half => spec_dead q done [] []
  | st => WQ st done false 0 [] [] (q_pipe q) (q_dropped q) (q_cut q)
  end.

Definition cut_of (f : flushed) : list Z := take (Z.to_nat (f_off f)) (hd [] (f_rest f)).

(** The socket is writable.  [None]: an assertion fails. *)
Definition spec_write (ans : list answer) (q : wq) : option wq :=
  let f := flush (q_high q) (q_off q) ans in
  let done := q_done q ++ f_done f in
  if f_broken f then Some (spec_dead q done (f_rest f ++ q_low q) (cut_of f))
  else
    match f_rest f, q_low q with
    | _ :: _, _ => Some (WQ (q_state q) done false (f_off f) (f_rest f) (q_low q) (q_pipe q) (q_dropped q) (q_cut q))
    | [], [] => Some (spec_finish q done)
    | [], _ =>
        let g := flush (q_low q) 0 (f_ans f) in
        let done := done ++ f_done g in
        if f_broken g then Some (spec_dead q done (f_rest g) (cut_of g))
        else
          match f_rest g with
          | [] => Some (spec_finish q done)
          | d :: rest =>
              if f_off g =? 0 then None
              else Some (WQ (q_state q) done false (f_off g) [d] rest (q_pipe q) (q_dropped q) (q_cut q))
          end
    end.

(** A payload from the pipe.  It goes to the low list only behind others. *)
Definition spec_append (high : bool) (d : payload) (q : wq) : wq :=
  match q_state q with
  | Open =>
      let listed := if q_dw q then tl (q_high q) else q_high q in
      if high || (bool_decide (listed = []) && bool_decide (q_low q = [])) then
        WQ Open (q_done q) (q_dw q) (q_off q) (q_high q ++ [d]) (q_low q) (q_pipe q) (q_dropped q) (q_cut q)
      else WQ Open (q_done q) (q_dw q) (q_off q) (q_high q) (q_low q ++ [d]) (q_pipe q) (q_dropped q) (q_cut q)
  | st => WQ st (q_done q) (q_dw q) (q_off q) (q_high q) (q_low q) (q_pipe q) (q_dropped q ++ [d]) (q_cut q)
  end.

Definition spec_empty (q : wq) : bool := bool_decide (q_high q = []) && bool_decide (q_low q = []).

Definition spec_close (shutdown : bool) (ans : list answer) (q : wq) : option wq :=
  match q_state q with
  | Dead => Some q
  | _ =>
      q ← (if spec_empty q then Some q else spec_write ans q);
      match q_state q with
      | Dead => Some q
      | _ =>
          if shutdown || spec_empty q then
            Some (spec_dead q (q_done q) (q_high q ++ q_low q) (take (Z.to_nat (q_off q)) (hd [] (q_high q))))
          else Some (WQ Half (q_done q) (q_dw q) (q_off q) (q_high q) (q_low q) (q_pipe q) (q_dropped q) (q_cut q))
      end
  end.

Definition with_pipe (p : list command) (q : wq) : wq :=
  WQ (q_state q) (q_done q) (q_dw q) (q_off q) (q_high q) (q_low q) p (q_dropped q) (q_cut q).

(** A payload from another thread: written at once when nothing waits, or to the pipe. *)
Definition spec_send (d : payload) (ans : list answer) (q : wq) : wq :=
  match q_state q with
  | Dead => WQ Dead (q_done q) (q_dw q) (q_off q) (q_high q) (q_low q) (q_pipe q) (q_dropped q ++ [d]) (q_cut q)
  | Open =>
      if spec_empty q then
        let sz := Z.of_nat (length d) in
        let n := match ans with Ret n :: _ => Z.max 0 (Z.min n sz) | _ => 0 end in
        if n =? sz then WQ Open (q_done q ++ [d]) false 0 [] [] (q_pipe q) (q_dropped q) (q_cut q)
        else WQ Open (q_done q) true n [d] [] (q_pipe q) (q_dropped q) (q_cut q)
      else with_pipe (q_pipe q ++ [CData true d]) q
  | Half => with_pipe (q_pipe q ++ [CData true d]) q
  end.

Definition spec_send_low (d : payload) (q : wq) : wq :=
  match q_state q with
  | Dead => WQ Dead (q_done q) (q_dw q) (q_off q) (q_high q) (q_low q) (q_pipe q) (q_dropped q ++ [d]) (q_cut q)
  | _ => with_pipe (q_pipe q ++ [CData false d]) q
  end.

Definition spec_command (ans : list answer) (q : wq) : option wq :=
  match q_pipe q with
  | [] => Some q
  | CData high d :: p => Some (spec_append high d (with_pipe p q))
  | CClose shutdown :: p => spec_close shutdown ans (with_pipe p q)
  end.

(** The steps of a socket: other threads send and ask to close, the socket thread takes a
    command or learns that the socket is writable, with or without the lock. *)
Inductive sock_op : Set :=
| OSend (d : payload) (ans : list answer)
| OSendLow (d : payload)
| OClose (shutdown : bool)
| OCommand (ans : list answer)
| OWritable (ans : list answer)
| OLocked.

Definition spec_op (o : sock_op) (q : wq) : option wq :=
  match o with
  | OSend d ans => Some (spec_send d ans q)
  | OSendLow d => Some (spec_send_low d q)
  | OClose shutdown => Some (with_pipe (q_pipe q ++ [CClose shutdown]) q)
  | OCommand ans => spec_command ans q
  | OWritable ans => match q_state q with Dead => Some q | _ => spec_write ans q end
  | OLocked => Some q
  end.

Definition spec_ops (l : list sock_op) (q : wq) : option wq := foldl (λ o op, q ← o; spec_op op q) (Some q) l.

(** The bytes the peer gets. *)
Definition spec_wire (q : wq) : list Z :=
  concat (q_done q) ++ match q_state q with Dead => q_cut q | _ => take (Z.to_nat (q_off q)) (hd [] (q_high q)) end.

Definition spec_init : wq := WQ Open [] false 0 [] [] [] [] [].

(** ** The steps of the code *)

Definition malloc_mem (d : payload) : SM server Z :=
  m ← gets ss_mem;
  _ ← modify (set_mem (m ++ [Some d]));
  mret (Z.of_nat (length m)).

Definition with_answers (ans : list answer) : SM server unit := modify (λ ss, set_os ans (ss_calls ss) ss).

Definition writable (i : Z) : SM server unit :=
  _ ← dispatch_event 0 (Event (Some i) false true false) i; mret tt.

Definition run_op (id : Z) (o : sock_op) : SM server unit :=
  let i := HASH_ID id in
  match o with
  | OSend d ans =>
      _ ← with_answers ans; b ← malloc_mem d; _ ← socket_server_send id b (Z.of_nat (length d)); mret tt
  | OSendLow d => b ← malloc_mem d; _ ← socket_server_send_lowpriority id b (Z.of_nat (length d)); mret tt
  | OClose true => socket_server_shutdown 0 id
  | OClose false => socket_server_close 0 id
  | OCommand ans => _ ← with_answers ans; _ ← ctrl_cmd; mret tt
  | OWritable ans => _ ← with_answers ans; writable i
  | OLocked =>
      _ ← upd_socket i (with_lock (Spinlock 1));
      _ ← writable i;
      upd_socket i (with_lock spinlock_init)
  end.

Fixpoint run_ops (id : Z) (l : list sock_op) : SM server unit :=
  match l with
  | [] => mret tt
  | o :: l => _ ← run_op id o; run_ops id l
  end.

(** The bytes written to a descriptor. *)
Definition wire (fd : Z) (calls : list call) : list Z :=
  concat (map (λ c, match c with Wrote f l => if f =? fd then l else [] | _ => [] end) calls).
Arguments wire : simpl never.
