(* ===== verification/SocketMemory.v ===== *)
(** The memory of a socket's write queues: which blocks and write buffers are live, and the
    operations on one of them. *)

From S2P Require Import Prelude Chain Frames Locks SocketServer SocketPoll SocketQueue.
Open Scope Z_scope.

(** ** Live blocks *)

(** The live blocks of a memory and what is in them: all of them, each once. *)
Definition owns {A} (m : list (option A)) (l : list (Z * A)) : Prop :=
  NoDup l.*1 ∧ ∀ b d, (b, d) ∈ l ↔ 0 ≤ b ∧ m !! Z.to_nat b = Some (Some d).

Section owns.
Context {A : Type}.
Implicit Types (m : list (option A)) (l : list (Z * A)).

Lemma owns_perm m l l' : l ≡ₚ l' → owns m l → owns m l'.
Proof.
  intros Hp [Hnd Hl]. split; [by rewrite <- Hp|]. intros b d. by rewrite <- Hp.
Qed.

Lemma owns_in m l b d : owns m l → (b, d) ∈ l → rd m b = Ok (Some d).
Proof. intros [_ Hl] Hin. apply Hl in Hin as [H0 Hm]. by apply rd_ok. Qed.

Lemma owns_wr m l b d o : owns m l → (b, d) ∈ l → wr m b o = Ok (<[Z.to_nat b := o]> m).
Proof. intros [_ Hl] Hin. apply Hl in Hin as [H0 Hm]. apply wr_ok. apply lookup_lt_Some in Hm. lia. Qed.

Lemma owns_malloc m l d : owns m l → owns (m ++ [Some d]) (l ++ [(Z.of_nat (length m), d)]).
Proof.
  intros [Hnd Hl]. split.
  - rewrite fmap_app. apply NoDup_app. split; [done|]. split; [|apply NoDup_singleton].
    intros b Hb Hin. cbn in Hin. apply list_elem_of_singleton in Hin.
    apply list_elem_of_fmap in Hb as ([b' d'] & E & Hb). apply Hl in Hb as [_ Hb]. cbn in E. apply lookup_lt_Some in Hb. lia.
  - intros b d'. rewrite elem_of_app, list_elem_of_singleton, Hl. split.
    + intros [[H0 Hm]|[= -> ->]].
      * split; [done|]. rewrite lookup_app_l; [done|by eapply lookup_lt_Some].
      * split; [lia|]. rewrite Nat2Z.id. apply list_lookup_middle. done.
    + intros [H0 Hm]. apply lookup_app_Some in Hm as [Hm|[Hge Hm]]; [by left|right].
      destruct (Z.to_nat b - length m)%nat eqn:E; [|done]. cbn in Hm. injection Hm as <-. f_equal. lia.
Qed.

Lemma owns_head m b d l : owns m ((b, d) :: l) → 0 ≤ b ∧ (Z.to_nat b < length m)%nat ∧ b ∉ l.*1.
Proof.
  intros [Hnd Hl]. destruct (Hl b d) as [Hin _]. destruct Hin as [H0 Hm]; [by left|]. split; [done|].
  split; [by eapply lookup_lt_Some|]. cbn in Hnd. by apply NoDup_cons in Hnd as [? _].
Qed.

Lemma owns_other m b d l b' d' : owns m ((b, d) :: l) → b' ≠ b →
  (b', d') ∈ l ↔ 0 ≤ b' ∧ m !! Z.to_nat b' = Some (Some d').
Proof.
  intros [Hnd Hl] Hne. rewrite <- Hl, elem_of_cons. split; [by right|]. intros [[= -> ->]|]; [by destruct Hne|done].
Qed.

Lemma owns_free m b d l : owns m ((b, d) :: l) → owns (<[Z.to_nat b := None]> m) l.
Proof.
  intros Ho. destruct (owns_head _ _ _ _ Ho) as (H0 & Hlt & Hni). split; [by destruct Ho as [Hnd _]; apply NoDup_cons in Hnd as [_ ?]|].
  intros b' d'. destruct (decide (b' = b)) as [->|Hne].
  - split.
    + intros Hin. destruct Hni. apply list_elem_of_fmap. by exists (b, d').
    + intros [_ Hm]. by rewrite list_lookup_insert_eq in Hm.
  - rewrite (owns_other _ _ _ _ _ _ Ho Hne). split; intros [H1 H2]; (split; [done|]).
    + by rewrite list_lookup_insert_ne by lia.
    + by rewrite list_lookup_insert_ne in H2 by lia.
Qed.

Lemma owns_set m b d d' l : owns m ((b, d) :: l) → owns (<[Z.to_nat b := Some d']> m) ((b, d') :: l).
Proof.
  intros Ho. destruct (owns_head _ _ _ _ Ho) as (H0 & Hlt & Hni). split; [by destruct Ho as [Hnd _]|].
  intros b' e. destruct (decide (b' = b)) as [->|Hne].
  - rewrite list_lookup_insert_eq by done. rewrite elem_of_cons. split.
    + intros [[= ->]|Hin]; [done|]. destruct Hni. apply list_elem_of_fmap. by exists (b, e).
    + intros [_ [= <-]]. by left.
  - rewrite elem_of_cons, (owns_other _ _ _ _ _ _ Ho Hne). split.
    + intros [[= E ->]|[H1 H2]]; [by destruct Hne|]. split; [done|]. by rewrite list_lookup_insert_ne by lia.
    + intros [H1 H2]. right. split; [done|]. by rewrite list_lookup_insert_ne in H2 by lia.
Qed.

Lemma owns_length m l : owns m l → (length l ≤ length m)%nat.
Proof.
  intros [Hnd Hl]. rewrite <- (length_fmap fst l).
  assert (Hs : l.*1 ⊆+ seqZ 0 (Z.of_nat (length m))).
  { apply NoDup_submseteq; [done|]. intros b Hb. apply list_elem_of_fmap in Hb as ([b' d] & -> & Hb).
    apply Hl in Hb as [H0 Hm]. apply lookup_lt_Some in Hm. apply elem_of_seqZ. cbn. lia. }
  apply submseteq_length in Hs. rewrite length_seqZ in Hs. lia.
Qed.
End owns.

(** ** Entries of a queue *)

(** A write buffer: its address, its payload's block, how much was taken, the payload. *)
Record entry : Set := Entry { e_w : Z; e_b : Z; e_off : Z; e_data : payload }.

Definition first_w (es : list entry) : Z := match es with [] => NULL | e :: _ => e_w e end.
Definition last_w (es : list entry) : Z := match last es with Some e => e_w e | None => NULL end.

Definition wb_of (e : entry) (next : Z) : write_buffer :=
  WriteBuffer next (e_b e) (e_b e, e_off e) (Z.of_nat (length (e_data e)) - e_off e) false [].

(** The write buffers of a list, each linked to the next. *)
Fixpoint nodes (es : list entry) : list (Z * write_buffer) :=
  match es with
  | [] => []
  | e :: es => (e_w e, wb_of e (first_w es)) :: nodes es
  end.

Definition block_of (e : entry) : Z * payload := (e_b e, e_data e).
Definition blocks (es : list entry) : list (Z * payload) := map block_of es.

Definition pending (es : list entry) : Z := foldr (λ e n, Z.of_nat (length (e_data e)) - e_off e + n) 0 es.

(** Only the first entry may have been taken in part: [off] bytes of it. *)
Definition offs_ok (off : Z) (es : list entry) : Prop :=
  match es with
  | [] => off = 0
  | e :: es => e_off e = off ∧ 0 ≤ off ≤ Z.of_nat (length (e_data e)) ∧ Forall (λ e, e_off e = 0) es
  end.

Lemma offs_ok_tail off e es : offs_ok off (e :: es) → offs_ok 0 es.
Proof.
  intros (_ & _ & Hall). destruct es as [|e' es]; [done|]. apply Forall_cons in Hall as [H0 Hall]. cbn. split; [done|]. split; [lia|done].
Qed.

Lemma offs_ok_zero es : Forall (λ e, e_off e = 0) es ↔ offs_ok 0 es.
Proof.
  destruct es as [|e es]; cbn; [done|]. rewrite Forall_cons. split; [intros []; split; [done|]; split; [lia|done]|by intros (? & _ & ?)].
Qed.

Lemma nodes_length es : length (nodes es) = length es.
Proof. induction es as [|e es IH]; [done|]. cbn. by rewrite IH. Qed.

Lemma pending_app es es' : pending (es ++ es') = pending es + pending es'.
Proof. unfold pending. rewrite foldr_app. induction es as [|e es IH]; cbn; [done|]. rewrite IH. lia. Qed.

(** ** Single operations *)

Lemma read_mem_lemma s b d off n l : owns (ss_mem s) l → (b, d) ∈ l → 0 ≤ off → 0 ≤ n → off + n ≤ Z.of_nat (length d) →
  read_mem (b, off) n s = Ok (take (Z.to_nat n) (drop (Z.to_nat off) d), s).
Proof.
  intros Ho Hin H0 Hn Hle. unfold read_mem. rewrite gets_bind. cbn [fst snd].
  rewrite (lift_bind _ _ _ _ (owns_in _ _ _ _ Ho Hin)). rewrite (lift_bind _ _ _ _ (eq_refl : or_fault BadPointer (Some d) = Ok d)).
  unfold lift. by rewrite rd_at_ok.
Qed.

Lemma FREE_lemma s b d l : owns (ss_mem s) ((b, d) :: l) →
  ∃ s', FREE b s = Ok ((), s') ∧ s' = set_mem (<[Z.to_nat b := None]> (ss_mem s)) s ∧ owns (ss_mem s') l.
Proof.
  intros Ho. eexists. split; [|split; [done|cbn; by eapply owns_free]]. unfold FREE. rewrite gets_bind.
  assert (Hin : (b, d) ∈ (b, d) :: l) by by left.
  rewrite (lift_bind _ _ _ _ (owns_in _ _ _ _ Ho Hin)). rewrite (lift_bind _ _ _ _ (eq_refl : or_fault BadPointer (Some d) = Ok d)).
  by rewrite (lift_bind _ _ _ _ (owns_wr _ _ _ _ None Ho Hin)).
Qed.

Lemma read_wb_lemma s w wb l : owns (ss_wbs s) l → (w, wb) ∈ l → read_wb w s = Ok (wb, s).
Proof.
  intros Ho Hin. unfold read_wb. rewrite gets_bind. by rewrite (lift_bind _ _ _ _ (owns_in _ _ _ _ Ho Hin)).
Qed.

Lemma write_wb_lemma s w wb wb' l : owns (ss_wbs s) ((w, wb) :: l) →
  ∃ m, write_wb w wb' s = Ok ((), set_wbs m s) ∧ owns m ((w, wb') :: l).
Proof.
  intros Ho. exists (<[Z.to_nat w := Some wb']> (ss_wbs s)). split; [|by eapply owns_set]. unfold write_wb. rewrite gets_bind.
  assert (Hin : (w, wb) ∈ (w, wb) :: l) by by left. by rewrite (lift_bind _ _ _ _ (owns_wr _ _ _ _ (Some wb') Ho Hin)).
Qed.

(** The first buffer of a list and its payload. *)
Lemma write_buffer_free_lemma s e next W B :
  owns (ss_wbs s) ((e_w e, wb_of e next) :: W) → owns (ss_mem s) (block_of e :: B) →
  ∃ ws ms, write_buffer_free (e_w e) s = Ok ((), set_wbs ws (set_mem ms s)) ∧ owns ws W ∧ owns ms B.
Proof.
  intros Hw Hm. assert (Hin : (e_w e, wb_of e next) ∈ (e_w e, wb_of e next) :: W) by by left.
  destruct (FREE_lemma s (e_b e) (e_data e) B Hm) as (s1 & Ef & -> & Hm').
  exists (<[Z.to_nat (e_w e) := None]> (ss_wbs s)), (<[Z.to_nat (e_b e) := None]> (ss_mem s)).
  split; [|split; [by eapply owns_free|done]].
  unfold write_buffer_free. rewrite (sbind_ok _ _ _ _ _ (read_wb_lemma _ _ _ _ Hw Hin)). cbn [wb_userobject wb_of wb_buffer].
  rewrite (sbind_ok _ _ _ _ _ Ef), gets_bind. cbn [set_mem ss_wbs].
  by rewrite (lift_bind _ _ _ _ (owns_wr _ _ _ _ None Hw Hin)).
Qed.

(** A whole list. *)
Lemma free_wb_list_lemma l es : ∀ s W B, head l = first_w es →
  owns (ss_wbs s) (nodes es ++ W) → owns (ss_mem s) (blocks es ++ B) →
  ∃ ws ms, free_wb_list l s = Ok (clear_wb_list, set_wbs ws (set_mem ms s)) ∧ owns ws W ∧ owns ms B.
Proof.
  assert (Hloop : ∀ fuel es s W B, (length es < fuel)%nat → owns (ss_wbs s) (nodes es ++ W) → owns (ss_mem s) (blocks es ++ B) →
    ∃ ws ms, iterateM fuel free_round (first_w es) s = Ok ((), set_wbs ws (set_mem ms s)) ∧ owns ws W ∧ owns ms B).
  { clear. induction fuel as [|fuel IH]; intros es s W B Hf Hw Hm; [lia|]. cbn [iterateM]. destruct es as [|e es].
    { exists (ss_wbs s), (ss_mem s). split; [by destruct s|done]. }
    cbn [nodes blocks map app first_w] in *.
    destruct (owns_head _ _ _ _ Hw) as (H0 & _ & _).
    destruct (write_buffer_free_lemma s e _ _ _ Hw Hm) as (ws & ms & Ef & Hw' & Hm').
    assert (Er : free_round (e_w e) s = Ok (Continue (first_w es), set_wbs ws (set_mem ms s))).
    { unfold free_round. destruct (Z.eqb_spec (e_w e) NULL) as [E|]; [unfold NULL in E; lia|].
      rewrite (sbind_ok _ _ _ _ _ (read_wb_lemma _ _ _ _ Hw ltac:(by left))). by rewrite (sbind_ok _ _ _ _ _ Ef). }
    rewrite (sbind_ok _ _ _ _ _ Er). cbn [length] in Hf.
    destruct (IH es (set_wbs ws (set_mem ms s)) W B ltac:(lia) Hw' Hm') as (ws' & ms' & E' & ? & ?).
    exists ws', ms'. by rewrite E'. }
  intros s W B Hh Hw Hm. unfold free_wb_list. rewrite gets_bind. rewrite Hh.
  destruct (Hloop (S (length (ss_wbs s))) es s W B) as (ws & ms & E & ? & ?); [|done|done|].
  - pose proof (owns_length _ _ Hw) as Hlen. rewrite length_app, nodes_length in Hlen. lia.
  - exists ws, ms. by rewrite (sbind_ok _ _ _ _ _ E).
Qed.
