(* ===== verification/SocketStreams.v ===== *)
(** A TCP socket delivers what is sent: the code of [SocketServer] and [SocketPoll] against
    the specification of [SocketQueue]. *)

From S2P Require Import Prelude Chain Frames Locks SocketServer SocketPoll SocketQueue SocketMemory.
Open Scope Z_scope.

(** ** The representation *)

(** A command of the pipe, a payload with its block. *)
Inductive pcmd : Set :=
| PData (high : bool) (b : Z) (d : payload)
| PClose (shutdown : bool).

Definition req_of (id : Z) (c : pcmd) : request :=
  match c with
  | PData true b d => ReqSend id (Z.of_nat (length d)) b
  | PData false b d => ReqSendLow id (Z.of_nat (length d)) b
  | PClose shutdown => ReqClose id (if shutdown then 1 else 0) 0
  end.

Definition cmd_of (c : pcmd) : command :=
  match c with PData high _ d => CData high d | PClose shutdown => CClose shutdown end.

Definition pipe_blocks (ps : list pcmd) : list (Z * payload) :=
  omap (λ c, match c with PData _ b d => Some (b, d) | PClose _ => None end) ps.

(** A direct write that was not taken whole: block, offset, payload. *)
Definition dwrite : Set := option (Z * Z * payload).
Definition dw_blocks (dw : dwrite) : list (Z * payload) := match dw with Some (b, _, d) => [(b, d)] | None => [] end.

Definition type_of (st : qstate) : Z :=
  match st with Open => SOCKET_TYPE_CONNECTED | Half => SOCKET_TYPE_HALFCLOSE | Dead => SOCKET_TYPE_INVALID end.

Definition dw_ok (k : socket) (dw : dwrite) : Prop :=
  match dw with
  | Some (b, off, d) => 0 ≤ b ∧ s_dw_buffer k = b ∧ s_dw_offset k = off ∧ s_dw_size k = Z.of_nat (length d)
  | None => s_dw_buffer k = NULL
  end.

Definition list_ok (l : wb_list) (es : list entry) : Prop := head l = first_w es ∧ (es ≠ [] → tail l = last_w es).

Record sock_ok (id fd : Z) (k : socket) (st : qstate) (hs ls : list entry) (dw : dwrite) (lk : Z) : Prop := {
  so_id : s_id k = id;
  so_fd : s_fd k = fd;
  so_tcp : s_protocol k = PROTOCOL_TCP;
  so_type : s_type k = type_of st;
  so_udp : s_udpconnecting k = 0;
  so_lock : s_dw_lock k = Spinlock lk;
  so_high : list_ok (s_high k) hs;
  so_low : list_ok (s_low k) ls;
  so_size : st ≠ Dead → s_wb_size k = pending hs + pending ls;
  so_dw : dw_ok k dw
}.

Record repr (id fd : Z) (s : server) (st : qstate) (hs ls : list entry) (dw : dwrite) (lk : Z) (ps : list pcmd)
    (W : list Z) (A : list answer) : Prop := {
  re_sock : sock_ok id fd (slot_of s (HASH_ID id)) st hs ls dw lk;
  re_wbs : owns (ss_wbs s) (nodes hs ++ nodes ls);
  re_mem : owns (ss_mem s) (blocks hs ++ blocks ls ++ dw_blocks dw ++ pipe_blocks ps);
  re_pipe : ss_pipe s = map (req_of id) ps;
  re_wire : wire fd (ss_calls s) = W;
  re_ans : ss_answers s = A
}.

Lemma slot_of_set i k m s : slot_of (set_slot (<[i := k]> m) s) i = k.
Proof. unfold slot_of. cbn. by rewrite lookup_insert_eq. Qed.

Lemma upd_lemma i f s : upd_socket i f s = Ok ((), set_slot (<[i := f (slot_of s i)]> (ss_slot s)) s).
Proof. done. Qed.

Lemma wire_app fd c1 c2 : wire fd (c1 ++ c2) = wire fd c1 ++ wire fd c2.
Proof. unfold wire. by rewrite map_app, concat_app. Qed.

Lemma get_bind {B} j (k : socket → SM server B) s : (get_socket j ≫= k) s = k (slot_of s j) s.
Proof. done. Qed.

Lemma call_bind {B} c (k : unit → SM server B) s : (os_call c ≫= k) s = k () (set_os (ss_answers s) (ss_calls s ++ [c]) s).
Proof. done. Qed.

Lemma malloc_bind {B} b (k : Z → SM server B) s :
  (malloc_wb b ≫= k) s = k (Z.of_nat (length (ss_wbs s))) (set_wbs (ss_wbs s ++ [Some b]) s).
Proof. done. Qed.

Lemma first_w_live m B es : owns m B → (∀ x, x ∈ nodes es → x ∈ B) → first_w es = NULL → es = [].
Proof.
  intros Ho HB E. destruct es as [|e es]; [done|]. cbn in E.
  destruct (proj1 (proj2 Ho (e_w e) (wb_of e (first_w es))) (HB _ ltac:(by left))) as [H0 _]. unfold NULL in E. lia.
Qed.

Section Socket.
Context (id fd : Z).
Notation i := (HASH_ID id).
Notation repr := (repr id fd).

(** Everything but the slots and the event loop. *)
Definition rest (s : server) := (ss_wbs s, ss_mem s, ss_pipe s, ss_calls s, ss_answers s).

(** The socket changes, and nothing else. *)
Lemma repr_sock s s' st hs ls dw lk ps W A st' hs' ls' dw' lk' : repr s st hs ls dw lk ps W A → rest s' = rest s →
  sock_ok id fd (slot_of s' i) st' hs' ls' dw' lk' → nodes hs' ++ nodes ls' = nodes hs ++ nodes ls →
  blocks hs' ++ blocks ls' ++ dw_blocks dw' = blocks hs ++ blocks ls ++ dw_blocks dw →
  repr s' st' hs' ls' dw' lk' ps W A.
Proof.
  intros [Hs Hw Hm Hp HW HA] [= Ew Em Ep Ec Ea] Hk Hn Hb. split; rewrite ?Ew, ?Em, ?Ep, ?Ec, ?Ea, ?Hn; try done.
  rewrite !(assoc_L (++)) in *. by rewrite Hb.
Qed.

(** A call that writes nothing to the socket. *)
Lemma repr_call s st hs ls dw lk ps W A c : repr s st hs ls dw lk ps W A → wire fd [c] = [] →
  repr (set_os (ss_answers s) (ss_calls s ++ [c]) s) st hs ls dw lk ps W A.
Proof. intros [Hs Hw Hm Hp HW HA] Hc. split; cbn; try done. by rewrite wire_app, Hc, app_nil_r. Qed.

Lemma upd_slot f s : ∃ s', upd_socket i f s = Ok ((), s') ∧ slot_of s' i = f (slot_of s i) ∧ rest s' = rest s.
Proof. eexists. split; [apply upd_lemma|]. by rewrite slot_of_set. Qed.

Lemma lock_core s l lk : s_dw_lock (slot_of s i) = Spinlock lk → l = 0 ∧ lk = 0 ∨ l = 1 ∧ lk = 1 →
  ∃ s', socket_lock i l s = Ok (l + 1, s') ∧ slot_of s' i = with_lock (Spinlock 1) (slot_of s i) ∧ rest s' = rest s.
Proof.
  intros Hk [[-> ->]|[-> ->]]; unfold socket_lock.
  - change (0 =? 0) with true. cbv iota. rewrite get_bind, Hk.
    change (spinlock_lock (Spinlock 0)) with (false, Spinlock 1). cbv beta iota. eexists. split; [done|]. by rewrite slot_of_set.
  - exists s. split; [done|]. split; [|done]. unfold with_lock. rewrite <- Hk. by destruct (slot_of s i).
Qed.

Lemma unlock_core s l : s_dw_lock (slot_of s i) = Spinlock 1 → l = 1 ∨ l = 2 →
  ∃ s', socket_unlock i l s = Ok ((), s') ∧ slot_of s' i = with_lock (Spinlock (l - 1)) (slot_of s i) ∧ rest s' = rest s.
Proof.
  intros Hk [-> | ->]; unfold socket_unlock.
  - eexists. split; [done|]. by rewrite slot_of_set.
  - exists s. split; [done|]. split; [|done]. unfold with_lock. change (2 - 1) with 1. rewrite <- Hk. by destruct (slot_of s i).
Qed.

(** [force_close]: the lists are freed, *)
Lemma close_lists s st hs ls dw lk ps W A : repr s st hs ls dw lk ps W A →
  ∃ s', (∀ X (K : SM server X),
    (hi ← free_wb_list (s_high (slot_of s i));
     _ ← upd_socket i (λ s, with_lists hi (s_low s) s);
     lo ← free_wb_list (s_low (slot_of s i));
     _ ← upd_socket i (λ s, with_lists (s_high s) lo s); K) s = K s') ∧
    slot_of s' i = with_lists clear_wb_list clear_wb_list (slot_of s i) ∧
    owns (ss_wbs s') [] ∧ owns (ss_mem s') (dw_blocks dw ++ pipe_blocks ps) ∧
    ss_pipe s' = map (req_of id) ps ∧ wire fd (ss_calls s') = W ∧ ss_answers s' = A.
Proof.
  intros [Hk Hw Hm Hp HW HA]. pose proof (so_high _ _ _ _ _ _ _ _ Hk) as [Hh _]. pose proof (so_low _ _ _ _ _ _ _ _ Hk) as [Hl _].
  destruct (free_wb_list_lemma _ hs s _ _ Hh Hw Hm) as (ws & ms & E1 & Hw1 & Hm1).
  set (s1 := set_slot (<[i := with_lists clear_wb_list (s_low (slot_of s i)) (slot_of s i)]> (ss_slot s)) (set_wbs ws (set_mem ms s))).
  rewrite <- (app_nil_r (nodes ls)) in Hw1.
  destruct (free_wb_list_lemma (s_low (slot_of s i)) ls s1 [] _ Hl Hw1 Hm1) as (ws' & ms' & E2 & Hw2 & Hm2).
  eexists. split.
  - intros X K. rewrite (sbind_ok _ _ _ _ _ E1), (sbind_ok _ _ _ _ _ (upd_lemma _ _ _)).
    change (slot_of (set_wbs ws (set_mem ms s)) i) with (slot_of s i).
    change (set_slot _ (set_wbs ws (set_mem ms s))) with s1.
    rewrite (sbind_ok _ _ _ _ _ E2), (sbind_ok _ _ _ _ _ (upd_lemma _ _ _)). reflexivity.
  - rewrite slot_of_set. change (slot_of (set_wbs ws' (set_mem ms' s1)) i) with (slot_of s1 i).
    unfold s1 at 1 2 3. rewrite slot_of_set. done.
Qed.

Lemma free_buffer_lemma s b d B : owns (ss_mem s) ((b, d) :: B) →
  ∃ ms, free_buffer b (Z.of_nat (length d)) s = Ok ((), set_mem ms s) ∧ owns ms B.
Proof.
  intros Hm. destruct (FREE_lemma s b d B Hm) as (s' & E & -> & Hm'). eexists. split; [|exact Hm'].
  unfold free_buffer, send_object_init. destruct (Z.ltb_spec (Z.of_nat (length d)) 0); [lia|]. rewrite ret_bind. exact E.
Qed.

(** the rest of a direct write is freed, *)
Lemma close_dw s k dw B : slot_of s i = k → dw_ok k dw → owns (ss_mem s) (dw_blocks dw ++ B) →
  ∃ s', (∀ X (K : SM server X),
    (_ ← (if negb (s_dw_buffer k =? NULL) then
           _ ← free_buffer (s_dw_buffer k) (s_dw_size k);
           upd_socket i (λ s, with_dw (s_dw_offset s) NULL (s_dw_size s) s)
         else mret tt); K) s = K s') ∧
    slot_of s' i = with_dw (s_dw_offset k) NULL (s_dw_size k) k ∧ owns (ss_mem s') B ∧ ss_wbs s' = ss_wbs s ∧
    ss_pipe s' = ss_pipe s ∧ ss_calls s' = ss_calls s ∧ ss_answers s' = ss_answers s.
Proof.
  intros <- Hdw Hm. destruct dw as [[[b off] d]|]; cbn [dw_ok dw_blocks app] in *.
  - destruct Hdw as (H0 & Eb' & _ & Esz). rewrite Eb', Esz. destruct (free_buffer_lemma s b d B Hm) as (ms & E & Hm').
    destruct (Z.eqb_spec b NULL) as [Eb|_]; [unfold NULL in Eb; lia|]. cbn [negb]. eexists. split.
    + intros X K. rewrite (sbind_ok _ _ s () (set_slot (<[i := with_dw (s_dw_offset (slot_of s i)) NULL (s_dw_size (slot_of s i)) (slot_of s i)]> (ss_slot s)) (set_mem ms s))); [reflexivity|].
      by rewrite (sbind_ok _ _ _ _ _ E).
    + rewrite slot_of_set, Esz. done.
  - rewrite Hdw. change (negb (NULL =? NULL)) with false. cbv iota. exists s. split; [done|]. split; [|done].
    unfold with_dw. rewrite <- Hdw. by destruct (slot_of s i).
Qed.

(** and the socket is invalid. *)
Lemma force_close_lemma s st hs ls dw lk ps W A l : repr s st hs ls dw lk ps W A → st ≠ Dead → l = 0 ∧ lk = 0 ∨ l = 1 ∧ lk = 1 →
  ∃ s' m, force_close i l s = Ok (m, s') ∧ repr s' Dead [] [] None lk ps W A.
Proof.
  intros Hr Hst Hl. unfold force_close. rewrite get_bind.
  pose proof (re_sock _ _ _ _ _ _ _ _ _ _ _ Hr) as Hk. pose proof (so_type _ _ _ _ _ _ _ _ Hk) as Ht. rewrite Ht.
  destruct (Z.eqb_spec (type_of st) SOCKET_TYPE_INVALID) as [E|_]; [by destruct st|].
  assert (Eres : assertb (negb (type_of st =? SOCKET_TYPE_RESERVE)) = Ok ()) by (by destruct st).
  rewrite (lift_bind _ _ _ _ Eres).
  destruct (close_lists _ _ _ _ _ _ _ _ _ Hr) as (s1 & E1 & Hk1 & Hw1 & Hm1 & Hp1 & HW1 & HA1). rewrite E1. clear E1.
  assert (Et : negb (type_of st =? SOCKET_TYPE_PACCEPT) && negb (type_of st =? SOCKET_TYPE_PLISTEN) = true) by (by destruct st).
  assert (Eb : negb (type_of st =? SOCKET_TYPE_BIND) = true) by (by destruct st). rewrite Et, Eb.
  set (k := slot_of s i) in *. set (k1 := with_lists clear_wb_list clear_wb_list k) in *.
  rewrite call_bind.
  destruct (lock_core (set_os (ss_answers s1) (ss_calls s1 ++ [SpDel (s_fd k)]) s1) l lk) as (s3 & E3 & Hk3 & [= Hw3 Hm3 Hp3 Hc3 Ha3]); [|done|].
  { change (slot_of (set_os _ _ s1) i) with (slot_of s1 i). rewrite Hk1. apply (so_lock _ _ _ _ _ _ _ _ Hk). }
  change (slot_of (set_os _ _ s1) i) with (slot_of s1 i) in Hk3. rewrite Hk1 in Hk3.
  rewrite (sbind_ok _ _ _ _ _ E3). rewrite call_bind, (sbind_ok _ _ _ _ _ (upd_lemma _ _ _)).
  set (s4 := set_slot _ _). assert (Hk4 : slot_of s4 i = with_type SOCKET_TYPE_INVALID (with_lock (Spinlock 1) k1)).
  { unfold s4. rewrite slot_of_set. change (slot_of (set_os _ _ s3) i) with (slot_of s3 i). by rewrite Hk3. }
  rewrite get_bind, Hk4.
  assert (Hm4 : owns (ss_mem s4) (dw_blocks dw ++ pipe_blocks ps)) by (unfold s4; cbn; by rewrite Hm3).
  destruct (close_dw s4 _ dw _ Hk4 (so_dw _ _ _ _ _ _ _ _ Hk) Hm4) as (s5 & E5 & Hk5 & Hm5 & Hw5 & Hp5 & Hc5 & Ha5). rewrite E5.
  destruct (unlock_core s5 (l + 1)) as (s6 & E6 & Hk6 & [= Hw6 Hm6 Hp6 Hc6 Ha6]); [by rewrite Hk5|lia|].
  rewrite (sbind_ok _ _ _ _ _ E6). do 2 eexists. split; [done|]. rewrite Hk5 in Hk6. destruct Hk.
  assert (Elk : Spinlock (l + 1 - 1) = Spinlock lk) by (f_equal; lia). rewrite Elk in Hk6.
  split; rewrite ?Hw6, ?Hm6, ?Hp6, ?Hc6, ?Ha6, ?Hw5, ?Hp5, ?Hc5, ?Ha5; unfold s4; cbn; rewrite ?Hw3, ?Hp3, ?Hc3, ?Ha3; try done.
  - rewrite Hk6. by split.
  - cbn. rewrite !wire_app. unfold wire at 2 3. cbn. by rewrite !app_nil_r.
Qed.

(** ** Writing one payload *)

Definition wrote (r : taken) (e : entry) : list call :=
  match r with Took n => [Wrote fd (take (Z.to_nat n) (drop (Z.to_nat (e_off e)) (e_data e)))] | _ => [] end.

Definition result_of (r : taken) : Z + errno := match r with Took n => inl n | Again => inr EAGAIN | Broken e => inr e end.

Definition remaining (e : entry) : Z := Z.of_nat (length (e_data e)) - e_off e.

Lemma take_clip {A} (n sz : Z) (l : list A) off : sz = Z.of_nat (length l) - off → 0 ≤ off → off ≤ Z.of_nat (length l) →
  take (Z.to_nat (Z.max 0 (Z.min n sz))) (take (Z.to_nat sz) (drop (Z.to_nat off) l)) =
  take (Z.to_nat (Z.max 0 (Z.min n sz))) (drop (Z.to_nat off) l).
Proof. intros -> H0 Hl. rewrite take_take. f_equal. lia. Qed.

Definition next_answer (ans : list answer) : answer * list answer :=
  match ans with [] => (Err EAGAIN, []) | a :: ans => (a, ans) end.

Lemma os_answer_lemma s : os_answer s = Ok ((next_answer (ss_answers s)).1, set_os (next_answer (ss_answers s)).2 (ss_calls s) s).
Proof.
  unfold os_answer. rewrite gets_bind. destruct (ss_answers s) as [|a A] eqn:E; [|done]. cbn [next_answer fst snd]. rewrite <- E. by destruct s.
Qed.

Lemma os_write_lemma s e next B : owns (ss_mem s) B → block_of e ∈ B → 0 ≤ e_off e ≤ Z.of_nat (length (e_data e)) →
  let '(a, A) := next_answer (ss_answers s) in
  os_write fd (wb_ptr (wb_of e next)) (wb_sz (wb_of e next)) s =
    Ok (match a with
        | Ret n => (inl (Z.max 0 (Z.min n (remaining e))),
                    set_os A (ss_calls s ++ wrote (Took (Z.max 0 (Z.min n (remaining e)))) e) s)
        | Err x => (inr x, set_os A (ss_calls s) s)
        | _ => (inr EAGAIN, set_os A (ss_calls s) s)
        end).
Proof.
  intros Hm Hin Hoff. pose proof (os_answer_lemma s) as Ea. destruct (next_answer (ss_answers s)) as [a A]. cbn [fst snd] in Ea.
  unfold os_write. cbn [wb_of wb_ptr wb_sz]. fold (remaining e).
  rewrite (sbind_ok _ _ _ _ _ (read_mem_lemma s (e_b e) (e_data e) (e_off e) (remaining e) B Hm Hin ltac:(lia) ltac:(unfold remaining; lia) ltac:(unfold remaining; lia))).
  rewrite (sbind_ok _ _ _ _ _ Ea). destruct a; try done. rewrite call_bind. cbn [set_os ss_answers ss_calls].
  unfold wrote. rewrite take_clip by (unfold remaining; lia). done.
Qed.

Lemma write_loop e next B fuel : ∀ s, owns (ss_mem s) B → block_of e ∈ B → 0 ≤ e_off e ≤ Z.of_nat (length (e_data e)) →
  (length (ss_answers s) < fuel)%nat →
  let '(r, A) := sys_write (ss_answers s) (remaining e) in
  iterateM fuel (write_round fd (wb_of e next)) tt s = Ok (result_of r, set_os A (ss_calls s ++ wrote r e) s) ∧
  (∀ n, r = Took n → 0 ≤ n ≤ remaining e) ∧ (∀ x, r = Broken x → x ≠ EAGAIN).
Proof.
  induction fuel as [|fuel IH]; intros s Hm Hin Hoff Hf; [lia|]. cbn [iterateM].
  pose proof (os_write_lemma s e next B Hm Hin Hoff) as Ew.
  assert (Hrem : 0 ≤ remaining e) by (unfold remaining; lia).
  assert (Hstop : ∀ r A', r ≠ inr EINTR → os_write fd (wb_ptr (wb_of e next)) (wb_sz (wb_of e next)) s = Ok (r, A') →
    (r ← write_round fd (wb_of e next) tt; match r with Continue l' => iterateM fuel (write_round fd (wb_of e next)) l' | Break r => mret r end) s = Ok (r, A')).
  { intros r A' Hr E. assert (Er : write_round fd (wb_of e next) tt s = Ok (Break r, A')).
    { unfold write_round. rewrite (sbind_ok _ _ _ _ _ E). by destruct r as [|[]]. }
    by rewrite (sbind_ok _ _ _ _ _ Er). }
  destruct (ss_answers s) as [|a A] eqn:Ea; cbn [next_answer] in Ew.
  { cbn [sys_write]. split; [|done]. unfold result_of, wrote. rewrite app_nil_r. by apply Hstop. }
  destruct a as [n|x| | | | |].
  2: destruct x.
  all: cbn [sys_write]; unfold result_of, wrote; rewrite ?app_nil_r;
    try (split; [by apply Hstop|]; split; [intros ? [=]; lia|by intros ? [= <-]]).
  - assert (Er : write_round fd (wb_of e next) tt s = Ok (Continue tt, set_os A (ss_calls s) s))
      by (unfold write_round; by rewrite (sbind_ok _ _ _ _ _ Ew)).
    rewrite (sbind_ok _ _ _ _ _ Er).
    specialize (IH (set_os A (ss_calls s) s) Hm Hin Hoff ltac:(cbn in *; lia)). exact IH.
Qed.

(** ** One of the two lists *)

(** The representation with the list [hi] of the code first. *)
Record repr2 (hi : bool) (s : server) (st : qstate) (es os : list entry) (dw : dwrite) (lk : Z) (ps : list pcmd)
    (W : list Z) (A : list answer) : Prop := {
  r2_sock : sock_ok id fd (slot_of s i) st (if hi then es else os) (if hi then os else es) dw lk;
  r2_wbs : owns (ss_wbs s) (nodes es ++ nodes os);
  r2_mem : owns (ss_mem s) (blocks es ++ blocks os ++ dw_blocks dw ++ pipe_blocks ps);
  r2_pipe : ss_pipe s = map (req_of id) ps;
  r2_wire : wire fd (ss_calls s) = W;
  r2_ans : ss_answers s = A
}.

Lemma repr2_iff (hi : bool) s st es os dw lk ps W A :
  repr2 hi s st es os dw lk ps W A ↔ repr s st (if hi then es else os) (if hi then os else es) dw lk ps W A.
Proof.
  destruct hi; (split; intros [Hs Hw Hm Hp HW HA]; split; try done).
  - eapply owns_perm; [|exact Hw]. apply Permutation_app_comm.
  - eapply owns_perm; [|exact Hm]. rewrite !(assoc_L (++)). do 2 apply Permutation_app_tail. apply Permutation_app_comm.
  - eapply owns_perm; [|exact Hw]. apply Permutation_app_comm.
  - eapply owns_perm; [|exact Hm]. rewrite !(assoc_L (++)). do 2 apply Permutation_app_tail. apply Permutation_app_comm.
Qed.

Lemma r2_list hi s st es os dw lk ps W A : repr2 hi s st es os dw lk ps W A → list_ok (list_of hi (slot_of s i)) es.
Proof. intros [Hk _ _ _ _ _]. destruct Hk. by destruct hi. Qed.

Lemma r2_size hi s st es os dw lk ps W A : repr2 hi s st es os dw lk ps W A → st ≠ Dead →
  s_wb_size (slot_of s i) = pending es + pending os.
Proof. intros [Hk _ _ _ _ _] Hst. rewrite (so_size _ _ _ _ _ _ _ _ Hk Hst). destruct hi; lia. Qed.

(** The socket with another list and another size. *)
Lemma sock_list (hi : bool) k st es os dw lk es' l z : sock_ok id fd k st (if hi then es else os) (if hi then os else es) dw lk →
  list_ok l es' → (st ≠ Dead → z = pending es' + pending os) →
  sock_ok id fd (with_list hi l (with_wb_size z k)) st (if hi then es' else os) (if hi then os else es') dw lk.
Proof.
  intros [H1 H2 H3 H4 H5 H6 H7 H8 H9 H10] Hl Hz. destruct hi; split; cbn; try done. intros Hst. specialize (Hz Hst). lia.
Qed.

Lemma first_w_null es B : owns B (nodes es) → first_w es = NULL → es = [].
Proof.
  destruct es as [|e es]; [done|]. cbn [first_w nodes]. intros Ho E. destruct (owns_head _ _ _ _ Ho) as [H0 _]. unfold NULL in E. lia.
Qed.

Lemma wire_wrote_lemma s r e : wire fd (ss_calls s ++ wrote r e) =
  wire fd (ss_calls s) ++ match r with Took n => take (Z.to_nat n) (drop (Z.to_nat (e_off e)) (e_data e)) | _ => [] end.
Proof.
  rewrite wire_app. f_equal. destruct r; [|done..]. unfold wire. cbn. rewrite Z.eqb_refl. by rewrite app_nil_r.
Qed.

Lemma round_empty hi l s st os dw lk ps W A : repr2 hi s st [] os dw lk ps W A →
  ∃ s', send_tcp_round i hi l tt s = Ok (Break ignore, s') ∧ repr2 hi s' st [] os dw lk ps W A.
Proof.
  intros Hr. unfold send_tcp_round. rewrite get_bind. destruct (r2_list _ _ _ _ _ _ _ _ _ _ Hr) as [Hh _]. rewrite Hh.
  cbn [first_w]. rewrite Z.eqb_refl. rewrite (sbind_ok _ _ _ _ _ (upd_lemma _ _ _)). eexists. split; [done|].
  destruct Hr as [Hk Hw Hm Hp HW HA]. split; try done. rewrite slot_of_set.
  replace (with_list hi (WbList NULL NULL) (slot_of s i)) with
    (with_list hi (WbList NULL NULL) (with_wb_size (s_wb_size (slot_of s i)) (slot_of s i))) by (by destruct (slot_of s i)).
  eapply sock_list; [exact Hk|done|]. intros Hst. rewrite (so_size _ _ _ _ _ _ _ _ Hk Hst). destruct hi; cbn; lia.
Qed.

(** The state after the system has answered. *)
Definition after_write (s : server) (r : taken) (A : list answer) (e : entry) : server := set_os A (ss_calls s ++ wrote r e) s.

Lemma repr2_write hi s st es os dw lk ps W A r A' e : repr2 hi s st es os dw lk ps W A →
  repr2 hi (after_write s r A' e) st es os dw lk ps
    (W ++ match r with Took n => take (Z.to_nat n) (drop (Z.to_nat (e_off e)) (e_data e)) | _ => [] end) A'.
Proof.
  intros [Hk Hw Hm Hp HW HA]. split; try done. cbn [after_write set_os ss_calls]. by rewrite wire_wrote_lemma, HW.
Qed.

(** The first payload is written whole: its buffer and block are freed. *)
Lemma round_whole hi s st e es os dw lk ps W A : repr2 hi s st (e :: es) os dw lk ps W A → st ≠ Dead →
  ∃ s', (∀ X (K : SM server X),
    (_ ← upd_socket i (λ s, with_wb_size (s_wb_size s - remaining e) s);
     _ ← upd_socket i (λ s, with_list hi (WbList (first_w es) (tail (list_of hi s))) s);
     _ ← write_buffer_free (e_w e); K) s = K s') ∧ repr2 hi s' st es os dw lk ps W A.
Proof.
  intros Hr Hst. pose proof (r2_list _ _ _ _ _ _ _ _ _ _ Hr) as [_ Ht]. pose proof (r2_size _ _ _ _ _ _ _ _ _ _ Hr Hst) as Hsz.
  destruct Hr as [Hk Hw Hm Hp HW HA]. cbn [nodes blocks map app] in Hw, Hm.
  set (k := slot_of s i) in *.
  set (k' := with_list hi (WbList (first_w es) (tail (list_of hi k))) (with_wb_size (s_wb_size k - remaining e) k)).
  set (s1 := set_slot (<[i := with_wb_size (s_wb_size k - remaining e) k]> (ss_slot s)) s).
  set (s2 := set_slot (<[i := k']> (ss_slot s1)) s1).
  destruct (write_buffer_free_lemma s2 e (first_w es) _ _ Hw Hm) as (ws & ms & Ef & Hw' & Hm').
  exists (set_wbs ws (set_mem ms s2)). split.
  - intros X K. rewrite (sbind_ok _ _ _ _ _ (upd_lemma _ _ _)). fold k. fold s1.
    assert (E2 : upd_socket i (λ s, with_list hi (WbList (first_w es) (tail (list_of hi s))) s) s1 = Ok ((), s2)).
    { rewrite upd_lemma. unfold s2, k'. do 3 f_equal. unfold s1 at 1 2. rewrite slot_of_set. by destruct hi. }
    rewrite (sbind_ok _ _ _ _ _ E2). apply (sbind_ok _ (λ _, K) _ _ _ Ef).
  - split; try done. change (slot_of (set_wbs ws (set_mem ms s2)) i) with (slot_of s2 i). unfold s2. rewrite slot_of_set.
    apply (sock_list hi k st (e :: es) os dw lk); [done| |].
    + split; [done|]. intros Hne. cbn [tail]. rewrite Ht by done. unfold last_w. destruct es; [done|]. by rewrite last_cons_cons.
    + intros _. rewrite Hsz. unfold remaining. cbn [pending foldr]. fold (pending es). lia.
Qed.

(** It is written in part. *)
Lemma round_part hi s st e es os dw lk ps W A n : repr2 hi s st (e :: es) os dw lk ps W A → st ≠ Dead →
  let e' := Entry (e_w e) (e_b e) (e_off e + n) (e_data e) in
  ∃ s', (∀ X (K : SM server X),
    (_ ← upd_socket i (λ s, with_wb_size (s_wb_size s - n) s);
     _ ← write_wb (e_w e) (wb_of e' (first_w es)); K) s = K s') ∧ repr2 hi s' st (e' :: es) os dw lk ps W A.
Proof.
  intros Hr Hst e'. pose proof (r2_list _ _ _ _ _ _ _ _ _ _ Hr) as [Hh Ht]. pose proof (r2_size _ _ _ _ _ _ _ _ _ _ Hr Hst) as Hsz.
  destruct Hr as [Hk Hw Hm Hp HW HA]. cbn [nodes app] in Hw. set (k := slot_of s i) in *.
  set (s1 := set_slot (<[i := with_wb_size (s_wb_size k - n) k]> (ss_slot s)) s).
  destruct (write_wb_lemma s1 _ _ (wb_of e' (first_w es)) _ Hw) as (ws & Ew & Hw').
  exists (set_wbs ws s1). split.
  - intros X K. rewrite (sbind_ok _ _ _ _ _ (upd_lemma _ _ _)). apply (sbind_ok _ (λ _, K) _ _ _ Ew).
  - split; try done. change (slot_of (set_wbs ws s1) i) with (slot_of s1 i). unfold s1. rewrite slot_of_set.
    replace (with_wb_size (s_wb_size k - n) k) with (with_list hi (list_of hi k) (with_wb_size (s_wb_size k - n) k))
      by (destruct k as [? [] []]; by destruct hi).
    apply (sock_list hi k st (e :: es) os dw lk); [done| |].
    + split; [done|]. intros _. rewrite Ht by done. unfold last_w. by destruct es.
    + intros _. rewrite Hsz. cbn [pending foldr e' e_data e_off]. fold (pending es). lia.
Qed.

(** What a round does, by the answer of the system. *)
Lemma round_lemma hi s st e es os dw ps W A : repr2 hi s st (e :: es) os dw 1 ps W A → st ≠ Dead →
  0 ≤ e_off e ≤ Z.of_nat (length (e_data e)) →
  let '(r, A') := sys_write A (remaining e) in
  let W' := W ++ match r with Took n => take (Z.to_nat n) (drop (Z.to_nat (e_off e)) (e_data e)) | _ => [] end in
  match r with
  | Took n =>
      0 ≤ n ≤ remaining e ∧
      if n =? remaining e then
        ∃ s', send_tcp_round i hi 1 tt s = Ok (Continue tt, s') ∧ repr2 hi s' st es os dw 1 ps W' A'
      else
        ∃ s', send_tcp_round i hi 1 tt s = Ok (Break ignore, s') ∧
          repr2 hi s' st (Entry (e_w e) (e_b e) (e_off e + n) (e_data e) :: es) os dw 1 ps W' A'
  | Again => ∃ s', send_tcp_round i hi 1 tt s = Ok (Break ignore, s') ∧ repr2 hi s' st (e :: es) os dw 1 ps W' A'
  | Broken _ => ∃ s' m, send_tcp_round i hi 1 tt s = Ok (Break (SOCKET_CLOSE, m), s') ∧ repr s' Dead [] [] None 1 ps W' A'
  end.
Proof.
  intros Hr Hst Hoff. destruct (r2_list _ _ _ _ _ _ _ _ _ _ Hr) as [Hh _]. pose proof (r2_wbs _ _ _ _ _ _ _ _ _ _ Hr) as Hw.
  pose proof (r2_mem _ _ _ _ _ _ _ _ _ _ Hr) as Hm. cbn [nodes blocks map app] in Hw, Hm.
  pose proof (write_loop e (first_w es) _ (S (length (ss_answers s))) s Hm ltac:(by left) Hoff ltac:(lia)) as Hloop.
  rewrite (r2_ans _ _ _ _ _ _ _ _ _ _ Hr) in Hloop. destruct (sys_write A (remaining e)) as [r A'].
  destruct Hloop as (Eloop & Hn & Hx). pose proof (repr2_write _ _ _ _ _ _ _ _ _ _ r A' e Hr) as Hr'.
  fold (after_write s r A' e) in Eloop. set (s1 := after_write s r A' e) in *.
  assert (Hround : send_tcp_round i hi 1 tt s = (match result_of r with
    | inr EAGAIN => mret (Break ignore)
    | inr _ => m ← force_close i 1; mret (Break (SOCKET_CLOSE, m))
    | inl sz =>
        _ ← upd_socket i (λ s, with_wb_size (s_wb_size s - sz) s);
        if negb (sz =? remaining e) then
          _ ← write_wb (e_w e) (WriteBuffer (first_w es) (e_b e) (e_b e, e_off e + sz) (remaining e - sz) false []);
          mret (Break ignore)
        else
          _ ← upd_socket i (λ s, with_list hi (WbList (first_w es) (tail (list_of hi s))) s);
          _ ← write_buffer_free (e_w e);
          mret (Continue tt)
    end) s1).
  { unfold send_tcp_round. rewrite get_bind, Hh. cbn [first_w]. destruct (owns_head _ _ _ _ Hw) as [H0 _].
    destruct (Z.eqb_spec (e_w e) NULL) as [E|_]; [unfold NULL in E; lia|].
    rewrite (sbind_ok _ _ _ _ _ (read_wb_lemma _ _ _ _ Hw ltac:(by left))), gets_bind.
    assert (Efd : s_fd (slot_of s i) = fd) by (apply (so_fd _ _ _ _ _ _ _ _ (r2_sock _ _ _ _ _ _ _ _ _ _ Hr))).
    rewrite Efd. rewrite (r2_ans _ _ _ _ _ _ _ _ _ _ Hr) in *. by rewrite (sbind_ok _ _ _ _ _ Eloop). }
  rewrite Hround. clear Hround Eloop. destruct r as [n| |x]; cbn [result_of].
  - split; [by apply Hn|]. destruct (Z.eqb_spec n (remaining e)) as [->|Hne]; cbn [negb].
    + destruct (round_whole _ _ _ _ _ _ _ _ _ _ _ Hr' Hst) as (s' & E & Hr2). exists s'. split; [|done]. apply E.
    + destruct (round_part _ _ _ _ _ _ _ _ _ _ _ n Hr' Hst) as (s' & E & Hr2). exists s'. split; [|done].
      assert (Earg : remaining e - n = Z.of_nat (length (e_data e)) - (e_off e + n)) by (unfold remaining; lia).
      rewrite Earg. apply E.
  - by exists s1.
  - specialize (Hx x eq_refl). apply repr2_iff in Hr'.
    destruct (force_close_lemma _ _ _ _ _ _ _ _ _ 1 Hr' Hst ltac:(by right)) as (s' & m & E & Hr2).
    exists s', m. split; [|done]. destruct x; try done; by rewrite (sbind_ok _ _ _ _ _ E).
Qed.

Lemma flush_queue_lemma hi st os dw ps es : ∀ fuel s off W A C, st ≠ Dead → repr2 hi s st es os dw 1 ps W A → offs_ok off es →
  (length es < fuel)%nat → W = C ++ take (Z.to_nat off) (hd [] (map e_data es)) →
  let F := flush (map e_data es) off A in
  let W' := C ++ concat (f_done F) ++ cut_of F in
  if f_broken F then
    ∃ s' m, iterateM fuel (send_tcp_round i hi 1) tt s = Ok ((SOCKET_CLOSE, m), s') ∧ repr s' Dead [] [] None 1 ps W' (f_ans F)
  else
    ∃ s' es', iterateM fuel (send_tcp_round i hi 1) tt s = Ok (ignore, s') ∧ repr2 hi s' st es' os dw 1 ps W' (f_ans F) ∧
      map e_data es' = f_rest F ∧ offs_ok (f_off F) es'.
Proof.
  induction es as [|e es IH]; intros fuel s off W A C Hst Hr Hoff Hf HW; (destruct fuel as [|fuel]; [cbn in Hf; lia|]); cbn [iterateM].
  { cbn [offs_ok] in Hoff. subst off. cbn [map flush f_broken f_done f_off f_rest f_ans cut_of concat].
    destruct (round_empty hi 1 _ _ _ _ _ _ _ _ Hr) as (s' & E & Hr'). exists s', []. rewrite (sbind_ok _ _ _ _ _ E).
    split; [done|]. cbn in HW. by rewrite HW in Hr'. }
  pose proof Hoff as (He & Hrange & Hrest). rewrite <- He in Hrange.
  pose proof (round_lemma hi s st e es os dw ps W A Hr Hst Hrange) as Hround.
  cbn [map flush hd] in *. rewrite <- He in *. fold (remaining e).
  destruct (sys_write A (remaining e)) as [r A']. destruct r as [n| |x].
  - destruct Hround as [Hn Hround]. destruct (Z.eqb_spec n (remaining e)) as [->|Hne].
    + destruct Hround as (s1 & E & Hr1). rewrite (sbind_ok _ _ _ _ _ E).
      assert (HW1 : W ++ take (Z.to_nat (remaining e)) (drop (Z.to_nat (e_off e)) (e_data e)) =
        (C ++ e_data e) ++ take (Z.to_nat 0) (hd [] (map e_data es))).
      { rewrite HW, <- !(assoc_L (++)). f_equal. cbn [Z.to_nat take]. rewrite app_nil_r.
        rewrite (take_ge (drop _ _)) by (rewrite length_drop; unfold remaining; lia). apply take_drop. }
      assert (Hoff0 : offs_ok 0 es) by (eapply offs_ok_tail; exact Hoff).
      specialize (IH fuel s1 0 _ A' (C ++ e_data e) Hst Hr1 Hoff0 ltac:(cbn in Hf; lia) HW1). cbv zeta in IH.
      cbn [f_broken f_done f_off f_rest f_ans concat]. unfold cut_of in *. cbn [f_off f_rest].
      rewrite <- !(assoc_L (++)) in *. exact IH.
    + destruct Hround as (s1 & E & Hr1). cbn [f_broken f_done f_off f_rest f_ans concat app]. rewrite (sbind_ok _ _ _ _ _ E).
      exists s1, (Entry (e_w e) (e_b e) (e_off e + n) (e_data e) :: es). split; [done|]. split; [|split; [done|]].
      * rewrite HW, <- !(assoc_L (++)) in Hr1. unfold cut_of. cbn [f_off f_rest hd].
        rewrite take_take_drop in Hr1. by replace (Z.to_nat (e_off e + n)) with (Z.to_nat (e_off e) + Z.to_nat n)%nat by lia.
      * split; [done|]. cbn [e_data]. unfold remaining in *. split; [lia|done].
  - destruct Hround as (s1 & E & Hr1). cbn [f_broken f_done f_off f_rest f_ans concat app]. rewrite (sbind_ok _ _ _ _ _ E).
    exists s1, (e :: es). split; [done|]. rewrite app_nil_r, HW in Hr1. split; [done|]. split; [done|split; [done|]; split; [lia|done]].
  - destruct Hround as (s1 & m & E & Hr1). cbn [f_broken f_done f_off f_rest f_ans concat app]. rewrite (sbind_ok _ _ _ _ _ E).
    exists s1, m. split; [done|]. by rewrite app_nil_r, HW in Hr1.
Qed.

(** ** The socket is writable *)

(** The direct write becomes the first entry of the high list. *)
Definition requeued (w : Z) (dw : dwrite) (hs : list entry) : list entry :=
  match dw with Some (b, off, d) => Entry w b off d :: hs | None => hs end.

Lemma requeue_lemma s st hs ls dw ps W A : repr s st hs ls dw 1 ps W A → st ≠ Dead →
  ∃ s' w, requeue_dw i s = Ok ((), s') ∧ repr s' st (requeued w dw hs) ls None 1 ps W A.
Proof.
  intros Hr Hst. unfold requeue_dw. rewrite get_bind. pose proof (re_sock _ _ _ _ _ _ _ _ _ _ _ Hr) as Hk.
  pose proof (so_dw _ _ _ _ _ _ _ _ Hk) as Hdw. destruct dw as [[[b off] d]|]; cbn [dw_ok requeued] in *.
  2: { rewrite Hdw. change (negb (NULL =? NULL)) with false. by exists s, 0. }
  destruct Hdw as (H0 & Eb & Eo & Es). rewrite Eb, Eo, Es. destruct (Z.eqb_spec b NULL) as [E|_]; [unfold NULL in E; lia|]. cbn [negb].
  unfold send_object_init at 1. destruct (Z.ltb_spec (Z.of_nat (length d)) 0); [lia|]. rewrite ret_bind.
  cbv beta iota zeta. cbn [so_sz so_buffer fst snd]. set (w := Z.of_nat (length (ss_wbs s))).
  pose proof (so_high _ _ _ _ _ _ _ _ Hk) as [Hh Ht]. rewrite Hh.
  destruct Hr as [_ Hw Hm Hp HW HA].
  assert (Enext : (if first_w hs =? NULL then NULL else first_w hs) = first_w hs) by (by destruct (Z.eqb_spec (first_w hs) NULL)).
  rewrite Enext, malloc_bind. fold w.
  eexists _, w. split; [reflexivity|]. split; try done; cbn [ss_mem ss_wbs set_slot set_wbs].
  - rewrite slot_of_set. change (slot_of (set_wbs _ s) i) with (slot_of s i). destruct Hk.
    split; cbn; try done.
    + split.
      * destruct (Z.eqb_spec (first_w hs) NULL); done.
      * intros _. unfold last_w. destruct hs as [|e hs]; [done|].
        destruct (Z.eqb_spec (first_w (e :: hs)) NULL) as [En|_].
        { destruct (owns_head _ _ _ _ Hw) as [H1 _]. cbn in En. unfold NULL in En. lia. }
        cbn [tail]. rewrite Ht by done. unfold last_w. by rewrite last_cons_cons.
    + intros _. rewrite so_size0 by done. unfold pending. cbn. lia.
  - cbn [nodes app first_w]. unfold wb_of. cbn [e_b e_off e_data e_w].
    eapply owns_perm; [|apply owns_malloc; exact Hw]. rewrite Permutation_app_comm. done.
  - cbn [blocks map app dw_blocks] in *. unfold block_of at 1. cbn [e_b e_data].
    eapply owns_perm; [|exact Hm]. rewrite !(assoc_L (++)). by rewrite <- Permutation_middle.
Qed.

Lemma list_uncomplete_lemma l es s B off : list_ok l es → owns (ss_wbs s) B → (∀ x, x ∈ nodes es → x ∈ B) → offs_ok off es →
  list_uncomplete l s = Ok (negb (off =? 0), s).
Proof.
  intros [Hh _] Hw HB Hoff. unfold list_uncomplete. rewrite Hh. destruct es as [|e es]; cbn [first_w].
  { cbn in Hoff. by subst off. }
  destruct Hoff as (He & _ & _). assert (Hin : (e_w e, wb_of e (first_w es)) ∈ B) by (apply HB; by left).
  destruct (proj1 (proj2 Hw _ _) Hin) as [H0 _]. destruct (Z.eqb_spec (e_w e) NULL) as [E|_]; [unfold NULL in E; lia|].
  rewrite (sbind_ok _ _ _ _ _ (read_wb_lemma _ _ _ _ Hw Hin)). cbn [wb_ptr wb_buffer wb_of]. unfold mret, SM_ret. do 3 f_equal.
  destruct (Z.eqb_spec off 0) as [->|Hne]; [rewrite bool_decide_eq_true|rewrite bool_decide_eq_false]; rewrite He; [done|congruence].
Qed.

Lemma done_lemma s st ps W A : repr s st [] [] None 1 ps W A → st ≠ Dead →
  ∃ s' r, send_done i 1 s = Ok (r, s') ∧ repr s' (match st with Half => Dead | _ => st end) [] [] None 1 ps W A ∧
    (st = Half ∧ r.1 = SOCKET_CLOSE ∨ st = Open ∧ (r.1 = -1 ∨ r.1 = SOCKET_WARNING)).
Proof.
  intros Hr Hst. unfold send_done. rewrite get_bind. pose proof (re_sock _ _ _ _ _ _ _ _ _ _ _ Hr) as Hk.
  pose proof (so_high _ _ _ _ _ _ _ _ Hk) as [Hh _]. pose proof (so_low _ _ _ _ _ _ _ _ Hk) as [Hl _].
  pose proof (so_size _ _ _ _ _ _ _ _ Hk Hst) as Hsz. pose proof (so_type _ _ _ _ _ _ _ _ Hk) as Ht.
  assert (Ea : assertb (send_buffer_empty (slot_of s i) && (s_wb_size (slot_of s i) =? 0)) = Ok ())
    by (unfold send_buffer_empty; by rewrite Hh, Hl, Hsz).
  rewrite (lift_bind _ _ _ _ Ea), call_bind, Ht. pose proof (repr_call _ _ _ _ _ _ _ _ _ (SpWrite (s_fd (slot_of s i)) i false) Hr eq_refl) as Hr1.
  destruct st; [| |done].
  - change (type_of Open =? SOCKET_TYPE_HALFCLOSE) with false. cbv iota. destruct (s_warn_size (slot_of s i) >? 0).
    + rewrite (sbind_ok _ _ _ _ _ (upd_lemma _ _ _)). do 2 eexists. split; [reflexivity|]. split; [|right; split; [done|by right]].
      eapply repr_sock; [exact Hr1|done| |done|done]. rewrite slot_of_set.
      change (slot_of (set_os _ _ s) i) with (slot_of s i). destruct Hk. by split.
    + do 2 eexists. split; [reflexivity|]. split; [exact Hr1|]. right. split; [done|by left].
  - change (type_of Half =? SOCKET_TYPE_HALFCLOSE) with true. cbv iota.
    destruct (force_close_lemma _ _ _ _ _ _ _ _ _ 1 Hr1 Hst ltac:(by right)) as (s' & m & E & Hr2).
    rewrite (sbind_ok _ _ _ _ _ E). exists s', (SOCKET_CLOSE, m). split; [done|]. split; [done|]. by left.
Qed.

Lemma raise_lemma s st e ls ps W A : repr s st [] (e :: ls) None 1 ps W A → st ≠ Dead →
  ∃ s', raise_uncomplete i s = Ok ((), s') ∧ repr s' st [e] ls None 1 ps W A.
Proof.
  intros Hr Hst. unfold raise_uncomplete. rewrite get_bind. pose proof (re_sock _ _ _ _ _ _ _ _ _ _ _ Hr) as Hk.
  pose proof (so_high _ _ _ _ _ _ _ _ Hk) as [Hh _]. pose proof (so_low _ _ _ _ _ _ _ _ Hk) as [Hl Ht].
  destruct Hr as [_ Hw Hm Hp HW HA]. cbn [nodes app] in Hw. rewrite Hl, Hh. cbn [first_w].
  rewrite (sbind_ok _ _ _ _ _ (read_wb_lemma _ _ _ _ Hw ltac:(by left))). cbn [wb_next wb_of wb_buffer wb_ptr wb_sz wb_userobject wb_udp_address].
  rewrite (lift_bind _ _ _ _ (eq_refl : assertb (NULL =? NULL) = Ok ())).
  destruct (write_wb_lemma s _ _ (wb_of e NULL) _ Hw) as (ws & Ew & Hw'). unfold wb_of in Ew at 1.
  rewrite (sbind_ok _ _ _ _ _ Ew), upd_lemma. eexists. split; [reflexivity|]. split; try done.
  rewrite slot_of_set. change (slot_of (set_wbs ws s) i) with (slot_of s i). destruct Hk. split; cbn; try done.
  - destruct (Z.eqb_spec (first_w ls) NULL) as [E|E]; (split; cbn [head tail]; [done|]); intros Hne.
    + by rewrite (first_w_live _ _ ls Hw) in Hne by (done || by right).
    + rewrite Ht by done. unfold last_w. destruct ls; [done|]. by rewrite last_cons_cons.
  - intros _. rewrite so_size0 by done. unfold pending. cbn. lia.
Qed.
End Socket.
