(* ===== verification/SocketRefines.v ===== *)
(** A TCP socket refines its specification: every step of the code does to the slot, the
    memory, the pipe and the wire what the step of [SocketQueue] says, and an assertion of the
    code fails exactly where the specification has no step. *)

From S2P Require Import Prelude Chain Frames Locks SocketServer SocketPoll SocketQueue SocketMemory SocketStreams.
Open Scope Z_scope.

(** The queues of the specification are those of the slot. *)
Record matches (q : wq) (hs ls : list entry) (dw : dwrite) (ps : list pcmd) : Prop := {
  ma_high : q_high q = map e_data (requeued 0 dw hs);
  ma_low : q_low q = map e_data ls;
  ma_dw : q_dw q = bool_decide (dw ≠ None);
  ma_off : offs_ok (q_off q) (requeued 0 dw hs);
  ma_low_off : offs_ok 0 ls;
  ma_pipe : q_pipe q = map cmd_of ps;
  ma_dead : q_state q = Dead → hs = [] ∧ ls = [] ∧ dw = None
}.

#[export] Instance qstate_eq_dec : EqDecision qstate.
Proof. solve_decision. Defined.
#[export] Instance dwrite_eq_dec : EqDecision dwrite.
Proof. solve_decision. Defined.

(** The write buffers of a list whose last one is linked to [n]. *)
Fixpoint links (es : list entry) (n : Z) : list (Z * write_buffer) :=
  match es with
  | [] => []
  | e :: es => (e_w e, wb_of e (match es with [] => n | e' :: _ => e_w e' end)) :: links es n
  end.

Lemma nodes_snoc es e : nodes (es ++ [e]) = links es (e_w e) ++ [(e_w e, wb_of e NULL)].
Proof. induction es as [|e' es IH]; [done|]. cbn. rewrite IH. by destruct es. Qed.

Lemma links_snoc es t n : links (es ++ [t]) n = links es (e_w t) ++ [(e_w t, wb_of t n)].
Proof. induction es as [|e' es IH]; [done|]. cbn. rewrite IH. by destruct es. Qed.

Lemma requeued_app w dw hs e : requeued w dw (hs ++ [e]) = requeued w dw hs ++ [e].
Proof. by destruct dw as [[[]]|]. Qed.

Lemma requeued_nil w dw hs : requeued w dw hs = [] ↔ hs = [] ∧ dw = None.
Proof. destruct dw as [[[]]|]; cbn; (split; [|intros []]); done. Qed.

Lemma offs_ok_app off es e : offs_ok off es → e_off e = 0 → offs_ok off (es ++ [e]).
Proof.
  destruct es as [|e' es]; cbn; intros H He.
  - subst off. split; [done|]. split; [lia|done].
  - destruct H as (? & ? & ?). split; [done|]. split; [done|]. apply Forall_app. split; [done|]. by apply Forall_singleton.
Qed.

Lemma cut_app off es d : offs_ok off es →
  take (Z.to_nat off) (hd [] (map e_data es ++ [d])) = take (Z.to_nat off) (hd [] (map e_data es)).
Proof. destruct es; [|done]. cbn. by intros ->. Qed.

Section Socket.
Context (id fd : Z).
Notation i := (HASH_ID id).
Notation repr := (repr id fd).
Notation repr2 := (repr2 id fd).

Definition sim_at (lk : Z) (s : server) (q : wq) : Prop :=
  ∃ hs ls dw ps A, repr s (q_state q) hs ls dw lk ps (spec_wire q) A ∧ matches q hs ls dw ps.

Definition sim : server → wq → Prop := sim_at 0.

(** ** The socket is writable *)

Lemma head_null hi s st es os dw lk ps W A : repr2 hi s st es os dw lk ps W A →
  (head (list_of hi (slot_of s i)) =? NULL) = bool_decide (es = []).
Proof.
  intros Hr. destruct (r2_list _ _ _ _ _ _ _ _ _ _ _ _ Hr) as [-> _]. pose proof (r2_wbs _ _ _ _ _ _ _ _ _ _ _ _ Hr) as Hw.
  destruct es as [|e es]; [done|]. cbn [nodes app first_w] in *. destruct (owns_head _ _ _ _ Hw) as [H0 _].
  destruct (Z.eqb_spec (e_w e) NULL) as [E|_]; [unfold NULL in E; lia|done].
Qed.

Lemma repr_empty s st hs ls dw lk ps W A : repr s st hs ls dw lk ps W A →
  send_buffer_empty (slot_of s i) = bool_decide (hs = []) && bool_decide (ls = []).
Proof.
  intros Hr. unfold send_buffer_empty. pose proof (proj2 (repr2_iff id fd true s st hs ls dw lk ps W A) Hr) as Hh.
  pose proof (proj2 (repr2_iff id fd false s st ls hs dw lk ps W A) Hr) as Hl.
  f_equal; [exact (head_null _ _ _ _ _ _ _ _ _ _ Hh)|exact (head_null _ _ _ _ _ _ _ _ _ _ Hl)].
Qed.

Lemma send_list_lemma hi s st es os dw ps off W A C : st ≠ Dead → repr2 hi s st es os dw 1 ps W A → offs_ok off es →
  W = C ++ take (Z.to_nat off) (hd [] (map e_data es)) →
  let F := flush (map e_data es) off A in
  let W' := C ++ concat (f_done F) ++ cut_of F in
  if f_broken F then
    ∃ s' m, send_list i hi 1 s = Ok ((SOCKET_CLOSE, m), s') ∧ repr s' Dead [] [] None 1 ps W' (f_ans F)
  else
    ∃ s' es', send_list i hi 1 s = Ok (ignore, s') ∧ repr2 hi s' st es' os dw 1 ps W' (f_ans F) ∧
      map e_data es' = f_rest F ∧ offs_ok (f_off F) es'.
Proof.
  intros Hst Hr Hoff HW. unfold send_list. rewrite !get_bind.
  assert (Htcp : s_protocol (slot_of s i) = PROTOCOL_TCP) by (apply (so_tcp _ _ _ _ _ _ _ _ (r2_sock _ _ _ _ _ _ _ _ _ _ _ _ Hr))).
  rewrite Htcp. change (PROTOCOL_TCP =? PROTOCOL_TCP) with true. cbv iota. unfold send_list_tcp. rewrite gets_bind.
  apply (flush_queue_lemma id fd hi st os dw ps es _ s off W A C); try done.
  pose proof (owns_length _ _ (r2_wbs _ _ _ _ _ _ _ _ _ _ _ _ Hr)) as Hlen. rewrite length_app, !nodes_length in Hlen. lia.
Qed.

(** What [send_buffer] returns. *)
Definition report_ok (q : wq) (r : report) : Prop :=
  match q_state q with Dead => r.1 = SOCKET_CLOSE | _ => r.1 = -1 ∨ r.1 = SOCKET_WARNING end.

(** A step of the code that may write: it is that of the specification. *)
Definition step_ok (lk : Z) (x : res (report * server)) (o : option wq) : Prop :=
  match o with
  | None => x = Fault AssertFailed
  | Some q' => ∃ s' r, x = Ok (r, s') ∧ sim_at lk s' q' ∧ report_ok q' r
  end.

Lemma sim_dead lk s q done rest cut ps W A : repr s Dead [] [] None lk ps W A → q_pipe q = map cmd_of ps →
  W = concat done ++ cut → sim_at lk s (spec_dead q done rest cut).
Proof. intros Hr Hp ->. exists [], [], None, ps, A. by split. Qed.

(** Nothing is left. *)
Lemma finish_lemma s q done ps W A : repr s (q_state q) [] [] None 1 ps W A → q_state q ≠ Dead → q_pipe q = map cmd_of ps →
  W = concat done → step_ok 1 (send_done i 1 s) (Some (spec_finish q done)).
Proof.
  intros Hr Hst Hp HW. destruct (done_lemma _ _ _ _ _ _ _ Hr Hst) as (s' & r & E & Hr' & Hres). exists s', r.
  split; [done|]. unfold spec_finish, report_ok. destruct (q_state q) eqn:Eq; [| |done].
  - split; [|cbn; destruct Hres as [[? _]|[_ ?]]; done]. exists [], [], None, ps, A. split; [|by split].
    unfold spec_wire. cbn. by rewrite app_nil_r, <- HW.
  - split; [|cbn; destruct Hres as [[_ ?]|[? _]]; done]. eapply sim_dead; [exact Hr'|done|]. by rewrite app_nil_r.
Qed.

(** The low list, when the high list is empty. *)
Lemma low_lemma s q ls done ps W A : repr s (q_state q) [] ls None 1 ps W A → q_state q ≠ Dead → q_pipe q = map cmd_of ps →
  offs_ok 0 ls → W = concat done → q_low q = map e_data ls →
  step_ok 1 (send_low i 1 s)
    match q_low q with
    | [] => Some (spec_finish q done)
    | _ =>
        let g := flush (q_low q) 0 A in
        let done := done ++ f_done g in
        if f_broken g then Some (spec_dead q done (f_rest g) (cut_of g))
        else
          match f_rest g with
          | [] => Some (spec_finish q done)
          | d :: rest =>
              if f_off g =? 0 then None
              else Some (WQ (q_state q) done false (f_off g) [d] rest (q_pipe q) (q_dropped q) (q_cut q))
          end
    end.
Proof.
  intros Hr Hst Hp Hoff HW Hlow. unfold send_low. rewrite get_bind.
  pose proof (proj2 (repr2_iff id fd false _ _ _ _ _ _ _ _ _) Hr) as Hr2.
  pose proof (head_null _ _ _ _ _ _ _ _ _ _ Hr2) as Eh. cbn [list_of] in Eh. rewrite Eh, Hlow.
  destruct ls as [|e ls]; [by eapply finish_lemma|]. rewrite bool_decide_eq_false_2 by done. cbn [negb].
  assert (HW0 : W = concat done ++ take (Z.to_nat 0) (hd [] (map e_data (e :: ls)))) by (by rewrite app_nil_r).
  pose proof (send_list_lemma false _ _ _ _ _ _ _ _ _ _ Hst Hr2 Hoff HW0) as Hsend. cbv zeta in *.
  set (g := flush (map e_data (e :: ls)) 0 A) in *. clearbody g.
  cbn [map].
  destruct (f_broken g).
  - destruct Hsend as (s' & m & E & Hr'). rewrite (sbind_ok _ _ _ _ _ E). exists s', (SOCKET_CLOSE, m). split; [done|].
    split; [|done]. eapply sim_dead; [exact Hr'|done|]. by rewrite concat_app, (assoc_L (++)).
  - destruct Hsend as (s' & es' & E & Hr' & Hdata & Hoff'). rewrite (sbind_ok _ _ _ _ _ E).
    change ((ignore).1 =? SOCKET_CLOSE) with false. cbv iota. rewrite get_bind.
    pose proof (r2_list _ _ _ _ _ _ _ _ _ _ _ _ Hr') as Hlist. pose proof (r2_wbs _ _ _ _ _ _ _ _ _ _ _ _ Hr') as Hw'.
    assert (Hin : ∀ x, x ∈ nodes es' → x ∈ nodes es' ++ nodes []) by (intros x Hx; apply elem_of_app; by left).
    rewrite (sbind_ok _ _ _ _ _ (list_uncomplete_lemma _ _ _ _ _ Hlist Hw' Hin Hoff')).
    pose proof (proj1 (repr2_iff _ _ _ _ _ _ _ _ _ _ _ _) Hr') as Hr1. cbv iota in Hr1.
    unfold cut_of in Hr1. rewrite <- Hdata in Hr1 |- *. destruct es' as [|e' es']; cbn [map].
    + cbn in Hoff'. rewrite Hoff' in *. cbn [negb Z.eqb] in *. eapply finish_lemma; try done.
      by rewrite concat_app, app_nil_r.
    + destruct (Z.eqb_spec (f_off g) 0) as [E0|Hne]; cbn [negb].
      * unfold send_done. rewrite get_bind, (repr_empty _ _ _ _ _ _ _ _ _ Hr1). done.
      * destruct (raise_lemma _ _ _ _ _ _ _ _ _ Hr1 Hst) as (s2 & E2 & Hr3). rewrite (sbind_ok _ _ _ _ _ E2).
        exists s2, ignore. split; [done|]. split; [|cbn; destruct (q_state q); (done || by left)].
        exists [e'], es', None, ps, (f_ans g). split.
        -- unfold spec_wire. cbn [q_state q_done q_off q_high hd] in *. rewrite concat_app, <- (assoc_L (++)).
           destruct (q_state q); done.
        -- split; cbn; try done. ++ destruct Hoff' as (? & ? & ?). by split. ++ apply offs_ok_zero. by destruct Hoff' as (_ & _ & ?).
Qed.

Lemma send_buffer__lemma s q hs ls ps A : repr s (q_state q) hs ls None 1 ps (spec_wire q) A → q_state q ≠ Dead →
  matches q hs ls None ps → step_ok 1 (send_buffer_ i 1 s) (spec_write A q).
Proof.
  intros Hr Hst [Hhigh Hlow _ Hoff Hlo Hp _]. cbn [requeued] in *. unfold send_buffer_. rewrite get_bind.
  pose proof (r2_list _ _ _ _ _ _ _ _ _ _ _ _ (proj2 (repr2_iff id fd false _ _ _ _ _ _ _ _ _) Hr)) as Hll. cbn [list_of] in Hll.
  assert (Hin : ∀ x, x ∈ nodes ls → x ∈ nodes hs ++ nodes ls) by (intros x Hx; apply elem_of_app; by right).
  rewrite (sbind_ok _ _ _ _ _ (list_uncomplete_lemma _ _ _ _ _ Hll (re_wbs _ _ _ _ _ _ _ _ _ _ _ Hr) Hin Hlo)).
  rewrite (lift_bind _ _ _ _ (eq_refl : assertb (negb (negb (0 =? 0))) = Ok ())).
  pose proof (proj2 (repr2_iff id fd true _ _ _ _ _ _ _ _ _) Hr) as Hr2.
  assert (HW : spec_wire q = concat (q_done q) ++ take (Z.to_nat (q_off q)) (hd [] (map e_data hs)))
    by (unfold spec_wire; rewrite Hhigh; by destruct (q_state q)).
  pose proof (send_list_lemma true _ _ _ _ _ _ _ _ _ _ Hst Hr2 Hoff HW) as Hsend. cbv zeta in Hsend.
  unfold spec_write. rewrite Hhigh. set (f := flush (map e_data hs) (q_off q) A) in *. clearbody f. cbv zeta. destruct (f_broken f).
  - destruct Hsend as (s' & m & E & Hr'). rewrite (sbind_ok _ _ _ _ _ E). exists s', (SOCKET_CLOSE, m). split; [done|].
    split; [|done]. eapply sim_dead; [exact Hr'|done|]. by rewrite concat_app, (assoc_L (++)).
  - destruct Hsend as (s' & es' & E & Hr' & Hdata & Hoff'). rewrite (sbind_ok _ _ _ _ _ E).
    change ((ignore).1 =? SOCKET_CLOSE) with false. cbv iota. rewrite get_bind.
    pose proof (head_null _ _ _ _ _ _ _ _ _ _ Hr') as Eh. cbn [list_of] in Eh. rewrite Eh.
    pose proof (proj1 (repr2_iff _ _ _ _ _ _ _ _ _ _ _ _) Hr') as Hr1. cbv iota in Hr1.
    unfold cut_of in Hr1. rewrite <- Hdata in Hr1 |- *. destruct es' as [|e' es']; cbn [map].
    + rewrite bool_decide_eq_true_2 by done. cbn in Hoff'. rewrite Hoff' in Hr1. cbn [hd map Z.to_nat take] in Hr1.
      rewrite app_nil_r, <- concat_app in Hr1. exact (low_lemma _ _ _ _ _ _ _ Hr1 Hst Hp Hlo eq_refl Hlow).
    + rewrite bool_decide_eq_false_2 by done. exists s', ignore. split; [done|].
      split; [|cbn; destruct (q_state q); (done || by left)]. exists (e' :: es'), ls, None, ps, (f_ans f). split.
      * unfold spec_wire. cbn [q_state q_done q_off q_high hd map] in *. rewrite concat_app, <- (assoc_L (++)). by destruct (q_state q).
      * split; cbn; done.
Qed.

(** [send_buffer], with the lock free. *)
Lemma requeued_data w w' dw hs : map e_data (requeued w dw hs) = map e_data (requeued w' dw hs).
Proof. by destruct dw as [[[]]|]. Qed.

Lemma requeued_offs w w' off dw hs : offs_ok off (requeued w dw hs) → offs_ok off (requeued w' dw hs).
Proof. by destruct dw as [[[]]|]. Qed.

Lemma trylock_lemma s st hs ls dw ps W A : repr s st hs ls dw 0 ps W A →
  ∃ s', socket_trylock i 0 s = Ok (Some 1, s') ∧ repr s' st hs ls dw 1 ps W A.
Proof.
  intros Hr. unfold socket_trylock. change (0 =? 0) with true. cbv iota. rewrite get_bind. pose proof (re_sock _ _ _ _ _ _ _ _ _ _ _ Hr) as Hk.
  rewrite (so_lock _ _ _ _ _ _ _ _ Hk). eexists. split; [reflexivity|]. eapply repr_sock; [exact Hr|done| |done|done].
  rewrite slot_of_set. destruct Hk. by split.
Qed.

Lemma unlock_lemma s st hs ls dw ps W A : repr s st hs ls dw 1 ps W A →
  ∃ s', socket_unlock i 1 s = Ok ((), s') ∧ repr s' st hs ls dw 0 ps W A.
Proof.
  intros Hr. pose proof (re_sock _ _ _ _ _ _ _ _ _ _ _ Hr) as Hk.
  destruct (unlock_core id s 1 (so_lock _ _ _ _ _ _ _ _ Hk) ltac:(by left)) as (s' & E & Es & Hrest).
  exists s'. split; [done|]. eapply repr_sock; [exact Hr|done| |done|done]. rewrite Es. destruct Hk. by split.
Qed.

Lemma spec_write_dw A q : spec_write A (WQ (q_state q) (q_done q) false (q_off q) (q_high q) (q_low q) (q_pipe q) (q_dropped q) (q_cut q)) =
  spec_write A q.
Proof. done. Qed.

Lemma send_buffer_lemma s q hs ls dw ps A : repr s (q_state q) hs ls dw 0 ps (spec_wire q) A → q_state q ≠ Dead →
  matches q hs ls dw ps → step_ok 0 (send_buffer i 0 s) (spec_write A q).
Proof.
  intros Hr Hst [Hhigh Hlow _ Hoff Hlo Hp _]. unfold send_buffer.
  destruct (trylock_lemma _ _ _ _ _ _ _ _ Hr) as (s1 & E1 & Hr1). rewrite (sbind_ok _ _ _ _ _ E1).
  destruct (requeue_lemma _ _ _ _ _ _ _ _ _ _ Hr1 Hst) as (s2 & w & E2 & Hr2). rewrite (sbind_ok _ _ _ _ _ E2).
  set (q' := WQ (q_state q) (q_done q) false (q_off q) (q_high q) (q_low q) (q_pipe q) (q_dropped q) (q_cut q)).
  assert (Hm : matches q' (requeued w dw hs) ls None ps).
  { split; cbn; try done; [rewrite Hhigh; apply requeued_data|by eapply requeued_offs]. }
  pose proof (send_buffer__lemma s2 q' _ _ _ _ Hr2 Hst Hm) as Hstep. rewrite <- spec_write_dw. fold q'.
  destruct (spec_write A q') as [q2|]; cbn [step_ok] in *.
  - destruct Hstep as (s3 & r & E3 & (hs3 & ls3 & dw3 & ps3 & A3 & Hr3 & Hm3) & Hrep). rewrite (sbind_ok _ _ _ _ _ E3).
    destruct (unlock_lemma _ _ _ _ _ _ _ _ Hr3) as (s4 & E4 & Hr4). rewrite (sbind_ok _ _ _ _ _ E4).
    exists s4, r. split; [done|]. split; [|done]. by exists hs3, ls3, dw3, ps3, A3.
  - unfold mbind, SM_bind. by rewrite Hstep.
Qed.

(** ** A payload that is in no list yet *)

(** The block [b] with the payload [d] is live, and nothing refers to it; [es] is the list
    [hi]. *)
Record held (hi : bool) (s : server) (st : qstate) (es os : list entry) (dw : dwrite) (lk : Z) (ps : list pcmd)
    (W : list Z) (A : list answer) (b : Z) (d : payload) : Prop := {
  he_sock : sock_ok id fd (slot_of s i) st (if hi then es else os) (if hi then os else es) dw lk;
  he_wbs : owns (ss_wbs s) (nodes es ++ nodes os);
  he_mem : owns (ss_mem s) ((b, d) :: blocks es ++ blocks os ++ dw_blocks dw ++ pipe_blocks ps);
  he_pipe : ss_pipe s = map (req_of id) ps;
  he_wire : wire fd (ss_calls s) = W;
  he_ans : ss_answers s = A
}.

Lemma held_pop high hi s st es os dw lk ps W A b d : repr2 hi s st es os dw lk (PData high b d :: ps) W A →
  held hi (set_pipe (map (req_of id) ps) s) st es os dw lk ps W A b d.
Proof.
  intros [Hk Hw Hm Hp HW HA]. split; try done. cbn [set_pipe ss_mem]. eapply owns_perm; [|exact Hm].
  cbn [pipe_blocks omap list_omap]. rewrite !(assoc_L (++)). symmetry. apply Permutation_middle.
Qed.

Lemma held_malloc hi s st es os dw lk ps W A d : repr2 hi s st es os dw lk ps W A →
  ∃ s' b, malloc_mem d s = Ok (b, s') ∧ held hi s' st es os dw lk ps W A b d.
Proof.
  intros [Hk Hw Hm Hp HW HA]. do 2 eexists. split; [reflexivity|]. split; try done. cbn [set_mem ss_mem].
  eapply owns_perm; [|by apply owns_malloc]. rewrite Permutation_app_comm. done.
Qed.

Lemma held_free hi s st es os dw lk ps W A b d : held hi s st es os dw lk ps W A b d →
  ∃ s', free_buffer b (Z.of_nat (length d)) s = Ok ((), s') ∧ FREE b s = Ok ((), s') ∧ repr2 hi s' st es os dw lk ps W A.
Proof.
  intros [Hk Hw Hm Hp HW HA]. destruct (FREE_lemma _ _ _ _ Hm) as (s' & E & -> & Hm'). eexists. split; [|split; [exact E|by split]].
  unfold free_buffer, send_object_init. destruct (Z.ltb_spec (Z.of_nat (length d)) 0); [lia|]. rewrite ret_bind. exact E.
Qed.

Lemma held_request high hi s st es os dw lk ps W A b d : held hi s st es os dw lk ps W A b d →
  ∃ s', send_request (req_of id (PData high b d)) s = Ok ((), s') ∧ repr2 hi s' st es os dw lk (ps ++ [PData high b d]) W A.
Proof.
  intros [Hk Hw Hm Hp HW HA]. eexists. split; [reflexivity|]. split; try done; cbn [set_pipe ss_mem ss_pipe].
  - eapply owns_perm; [|exact Hm]. unfold pipe_blocks. rewrite omap_app. cbn. rewrite Permutation_cons_append, !(assoc_L (++)). done.
  - by rewrite Hp, map_app.
Qed.

Lemma append_core l es s B b d : list_ok l es → owns (ss_wbs s) (nodes es ++ B) →
  ∃ w l' ws, append_sendbuffer_ l b (Z.of_nat (length d)) [] s = Ok ((l', Z.of_nat (length d)), set_wbs ws s) ∧
    list_ok l' (es ++ [Entry w b 0 d]) ∧ owns ws (nodes (es ++ [Entry w b 0 d]) ++ B).
Proof.
  intros [Hh Ht] Hw. unfold append_sendbuffer_, send_object_init. destruct (Z.ltb_spec (Z.of_nat (length d)) 0); [lia|].
  rewrite ret_bind. cbv beta iota zeta. cbn [so_sz so_buffer]. rewrite malloc_bind. set (w := Z.of_nat (length (ss_wbs s))).
  set (e := Entry w b 0 d). assert (Ewb : WriteBuffer NULL b (b, 0) (Z.of_nat (length d)) false [] = wb_of e NULL)
    by (unfold wb_of; cbn; f_equal; lia). rewrite Ewb.
  pose proof (owns_malloc _ _ (wb_of e NULL) Hw) as Hw'. fold w in Hw'. exists w. rewrite Hh.
  destruct es as [|t es _] using rev_ind.
  - cbn [first_w]. rewrite Z.eqb_refl. exists (WbList w w), (ss_wbs s ++ [Some (wb_of e NULL)]). split; [done|].
    split; [done|]. cbn [app nodes] in *. eapply owns_perm; [|exact Hw']. rewrite Permutation_app_comm. done.
  - assert (Hne : (first_w (es ++ [t]) =? NULL) = false).
    { apply Z.eqb_neq. intros E. by apply (first_w_live _ _ _ Hw) in E; [destruct es|set_solver]. }
    rewrite Hne. rewrite Ht by (by destruct es). unfold last_w. rewrite last_snoc. rewrite nodes_snoc in Hw'.
    assert (Hw2 : owns (ss_wbs s ++ [Some (wb_of e NULL)]) ((e_w t, wb_of t NULL) :: links es (e_w t) ++ B ++ [(w, wb_of e NULL)])).
    { eapply owns_perm; [|exact Hw']. rewrite <- !(assoc_L (++)). cbn. symmetry. apply Permutation_middle. }
    destruct (owns_head _ _ _ _ Hw2) as [H0 _].
    assert (Ea : assertb (negb (e_w t =? NULL)) = Ok ()) by (destruct (Z.eqb_spec (e_w t) NULL); [unfold NULL in *; lia|done]).
    rewrite (lift_bind _ _ _ _ Ea). set (s1 := set_wbs (ss_wbs s ++ [Some (wb_of e NULL)]) s).
    rewrite (sbind_ok _ _ _ _ _ (read_wb_lemma s1 _ _ _ Hw2 ltac:(by left))).
    rewrite (lift_bind _ _ _ _ (eq_refl : assertb (NULL =? NULL) = Ok ())).
    destruct (write_wb_lemma s1 _ _ (wb_of t w) _ Hw2) as (ws & Ew & Hw3). unfold wb_of in Ew.
    cbn [wb_next wb_of wb_buffer wb_ptr wb_sz wb_userobject wb_udp_address]. rewrite (sbind_ok _ _ _ _ _ Ew).
    exists (WbList (first_w (es ++ [t])) w), ws. split; [done|]. split.
    + split; cbn [head tail]; [by destruct es|]. intros _. unfold last_w. by rewrite last_snoc.
    + rewrite nodes_snoc, links_snoc. change (e_w e) with w. eapply owns_perm; [|exact Hw3].
      rewrite (Permutation_app_comm B), <- !(assoc_L (++)). cbn. apply Permutation_middle.
Qed.

Lemma held_append hi s st es os dw lk ps W A b d : held hi s st es os dw lk ps W A b d →
  ∃ s' w, append_to i hi b (Z.of_nat (length d)) [] s = Ok ((), s') ∧
    repr2 hi s' st (es ++ [Entry w b 0 d]) os dw lk ps W A.
Proof.
  intros [Hk Hw Hm Hp HW HA]. unfold append_to. rewrite get_bind.
  assert (Hl : list_ok (list_of hi (slot_of s i)) es) by (destruct Hk; by destruct hi).
  destruct (append_core _ _ _ _ b d Hl Hw) as (w & l' & ws & E & Hl' & Hw'). rewrite (sbind_ok _ _ _ _ _ E), upd_lemma.
  eexists _, w. split; [reflexivity|]. split; try done.
  - rewrite slot_of_set. change (slot_of (set_wbs ws s) i) with (slot_of s i). set (k := slot_of s i) in *.
    replace (with_wb_size (s_wb_size k + Z.of_nat (length d)) (with_list hi l' k)) with
      (with_list hi l' (with_wb_size (s_wb_size k + Z.of_nat (length d)) k)) by (by destruct hi).
    eapply sock_list; [exact Hk|exact Hl'|]. intros Hst. rewrite (so_size _ _ _ _ _ _ _ _ Hk Hst), pending_app.
    destruct hi; cbn; lia.
  - cbn [set_slot set_wbs ss_mem]. unfold blocks. rewrite map_app. cbn [map block_of e_b e_data].
    eapply owns_perm; [|exact Hm]. rewrite <- (assoc_L (++)). cbn. apply Permutation_middle.
Qed.

(** ** Commands *)

Lemma warning_lemma s st hs ls dw lk ps W A : repr s st hs ls dw lk ps W A →
  ∃ s' r, send_warning i s = Ok (r, s') ∧ repr s' st hs ls dw lk ps W A.
Proof.
  intros Hr. unfold send_warning. rewrite get_bind.
  destruct ((s_wb_size (slot_of s i) >=? WARNING_SIZE) && (s_wb_size (slot_of s i) >=? s_warn_size (slot_of s i))).
  - do 2 eexists. split; [reflexivity|]. eapply repr_sock; [exact Hr|done| |done|done]. rewrite slot_of_set.
    destruct (re_sock _ _ _ _ _ _ _ _ _ _ _ Hr). by split.
  - by exists s, ignore.
Qed.

Lemma matches_high q hs ls dw ps e : matches q hs ls dw ps → q_state q = Open → e_off e = 0 →
  let q' := WQ Open (q_done q) (q_dw q) (q_off q) (q_high q ++ [e_data e]) (q_low q) (q_pipe q) (q_dropped q) (q_cut q) in
  matches q' (hs ++ [e]) ls dw ps ∧ spec_wire q' = spec_wire q.
Proof.
  intros [Hh Hl Hd Ho Hlo Hp _] Hst He. split.
  - split; cbn; try done.
    + by rewrite requeued_app, map_app, <- Hh.
    + rewrite requeued_app. by apply offs_ok_app.
  - unfold spec_wire. cbn. rewrite Hst, Hh. by rewrite cut_app.
Qed.

Lemma matches_low q hs ls dw ps e : matches q hs ls dw ps → q_state q = Open → e_off e = 0 →
  let q' := WQ Open (q_done q) (q_dw q) (q_off q) (q_high q) (q_low q ++ [e_data e]) (q_pipe q) (q_dropped q) (q_cut q) in
  matches q' hs (ls ++ [e]) dw ps ∧ spec_wire q' = spec_wire q.
Proof.
  intros [Hh Hl Hd Ho Hlo Hp _] Hst He. split.
  - split; cbn; try done.
    + by rewrite map_app, <- Hl.
    + by apply offs_ok_app.
  - unfold spec_wire. cbn. by rewrite Hst.
Qed.

Lemma matches_drop q hs ls dw ps d : matches q hs ls dw ps →
  let q' := WQ (q_state q) (q_done q) (q_dw q) (q_off q) (q_high q) (q_low q) (q_pipe q) (q_dropped q ++ [d]) (q_cut q) in
  matches q' hs ls dw ps ∧ spec_wire q' = spec_wire q.
Proof. intros [Hh Hl Hd Ho Hlo Hp Hde]. by split. Qed.

(** The lists without the direct write. *)
Lemma matches_listed q hs ls dw ps : matches q hs ls dw ps →
  bool_decide ((if q_dw q then tl (q_high q) else q_high q) = []) && bool_decide (q_low q = []) =
  bool_decide (hs = []) && bool_decide (ls = []).
Proof.
  intros [Hh Hl Hd _ _ _ _]. rewrite Hh, Hl, Hd. f_equal.
  - destruct dw as [[[]]|]; cbn; by destruct hs.
  - by destruct ls.
Qed.

Lemma append_sim hi high s q es os dw ps A b d :
  held hi s (q_state q) es os dw 0 ps (spec_wire q) A b d → q_state q = Open →
  matches q (if hi then es else os) (if hi then os else es) dw ps →
  high || bool_decide ((if hi then es else os) = []) && bool_decide ((if hi then os else es) = []) = hi →
  ∃ s', append_to i hi b (Z.of_nat (length d)) [] s = Ok ((), s') ∧ sim s' (spec_append high d q) ∧ q_state (spec_append high d q) = Open.
Proof.
  intros Hh Hst Hm Ehi. destruct (held_append _ _ _ _ _ _ _ _ _ _ _ _ Hh) as (s' & w & E & Hr). exists s'. split; [done|].
  unfold spec_append. rewrite Hst, (matches_listed _ _ _ _ _ Hm).
  rewrite Ehi. apply repr2_iff in Hr. destruct hi; (split; [|done]).
  - destruct (matches_high _ _ _ _ _ (Entry w b 0 d) Hm Hst eq_refl) as [Hm' HW]. do 5 eexists.
    split; [|exact Hm']. cbn [e_data] in HW. rewrite HW. cbn [q_state]. rewrite <- Hst. exact Hr.
  - destruct (matches_low _ _ _ _ _ (Entry w b 0 d) Hm Hst eq_refl) as [Hm' HW]. do 5 eexists.
    split; [|exact Hm']. cbn [e_data] in HW. rewrite HW. cbn [q_state]. rewrite <- Hst. exact Hr.
Qed.

Lemma held_flip hi s st es os dw lk ps W A b d : held hi s st es os dw lk ps W A b d → held (negb hi) s st os es dw lk ps W A b d.
Proof.
  intros [Hk Hw Hm Hp HW HA]. split; try done; [by destruct hi|eapply owns_perm; [|exact Hw]; apply Permutation_app_comm|].
  eapply owns_perm; [|exact Hm]. rewrite !(assoc_L (++)). f_equiv. do 2 apply Permutation_app_tail. apply Permutation_app_comm.
Qed.

Lemma held_type s st hs ls dw lk ps W A b d : held true s st hs ls dw lk ps W A b d →
  s_type (slot_of s i) = type_of st ∧ s_id (slot_of s i) = id ∧ s_protocol (slot_of s i) = PROTOCOL_TCP ∧
  send_buffer_empty (slot_of s i) = bool_decide (hs = []) && bool_decide (ls = []).
Proof.
  intros [[] Hw Hm Hp HW HA]. split; [done|]. split; [done|]. split; [done|].
  unfold send_buffer_empty. rewrite (proj1 so_high), (proj1 so_low).
  assert (Hnull : ∀ es, (∀ x, x ∈ nodes es → x ∈ nodes hs ++ nodes ls) → (first_w es =? NULL) = bool_decide (es = [])).
  { intros es Hin. destruct (Z.eqb_spec (first_w es) NULL) as [E|E]; symmetry; [apply bool_decide_eq_true|apply bool_decide_eq_false].
    - by eapply first_w_live. - by intros ->. }
  rewrite !Hnull; [done|..]; intros x Hx; apply elem_of_app; auto.
Qed.

Lemma repr_call' s st hs ls dw lk ps W A c : repr s st hs ls dw lk ps W A → wire fd [c] = [] →
  ∃ s', (∀ X (K : SM server X), (_ ← os_call c; K) s = K s') ∧ repr s' st hs ls dw lk ps W A.
Proof. intros Hr Hc. eexists. split; [intros X K; apply call_bind|]. by apply repr_call. Qed.

Lemma warning_sim s q : sim s q → ∃ s' r, send_warning i s = Ok (r, s') ∧ sim s' q.
Proof.
  intros (hs & ls & dw & ps & A & Hr & Hm). destruct (warning_lemma _ _ _ _ _ _ _ _ _ Hr) as (s' & r & E & Hr').
  exists s', r. split; [done|]. by exists hs, ls, dw, ps, A.
Qed.

Lemma call_sim s q c : sim s q → wire fd [c] = [] → sim (set_os (ss_answers s) (ss_calls s ++ [c]) s) q.
Proof. intros (hs & ls & dw & ps & A & Hr & Hm) Hc. exists hs, ls, dw, ps, A. split; [by apply repr_call|done]. Qed.

Definition priority_of (high : bool) : Z := if high then PRIORITY_HIGH else PRIORITY_LOW.

Lemma free_sim hi s q es os dw ps A b d :
  held hi s (q_state q) es os dw 0 ps (spec_wire q) A b d →
  matches q (if hi then es else os) (if hi then os else es) dw ps →
  ∃ s', free_buffer b (Z.of_nat (length d)) s = Ok ((), s') ∧ FREE b s = Ok ((), s') ∧
    sim s' (WQ (q_state q) (q_done q) (q_dw q) (q_off q) (q_high q) (q_low q) (q_pipe q) (q_dropped q ++ [d]) (q_cut q)).
Proof.
  intros Hh Hm. destruct (held_free _ _ _ _ _ _ _ _ _ _ _ _ Hh) as (s' & E & E' & Hr). exists s'. split; [done|]. split; [done|].
  apply repr2_iff in Hr. destruct (matches_drop _ _ _ _ _ d Hm) as [Hm' HW]. do 5 eexists. split; [|exact Hm']. by rewrite HW.
Qed.

Lemma send_socket_sim high s q hs ls dw ps A b d :
  held true s (q_state q) hs ls dw 0 ps (spec_wire q) A b d → matches q hs ls dw ps →
  ∃ s' r, send_socket id (Z.of_nat (length d)) b (priority_of high) None s = Ok (r, s') ∧ sim s' (spec_append high d q).
Proof.
  intros Hh Hm. destruct (held_type _ _ _ _ _ _ _ _ _ _ _ Hh) as (Et & Ei & Ep & Ee). unfold send_socket. rewrite get_bind.
  unfold send_object_init at 1. destruct (Z.ltb_spec (Z.of_nat (length d)) 0); [lia|]. rewrite ret_bind. cbv beta iota.
  cbn [so_free_func run_free]. rewrite Et, Ei, Ep, Ee, Z.eqb_refl. destruct (q_state q) eqn:Hst.
  - change (type_of Open) with SOCKET_TYPE_CONNECTED.
    change ((SOCKET_TYPE_CONNECTED =? SOCKET_TYPE_INVALID) || negb true || (SOCKET_TYPE_CONNECTED =? SOCKET_TYPE_HALFCLOSE) || (SOCKET_TYPE_CONNECTED =? SOCKET_TYPE_PACCEPT)) with false.
    change ((SOCKET_TYPE_CONNECTED =? SOCKET_TYPE_PLISTEN) || (SOCKET_TYPE_CONNECTED =? SOCKET_TYPE_LISTEN)) with false.
    change (PROTOCOL_TCP =? PROTOCOL_TCP) with true. rewrite Z.eqb_refl, andb_true_r. cbv iota. rewrite <- Hst in Hh.
    destruct (bool_decide (hs = []) && bool_decide (ls = [])) eqn:Eempty.
    + destruct (append_sim true high s q hs ls dw ps A b d Hh Hst Hm) as (s1 & E1 & Hs1 & _); [by rewrite Eempty, orb_true_r|].
      rewrite (sbind_ok _ _ s false s1) by (unfold append_sendbuffer; by rewrite (sbind_ok _ _ _ _ _ E1)). cbv iota. rewrite call_bind.
      apply (warning_sim _ _ (call_sim _ _ (SpWrite (s_fd (slot_of s i)) i true) Hs1 eq_refl)).
    + destruct high.
      * change (priority_of true =? PRIORITY_LOW) with false. cbv iota.
        destruct (append_sim true true s q hs ls dw ps A b d Hh Hst Hm eq_refl) as (s1 & E1 & Hs1 & _).
        unfold append_sendbuffer. rewrite (sbind_ok _ _ _ _ _ E1). by apply warning_sim.
      * change (priority_of false =? PRIORITY_LOW) with true. cbv iota.
        destruct (append_sim false false s q ls hs dw ps A b d (held_flip true _ _ _ _ _ _ _ _ _ _ _ Hh) Hst Hm) as (s1 & E1 & Hs1 & _); [done|].
        unfold append_sendbuffer_low. rewrite (sbind_ok _ _ _ _ _ E1). by apply warning_sim.
  - change ((type_of Half =? SOCKET_TYPE_INVALID) || negb true || (type_of Half =? SOCKET_TYPE_HALFCLOSE) || (type_of Half =? SOCKET_TYPE_PACCEPT)) with true.
    rewrite <- Hst in Hh. destruct (free_sim true _ _ _ _ _ _ _ _ _ Hh Hm) as (s1 & _ & E1 & Hs1). cbv iota. rewrite (sbind_ok _ _ _ _ _ E1).
    exists s1, ignore. split; [done|]. unfold spec_append. rewrite Hst in *. exact Hs1.
  - change ((type_of Dead =? SOCKET_TYPE_INVALID) || negb true || (type_of Dead =? SOCKET_TYPE_HALFCLOSE) || (type_of Dead =? SOCKET_TYPE_PACCEPT)) with true.
    rewrite <- Hst in Hh. destruct (free_sim true _ _ _ _ _ _ _ _ _ Hh Hm) as (s1 & _ & E1 & Hs1). cbv iota. rewrite (sbind_ok _ _ _ _ _ E1).
    exists s1, ignore. split; [done|]. unfold spec_append. rewrite Hst in *. exact Hs1.
Qed.

Lemma nomore_lemma s q hs ls dw lk ps W A : repr s (q_state q) hs ls dw lk ps W A → matches q hs ls dw ps →
  nomore_send_data (slot_of s i) = spec_empty q.
Proof.
  intros Hr [Hh Hl _ _ _ _ _]. unfold nomore_send_data, spec_empty. rewrite (repr_empty _ _ _ _ _ _ _ _ _ Hr), Hh, Hl.
  pose proof (so_dw _ _ _ _ _ _ _ _ (re_sock _ _ _ _ _ _ _ _ _ _ _ Hr)) as Hdw.
  assert (El : bool_decide (map e_data ls = []) = bool_decide (ls = [])) by (by destruct ls). rewrite El.
  destruct dw as [[[b off] d]|]; cbn [dw_ok requeued map] in *.
  - destruct Hdw as (H0 & -> & _). destruct (Z.eqb_spec b NULL) as [E|_]; [unfold NULL in E; lia|]. by rewrite andb_false_r.
  - rewrite Hdw. change (NULL =? NULL) with true. rewrite andb_true_r. by destruct hs.
Qed.

Lemma close_sim s q : sim s q → q_state q ≠ Dead →
  ∃ s' m, force_close i 0 s = Ok (m, s') ∧
    sim s' (spec_dead q (q_done q) (q_high q ++ q_low q) (take (Z.to_nat (q_off q)) (hd [] (q_high q)))).
Proof.
  intros (hs & ls & dw & ps & A & Hr & Hm) Hst.
  destruct (force_close_lemma _ _ _ _ _ _ _ _ _ _ _ 0 Hr Hst ltac:(by left)) as (s' & m & E & Hr').
  exists s', m. split; [done|]. eapply sim_dead; [exact Hr'|apply (ma_pipe _ _ _ _ _ Hm)|]. unfold spec_wire. by destruct (q_state q).
Qed.

Lemma half_sim s q : sim s q → q_state q ≠ Dead →
  sim (set_slot (<[i := with_type SOCKET_TYPE_HALFCLOSE (slot_of s i)]> (ss_slot s)) s)
    (WQ Half (q_done q) (q_dw q) (q_off q) (q_high q) (q_low q) (q_pipe q) (q_dropped q) (q_cut q)).
Proof.
  intros (hs & ls & dw & ps & A & Hr & Hm) Hst. exists hs, ls, dw, ps, A. split.
  - assert (HW : spec_wire (WQ Half (q_done q) (q_dw q) (q_off q) (q_high q) (q_low q) (q_pipe q) (q_dropped q) (q_cut q)) = spec_wire q)
      by (unfold spec_wire; by destruct (q_state q)).
    rewrite HW. eapply repr_sock; [exact Hr|done| |done|done]. rewrite slot_of_set.
    destruct (re_sock _ _ _ _ _ _ _ _ _ _ _ Hr). split; try done. intros _. by apply so_size.
  - destruct Hm. by split.
Qed.

(** [close_socket], after what is left has been written. *)
Lemma close_end s q (shutdown : bool) opaque : sim s q → q_state q ≠ Dead →
  ∃ s' r, (s ← get_socket i;
      if negb ((if shutdown then 1 else 0) =? 0) || nomore_send_data s then
        m ← force_close i 0; mret (SOCKET_CLOSE, SocketMessage id opaque (m_ud m) (m_data m))
      else _ ← upd_socket i (with_type SOCKET_TYPE_HALFCLOSE); mret ignore) s = Ok (r, s') ∧
    sim s' (if shutdown || spec_empty q then
              spec_dead q (q_done q) (q_high q ++ q_low q) (take (Z.to_nat (q_off q)) (hd [] (q_high q)))
            else WQ Half (q_done q) (q_dw q) (q_off q) (q_high q) (q_low q) (q_pipe q) (q_dropped q) (q_cut q)).
Proof.
  intros Hs Hst. rewrite get_bind. pose proof Hs as (hs & ls & dw & ps & A & Hr & Hm). rewrite (nomore_lemma _ _ _ _ _ _ _ _ _ Hr Hm).
  assert (Esh : negb ((if shutdown then 1 else 0) =? 0) = shutdown) by (by destruct shutdown). rewrite Esh.
  destruct (shutdown || spec_empty q).
  - destruct (close_sim _ _ Hs Hst) as (s' & m & E & Hs'). rewrite (sbind_ok _ _ _ _ _ E). by eexists _, _.
  - rewrite (sbind_ok _ _ _ _ _ (upd_lemma _ _ _)). do 2 eexists. split; [reflexivity|]. by apply half_sim.
Qed.

Lemma close_socket_sim s q hs ls dw ps A (shutdown : bool) opaque :
  repr s (q_state q) hs ls dw 0 ps (spec_wire q) A → matches q hs ls dw ps →
  match spec_close shutdown A q with
  | None => close_socket id (if shutdown then 1 else 0) opaque s = Fault AssertFailed
  | Some q' => ∃ s' r, close_socket id (if shutdown then 1 else 0) opaque s = Ok (r, s') ∧ sim s' q'
  end.
Proof.
  intros Hr Hm. unfold close_socket. rewrite get_bind. pose proof (re_sock _ _ _ _ _ _ _ _ _ _ _ Hr) as Hk.
  rewrite (so_type _ _ _ _ _ _ _ _ Hk), (so_id _ _ _ _ _ _ _ _ Hk), Z.eqb_refl, (nomore_lemma _ _ _ _ _ _ _ _ _ Hr Hm).
  assert (Hs : sim s q) by (by exists hs, ls, dw, ps, A). unfold spec_close. destruct (decide (q_state q = Dead)) as [Hd|Hst].
  { rewrite Hd. exists s. eexists. split; [reflexivity|done]. }
  assert (Et : (type_of (q_state q) =? SOCKET_TYPE_INVALID) || negb true = false) by (by destruct (q_state q)). rewrite Et. cbv iota.
  assert (Espec : ∀ X (a b : X), match q_state q with Dead => a | _ => b end = b) by (intros; by destruct (q_state q)).
  rewrite Espec. destruct (spec_empty q) eqn:Ee; cbn [negb option_bind mbind].
  - rewrite Espec, ret_bind. cbv iota. change (negb ((ignore).1 =? -1) && negb ((ignore).1 =? SOCKET_WARNING)) with false. cbv iota.
    pose proof (close_end s q shutdown opaque Hs Hst) as Hend. rewrite Ee in Hend |- *.
    destruct (shutdown || true); exact Hend.
  - pose proof (send_buffer_lemma _ _ _ _ _ _ _ Hr Hst Hm) as Hstep. destruct (spec_write A q) as [q2|]; cbn [step_ok] in Hstep.
    + destruct Hstep as (s2 & r & E & Hs2 & Hrep). rewrite (sbind_ok _ _ _ _ _ E). unfold report_ok in Hrep. cbn [mbind option_bind].
      destruct (decide (q_state q2 = Dead)) as [Hd|Hst2].
      * rewrite Hd in *. rewrite Hrep. exists s2, r. by split.
      * assert (Hr2 : r.1 = -1 ∨ r.1 = SOCKET_WARNING) by (by destruct (q_state q2)).
        assert (Eg : negb (r.1 =? -1) && negb (r.1 =? SOCKET_WARNING) = false) by (by destruct Hr2 as [-> | ->]). rewrite Eg.
        assert (Es2 : ∀ X (a b : X), match q_state q2 with Dead => a | _ => b end = b) by (intros; by destruct (q_state q2)).
        rewrite Es2. pose proof (close_end s2 q2 shutdown opaque Hs2 Hst2) as Hend. destruct (shutdown || spec_empty q2); exact Hend.
    + unfold mbind, SM_bind. by rewrite Hstep.
Qed.

Lemma answers_sim s q ans : sim s q → sim (set_os ans (ss_calls s) s) q.
Proof. intros (hs & ls & dw & ps & A & [] & Hm). exists hs, ls, dw, ps, ans. by split. Qed.

(** The pipe of the specification changes with that of the code. *)
Lemma matches_pipe q hs ls dw ps ps' : matches q hs ls dw ps →
  matches (with_pipe (map cmd_of ps') q) hs ls dw ps' ∧ spec_wire (with_pipe (map cmd_of ps') q) = spec_wire q.
Proof. intros []. by split. Qed.

Lemma request_sim c s q : sim s q → (∀ high b d, c ≠ PData high b d) →
  sim (set_pipe (ss_pipe s ++ [req_of id c]) s) (with_pipe (q_pipe q ++ [cmd_of c]) q).
Proof.
  intros (hs & ls & dw & ps & A & [Hk Hw Hm Hp HW HA] & Hma) Hc. destruct (matches_pipe _ _ _ _ _ (ps ++ [c]) Hma) as [Hm' HW'].
  exists hs, ls, dw, (ps ++ [c]), A. rewrite (ma_pipe _ _ _ _ _ Hma) in *. rewrite map_app in Hm', HW'. split; [|done].
  change (map cmd_of [c]) with [cmd_of c] in *. rewrite HW'.
  split; cbn [set_pipe ss_pipe ss_mem]; try done; [|by rewrite Hp, map_app].
  unfold pipe_blocks. rewrite omap_app. destruct c; [by edestruct Hc|]. cbn. by rewrite app_nil_r.
Qed.

Lemma ctrl_cmd_sim s q ans : sim s q →
  match spec_command ans q with
  | None => (_ ← with_answers ans; _ ← ctrl_cmd; mret tt) s = Fault AssertFailed
  | Some q' => ∃ s', (_ ← with_answers ans; _ ← ctrl_cmd; mret tt) s = Ok ((), s') ∧ sim s' q'
  end.
Proof.
  intros (hs & ls & dw & ps & A & [Hk Hw Hmem Hp HW HA] & Hm). set (s1 := set_os ans (ss_calls s) s).
  assert (Hr : repr s1 (q_state q) hs ls dw 0 ps (spec_wire q) ans) by (by split).
  assert (E1 : ∀ X (K : SM server X), (_ ← with_answers ans; K) s = K s1) by done. rewrite E1. clear E1.
  unfold spec_command. rewrite (ma_pipe _ _ _ _ _ Hm). unfold ctrl_cmd.
  assert (Epop : ∀ K : list request → SM server report, (p ← gets ss_pipe; K p) s1 = K (map (req_of id) ps) s1)
    by (intros K; rewrite gets_bind; by rewrite (re_pipe _ _ _ _ _ _ _ _ _ _ _ Hr)).
  destruct ps as [|c ps]; cbn [map].
  { exists s1. split; [|by exists hs, ls, dw, [], ans]. by rewrite (sbind_ok _ _ s1 ignore s1) by (by rewrite Epop). }
  destruct (matches_pipe _ _ _ _ _ ps Hm) as [Hm' HW']. rewrite <- HW' in Hr.
  set (s2 := set_pipe (map (req_of id) ps) s1).
  assert (Estep : ∀ x, run_request (req_of id c) s2 = x → (p ← gets ss_pipe; match p with [] => mret ignore | r :: p => _ ← modify (set_pipe p); run_request r end) s1 = x)
    by (intros x <-; by rewrite Epop).
  destruct c as [high b d|shutdown]; cbn [cmd_of].
  - pose proof (held_pop _ true _ _ _ _ _ _ _ _ _ _ _ (proj2 (repr2_iff id fd true _ _ _ _ _ _ _ _ _) Hr)) as Hh. fold s2 in Hh.
    destruct (send_socket_sim high s2 (with_pipe (map cmd_of ps) q) _ _ _ _ _ _ _ Hh Hm') as (s3 & r & E & Hs3).
    exists s3. split; [|done]. rewrite (sbind_ok _ _ s1 r s3); [done|]. apply Estep. by destruct high.
  - assert (Hr2 : repr s2 (q_state q) hs ls dw 0 ps (spec_wire (with_pipe (map cmd_of ps) q)) ans) by (destruct Hr; by split).
    pose proof (close_socket_sim s2 (with_pipe (map cmd_of ps) q) _ _ _ _ _ shutdown 0 Hr2 Hm') as Hclose.
    destruct (spec_close shutdown ans (with_pipe (map cmd_of ps) q)) as [q'|].
    + destruct Hclose as (s3 & r & E & Hs3). exists s3. split; [|done]. rewrite (sbind_ok _ _ s1 r s3); [done|]. by apply Estep.
    + unfold mbind at 1, SM_bind at 1. by rewrite (Estep _ Hclose).
Qed.

(** ** Sending from another thread *)

Definition direct_count (ans : list answer) (sz : Z) : Z := match ans with Ret n :: _ => Z.max 0 (Z.min n sz) | _ => 0 end.

Lemma held_write hi s st hs ls dw lk ps W A b d : held hi s st hs ls dw lk ps W A b d →
  let n := direct_count A (Z.of_nat (length d)) in
  ∃ s' r A', os_write fd (b, 0) (Z.of_nat (length d)) s = Ok (r, s') ∧ (match r with inl n => n | inr _ => 0 end) = n ∧
    held hi s' st hs ls dw lk ps (W ++ take (Z.to_nat n) d) A' b d.
Proof.
  intros [Hk Hw Hm Hp HW HA] n. pose proof (os_write_lemma fd s (Entry 0 b 0 d) 0 _ Hm ltac:(by left) ltac:(cbn; lia)) as Ew.
  unfold remaining in Ew. cbn [wb_of wb_ptr wb_sz e_b e_off e_data] in Ew. rewrite Z.sub_0_r in Ew. rewrite HA in Ew.
  destruct (next_answer A) as [a A'] eqn:EA.
  assert (Ha : n = match a with Ret n => Z.max 0 (Z.min n (Z.of_nat (length d))) | _ => 0 end)
    by (unfold n; destruct A as [|[] A]; cbn in *; by injection EA as <- <-).
  rewrite Ha. destruct a; (eexists _, _, A'; split; [exact Ew|]; split; [done|]; split; try done);
    cbn [set_os ss_calls]; rewrite ?app_nil_r; try done.
  by rewrite wire_wrote_lemma, HW.
Qed.

(** Nothing waits: the payload goes to the system, and what is left of it to the slot. *)
Lemma direct_write_lemma s q ps A b d : held true s Open [] [] None 1 ps (spec_wire q) A b d → q_state q = Open →
  matches q [] [] None ps →
  let n := direct_count A (Z.of_nat (length d)) in
  ∃ s', direct_write i id b (Z.of_nat (length d)) s =
      Ok (if n =? Z.of_nat (length d) then Some (Some FreeMem) else Some None, s') ∧
    if n =? Z.of_nat (length d) then ∃ A', held true s' Open [] [] None 1 ps (concat (q_done q) ++ d) A' b d
    else sim_at 1 s' (WQ Open (q_done q) true n [d] [] (q_pipe q) (q_dropped q) (q_cut q)).
Proof.
  intros Hh Hst Hm n. unfold direct_write. rewrite get_bind. destruct (held_type _ _ _ _ _ _ _ _ _ _ _ Hh) as (Et & Ei & Ep & Ee).
  pose proof (he_sock _ _ _ _ _ _ _ _ _ _ _ _ Hh) as Hk.
  assert (Ecan : can_direct_write (slot_of s i) id = true).
  { unfold can_direct_write, nomore_send_data. rewrite Ei, Ee, Et, (so_udp _ _ _ _ _ _ _ _ Hk), (so_dw _ _ _ _ _ _ _ _ Hk). by rewrite Z.eqb_refl. }
  rewrite Ecan. unfold send_object_init at 1. destruct (Z.ltb_spec (Z.of_nat (length d)) 0); [lia|]. rewrite ret_bind. cbv beta iota.
  cbn [so_sz so_buffer so_free_func]. rewrite Ep. change (PROTOCOL_TCP =? PROTOCOL_TCP) with true. cbv iota.
  assert (Efd : s_fd (slot_of s i) = fd) by (apply (so_fd _ _ _ _ _ _ _ _ Hk)). rewrite Efd.
  destruct (held_write _ _ _ _ _ _ _ _ _ _ _ _ Hh) as (s1 & r & A' & E1 & En & Hh1). rewrite (sbind_ok _ _ _ _ _ E1). cbv zeta. rewrite En. fold n.
  assert (HW : spec_wire q = concat (q_done q)).
  { unfold spec_wire. rewrite Hst, (ma_high _ _ _ _ _ Hm). cbn. by rewrite take_nil, app_nil_r. }
  fold n in Hh1. rewrite HW in Hh1. destruct (Z.eqb_spec n (Z.of_nat (length d))) as [E|Hne].
  - exists s1. split; [done|]. exists A'. by rewrite E, Nat2Z.id, firstn_all in Hh1.
  - rewrite (sbind_ok _ _ _ _ _ (upd_lemma _ _ _)), call_bind. eexists. split; [reflexivity|].
    exists [], [], (Some (b, n, d)), ps, A'. unfold spec_wire. cbn [q_state q_done q_off q_high hd].
    destruct Hh1 as [Hk1 Hw1 Hm1 Hp1 HW1 HA1]. split; [|destruct Hm; split; cbn; try done].
    + split; cbn [set_os set_slot ss_wbs ss_mem ss_pipe ss_calls ss_answers]; try done.
      * change (slot_of (set_os _ _ _) i) with (slot_of (set_slot (<[i := with_dw n b (Z.of_nat (length d)) (slot_of s1 i)]> (ss_slot s1)) s1) i).
        rewrite slot_of_set. destruct Hk1. split; try done. cbn. destruct (owns_head _ _ _ _ Hm1) as [H0 _]. done.
      * rewrite wire_app, HW1. unfold wire. cbn. by rewrite app_nil_r.
    + split; [done|]. split; [|done]. unfold n, direct_count. destruct A as [|[] A]; lia.
Qed.

Lemma unlock_sim s q : sim_at 1 s q → ∃ s', socket_unlock i 1 s = Ok ((), s') ∧ sim s' q.
Proof.
  intros (hs & ls & dw & ps & A & Hr & Hm). destruct (unlock_lemma _ _ _ _ _ _ _ _ Hr) as (s' & E & Hr').
  exists s'. split; [done|]. by exists hs, ls, dw, ps, A.
Qed.

Lemma held_trylock hi s st hs ls dw ps W A b d : held hi s st hs ls dw 0 ps W A b d →
  ∃ s', socket_trylock i 0 s = Ok (Some 1, s') ∧ held hi s' st hs ls dw 1 ps W A b d.
Proof.
  intros [Hk Hw Hm Hp HW HA]. unfold socket_trylock. change (0 =? 0) with true. cbv iota. rewrite get_bind.
  rewrite (so_lock _ _ _ _ _ _ _ _ Hk). eexists. split; [reflexivity|]. split; try done. rewrite slot_of_set. destruct Hk. by split.
Qed.

Lemma held_unlock hi s st hs ls dw ps W A b d : held hi s st hs ls dw 1 ps W A b d →
  ∃ s', socket_unlock i 1 s = Ok ((), s') ∧ held hi s' st hs ls dw 0 ps W A b d.
Proof.
  intros [Hk Hw Hm Hp HW HA]. destruct (unlock_core id s 1 (so_lock _ _ _ _ _ _ _ _ Hk) ltac:(by left)) as (s' & E & Es & [= Ew Em Ep Ec Ea]).
  exists s'. split; [done|]. split; rewrite ?Es, ?Ew, ?Em, ?Ep, ?Ec, ?Ea; try done. destruct Hk. by split.
Qed.

(** The direct write, the lock given back and the payload freed. *)
Lemma direct_write_sim s q ps A b d : held true s Open [] [] None 1 ps (spec_wire q) A b d → q_state q = Open →
  matches q [] [] None ps →
  let n := direct_count A (Z.of_nat (length d)) in
  ∃ s', (r ← direct_write i id b (Z.of_nat (length d)); finish_direct i 1 b r) s = Ok (true, s') ∧
    sim s' (if n =? Z.of_nat (length d) then WQ Open (q_done q ++ [d]) false 0 [] [] (q_pipe q) (q_dropped q) (q_cut q)
            else WQ Open (q_done q) true n [d] [] (q_pipe q) (q_dropped q) (q_cut q)).
Proof.
  intros Hh Hst Hm n. destruct (direct_write_lemma _ _ _ _ _ _ Hh Hst Hm) as (s1 & E1 & H). fold n in E1, H.
  rewrite (sbind_ok _ _ _ _ _ E1). destruct (Z.eqb_spec n (Z.of_nat (length d))) as [_|_]; unfold finish_direct.
  - destruct H as (A' & Hh1). destruct (held_unlock _ _ _ _ _ _ _ _ _ _ _ Hh1) as (s2 & E2 & Hh2). rewrite (sbind_ok _ _ _ _ _ E2).
    destruct (held_free _ _ _ _ _ _ _ _ _ _ _ _ Hh2) as (s3 & _ & E3 & Hr3). cbn [run_free]. rewrite (sbind_ok _ _ _ _ _ E3).
    exists s3. split; [done|]. exists [], [], None, ps, A'. split; [|by destruct Hm].
    unfold spec_wire. cbn. rewrite concat_app, !app_nil_r. cbn. rewrite app_nil_r. by apply repr2_iff in Hr3.
  - destruct (unlock_sim _ _ H) as (s2 & E2 & Hs2). rewrite (sbind_ok _ _ _ _ _ E2). by exists s2.
Qed.

(** The payload goes into the pipe. *)
Lemma held_request_sim high s q hs ls dw ps A b d : held true s (q_state q) hs ls dw 0 ps (spec_wire q) A b d → matches q hs ls dw ps →
  ∃ s', send_request (req_of id (PData high b d)) s = Ok ((), s') ∧ sim s' (with_pipe (q_pipe q ++ [CData high d]) q).
Proof.
  intros Hh Hm. destruct (held_request high _ _ _ _ _ _ _ _ _ _ _ _ Hh) as (s' & E & Hr). exists s'. split; [done|].
  destruct (matches_pipe _ _ _ _ _ (ps ++ [PData high b d]) Hm) as [Hm' HW']. rewrite map_app, <- (ma_pipe _ _ _ _ _ Hm) in Hm', HW'.
  change (map cmd_of [PData high b d]) with [CData high d] in *. apply repr2_iff in Hr. do 5 eexists. split; [|exact Hm']. rewrite HW'. exact Hr.
Qed.

Lemma send_low_sim s q d : sim s q →
  ∃ s', (b ← malloc_mem d; _ ← socket_server_send_lowpriority id b (Z.of_nat (length d)); mret tt) s = Ok ((), s') ∧
    sim s' (spec_send_low d q).
Proof.
  intros (hs & ls & dw & ps & A & Hr & Hm).
  destruct (held_malloc true _ _ _ _ _ _ _ _ _ d (proj2 (repr2_iff id fd true _ _ _ _ _ _ _ _ _) Hr)) as (s1 & b & E1 & Hh).
  rewrite (sbind_ok _ _ _ _ _ E1). unfold socket_server_send_lowpriority.
  destruct (held_type _ _ _ _ _ _ _ _ _ _ _ Hh) as (Et & Ei & _ & _). unfold spec_send_low.
  destruct (decide (q_state q = Dead)) as [Hd|Hst].
  - destruct (free_sim true _ _ _ _ _ _ _ _ _ Hh Hm) as (s2 & E2 & _ & Hs2). exists s2. rewrite Hd in *.
    split; [|exact Hs2]. rewrite (sbind_ok _ _ s1 (-1) s2); [done|]. rewrite get_bind, Et, Ei, Z.eqb_refl.
    change (negb true || (type_of Dead =? SOCKET_TYPE_INVALID)) with true. cbv iota. by rewrite (sbind_ok _ _ _ _ _ E2).
  - destruct (held_request_sim false _ _ _ _ _ _ _ _ _ Hh Hm) as (s2 & E2 & Hs2). exists s2. split; [|by destruct (q_state q)].
    rewrite (sbind_ok _ _ s1 0 s2); [done|]. rewrite get_bind, Et, Ei, Z.eqb_refl.
    assert (Eg : negb true || (type_of (q_state q) =? SOCKET_TYPE_INVALID) = false) by (by destruct (q_state q)). rewrite Eg.
    by rewrite (sbind_ok _ _ _ _ _ E2).
Qed.

Lemma can_direct_lemma s q hs ls dw lk ps W A b d : held true s (q_state q) hs ls dw lk ps W A b d → matches q hs ls dw ps →
  can_direct_write (slot_of s i) id = bool_decide (q_state q = Open) && spec_empty q.
Proof.
  intros Hh Hm. destruct (held_type _ _ _ _ _ _ _ _ _ _ _ Hh) as (Et & Ei & _ & Ee).
  pose proof (he_sock _ _ _ _ _ _ _ _ _ _ _ _ Hh) as Hk. pose proof (so_dw _ _ _ _ _ _ _ _ Hk) as Hdw.
  unfold can_direct_write, nomore_send_data. rewrite Et, Ei, Ee, Z.eqb_refl, (so_udp _ _ _ _ _ _ _ _ Hk). cbn [andb].
  assert (Eq : spec_empty q = bool_decide (hs = []) && bool_decide (ls = []) && (s_dw_buffer (slot_of s i) =? NULL)).
  { unfold spec_empty. rewrite (ma_high _ _ _ _ _ Hm), (ma_low _ _ _ _ _ Hm).
    assert (El : bool_decide (map e_data ls = []) = bool_decide (ls = [])) by (by destruct ls). rewrite El.
    destruct dw as [[[b' off] d']|]; cbn [dw_ok requeued map] in *.
    - destruct Hdw as (H0 & -> & _). destruct (Z.eqb_spec b' NULL) as [E|_]; [unfold NULL in E; lia|]. by rewrite andb_false_r.
    - rewrite Hdw. change (NULL =? NULL) with true. rewrite andb_true_r. by destruct hs. }
  rewrite Eq, andb_true_r, andb_comm. f_equal. by destruct (q_state q).
Qed.

Lemma send_sim s q ans d : sim s q →
  ∃ s', (_ ← with_answers ans; b ← malloc_mem d; _ ← socket_server_send id b (Z.of_nat (length d)); mret tt) s = Ok ((), s') ∧
    sim s' (spec_send d ans q).
Proof.
  intros (hs & ls & dw & ps & A & Hr & Hm).
  assert (Hr1 : repr (set_os ans (ss_calls s) s) (q_state q) hs ls dw 0 ps (spec_wire q) ans) by (destruct Hr; by split).
  rewrite (sbind_ok _ _ _ () _ (eq_refl : with_answers ans s = Ok ((), set_os ans (ss_calls s) s))).
  destruct (held_malloc true _ _ _ _ _ _ _ _ _ d (proj2 (repr2_iff id fd true _ _ _ _ _ _ _ _ _) Hr1)) as (s1 & b & E1 & Hh).
  rewrite (sbind_ok _ _ _ _ _ E1). destruct (held_type _ _ _ _ _ _ _ _ _ _ _ Hh) as (Et & Ei & _ & _).
  assert (Hret : ∀ z s2 q', socket_server_send id b (Z.of_nat (length d)) s1 = Ok (z, s2) → sim s2 q' →
    ∃ s', (_ ← socket_server_send id b (Z.of_nat (length d)); mret tt) s1 = Ok ((), s') ∧ sim s' q').
  { intros z s2 q' E Hs. exists s2. by rewrite (sbind_ok _ _ _ _ _ E). }
  assert (Egate : negb true || (type_of (q_state q) =? SOCKET_TYPE_INVALID) = bool_decide (q_state q = Dead)) by (by destruct (q_state q)).
  destruct (decide (q_state q = Dead)) as [Hd|Hst].
  - destruct (free_sim true _ _ _ _ _ _ _ _ _ Hh Hm) as (s2 & E2 & _ & Hs2). apply (Hret (-1) s2).
    + unfold socket_server_send. rewrite get_bind, Et, Ei, Z.eqb_refl, Egate, bool_decide_eq_true_2 by done.
      by rewrite (sbind_ok _ _ _ _ _ E2).
    + unfold spec_send. rewrite Hd in *. exact Hs2.
  - pose proof (can_direct_lemma _ _ _ _ _ _ _ _ _ _ _ Hh Hm) as Ecan.
    destruct (bool_decide (q_state q = Open) && spec_empty q) eqn:Edir.
    + apply andb_true_iff in Edir as [Hopen Hempty]. apply bool_decide_eq_true in Hopen.
      assert (hs = [] ∧ ls = [] ∧ dw = None) as (-> & -> & ->).
      { unfold spec_empty in Hempty. rewrite (ma_high _ _ _ _ _ Hm), (ma_low _ _ _ _ _ Hm) in Hempty.
        apply andb_true_iff in Hempty as [H1 H2]. apply bool_decide_eq_true, map_eq_nil, requeued_nil in H1 as [-> ->].
        by apply bool_decide_eq_true, map_eq_nil in H2 as ->. }
      rewrite Hopen in Hh. destruct (held_trylock _ _ _ _ _ _ _ _ _ _ _ Hh) as (s2 & E2 & Hh2).
      destruct (direct_write_sim _ _ _ _ _ _ Hh2 Hopen Hm) as (s4 & E4 & Hs4).
      apply (Hret 0 s4).
      * unfold socket_server_send. rewrite get_bind, Et, Ei, Z.eqb_refl, Egate, bool_decide_eq_false_2 by done. rewrite Ecan.
        rewrite (sbind_ok _ _ _ _ _ E2). by rewrite (sbind_ok _ _ _ _ _ E4).
      * unfold spec_send. rewrite Hopen, Hempty. exact Hs4.
    + destruct (held_request_sim true _ _ _ _ _ _ _ _ _ Hh Hm) as (s2 & E2 & Hs2). apply (Hret 0 s2).
      * unfold socket_server_send. rewrite get_bind, Et, Ei, Z.eqb_refl, Egate, bool_decide_eq_false_2 by done. rewrite Ecan.
        rewrite !ret_bind. cbv iota. by rewrite (sbind_ok _ _ _ _ _ E2).
      * unfold spec_send. destruct (q_state q) eqn:Hq; [|exact Hs2|done]. cbn [andb] in Edir. rewrite bool_decide_eq_true_2 in Edir by done.
        cbn in Edir. rewrite Edir. exact Hs2.
Qed.

(** ** The socket thread learns that the socket is writable *)

Lemma writable_dead s : s_type (slot_of s i) = SOCKET_TYPE_INVALID → writable i s = Ok ((), s).
Proof.
  intros Et. unfold writable. rewrite (sbind_ok _ _ s (Continue tt) s); [done|]. unfold dispatch_event. rewrite get_bind, Et. done.
Qed.

Lemma writable_live s st : s_type (slot_of s i) = type_of st → st ≠ Dead →
  writable i s = (r ← send_buffer i 0; mret tt) s.
Proof.
  intros Et Hst. unfold writable, dispatch_event.
  assert (E : ∀ K : loop unit report → SM server unit, (r ← (s ← get_socket i;
      if s_type s =? SOCKET_TYPE_CONNECTING then r ← report_connect i 0; mret (Break r)
      else if s_type s =? SOCKET_TYPE_LISTEN then
        r ← report_accept i;
        if r.1 >? 0 then mret (Break (SOCKET_ACCEPT, r.2)) else if r.1 <? 0 then mret (Break (SOCKET_ERR, r.2)) else mret (Continue tt)
      else if s_type s =? SOCKET_TYPE_INVALID then mret (Continue tt)
      else r ← socket_event 0 (Event (Some i) false true false) i s; mret (if r.1 =? -1 then Continue tt else Break r)); K r) s =
    (r ← send_buffer i 0; K (if r.1 =? -1 then Continue tt else Break r)) s).
  { intros K. unfold mbind at 1 4, SM_bind at 1 4. rewrite get_bind, Et. unfold socket_event. cbn [e_read e_write].
    destruct st; [| |done]; unfold mbind, SM_bind; cbn -[send_buffer]; by destruct (send_buffer i 0 s) as [[]|]. }
  apply E.
Qed.

Lemma writable_sim s q ans : sim s q →
  match spec_op (OWritable ans) q with
  | None => (_ ← with_answers ans; writable i) s = Fault AssertFailed
  | Some q' => ∃ s', (_ ← with_answers ans; writable i) s = Ok ((), s') ∧ sim s' q'
  end.
Proof.
  intros (hs & ls & dw & ps & A & Hr & Hm).
  assert (Hr1 : repr (set_os ans (ss_calls s) s) (q_state q) hs ls dw 0 ps (spec_wire q) ans) by (destruct Hr; by split).
  rewrite (sbind_ok _ _ _ () _ (eq_refl : with_answers ans s = Ok ((), set_os ans (ss_calls s) s))).
  pose proof (so_type _ _ _ _ _ _ _ _ (re_sock _ _ _ _ _ _ _ _ _ _ _ Hr1)) as Et. cbn [spec_op].
  destruct (decide (q_state q = Dead)) as [Hd|Hst].
  - rewrite Hd in *. rewrite (writable_dead _ Et). eexists. split; [done|]. exists hs, ls, dw, ps, ans. by rewrite Hd.
  - assert (Es : match q_state q with Dead => Some q | _ => spec_write ans q end = spec_write ans q) by (by destruct (q_state q)).
    rewrite Es, (writable_live _ _ Et Hst). pose proof (send_buffer_lemma _ _ _ _ _ _ _ Hr1 Hst Hm) as Hstep.
    destruct (spec_write ans q) as [q'|]; cbn [step_ok] in Hstep.
    + destruct Hstep as (s' & r & E & Hs & _). exists s'. by rewrite (sbind_ok _ _ _ _ _ E).
    + unfold mbind, SM_bind. by rewrite Hstep.
Qed.

(** Another thread has the lock: nothing happens. *)
Lemma locked_sim s q : sim s q →
  ∃ s', (_ ← upd_socket i (with_lock (Spinlock 1)); _ ← writable i; upd_socket i (with_lock spinlock_init)) s = Ok ((), s') ∧ sim s' q.
Proof.
  intros (hs & ls & dw & ps & A & Hr & Hm). rewrite (sbind_ok _ _ _ _ _ (upd_lemma _ _ _)). set (s1 := set_slot _ s).
  assert (Hk1 : slot_of s1 i = with_lock (Spinlock 1) (slot_of s i)) by apply slot_of_set.
  pose proof (re_sock _ _ _ _ _ _ _ _ _ _ _ Hr) as Hk. pose proof (so_type _ _ _ _ _ _ _ _ Hk) as Et.
  assert (Ew : ∃ s2, writable i s1 = Ok ((), s2) ∧ rest s2 = rest s1 ∧ slot_of s2 i = slot_of s1 i).
  { destruct (decide (q_state q = Dead)) as [Hd|Hst].
    - rewrite Hd in Et. rewrite writable_dead by (by rewrite Hk1). by exists s1.
    - rewrite (writable_live s1 (q_state q)) by (by rewrite ?Hk1). unfold send_buffer, socket_trylock.
      change (0 =? 0) with true. cbv iota. eexists. split; [|split; [|by rewrite slot_of_set]].
      + unfold mbind, SM_bind. cbn -[slot_of]. change (default socket_init (ss_slot s1 !! i)) with (slot_of s1 i). by rewrite Hk1.
      + done. }
  destruct Ew as (s2 & E2 & Hrest & Hk2). rewrite (sbind_ok _ _ _ _ _ E2), upd_lemma. eexists. split; [reflexivity|].
  exists hs, ls, dw, ps, A. split; [|done]. eapply repr_sock; [exact Hr|exact Hrest| |done|done].
  rewrite slot_of_set, Hk2, Hk1. destruct Hk. by split.
Qed.

(** ** The theorem *)

Lemma run_op_sim o s q : sim s q →
  match spec_op o q with
  | None => run_op id o s = Fault AssertFailed
  | Some q' => ∃ s', run_op id o s = Ok ((), s') ∧ sim s' q'
  end.
Proof.
  intros Hs. destruct o as [d ans|d|shutdown|ans|ans|]; cbn [run_op].
  - by apply send_sim.
  - by apply send_low_sim.
  - cbn [spec_op]. pose proof (request_sim (PClose shutdown) _ _ Hs ltac:(done)) as Hs'. by destruct shutdown; eexists.
  - by apply ctrl_cmd_sim.
  - by apply writable_sim.
  - by apply locked_sim.
Qed.

Lemma spec_ops_none l : foldl (λ o op, q ← o; spec_op op q) None l = None.
Proof. by induction l. Qed.

Lemma spec_ops_cons o l q : spec_ops (o :: l) q = (q' ← spec_op o q; spec_ops l q').
Proof. unfold spec_ops. cbn. destruct (spec_op o q); [done|]. apply spec_ops_none. Qed.

Lemma run_ops_sim l : ∀ s q, sim s q →
  match spec_ops l q with
  | None => run_ops id l s = Fault AssertFailed
  | Some q' => ∃ s', run_ops id l s = Ok ((), s') ∧ sim s' q'
  end.
Proof.
  induction l as [|o l IH]; intros s q Hs; [by exists s|]. rewrite spec_ops_cons. cbn [run_ops].
  pose proof (run_op_sim o _ _ Hs) as Ho. destruct (spec_op o q) as [q'|]; cbn [mbind option_bind].
  - destruct Ho as (s' & E & Hs'). rewrite (sbind_ok _ _ _ _ _ E). by apply IH.
  - unfold mbind, SM_bind. by rewrite Ho.
Qed.
End Socket.
