(* ===== verification/SocketDelivers.v ===== *)
(** What a TCP socket delivers: each payload once, whole or cut only by the close of the
    socket, in the order of the sends when no send overtakes the control pipe; and its memory
    is that of the payloads that wait. *)

From S2P Require Import Prelude Chain Frames Locks SocketServer SocketPoll SocketQueue SocketMemory SocketStreams SocketRefines.
Open Scope Z_scope.

(** ** What is live *)

Definition live {A} (m : list (option A)) : list A := omap (λ o, o) m.

Lemma live_middle {A} (m1 m2 : list (option A)) o : live (m1 ++ o :: m2) ≡ₚ option_list o ++ live m1 ++ live m2.
Proof. unfold live. rewrite omap_app. destruct o; cbn; [by rewrite <- Permutation_middle|done]. Qed.

Lemma owns_live {A} (m : list (option A)) l : owns m l → live m ≡ₚ l.*2.
Proof.
  revert m. induction l as [|[b d] l IH]; intros m Ho.
  - assert (Hnone : ∀ o, o ∈ m → o = None).
    { intros [d|] Hin; [|done]. apply list_elem_of_lookup in Hin as [n Hn]. destruct Ho as [_ Hl].
      assert (Hin : (Z.of_nat n, d) ∈ ([] : list (Z * A))) by (apply Hl; split; [lia|by rewrite Nat2Z.id]). by apply elem_of_nil in Hin. }
    clear Ho. induction m as [|o m IH]; [done|]. rewrite (Hnone o) by (by left). apply IH. intros o' Ho'. apply Hnone. by right.
  - pose proof (owns_head _ _ _ _ Ho) as (H0 & Hlt & _). pose proof (IH _ (owns_free _ _ _ _ Ho)) as E.
    assert (Hm : m !! Z.to_nat b = Some (Some d)) by (apply (proj2 Ho b d); by left).
    rewrite <- (take_drop_middle _ _ _ Hm). rewrite insert_take_drop in E by done. rewrite live_middle in E |- *.
    cbn in *. by rewrite E.
Qed.

(** ** Every payload once *)

Definition payload_of (c : command) : option payload := match c with CData _ d => Some d | CClose _ => None end.
Definition sent (o : sock_op) : option payload := match o with OSend d _ | OSendLow d => Some d | _ => None end.
Definition payloads (l : list sock_op) : list payload := omap sent l.

(** The payloads that are still to be sent. *)
Definition waiting (q : wq) : list payload := q_high q ++ q_low q ++ omap payload_of (q_pipe q).

Definition all_of (q : wq) : list payload := q_done q ++ waiting q ++ q_dropped q.

Lemma flush_all l : ∀ off ans, f_done (flush l off ans) ++ f_rest (flush l off ans) = l.
Proof.
  induction l as [|d l IH]; intros off ans; [done|]. cbn [flush]. destruct (sys_write ans _) as [[n| |e] ans']; try done.
  destruct (n =? _); [|done]. cbn [f_done f_rest]. cbn. by rewrite IH.
Qed.

(** Compare two collections of payloads. *)
Ltac perm :=
  unfold all_of, waiting; cbn [q_done q_high q_low q_pipe q_dropped spec_dead with_pipe];
  rewrite ?omap_app, ?app_nil_r; cbn [omap list_omap payload_of]; solve_Permutation.

Lemma write_all ans q q' : spec_write ans q = Some q' → all_of q' ≡ₚ all_of q.
Proof.
  unfold spec_write. pose proof (flush_all (q_high q) (q_off q) ans) as Ef. set (f := flush _ _ ans) in *. clearbody f.
  assert (Hfin : ∀ done, all_of (spec_finish q done) ≡ₚ done ++ omap payload_of (q_pipe q) ++ q_dropped q)
    by (intros done; unfold spec_finish; destruct (q_state q); perm).
  assert (Hq : all_of q ≡ₚ (q_done q ++ f_done f) ++ f_rest f ++ q_low q ++ omap payload_of (q_pipe q) ++ q_dropped q)
    by (unfold all_of, waiting; rewrite <- Ef; perm).
  rewrite Hq. destruct (f_broken f); [intros [= <-]; perm|]. destruct (f_rest f) as [|d rest].
  2: { destruct (q_low q); intros [= <-]; perm. }
  pose proof (flush_all (q_low q) 0 (f_ans f)) as Eg. destruct (q_low q) as [|e low]; [intros [= <-]; by rewrite Hfin|].
  cbv zeta. set (g := flush _ _ (f_ans f)) in *. clearbody g. rewrite <- Eg.
  destruct (f_broken g); [intros [= <-]; perm|]. destruct (f_rest g) as [|d rest]; [intros [= <-]; rewrite Hfin; perm|].
  destruct (f_off g =? 0); [done|]. intros [= <-]. perm.
Qed.

Lemma append_all high d q : all_of (spec_append high d q) ≡ₚ d :: all_of q.
Proof. unfold spec_append. destruct (q_state q); [|perm..]. destruct (high || _); perm. Qed.

Lemma close_all shutdown ans q q' : spec_close shutdown ans q = Some q' → all_of q' ≡ₚ all_of q.
Proof.
  assert (Hend : ∀ q, all_of (if shutdown || spec_empty q then
      spec_dead q (q_done q) (q_high q ++ q_low q) (take (Z.to_nat (q_off q)) (hd [] (q_high q)))
    else WQ Half (q_done q) (q_dw q) (q_off q) (q_high q) (q_low q) (q_pipe q) (q_dropped q) (q_cut q)) ≡ₚ all_of q)
    by (intros q0; destruct (shutdown || spec_empty q0); perm).
  assert (Hclose : ∀ q, match q_state q with
      | Dead => Some q
      | _ => if shutdown || spec_empty q then
               Some (spec_dead q (q_done q) (q_high q ++ q_low q) (take (Z.to_nat (q_off q)) (hd [] (q_high q))))
             else Some (WQ Half (q_done q) (q_dw q) (q_off q) (q_high q) (q_low q) (q_pipe q) (q_dropped q) (q_cut q))
      end = Some q' → all_of q' ≡ₚ all_of q).
  { intros q0 E. specialize (Hend q0). destruct (q_state q0); destruct (shutdown || spec_empty q0);
      injection E as <-; (exact Hend || done). }
  unfold spec_close. destruct (spec_empty q) eqn:Ee; cbn [mbind option_bind].
  - intros E. apply Hclose. by destruct (q_state q).
  - destruct (spec_write ans q) as [q2|] eqn:Ew; cbn [mbind option_bind]; [|by destruct (q_state q); [..|intros [= <-]]].
    intros E. destruct (q_state q); [| |by injection E as <-]; rewrite <- (write_all _ _ _ Ew); by apply Hclose.
Qed.

Lemma op_all o q q' : spec_op o q = Some q' → all_of q' ≡ₚ all_of q ++ option_list (sent o).
Proof.
  destruct o as [d ans|d|shutdown|ans|ans|]; cbn [spec_op sent option_list].
  - intros [= <-]. unfold spec_send. destruct (q_state q); [|perm..]. destruct (spec_empty q) eqn:Ee; [|perm].
    apply andb_true_iff in Ee as [E1 E2]. apply bool_decide_eq_true in E1, E2. unfold all_of, waiting. rewrite E1, E2.
    destruct (_ =? _); perm.
  - intros [= <-]. unfold spec_send_low. destruct (q_state q); perm.
  - intros [= <-]. perm.
  - unfold spec_command. rewrite app_nil_r. destruct (q_pipe q) as [|[high d|shutdown] p] eqn:Ep; [by intros [= <-]|..].
    + intros [= <-]. rewrite append_all. unfold all_of, waiting. rewrite Ep. perm.
    + intros E. rewrite (close_all _ _ _ _ E). unfold all_of, waiting. rewrite Ep. perm.
  - rewrite app_nil_r. destruct (q_state q); [apply write_all..|by intros [= <-]].
  - intros [= <-]. by rewrite app_nil_r.
Qed.

Lemma ops_all l : ∀ q q', spec_ops l q = Some q' → all_of q' ≡ₚ all_of q ++ payloads l.
Proof.
  induction l as [|o l IH]; intros q q'; [intros [= <-]; by rewrite app_nil_r|]. rewrite spec_ops_cons.
  destruct (spec_op o q) as [q1|] eqn:E; [|done]. cbn [mbind option_bind]. intros Hl. rewrite (IH _ _ Hl), (op_all _ _ _ E).
  unfold payloads. cbn [omap list_omap]. rewrite <- (assoc_L (++)). by destruct (sent o).
Qed.

(** ** The order *)

(** No low priority, and no direct write past a payload that is still in the pipe. *)
Definition orderly_op (o : sock_op) (q : wq) : bool :=
  match o with
  | OSendLow _ => false
  | OSend _ _ => bool_decide (omap payload_of (q_pipe q) = []) || negb (spec_empty q)
  | _ => true
  end.

Fixpoint orderly (l : list sock_op) (q : wq) : bool :=
  match l with
  | [] => true
  | o :: l => orderly_op o q && match spec_op o q with Some q => orderly l q | None => false end
  end.

(** The payloads [P] were sent: those taken, those that wait and those in the pipe follow each
    other; of a closed socket the bytes taken are a beginning. *)
Definition ordered (P : list payload) (q : wq) : Prop :=
  q_low q = [] ∧ Forall (λ c, match c with CData high _ => high = true | CClose _ => True end) (q_pipe q) ∧
  match q_state q with
  | Open => P = q_done q ++ q_high q ++ omap payload_of (q_pipe q)
  | Half => (q_done q ++ q_high q) `prefix_of` P
  | Dead => spec_wire q `prefix_of` concat P
  end.

Lemma concat_prefix {A} (l k : list (list A)) : l `prefix_of` k → concat l `prefix_of` concat k.
Proof. intros [m ->]. rewrite concat_app. by apply prefix_app_r. Qed.

Lemma cut_prefix (l k : list payload) n : concat l ++ take n (hd [] k) `prefix_of` concat (l ++ k).
Proof.
  rewrite concat_app. apply prefix_app. destruct k as [|d k]; [cbn; rewrite take_nil; apply prefix_nil|]. cbn. exists (drop n d ++ concat k).
  by rewrite (assoc_L (++)), take_drop.
Qed.

Lemma ordered_live P q : ordered P q → q_state q ≠ Dead → (q_done q ++ q_high q) `prefix_of` P.
Proof.
  intros (_ & _ & H) Hst. destruct (q_state q); [|done..]. subst P. rewrite (assoc_L (++)). by apply prefix_app_r.
Qed.

Lemma ordered_wire P q : ordered P q → spec_wire q `prefix_of` concat P.
Proof.
  intros Ho. destruct (decide (q_state q = Dead)) as [Hd|Hst]; [destruct Ho as (_ & _ & H); by rewrite Hd in H|].
  etrans; [|apply concat_prefix, (ordered_live _ _ Ho Hst)]. unfold spec_wire.
  assert (E : ∀ X (a b : X), match q_state q with Dead => a | _ => b end = b) by (intros; by destruct (q_state q)).
  rewrite E. apply cut_prefix.
Qed.

Lemma ordered_dead P q (l k : list payload) n rest :
  Forall (λ c, match c with CData high _ => high = true | CClose _ => True end) (q_pipe q) → (l ++ k) `prefix_of` P →
  ordered P (spec_dead q l rest (take n (hd [] k))).
Proof.
  intros Hp Hlk. split; [done|]. split; [done|]. unfold spec_wire. cbn. etrans; [apply cut_prefix|]. by apply concat_prefix.
Qed.

Lemma write_ordered P ans q : ordered P q → q_state q ≠ Dead → ∃ q', spec_write ans q = Some q' ∧ ordered P q'.
Proof.
  intros Ho Hst. pose proof (ordered_live _ _ Ho Hst) as Hpre. pose proof (flush_all (q_high q) (q_off q) ans) as Ef.
  unfold spec_write. set (f := flush _ _ ans) in *. clearbody f. rewrite <- Ef, (assoc_L (++)) in Hpre.
  destruct Ho as (Hlow & Hp & H). rewrite Hlow. cbv zeta. destruct (f_broken f).
  { eexists. split; [done|]. unfold cut_of. by apply ordered_dead. }
  rewrite <- Ef in H. destruct (f_rest f) as [|d rest]; eexists; (split; [reflexivity|]).
  - unfold spec_finish. destruct (q_state q) eqn:Eq; [| |done].
    + split; [done|]. split; [done|]. cbn. by rewrite app_nil_r, (assoc_L (++)) in H.
    + apply (ordered_dead P q _ [] 0 []); [done|]. by rewrite app_nil_r in Hpre |- *.
  - split; [done|]. split; [done|]. cbn [q_state q_done q_high q_pipe]. destruct (q_state q); [|done..].
    by rewrite <- !(assoc_L (++)) in *.
Qed.

Lemma close_ordered P shutdown ans q : ordered P q → ∃ q', spec_close shutdown ans q = Some q' ∧ ordered P q'.
Proof.
  intros Ho. unfold spec_close. destruct (decide (q_state q = Dead)) as [Hd|Hst]; [rewrite Hd; by exists q|].
  assert (E : ∀ X (a b : X) q, q_state q ≠ Dead → match q_state q with Dead => a | _ => b end = b)
    by (intros X a b q0 H0; by destruct (q_state q0)).
  rewrite (E _ _ _ _ Hst).
  assert (H : ∃ q2, (if spec_empty q then Some q else spec_write ans q) = Some q2 ∧ ordered P q2).
  { destruct (spec_empty q); [by exists q|]. by apply write_ordered. }
  destruct H as (q2 & -> & Ho2). cbn [mbind option_bind]. destruct (decide (q_state q2 = Dead)) as [Hd2|Hst2]; [rewrite Hd2; by exists q2|].
  rewrite (E _ _ _ _ Hst2). pose proof (ordered_live _ _ Ho2 Hst2) as Hpre. destruct Ho2 as (Hlow & Hp & H).
  destruct (shutdown || spec_empty q2); eexists; (split; [done|]).
  - by apply ordered_dead.
  - split; [done|]. by split.
Qed.

Lemma append_ordered P d p q : ordered P q → q_pipe q = CData true d :: p → ordered P (spec_append true d (with_pipe p q)).
Proof.
  intros (Hlow & Hp & H) Ep. rewrite Ep in Hp, H. apply Forall_cons in Hp as [_ Hp]. unfold spec_append. cbn [q_state with_pipe orb].
  destruct (q_state q) eqn:Hst; (split; [done|]; split; [done|]); cbn [q_state q_done q_high q_pipe with_pipe]; [|done|].
  - rewrite H. cbn [omap list_omap payload_of]. by rewrite <- !(assoc_L (++)).
  - unfold spec_wire in *. cbn. by rewrite Hst in H.
Qed.

Lemma send_ordered P d ans q : ordered P q → orderly_op (OSend d ans) q = true → ordered (P ++ [d]) (spec_send d ans q).
Proof.
  intros (Hlow & Hp & H) Hop. cbn [orderly_op] in Hop. unfold spec_send. destruct (q_state q) eqn:Hst.
  - destruct (spec_empty q) eqn:Ee.
    + rewrite orb_false_r in Hop. apply bool_decide_eq_true in Hop. apply andb_true_iff in Ee as [E1 _].
      apply bool_decide_eq_true in E1. rewrite E1, Hop, !app_nil_r in H. subst P.
      destruct (_ =? _); (split; [done|]; split; [done|]); cbn [q_state q_done q_high q_pipe]; rewrite Hop; by rewrite ?app_nil_r.
    + split; [done|]. split; [apply Forall_app; split; [done|by apply Forall_singleton]|]. cbn [q_state with_pipe q_done q_high q_pipe].
      rewrite Hst, omap_app, H, <- !(assoc_L (++)). done.
  - split; [done|]. split; [apply Forall_app; split; [done|by apply Forall_singleton]|]. cbn [q_state with_pipe q_done q_high].
    rewrite Hst. by apply prefix_app_r.
  - split; [done|]. split; [done|]. unfold spec_wire in *. cbn. rewrite Hst in H. rewrite concat_app. by apply prefix_app_r.
Qed.

Lemma op_ordered P o q : ordered P q → orderly_op o q = true →
  ∃ q', spec_op o q = Some q' ∧ ordered (P ++ option_list (sent o)) q'.
Proof.
  intros Ho Hop. destruct o as [d ans|d|shutdown|ans|ans|]; cbn [spec_op sent option_list]; rewrite ?app_nil_r; [|done|..].
  - eexists. split; [done|]. by apply send_ordered.
  - eexists. split; [done|]. destruct Ho as (Hlow & Hp & H). split; [done|].
    split; [apply Forall_app; split; [done|by apply Forall_singleton]|]. cbn [q_state with_pipe q_done q_high q_pipe].
    rewrite omap_app. cbn. by rewrite app_nil_r.
  - unfold spec_command. destruct (q_pipe q) as [|[high d|shutdown] p] eqn:Ep; [by exists q|..].
    + assert (high = true) as -> by (destruct Ho as (_ & Hp & _); rewrite Ep in Hp; by apply Forall_cons in Hp as [? _]).
      eexists. split; [done|]. by apply append_ordered.
    + apply close_ordered. destruct Ho as (Hlow & Hp & H). rewrite Ep in Hp, H. apply Forall_cons in Hp as [_ Hp].
      split; [done|]. split; done.
  - destruct (decide (q_state q = Dead)) as [Hd|Hst]; [rewrite Hd; by exists q|].
    destruct (write_ordered _ ans _ Ho Hst) as (q' & E & Ho'). exists q'. by destruct (q_state q).
  - by exists q.
Qed.

Lemma ops_ordered l : ∀ P q, ordered P q → orderly l q = true → ∃ q', spec_ops l q = Some q' ∧ ordered (P ++ payloads l) q'.
Proof.
  induction l as [|o l IH]; intros P q Ho Hl; [exists q; by rewrite app_nil_r|]. cbn [orderly] in Hl. apply andb_true_iff in Hl as [Hop Hl].
  destruct (op_ordered _ _ _ Ho Hop) as (q1 & E & Ho1). rewrite E in Hl. destruct (IH _ _ Ho1 Hl) as (q2 & E2 & Ho2).
  exists q2. rewrite spec_ops_cons, E. split; [done|]. unfold payloads in *. cbn [omap list_omap]. rewrite <- (assoc_L (++)) in Ho2.
  by destruct (sent o).
Qed.

(** ** The code *)

(** The slot of [id] has just been connected, and nothing is allocated or in the pipe. *)
Record connected (id fd : Z) (s : server) : Prop := {
  co_id : s_id (slot_of s (HASH_ID id)) = id;
  co_fd : s_fd (slot_of s (HASH_ID id)) = fd;
  co_protocol : s_protocol (slot_of s (HASH_ID id)) = PROTOCOL_TCP;
  co_type : s_type (slot_of s (HASH_ID id)) = SOCKET_TYPE_CONNECTED;
  co_udp : s_udpconnecting (slot_of s (HASH_ID id)) = 0;
  co_lock : s_dw_lock (slot_of s (HASH_ID id)) = spinlock_init;
  co_lists : s_high (slot_of s (HASH_ID id)) = clear_wb_list ∧ s_low (slot_of s (HASH_ID id)) = clear_wb_list;
  co_size : s_wb_size (slot_of s (HASH_ID id)) = 0;
  co_dw : s_dw_buffer (slot_of s (HASH_ID id)) = NULL;
  co_memory : ss_wbs s = [] ∧ ss_mem s = [];
  co_pipe : ss_pipe s = [];
  co_wire : wire fd (ss_calls s) = []
}.

Lemma owns_nil {A} : owns ([] : list (option A)) [].
Proof. split; [constructor|]. intros b d. split; [by intros ?%elem_of_nil|by intros [_ ?]]. Qed.

Lemma connected_sim id fd s : connected id fd s → sim id fd s spec_init.
Proof.
  intros [Hid Hfd Hpr Ht Hu Hl [Hh Hlo] Hsz Hdw [Hw Hm] Hp HW]. exists [], [], None, [], (ss_answers s).
  split; [|by split]. split; rewrite ?Hw, ?Hm, ?Hp, ?HW; try done; try apply owns_nil.
  split; try done; [by rewrite Hh|by rewrite Hlo].
Qed.

Lemma nodes_listed (hs ls : list entry) (dw : dwrite) :
  (length (nodes hs ++ nodes ls).*2 + (if bool_decide (dw ≠ None) then 1 else 0))%nat =
  length (map e_data (requeued 0 dw hs) ++ map e_data ls).
Proof.
  rewrite length_fmap, !length_app, !nodes_length, !length_map. destruct dw as [[[]]|]; cbn; lia.
Qed.

Lemma blocks_data es : (blocks es).*2 = map e_data es.
Proof. induction es as [|e es IH]; [done|]. cbn. by f_equal. Qed.

Lemma pipe_data ps : (pipe_blocks ps).*2 = omap payload_of (map cmd_of ps).
Proof. induction ps as [|[high b d|sh] ps IH]; [done|exact (f_equal (cons d) IH)|exact IH]. Qed.

(** The memory of the code is that of the waiting payloads. *)
Lemma sim_memory id fd s q : sim id fd s q → live (ss_mem s) ≡ₚ waiting q.
Proof.
  intros (hs & ls & dw & ps & A & Hr & Hm). rewrite (owns_live _ _ (re_mem _ _ _ _ _ _ _ _ _ _ _ Hr)).
  unfold waiting. rewrite (ma_high _ _ _ _ _ Hm), (ma_low _ _ _ _ _ Hm), (ma_pipe _ _ _ _ _ Hm), !fmap_app, !blocks_data, pipe_data.
  destruct dw as [[[b off] d]|]; cbn [requeued map dw_blocks e_data fmap list_fmap snd]; solve_Permutation.
Qed.

Lemma sim_buffers id fd s q : sim id fd s q →
  (length (live (ss_wbs s)) + (if q_dw q then 1 else 0))%nat = length (q_high q ++ q_low q).
Proof.
  intros (hs & ls & dw & ps & A & Hr & Hm). rewrite (owns_live _ _ (re_wbs _ _ _ _ _ _ _ _ _ _ _ Hr)).
  by rewrite (ma_high _ _ _ _ _ Hm), (ma_low _ _ _ _ _ Hm), (ma_dw _ _ _ _ _ Hm), <- nodes_listed.
Qed.

Lemma sim_wire id fd s q : sim id fd s q → wire fd (ss_calls s) = spec_wire q ∧ s_type (slot_of s (HASH_ID id)) = type_of (q_state q).
Proof.
  intros (hs & ls & dw & ps & A & Hr & _). split; [apply (re_wire _ _ _ _ _ _ _ _ _ _ _ Hr)|].
  apply (so_type _ _ _ _ _ _ _ _ (re_sock _ _ _ _ _ _ _ _ _ _ _ Hr)).
Qed.

(** C39.  The write queues of a TCP socket refine their specification.  For every history of
    sends of both priorities, closes, commands taken from the pipe, writable events and events
    under a taken lock, with any answers of the system (part of the bytes, interrupted, full,
    broken), starting from a connected socket: where the specification has a step the code
    goes through without a fault, the slot is open, half closed or invalid as specified, the
    peer got exactly the specified bytes (payloads whole, in turn, a partial one resumed where
    it stopped, the low list only behind the high one), and the live memory is exactly that of
    the payloads that wait: nothing leaks, nothing is freed twice or lost; every payload sent
    was taken by the system, waits, or was dropped by a close, once.  Where the specification
    has no step, the assertion in [send_buffer_] fails. *)
Theorem socket_refines id fd s l : connected id fd s →
  match spec_ops l spec_init with
  | None => run_ops id l s = Fault AssertFailed
  | Some q =>
      ∃ s', run_ops id l s = Ok ((), s') ∧
        s_type (slot_of s' (HASH_ID id)) = type_of (q_state q) ∧
        wire fd (ss_calls s') = spec_wire q ∧
        live (ss_mem s') ≡ₚ waiting q ∧
        (length (live (ss_wbs s')) + (if q_dw q then 1 else 0))%nat = length (q_high q ++ q_low q) ∧
        payloads l ≡ₚ q_done q ++ waiting q ++ q_dropped q
  end.
Proof.
  intros Hc. pose proof (run_ops_sim id fd l _ _ (connected_sim _ _ _ Hc)) as Hrun.
  destruct (spec_ops l spec_init) as [q|] eqn:Eq; [|done]. destruct Hrun as (s' & E & Hs). exists s'.
  destruct (sim_wire _ _ _ _ Hs) as [HW Ht]. split; [done|]. split; [done|]. split; [done|].
  split; [by eapply sim_memory|]. split; [by eapply sim_buffers|]. symmetry. apply (ops_all _ _ _ Eq).
Qed.

(** C40.  A TCP socket is a stream.  When nothing has low priority and no direct write
    overtakes a payload in the pipe, then whatever the system answers, whenever the socket is
    closed, and however sends, commands and writable events interleave, no assertion fails,
    the bytes on the wire are a beginning of all payloads sent one after the other, and they
    are all of them once the socket is still connected and nothing is allocated. *)
Theorem socket_in_order id fd s l : connected id fd s → orderly l spec_init = true →
  ∃ s', run_ops id l s = Ok ((), s') ∧ wire fd (ss_calls s') `prefix_of` concat (payloads l) ∧
    (s_type (slot_of s' (HASH_ID id)) = SOCKET_TYPE_CONNECTED → live (ss_mem s') = [] →
     wire fd (ss_calls s') = concat (payloads l)).
Proof.
  intros Hc Hl. assert (Hinit : ordered [] spec_init) by (split; [done|]; split; [constructor|done]).
  destruct (ops_ordered _ _ _ Hinit Hl) as (q & Eq & Ho). cbn [app] in Ho.
  pose proof (run_ops_sim id fd l _ _ (connected_sim _ _ _ Hc)) as Hrun. rewrite Eq in Hrun. destruct Hrun as (s' & E & Hs).
  exists s'. destruct (sim_wire _ _ _ _ Hs) as [HW Ht]. rewrite HW, Ht. split; [done|]. split; [by apply ordered_wire|].
  intros Hcon Hmem. pose proof (sim_memory _ _ _ _ Hs) as Hw. rewrite Hmem in Hw. apply Permutation_nil_l in Hw.
  unfold waiting in Hw. apply eq_sym, app_eq_nil in Hw as [Hhigh [_ Hpipe]%app_eq_nil]. destruct Ho as (_ & _ & H). unfold spec_wire.
  destruct (q_state q); [|done..]. rewrite Hhigh, Hpipe, !app_nil_r in H. rewrite H, Hhigh. cbn. by rewrite take_nil, app_nil_r.
Qed.

(** A socket connected by [socket_server_connect] and the answers of the system. *)
Definition connect_9 : SM server Z :=
  id ← socket_server_connect 77 "example" 80;
  _ ← with_answers [Ret 1; Ret 9; Ret 0; Ret 0; Peer None];
  _ ← ctrl_cmd;
  mret id.

Definition server_9 : server := match connect_9 socket_server_create with Ok (_, s) => s | Fault _ => socket_server_create end.

Lemma connected_9 : connected 1 9 server_9.
Proof. by split. Qed.

(** Part of the first payload at once, the rest and two more later, and the close while one of
    them is cut. *)
Definition history : list sock_op :=
  [OSend [1; 2; 3] [Ret 1]; OSendLow [7; 8; 9]; OSend [4; 5] []; OCommand []; OLocked; OCommand [];
   OWritable [Err EINTR; Ret 2; Ret 2; Ret 1]; OClose false; OCommand [Ret 1]; OSend [6] []; OCommand []; OWritable [Ret 1];
   OWritable [Ret 1]].

Lemma socket_refines_witness :
  ∃ s', run_ops 1 history server_9 = Ok ((), s') ∧ wire 9 (ss_calls s') = [1; 2; 3; 7; 8; 9; 4; 5] ∧ live (ss_mem s') = [].
Proof.
  pose proof (socket_refines 1 9 server_9 history connected_9) as H.
  assert (Eq : spec_ops history spec_init = Some (WQ Dead [[1; 2; 3]; [7; 8; 9]; [4; 5]] false 0 [] [] [] [[6]] [])) by reflexivity.
  rewrite Eq in H. destruct H as (s' & E & _ & HW & Hm & _). exists s'. split; [exact E|]. split; [exact HW|].
  apply Permutation_nil_r. exact Hm.
Defined.

Lemma socket_in_order_witness :
  ∃ s', run_ops 1 [OSend [1; 2] [Ret 1]; OSend [3] []; OCommand []; OWritable [Ret 1; Ret 1]] server_9 = Ok ((), s') ∧
    wire 9 (ss_calls s') `prefix_of` [1; 2; 3].
Proof.
  destruct (socket_in_order 1 9 server_9 [OSend [1; 2] [Ret 1]; OSend [3] []; OCommand []; OWritable [Ret 1; Ret 1]] connected_9 eq_refl)
    as (s' & E & HW & _).
  exists s'. split; [exact E|exact HW].
Defined.

(** A direct write overtakes a payload that is still in the pipe: [3] was sent before [4]. *)
Lemma direct_write_overtakes :
  ∃ s', run_ops 1 [OSend [1; 2] [Ret 1]; OSend [3] []; OWritable [Ret 1]; OSend [4] [Ret 1]; OCommand []; OWritable [Ret 1]] server_9 = Ok ((), s') ∧
    wire 9 (ss_calls s') = [1; 2; 4; 3].
Proof. eexists. split; [vm_compute; reflexivity|reflexivity]. Qed.

(** The assertion of step 4: the system refuses the first byte of the low list. *)
Lemma low_list_assertion :
  run_ops 1 [OSend [1; 2] [Ret 1]; OSend [3] []; OSendLow [4]; OCommand []; OCommand []; OWritable [Ret 1; Ret 1]] server_9 = Fault AssertFailed.
Proof. vm_compute. reflexivity. Qed.
