(* ===== verification/Harbor.v ===== *)
(** [service-src/service_harbor.c]: the service that connects the nodes of a cluster.

    For every other node (a harbor id from 1 to 255) the service has a connection: messages
    to it are queued until it is up and then written with a header of twelve bytes behind
    the payload; what comes in is cut into messages and sent to the local services.  Global
    names are in a hash table; messages to a name nobody has told yet wait at the name.
    What the service asks of the runtime is recorded in order as a list of actions. *)

From S2P Require Import Prelude CString Handle MessageQueue Node Server.
From S2P Require Import Chain Frames Gate.
Open Scope Z_scope.

Definition HASH_SIZE : Z := 4096.
Definition HARBOR_QUEUE_SIZE : Z := 1024.
Definition HEADER_COOKIE_LENGTH : Z := 12.
Definition REMOTE_MAX : Z := 256.
Definition UINT32_MAX : Z := 2 ^ 32 - 1.

(** ** Data *)

Record remote_message_header : Set := RHeader { rh_source : Z; rh_destination : Z; rh_session : Z }.

(** A payload is its bytes; its address does not matter. *)
Record harbor_msg : Set := HarborMsg { hm_header : remote_message_header; hm_buffer : list Z; hm_size : Z }.

Record harbor_msg_queue : Set := HQueue {
  hq_size : Z;
  hq_head : Z;
  hq_tail : Z;
  hq_data : list (option harbor_msg)
}.

Record keyvalue : Set := KeyValue {
  kv_next : Z;
  kv_key : list Z;
  kv_hash : Z;
  kv_value : Z;
  kv_queue : option harbor_msg_queue
}.

#[export] Instance kv_linked : Linked keyvalue := λ k, Some (kv_next k).

Definition STATUS_WAIT : Z := 0.
Definition STATUS_HANDSHAKE : Z := 1.
Definition STATUS_HEADER : Z := 2.
Definition STATUS_CONTENT : Z := 3.
Definition STATUS_DOWN : Z := 4.

Record slave : Set := Slave {
  sl_fd : Z;
  sl_queue : option harbor_msg_queue;
  sl_status : Z;
  sl_length : Z;
  sl_read : Z;
  sl_size : buffer;
  sl_recv_buffer : option buffer
}.

(** The heads of the hash table's chains, the nodes by address (none is freed before the
    end), and the connections. *)
Record harbor : Set := Harbor {
  hb_id : Z;
  hb_slave : Z;
  hb_map : list Z;
  hb_nodes : list keyvalue;
  hb_s : list slave
}.

Inductive haction : Set :=
| HSend (src destination type session : Z) (payload : list Z)
| HError (text : cstring)
| HSocketSend (fd : Z) (bytes : list Z)
| HSocketClose (fd : Z)
| HSocketStart (fd : Z)
| HCallback
| HStart
| HFree (payload : list Z).

(** The service and what it has done so far. *)
Record hstate : Set := HState { hs : harbor; hacts : list haction }.

(** What [skynet_send] returns to the last of the actions. *)
Class HarborRuntime : Set := { rt_send : list haction → Z }.

Definition hact (a : haction) : SM hstate unit := modify (λ s, HState (hs s) (hacts s ++ [a])).
Definition getH : SM hstate harbor := gets hs.
Definition putH (h : harbor) : SM hstate unit := modify (λ s, HState h (hacts s)).

Definition set_nodes (m : list Z) (n : list keyvalue) (h : harbor) : harbor := Harbor (hb_id h) (hb_slave h) m n (hb_s h).
Definition set_s (l : list slave) (h : harbor) : harbor := Harbor (hb_id h) (hb_slave h) (hb_map h) (hb_nodes h) l.

Definition get_s (id : Z) : SM hstate slave := h ← getH; lift (rd (hb_s h) id).
Definition put_s (id : Z) (s : slave) : SM hstate unit :=
  h ← getH; l ← lift (wr (hb_s h) id s); putH (set_s l h).
Definition get_kv (n : Z) : SM hstate keyvalue := h ← getH; lift (rd (hb_nodes h) n).
Definition put_kv (n : Z) (k : keyvalue) : SM hstate unit :=
  h ← getH; l ← lift (wr (hb_nodes h) n k); putH (set_nodes (hb_map h) l h).

Definition with_status (st : Z) (s : slave) : slave :=
  Slave (sl_fd s) (sl_queue s) st (sl_length s) (sl_read s) (sl_size s) (sl_recv_buffer s).
Definition with_queue (q : option harbor_msg_queue) (s : slave) : slave :=
  Slave (sl_fd s) q (sl_status s) (sl_length s) (sl_read s) (sl_size s) (sl_recv_buffer s).
Definition with_kv_queue (q : option harbor_msg_queue) (k : keyvalue) : keyvalue :=
  KeyValue (kv_next k) (kv_key k) (kv_hash k) (kv_value k) q.

(** ** Message queues *)

Definition expand_step (q : harbor_msg_queue) (i : Z) (new : list (option harbor_msg)) : res (list (option harbor_msg)) :=
  x ← rd (hq_data q) (Z.rem (i + hq_head q) (hq_size q)); wr new i x.

Definition push_queue_msg (q : harbor_msg_queue) (m : harbor_msg) : res harbor_msg_queue :=
  q ← (if Z.rem (hq_tail q + 1) (hq_size q) =? hq_head q then
         size2 ← int_chk (hq_size q * 2);
         new ← for_range (Z.to_nat (hq_size q - 1)) 0 (expand_step q) (replicate (Z.to_nat size2) None);
         Ok (HQueue size2 0 (hq_size q - 1) new)
       else Ok q);
  d ← wr (hq_data q) (hq_tail q) (Some m);
  Ok (HQueue (hq_size q) (hq_head q) (Z.rem (hq_tail q + 1) (hq_size q)) d).

Definition push_queue (q : harbor_msg_queue) (buffer : list Z) (sz : Z) (header : remote_message_header) : res harbor_msg_queue :=
  push_queue_msg q (HarborMsg header buffer sz).

Definition pop_queue (q : harbor_msg_queue) : res (option harbor_msg * harbor_msg_queue) :=
  if hq_head q =? hq_tail q then Ok (None, q)
  else
    m ← rd_init (hq_data q) (hq_head q);
    Ok (Some m, HQueue (hq_size q) (Z.rem (hq_head q + 1) (hq_size q)) (hq_tail q) (hq_data q)).

Definition new_queue : harbor_msg_queue := HQueue HARBOR_QUEUE_SIZE 0 0 (replicate (Z.to_nat HARBOR_QUEUE_SIZE) None).

(** [while ((m = pop_queue(queue)) != NULL) body(m)]; a queue has fewer messages than slots. *)
Definition drain_round (body : harbor_msg → SM hstate unit) (q : harbor_msg_queue) : SM hstate (loop harbor_msg_queue harbor_msg_queue) :=
  '(o, q) ← lift (pop_queue q);
  match o with
  | None => mret (Break q)
  | Some m => _ ← body m; mret (Continue q)
  end.

Definition drain (q : harbor_msg_queue) (body : harbor_msg → SM hstate unit) : SM hstate harbor_msg_queue :=
  iterateM (S (Z.to_nat (hq_size q))) (drain_round body) q.

Definition release_queue (o : option harbor_msg_queue) : SM hstate unit :=
  match o with
  | None => mret tt
  | Some q => _ ← drain q (λ m, hact (HFree (hm_buffer m))); mret tt
  end.

(** ** The hash table *)

Definition ptr_at (name : list Z) (i : nat) : Z :=
  nth (4 * i) name 0 + 2 ^ 8 * nth (4 * i + 1) name 0 + 2 ^ 16 * nth (4 * i + 2) name 0 + 2 ^ 24 * nth (4 * i + 3) name 0.

Definition name_hash (name : list Z) : Z :=
  Z.lxor (Z.lxor (Z.lxor (ptr_at name 0) (ptr_at name 1)) (ptr_at name 2)) (ptr_at name 3).

(** [strncmp(a, b, n) == 0] *)
Fixpoint strncmp_eq (n : nat) (a b : list Z) : bool :=
  match n, a, b with
  | S n, x :: a, y :: b => (x =? y) && ((x =? 0) || strncmp_eq n a b)
  | _, _, _ => true
  end.

Definition search_round (nodes : list keyvalue) (h : Z) (name : list Z) (node : Z) : res (loop Z Z) :=
  if node =? NULL then Ok (Break NULL)
  else
    k ← rd nodes node;
    if (kv_hash k =? h) && strncmp_eq GLOBALNAME_LENGTH (kv_key k) name then Ok (Break node)
    else Ok (Continue (kv_next k)).

Definition hash_search (name : list Z) : SM hstate Z :=
  h ← getH;
  let v := name_hash name in
  node ← lift (rd (hb_map h) (v mod HASH_SIZE));
  lift (iterate (S (length (hb_nodes h))) (search_round (hb_nodes h) v name) node).

Definition hash_insert (name : list Z) : SM hstate Z :=
  h ← getH;
  let v := name_hash name in
  head ← lift (rd (hb_map h) (v mod HASH_SIZE));
  let node := Z.of_nat (length (hb_nodes h)) in
  m ← lift (wr (hb_map h) (v mod HASH_SIZE) node);
  _ ← putH (set_nodes m (hb_nodes h ++ [KeyValue head name v 0 None]) h);
  mret node.

(** Names are never erased, so every node is in a chain: each one's queue is released. *)
Definition delete_round (node : Z) : SM hstate (loop Z unit) :=
  if node =? NULL then mret (Break tt)
  else
    k ← get_kv node;
    _ ← release_queue (kv_queue k);
    mret (Continue (kv_next k)).

Definition hash_delete : SM hstate unit :=
  h ← getH;
  _ ← for_rangeM (Z.to_nat HASH_SIZE) 0 (λ i,
        h ← getH;
        head ← lift (rd (hb_map h) i);
        iterateM (S (length (hb_nodes h))) delete_round head);
  putH (set_nodes [] [] h).

(** ** Connections *)

Definition close_harbor (id : Z) : SM hstate unit :=
  s ← get_s id;
  _ ← put_s id (with_status STATUS_DOWN s);
  _ ← (if negb (sl_fd s =? 0) then hact (HSocketClose (sl_fd s)) else mret tt);
  match sl_queue s with
  | Some q =>
      _ ← release_queue (Some q);
      s ← get_s id;
      put_s id (with_queue None s)
  | None => mret tt
  end.

Definition report_harbor_down (id : Z) : SM hstate unit :=
  h ← getH;
  hact (HSend 0 (hb_slave h) PTYPE_TEXT 0 (str "D " ++ print_d id)).

Definition slave_zero : slave := Slave 0 None STATUS_WAIT 0 0 (replicate 4 (Some 0)) None.

Definition harbor_create : harbor :=
  Harbor 0 0 (replicate (Z.to_nat HASH_SIZE) NULL) [] (replicate (Z.to_nat REMOTE_MAX) slave_zero).

Definition harbor_release : SM hstate unit :=
  _ ← for_rangeM (Z.to_nat REMOTE_MAX - 1) 1 (λ i,
        s ← get_s i;
        if negb (sl_fd s =? 0) && negb (sl_status s =? STATUS_DOWN) then close_harbor i else mret tt);
  hash_delete.

(** ** The format on the wire *)

Definition to_bigendian (n : Z) : list Z :=
  [Z.land (Z.shiftr n 24) 0xff; Z.land (Z.shiftr n 16) 0xff; Z.land (Z.shiftr n 8) 0xff; Z.land n 0xff].

Definition header_to_message (header : remote_message_header) : list Z :=
  to_bigendian (rh_source header) ++ to_bigendian (rh_destination header) ++ to_bigendian (rh_session header).

(** From the four bytes in memory. *)
Definition from_bigendian (bytes : list Z) : Z :=
  u32 (Z.lor (Z.lor (Z.lor (i32 (Z.shiftl (nth 0 bytes 0) 24)) (Z.shiftl (nth 1 bytes 0) 16)) (Z.shiftl (nth 2 bytes 0) 8)) (nth 3 bytes 0)).

Definition message_to_header (message : list Z) : remote_message_header :=
  RHeader (from_bigendian (take 4 message)) (from_bigendian (take 4 (drop 4 message))) (from_bigendian (take 4 (drop 8 message))).

Definition send_remote (fd : Z) (buffer : list Z) (sz : Z) (cookie : remote_message_header) : SM hstate unit :=
  let sz_header := sz + HEADER_COOKIE_LENGTH in
  if sz_header >? UINT32_MAX then
    hact (HError (str "remote message from :" ++ print_08x (rh_source cookie) ++ str " to :" ++
                  print_08x (rh_destination cookie) ++ str " is too large."))
  else
    l ← lift (rd_at buffer 0 sz);
    hact (HSocketSend fd (to_bigendian sz_header ++ l ++ header_to_message cookie)).

(** [type << HANDLE_REMOTE_SHIFT] with the handle of a service in its low 24 bits. *)
Definition remote_destination (type destination : Z) : Z :=
  Z.lor (u32 (Z.shiftl type HANDLE_REMOTE_SHIFT)) (Z.land destination HANDLE_MASK).

(** [dispatch_queue]: what waited for the connection is written. *)
Definition dispatch_queue (id : Z) : SM hstate unit :=
  s ← get_s id;
  _ ← lift (assertb (negb (sl_fd s =? 0)));
  match sl_queue s with
  | None => mret tt
  | Some q =>
      q ← drain q (λ m,
        _ ← send_remote (sl_fd s) (hm_buffer m) (hm_size m) (hm_header m);
        hact (HFree (hm_buffer m)));
      _ ← release_queue (Some q);
      s ← get_s id;
      put_s id (with_queue None s)
  end.

Definition with_destination (d : Z) (h : remote_message_header) : remote_message_header :=
  RHeader (rh_source h) d (rh_session h).

(** [push_queue_msg(s->queue, m)] *)
Definition push_to (id : Z) (m : harbor_msg) : SM hstate unit :=
  s ← get_s id;
  sq ← lift (or_fault BadPointer (sl_queue s));
  sq ← lift (push_queue_msg sq m);
  put_s id (with_queue (Some sq) s).

(** The messages at a name move to a connection that is not up yet. *)
Definition move_queue (node id : Z) (q : harbor_msg_queue) : SM hstate unit :=
  s ← get_s id;
  match sl_queue s with
  | None =>
      _ ← put_s id (with_queue (Some q) s);
      k ← get_kv node;
      put_kv node (with_kv_queue None k)
  | Some _ =>
      q ← drain q (push_to id);
      k ← get_kv node;
      put_kv node (with_kv_queue (Some q) k)
  end.

(** The connection is the node itself. *)
Definition deliver_local (id handle : Z) : SM hstate unit :=
  s ← get_s id;
  sq ← lift (or_fault BadPointer (sl_queue s));
  sq ← drain sq (λ m,
    let type := Z.shiftr (rh_destination (hm_header m)) HANDLE_REMOTE_SHIFT in
    hact (HSend (rh_source (hm_header m)) handle (Z.lor type PTYPE_TAG_DONTCOPY) (i32 (rh_session (hm_header m))) (hm_buffer m)));
  _ ← release_queue (Some sq);
  s ← get_s id;
  put_s id (with_queue None s).

(** A name of up to 16 characters. *)
Definition key_text (key : list Z) : cstring := default key (c_string (key ++ [0])).

Definition dispatch_name_queue (node : Z) : SM hstate unit :=
  k ← get_kv node;
  q ← lift (or_fault BadPointer (kv_queue k));
  let handle := kv_value k in
  let harbor_id := Z.shiftr handle HANDLE_REMOTE_SHIFT in
  s ← get_s harbor_id;
  if sl_fd s =? 0 then
    if sl_status s =? STATUS_DOWN then
      hact (HError (str "Drop message to " ++ key_text (kv_key k) ++ str " (in harbor " ++ print_d harbor_id ++ str ")"))
    else
      _ ← move_queue node harbor_id q;
      h ← getH;
      if harbor_id =? Z.shiftr (hb_slave h) HANDLE_REMOTE_SHIFT then deliver_local harbor_id handle else mret tt
  else
    q ← drain q (λ m,
      let d := Z.lor (rh_destination (hm_header m)) (Z.land handle HANDLE_MASK) in
      _ ← send_remote (sl_fd s) (hm_buffer m) (hm_size m) (with_destination d (hm_header m));
      hact (HFree (hm_buffer m)));
    k ← get_kv node;
    put_kv node (with_kv_queue (Some q) k).

Definition update_name (name : list Z) (handle : Z) : SM hstate unit :=
  node ← hash_search name;
  node ← (if node =? NULL then hash_insert name else mret node);
  k ← get_kv node;
  _ ← put_kv node (KeyValue (kv_next k) (kv_key k) (kv_hash k) handle (kv_queue k));
  match kv_queue k with
  | None => mret tt
  | Some _ =>
      _ ← dispatch_name_queue node;
      k ← get_kv node;
      _ ← release_queue (kv_queue k);
      k ← get_kv node;
      put_kv node (with_kv_queue None k)
  end.

(** ** Messages out: 1 when the payload is kept *)

Definition new_or (o : option harbor_msg_queue) : harbor_msg_queue := default new_queue o.

Definition remote_send_handle (source destination type session : Z) (msg : list Z) (sz : Z) : SM hstate Z :=
  let harbor_id := Z.shiftr destination HANDLE_REMOTE_SHIFT in
  h ← getH;
  if harbor_id =? hb_id h then
    _ ← hact (HSend source destination (Z.lor type PTYPE_TAG_DONTCOPY) session msg); mret 1
  else
    s ← get_s harbor_id;
    let header := RHeader source (remote_destination type destination) (u32 session) in
    if (sl_fd s =? 0) || (sl_status s =? STATUS_HANDSHAKE) then
      if sl_status s =? STATUS_DOWN then
        _ ← hact (HSend destination source PTYPE_ERROR 0 []);
        _ ← hact (HError (str "Drop message to harbor " ++ print_d harbor_id ++ str " from " ++ print_x source ++
                          str " to " ++ print_x destination ++ str " (session = " ++ print_d session ++ str ", msgsz = " ++
                          print_d (i32 sz) ++ str ")"));
        mret 0
      else
        q ← lift (push_queue (new_or (sl_queue s)) msg sz header);
        _ ← put_s harbor_id (with_queue (Some q) s);
        mret 1
    else _ ← send_remote (sl_fd s) msg sz header; mret 0.

Definition remote_send_name (source : Z) (name : list Z) (type session : Z) (msg : list Z) (sz : Z) : SM hstate Z :=
  node ← hash_search name;
  node ← (if node =? NULL then hash_insert name else mret node);
  k ← get_kv node;
  if kv_value k =? 0 then
    let header := RHeader source (u32 (Z.shiftl type HANDLE_REMOTE_SHIFT)) (u32 session) in
    q ← lift (push_queue (new_or (kv_queue k)) msg sz header);
    _ ← put_kv node (with_kv_queue (Some q) k);
    h ← getH;
    _ ← hact (HSend 0 (hb_slave h) PTYPE_TEXT 0 (str "Q " ++ key_text name));
    mret 1
  else remote_send_handle source (kv_value k) type session msg sz.

(** ** Bytes in *)

Section harbor.
Context `{!HarborRuntime}.

Definition skynet_send_ (src destination type session : Z) (payload : list Z) : SM hstate Z :=
  _ ← hact (HSend src destination type session payload);
  l ← gets hacts;
  mret (rt_send l).

Definition forward_local_messsage (msg : buffer) (sz : Z) : SM hstate unit :=
  bytes ← lift (init_bytes msg sz);
  cookie ← lift (rd_at bytes (sz - HEADER_COOKIE_LENGTH) HEADER_COOKIE_LENGTH);
  let header := message_to_header cookie in
  let type := Z.shiftr (rh_destination header) HANDLE_REMOTE_SHIFT in
  h ← getH;
  let destination := Z.lor (Z.land (rh_destination header) HANDLE_MASK) (u32 (Z.shiftl (u32 (hb_id h)) HANDLE_REMOTE_SHIFT)) in
  payload ← lift (rd_at bytes 0 (sz - HEADER_COOKIE_LENGTH));
  r ← skynet_send_ (rh_source header) destination (Z.lor type PTYPE_TAG_DONTCOPY) (i32 (rh_session header)) payload;
  if r <? 0 then
    _ ← (if negb (type =? PTYPE_ERROR) then
           hact (HSend destination (rh_source header) PTYPE_ERROR (i32 (rh_session header)) [])
         else mret tt);
    hact (HError (str "Unknown destination :" ++ print_x destination ++ str " from :" ++ print_x (rh_source header) ++
                  str " type(" ++ print_d type ++ str ")"))
  else mret tt.

(** The three cases of [push_socket_data]; [l] are the bytes that are left. *)
Definition content_case (id : Z) (l : list Z) : SM hstate (loop (list Z) unit) :=
  s ← get_s id;
  let need := sl_length s - sl_read s in
  let size := Z.of_nat (length l) in
  b ← lift (or_fault BadPointer (sl_recv_buffer s));
  if size <? need then
    b ← lift (wr_at b (sl_read s) l);
    _ ← put_s id (Slave (sl_fd s) (sl_queue s) (sl_status s) (sl_length s) (sl_read s + size) (sl_size s) (Some b));
    mret (Break tt)
  else
    part ← lift (rd_at l 0 need);
    b ← lift (wr_at b (sl_read s) part);
    _ ← forward_local_messsage b (sl_length s);
    s ← get_s id;
    _ ← put_s id (Slave (sl_fd s) (sl_queue s) STATUS_HEADER 0 0 (sl_size s) None);
    let l := drop (Z.to_nat need) l in
    if (length l =? 0)%nat then mret (Break tt) else mret (Continue l).

Definition header_case (id : Z) (l : list Z) : SM hstate (loop (list Z) unit) :=
  s ← get_s id;
  let need := 4 - sl_read s in
  let size := Z.of_nat (length l) in
  if size <? need then
    b ← lift (wr_at (sl_size s) (sl_read s) l);
    _ ← put_s id (Slave (sl_fd s) (sl_queue s) (sl_status s) (sl_length s) (sl_read s + size) b (sl_recv_buffer s));
    mret (Break tt)
  else
    part ← lift (rd_at l 0 need);
    b ← lift (wr_at (sl_size s) (sl_read s) part);
    let l := drop (Z.to_nat need) l in
    c0 ← lift (rd_init b 0);
    c1 ← lift (rd_init b 1);
    c2 ← lift (rd_init b 2);
    c3 ← lift (rd_init b 3);
    if negb (c0 =? 0) then
      _ ← put_s id (Slave (sl_fd s) (sl_queue s) (sl_status s) (sl_length s) (sl_read s) b (sl_recv_buffer s));
      _ ← hact (HError (str "Message is too long from harbor " ++ print_d id));
      _ ← close_harbor id;
      mret (Break tt)
    else
      let length_ := Z.lor (Z.lor (Z.shiftl c1 16) (Z.shiftl c2 8)) c3 in
      _ ← put_s id (Slave (sl_fd s) (sl_queue s) STATUS_CONTENT length_ 0 b (Some (replicate (Z.to_nat length_) None)));
      if (length l =? 0)%nat then mret (Break tt) else content_case id l.

Definition handshake_case (id : Z) (l : list Z) : SM hstate (loop (list Z) unit) :=
  remote_id ← lift (rd l 0);
  s ← get_s id;
  if negb (remote_id =? id) then
    _ ← hact (HError (str "Invalid shakehand id (" ++ print_d id ++ str ") from fd = " ++ print_d (sl_fd s) ++
                      str " , harbor = " ++ print_d remote_id));
    _ ← close_harbor id;
    mret (Break tt)
  else
    _ ← put_s id (with_status STATUS_HEADER s);
    _ ← dispatch_queue id;
    let l := drop 1 l in
    if (length l =? 0)%nat then mret (Continue l) else header_case id l.

Definition data_round (id : Z) (l : list Z) : SM hstate (loop (list Z) unit) :=
  s ← get_s id;
  if sl_status s =? STATUS_HANDSHAKE then handshake_case id l
  else if sl_status s =? STATUS_HEADER then header_case id l
  else if sl_status s =? STATUS_CONTENT then content_case id l
  else mret (Break tt).

(** The connection with a socket, from id 1 on; 0 when there is none. *)
Fixpoint find_fd (l : list slave) (fd i : Z) : Z :=
  match l with
  | [] => 0
  | s :: l => if sl_fd s =? fd then i else find_fd l fd (i + 1)
  end.

Definition harbor_id (fd : Z) : SM hstate Z := h ← getH; mret (find_fd (drop 1 (hb_s h)) fd 1).

(** Every round but the first takes a byte. *)
Definition push_socket_data (e : gate_event) : SM hstate unit :=
  _ ← lift (assertb (ev_type e =? SKYNET_SOCKET_TYPE_DATA));
  id ← harbor_id (ev_id e);
  if id =? 0 then hact (HError (str "Invalid socket fd (" ++ print_d (ev_id e) ++ str ") data"))
  else
    l ← lift (rd_at (ev_buffer e) 0 (ev_ud e));
    iterateM (2 + length l) (data_round id) l.

(** ** Commands and messages *)

Definition handshake (id : Z) : SM hstate unit :=
  s ← get_s id;
  h ← getH;
  hact (HSocketSend (sl_fd s) [u8 (hb_id h)]).

(** [S fd id] and [A fd id]. *)
Definition connect_command (c : Z) (text : cstring) : SM hstate unit :=
  let '(fd, rest) := default (0, text) (scan_d text) in
  let id := match scan_d text with Some _ => from_option fst 0 (scan_d rest) | None => 0 end in
  if (fd =? 0) || (id <=? 0) || (id >=? REMOTE_MAX) then
    hact (HError (str "Invalid command " ++ [c] ++ str " " ++ text))
  else
    s ← get_s id;
    if negb (sl_fd s =? 0) then hact (HError (str "Harbor " ++ print_d id ++ str " alreay exist"))
    else
      _ ← put_s id (Slave fd (sl_queue s) (sl_status s) (sl_length s) (sl_read s) (sl_size s) (sl_recv_buffer s));
      _ ← hact (HSocketStart fd);
      _ ← handshake id;
      s ← get_s id;
      if c =? 83 then put_s id (with_status STATUS_HANDSHAKE s)
      else
        _ ← put_s id (with_status STATUS_HEADER s);
        dispatch_queue id.

(** [skynet_send] leaves a zero behind the bytes of a message. *)
Definition harbor_command (msg : list Z) (source : Z) : SM hstate unit :=
  let mem := msg ++ [0] in
  let s := Z.of_nat (length msg) - 2 in
  c ← lift (rd mem 0);
  if c =? 78 then
    if (s <=? 0) || (s >=? Z.of_nat GLOBALNAME_LENGTH) then
      name ← lift (c_str_at mem 2);
      hact (HError (str "Invalid global name " ++ name))
    else
      name ← lift (rd_at mem 2 s);
      update_name (name ++ replicate (GLOBALNAME_LENGTH - Z.to_nat s) 0) source
  else if (c =? 83) || (c =? 65) then
    name ← lift (rd_at mem 2 s);
    text ← lift (c_str_at (name ++ [0]) 0);
    connect_command c text
  else
    text ← lift (c_str_at mem 0);
    hact (HError (str "Unknown command " ++ text)).

Inductive harbor_payload : Set :=
| HBytes (msg : list Z)
| HSocket (e : gate_event)
| HRemote (handle : Z) (name : list Z) (message : list Z).

Definition socket_event (e : gate_event) : SM hstate unit :=
  if ev_type e =? SKYNET_SOCKET_TYPE_DATA then
    _ ← push_socket_data e; hact (HFree (ev_buffer e))
  else if (ev_type e =? SKYNET_SOCKET_TYPE_ERROR) || (ev_type e =? SKYNET_SOCKET_TYPE_CLOSE) then
    id ← harbor_id (ev_id e);
    if negb (id =? 0) then report_harbor_down id
    else hact (HError (str "Unkown fd (" ++ print_d (ev_id e) ++ str ") closed"))
  else if ev_type e =? SKYNET_SOCKET_TYPE_CONNECT then mret tt
  else if ev_type e =? SKYNET_SOCKET_TYPE_WARNING then
    id ← harbor_id (ev_id e);
    if negb (id =? 0) then
      hact (HError (str "message havn't send to Harbor (" ++ print_d id ++ str ") reach " ++ print_d (ev_ud e) ++ str " K"))
    else mret tt
  else hact (HError (str "recv invalid socket message type " ++ print_d PTYPE_SOCKET)).

Definition mainloop (type session source : Z) (msg : harbor_payload) : SM hstate Z :=
  if type =? PTYPE_SOCKET then
    match msg with HSocket e => _ ← socket_event e; mret 0 | _ => lift (Fault BadPointer) end
  else if type =? PTYPE_HARBOR then
    match msg with HBytes l => _ ← harbor_command l source; mret 0 | _ => lift (Fault BadPointer) end
  else
    match msg with
    | HRemote handle name message =>
        let sz := Z.of_nat (length message) in
        r ← (if handle =? 0 then remote_send_name source name type session message sz
             else remote_send_handle source handle type session message sz);
        if negb (r =? 0) then mret 0
        else _ ← hact (HFree message); mret 0
    | _ => lift (Fault BadPointer)
    end.

(** [sscanf(args, "%d %u", ...)] *)
Definition scan_u (s : cstring) : option (Z * cstring) :=
  '(v, rest) ← scan_number s; Some (u32 (if Z.abs v >? ULONG_MAX then ULONG_MAX else v), rest).

Definition harbor_init (args : cstring) : SM hstate Z :=
  let '(harbor_id, rest) := default (0, args) (scan_d args) in
  let slave := match scan_d args with Some _ => from_option fst 0 (scan_u rest) | None => 0 end in
  if slave =? 0 then mret 1
  else
    h ← getH;
    _ ← putH (Harbor harbor_id slave (hb_map h) (hb_nodes h) (hb_s h));
    _ ← hact HCallback;
    _ ← hact HStart;
    mret 0.
End harbor.
