(* ===== verification/HarborProps.v ===== *)
(** The harbor service's specification, and its queues and hash table.

    The specification has a list of messages for every connection and every name, the bytes
    of a connection that are not a whole message yet, and the actions so far. *)

From S2P Require Import Prelude CString Handle MessageQueue Node Server.
From S2P Require Import Ring Chain Frames Gate Harbor.
Open Scope Z_scope.

(** ** The specification *)

(** A message in a queue: its header and its payload. *)
Definition amsg : Set := remote_message_header * list Z.

Inductive phase : Set := PWait | PHandshake | PUp (rest : list Z) | PDown.

Record aconn : Set := AConn { ac_fd : Z; ac_phase : phase; ac_queue : list amsg }.

Record aname : Set := AName { an_key : list Z; an_value : Z; an_queue : list amsg }.

Record aharbor : Set := AHarbor {
  ah_id : Z;
  ah_slave : Z;
  ah_conns : list aconn;
  ah_names : list aname;
  ah_acts : list haction
}.

Definition act (l : list haction) (A : aharbor) : aharbor :=
  AHarbor (ah_id A) (ah_slave A) (ah_conns A) (ah_names A) (ah_acts A ++ l).
Definition set_conn (id : Z) (c : aconn) (A : aharbor) : aharbor :=
  AHarbor (ah_id A) (ah_slave A) (<[Z.to_nat id := c]> (ah_conns A)) (ah_names A) (ah_acts A).
Definition set_names (l : list aname) (A : aharbor) : aharbor :=
  AHarbor (ah_id A) (ah_slave A) (ah_conns A) l (ah_acts A).

Definition conn_zero : aconn := AConn 0 PWait [].
Definition conn_of (A : aharbor) (id : Z) : aconn := nth (Z.to_nat id) (ah_conns A) conn_zero.

(** A message on the wire: the length, the payload, the header. *)
Definition remote_wire (m : amsg) : list Z :=
  to_bigendian (Z.of_nat (length m.2) + HEADER_COOKIE_LENGTH) ++ m.2 ++ header_to_message m.1.

Definition write_msg (fd : Z) (m : amsg) : list haction := [HSocketSend fd (remote_wire m); HFree m.2].
Definition drop_msgs (q : list amsg) : list haction := map (λ m, HFree m.2) q.

(** The connection breaks for good. *)
Definition a_close (id : Z) (A : aharbor) : aharbor :=
  let c := conn_of A id in
  act ((if ac_fd c =? 0 then [] else [HSocketClose (ac_fd c)]) ++ drop_msgs (ac_queue c))
    (set_conn id (AConn (ac_fd c) PDown []) A).

(** What waited is written. *)
Definition a_flush (id : Z) (A : aharbor) : aharbor :=
  let c := conn_of A id in
  act (concat (map (write_msg (ac_fd c)) (ac_queue c))) (set_conn id (AConn (ac_fd c) (ac_phase c) []) A).

(** *** Messages out *)

Definition out_msg (source type session destination : Z) (payload : list Z) : amsg :=
  (RHeader source (remote_destination type destination) (u32 session), payload).

Definition a_send (source destination type session : Z) (payload : list Z) (A : aharbor) : aharbor :=
  let id := Z.shiftr destination HANDLE_REMOTE_SHIFT in
  if id =? ah_id A then act [HSend source destination (Z.lor type PTYPE_TAG_DONTCOPY) session payload] A
  else
    let c := conn_of A id in
    let m := out_msg source type session destination payload in
    match ac_phase c with
    | PWait | PHandshake => set_conn id (AConn (ac_fd c) (ac_phase c) (ac_queue c ++ [m])) A
    | _ => act (write_msg (ac_fd c) m) A
    end.

(** The position of a name. *)
Fixpoint name_index (l : list aname) (name : list Z) : option nat :=
  match l with
  | [] => None
  | n :: l => if bool_decide (an_key n = name) then Some 0%nat else S <$> name_index l name
  end.

(** The names with [name] among them, and where. *)
Definition with_name (l : list aname) (name : list Z) : list aname * nat :=
  match name_index l name with
  | Some k => (l, k)
  | None => (l ++ [AName name 0 []], length l)
  end.

Definition name_zero : aname := AName [] 0 [].

Definition a_send_name (source : Z) (name : list Z) (type session : Z) (payload : list Z) (A : aharbor) : aharbor :=
  let '(l, k) := with_name (ah_names A) name in
  let n := nth k l name_zero in
  if an_value n =? 0 then
    let m := (RHeader source (u32 (Z.shiftl type HANDLE_REMOTE_SHIFT)) (u32 session), payload) in
    act [HSend 0 (ah_slave A) PTYPE_TEXT 0 (str "Q " ++ key_text name)]
      (set_names (<[k := AName (an_key n) 0 (an_queue n ++ [m])]> l) A)
  else a_send source (an_value n) type session payload (set_names l A).

(** A name becomes known.  The messages that wait at it get the handle when they are written at
    once; when they go on waiting for the connection they do not. *)
Definition to_handle (handle : Z) (m : amsg) : amsg :=
  (with_destination (Z.lor (rh_destination m.1) (Z.land handle HANDLE_MASK)) m.1, m.2).

Definition local_send (handle : Z) (m : amsg) : haction :=
  HSend (rh_source m.1) handle (Z.lor (Z.shiftr (rh_destination m.1) HANDLE_REMOTE_SHIFT) PTYPE_TAG_DONTCOPY)
    (i32 (rh_session m.1)) m.2.

Definition a_dispatch (handle : Z) (q : list amsg) (A : aharbor) : aharbor :=
  let id := Z.shiftr handle HANDLE_REMOTE_SHIFT in
  let c := conn_of A id in
  if ac_fd c =? 0 then
    if id =? Z.shiftr (ah_slave A) HANDLE_REMOTE_SHIFT then
      act (map (local_send handle) (ac_queue c ++ q)) (set_conn id (AConn (ac_fd c) (ac_phase c) []) A)
    else set_conn id (AConn (ac_fd c) (ac_phase c) (ac_queue c ++ q)) A
  else act (concat (map (λ m, write_msg (ac_fd c) (to_handle handle m)) q)) A.

Definition a_name (name : list Z) (handle : Z) (A : aharbor) : aharbor :=
  let '(l, k) := with_name (ah_names A) name in
  let n := nth k l name_zero in
  a_dispatch handle (an_queue n) (set_names (<[k := AName (an_key n) handle []]> l) A).

(** *** Bytes in *)

Inductive cut_end : Set := CRest (rest : list Z) | CLong | CShort.

Definition frame_length (b1 b2 b3 : Z) : nat := Z.to_nat (b1 * 2 ^ 16 + b2 * 2 ^ 8 + b3).

(** The messages of a stream; an empty one is taken with the byte behind it. *)
Fixpoint hcut_ (fuel : nat) (s : list Z) : list (list Z) * cut_end :=
  match fuel, s with
  | S fuel, b0 :: b1 :: b2 :: b3 :: body =>
      if negb (b0 =? 0) then ([], CLong)
      else
        let n := frame_length b1 b2 b3 in
        if (Nat.max 1 n <=? length body)%nat then
          if (n <? Z.to_nat HEADER_COOKIE_LENGTH)%nat then ([], CShort)
          else let '(fs, e) := hcut_ fuel (drop n body) in (take n body :: fs, e)
        else ([], CRest s)
  | _, _ => ([], CRest s)
  end.

Definition hcut (s : list Z) : list (list Z) * cut_end := hcut_ (length s) s.

Section spec.
Context `{!HarborRuntime}.

(** A message for a local service, and the answer when there is none. *)
Definition a_deliver (f : list Z) (A : aharbor) : aharbor :=
  let n := (length f - Z.to_nat HEADER_COOKIE_LENGTH)%nat in
  let h := message_to_header (drop n f) in
  let type := Z.shiftr (rh_destination h) HANDLE_REMOTE_SHIFT in
  let destination := Z.lor (Z.land (rh_destination h) HANDLE_MASK) (u32 (Z.shiftl (u32 (ah_id A)) HANDLE_REMOTE_SHIFT)) in
  let A := act [HSend (rh_source h) destination (Z.lor type PTYPE_TAG_DONTCOPY) (i32 (rh_session h)) (take n f)] A in
  if rt_send (ah_acts A) <? 0 then
    act ((if type =? PTYPE_ERROR then [] else [HSend destination (rh_source h) PTYPE_ERROR (i32 (rh_session h)) []]) ++
         [HError (str "Unknown destination :" ++ print_x destination ++ str " from :" ++ print_x (rh_source h) ++
                  str " type(" ++ print_d type ++ str ")")]) A
  else A.

Definition with_phase (id : Z) (p : phase) (A : aharbor) : aharbor :=
  let c := conn_of A id in set_conn id (AConn (ac_fd c) p (ac_queue c)) A.

(** The bytes [s] follow each other on an open connection. *)
Definition a_bytes (id : Z) (s : list Z) (A : aharbor) : res aharbor :=
  let '(fs, e) := hcut s in
  let A := foldl (λ A f, a_deliver f A) A fs in
  match e with
  | CRest rest => Ok (with_phase id (PUp rest) A)
  | CLong => Ok (a_close id (act [HError (str "Message is too long from harbor " ++ print_d id)] A))
  | CShort => Fault OutOfBounds
  end.

Definition a_data (id : Z) (l : list Z) (A : aharbor) : res aharbor :=
  let c := conn_of A id in
  match ac_phase c, l with
  | PHandshake, r :: l =>
      if r =? id then a_bytes id l (a_flush id (with_phase id (PUp []) A))
      else
        Ok (a_close id (act [HError (str "Invalid shakehand id (" ++ print_d id ++ str ") from fd = " ++ print_d (ac_fd c) ++
                                     str " , harbor = " ++ print_d r)] A))
  | PUp rest, _ => a_bytes id (rest ++ l) A
  | _, _ => Ok A
  end.

(** *** Histories *)

Inductive hop : Set :=
| OpName (name : cstring) (handle : Z)
| OpConnect (accept : bool) (fd id : Z)
| OpSend (source handle type session : Z) (payload : list Z)
| OpSendName (source : Z) (name : cstring) (type session : Z) (payload : list Z)
| OpData (fd : Z) (bytes : list Z)
| OpClosed (error : bool) (fd : Z).

Definition pad_name (name : cstring) : list Z := name ++ replicate (GLOBALNAME_LENGTH - length name) 0.

Fixpoint find_conn (l : list aconn) (fd i : Z) : Z :=
  match l with
  | [] => 0
  | c :: l => if ac_fd c =? fd then i else find_conn l fd (i + 1)
  end.

Definition a_connect (accept : bool) (fd id : Z) (A : aharbor) : aharbor :=
  let c := conn_of A id in
  if negb (ac_fd c =? 0) then act [HError (str "Harbor " ++ print_d id ++ str " alreay exist")] A
  else
    let A := act [HSocketStart fd; HSocketSend fd [u8 (ah_id A)]]
               (set_conn id (AConn fd (if accept then PUp [] else PHandshake) (ac_queue c)) A) in
    if accept then a_flush id A else A.

Definition spec_op (o : hop) (A : aharbor) : res aharbor :=
  match o with
  | OpName name handle => Ok (a_name (pad_name name) handle A)
  | OpConnect accept fd id => Ok (a_connect accept fd id A)
  | OpSend source handle type session payload => Ok (a_send source handle type session payload A)
  | OpSendName source name type session payload => Ok (a_send_name source (pad_name name) type session payload A)
  | OpData fd bytes =>
      let id := find_conn (drop 1 (ah_conns A)) fd 1 in
      A ← (if id =? 0 then Ok (act [HError (str "Invalid socket fd (" ++ print_d fd ++ str ") data")] A)
           else a_data id bytes A);
      Ok (act [HFree bytes] A)
  | OpClosed _ fd =>
      let id := find_conn (drop 1 (ah_conns A)) fd 1 in
      Ok (act [if id =? 0 then HError (str "Unkown fd (" ++ print_d fd ++ str ") closed")
               else HSend 0 (ah_slave A) PTYPE_TEXT 0 (str "D " ++ print_d id)] A)
  end.

Fixpoint spec_hops (l : list hop) (A : aharbor) : res aharbor :=
  match l with
  | [] => Ok A
  | o :: l => A ← spec_op o A; spec_hops l A
  end.

(** The message of each operation, as the service gets it. *)
Definition run_hop (o : hop) : SM hstate Z :=
  match o with
  | OpName name handle => mainloop PTYPE_HARBOR 0 handle (HBytes (str "N " ++ name))
  | OpConnect accept fd id =>
      mainloop PTYPE_HARBOR 0 0 (HBytes ((if accept then str "A " else str "S ") ++ print_d fd ++ str " " ++ print_d id))
  | OpSend source handle type session payload => mainloop type session source (HRemote handle [] payload)
  | OpSendName source name type session payload => mainloop type session source (HRemote 0 (pad_name name) payload)
  | OpData fd bytes =>
      mainloop PTYPE_SOCKET 0 0 (HSocket (GateEvent SKYNET_SOCKET_TYPE_DATA fd (Z.of_nat (length bytes)) bytes []))
  | OpClosed error fd =>
      mainloop PTYPE_SOCKET 0 0 (HSocket (GateEvent (if error then SKYNET_SOCKET_TYPE_ERROR else SKYNET_SOCKET_TYPE_CLOSE) fd 0 [] []))
  end.

Fixpoint run_hops (l : list hop) : SM hstate unit :=
  match l with
  | [] => mret tt
  | o :: l => _ ← run_hop o; run_hops l
  end.

Definition u32_ok (z : Z) : Prop := 0 ≤ z < 2 ^ 32.

(** What the runtime sends: handles of 32 bits, message types of 8 bits that are not those of
    the service itself, names of less than 16 characters, socket ids that are positive. *)
Definition hop_ok (o : hop) : Prop :=
  match o with
  | OpName name handle => cstr_ok name ∧ (0 < length name < GLOBALNAME_LENGTH)%nat ∧ u32_ok handle
  | OpConnect _ fd id => 0 < fd < 2 ^ 31 ∧ 0 < id < REMOTE_MAX
  | OpSend source handle type session payload =>
      u32_ok source ∧ u32_ok handle ∧ handle ≠ 0 ∧ 0 ≤ type < 2 ^ 8 ∧ type ≠ PTYPE_SOCKET ∧ type ≠ PTYPE_HARBOR ∧
      INT_MIN ≤ session ≤ INT_MAX ∧ Z.of_nat (length payload) + HEADER_COOKIE_LENGTH ≤ UINT32_MAX
  | OpSendName source name type session payload =>
      u32_ok source ∧ cstr_ok name ∧ (length name ≤ GLOBALNAME_LENGTH)%nat ∧ 0 ≤ type < 2 ^ 8 ∧ type ≠ PTYPE_SOCKET ∧
      type ≠ PTYPE_HARBOR ∧ INT_MIN ≤ session ≤ INT_MAX ∧ Z.of_nat (length payload) + HEADER_COOKIE_LENGTH ≤ UINT32_MAX
  | OpData fd bytes => 0 < fd ∧ Forall byte bytes ∧ bytes ≠ []
  | OpClosed _ fd => 0 < fd
  end.
End spec.

(** ** Queues *)

Definition msg_of (m : amsg) : harbor_msg := HarborMsg m.1 m.2 (Z.of_nat (length m.2)).

Definition QUEUE_MAX : Z := 2 ^ 29.

Record queue_ok (q : harbor_msg_queue) (l : list amsg) : Prop := {
  qo_ring : ring_repr (hq_data q) (hq_size q) (hq_head q) (hq_tail q) (map msg_of l);
  qo_size : 1 < hq_size q ≤ 2 * QUEUE_MAX
}.

(** NULL has no messages. *)
Definition queue_repr (o : option harbor_msg_queue) (l : list amsg) : Prop :=
  match o with Some q => queue_ok q l | None => l = [] end.

Lemma rem_wrap i n : 0 ≤ i < n → Z.rem (i + 1) n = wrap1 i n.
Proof. intros H. rewrite wrap1_mod by done. apply Z.rem_mod_nonneg; lia. Qed.

Lemma new_queue_ok : queue_ok new_queue [].
Proof. split; [by apply ring_repr_init|done]. Qed.

Lemma new_or_ok o l : queue_repr o l → queue_ok (new_or o) l.
Proof. destruct o as [q|]; [done|]. intros ->. apply new_queue_ok. Qed.

Lemma pop_queue_lemma q l : queue_ok q l →
  match l with
  | [] => pop_queue q = Ok (None, q)
  | m :: l => ∃ q', pop_queue q = Ok (Some (msg_of m), q') ∧ queue_ok q' l ∧ hq_size q' = hq_size q
  end.
Proof.
  intros [Hr Hs]. pose proof (ring_empty_iff _ _ _ _ _ Hr) as Hempty. unfold pop_queue. destruct l as [|m l]; cbn [map] in *.
  - rewrite (proj2 Hempty eq_refl), Z.eqb_refl. done.
  - destruct (Z.eqb_spec (hq_head q) (hq_tail q)) as [E|_]; [by apply Hempty in E|].
    destruct (ring_pop _ _ _ _ _ _ Hr) as [Erd Hr']. rewrite Erd, bind_ok. eexists. split; [done|].
    rewrite rem_wrap by (apply (rr_head _ _ _ _ _ Hr)). by split; [split|].
Qed.

Lemma expand_queue_ok q (l : list amsg) size2 : queue_ok q l → Z.of_nat (length l) + 1 = hq_size q → size2 = hq_size q * 2 →
  ∃ new, for_range (Z.to_nat (hq_size q - 1)) 0 (expand_step q) (replicate (Z.to_nat size2) None) = Ok new ∧
    ring_repr new size2 0 (hq_size q - 1) (map msg_of l).
Proof.
  intros [Hr Hs] Hfull ->. destruct (for_range_inv (λ j new, Z.of_nat (length new) = hq_size q * 2 ∧
      ∀ i x, (Z.of_nat i < j) → map msg_of l !! i = Some x → new !! i = Some (Some x))
    (Z.to_nat (hq_size q - 1)) 0 (expand_step q) (replicate (Z.to_nat (hq_size q * 2)) None)) as (new & E & Hlen & Hel).
  - split; [rewrite length_replicate; lia|]. lia.
  - intros j new Hj (Hlen & Hel). unfold expand_step.
    destruct (lookup_lt_is_Some_2 (map msg_of l) (Z.to_nat j)) as [x Hx]; [rewrite length_map; lia|].
    pose proof (rr_elem _ _ _ _ _ Hr _ _ Hx) as Hx'. unfold ring_ix in Hx'. rewrite Z2Nat.id in Hx' by lia.
    pose proof (rr_head _ _ _ _ _ Hr) as Hh. rewrite Z.rem_mod_nonneg by lia. rewrite Z.add_comm.
    rewrite (rd_ok _ _ _ (proj1 (Z.mod_pos_bound (hq_head q + j) (hq_size q) ltac:(lia))) Hx'), bind_ok.
    rewrite wr_ok by lia. eexists. split; [done|]. split; [by rewrite length_insert|].
    intros i y Hi Hy. destruct (decide (i = Z.to_nat j)) as [->|Hne].
    + rewrite list_lookup_insert_eq by lia. rewrite Hx in Hy. by injection Hy as ->.
    + rewrite list_lookup_insert_ne by done. apply Hel; [lia|done].
  - exists new. split; [done|]. replace (hq_size q - 1) with (Z.of_nat (length (map msg_of l))) by (rewrite length_map; lia).
    apply ring_repr_flat; [done|rewrite length_map; lia|]. intros i x Hx. apply Hel; [|done].
    apply lookup_lt_Some in Hx. rewrite length_map in Hx. lia.
Qed.

Lemma push_queue_lemma q l m : queue_ok q l → Z.of_nat (length l) < QUEUE_MAX →
  ∃ q', push_queue_msg q (msg_of m) = Ok q' ∧ queue_ok q' (l ++ [m]).
Proof.
  intros Hq Hl. pose proof (qo_ring _ _ Hq) as Hr. pose proof (qo_size _ _ Hq) as Hs.
  pose proof (ring_repr_tail_range _ _ _ _ _ Hr) as Ht. pose proof (ring_full_iff _ _ _ _ _ (msg_of m) Hr) as Hfull.
  pose proof (rr_room _ _ _ _ _ Hr) as Hroom. rewrite length_map in Hfull, Hroom. unfold push_queue_msg. rewrite rem_wrap by done.
  assert (Hstore : ∀ q1, queue_ok q1 l → Z.of_nat (length l) + 1 < hq_size q1 →
    ∃ q', (d ← wr (hq_data q1) (hq_tail q1) (Some (msg_of m));
           Ok (HQueue (hq_size q1) (hq_head q1) (Z.rem (hq_tail q1 + 1) (hq_size q1)) d)) = Ok q' ∧ queue_ok q' (l ++ [m])).
  { intros q1 [Hr1 Hs1] Hlt. pose proof (ring_repr_tail_range _ _ _ _ _ Hr1) as Ht1.
    rewrite wr_ok by (rewrite (rr_len _ _ _ _ _ Hr1); done). rewrite bind_ok, rem_wrap by done. eexists. split; [done|].
    split; [|done]. rewrite map_app. apply ring_push; [done|by rewrite length_map]. }
  destruct (Z.eqb_spec (wrap1 (hq_tail q) (hq_size q)) (hq_head q)) as [E|Hne].
  - symmetry in E. apply Hfull in E. rewrite int_chk_ok by (unfold QUEUE_MAX, INT_MIN, INT_MAX in *; lia). rewrite bind_ok.
    destruct (expand_queue_ok q l _ Hq E eq_refl) as (new & En & Hr'). rewrite En, !bind_ok.
    apply Hstore; [split; [done|cbn; lia]|cbn; lia].
  - rewrite bind_ok. apply Hstore; [done|]. assert (Z.of_nat (length l) + 1 ≠ hq_size q) by (intros E; by apply Hfull in E). lia.
Qed.

(** Draining: the body runs for every message in order, as long as it keeps what [P] says. *)
Lemma harbor_drain_lemma body (P : list amsg → hstate → Prop) l : ∀ fuel q s, queue_ok q l → (length l < fuel)%nat → P l s →
  (∀ m l s, P (m :: l) s → ∃ s', body (msg_of m) s = Ok ((), s') ∧ P l s') →
  ∃ q' s', iterateM fuel (drain_round body) q s = Ok (q', s') ∧ queue_ok q' [] ∧ P [] s'.
Proof.
  induction l as [|m l IH]; intros fuel q s Hq Hf HP Hbody; (destruct fuel as [|fuel]; [lia|]); cbn [iterateM];
    pose proof (pop_queue_lemma _ _ Hq) as Hpop.
  - assert (E : drain_round body q s = Ok (Break q, s)) by (unfold drain_round; by rewrite (lift_bind _ _ _ _ Hpop)).
    rewrite (sbind_ok _ _ _ _ _ E). by exists q, s.
  - destruct Hpop as (q1 & Ep & Hq1 & _). destruct (Hbody _ _ _ HP) as (s1 & Eb & HP1).
    assert (E : drain_round body q s = Ok (Continue q1, s1))
      by (unfold drain_round; by rewrite (lift_bind _ _ _ _ Ep), (sbind_ok _ _ _ _ _ Eb)).
    rewrite (sbind_ok _ _ _ _ _ E). apply IH; [done|cbn in Hf; lia|done|done].
Qed.

Lemma drain_run body (P : list amsg → hstate → Prop) l q s : queue_ok q l → P l s →
  (∀ m l s, P (m :: l) s → ∃ s', body (msg_of m) s = Ok ((), s') ∧ P l s') →
  ∃ q' s', drain q body s = Ok (q', s') ∧ queue_ok q' [] ∧ P [] s'.
Proof.
  intros Hq HP Hbody. unfold drain. apply (harbor_drain_lemma body P l); [done| |done|done].
  pose proof (rr_room _ _ _ _ _ (qo_ring _ _ Hq)) as Hroom. rewrite length_map in Hroom. lia.
Qed.

(** A body that only records actions. *)
Lemma drain_acts body (f : amsg → list haction) l q s : queue_ok q l →
  (∀ m s, m ∈ l → body (msg_of m) s = Ok ((), HState (hs s) (hacts s ++ f m))) →
  ∃ q', drain q body s = Ok (q', HState (hs s) (hacts s ++ concat (map f l))) ∧ queue_ok q' [].
Proof.
  intros Hq Hbody. destruct (drain_run body (λ r s', r `suffix_of` l ∧ hs s' = hs s ∧
      hacts s' ++ concat (map f r) = hacts s ++ concat (map f l)) l q s Hq) as (q' & s' & E & Hq' & _ & Eh & Ea).
  - by split.
  - intros m r s1 (Hsuf & Eh & Ea). eexists. split; [apply Hbody|].
    { destruct Hsuf as [k ->]. apply elem_of_app. right. by left. }
    split; [by eapply suffix_cons_l|]. split; [done|]. cbn [hs hacts]. rewrite <- (assoc_L (++)). exact Ea.
  - exists q'. split; [|done]. rewrite E. cbn in Ea. rewrite app_nil_r in Ea. rewrite <- Ea, <- Eh. by destruct s'.
Qed.

Lemma release_queue_lemma o l s : queue_repr o l →
  release_queue o s = Ok ((), HState (hs s) (hacts s ++ drop_msgs l)).
Proof.
  destruct o as [q|]; cbn [queue_repr release_queue].
  - intros Hq. destruct (drain_acts (λ m, hact (HFree (hm_buffer m))) (λ m, [HFree m.2]) l q s Hq) as (q' & E & _); [done|].
    rewrite (sbind_ok _ _ _ _ _ E). unfold mret, SM_ret, drop_msgs. do 4 f_equal.
    clear. induction l as [|m l IH]; [done|]. cbn. by f_equal.
  - intros ->. cbn. rewrite app_nil_r. by destruct s.
Qed.
