(* ===== verification/HarborTable.v ===== *)
(** The harbor service's hash table of global names. *)

From S2P Require Import Prelude CString Handle MessageQueue Node Server.
From S2P Require Import Ring Chain Frames Gate Harbor HarborProps.
Open Scope Z_scope.

(** ** Names *)

(** A name of sixteen bytes: characters, and zeros behind them. *)
Definition name16 (key : list Z) : Prop := ∃ w, cstr_ok w ∧ (length w ≤ GLOBALNAME_LENGTH)%nat ∧ key = pad_name w.

Lemma strncmp_pad n : ∀ a b, cstr_ok a → cstr_ok b → (length a ≤ n)%nat → (length b ≤ n)%nat →
  strncmp_eq n (a ++ replicate (n - length a) 0) (b ++ replicate (n - length b) 0) = true → a = b.
Proof.
  induction n as [|n IH]; intros a b Ha Hb Hla Hlb.
  { destruct a, b; [done|cbn in *; lia..]. }
  destruct a as [|x a], b as [|y b]; cbn [length] in *; [done|..].
  - apply Forall_cons in Hb as [Hy _]. cbn [app length Nat.sub replicate strncmp_eq]. destruct (Z.eqb_spec 0 y); [lia|done].
  - apply Forall_cons in Ha as [Hx _]. cbn [app length Nat.sub replicate strncmp_eq]. destruct (Z.eqb_spec x 0); [lia|done].
  - apply Forall_cons in Ha as [Hx Ha]. apply Forall_cons in Hb as [Hy Hb]. cbn [app length Nat.sub replicate strncmp_eq].
    destruct (Z.eqb_spec x y) as [->|]; [|done]. destruct (Z.eqb_spec y 0); [lia|]. intros E. f_equal. apply IH; (done || lia).
Qed.

Lemma name16_eq a b : name16 a → name16 b → strncmp_eq GLOBALNAME_LENGTH a b = true → a = b.
Proof.
  intros (v & Hv & Hlv & ->) (w & Hw & Hlw & ->) E. unfold pad_name in *. by rewrite (strncmp_pad _ v w Hv Hw Hlv Hlw E).
Qed.

Lemma strncmp_refl n : ∀ a, strncmp_eq n a a = true.
Proof.
  induction n as [|n IH]; [done|]. intros [|x a]; [done|]. cbn. rewrite Z.eqb_refl, IH. by rewrite orb_true_r.
Qed.

(** ** The table *)

Record name_repr (k : keyvalue) (n : aname) : Prop := {
  nr_key : kv_key k = an_key n;
  nr_hash : kv_hash k = name_hash (an_key n);
  nr_value : kv_value k = an_value n;
  nr_queue : queue_repr (kv_queue k) (an_queue n)
}.

Definition bucket (n : aname) : Z := name_hash (an_key n) mod HASH_SIZE.

Record table_ok (m : list Z) (nodes : list keyvalue) (names : list aname) : Prop := {
  to_length : Z.of_nat (length m) = HASH_SIZE;
  to_names : Forall2 name_repr nodes names;
  to_nodup : NoDup (map an_key names);
  to_name16 : Forall (λ n, name16 (an_key n)) names;
  to_chain : ∀ b, 0 ≤ b < HASH_SIZE → ∃ head l, m !! Z.to_nat b = Some head ∧ chain nodes head l ∧ NoDup l ∧
    ∀ i, i ∈ l ↔ 0 ≤ i ∧ ∃ n, names !! Z.to_nat i = Some n ∧ bucket n = b
}.

(** A chain depends on the links only. *)
Lemma chain_links {N} `{Linked N} (nodes nodes' : list N) c l : chain nodes c l →
  (∀ i, i ∈ l → (nodes' !! Z.to_nat i) ≫= link_of = (nodes !! Z.to_nat i) ≫= link_of) → chain nodes' c l.
Proof.
  induction 1 as [|c n p l H0 Hn Hp _ IH]; intros He; [constructor|].
  pose proof (He c ltac:(by left)) as E. rewrite Hn in E. cbn in E. rewrite Hp in E.
  destruct (nodes' !! Z.to_nat c) as [n'|] eqn:En; [|done]. cbn in E.
  apply (chain_cons _ c n' p); [done|done|done|]. apply IH. intros i Hi. apply He. by right.
Qed.

Lemma name_index_spec l name :
  match name_index l name with
  | Some k => ∃ n, l !! k = Some n ∧ an_key n = name
  | None => ∀ k n, l !! k = Some n → an_key n ≠ name
  end.
Proof.
  induction l as [|n l IH]; cbn; [intros k n Hk; by rewrite lookup_nil in Hk|].
  destruct (bool_decide_reflect (an_key n = name)) as [E|Hne]; [by exists n|].
  destruct (name_index l name) as [k|]; cbn; [done|]. intros [|k] n' Hk; cbn in Hk; [by injection Hk as <-|by eapply IH].
Qed.

Lemma keys_unique names i j n n' : NoDup (map an_key names) → names !! i = Some n → names !! j = Some n' →
  an_key n = an_key n' → i = j.
Proof.
  intros Hnd Hi Hj E. eapply NoDup_lookup; [exact Hnd|..].
  - change (map an_key names) with (an_key <$> names). by rewrite list_lookup_fmap, Hi.
  - change (map an_key names) with (an_key <$> names). by rewrite list_lookup_fmap, Hj, E.
Qed.

Definition found (names : list aname) (name : list Z) : Z :=
  match name_index names name with Some k => Z.of_nat k | None => NULL end.

Lemma found_unique names name i n : NoDup (map an_key names) → names !! i = Some n → an_key n = name → found names name = Z.of_nat i.
Proof.
  intros Hnd Hi E. unfold found. pose proof (name_index_spec names name) as H. destruct (name_index names name) as [k|].
  - destruct H as (n' & Hk & E'). f_equal. eapply keys_unique; [exact Hnd|exact Hk|exact Hi|congruence].
  - by edestruct H.
Qed.

Section table.
Context (m : list Z) (nodes : list keyvalue) (names : list aname) (Hok : table_ok m nodes names).

Lemma table_node i n : names !! i = Some n → ∃ k, nodes !! i = Some k ∧ name_repr k n.
Proof. intros Hi. destruct (Forall2_lookup_r _ _ _ _ _ (to_names _ _ _ Hok) Hi) as (k & Hk & Hr). by exists k. Qed.

Lemma search_loop name l : name16 name → ∀ fuel head, chain nodes head l → (length l < fuel)%nat →
  (∀ i, i ∈ l → ∃ n, names !! Z.to_nat i = Some n) →
  iterate fuel (search_round nodes (name_hash name) name) head =
    Ok (if bool_decide (found names name ∈ l) then found names name else NULL).
Proof.
  intros H16. induction l as [|i l IH]; intros fuel head Hc Hf Hl; (destruct fuel as [|fuel]; [lia|]); cbn [iterate];
    apply chain_inv in Hc.
  - subst head. change (search_round nodes (name_hash name) name NULL) with (Ok (Break NULL) : res (loop Z Z)). rewrite bind_ok. by rewrite bool_decide_eq_false_2 by apply not_elem_of_nil.
  - destruct Hc as (-> & H0 & Hne & k & p & Hk & Erd & Hp & Hc).
    assert (Estep : search_round nodes (name_hash name) name i = Ok (if (kv_hash k =? name_hash name) &&
        strncmp_eq GLOBALNAME_LENGTH (kv_key k) name then Break i else Continue (kv_next k))).
    { unfold search_round. destruct (Z.eqb_spec i NULL) as [|_]; [done|]. rewrite Erd, bind_ok. by destruct (_ && _). }
    rewrite Estep, bind_ok. clear Estep. destruct (Hl i ltac:(by left)) as (n & Hn). destruct (table_node _ _ Hn) as (k' & Hk' & [Ekey Eh _ _]).
    rewrite Hk in Hk'. injection Hk' as <-. rewrite Ekey, Eh.
    assert (Hn16 : name16 (an_key n)) by (eapply Forall_lookup_1 in Hn; [exact Hn|apply (to_name16 _ _ _ Hok)]).
    destruct ((name_hash (an_key n) =? name_hash name) && strncmp_eq GLOBALNAME_LENGTH (an_key n) name) eqn:Ecmp.
    + apply andb_true_iff in Ecmp as [_ Ecmp]. apply name16_eq in Ecmp; [|done|done].
      rewrite (found_unique _ _ _ _ (to_nodup _ _ _ Hok) Hn Ecmp), Z2Nat.id by done. by rewrite bool_decide_eq_true_2 by by left.
    + injection Hp as <-. rewrite (IH fuel (kv_next k) Hc); [|cbn in Hf; lia|intros j Hj; apply Hl; by right].
      f_equal. assert (Hni : found names name ≠ i).
      { intros E. unfold found in E. pose proof (name_index_spec names name) as H. destruct (name_index names name) as [j|].
        - destruct H as (n' & Hj & E'). subst i. rewrite Nat2Z.id in Hn. rewrite Hj in Hn. injection Hn as <-. subst name.
          by rewrite Z.eqb_refl, strncmp_refl in Ecmp.
        - by subst i. }
      destruct (decide (found names name ∈ l)) as [Hin|Hnin].
      * rewrite !bool_decide_eq_true_2; [done|by right|done].
      * rewrite !bool_decide_eq_false_2; [done|by intros [?|?]%elem_of_cons|done].
Qed.

(** The bucket of a name has the node of the name. *)
Lemma found_in_bucket name head l : chain nodes head l →
  (∀ i, i ∈ l ↔ 0 ≤ i ∧ ∃ n, names !! Z.to_nat i = Some n ∧ bucket n = name_hash name mod HASH_SIZE) →
  (if bool_decide (found names name ∈ l) then found names name else NULL) = found names name.
Proof.
  intros _ Hl. case_bool_decide as Hin; [done|]. unfold found in *. pose proof (name_index_spec names name) as H.
  destruct (name_index names name) as [k|]; [|done]. destruct H as (n & Hk & <-). destruct Hin. apply Hl. split; [lia|].
  exists n. by rewrite Nat2Z.id.
Qed.
End table.

Lemma hash_search_lemma name s names : table_ok (hb_map (hs s)) (hb_nodes (hs s)) names → name16 name →
  hash_search name s = Ok (found names name, s).
Proof.
  intros Hok H16. unfold hash_search, getH. rewrite gets_bind. cbv zeta.
  assert (Hb : 0 ≤ name_hash name mod HASH_SIZE < HASH_SIZE) by (by apply Z.mod_pos_bound).
  destruct (to_chain _ _ _ Hok _ Hb) as (head & l & Hhead & Hc & Hnd & Hl).
  rewrite (lift_bind _ _ _ _ (rd_ok _ _ _ (proj1 Hb) Hhead)). unfold lift.
  rewrite (search_loop _ _ _ Hok name l H16 _ head Hc).
  - by rewrite (found_in_bucket _ _ _ _ _ Hc Hl).
  - pose proof (chain_length _ _ _ Hc Hnd). lia.
  - intros i Hi. apply Hl in Hi as (_ & n & Hn & _). by exists n.
Qed.

(** ** Changes of the table *)

(** A node keeps its place: only its value and its queue change. *)
Lemma table_put m nodes names i k k' n : table_ok m nodes names → nodes !! i = Some k → names !! i = Some n →
  ∀ n', name_repr k' n' → kv_next k' = kv_next k → an_key n' = an_key n → table_ok m (<[i := k']> nodes) (<[i := n']> names).
Proof.
  intros [Hlen Hn Hnd H16 Hc] Hk Hi n' Hr Hnext Hkey.
  assert (Hkeys : map an_key (<[i := n']> names) = map an_key names).
  { change (an_key <$> <[i := n']> names = an_key <$> names). rewrite list_fmap_insert, Hkey.
    apply list_insert_id. by rewrite list_lookup_fmap, Hi. }
  split; [done|by apply Forall2_insert|by rewrite Hkeys| |].
  - apply Forall_insert; [done|]. rewrite Hkey. exact (Forall_lookup_1 _ _ _ _ H16 Hi).
  - intros b Hb. destruct (Hc b Hb) as (head & l & Hhead & Hch & Hndl & Hl). exists head, l. split; [done|].
    split; [|split; [done|]].
    + eapply chain_links; [exact Hch|]. intros j _. destruct (decide (Z.to_nat j = i)) as [->|Hne].
      * rewrite list_lookup_insert_eq by (by eapply lookup_lt_Some). rewrite Hk. cbn. unfold link_of, kv_linked. by rewrite Hnext.
      * by rewrite list_lookup_insert_ne.
    + intros j. rewrite Hl. split; intros (H0 & x & Hx & Hbx); (split; [done|]).
      * destruct (decide (Z.to_nat j = i)) as [E|Hne].
        -- exists n'. rewrite E, list_lookup_insert_eq by (by eapply lookup_lt_Some). split; [done|].
           rewrite E, Hi in Hx. injection Hx as <-. unfold bucket in *. by rewrite Hkey.
        -- exists x. by rewrite list_lookup_insert_ne.
      * destruct (decide (Z.to_nat j = i)) as [E|Hne].
        -- exists n. rewrite E. split; [done|]. rewrite E, list_lookup_insert_eq in Hx by (by eapply lookup_lt_Some).
           injection Hx as <-. unfold bucket in *. by rewrite <- Hkey.
        -- exists x. by rewrite list_lookup_insert_ne in Hx.
Qed.

(** A new node at the head of its chain. *)
Lemma table_insert m nodes names name head : table_ok m nodes names → name16 name → name_index names name = None →
  m !! Z.to_nat (name_hash name mod HASH_SIZE) = Some head →
  table_ok (<[Z.to_nat (name_hash name mod HASH_SIZE) := Z.of_nat (length nodes)]> m)
    (nodes ++ [KeyValue head name (name_hash name) 0 None]) (names ++ [AName name 0 []]).
Proof.
  intros [Hlen Hn Hnd H16 Hc] Hname Hnone Hhead. set (b0 := name_hash name mod HASH_SIZE) in *.
  assert (Hb0 : 0 ≤ b0 < HASH_SIZE) by (by apply Z.mod_pos_bound). pose proof (Forall2_length _ _ _ Hn) as Hll.
  assert (Hsnoc : ∀ j n, (names ++ [AName name 0 []]) !! j = Some n ↔ names !! j = Some n ∨ (j = length names ∧ n = AName name 0 [])).
  { intros j n. rewrite lookup_app_Some. split.
    - intros [?|[Hge Hx]]; [by left|]. right. destruct (j - length names)%nat eqn:E; [|done]. cbn in Hx. injection Hx as <-. split; [lia|done].
    - intros [?|[-> ->]]; [by left|]. right. by rewrite Nat.sub_diag. }
  split.
  - by rewrite length_insert.
  - apply Forall2_app; [done|]. constructor; [by split|constructor].
  - rewrite map_app. apply NoDup_app. split; [done|]. split; [|apply NoDup_singleton]. intros x Hx Hin.
    apply list_elem_of_singleton in Hin as ->. apply list_elem_of_fmap in Hx as (n & E & Hin). apply list_elem_of_lookup in Hin as [k Hk].
    pose proof (name_index_spec names name) as H. rewrite Hnone in H. by apply (H _ _ Hk).
  - apply Forall_app. split; [done|]. by apply Forall_singleton.
  - intros b Hb. destruct (decide (b = b0)) as [->|Hne].
    + destruct (Hc b0 Hb0) as (h & l & Hh & Hch & Hndl & Hl). rewrite Hhead in Hh. injection Hh as <-.
      assert (Hfresh : Z.of_nat (length nodes) ∉ l).
      { intros Hin. apply Hl in Hin as (_ & n & Hx & _). apply lookup_lt_Some in Hx. lia. }
      exists (Z.of_nat (length nodes)), (Z.of_nat (length nodes) :: l). split; [apply list_lookup_insert_eq; lia|].
      split; [|split; [by apply NoDup_cons|]].
      * apply (chain_cons _ _ (KeyValue head name (name_hash name) 0 None) head); [lia| |done|].
        { rewrite Nat2Z.id. by apply list_lookup_middle. }
        eapply chain_frame; [exact Hch|]. intros j Hj. pose proof (chain_range _ _ _ Hch j Hj). by rewrite lookup_app_l by lia.
      * intros j. rewrite elem_of_cons, Hl. setoid_rewrite Hsnoc. split.
        -- intros [->|(H0 & n & Hx & Hbx)]; [split; [lia|]; eexists; split; [right; split; [lia|done]|done]|]. split; [done|]. exists n. by split; [left|].
        -- intros (H0 & n & [Hx|[Hj ->]] & Hbx); [right; split; [done|]; by exists n|left; lia].
    + destruct (Hc b Hb) as (h & l & Hh & Hch & Hndl & Hl). exists h, l. split; [by rewrite list_lookup_insert_ne by lia|].
      split; [|split; [done|]].
      * eapply chain_frame; [exact Hch|]. intros j Hj. pose proof (chain_range _ _ _ Hch j Hj). by rewrite lookup_app_l by lia.
      * intros j. rewrite Hl. setoid_rewrite Hsnoc. split.
        -- intros (H0 & n & Hx & Hbx). split; [done|]. exists n. by split; [left|].
        -- intros (H0 & n & [Hx|[Hj ->]] & Hbx); [split; [done|]; by exists n|]. destruct Hne. by rewrite <- Hbx.
Qed.
