(* ===== verification/HarborRefines.v ===== *)
(** The harbor service refines its specification: one lemma for each operation. *)

From S2P Require Import Prelude CString Handle MessageQueue Node Server.
From S2P Require Import Ring Chain Frames Gate Harbor HarborProps HarborTable.
Open Scope Z_scope.

(** ** The representation *)

(** What has been read of the next message: part of its length, or the length and part of it. *)
Definition reading (sl : slave) (rest : list Z) : Prop :=
  (sl_status sl = STATUS_HEADER ∧ (length rest < 4)%nat ∧ sl_read sl = Z.of_nat (length rest) ∧
     ∃ junk, sl_size sl = map Some rest ++ junk ∧ length junk = (4 - length rest)%nat) ∨
  (sl_status sl = STATUS_CONTENT ∧ ∃ b1 b2 b3 got, rest = 0 :: b1 :: b2 :: b3 :: got ∧
     sl_length sl = Z.of_nat (frame_length b1 b2 b3) ∧ sl_read sl = Z.of_nat (length got) ∧
     (length got < Nat.max 1 (frame_length b1 b2 b3))%nat ∧
     sl_recv_buffer sl = Some (map Some got ++ replicate (frame_length b1 b2 b3 - length got) None) ∧
     length (sl_size sl) = 4%nat).

Record conn_repr (sl : slave) (c : aconn) : Prop := {
  cr_fd : sl_fd sl = ac_fd c;
  cr_queue : queue_repr (sl_queue sl) (ac_queue c);
  cr_phase : match ac_phase c with
             | PWait => sl_fd sl = 0 ∧ sl_status sl = STATUS_WAIT ∧ sl_read sl = 0 ∧ length (sl_size sl) = 4%nat
             | PHandshake => sl_fd sl ≠ 0 ∧ sl_status sl = STATUS_HANDSHAKE ∧ sl_read sl = 0 ∧ length (sl_size sl) = 4%nat
             | PUp rest => sl_fd sl ≠ 0 ∧ reading sl rest ∧ Forall byte rest
             | PDown => sl_fd sl ≠ 0 ∧ sl_status sl = STATUS_DOWN
             end
}.

Record hrepr (s : hstate) (A : aharbor) : Prop := {
  hr_id : hb_id (hs s) = ah_id A;
  hr_slave : hb_slave (hs s) = ah_slave A;
  hr_conns : Forall2 conn_repr (hb_s (hs s)) (ah_conns A);
  hr_length : length (ah_conns A) = Z.to_nat REMOTE_MAX;
  hr_table : table_ok (hb_map (hs s)) (hb_nodes (hs s)) (ah_names A);
  hr_acts : hacts s = ah_acts A
}.

(** All messages that wait. *)
Definition total (A : aharbor) : nat :=
  (sum_list_with (λ c, length (ac_queue c)) (ah_conns A) + sum_list_with (λ n, length (an_queue n)) (ah_names A))%nat.

Definition slot_ok (id : Z) : Prop := 0 ≤ id < REMOTE_MAX.

Lemma sum_insert {A} (f : A → nat) l i x y : l !! i = Some x →
  (sum_list_with f (<[i := y]> l) + f x = sum_list_with f l + f y)%nat.
Proof.
  revert i. induction l as [|z l IH]; intros [|i] Hi; [done|done|injection Hi as <-; cbn; lia|].
  change (<[S i := y]> (z :: l)) with (z :: <[i := y]> l). cbn [sum_list_with]. specialize (IH i Hi). lia.
Qed.

Lemma sum_elem {A} (f : A → nat) l i x : l !! i = Some x → (f x ≤ sum_list_with f l)%nat.
Proof. revert i. induction l as [|z l IH]; intros [|i] Hi; cbn in *; [done|done|injection Hi as <-; lia|]. specialize (IH i Hi). lia. Qed.

Lemma conn_lookup A id : length (ah_conns A) = Z.to_nat REMOTE_MAX → slot_ok id →
  ah_conns A !! Z.to_nat id = Some (conn_of A id).
Proof. intros Hl [H0 H1]. unfold conn_of. apply nth_lookup_Some_length || (rewrite nth_lookup; destruct (lookup_lt_is_Some_2 (ah_conns A) (Z.to_nat id)) as [c ->]; [lia|done]). Qed.

Lemma total_conn s A id : hrepr s A → slot_ok id → (length (ac_queue (conn_of A id)) ≤ total A)%nat.
Proof.
  intros Hr Hid. pose proof (sum_elem (λ c, length (ac_queue c)) _ _ _ (conn_lookup A id (hr_length _ _ Hr) Hid)). unfold total. cbn in *. lia.
Qed.

Lemma hact_bind {B} a (K : unit → SM hstate B) s : (hact a ≫= K) s = K () (HState (hs s) (hacts s ++ [a])).
Proof. done. Qed.

Lemma hact_repr s A l : hrepr s A → hrepr (HState (hs s) (hacts s ++ l)) (act l A).
Proof. intros []. split; try done. cbn. by f_equal. Qed.

Lemma act_act l1 l2 A : act l2 (act l1 A) = act (l1 ++ l2) A.
Proof. unfold act. cbn. by rewrite (assoc_L (++)). Qed.

Lemma act_nil A : act [] A = A.
Proof. unfold act. rewrite app_nil_r. by destruct A. Qed.

Lemma getH_bind {B} (K : harbor → SM hstate B) s : (getH ≫= K) s = K (hs s) s.
Proof. done. Qed.

Lemma get_s_lemma s A id : hrepr s A → slot_ok id → ∃ sl, get_s id s = Ok (sl, s) ∧ conn_repr sl (conn_of A id) ∧
  hb_s (hs s) !! Z.to_nat id = Some sl.
Proof.
  intros Hr Hid. pose proof (conn_lookup A id (hr_length _ _ Hr) Hid) as Hc.
  destruct (Forall2_lookup_r _ _ _ _ _ (hr_conns _ _ Hr) Hc) as (sl & Hsl & Hcr). exists sl. split; [|done].
  unfold get_s. rewrite getH_bind. unfold lift. by rewrite (rd_ok _ _ _ (proj1 Hid) Hsl).
Qed.

(** The state with another slot. *)
Definition with_slot (id : Z) (sl : slave) (s : hstate) : hstate :=
  HState (set_s (<[Z.to_nat id := sl]> (hb_s (hs s))) (hs s)) (hacts s).

Lemma put_s_step s A id sl : hrepr s A → slot_ok id → put_s id sl s = Ok ((), with_slot id sl s).
Proof.
  intros Hr [H0 H1]. unfold put_s. rewrite getH_bind.
  assert (Hlen : length (hb_s (hs s)) = Z.to_nat REMOTE_MAX) by (rewrite <- (hr_length _ _ Hr); apply (Forall2_length _ _ _ (hr_conns _ _ Hr))).
  rewrite (lift_bind _ _ _ (<[Z.to_nat id := sl]> (hb_s (hs s)))); [done|]. apply wr_ok. lia.
Qed.

Lemma slot_repr s A id sl c : hrepr s A → slot_ok id → conn_repr sl c → hrepr (with_slot id sl s) (set_conn id c A).
Proof.
  intros [] Hid Hc. split; cbn; try done; [by apply Forall2_insert|by rewrite length_insert].
Qed.

Lemma put_s_lemma s A id sl c : hrepr s A → slot_ok id → conn_repr sl c →
  put_s id sl s = Ok ((), with_slot id sl s) ∧ hrepr (with_slot id sl s) (set_conn id c A).
Proof. intros Hr Hid Hc. split; [by eapply put_s_step|by apply slot_repr]. Qed.

Lemma set_conn_of A id c : length (ah_conns A) = Z.to_nat REMOTE_MAX → slot_ok id → conn_of (set_conn id c A) id = c.
Proof.
  intros Hl [H0 H1]. unfold conn_of. cbn. rewrite nth_lookup, list_lookup_insert_eq; [done|lia].
Qed.

(** A handle names a harbor. *)
Lemma handle_slot handle : u32_ok handle → slot_ok (Z.shiftr handle HANDLE_REMOTE_SHIFT).
Proof.
  unfold u32_ok, slot_ok, HANDLE_REMOTE_SHIFT, REMOTE_MAX. intros H. rewrite Z.shiftr_div_pow2 by lia.
  split; [apply Z.div_pos; lia|apply Z.div_lt_upper_bound; lia].
Qed.

(** ** Writing to a connection *)

Definition fits (m : amsg) : Prop := Z.of_nat (length m.2) + HEADER_COOKIE_LENGTH ≤ UINT32_MAX.

Lemma send_remote_lemma fd m s : fits m →
  send_remote fd m.2 (Z.of_nat (length m.2)) m.1 s = Ok ((), HState (hs s) (hacts s ++ [HSocketSend fd (remote_wire m)])).
Proof.
  unfold fits. intros Hf. unfold send_remote. rewrite Z.gtb_ltb.
  destruct (Z.ltb_spec UINT32_MAX (Z.of_nat (length m.2) + HEADER_COOKIE_LENGTH)); [lia|].
  rewrite (lift_bind _ _ _ m.2); [done|]. rewrite rd_at_ok by lia. cbn [Z.to_nat drop]. by rewrite Nat2Z.id, firstn_all.
Qed.

Lemma flush_acts fd (f : amsg → amsg) q l s : queue_ok q l → Forall (λ m, fits (f m) ∧ (f m).2 = m.2) l →
  ∃ q', drain q (λ m,
      _ ← send_remote fd (hm_buffer m) (hm_size m) (f (hm_header m, hm_buffer m)).1;
      hact (HFree (hm_buffer m))) s = Ok (q', HState (hs s) (hacts s ++ concat (map (λ m, write_msg fd (f m)) l))) ∧ queue_ok q' [].
Proof.
  intros Hq Hl. apply drain_acts; [done|]. intros m s1 Hm. eapply Forall_elem in Hl as [Hf E]; [|exact Hm].
  destruct m as [h p]. cbn [msg_of hm_header hm_buffer hm_size fst snd] in *.
  pose proof (send_remote_lemma fd (f (h, p)) s1 Hf) as Es. rewrite E in Es. rewrite (sbind_ok _ _ _ _ _ Es).
  unfold hact, modify, write_msg. cbn [hs hacts]. by rewrite <- (assoc_L (++)), E.
Qed.

(** All payloads that wait fit. *)
Definition all_fit (A : aharbor) : Prop :=
  Forall (λ c, Forall fits (ac_queue c)) (ah_conns A) ∧ Forall (λ n, Forall fits (an_queue n)) (ah_names A).

Lemma conn_fit s A id : hrepr s A → all_fit A → slot_ok id → Forall fits (ac_queue (conn_of A id)).
Proof. intros Hr [Hf _] Hid. by apply (Forall_lookup_1 _ _ _ _ Hf (conn_lookup A id (hr_length _ _ Hr) Hid)). Qed.

(** ** Messages out *)

(** What [mainloop] does with the result: 1 when the payload is kept. *)
Definition sent_ok (p : list Z) (x : res (Z * hstate)) (A : aharbor) : Prop :=
  ∃ r s', x = Ok (r, s') ∧ (r = 1 ∧ hrepr s' A ∨ r = 0 ∧ hrepr (HState (hs s') (hacts s' ++ [HFree p])) A).

Lemma push_conn s A id sl m : hrepr s A → slot_ok id → conn_repr sl (conn_of A id) → Z.of_nat (total A) < QUEUE_MAX →
  ∃ q, push_queue (new_or (sl_queue sl)) m.2 (Z.of_nat (length m.2)) m.1 = Ok q ∧
    conn_repr (with_queue (Some q) sl) (AConn (ac_fd (conn_of A id)) (ac_phase (conn_of A id)) (ac_queue (conn_of A id) ++ [m])).
Proof.
  intros Hr Hid Hc Ht. pose proof (total_conn _ _ _ Hr Hid). destruct Hc as [Hfd Hq Hph].
  destruct (push_queue_lemma _ _ m (new_or_ok _ _ Hq) ltac:(lia)) as (q & E & Hq'). exists q. destruct m as [h p].
  split; [exact E|]. by split.
Qed.

Lemma send_up s A fd m : hrepr s A → fits m →
  sent_ok m.2 ((_ ← send_remote fd m.2 (Z.of_nat (length m.2)) m.1; mret 0) s) (act (write_msg fd m) A).
Proof.
  intros Hr Hf. exists 0. eexists. rewrite (sbind_ok _ _ _ _ _ (send_remote_lemma fd m s Hf)). split; [done|]. right. split; [done|].
  cbn [hs hacts]. rewrite <- (assoc_L (++)). by apply hact_repr.
Qed.

Lemma send_handle_lemma source dest type session p s A : hrepr s A → Z.of_nat (total A) < QUEUE_MAX → u32_ok dest →
  Z.of_nat (length p) + HEADER_COOKIE_LENGTH ≤ UINT32_MAX →
  sent_ok p (remote_send_handle source dest type session p (Z.of_nat (length p)) s) (a_send source dest type session p A).
Proof.
  intros Hr Ht Hd Hfit. unfold remote_send_handle, a_send. pose proof (handle_slot _ Hd) as Hid.
  set (id := Z.shiftr dest HANDLE_REMOTE_SHIFT) in *. rewrite getH_bind, (hr_id _ _ Hr). destruct (id =? ah_id A).
  { rewrite hact_bind. exists 1. eexists. split; [done|]. left. split; [done|]. by apply hact_repr. }
  destruct (get_s_lemma _ _ _ Hr Hid) as (sl & E & Hc & _). rewrite (sbind_ok _ _ _ _ _ E). cbv zeta.
  set (m := out_msg source type session dest p). change (RHeader source (remote_destination type dest) (u32 session)) with m.1.
  assert (Hpush : sent_ok p ((q ← lift (push_queue (new_or (sl_queue sl)) p (Z.of_nat (length p)) m.1);
      _ ← put_s id (with_queue (Some q) sl); mret 1) s)
    (set_conn id (AConn (ac_fd (conn_of A id)) (ac_phase (conn_of A id)) (ac_queue (conn_of A id) ++ [m])) A)).
  { destruct (push_conn _ _ _ _ m Hr Hid Hc Ht) as (q & Eq & Hc'). change m.2 with p in Eq. rewrite (lift_bind _ _ _ _ Eq).
    destruct (put_s_lemma _ _ _ _ _ Hr Hid Hc') as [Ep Hr']. rewrite (sbind_ok _ _ _ _ _ Ep). exists 1. eexists. split; [done|]. by left. }
  pose proof (cr_fd _ _ Hc) as Hfd. pose proof (cr_phase _ _ Hc) as Hph. destruct (ac_phase (conn_of A id)).
  - destruct Hph as (-> & -> & _). exact Hpush.
  - destruct Hph as (_ & -> & _). rewrite orb_true_r. exact Hpush.
  - destruct Hph as (Hne & Hread & _). destruct (Z.eqb_spec (sl_fd sl) 0) as [|_]; [done|]. cbn [orb].
    assert (Est : sl_status sl =? STATUS_HANDSHAKE = false) by (by destruct Hread as [[-> _]|[-> _]]). rewrite Est, Hfd. by apply (send_up s A _ m).
  - destruct Hph as (Hne & ->). destruct (Z.eqb_spec (sl_fd sl) 0) as [|_]; [done|]. cbn [orb].
    change (STATUS_DOWN =? STATUS_HANDSHAKE) with false. cbv iota. rewrite Hfd. by apply (send_up s A _ m).
Qed.

(** ** Names *)

Lemma get_kv_lemma s A i n : hrepr s A → ah_names A !! i = Some n →
  ∃ k, get_kv (Z.of_nat i) s = Ok (k, s) ∧ name_repr k n ∧ hb_nodes (hs s) !! i = Some k.
Proof.
  intros Hr Hi. destruct (table_node _ _ _ (hr_table _ _ Hr) _ _ Hi) as (k & Hk & Hn). exists k. split; [|done].
  unfold get_kv. rewrite getH_bind. unfold lift. rewrite (rd_ok _ _ k); [done|lia|by rewrite Nat2Z.id].
Qed.

Definition with_node (i : nat) (k : keyvalue) (s : hstate) : hstate :=
  HState (set_nodes (hb_map (hs s)) (<[i := k]> (hb_nodes (hs s))) (hs s)) (hacts s).

Lemma put_kv_lemma s A i n k k' n' : hrepr s A → ah_names A !! i = Some n → hb_nodes (hs s) !! i = Some k →
  name_repr k' n' → kv_next k' = kv_next k → an_key n' = an_key n →
  put_kv (Z.of_nat i) k' s = Ok ((), with_node i k' s) ∧ hrepr (with_node i k' s) (set_names (<[i := n']> (ah_names A)) A).
Proof.
  intros Hr Hi Hk Hn Hnext Hkey. split.
  - unfold put_kv. rewrite getH_bind. rewrite (lift_bind _ _ _ (<[i := k']> (hb_nodes (hs s)))); [done|].
    rewrite wr_ok; [by rewrite Nat2Z.id|]. apply lookup_lt_Some in Hk. lia.
  - destruct Hr. split; try done. cbn. by eapply table_put.
Qed.

(** The node of a name, made when there is none. *)
Lemma find_name s A name : hrepr s A → name16 name →
  let '(l, i) := with_name (ah_names A) name in
  ∃ s' n, (node ← hash_search name; (if node =? NULL then hash_insert name else mret node)) s = Ok (Z.of_nat i, s') ∧
    hrepr s' (set_names l A) ∧ l !! i = Some n ∧ an_key n = name.
Proof.
  intros Hr H16. pose proof (hr_table _ _ Hr) as Htab. rewrite (sbind_ok _ _ _ _ _ (hash_search_lemma name s _ Htab H16)).
  unfold found, with_name. pose proof (name_index_spec (ah_names A) name) as Hspec. destruct (name_index (ah_names A) name) as [i|] eqn:Ei.
  - destruct Hspec as (n & Hn & Hkey). destruct (Z.eqb_spec (Z.of_nat i) NULL) as [E|_]; [unfold NULL in E; lia|].
    exists s, n. split; [done|]. split; [destruct A; destruct Hr; by split|done].
  - rewrite Z.eqb_refl. unfold hash_insert. rewrite getH_bind. cbv zeta.
    assert (Hb : 0 ≤ name_hash name mod HASH_SIZE < HASH_SIZE) by (by apply Z.mod_pos_bound).
    destruct (to_chain _ _ _ Htab _ Hb) as (head & l & Hhead & _). rewrite (lift_bind _ _ _ _ (rd_ok _ _ _ (proj1 Hb) Hhead)).
    pose proof (to_length _ _ _ Htab) as Hlen. rewrite (lift_bind _ _ _ _ (wr_ok _ _ _ ltac:(rewrite Hlen; exact Hb))).
    pose proof (Forall2_length _ _ _ (to_names _ _ _ Htab)) as Hll. rewrite <- Hll. eexists _, (AName name 0 []). split; [reflexivity|].
    split; [|split; [rewrite Hll; by apply list_lookup_middle|done]]. destruct Hr. split; try done. cbn. by apply table_insert.
Qed.

Lemma with_name_total l name k l' : with_name l name = (l', k) →
  sum_list_with (λ n, length (an_queue n)) l' = sum_list_with (λ n, length (an_queue n)) l.
Proof.
  unfold with_name. destruct (name_index l name); intros [= <- <-]; [done|]. rewrite sum_list_with_app. cbn. lia.
Qed.

Lemma send_name_lemma source name type session p s A : hrepr s A → Z.of_nat (total A) < QUEUE_MAX → name16 name →
  (∀ n, n ∈ ah_names A → u32_ok (an_value n)) → Z.of_nat (length p) + HEADER_COOKIE_LENGTH ≤ UINT32_MAX →
  sent_ok p (remote_send_name source name type session p (Z.of_nat (length p)) s) (a_send_name source name type session p A).
Proof.
  intros Hr Ht H16 Hval Hfit. unfold a_send_name. pose proof (find_name s A name Hr H16) as Hfind.
  destruct (with_name (ah_names A) name) as [l i] eqn:El. destruct Hfind as (s1 & n & E1 & Hr1 & Hn & Hkey).
  assert (Estep : ∀ B (K : Z → SM hstate B), (node ← hash_search name; node ← (if node =? NULL then hash_insert name else mret node); K node) s =
    K (Z.of_nat i) s1).
  { intros B K. unfold mbind, SM_bind in E1 |- *. destruct (hash_search name s) as [[node s0]|]; [|done].
    destruct (node =? NULL); by rewrite E1. }
  unfold remote_send_name. rewrite Estep. rewrite nth_lookup, Hn. cbn [default from_option id].
  destruct (get_kv_lemma _ _ _ _ Hr1 Hn) as (k & Ek & Hk & Hnode). rewrite (sbind_ok _ _ _ _ _ Ek), (nr_value _ _ Hk).
  assert (Htot : total (set_names l A) = total A) by (unfold total; cbn; by rewrite (with_name_total _ _ _ _ El)).
  destruct (Z.eqb_spec (an_value n) 0) as [E0|Hne].
  - set (m := (RHeader source (u32 (Z.shiftl type HANDLE_REMOTE_SHIFT)) (u32 session), p) : amsg).
    assert (Hlen : Z.of_nat (length (an_queue n)) < QUEUE_MAX).
    { pose proof (sum_elem (λ n, length (an_queue n)) _ _ _ Hn) as Hs. rewrite (with_name_total _ _ _ _ El) in Hs. unfold total in Ht. cbn in *. lia. }
    destruct (push_queue_lemma _ _ m (new_or_ok _ _ (nr_queue _ _ Hk)) Hlen) as (q & Eq & Hq).
    cbv zeta. unfold push_queue. change (HarborMsg _ _ _) with (msg_of m). rewrite (lift_bind _ _ _ _ Eq).
    destruct (put_kv_lemma _ _ _ n k (with_kv_queue (Some q) k) (AName (an_key n) 0 (an_queue n ++ [m])) Hr1 Hn Hnode) as [Ep Hr2];
      [destruct Hk; split; cbn; (done || congruence)|done|done|].
    rewrite (sbind_ok _ _ _ _ _ Ep), getH_bind, hact_bind. exists 1. eexists. split; [reflexivity|]. left. split; [done|].
    cbn [hs with_node hb_slave set_nodes]. rewrite (hr_slave _ _ Hr1). exact (hact_repr _ _ _ Hr2).
  - assert (Hv : u32_ok (an_value n)).
    { unfold with_name in El. destruct (name_index (ah_names A) name); injection El as <- <-; [exact (Hval _ (list_elem_of_lookup_2 _ _ _ Hn))|].
      apply lookup_app_Some in Hn as [Hn|[_ Hn]]; [exact (Hval _ (list_elem_of_lookup_2 _ _ _ Hn))|]. by apply list_lookup_singleton_Some in Hn as [_ <-]. }
    apply send_handle_lemma; [done|by rewrite Htot|done|done].
Qed.

(** *** A name becomes known *)

Lemma set_conn_same A id : length (ah_conns A) = Z.to_nat REMOTE_MAX → slot_ok id → set_conn id (conn_of A id) A = A.
Proof. intros Hl Hid. unfold set_conn. rewrite list_insert_id by (by apply conn_lookup). by destruct A. Qed.

Lemma set_conn_twice A id c c' : set_conn id c' (set_conn id c A) = set_conn id c' A.
Proof. unfold set_conn. cbn. by rewrite list_insert_insert_eq. Qed.

Lemma act_set_conn l id c A : act l (set_conn id c A) = set_conn id c (act l A).
Proof. done. Qed.

(** The queue of a connection is taken out by draining it with actions only. *)
Lemma drain_conn (body : harbor_msg → SM hstate unit) f id q s A : hrepr s A → slot_ok id → queue_ok q (ac_queue (conn_of A id)) →
  (∀ m s, m ∈ ac_queue (conn_of A id) → body (msg_of m) s = Ok ((), HState (hs s) (hacts s ++ f m))) →
  ∃ s', (q ← drain q body; _ ← release_queue (Some q); s ← get_s id; put_s id (with_queue None s)) s = Ok ((), s') ∧
    hrepr s' (act (concat (map f (ac_queue (conn_of A id)))) (set_conn id (AConn (ac_fd (conn_of A id)) (ac_phase (conn_of A id)) []) A)).
Proof.
  intros Hr Hid Hq Hbody. destruct (drain_acts _ f _ _ s Hq Hbody) as (q' & E1 & Hq'). rewrite (sbind_ok _ _ _ _ _ E1).
  rewrite (sbind_ok _ _ _ _ _ (release_queue_lemma (Some q') [] _ Hq')). cbn [hs hacts drop_msgs map]. rewrite app_nil_r.
  set (l := concat _). pose proof (hact_repr s A l Hr) as Hr1.
  destruct (get_s_lemma _ _ id Hr1 Hid) as (sl & E2 & Hc & _). rewrite (sbind_ok _ _ _ _ _ E2).
  rewrite act_set_conn. eexists. apply put_s_lemma; [done|done|]. destruct Hc. by split.
Qed.

Lemma deliver_local_lemma id handle q s A : hrepr s A → slot_ok id →
  (∃ sl, hb_s (hs s) !! Z.to_nat id = Some sl ∧ sl_queue sl = Some q) →
  ∃ s', deliver_local id handle s = Ok ((), s') ∧
    hrepr s' (act (map (local_send handle) (ac_queue (conn_of A id)))
      (set_conn id (AConn (ac_fd (conn_of A id)) (ac_phase (conn_of A id)) []) A)).
Proof.
  intros Hr Hid (sl & Hsl & Eq). destruct (get_s_lemma _ _ id Hr Hid) as (sl' & E1 & Hc & Hsl'). rewrite Hsl in Hsl'. injection Hsl' as <-.
  unfold deliver_local. rewrite (sbind_ok _ _ _ _ _ E1), Eq, (lift_bind _ _ _ q) by done.
  pose proof (cr_queue _ _ Hc) as Hq. rewrite Eq in Hq.
  destruct (drain_conn (λ m, hact (HSend (rh_source (hm_header m)) handle
      (Z.lor (Z.shiftr (rh_destination (hm_header m)) HANDLE_REMOTE_SHIFT) PTYPE_TAG_DONTCOPY) (i32 (rh_session (hm_header m))) (hm_buffer m)))
    (λ m, [local_send handle m]) id q s A Hr Hid Hq) as (s' & E & Hr'); [done|]. exists s'. split; [exact E|].
  assert (Econcat : ∀ l, concat (map (λ m, [local_send handle m]) l) = map (local_send handle) l)
    by (intros l; induction l as [|m l IH]; cbn; [done|by f_equal]). by rewrite Econcat in Hr'.
Qed.

(** The queue of the node [k] goes behind that of the connection. *)
Definition moved (k : nat) (id : Z) (n : aname) (A : aharbor) : aharbor :=
  set_conn id (AConn (ac_fd (conn_of A id)) (ac_phase (conn_of A id)) (ac_queue (conn_of A id) ++ an_queue n))
    (set_names (<[k := AName (an_key n) (an_value n) []]> (ah_names A)) A).

Lemma total_both s A id k n : hrepr s A → slot_ok id → ah_names A !! k = Some n →
  (length (ac_queue (conn_of A id)) + length (an_queue n) ≤ total A)%nat.
Proof.
  intros Hr Hid Hk. pose proof (sum_elem (λ c, length (ac_queue c)) _ _ _ (conn_lookup A id (hr_length _ _ Hr) Hid)).
  pose proof (sum_elem (λ n, length (an_queue n)) _ _ _ Hk). unfold total. cbn in *. lia.
Qed.

Lemma move_drain s A id k n q : hrepr s A → slot_ok id → ah_names A !! k = Some n → Z.of_nat (total A) < QUEUE_MAX →
  queue_ok q (an_queue n) → (∃ sl sq, hb_s (hs s) !! Z.to_nat id = Some sl ∧ sl_queue sl = Some sq) →
  ∃ q' s' sq, drain q (push_to id) s = Ok (q', s') ∧ queue_ok q' [] ∧ hb_nodes (hs s') = hb_nodes (hs s) ∧
    (∃ sl, hb_s (hs s') !! Z.to_nat id = Some sl ∧ sl_queue sl = Some sq) ∧
    hrepr s' (set_conn id (AConn (ac_fd (conn_of A id)) (ac_phase (conn_of A id)) (ac_queue (conn_of A id) ++ an_queue n)) A).
Proof.
  intros Hr Hid Hk Ht Hq (sl0 & sq0 & Hsl0 & Hsq0). set (c := conn_of A id). pose proof (total_both _ _ _ _ _ Hr Hid Hk) as Hboth. fold c in Hboth.
  destruct (drain_run (push_to id) (λ r s', hb_nodes (hs s') = hb_nodes (hs s) ∧ ∃ done_ sl sq, an_queue n = done_ ++ r ∧
      hb_s (hs s') !! Z.to_nat id = Some sl ∧ sl_queue sl = Some sq ∧
      hrepr s' (set_conn id (AConn (ac_fd c) (ac_phase c) (ac_queue c ++ done_)) A)) (an_queue n) q s Hq) as (q' & s' & E & Hq' & En & done_ & sl & sq & El & Hsl & Hsq & Hr').
  - split; [done|]. exists [], sl0, sq0. split; [done|]. split; [done|]. split; [done|]. rewrite app_nil_r. fold c.
    assert (Ec : AConn (ac_fd c) (ac_phase c) (ac_queue c) = c) by (by destruct c). rewrite Ec. unfold c. rewrite set_conn_same; [done|by eapply hr_length|done].
  - intros m r s1 (En1 & d & sl & sq & El & Hsl & Hsq & Hr1). destruct (get_s_lemma _ _ id Hr1 Hid) as (sl' & E1 & Hc & Hsl').
    rewrite Hsl in Hsl'. injection Hsl' as <-. unfold push_to. rewrite (sbind_ok _ _ _ _ _ E1), Hsq, (lift_bind _ _ _ sq) by done.
    rewrite (set_conn_of A) in Hc by (done || by eapply hr_length). pose proof (cr_queue _ _ Hc) as Hq1. rewrite Hsq in Hq1. cbn [ac_queue] in Hq1.
    assert (Hlen : Z.of_nat (length (ac_queue c ++ d)) < QUEUE_MAX).
    { rewrite El, length_app in Hboth. cbn in Hboth. rewrite length_app. lia. }
    destruct (push_queue_lemma _ _ m Hq1 Hlen) as (sq' & Ep & Hq2). rewrite (lift_bind _ _ _ _ Ep).
    destruct (put_s_lemma _ _ id (with_queue (Some sq') sl) (AConn (ac_fd c) (ac_phase c) (ac_queue c ++ d ++ [m])) Hr1 Hid) as [Eput Hr2].
    { destruct Hc as [Hfd _ Hph]. split; [done| |done]. cbn. by rewrite (assoc_L (++)). }
    eexists. split; [exact Eput|]. split; [done|]. exists (d ++ [m]), (with_queue (Some sq') sl), sq'.
    split; [by rewrite <- (assoc_L (++))|]. rewrite set_conn_twice in Hr2. split; [|done].
    cbn. apply list_lookup_insert_eq. by eapply lookup_lt_Some.
  - rewrite app_nil_r in El. subst done_. exists q', s', sq. split; [exact E|]. split; [done|]. split; [done|]. split; [by exists sl|done].
Qed.

Lemma name_empty k n (o : option harbor_msg_queue) : name_repr k n → queue_repr o [] →
  name_repr (with_kv_queue o k) (AName (an_key n) (an_value n) []).
Proof. intros []. by split. Qed.

Lemma set_names_conn l id c A : set_names l (set_conn id c A) = set_conn id c (set_names l A).
Proof. done. Qed.

Lemma move_lemma s A id k n kv q : hrepr s A → slot_ok id → ah_names A !! k = Some n → Z.of_nat (total A) < QUEUE_MAX →
  hb_nodes (hs s) !! k = Some kv → kv_queue kv = Some q → queue_ok q (an_queue n) →
  ∃ s', move_queue (Z.of_nat k) id q s = Ok ((), s') ∧ hrepr s' (moved k id n A) ∧
    ∃ sl sq, hb_s (hs s') !! Z.to_nat id = Some sl ∧ sl_queue sl = Some sq.
Proof.
  intros Hr Hid Hk Ht Hkv Eq Hq. destruct (get_s_lemma _ _ id Hr Hid) as (sl & E1 & Hc & Hsl).
  destruct (get_kv_lemma _ _ _ _ Hr Hk) as (kv' & _ & Hn & Hkv'). rewrite Hkv in Hkv'. injection Hkv' as <-.
  unfold move_queue. rewrite (sbind_ok _ _ _ _ _ E1). destruct (sl_queue sl) as [sq|] eqn:Esq.
  - destruct (move_drain s A id k n q Hr Hid Hk Ht Hq) as (q' & s2 & sq' & E2 & Hq' & En & (sl2 & Hsl2 & Esq2) & Hr2); [by exists sl, sq|].
    rewrite (sbind_ok _ _ _ _ _ E2). destruct (get_kv_lemma _ _ k n Hr2 Hk) as (kv2 & E3 & Hn2 & Hkv2). rewrite (sbind_ok _ _ _ _ _ E3).
    destruct (put_kv_lemma _ _ k n kv2 (with_kv_queue (Some q') kv2) (AName (an_key n) (an_value n) []) Hr2 Hk Hkv2) as [E4 Hr4];
      [by apply name_empty|done|done|]. eexists. split; [exact E4|]. split; [exact Hr4|]. by exists sl2, sq'.
  - destruct (put_s_lemma _ _ id (with_queue (Some q) sl) (AConn (ac_fd (conn_of A id)) (ac_phase (conn_of A id)) (ac_queue (conn_of A id) ++ an_queue n)) Hr Hid) as [E2 Hr2].
    { destruct Hc as [Hfd Hcq Hph]. rewrite Esq in Hcq. cbn in Hcq. split; [done| |done]. cbn. by rewrite Hcq. }
    rewrite (sbind_ok _ _ _ _ _ E2). destruct (get_kv_lemma _ _ k n Hr2 Hk) as (kv2 & E3 & Hn2 & Hkv2). rewrite (sbind_ok _ _ _ _ _ E3).
    destruct (put_kv_lemma _ _ k n kv2 (with_kv_queue None kv2) (AName (an_key n) (an_value n) []) Hr2 Hk Hkv2) as [E4 Hr4];
      [by apply name_empty|done|done|]. eexists. split; [exact E4|]. split; [exact Hr4|].
    exists (with_queue (Some q) sl), q. split; [|done]. cbn. apply list_lookup_insert_eq. by eapply lookup_lt_Some.
Qed.

(** [dispatch_name_queue]: the node has no messages afterwards. *)
Lemma dispatch_name_lemma s A k n kv q : hrepr s A → ah_names A !! k = Some n → Z.of_nat (total A) < QUEUE_MAX →
  u32_ok (an_value n) → Forall fits (an_queue n) → hb_nodes (hs s) !! k = Some kv → kv_queue kv = Some q →
  ∃ s', dispatch_name_queue (Z.of_nat k) s = Ok ((), s') ∧
    hrepr s' (a_dispatch (an_value n) (an_queue n) (set_names (<[k := AName (an_key n) (an_value n) []]> (ah_names A)) A)).
Proof.
  intros Hr Hk Ht Hv Hfit Hkv Eq. pose proof (handle_slot _ Hv) as Hid. set (id := Z.shiftr (an_value n) HANDLE_REMOTE_SHIFT) in *.
  destruct (get_kv_lemma _ _ _ _ Hr Hk) as (kv' & E1 & Hn & Hkv'). rewrite Hkv in Hkv'. injection Hkv' as <-.
  pose proof (nr_queue _ _ Hn) as Hq. rewrite Eq in Hq. unfold dispatch_name_queue. rewrite (sbind_ok _ _ _ _ _ E1), Eq, (lift_bind _ _ _ q) by done.
  cbv zeta. rewrite (nr_value _ _ Hn). fold id. destruct (get_s_lemma _ _ id Hr Hid) as (sl & E2 & Hc & Hsl). rewrite (sbind_ok _ _ _ _ _ E2).
  rewrite (cr_fd _ _ Hc). unfold a_dispatch. fold id. change (conn_of (set_names _ A) id) with (conn_of A id).
  destruct (Z.eqb_spec (ac_fd (conn_of A id)) 0) as [E0|Hne].
  - assert (Est : sl_status sl =? STATUS_DOWN = false).
    { pose proof (cr_phase _ _ Hc) as Hph. rewrite (cr_fd _ _ Hc), E0 in Hph. destruct (ac_phase (conn_of A id)); [|by destruct Hph..].
      by destruct Hph as (_ & -> & _). }
    rewrite Est. destruct (move_lemma s A id k n kv q Hr Hid Hk Ht Hkv Eq Hq) as (s3 & E3 & Hr3 & sl3 & sq3 & Hsl3 & Esq3).
    rewrite (sbind_ok _ _ _ _ _ E3), getH_bind, (hr_slave _ _ Hr3). change (ah_slave (moved k id n A)) with (ah_slave A).
    change (ah_slave (set_names _ A)) with (ah_slave A). destruct (id =? Z.shiftr (ah_slave A) HANDLE_REMOTE_SHIFT); [|by exists s3].
    destruct (deliver_local_lemma id (an_value n) sq3 s3 _ Hr3 Hid) as (s4 & E4 & Hr4); [by exists sl3|]. exists s4. split; [exact E4|].
    unfold moved in Hr4. rewrite set_conn_of in Hr4 by (exact (hr_length _ _ Hr) || exact Hid). rewrite set_conn_twice in Hr4. exact Hr4.
  - destruct (flush_acts (ac_fd (conn_of A id)) (to_handle (an_value n)) q (an_queue n) s Hq) as (q' & E3 & Hq').
    { eapply Forall_impl; [exact Hfit|]. by intros m Hm. }
    rewrite (sbind_ok _ _ _ _ _ E3). set (l := concat _) in *. pose proof (hact_repr s A l Hr) as Hr3.
    destruct (get_kv_lemma _ _ k n Hr3 Hk) as (kv3 & E4 & Hn3 & Hkv3). rewrite (sbind_ok _ _ _ _ _ E4).
    destruct (put_kv_lemma _ _ k n kv3 (with_kv_queue (Some q') kv3) (AName (an_key n) (an_value n) []) Hr3 Hk Hkv3) as [E5 Hr5];
      [by apply name_empty|done|done|]. eexists. split; [exact E5|exact Hr5].
Qed.

(** Nothing happens to the connection when nothing waits at the name. *)
Definition local_ok (A : aharbor) : Prop := ac_queue (conn_of A (Z.shiftr (ah_slave A) HANDLE_REMOTE_SHIFT)) = [].

Lemma a_dispatch_nil handle A : length (ah_conns A) = Z.to_nat REMOTE_MAX → u32_ok handle → local_ok A → a_dispatch handle [] A = A.
Proof.
  intros Hl Hv Hloc. unfold a_dispatch. pose proof (handle_slot _ Hv) as Hid. set (id := Z.shiftr handle HANDLE_REMOTE_SHIFT) in *.
  cbn [map concat]. destruct (ac_fd (conn_of A id) =? 0); [|apply act_nil]. rewrite app_nil_r.
  assert (Ec : ∀ l, l = ac_queue (conn_of A id) → set_conn id (AConn (ac_fd (conn_of A id)) (ac_phase (conn_of A id)) l) A = A).
  { intros l ->. rewrite <- (set_conn_same A id) at 5 by done. by destruct (conn_of A id). }
  destruct (Z.eqb_spec id (Z.shiftr (ah_slave A) HANDLE_REMOTE_SHIFT)) as [E|_]; [|by apply Ec].
  unfold local_ok in Hloc. rewrite <- E in Hloc. rewrite Hloc. cbn [map]. rewrite act_nil. by apply Ec.
Qed.

Lemma a_dispatch_name handle q A k : ah_names (a_dispatch handle q A) !! k = ah_names A !! k.
Proof. unfold a_dispatch. cbv zeta. destruct (ac_fd (conn_of A _) =? 0); [|done]. by destruct (Z.shiftr handle _ =? _). Qed.

Lemma update_name_lemma s A name handle : hrepr s A → name16 name → u32_ok handle → Z.of_nat (total A) < QUEUE_MAX →
  Forall (λ n, Forall fits (an_queue n)) (ah_names A) → local_ok A →
  ∃ s', update_name name handle s = Ok ((), s') ∧ hrepr s' (a_name name handle A).
Proof.
  intros Hr H16 Hv Ht Hfit Hloc. unfold a_name. pose proof (find_name s A name Hr H16) as Hfind.
  destruct (with_name (ah_names A) name) as [l k] eqn:El. destruct Hfind as (s1 & n & E1 & Hr1 & Hk & Hkey).
  assert (Estep : ∀ B (K : Z → SM hstate B), (node ← hash_search name; node ← (if node =? NULL then hash_insert name else mret node); K node) s =
    K (Z.of_nat k) s1).
  { intros B K. unfold mbind, SM_bind in E1 |- *. destruct (hash_search name s) as [[node s0]|]; [|done].
    destruct (node =? NULL); by rewrite E1. }
  unfold update_name. rewrite Estep, nth_lookup, Hk. cbn [default from_option id].
  destruct (get_kv_lemma _ _ _ _ Hr1 Hk) as (kv & Ek & Hn & Hkv). rewrite (sbind_ok _ _ _ _ _ Ek).
  set (kv2 := KeyValue (kv_next kv) (kv_key kv) (kv_hash kv) handle (kv_queue kv)). set (n2 := AName (an_key n) handle (an_queue n)).
  destruct (put_kv_lemma _ _ k n kv kv2 n2 Hr1 Hk Hkv) as [E2 Hr2]; [destruct Hn; by split|done|done|]. rewrite (sbind_ok _ _ _ _ _ E2).
  set (A2 := set_names (<[k := n2]> l) (set_names l A)). change (hrepr (with_node k kv2 s1) A2) in Hr2. assert (Hlt : (k < length l)%nat) by (by eapply lookup_lt_Some).
  assert (Hk2 : ah_names A2 !! k = Some n2) by (cbn; by apply list_lookup_insert_eq).
  assert (EA : set_names (<[k := AName (an_key n2) (an_value n2) []]> (ah_names A2)) A2 = set_names (<[k := AName (an_key n) handle []]> l) A)
    by (unfold set_names, A2; cbn; by rewrite list_insert_insert_eq).
  assert (Ht2 : Z.of_nat (total A2) < QUEUE_MAX).
  { unfold total in *. cbn. pose proof (sum_insert (λ n, length (an_queue n)) l k n n2 Hk) as Hs. rewrite (with_name_total _ _ _ _ El) in Hs. cbn in *. lia. }
  assert (Hfit2 : Forall fits (an_queue n)).
  { unfold with_name in El. destruct (name_index (ah_names A) name); injection El as <- <-; [exact (Forall_lookup_1 _ _ _ _ Hfit Hk)|].
    apply lookup_app_Some in Hk as [Hk|[_ Hk]]; [exact (Forall_lookup_1 _ _ _ _ Hfit Hk)|]. apply list_lookup_singleton_Some in Hk as [_ <-]. constructor. }
  destruct (kv_queue kv) as [q|] eqn:Eq.
  - destruct (dispatch_name_lemma _ _ k n2 kv2 q Hr2 Hk2 Ht2 Hv Hfit2) as (s3 & E3 & Hr3).
    { cbn. apply list_lookup_insert_eq. by eapply lookup_lt_Some. } { done. }
    rewrite (sbind_ok _ _ _ _ _ E3). rewrite EA in Hr3. change (an_value n2) with handle in Hr3. change (an_queue n2) with (an_queue n) in Hr3.
    assert (Hk3 : ah_names (a_dispatch handle (an_queue n) (set_names (<[k := AName (an_key n) handle []]> l) A)) !! k = Some (AName (an_key n) handle []))
      by (rewrite a_dispatch_name; cbn; by apply list_lookup_insert_eq).
    destruct (get_kv_lemma _ _ _ _ Hr3 Hk3) as (kv3 & E4 & Hn3 & Hkv3). rewrite (sbind_ok _ _ _ _ _ E4).
    rewrite (sbind_ok _ _ _ _ _ (release_queue_lemma _ [] s3 (nr_queue _ _ Hn3))). cbn [drop_msgs map]. rewrite app_nil_r.
    assert (Es3 : HState (hs s3) (hacts s3) = s3) by (by destruct s3). rewrite Es3, (sbind_ok _ _ _ _ _ E4).
    destruct (put_kv_lemma _ _ k _ kv3 (with_kv_queue None kv3) (AName (an_key n) handle []) Hr3 Hk3 Hkv3) as [E5 Hr5];
      [destruct Hn3; by split|done|done|]. eexists. split; [exact E5|]. rewrite list_insert_id in Hr5 by exact Hk3.
    by destruct (a_dispatch handle (an_queue n) (set_names (<[k := AName (an_key n) handle []]> l) A)).
  - pose proof (nr_queue _ _ Hn) as Hq. rewrite Eq in Hq. cbn in Hq. rewrite Hq, a_dispatch_nil; [|by eapply (hr_length s A)|done|exact Hloc].
    eexists. split; [done|]. unfold A2, n2 in Hr2. rewrite Hq in Hr2. exact Hr2.
Qed.
