(* ===== verification/HarborLinks.v ===== *)
(** The harbor service's connections: writing what waited, breaking, and cutting what comes in
    into messages. *)

From S2P Require Import Prelude CString Handle MessageQueue Node Server.
From S2P Require Import Ring Chain Frames Gate GateText GateProps Harbor HarborProps HarborTable HarborRefines.
Open Scope Z_scope.

(** ** Cutting *)

Lemma hcut_more fuel : ∀ s k, (length s ≤ fuel)%nat → hcut_ (fuel + k) s = hcut_ fuel s.
Proof.
  induction fuel as [|fuel IH]; intros s k Hs.
  { destruct s; [|cbn in Hs; lia]. by destruct k. }
  cbn [hcut_ Nat.add]. destruct s as [|b0 [|b1 [|b2 [|b3 body]]]]; try done.
  rewrite IH by (rewrite length_drop; cbn in Hs; lia). done.
Qed.

Lemma hcut_fuel fuel s : (length s ≤ fuel)%nat → hcut_ fuel s = hcut s.
Proof. intros Hs. replace fuel with (length s + (fuel - length s))%nat by lia. by apply hcut_more. Qed.

Lemma hcut_cons b0 b1 b2 b3 body : hcut (b0 :: b1 :: b2 :: b3 :: body) =
  if negb (b0 =? 0) then ([], CLong)
  else
    let n := frame_length b1 b2 b3 in
    if (Nat.max 1 n <=? length body)%nat then
      if (n <? Z.to_nat HEADER_COOKIE_LENGTH)%nat then ([], CShort)
      else let '(fs, e) := hcut (drop n body) in (take n body :: fs, e)
    else ([], CRest (b0 :: b1 :: b2 :: b3 :: body)).
Proof.
  cbv zeta. rewrite <- (hcut_fuel (S (4 + length body)) (b0 :: _)) by (cbn; lia). rewrite <- (hcut_fuel (4 + length body) (drop _ body)) by (rewrite length_drop; lia).
  generalize (4 + length body)%nat. done.
Qed.

Lemma hcut_short s : (length s < 4)%nat → hcut s = ([], CRest s).
Proof. intros Hs. by destruct s as [|? [|? [|? [|? ?]]]]; [..|cbn in Hs; lia]. Qed.

(** ** Slots *)

Lemma get_slot id sl s A : hrepr s A → slot_ok id → get_s id (with_slot id sl s) = Ok (sl, with_slot id sl s).
Proof.
  intros Hr [H0 H1]. unfold get_s. rewrite getH_bind. unfold lift. rewrite (rd_ok _ _ sl); [done|done|].
  cbn. apply list_lookup_insert_eq. pose proof (Forall2_length _ _ _ (hr_conns _ _ Hr)). pose proof (hr_length _ _ Hr). lia.
Qed.

Lemma put_slot id sl sl' s A : hrepr s A → slot_ok id → put_s id sl' (with_slot id sl s) = Ok ((), with_slot id sl' s).
Proof.
  intros Hr [H0 H1]. unfold put_s. rewrite getH_bind.
  rewrite (lift_bind _ _ _ (<[Z.to_nat id := sl']> (hb_s (hs (with_slot id sl s))))).
  - unfold putH, modify, with_slot, set_s. cbn. by rewrite list_insert_insert_eq.
  - apply wr_ok. cbn. rewrite length_insert. pose proof (Forall2_length _ _ _ (hr_conns _ _ Hr)). pose proof (hr_length _ _ Hr). lia.
Qed.

Definition acted (l : list haction) (s : hstate) : hstate := HState (hs s) (hacts s ++ l).

Lemma with_slot_acted id sl l s : acted l (with_slot id sl s) = with_slot id sl (acted l s).
Proof. done. Qed.

Lemma acted_acted l1 l2 s : acted l2 (acted l1 s) = acted (l1 ++ l2) s.
Proof. unfold acted. cbn. by rewrite (assoc_L (++)). Qed.

Lemma with_slot_same id sl s : hb_s (hs s) !! Z.to_nat id = Some sl → with_slot id sl s = s.
Proof. intros Hsl. unfold with_slot, set_s. rewrite list_insert_id by done. by destruct s as [[] ?]. Qed.

(** Breaking: only the socket and the queue matter. *)
Lemma harbor_close_lemma id sl s A : hrepr s A → slot_ok id → sl_fd sl ≠ 0 → sl_fd sl = ac_fd (conn_of A id) →
  queue_repr (sl_queue sl) (ac_queue (conn_of A id)) →
  ∃ s', close_harbor id (with_slot id sl s) = Ok ((), s') ∧ hrepr s' (a_close id A).
Proof.
  intros Hr Hid Hne Hfd Hq. unfold close_harbor, a_close. rewrite <- Hfd.
  rewrite (sbind_ok _ _ _ _ _ (get_slot id sl s A Hr Hid)), (sbind_ok _ _ _ _ _ (put_slot id sl _ s A Hr Hid)).
  destruct (Z.eqb_spec (sl_fd sl) 0) as [|_]; [done|]. cbn [negb]. rewrite hact_bind.
  change (HState _ _) with (acted [HSocketClose (sl_fd sl)] (with_slot id (with_status STATUS_DOWN sl) s)). rewrite with_slot_acted.
  set (s1 := acted _ s). assert (Hr1 : hrepr s1 (act [HSocketClose (sl_fd sl)] A)) by (by apply hact_repr).
  assert (Hend : ∀ l q, q = None → hrepr (with_slot id (with_queue q (with_status STATUS_DOWN sl)) (acted l s1))
    (act ([HSocketClose (sl_fd sl)] ++ l) (set_conn id (AConn (sl_fd sl) PDown []) A))).
  { intros l q ->. rewrite <- act_act, act_set_conn, act_set_conn. apply slot_repr; [by apply hact_repr|done|]. by split. }
  destruct (sl_queue sl) as [q|] eqn:Eq.
  - rewrite (sbind_ok _ _ _ _ _ (release_queue_lemma (Some q) _ _ Hq)).
    change (HState _ _) with (acted (drop_msgs (ac_queue (conn_of A id))) (with_slot id (with_status STATUS_DOWN sl) s1)).
    rewrite with_slot_acted. set (l := drop_msgs _) in *. pose proof (hact_repr _ _ l Hr1) as Hr2. fold (acted l s1) in Hr2.
    rewrite (sbind_ok _ _ _ _ _ (get_slot id _ _ _ Hr2 Hid)), (put_slot id _ _ _ _ Hr2 Hid). eexists. split; [done|]. by apply Hend.
  - cbn in Hq. rewrite Hq. eexists. split; [done|]. specialize (Hend [] None eq_refl). unfold with_queue in Hend. cbn in Hend.
    unfold with_status. rewrite Eq. unfold acted at 1 in Hend. rewrite app_nil_r in Hend.
    assert (Es : HState (hs s1) (hacts s1) = s1) by (by destruct s1). rewrite Es in Hend. exact Hend.
Qed.

Lemma dispatch_queue_lemma id s A : hrepr s A → all_fit A → slot_ok id → ac_fd (conn_of A id) ≠ 0 →
  ∃ s', dispatch_queue id s = Ok ((), s') ∧ hrepr s' (a_flush id A).
Proof.
  intros Hr Hfit Hid Hne. destruct (get_s_lemma _ _ id Hr Hid) as (sl & E1 & Hc & Hsl). unfold dispatch_queue. rewrite (sbind_ok _ _ _ _ _ E1).
  rewrite (cr_fd _ _ Hc). destruct (Z.eqb_spec (ac_fd (conn_of A id)) 0) as [|_]; [done|]. rewrite (lift_bind _ _ _ ()) by done.
  pose proof (cr_queue _ _ Hc) as Hq. pose proof (conn_fit _ _ _ Hr Hfit Hid) as Hf. destruct (sl_queue sl) as [q|].
  - apply (drain_conn _ (write_msg (ac_fd (conn_of A id))) id q s A Hr Hid Hq). intros m s1 Hm. eapply Forall_elem in Hf; [|exact Hm].
    destruct m as [h p]. cbn [msg_of hm_header hm_buffer hm_size fst snd]. rewrite (sbind_ok _ _ _ _ _ (send_remote_lemma _ (h, p) s1 Hf)).
    unfold hact, modify, write_msg. cbn [hs hacts]. by rewrite <- (assoc_L (++)).
  - exists s. split; [done|]. cbn in Hq. unfold a_flush. rewrite Hq. cbn [map concat]. rewrite act_nil. destruct (conn_of A id) as [fd ph qq] eqn:Ec.
    cbn in *. subst qq. rewrite <- Ec, set_conn_same; [done|by eapply hr_length|done].
Qed.

(** ** Messages in *)

Section bytes.
Context `{!HarborRuntime}.

Lemma deliver_set_conn f id c A : a_deliver f (set_conn id c A) = set_conn id c (a_deliver f A).
Proof. unfold a_deliver. cbv zeta. cbn [ah_id ah_acts act set_conn]. by destruct (rt_send _ <? 0). Qed.

Lemma deliver_conns f A : ah_conns (a_deliver f A) = ah_conns A.
Proof. unfold a_deliver. cbv zeta. by destruct (rt_send _ <? 0). Qed.

Lemma deliver_lemma f s A : hrepr s A → (Z.to_nat HEADER_COOKIE_LENGTH ≤ length f)%nat →
  ∃ s', forward_local_messsage (map Some f) (Z.of_nat (length f)) s = Ok ((), s') ∧ hrepr s' (a_deliver f A) ∧ hs s' = hs s.
Proof.
  intros Hr Hlen. unfold HEADER_COOKIE_LENGTH in Hlen. set (n := (length f - Z.to_nat HEADER_COOKIE_LENGTH)%nat).
  assert (Hn : Z.of_nat (length f) - HEADER_COOKIE_LENGTH = Z.of_nat n) by (unfold n, HEADER_COOKIE_LENGTH; lia).
  unfold forward_local_messsage. pose proof (init_bytes_lemma f []) as Ei. rewrite app_nil_r in Ei. rewrite (lift_bind _ _ _ _ Ei), Hn.
  rewrite (lift_bind _ _ _ (drop n f)).
  2:{ rewrite rd_at_ok by (unfold n, HEADER_COOKIE_LENGTH in *; lia). rewrite Nat2Z.id, take_ge; [done|]. rewrite length_drop. unfold n, HEADER_COOKIE_LENGTH. lia. }
  cbv zeta. rewrite getH_bind, (lift_bind _ _ _ (take n f)).
  2:{ rewrite rd_at_ok by (unfold n; lia). by rewrite Nat2Z.id. }
  unfold a_deliver. fold n. cbv zeta. rewrite (hr_id _ _ Hr). set (h := message_to_header (drop n f)).
  set (x := HSend (rh_source h) _ _ _ (take n f)).
  assert (Esend : skynet_send_ (rh_source h) (Z.lor (Z.land (rh_destination h) HANDLE_MASK) (u32 (Z.shiftl (u32 (ah_id A)) HANDLE_REMOTE_SHIFT)))
      (Z.lor (Z.shiftr (rh_destination h) HANDLE_REMOTE_SHIFT) PTYPE_TAG_DONTCOPY) (i32 (rh_session h)) (take n f) s =
    Ok (rt_send (ah_acts (act [x] A)), acted [x] s)) by (cbn; by rewrite <- (hr_acts _ _ Hr)).
  rewrite (sbind_ok _ _ _ _ _ Esend). pose proof (hact_repr _ _ [x] Hr) as Hr1. fold (acted [x] s) in Hr1.
  destruct (rt_send (ah_acts (act [x] A)) <? 0); [|by exists (acted [x] s)].
  destruct (Z.shiftr (rh_destination h) HANDLE_REMOTE_SHIFT =? PTYPE_ERROR); cbn [negb].
  - change (mret () ≫= ?K) with (K ()). eexists. split; [reflexivity|]. split; [|done]. by apply (hact_repr (acted [x] s)).
  - rewrite hact_bind. eexists. split; [reflexivity|]. split; [|done]. cbn [hs hacts]. rewrite <- (assoc_L (++)). by apply (hact_repr (acted [x] s)).
Qed.

Lemma forward_short f s : (length f < Z.to_nat HEADER_COOKIE_LENGTH)%nat →
  forward_local_messsage (map Some f) (Z.of_nat (length f)) s = Fault OutOfBounds.
Proof.
  intros Hlen. unfold forward_local_messsage. pose proof (init_bytes_lemma f []) as Ei. rewrite app_nil_r in Ei. rewrite (lift_bind _ _ _ _ Ei).
  assert (Er : rd_at f (Z.of_nat (length f) - HEADER_COOKIE_LENGTH) HEADER_COOKIE_LENGTH = Fault OutOfBounds).
  { unfold rd_at. rewrite bool_decide_eq_false_2; [done|]. unfold HEADER_COOKIE_LENGTH in *. lia. }
  unfold lift at 1, mbind, SM_bind. by rewrite Er.
Qed.

(** *** One round *)

(** What a round leaves to do. *)
Definition round_ok (id : Z) (n : nat) (x : res (loop (list Z) unit * hstate)) (y : res aharbor) : Prop :=
  match x with
  | Fault e => y = Fault e
  | Ok (Break _, s') => ∃ A', y = Ok A' ∧ hrepr s' A'
  | Ok (Continue l, s') => l ≠ [] ∧ (length l < n)%nat ∧ Forall byte l ∧
      ∃ A' rest, hrepr s' A' ∧ ac_phase (conn_of A' id) = PUp rest ∧ y = a_bytes id (rest ++ l) A'
  end.

Lemma a_bytes_conn id s p c A : length (ah_conns A) = Z.to_nat REMOTE_MAX → slot_ok id → c = conn_of A id →
  a_bytes id s (set_conn id (AConn (ac_fd c) p (ac_queue c)) A) = a_bytes id s A.
Proof.
  intros Hl Hid ->. unfold a_bytes. destruct (hcut s) as [fs e]. set (c := conn_of A id).
  assert (Efold : ∀ fs A', foldl (λ A f, a_deliver f A) (set_conn id (AConn (ac_fd c) p (ac_queue c)) A') fs =
    set_conn id (AConn (ac_fd c) p (ac_queue c)) (foldl (λ A f, a_deliver f A) A' fs)).
  { clear fs. intros fs. induction fs as [|f fs IH]; intros A'; [done|]. cbn [foldl]. by rewrite deliver_set_conn. }
  rewrite Efold. assert (Econns : ∀ fs A', ah_conns (foldl (λ A f, a_deliver f A) A' fs) = ah_conns A').
  { clear fs Efold. intros fs. induction fs as [|f fs IH]; intros A'; [done|]. cbn [foldl]. by rewrite IH, deliver_conns. }
  pose proof (Econns fs A) as EA. set (B := foldl _ A fs) in *. assert (Hlb : length (ah_conns B) = Z.to_nat REMOTE_MAX) by (by rewrite EA).
  assert (Ec : conn_of B id = c) by (unfold conn_of; by rewrite EA).
  destruct e as [rest| |]; [| |done]; f_equal.
  - unfold with_phase. by rewrite set_conn_of, set_conn_twice, Ec by done.
  - unfold a_close. cbv zeta. rewrite (act_set_conn _ id (AConn (ac_fd c) p _) B). set (B' := act [_] B). change (conn_of B id) with (conn_of B' id) in Ec.
    rewrite set_conn_of, set_conn_twice, Ec by done. done.
Qed.

Lemma conn_phase id sl p A : conn_repr sl (conn_of A id) → ∀ sl', sl_fd sl' = sl_fd sl → sl_queue sl' = sl_queue sl →
  match p with
  | PUp rest => sl_fd sl ≠ 0 ∧ reading sl' rest ∧ Forall byte rest
  | _ => False
  end → conn_repr sl' (AConn (ac_fd (conn_of A id)) p (ac_queue (conn_of A id))).
Proof. intros [Hfd Hq _] sl' Hf' Hq' Hp. split; cbn; [congruence|by rewrite Hq'|]. destruct p; try done. by rewrite Hf'. Qed.

(** The three ways the first message of the bytes goes. *)
Lemma a_bytes_short id b1 b2 b3 body A : (length body < Nat.max 1 (frame_length b1 b2 b3))%nat →
  a_bytes id (0 :: b1 :: b2 :: b3 :: body) A = Ok (with_phase id (PUp (0 :: b1 :: b2 :: b3 :: body)) A).
Proof.
  intros Hl. unfold a_bytes. rewrite hcut_cons. cbn [Z.eqb negb]. cbv zeta. rewrite (proj2 (Nat.leb_gt _ _)) by lia. done.
Qed.

Lemma a_bytes_fault id b1 b2 b3 body A : (Nat.max 1 (frame_length b1 b2 b3) ≤ length body)%nat →
  (frame_length b1 b2 b3 < Z.to_nat HEADER_COOKIE_LENGTH)%nat → a_bytes id (0 :: b1 :: b2 :: b3 :: body) A = Fault OutOfBounds.
Proof.
  intros Hl Hn. unfold a_bytes. rewrite hcut_cons. cbn [Z.eqb negb]. cbv zeta.
  rewrite (proj2 (Nat.leb_le _ _)) by lia. by rewrite (proj2 (Nat.ltb_lt _ _)).
Qed.

Lemma a_bytes_frame id b1 b2 b3 body A : (frame_length b1 b2 b3 ≤ length body)%nat →
  (Z.to_nat HEADER_COOKIE_LENGTH ≤ frame_length b1 b2 b3)%nat →
  a_bytes id (0 :: b1 :: b2 :: b3 :: body) A =
    a_bytes id (drop (frame_length b1 b2 b3) body) (a_deliver (take (frame_length b1 b2 b3) body) A).
Proof.
  intros Hl Hn. unfold a_bytes. rewrite hcut_cons. cbn [Z.eqb negb]. cbv zeta. unfold HEADER_COOKIE_LENGTH in *.
  rewrite (proj2 (Nat.leb_le _ _)) by lia. rewrite (proj2 (Nat.ltb_ge _ _)) by lia. by destruct (hcut _).
Qed.

Lemma a_bytes_nil id A : a_bytes id [] A = Ok (with_phase id (PUp []) A).
Proof. done. Qed.

(** A message is complete: it is delivered and the connection is at the next header. *)
Lemma message_lemma id f l n s A rest : hrepr s A → slot_ok id → ac_phase (conn_of A id) = PUp rest →
  (Z.to_nat HEADER_COOKIE_LENGTH ≤ length f)%nat → Forall byte l → (length l < n)%nat →
  (∀ sl, hb_s (hs s) !! Z.to_nat id = Some sl → length (sl_size sl) = 4%nat) →
  round_ok id n
    ((_ ← forward_local_messsage (map Some f) (Z.of_nat (length f));
      s ← get_s id;
      _ ← put_s id (Slave (sl_fd s) (sl_queue s) STATUS_HEADER 0 0 (sl_size s) None);
      if (length l =? 0)%nat then mret (Break tt) else mret (Continue l)) s)
    (a_bytes id l (a_deliver f A)).
Proof.
  intros Hr Hid Hph Hf Hl Hn Hsize. destruct (deliver_lemma f s A Hr Hf) as (s1 & E1 & Hr1 & Hs1). rewrite (sbind_ok _ _ _ _ _ E1).
  destruct (get_s_lemma _ _ id Hr1 Hid) as (sl & E2 & Hc & Hsl). rewrite (sbind_ok _ _ _ _ _ E2).
  set (A1 := a_deliver f A) in *. assert (Ec : conn_of A1 id = conn_of A id) by (unfold conn_of, A1; by rewrite deliver_conns).
  pose proof (cr_phase _ _ Hc) as Hp. rewrite Ec, Hph in Hp. destruct Hp as (Hne & _ & _).
  destruct (put_s_lemma s1 A1 id (Slave (sl_fd sl) (sl_queue sl) STATUS_HEADER 0 0 (sl_size sl) None)
    (AConn (ac_fd (conn_of A1 id)) (PUp []) (ac_queue (conn_of A1 id))) Hr1 Hid) as [E3 Hr3].
  { apply (conn_phase id sl (PUp []) A1 Hc); [done|done|]. split; [done|]. split; [|constructor]. left. cbn. split; [done|]. split; [lia|].
    split; [done|]. exists (sl_size sl). split; [done|]. apply Hsize. by rewrite <- Hs1. }
  rewrite (sbind_ok _ _ _ _ _ E3). destruct l as [|x l]; cbn [length Nat.eqb].
  - eexists. split; [apply a_bytes_nil|exact Hr3].
  - split; [done|]. split; [done|]. split; [done|]. eexists _, []. split; [exact Hr3|].
    split; [by rewrite set_conn_of by (done || exact (hr_length _ _ Hr1))|]. cbn [app].
    by rewrite (a_bytes_conn id _ _ _ A1) by (done || exact (hr_length _ _ Hr1)).
Qed.

Lemma content_lemma id l s A rest : hrepr s A → slot_ok id → ac_phase (conn_of A id) = PUp rest → (4 ≤ length rest)%nat →
  l ≠ [] → Forall byte l → round_ok id (length l) (content_case id l s) (a_bytes id (rest ++ l) A).
Proof.
  intros Hr Hid Hph Hlen Hne Hl. destruct (get_s_lemma _ _ id Hr Hid) as (sl & E1 & Hc & Hsl).
  pose proof (cr_phase _ _ Hc) as Hp. rewrite Hph in Hp.
  destruct Hp as (Hfd & [(_ & ? & _)|(Hst & b1 & b2 & b3 & got & -> & Elen & Eread & Hgot & Ebuf & Hsize)] & Hrest); [lia|].
  assert (Hln : (0 < length l)%nat) by (destruct l; [done|cbn; lia]). set (n := frame_length b1 b2 b3) in *.
  assert (Hrd : reading sl (0 :: b1 :: b2 :: b3 :: got)) by (right; split; [done|]; by exists b1, b2, b3, got).
  unfold content_case. rewrite (sbind_ok _ _ _ _ _ E1). cbv zeta.
  rewrite Ebuf, (lift_bind _ _ _ (map Some got ++ replicate (n - length got) None)), Elen, Eread by done.
  cbn [app]. destruct (Z.ltb_spec (Z.of_nat (length l)) (Z.of_nat n - Z.of_nat (length got))) as [Hlt|Hge].
  - rewrite (lift_bind _ _ _ _ (wr_at_fill l got (n - length got) ltac:(lia))).
    destruct (put_s_lemma s A id (Slave (sl_fd sl) (sl_queue sl) (sl_status sl) (Z.of_nat n) (Z.of_nat (length got) + Z.of_nat (length l))
        (sl_size sl) (Some (map Some (got ++ l) ++ replicate (n - length got - length l) None)))
      (AConn (ac_fd (conn_of A id)) (PUp (0 :: b1 :: b2 :: b3 :: got ++ l)) (ac_queue (conn_of A id))) Hr Hid) as [E2 Hr2].
    { apply (conn_phase id sl (PUp _) A Hc); [done|done|]. split; [done|]. split.
      - right. split; [done|]. exists b1, b2, b3, (got ++ l). fold n. cbn. rewrite length_app. split; [done|]. split; [done|]. split; [lia|].
        split; [lia|]. split; [|done]. by rewrite Nat.sub_add_distr.
      - change (0 :: b1 :: b2 :: b3 :: got ++ l) with ((0 :: b1 :: b2 :: b3 :: got) ++ l). by apply Forall_app. }
    rewrite (sbind_ok _ _ _ _ _ E2). eexists. split; [apply a_bytes_short; rewrite length_app; fold n; lia|exact Hr2].
  - set (need := (n - length got)%nat). assert (Eneed : Z.of_nat n - Z.of_nat (length got) = Z.of_nat need ∨ n = 0%nat) by lia.
    destruct Eneed as [Eneed|E0].
    2:{ assert (got = []) as -> by (apply nil_length_inv; lia). cbn [length]. rewrite E0. change (Z.of_nat 0 - Z.of_nat 0) with 0.
        rewrite (lift_bind _ _ _ []) by (rewrite rd_at_ok by lia; done). rewrite (lift_bind _ _ _ ([] : buffer)) by (unfold need; by rewrite E0).
        pose proof (forward_short [] s ltac:(unfold HEADER_COOKIE_LENGTH; cbn [length]; lia)) as Ef. cbn [map length] in Ef.
        unfold mbind, SM_bind. rewrite Ef. cbn [round_ok]. apply a_bytes_fault; fold n; [cbn [app]; lia|rewrite E0; unfold HEADER_COOKIE_LENGTH; lia]. }
    rewrite Eneed. rewrite (lift_bind _ _ _ (take need l)) by (rewrite rd_at_ok by lia; by rewrite Nat2Z.id).
    rewrite (lift_bind _ _ _ _ (wr_at_fill (take need l) got (n - length got) ltac:(rewrite length_take; lia))), Nat2Z.id.
    assert (Hnl : (need ≤ length l)%nat) by lia. rewrite length_take_le by done. fold need. rewrite Nat.sub_diag. cbn [replicate]. rewrite app_nil_r.
    assert (Ef : take n (got ++ l) = got ++ take need l) by (rewrite take_app_ge by lia; done).
    assert (Ed : drop n (got ++ l) = drop need l) by (rewrite drop_app_ge by lia; done).
    assert (Elf : length (got ++ take need l) = n) by (rewrite length_app, length_take_le by done; lia).
    rewrite <- Elf at 1. destruct (Nat.lt_ge_cases n (Z.to_nat HEADER_COOKIE_LENGTH)) as [Hs|Hs].
    + pose proof (forward_short (got ++ take need l) s ltac:(lia)) as E2. unfold mbind at 1, SM_bind at 1. rewrite E2.
      cbn. apply a_bytes_fault; fold n; [rewrite length_app; lia|done].
    + rewrite a_bytes_frame by (fold n; rewrite ?length_app; lia). fold n. rewrite Ef, Ed.
      apply (message_lemma id _ _ (length l) s A _ Hr Hid Hph); [lia|by apply Forall_drop|rewrite length_drop; unfold HEADER_COOKIE_LENGTH in Hs; lia|].
      intros sl' Hsl'. rewrite Hsl in Hsl'. by injection Hsl' as <-.
Qed.

Lemma length_bits b1 b2 b3 : byte b1 → byte b2 → byte b3 →
  Z.lor (Z.lor (Z.shiftl b1 16) (Z.shiftl b2 8)) b3 = Z.of_nat (frame_length b1 b2 b3).
Proof.
  unfold byte, frame_length. intros H1 H2 H3. assert (E : Z.lor (Z.shiftl b1 16) (Z.shiftl b2 8) = Z.shiftl (b1 * 2 ^ 8 + b2) 8).
  { replace 16 with (8 + 8) by done. rewrite <- Z.shiftl_shiftl by lia. rewrite <- Z.shiftl_lor, (Z.lor_comm (Z.shiftl b1 8)).
    rewrite lor_shiftl by lia. f_equal. lia. }
  rewrite E, Z.lor_comm, lor_shiftl by lia. lia.
Qed.

Lemma round_ok_mono id n m x y : round_ok id n x y → (n ≤ m)%nat → round_ok id m x y.
Proof. unfold round_ok. destruct x as [[[l|] s]|]; [|done..]. intros (?&?&?&?) Hn. repeat split; try done. lia. Qed.

(** The length is complete: the message follows. *)
Lemma begin_lemma id b b1 b2 b3 l s A p sl : hrepr s A → slot_ok id → hb_s (hs s) !! Z.to_nat id = Some sl →
  ac_phase (conn_of A id) = PUp p → Forall byte (b1 :: b2 :: b3 :: l) → length b = 4%nat →
  round_ok id (length l)
    ((let length_ := Z.lor (Z.lor (Z.shiftl b1 16) (Z.shiftl b2 8)) b3 in
      _ ← put_s id (Slave (sl_fd sl) (sl_queue sl) STATUS_CONTENT length_ 0 b (Some (replicate (Z.to_nat length_) None)));
      if (length l =? 0)%nat then mret (Break tt) else content_case id l) s)
    (a_bytes id (0 :: b1 :: b2 :: b3 :: l) A).
Proof.
  intros Hr Hid Hsl Hph Hb Hlen. destruct (get_s_lemma _ _ id Hr Hid) as (sl' & _ & Hc & Hsl'). rewrite Hsl in Hsl'. injection Hsl' as <-.
  pose proof (cr_phase _ _ Hc) as Hp. rewrite Hph in Hp. destruct Hp as (Hne & _ & _).
  apply Forall_cons in Hb as [H1 Hb]. apply Forall_cons in Hb as [H2 Hb]. apply Forall_cons in Hb as [H3 Hl].
  cbv zeta. rewrite (length_bits _ _ _ H1 H2 H3). set (n := frame_length b1 b2 b3). rewrite Nat2Z.id.
  destruct (put_s_lemma s A id (Slave (sl_fd sl) (sl_queue sl) STATUS_CONTENT (Z.of_nat n) 0 b (Some (replicate n None)))
    (AConn (ac_fd (conn_of A id)) (PUp [0; b1; b2; b3]) (ac_queue (conn_of A id))) Hr Hid) as [E2 Hr2].
  { apply (conn_phase id sl (PUp _) A Hc); [done|done|]. split; [done|]. split.
    - right. split; [done|]. exists b1, b2, b3, []. fold n. cbn [length map app]. rewrite Nat.sub_0_r. repeat split; try done. cbn. lia.
    - repeat apply Forall_cons_2; (done || (unfold byte; lia) || constructor). }
  rewrite (sbind_ok _ _ _ _ _ E2). destruct l as [|x l]; cbn [length Nat.eqb].
  - eexists. split; [apply a_bytes_short; cbn; lia|exact Hr2].
  - rewrite <- (a_bytes_conn id _ (PUp [0; b1; b2; b3]) (conn_of A id) A) by (done || exact (hr_length _ _ Hr)).
    refine (content_lemma id (x :: l) _ _ [0; b1; b2; b3] Hr2 Hid _ _ _ Hl); [|cbn; lia|done].
    by rewrite set_conn_of by (done || exact (hr_length _ _ Hr)).
Qed.

Lemma header_lemma id l s A rest : hrepr s A → slot_ok id → ac_phase (conn_of A id) = PUp rest → (length rest < 4)%nat →
  Forall byte l → round_ok id (length l) (header_case id l s) (a_bytes id (rest ++ l) A).
Proof.
  intros Hr Hid Hph Hlen Hl. destruct (get_s_lemma _ _ id Hr Hid) as (sl & E1 & Hc & Hsl).
  pose proof (cr_phase _ _ Hc) as Hp. rewrite Hph in Hp.
  destruct Hp as (Hfd & [(Hst & _ & Eread & junk & Esize & Hjunk)|(_ & b1 & b2 & b3 & got & -> & _)] & Hrest); [|cbn in Hlen; lia].
  unfold header_case. rewrite (sbind_ok _ _ _ _ _ E1). cbv zeta. rewrite Eread, Esize.
  destruct (Z.ltb_spec (Z.of_nat (length l)) (4 - Z.of_nat (length rest))) as [Hlt|Hge].
  - rewrite (lift_bind _ _ _ _ (wr_at_over l rest junk ltac:(lia))).
    destruct (put_s_lemma s A id (Slave (sl_fd sl) (sl_queue sl) (sl_status sl) (sl_length sl) (Z.of_nat (length rest) + Z.of_nat (length l))
        (map Some (rest ++ l) ++ drop (length l) junk) (sl_recv_buffer sl))
      (AConn (ac_fd (conn_of A id)) (PUp (rest ++ l)) (ac_queue (conn_of A id))) Hr Hid) as [E2 Hr2].
    { apply (conn_phase id sl (PUp _) A Hc); [done|done|]. split; [done|]. split; [|by apply Forall_app].
      left. cbn. rewrite length_app. split; [done|]. split; [lia|]. split; [lia|]. eexists. split; [done|]. rewrite length_drop. lia. }
    rewrite (sbind_ok _ _ _ _ _ E2). eexists. split; [|exact Hr2]. unfold a_bytes. rewrite hcut_short by (rewrite length_app; lia). done.
  - set (need := (4 - length rest)%nat). assert (4 - Z.of_nat (length rest) = Z.of_nat need) as -> by lia.
    rewrite (lift_bind _ _ _ (take need l)) by (rewrite rd_at_ok by lia; by rewrite Nat2Z.id).
    assert (Hnl : (need ≤ length l)%nat) by lia. assert (Htake : length (take need l) = need) by (by apply length_take_le).
    rewrite (lift_bind _ _ _ _ (wr_at_over (take need l) rest junk ltac:(lia))), Nat2Z.id, (drop_ge junk), app_nil_r by lia.
    assert (Ew : rest ++ l = (rest ++ take need l) ++ drop need l) by (by rewrite <- (assoc_L (++)), take_drop). rewrite Ew.
    assert (Hw : Forall byte (rest ++ take need l)) by (apply Forall_app; split; [done|by apply Forall_take]).
    assert (Hlw : length (rest ++ take need l) = 4%nat) by (rewrite length_app; lia). clear Ew.
    destruct (rest ++ take need l) as [|c0 [|c1 [|c2 [|c3 [|? ?]]]]]; try done. clear Hlw. cbn [map].
    rewrite (lift_bind _ _ _ c0) by done. rewrite (lift_bind _ _ _ c1) by done. rewrite (lift_bind _ _ _ c2) by done.
    rewrite (lift_bind _ _ _ c3) by done. cbn [app]. destruct (Z.eqb_spec c0 0) as [->|Hc0]; cbn [negb].
    + eapply round_ok_mono; [apply (begin_lemma id _ c1 c2 c3 _ s A rest sl Hr Hid Hsl Hph); [|done]|rewrite length_drop; lia].
      apply Forall_cons in Hw as [_ Hw]. apply (Forall_app_2 byte [c1; c2; c3]); [done|by apply Forall_drop].
    + rewrite (sbind_ok _ _ _ _ _ (put_s_step s A id _ Hr Hid)). rewrite hact_bind.
      set (e := HError _). change (HState _ _) with (acted [e] (with_slot id (Slave (sl_fd sl) (sl_queue sl) (sl_status sl) (sl_length sl)
        (Z.of_nat (length rest)) [Some c0; Some c1; Some c2; Some c3] (sl_recv_buffer sl)) s)). rewrite with_slot_acted.
      destruct (harbor_close_lemma id (Slave (sl_fd sl) (sl_queue sl) (sl_status sl) (sl_length sl) (Z.of_nat (length rest))
        [Some c0; Some c1; Some c2; Some c3] (sl_recv_buffer sl)) (acted [e] s) (act [e] A)) as (s' & E2 & Hr');
        [by apply hact_repr|done|done|exact (cr_fd _ _ Hc)|exact (cr_queue _ _ Hc)|].
      rewrite (sbind_ok _ _ _ _ _ E2). exists (a_close id (act [e] A)). split; [|exact Hr']. unfold a_bytes. rewrite hcut_cons.
      destruct (Z.eqb_spec c0 0); [done|]. done.
Qed.

(** *** All of the bytes *)

Definition res_repr (x : res (unit * hstate)) (y : res aharbor) : Prop :=
  match y with
  | Ok A => ∃ s', x = Ok ((), s') ∧ hrepr s' A
  | Fault e => x = Fault e
  end.

(** One round from a message on, and the rest by [Hloop]. *)
Lemma after_round id fuel n l s y :
  (∀ l s A rest, hrepr s A → ac_phase (conn_of A id) = PUp rest → Forall byte l → l ≠ [] → (length l < fuel)%nat →
     res_repr (iterateM fuel (data_round id) l s) (a_bytes id (rest ++ l) A)) →
  round_ok id n (data_round id l s) y → (n ≤ fuel)%nat → res_repr (iterateM (S fuel) (data_round id) l s) y.
Proof.
  intros Hloop Hround Hn. cbn [iterateM]. unfold mbind, SM_bind. destruct (data_round id l s) as [[[l' |[]] s']|e]; cbn [round_ok] in Hround.
  - destruct Hround as (Hne & Hlt & Hb & A' & rest & Hr & Hph & ->). apply Hloop; try done. lia.
  - destruct Hround as (A' & -> & Hr). by exists s'.
  - by subst y.
Qed.

Lemma reading_round id l s A rest : hrepr s A → slot_ok id → ac_phase (conn_of A id) = PUp rest → Forall byte l →
  (l ≠ [] ∨ rest = []) → round_ok id (length l) (data_round id l s) (a_bytes id (rest ++ l) A).
Proof.
  intros Hr Hid Hph Hl Hne. destruct (get_s_lemma _ _ id Hr Hid) as (sl & E1 & Hc & Hsl).
  pose proof (cr_phase _ _ Hc) as Hp. rewrite Hph in Hp. destruct Hp as (_ & Hread & _).
  unfold data_round. rewrite (sbind_ok _ _ _ _ _ E1). destruct Hread as [(-> & Hlen & _)|(-> & b1 & b2 & b3 & got & -> & _)].
  - change (STATUS_HEADER =? STATUS_HANDSHAKE) with false. rewrite Z.eqb_refl. by apply header_lemma.
  - change (STATUS_CONTENT =? STATUS_HANDSHAKE) with false. change (STATUS_CONTENT =? STATUS_HEADER) with false. rewrite Z.eqb_refl.
    apply content_lemma; [done|done|done|cbn; lia| |done]. by destruct Hne.
Qed.

Lemma loop_lemma id fuel : slot_ok id → ∀ l s A rest, hrepr s A → ac_phase (conn_of A id) = PUp rest → Forall byte l →
  l ≠ [] ∨ rest = [] → (length l < fuel)%nat → res_repr (iterateM fuel (data_round id) l s) (a_bytes id (rest ++ l) A).
Proof.
  intros Hid. induction fuel as [|fuel IH]; intros l s A rest Hr Hph Hl Hne Hf; [lia|].
  eapply after_round; [|by apply reading_round|lia]. intros l' s' A' rest' Hr' Hph' Hl' Hne' Hf'. apply IH; try done. by left.
Qed.

Lemma handshake_round id l s A r : hrepr s A → all_fit A → slot_ok id → ac_phase (conn_of A id) = PHandshake → Forall byte l →
  r = id → ∃ s', hrepr s' (a_flush id (with_phase id (PUp []) A)) ∧
    data_round id (r :: l) s = (if (length l =? 0)%nat then mret (Continue l) else header_case id l) s'.
Proof.
  intros Hr Hfit Hid Hph Hl ->. destruct (get_s_lemma _ _ id Hr Hid) as (sl & E1 & Hc & Hsl).
  pose proof (cr_phase _ _ Hc) as Hp. rewrite Hph in Hp. destruct Hp as (Hne & Hst & Hread & Hsize).
  destruct (put_s_lemma s A id (with_status STATUS_HEADER sl) (AConn (ac_fd (conn_of A id)) (PUp []) (ac_queue (conn_of A id))) Hr Hid) as [E2 Hr2].
  { apply (conn_phase id sl (PUp []) A Hc); [done|done|]. split; [done|]. split; [|constructor]. left. cbn. split; [done|]. split; [lia|].
    split; [done|]. by exists (sl_size sl). }
  assert (Hfit2 : all_fit (with_phase id (PUp []) A)).
  { split; [|by apply Hfit]. cbn. apply Forall_insert; [apply Hfit|]. cbn. by eapply conn_fit. }
  destruct (dispatch_queue_lemma id _ _ Hr2 Hfit2 Hid) as (s3 & E3 & Hr3).
  { unfold with_phase. rewrite set_conn_of by (done || exact (hr_length _ _ Hr)). cbn. by rewrite <- (cr_fd _ _ Hc). }
  exists s3. split; [exact Hr3|]. unfold data_round. rewrite (sbind_ok _ _ _ _ _ E1), Hst, Z.eqb_refl. unfold handshake_case.
  rewrite (lift_bind _ _ _ id) by done. rewrite (sbind_ok _ _ _ _ _ E1), Z.eqb_refl. cbn [negb].
  by rewrite (sbind_ok _ _ _ _ _ E2), (sbind_ok _ _ _ _ _ E3).
Qed.

Lemma handshake_wrong id l s A r : hrepr s A → slot_ok id → ac_phase (conn_of A id) = PHandshake → r ≠ id →
  ∃ s', data_round id (r :: l) s = Ok (Break tt, s') ∧
    hrepr s' (a_close id (act [HError (str "Invalid shakehand id (" ++ print_d id ++ str ") from fd = " ++ print_d (ac_fd (conn_of A id)) ++
                                     str " , harbor = " ++ print_d r)] A)).
Proof.
  intros Hr Hid Hph Hne. destruct (get_s_lemma _ _ id Hr Hid) as (sl & E1 & Hc & Hsl).
  pose proof (cr_phase _ _ Hc) as Hp. rewrite Hph in Hp. destruct Hp as (Hfd & Hst & _).
  unfold data_round. rewrite (sbind_ok _ _ _ _ _ E1), Hst, Z.eqb_refl. unfold handshake_case. rewrite (lift_bind _ _ _ r) by done.
  rewrite (sbind_ok _ _ _ _ _ E1). destruct (Z.eqb_spec r id) as [|_]; [done|]. cbn [negb]. rewrite hact_bind, (cr_fd _ _ Hc).
  set (e := HError _). destruct (harbor_close_lemma id sl (acted [e] s) (act [e] A)) as (s' & E2 & Hr');
    [by apply hact_repr|done|done|exact (cr_fd _ _ Hc)|exact (cr_queue _ _ Hc)|].
  rewrite with_slot_same in E2 by exact Hsl. exists s'. split; [by rewrite (sbind_ok _ _ _ _ _ E2)|exact Hr'].
Qed.

Lemma flush_up id A : length (ah_conns A) = Z.to_nat REMOTE_MAX → slot_ok id →
  ac_phase (conn_of (a_flush id (with_phase id (PUp []) A)) id) = PUp [].
Proof.
  intros Hlen Hid. unfold a_flush, with_phase. set (A1 := set_conn id _ A).
  assert (E1 : conn_of A1 id = AConn (ac_fd (conn_of A id)) (PUp []) (ac_queue (conn_of A id))) by (by apply set_conn_of).
  cbv zeta. rewrite act_set_conn, set_conn_of; [by rewrite E1|by cbn; rewrite length_insert|done].
Qed.

Lemma harbor_data_lemma id l s A : hrepr s A → all_fit A → slot_ok id → Forall byte l → l ≠ [] →
  res_repr (iterateM (2 + length l) (data_round id) l s) (a_data id l A).
Proof.
  intros Hr Hfit Hid Hl Hne. unfold a_data. destruct (ac_phase (conn_of A id)) as [| |rest|] eqn:Hph.
  - destruct (get_s_lemma _ _ id Hr Hid) as (sl & E1 & Hc & _). pose proof (cr_phase _ _ Hc) as Hp. rewrite Hph in Hp. destruct Hp as (_ & Hst & _).
    assert (Eround : data_round id l s = Ok (Break tt, s)) by (unfold data_round; by rewrite (sbind_ok _ _ _ _ _ E1), Hst).
    exists s. split; [|done]. cbn [iterateM Nat.add]. by rewrite (sbind_ok _ _ _ _ _ Eround).
  - destruct l as [|r l]; [done|]. apply Forall_cons in Hl as [_ Hl]. destruct (Z.eqb_spec r id) as [E|Hid'].
    + destruct (handshake_round id l s A r Hr Hfit Hid Hph Hl E) as (s1 & Hr1 & Eround).
      pose proof (flush_up id A (hr_length _ _ Hr) Hid) as Hup. destruct l as [|x l]; cbn [length Nat.eqb] in Eround.
      * change (data_round id [r] s = Ok (Continue [], s1)) in Eround.
        assert (Estep : ∀ fuel, iterateM (S fuel) (data_round id) [r] s = iterateM fuel (data_round id) [] s1)
          by (intros fuel; cbn [iterateM]; by rewrite (sbind_ok _ _ _ _ _ Eround)).
        change (2 + length [r])%nat with (S (S (length [r]))). rewrite Estep.
        apply (loop_lemma id _ Hid [] s1 _ [] Hr1 Hup); [constructor|by right|cbn; lia].
      * apply (after_round id _ (length (x :: l))); [|rewrite Eround; exact (header_lemma id (x :: l) _ _ [] Hr1 Hid Hup ltac:(cbn; lia) Hl)|cbn; lia].
        intros. apply loop_lemma; try done. by left.
    + destruct (handshake_wrong id l s A r Hr Hid Hph Hid') as (s' & Eround & Hr'). exists s'. split; [|exact Hr'].
      cbn [iterateM Nat.add]. by rewrite (sbind_ok _ _ _ _ _ Eround).
  - apply loop_lemma; try done; [by left|lia].
  - destruct (get_s_lemma _ _ id Hr Hid) as (sl & E1 & Hc & _). pose proof (cr_phase _ _ Hc) as Hp. rewrite Hph in Hp. destruct Hp as (_ & Hst).
    assert (Eround : data_round id l s = Ok (Break tt, s)) by (unfold data_round; by rewrite (sbind_ok _ _ _ _ _ E1), Hst).
    exists s. split; [|done]. cbn [iterateM Nat.add]. by rewrite (sbind_ok _ _ _ _ _ Eround).
Qed.
End bytes.
