(* ===== verification/HarborDelivers.v ===== *)
(** The harbor service does what its specification says, operation by operation and over every
    history. *)

From S2P Require Import Prelude CString Handle MessageQueue Node Server.
From S2P Require Import Ring Chain Frames Gate GateText GateProps Harbor HarborProps HarborTable HarborRefines HarborLinks.
Open Scope Z_scope.

(** ** The text of a command *)

Lemma drop_print_digits fuel : ∀ n acc, drop_digits (print_digits fuel 10 n acc) = drop_digits acc.
Proof.
  induction fuel as [|fuel IH]; intros n acc; [done|]. cbn [print_digits].
  assert (E : drop_digits (digit_char (n mod 10) :: acc) = drop_digits acc).
  { pose proof (Z.mod_pos_bound n 10 ltac:(lia)). cbn [drop_digits]. rewrite digit_value_char by lia. by destruct (Z.ltb_spec (n mod 10) 10); [|lia]. }
  destruct (n / 10 =? 0); [done|]. by rewrite IH.
Qed.

Lemma print_digits_acc fuel : ∀ base n acc, print_digits fuel base n acc = print_digits fuel base n [] ++ acc.
Proof.
  induction fuel as [|fuel IH]; intros base n acc; [done|]. cbn [print_digits]. destruct (n / base =? 0); [done|].
  rewrite (IH _ _ (_ :: acc)), (IH _ _ [_]). by rewrite <- (assoc_L (++)).
Qed.

Definition ends_number (rest : cstring) : Prop := digit_value (char0 rest) <? 10 = false.

Lemma scan_number_print n rest : 0 ≤ n < 10 ^ 64 → ends_number rest →
  scan_number (print_digits 64 10 n [] ++ rest) = Some (n, rest).
Proof.
  intros Hn Hrest. rewrite <- print_digits_acc. unfold scan_number.
  destruct (print_digits_head 10 64 n rest ltac:(lia) ltac:(lia) ltac:(lia)) as (d & l & E & Hd).
  rewrite E, parse_sign_digit by lia. cbn [char0 hd]. rewrite digit_value_char by lia. destruct (Z.ltb_spec d 10); [|lia].
  rewrite <- E, drop_print_digits, parse_print_digits by (cbn; lia).
  assert (Ed : drop_digits rest = rest) by (destruct rest as [|c r]; [done|]; cbn [drop_digits]; unfold ends_number in Hrest; cbn in Hrest; by rewrite Hrest).
  assert (Ep : parse_digits 10 n rest = n) by (destruct rest as [|c r]; [done|]; cbn [parse_digits]; unfold ends_number in Hrest; cbn in Hrest; by rewrite Hrest).
  by rewrite Ed, Ep.
Qed.

Lemma scan_d_print n rest : 0 ≤ n < 2 ^ 31 → ends_number rest → scan_d (print_d n ++ rest) = Some (n, rest).
Proof.
  intros Hn Hrest. unfold print_d, print_u. destruct (Z.ltb_spec n 0); [lia|]. unfold scan_d.
  rewrite scan_number_print by (done || lia). cbn [mbind option_bind]. f_equal. f_equal. rewrite Z.min_r, Z.max_r by lia. apply i32_small. lia.
Qed.

Lemma scan_u_print n rest : 0 ≤ n < 2 ^ 32 → ends_number rest → scan_u (print_u n ++ rest) = Some (n, rest).
Proof.
  intros Hn Hrest. unfold scan_u, print_u. rewrite scan_number_print by (done || lia). cbn [mbind option_bind]. f_equal. f_equal.
  rewrite Z.abs_eq by lia. rewrite Z.gtb_ltb. unfold ULONG_MAX. destruct (Z.ltb_spec (2 ^ 64 - 1) n); [lia|]. unfold u32. rewrite Z.mod_small by lia. done.
Qed.

(** ** The invariant *)

Record ainv (n : nat) (A : aharbor) : Prop := {
  ai_id : ah_id A = Z.shiftr (ah_slave A) HANDLE_REMOTE_SHIFT;
  ai_slot : slot_ok (ah_id A);
  ai_local : local_ok A;
  ai_length : length (ah_conns A) = Z.to_nat REMOTE_MAX;
  ai_fit : all_fit A;
  ai_values : Forall (λ n, u32_ok (an_value n)) (ah_names A);
  ai_total : (total A ≤ n)%nat
}.

Lemma inv_act n l A : ainv n A → ainv n (act l A).
Proof. by intros []. Qed.

Lemma inv_more n m A : ainv n A → (n ≤ m)%nat → ainv m A.
Proof. intros [] Hn. split; try done. lia. Qed.

Lemma conn_of_other A id id' c : slot_ok id → slot_ok id' → id ≠ id' → conn_of (set_conn id c A) id' = conn_of A id'.
Proof. intros H1 H2 Hne. unfold slot_ok in *. unfold conn_of. cbn [ah_conns set_conn]. rewrite !nth_lookup, list_lookup_insert_ne; [done|lia]. Qed.

Lemma conn_self A id : slot_ok id → length (ah_conns A) = Z.to_nat REMOTE_MAX → ah_id A = Z.shiftr (ah_slave A) HANDLE_REMOTE_SHIFT →
  local_ok A → id = ah_id A → ac_queue (conn_of A id) = [].
Proof. intros _ _ Hid Hloc ->. by rewrite Hid. Qed.

(** A connection gets [k] messages more, and none when it is the node itself. *)
Lemma inv_conn n A id c k : ainv n A → slot_ok id → Forall fits (ac_queue c) →
  (length (ac_queue c) ≤ length (ac_queue (conn_of A id)) + k)%nat → (id = ah_id A → ac_queue c = []) → ainv (n + k) (set_conn id c A).
Proof.
  intros [Hid Hslot Hloc Hlen [Hf1 Hf2] Hv Ht] Hs Hf Hl Hself. split; [done|done| |by cbn; rewrite length_insert| |done|].
  - unfold local_ok in *. cbn [ah_slave set_conn]. rewrite <- Hid in *. destruct (decide (id = ah_id A)) as [->|Hne].
    + rewrite set_conn_of by done. by apply Hself.
    + by rewrite conn_of_other.
  - split; [by apply Forall_insert|done].
  - unfold total in *. cbn. pose proof (sum_insert (λ c, length (ac_queue c)) _ _ _ c (conn_lookup A id Hlen Hs)). cbn in *. lia.
Qed.

Lemma inv_names n m l A : ainv n A → Forall (λ x, Forall fits (an_queue x) ∧ u32_ok (an_value x)) l →
  (total (set_names l A) ≤ m)%nat → ainv m (set_names l A).
Proof.
  intros [Hid Hslot Hloc Hlen [Hf1 _] _ _] Hl Ht. split; try done; [split; [done|]|]; (eapply Forall_impl; [exact Hl|]); by intros x [].
Qed.

(** The connection keeps its messages. *)
Lemma inv_phase n A id fd p : ainv n A → slot_ok id → ainv n (set_conn id (AConn fd p (ac_queue (conn_of A id))) A).
Proof.
  intros H Hs. rewrite <- (Nat.add_0_r n). apply inv_conn; [done|done| |cbn; lia|].
  - destruct H as [_ _ _ Hlen [Hf _] _ _]. cbn. exact (Forall_lookup_1 _ _ _ _ Hf (conn_lookup A id Hlen Hs)).
  - destruct H. cbn. by apply conn_self.
Qed.

(** The connection loses its messages. *)
Lemma inv_empty n A id fd p : ainv n A → slot_ok id → ainv n (set_conn id (AConn fd p []) A).
Proof. intros H Hs. rewrite <- (Nat.add_0_r n). apply inv_conn; (done || constructor || (cbn; lia)). Qed.

Lemma inv_conn_fit n A id : ainv n A → slot_ok id → Forall fits (ac_queue (conn_of A id)).
Proof. intros [_ _ _ Hlen [Hf _] _ _] Hs. exact (Forall_lookup_1 _ _ _ _ Hf (conn_lookup A id Hlen Hs)). Qed.

(** ** Every operation keeps it *)

Lemma inv_send n source dest type session p A : ainv n A → u32_ok dest → Z.of_nat (length p) + HEADER_COOKIE_LENGTH ≤ UINT32_MAX →
  ainv (S n) (a_send source dest type session p A).
Proof.
  intros H Hd Hp. unfold a_send. pose proof (handle_slot _ Hd) as Hs. set (id := Z.shiftr dest HANDLE_REMOTE_SHIFT) in *.
  assert (Hup : ∀ l, ainv (S n) (act l A)) by (intros l; eapply inv_act, inv_more; [exact H|lia]).
  destruct (Z.eqb_spec id (ah_id A)) as [_|Hne]; [apply Hup|].
  assert (Hpush : ∀ ph, ainv (S n) (set_conn id (AConn (ac_fd (conn_of A id)) ph (ac_queue (conn_of A id) ++ [out_msg source type session dest p])) A)).
  { intros ph. replace (S n) with (n + 1)%nat by lia. apply inv_conn; [done|done| |cbn; rewrite length_app; cbn; lia|done].
    cbn. apply Forall_app. split; [by eapply inv_conn_fit|by repeat constructor]. }
  destruct (ac_phase (conn_of A id)); [apply Hpush|apply Hpush|apply Hup|apply Hup].
Qed.

Lemma with_name_forall (P : aname → Prop) l name l' k : with_name l name = (l', k) → Forall P l → P (AName name 0 []) →
  Forall P l' ∧ ∃ n, l' !! k = Some n ∧ an_key n = name ∧ P n.
Proof.
  unfold with_name. intros E Hl Hnew. pose proof (name_index_spec l name) as Hi. destruct (name_index l name) as [i|]; injection E as <- <-.
  - split; [done|]. destruct Hi as (n & Hn & Hk). exists n. split; [done|]. split; [done|]. exact (Forall_lookup_1 _ _ _ _ Hl Hn).
  - split; [apply Forall_app; by split; [|apply Forall_singleton]|]. exists (AName name 0 []). split; [by apply list_lookup_middle|done].
Qed.

Definition name_inv (x : aname) : Prop := Forall fits (an_queue x) ∧ u32_ok (an_value x).

Lemma inv_name_inv n A : ainv n A → Forall name_inv (ah_names A).
Proof. intros [_ _ _ _ [_ Hf] Hv _]. apply Forall_and. by split. Qed.

Lemma new_name_inv name : name_inv (AName name 0 []).
Proof. split; [constructor|]. by split. Qed.

Lemma inv_send_name n source name type session p A : ainv n A → Z.of_nat (length p) + HEADER_COOKIE_LENGTH ≤ UINT32_MAX →
  ainv (S n) (a_send_name source name type session p A).
Proof.
  intros H Hp. unfold a_send_name. destruct (with_name (ah_names A) name) as [l k] eqn:El.
  destruct (with_name_forall name_inv _ _ _ _ El (inv_name_inv _ _ H) (new_name_inv name)) as (Hl & x & Hk & _ & Hx).
  pose proof (with_name_total _ _ _ _ El) as Ht. pose proof (ai_total _ _ H) as Hn. unfold total in Hn. rewrite nth_lookup, Hk. cbn [default from_option id].
  destruct (an_value x =? 0).
  - apply inv_act, (inv_names n); [done| |].
    + apply Forall_insert; [exact Hl|]. destruct Hx. split; [|by split]. cbn. apply Forall_app. split; [done|]. by repeat constructor.
    + unfold total. cbn [ah_conns ah_names set_names]. set (y := AName _ 0 _). pose proof (sum_insert (λ n, length (an_queue n)) l k x y Hk) as Hs.
      cbn in *. rewrite length_app in Hs. cbn in *. lia.
  - apply inv_send; [|apply Hx|done]. apply (inv_names n); [done|exact Hl|]. unfold total. cbn [ah_conns ah_names set_names]. cbn in *. lia.
Qed.

Lemma inv_dispatch n handle q A : ainv n A → u32_ok handle → Forall fits q → ainv (n + length q) (a_dispatch handle q A).
Proof.
  intros H Hh Hq. unfold a_dispatch. pose proof (handle_slot _ Hh) as Hs. set (id := Z.shiftr handle HANDLE_REMOTE_SHIFT) in *. cbv zeta.
  destruct (ac_fd (conn_of A id) =? 0); [|apply inv_act; eapply inv_more; [done|lia]].
  destruct (Z.eqb_spec id (Z.shiftr (ah_slave A) HANDLE_REMOTE_SHIFT)) as [_|Hne].
  - apply inv_act, inv_empty; [|done]. eapply inv_more; [done|lia].
  - apply inv_conn; [done|done| |cbn; rewrite length_app; lia|].
    + cbn. apply Forall_app. split; [by eapply inv_conn_fit|done].
    + intros E. destruct Hne. by rewrite E, (ai_id _ _ H).
Qed.

Lemma inv_name n name handle A : ainv n A → u32_ok handle → ainv n (a_name name handle A).
Proof.
  intros H Hh. unfold a_name. destruct (with_name (ah_names A) name) as [l k] eqn:El.
  destruct (with_name_forall name_inv _ _ _ _ El (inv_name_inv _ _ H) (new_name_inv name)) as (Hl & x & Hk & _ & Hx).
  pose proof (with_name_total _ _ _ _ El) as Ht. pose proof (ai_total _ _ H) as Hn. unfold total in Hn. rewrite nth_lookup, Hk. cbn [default from_option id].
  pose proof (sum_insert (λ n, length (an_queue n)) l k x (AName (an_key x) handle []) Hk) as Hs. cbn in Hs, Ht, Hn.
  eapply inv_more; [apply (inv_dispatch (n - length (an_queue x))); [|done|apply Hx]|lia].
  apply (inv_names n); [done| |unfold total; cbn in *; lia]. apply Forall_insert; [exact Hl|]. by split; [constructor|].
Qed.

Section delivers.
Context {rt : HarborRuntime}.

Lemma deliver_act f A : ∃ l, a_deliver f A = act l A.
Proof. unfold a_deliver. cbv zeta. destruct (rt_send _ <? 0); eexists; [by rewrite act_act|done]. Qed.

Lemma delivers_act fs : ∀ A, ∃ l, foldl (λ A f, a_deliver f A) A fs = act l A.
Proof.
  induction fs as [|f fs IH]; intros A; [exists []; by rewrite act_nil|]. cbn [foldl]. destruct (deliver_act f A) as [l ->].
  destruct (IH (act l A)) as [l' ->]. eexists. by rewrite act_act.
Qed.

Lemma inv_close n id A : ainv n A → slot_ok id → ainv n (a_close id A).
Proof. intros H Hs. by apply inv_act, inv_empty. Qed.

Lemma inv_flush n id A : ainv n A → slot_ok id → ainv n (a_flush id A).
Proof. intros H Hs. by apply inv_act, inv_empty. Qed.

Lemma inv_bytes n id s A A' : ainv n A → slot_ok id → a_bytes id s A = Ok A' → ainv n A'.
Proof.
  intros H Hs. unfold a_bytes. destruct (hcut s) as [fs e]. destruct (delivers_act fs A) as [l ->].
  destruct e as [rest| |]; intros [= <-]; [apply inv_phase; [by apply inv_act|done]|apply inv_close; [by do 2 apply inv_act|done]].
Qed.

Lemma inv_data n id l A A' : ainv n A → slot_ok id → a_data id l A = Ok A' → ainv n A'.
Proof.
  intros H Hs. unfold a_data. destruct (ac_phase (conn_of A id)) as [| |rest|].
  - by intros [= <-].
  - destruct l as [|r l]; [by intros [= <-]|]. destruct (r =? id).
    + apply inv_bytes; [|done]. apply inv_flush; [by apply inv_phase|done].
    + intros [= <-]. apply inv_close; [by apply inv_act|done].
  - by apply inv_bytes.
  - by intros [= <-].
Qed.

Lemma inv_connect n accept fd id A : ainv n A → slot_ok id → ainv n (a_connect accept fd id A).
Proof.
  intros H Hs. unfold a_connect. destruct (negb (ac_fd (conn_of A id) =? 0)); [by apply inv_act|]. cbv zeta.
  assert (H1 : ∀ p l, ainv n (act l (set_conn id (AConn fd p (ac_queue (conn_of A id))) A))) by (intros; by apply inv_act, inv_phase).
  destruct accept; [by apply inv_flush|done].
Qed.

(** Sockets are found in the slots from 1 on. *)
Lemma find_conn_range l fd : ∀ i, find_conn l fd i = 0 ∨ i ≤ find_conn l fd i < i + Z.of_nat (length l).
Proof.
  induction l as [|c l IH]; intros i; [by left|]. cbn [find_conn length]. destruct (ac_fd c =? fd); [right; lia|].
  destruct (IH (i + 1)); [by left|right; lia].
Qed.

Lemma find_slot n A fd id : ainv n A → id = find_conn (drop 1 (ah_conns A)) fd 1 → id = 0 ∨ 0 < id ∧ slot_ok id.
Proof.
  intros H ->. pose proof (find_conn_range (drop 1 (ah_conns A)) fd 1) as Hr. rewrite length_drop, (ai_length _ _ H) in Hr.
  destruct Hr as [->|Hr]; [by left|right]. unfold slot_ok, REMOTE_MAX in *. lia.
Qed.

Lemma inv_op n o A A' : ainv n A → hop_ok o → spec_op o A = Ok A' → ainv (S n) A'.
Proof.
  intros H Ho. assert (Hmore : ∀ B, ainv n B → ainv (S n) B) by (intros B HB; eapply inv_more; [done|lia]). destruct o; cbn [spec_op hop_ok] in *.
  - destruct Ho as (_ & _ & Hh). intros [= <-]. by apply Hmore, inv_name.
  - destruct Ho as (_ & Hid). intros [= <-]. apply Hmore, inv_connect; [done|unfold slot_ok; lia].
  - destruct Ho as (_ & Hh & _ & _ & _ & _ & _ & Hp). intros [= <-]. by apply inv_send.
  - destruct Ho as (_ & _ & _ & _ & _ & _ & _ & Hp). intros [= <-]. by apply inv_send_name.
  - set (id := find_conn _ _ _). destruct (find_slot n A fd id H eq_refl) as [->|[Hpos Hs]].
    + intros [= <-]. by apply Hmore, inv_act, inv_act.
    + destruct (Z.eqb_spec id 0); [lia|]. destruct (a_data id bytes A) as [A1|] eqn:E; [|done]. intros [= <-].
      apply Hmore, inv_act. by eapply inv_data.
  - intros [= <-]. by apply Hmore, inv_act.
Qed.

(** ** Every operation is done *)

(** What a message to the service leaves: the specification's state, or its fault. *)
Definition op_repr (x : res (Z * hstate)) (y : res aharbor) : Prop :=
  match y with
  | Ok A => ∃ r s', x = Ok (r, s') ∧ hrepr s' A
  | Fault e => x = Fault e
  end.

Lemma find_fd_repr l l' fd : Forall2 conn_repr l l' → ∀ i, find_fd l fd i = find_conn l' fd i.
Proof.
  induction 1 as [|sl c l l' Hc _ IH]; intros i; [done|]. cbn [find_fd find_conn]. rewrite (cr_fd _ _ Hc). by rewrite IH.
Qed.

Lemma harbor_id_lemma fd s A : hrepr s A → harbor_id fd s = Ok (find_conn (drop 1 (ah_conns A)) fd 1, s).
Proof.
  intros Hr. unfold harbor_id. rewrite getH_bind. rewrite (find_fd_repr _ (drop 1 (ah_conns A))); [done|]. apply Forall2_drop, (hr_conns _ _ Hr).
Qed.

Lemma sent_step p (m : SM hstate Z) s A : sent_ok p (m s) A →
  ∃ r s', (r ← m; if negb (r =? 0) then mret 0 else _ ← hact (HFree p); mret 0) s = Ok (r, s') ∧ hrepr s' A.
Proof.
  intros (r & s' & E & [[-> Hr]|[-> Hr]]); rewrite (sbind_ok _ _ _ _ _ E); eexists _, _; (split; [reflexivity|done]).
Qed.

Lemma mainloop_out type session source handle name p s : type ≠ PTYPE_SOCKET → type ≠ PTYPE_HARBOR →
  mainloop type session source (HRemote handle name p) s =
    (r ← (if handle =? 0 then remote_send_name source name type session p (Z.of_nat (length p))
          else remote_send_handle source handle type session p (Z.of_nat (length p)));
     if negb (r =? 0) then mret 0 else _ ← hact (HFree p); mret 0) s.
Proof. intros H1 H2. unfold mainloop. rewrite (proj2 (Z.eqb_neq type PTYPE_SOCKET) H1), (proj2 (Z.eqb_neq type PTYPE_HARBOR) H2). done. Qed.

Lemma step_send n source handle type session p s A : hrepr s A → ainv n A → Z.of_nat n < QUEUE_MAX →
  hop_ok (OpSend source handle type session p) →
  op_repr (run_hop (OpSend source handle type session p) s) (spec_op (OpSend source handle type session p) A).
Proof.
  intros Hr H Hn (_ & Hh & Hne & _ & H1 & H2 & _ & Hp). cbn [run_hop]. rewrite mainloop_out by done.
  destruct (Z.eqb_spec handle 0) as [|_]; [done|]. apply sent_step. apply send_handle_lemma; try done. pose proof (ai_total _ _ H). lia.
Qed.

Lemma pad_name16 w : cstr_ok w → (length w ≤ GLOBALNAME_LENGTH)%nat → name16 (pad_name w).
Proof. intros Hw Hl. by exists w. Qed.

Lemma step_send_name n source name type session p s A : hrepr s A → ainv n A → Z.of_nat n < QUEUE_MAX →
  hop_ok (OpSendName source name type session p) →
  op_repr (run_hop (OpSendName source name type session p) s) (spec_op (OpSendName source name type session p) A).
Proof.
  intros Hr H Hn (_ & Hname & Hl & _ & H1 & H2 & _ & Hp). cbn [run_hop]. rewrite mainloop_out by done. rewrite Z.eqb_refl.
  apply sent_step. apply send_name_lemma; [done|pose proof (ai_total _ _ H); lia|by apply pad_name16| |done].
  intros x Hx. eapply Forall_elem in Hx; [|apply (ai_values _ _ H)]. exact Hx.
Qed.

Lemma command_step source l s A : (∃ s', harbor_command l source s = Ok ((), s') ∧ hrepr s' A) →
  op_repr (mainloop PTYPE_HARBOR 0 source (HBytes l) s) (Ok A).
Proof.
  intros (s' & E & Hr). unfold mainloop. change (PTYPE_HARBOR =? PTYPE_SOCKET) with false. rewrite Z.eqb_refl.
  rewrite (sbind_ok _ _ _ _ _ E). by exists 0, s'.
Qed.

Lemma step_name n name handle s A : hrepr s A → ainv n A → Z.of_nat n < QUEUE_MAX → hop_ok (OpName name handle) →
  op_repr (run_hop (OpName name handle) s) (spec_op (OpName name handle) A).
Proof.
  intros Hr H Hn (Hname & [Hl0 Hl] & Hh). apply command_step. unfold harbor_command.
  change (str "N " ++ name) with (78 :: 32 :: name). cbn [app]. rewrite (lift_bind _ _ _ 78) by done. rewrite Z.eqb_refl. cbv zeta.
  assert (Es : Z.of_nat (length (78 :: 32 :: name)) - 2 = Z.of_nat (length name)) by (cbn [length]; lia). rewrite Es.
  destruct (Z.leb_spec (Z.of_nat (length name)) 0); [lia|]. rewrite Z.geb_leb.
  destruct (Z.leb_spec (Z.of_nat GLOBALNAME_LENGTH) (Z.of_nat (length name))); [lia|]. cbn [orb].
  rewrite (lift_bind _ _ _ name).
  2:{ rewrite rd_at_ok by (cbn [length]; rewrite ?length_app; lia). rewrite Nat2Z.id. change (drop (Z.to_nat 2) (78 :: 32 :: name ++ [0])) with (name ++ [0]).
      by rewrite take_app_length. }
  rewrite Nat2Z.id. apply update_name_lemma; [done|apply pad_name16; [done|lia]|done|pose proof (ai_total _ _ H); lia|apply (ai_fit _ _ H)|apply (ai_local _ _ H)].
Qed.

(** The text of [S fd id] and of [A fd id]. *)
Lemma connect_text c fd id s : c = 83 ∨ c = 65 → 0 < fd < 2 ^ 31 → 0 < id < REMOTE_MAX →
  harbor_command (c :: 32 :: print_d fd ++ str " " ++ print_d id) 0 s = connect_command c (print_d fd ++ 32 :: print_d id) s.
Proof.
  intros Hc Hfd Hid. unfold REMOTE_MAX in Hid. change (str " " ++ print_d id) with (32 :: print_d id). set (text := print_d fd ++ 32 :: print_d id).
  assert (Htext : Forall (λ c, c ≠ 0) text).
  { apply Forall_app. split; [apply word_nonzero, print_d_word; lia|]. constructor; [done|]. apply word_nonzero, print_d_word; lia. }
  unfold harbor_command. cbn [app]. rewrite (lift_bind _ _ _ c) by done.
  assert (Hn : c =? 78 = false) by (by destruct Hc as [-> | ->]). assert (Hsa : (c =? 83) || (c =? 65) = true) by (by destruct Hc as [-> | ->]).
  rewrite Hn, Hsa. cbv zeta. assert (Es : Z.of_nat (length (c :: 32 :: text)) - 2 = Z.of_nat (length text)) by (cbn [length]; lia). rewrite Es.
  rewrite (lift_bind _ _ _ text).
  2:{ rewrite rd_at_ok by (cbn [length]; rewrite ?length_app; lia). rewrite Nat2Z.id. change (drop (Z.to_nat 2) (c :: 32 :: text ++ [0])) with (text ++ [0]).
      by rewrite take_app_length. }
  by rewrite (lift_bind _ _ _ _ (c_str_at_app [] text [] 0 Htext eq_refl)).
Qed.

Lemma scan_ids fd id : 0 < fd < 2 ^ 31 → 0 < id < REMOTE_MAX →
  scan_d (print_d fd ++ 32 :: print_d id) = Some (fd, 32 :: print_d id) ∧ scan_d (32 :: print_d id) = Some (id, []).
Proof.
  intros Hfd Hid. unfold REMOTE_MAX in Hid. split; [apply scan_d_print; [lia|done]|].
  change (scan_d (32 :: print_d id)) with (scan_d (print_d id)). rewrite <- (app_nil_r (print_d id)). apply scan_d_print; [lia|done].
Qed.

Lemma harbor_connect_lemma n c accept fd id s A : hrepr s A → ainv n A → (c = 83 ∧ accept = false ∨ c = 65 ∧ accept = true) →
  0 < fd < 2 ^ 31 → 0 < id < REMOTE_MAX →
  ∃ s', connect_command c (print_d fd ++ 32 :: print_d id) s = Ok ((), s') ∧ hrepr s' (a_connect accept fd id A).
Proof.
  intros Hr H Hc Hfd Hid. assert (Hs : slot_ok id) by (unfold slot_ok; lia). destruct (scan_ids fd id Hfd Hid) as [E1 E2].
  unfold connect_command. rewrite E1. cbn [default from_option]. change (Datatypes.id ?x) with x. cbv beta iota zeta. rewrite E2. cbn [from_option fst].
  unfold REMOTE_MAX in Hid. destruct (Z.eqb_spec fd 0); [lia|]. destruct (Z.leb_spec id 0); [lia|]. rewrite Z.geb_leb.
  destruct (Z.leb_spec REMOTE_MAX id) as [Hge|_]; [unfold REMOTE_MAX in Hge; lia|]. cbn [orb].
  destruct (get_s_lemma _ _ id Hr Hs) as (sl & E & Hcr & Hsl). rewrite (sbind_ok _ _ _ _ _ E), (cr_fd _ _ Hcr). unfold a_connect. cbv zeta.
  destruct (Z.eqb_spec (ac_fd (conn_of A id)) 0) as [E0|Hne]; cbn [negb]; [|eexists; split; [done|by apply hact_repr]].
  pose proof (cr_phase _ _ Hcr) as Hp. destruct (ac_phase (conn_of A id)); rewrite (cr_fd _ _ Hcr) in Hp; [|by destruct Hp..].
  destruct Hp as (_ & _ & Hread & Hsize). set (sl1 := Slave fd _ _ _ _ _ _).
  rewrite (sbind_ok _ _ _ _ _ (put_s_step s A id sl1 Hr Hs)), hact_bind.
  change (HState _ _) with (acted [HSocketStart fd] (with_slot id sl1 s)). rewrite with_slot_acted.
  pose proof (hact_repr _ _ [HSocketStart fd] Hr) as Hr1. fold (acted [HSocketStart fd] s) in Hr1.
  assert (Eh : handshake id (with_slot id sl1 (acted [HSocketStart fd] s)) =
    Ok ((), with_slot id sl1 (acted [HSocketStart fd; HSocketSend fd [u8 (ah_id A)]] s))).
  { unfold handshake. rewrite (sbind_ok _ _ _ _ _ (get_slot id sl1 _ _ Hr1 Hs)), getH_bind. cbn [hs with_slot hb_id set_s acted].
    rewrite (hr_id _ _ Hr). unfold hact, modify, acted, with_slot. cbn. by rewrite <- (assoc_L (++)). }
  rewrite (sbind_ok _ _ _ _ _ Eh). set (l := [_; _]). pose proof (hact_repr _ _ l Hr) as Hr2. fold (acted l s) in Hr2.
  rewrite (sbind_ok _ _ _ _ _ (get_slot id sl1 _ _ Hr2 Hs)).
  assert (Hput : ∀ st p, (p = PUp [] ∧ st = STATUS_HEADER ∨ p = PHandshake ∧ st = STATUS_HANDSHAKE) →
    hrepr (with_slot id (with_status st sl1) (acted l s)) (act l (set_conn id (AConn fd p (ac_queue (conn_of A id))) A))).
  { intros st p Hst. rewrite act_set_conn. apply slot_repr; [exact Hr2|done|]. split; [done|exact (cr_queue _ _ Hcr)|].
    destruct Hst as [[-> ->]|[-> ->]]; cbn; (split; [lia|]); [|done]. split; [|constructor]. left. cbn. split; [done|]. split; [lia|].
    split; [done|]. by exists (sl_size sl). }
  destruct Hc as [[-> ->]|[-> ->]]; cbn [Z.eqb Pos.eqb].
  - rewrite (put_slot id sl1 _ _ _ Hr2 Hs). eexists. split; [done|]. apply Hput. by right.
  - rewrite (sbind_ok _ _ _ _ _ (put_slot id sl1 _ _ _ Hr2 Hs)). apply dispatch_queue_lemma; [apply Hput; by left| |done|].
    + apply (ai_fit n). apply inv_act, inv_phase; done.
    + rewrite act_set_conn. rewrite set_conn_of; [cbn; lia|exact (hr_length _ _ Hr)|done].
Qed.

Lemma step_connect n accept fd id s A : hrepr s A → ainv n A → hop_ok (OpConnect accept fd id) →
  op_repr (run_hop (OpConnect accept fd id) s) (spec_op (OpConnect accept fd id) A).
Proof.
  intros Hr H [Hfd Hid]. apply command_step. destruct accept.
  - change (str "A " ++ ?l) with (65 :: 32 :: l). rewrite connect_text; [|by right|done|done]. apply (harbor_connect_lemma n); [done|done|by right|done|done].
  - change (str "S " ++ ?l) with (83 :: 32 :: l). rewrite connect_text; [|by left|done|done]. apply (harbor_connect_lemma n); [done|done|by left|done|done].
Qed.

Lemma socket_step e s : mainloop PTYPE_SOCKET 0 0 (HSocket e) s = (_ ← socket_event e; mret 0) s.
Proof. done. Qed.

Definition data_event (fd : Z) (bytes : list Z) : gate_event := GateEvent SKYNET_SOCKET_TYPE_DATA fd (Z.of_nat (length bytes)) bytes [].

Lemma harbor_push_data_lemma n fd bytes s A : hrepr s A → ainv n A → Forall byte bytes → bytes ≠ [] →
  res_repr (push_socket_data (data_event fd bytes) s)
    (let id := find_conn (drop 1 (ah_conns A)) fd 1 in
     if id =? 0 then Ok (act [HError (str "Invalid socket fd (" ++ print_d fd ++ str ") data")] A) else a_data id bytes A).
Proof.
  intros Hr H Hb Hne. unfold push_socket_data. rewrite (lift_bind _ _ _ ()) by done.
  rewrite (sbind_ok _ _ _ _ _ (harbor_id_lemma (ev_id (data_event fd bytes)) s A Hr)). cbn [ev_id ev_buffer ev_ud data_event].
  cbv zeta. set (id := find_conn _ _ _). destruct (Z.eqb_spec id 0) as [E|Hid].
  - eexists. split; [done|]. by apply hact_repr.
  - destruct (find_slot n A fd id H eq_refl) as [?|[_ Hs]]; [done|].
    rewrite (lift_bind _ _ _ bytes) by (rewrite rd_at_ok by lia; cbn [Z.to_nat drop]; by rewrite Nat2Z.id, firstn_all).
    apply harbor_data_lemma; try done. apply (ai_fit _ _ H).
Qed.

Lemma step_data n fd bytes s A : hrepr s A → ainv n A → hop_ok (OpData fd bytes) →
  op_repr (run_hop (OpData fd bytes) s) (spec_op (OpData fd bytes) A).
Proof.
  intros Hr H (_ & Hb & Hne). cbn [run_hop spec_op]. fold (data_event fd bytes). rewrite socket_step.
  pose proof (harbor_push_data_lemma n fd bytes s A Hr H Hb Hne) as Hp. cbv zeta in Hp |- *.
  set (y := if _ =? 0 then _ else _) in *. destruct y as [A1|e]; cbn [res_repr] in Hp.
  - destruct Hp as (s1 & E & Hr1). assert (Ev : socket_event (data_event fd bytes) s = Ok ((), acted [HFree bytes] s1)).
    { unfold socket_event. change (ev_type (data_event fd bytes) =? SKYNET_SOCKET_TYPE_DATA) with true. cbv iota. by rewrite (sbind_ok _ _ _ _ _ E). }
    rewrite (sbind_ok _ _ _ _ _ Ev). eexists _, _. split; [done|]. by apply hact_repr.
  - assert (Ev : socket_event (data_event fd bytes) s = Fault e).
    { unfold socket_event. change (ev_type (data_event fd bytes) =? SKYNET_SOCKET_TYPE_DATA) with true. cbv iota. unfold mbind, SM_bind. by rewrite Hp. }
    unfold mbind, SM_bind. by rewrite Ev.
Qed.

Lemma step_closed n error fd s A : hrepr s A → ainv n A →
  op_repr (run_hop (OpClosed error fd) s) (spec_op (OpClosed error fd) A).
Proof.
  intros Hr H. cbn [run_hop spec_op]. rewrite socket_step. set (e := GateEvent _ fd 0 [] []). set (id := find_conn _ _ _).
  assert (Ev : ∃ s', socket_event e s = Ok ((), s') ∧ hrepr s' (act [if id =? 0 then HError (str "Unkown fd (" ++ print_d fd ++ str ") closed")
               else HSend 0 (ah_slave A) PTYPE_TEXT 0 (str "D " ++ print_d id)] A)).
  { assert (E : socket_event e s = (id ← harbor_id fd; if negb (id =? 0) then report_harbor_down id
        else hact (HError (str "Unkown fd (" ++ print_d fd ++ str ") closed"))) s) by (unfold e; by destruct error).
    rewrite E, (sbind_ok _ _ _ _ _ (harbor_id_lemma fd s A Hr)). fold id. destruct (id =? 0); cbn [negb].
    - eexists. split; [done|]. by apply hact_repr.
    - unfold report_harbor_down. rewrite getH_bind, (hr_slave _ _ Hr). eexists. split; [done|]. by apply hact_repr. }
  destruct Ev as (s' & Ev & Hr'). rewrite (sbind_ok _ _ _ _ _ Ev). by exists 0, s'.
Qed.

Lemma step_op n o s A : hrepr s A → ainv n A → Z.of_nat n < QUEUE_MAX → hop_ok o → op_repr (run_hop o s) (spec_op o A).
Proof.
  intros Hr H Hn Ho. destruct o; [by apply (step_name n)|by apply (step_connect n)|by apply (step_send n)|by apply (step_send_name n)|
    by apply (step_data n)|by apply (step_closed n)].
Qed.

Lemma run_ops l : ∀ n s A, hrepr s A → ainv n A → Z.of_nat (n + length l) < QUEUE_MAX → Forall hop_ok l →
  res_repr (run_hops l s) (spec_hops l A).
Proof.
  induction l as [|o l IH]; intros n s A Hr H Hn Hl; [by exists s|]. apply Forall_cons in Hl as [Ho Hl]. cbn [length] in Hn.
  pose proof (step_op n o s A Hr H ltac:(lia) Ho) as Hstep. cbn [run_hops spec_hops].
  pose proof (inv_op n o A) as Hinv. destruct (spec_op o A) as [A1|e]; cbn [op_repr] in Hstep.
  - destruct Hstep as (r & s1 & E & Hr1). rewrite (sbind_ok _ _ _ _ _ E). apply (IH (S n)); [done|by apply Hinv|lia|done].
  - unfold mbind, SM_bind. rewrite Hstep. done.
Qed.

(** ** From the start *)

Definition harbor_zero (id slave : Z) : aharbor := AHarbor id slave (replicate (Z.to_nat REMOTE_MAX) conn_zero) [] [HCallback; HStart].

(** The service's arguments, from the program that launches it. *)
Definition harbor_args (id slave : Z) : cstring := print_d id ++ str " " ++ print_u slave.

Lemma harbor_init_lemma id slave : 0 ≤ id < 2 ^ 31 → 0 < slave < 2 ^ 32 →
  ∃ s, harbor_init (harbor_args id slave) (HState harbor_create []) = Ok (0, s) ∧ hrepr s (harbor_zero id slave).
Proof.
  intros Hid Hs. unfold harbor_init, harbor_args. change (str " " ++ print_u slave) with (32 :: print_u slave).
  rewrite scan_d_print by done. cbn [default from_option]. change (Datatypes.id ?x) with x. cbv beta iota zeta.
  change (scan_u (32 :: print_u slave)) with (scan_u (print_u slave)). rewrite <- (app_nil_r (print_u slave)), scan_u_print by (done || lia).
  cbn [from_option fst]. destruct (Z.eqb_spec slave 0); [lia|]. rewrite getH_bind. eexists. split; [reflexivity|].
  split; [done|done| |by cbn [ah_conns harbor_zero]; rewrite length_replicate| |done].
  - cbn [hs hb_s harbor_create ah_conns harbor_zero]. apply Forall2_replicate. by split.
  - cbn [hs hb_map hb_nodes harbor_create ah_names harbor_zero]. split; [by rewrite length_replicate|constructor|constructor|constructor|].
    intros b Hb. exists NULL, []. split; [apply lookup_replicate_2; unfold HASH_SIZE in *; lia|]. split; [constructor|]. split; [constructor|].
    intros i. split; [by intros ?%elem_of_nil|]. by intros (_ & x & Hx & _).
Qed.

Lemma inv_zero id slave : slot_ok id → Z.shiftr slave HANDLE_REMOTE_SHIFT = id → ainv 0 (harbor_zero id slave).
Proof.
  intros Hid E. split; [done|done| |by cbn; rewrite length_replicate| |constructor|].
  - unfold local_ok, conn_of. cbn [ah_conns harbor_zero]. rewrite nth_lookup.
    destruct (replicate _ _ !! _) as [c|] eqn:Ec; [|done]. by apply lookup_replicate in Ec as [-> _].
  - split; [|constructor]. cbn [ah_conns harbor_zero]. apply Forall_replicate. constructor.
  - unfold total. cbn [ah_conns ah_names harbor_zero]. generalize (Z.to_nat REMOTE_MAX). intros k. induction k; cbn in *; lia.
Qed.

(** From the start, a history runs as the specification says. *)
Lemma start_run id slave l : 0 < id < REMOTE_MAX → 0 < slave < 2 ^ 32 → Z.shiftr slave HANDLE_REMOTE_SHIFT = id →
  Forall hop_ok l → Z.of_nat (length l) < QUEUE_MAX →
  res_repr ((_ ← harbor_init (harbor_args id slave); run_hops l) (HState harbor_create [])) (spec_hops l (harbor_zero id slave)).
Proof.
  intros Hid Hs E Hl Hn. unfold REMOTE_MAX in Hid. assert (Hslot : slot_ok id) by (unfold slot_ok, REMOTE_MAX; lia).
  destruct (harbor_init_lemma id slave ltac:(lia) Hs) as (s & Ei & Hr). rewrite (sbind_ok _ _ _ _ _ Ei).
  exact (run_ops l 0 s _ Hr (inv_zero id slave Hslot E) Hn Hl).
Qed.

Lemma spec_hops_fault l : ∀ A e, spec_hops l A = Fault e → e = OutOfBounds.
Proof.
  assert (Hbytes : ∀ id s A e, a_bytes id s A = Fault e → e = OutOfBounds)
    by (intros id s A e; unfold a_bytes; destruct (hcut s) as [fs []]; by intros [= <-]).
  induction l as [|o l IH]; intros A e E; [done|]. cbn [spec_hops] in E. destruct (spec_op o A) as [A1|e1] eqn:Eo; [by eapply IH|].
  injection E as <-. destruct o; try done. cbn [spec_op] in Eo. destruct (_ =? 0); [done|].
  destruct (a_data _ _ _) as [A1|e2] eqn:Ed; [done|]. injection Eo as ->. unfold a_data in Ed.
  destruct (ac_phase _), bytes as [|r bytes]; try done; [|by eapply Hbytes..]. destruct (r =? _); [by eapply Hbytes|done].
Qed.

(** C13.  The harbor service does what its specification says.  From its start, for every
    history of fewer than 2^29 messages - a global name told, another node connected, a message
    of a local service to a remote handle or to a global name, bytes from a socket in any
    pieces, a socket closed - the service does exactly the specification's actions in its
    order, and its connections, hash table and queues represent the specification's lists; it
    faults exactly when the bytes of an open connection have a message that is shorter than its
    header of twelve bytes. *)
Theorem harbor_refines id slave l : 0 < id < REMOTE_MAX → 0 < slave < 2 ^ 32 → Z.shiftr slave HANDLE_REMOTE_SHIFT = id →
  Forall hop_ok l → Z.of_nat (length l) < QUEUE_MAX →
  match spec_hops l (harbor_zero id slave) with
  | Ok A => ∃ s, (_ ← harbor_init (harbor_args id slave); run_hops l) (HState harbor_create []) = Ok ((), s) ∧
      hrepr s A ∧ hacts s = ah_acts A
  | Fault e => e = OutOfBounds ∧ (_ ← harbor_init (harbor_args id slave); run_hops l) (HState harbor_create []) = Fault OutOfBounds
  end.
Proof.
  intros Hid Hs E Hl Hn. pose proof (start_run id slave l Hid Hs E Hl Hn) as Hrun.
  pose proof (spec_hops_fault l (harbor_zero id slave)) as Hf. destruct (spec_hops l (harbor_zero id slave)) as [A|e]; cbn [res_repr] in Hrun.
  - destruct Hrun as (s' & Er & Hr'). exists s'. split; [exact Er|]. split; [exact Hr'|apply (hr_acts _ _ Hr')].
  - rewrite (Hf e eq_refl) in *. by split.
Qed.
End delivers.

(** ** A run *)

Definition demo_runtime : HarborRuntime := {| rt_send := λ _, 0 |}.
Definition demo_slave : Z := 2 ^ 24 + 7.
Definition demo_rs : Z := 2 ^ 24 + 20.

(** Node 1 sends to a name and to node 2, is told the name, is connected to node 2 and gets a
    message from it in two pieces. *)
Definition demo_ops : list hop :=
  [OpSendName demo_rs (str "map") 0 5 [104; 105]; OpSend demo_rs (2 * 2 ^ 24 + 9) 1 6 [7]; OpName (str "map") (2 ^ 24 + 30);
   OpConnect false 11 2; OpData 11 [2; 0; 0; 0; 13; 65; 2]; OpData 11 [0; 0; 9; 1; 0; 0; 20; 0; 0; 0; 6]; OpClosed true 11].

Definition demo_acts : list haction :=
  [HCallback; HStart; HSend 0 demo_slave PTYPE_TEXT 0 (str "Q map");
   HSend demo_rs (2 ^ 24 + 30) PTYPE_TAG_DONTCOPY 5 [104; 105]; HSocketStart 11; HSocketSend 11 [1];
   HSocketSend 11 [0; 0; 0; 13; 7; 1; 0; 0; 20; 1; 0; 0; 9; 0; 0; 0; 6]; HFree [7]; HFree [2; 0; 0; 0; 13; 65; 2];
   HSend (2 * 2 ^ 24 + 9) demo_rs (Z.lor 1 PTYPE_TAG_DONTCOPY) 6 [65]; HFree [0; 0; 9; 1; 0; 0; 20; 0; 0; 0; 6];
   HSend 0 demo_slave PTYPE_TEXT 0 (str "D 2")].

Lemma harbor_refines_witness : ∃ s : hstate,
  (_ ← harbor_init (harbor_args 1 demo_slave); @run_hops demo_runtime demo_ops) (HState harbor_create []) = Ok ((), s) ∧ hacts s = demo_acts.
Proof.
  assert (Hops : Forall hop_ok demo_ops).
  { unfold demo_ops, demo_rs. repeat (apply Forall_cons_2; [|]); try constructor; cbn [hop_ok]; unfold u32_ok, INT_MIN, INT_MAX, UINT32_MAX, HEADER_COOKIE_LENGTH;
      repeat split; try (cbn; lia); try done; repeat constructor; cbn; unfold byte; lia. }
  assert (E : ∃ A, @spec_hops demo_runtime demo_ops (harbor_zero 1 demo_slave) = Ok A ∧ ah_acts A = demo_acts)
    by (eexists; split; vm_compute; reflexivity).
  pose proof (@harbor_refines demo_runtime 1 demo_slave demo_ops ltac:(done) ltac:(done) ltac:(done) Hops ltac:(done)) as H.
  destruct E as (A & E & Ea). rewrite E in H. destruct H as (s & Er & _ & Es). exists s. split; [exact Er|]. by rewrite Es.
Defined.
