(* ===== verification/HarborRoundtrip.v ===== *)
(** Two harbor services and the socket between them: what one node sends to a handle of the
    other comes out there as it was sent. *)

From S2P Require Import Prelude CString Handle MessageQueue Node Server.
From S2P Require Import Ring Chain Frames Gate GateText GateProps Harbor HarborProps HarborTable HarborRefines HarborLinks HarborDelivers.
Open Scope Z_scope.

(** ** Numbers *)

Lemma byte_of n k : 0 ≤ k → Z.land (Z.shiftr n k) 0xff = (n / 2 ^ k) mod 2 ^ 8.
Proof. intros Hk. change 0xff with (Z.ones 8). rewrite Z.land_ones by lia. by rewrite Z.shiftr_div_pow2. Qed.

Lemma to_bigendian_eq n : to_bigendian n = [(n / 2 ^ 24) mod 2 ^ 8; (n / 2 ^ 16) mod 2 ^ 8; (n / 2 ^ 8) mod 2 ^ 8; n mod 2 ^ 8].
Proof.
  unfold to_bigendian. rewrite !byte_of by lia. change 0xff with (Z.ones 8). rewrite Z.land_ones by lia. done.
Qed.

Lemma to_bigendian_bytes n : Forall byte (to_bigendian n).
Proof. rewrite to_bigendian_eq. unfold byte. repeat constructor; (pose proof (Z.mod_pos_bound) as H; by apply H). Qed.

Lemma lor_high hi lo n : 0 ≤ n → 0 ≤ lo < 2 ^ n → Z.lor (Z.shiftl hi n) lo = hi * 2 ^ n + lo.
Proof. intros Hn Hlo. rewrite Z.lor_comm, lor_shiftl by done. lia. Qed.

Lemma big_value b0 b1 b2 b3 : byte b0 → byte b1 → byte b2 → byte b3 →
  from_bigendian [b0; b1; b2; b3] = b0 * 2 ^ 24 + b1 * 2 ^ 16 + b2 * 2 ^ 8 + b3.
Proof.
  unfold byte, from_bigendian. cbn [nth]. intros H0 H1 H2 H3.
  destruct (i32_top_byte b0 H0) as (hi & -> & Ehi).
  assert (E1 : Z.lor (Z.shiftl hi 24) (Z.shiftl b1 16) = Z.shiftl (hi * 2 ^ 8 + b1) 16).
  { replace 24 with (8 + 16) by done. rewrite <- Z.shiftl_shiftl, <- Z.shiftl_lor by lia. by rewrite lor_high by lia. }
  assert (E2 : Z.lor (Z.shiftl (hi * 2 ^ 8 + b1) 16) (Z.shiftl b2 8) = Z.shiftl ((hi * 2 ^ 8 + b1) * 2 ^ 8 + b2) 8).
  { replace 16 with (8 + 8) by done. rewrite <- Z.shiftl_shiftl, <- Z.shiftl_lor by lia. by rewrite lor_high by lia. }
  rewrite E1, E2, lor_high by lia. unfold u32.
  pose proof (Z.div_mod hi (2 ^ 8) ltac:(lia)) as Ed. rewrite Ehi in Ed.
  replace (((hi * 2 ^ 8 + b1) * 2 ^ 8 + b2) * 2 ^ 8 + b3) with (b0 * 2 ^ 24 + b1 * 2 ^ 16 + b2 * 2 ^ 8 + b3 + (hi / 2 ^ 8) * 2 ^ 32) by lia.
  rewrite Z.mod_add by lia. apply Z.mod_small. lia.
Qed.

Lemma bigendian_inverse n : u32_ok n → from_bigendian (to_bigendian n) = n.
Proof.
  unfold u32_ok. intros Hn. rewrite to_bigendian_eq.
  assert (Hb : ∀ x, byte (x mod 2 ^ 8)) by (intros x; unfold byte; apply Z.mod_pos_bound; lia).
  rewrite big_value by apply Hb.
  pose proof (Z.div_mod n (2 ^ 8) ltac:(lia)) as E1. pose proof (Z.div_mod (n / 2 ^ 8) (2 ^ 8) ltac:(lia)) as E2.
  pose proof (Z.div_mod (n / 2 ^ 8 / 2 ^ 8) (2 ^ 8) ltac:(lia)) as E3. rewrite !Z.div_div in E2, E3 by lia. rewrite !Z.div_div in E3 by lia.
  change (2 ^ 8 * 2 ^ 8) with (2 ^ 16) in *. change (2 ^ 16 * 2 ^ 8) with (2 ^ 24) in *.
  assert (0 ≤ n / 2 ^ 24 < 2 ^ 8) by (split; [apply Z.div_pos; lia|apply Z.div_lt_upper_bound; lia]).
  rewrite (Z.mod_small (n / 2 ^ 24)) by done. lia.
Qed.

Definition header_ok (h : remote_message_header) : Prop := u32_ok (rh_source h) ∧ u32_ok (rh_destination h) ∧ u32_ok (rh_session h).

Lemma header_inverse h : header_ok h → message_to_header (header_to_message h) = h.
Proof.
  intros (H1 & H2 & H3). unfold message_to_header, header_to_message.
  change (take 4 (to_bigendian ?a ++ to_bigendian ?b ++ to_bigendian ?c)) with (to_bigendian a).
  change (take 4 (drop 4 (to_bigendian ?a ++ to_bigendian ?b ++ to_bigendian ?c))) with (to_bigendian b).
  change (take 4 (drop 8 (to_bigendian ?a ++ to_bigendian ?b ++ to_bigendian ?c))) with (to_bigendian c).
  rewrite !bigendian_inverse by done. by destruct h.
Qed.

(** The type and the handle share a word. *)
Lemma destination_parts type handle : 0 ≤ type < 2 ^ 8 → u32_ok handle →
  remote_destination type handle = type * 2 ^ 24 + handle mod 2 ^ 24 ∧ u32_ok (remote_destination type handle).
Proof.
  unfold u32_ok. intros Ht Hh. unfold remote_destination, HANDLE_REMOTE_SHIFT, HANDLE_MASK. change 0xffffff with (Z.ones 24).
  rewrite Z.land_ones by lia. pose proof (Z.mod_pos_bound handle (2 ^ 24) ltac:(lia)).
  assert (Eu : u32 (Z.shiftl type 24) = Z.shiftl type 24) by (unfold u32; rewrite Z.shiftl_mul_pow2 by lia; apply Z.mod_small; lia).
  rewrite Eu, lor_high by lia. lia.
Qed.

Lemma destination_back type handle id : 0 ≤ type < 2 ^ 8 → u32_ok handle → Z.shiftr handle HANDLE_REMOTE_SHIFT = id →
  Z.shiftr (remote_destination type handle) HANDLE_REMOTE_SHIFT = type ∧
  Z.lor (Z.land (remote_destination type handle) HANDLE_MASK) (u32 (Z.shiftl (u32 id) HANDLE_REMOTE_SHIFT)) = handle.
Proof.
  intros Ht Hh Hid. destruct (destination_parts type handle Ht Hh) as [-> _]. unfold u32_ok, HANDLE_REMOTE_SHIFT, HANDLE_MASK in *.
  pose proof (Z.mod_pos_bound handle (2 ^ 24) ltac:(lia)) as Hm. split.
  - rewrite Z.shiftr_div_pow2, Z.div_add_l, Z.div_small by lia. lia.
  - change 0xffffff with (Z.ones 24). rewrite Z.land_ones by lia. rewrite (Z.add_comm (type * _)), Z.mod_add, Z.mod_mod by lia.
    rewrite Z.shiftr_div_pow2 in Hid by lia. pose proof (Z.div_mod handle (2 ^ 24) ltac:(lia)) as E.
    assert (Hr : 0 ≤ id < 2 ^ 8) by (subst id; split; [apply Z.div_pos; lia|apply Z.div_lt_upper_bound; lia]).
    assert (Eu : u32 (Z.shiftl (u32 id) 24) = Z.shiftl id 24).
    { unfold u32. rewrite (Z.mod_small id) by lia. rewrite Z.shiftl_mul_pow2 by lia. apply Z.mod_small. lia. }
    rewrite Eu, lor_shiftl by lia. lia.
Qed.

(** ** The stream *)

(** Cutting goes on where it stopped. *)
Lemma hcut_app n : ∀ s t, (length s ≤ n)%nat →
  hcut (s ++ t) = match hcut s with
                  | (fs, CRest r) => let '(fs', e) := hcut (r ++ t) in (fs ++ fs', e)
                  | (fs, e) => (fs, e)
                  end.
Proof.
  induction n as [|n IH]; intros s t Hn.
  { destruct s; [|cbn in Hn; lia]. change (hcut t = let '(fs, e) := hcut t in ([] ++ fs, e)). by destruct (hcut t). }
  destruct (Nat.lt_ge_cases (length s) 4) as [Hlt|Hge]; [rewrite (hcut_short s) by done; by destruct (hcut (s ++ t))|].
  destruct s as [|b0 [|b1 [|b2 [|b3 body]]]]; [cbn in Hge; lia..|]. cbn [app]. rewrite !hcut_cons. destruct (negb (b0 =? 0)) eqn:E0; [done|].
  cbv zeta. set (k := frame_length b1 b2 b3). destruct (Nat.leb_spec (Nat.max 1 k) (length body)) as [Hk|Hk].
  - rewrite (proj2 (Nat.leb_le _ _)) by (rewrite length_app; lia). destruct (k <? Z.to_nat HEADER_COOKIE_LENGTH)%nat; [done|].
    rewrite drop_app_le, take_app_le by lia. rewrite IH by (rewrite length_drop; cbn in Hn; lia).
    destruct (hcut (drop k body)) as [fs [r| |]]; [|done..]. by destruct (hcut (r ++ t)).
  - cbn [app]. rewrite hcut_cons, E0. cbv zeta. fold k.
    destruct (Nat.max 1 k <=? length (body ++ t))%nat; [|done]. destruct (k <? Z.to_nat HEADER_COOKIE_LENGTH)%nat; [done|].
    by destruct (hcut (drop k (body ++ t))).
Qed.

Lemma hcut_split s t fs r : hcut (s ++ t) = (fs, CRest r) →
  ∃ fs1 r1 fs2, hcut s = (fs1, CRest r1) ∧ hcut (r1 ++ t) = (fs2, CRest r) ∧ fs = fs1 ++ fs2.
Proof.
  rewrite (hcut_app (length s)) by done. destruct (hcut s) as [fs1 [r1| |]]; [|done..].
  destruct (hcut (r1 ++ t)) as [fs2 e] eqn:E. intros [= <- ->]. by exists fs1, r1, fs2.
Qed.

Definition frame (m : amsg) : list Z := m.2 ++ header_to_message m.1.

Lemma frame_size m : length (frame m) = (length m.2 + Z.to_nat HEADER_COOKIE_LENGTH)%nat.
Proof. unfold frame. by rewrite length_app. Qed.

(** What the receiver takes: sixteen megabytes at most. *)
Definition small (m : amsg) : Prop := Z.of_nat (length m.2) + HEADER_COOKIE_LENGTH < 2 ^ 24.

Lemma wire_cut m t : small m → hcut (remote_wire m ++ t) = let '(fs, e) := hcut t in (frame m :: fs, e).
Proof.
  unfold small, remote_wire. fold (frame m). rewrite <- (assoc_L (++)). set (n := Z.of_nat (length m.2) + HEADER_COOKIE_LENGTH). intros Hn.
  assert (Hlen : length (frame m) = Z.to_nat n) by (rewrite frame_size; unfold n, HEADER_COOKIE_LENGTH; lia).
  assert (H12 : 12 ≤ n) by (unfold n, HEADER_COOKIE_LENGTH; lia). rewrite to_bigendian_eq, (Z.div_small n) by lia. change (0 mod 2 ^ 8) with 0.
  cbn [app]. rewrite hcut_cons. cbn [Z.eqb negb]. cbv zeta.
  assert (Ef : frame_length ((n / 2 ^ 16) mod 2 ^ 8) ((n / 2 ^ 8) mod 2 ^ 8) (n mod 2 ^ 8) = Z.to_nat n).
  { unfold frame_length. f_equal. pose proof (Z.div_mod n (2 ^ 8) ltac:(lia)) as E1. pose proof (Z.div_mod (n / 2 ^ 8) (2 ^ 8) ltac:(lia)) as E2.
    rewrite Z.div_div in E2 by lia. change (2 ^ 8 * 2 ^ 8) with (2 ^ 16) in *.
    assert (0 ≤ n / 2 ^ 16 < 2 ^ 8) by (split; [apply Z.div_pos; lia|apply Z.div_lt_upper_bound; lia]).
    rewrite (Z.mod_small (n / 2 ^ 16)) by done. lia. }
  rewrite Ef. rewrite (proj2 (Nat.leb_le _ _)) by (rewrite length_app; lia). rewrite (proj2 (Nat.ltb_ge _ _)) by (unfold HEADER_COOKIE_LENGTH; lia).
  rewrite <- Hlen, drop_app_length, take_app_length. done.
Qed.

Lemma wires_cut ms : Forall small ms → hcut (concat (map remote_wire ms)) = (map frame ms, CRest []).
Proof.
  induction 1 as [|m ms Hm _ IH]; [done|]. cbn [map concat]. by rewrite wire_cut, IH.
Qed.

Lemma wires_bytes ms : Forall (λ m, Forall byte m.2) ms → Forall byte (concat (map remote_wire ms)).
Proof.
  induction 1 as [|m ms Hm _ IH]; [done|]. cbn [map concat]. apply Forall_app. split; [|done]. unfold remote_wire, header_to_message.
  repeat (apply Forall_app; split); (done || apply to_bigendian_bytes).
Qed.

(** ** A service with one connection *)

Definition one_conn (id slave x : Z) (c : aconn) (acts : list haction) : aharbor :=
  AHarbor id slave (<[Z.to_nat x := c]> (replicate (Z.to_nat REMOTE_MAX) conn_zero)) [] acts.

Section one.
Context (id slave x : Z) (Hx : 0 < x < REMOTE_MAX).

Lemma one_of c acts : conn_of (one_conn id slave x c acts) x = c.
Proof.
  unfold conn_of, one_conn. cbn [ah_conns]. rewrite nth_lookup, list_lookup_insert_eq; [done|]. rewrite length_replicate. lia.
Qed.

Lemma one_set c c' acts : set_conn x c' (one_conn id slave x c acts) = one_conn id slave x c' acts.
Proof. unfold set_conn, one_conn. cbn. by rewrite list_insert_insert_eq. Qed.

Lemma one_act c acts l : act l (one_conn id slave x c acts) = one_conn id slave x c (acts ++ l).
Proof. done. Qed.

Lemma one_zero : harbor_zero id slave = one_conn id slave x conn_zero [HCallback; HStart].
Proof. unfold harbor_zero, one_conn. by rewrite insert_replicate. Qed.

Lemma find_zeros n fd : fd ≠ 0 → ∀ k i c, (k < n)%nat → ac_fd c = fd →
  find_conn (<[k := c]> (replicate n conn_zero)) fd i = i + Z.of_nat k.
Proof.
  intros Hfd. induction n as [|n IH]; intros k i c Hk Hc; [lia|]. destruct k as [|k].
  - cbn. rewrite Hc, Z.eqb_refl. lia.
  - change (<[S k := c]> (replicate (S n) conn_zero)) with (conn_zero :: <[k := c]> (replicate n conn_zero)). cbn [find_conn conn_zero ac_fd].
    destruct (Z.eqb_spec 0 fd); [congruence|]. rewrite IH by (done || lia). lia.
Qed.

Lemma one_find c acts fd : fd ≠ 0 → ac_fd c = fd → find_conn (drop 1 (ah_conns (one_conn id slave x c acts))) fd 1 = x.
Proof.
  intros Hfd Hc. unfold one_conn. cbn [ah_conns]. destruct (Z.to_nat x) as [|k] eqn:Ek; [lia|].
  assert (Er : Z.to_nat REMOTE_MAX = S 255) by done. rewrite Er.
  change (drop 1 (<[S k := c]> (replicate (S 255) conn_zero))) with (<[k := c]> (replicate 255 conn_zero)).
  rewrite find_zeros; [lia|done|unfold REMOTE_MAX in Hx; lia|done].
Qed.
End one.

(** ** What is sent and what arrives *)

(** A message of a local service to a handle of another node. *)
Record rsend : Set := RSend { rs_source : Z; rs_handle : Z; rs_type : Z; rs_session : Z; rs_payload : list Z }.

Definition op_of (r : rsend) : hop := OpSend (rs_source r) (rs_handle r) (rs_type r) (rs_session r) (rs_payload r).
Definition out_of (r : rsend) : amsg := out_msg (rs_source r) (rs_type r) (rs_session r) (rs_handle r) (rs_payload r).
(** The same message, as a local one. *)
Definition local_of (r : rsend) : haction :=
  HSend (rs_source r) (rs_handle r) (Z.lor (rs_type r) PTYPE_TAG_DONTCOPY) (rs_session r) (rs_payload r).

Definition rsend_ok (x : Z) (r : rsend) : Prop :=
  hop_ok (op_of r) ∧ Z.shiftr (rs_handle r) HANDLE_REMOTE_SHIFT = x ∧ small (out_of r) ∧ Forall byte (rs_payload r).

(** What [skynet_send] returns for a message to a service of this node: the session, which
    may be negative, or -1 when there is no such service. *)
Definition sends_by {rt : HarborRuntime} (alive : Z → bool) : Prop :=
  ∀ l src dst type sess payload, rt_send (l ++ [HSend src dst type sess payload]) = if alive dst then sess else -1.

(** What the receiver sends for a message: the message, and an error to its source when the
    result of [skynet_send] is negative, unless it is an error itself. *)
Definition forwarded (alive : Z → bool) (r : rsend) : list haction :=
  local_of r ::
    (if alive (rs_handle r) && (0 <=? rs_session r) || (rs_type r =? PTYPE_ERROR) then []
     else [HSend (rs_handle r) (rs_source r) PTYPE_ERROR (rs_session r) []]).

(** The bytes written to a socket, and the messages to services. *)
Definition written (fd : Z) (l : list haction) : list Z :=
  concat (map (λ a, match a with HSocketSend f b => if f =? fd then b else [] | _ => [] end) l).
Definition local_sends (l : list haction) : list haction :=
  concat (map (λ a, match a with HSend _ _ _ _ _ => [a] | _ => [] end) l).

Lemma written_app fd l1 l2 : written fd (l1 ++ l2) = written fd l1 ++ written fd l2.
Proof. unfold written. by rewrite map_app, concat_app. Qed.

Lemma local_sends_app l1 l2 : local_sends (l1 ++ l2) = local_sends l1 ++ local_sends l2.
Proof. unfold local_sends. by rewrite map_app, concat_app. Qed.

Lemma written_msgs fd q : written fd (concat (map (write_msg fd) q)) = concat (map remote_wire q).
Proof.
  induction q as [|m q IH]; [done|]. cbn [map concat]. rewrite written_app, IH. f_equal.
  unfold written, write_msg. cbn. by rewrite Z.eqb_refl, app_nil_r.
Qed.

Section link.
Context {rt : HarborRuntime}.

Lemma spec_hops_app l1 l2 A : spec_hops (l1 ++ l2) A = (A ← spec_hops l1 A; spec_hops l2 A).
Proof.
  revert A. induction l1 as [|o l1 IH]; intros A; [done|]. cbn [app spec_hops]. destruct (spec_op o A); [|done]. rewrite !bind_ok. apply IH.
Qed.

Lemma written_start f b l : written f (HCallback :: HStart :: HSocketStart f :: HSocketSend f [b] :: l) = b :: written f l.
Proof. unfold written. cbn. by rewrite Z.eqb_refl. Qed.

(** *** The sender *)

Section sender.
Context (id slave x : Z) (Hx : 0 < x < REMOTE_MAX) (Hne : x ≠ id).

Lemma sends_wait f p rs : p = PWait ∨ p = PHandshake → Forall (rsend_ok x) rs → ∀ q acts,
  spec_hops (map op_of rs) (one_conn id slave x (AConn f p q) acts) = Ok (one_conn id slave x (AConn f p (q ++ map out_of rs)) acts).
Proof.
  intros Hp. induction 1 as [|r rs (_ & Hr & _) _ IH]; intros q acts; [by rewrite app_nil_r|]. cbn [map spec_hops].
  assert (E : spec_op (op_of r) (one_conn id slave x (AConn f p q) acts) = Ok (one_conn id slave x (AConn f p (q ++ [out_of r])) acts)).
  { cbn [spec_op op_of]. unfold a_send. rewrite Hr. cbn [ah_id one_conn]. destruct (Z.eqb_spec x id) as [|_]; [done|].
    cbv zeta. rewrite one_of by done. cbn [ac_phase ac_fd ac_queue]. rewrite one_set. by destruct Hp as [-> | ->]. }
  rewrite E, bind_ok, IH. by rewrite <- (assoc_L (++)).
Qed.

Lemma sends_up f rest q rs : Forall (rsend_ok x) rs → ∀ acts,
  spec_hops (map op_of rs) (one_conn id slave x (AConn f (PUp rest) q) acts) =
    Ok (one_conn id slave x (AConn f (PUp rest) q) (acts ++ concat (map (write_msg f) (map out_of rs)))).
Proof.
  induction 1 as [|r rs (_ & Hr & _) _ IH]; intros acts; [by rewrite app_nil_r|]. cbn [map spec_hops].
  assert (E : spec_op (op_of r) (one_conn id slave x (AConn f (PUp rest) q) acts) =
    Ok (one_conn id slave x (AConn f (PUp rest) q) (acts ++ write_msg f (out_of r)))).
  { cbn [spec_op op_of]. unfold a_send. rewrite Hr. cbn [ah_id one_conn]. destruct (Z.eqb_spec x id) as [|_]; [done|].
    cbv zeta. by rewrite one_of. }
  rewrite E, bind_ok, IH. cbn [map concat]. by rewrite <- (assoc_L (++)).
Qed.

Lemma flush_one f p q acts :
  a_flush x (one_conn id slave x (AConn f p q) acts) = one_conn id slave x (AConn f p []) (acts ++ concat (map (write_msg f) q)).
Proof. unfold a_flush. rewrite one_of by done. cbv zeta. by rewrite one_set. Qed.

Lemma connect_one accept f q acts :
  a_connect accept f x (one_conn id slave x (AConn 0 PWait q) acts) =
    let acts := acts ++ [HSocketStart f; HSocketSend f [u8 id]] in
    if accept then one_conn id slave x (AConn f (PUp []) []) (acts ++ concat (map (write_msg f) q))
    else one_conn id slave x (AConn f PHandshake q) acts.
Proof.
  unfold a_connect. rewrite one_of by done. cbn [ac_fd ac_queue Z.eqb negb]. rewrite one_set, one_act. cbn [ah_id one_conn].
  destruct accept; [|done]. apply flush_one.
Qed.

(** The node's history with the other one: messages before it is connected, before the other
    side has answered, and after. *)
Definition sender_ops (accept : bool) (f : Z) (s1 s2 s3 : list rsend) : list hop :=
  map op_of s1 ++ OpConnect accept f x :: map op_of s2 ++ (if accept then [] else [OpData f [x]]) ++ map op_of s3.

Lemma sender_lemma accept f s1 s2 s3 : 0 < f → Forall (rsend_ok x) s1 → Forall (rsend_ok x) s2 → Forall (rsend_ok x) s3 →
  ∃ A, spec_hops (sender_ops accept f s1 s2 s3) (harbor_zero id slave) = Ok A ∧
    written f (ah_acts A) = u8 id :: concat (map remote_wire (map out_of (s1 ++ s2 ++ s3))).
Proof.
  intros Hf H1 H2 H3. unfold sender_ops. rewrite (one_zero id slave x), spec_hops_app. unfold conn_zero.
  rewrite (sends_wait 0 PWait s1 (or_introl eq_refl) H1), bind_ok. cbn [spec_hops spec_op app]. rewrite bind_ok, connect_one. cbv zeta.
  rewrite spec_hops_app. destruct accept.
  - rewrite (sends_up f [] [] s2 H2), bind_ok. cbn [app]. rewrite (sends_up f [] [] s3 H3). eexists. split; [done|]. cbn [ah_acts one_conn].
    rewrite <- ?(assoc_L (++)). cbn [app]. rewrite written_start, !written_app, !written_msgs, !map_app, !concat_app.
    by rewrite <- ?(assoc_L (++)).
  - rewrite (sends_wait f PHandshake s2 (or_intror eq_refl) H2), bind_ok. cbn [app spec_hops].
    assert (E : ∀ q acts, spec_op (OpData f [x]) (one_conn id slave x (AConn f PHandshake q) acts) =
      Ok (one_conn id slave x (AConn f (PUp []) []) (acts ++ concat (map (write_msg f) q) ++ [HFree [x]]))).
    { intros q acts. cbn [spec_op]. rewrite one_find by (done || cbn; lia). destruct (Z.eqb_spec x 0); [lia|]. unfold a_data. rewrite one_of by done.
      cbn [ac_phase]. rewrite Z.eqb_refl. unfold with_phase at 1. rewrite one_of, one_set, flush_one by done. cbn [ac_fd ac_queue].
      rewrite a_bytes_nil, bind_ok. unfold with_phase. rewrite one_of, one_set, one_act by done. cbn [ac_fd ac_queue]. by rewrite <- (assoc_L (++)). }
    rewrite E, bind_ok, (sends_up f [] [] s3 H3). eexists. split; [done|]. cbn [ah_acts one_conn].
    rewrite <- ?(assoc_L (++)). cbn [app]. rewrite written_start, !written_app, !written_msgs, !map_app, !concat_app.
    change (written f (HFree [x] :: ?l)) with (written f l). by rewrite written_msgs, <- ?(assoc_L (++)).
Qed.
End sender.

(** *** The receiver *)

(** The message of a frame, when the runtime takes it. *)
Definition delivered (id : Z) (f : list Z) : haction :=
  let n := (length f - Z.to_nat HEADER_COOKIE_LENGTH)%nat in
  let h := message_to_header (drop n f) in
  HSend (rh_source h) (Z.lor (Z.land (rh_destination h) HANDLE_MASK) (u32 (Z.shiftl (u32 id) HANDLE_REMOTE_SHIFT)))
    (Z.lor (Z.shiftr (rh_destination h) HANDLE_REMOTE_SHIFT) PTYPE_TAG_DONTCOPY) (i32 (rh_session h)) (take n f).

Lemma i32_u32 n : INT_MIN ≤ n ≤ INT_MAX → i32 (u32 n) = n.
Proof.
  unfold INT_MIN, INT_MAX, i32, u32. intros Hn. rewrite Zplus_mod_idemp_l, Z.mod_small by lia. lia.
Qed.

Lemma out_header x r : rsend_ok x r → header_ok (out_of r).1.
Proof.
  intros ((Hs & Hh & _ & Ht & _ & _ & _) & _). cbn. split; [done|]. split; [by apply destination_parts|]. apply Z.mod_pos_bound. lia.
Qed.

Section receiver.
Context (alive : Z → bool) (Hrt : sends_by alive).

(** What [forward_local_messsage] does with a frame. *)
Definition arrives (id : Z) (f : list Z) : list haction :=
  let h := message_to_header (drop (length f - Z.to_nat HEADER_COOKIE_LENGTH) f) in
  let type := Z.shiftr (rh_destination h) HANDLE_REMOTE_SHIFT in
  let destination := Z.lor (Z.land (rh_destination h) HANDLE_MASK) (u32 (Z.shiftl (u32 id) HANDLE_REMOTE_SHIFT)) in
  delivered id f ::
    (if alive destination && (0 <=? i32 (rh_session h)) then []
     else (if type =? PTYPE_ERROR then [] else [HSend destination (rh_source h) PTYPE_ERROR (i32 (rh_session h)) []]) ++
          [HError (str "Unknown destination :" ++ print_x destination ++ str " from :" ++ print_x (rh_source h) ++
                   str " type(" ++ print_d type ++ str ")")]).

Definition arrivals (id : Z) (fs : list (list Z)) : list haction := concat (map (arrives id) fs).

Lemma arrivals_app id fs fs' : arrivals id (fs ++ fs') = arrivals id fs ++ arrivals id fs'.
Proof. unfold arrivals. by rewrite map_app, concat_app. Qed.

Lemma arrives_local x r : rsend_ok x r → local_sends (arrives x (frame (out_of r))) = forwarded alive r.
Proof.
  intros Hr. pose proof (out_header x r Hr) as Hh. destruct Hr as ((_ & Hu & _ & Ht & _ & _ & Hs & _) & Hx & _ & _).
  unfold arrives, delivered, forwarded. cbv zeta. rewrite frame_size, Nat.add_sub. unfold frame.
  rewrite drop_app_length, take_app_length, (header_inverse _ Hh).
  destruct (destination_back _ _ _ Ht Hu Hx) as [E1 E2]. cbn [out_of out_msg fst snd rh_source rh_destination rh_session].
  rewrite E1, E2, i32_u32 by done. unfold local_sends. cbn [map concat app]. f_equal.
  destruct (alive (rs_handle r) && _); [done|]. by destruct (rs_type r =? PTYPE_ERROR).
Qed.

Lemma frames_local x l : Forall (rsend_ok x) l →
  local_sends (arrivals x (map frame (map out_of l))) = concat (map (forwarded alive) l).
Proof.
  induction 1 as [|r l Hr _ IH]; [done|]. cbn [map concat]. unfold arrivals in *. cbn [map concat].
  by rewrite local_sends_app, (arrives_local x r Hr), IH.
Qed.

Context (id slave y : Z) (Hy : 0 < y < REMOTE_MAX).

Lemma deliver_one f c acts : a_deliver f (one_conn id slave y c acts) = one_conn id slave y c (acts ++ arrives id f).
Proof.
  unfold a_deliver, arrives. cbv zeta. rewrite one_act. cbn [ah_acts ah_id one_conn]. rewrite Hrt.
  set (d := Z.lor _ _). set (h := message_to_header _). destruct (alive d); cbn [andb].
  - destruct (Z.ltb_spec (i32 (rh_session h)) 0), (Z.leb_spec 0 (i32 (rh_session h))); try lia; [|done].
    rewrite one_act, <- (assoc_L (++)). done.
  - rewrite one_act, <- (assoc_L (++)). done.
Qed.

Lemma bytes_one s fs r fd p acts : hcut s = (fs, CRest r) →
  a_bytes y s (one_conn id slave y (AConn fd p []) acts) = Ok (one_conn id slave y (AConn fd (PUp r) []) (acts ++ arrivals id fs)).
Proof.
  intros E. unfold a_bytes. rewrite E. f_equal. assert (Efold : ∀ c fs acts, foldl (λ A f, a_deliver f A) (one_conn id slave y c acts) fs =
    one_conn id slave y c (acts ++ arrivals id fs)).
  { clear fs E acts. intros c fs. induction fs as [|f fs IH]; intros acts; [by rewrite app_nil_r|]. cbn [foldl map].
    rewrite deliver_one, IH. by rewrite <- (assoc_L (++)). }
  rewrite Efold. unfold with_phase. by rewrite one_of, one_set.
Qed.

Lemma rest_cut s fs r : hcut s = (fs, CRest r) → hcut r = ([], CRest r).
Proof.
  intros E. pose proof (hcut_app (length s) s [] ltac:(done)) as Ea. rewrite E, !app_nil_r, E in Ea.
  destruct (hcut r) as [fs' e]. injection Ea as Efs <-. f_equal. apply (app_inv_head fs). by rewrite app_nil_r.
Qed.

Lemma data_one fd p c acts fs r : 0 < fd → hcut (p ++ c) = (fs, CRest r) →
  spec_op (OpData fd c) (one_conn id slave y (AConn fd (PUp p) []) acts) =
    Ok (one_conn id slave y (AConn fd (PUp r) []) (acts ++ arrivals id fs ++ [HFree c])).
Proof.
  intros Hfd E. cbn [spec_op]. rewrite one_find by (done || lia). cbv zeta. destruct (Z.eqb_spec y 0); [lia|]. unfold a_data. rewrite one_of by done.
  cbn [ac_phase]. rewrite (bytes_one _ _ _ _ _ _ E), bind_ok, one_act. by rewrite <- (assoc_L (++)).
Qed.

Lemma chunks_one fd chunks : 0 < fd → ∀ p fs r acts, hcut p = ([], CRest p) → hcut (p ++ concat chunks) = (fs, CRest r) →
  ∃ A, spec_hops (map (OpData fd) chunks) (one_conn id slave y (AConn fd (PUp p) []) acts) = Ok A ∧
    local_sends (ah_acts A) = local_sends acts ++ local_sends (arrivals id fs).
Proof.
  intros Hfd. induction chunks as [|c chunks IH]; intros p fs r acts Ep E.
  - eexists. split; [done|]. cbn in E. rewrite app_nil_r, Ep in E. injection E as <- _. by rewrite app_nil_r.
  - cbn [concat] in E. rewrite (assoc_L (++)) in E. destruct (hcut_split _ _ _ _ E) as (fs1 & r1 & fs2 & E1 & E2 & ->).
    cbn [map spec_hops]. rewrite (data_one _ _ _ _ _ _ Hfd E1), bind_ok.
    destruct (IH r1 fs2 r (acts ++ arrivals id fs1 ++ [HFree c]) (rest_cut _ _ _ E1) E2) as (A & Er & Es). exists A. split; [exact Er|].
    rewrite Es, !local_sends_app, arrivals_app, local_sends_app. change (local_sends [HFree c]) with ([] : list haction).
    by rewrite app_nil_r, (assoc_L (++)).
Qed.

(** The node's history with the other one: the connection, and the bytes in pieces. *)
Definition receiver_ops (accept : bool) (fd : Z) (chunks : list (list Z)) : list hop := OpConnect accept fd y :: map (OpData fd) chunks.

Lemma receiver_lemma (accept : bool) fd (chunks : list (list Z)) s fs : 0 < fd → Forall (λ c : list Z, c ≠ []) chunks →
  concat chunks = (if accept then [] else [y]) ++ s → hcut s = (fs, CRest []) →
  ∃ A, spec_hops (receiver_ops accept fd chunks) (harbor_zero id slave) = Ok A ∧ local_sends (ah_acts A) = local_sends (arrivals id fs).
Proof.
  intros Hfd Hch Ec Es. unfold receiver_ops. rewrite (one_zero id slave y). cbn [spec_hops spec_op]. rewrite bind_ok. unfold conn_zero.
  rewrite connect_one by done. cbv zeta. destruct accept.
  - cbn [map concat]. rewrite app_nil_r. cbn [app] in Ec |- *. by apply (chunks_one fd chunks Hfd [] fs []); [done|cbn; rewrite Ec].
  - destruct Hch as [|c chunks Hc Hch]; [done|]. destruct c as [|b c]; [done|]. cbn [concat app] in Ec. injection Ec as -> Ec.
    destruct (hcut_split c (concat chunks) fs []) as (fs1 & r1 & fs2 & E1 & E2 & ->); [by rewrite Ec|].
    cbn [map spec_hops app].
    assert (E : ∀ acts, spec_op (OpData fd (y :: c)) (one_conn id slave y (AConn fd PHandshake []) acts) =
      Ok (one_conn id slave y (AConn fd (PUp r1) []) (acts ++ arrivals id fs1 ++ [HFree (y :: c)]))).
    { intros acts. cbn [spec_op]. rewrite one_find by (done || lia). cbv zeta. destruct (Z.eqb_spec y 0); [lia|]. unfold a_data. rewrite one_of by done.
      cbn [ac_phase]. rewrite Z.eqb_refl. unfold with_phase. rewrite one_of, one_set by done. cbn [ac_fd ac_queue]. rewrite flush_one by done.
      cbn [map concat]. rewrite app_nil_r, (bytes_one _ _ _ _ _ _ E1), bind_ok, one_act. by rewrite <- (assoc_L (++)). }
    rewrite E, bind_ok. 
    destruct (chunks_one fd chunks Hfd r1 fs2 [] ([HCallback; HStart; HSocketStart fd; HSocketSend fd [u8 id]] ++ arrivals id fs1 ++ [HFree (y :: c)])
      (rest_cut _ _ _ E1) E2) as (A & Er & El). exists A. split; [exact Er|].
    rewrite El, !local_sends_app, arrivals_app, local_sends_app. change (local_sends [HFree (y :: c)]) with ([] : list haction).
    by rewrite app_nil_r.
Qed.
End receiver.

(** *** Both *)

Lemma sender_ok x accept f s1 s2 s3 : 0 < x < REMOTE_MAX → 0 < f < 2 ^ 31 → Forall (rsend_ok x) (s1 ++ s2 ++ s3) →
  Forall hop_ok (sender_ops x accept f s1 s2 s3).
Proof.
  intros Hx Hf [H1 [H2 H3]%Forall_app]%Forall_app. unfold REMOTE_MAX in Hx.
  assert (Hops : ∀ l, Forall (rsend_ok x) l → Forall hop_ok (map op_of l)) by (intros l; induction 1 as [|r l [Hr _] _ IH]; by constructor).
  unfold sender_ops. apply Forall_app. split; [by apply Hops|]. constructor; [done|]. apply Forall_app. split; [by apply Hops|].
  apply Forall_app. split; [|by apply Hops]. destruct accept; [constructor|]. repeat constructor; unfold byte; (done || lia).
Qed.

Lemma harbor_stream_bytes x l : Forall (rsend_ok x) l → Forall byte (concat (map remote_wire (map out_of l))).
Proof. intros Hl. apply wires_bytes. induction Hl as [|r l (_ & _ & _ & Hr) _ IH]; by constructor. Qed.

Lemma stream_cut x l : Forall (rsend_ok x) l → hcut (concat (map remote_wire (map out_of l))) = (map frame (map out_of l), CRest []).
Proof. intros Hl. apply wires_cut. induction Hl as [|r l (_ & _ & Hr & _) _ IH]; by constructor. Qed.

(** A harbor service with the history [l]. *)
Definition harbor_run (id slave : Z) (l : list hop) : res (unit * hstate) :=
  (_ ← harbor_init (harbor_args id slave); run_hops l) (HState harbor_create []).

Definition node_ok (id slave : Z) : Prop := 0 < id < REMOTE_MAX ∧ 0 < slave < 2 ^ 32 ∧ Z.shiftr slave HANDLE_REMOTE_SHIFT = id.

(** C18.  Two nodes understand each other.  Node [y] sends messages to handles of node [x]
    before it has a connection to it ([s1]), before the other side has answered ([s2]) and
    after that ([s3]); it has connected or it has been connected to.  It writes its own id
    and then all of the messages, in order.  When these bytes come to [x] in whatever pieces,
    [x] sends exactly the same messages to its services, in the same order: the source, the
    handle, the type, the session and the payload are those that were sent.  [skynet_send]
    returns the session when the service lives and -1 when not; behind a message with a
    negative result, and only there, [x] sends an error with the same session to the source,
    unless the message is an error.  So a message to a live service is answered with an error
    when its session is negative. *)
Theorem harbor_link alive x slave_x y slave_y accept fx fy s1 s2 s3 :
  sends_by alive → node_ok x slave_x → node_ok y slave_y → x ≠ y → 0 < fx < 2 ^ 31 → 0 < fy < 2 ^ 31 →
  Forall (rsend_ok x) (s1 ++ s2 ++ s3) → Z.of_nat (length (s1 ++ s2 ++ s3)) + 2 < QUEUE_MAX →
  let stream := concat (map remote_wire (map out_of (s1 ++ s2 ++ s3))) in
  (∃ s, harbor_run y slave_y (sender_ops x accept fy s1 s2 s3) = Ok ((), s) ∧ written fy (hacts s) = y :: stream) ∧
  ∀ chunks, Forall (λ c, c ≠ []) chunks → Z.of_nat (length chunks) + 1 < QUEUE_MAX →
    concat chunks = (if accept then y :: stream else stream) →
    ∃ s, harbor_run x slave_x (receiver_ops y (negb accept) fx chunks) = Ok ((), s) ∧
      local_sends (hacts s) = concat (map (forwarded alive) (s1 ++ s2 ++ s3)).
Proof.
  intros Hrt (Hx & Hsx & Ex) (Hy & Hsy & Ey) Hne Hfx Hfy Hs Hlen stream. split.
  - assert (Hl : Z.of_nat (length (sender_ops x accept fy s1 s2 s3)) < QUEUE_MAX).
    { unfold sender_ops. rewrite !length_app in *. cbn [length]. rewrite !length_app, !length_map. destruct accept; cbn [length]; lia. }
    pose proof (start_run y slave_y _ Hy Hsy Ey (sender_ok x accept fy s1 s2 s3 Hx Hfy Hs) Hl) as Hrun.
    apply Forall_app in Hs as [H1 [H2 H3]%Forall_app].
    destruct (sender_lemma y slave_y x Hx Hne accept fy s1 s2 s3 (proj1 Hfy) H1 H2 H3) as (A & EA & Ew). rewrite EA in Hrun.
    destruct Hrun as (s & Er & Hr). exists s. split; [exact Er|]. rewrite (hr_acts _ _ Hr), Ew. f_equal. unfold REMOTE_MAX in Hy.
    apply Z.mod_small. lia.
  - intros chunks Hch Hlc Ec. assert (Hb : Forall (Forall byte) chunks).
    { assert (Hcc : Forall byte (concat chunks)).
      { rewrite Ec. unfold REMOTE_MAX in Hy. destruct accept; [constructor; [unfold byte; lia|]|]; by eapply harbor_stream_bytes. }
      clear - Hcc. induction chunks as [|c chunks IH]; [constructor|]. cbn [concat] in Hcc. apply Forall_app in Hcc as [H1 H2]. constructor; [done|by apply IH]. }
    assert (Hok : Forall hop_ok (receiver_ops y (negb accept) fx chunks)).
    { constructor; [done|]. clear - Hch Hb Hfx. induction Hch as [|c chunks Hc _ IH]; [constructor|].
      apply Forall_cons in Hb as [Hc' Hb]. constructor; [split; [lia|done]|by apply IH]. }
    pose proof (start_run x slave_x _ Hx Hsx Ex Hok) as Hrun.
    destruct (receiver_lemma alive Hrt x slave_x y Hy (negb accept) fx chunks stream (map frame (map out_of (s1 ++ s2 ++ s3))) (proj1 Hfx) Hch) as (A & EA & El);
      [by destruct accept|by eapply stream_cut|]. rewrite EA in Hrun.
    destruct Hrun as (s & Er & Hr); [unfold receiver_ops; cbn [length]; rewrite length_map; lia|]. exists s. split; [exact Er|].
    rewrite (hr_acts _ _ Hr), El. by eapply frames_local.
Qed.
End link.

(** ** Runs *)

Definition demo_first : rsend := RSend (2 * 2 ^ 24 + 5) (2 ^ 24 + 8) 0 3 [104; 105].
Definition demo_second : rsend := RSend (2 * 2 ^ 24 + 6) (2 ^ 24 + 9) 1 (-1) [].
Definition demo_third : rsend := RSend (2 * 2 ^ 24 + 6) (2 ^ 24 + 99) 1 7 [].
Definition demo_stream : list Z :=
  [0; 0; 0; 14; 104; 105; 2; 0; 0; 5; 0; 0; 0; 8; 0; 0; 0; 3; 0; 0; 0; 12; 2; 0; 0; 6; 1; 0; 0; 9; 255; 255; 255; 255;
   0; 0; 0; 12; 2; 0; 0; 6; 1; 0; 0; 99; 0; 0; 0; 7].

(** [skynet_send] of a node without the service 99: what it returns to the last action. *)
Definition demo_alive (handle : Z) : bool := negb (handle =? 2 ^ 24 + 99).
Definition sending_runtime : HarborRuntime :=
  {| rt_send := λ l, match last l with Some (HSend _ dst _ sess _) => if demo_alive dst then sess else -1 | _ => 0 end |}.

(** Three messages, one before the connection, one before the answer and one after it; byte
    by byte.  The first arrives; the second arrives, but its session is negative; nobody has
    the handle of the third. *)
Lemma harbor_link_witness : ∃ s : hstate,
  @harbor_run sending_runtime 1 demo_slave (receiver_ops 2 true 11 (map (λ b, [b]) demo_stream)) = Ok ((), s) ∧
  local_sends (hacts s) = [HSend (2 * 2 ^ 24 + 5) (2 ^ 24 + 8) PTYPE_TAG_DONTCOPY 3 [104; 105];
                           HSend (2 * 2 ^ 24 + 6) (2 ^ 24 + 9) (Z.lor 1 PTYPE_TAG_DONTCOPY) (-1) [];
                           HSend (2 ^ 24 + 9) (2 * 2 ^ 24 + 6) PTYPE_ERROR (-1) [];
                           HSend (2 * 2 ^ 24 + 6) (2 ^ 24 + 99) (Z.lor 1 PTYPE_TAG_DONTCOPY) 7 [];
                           HSend (2 ^ 24 + 99) (2 * 2 ^ 24 + 6) PTYPE_ERROR 7 []].
Proof.
  assert (Hs : Forall (rsend_ok 1) ([demo_first] ++ [demo_second] ++ [demo_third])).
  { unfold demo_first, demo_second, demo_third. cbn [app]. repeat (apply Forall_cons_2; [|]); try constructor; cbn [op_of hop_ok];
      unfold u32_ok, INT_MIN, INT_MAX, UINT32_MAX, HEADER_COOKIE_LENGTH, small, HEADER_COOKIE_LENGTH;
      repeat split; try (cbn; lia); try done; repeat constructor; cbn; unfold byte; lia. }
  assert (Hrt : @sends_by sending_runtime demo_alive)
    by (intros l src dst type sess payload; cbn [rt_send sending_runtime]; by rewrite last_snoc).
  destruct (@harbor_link sending_runtime demo_alive 1 demo_slave 2 (2 * 2 ^ 24 + 7) false 11 12 [demo_first] [demo_second] [demo_third]
    Hrt ltac:(done) ltac:(done) ltac:(done) ltac:(done) ltac:(done) Hs ltac:(done)) as [_ H].
  exact (H (map (λ b, [b]) demo_stream) ltac:(unfold demo_stream; repeat constructor; done) ltac:(done) eq_refl).
Defined.

(** ** Corners *)

Definition acts_of (x : res (unit * hstate)) : list haction :=
  match x with Ok (_, s) => drop 2 (hacts s) | Fault _ => [] end.
Definition demo_run (l : list hop) : res (unit * hstate) := @harbor_run demo_runtime 1 demo_slave l.

(** A message that waits at a name, when the name is told before the connection is up, is
    written with handle 0 in its header. *)
Example moved_without_handle :
  acts_of (demo_run [OpSendName demo_rs (str "map") 0 5 [7]; OpName (str "map") (2 * 2 ^ 24 + 9); OpConnect true 11 2]) =
    [HSend 0 demo_slave PTYPE_TEXT 0 (str "Q map"); HSocketStart 11; HSocketSend 11 [1];
     HSocketSend 11 [0; 0; 0; 13; 7; 1; 0; 0; 20; 0; 0; 0; 0; 0; 0; 0; 5]; HFree [7]].
Proof. vm_compute. reflexivity. Qed.

(** When it is told while the other side has not answered, its message overtakes the earlier
    one that waits for the connection. *)
Example name_overtakes :
  acts_of (demo_run [OpSend demo_rs (2 * 2 ^ 24 + 9) 0 4 [6]; OpSendName demo_rs (str "map") 0 5 [7]; OpConnect false 11 2;
                     OpName (str "map") (2 * 2 ^ 24 + 9); OpData 11 [2]]) =
    [HSend 0 demo_slave PTYPE_TEXT 0 (str "Q map"); HSocketStart 11; HSocketSend 11 [1];
     HSocketSend 11 [0; 0; 0; 13; 7; 1; 0; 0; 20; 0; 0; 0; 9; 0; 0; 0; 5]; HFree [7];
     HSocketSend 11 [0; 0; 0; 13; 6; 1; 0; 0; 20; 0; 0; 0; 9; 0; 0; 0; 4]; HFree [6]; HFree [2]].
Proof. vm_compute. reflexivity. Qed.

(** A connection that has broken keeps its socket: messages are written to it, nobody is told
    that they are lost, and the node cannot be connected again. *)
Example broken_for_good :
  acts_of (demo_run [OpConnect false 11 2; OpData 11 [3]; OpSend demo_rs (2 * 2 ^ 24 + 9) 0 4 [6]; OpConnect true 12 2]) =
    [HSocketStart 11; HSocketSend 11 [1];
     HError (str "Invalid shakehand id (2) from fd = 11 , harbor = 3"); HSocketClose 11; HFree [3];
     HSocketSend 11 [0; 0; 0; 13; 6; 1; 0; 0; 20; 0; 0; 0; 9; 0; 0; 0; 4]; HFree [6];
     HError (str "Harbor 2 alreay exist")].
Proof. vm_compute. reflexivity. Qed.

(** A message of less than twelve bytes. *)
Example short_message : demo_run [OpConnect true 11 2; OpData 11 [0; 0; 0; 1; 7]] = Fault OutOfBounds.
Proof. vm_compute. reflexivity. Qed.

(** [S] alone: the length of the text is -1. *)
Example short_command s : harbor_command (str "S") 0 s = Fault OutOfBounds.
Proof. done. Qed.

(** The service tells the type of its own message, not that of the socket's. *)
Example unknown_event :
  acts_of ((_ ← harbor_init (harbor_args 1 demo_slave);
            _ ← @mainloop demo_runtime PTYPE_SOCKET 0 0 (HSocket (GateEvent 9 11 0 [] [])); mret tt) (HState harbor_create [])) =
    [HError (str "recv invalid socket message type 6")].
Proof. vm_compute. reflexivity. Qed.

(** What waits for a node that was never connected is not freed at the end. *)
Example release_leaks :
  acts_of ((_ ← harbor_init (harbor_args 1 demo_slave);
            _ ← @run_hops demo_runtime [OpSend demo_rs (2 * 2 ^ 24 + 9) 0 4 [6]; OpSendName demo_rs (str "map") 0 5 [7]];
            harbor_release) (HState harbor_create [])) =
    [HSend 0 demo_slave PTYPE_TEXT 0 (str "Q map"); HFree [7]].
Proof. vm_compute. reflexivity. Qed.
