(* ===== verification/Crypt.v ===== *)
(** [lualib-src/lua-crypt.c] and [src/lualib/crypt.c]: the functions a login server uses.

    DES in blocks of eight bytes, a hash, hexadecimal and base 64, MD5 without its framing as
    a keyed hash, the Diffie-Hellman exchange modulo the largest 64 bit prime, base 36.

    A Lua string is a list of bytes.  [luaL_error] leaves the function with a message: the
    result is [inl] of it; what C leaves undefined is a [Fault]. *)

From S2P Require Import Prelude CString Frames Gate.
Open Scope Z_scope.

(** ** Words and results *)

Definition shl (x k : Z) : Z := u32 (Z.shiftl x k).
Definition shr (x k : Z) : Z := Z.shiftr x k.
Definition not32 (x : Z) : Z := Z.lxor x 0xffffffff.

(** What a Lua function returns: an error or its result. *)
Notation luaR A := (res (cstring + A)).
Definition luaL_error {A} (msg : cstring) : res (cstring + A) := Ok (inl msg).
Definition lua_ret {A} (a : A) : res (cstring + A) := Ok (inr a).
Definition lbind {A B} (m : luaR A) (k : A → luaR B) : luaR B :=
  match m with Ok (inl msg) => Ok (inl msg) | Ok (inr a) => k a | Fault f => Fault f end.

Definition SMALL_CHUNK : Z := 256.

(** A buffer on the stack for small results and a userdata for the others. *)
Definition chunk (sz : Z) : buffer := replicate (Z.to_nat (if sz >? SMALL_CHUNK then sz else SMALL_CHUNK)) None.

(** ** DES *)

Definition SB1 : list Z :=
  [0x01010400; 0x00000000; 0x00010000; 0x01010404; 0x01010004; 0x00010404; 0x00000004; 0x00010000;
   0x00000400; 0x01010400; 0x01010404; 0x00000400; 0x01000404; 0x01010004; 0x01000000; 0x00000004;
   0x00000404; 0x01000400; 0x01000400; 0x00010400; 0x00010400; 0x01010000; 0x01010000; 0x01000404;
   0x00010004; 0x01000004; 0x01000004; 0x00010004; 0x00000000; 0x00000404; 0x00010404; 0x01000000;
   0x00010000; 0x01010404; 0x00000004; 0x01010000; 0x01010400; 0x01000000; 0x01000000; 0x00000400;
   0x01010004; 0x00010000; 0x00010400; 0x01000004; 0x00000400; 0x00000004; 0x01000404; 0x00010404;
   0x01010404; 0x00010004; 0x01010000; 0x01000404; 0x01000004; 0x00000404; 0x00010404; 0x01010400;
   0x00000404; 0x01000400; 0x01000400; 0x00000000; 0x00010004; 0x00010400; 0x00000000; 0x01010004].

Definition SB2 : list Z :=
  [0x80108020; 0x80008000; 0x00008000; 0x00108020; 0x00100000; 0x00000020; 0x80100020; 0x80008020;
   0x80000020; 0x80108020; 0x80108000; 0x80000000; 0x80008000; 0x00100000; 0x00000020; 0x80100020;
   0x00108000; 0x00100020; 0x80008020; 0x00000000; 0x80000000; 0x00008000; 0x00108020; 0x80100000;
   0x00100020; 0x80000020; 0x00000000; 0x00108000; 0x00008020; 0x80108000; 0x80100000; 0x00008020;
   0x00000000; 0x00108020; 0x80100020; 0x00100000; 0x80008020; 0x80100000; 0x80108000; 0x00008000;
   0x80100000; 0x80008000; 0x00000020; 0x80108020; 0x00108020; 0x00000020; 0x00008000; 0x80000000;
   0x00008020; 0x80108000; 0x00100000; 0x80000020; 0x00100020; 0x80008020; 0x80000020; 0x00100020;
   0x00108000; 0x00000000; 0x80008000; 0x00008020; 0x80000000; 0x80100020; 0x80108020; 0x00108000].

Definition SB3 : list Z :=
  [0x00000208; 0x08020200; 0x00000000; 0x08020008; 0x08000200; 0x00000000; 0x00020208; 0x08000200;
   0x00020008; 0x08000008; 0x08000008; 0x00020000; 0x08020208; 0x00020008; 0x08020000; 0x00000208;
   0x08000000; 0x00000008; 0x08020200; 0x00000200; 0x00020200; 0x08020000; 0x08020008; 0x00020208;
   0x08000208; 0x00020200; 0x00020000; 0x08000208; 0x00000008; 0x08020208; 0x00000200; 0x08000000;
   0x08020200; 0x08000000; 0x00020008; 0x00000208; 0x00020000; 0x08020200; 0x08000200; 0x00000000;
   0x00000200; 0x00020008; 0x08020208; 0x08000200; 0x08000008; 0x00000200; 0x00000000; 0x08020008;
   0x08000208; 0x00020000; 0x08000000; 0x08020208; 0x00000008; 0x00020208; 0x00020200; 0x08000008;
   0x08020000; 0x08000208; 0x00000208; 0x08020000; 0x00020208; 0x00000008; 0x08020008; 0x00020200].

Definition SB4 : list Z :=
  [0x00802001; 0x00002081; 0x00002081; 0x00000080; 0x00802080; 0x00800081; 0x00800001; 0x00002001;
   0x00000000; 0x00802000; 0x00802000; 0x00802081; 0x00000081; 0x00000000; 0x00800080; 0x00800001;
   0x00000001; 0x00002000; 0x00800000; 0x00802001; 0x00000080; 0x00800000; 0x00002001; 0x00002080;
   0x00800081; 0x00000001; 0x00002080; 0x00800080; 0x00002000; 0x00802080; 0x00802081; 0x00000081;
   0x00800080; 0x00800001; 0x00802000; 0x00802081; 0x00000081; 0x00000000; 0x00000000; 0x00802000;
   0x00002080; 0x00800080; 0x00800081; 0x00000001; 0x00802001; 0x00002081; 0x00002081; 0x00000080;
   0x00802081; 0x00000081; 0x00000001; 0x00002000; 0x00800001; 0x00002001; 0x00802080; 0x00800081;
   0x00002001; 0x00002080; 0x00800000; 0x00802001; 0x00000080; 0x00800000; 0x00002000; 0x00802080].

Definition SB5 : list Z :=
  [0x00000100; 0x02080100; 0x02080000; 0x42000100; 0x00080000; 0x00000100; 0x40000000; 0x02080000;
   0x40080100; 0x00080000; 0x02000100; 0x40080100; 0x42000100; 0x42080000; 0x00080100; 0x40000000;
   0x02000000; 0x40080000; 0x40080000; 0x00000000; 0x40000100; 0x42080100; 0x42080100; 0x02000100;
   0x42080000; 0x40000100; 0x00000000; 0x42000000; 0x02080100; 0x02000000; 0x42000000; 0x00080100;
   0x00080000; 0x42000100; 0x00000100; 0x02000000; 0x40000000; 0x02080000; 0x42000100; 0x40080100;
   0x02000100; 0x40000000; 0x42080000; 0x02080100; 0x40080100; 0x00000100; 0x02000000; 0x42080000;
   0x42080100; 0x00080100; 0x42000000; 0x42080100; 0x02080000; 0x00000000; 0x40080000; 0x42000000;
   0x00080100; 0x02000100; 0x40000100; 0x00080000; 0x00000000; 0x40080000; 0x02080100; 0x40000100].

Definition SB6 : list Z :=
  [0x20000010; 0x20400000; 0x00004000; 0x20404010; 0x20400000; 0x00000010; 0x20404010; 0x00400000;
   0x20004000; 0x00404010; 0x00400000; 0x20000010; 0x00400010; 0x20004000; 0x20000000; 0x00004010;
   0x00000000; 0x00400010; 0x20004010; 0x00004000; 0x00404000; 0x20004010; 0x00000010; 0x20400010;
   0x20400010; 0x00000000; 0x00404010; 0x20404000; 0x00004010; 0x00404000; 0x20404000; 0x20000000;
   0x20004000; 0x00000010; 0x20400010; 0x00404000; 0x20404010; 0x00400000; 0x00004010; 0x20000010;
   0x00400000; 0x20004000; 0x20000000; 0x00004010; 0x20000010; 0x20404010; 0x00404000; 0x20400000;
   0x00404010; 0x20404000; 0x00000000; 0x20400010; 0x00000010; 0x00004000; 0x20400000; 0x00404010;
   0x00004000; 0x00400010; 0x20004010; 0x00000000; 0x20404000; 0x20000000; 0x00400010; 0x20004010].

Definition SB7 : list Z :=
  [0x00200000; 0x04200002; 0x04000802; 0x00000000; 0x00000800; 0x04000802; 0x00200802; 0x04200800;
   0x04200802; 0x00200000; 0x00000000; 0x04000002; 0x00000002; 0x04000000; 0x04200002; 0x00000802;
   0x04000800; 0x00200802; 0x00200002; 0x04000800; 0x04000002; 0x04200000; 0x04200800; 0x00200002;
   0x04200000; 0x00000800; 0x00000802; 0x04200802; 0x00200800; 0x00000002; 0x04000000; 0x00200800;
   0x04000000; 0x00200800; 0x00200000; 0x04000802; 0x04000802; 0x04200002; 0x04200002; 0x00000002;
   0x00200002; 0x04000000; 0x04000800; 0x00200000; 0x04200800; 0x00000802; 0x00200802; 0x04200800;
   0x00000802; 0x04000002; 0x04200802; 0x04200000; 0x00200800; 0x00000000; 0x00000002; 0x04200802;
   0x00000000; 0x00200802; 0x04200000; 0x00000800; 0x04000002; 0x04000800; 0x00000800; 0x00200002].

Definition SB8 : list Z :=
  [0x10001040; 0x00001000; 0x00040000; 0x10041040; 0x10000000; 0x10001040; 0x00000040; 0x10000000;
   0x00040040; 0x10040000; 0x10041040; 0x00041000; 0x10041000; 0x00041040; 0x00001000; 0x00000040;
   0x10040000; 0x10000040; 0x10001000; 0x00001040; 0x00041000; 0x00040040; 0x10040040; 0x10041000;
   0x00001040; 0x00000000; 0x00000000; 0x10040040; 0x10000040; 0x10001000; 0x00041040; 0x00040000;
   0x00041040; 0x00040000; 0x10041000; 0x00001000; 0x00000040; 0x10040040; 0x00001000; 0x00041040;
   0x10001000; 0x00000040; 0x10000040; 0x10040000; 0x10040040; 0x10000000; 0x00040000; 0x10001040;
   0x00000000; 0x10041040; 0x00040040; 0x10000040; 0x10040000; 0x10001000; 0x10001040; 0x00000000;
   0x10041040; 0x00041000; 0x00041000; 0x00001040; 0x00001040; 0x00040040; 0x10000000; 0x10041000].

Definition LHs : list Z :=
  [0x00000000; 0x00000001; 0x00000100; 0x00000101; 0x00010000; 0x00010001; 0x00010100; 0x00010101;
   0x01000000; 0x01000001; 0x01000100; 0x01000101; 0x01010000; 0x01010001; 0x01010100; 0x01010101].

Definition RHs : list Z :=
  [0x00000000; 0x01000000; 0x00010000; 0x01010000; 0x00000100; 0x01000100; 0x00010100; 0x01010100;
   0x00000001; 0x01000001; 0x00010001; 0x01010001; 0x00000101; 0x01000101; 0x00010101; 0x01010101].

Definition GET_UINT32 (b : list Z) (i : Z) : res Z :=
  b0 ← rd b i;
  b1 ← rd b (i + 1);
  b2 ← rd b (i + 2);
  b3 ← rd b (i + 3);
  Ok (Z.lor (Z.lor (Z.lor (shl b0 24) (shl b1 16)) (shl b2 8)) b3).

Definition PUT_UINT32 (n : Z) : list Z := [u8 (shr n 24); u8 (shr n 16); u8 (shr n 8); u8 n].

(** [T = ((X >> k) ^ Y) & m; Y ^= T; X ^= (T << k)] *)
Definition exchange_bits (k m : Z) (p : Z * Z) : Z * Z :=
  let '(X, Y) := p in
  let T := Z.land (Z.lxor (shr X k) Y) m in
  (Z.lxor X (shl T k), Z.lxor Y T).

Definition flip (p : Z * Z) : Z * Z := (p.2, p.1).

(** [X = ((X << k) | (X >> (32 - k))) & 0xFFFFFFFF] *)
Definition rotate (k X : Z) : Z := Z.land (Z.lor (shl X k) (shr X (32 - k))) 0xffffffff.

(** [T = (X ^ Y) & 0xAAAAAAAA; Y ^= T; X ^= T] *)
Definition exchange_odd (p : Z * Z) : Z * Z :=
  let '(X, Y) := p in
  let T := Z.land (Z.lxor X Y) 0xAAAAAAAA in
  (Z.lxor X T, Z.lxor Y T).

Definition DES_IP (p : Z * Z) : Z * Z :=
  let p := exchange_bits 4 0x0F0F0F0F p in
  let p := exchange_bits 16 0x0000FFFF p in
  let p := flip (exchange_bits 2 0x33333333 (flip p)) in
  let p := flip (exchange_bits 8 0x00FF00FF (flip p)) in
  let p := (p.1, rotate 1 p.2) in
  let p := exchange_odd p in
  (rotate 1 p.1, p.2).

Definition DES_FP (p : Z * Z) : Z * Z :=
  let p := (rotate 31 p.1, p.2) in
  let p := exchange_odd p in
  let p := (p.1, rotate 31 p.2) in
  let p := flip (exchange_bits 8 0x00FF00FF (flip p)) in
  let p := flip (exchange_bits 2 0x33333333 (flip p)) in
  let p := exchange_bits 16 0x0000FFFF p in
  exchange_bits 4 0x0F0F0F0F p.

(** [SB8[T & 0x3F] ^ SB6[(T >> 8) & 0x3F] ^ SB4[(T >> 16) & 0x3F] ^ SB2[(T >> 24) & 0x3F]] *)
Definition boxes (A B C D : list Z) (T : Z) : res Z :=
  a ← rd A (Z.land T 0x3f);
  b ← rd B (Z.land (shr T 8) 0x3f);
  c ← rd C (Z.land (shr T 16) 0x3f);
  d ← rd D (Z.land (shr T 24) 0x3f);
  Ok (Z.lxor (Z.lxor (Z.lxor a b) c) d).

(** The new [Y]; [sk] is where [SK] points. *)
Definition DES_ROUND (SK : list Z) (sk X Y : Z) : res Z :=
  k ← rd SK sk;
  v ← boxes SB8 SB6 SB4 SB2 (Z.lxor k X);
  let Y := Z.lxor Y v in
  k ← rd SK (sk + 1);
  v ← boxes SB7 SB5 SB3 SB1 (Z.lxor k (Z.lor (shl X 28) (shr X 4)));
  Ok (Z.lxor Y v).

Definition ors (l : list Z) : Z := foldl Z.lor 0 l.

Definition subkey0 (X Y : Z) : Z :=
  ors [Z.land (shl X 4) 0x24000000; Z.land (shl X 28) 0x10000000;
       Z.land (shl X 14) 0x08000000; Z.land (shl X 18) 0x02080000;
       Z.land (shl X 6) 0x01000000; Z.land (shl X 9) 0x00200000;
       Z.land (shr X 1) 0x00100000; Z.land (shl X 10) 0x00040000;
       Z.land (shl X 2) 0x00020000; Z.land (shr X 10) 0x00010000;
       Z.land (shr Y 13) 0x00002000; Z.land (shr Y 4) 0x00001000;
       Z.land (shl Y 6) 0x00000800; Z.land (shr Y 1) 0x00000400;
       Z.land (shr Y 14) 0x00000200; Z.land Y 0x00000100;
       Z.land (shr Y 5) 0x00000020; Z.land (shr Y 10) 0x00000010;
       Z.land (shr Y 3) 0x00000008; Z.land (shr Y 18) 0x00000004;
       Z.land (shr Y 26) 0x00000002; Z.land (shr Y 24) 0x00000001].

Definition subkey1 (X Y : Z) : Z :=
  ors [Z.land (shl X 15) 0x20000000; Z.land (shl X 17) 0x10000000;
       Z.land (shl X 10) 0x08000000; Z.land (shl X 22) 0x04000000;
       Z.land (shr X 2) 0x02000000; Z.land (shl X 1) 0x01000000;
       Z.land (shl X 16) 0x00200000; Z.land (shl X 11) 0x00100000;
       Z.land (shl X 3) 0x00080000; Z.land (shr X 6) 0x00040000;
       Z.land (shl X 15) 0x00020000; Z.land (shr X 4) 0x00010000;
       Z.land (shr Y 2) 0x00002000; Z.land (shl Y 8) 0x00001000;
       Z.land (shr Y 14) 0x00000808; Z.land (shr Y 9) 0x00000400;
       Z.land Y 0x00000200; Z.land (shl Y 7) 0x00000100;
       Z.land (shr Y 7) 0x00000020; Z.land (shr Y 3) 0x00000011;
       Z.land (shl Y 2) 0x00000004; Z.land (shr Y 21) 0x00000002].

(** [X = ((X << n) | (X >> (28 - n))) & 0x0FFFFFFF] *)
Definition rotate28 (n X : Z) : Z := Z.land (Z.lor (shl X n) (shr X (28 - n))) 0x0FFFFFFF.

Definition ks_round (i : Z) (s : list Z * Z * Z) : res (list Z * Z * Z) :=
  let '(SK, X, Y) := s in
  let n := if (i <? 2) || (i =? 8) || (i =? 15) then 1 else 2 in
  let X := rotate28 n X in
  let Y := rotate28 n Y in
  SK ← wr SK (2 * i) (subkey0 X Y);
  SK ← wr SK (2 * i + 1) (subkey1 X Y);
  Ok (SK, X, Y).

(** [(S[(X >> s) & 0xF] << k) | ...] for the eight pairs of shifts. *)
Definition halves (S : list Z) (X : Z) (l : list (Z * Z)) : res Z :=
  l ← mapM (λ '(s, k), v ← rd S (Z.land (shr X s) 0xf); Ok (shl v k)) l;
  Ok (ors l).

Definition des_main_ks (key : list Z) : res (list Z) :=
  X ← GET_UINT32 key 0;
  Y ← GET_UINT32 key 4;
  let p := flip (exchange_bits 4 0x0F0F0F0F (flip (X, Y))) in
  let p := flip (exchange_bits 0 0x10101010 (flip p)) in
  X ← halves LHs p.1 [(0, 3); (8, 2); (16, 1); (24, 0); (5, 7); (13, 6); (21, 5); (29, 4)];
  Y ← halves RHs p.2 [(1, 3); (9, 2); (17, 1); (25, 0); (4, 7); (12, 6); (20, 5); (28, 4)];
  '(SK, _, _) ← for_range 16 0 ks_round (replicate 32 0, Z.land X 0x0FFFFFFF, Z.land Y 0x0FFFFFFF);
  Ok SK.

(** [DES_ROUND( Y, X ); DES_ROUND( X, Y );] eight times *)
Definition two_rounds (SK : list Z) (i : Z) (p : Z * Z) : res (Z * Z) :=
  X ← DES_ROUND SK (4 * i) p.2 p.1;
  Y ← DES_ROUND SK (4 * i + 2) X p.2;
  Ok (X, Y).

Definition des_crypt (SK input : list Z) : res (list Z) :=
  X ← GET_UINT32 input 0;
  Y ← GET_UINT32 input 4;
  p ← for_range 8 0 (two_rounds SK) (DES_IP (X, Y));
  let p := DES_FP (flip p) in
  Ok (PUT_UINT32 p.1 ++ PUT_UINT32 p.2).

(** [des_key]: the subkeys of argument 1. *)
Definition des_key (key : list Z) : luaR (list Z) :=
  if negb (Z.of_nat (length key) =? 8) then
    luaL_error (str "Invalid key size " ++ print_d (i32 (Z.of_nat (length key))) ++ str ", need 8 bytes")
  else SK ← des_main_ks key; lua_ret SK.

(** [des_crypt(SK, text+i, buffer+i)] *)
Definition crypt_at (SK text : list Z) (i : Z) (buffer : buffer) : res Frames.buffer :=
  block ← rd_at text i 8;
  out ← des_crypt SK block;
  wr_at buffer i out.

Definition encode_round (SK text : list Z) (s : Z * buffer) : res (loop (Z * buffer) (Z * buffer)) :=
  let '(i, buffer) := s in
  if i <? i32 (Z.of_nat (length text)) - 7 then
    buffer ← crypt_at SK text i buffer;
    Ok (Continue (i + 8, buffer))
  else Ok (Break (i, buffer)).

(** The last block: what is left, 0x80 and zeros. *)
Definition tail_block (text : list Z) (i : Z) : res (list Z) :=
  let bytes := i32 (Z.of_nat (length text) - i) in
  mapM (λ j, if j <? bytes then rd text (i + j) else if j =? bytes then Ok 0x80 else Ok 0) [0; 1; 2; 3; 4; 5; 6; 7].

Definition ldesencode (key text : list Z) : luaR (list Z) :=
  lbind (des_key key) (λ SK,
    let textsz := Z.of_nat (length text) in
    let chunksz := Z.land (textsz + 8) (Z.lnot 7) in
    '(i, buffer) ← iterate (S (length text)) (encode_round SK text) (0, chunk chunksz);
    tail ← tail_block text i;
    out ← des_crypt SK tail;
    buffer ← wr_at buffer i out;
    out ← init_bytes buffer chunksz;
    lua_ret out).

Definition reverse_keys (ESK : list Z) : res (list Z) :=
  for_range 16 0 (λ j SK,
    a ← rd ESK (30 - 2 * j);
    b ← rd ESK (31 - 2 * j);
    SK ← wr SK (2 * j) a;
    wr SK (2 * j + 1) b) (replicate 32 0).

Definition decode_round (SK text : list Z) (s : Z * buffer) : res (loop (Z * buffer) buffer) :=
  let '(i, buffer) := s in
  if u64 i <? Z.of_nat (length text) then
    buffer ← crypt_at SK text i buffer;
    Ok (Continue (i + 8, buffer))
  else Ok (Break buffer).

(** The zeros at the end, and the 0x80 before them.  The index is an [int] and the bound a
    [size_t]: -1 is not below it. *)
Definition padding_round (buffer : buffer) (textsz : Z) (s : Z * Z) : res (loop (Z * Z) (option Z)) :=
  let '(i, padding) := s in
  if u64 i >=? u64 (textsz - 8) then
    b ← rd_init buffer i;
    if b =? 0 then Ok (Continue (i - 1, padding + 1))
    else if b =? 0x80 then Ok (Break (Some padding))
    else Ok (Break None)
  else Ok (Break (Some padding)).

Definition ldesdecode (key text : list Z) : luaR (list Z) :=
  lbind (des_key key) (λ ESK,
    SK ← reverse_keys ESK;
    let textsz := Z.of_nat (length text) in
    if negb (Z.land textsz 7 =? 0) || (textsz =? 0) then
      luaL_error (str "Invalid des crypt text length " ++ print_d (i32 textsz))
    else
      buffer ← iterate (S (length text)) (decode_round SK text) (0, chunk textsz);
      padding ← iterate 10 (padding_round buffer textsz) (i32 (textsz - 1), 1);
      match padding with
      | None => luaL_error (str "Invalid des crypt text")
      | Some padding =>
          if padding >? 8 then luaL_error (str "Invalid des crypt text")
          else out ← init_bytes buffer (textsz - padding); lua_ret out
      end).

(** [random() & 0xff] eight times; the exclusive or of all of them decides. *)
Definition lrandomkey (random : nat → Z) : list Z :=
  let tmp := map (λ i, Z.land (random i) 0xff) (seq 0 8) in
  let x := foldl Z.lxor 0 tmp in
  if x =? 0 then match tmp with b :: tmp => Z.lor b 1 :: tmp | [] => [] end else tmp.

(** ** Hashes *)

Definition hash_step (h : Z * Z) (c : Z) : Z * Z :=
  let '(djb, js) := h in
  (u32 (djb + (shl djb 5 + c)), Z.lxor js (u32 (shl js 5 + c + shr js 2))).

Definition word_bytes (n : Z) : list Z := [Z.land n 0xff; Z.land (shr n 8) 0xff; Z.land (shr n 16) 0xff; Z.land (shr n 24) 0xff].

Definition Hash (text : list Z) : list Z :=
  let '(djb, js) := foldl hash_step (5381, 1315423911) text in word_bytes djb ++ word_bytes js.

Definition lhashkey (key : list Z) : list Z := Hash key.

(** [x[0] | x[1]<<8 | x[2]<<16 | x[3]<<24] *)
Definition word_of (x : list Z) (i : Z) : res Z :=
  x0 ← rd x i;
  x1 ← rd x (i + 1);
  x2 ← rd x (i + 2);
  x3 ← rd x (i + 3);
  Ok (u32 (Z.lor (Z.lor (Z.lor x0 (Z.shiftl x1 8)) (Z.shiftl x2 16)) (i32 (Z.shiftl x3 24)))).

Definition LEFTROTATE (x c : Z) : Z := Z.lor (shl x c) (shr x (32 - c)).

Definition md5_k : list Z :=
  [0xd76aa478; 0xe8c7b756; 0x242070db; 0xc1bdceee; 0xf57c0faf; 0x4787c62a; 0xa8304613; 0xfd469501;
   0x698098d8; 0x8b44f7af; 0xffff5bb1; 0x895cd7be; 0x6b901122; 0xfd987193; 0xa679438e; 0x49b40821;
   0xf61e2562; 0xc040b340; 0x265e5a51; 0xe9b6c7aa; 0xd62f105d; 0x02441453; 0xd8a1e681; 0xe7d3fbc8;
   0x21e1cde6; 0xc33707d6; 0xf4d50d87; 0x455a14ed; 0xa9e3e905; 0xfcefa3f8; 0x676f02d9; 0x8d2a4c8a;
   0xfffa3942; 0x8771f681; 0x6d9d6122; 0xfde5380c; 0xa4beea44; 0x4bdecfa9; 0xf6bb4b60; 0xbebfbc70;
   0x289b7ec6; 0xeaa127fa; 0xd4ef3085; 0x04881d05; 0xd9d4d039; 0xe6db99e5; 0x1fa27cf8; 0xc4ac5665;
   0xf4292244; 0x432aff97; 0xab9423a7; 0xfc93a039; 0x655b59c3; 0x8f0ccc92; 0xffeff47d; 0x85845dd1;
   0x6fa87e4f; 0xfe2ce6e0; 0xa3014314; 0x4e0811a1; 0xf7537e82; 0xbd3af235; 0x2ad7d2bb; 0xeb86d391].

Definition md5_r : list Z :=
  [7; 12; 17; 22; 7; 12; 17; 22; 7; 12; 17; 22; 7; 12; 17; 22;
   5; 9; 14; 20; 5; 9; 14; 20; 5; 9; 14; 20; 5; 9; 14; 20;
   4; 11; 16; 23; 4; 11; 16; 23; 4; 11; 16; 23; 4; 11; 16; 23;
   6; 10; 15; 21; 6; 10; 15; 21; 6; 10; 15; 21; 6; 10; 15; 21].

Definition md5_round (w : list Z) (i : Z) (s : Z * Z * Z * Z) : res (Z * Z * Z * Z) :=
  let '(a, b, c, d) := s in
  let '(f, g) :=
    if i <? 16 then (Z.lor (Z.land b c) (Z.land (not32 b) d), i)
    else if i <? 32 then (Z.lor (Z.land d b) (Z.land (not32 d) c), (5 * i + 1) mod 16)
    else if i <? 48 then (Z.lxor (Z.lxor b c) d, (3 * i + 5) mod 16)
    else (Z.lxor c (Z.lor b (not32 d)), (7 * i) mod 16) in
  ki ← rd md5_k i;
  wg ← rd w g;
  ri ← rd md5_r i;
  Ok (d, u32 (b + LEFTROTATE (u32 (a + f + ki + wg)) ri), b, c).

Definition digest_md5 (w : list Z) : res (Z * Z * Z * Z) :=
  for_range 64 0 (md5_round w) (0x67452301, 0xefcdab89, 0x98badcfe, 0x10325476).

Definition hmac (x y : Z * Z) : res (Z * Z) :=
  let four := [x.2; x.1; y.2; y.1] in
  '(r0, r1, r2, r3) ← digest_md5 (four ++ four ++ four ++ four);
  Ok (Z.lxor r2 r3, Z.lxor r0 r1).

Definition hmac_md5 (x y : Z * Z) : res (Z * Z) :=
  let four := [x.1; x.2; y.1; y.2] in
  '(r0, r1, r2, r3) ← digest_md5 (four ++ four ++ four ++ [0x80; 0; 384; 0]);
  Ok (Z.lxor (u32 (r0 + 0x67452301)) (u32 (r2 + 0x98badcfe)), Z.lxor (u32 (r1 + 0xefcdab89)) (u32 (r3 + 0x10325476))).

Definition read64 (x y : list Z) : luaR ((Z * Z) * (Z * Z)) :=
  if negb (Z.of_nat (length x) =? 8) then luaL_error (str "Invalid uint64 x")
  else if negb (Z.of_nat (length y) =? 8) then luaL_error (str "Invalid uint64 y")
  else
    x0 ← word_of x 0;
    x1 ← word_of x 4;
    y0 ← word_of y 0;
    y1 ← word_of y 4;
    lua_ret ((x0, x1), (y0, y1)).

Definition pushqword (result : Z * Z) : list Z := word_bytes result.1 ++ word_bytes result.2.

Definition lhmac64 (x y : list Z) : luaR (list Z) :=
  lbind (read64 x y) (λ '(x, y), r ← hmac x y; lua_ret (pushqword r)).

Definition lhmac64_md5 (x y : list Z) : luaR (list Z) :=
  lbind (read64 x y) (λ '(x, y), r ← hmac_md5 x y; lua_ret (pushqword r)).

Definition lhmac_hash (x text : list Z) : luaR (list Z) :=
  if negb (Z.of_nat (length x) =? 8) then luaL_error (str "Invalid uint64 key")
  else
    k0 ← word_of x 0;
    k1 ← word_of x 4;
    let h := Hash text in
    h0 ← word_of h 0;
    h1 ← word_of h 4;
    r ← hmac (h0, h1) (k0, k1);
    lua_ret (pushqword r).

(** ** The key exchange *)

Definition P64 : Z := 0xffffffffffffffc5.
Definition G64 : Z := 5.

(** [while(b)]: [m], [a] and [b]. *)
Definition mul_round (s : Z * Z * Z) : res (loop (Z * Z * Z) Z) :=
  let '(m, a, b) := s in
  if b =? 0 then Ok (Break m)
  else
    let m :=
      if Z.land b 1 =? 0 then m
      else let t := u64 (P64 - a) in if m >=? t then u64 (m - t) else u64 (m + a) in
    let a := if a >=? u64 (P64 - a) then u64 (a * 2 - P64) else u64 (a * 2) in
    Ok (Continue (m, a, Z.shiftr b 1)).

(** A 64 bit number has 64 bits. *)
Definition mul_mod_p (a b : Z) : res Z := iterate 65 mul_round (0, a, b).

(** With an exponent of 0 it never returns. *)
Fixpoint pow_mod_p (fuel : nat) (a b : Z) : res Z :=
  match fuel with
  | O => Fault OutOfFuel
  | S fuel =>
      if b =? 1 then Ok a
      else
        t ← pow_mod_p fuel a (Z.shiftr b 1);
        t ← mul_mod_p t t;
        if negb (b mod 2 =? 0) then mul_mod_p t a else Ok t
  end.

Definition powmodp (a b : Z) : res Z := pow_mod_p 64 (if a >? P64 then a mod P64 else a) b.

Definition push64 (r : Z) : list Z := map (λ i, Z.land (Z.shiftr r (8 * i)) 0xff) [0; 1; 2; 3; 4; 5; 6; 7].

Definition word64 (x : Z * Z) : Z := Z.lor x.1 (u64 (Z.shiftl x.2 32)).

Definition ldhsecret (x y : list Z) : luaR (list Z) :=
  lbind (read64 x y) (λ '(x, y),
    let xx := word64 x in
    let yy := word64 y in
    if (xx =? 0) || (yy =? 0) then luaL_error (str "Can't be 0")
    else r ← powmodp xx yy; lua_ret (push64 r)).

Definition ldhexchange (x : list Z) : luaR (list Z) :=
  if negb (Z.of_nat (length x) =? 8) then luaL_error (str "Invalid dh uint64 key")
  else
    x0 ← word_of x 0;
    x1 ← word_of x 4;
    let x64 := word64 (x0, x1) in
    if x64 =? 0 then luaL_error (str "Can't be 0")
    else r ← powmodp G64 x64; lua_ret (push64 r).

(** ** Text *)

Definition hex_digits : list Z := str "0123456789abcdef".

Definition hex_round (text : list Z) (i : Z) (buffer : buffer) : res Frames.buffer :=
  c ← rd text i;
  hi ← rd hex_digits (Z.shiftr c 4);
  low ← rd hex_digits (Z.land c 0xf);
  buffer ← wr buffer (i * 2) (Some hi);
  wr buffer (i * 2 + 1) (Some low).

Definition ltohex (text : list Z) : luaR (list Z) :=
  let sz := Z.of_nat (length text) in
  buffer ← for_range (length text) 0 (hex_round text)
    (replicate (Z.to_nat (if sz >? SMALL_CHUNK / 2 then sz * 2 else SMALL_CHUNK)) None);
  out ← init_bytes buffer (sz * 2);
  lua_ret out.

Definition HEX (c : Z) : Z := if (c >=? 48) && (c <=? 57) then c - 48 else u8 (c - 97 + 10).

Definition unhex_round (text : list Z) (s : Z * buffer) : res (loop (Z * buffer) (option (Z * buffer))) :=
  let '(i, buffer) := s in
  if i <? Z.of_nat (length text) then
    a ← rd text i;
    b ← rd text (i + 1);
    let hi := HEX a in
    let low := HEX b in
    if (hi >? 16) || (low >? 16) then Ok (Break None)
    else
      buffer ← wr buffer (i / 2) (Some (u8 (Z.lor (Z.shiftl hi 4) low)));
      Ok (Continue (i + 2, buffer))
  else Ok (Break (Some (i, buffer))).

Definition lfromhex (text : list Z) : luaR (list Z) :=
  let sz := Z.of_nat (length text) in
  if negb (Z.land sz 1 =? 0) then luaL_error (str "Invalid hex text size " ++ print_d (i32 sz))
  else
    o ← iterate (S (length text)) (unhex_round text)
      (0, replicate (Z.to_nat (if sz >? SMALL_CHUNK * 2 then sz / 2 else SMALL_CHUNK)) None);
    match o with
    | None => luaL_error (str "Invalid hex text")
    | Some (i, buffer) => out ← init_bytes buffer (i / 2); lua_ret out
    end.

Definition encoding : list Z := str "ABCDEFGHIJKLMNOPQRSTUVWXYZabcdefghijklmnopqrstuvwxyz0123456789+/".

Definition b64_round (text : list Z) (s : Z * Z * buffer) : res (loop (Z * Z * buffer) (Z * Z * buffer)) :=
  let '(i, j, buffer) := s in
  if i <? i32 (Z.of_nat (length text)) - 2 then
    t0 ← rd text i;
    t1 ← rd text (i + 1);
    t2 ← rd text (i + 2);
    let v := Z.lor (Z.lor (Z.shiftl t0 16) (Z.shiftl t1 8)) t2 in
    c0 ← rd encoding (shr v 18);
    c1 ← rd encoding (Z.land (shr v 12) 0x3f);
    c2 ← rd encoding (Z.land (shr v 6) 0x3f);
    c3 ← rd encoding (Z.land v 0x3f);
    buffer ← wr_at buffer j [c0; c1; c2; c3];
    Ok (Continue (i + 3, j + 4, buffer))
  else Ok (Break s).

Definition b64_tail (text : list Z) (i j : Z) (buffer : buffer) : res Frames.buffer :=
  let padding := i32 (Z.of_nat (length text) - i) in
  if padding =? 1 then
    v ← rd text i;
    c0 ← rd encoding (shr v 2);
    c1 ← rd encoding (Z.shiftl (Z.land v 3) 4);
    wr_at buffer j [c0; c1; 61; 61]
  else if padding =? 2 then
    t0 ← rd text i;
    t1 ← rd text (i + 1);
    let v := Z.lor (Z.shiftl t0 8) t1 in
    c0 ← rd encoding (shr v 10);
    c1 ← rd encoding (Z.land (shr v 4) 0x3f);
    c2 ← rd encoding (Z.shiftl (Z.land v 0xf) 2);
    wr_at buffer j [c0; c1; c2; 61]
  else Ok buffer.

Definition lb64encode (text : list Z) : luaR (list Z) :=
  let sz := Z.of_nat (length text) in
  let encode_sz := i32 ((sz + 2) / 3 * 4) in
  '(i, j, buffer) ← iterate (S (length text)) (b64_round text) (0, 0, chunk encode_sz);
  buffer ← b64_tail text i j buffer;
  out ← init_bytes buffer encode_sz;
  lua_ret out.

Definition decoding : list Z :=
  [62; -1; -1; -1; 63; 52; 53; 54; 55; 56; 57; 58; 59; 60; 61; -1; -1; -1; -2; -1; -1; -1; 0; 1; 2; 3; 4; 5; 6; 7; 8; 9; 10;
   11; 12; 13; 14; 15; 16; 17; 18; 19; 20; 21; 22; 23; 24; 25; -1; -1; -1; -1; -1; -1; 26; 27; 28; 29; 30; 31; 32; 33; 34;
   35; 36; 37; 38; 39; 40; 41; 42; 43; 44; 45; 46; 47; 48; 49; 50; 51].

Definition b64index (c : Z) : res Z :=
  if c <? 43 then Ok (-1)
  else if c - 43 >=? Z.of_nat (length decoding) then Ok (-1)
  else rd decoding (c - 43).

(** Four characters, those that are not in the alphabet left out: [None] when the text ends
    before. *)
Fixpoint four (fuel : nat) (text : list Z) (i : Z) (c : list Z) : res (option (Z * list Z)) :=
  if (length c =? 4)%nat then Ok (Some (i, c))
  else
    match fuel with
    | O => Fault OutOfFuel
    | S fuel =>
        if i >=? Z.of_nat (length text) then Ok None
        else
          x ← rd text i;
          v ← b64index x;
          if v =? -1 then four fuel text (i + 1) c else four fuel text (i + 1) (c ++ [v])
    end.

(** The bytes of four characters; [None] is the error. *)
Definition quad (c : list Z) : option (list Z) :=
  match c with
  | [c0; c1; c2; c3] =>
      let padding := length (filter (λ x, x = -2) c) in
      if (padding =? 0)%nat then
        let v := Z.lor (Z.lor (Z.lor (shl (u32 c0) 18) (Z.shiftl c1 12)) (Z.shiftl c2 6)) c3 in
        Some [u8 (shr v 16); Z.land (shr v 8) 0xff; Z.land v 0xff]
      else if (padding =? 1)%nat then
        if negb (c3 =? -2) || negb (Z.land c2 3 =? 0) then None
        else let v := Z.lor (Z.lor (shl (u32 c0) 10) (Z.shiftl c1 4)) (Z.shiftr c2 2) in Some [u8 (shr v 8); Z.land v 0xff]
      else if (padding =? 2)%nat then
        if negb (c3 =? -2) || negb (c2 =? -2) || negb (Z.land c1 0xf =? 0) then None
        else let v := Z.lor (shl (u32 c0) 2) (Z.shiftr c1 4) in Some [u8 v]
      else None
  | _ => None
  end.

Definition unb64_round (text : list Z) (s : Z * Z * buffer) : res (loop (Z * Z * buffer) (option (Z * buffer))) :=
  let '(i, output, buffer) := s in
  if i <? Z.of_nat (length text) then
    o ← four (S (length text)) text i [];
    match o with
    | None => Ok (Break None)
    | Some (i, c) =>
        match quad c with
        | None => Ok (Break None)
        | Some l =>
            buffer ← wr_at buffer output l;
            Ok (Continue (i, output + Z.of_nat (length l), buffer))
        end
    end
  else Ok (Break (Some (output, buffer))).

Definition lb64decode (text : list Z) : luaR (list Z) :=
  let sz := Z.of_nat (length text) in
  let decode_sz := i32 ((sz + 3) / 4 * 3) in
  o ← iterate (S (length text)) (unb64_round text) (0, 0, chunk decode_sz);
  match o with
  | None => luaL_error (str "Invalid base64 text")
  | Some (output, buffer) => out ← init_bytes buffer output; lua_ret out
  end.

Definition lxor_str (s1 s2 : list Z) : luaR (list Z) :=
  if (length s2 =? 0)%nat then luaL_error (str "Can't xor empty string")
  else
    out ← mapM (λ i, a ← rd s1 i; b ← rd s2 (i mod Z.of_nat (length s2)); Ok (Z.lxor a b)) (seqZ 0 (Z.of_nat (length s1)));
    lua_ret out.

(** ** Base 36, of [src/lualib/crypt.c] *)

Definition base36 : list Z := str "0123456789ABCDEFGHIJKLMNOPQRSTUVWXYZ".

(** [do buffer[--offset] = base36[n % 36]; while (n /= 36);] *)
Definition base36_round (s : Z * Z * buffer) : res (loop (Z * Z * buffer) (Z * buffer)) :=
  let '(n, offset, buffer) := s in
  c ← rd base36 (n mod 36);
  buffer ← wr buffer (offset - 1) (Some c);
  let n := n / 36 in
  if n =? 0 then Ok (Break (offset - 1, buffer)) else Ok (Continue (n, offset - 1, buffer)).

(** The argument is the number as an [unsigned long]; the string starts at [offset]. *)
Definition lbase36enc (n : Z) : res (list Z) :=
  let sz := 14 in
  buffer ← wr (replicate (Z.to_nat sz) None) (sz - 1) (Some 0);
  '(offset, buffer) ← iterate 14 base36_round (n, sz - 1, buffer);
  mapM (or_fault Uninitialised) (drop (Z.to_nat offset) (take (Z.to_nat (sz - 1)) buffer)).

(** [strtoul] of the characters before a zero, as a [lua_Integer]. *)
Definition lbase36dec (s : list Z) : luaR Z :=
  if (length s =? 0)%nat then luaL_error (str "Can't base36 decode empty string")
  else
    text ← or_fault OutOfBounds (c_string (s ++ [0]));
    lua_ret (i64 (strtoul text 36)).
