(* ===== verification/CryptDes.v ===== *)
(** DES is a permutation: decoding undoes encoding. *)

From S2P Require Import Prelude CString Frames Gate GateProps Crypt.
Open Scope Z_scope.

(** ** Words *)

Definition word32 (x : Z) : Prop := 0 ≤ x < 2 ^ 32.

Lemma word_land x : word32 x ↔ Z.land x (Z.ones 32) = x.
Proof.
  unfold word32. rewrite Z.land_ones by lia. split; [by apply Z.mod_small|]. intros E. pose proof (Z.mod_pos_bound x (2 ^ 32)). lia.
Qed.

Lemma land_lxor_distr a b m : Z.land (Z.lxor a b) m = Z.lxor (Z.land a m) (Z.land b m).
Proof. apply Z.bits_inj'. intros n _. rewrite !Z.lxor_spec, !Z.land_spec, Z.lxor_spec. by destruct (Z.testbit a n), (Z.testbit b n), (Z.testbit m n). Qed.

Lemma word_lxor a b : word32 a → word32 b → word32 (Z.lxor a b).
Proof. rewrite !word_land. intros Ha Hb. by rewrite land_lxor_distr, Ha, Hb. Qed.

Lemma word_lor a b : word32 a → word32 b → word32 (Z.lor a b).
Proof. rewrite !word_land. intros Ha Hb. by rewrite Z.land_lor_distr_l, Ha, Hb. Qed.

Lemma word_land_r a m : word32 m → word32 (Z.land a m).
Proof. rewrite !word_land. intros Hm. by rewrite <- Z.land_assoc, Hm. Qed.

Lemma word_shl x k : word32 (shl x k).
Proof. apply u32_range. Qed.

Lemma word_shr x k : 0 ≤ k → word32 x → word32 (shr x k).
Proof.
  unfold word32, shr. intros Hk Hx. rewrite Z.shiftr_div_pow2 by done. split; [apply Z.div_pos; lia|].
  apply Z.div_lt_upper_bound; [lia|]. assert (0 < 2 ^ k) by lia. nia.
Qed.

#[export] Hint Resolve word_lxor word_lor word_shl word_shr : crypt.

Lemma lxor_cancel a b : Z.lxor (Z.lxor a b) b = a.
Proof. by rewrite Z.lxor_assoc, Z.lxor_nilpotent, Z.lxor_0_r. Qed.

Lemma land_mask_bound a m : 0 ≤ m → 0 ≤ Z.land a m ≤ m.
Proof.
  intros Hm. split; [apply Z.land_nonneg; by right|]. apply Z.ldiff_le; [done|]. apply Z.bits_inj'. intros n Hn.
  rewrite Z.ldiff_spec, Z.land_spec, Z.bits_0. by destruct (Z.testbit a n), (Z.testbit m n).
Qed.

(** ** The permutations *)

Definition words (p : Z * Z) : Prop := word32 p.1 ∧ word32 p.2.

Lemma exchange_bits_words k m p : 0 ≤ m < 2 ^ 32 → words p → words (exchange_bits k m p).
Proof. destruct p as [X Y]. intros Hm [HX HY]. split; cbn; auto using word_land_r with crypt. Qed.

Lemma exchange_bits_inv k m p : 0 ≤ k → 0 ≤ m → m * 2 ^ k < 2 ^ 32 → exchange_bits k m (exchange_bits k m p) = p.
Proof.
  intros Hk Hm Hmk. destruct p as [X Y]. cbn. set (T := Z.land (Z.lxor (shr X k) Y) m).
  assert (HT : 0 ≤ T ≤ m) by (by apply land_mask_bound).
  assert (Es : shl T k = Z.shiftl T k).
  { unfold shl. apply u32_small. rewrite Z.shiftl_mul_pow2 by done. assert (0 < 2 ^ k) by lia. nia. }
  assert (ET : Z.land (Z.lxor (shr (Z.lxor X (shl T k)) k) (Z.lxor Y T)) m = T).
  { rewrite Es. unfold shr. rewrite Z.shiftr_lxor, Z.shiftr_shiftl_l, Z.sub_diag, Z.shiftl_0_r by lia. fold (shr X k). unfold T at 3.
    f_equal. apply Z.bits_inj'. intros n _. rewrite !Z.lxor_spec.
    by destruct (Z.testbit (shr X k) n), (Z.testbit T n), (Z.testbit Y n). }
  rewrite ET. by rewrite !lxor_cancel.
Qed.

Lemma exchange_odd_words p : words p → words (exchange_odd p).
Proof. destruct p as [X Y]. intros [HX HY]. split; cbn; apply word_lxor; try done; apply word_land_r; done. Qed.

Lemma exchange_odd_inv p : exchange_odd (exchange_odd p) = p.
Proof.
  destruct p as [X Y]. unfold exchange_odd. set (T := Z.land (Z.lxor X Y) 0xAAAAAAAA).
  assert (E : Z.lxor (Z.lxor X T) (Z.lxor Y T) = Z.lxor X Y).
  { apply Z.bits_inj'. intros n _. rewrite !Z.lxor_spec. by destruct (Z.testbit X n), (Z.testbit T n), (Z.testbit Y n). }
  rewrite E. fold T. by rewrite !lxor_cancel.
Qed.

Lemma rotate_words k X : word32 (rotate k X).
Proof. by apply word_land_r. Qed.

(** A rotation as arithmetic. *)
Lemma rotate_value k X : 0 < k < 32 → word32 X → rotate k X = X mod 2 ^ (32 - k) * 2 ^ k + X / 2 ^ (32 - k).
Proof.
  intros Hk HX. unfold rotate. change 0xffffffff with (Z.ones 32). unfold word32 in HX.
  assert (Hpow : 2 ^ 32 = 2 ^ (32 - k) * 2 ^ k) by (rewrite <- Z.pow_add_r by lia; f_equal; lia).
  assert (Epos1 : 0 < 2 ^ (32 - k)) by lia. assert (Epos2 : 0 < 2 ^ k) by lia.
  pose proof (Z.mod_pos_bound X (2 ^ (32 - k)) Epos1) as Hm.
  assert (Es : shl X k = Z.shiftl (X mod 2 ^ (32 - k)) k).
  { unfold shl, u32. rewrite !Z.shiftl_mul_pow2 by lia. rewrite Hpow, Zmult_mod_distr_r. done. }
  assert (Hq : 0 ≤ X / 2 ^ (32 - k) < 2 ^ k) by (split; [apply Z.div_pos; lia|apply Z.div_lt_upper_bound; lia]).
  unfold shr. rewrite Es, Z.shiftr_div_pow2, Z.lor_comm, lor_shiftl by lia. rewrite Z.land_ones by lia.
  rewrite Z.mod_small; [lia|]. rewrite Hpow. nia.
Qed.

Lemma rotate_inv k X : 0 < k < 32 → word32 X → rotate (32 - k) (rotate k X) = X.
Proof.
  intros Hk HX. rewrite (rotate_value (32 - k)), (rotate_value k) by (try apply rotate_words; done || lia). unfold word32 in HX.
  replace (32 - (32 - k)) with k by lia. assert (Epos1 : 0 < 2 ^ (32 - k)) by lia. assert (Epos2 : 0 < 2 ^ k) by lia.
  assert (Hq : 0 ≤ X / 2 ^ (32 - k) < 2 ^ k).
  { split; [apply Z.div_pos; lia|]. apply Z.div_lt_upper_bound; [lia|]. rewrite <- Z.pow_add_r by lia. replace (32 - k + k) with 32 by lia. lia. }
  rewrite (Z.add_comm (X mod _ * _)), Z.mod_add, (Z.mod_small (X / _)), Z.div_add, (Z.div_small (X / _)) by lia.
  pose proof (Z.div_mod X (2 ^ (32 - k)) ltac:(lia)). lia.
Qed.

Lemma flip_flip p : flip (flip p) = p.
Proof. by destruct p. Qed.

Lemma flip_words p : words p → words (flip p).
Proof. by intros []. Qed.

Lemma exchange_8 p : exchange_bits 8 0x00FF00FF (exchange_bits 8 0x00FF00FF p) = p.
Proof. by apply exchange_bits_inv. Qed.
Lemma exchange_4 p : exchange_bits 4 0x0F0F0F0F (exchange_bits 4 0x0F0F0F0F p) = p.
Proof. by apply exchange_bits_inv. Qed.
Lemma exchange_2 p : exchange_bits 2 0x33333333 (exchange_bits 2 0x33333333 p) = p.
Proof. by apply exchange_bits_inv. Qed.
Lemma exchange_16 p : exchange_bits 16 0x0000FFFF (exchange_bits 16 0x0000FFFF p) = p.
Proof. by apply exchange_bits_inv. Qed.

(** The second half of a permutation: rotations around the exchange of the odd bits. *)
Lemma turn_inv p : words p →
  let q := exchange_odd (p.1, rotate 1 p.2) in
  let r := exchange_odd (rotate 31 (rotate 1 q.1), q.2) in (r.1, rotate 31 r.2) = p.
Proof.
  intros [H1 H2]. cbv zeta. assert (Hq : words (exchange_odd (p.1, rotate 1 p.2))) by (apply exchange_odd_words; split; [done|apply rotate_words]).
  rewrite (rotate_inv 1) by (lia || apply Hq). rewrite <- surjective_pairing, exchange_odd_inv. cbn [fst snd].
  rewrite (rotate_inv 1) by (lia || done). by destruct p.
Qed.

Lemma turn_inv' p : words p →
  let q := exchange_odd (rotate 31 p.1, p.2) in
  let r := exchange_odd (q.1, rotate 1 (rotate 31 q.2)) in (rotate 1 r.1, r.2) = p.
Proof.
  intros [H1 H2]. cbv zeta. assert (Hq : words (exchange_odd (rotate 31 p.1, p.2))) by (apply exchange_odd_words; split; [apply rotate_words|done]).
  rewrite (rotate_inv 31) by (lia || apply Hq). rewrite <- surjective_pairing, exchange_odd_inv. cbn [fst snd].
  rewrite (rotate_inv 31) by (lia || done). by destruct p.
Qed.

Lemma exchanges_words p : words p →
  words (flip (exchange_bits 8 0x00FF00FF (flip (flip (exchange_bits 2 0x33333333 (flip (exchange_bits 16 0x0000FFFF (exchange_bits 4 0x0F0F0F0F p)))))))).
Proof.
  intros Hp. apply flip_words, exchange_bits_words; [lia|]. apply flip_words, flip_words, exchange_bits_words; [lia|]. apply flip_words.
  by repeat (apply exchange_bits_words; [lia|]).
Qed.

Lemma DES_IP_words p : words p → words (DES_IP p).
Proof.
  intros Hp. pose proof (exchanges_words p Hp) as Hq. unfold DES_IP. cbv zeta. set (q := flip (exchange_bits 8 _ _)) in *.
  assert (Ho : words (exchange_odd (q.1, rotate 1 q.2))) by (apply exchange_odd_words; split; [apply Hq|apply rotate_words]).
  split; cbn [fst snd]; [apply rotate_words|apply Ho].
Qed.

Lemma DES_FP_IP p : words p → DES_FP (DES_IP p) = p.
Proof.
  intros Hp. unfold DES_FP, DES_IP. cbv zeta. pose proof (turn_inv _ (exchanges_words p Hp)) as Ht. cbv zeta in Ht. cbn [fst snd] in Ht |- *.
  rewrite Ht. by rewrite !flip_flip, exchange_8, exchange_2, !flip_flip, exchange_16, exchange_4.
Qed.

Lemma DES_IP_FP p : words p → DES_IP (DES_FP p) = p.
Proof.
  intros Hp. unfold DES_FP, DES_IP. cbv zeta. rewrite exchange_4, exchange_16, !flip_flip, exchange_2, exchange_8, !flip_flip.
  cbn [fst snd]. pose proof (turn_inv' _ Hp) as Ht. cbv zeta in Ht. cbn [fst snd] in Ht. exact Ht.
Qed.

Lemma DES_FP_words p : words p → words (DES_FP p).
Proof.
  intros [H1 H2]. unfold DES_FP. cbv zeta. repeat (apply exchange_bits_words; [lia|]). apply flip_words, exchange_bits_words; [lia|].
  apply flip_words, flip_words, exchange_bits_words; [lia|]. apply flip_words.
  assert (Hq : words (exchange_odd (rotate 31 p.1, p.2))) by (apply exchange_odd_words; split; [apply rotate_words|done]).
  split; cbn [fst snd]; [apply Hq|apply rotate_words].
Qed.

(** ** Bytes *)

Lemma get_word b0 b1 b2 b3 : byte b0 → byte b1 → byte b2 → byte b3 →
  Z.lor (Z.lor (Z.lor (shl b0 24) (shl b1 16)) (shl b2 8)) b3 = b0 * 2 ^ 24 + b1 * 2 ^ 16 + b2 * 2 ^ 8 + b3.
Proof.
  unfold byte. intros H0 H1 H2 H3. unfold shl. rewrite !u32_small by (rewrite Z.shiftl_mul_pow2; lia).
  assert (E1 : Z.lor (Z.shiftl b0 24) (Z.shiftl b1 16) = Z.shiftl (b0 * 2 ^ 8 + b1) 16).
  { replace 24 with (8 + 16) by done. rewrite <- Z.shiftl_shiftl, <- Z.shiftl_lor by lia. rewrite Z.lor_comm, lor_shiftl by lia. f_equal. lia. }
  assert (E2 : Z.lor (Z.shiftl (b0 * 2 ^ 8 + b1) 16) (Z.shiftl b2 8) = Z.shiftl ((b0 * 2 ^ 8 + b1) * 2 ^ 8 + b2) 8).
  { replace 16 with (8 + 8) by done. rewrite <- Z.shiftl_shiftl, <- Z.shiftl_lor by lia. rewrite Z.lor_comm, lor_shiftl by lia. f_equal. lia. }
  rewrite E1, E2, Z.lor_comm, lor_shiftl by lia. lia.
Qed.

Lemma put_value n : word32 n → PUT_UINT32 n = [n / 2 ^ 24; n / 2 ^ 16 mod 2 ^ 8; n / 2 ^ 8 mod 2 ^ 8; n mod 2 ^ 8].
Proof.
  unfold word32. intros Hn. unfold PUT_UINT32, u8, shr. rewrite !Z.shiftr_div_pow2 by lia. rewrite (Z.mod_small (n / 2 ^ 24)); [done|].
  split; [apply Z.div_pos; lia|apply Z.div_lt_upper_bound; lia].
Qed.

Lemma put_bytes n : Forall byte (PUT_UINT32 n).
Proof. unfold PUT_UINT32, u8, byte. repeat constructor; by apply Z.mod_pos_bound. Qed.

(** The eight bytes of a block are two words. *)
Definition block_words (l : list Z) : Z * Z :=
  (nth 0 l 0 * 2 ^ 24 + nth 1 l 0 * 2 ^ 16 + nth 2 l 0 * 2 ^ 8 + nth 3 l 0,
   nth 4 l 0 * 2 ^ 24 + nth 5 l 0 * 2 ^ 16 + nth 6 l 0 * 2 ^ 8 + nth 7 l 0).
Definition words_block (p : Z * Z) : list Z := PUT_UINT32 p.1 ++ PUT_UINT32 p.2.

Definition block (l : list Z) : Prop := Forall byte l ∧ length l = 8%nat.

Lemma block_list l : block l → ∃ b0 b1 b2 b3 b4 b5 b6 b7, l = [b0; b1; b2; b3; b4; b5; b6; b7] ∧
  byte b0 ∧ byte b1 ∧ byte b2 ∧ byte b3 ∧ byte b4 ∧ byte b5 ∧ byte b6 ∧ byte b7.
Proof.
  intros [Hb Hl]. destruct l as [|b0 [|b1 [|b2 [|b3 [|b4 [|b5 [|b6 [|b7 [|? ?]]]]]]]]]; try done.
  rewrite !Forall_cons in Hb. exists b0, b1, b2, b3, b4, b5, b6, b7. naive_solver.
Qed.

Lemma block_words_ok l : block l → words (block_words l).
Proof. intros (b0 & b1 & b2 & b3 & b4 & b5 & b6 & b7 & -> & ?)%block_list. unfold words, word32, byte in *. cbn. lia. Qed.

Lemma get_block l : block l → GET_UINT32 l 0 = Ok (block_words l).1 ∧ GET_UINT32 l 4 = Ok (block_words l).2.
Proof.
  intros (b0 & b1 & b2 & b3 & b4 & b5 & b6 & b7 & -> & H0 & H1 & H2 & H3 & H4 & H5 & H6 & H7)%block_list.
  unfold block_words. cbn [nth fst snd]. rewrite <- (get_word b0), <- (get_word b4) by done. done.
Qed.

Lemma word_digits n : word32 n → n / 2 ^ 24 * 2 ^ 24 + n / 2 ^ 16 mod 2 ^ 8 * 2 ^ 16 + n / 2 ^ 8 mod 2 ^ 8 * 2 ^ 8 + n mod 2 ^ 8 = n.
Proof.
  intros _. pose proof (Z.div_mod n (2 ^ 8) ltac:(lia)) as E1. pose proof (Z.div_mod (n / 2 ^ 8) (2 ^ 8) ltac:(lia)) as E2.
  pose proof (Z.div_mod (n / 2 ^ 16) (2 ^ 8) ltac:(lia)) as E3. rewrite Z.div_div in E2, E3 by lia.
  change (2 ^ 8 * 2 ^ 8) with (2 ^ 16) in *. change (2 ^ 16 * 2 ^ 8) with (2 ^ 24) in *. lia.
Qed.

Lemma words_block_ok p : block (words_block p).
Proof. split; [apply Forall_app; split; apply put_bytes|done]. Qed.

Lemma words_inverse p : words p → block_words (words_block p) = p.
Proof.
  intros [H1 H2]. unfold words_block. rewrite !put_value by done. unfold block_words. cbn [app nth]. rewrite !word_digits by done. by destruct p.
Qed.

Lemma digits_word b0 b1 b2 b3 : byte b0 → byte b1 → byte b2 → byte b3 →
  PUT_UINT32 (b0 * 2 ^ 24 + b1 * 2 ^ 16 + b2 * 2 ^ 8 + b3) = [b0; b1; b2; b3].
Proof.
  unfold byte. intros H0 H1 H2 H3. rewrite put_value by (unfold word32; lia). set (n := b0 * 2 ^ 24 + b1 * 2 ^ 16 + b2 * 2 ^ 8 + b3).
  assert (E24 : n / 2 ^ 24 = b0) by (symmetry; apply (Z.div_unique_pos _ _ _ (b1 * 2 ^ 16 + b2 * 2 ^ 8 + b3)); unfold n; lia).
  assert (E16 : n / 2 ^ 16 = b0 * 2 ^ 8 + b1) by (symmetry; apply (Z.div_unique_pos _ _ _ (b2 * 2 ^ 8 + b3)); unfold n; lia).
  assert (E8 : n / 2 ^ 8 = b0 * 2 ^ 16 + b1 * 2 ^ 8 + b2) by (symmetry; apply (Z.div_unique_pos _ _ _ b3); unfold n; lia).
  assert (M16 : (b0 * 2 ^ 8 + b1) mod 2 ^ 8 = b1) by (rewrite Z.add_comm, Z.mod_add by lia; apply Z.mod_small; lia).
  assert (M8 : (b0 * 2 ^ 16 + b1 * 2 ^ 8 + b2) mod 2 ^ 8 = b2).
  { replace (b0 * 2 ^ 16 + b1 * 2 ^ 8 + b2) with (b2 + (b0 * 2 ^ 8 + b1) * 2 ^ 8) by lia. rewrite Z.mod_add by lia. apply Z.mod_small. lia. }
  assert (M0 : n mod 2 ^ 8 = b3).
  { unfold n. replace (b0 * 2 ^ 24 + b1 * 2 ^ 16 + b2 * 2 ^ 8 + b3) with (b3 + (b0 * 2 ^ 16 + b1 * 2 ^ 8 + b2) * 2 ^ 8) by lia.
    rewrite Z.mod_add by lia. apply Z.mod_small. lia. }
  by rewrite E24, E16, E8, M16, M8, M0.
Qed.

Lemma block_inverse l : block l → words_block (block_words l) = l.
Proof.
  intros (b0 & b1 & b2 & b3 & b4 & b5 & b6 & b7 & -> & H0 & H1 & H2 & H3 & H4 & H5 & H6 & H7)%block_list.
  unfold words_block, block_words. cbn [nth fst snd]. by rewrite !digits_word.
Qed.

(** ** The rounds *)

Definition box (A : list Z) (T : Z) : Z := nth (Z.to_nat (Z.land T 0x3f)) A 0.
Definition box4 (A B C D : list Z) (T : Z) : Z :=
  Z.lxor (Z.lxor (Z.lxor (box A T) (box B (shr T 8))) (box C (shr T 16))) (box D (shr T 24)).

Definition table_ok (A : list Z) : Prop := length A = 64%nat ∧ Forall word32 A.

Lemma tables_ok : table_ok SB1 ∧ table_ok SB2 ∧ table_ok SB3 ∧ table_ok SB4 ∧ table_ok SB5 ∧ table_ok SB6 ∧ table_ok SB7 ∧ table_ok SB8.
Proof.
  assert (H : ∀ A, bool_decide (length A = 64%nat) && forallb (λ x, (0 <=? x) && (x <? 2 ^ 32)) A = true → table_ok A).
  { intros A [Hl%bool_decide_eq_true Hf]%andb_true_iff. split; [done|]. apply Forall_forall. intros x Hx. apply list_elem_of_In in Hx.
    pose proof (proj1 (forallb_forall _ _) Hf x Hx) as E. cbn in E. unfold word32. lia. }
  repeat split; apply H; vm_compute; reflexivity.
Qed.

Lemma land_index T m : 0 ≤ m → 0 ≤ Z.land T m < m + 1.
Proof. intros Hm. pose proof (land_mask_bound T m Hm). lia. Qed.

Lemma box_rd A T : table_ok A → rd A (Z.land T 0x3f) = Ok (box A T) ∧ word32 (box A T).
Proof.
  intros [Hl Hw]. pose proof (land_index T 0x3f ltac:(lia)) as Hi. destruct (lookup_lt_is_Some_2 A (Z.to_nat (Z.land T 0x3f))) as [x Hx]; [lia|].
  unfold box. rewrite nth_lookup, Hx. cbn. split; [apply rd_ok; [lia|done]|]. exact (Forall_lookup_1 _ _ _ _ Hw Hx).
Qed.

Lemma boxes_lemma A B C D T : table_ok A → table_ok B → table_ok C → table_ok D →
  boxes A B C D T = Ok (box4 A B C D T) ∧ word32 (box4 A B C D T).
Proof.
  intros HA HB HC HD. destruct (box_rd A T HA) as [E1 W1], (box_rd B (shr T 8) HB) as [E2 W2], (box_rd C (shr T 16) HC) as [E3 W3],
    (box_rd D (shr T 24) HD) as [E4 W4]. unfold boxes, box4. rewrite E1, bind_ok, E2, bind_ok, E3, bind_ok, E4, bind_ok.
  split; [done|]. by repeat apply word_lxor.
Qed.

(** What a round adds to the other half; [k] has two subkeys. *)
Definition feistel (k : Z * Z) (X : Z) : Z :=
  Z.lxor (box4 SB8 SB6 SB4 SB2 (Z.lxor k.1 X)) (box4 SB7 SB5 SB3 SB1 (Z.lxor k.2 (Z.lor (shl X 28) (shr X 4)))).

Lemma feistel_word k X : word32 (feistel k X).
Proof. destruct tables_ok as (?&?&?&?&?&?&?&?). apply word_lxor; by apply boxes_lemma. Qed.

Lemma des_round_lemma SK sk X Y k0 k1 : 0 ≤ sk → SK !! Z.to_nat sk = Some k0 → SK !! Z.to_nat (sk + 1) = Some k1 →
  DES_ROUND SK sk X Y = Ok (Z.lxor Y (feistel (k0, k1) X)).
Proof.
  intros Hsk H0 H1. destruct tables_ok as (?&?&?&?&?&?&?&?). unfold DES_ROUND. rewrite (rd_ok _ _ _ Hsk H0), bind_ok.
  rewrite (proj1 (boxes_lemma SB8 SB6 SB4 SB2 _ ltac:(done) ltac:(done) ltac:(done) ltac:(done))), bind_ok.
  rewrite (rd_ok SK (sk + 1) _ ltac:(lia) H1), bind_ok. rewrite (proj1 (boxes_lemma SB7 SB5 SB3 SB1 _ ltac:(done) ltac:(done) ltac:(done) ltac:(done))), bind_ok.
  by rewrite Z.lxor_assoc.
Qed.

Definition step (p : Z * Z) (k : Z * Z) : Z * Z := (p.2, Z.lxor p.1 (feistel k p.2)).

Lemma step_inv p k : step (flip (step p k)) k = flip p.
Proof. destruct p as [X Y]. unfold step, flip. cbn. by rewrite lxor_cancel. Qed.

Lemma steps_inv ks : ∀ p, foldl step (flip (foldl step p ks)) (rev ks) = flip p.
Proof.
  induction ks as [|k ks IH]; intros p; [done|]. cbn [foldl rev]. rewrite foldl_app, IH. cbn [foldl]. apply step_inv.
Qed.

Lemma steps_words ks : ∀ p, words p → words (foldl step p ks).
Proof.
  induction ks as [|k ks IH]; intros p Hp; [done|]. cbn [foldl]. apply IH. destruct Hp as [H1 H2]. split; cbn; [done|].
  apply word_lxor; [done|apply feistel_word].
Qed.

(** The subkeys in pairs, one for each round. *)
Definition key_pairs (SK : list Z) : list (Z * Z) := map (λ j, (nth (2 * j) SK 0, nth (2 * j + 1) SK 0)) (seq 0 16).

Lemma key_lookup (SK : list Z) i : length SK = 32%nat → 0 ≤ i < 32 → SK !! Z.to_nat i = Some (nth (Z.to_nat i) SK 0).
Proof. intros Hl Hi. destruct (lookup_lt_is_Some_2 SK (Z.to_nat i)) as [k Hk]; [lia|]. by rewrite nth_lookup, Hk. Qed.

Lemma two_rounds_lemma SK i p : length SK = 32%nat → 0 ≤ i < 8 →
  two_rounds SK i p = Ok (step (step p (nth (Z.to_nat (4 * i)) SK 0, nth (Z.to_nat (4 * i + 1)) SK 0))
                               (nth (Z.to_nat (4 * i + 2)) SK 0, nth (Z.to_nat (4 * i + 3)) SK 0)).
Proof.
  intros Hl Hi. unfold two_rounds.
  rewrite (des_round_lemma SK (4 * i) _ _ _ _ ltac:(lia) (key_lookup SK (4 * i) Hl ltac:(lia)) (key_lookup SK (4 * i + 1) Hl ltac:(lia))), bind_ok.
  replace (4 * i + 3) with (4 * i + 2 + 1) by lia.
  rewrite (des_round_lemma SK (4 * i + 2) _ _ _ _ ltac:(lia) (key_lookup SK (4 * i + 2) Hl ltac:(lia)) (key_lookup SK (4 * i + 2 + 1) Hl ltac:(lia))), bind_ok.
  done.
Qed.

Lemma rounds_lemma SK p : length SK = 32%nat → for_range 8 0 (two_rounds SK) p = Ok (foldl step p (key_pairs SK)).
Proof.
  intros Hl. cbn [for_range]. do 8 (rewrite two_rounds_lemma, bind_ok by (done || lia)). done.
Qed.

(** A block, without the details of the code. *)
Definition crypt_block (ks : list (Z * Z)) (l : list Z) : list Z :=
  words_block (DES_FP (flip (foldl step (DES_IP (block_words l)) ks))).

Lemma des_crypt_lemma SK l : length SK = 32%nat → block l → des_crypt SK l = Ok (crypt_block (key_pairs SK) l).
Proof.
  intros Hl Hb. destruct (get_block l Hb) as [E0 E4]. unfold des_crypt. rewrite E0, bind_ok, E4, bind_ok, rounds_lemma, bind_ok by done.
  by rewrite <- surjective_pairing.
Qed.

Lemma crypt_block_ok ks l : block (crypt_block ks l).
Proof. apply words_block_ok. Qed.

Lemma crypt_block_inverse ks l : block l → crypt_block (rev ks) (crypt_block ks l) = l.
Proof.
  intros Hb. pose proof (block_words_ok l Hb) as Hw. unfold crypt_block at 1. unfold crypt_block.
  assert (Hs : words (flip (foldl step (DES_IP (block_words l)) ks))) by (apply flip_words, steps_words, DES_IP_words, Hw).
  rewrite words_inverse by (by apply DES_FP_words). rewrite DES_IP_FP, steps_inv, flip_flip, DES_FP_IP by done. by apply block_inverse.
Qed.

(** ** Keys *)

Lemma halves_ok S X l : length S = 16%nat → ∃ v, halves S X l = Ok v.
Proof.
  intros HS. unfold halves. assert (Hm : ∃ vs, mapM (λ '(s, k), v ← rd S (Z.land (shr X s) 0xf); Ok (shl v k)) l = Ok vs).
  { induction l as [|[s k] l [vs IH]]; [by exists []|]. pose proof (land_index (shr X s) 0xf ltac:(lia)) as Hi.
    destruct (rd_in_range S (Z.land (shr X s) 0xf)) as (v & _ & E); [lia|]. exists (shl v k :: vs). cbn [mapM]. by rewrite E, bind_ok, bind_ok, IH. }
  destruct Hm as [vs ->]. rewrite bind_ok. by eexists.
Qed.

Lemma des_main_ks_lemma key : block key → ∃ SK, des_main_ks key = Ok SK ∧ length SK = 32%nat.
Proof.
  intros Hk. destruct (get_block key Hk) as [E0 E4]. unfold des_main_ks. rewrite E0, bind_ok, E4, bind_ok. cbv zeta.
  set (p := flip (exchange_bits 0 _ _)). destruct (halves_ok LHs p.1 [(0, 3); (8, 2); (16, 1); (24, 0); (5, 7); (13, 6); (21, 5); (29, 4)] eq_refl) as [X ->].
  destruct (halves_ok RHs p.2 [(1, 3); (9, 2); (17, 1); (25, 0); (4, 7); (12, 6); (20, 5); (28, 4)] eq_refl) as [Y ->]. rewrite !bind_ok.
  destruct (for_range_inv (λ _ s, length s.1.1 = 32%nat) 16 0 ks_round (replicate 32 0, Z.land X 0x0FFFFFFF, Z.land Y 0x0FFFFFFF)) as ([[SK X'] Y'] & -> & Hl).
  - done.
  - intros i [[SK X1] Y1] Hi Hl. cbn in Hl. unfold ks_round. rewrite wr_ok by (rewrite Hl; lia). rewrite bind_ok, wr_ok by (rewrite length_insert, Hl; lia).
    eexists. split; [done|]. cbn. by rewrite !length_insert.
  - by exists SK.
Qed.

Lemma reverse_keys_lemma ESK : length ESK = 32%nat → ∃ SK, reverse_keys ESK = Ok SK ∧ length SK = 32%nat ∧ key_pairs SK = rev (key_pairs ESK).
Proof. intros Hl. do 32 (destruct ESK as [|? ESK]; [done|]). destruct ESK; [|done]. by eexists. Qed.

(** ** Texts *)

Fixpoint crypt_blocks (ks : list (Z * Z)) (n : nat) (l : list Z) : list Z :=
  match n with
  | O => []
  | S n => crypt_block ks (take 8 l) ++ crypt_blocks ks n (drop 8 l)
  end.

Lemma crypt_blocks_length ks n : ∀ l, length (crypt_blocks ks n l) = (8 * n)%nat.
Proof.
  induction n as [|n IH]; intros l; [done|]. cbn [crypt_blocks]. rewrite length_app, IH, (proj2 (crypt_block_ok ks (take 8 l))). lia.
Qed.

Lemma crypt_blocks_bytes ks n : ∀ l, Forall byte (crypt_blocks ks n l).
Proof. induction n as [|n IH]; intros l; [constructor|]. apply Forall_app. split; [apply crypt_block_ok|apply IH]. Qed.

Lemma take_block l : Forall byte l → (8 ≤ length l)%nat → block (take 8 l).
Proof. intros Hb Hl. split; [by apply Forall_take|]. by rewrite length_take_le. Qed.

Lemma crypt_blocks_inverse ks n : ∀ l, Forall byte l → length l = (8 * n)%nat → crypt_blocks (rev ks) n (crypt_blocks ks n l) = l.
Proof.
  induction n as [|n IH]; intros l Hb Hl; [by destruct l|]. cbn [crypt_blocks]. pose proof (proj2 (crypt_block_ok ks (take 8 l))) as Hc.
  rewrite take_app_le, take_ge, drop_app_ge, Hc, Nat.sub_diag, drop_0 by lia.
  rewrite crypt_block_inverse, IH, take_drop; [done|by apply Forall_drop|rewrite length_drop; lia|apply take_block; [done|lia]].
Qed.

Lemma crypt_blocks_snoc ks n l d : length l = (8 * n)%nat → length d = 8%nat →
  crypt_blocks ks (n + 1) (l ++ d) = crypt_blocks ks n l ++ crypt_block ks d.
Proof.
  revert l. induction n as [|n IH]; intros l Hl Hd.
  - destruct l; [|done]. cbn [Nat.add crypt_blocks app]. by rewrite take_ge, app_nil_r by lia.
  - cbn [Nat.add crypt_blocks]. rewrite take_app_le, drop_app_le by lia. rewrite IH by (rewrite ?length_drop; lia). by rewrite (assoc_L (++)).
Qed.

Lemma crypt_blocks_take ks n : ∀ l, crypt_blocks ks n (take (8 * n) l) = crypt_blocks ks n l.
Proof.
  induction n as [|n IH]; intros l; [done|]. cbn [crypt_blocks]. rewrite take_take, Nat.min_l by lia. f_equal.
  rewrite <- (IH (drop 8 l)), <- (IH (drop 8 (take _ l))), skipn_firstn_comm, take_take. do 2 f_equal. lia.
Qed.

(** A loop over the blocks of a text. *)
Lemma blocks_loop {R} (body : Z * buffer → res (loop (Z * buffer) R)) (out : buffer → R) SK text n :
  length SK = 32%nat → Forall byte text →
  (∀ j b, (j < n)%nat → body (8 * Z.of_nat j, b) = (b ← crypt_at SK text (8 * Z.of_nat j) b; Ok (Continue (8 * Z.of_nat j + 8, b)))) →
  (∀ b, body (8 * Z.of_nat n, b) = Ok (Break (out b))) →
  ∀ k j pre l o m fuel, (j + k = n)%nat → text = pre ++ l → length pre = (8 * j)%nat → length o = (8 * j)%nat →
    (8 * k ≤ length l)%nat → (8 * k ≤ m)%nat → (k < fuel)%nat →
    iterate fuel body (8 * Z.of_nat j, map Some o ++ replicate m None) =
      Ok (out (map Some (o ++ crypt_blocks (key_pairs SK) k l) ++ replicate (m - 8 * k) None)).
Proof.
  intros Hk Hb Hbody Hend. induction k as [|k IH]; intros j pre l o m fuel Hj -> Hpre Ho Hl Hm Hf; (destruct fuel as [|fuel]; [lia|]); cbn [iterate].
  - rewrite Nat.add_0_r in Hj. subst j. rewrite Hend, bind_ok. cbn [crypt_blocks]. by rewrite app_nil_r, Nat.mul_0_r, Nat.sub_0_r.
  - apply Forall_app in Hb as [_ Hb]. rewrite Hbody by lia. unfold crypt_at.
    assert (Eoff : 8 * Z.of_nat j = Z.of_nat (length pre)) by lia. rewrite rd_at_ok by (rewrite ?length_app; lia).
    rewrite Eoff at 1. rewrite Nat2Z.id, drop_app_length. change (Z.to_nat 8) with 8%nat. rewrite bind_ok.
    rewrite des_crypt_lemma, bind_ok by (done || (apply take_block; [done|lia])). set (c := crypt_block _ _).
    assert (Hc : length c = 8%nat) by apply crypt_block_ok. replace (8 * Z.of_nat j) with (Z.of_nat (length o)) at 1 by lia.
    rewrite wr_at_fill by lia. rewrite bind_ok, bind_ok, Hc. replace (8 * Z.of_nat j + 8) with (8 * Z.of_nat (S j)) by lia.
    rewrite (IH (S j) (pre ++ take 8 l) (drop 8 l)); [|lia|by rewrite <- (assoc_L (++)), take_drop| | |rewrite length_drop; lia|lia|lia].
    + cbn [crypt_blocks]. fold c. rewrite <- (assoc_L (++)). by replace (m - 8 * S k)%nat with (m - 8 - 8 * k)%nat by lia.
    + rewrite length_app, length_take_le by lia. lia.
    + rewrite length_app. lia.
Qed.

(** *** Padding *)

(** 0x80 and zeros up to a whole block. *)
Definition pad (d : list Z) : list Z := d ++ 0x80 :: replicate (7 - length d) 0.
Definition whole (text : list Z) : nat := (length text / 8)%nat.
Definition padded (text : list Z) : list Z := take (8 * whole text) text ++ pad (drop (8 * whole text) text).

Lemma whole_spec text : (8 * whole text ≤ length text)%nat ∧ (length (drop (8 * whole text) text) < 8)%nat.
Proof. unfold whole. pose proof (Nat.div_mod (length text) 8 ltac:(lia)) as E. pose proof (Nat.mod_upper_bound (length text) 8 ltac:(lia)). rewrite length_drop. lia. Qed.

Lemma pad_length d : (length d < 8)%nat → length (pad d) = 8%nat.
Proof. intros Hd. unfold pad. rewrite length_app. cbn [length]. rewrite length_replicate. lia. Qed.

Lemma pad_bytes d : Forall byte d → Forall byte (pad d).
Proof. intros Hd. apply Forall_app. split; [done|]. constructor; [done|]. apply Forall_replicate. done. Qed.

Lemma padded_length text : length (padded text) = (8 * (whole text + 1))%nat.
Proof.
  destruct (whole_spec text) as [H1 H2]. unfold padded. rewrite length_app, length_take_le, pad_length by done. lia.
Qed.

Lemma padded_text text : padded text = text ++ 0x80 :: replicate (7 - length (drop (8 * whole text) text)) 0.
Proof. unfold padded, pad. by rewrite (assoc_L (++)), take_drop. Qed.

Lemma padded_bytes text : Forall byte text → Forall byte (padded text).
Proof. intros Hb. apply Forall_app. split; [by apply Forall_take|]. by apply pad_bytes, Forall_drop. Qed.

Lemma rd_app_r {A} (pre d : list A) j : 0 ≤ j → rd (pre ++ d) (Z.of_nat (length pre) + j) = rd d j.
Proof.
  intros Hj. unfold rd, in_range. rewrite length_app. destruct (decide (j < Z.of_nat (length d))).
  - rewrite !bool_decide_eq_true_2 by lia. rewrite lookup_app_r by lia. do 2 f_equal. lia.
  - by rewrite !bool_decide_eq_false_2 by lia.
Qed.

Lemma tail_block_lemma pre d : (length d < 8)%nat → Z.of_nat (length (pre ++ d)) < 2 ^ 31 →
  tail_block (pre ++ d) (Z.of_nat (length pre)) = Ok (pad d).
Proof.
  intros Hd Hl. unfold tail_block. rewrite length_app in *. replace (Z.of_nat (length pre + length d) - Z.of_nat (length pre)) with (Z.of_nat (length d)) by lia.
  rewrite i32_small by lia.
  assert (E : ∀ l, Forall (λ j, 0 ≤ j) l → mapM (λ j, if j <? Z.of_nat (length d) then rd (pre ++ d) (Z.of_nat (length pre) + j)
      else if j =? Z.of_nat (length d) then Ok 0x80 else Ok 0) l =
    mapM (λ j, if j <? Z.of_nat (length d) then rd d j else if j =? Z.of_nat (length d) then Ok 0x80 else Ok 0) l).
  { intros l. induction 1 as [|j l Hj _ IH]; [done|]. cbn [mapM]. by rewrite rd_app_r, IH. }
  rewrite E by (repeat constructor; lia). clear E. do 8 (destruct d as [|? d]; [done|]). cbn in Hd. lia.
Qed.

Lemma chunk_size n : Z.land (Z.of_nat n + 8) (Z.lnot 7) = Z.of_nat (8 * (n / 8 + 1)).
Proof.
  rewrite <- Z.ldiff_land. change 7 with (Z.ones 3). rewrite Z.ldiff_ones_r, Z.shiftr_div_pow2, Z.shiftl_mul_pow2 by lia. change (2 ^ 3) with 8.
  replace (Z.of_nat n + 8) with (Z.of_nat n + 1 * 8) by lia. rewrite Z.div_add by lia. rewrite Nat2Z.inj_mul, Nat2Z.inj_add, Nat2Z.inj_div. lia.
Qed.

Lemma des_key_lemma key : block key → ∃ SK, des_key key = lua_ret SK ∧ length SK = 32%nat.
Proof.
  intros Hk. destruct (des_main_ks_lemma key Hk) as (SK & E & Hl). exists SK. split; [|done]. unfold des_key. rewrite (proj2 Hk).
  cbn [negb Z.eqb Z.of_nat]. by rewrite E.
Qed.

Lemma des_key_size key : length key ≠ 8%nat →
  des_key key = luaL_error (str "Invalid key size " ++ print_d (i32 (Z.of_nat (length key))) ++ str ", need 8 bytes").
Proof. intros Hk. unfold des_key. destruct (Z.eqb_spec (Z.of_nat (length key)) 8); [lia|done]. Qed.

Lemma chunk_replicate sz : 0 ≤ sz → ∃ m, chunk sz = replicate m None ∧ (Z.to_nat sz ≤ m)%nat.
Proof. intros Hs. unfold chunk, SMALL_CHUNK. eexists. split; [done|]. destruct (Z.gtb_spec sz 256); lia. Qed.

Lemma encode_lemma key text SK : des_key key = lua_ret SK → length SK = 32%nat → Forall byte text → Z.of_nat (length text) < 2 ^ 31 - 8 →
  ldesencode key text = lua_ret (crypt_blocks (key_pairs SK) (whole text + 1) (padded text)).
Proof.
  intros Ek HSK Hb Hlen. destruct (whole_spec text) as [Hw1 Hw2]. set (w := whole text) in *. unfold ldesencode. rewrite Ek. cbn [lbind lua_ret].
  rewrite chunk_size. fold (whole text). fold w. destruct (chunk_replicate (Z.of_nat (8 * (w + 1))) ltac:(lia)) as (m & -> & Hm). rewrite Nat2Z.id in Hm.
  pose proof (blocks_loop (encode_round SK text) (λ b, (8 * Z.of_nat w, b)) SK text w HSK Hb) as Hloop.
  change (0, replicate m None) with (8 * Z.of_nat 0, map Some ([] : list Z) ++ replicate m None).
  rewrite (Hloop ltac:(intros j b Hj; unfold encode_round; rewrite i32_small by lia; destruct (Z.ltb_spec (8 * Z.of_nat j) (Z.of_nat (length text) - 7)); [done|lia])
    ltac:(intros b; unfold encode_round; rewrite i32_small by lia; rewrite length_drop in Hw2; destruct (Z.ltb_spec (8 * Z.of_nat w) (Z.of_nat (length text) - 7)); [lia|done])
    w 0%nat [] text [] m (S (length text)) ltac:(lia) eq_refl eq_refl eq_refl Hw1 ltac:(lia) ltac:(lia)), bind_ok. clear Hloop. cbn [app].
  set (o := crypt_blocks (key_pairs SK) w text). assert (Ho : length o = (8 * w)%nat) by apply crypt_blocks_length.
  assert (Et : tail_block text (8 * Z.of_nat w) = Ok (pad (drop (8 * w) text))).
  { pose proof (tail_block_lemma (take (8 * w) text) (drop (8 * w) text) Hw2) as E. rewrite take_drop, length_take_le in E by done.
    rewrite <- E by lia. f_equal. lia. }
  rewrite Et, bind_ok, des_crypt_lemma, bind_ok by (done || (split; [by apply pad_bytes, Forall_drop|by apply pad_length])). set (c := crypt_block _ _).
  assert (Hc : length c = 8%nat) by apply crypt_block_ok. replace (8 * Z.of_nat w) with (Z.of_nat (length o)) by lia.
  rewrite wr_at_fill, bind_ok by lia. replace (8 * (w + 1))%nat with (length (o ++ c)) by (rewrite length_app; lia).
  rewrite init_bytes_lemma, bind_ok. f_equal. f_equal. unfold padded. fold w.
  rewrite crypt_blocks_snoc by (try apply pad_length; rewrite ?length_take_le; done). f_equal.
  unfold o. by rewrite crypt_blocks_take.
Qed.

(** *** Decoding *)

(** The last bytes, from the end: zeros and an 0x80. *)
Fixpoint unpad (k : nat) (r : list Z) (padding : Z) : res (option Z) :=
  match k, r with
  | O, [] => Fault OutOfBounds
  | O, _ => Ok (Some padding)
  | S k, b :: r => if b =? 0 then unpad k r (padding + 1) else Ok (if b =? 0x80 then Some padding else None)
  | S _, [] => Fault OutOfBounds
  end.

Lemma padding_round_eq b textsz i padding : padding_round b textsz (i, padding) =
  if u64 (textsz - 8) <=? u64 i then
    c ← rd_init b i;
    if c =? 0 then Ok (Continue (i - 1, padding + 1))
    else if c =? 0x80 then Ok (Break (Some padding)) else Ok (Break None)
  else Ok (Break (Some padding)).
Proof. unfold padding_round. by rewrite Z.geb_leb. Qed.

Lemma padding_loop junk : ∀ k fuel D p rest, (k + p = 8)%nat → (k ≤ length D)%nat → Z.of_nat (length D + p) < 2 ^ 31 → (k < fuel)%nat →
  iterate fuel (padding_round (map Some (D ++ rest) ++ junk) (Z.of_nat (length D + p))) (Z.of_nat (length D) - 1, 1 + Z.of_nat p) =
    unpad k (rev D) (1 + Z.of_nat p).
Proof.
  induction k as [|k IH]; intros fuel D p rest Hk HD Hlen Hf; (destruct fuel as [|fuel]; [lia|]); cbn [iterate]; rewrite padding_round_eq;
    assert (Eb : u64 (Z.of_nat (length D + p) - 8) = Z.of_nat (length D + p) - 8) by (unfold u64; apply Z.mod_small; lia); rewrite Eb.
  - destruct D as [|x D].
    + cbn [length Nat.add] in *. subst p. done.
    + destruct (Z.leb_spec (Z.of_nat (length (x :: D) + p) - 8) (u64 (Z.of_nat (length (x :: D)) - 1))) as [Hle|_].
      { unfold u64 in Hle. rewrite Z.mod_small in Hle by (cbn [length] in *; lia). lia. }
      rewrite bind_ok. cbn [unpad rev]. destruct (rev D ++ [x]) eqn:E; [|done]. by apply app_nil in E as [_ ?].
  - destruct D as [|x D _] using rev_ind; [cbn in HD; lia|]. rewrite length_app in *. cbn [length] in *.
    replace (Z.of_nat (length D + 1) - 1) with (Z.of_nat (length D)) by lia.
    assert (Ei : u64 (Z.of_nat (length D)) = Z.of_nat (length D)) by (unfold u64; apply Z.mod_small; lia). rewrite Ei.
    destruct (Z.leb_spec (Z.of_nat (length D + 1 + p) - 8) (Z.of_nat (length D))) as [_|]; [|lia].
    assert (Er : rd_init (map Some ((D ++ [x]) ++ rest) ++ junk) (Z.of_nat (length D)) = Ok x).
    { apply rd_init_ok; [lia|]. rewrite Nat2Z.id, <- (assoc_L (++)), map_app, <- (assoc_L (++)), lookup_app_r by (by rewrite length_map).
      by rewrite length_map, Nat.sub_diag. }
    rewrite Er, bind_ok, rev_app_distr. cbn [rev app unpad]. destruct (x =? 0).
    + rewrite bind_ok, <- (assoc_L (++)). replace (Z.of_nat (length D + 1 + p)) with (Z.of_nat (length D + S p)) by lia.
      replace (1 + Z.of_nat p + 1) with (1 + Z.of_nat (S p)) by lia. apply IH; lia.
    + by destruct (x =? 128).
Qed.

Lemma unpad_range k : ∀ r p0 p, unpad k r p0 = Ok (Some p) → p0 ≤ p ≤ p0 + Z.of_nat k.
Proof.
  induction k as [|k IH]; intros [|b r] p0 p E; try done; cbn [unpad] in E; [injection E as ->; lia|].
  destruct (b =? 0); [apply IH in E; lia|]. destruct (b =? 128); [|done]. injection E as ->. lia.
Qed.

Lemma init_take l rest j : (j ≤ length l)%nat → init_bytes (map Some l ++ rest) (Z.of_nat j) = Ok (take j l).
Proof.
  intros Hj. pose proof (init_bytes_lemma (take j l) (map Some (drop j l) ++ rest)) as E.
  by rewrite (assoc_L (++)), <- map_app, take_drop, length_take_le in E.
Qed.

Lemma reverse_decode key text SK : des_key key = lua_ret SK → length SK = 32%nat → Forall byte text →
  ∀ n, length text = (8 * n)%nat → n ≠ 0%nat → Z.of_nat (length text) < 2 ^ 31 →
  let D := crypt_blocks (rev (key_pairs SK)) n text in
  ldesdecode key text =
    (padding ← unpad 8 (rev D) 1;
     match padding with
     | Some p => if p >? 8 then luaL_error (str "Invalid des crypt text") else lua_ret (take (length D - Z.to_nat p) D)
     | None => luaL_error (str "Invalid des crypt text")
     end).
Proof.
  intros Ek HSK Hb n Hn H0 Hlen D. assert (HD : length D = (8 * n)%nat) by apply crypt_blocks_length. unfold ldesdecode. rewrite Ek. cbn [lbind lua_ret].
  destruct (reverse_keys_lemma SK HSK) as (RK & -> & HRK & Hpairs). rewrite bind_ok, Hn.
  assert (E7 : Z.land (Z.of_nat (8 * n)) 7 =? 0 = true).
  { change 7 with (Z.ones 3). rewrite Z.land_ones by lia. replace (Z.of_nat (8 * n)) with (Z.of_nat n * 2 ^ 3) by lia. by rewrite Z.mod_mul by lia. }
  rewrite E7. destruct (Z.eqb_spec (Z.of_nat (8 * n)) 0) as [|_]; [lia|]. cbn [negb orb].
  destruct (chunk_replicate (Z.of_nat (8 * n)) ltac:(lia)) as (m & -> & Hm). rewrite Nat2Z.id in Hm.
  change (0, replicate m None) with (8 * Z.of_nat 0, map Some ([] : list Z) ++ replicate m None).
  assert (Eu : ∀ j, (j ≤ n)%nat → u64 (8 * Z.of_nat j) = 8 * Z.of_nat j) by (intros j Hj; unfold u64; apply Z.mod_small; lia).
  rewrite (blocks_loop (decode_round RK text) (λ b, b) RK text n HRK Hb
    ltac:(intros j b Hj; unfold decode_round; rewrite Eu, Hn by lia; destruct (Z.ltb_spec (8 * Z.of_nat j) (Z.of_nat (8 * n))); [done|lia])
    ltac:(intros b; unfold decode_round; rewrite Eu, Hn by lia; destruct (Z.ltb_spec (8 * Z.of_nat n) (Z.of_nat (8 * n))); [lia|done])
    n 0%nat [] text [] m (S (8 * n)) ltac:(lia) eq_refl eq_refl eq_refl ltac:(lia) ltac:(lia) ltac:(lia)), bind_ok.
  cbn [app]. rewrite Hpairs. fold D. rewrite i32_small by lia.
  pose proof (padding_loop (replicate (m - 8 * n) None) 8 10 D 0 []) as Hloop. rewrite app_nil_r, (Nat.add_0_r (length D)), HD in Hloop.
  change (1 + Z.of_nat 0) with 1 in Hloop. rewrite Hloop by lia. destruct (unpad 8 (rev D) 1) as [[p|]|f] eqn:Eun; rewrite ?bind_ok; [|done|done].
  destruct (Z.gtb_spec p 8) as [_|Hp]; [done|]. apply unpad_range in Eun.
  replace (Z.of_nat (8 * n) - p) with (Z.of_nat (8 * n - Z.to_nat p)) by lia. rewrite init_take, bind_ok by lia. by rewrite HD.
Qed.

Lemma unpad_text k : ∀ t z p, (z < k)%nat → unpad k (replicate z 0 ++ 0x80 :: rev t) p = Ok (Some (p + Z.of_nat z)).
Proof.
  induction k as [|k IH]; intros t z p Hz; [lia|]. destruct z as [|z]; cbn [replicate app unpad].
  - by rewrite Z.add_0_r.
  - cbn [Z.eqb]. rewrite IH by lia. do 2 f_equal. lia.
Qed.

(** C8.  DES decoding undoes encoding: for every key of eight bytes and every text, also one
    whose length is no multiple of eight, [ldesdecode] gets back from [ldesencode]'s output
    exactly the text; no byte is read or written out of bounds, and the loops end. *)
Theorem des_roundtrip key text : Forall byte key → length key = 8%nat → Forall byte text → Z.of_nat (length text) < 2 ^ 31 - 8 →
  lbind (ldesencode key text) (λ c, ldesdecode key c) = lua_ret text.
Proof.
  intros Hk Hkl Hb Hlen. destruct (des_key_lemma key (conj Hk Hkl)) as (SK & Ek & HSK). rewrite (encode_lemma key text SK Ek HSK Hb Hlen).
  cbn [lbind lua_ret]. set (c := crypt_blocks _ _ _). assert (Hc : length c = (8 * (whole text + 1))%nat) by apply crypt_blocks_length.
  destruct (whole_spec text) as [Hw1 Hw2].
  rewrite (reverse_decode key c SK Ek HSK (crypt_blocks_bytes _ _ _) _ Hc) by lia. cbv zeta. unfold c.
  rewrite crypt_blocks_inverse by (apply padded_bytes, Hb || apply padded_length). rewrite padded_text, rev_app_distr. cbn [rev].
  rewrite <- (assoc_L (++)). cbn [app]. set (z := (7 - length (drop _ text))%nat).
  assert (Erev : rev (replicate z 0) = replicate z 0) by (clear; induction z as [|z IH]; [done|]; cbn [replicate rev]; by rewrite IH, <- replicate_cons_app).
  rewrite Erev, unpad_text by lia. rewrite bind_ok. destruct (Z.gtb_spec (1 + Z.of_nat z) 8); [lia|].
  rewrite length_app. cbn [length]. rewrite length_replicate. replace (length text + S z - Z.to_nat (1 + Z.of_nat z))%nat with (length text) by lia.
  by rewrite take_app_length.
Qed.

Lemma des_roundtrip_witness :
  lbind (ldesencode (str "8 bytes!") (str "a text of 17 char")) (λ c, ldesdecode (str "8 bytes!") c) = lua_ret (str "a text of 17 char").
Proof. apply des_roundtrip; [repeat constructor; done|done|repeat constructor; done|done]. Defined.

(** The vector everybody uses. *)
Example des_vector :
  (SK ← des_main_ks [0x13; 0x34; 0x57; 0x79; 0x9b; 0xbc; 0xdf; 0xf1]; des_crypt SK [0x01; 0x23; 0x45; 0x67; 0x89; 0xab; 0xcd; 0xef]) =
    Ok [0x85; 0xe8; 0x13; 0x54; 0x0f; 0x0a; 0xb4; 0x05].
Proof. vm_compute. reflexivity. Qed.

(** A block that decodes to eight zeros: the index of the padding loop goes on below 0. *)
Example zero_block_overreads :
  (c ← (SK ← des_main_ks (str "8 bytes!"); des_crypt SK (replicate 8 0)); ldesdecode (str "8 bytes!") c) = Fault OutOfBounds.
Proof. vm_compute. reflexivity. Qed.
