(* ===== verification/CryptDh.v ===== *)
(** The key exchange computes powers modulo a prime, and both sides get the same secret. *)

From Stdlib Require Import Znumtheory Zpow_facts.
From S2P Require Import Prelude CString Frames Gate Crypt.
Open Scope Z_scope.

(** ** Arithmetic modulo P *)

Definition reduced (a : Z) : Prop := 0 ≤ a < P64.

Lemma mul_round_step m a b : reduced m → reduced a → 0 < b →
  ∃ m' a', mul_round (m, a, b) = Ok (Continue (m', a', Z.shiftr b 1)) ∧ reduced m' ∧ reduced a' ∧
    (m' + a' * (b / 2)) mod P64 = (m + a * b) mod P64.
Proof.
  unfold reduced, P64. intros Hm Ha Hb. unfold mul_round. destruct (Z.eqb_spec b 0) as [|_]; [lia|]. unfold P64.
  assert (Eu : u64 (0xffffffffffffffc5 - a) = 0xffffffffffffffc5 - a) by (unfold u64; apply Z.mod_small; lia). rewrite Eu, !Z.geb_leb.
  change 1 with (Z.ones 1) at 1. rewrite Z.land_ones by lia. change (2 ^ 1) with 2.
  assert (Ha' : ∃ a' k, (if 0xffffffffffffffc5 - a <=? a then u64 (a * 2 - 0xffffffffffffffc5) else u64 (a * 2)) = a' ∧
    0 ≤ a' < 0xffffffffffffffc5 ∧ a' = a * 2 - k * 0xffffffffffffffc5).
  { destruct (Z.leb_spec (0xffffffffffffffc5 - a) a).
    - exists (a * 2 - 0xffffffffffffffc5), 1. split; [unfold u64; apply Z.mod_small; lia|lia].
    - exists (a * 2), 0. split; [unfold u64; apply Z.mod_small; lia|lia]. }
  destruct Ha' as (a' & k & -> & Ha' & Ek). pose proof (Z.div_mod b 2 ltac:(lia)) as Ed. pose proof (Z.mod_pos_bound b 2 ltac:(lia)) as Hr.
  set (q := b / 2) in *. destruct (Z.eqb_spec (b mod 2) 0) as [E|E].
  - exists m, a'. split; [done|]. split; [done|]. split; [done|]. rewrite Ed, E, Ek.
    replace (m + (a * 2 - k * 0xffffffffffffffc5) * q) with (m + a * (2 * q + 0) + (- (k * q)) * 0xffffffffffffffc5) by lia. apply Z.mod_add. lia.
  - assert (Eo : b mod 2 = 1) by lia. destruct (Z.leb_spec (0xffffffffffffffc5 - a) m).
    + exists (m - (0xffffffffffffffc5 - a)), a'. split; [do 4 f_equal; unfold u64; apply Z.mod_small; lia|]. split; [lia|]. split; [done|]. rewrite Ed, Eo, Ek.
      replace (m - (0xffffffffffffffc5 - a) + (a * 2 - k * 0xffffffffffffffc5) * q) with (m + a * (2 * q + 1) + (- (1 + k * q)) * 0xffffffffffffffc5) by lia. apply Z.mod_add. lia.
    + exists (m + a), a'. split; [do 4 f_equal; unfold u64; apply Z.mod_small; lia|]. split; [lia|]. split; [done|]. rewrite Ed, Eo, Ek.
      replace (m + a + (a * 2 - k * 0xffffffffffffffc5) * q) with (m + a * (2 * q + 1) + (- (k * q)) * 0xffffffffffffffc5) by lia. apply Z.mod_add. lia.
Qed.

Lemma mul_loop fuel : ∀ m a b, reduced m → reduced a → 0 ≤ b < 2 ^ Z.of_nat fuel →
  iterate (S fuel) mul_round (m, a, b) = Ok ((m + a * b) mod P64).
Proof.
  induction fuel as [|fuel IH]; intros m a b Hm Ha Hb.
  - assert (b = 0) as -> by (cbn in Hb; lia). cbn. f_equal. rewrite Z.mul_0_r, Z.add_0_r, Z.mod_small by done. done.
  - destruct (Z.eqb_spec b 0) as [->|Hne].
    + cbn. f_equal. rewrite Z.mul_0_r, Z.add_0_r, Z.mod_small by done. done.
    + destruct (mul_round_step m a b Hm Ha ltac:(lia)) as (m' & a' & E & Hm' & Ha' & Er).
      remember (S fuel) as f. cbn [iterate]. rewrite E, bind_ok. subst f. rewrite Z.shiftr_div_pow2 by lia. change (2 ^ 1) with 2.
      rewrite Nat2Z.inj_succ, Z.pow_succ_r in Hb by lia.
      assert (Hq : 0 ≤ b / 2 < 2 ^ Z.of_nat fuel) by (split; [apply Z.div_pos; lia|apply Z.div_lt_upper_bound; lia]).
      by rewrite (IH _ _ _ Hm' Ha' Hq), Er.
Qed.

Lemma mul_mod_p_lemma a b : reduced a → 0 ≤ b < 2 ^ 64 → mul_mod_p a b = Ok ((a * b) mod P64).
Proof. intros Ha Hb. unfold mul_mod_p. by rewrite (mul_loop 64). Qed.

Lemma reduced_mod a : reduced (a mod P64).
Proof. apply Z.mod_pos_bound. done. Qed.

Lemma pow_mod_p_lemma fuel : ∀ a b, reduced a → 0 < b < 2 ^ Z.of_nat fuel → pow_mod_p fuel a b = Ok (a ^ b mod P64).
Proof.
  induction fuel as [|fuel IH]; intros a b Ha Hb; [cbn in Hb; lia|]. cbn [pow_mod_p]. destruct (Z.eqb_spec b 1) as [->|Hne].
  { by rewrite Z.pow_1_r, Z.mod_small. }
  rewrite Z.shiftr_div_pow2 by lia. change (2 ^ 1) with 2. pose proof (Z.div_mod b 2 ltac:(lia)) as Ed. pose proof (Z.mod_pos_bound b 2 ltac:(lia)) as Hr.
  rewrite Nat2Z.inj_succ, Z.pow_succ_r in Hb by lia. rewrite IH by (done || lia). rewrite bind_ok. pose proof (reduced_mod (a ^ (b / 2))) as Ht.
  assert (HP : P64 < 2 ^ 64) by done. unfold reduced in *. rewrite mul_mod_p_lemma, bind_ok by (done || lia). rewrite <- Z.mul_mod by done. rewrite <- Z.pow_add_r by lia.
  destruct (Z.eqb_spec (b mod 2) 0) as [E|E]; cbn [negb].
  - do 3 f_equal. lia.
  - rewrite mul_mod_p_lemma by (apply reduced_mod || lia). f_equal. rewrite Z.mul_mod_idemp_l by done.
    replace b with (b / 2 + b / 2 + 1) at 3 by lia. by rewrite (Z.pow_add_r a _ 1), Z.pow_1_r by lia.
Qed.

Lemma powmodp_lemma a b : 0 ≤ a < 2 ^ 64 → a ≠ P64 → 0 < b < 2 ^ 64 → powmodp a b = Ok (a ^ b mod P64).
Proof.
  intros Ha Hne Hb. unfold powmodp. rewrite Z.gtb_ltb. destruct (Z.ltb_spec P64 a).
  - rewrite pow_mod_p_lemma by (done || apply reduced_mod). by rewrite <- Zpower_mod.
  - apply pow_mod_p_lemma; [unfold reduced; lia|done].
Qed.

(** ** Eight bytes, little-endian *)

Fixpoint le (l : list Z) : Z := match l with [] => 0 | b :: l => b + le l * 2 ^ 8 end.

Definition key8 (x : list Z) : Prop := Forall byte x ∧ length x = 8%nat.

Lemma le_range l : Forall byte l → 0 ≤ le l < 2 ^ (8 * Z.of_nat (length l)).
Proof.
  induction 1 as [|b l Hb _ IH]; [cbn; lia|]. cbn [le length]. replace (8 * Z.of_nat (S (length l))) with (8 + 8 * Z.of_nat (length l)) by lia.
  rewrite Z.pow_add_r by lia. unfold byte in Hb. lia.
Qed.

Lemma key8_range x : key8 x → 0 ≤ le x < 2 ^ 64.
Proof. intros [Hb Hl]. pose proof (le_range x Hb) as Hr. rewrite Hl in Hr. exact Hr. Qed.

Lemma word_bits b0 b1 b2 b3 : byte b0 → byte b1 → byte b2 → byte b3 →
  u32 (Z.lor (Z.lor (Z.lor b0 (Z.shiftl b1 8)) (Z.shiftl b2 16)) (i32 (Z.shiftl b3 24))) = le [b0; b1; b2; b3].
Proof.
  unfold byte. intros H0 H1 H2 H3. destruct (i32_top_byte b3 H3) as (hi & -> & Ehi).
  rewrite (lor_shiftl b0), (lor_shiftl (b0 + _)), (lor_shiftl (b0 + _ + _)) by lia. pose proof (Z.div_mod hi (2 ^ 8) ltac:(lia)) as Ed. rewrite Ehi in Ed. unfold u32, le.
  replace (b0 + b1 * 2 ^ 8 + b2 * 2 ^ 16 + hi * 2 ^ 24) with (b0 + (b1 + (b2 + (b3 + 0 * 2 ^ 8) * 2 ^ 8) * 2 ^ 8) * 2 ^ 8 + (hi / 2 ^ 8) * 2 ^ 32) by lia.
  rewrite Z.mod_add by lia. apply Z.mod_small. lia.
Qed.

Lemma key8_words x : key8 x → word_of x 0 = Ok (le (take 4 x)) ∧ word_of x 4 = Ok (le (drop 4 x)) ∧ word64 (le (take 4 x), le (drop 4 x)) = le x.
Proof.
  intros [Hb Hl]. destruct x as [|b0 [|b1 [|b2 [|b3 [|b4 [|b5 [|b6 [|b7 [|? ?]]]]]]]]]; try done. rewrite !Forall_cons in Hb.
  destruct Hb as (H0 & H1 & H2 & H3 & H4 & H5 & H6 & H7 & _). cbn [take drop]. split; [|split].
  - rewrite <- word_bits by done. done.
  - rewrite <- word_bits by done. done.
  - assert (Hlo : 0 ≤ le [b0; b1; b2; b3] < 2 ^ 32) by (apply (le_range [b0; b1; b2; b3]); rewrite !Forall_cons, Forall_nil; done).
    assert (Hhi : 0 ≤ le [b4; b5; b6; b7] < 2 ^ 32) by (apply (le_range [b4; b5; b6; b7]); rewrite !Forall_cons, Forall_nil; done).
    unfold word64. cbn [fst snd]. assert (Eu : u64 (Z.shiftl (le [b4; b5; b6; b7]) 32) = Z.shiftl (le [b4; b5; b6; b7]) 32).
    { unfold u64. rewrite Z.shiftl_mul_pow2 by lia. apply Z.mod_small. lia. }
    rewrite Eu, lor_shiftl by lia. unfold le. lia.
Qed.

Lemma push64_eq r : push64 r = map (λ i, (r / 2 ^ (8 * i)) mod 2 ^ 8) [0; 1; 2; 3; 4; 5; 6; 7].
Proof.
  unfold push64. apply map_ext_in. intros i Hi. change 0xff with (Z.ones 8). rewrite Z.land_ones, Z.shiftr_div_pow2 by (cbn in Hi; lia). done.
Qed.

Lemma push64_key r : key8 (push64 r).
Proof. rewrite push64_eq. split; [|done]. apply Forall_map. cbn. repeat constructor; unfold byte; by apply Z.mod_pos_bound. Qed.

Lemma digits k : ∀ r, 0 ≤ r < 2 ^ (8 * Z.of_nat k) → le (map (λ i, (r / 2 ^ (8 * i)) mod 2 ^ 8) (seqZ 0 (Z.of_nat k))) = r.
Proof.
  induction k as [|k IH]; intros r Hr.
  { change (8 * Z.of_nat 0) with 0 in Hr. rewrite Z.pow_0_r in Hr. assert (r = 0) as -> by lia. done. }
  rewrite seqZ_cons by lia. cbn [map le].
  assert (E : map (λ i, (r / 2 ^ (8 * i)) mod 2 ^ 8) (seqZ (Z.succ 0) (Z.pred (Z.of_nat (S k)))) =
    map (λ i, ((r / 2 ^ 8) / 2 ^ (8 * i)) mod 2 ^ 8) (seqZ 0 (Z.of_nat k))).
  { replace (Z.pred (Z.of_nat (S k))) with (Z.of_nat k) by lia. change (Z.succ 0) with 1. rewrite <- (fmap_add_seqZ 1 0).
    change (Z.add 1 <$> seqZ 0 (Z.of_nat k)) with (map (Z.add 1) (seqZ 0 (Z.of_nat k))). rewrite map_map. apply map_ext_in. intros i Hi.
    apply list_elem_of_In, elem_of_seqZ in Hi. rewrite Z.div_div by lia. rewrite <- Z.pow_add_r by lia. do 3 f_equal. lia. }
  rewrite E, (IH (r / 2 ^ 8)); [|split; [apply Z.div_pos; lia|apply Z.div_lt_upper_bound; [lia|]]].
  - rewrite Z.mul_0_r, Z.pow_0_r, Z.div_1_r. pose proof (Z.div_mod r (2 ^ 8) ltac:(lia)). lia.
  - rewrite <- Z.pow_add_r by lia. replace (8 + 8 * Z.of_nat k) with (8 * Z.of_nat (S k)) by lia. lia.
Qed.

Lemma le_push64 r : 0 ≤ r < 2 ^ 64 → le (push64 r) = r.
Proof. intros Hr. rewrite push64_eq. by apply (digits 8 r Hr). Qed.

(** ** The exchange *)

Lemma exchange_lemma x : key8 x → le x ≠ 0 → ldhexchange x = lua_ret (push64 (G64 ^ le x mod P64)).
Proof.
  intros Hx H0. destruct (key8_words x Hx) as (E1 & E2 & Ew). pose proof (key8_range x Hx). unfold ldhexchange.
  rewrite (proj2 Hx). cbn [negb Z.eqb Z.of_nat]. change (Z.of_nat 8 =? 8) with true. cbn [negb]. rewrite E1, bind_ok, E2, bind_ok, Ew.
  destruct (Z.eqb_spec (le x) 0) as [|_]; [done|]. by rewrite powmodp_lemma by (done || lia).
Qed.

Lemma secret_lemma x y : key8 x → key8 y → le x ≠ 0 → le y ≠ 0 → le x ≠ P64 → ldhsecret x y = lua_ret (push64 (le x ^ le y mod P64)).
Proof.
  intros Hx Hy H0 H1 HP. destruct (key8_words x Hx) as (E1 & E2 & Ew), (key8_words y Hy) as (E3 & E4 & Ew').
  pose proof (key8_range x Hx). pose proof (key8_range y Hy). unfold ldhsecret, read64. rewrite (proj2 Hx), (proj2 Hy).
  change (Z.of_nat 8 =? 8) with true. cbn [negb]. rewrite E1, bind_ok, E2, bind_ok, E3, bind_ok, E4, bind_ok. cbn [lbind lua_ret]. rewrite Ew, Ew'.
  destruct (Z.eqb_spec (le x) 0) as [|_]; [done|]. destruct (Z.eqb_spec (le y) 0) as [|_]; [done|]. cbn [orb].
  by rewrite powmodp_lemma by (done || lia).
Qed.

(** A power of the generator is not 0 modulo the prime. *)
Lemma power_nonzero n : 0 ≤ n → G64 ^ n mod P64 ≠ 0.
Proof.
  intros Hn E. assert (Hrel : rel_prime (G64 ^ n) P64).
  { apply rel_prime_sym, rel_prime_Zpower_r; [done|]. apply Zgcd_1_rel_prime. done. }
  apply Zmod_divide in E; [|done]. destruct Hrel as [_ _ Hrel]. pose proof (Hrel P64 E (Z.divide_refl P64)) as H1.
  apply Z.divide_1_r in H1. by destruct H1.
Qed.

(** C16.  Both sides of the key exchange get the same secret.  For any two secret numbers of
    eight bytes that are not 0: each side's [ldhexchange] succeeds, [ldhsecret] succeeds with
    the other side's public number and the own secret number, and both results are
    the same, 5 to the power of the product modulo the largest 64 bit prime; no intermediate
    sum or product overflows its 64 bits. *)
Theorem dh_agreement x y : key8 x → key8 y → le x ≠ 0 → le y ≠ 0 →
  let secret := push64 (G64 ^ (le x * le y) mod P64) in
  lbind (ldhexchange x) (λ X, ldhsecret X y) = lua_ret secret ∧ lbind (ldhexchange y) (λ Y, ldhsecret Y x) = lua_ret secret.
Proof.
  intros Hx Hy H0 H1 secret. assert (Hside : ∀ x y, key8 x → key8 y → le x ≠ 0 → le y ≠ 0 →
    lbind (ldhexchange x) (λ X, ldhsecret X y) = lua_ret (push64 (G64 ^ (le x * le y) mod P64))).
  { clear. intros x y Hx Hy H0 H1. pose proof (key8_range x Hx). pose proof (key8_range y Hy). rewrite exchange_lemma by done. cbn [lbind lua_ret].
    pose proof (reduced_mod (G64 ^ le x)) as Hr. pose proof (power_nonzero (le x) ltac:(lia)) as Hn. unfold reduced in Hr.
    assert (HP : P64 < 2 ^ 64) by done.
    assert (El : le (push64 (G64 ^ le x mod P64)) = G64 ^ le x mod P64) by (apply le_push64; lia).
    rewrite secret_lemma by (apply push64_key || done || rewrite El; lia). rewrite El, <- Zpower_mod, <- Z.pow_mul_r by (done || lia). done. }
  split; [by apply Hside|]. unfold secret. rewrite Z.mul_comm. by apply Hside.
Qed.

Lemma dh_agreement_witness :
  let x := [1; 2; 3; 4; 5; 6; 7; 8] in let y := [255; 255; 255; 255; 255; 255; 255; 255] in
  lbind (ldhexchange x) (λ X, ldhsecret X y) = lbind (ldhexchange y) (λ Y, ldhsecret Y x).
Proof.
  cbv zeta. destruct (dh_agreement [1; 2; 3; 4; 5; 6; 7; 8] [255; 255; 255; 255; 255; 255; 255; 255]) as [E1 E2];
    [split; [repeat constructor; done|done]..|done|done|]. etransitivity; [exact E1|symmetry; exact E2].
Defined.

(** With an exponent of 0, which the callers exclude, [pow_mod_p] would not return. *)
Example pow_zero a fuel : pow_mod_p fuel a 0 = Fault OutOfFuel.
Proof. induction fuel as [|fuel IH]; [done|]. cbn [pow_mod_p Z.eqb]. change (Z.shiftr 0 1) with 0. by rewrite IH. Qed.

(** The prime itself is not reduced. *)
Example prime_unreduced : ldhsecret (push64 P64) [1; 0; 0; 0; 0; 0; 0; 0] = lua_ret (push64 P64).
Proof. vm_compute. reflexivity. Qed.
