(* ===== verification/CryptText.v ===== *)
(** The text forms of bytes and numbers can be read back: base 64, hexadecimal, base 36. *)

From S2P Require Import Prelude CString Frames Gate GateProps Crypt CryptDes.
Open Scope Z_scope.

(** ** Base 64: the reference *)

(** The four digits of one, two or three bytes; -2 stands for the padding. *)
Definition digits3 (a b c : Z) : list Z :=
  let v := a * 2 ^ 16 + b * 2 ^ 8 + c in [v / 2 ^ 18; v / 2 ^ 12 mod 64; v / 2 ^ 6 mod 64; v mod 64].
Definition digits2 (a b : Z) : list Z := let v := a * 2 ^ 8 + b in [v / 2 ^ 10; v / 2 ^ 4 mod 64; v mod 16 * 4; -2].
Definition digits1 (a : Z) : list Z := [a / 4; a mod 4 * 16; -2; -2].

Definition b64char (d : Z) : Z := if d =? -2 then 61 else nth (Z.to_nat d) encoding 0.

Fixpoint base64 (l : list Z) : list Z :=
  match l with
  | a :: b :: c :: l => map b64char (digits3 a b c) ++ base64 l
  | [a; b] => map b64char (digits2 a b)
  | [a] => map b64char (digits1 a)
  | [] => []
  end.

Definition digit_ok (d : Z) : Prop := 0 ≤ d < 64 ∨ d = -2.

Lemma all_digits (P : Z → bool) : forallb P (seqZ 0 64) = true → ∀ d, 0 ≤ d < 64 → P d = true.
Proof. intros H d Hd. apply (proj1 (forallb_forall _ _) H). apply list_elem_of_In, elem_of_seqZ. lia. Qed.

Definition is_ok_eq (r : res Z) (d : Z) : bool := match r with Ok v => v =? d | Fault _ => false end.

Lemma is_ok_eq_true r d : is_ok_eq r d = true → r = Ok d.
Proof. destruct r; [|done]. cbn. by intros ->%Z.eqb_eq. Qed.

Lemma index_char d : digit_ok d → b64index (b64char d) = Ok d.
Proof.
  intros [Hd| ->]; [|done].
  pose proof (all_digits (λ d, is_ok_eq (b64index (b64char d)) d) ltac:(vm_compute; reflexivity) d Hd) as E.
  by apply is_ok_eq_true in E.
Qed.

Lemma char_encoding d : 0 ≤ d < 64 → rd encoding d = Ok (b64char d).
Proof.
  intros Hd. pose proof (all_digits (λ d, is_ok_eq (rd encoding d) (b64char d)) ltac:(vm_compute; reflexivity) d Hd) as E.
  by apply is_ok_eq_true in E.
Qed.

(** Induction by three. *)
Lemma three_ind (P : list Z → Prop) : P [] → (∀ a, P [a]) → (∀ a b, P [a; b]) → (∀ a b c l, P l → P (a :: b :: c :: l)) → ∀ l, P l.
Proof.
  intros H0 H1 H2 H3 l. remember (length l) as n eqn:E. revert l E. induction n as [n IH] using lt_wf_ind. intros [|a [|b [|c l]]] E; try done.
  apply H3. apply (IH (length l)); [cbn in E; lia|done].
Qed.

Lemma base64_length l : Z.of_nat (length (base64 l)) = (Z.of_nat (length l) + 2) / 3 * 4.
Proof.
  induction l as [|a|a b|a b c l IH] using three_ind; [done..|]. cbn [base64]. rewrite length_app, Nat2Z.inj_add, IH. cbn [length map digits3].
  replace (Z.of_nat (S (S (S (length l)))) + 2) with (Z.of_nat (length l) + 2 + 1 * 3) by lia. rewrite Z.div_add by lia. lia.
Qed.

(** ** The bytes of four digits *)

Lemma lor_add hi lo n : 0 ≤ n → 0 ≤ lo < 2 ^ n → Z.lor (Z.shiftl hi n) lo = hi * 2 ^ n + lo.
Proof. intros Hn Hlo. rewrite Z.lor_comm, lor_shiftl by done. lia. Qed.

Lemma lor3 a b c : byte a → byte b → byte c → Z.lor (Z.lor (Z.shiftl a 16) (Z.shiftl b 8)) c = a * 2 ^ 16 + b * 2 ^ 8 + c.
Proof.
  unfold byte. intros Ha Hb Hc. assert (E : Z.lor (Z.shiftl a 16) (Z.shiftl b 8) = Z.shiftl (a * 2 ^ 8 + b) 8).
  { replace 16 with (8 + 8) by done. rewrite <- Z.shiftl_shiftl, <- Z.shiftl_lor by lia. by rewrite lor_add by lia. }
  rewrite E, lor_add by lia. lia.
Qed.

Lemma lor4 a b c d : 0 ≤ a → 0 ≤ b < 64 → 0 ≤ c < 64 → 0 ≤ d < 64 →
  Z.lor (Z.lor (Z.lor (Z.shiftl a 18) (Z.shiftl b 12)) (Z.shiftl c 6)) d = a * 2 ^ 18 + b * 2 ^ 12 + c * 2 ^ 6 + d.
Proof.
  intros Ha Hb Hc Hd. assert (E1 : Z.lor (Z.shiftl a 18) (Z.shiftl b 12) = Z.shiftl (a * 2 ^ 6 + b) 12).
  { replace 18 with (6 + 12) by done. rewrite <- Z.shiftl_shiftl, <- Z.shiftl_lor by lia. by rewrite lor_add by lia. }
  assert (E2 : Z.lor (Z.shiftl (a * 2 ^ 6 + b) 12) (Z.shiftl c 6) = Z.shiftl ((a * 2 ^ 6 + b) * 2 ^ 6 + c) 6).
  { replace 12 with (6 + 6) by done. rewrite <- Z.shiftl_shiftl, <- Z.shiftl_lor by lia. by rewrite lor_add by lia. }
  rewrite E1, E2, lor_add by lia. lia.
Qed.

(** The four digits of a number below 2^24, and its three bytes. *)
Lemma digits_value v : 0 ≤ v < 2 ^ 24 → v / 2 ^ 18 * 2 ^ 18 + v / 2 ^ 12 mod 64 * 2 ^ 12 + v / 2 ^ 6 mod 64 * 2 ^ 6 + v mod 64 = v.
Proof.
  intros Hv. change 64 with (2 ^ 6). pose proof (Z.div_mod v (2 ^ 6) ltac:(lia)) as E1. pose proof (Z.div_mod (v / 2 ^ 6) (2 ^ 6) ltac:(lia)) as E2.
  pose proof (Z.div_mod (v / 2 ^ 12) (2 ^ 6) ltac:(lia)) as E3. rewrite Z.div_div in E2, E3 by lia.
  change (2 ^ 6 * 2 ^ 6) with (2 ^ 12) in *. change (2 ^ 12 * 2 ^ 6) with (2 ^ 18) in *. lia.
Qed.

Lemma bytes_value a b c : byte a → byte b → byte c → let v := a * 2 ^ 16 + b * 2 ^ 8 + c in
  v / 2 ^ 16 = a ∧ v / 2 ^ 8 mod 2 ^ 8 = b ∧ v mod 2 ^ 8 = c.
Proof.
  intros Ha Hb Hc v. unfold byte in *.
  assert (E16 : v / 2 ^ 16 = a) by (symmetry; apply (Z.div_unique_pos _ _ _ (b * 2 ^ 8 + c)); unfold v; lia).
  assert (E8 : v / 2 ^ 8 = b + a * 2 ^ 8) by (symmetry; apply (Z.div_unique_pos _ _ _ c); unfold v; lia).
  split; [done|]. split.
  - rewrite E8, Z.mod_add, Z.mod_small by lia. done.
  - replace v with (c + (a * 2 ^ 8 + b) * 2 ^ 8) by (unfold v; lia). rewrite Z.mod_add, Z.mod_small by lia. done.
Qed.

Lemma digits3_ok a b c : byte a → byte b → byte c → Forall (λ d, 0 ≤ d < 64) (digits3 a b c).
Proof.
  unfold byte. intros Ha Hb Hc. unfold digits3. cbv zeta. set (v := a * 2 ^ 16 + b * 2 ^ 8 + c).
  assert (Hv : 0 ≤ v < 2 ^ 24) by (unfold v; lia). assert (Hm : ∀ x, 0 ≤ x mod 64 < 64) by (intros x; by apply Z.mod_pos_bound).
  repeat constructor; try apply Hm; [apply Z.div_pos; lia|apply Z.div_lt_upper_bound; lia].
Qed.

Lemma land_255 v : Z.land v 0xff = v mod 2 ^ 8.
Proof. change 0xff with (Z.ones 8). by rewrite Z.land_ones. Qed.

Lemma quad3 a b c : byte a → byte b → byte c → quad (digits3 a b c) = Some [a; b; c].
Proof.
  intros Ha Hb Hc. pose proof (digits3_ok a b c Ha Hb Hc) as Hd. destruct (bytes_value a b c Ha Hb Hc) as (E1 & E2 & E3). unfold digits3 in *. cbv zeta in *.
  set (v := a * 2 ^ 16 + b * 2 ^ 8 + c) in *. assert (Hv : 0 ≤ v < 2 ^ 24) by (unfold v, byte in *; lia). pose proof (digits_value v Hv) as Ev.
  rewrite !Forall_cons in Hd. destruct Hd as (H0 & H1 & H2 & H3 & _). unfold quad.
  rewrite (filter_none (λ x, x = -2)) by (intros x; rewrite !elem_of_cons; intros [->|[->|[->|[->|?]]]]; [lia..|by apply not_elem_of_nil in H]).
  cbn [length Nat.eqb]. assert (Es : shl (u32 (v / 2 ^ 18)) 18 = Z.shiftl (v / 2 ^ 18) 18).
  { unfold shl. rewrite (u32_small (v / 2 ^ 18)), u32_small; [done| |lia]. rewrite Z.shiftl_mul_pow2 by lia. lia. }
  rewrite Es, lor4, Ev, !land_255 by lia. unfold shr, u8. rewrite !Z.shiftr_div_pow2 by lia. rewrite E1, E2, E3, Z.mod_small by done. done.
Qed.

Lemma quad2 a b : byte a → byte b → quad (digits2 a b) = Some [a; b] ∧ Forall digit_ok (digits2 a b).
Proof.
  unfold byte. intros Ha Hb. unfold digits2. cbv zeta. set (v := a * 2 ^ 8 + b). assert (Hv : 0 ≤ v < 2 ^ 16) by (unfold v; lia).
  assert (H0 : 0 ≤ v / 2 ^ 10 < 64) by (split; [apply Z.div_pos; lia|apply Z.div_lt_upper_bound; lia]).
  assert (H1 : 0 ≤ v / 2 ^ 4 mod 64 < 64) by (by apply Z.mod_pos_bound). assert (H2 : 0 ≤ v mod 16 < 16) by (by apply Z.mod_pos_bound).
  split; [|repeat constructor; unfold digit_ok; lia]. unfold quad.
  repeat (rewrite filter_cons_False by lia). rewrite filter_cons_True by done. cbn [filter list_filter length Nat.eqb].
  assert (Eland : Z.land (v mod 16 * 4) 3 = 0).
  { change 3 with (Z.ones 2). rewrite Z.land_ones by lia. change (2 ^ 2) with 4. by rewrite Z.mod_mul. }
  rewrite Eland. cbn [Z.eqb negb orb]. change (-2 =? -2) with true. cbn [negb orb].
  assert (Es : shl (u32 (v / 2 ^ 10)) 10 = Z.shiftl (v / 2 ^ 10) 10).
  { unfold shl. rewrite (u32_small (v / 2 ^ 10)), u32_small; [done| |lia]. rewrite Z.shiftl_mul_pow2 by lia. lia. }
  assert (Ec : Z.shiftr (v mod 16 * 4) 2 = v mod 16) by (rewrite Z.shiftr_div_pow2 by lia; by rewrite Z.div_mul).
  assert (E1 : Z.lor (Z.shiftl (v / 2 ^ 10) 10) (Z.shiftl (v / 2 ^ 4 mod 64) 4) = Z.shiftl (v / 2 ^ 10 * 2 ^ 6 + v / 2 ^ 4 mod 64) 4).
  { replace 10 with (6 + 4) at 2 by done. rewrite <- Z.shiftl_shiftl, <- Z.shiftl_lor by lia. by rewrite lor_add by lia. }
  assert (Ev : (v / 2 ^ 10 * 2 ^ 6 + v / 2 ^ 4 mod 64) * 2 ^ 4 + v mod 16 = v).
  { pose proof (Z.div_mod v (2 ^ 4) ltac:(lia)) as D1. pose proof (Z.div_mod (v / 2 ^ 4) (2 ^ 6) ltac:(lia)) as D2. rewrite Z.div_div in D2 by lia.
    change (2 ^ 4 * 2 ^ 6) with (2 ^ 10) in D2. change (2 ^ 6) with 64 in *. change (2 ^ 4) with 16 in *. lia. }
  rewrite Es, Ec, E1, lor_add, Ev, land_255 by lia. unfold shr, u8. rewrite Z.shiftr_div_pow2 by lia.
  assert (E8 : v / 2 ^ 8 = a) by (symmetry; apply (Z.div_unique_pos _ _ _ b); unfold v; lia).
  assert (E0 : v mod 2 ^ 8 = b) by (unfold v; rewrite Z.add_comm, Z.mod_add, Z.mod_small by lia; done). by rewrite E8, E0, Z.mod_small by lia.
Qed.

Lemma quad1 a : byte a → quad (digits1 a) = Some [a] ∧ Forall digit_ok (digits1 a).
Proof.
  unfold byte. intros Ha. unfold digits1. assert (H0 : 0 ≤ a / 4 < 64) by (split; [apply Z.div_pos; lia|apply Z.div_lt_upper_bound; lia]).
  assert (H1 : 0 ≤ a mod 4 < 4) by (by apply Z.mod_pos_bound). split; [|repeat constructor; unfold digit_ok; lia]. unfold quad.
  repeat (rewrite filter_cons_False by lia). repeat (rewrite filter_cons_True by done). cbn [filter list_filter length Nat.eqb].
  assert (Eland : Z.land (a mod 4 * 16) 0xf = 0).
  { change 0xf with (Z.ones 4). rewrite Z.land_ones by lia. change (2 ^ 4) with 16. by rewrite Z.mod_mul. }
  rewrite Eland. change (-2 =? -2) with true. change (0 =? 0) with true. cbn [negb orb].
  assert (Es : shl (u32 (a / 4)) 2 = Z.shiftl (a / 4) 2).
  { unfold shl. rewrite (u32_small (a / 4)), u32_small; [done| |lia]. rewrite Z.shiftl_mul_pow2 by lia. lia. }
  assert (Ec : Z.shiftr (a mod 4 * 16) 4 = a mod 4) by (rewrite Z.shiftr_div_pow2 by lia; by rewrite Z.div_mul).
  rewrite Es, Ec, lor_add by lia. pose proof (Z.div_mod a 4 ltac:(lia)). replace (a / 4 * 2 ^ 2 + a mod 4) with a by lia.
  unfold u8. by rewrite Z.mod_small by lia.
Qed.

(** ** Encoding *)

Lemma rd_app_at (pre l : list Z) j x : l !! j = Some x → rd (pre ++ l) (Z.of_nat (length pre) + Z.of_nat j) = Ok x.
Proof. intros Hx. apply rd_ok; [lia|]. rewrite <- Nat2Z.inj_add, Nat2Z.id, lookup_app_r by lia. by replace (length pre + j - length pre)%nat with j by lia. Qed.


Lemma rd_app_0 (pre l : list Z) x : rd (pre ++ x :: l) (Z.of_nat (length pre)) = Ok x.
Proof. replace (Z.of_nat (length pre)) with (Z.of_nat (length pre) + Z.of_nat 0) by lia. by apply rd_app_at. Qed.
Lemma rd_app_1 (pre l : list Z) x y : rd (pre ++ x :: y :: l) (Z.of_nat (length pre) + 1) = Ok y.
Proof. by apply (rd_app_at pre _ 1). Qed.
Lemma rd_app_2 (pre l : list Z) x y z : rd (pre ++ x :: y :: z :: l) (Z.of_nat (length pre) + 2) = Ok z.
Proof. by apply (rd_app_at pre _ 2). Qed.

Lemma land_63 v : Z.land v 0x3f = v mod 64.
Proof. change 0x3f with (Z.ones 6). by rewrite Z.land_ones. Qed.

Definition filled (o : list Z) (m : nat) : buffer := map Some o ++ replicate m None.

Lemma b64_round_lemma pre a b c l o m : Forall byte (a :: b :: c :: l) → Z.of_nat (length (pre ++ a :: b :: c :: l)) < 2 ^ 31 → (4 ≤ m)%nat →
  b64_round (pre ++ a :: b :: c :: l) (Z.of_nat (length pre), Z.of_nat (length o), filled o m) =
    Ok (Continue (Z.of_nat (length (pre ++ [a; b; c])), Z.of_nat (length (o ++ map b64char (digits3 a b c))), filled (o ++ map b64char (digits3 a b c)) (m - 4))).
Proof.
  rewrite !Forall_cons. intros (Ha & Hb & Hc & _) Hlen Hm. unfold b64_round. rewrite i32_small by lia.
  destruct (Z.ltb_spec (Z.of_nat (length pre)) (Z.of_nat (length (pre ++ a :: b :: c :: l)) - 2)) as [_|Hge]; [|rewrite length_app in Hge; cbn [length] in Hge; lia].
  rewrite rd_app_0, bind_ok, rd_app_1, bind_ok, rd_app_2, bind_ok, lor3, !land_63 by done. cbv zeta. unfold shr. rewrite !Z.shiftr_div_pow2 by lia.
  pose proof (digits3_ok a b c Ha Hb Hc) as Hd. unfold digits3 in *. cbv zeta in *. rewrite !Forall_cons in Hd. destruct Hd as (H0 & H1 & H2 & H3 & _).
  rewrite (char_encoding _ H0), bind_ok, (char_encoding _ H1), bind_ok, (char_encoding _ H2), bind_ok, (char_encoding _ H3), bind_ok.
  unfold filled. rewrite wr_at_fill by done. rewrite bind_ok, !length_app. cbn [length map]. by rewrite !Nat2Z.inj_add.
Qed.

Lemma b64_tail_lemma pre l o m : Forall byte l → (length l < 3)%nat → Z.of_nat (length (pre ++ l)) < 2 ^ 31 → (length (base64 l) ≤ m)%nat →
  b64_tail (pre ++ l) (Z.of_nat (length pre)) (Z.of_nat (length o)) (filled o m) = Ok (filled (o ++ base64 l) (m - length (base64 l))).
Proof.
  intros Hl Hs Hlen Hm. unfold b64_tail. rewrite length_app, Nat2Z.inj_add in Hlen |- *.
  replace (Z.of_nat (length pre) + Z.of_nat (length l) - Z.of_nat (length pre)) with (Z.of_nat (length l)) by lia. rewrite i32_small by lia.
  destruct l as [|a [|b [|c l]]]; [| | |cbn in Hs; lia].
  - cbn [length base64]. change (Z.of_nat 0 =? 1) with false. change (Z.of_nat 0 =? 2) with false. cbn match. by rewrite app_nil_r, Nat.sub_0_r.
  - rewrite !Forall_cons in Hl. destruct Hl as [Ha _]. unfold byte in Ha. cbn [length]. change (Z.of_nat 1 =? 1) with true. cbn match.
    rewrite rd_app_0, bind_ok. unfold shr. rewrite Z.shiftr_div_pow2, (Z.shiftl_mul_pow2 _ 4) by lia. change 3 with (Z.ones 2). rewrite Z.land_ones by lia. change (2 ^ 2) with 4. change (2 ^ 4) with 16.
    assert (H0 : 0 ≤ a / 4 < 64) by (split; [apply Z.div_pos; lia|apply Z.div_lt_upper_bound; lia]). assert (H1 : 0 ≤ a mod 4 < 4) by (by apply Z.mod_pos_bound).
    rewrite (char_encoding _ H0), bind_ok, (char_encoding (a mod 4 * 16)), bind_ok by lia. unfold filled. by rewrite wr_at_fill.
  - rewrite !Forall_cons in Hl. destruct Hl as (Ha & Hb & _). unfold byte in Ha, Hb. cbn [length]. change (Z.of_nat 2 =? 1) with false. change (Z.of_nat 2 =? 2) with true. cbn match.
    rewrite rd_app_0, bind_ok, rd_app_1, bind_ok, lor_add by lia. cbv zeta. rewrite land_63. unfold shr. rewrite !Z.shiftr_div_pow2, (Z.shiftl_mul_pow2 _ 2) by lia. change 0xf with (Z.ones 4). rewrite Z.land_ones by lia.
    change (2 ^ 2) with 4. set (v := a * 2 ^ 8 + b). assert (Hv : 0 ≤ v < 2 ^ 16) by (unfold v; lia).
    assert (H0 : 0 ≤ v / 2 ^ 10 < 64) by (split; [apply Z.div_pos; lia|apply Z.div_lt_upper_bound; lia]).
    assert (H1 : 0 ≤ v / 2 ^ 4 mod 64 < 64) by (by apply Z.mod_pos_bound). assert (H2 : 0 ≤ v mod 2 ^ 4 < 16) by (by apply Z.mod_pos_bound).
    rewrite (char_encoding _ H0), bind_ok, (char_encoding _ H1), bind_ok, (char_encoding (v mod 2 ^ 4 * 4)), bind_ok by lia. unfold filled. by rewrite wr_at_fill.
Qed.

Lemma b64_round_end pre l j (b : buffer) : (length l < 3)%nat → Z.of_nat (length (pre ++ l)) < 2 ^ 31 →
  b64_round (pre ++ l) (Z.of_nat (length pre), j, b) = Ok (Break (Z.of_nat (length pre), j, b)).
Proof.
  intros Hl Hn. unfold b64_round. rewrite i32_small by lia. destruct (Z.ltb_spec (Z.of_nat (length pre)) (Z.of_nat (length (pre ++ l)) - 2)) as [Hlt|_]; [|done].
  rewrite length_app in Hlt. lia.
Qed.

Lemma encode_loop l : ∀ pre o m fuel, Forall byte l → Z.of_nat (length (pre ++ l)) < 2 ^ 31 → (length (base64 l) ≤ m)%nat → (length l < fuel)%nat →
  ('(i, j, buffer) ← iterate fuel (b64_round (pre ++ l)) (Z.of_nat (length pre), Z.of_nat (length o), filled o m);
   b64_tail (pre ++ l) i j buffer) = Ok (filled (o ++ base64 l) (m - length (base64 l))).
Proof.
  assert (Hend : ∀ pre l o m fuel, Forall byte l → (length l < 3)%nat → Z.of_nat (length (pre ++ l)) < 2 ^ 31 → (length (base64 l) ≤ m)%nat → (length l < fuel)%nat →
    ('(i, j, buffer) ← iterate fuel (b64_round (pre ++ l)) (Z.of_nat (length pre), Z.of_nat (length o), filled o m);
     b64_tail (pre ++ l) i j buffer) = Ok (filled (o ++ base64 l) (m - length (base64 l)))).
  { intros pre l0 o m fuel Hl Hs Hlen Hm Hf. destruct fuel as [|fuel]; [lia|]. cbn [iterate]. rewrite b64_round_end, !bind_ok by done. by apply b64_tail_lemma. }
  induction l as [|a|a b|a b c l IH] using three_ind; intros pre o m fuel Hb Hlen Hm Hf; [apply Hend; done || cbn; lia..|].
  destruct fuel as [|fuel]; [lia|]. cbn [iterate]. cbn [base64] in *. rewrite length_app in Hm. change (length (map b64char (digits3 a b c))) with 4%nat in Hm.
  rewrite b64_round_lemma, bind_ok by (done || lia). rewrite !Forall_cons in Hb. destruct Hb as (_ & _ & _ & Hb).
  replace (pre ++ a :: b :: c :: l) with ((pre ++ [a; b; c]) ++ l) in * by (by rewrite <- app_assoc). rewrite IH; [|done|done|lia|cbn in Hf; lia].
  rewrite <- app_assoc, length_app. change (length (map b64char (digits3 a b c))) with 4%nat. do 2 f_equal. lia.
Qed.

Lemma lb64encode_lemma text : Forall byte text → (Z.of_nat (length text) + 2) / 3 * 4 < 2 ^ 31 → lb64encode text = lua_ret (base64 text).
Proof.
  intros Hb Hlen. assert (Hn : Z.of_nat (length text) < 2 ^ 31) by (pose proof (Z.mul_succ_div_gt (Z.of_nat (length text) + 2) 3); lia).
  unfold lb64encode. cbv zeta. rewrite i32_small by (pose proof (Z.div_pos (Z.of_nat (length text) + 2) 3); lia). rewrite <- base64_length in *.
  destruct (chunk_replicate (Z.of_nat (length (base64 text))) ltac:(lia)) as (m & -> & Hm). rewrite Nat2Z.id in Hm.
  pose proof (encode_loop text [] [] m (S (length text)) Hb Hn Hm ltac:(lia)) as E. cbn [app length] in E. change (filled [] m) with (replicate m (@None Z)) in E.
  change (Z.of_nat 0) with 0 in E.
  match type of E with (?x ≫= _) = _ => destruct x as [[[i j] b]|] eqn:Ei end; [|by cbn in E].
  rewrite bind_ok. change (b64_tail text i j b = Ok (filled (base64 text) (m - length (base64 text)))) in E. rewrite E, bind_ok. unfold filled. by rewrite init_bytes_lemma.
Qed.

(** ** Decoding *)

Lemma b64char_digit d : digit_ok d → b64index (b64char d) = Ok d ∧ d ≠ -1.
Proof. intros Hd. split; [by apply index_char|]. destruct Hd; lia. Qed.

Lemma four_lemma ds : ∀ pre rest c fuel, Forall digit_ok ds → (length c + length ds = 4)%nat → (length ds < fuel)%nat →
  four fuel (pre ++ map b64char ds ++ rest) (Z.of_nat (length pre)) c = Ok (Some (Z.of_nat (length (pre ++ map b64char ds)), c ++ ds)).
Proof.
  induction ds as [|d ds IH]; intros pre rest c fuel Hd Hc Hf; (destruct fuel as [|fuel]; [lia|]); cbn [four length] in *.
  - destruct (Nat.eqb_spec (length c) 4); [|lia]. cbn [map]. by rewrite !app_nil_r.
  - destruct (Nat.eqb_spec (length c) 4); [lia|]. apply Forall_cons in Hd as [Hd Hds]. destruct (b64char_digit d Hd) as [Ed Hne]. cbn [map app].
    assert (Hge : (Z.of_nat (length pre) >=? Z.of_nat (length (pre ++ b64char d :: map b64char ds ++ rest))) = false).
    { rewrite Z.geb_leb. apply Z.leb_gt. rewrite length_app. cbn [length]. lia. }
    rewrite Hge, rd_app_0, bind_ok, Ed, bind_ok. destruct (Z.eqb_spec d (-1)); [done|].
    pose proof (IH (pre ++ [b64char d]) rest (c ++ [d]) fuel Hds ltac:(rewrite length_app; cbn; lia) ltac:(lia)) as E. rewrite <- !app_assoc in E. cbn [app] in E.
    rewrite <- E. rewrite length_app. cbn [length]. do 2 f_equal. lia.
Qed.

Lemma unb64_round_lemma pre ds rest l o m : Forall digit_ok ds → length ds = 4%nat → quad ds = Some l → (length l ≤ m)%nat →
  unb64_round (pre ++ map b64char ds ++ rest) (Z.of_nat (length pre), Z.of_nat (length o), filled o m) =
    Ok (Continue (Z.of_nat (length (pre ++ map b64char ds)), Z.of_nat (length (o ++ l)), filled (o ++ l) (m - length l))).
Proof.
  intros Hd H4 Hq Hm. unfold unb64_round. destruct (Z.ltb_spec (Z.of_nat (length pre)) (Z.of_nat (length (pre ++ map b64char ds ++ rest)))) as [_|Hge];
    [|rewrite !length_app, length_map in Hge; lia].
  rewrite four_lemma, bind_ok; [|done|cbn [length]; lia|rewrite !length_app, length_map; lia]. cbn [app]. rewrite Hq. unfold filled. rewrite wr_at_fill, bind_ok by done.
  by rewrite length_app, (length_app o), !Nat2Z.inj_add.
Qed.

Lemma unb64_round_end pre o b : unb64_round pre (Z.of_nat (length pre), o, b) = Ok (Break (Some (o, b))).
Proof. unfold unb64_round. by rewrite Z.ltb_irrefl. Qed.

(** The four characters of a group, and what is left. *)
Lemma base64_group l : Forall byte l → l ≠ [] → ∃ ds, Forall digit_ok ds ∧ length ds = 4%nat ∧ quad ds = Some (take 3 l) ∧ base64 l = map b64char ds ++ base64 (drop 3 l).
Proof.
  intros Hl Hne. destruct l as [|a [|b [|c l]]]; [done| | |]; rewrite ?Forall_cons in Hl.
  - destruct (quad1 a ltac:(tauto)) as [Hq Hd]. exists (digits1 a). done.
  - destruct (quad2 a b ltac:(tauto) ltac:(tauto)) as [Hq Hd]. exists (digits2 a b). done.
  - exists (digits3 a b c). split; [|split; [done|split; [apply quad3; tauto|done]]].
    eapply Forall_impl; [apply digits3_ok; tauto|]. intros d Hd. by left.
Qed.

Lemma decode_loop n : ∀ l pre o m fuel, (length l ≤ n)%nat → Forall byte l → (length l ≤ m)%nat → (length l < fuel)%nat →
  iterate fuel (unb64_round (pre ++ base64 l)) (Z.of_nat (length pre), Z.of_nat (length o), filled o m) =
    Ok (Some (Z.of_nat (length (o ++ l)), filled (o ++ l) (m - length l))).
Proof.
  induction n as [|n IH]; intros l pre o m fuel Hn Hb Hm Hf; (destruct fuel as [|fuel]; [lia|]).
  { destruct l; [|cbn in Hn; lia]. cbn [iterate base64]. rewrite !app_nil_r, unb64_round_end, bind_ok. cbn [length]. by rewrite Nat.sub_0_r. }
  destruct (decide (l = [])) as [->|Hne].
  { cbn [iterate base64]. rewrite !app_nil_r, unb64_round_end, bind_ok. cbn [length]. by rewrite Nat.sub_0_r. }
  destruct (base64_group l Hb Hne) as (ds & Hd & H4 & Hq & E). rewrite E. cbn [iterate].
  assert (H3 : (length (take 3 l) + length (drop 3 l) = length l)%nat) by (rewrite <- length_app, take_drop; done).
  assert (H1 : (1 ≤ length (take 3 l))%nat) by (destruct l; [done|cbn; lia]).
  rewrite (unb64_round_lemma _ _ _ _ _ _ Hd H4 Hq), bind_ok by lia. rewrite app_assoc, IH by (lia || by apply Forall_drop).
  rewrite <- !app_assoc, take_drop. do 3 f_equal. unfold filled. do 2 f_equal. lia.
Qed.

Lemma lb64decode_lemma l : Forall byte l → (Z.of_nat (length l) + 2) / 3 * 4 < 2 ^ 31 → lb64decode (base64 l) = lua_ret l.
Proof.
  intros Hb Hn. pose proof (Z.mul_succ_div_gt (Z.of_nat (length l) + 2) 3 ltac:(lia)) as Hgt. pose proof (Z.div_pos (Z.of_nat (length l) + 2) 3 ltac:(lia) ltac:(lia)) as Hp.
  unfold lb64decode. cbv zeta. rewrite base64_length. set (k := (Z.of_nat (length l) + 2) / 3) in *.
  assert (Ek : (k * 4 + 3) / 4 = k) by (symmetry; apply (Z.div_unique_pos _ _ _ 3); lia). rewrite Ek, i32_small by lia.
  destruct (chunk_replicate (k * 3) ltac:(lia)) as (m & -> & Hm).
  assert (Hl : (length l ≤ length (base64 l))%nat) by (pose proof (base64_length l); fold k in H; lia).
  pose proof (decode_loop (length l) l [] [] m (S (length (base64 l))) (Nat.le_refl _) Hb ltac:(lia) ltac:(lia)) as E. cbn [app length] in E.
  change (filled [] m) with (replicate m (@None Z)) in E. change (Z.of_nat 0) with 0 in E. rewrite E, bind_ok. unfold filled. by rewrite init_bytes_lemma.
Qed.

(** C31.  Base 64: encoding a text gives the characters of RFC 4648, the reference [base64] (four
    characters for three bytes, with [=] to fill up the last group), and decoding them gives the
    text back, for every text whose encoding has a length that fits an [int]. *)
Theorem base64_roundtrip text : Forall byte text → (Z.of_nat (length text) + 2) / 3 * 4 < 2 ^ 31 →
  lb64encode text = lua_ret (base64 text) ∧ lb64decode (base64 text) = lua_ret text.
Proof. intros Hb Hn. split; [by apply lb64encode_lemma|by apply lb64decode_lemma]. Qed.

Lemma base64_roundtrip_witness : lb64encode (str "skynet!") = lua_ret (str "c2t5bmV0IQ==") ∧ lb64decode (str "c2t5bmV0IQ==") = lua_ret (str "skynet!").
Proof. apply (base64_roundtrip (str "skynet!")); [by apply (bool_decide_eq_true_1 _); vm_compute|reflexivity]. Defined.

(** Characters outside the alphabet are left out between groups, but not after the last one. *)
Example base64_newline : lb64decode (str "c2t5bmV0 IQ==") = lua_ret (str "skynet!") ∧
  lb64decode (str "c2t5bmV0IQ==" ++ [10]) = luaL_error (str "Invalid base64 text").
Proof. by vm_compute. Qed.
