(* ===== verification/CryptHex.v ===== *)
(** Hexadecimal and base 36: what the functions write, and that it can be read back. *)

From S2P Require Import Prelude CString Frames Gate GateText GateProps Crypt CryptDes CryptText.
Open Scope Z_scope.

(** A loop whose result a hypothesis gives, up to the unfolding of the types of its state. *)
Ltac rewrite_iterate E :=
  match goal with |- context [iterate ?f ?b ?s] => let H := fresh in assert (H : iterate f b s = _) by exact E; rewrite H; clear H end.

(** ** Hexadecimal *)

Definition hexchar (d : Z) : Z := nth (Z.to_nat d) hex_digits 0.
Definition hex1 (c : Z) : list Z := [hexchar (c / 16); hexchar (c mod 16)].
Definition hex (l : list Z) : list Z := concat (map hex1 l).

Lemma hex_length l : length (hex l) = (2 * length l)%nat.
Proof. induction l as [|c l IH]; [done|]. unfold hex in *. cbn [map concat hex1 app length]. rewrite IH. lia. Qed.

Lemma all_nibbles (P : Z → bool) : forallb P (seqZ 0 16) = true → ∀ d, 0 ≤ d < 16 → P d = true.
Proof. intros H d Hd. apply (proj1 (forallb_forall _ _) H). apply list_elem_of_In, elem_of_seqZ. lia. Qed.

Lemma hexchar_rd d : 0 ≤ d < 16 → rd hex_digits d = Ok (hexchar d).
Proof.
  intros Hd. apply is_ok_eq_true. revert d Hd. by apply (all_nibbles (λ d, is_ok_eq (rd hex_digits d) (hexchar d))); vm_compute.
Qed.

Lemma hexchar_value d : 0 ≤ d < 16 → HEX (hexchar d) = d.
Proof. intros Hd. apply Z.eqb_eq. revert d Hd. by apply (all_nibbles (λ d, HEX (hexchar d) =? d)); vm_compute. Qed.

Lemma nibbles c : byte c → 0 ≤ c / 16 < 16 ∧ 0 ≤ c mod 16 < 16 ∧ Z.shiftr c 4 = c / 16 ∧ Z.land c 0xf = c mod 16 ∧ c / 16 * 16 + c mod 16 = c.
Proof.
  unfold byte. intros Hc. assert (H0 : 0 ≤ c / 16 < 16) by (split; [apply Z.div_pos; lia|apply Z.div_lt_upper_bound; lia]).
  assert (H1 : 0 ≤ c mod 16 < 16) by (by apply Z.mod_pos_bound). rewrite Z.shiftr_div_pow2 by lia. change 0xf with (Z.ones 4). rewrite Z.land_ones by lia.
  change (2 ^ 4) with 16. pose proof (Z.div_mod c 16 ltac:(lia)). lia.
Qed.

Lemma hex_loop l : ∀ pre o m, Forall byte l → length o = (2 * length pre)%nat → (2 * length l ≤ m)%nat →
  for_range (length l) (Z.of_nat (length pre)) (hex_round (pre ++ l)) (filled o m) = Ok (filled (o ++ hex l) (m - 2 * length l)).
Proof.
  induction l as [|c l IH]; intros pre o m Hb Ho Hm; cbn [length for_range] in *.
  { unfold hex. cbn [map concat]. by rewrite app_nil_r, Nat.sub_0_r. }
  apply Forall_cons in Hb as [Hc Hb]. destruct (nibbles c Hc) as (H0 & H1 & E0 & E1 & _).
  assert (E : hex_round (pre ++ c :: l) (Z.of_nat (length pre)) (filled o m) = Ok (filled (o ++ hex1 c) (m - 2))).
  { unfold hex_round. rewrite rd_app_0, bind_ok, E0, E1, !hexchar_rd, !bind_ok by done. replace (Z.of_nat (length pre) * 2) with (Z.of_nat (length o)) by lia.
    pose proof (wr_at_fill (hex1 c) o m ltac:(cbn; lia)) as E. unfold hex1 in E. cbn [wr_at] in E. unfold filled.
    destruct (wr (map Some o ++ replicate m None) (Z.of_nat (length o)) (Some (hexchar (c / 16)))) as [b|]; [|by cbn in E].
    rewrite bind_ok in E |- *. destruct (wr b (Z.of_nat (length o) + 1) (Some (hexchar (c mod 16)))); by cbn in E. }
  rewrite E, bind_ok. replace (Z.of_nat (length pre) + 1) with (Z.of_nat (length (pre ++ [c]))) by (rewrite length_app; cbn; lia).
  replace (pre ++ c :: l) with ((pre ++ [c]) ++ l) by (by rewrite <- app_assoc). rewrite IH by (done || rewrite ?length_app; cbn; lia).
  unfold hex. cbn [map concat]. rewrite app_assoc. do 2 f_equal. lia.
Qed.

Lemma ltohex_lemma text : Forall byte text → ltohex text = lua_ret (hex text).
Proof.
  intros Hb. unfold ltohex. cbv zeta. set (m := Z.to_nat _). assert (Hm : (2 * length text ≤ m)%nat).
  { unfold m, SMALL_CHUNK. destruct (Z.gtb_spec (Z.of_nat (length text)) (256 / 2)); [lia|]. change (256 / 2) with 128 in *. lia. }
  pose proof (hex_loop text [] [] m Hb eq_refl Hm) as E. cbn [app length] in E. change (filled [] m) with (replicate m (@None Z)) in E. change (Z.of_nat 0) with 0 in E.
  rewrite E, bind_ok. replace (Z.of_nat (length text) * 2) with (Z.of_nat (length (hex text))) by (rewrite hex_length; lia). unfold filled. by rewrite init_bytes_lemma.
Qed.

Lemma unhex_round_lemma pre c rest o m : byte c → length pre = (2 * length o)%nat → (1 ≤ m)%nat →
  unhex_round (pre ++ hex1 c ++ rest) (Z.of_nat (length pre), filled o m) = Ok (Continue (Z.of_nat (length (pre ++ hex1 c)), filled (o ++ [c]) (m - 1))).
Proof.
  intros Hc Ho Hm. destruct (nibbles c Hc) as (H0 & H1 & _ & _ & Ev). unfold unhex_round. change (pre ++ hex1 c ++ rest) with (pre ++ hexchar (c / 16) :: hexchar (c mod 16) :: rest).
  destruct (Z.ltb_spec (Z.of_nat (length pre)) (Z.of_nat (length (pre ++ hexchar (c / 16) :: hexchar (c mod 16) :: rest)))) as [_|Hge]; [|rewrite length_app in Hge; cbn in Hge; lia].
  rewrite rd_app_0, bind_ok, rd_app_1, bind_ok, !hexchar_value by done. cbv zeta. destruct (Z.gtb_spec (c / 16) 16), (Z.gtb_spec (c mod 16) 16); [lia..|]. cbn [orb].
  rewrite lor_add by lia. change (2 ^ 4) with 16. rewrite Ev. unfold u8, byte in *. rewrite Z.mod_small by done.
  assert (Ei : Z.of_nat (length pre) / 2 = Z.of_nat (length o)) by (symmetry; apply (Z.div_unique_pos _ _ _ 0); lia). rewrite Ei.
  pose proof (wr_at_fill [c] o m Hm) as E. cbn [wr_at] in E. unfold filled. destruct (wr (map Some o ++ replicate m None) (Z.of_nat (length o)) (Some c)) as [b|]; [|by cbn in E].
  change (Ok b = Ok (map Some (o ++ [c]) ++ replicate (m - length [c]) None)) in E. injection E as ->. rewrite bind_ok, length_app. change (length (hex1 c)) with 2%nat. do 3 f_equal. lia.
Qed.

Lemma unhex_round_end text (b : buffer) : unhex_round text (Z.of_nat (length text), b) = Ok (Break (Some (Z.of_nat (length text), b))).
Proof. unfold unhex_round. by rewrite Z.ltb_irrefl. Qed.

Lemma unhex_loop l : ∀ pre o m fuel, Forall byte l → length pre = (2 * length o)%nat → (length l ≤ m)%nat → (length l < fuel)%nat →
  iterate fuel (unhex_round (pre ++ hex l)) (Z.of_nat (length pre), filled o m) = Ok (Some (2 * Z.of_nat (length (o ++ l)), filled (o ++ l) (m - length l))).
Proof.
  induction l as [|c l IH]; intros pre o m fuel Hb Ho Hm Hf; (destruct fuel as [|fuel]; [lia|]); cbn [iterate].
  - unfold hex. cbn [map concat length]. rewrite !app_nil_r, Nat.sub_0_r. rewrite unhex_round_end, bind_ok. do 3 f_equal. lia.
  - apply Forall_cons in Hb as [Hc Hb]. cbn [length] in *. change (hex (c :: l)) with (hex1 c ++ hex l). rewrite unhex_round_lemma, bind_ok by (done || lia).
    rewrite app_assoc, IH by (done || rewrite ?length_app; cbn; lia). rewrite <- app_assoc. cbn [app]. do 4 f_equal. lia.
Qed.

Lemma lfromhex_lemma l : Forall byte l → lfromhex (hex l) = lua_ret l.
Proof.
  intros Hb. unfold lfromhex. cbv zeta. rewrite hex_length. replace (Z.of_nat (2 * length l)) with (2 * Z.of_nat (length l)) by lia.
  assert (Ez : Z.land (2 * Z.of_nat (length l)) 1 =? 0 = true).
  { change 1 with (Z.ones 1) at 1. rewrite Z.land_ones by lia. change (2 ^ 1) with 2. by rewrite Z.mul_comm, Z.mod_mul. }
  rewrite Ez. cbn [negb]. set (m := Z.to_nat _). assert (Hm : (length l ≤ m)%nat).
  { unfold m, SMALL_CHUNK. rewrite (Z.mul_comm 2 (Z.of_nat (length l))), Z.div_mul by lia. destruct (Z.gtb_spec (Z.of_nat (length l) * 2) (256 * 2)); lia. }
  pose proof (unhex_loop l [] [] m (S (2 * length l)) Hb eq_refl Hm ltac:(lia)) as E. cbn [app length] in E.
  change (iterate (S (2 * length l)) (unhex_round (hex l)) (0, replicate m None) = Ok (Some (2 * Z.of_nat (length l), filled l (m - length l)))) in E. rewrite E, bind_ok. rewrite (Z.mul_comm 2 (Z.of_nat (length l))), Z.div_mul by lia. unfold filled. by rewrite init_bytes_lemma.
Qed.

(** Writing bytes as hexadecimal digits, the high one first, and reading them again. *)
Theorem hex_roundtrip text : Forall byte text → ltohex text = lua_ret (hex text) ∧ lfromhex (hex text) = lua_ret text.
Proof. intros Hb. split; [by apply ltohex_lemma|by apply lfromhex_lemma]. Qed.

(** The bound on a digit is 16 and not 15: [g] passes for sixteen. *)
Example hex_g : lfromhex (str "1g") = lua_ret [16].
Proof. by vm_compute. Qed.

(** ** Base 36 *)

Definition b36char (d : Z) : Z := nth (Z.to_nat d) base36 0.

(** The digits of a number, from the last one. *)
Fixpoint digits36 (fuel : nat) (n : Z) (acc : list Z) : list Z :=
  match fuel with
  | O => acc
  | S fuel => let acc := b36char (n mod 36) :: acc in if n / 36 =? 0 then acc else digits36 fuel (n / 36) acc
  end.

Lemma all_36 (P : Z → bool) : forallb P (seqZ 0 36) = true → ∀ d, 0 ≤ d < 36 → P d = true.
Proof. intros H d Hd. apply (proj1 (forallb_forall _ _) H). apply list_elem_of_In, elem_of_seqZ. lia. Qed.

Lemma b36char_rd d : 0 ≤ d < 36 → rd base36 d = Ok (b36char d).
Proof. intros Hd. apply is_ok_eq_true. revert d Hd. by apply (all_36 (λ d, is_ok_eq (rd base36 d) (b36char d))); vm_compute. Qed.

Lemma b36char_value d : 0 ≤ d < 36 → digit_value (b36char d) = d.
Proof. intros Hd. apply Z.eqb_eq. revert d Hd. by apply (all_36 (λ d, digit_value (b36char d) =? d)); vm_compute. Qed.

Lemma b36char_sign d s : 0 ≤ d < 36 → parse_sign (b36char d :: s) = (false, b36char d :: s) ∧ b36char d ≠ 0.
Proof.
  intros Hd. assert (E : negb (is_space (b36char d)) && negb (b36char d =? 45) && negb (b36char d =? 43) && negb (b36char d =? 0) = true).
  { revert d Hd. by apply (all_36 (λ d, negb (is_space (b36char d)) && negb (b36char d =? 45) && negb (b36char d =? 43) && negb (b36char d =? 0))); vm_compute. }
  rewrite !andb_true_iff, !negb_true_iff, !Z.eqb_neq in E. destruct E as [[[Es H1] H2] H0]. split; [|done].
  unfold parse_sign. cbn [skip_spaces]. rewrite Es. destruct (b36char d) as [|p|p]; [done| |done]. do 6 (destruct p as [p|p|]; try done).
Qed.

(** A quotient has a digit less. *)
Lemma div36_bound n o : 0 ≤ n < 36 ^ Z.of_nat (S o) → 0 ≤ n / 36 < 36 ^ Z.of_nat o.
Proof.
  intros Hn. rewrite Nat2Z.inj_succ, Z.pow_succ_r in Hn by lia. split; [apply Z.div_pos; lia|apply Z.div_lt_upper_bound; lia].
Qed.

Lemma mod36 n : 0 ≤ n mod 36 < 36.
Proof. by apply Z.mod_pos_bound. Qed.

Lemma div36_more n o : 0 ≤ n < 36 ^ Z.of_nat (S o) → n / 36 ≠ 0 → (0 < o)%nat.
Proof. intros Hn Hne. apply div36_bound in Hn. destruct o; [|lia]. change (36 ^ Z.of_nat 0) with 1 in Hn. lia. Qed.

Lemma base36_round_lemma n o tail : base36_round (n, Z.of_nat (S o), replicate (S o) None ++ tail) =
  Ok (let b := replicate o None ++ Some (b36char (n mod 36)) :: tail in if n / 36 =? 0 then Break (Z.of_nat o, b) else Continue (n / 36, Z.of_nat o, b)).
Proof.
  unfold base36_round. rewrite b36char_rd, bind_ok by apply mod36. replace (Z.of_nat (S o) - 1) with (Z.of_nat o) by lia.
  rewrite wr_ok, bind_ok by (rewrite length_app, length_replicate; lia). rewrite Nat2Z.id. change (S o) with (1 + o)%nat. rewrite Nat.add_comm, replicate_add, <- app_assoc.
  rewrite insert_app_r_alt, length_replicate, Nat.sub_diag by (by rewrite length_replicate). cbv zeta. by destruct (n / 36 =? 0).
Qed.

Lemma base36_loop o : ∀ n fuel acc tail, (0 < o ≤ fuel)%nat → 0 ≤ n < 36 ^ Z.of_nat o →
  ∃ k, (k + length (digits36 o n acc) = o + length acc)%nat ∧
    iterate fuel base36_round (n, Z.of_nat o, replicate o None ++ map Some acc ++ tail) = Ok (Z.of_nat k, replicate k None ++ map Some (digits36 o n acc) ++ tail).
Proof.
  induction o as [|o IH]; intros n fuel acc tail Hf Hn; [lia|]. destruct fuel as [|fuel]; [lia|]. cbn [iterate digits36].
  rewrite base36_round_lemma, bind_ok. cbv zeta. destruct (Z.eqb_spec (n / 36) 0) as [E|E].
  - exists o. cbn [length]. split; [lia|done].
  - destruct (IH (n / 36) fuel (b36char (n mod 36) :: acc) tail) as (k & Hk & Ek); [pose proof (div36_more n o Hn E); lia|by apply div36_bound|].
    exists k. cbn [length] in Hk. split; [lia|]. exact Ek.
Qed.

Lemma parse_digits36 fuel : ∀ n acc, 0 ≤ n < 36 ^ Z.of_nat fuel → (0 < fuel)%nat → parse_digits 36 0 (digits36 fuel n acc) = parse_digits 36 n acc.
Proof.
  induction fuel as [|fuel IH]; intros n acc Hn Hf; [lia|]. cbn [digits36]. cbv zeta. pose proof (mod36 n) as Hd. pose proof (Z.div_mod n 36 ltac:(lia)) as Hm.
  assert (Hstep : ∀ q, q * 36 + n mod 36 = n → parse_digits 36 q (b36char (n mod 36) :: acc) = parse_digits 36 n acc).
  { intros q Hq. cbn [parse_digits]. rewrite b36char_value by done. destruct (Z.ltb_spec (n mod 36) 36); [|lia]. by rewrite Hq. }
  destruct (Z.eqb_spec (n / 36) 0) as [E|E]; [apply Hstep; lia|]. rewrite IH; [apply Hstep; lia|by apply div36_bound|by eapply div36_more].
Qed.

Lemma digits36_head fuel : ∀ n acc, (0 < fuel)%nat → ∃ d rest, 0 ≤ d < 36 ∧ digits36 fuel n acc = b36char d :: rest.
Proof.
  induction fuel as [|fuel IH]; intros n acc Hf; [lia|]. cbn [digits36]. cbv zeta. destruct (n / 36 =? 0); [by exists (n mod 36), acc; split; [apply mod36|]|].
  destruct fuel as [|fuel]; [exists (n mod 36), acc; split; [apply mod36|done]|]. apply IH. lia.
Qed.

Lemma digits36_nonzero fuel : ∀ n acc, Forall (λ c, c ≠ 0) acc → Forall (λ c, c ≠ 0) (digits36 fuel n acc).
Proof.
  induction fuel as [|fuel IH]; intros n acc Ha; [done|]. cbn [digits36]. cbv zeta. destruct (b36char_sign (n mod 36) [] (mod36 n)) as [_ Hne].
  destruct (n / 36 =? 0); [by constructor|]. apply IH. by constructor.
Qed.

Lemma lbase36enc_lemma n : 0 ≤ n < 2 ^ 64 → lbase36enc n = Ok (digits36 13 n []).
Proof.
  intros Hn. assert (Hb : 0 ≤ n < 36 ^ Z.of_nat 13) by (change (36 ^ Z.of_nat 13) with 170581728179578208256; lia). unfold lbase36enc. cbv zeta.
  change (wr (replicate (Z.to_nat 14) None) (14 - 1) (Some 0)) with (Ok (replicate 13 None ++ [Some 0])). rewrite bind_ok.
  destruct (base36_loop 13 n 14 [] [Some 0] ltac:(lia) Hb) as (k & Hk & E). change (14 - 1) with (Z.of_nat 13).
  rewrite_iterate E. rewrite bind_ok, !Nat2Z.id. cbn [length] in Hk.
  set (l := digits36 13 n []) in *. clearbody l. assert (Et : take 13 (replicate k None ++ map Some l ++ [Some 0]) = replicate k None ++ map Some l).
  { rewrite app_assoc. apply take_app_length'. rewrite length_app, length_replicate, length_map. lia. }
  rewrite Et, drop_app_length' by (by rewrite length_replicate). clear. induction l as [|x l IH]; [done|]. cbn [map mapM or_fault]. by rewrite bind_ok, IH.
Qed.

Lemma strtoul_digits36 n : 0 ≤ n < 2 ^ 64 → strtoul (digits36 13 n []) 36 = n.
Proof.
  intros Hn. destruct (digits36_head 13 n [] ltac:(lia)) as (d & rest & Hd & E). unfold strtoul.
  rewrite E. rewrite (proj1 (b36char_sign d rest Hd)), <- E. unfold parse_magnitude. change (36 =? 0) with false. change (36 =? 16) with false. cbn match.
  rewrite parse_digits36; [|change (36 ^ Z.of_nat 13) with 170581728179578208256; lia|lia]. cbn [parse_digits]. unfold ULONG_MAX. by destruct (Z.gtb_spec n (2 ^ 64 - 1)); [lia|].
Qed.

(** Base 36: a number of 64 bits has between one and thirteen digits and fits the buffer; reading
    them gives it back as a signed integer of Lua. *)
Theorem base36_roundtrip n : 0 ≤ n < 2 ^ 64 →
  ∃ s, lbase36enc n = Ok s ∧ (1 ≤ length s ≤ 13)%nat ∧ lbase36dec s = lua_ret (i64 n).
Proof.
  intros Hn. exists (digits36 13 n []). split; [by apply lbase36enc_lemma|]. destruct (digits36_head 13 n [] ltac:(lia)) as (d & rest & Hd & E).
  assert (Hl : (length (digits36 13 n []) ≤ 13)%nat).
  { assert (Hb : 0 ≤ n < 36 ^ Z.of_nat 13) by (change (36 ^ Z.of_nat 13) with 170581728179578208256; lia).
    destruct (base36_loop 13 n 13 [] [] ltac:(lia) Hb) as (k & Hk & _). cbn [length] in Hk. lia. }
  split; [rewrite E in Hl |- *; cbn [length] in *; lia|]. unfold lbase36dec.
  destruct (Nat.eqb_spec (length (digits36 13 n [])) 0) as [Hz|_]; [by rewrite E in Hz|].
  rewrite c_string_app by (by apply digits36_nonzero). cbn [or_fault]. by rewrite bind_ok, strtoul_digits36.
Qed.

Example base36_max : lbase36enc (2 ^ 64 - 1) = Ok (str "3W5E11264SGSF") ∧ lbase36dec (str "3W5E11264SGSF") = lua_ret (-1).
Proof. by vm_compute. Qed.
