(* ===== verification/Sha1.v ===== *)
(** [lualib-src/lsha1.c]: SHA-1 over a context that is fed in pieces, and the keyed hash on it.

    A context holds the five words of the state, the number of bits in two words and 64 bytes
    of input that do not fill a block yet.  The machine is little-endian, so the words of a
    block are swapped while they are used ([blk0]). *)

From S2P Require Import Prelude CString Seri Frames Gate Crypt.
Open Scope Z_scope.

(** [state[5]] *)
Definition words5 : Set := Z * Z * Z * Z * Z.

Record SHA1_CTX : Set := Sha1Ctx {
  sha_state : words5;
  sha_count0 : Z;
  sha_count1 : Z;
  sha_buffer : buffer
}.

Definition SHA1_DIGEST_SIZE : Z := 20.

(** ** One block *)

Definition rol (value bits : Z) : Z := Z.lor (shl value bits) (shr value (32 - bits)).

(** [blk0] and [blk] store the word they give in the block. *)
Definition blk0 (l : list Z) (i : Z) : res (Z * list Z) :=
  x ← rd l i;
  let v := Z.lor (Z.land (rol x 24) 0xFF00FF00) (Z.land (rol x 8) 0x00FF00FF) in
  l ← wr l i v;
  Ok (v, l).

Definition blk (l : list Z) (i : Z) : res (Z * list Z) :=
  x13 ← rd l (Z.land (i + 13) 15);
  x8 ← rd l (Z.land (i + 8) 15);
  x2 ← rd l (Z.land (i + 2) 15);
  x0 ← rd l (Z.land i 15);
  let v := rol (Z.lxor (Z.lxor (Z.lxor x13 x8) x2) x0) 1 in
  l ← wr l (Z.land i 15) v;
  Ok (v, l).

(** The macros [R0] to [R4] assign [w] and [z]. *)
Definition R (f : Z → Z → Z → Z) (bl : list Z → Z → res (Z * list Z)) (k v w x y z : Z) (l : list Z) (i : Z) : res (Z * Z * list Z) :=
  '(b, l) ← bl l i;
  Ok (rol w 30, u32 (z + (f w x y + b + k + rol v 5)), l).

Definition R0 := R (λ w x y, Z.lxor (Z.land w (Z.lxor x y)) y) blk0 0x5A827999.
Definition R1 := R (λ w x y, Z.lxor (Z.land w (Z.lxor x y)) y) blk 0x5A827999.
Definition R2 := R (λ w x y, Z.lxor (Z.lxor w x) y) blk 0x6ED9EBA1.
Definition R3 := R (λ w x y, Z.lor (Z.land (Z.lor w x) y) (Z.land w x)) blk 0x8F1BBCDC.
Definition R4 := R (λ w x y, Z.lxor (Z.lxor w x) y) blk 0xCA62C1D6.

(** The macro the code has in line [i] of the unrolled loop. *)
Definition sha_op (i : Z) := if i <? 16 then R0 else if i <? 20 then R1 else if i <? 40 then R2 else if i <? 60 then R3 else R4.

(** Five lines of the unrolled loop, after which the variables have their old roles. *)
Definition sha_five (g : Z) (s : words5 * list Z) : res (words5 * list Z) :=
  let '((a, b, c, d, e), l) := s in
  let i := 5 * g in
  '(b, e, l) ← sha_op i a b c d e l i;
  '(a, d, l) ← sha_op (i + 1) e a b c d l (i + 1);
  '(e, c, l) ← sha_op (i + 2) d e a b c l (i + 2);
  '(d, b, l) ← sha_op (i + 3) c d e a b l (i + 3);
  '(c, a, l) ← sha_op (i + 4) b c d e a l (i + 4);
  Ok ((a, b, c, d, e), l).

(** [memcpy(&block, buffer, 64)] *)
Definition block_l (buffer : list Z) : res (list Z) :=
  mapM (λ i, x ← rd_at buffer (4 * i) 4; Ok (le_value x)) (seqZ 0 16).

Definition add5 (s t : words5) : words5 :=
  let '(a, b, c, d, e) := s in
  let '(a', b', c', d', e') := t in (u32 (a + a'), u32 (b + b'), u32 (c + c'), u32 (d + d'), u32 (e + e')).

Definition SHA1_Transform (state : words5) (buffer : list Z) : res words5 :=
  l ← block_l buffer;
  '(t, _) ← for_range 16 0 sha_five (state, l);
  Ok (add5 state t).

(** ** The context *)

(** The context on the stack: the buffer is not written. *)
Definition sat_SHA1_Init : SHA1_CTX := Sha1Ctx (0x67452301, 0xEFCDAB89, 0x98BADCFE, 0x10325476, 0xC3D2E1F0) 0 0 (replicate 64 None).

(** [if ((count[0] += len << 3) < (len << 3)) count[1]++; count[1] += (len >> 29)]: the sum is cut
    to 32 bits, [len << 3] to 64. *)
Definition sha_add_count (count0 count1 len : Z) : Z * Z :=
  let bits := u64 (Z.shiftl len 3) in
  let count0 := u32 (count0 + bits) in
  let count1 := if count0 <? bits then u32 (count1 + 1) else count1 in
  (count0, u32 (count1 + Z.shiftr len 29)).

(** [for ( ; i + 63 < len; i += 64) SHA1_Transform(state, data + i)] *)
Definition sha_round (data : list Z) (s : Z * words5) : res (loop (Z * words5) (Z * words5)) :=
  let '(i, state) := s in
  if i + 63 <? Z.of_nat (length data) then
    block ← rd_at data i 64;
    state ← SHA1_Transform state block;
    Ok (Continue (i + 64, state))
  else Ok (Break s).

(** The piece fills the buffer from [j]: the blocks, and what is left at the start of the buffer. *)
Definition sha_fill (state : words5) (buf : buffer) (j : Z) (data : list Z) : res (words5 * buffer) :=
  let len := Z.of_nat (length data) in
  let i := 64 - j in
  head ← rd_at data 0 i;
  buf ← wr_at buf j head;
  block ← init_bytes buf 64;
  state ← SHA1_Transform state block;
  '(i, state) ← iterate (S (length data)) (sha_round data) (i, state);
  rest ← rd_at data i (len - i);
  buf ← wr_at buf 0 rest;
  Ok (state, buf).

Definition sat_SHA1_Update (context : SHA1_CTX) (data : list Z) : res SHA1_CTX :=
  let len := Z.of_nat (length data) in
  let j := Z.land (Z.shiftr (sha_count0 context) 3) 63 in
  let '(count0, count1) := sha_add_count (sha_count0 context) (sha_count1 context) len in
  if j + len >? 63 then
    '(state, buf) ← sha_fill (sha_state context) (sha_buffer context) j data;
    Ok (Sha1Ctx state count0 count1 buf)
  else
    buf ← wr_at (sha_buffer context) j data;
    Ok (Sha1Ctx (sha_state context) count0 count1 buf).

(** [while ((count[0] & 504) != 448) sat_SHA1_Update(context, "\0", 1)] *)
Definition sha_pad_round (context : SHA1_CTX) : res (loop SHA1_CTX SHA1_CTX) :=
  if negb (Z.land (sha_count0 context) 504 =? 448) then
    context ← sat_SHA1_Update context [0];
    Ok (Continue context)
  else Ok (Break context).

Definition sha_word (s : words5) (i : Z) : Z :=
  let '(a, b, c, d, e) := s in
  if i =? 0 then a else if i =? 1 then b else if i =? 2 then c else if i =? 3 then d else e.

(** The digest, and the context with its contents wiped. *)
Definition sat_SHA1_Final (context : SHA1_CTX) : res (list Z * SHA1_CTX) :=
  let finalcount := map (λ i, Z.land (Z.shiftr (if i >=? 4 then sha_count0 context else sha_count1 context) ((3 - Z.land i 3) * 8)) 255) (seqZ 0 8) in
  context ← sat_SHA1_Update context [0x80];
  context ← iterate 65 sha_pad_round context;
  context ← sat_SHA1_Update context finalcount;
  let digest := map (λ i, Z.land (Z.shiftr (sha_word (sha_state context) (Z.shiftr i 2)) ((3 - Z.land i 3) * 8)) 255) (seqZ 0 SHA1_DIGEST_SIZE) in
  Ok (digest, Sha1Ctx (0, 0, 0, 0, 0) 0 0 (replicate 64 (Some 0))).

(** ** The Lua functions *)

Definition lsha1 (buffer : list Z) : luaR (list Z) :=
  ctx ← sat_SHA1_Update sat_SHA1_Init buffer;
  '(digest, _) ← sat_SHA1_Final ctx;
  lua_ret digest.

Definition BLOCKSIZE : Z := 64.

(** [*k ^= xor] for the words of the key. *)
Definition xor_key (key : list Z) (xor : Z) : res (list Z) :=
  words ← mapM (λ i, k ← rd_at key (4 * i) 4; Ok (le_bytes 4 (Z.lxor (le_value k) xor))) (seqZ 0 16);
  Ok (concat words).

(** [rkey]: the key, or its hash when it is longer than a block, with zeros to a block. *)
Definition hmac_key (key : list Z) : res (list Z) :=
  if Z.of_nat (length key) >? BLOCKSIZE then
    ctx ← sat_SHA1_Update sat_SHA1_Init key;
    '(digest, _) ← sat_SHA1_Final ctx;
    Ok (digest ++ replicate (Z.to_nat (BLOCKSIZE - SHA1_DIGEST_SIZE)) 0)
  else Ok (key ++ replicate (Z.to_nat BLOCKSIZE - length key) 0).

Definition lhmac_sha1 (key text : list Z) : luaR (list Z) :=
  rkey ← hmac_key key;
  rkey ← xor_key rkey 0x5c5c5c5c;
  ctx1 ← sat_SHA1_Update sat_SHA1_Init rkey;
  rkey ← xor_key rkey (Z.lxor 0x5c5c5c5c 0x36363636);
  ctx2 ← sat_SHA1_Update sat_SHA1_Init rkey;
  ctx2 ← sat_SHA1_Update ctx2 text;
  '(digest2, _) ← sat_SHA1_Final ctx2;
  ctx1 ← sat_SHA1_Update ctx1 digest2;
  '(digest1, _) ← sat_SHA1_Final ctx1;
  lua_ret digest1.
