(* ===== verification/Sha1Transform.v ===== *)
(** The transform of [lsha1.c] is the compression function of FIPS 180-1.

    The reference has the 80 words of the schedule as a list and the round in the form of the
    standard; the code keeps 16 words in a ring, swaps the bytes on the way, renames the
    variables instead of moving them and has the round functions in a shorter form. *)

From S2P Require Import Prelude CString Seri Frames Gate Crypt CryptDes Sha1.
Open Scope Z_scope.

(** ** The reference *)

Definition be_word (l : list Z) : Z := foldl (λ v b, v * 2 ^ 8 + b) 0 l.

Definition next_word (ws : list Z) : Z :=
  let t := length ws in
  rol (Z.lxor (Z.lxor (Z.lxor (nth (t - 3) ws 0) (nth (t - 8) ws 0)) (nth (t - 14) ws 0)) (nth (t - 16) ws 0)) 1.

Fixpoint expand (n : nat) (ws : list Z) : list Z :=
  match n with O => ws | S n => expand n (ws ++ [next_word ws]) end.

(** The words of a block in order. *)
Fixpoint be_words (n : nat) (l : list Z) : list Z :=
  match n with O => [] | S n => be_word (take 4 l) :: be_words n (drop 4 l) end.

Definition schedule (block : list Z) : list Z := expand 64 (be_words 16 block).

Definition sha_f (t b c d : Z) : Z :=
  if t <? 20 then Z.lor (Z.land b c) (Z.ldiff d b)
  else if t <? 40 then Z.lxor (Z.lxor b c) d
  else if t <? 60 then Z.lor (Z.lor (Z.land b c) (Z.land b d)) (Z.land c d)
  else Z.lxor (Z.lxor b c) d.

Definition sha_k (t : Z) : Z := if t <? 20 then 0x5A827999 else if t <? 40 then 0x6ED9EBA1 else if t <? 60 then 0x8F1BBCDC else 0xCA62C1D6.

Definition sha_step (w : list Z) (t : Z) (s : words5) : words5 :=
  let '(a, b, c, d, e) := s in
  (u32 (rol a 5 + sha_f t b c d + e + nth (Z.to_nat t) w 0 + sha_k t), a, rol b 30, c, d).

Definition sha_block (h : words5) (block : list Z) : words5 := add5 h (foldl (λ s t, sha_step (schedule block) t s) h (seqZ 0 80)).

(** ** Round functions *)

Lemma choose_eq b c d : Z.lxor (Z.land b (Z.lxor c d)) d = Z.lor (Z.land b c) (Z.ldiff d b).
Proof.
  apply Z.bits_inj'. intros n Hn. rewrite Z.lxor_spec, Z.lor_spec, !Z.land_spec, Z.ldiff_spec, Z.lxor_spec.
  by destruct (Z.testbit b n), (Z.testbit c n), (Z.testbit d n).
Qed.

Lemma majority_eq b c d : Z.lor (Z.land (Z.lor b c) d) (Z.land b c) = Z.lor (Z.lor (Z.land b c) (Z.land b d)) (Z.land c d).
Proof.
  apply Z.bits_inj'. intros n Hn. rewrite !Z.lor_spec, !Z.land_spec, Z.lor_spec.
  by destruct (Z.testbit b n), (Z.testbit c n), (Z.testbit d n).
Qed.

(** ** The schedule *)

Lemma expand_length n : ∀ ws, length (expand n ws) = (n + length ws)%nat.
Proof. induction n as [|n IH]; intros ws; [done|]. cbn [expand]. rewrite IH, length_app. cbn. lia. Qed.

Lemma expand_prefix n : ∀ ws k, (k < length ws)%nat → nth k (expand n ws) 0 = nth k ws 0.
Proof. induction n as [|n IH]; intros ws k Hk; [done|]. cbn [expand]. rewrite IH by (rewrite length_app; lia). by rewrite app_nth1. Qed.

Lemma expand_next n : ∀ ws k, (16 ≤ length ws)%nat → (length ws ≤ k < n + length ws)%nat →
  let w j := nth j (expand n ws) 0 in
  w k = rol (Z.lxor (Z.lxor (Z.lxor (w (k - 3)%nat) (w (k - 8)%nat)) (w (k - 14)%nat)) (w (k - 16)%nat)) 1.
Proof.
  induction n as [|n IH]; intros ws k Hws Hk w; [lia|]. unfold w. cbn [expand]. destruct (decide (k = length ws)) as [->|Hne].
  - rewrite !expand_prefix by (rewrite length_app; cbn; lia). rewrite app_nth2, Nat.sub_diag by lia. cbn [nth]. by rewrite !app_nth1 by lia.
  - apply IH; rewrite length_app; cbn; lia.
Qed.

Lemma be_words_length n : ∀ l, length (be_words n l) = n.
Proof. induction n as [|n IH]; intros l; [done|]. cbn [be_words length]. by rewrite IH. Qed.

(** ** Bytes of a word *)

(** A bitwise operation works on the bytes one by one. *)
Definition bytewise (op : Z → Z → Z) : Prop :=
  ∀ x y m n, byte x → byte m → op (x + 2 ^ 8 * y) (m + 2 ^ 8 * n) = op x m + 2 ^ 8 * op y n.

Lemma low_byte x y : byte x → Z.land (x + 2 ^ 8 * y) (Z.ones 8) = x ∧ Z.shiftr (x + 2 ^ 8 * y) 8 = y.
Proof.
  unfold byte. intros Hx. rewrite Z.land_ones, Z.shiftr_div_pow2, (Z.mul_comm (2 ^ 8)), Z.mod_add, Z.div_add by lia. rewrite Z.mod_small, Z.div_small by lia. lia.
Qed.

Lemma bytewise_op op : (∀ a b n, Z.shiftr (op a b) n = op (Z.shiftr a n) (Z.shiftr b n)) →
  (∀ a b, Z.land (op a b) (Z.ones 8) = op (Z.land a (Z.ones 8)) (Z.land b (Z.ones 8))) → bytewise op.
Proof.
  intros Hs Hm x y m n Hx Hb. destruct (low_byte x y Hx) as [E1 E2]. destruct (low_byte m n Hb) as [E3 E4].
  set (v := op _ _). assert (Ev : v = Z.land v (Z.ones 8) + 2 ^ 8 * Z.shiftr v 8).
  { rewrite Z.land_ones, Z.shiftr_div_pow2 by lia. pose proof (Z.div_mod v (2 ^ 8)). lia. }
  rewrite Ev. unfold v. by rewrite Hm, Hs, E1, E2, E3, E4.
Qed.

Ltac bits := intros; apply Z.bits_inj'; intros k Hk; rewrite ?Z.land_spec, ?Z.lor_spec, ?Z.lxor_spec, ?Z.land_spec;
  repeat match goal with |- context [Z.testbit ?x ?k] => destruct (Z.testbit x k) end; done.

Lemma land_bytewise : bytewise Z.land.
Proof. apply bytewise_op; [apply Z.shiftr_land|bits]. Qed.
Lemma lor_bytewise : bytewise Z.lor.
Proof. apply bytewise_op; [apply Z.shiftr_lor|bits]. Qed.
Lemma lxor_bytewise : bytewise Z.lxor.
Proof. apply bytewise_op; [apply Z.shiftr_lxor|bits]. Qed.

(** The word with these bytes, the lowest first. *)
Definition word4 (b0 b1 b2 b3 : Z) : Z := b0 + 2 ^ 8 * (b1 + 2 ^ 8 * (b2 + 2 ^ 8 * b3)).

Lemma word4_op op a0 a1 a2 a3 b0 b1 b2 b3 : bytewise op → Forall byte [a0; a1; a2; b0; b1; b2] →
  op (word4 a0 a1 a2 a3) (word4 b0 b1 b2 b3) = word4 (op a0 b0) (op a1 b1) (op a2 b2) (op a3 b3).
Proof. rewrite !Forall_cons. intros Hop (? & ? & ? & ? & ? & ? & _). unfold word4. by rewrite !Hop. Qed.

Lemma word4_range b0 b1 b2 b3 : byte b0 → byte b1 → byte b2 → byte b3 → word32 (word4 b0 b1 b2 b3).
Proof. unfold byte, word32, word4. lia. Qed.

Lemma rol_rotate x k : 0 < k < 32 → word32 x → rol x k = rotate k x.
Proof.
  intros Hk Hx. unfold rotate. change 0xffffffff with (Z.ones 32). symmetry. apply word_land. apply word_lor; [apply word_shl|apply word_shr; [lia|done]].
Qed.

Lemma rol_word4 b0 b1 b2 b3 : byte b0 → byte b1 → byte b2 → byte b3 →
  rol (word4 b0 b1 b2 b3) 24 = word4 b1 b2 b3 b0 ∧ rol (word4 b0 b1 b2 b3) 8 = word4 b3 b0 b1 b2.
Proof.
  intros H0 H1 H2 H3. pose proof (word4_range b0 b1 b2 b3 H0 H1 H2 H3) as Hw. rewrite !rol_rotate, !rotate_value by (done || lia).
  unfold byte, word4 in *. set (w := b0 + _) in *.
  assert (E1 : w / 2 ^ 8 = b1 + 2 ^ 8 * (b2 + 2 ^ 8 * b3)) by (symmetry; apply (Z.div_unique_pos _ _ _ b0); unfold w; lia).
  assert (E2 : w / 2 ^ 24 = b3) by (symmetry; apply (Z.div_unique_pos _ _ _ (b0 + 2 ^ 8 * (b1 + 2 ^ 8 * b2))); unfold w; lia).
  pose proof (Z.div_mod w (2 ^ 8) ltac:(lia)) as D1. pose proof (Z.div_mod w (2 ^ 24) ltac:(lia)) as D2. change (32 - 24) with 8. change (32 - 8) with 24.
  rewrite E1 in D1 |- *. rewrite E2 in D2 |- *. assert (Ew : w = b0 + 2 ^ 8 * (b1 + 2 ^ 8 * (b2 + 2 ^ 8 * b3))) by done. clearbody w. clear E1 E2. lia.
Qed.

(** The swap in [blk0]. *)
Lemma swap_word b0 b1 b2 b3 : byte b0 → byte b1 → byte b2 → byte b3 → let x := word4 b0 b1 b2 b3 in
  Z.lor (Z.land (rol x 24) 0xFF00FF00) (Z.land (rol x 8) 0x00FF00FF) = word4 b3 b2 b1 b0.
Proof.
  intros H0 H1 H2 H3 x. destruct (rol_word4 b0 b1 b2 b3 H0 H1 H2 H3) as [E1 E2]. unfold x. rewrite E1, E2.
  change 0xFF00FF00 with (word4 0 255 0 255). change 0x00FF00FF with (word4 255 0 255 0).
  assert (Hb : byte 0 ∧ byte 255) by (unfold byte; lia). destruct Hb as [B0 B255].
  assert (Eff : ∀ b, byte b → Z.land b 255 = b) by (unfold byte; intros b Hb; change 255 with (Z.ones 8); rewrite Z.land_ones by lia; by apply Z.mod_small).
  rewrite !(word4_op _ _ _ _ _ _ _ _ _ land_bytewise) by (rewrite !Forall_cons; done). rewrite !Z.land_0_r, !Eff by done.
  rewrite (word4_op _ _ _ _ _ _ _ _ _ lor_bytewise) by (rewrite !Forall_cons; done). by rewrite !Z.lor_0_r, !Z.lor_0_l.
Qed.

(** ** The ring of words *)

Definition swap (x : Z) : Z := Z.lor (Z.land (rol x 24) 0xFF00FF00) (Z.land (rol x 8) 0x00FF00FF).

Definition block64 (l : list Z) : Prop := Forall byte l ∧ length l = 64%nat.

Lemma be_words_nth n : ∀ j l, (j < n)%nat → nth j (be_words n l) 0 = be_word (take 4 (drop (4 * j) l)).
Proof.
  induction n as [|n IH]; intros j l Hj; [lia|]. cbn [be_words]. destruct j as [|j]; [done|]. cbn [nth]. rewrite IH, drop_drop by lia. do 3 f_equal. lia.
Qed.

Lemma four_bytes l : Forall byte l → length l = 4%nat → swap (le_value l) = be_word l.
Proof.
  intros Hb Hl. destruct l as [|b0 [|b1 [|b2 [|b3 [|? ?]]]]]; try done. rewrite !Forall_cons in Hb. destruct Hb as (H0 & H1 & H2 & H3 & _).
  replace (le_value [b0; b1; b2; b3]) with (word4 b0 b1 b2 b3) by (unfold word4; cbn [le_value]; lia).
  unfold swap. rewrite swap_word by done. unfold word4, be_word. cbn [foldl]. lia.
Qed.

Lemma mapM_map {A B} (f : A → res B) (g : A → B) l : (∀ x, x ∈ l → f x = Ok (g x)) → mapM f l = Ok (map g l).
Proof.
  induction l as [|x l IH]; intros Hf; [done|]. cbn [mapM map]. rewrite Hf, bind_ok by (by left). by rewrite IH by (intros y Hy; apply Hf; by right).
Qed.

Lemma block_l_lemma b : block64 b → block_l b = Ok (map (λ i, le_value (take 4 (drop (Z.to_nat (4 * i)) b))) (seqZ 0 16)).
Proof.
  intros [Hb Hl]. unfold block_l. apply mapM_map. intros i Hi%elem_of_seqZ. by rewrite rd_at_ok, bind_ok by lia.
Qed.

(** Before round [i]: the last sixteen words of the schedule, or the words of the block that are
    not swapped yet. *)
Record ring (w : list Z) (i : Z) (l : list Z) : Prop := {
  ring_length : length l = 16%nat;
  ring_word k : 0 ≤ k < i → i ≤ k + 16 → l !! Z.to_nat (k mod 16) = Some (nth (Z.to_nat k) w 0);
  ring_raw k : i ≤ k < 16 → ∃ x, l !! Z.to_nat k = Some x ∧ swap x = nth (Z.to_nat k) w 0
}.

Lemma ring_start b : block64 b → ring (schedule b) 0 (map (λ i, le_value (take 4 (drop (Z.to_nat (4 * i)) b))) (seqZ 0 16)).
Proof.
  intros [Hb Hl]. split; [done|lia|]. intros k Hk. eexists. split.
  - rewrite list_lookup_fmap, lookup_seqZ_lt by lia. done.
  - unfold schedule. rewrite expand_prefix, be_words_nth by (rewrite ?be_words_length; lia). rewrite Z.add_0_l, Z2Nat.id by lia.
    replace (Z.to_nat (4 * k)) with (4 * Z.to_nat k)%nat by lia. apply four_bytes; [by apply Forall_take, Forall_drop|]. rewrite length_take, length_drop. lia.
Qed.

Lemma land_15 x : Z.land x 15 = x mod 16.
Proof. change 15 with (Z.ones 4). by rewrite Z.land_ones. Qed.

(** Storing the word of round [i]. *)
Lemma ring_store w i l : 0 ≤ i → ring w i l → wr l (i mod 16) (nth (Z.to_nat i) w 0) = Ok (<[Z.to_nat (i mod 16) := nth (Z.to_nat i) w 0]> l) ∧
  ring w (i + 1) (<[Z.to_nat (i mod 16) := nth (Z.to_nat i) w 0]> l).
Proof.
  intros Hi [Hl Hw Hr]. pose proof (Z.mod_pos_bound i 16 ltac:(lia)) as Hm. split; [by rewrite wr_ok by lia|]. split; [by rewrite length_insert| |].
  - intros k Hk Hki. destruct (Z.eq_dec k i) as [->|Hne]; [rewrite list_lookup_insert_eq; [done|lia]|]. rewrite list_lookup_insert_ne; [apply Hw; lia|].
    intros E. pose proof (Z.mod_pos_bound k 16 ltac:(lia)) as Hmk. assert (E' : i mod 16 = k mod 16) by lia.
    pose proof (Z.div_mod i 16 ltac:(lia)). pose proof (Z.div_mod k 16 ltac:(lia)). lia.
  - intros k Hk. rewrite (Z.mod_small i) by lia. rewrite list_lookup_insert_ne by lia. apply Hr. lia.
Qed.

Lemma blk0_lemma w i l : 0 ≤ i < 16 → ring w i l → ∃ l', blk0 l i = Ok (nth (Z.to_nat i) w 0, l') ∧ ring w (i + 1) l'.
Proof.
  intros Hi Hring. destruct (ring_raw _ _ _ Hring i ltac:(lia)) as (x & Hx & Es). destruct (ring_store w i l ltac:(lia) Hring) as [Ew Hr'].
  rewrite Z.mod_small in Ew, Hr' by lia. unfold blk0. rewrite (rd_ok l i x) by (done || lia). rewrite bind_ok. fold (swap x). rewrite Es, Ew, bind_ok. by eexists.
Qed.

Lemma ring_rd w i l k : ring w i l → 0 ≤ k < i → i ≤ k + 16 → rd l (Z.land (k + 16) 15) = Ok (nth (Z.to_nat k) w 0).
Proof.
  intros Hr Hk Hi. rewrite land_15. replace (k + 16) with (k + 1 * 16) by lia. rewrite Z.mod_add by lia. apply rd_ok; [by apply Z.mod_pos_bound|].
  by apply (ring_word _ _ _ Hr).
Qed.

Lemma schedule_next b i w : w = schedule b → 16 ≤ i < 80 →
  rol (Z.lxor (Z.lxor (Z.lxor (nth (Z.to_nat (i - 3)) w 0) (nth (Z.to_nat (i - 8)) w 0)) (nth (Z.to_nat (i - 14)) w 0)) (nth (Z.to_nat (i - 16)) w 0)) 1 =
  nth (Z.to_nat i) w 0.
Proof.
  intros -> Hi. unfold schedule. rewrite (expand_next 64 (be_words 16 b) (Z.to_nat i)) by (rewrite be_words_length; lia). by rewrite !Z2Nat.inj_sub by lia.
Qed.

(** The schedule is a term of doubling size. *)
#[local] Opaque schedule.

Lemma blk_lemma b i l w : w = schedule b → 16 ≤ i < 80 → ring w i l → ∃ l', blk l i = Ok (nth (Z.to_nat i) w 0, l') ∧ ring w (i + 1) l'.
Proof.
  intros Ew Hi Hring. unfold blk. replace (i + 13) with (i - 3 + 16) by lia. replace (i + 8) with (i - 8 + 16) by lia. replace (i + 2) with (i - 14 + 16) by lia.
  assert (E0 : rd l (Z.land i 15) = Ok (nth (Z.to_nat (i - 16)) w 0)) by (rewrite <- (ring_rd w i l (i - 16) Hring ltac:(lia) ltac:(lia)); by replace (i - 16 + 16) with i by lia).
  rewrite (ring_rd w i l (i - 3) Hring), bind_ok, (ring_rd w i l (i - 8) Hring), bind_ok, (ring_rd w i l (i - 14) Hring), bind_ok, E0, bind_ok by lia.
  cbv zeta. rewrite (schedule_next b i w Ew Hi).
  destruct (ring_store w i l ltac:(lia) Hring) as [Es Hr']. rewrite land_15, Es, bind_ok. exists (<[Z.to_nat (i mod 16) := nth (Z.to_nat i) w 0]> l). split; [reflexivity|exact Hr'].
Qed.

(** ** The rounds *)

Lemma sha_op_lemma b i s l : 0 ≤ i < 80 → ring (schedule b) i l → let '(v, w, x, y, z) := s in
  ∃ z' l', sha_op i v w x y z l i = Ok (rol w 30, z', l') ∧ ring (schedule b) (i + 1) l' ∧ sha_step (schedule b) i s = (z', v, rol w 30, x, y).
Proof.
  destruct s as [[[[v w] x] y] z]. intros Hi Hring. exists (u32 (rol v 5 + sha_f i w x y + z + nth (Z.to_nat i) (schedule b) 0 + sha_k i)).
  assert (Hb : ∃ l', (if i <? 16 then blk0 l i else blk l i) = Ok (nth (Z.to_nat i) (schedule b) 0, l') ∧ ring (schedule b) (i + 1) l').
  { destruct (Z.ltb_spec i 16); [by apply blk0_lemma; [lia|]|by apply (blk_lemma b); [done|lia|]]. }
  destruct Hb as (l' & Eb & Hr'). exists l'. split; [|split; [done|done]]. unfold sha_op, sha_f, sha_k.
  destruct (Z.ltb_spec i 16), (Z.ltb_spec i 20), (Z.ltb_spec i 40), (Z.ltb_spec i 60); try lia; unfold R0, R1, R2, R3, R4, R; rewrite Eb, bind_ok, ?choose_eq, ?majority_eq; do 4 f_equal; lia.
Qed.

Definition sha_rounds (b : list Z) (n : Z) (h : words5) : words5 := foldl (λ s t, sha_step (schedule b) t s) h (seqZ 0 n).

Lemma sha_rounds_next b n h : 0 ≤ n → sha_rounds b (n + 1) h = sha_step (schedule b) n (sha_rounds b n h).
Proof. intros Hn. unfold sha_rounds. rewrite seqZ_app, foldl_app by lia. done. Qed.

Lemma sha_five_lemma b g h l : 0 ≤ g < 16 → ring (schedule b) (5 * g) l →
  ∃ l', sha_five g (sha_rounds b (5 * g) h, l) = Ok (sha_rounds b (5 * (g + 1)) h, l') ∧ ring (schedule b) (5 * (g + 1)) l'.
Proof.
  intros Hg H0. replace (5 * (g + 1)) with (5 * g + 1 + 1 + 1 + 1 + 1) by lia. rewrite !sha_rounds_next by lia.
  unfold sha_five. destruct (sha_rounds b (5 * g) h) as [[[[v0 v1] v2] v3] v4]. cbv zeta. set (i := 5 * g) in *. assert (Hi : 0 ≤ i < 76) by lia.
  replace (i + 2) with (i + 1 + 1) by lia. replace (i + 3) with (i + 1 + 1 + 1) by lia. replace (i + 4) with (i + 1 + 1 + 1 + 1) by lia.
  destruct (sha_op_lemma b i (v0, v1, v2, v3, v4) l ltac:(lia) H0) as (z0 & l1 & -> & H1 & ->). rewrite bind_ok.
  destruct (sha_op_lemma b (i + 1) (z0, v0, rol v1 30, v2, v3) l1 ltac:(lia) H1) as (z1 & l2 & -> & H2 & ->). rewrite bind_ok.
  destruct (sha_op_lemma b (i + 1 + 1) (z1, z0, rol v0 30, rol v1 30, v2) l2 ltac:(lia) H2) as (z2 & l3 & -> & H3 & ->). rewrite bind_ok.
  destruct (sha_op_lemma b (i + 1 + 1 + 1) (z2, z1, rol z0 30, rol v0 30, rol v1 30) l3 ltac:(lia) H3) as (z3 & l4 & -> & H4 & ->). rewrite bind_ok.
  destruct (sha_op_lemma b (i + 1 + 1 + 1 + 1) (z3, z2, rol z1 30, rol z0 30, rol v0 30) l4 ltac:(lia) H4) as (z4 & l5 & -> & H5 & ->). rewrite bind_ok.
  by exists l5.
Qed.

(** The transform is the compression function. *)
Lemma SHA1_Transform_lemma h b : block64 b → SHA1_Transform h b = Ok (sha_block h b).
Proof.
  intros Hb. unfold SHA1_Transform. rewrite block_l_lemma, bind_ok by done. set (l := map _ _).
  destruct (for_range_inv (λ g s, s.1 = sha_rounds b (5 * g) h ∧ ring (schedule b) (5 * g) s.2) 16 0 sha_five (h, l)) as ([t l'] & -> & Et & _).
  - split; [done|]. by apply ring_start.
  - intros g [t l1] Hg [Et Hr]. cbn [fst snd] in *. subst t. destruct (sha_five_lemma b g h l1 ltac:(lia) Hr) as (l2 & -> & Hr2). eexists. split; [done|]. done.
  - rewrite bind_ok. cbn [fst snd] in Et. by rewrite Et.
Qed.
