(* ===== verification/Sha1Stream.v ===== *)
(** Feeding SHA-1 in pieces: the digest is that of FIPS 180-1 on the whole text, and the keyed
    hash is HMAC of RFC 2104. *)

From S2P Require Import Prelude CString Seri Frames Gate GateProps Crypt CryptDes Sha1 Sha1Transform.
Open Scope Z_scope.

(** ** The reference *)

(** The first [n] blocks of a text. *)
Fixpoint sha_blocks (n : nat) (h : words5) (l : list Z) : words5 :=
  match n with O => h | S n => sha_blocks n (sha_block h (take 64 l)) (drop 64 l) end.

Definition sha_start : words5 := (0x67452301, 0xEFCDAB89, 0x98BADCFE, 0x10325476, 0xC3D2E1F0).

(** The [n] bytes of a number, the highest first. *)
Fixpoint be_bytes (n : nat) (v : Z) : list Z :=
  match n with O => [] | S n => v / 2 ^ (8 * Z.of_nat n) mod 2 ^ 8 :: be_bytes n v end.

Definition sha_pad (text : list Z) : list Z :=
  text ++ 0x80 :: replicate (Z.to_nat ((55 - Z.of_nat (length text)) mod 64)) 0 ++ be_bytes 8 (8 * Z.of_nat (length text)).

Definition words_bytes (s : words5) : list Z :=
  let '(a, b, c, d, e) := s in be_bytes 4 a ++ be_bytes 4 b ++ be_bytes 4 c ++ be_bytes 4 d ++ be_bytes 4 e.

Definition sha1 (text : list Z) : list Z :=
  let l := sha_pad text in words_bytes (sha_blocks (length l / 64) sha_start l).

(** HMAC with blocks of 64 bytes. *)
Definition block_key (key : list Z) : list Z :=
  let k := if (64 <? length key)%nat then sha1 key else key in k ++ replicate (64 - length k) 0.

Definition hmac_sha1 (key text : list Z) : list Z :=
  let k := block_key key in sha1 (map (Z.lxor 0x5c) k ++ sha1 (map (Z.lxor 0x36) k ++ text)).

(** ** Blocks *)

Lemma sha_blocks_app n : ∀ h l t, (64 * n ≤ length l)%nat → sha_blocks n h (l ++ t) = sha_blocks n h l.
Proof.
  induction n as [|n IH]; intros h l t Hn; [done|]. cbn [sha_blocks]. rewrite take_app_le, drop_app_le by lia. apply IH. rewrite length_drop. lia.
Qed.

Lemma sha_blocks_add n m : ∀ h l, sha_blocks (n + m) h l = sha_blocks m (sha_blocks n h l) (drop (64 * n) l).
Proof.
  induction n as [|n IH]; intros h l; [done|]. cbn [Nat.add sha_blocks]. rewrite IH, drop_drop. do 2 f_equal. lia.
Qed.

Lemma take_block64 l : Forall byte l → (64 ≤ length l)%nat → block64 (take 64 l).
Proof. intros Hb Hl. split; [by apply Forall_take|by apply length_take_le]. Qed.

(** ** The invariant of a context

    After the text [t]: the complete blocks are in the state, the rest is in the buffer, the
    length in bits is in the counters. *)

Definition done_blocks (t : list Z) : nat := (length t / 64)%nat.
Definition pending (t : list Z) : list Z := drop (64 * done_blocks t) t.

Record ctx_of (t : list Z) (c : SHA1_CTX) : Prop := {
  ctx_bytes : Forall byte t;
  ctx_state : sha_state c = sha_blocks (done_blocks t) sha_start t;
  ctx_count0 : sha_count0 c = (8 * Z.of_nat (length t)) mod 2 ^ 32;
  ctx_count1 : sha_count1 c = (8 * Z.of_nat (length t)) / 2 ^ 32 mod 2 ^ 32;
  ctx_buffer : ∃ junk, sha_buffer c = map Some (pending t) ++ junk ∧ length (sha_buffer c) = 64%nat
}.

Lemma ctx_init : ctx_of [] sat_SHA1_Init.
Proof. split; [constructor|done..|]. by exists (replicate 64 None). Qed.

Lemma done_spec t : (length t = 64 * done_blocks t + length (pending t))%nat ∧ (length (pending t) < 64)%nat.
Proof.
  unfold pending, done_blocks. rewrite length_drop. pose proof (Nat.div_mod (length t) 64 ltac:(lia)). pose proof (Nat.mod_upper_bound (length t) 64 ltac:(lia)). lia.
Qed.

Lemma pending_index t : Z.land (Z.shiftr ((8 * Z.of_nat (length t)) mod 2 ^ 32) 3) 63 = Z.of_nat (length (pending t)).
Proof.
  destruct (done_spec t) as [E Hp]. change 63 with (Z.ones 6). rewrite Z.land_ones, Z.shiftr_div_pow2 by lia. change (2 ^ 3) with 8. change (2 ^ 6) with 64.
  change (2 ^ 32) with (8 * 2 ^ 29). rewrite Zmult_mod_distr_l, (Z.mul_comm 8), Z.div_mul by lia.
  rewrite <- Znumtheory.Zmod_div_mod; [|lia|lia|by exists (2 ^ 23)]. symmetry. apply (Z.mod_unique_pos _ _ (Z.of_nat (done_blocks t))); lia.
Qed.

(** The counters, for a piece below 2^29 bytes. *)
Lemma sha_count_lemma n len : 0 ≤ n → 0 ≤ len < 2 ^ 29 →
  sha_add_count (8 * n mod 2 ^ 32) (8 * n / 2 ^ 32 mod 2 ^ 32) len = (8 * (n + len) mod 2 ^ 32, 8 * (n + len) / 2 ^ 32 mod 2 ^ 32).
Proof.
  intros Hn Hl. unfold sha_add_count. rewrite Z.shiftl_mul_pow2 by lia. change (2 ^ 3) with 8. assert (Eu : u64 (len * 8) = 8 * len) by (unfold u64; rewrite Z.mod_small; lia).
  rewrite Eu, (Z.shiftr_div_pow2 len), (Z.div_small len) by lia. cbv zeta. unfold u32.
  pose proof (Z.div_mod (8 * n) (2 ^ 32) ltac:(lia)) as D. pose proof (Z.mod_pos_bound (8 * n) (2 ^ 32) ltac:(lia)) as Hm. set (q := 8 * n / 2 ^ 32) in *. set (r := 8 * n mod 2 ^ 32) in *.
  assert (Es : 8 * (n + len) = (r + 8 * len) + q * 2 ^ 32) by lia. rewrite Es, Z.mod_add, Z.div_add by lia. clear Es.
  assert (Hc : (r + 8 * len) / 2 ^ 32 = if (r + 8 * len) mod 2 ^ 32 <? 8 * len then 1 else 0).
  { destruct (Z_lt_le_dec (r + 8 * len) (2 ^ 32)).
    - rewrite (Z.mod_small (r + 8 * len)), Z.div_small by lia. destruct (Z.ltb_spec (r + 8 * len) (8 * len)); lia.
    - assert (E1 : (r + 8 * len) mod 2 ^ 32 = r + 8 * len - 2 ^ 32) by (symmetry; apply (Z.mod_unique_pos _ _ 1); lia).
      assert (E2 : (r + 8 * len) / 2 ^ 32 = 1) by (symmetry; apply (Z.div_unique_pos _ _ _ (r + 8 * len - 2 ^ 32)); lia).
      rewrite E1, E2. destruct (Z.ltb_spec (r + 8 * len - 2 ^ 32) (8 * len)); lia. }
  rewrite Hc. f_equal. destruct (_ <? _); rewrite Z.add_0_r.
  - rewrite Z.mod_mod, Zplus_mod_idemp_l by lia. f_equal. lia.
  - rewrite Z.mod_mod by lia. done.
Qed.

(** ** Feeding a piece *)

#[local] Opaque sha_block.

Lemma done_app t d : let D := pending t ++ d in
  done_blocks (t ++ d) = (done_blocks t + done_blocks D)%nat ∧ pending (t ++ d) = pending D ∧
  sha_blocks (done_blocks (t ++ d)) sha_start (t ++ d) = sha_blocks (done_blocks D) (sha_blocks (done_blocks t) sha_start t) D.
Proof.
  intros D. destruct (done_spec t) as [Et Hp]. destruct (done_spec D) as [ED HpD].
  assert (EtD : drop (64 * done_blocks t) (t ++ d) = D) by (unfold D, pending; rewrite drop_app_le; [done|lia]).
  assert (E : done_blocks (t ++ d) = (done_blocks t + done_blocks D)%nat).
  { unfold done_blocks at 1. symmetry. apply (Nat.div_unique _ _ _ (length (pending D)) HpD). assert (El : length D = (length (pending t) + length d)%nat) by apply length_app.
    rewrite length_app. lia. }
  split; [done|]. split.
  - unfold pending at 1. rewrite E. replace (64 * (done_blocks t + done_blocks D))%nat with (64 * done_blocks t + 64 * done_blocks D)%nat by lia. by rewrite <- drop_drop, EtD.
  - rewrite E, sha_blocks_add, sha_blocks_app, EtD by lia. done.
Qed.

Lemma sha_round_more d i h : Forall byte d → 0 ≤ i → i + 63 < Z.of_nat (length d) →
  sha_round d (i, h) = Ok (Continue (i + 64, sha_block h (take 64 (drop (Z.to_nat i) d)))).
Proof.
  intros Hb Hi Hl. unfold sha_round. destruct (Z.ltb_spec (i + 63) (Z.of_nat (length d))); [|lia]. rewrite rd_at_ok, bind_ok by lia.
  change (Z.to_nat 64) with 64%nat. rewrite SHA1_Transform_lemma, bind_ok; [done|]. apply take_block64; [by apply Forall_drop|]. rewrite length_drop. lia.
Qed.

Lemma sha_round_end d i h : Z.of_nat (length d) ≤ i + 63 → sha_round d (i, h) = Ok (Break (i, h)).
Proof. intros Hl. unfold sha_round. destruct (Z.ltb_spec (i + 63) (Z.of_nat (length d))); [lia|done]. Qed.

Lemma sha_loop d : Forall byte d → ∀ n i h fuel, (i ≤ length d)%nat → n = ((length d - i) / 64)%nat → (n < fuel)%nat →
  iterate fuel (sha_round d) (Z.of_nat i, h) = Ok (Z.of_nat (i + 64 * n), sha_blocks n h (drop i d)).
Proof.
  intros Hb. induction n as [|n IH]; intros i h fuel Hi Hn Hf; (destruct fuel as [|fuel]; [lia|]); cbn [iterate].
  - assert (length d - i < 64)%nat by (apply Nat.div_small_iff; lia). rewrite sha_round_end, bind_ok by lia. cbn [sha_blocks]. do 2 f_equal. lia.
  - pose proof (Nat.div_mod (length d - i) 64 ltac:(lia)) as D. rewrite <- Hn in D. rewrite sha_round_more, bind_ok, Nat2Z.id by (done || lia).
    replace (Z.of_nat i + 64) with (Z.of_nat (i + 64)) by lia. rewrite IH; [|lia| |lia].
    + cbn [sha_blocks]. rewrite drop_drop. do 3 f_equal. lia.
    + replace (length d - (i + 64))%nat with (length d - i - 64)%nat by lia. apply (Nat.div_unique _ _ _ ((length d - i) mod 64)); [by apply Nat.mod_upper_bound|lia].
Qed.

(** [p] is pending and [d] fills at least one block. *)
Lemma sha_fill_lemma p d h junk : Forall byte p → Forall byte d → (length p < 64)%nat → (64 ≤ length p + length d)%nat →
  length (map Some p ++ junk) = 64%nat → let D := p ++ d in
  sha_fill h (map Some p ++ junk) (Z.of_nat (length p)) d =
    Ok (sha_blocks (done_blocks D) h D, map Some (pending D) ++ drop (length (pending D)) (map Some (take 64 D))).
Proof.
  intros Hp Hd Hlp Hlen Hl D. rewrite length_app, length_map in Hl. unfold sha_fill. cbv zeta. replace (64 - Z.of_nat (length p)) with (Z.of_nat (64 - length p)) by lia. set (n := (64 - length p)%nat) in *.
  rewrite rd_at_ok, bind_ok, Nat2Z.id by lia. change (drop (Z.to_nat 0) d) with d. assert (Hh : length (take n d) = n) by (rewrite length_take; lia).
  rewrite wr_at_over, bind_ok by lia. rewrite drop_ge, app_nil_r by lia. assert (EtD : p ++ take n d = take 64 D) by (unfold D; by rewrite take_app_ge by lia).
  assert (HD : length D = (length p + length d)%nat) by apply length_app. assert (H64 : length (take 64 D) = 64%nat) by (rewrite length_take; lia).
  rewrite EtD. pose proof (init_bytes_lemma (take 64 D) []) as Ei2. rewrite app_nil_r, H64 in Ei2. change (Z.of_nat 64) with 64 in Ei2. rewrite Ei2, bind_ok.
  assert (HbD : Forall byte D) by (by apply Forall_app). rewrite SHA1_Transform_lemma, bind_ok by (apply take_block64; [done|lia]).
  rewrite (sha_loop d Hd ((length d - n) / 64)), bind_ok by (try done; pose proof (Nat.Div0.div_le_upper_bound (length d - n) 64 (length d)); lia).
  set (k := ((length d - n) / 64)%nat). assert (Ek : done_blocks D = S k).
  { unfold done_blocks, k. replace (length D) with (1 * 64 + (length d - n))%nat by lia. by rewrite Nat.div_add_l by lia. }
  assert (Edrop : drop 64 D = drop n d) by (unfold D; by rewrite drop_app_ge by lia).
  pose proof (done_spec D) as [EsD HpD]. rewrite Ek in EsD. rewrite rd_at_ok, bind_ok, Nat2Z.id by lia.
  assert (Epend : drop (n + 64 * k) d = pending D) by (unfold pending; rewrite Ek, <- drop_drop, <- Edrop, drop_drop; f_equal; lia).
  rewrite (take_ge (drop (n + 64 * k) d)), Epend by (rewrite length_drop; lia). change (wr_at (map Some (take 64 D)) 0) with (wr_at (map Some [] ++ map Some (take 64 D)) (Z.of_nat (length (@nil Z)))).
  rewrite wr_at_over, bind_ok by (rewrite length_map; lia). rewrite Ek. cbn [sha_blocks]. by rewrite Edrop.
Qed.

Lemma sha_update_lemma t c d : ctx_of t c → Forall byte d → Z.of_nat (length d) < 2 ^ 29 →
  ∃ c', sat_SHA1_Update c d = Ok c' ∧ ctx_of (t ++ d) c'.
Proof.
  intros [Ht Es E0 E1 (junk & Eb & Hlb)] Hd Hlen. destruct (done_spec t) as [_ Hp]. pose proof (sha_count_lemma (Z.of_nat (length t)) (Z.of_nat (length d)) ltac:(lia) ltac:(lia)) as Ec.
  destruct (done_app t d) as (ED & EP & EB). set (D := pending t ++ d) in *. assert (HD : length D = (length (pending t) + length d)%nat) by apply length_app.
  assert (Hpb : Forall byte (pending t)) by (by apply Forall_drop). assert (Htd : Forall byte (t ++ d)) by (by apply Forall_app).
  unfold sat_SHA1_Update. cbv zeta. rewrite E0, E1, Ec, pending_index, Eb, Es. rewrite Eb in Hlb. assert (Eln : Z.of_nat (length t) + Z.of_nat (length d) = Z.of_nat (length (t ++ d))) by (rewrite length_app; lia). rewrite Eln.
  destruct (Z.gtb_spec (Z.of_nat (length (pending t)) + Z.of_nat (length d)) 63) as [Hgt|Hle].
  - rewrite sha_fill_lemma, bind_ok by (done || lia). fold D. eexists. split; [done|].
    split; [done|by rewrite EB|done|done|]. cbn [sha_buffer]. rewrite EP. eexists. split; [done|]. destruct (done_spec D) as [EsD HpD].
    rewrite length_app, length_drop, !length_map, length_take. lia.
  - rewrite length_app, length_map in Hlb. rewrite wr_at_over, bind_ok by lia. fold D. assert (Ez : done_blocks D = 0%nat) by (unfold done_blocks; apply Nat.div_small; lia).
    assert (EpD : pending D = D) by (unfold pending; by rewrite Ez). rewrite Ez in EB. eexists. split; [done|].
    split; [done|by rewrite EB|done|done|]. cbn [sha_buffer]. rewrite EP, EpD. eexists. split; [done|]. rewrite length_app, length_map, length_drop. lia.
Qed.

(** ** The digest *)

Lemma sha_byte_of a k : 0 ≤ k → Z.land (Z.shiftr a k) 255 = a / 2 ^ k mod 2 ^ 8.
Proof. intros Hk. rewrite Z.shiftr_div_pow2 by done. change 255 with (Z.ones 8). by rewrite Z.land_ones. Qed.

Lemma mod_div_pow2 x n s : 0 ≤ s → s + 8 ≤ n → (x mod 2 ^ n) / 2 ^ s mod 2 ^ 8 = x / 2 ^ s mod 2 ^ 8.
Proof.
  intros Hs Hn. apply Z.bits_inj'. intros k Hk. destruct (Z.ltb_spec k 8).
  - rewrite !Z.mod_pow2_bits_low, !Z.div_pow2_bits, Z.mod_pow2_bits_low by lia. done.
  - by rewrite !Z.mod_pow2_bits_high by lia.
Qed.

(** A byte of the count is a byte of the number of bits. *)
Lemma count0_byte n k : 0 ≤ k ≤ 24 → Z.land (Z.shiftr (8 * n mod 2 ^ 32) k) 255 = 8 * n / 2 ^ k mod 2 ^ 8.
Proof. intros Hk. rewrite sha_byte_of, mod_div_pow2 by lia. done. Qed.

Lemma count1_byte n k : 0 ≤ k ≤ 24 → Z.land (Z.shiftr (8 * n / 2 ^ 32 mod 2 ^ 32) k) 255 = 8 * n / 2 ^ (32 + k) mod 2 ^ 8.
Proof. intros Hk. rewrite sha_byte_of, mod_div_pow2, Z.div_div, <- Z.pow_add_r by lia. done. Qed.

Lemma finalcount_lemma n :
  map (λ i, Z.land (Z.shiftr (if i >=? 4 then 8 * n mod 2 ^ 32 else 8 * n / 2 ^ 32 mod 2 ^ 32) ((3 - Z.land i 3) * 8)) 255) (seqZ 0 8) = be_bytes 8 (8 * n).
Proof.
  change (seqZ 0 8) with [0; 1; 2; 3; 4; 5; 6; 7]. cbn [map be_bytes].
  f_equal; [by apply (count1_byte n 24)|]. f_equal; [by apply (count1_byte n 16)|]. f_equal; [by apply (count1_byte n 8)|]. f_equal; [by apply (count1_byte n 0)|].
  f_equal; [by apply (count0_byte n 24)|]. f_equal; [by apply (count0_byte n 16)|]. f_equal; [by apply (count0_byte n 8)|]. f_equal. by apply (count0_byte n 0).
Qed.

Lemma be_bytes_bytes n v : Forall byte (be_bytes n v) ∧ length (be_bytes n v) = n.
Proof.
  induction n as [|n [IH IHl]]; [by split; [constructor|]|]. cbn [be_bytes length]. split; [|by rewrite IHl].
  constructor; [|done]. unfold byte. change 256 with (2 ^ 8). apply Z.mod_pos_bound. lia.
Qed.

Lemma digest_lemma s : map (λ i, Z.land (Z.shiftr (sha_word s (Z.shiftr i 2)) ((3 - Z.land i 3) * 8)) 255) (seqZ 0 SHA1_DIGEST_SIZE) = words_bytes s.
Proof.
  destruct s as [[[[a b] c] d] e]. change (seqZ 0 SHA1_DIGEST_SIZE) with [0; 1; 2; 3; 4; 5; 6; 7; 8; 9; 10; 11; 12; 13; 14; 15; 16; 17; 18; 19].
  unfold words_bytes. cbn [map be_bytes app]. repeat (f_equal; [by apply sha_byte_of|]). f_equal. by apply sha_byte_of.
Qed.

(** Padding with zeros. *)
Lemma pad_condition n : 0 ≤ n → Z.land (8 * n mod 2 ^ 32) 504 = 8 * (n mod 64).
Proof.
  intros Hn. change (2 ^ 32) with (8 * 2 ^ 29). rewrite Zmult_mod_distr_l. change 504 with (Z.shiftl (Z.ones 6) 3).
  replace (8 * (n mod 2 ^ 29)) with (Z.shiftl (n mod 2 ^ 29) 3) by (rewrite Z.shiftl_mul_pow2 by lia; lia).
  rewrite <- Z.shiftl_land, Z.land_ones, Z.shiftl_mul_pow2 by lia. change (2 ^ 3) with 8. change (2 ^ 6) with 64.
  rewrite <- Znumtheory.Zmod_div_mod; [lia|lia|lia|by exists (2 ^ 23)].
Qed.

Lemma pad_round_lemma t c : ctx_of t c →
  sha_pad_round c = if Z.of_nat (length t) mod 64 =? 56 then Ok (Break c) else c' ← sat_SHA1_Update c [0]; Ok (Continue c').
Proof.
  intros Hc. unfold sha_pad_round. rewrite (ctx_count0 _ _ Hc), pad_condition by lia.
  destruct (Z.eqb_spec (8 * (Z.of_nat (length t) mod 64)) 448), (Z.eqb_spec (Z.of_nat (length t) mod 64) 56); lia || done.
Qed.

Lemma pad_loop k : ∀ t c fuel, ctx_of t c → (k < 64)%nat → (Z.of_nat (length t) + Z.of_nat k) mod 64 = 56 → (k < fuel)%nat →
  ∃ c', iterate fuel sha_pad_round c = Ok c' ∧ ctx_of (t ++ replicate k 0) c'.
Proof.
  induction k as [|k IH]; intros t c fuel Hc Hk Hm Hf; (destruct fuel as [|fuel]; [lia|]); cbn [iterate]; rewrite (pad_round_lemma t c Hc).
  - rewrite Z.add_0_r in Hm. rewrite Hm. exists c. by rewrite app_nil_r.
  - destruct (Z.eqb_spec (Z.of_nat (length t) mod 64) 56) as [E|_].
    { pose proof (Z.div_mod (Z.of_nat (length t)) 64 ltac:(lia)). pose proof (Z.div_mod (Z.of_nat (length t) + Z.of_nat (S k)) 64 ltac:(lia)). lia. }
    destruct (sha_update_lemma t c [0] Hc) as (c1 & -> & Hc1); [by repeat constructor|done|]. rewrite !bind_ok.
    destruct (IH (t ++ [0]) c1 fuel Hc1 ltac:(lia)) as (c' & -> & Hc'); [rewrite length_app; cbn; rewrite <- Hm; f_equal; lia|lia|].
    exists c'. split; [done|]. by rewrite <- app_assoc in Hc'.
Qed.

Lemma final_lemma t c : ctx_of t c → ∃ w, sat_SHA1_Final c = Ok (sha1 t, w).
Proof.
  intros Hc. unfold sat_SHA1_Final. rewrite (ctx_count0 _ _ Hc), (ctx_count1 _ _ Hc), finalcount_lemma. cbv zeta.
  destruct (sha_update_lemma t c [0x80] Hc) as (c1 & -> & Hc1); [by repeat constructor|done|]. rewrite bind_ok.
  set (n := Z.of_nat (length t)). set (k := Z.to_nat ((55 - n) mod 64)). pose proof (Z.mod_pos_bound (55 - n) 64 ltac:(lia)) as Hk.
  destruct (pad_loop k (t ++ [0x80]) c1 65 Hc1) as (c2 & -> & Hc2); [unfold k; lia| |unfold k; lia|].
  { rewrite length_app. cbn [length]. unfold k. rewrite Z2Nat.id by lia. replace (Z.of_nat (length t + 1) + (55 - n) mod 64) with ((55 - n) mod 64 + (n + 1)) by (unfold n; lia).
    rewrite Zplus_mod_idemp_l. by replace (55 - n + (n + 1)) with 56 by lia. }
  rewrite bind_ok. destruct (be_bytes_bytes 8 (8 * n)) as [Hbb Hbl].
  destruct (sha_update_lemma _ c2 (be_bytes 8 (8 * n)) Hc2 Hbb) as (c3 & -> & Hc3); [rewrite Hbl; done|]. rewrite bind_ok, digest_lemma, (ctx_state _ _ Hc3).
  eexists. do 2 f_equal. unfold sha1, sha_pad. fold n k. rewrite <- !app_assoc. done.
Qed.

Lemma sha1_bytes t : Forall byte (sha1 t) ∧ length (sha1 t) = 20%nat.
Proof.
  unfold sha1. destruct (sha_blocks _ _ _) as [[[[a b] c] d] e]. cbn [words_bytes]. split; [|rewrite !length_app, !(proj2 (be_bytes_bytes _ _)); done].
  rewrite !Forall_app. repeat split; apply be_bytes_bytes.
Qed.

(** ** The Lua functions *)

Lemma lsha1_lemma text : Forall byte text → Z.of_nat (length text) < 2 ^ 29 → lsha1 text = lua_ret (sha1 text).
Proof.
  intros Hb Hl. unfold lsha1. destruct (sha_update_lemma [] sat_SHA1_Init text ctx_init Hb Hl) as (c & -> & Hc). rewrite bind_ok.
  destruct (final_lemma _ c Hc) as (w & ->). done.
Qed.

(** Four bytes of the key and the constant. *)
Lemma xor_word q b : Forall byte q → length q = 4%nat → byte b → le_bytes 4 (Z.lxor (le_value q) (word4 b b b b)) = map (Z.lxor b) q.
Proof.
  intros Hq Hl Hb. destruct q as [|q0 [|q1 [|q2 [|q3 [|? ?]]]]]; try done. rewrite !Forall_cons in Hq. destruct Hq as (H0 & H1 & H2 & H3 & _).
  replace (le_value [q0; q1; q2; q3]) with (word4 q0 q1 q2 q3) by (unfold word4; cbn [le_value]; lia).
  rewrite (word4_op _ _ _ _ _ _ _ _ _ lxor_bytewise) by (rewrite !Forall_cons; done). cbn [map]. rewrite !(Z.lxor_comm b).
  assert (Hx : ∀ x, byte x → 0 ≤ Z.lxor x b < 256).
  { intros x Hx. split; [apply Z.lxor_nonneg; unfold byte in *; lia|]. assert (E : Z.land (Z.lxor x b) (Z.ones 8) = Z.lxor x b).
    { rewrite land_lxor_distr, !Z.land_ones, !Z.mod_small by (unfold byte in *; lia). done. }
    rewrite <- E, Z.land_ones by lia. by apply Z.mod_pos_bound. }
  unfold word4. cbn [le_bytes]. change (2 ^ 8) with 256.
  assert (Hdm : ∀ lo hi, 0 ≤ lo < 256 → (lo + 256 * hi) mod 256 = lo ∧ (lo + 256 * hi) / 256 = hi).
  { intros lo hi Hlo. rewrite (Z.mul_comm 256), Z.mod_add, Z.div_add, Z.mod_small, Z.div_small by lia. lia. }
  rewrite !(proj2 (Hdm _ _ (Hx _ H0))), !(proj2 (Hdm _ _ (Hx _ H1))), !(proj2 (Hdm _ _ (Hx _ H2))).
  rewrite (proj1 (Hdm _ _ (Hx _ H0))), (proj1 (Hdm _ _ (Hx _ H1))), (proj1 (Hdm _ _ (Hx _ H2))). by rewrite (Z.mod_small _ _ (Hx _ H3)).
Qed.

Lemma fours_map (f : Z → Z) n : ∀ k, length k = (4 * n)%nat → concat (map (λ i, map f (take 4 (drop (4 * i) k))) (seq 0 n)) = map f k.
Proof.
  induction n as [|n IH]; intros k Hk; [by destruct k|]. cbn [seq map concat]. rewrite <- seq_shift, map_map. change (drop (4 * 0) k) with k.
  transitivity (map f (take 4 k ++ drop 4 k)); [|by rewrite take_drop]. rewrite map_app. f_equal. rewrite <- (IH (drop 4 k)) by (rewrite length_drop; lia). f_equal. apply map_ext. intros i.
  rewrite drop_drop. do 3 f_equal. lia.
Qed.

Lemma xor_key_lemma k b : block64 k → byte b → xor_key k (word4 b b b b) = Ok (map (Z.lxor b) k).
Proof.
  intros [Hk Hl] Hb. unfold xor_key. rewrite (mapM_map _ (λ i, map (Z.lxor b) (take 4 (drop (Z.to_nat (4 * i)) k)))).
  - rewrite bind_ok. f_equal. rewrite <- (fours_map (Z.lxor b) 16 k Hl). change (seqZ 0 16) with (map Z.of_nat (seq 0 16)). by rewrite map_map.
  - intros i Hi%elem_of_seqZ. rewrite rd_at_ok, bind_ok by lia. f_equal. apply xor_word; [by apply Forall_take, Forall_drop| |done]. rewrite length_take, length_drop. lia.
Qed.

Lemma block_key_block key : Forall byte key → block64 (block_key key).
Proof.
  intros Hb. unfold block_key. set (k := if (64 <? length key)%nat then sha1 key else key). assert (Hk : Forall byte k ∧ (length k ≤ 64)%nat).
  { unfold k. destruct (Nat.ltb_spec 64 (length key)); [|done]. destruct (sha1_bytes key) as [H1 ->]. split; [done|lia]. }
  split; [|rewrite length_app, length_replicate; lia]. apply Forall_app. split; [apply Hk|]. apply Forall_replicate. unfold byte. lia.
Qed.

Lemma hmac_key_lemma key : Forall byte key → Z.of_nat (length key) < 2 ^ 29 → hmac_key key = Ok (block_key key).
Proof.
  intros Hb Hl. unfold hmac_key, block_key, BLOCKSIZE. destruct (Z.gtb_spec (Z.of_nat (length key)) 64), (Nat.ltb_spec 64 (length key)); try lia.
  - destruct (sha_update_lemma [] sat_SHA1_Init key ctx_init Hb Hl) as (c & -> & Hc). rewrite bind_ok. destruct (final_lemma _ c Hc) as (w & ->). rewrite bind_ok.
    by rewrite (proj2 (sha1_bytes key)).
  - done.
Qed.

Lemma lxor_bytes b k : byte b → block64 k → block64 (map (Z.lxor b) k).
Proof.
  intros Hb [Hk Hl]. split; [|by rewrite length_map]. apply Forall_map. eapply Forall_impl; [exact Hk|]. intros x Hx.
  unfold byte in *. cbn. split; [apply Z.lxor_nonneg; lia|]. assert (E : Z.land (Z.lxor b x) (Z.ones 8) = Z.lxor b x).
  { rewrite land_lxor_distr, !Z.land_ones, !Z.mod_small by lia. done. }
  rewrite <- E, Z.land_ones by lia. by apply Z.mod_pos_bound.
Qed.

Lemma lhmac_sha1_lemma key text : Forall byte key → Forall byte text → Z.of_nat (length key) < 2 ^ 29 → Z.of_nat (length text) < 2 ^ 29 →
  lhmac_sha1 key text = lua_ret (hmac_sha1 key text).
Proof.
  intros Hk Ht Hlk Hlt. unfold lhmac_sha1. rewrite hmac_key_lemma, bind_ok by done. pose proof (block_key_block key Hk) as Hb. unfold hmac_sha1. cbv zeta. set (k := block_key key) in *.
  assert (H5c : byte 0x5c ∧ byte 0x6a ∧ byte 0x36) by (unfold byte; lia). destruct H5c as (H5c & H6a & H36).
  pose proof (xor_key_lemma k 0x5c Hb H5c : xor_key k 0x5c5c5c5c = _) as E1. rewrite E1, bind_ok. pose proof (lxor_bytes 0x5c k H5c Hb) as Ho.
  destruct (sha_update_lemma [] sat_SHA1_Init _ ctx_init (proj1 Ho)) as (c1 & -> & Hc1); [by rewrite (proj2 Ho)|]. rewrite bind_ok.
  pose proof (xor_key_lemma _ 0x6a Ho H6a : xor_key _ (Z.lxor 0x5c5c5c5c 0x36363636) = _) as E2. rewrite E2, bind_ok.
  assert (Ei : map (Z.lxor 0x6a) (map (Z.lxor 0x5c) k) = map (Z.lxor 0x36) k) by (rewrite map_map; apply map_ext; intros x; by rewrite <- Z.lxor_assoc).
  rewrite Ei. pose proof (lxor_bytes 0x36 k H36 Hb) as Hi. destruct (sha_update_lemma [] sat_SHA1_Init _ ctx_init (proj1 Hi)) as (c2 & -> & Hc2); [by rewrite (proj2 Hi)|]. rewrite bind_ok.
  change ([] ++ map (Z.lxor 0x36) k) with (map (Z.lxor 0x36) k) in Hc2. change ([] ++ map (Z.lxor 0x5c) k) with (map (Z.lxor 0x5c) k) in Hc1.
  destruct (sha_update_lemma _ c2 text Hc2 Ht Hlt) as (c3 & -> & Hc3). rewrite bind_ok. destruct (final_lemma _ c3 Hc3) as (w & ->). rewrite bind_ok.
  destruct (sha1_bytes (map (Z.lxor 0x36) k ++ text)) as [Hsb Hsl]. destruct (sha_update_lemma _ c1 _ Hc1 Hsb) as (c4 & -> & Hc4); [by rewrite Hsl|]. rewrite bind_ok.
  destruct (final_lemma _ c4 Hc4) as (w' & ->). done.
Qed.

(** C32.  SHA-1 and the keyed hash: for texts and keys below 2^29 bytes [lsha1] gives the digest of
    FIPS 180-1 (the text padded to blocks of 64 bytes, 80 rounds on the schedule of the block) and
    [lhmac_sha1] gives HMAC of RFC 2104, whatever the boundaries at which the context is fed. *)
Theorem sha1_correct key text : Forall byte key → Forall byte text → Z.of_nat (length key) < 2 ^ 29 → Z.of_nat (length text) < 2 ^ 29 →
  lsha1 text = lua_ret (sha1 text) ∧ lhmac_sha1 key text = lua_ret (hmac_sha1 key text).
Proof. intros. split; [by apply lsha1_lemma|by apply lhmac_sha1_lemma]. Qed.

Lemma sha1_correct_witness : Forall byte (str "key") ∧ lsha1 (str "abc") = lua_ret (sha1 (str "abc")) ∧ lhmac_sha1 (str "key") (str "abc") = lua_ret (hmac_sha1 (str "key") (str "abc")).
Proof.
  assert (Hk : Forall byte (str "key")) by (by apply (bool_decide_eq_true_1 _); vm_compute). assert (Ht : Forall byte (str "abc")) by (by apply (bool_decide_eq_true_1 _); vm_compute).
  split; [exact Hk|]. apply (sha1_correct (str "key") (str "abc") Hk Ht); reflexivity.
Defined.

(** The vector of the standard. *)
Example sha1_abc : sha1 (str "abc") =
  [0xA9; 0x99; 0x3E; 0x36; 0x47; 0x06; 0x81; 0x6A; 0xBA; 0x3E; 0x25; 0x71; 0x78; 0x50; 0xC2; 0x6C; 0x9C; 0xD0; 0xD8; 0x9D].
Proof. by vm_compute. Qed.

(** From 2^29 bytes on the comparison that finds the carry is of the sum cut to 32 bits with a
    number of 64: the high word counts a carry that there is not. *)
Example count_wrong : sha_add_count 8 0 (2 ^ 29) = (8, 2) ∧ 8 * (1 + 2 ^ 29) / 2 ^ 32 = 1.
Proof. by vm_compute. Qed.
