(* ===== verification/Words.v ===== *)
(** Words of 32 bits in memory, the low byte first: the bytes that [word_bytes] gives and [word_of]
    reads, as the cluster's packages and sproto's messages have them; and writing into
    the middle of a buffer. *)

From S2P Require Import Prelude CString Seri Frames Gate GateProps Crypt CryptDes CryptDh CryptText.
Open Scope Z_scope.

(** ** Reading a word *)

Lemma word_bytes_length n : length (word_bytes n) = 4%nat.
Proof. done. Qed.

Lemma land_byte x : byte (Z.land x 0xff).
Proof. pose proof (land_mask_bound x 255). unfold byte. lia. Qed.

Lemma word_bytes_byte n : Forall byte (word_bytes n).
Proof. unfold word_bytes. repeat (apply Forall_cons; split; [apply land_byte|]). constructor. Qed.

Lemma le_word_bytes n : 0 ≤ n < 2 ^ 32 → le (word_bytes n) = n.
Proof.
  intros Hn. unfold word_bytes, shr. rewrite !land_255, !Z.shiftr_div_pow2 by lia. unfold le. pose proof (word_digits n Hn) as E.
  assert (E3 : n / 2 ^ 24 mod 2 ^ 8 = n / 2 ^ 24) by (apply Z.mod_small; split; [apply Z.div_pos; lia|apply Z.div_lt_upper_bound; lia]). rewrite E3. lia.
Qed.

Lemma rd_app_3 (pre l : list Z) x y z w : rd (pre ++ x :: y :: z :: w :: l) (Z.of_nat (length pre) + 3) = Ok w.
Proof. by apply (rd_app_at pre _ 3). Qed.

Lemma word_at pre n rest i : i = Z.of_nat (length pre) → 0 ≤ n < 2 ^ 32 → word_of (pre ++ word_bytes n ++ rest) i = Ok n.
Proof.
  intros -> Hn. unfold word_of. unfold word_bytes. cbn [app]. rewrite rd_app_0, bind_ok, rd_app_1, bind_ok, rd_app_2, bind_ok, rd_app_3, bind_ok.
  rewrite word_bits by apply land_byte. f_equal. by apply (le_word_bytes n).
Qed.

Lemma rest_at pre l i n : i = Z.of_nat (length pre) → n = Z.of_nat (length l) → rd_at (pre ++ l) i n = Ok l.
Proof. intros -> ->. rewrite rd_at_ok by (rewrite ?length_app; lia). by rewrite !Nat2Z.id, drop_app_length, take_ge. Qed.

(** ** Buffers *)

Lemma wr_at_mid l : ∀ (pre mid post : buffer) i, i = Z.of_nat (length pre) → length mid = length l →
  wr_at (pre ++ mid ++ post) i l = Ok (pre ++ map Some l ++ post).
Proof.
  induction l as [|x l IH]; intros pre mid post i -> Hm; destruct mid as [|m mid]; try done. cbn [wr_at length] in *.
  rewrite wr_ok by (rewrite !length_app; cbn [length]; lia). rewrite bind_ok, Nat2Z.id. cbn [app]. rewrite insert_app_r_alt, Nat.sub_diag by lia. cbn [insert list_insert].
  rewrite (cons_middle (Some x)), app_assoc. rewrite (IH (pre ++ [Some x]) mid post) by (rewrite ?length_app; cbn [length]; lia). cbn [map]. by rewrite <- app_assoc.
Qed.

Lemma wr_mid (pre post : buffer) i x y : i = Z.of_nat (length pre) → wr (pre ++ x :: post) i (Some y) = Ok (pre ++ Some y :: post).
Proof. intros Hi. pose proof (wr_at_mid [y] pre [x] post i Hi eq_refl) as E. cbn [wr_at app] in E. by destruct (wr (pre ++ x :: post) i (Some y)). Qed.

Lemma init_prefix (l : list Z) (post : buffer) n : n = Z.of_nat (length l) → init_bytes (map Some l ++ post) n = Ok l.
Proof. intros ->. apply init_bytes_lemma. Qed.
