(* ===== verification/Interleave.v ===== *)
(** Streams of several senders that arrive interleaved at a receiver with a table of unfinished
    messages, one entry per key.

    An item is what one sender sends: its packages, the entry the receiver has after a number of
    them, and the result after the last.  When the receiver's step moves one item and leaves
    the other entries alone, then after every interleaving each result has come out
    exactly once and the table is empty. *)

From S2P Require Import Prelude.

Inductive interleave {A} : list (list A) → list A → Prop :=
| interleave_nil ls : Forall (λ l, l = []) ls → interleave ls []
| interleave_cons ls i x l t : ls !! i = Some (x :: l) → interleave (<[i := l]> ls) t → interleave ls (x :: t).

(** In order is an interleaving. *)
Lemma interleave_here {A} (ls : list (list A)) : ∀ done, Forall (λ l, l = []) done → interleave (done ++ ls) (concat ls).
Proof.
  induction ls as [|l ls IH]; intros dn Hd; [rewrite app_nil_r; by constructor|]. cbn [concat]. induction l as [|x l IHl].
  - cbn [app]. replace (dn ++ [] :: ls) with ((dn ++ [[]]) ++ ls) by (by rewrite <- app_assoc). apply IH. apply Forall_app. by repeat constructor.
  - cbn [app]. apply (interleave_cons _ (length dn) x l).
    + by rewrite lookup_app_r, Nat.sub_diag by lia.
    + rewrite insert_app_r_alt, Nat.sub_diag by lia. exact IHl.
Qed.

Lemma interleave_concat {A} (ls : list (list A)) : interleave ls (concat ls).
Proof. by apply (interleave_here ls []). Qed.

(** What holds for every package holds for the stream. *)
Lemma interleave_Forall {A} (P : A → Prop) ls t : interleave ls t → Forall (Forall P) ls → Forall P t.
Proof.
  induction 1 as [ls Hd|ls i x l t Hi Ht IH]; intros HP; [constructor|].
  assert (Hx : Forall P (x :: l)) by (rewrite Forall_forall in HP; apply HP; by eapply list_elem_of_lookup_2).
  apply Forall_cons in Hx as [Hx Hl]. constructor; [done|]. apply IH. by apply Forall_insert.
Qed.

(** The same with every package passed through a function. *)
Lemma interleave_map {A B} (f : A → B) ls t : interleave (map (map f) ls) t → ∃ t0, interleave ls t0 ∧ t = map f t0.
Proof.
  intros Ht. remember (map (map f) ls) as ls' eqn:E. revert ls E. induction Ht as [ls' Hd|ls' i y l' t Hi Ht IH]; intros ls ->.
  - exists []. split; [|done]. constructor. apply Forall_map in Hd. eapply Forall_impl; [exact Hd|]. intros l Hl. by destruct l.
  - rewrite list_lookup_fmap in Hi. destruct (ls !! i) as [[|x l]|] eqn:Ei; [done| |done]. cbn in Hi. injection Hi as <- <-.
    destruct (IH (<[i := l]> ls)) as (t0 & Ht0 & ->); [symmetry; apply list_fmap_insert|]. exists (x :: t0). split; [|done]. by apply (interleave_cons _ i x l).
Qed.

Section receiver.
Context {X P O : Type}.
Context (step : gmap Z X → P → res (gmap Z X * list O)).

Record item : Type := Item {
  it_key : Z;
  it_packages : list P;
  it_partial : nat → option X;
  it_out : list O
}.

(** A run of the receiver. *)
Fixpoint receive (m : gmap Z X) (t : list P) : res (gmap Z X * list O) :=
  match t with
  | [] => Ok (m, [])
  | p :: t =>
      '(m, o) ← step m p;
      '(m, o') ← receive m t;
      Ok (m, o ++ o')
  end.

(** Package [j] of an item moves the entry of its key on. *)
Definition moves (it : item) : Prop :=
  it_partial it (length (it_packages it)) = None ∧
  ∀ m j p, it_packages it !! j = Some p → m !! it_key it = it_partial it j →
    step m p = Ok (partial_alter (λ _, it_partial it (S j)) (it_key it) m, if decide (S j = length (it_packages it)) then it_out it else []).

(** Two items have different keys, or never an entry. *)
Definition apart (it it' : item) : Prop :=
  it_key it ≠ it_key it' ∨ (∀ j, it_partial it j = None) ∧ (∀ j, it_partial it' j = None).

(** The items with the number of packages each has sent. *)
Record progress (its : list (item * nat)) (m : gmap Z X) : Prop := {
  pr_entry i it j : its !! i = Some (it, j) → m !! it_key it = it_partial it j;
  pr_other k : (∀ i it j, its !! i = Some (it, j) → it_key it ≠ k) → m !! k = None
}.

Definition waiting (ij : item * nat) : list P := drop ij.2 (it_packages ij.1).
Definition left_out (ij : item * nat) : list O := if decide (ij.2 < length (it_packages ij.1))%nat then it_out ij.1 else [].

Lemma progress_step its m i it j : progress its m → its !! i = Some (it, j) →
  (∀ i' it' j', i' ≠ i → its !! i' = Some (it', j') → apart it it') →
  progress (<[i := (it, S j)]> its) (partial_alter (λ _, it_partial it (S j)) (it_key it) m).
Proof.
  intros [He Ho] Hi Hap. assert (Hlt : (i < length its)%nat) by (by eapply lookup_lt_Some). split.
  - intros i' it' j' Hi'. destruct (decide (i' = i)) as [->|Hne].
    + rewrite list_lookup_insert_eq in Hi' by done. injection Hi' as <- <-. by rewrite lookup_partial_alter_eq.
    + rewrite list_lookup_insert_ne in Hi' by done. destruct (Hap i' it' j' Hne Hi') as [Hk|[Hn Hn']].
      * rewrite lookup_partial_alter_ne by done. by eapply He.
      * destruct (decide (it_key it = it_key it')) as [Ek|Hk]; [rewrite <- Ek, lookup_partial_alter_eq; by rewrite Hn, Hn'|].
        rewrite lookup_partial_alter_ne by done. by eapply He.
  - intros k Hk. assert (Hne : it_key it ≠ k) by (apply (Hk i it (S j)); by apply list_lookup_insert_eq).
    rewrite lookup_partial_alter_ne by done. apply Ho. intros i' it' j' Hi'. destruct (decide (i' = i)) as [->|Hni]; [by rewrite Hi in Hi'; injection Hi' as <- <-|].
    apply (Hk i' it' j'). by rewrite list_lookup_insert_ne.
Qed.

(** One item moved on: what is still to come out. *)
Lemma left_out_step its i it j : its !! i = Some (it, j) → (j < length (it_packages it))%nat →
  concat (map left_out its) ≡ₚ (if decide (S j = length (it_packages it)) then it_out it else []) ++ concat (map left_out (<[i := (it, S j)]> its)).
Proof.
  intros Hi Hj. assert (El : left_out (it, j) = (if decide (S j = length (it_packages it)) then it_out it else []) ++ left_out (it, S j)).
  { unfold left_out. cbn [fst snd]. destruct (decide (j < length (it_packages it))%nat); [|lia].
    destruct (decide (S j = length (it_packages it))), (decide (S j < length (it_packages it))%nat); try lia; by rewrite ?app_nil_r. }
  assert (Hlt : (i < length its)%nat) by (by eapply lookup_lt_Some).
  rewrite <- (take_drop_middle its i (it, j)) at 1 by done. rewrite insert_take_drop by done. rewrite !map_app, !concat_app. cbn [map concat].
  rewrite El. generalize (if decide (S j = length (it_packages it)) then it_out it else []). intros o. rewrite <- !app_assoc. by rewrite Permutation_app_swap_app.
Qed.

Lemma receive_lemma t : ∀ its m, interleave (map waiting its) t → Forall (λ ij, moves ij.1 ∧ (ij.2 ≤ length (it_packages ij.1))%nat) its →
  (∀ i it j i' it' j', i ≠ i' → its !! i = Some (it, j) → its !! i' = Some (it', j') → apart it it') → progress its m →
  ∃ m' outs, receive m t = Ok (m', outs) ∧ outs ≡ₚ concat (map left_out its) ∧ progress (map (λ ij, (ij.1, length (it_packages ij.1))) its) m'.
Proof.
  induction t as [|p t IH]; intros its m Ht Hm Hap Hp; inversion Ht as [ls Hd|ls i x l t' Hi Ht']; subst.
  - exists m, []. assert (Hall : ∀ ij, ij ∈ its → ij.2 = length (it_packages ij.1)).
    { intros [it j] Hij. pose proof (Forall_elem _ _ _ Hm Hij) as [_ Hle]. cbn in *. assert (Hw : waiting (it, j) = []) by (apply (Forall_elem _ _ _ Hd), list_elem_of_fmap; eauto).
      unfold waiting in Hw. cbn in Hw. apply (f_equal length) in Hw. rewrite length_drop in Hw. cbn in Hw. lia. }
    assert (Emap : map (λ ij : item * nat, (ij.1, length (it_packages ij.1))) its = its).
    { clear - Hall. induction its as [|[it j] its IH]; [done|]. cbn [map]. rewrite IH by (intros ij Hij; apply Hall; by right). f_equal. pose proof (Hall (it, j) ltac:(by left)) as E. cbn in E |- *. by rewrite E. }
    split; [done|]. split; [|by rewrite Emap]. clear - Hall. induction its as [|[it j] its IH]; [done|]. cbn [map concat].
    rewrite <- IH by (intros ij Hij; apply Hall; by right). unfold left_out. rewrite (Hall (it, j)) by (by left). cbn. by rewrite decide_False by lia.
  - rewrite list_lookup_fmap in Hi. destruct (its !! i) as [[it j]|] eqn:Ei; [|done]. cbn in Hi. injection Hi as Hw. unfold waiting in Hw. cbn in Hw.
    assert (Hj : (j < length (it_packages it))%nat).
    { apply not_ge. intros Hge. by rewrite drop_ge in Hw by lia. }
    assert (Hpk : it_packages it !! j = Some p) by (rewrite <- (Nat.add_0_r j), <- lookup_drop, Hw; done).
    assert (El : drop (S j) (it_packages it) = l).
    { replace (S j) with (j + 1)%nat by lia. by rewrite <- drop_drop, Hw. }
    pose proof (Forall_lookup_1 _ _ _ _ Hm Ei) as [[Hend Hmove] _]. cbn [fst snd] in Hend, Hmove. cbn [receive]. rewrite (Hmove m j p Hpk) by (by eapply pr_entry). rewrite bind_ok. cbv beta iota.
    destruct (IH (<[i := (it, S j)]> its) (partial_alter (λ _, it_partial it (S j)) (it_key it) m)) as (m' & outs & -> & Hperm & Hp').
    + change (map waiting (<[i := (it, S j)]> its)) with (waiting <$> <[i := (it, S j)]> its). rewrite list_fmap_insert. unfold waiting at 1. cbn [fst snd]. by rewrite El.
    + apply Forall_insert; [done|]. cbn. split; [done|lia].
    + intros i1 it1 j1 i2 it2 j2 Hne H1 H2. assert (Hsame : ∀ i0 it0 j0, <[i := (it, S j)]> its !! i0 = Some (it0, j0) → ∃ j0', its !! i0 = Some (it0, j0')).
      { intros i0 it0 j0 H0. destruct (decide (i0 = i)) as [->|Hn]; [rewrite list_lookup_insert_eq in H0 by (by eapply lookup_lt_Some); injection H0 as <- <-; eauto|].
        rewrite list_lookup_insert_ne in H0 by done. eauto. }
      destruct (Hsame _ _ _ H1) as (? & ?). destruct (Hsame _ _ _ H2) as (? & ?). by eapply Hap.
    + apply (progress_step _ m i it j); [done|done|]. intros i' it' j' Hne Hi'. by apply (Hap i it j i' it' j'); [congruence|done|].
    + rewrite bind_ok. eexists _, _. split; [done|]. split; [by rewrite (left_out_step its i it j Ei Hj), Hperm|].
      assert (Eq : map (λ ij : item * nat, (ij.1, length (it_packages ij.1))) (<[i := (it, S j)]> its) = map (λ ij, (ij.1, length (it_packages ij.1))) its).
      { change (map ?f ?l) with (f <$> l). rewrite list_fmap_insert. cbn [fst]. rewrite list_insert_id; [done|]. by rewrite list_lookup_fmap, Ei. }
      by rewrite Eq in Hp'.
Qed.

(** From the start: the entries the items begin with. *)
Theorem receive_all its m t : interleave (map it_packages its) t → Forall moves its →
  (∀ i it i' it', i ≠ i' → its !! i = Some it → its !! i' = Some it' → apart it it') →
  (∀ it, it ∈ its → m !! it_key it = it_partial it 0%nat) → (∀ k, (∀ it, it ∈ its → it_key it ≠ k) → m !! k = None) →
  Forall (λ it, it_packages it ≠ []) its →
  ∃ outs, receive m t = Ok (∅, outs) ∧ outs ≡ₚ concat (map it_out its).
Proof.
  intros Ht Hm Hap He Ho Hne. destruct (receive_lemma t (map (λ it, (it, 0%nat)) its) m) as (m' & outs & E & Hperm & [He' Ho']).
  - rewrite map_map. erewrite map_ext; [exact Ht|]. intros it. done.
  - apply Forall_map. eapply Forall_impl; [exact Hm|]. intros it Hit. cbn. split; [done|lia].
  - intros i it j i' it' j' Hn Hi Hi'. rewrite list_lookup_fmap in Hi, Hi'. destruct (its !! i) eqn:Ei, (its !! i') eqn:Ei'; try done.
    cbn in Hi, Hi'. injection Hi as <- <-. injection Hi' as <- <-. by eapply Hap.
  - split.
    + intros i it j Hi. rewrite list_lookup_fmap in Hi. destruct (its !! i) eqn:Ei; [|done]. cbn in Hi. injection Hi as <- <-. apply He. by eapply list_elem_of_lookup_2.
    + intros k Hk. apply Ho. intros it Hit. apply list_elem_of_lookup in Hit as [i Hi]. apply (Hk i it 0%nat). by rewrite list_lookup_fmap, Hi.
  - exists outs. assert (Em : m' = ∅).
    { apply map_eq. intros k. rewrite lookup_empty. destruct (decide (Exists (λ it, it_key it = k) its)) as [Hex|Hno].
      - apply Exists_exists in Hex as (it & Hit & <-). apply list_elem_of_lookup in Hit as [i Hi]. pose proof (Forall_lookup_1 _ _ _ _ Hm Hi) as [Hend _]. rewrite <- Hend.
        apply (He' i). rewrite map_map, list_lookup_fmap, Hi. done.
      - apply Ho'. intros i it j Hi Hk. apply Hno. rewrite map_map, list_lookup_fmap in Hi. destruct (its !! i) eqn:Ei; [|done]. cbn in Hi. injection Hi as <- <-.
        apply Exists_exists. exists i0. split; [by eapply list_elem_of_lookup_2|done]. }
    rewrite <- Em. split; [done|]. rewrite Hperm, map_map. clear - Hne. induction Hne as [|it its Hit _ IH]; [done|]. cbn [map concat]. rewrite IH. unfold left_out at 1. cbn.
    destruct (decide (0 < length (it_packages it))%nat); [done|]. destruct (it_packages it); [done|cbn in *; lia].
Qed.
End receiver.
