(* ===== verification/Cluster.v ===== *)
(** [lualib-src/lua-cluster.c]: the packages two nodes of a cluster exchange, and the part of
    [service/clusterd.lua] and [lualib/skynet/socketchannel.lua] that puts large messages
    together again.

    A package has the framing of [Frames].  A message of 32K or more is sent as a package that
    announces it and parts of 32K.  The buffer a package is written to is 33280 bytes on the
    stack.  A function that frees the message it is given says how often it did. *)

From S2P Require Import Prelude CString Seri Frames Gate Crypt.
Open Scope Z_scope.

Definition TEMP_LENGTH : Z := 0x8200.
Definition MULTI_PART : Z := 0x8000.

Definition stack_buf : buffer := replicate (Z.to_nat TEMP_LENGTH) None.

Definition fill_uint32 (buf : buffer) (i n : Z) : res buffer :=
  wr_at buf i [Z.land n 0xff; Z.land (shr n 8) 0xff; Z.land (shr n 16) 0xff; Z.land (shr n 24) 0xff].

Definition fill_header (buf : buffer) (sz : Z) : res buffer :=
  _ ← assertb (sz <? 0x10000);
  wr_at buf 0 [Z.land (Z.shiftr sz 8) 0xff; Z.land sz 0xff].

(** [lua_pushlstring(L, buf, n)] *)
Definition pushlstring (buf : buffer) (n : Z) : res (list Z) := init_bytes buf n.

(** [memcpy] from the message. *)
Definition copy (buf : buffer) (i : Z) (msg : list Z) (off n : Z) : res buffer :=
  l ← rd_at msg off n; wr_at buf i l.

(** ** Requests *)

(** The address on the Lua stack: a number, a string, something else. *)
Inductive cl_addr : Set :=
| AddrNumber (z : Z)
| AddrString (name : list Z)
| AddrOther.

(** [(sz - 1) / MULTI_PART + 1], of a [uint32_t]. *)
Definition parts_of (sz : Z) : Z := i32 (u32 (sz - 1) / MULTI_PART + 1).

(** The first package and the number of parts. *)
Definition packreq_number (z session : Z) (msg : list Z) (sz : Z) (is_push : bool) : res (list Z * Z) :=
  let addr := u32 z in
  if sz <? MULTI_PART then
    buf ← fill_header stack_buf (sz + 9);
    buf ← wr_at buf 2 [0];
    buf ← fill_uint32 buf 3 addr;
    buf ← fill_uint32 buf 7 (if is_push then 0 else u32 session);
    buf ← copy buf 11 msg 0 sz;
    s ← pushlstring buf (sz + 11);
    Ok (s, 0)
  else
    let part := parts_of sz in
    buf ← fill_header stack_buf 13;
    buf ← wr_at buf 2 [if is_push then 0x41 else 1];
    buf ← fill_uint32 buf 3 addr;
    buf ← fill_uint32 buf 7 (u32 session);
    buf ← fill_uint32 buf 11 sz;
    s ← pushlstring buf 15;
    Ok (s, part).

(** [inl] of the message that [luaL_error] leaves with; the message is freed before. *)
Definition packreq_string (addr : cl_addr) (session : Z) (msg : list Z) (sz : Z) (is_push : bool) : luaR (list Z * Z) :=
  match addr with
  | AddrString name =>
      let namelen := Z.of_nat (length name) in
      if (namelen <? 1) || (namelen >? 255) then text ← or_fault OutOfBounds (c_string (name ++ [0])); luaL_error (str "name is too long " ++ text)
      else if sz <? MULTI_PART then
        buf ← fill_header stack_buf (sz + 6 + namelen);
        buf ← wr_at buf 2 [0x80];
        buf ← wr_at buf 3 [u8 namelen];
        buf ← wr_at buf 4 name;
        buf ← fill_uint32 buf (4 + namelen) (if is_push then 0 else u32 session);
        buf ← copy buf (8 + namelen) msg 0 sz;
        s ← pushlstring buf (sz + 8 + namelen);
        lua_ret (s, 0)
      else
        let part := parts_of sz in
        buf ← fill_header stack_buf (10 + namelen);
        buf ← wr_at buf 2 [if is_push then 0xc1 else 0x81];
        buf ← wr_at buf 3 [u8 namelen];
        buf ← wr_at buf 4 name;
        buf ← fill_uint32 buf (4 + namelen) (u32 session);
        buf ← fill_uint32 buf (8 + namelen) sz;
        s ← pushlstring buf (12 + namelen);
        lua_ret (s, part)
  | _ => luaL_error (str "name is too long (null)")
  end.

(** One part: the buffer, the bytes left, the offset, the table. *)
Definition multi_round (session : Z) (msg : list Z) (_ : Z) (st : buffer * Z * Z * list (list Z)) : res (buffer * Z * Z * list (list Z)) :=
  let '(buf, sz, ptr, table) := st in
  let last := negb (sz >? MULTI_PART) in
  let s := if last then sz else MULTI_PART in
  buf ← wr_at buf 2 [if last then 3 else 2];
  buf ← fill_header buf (s + 5);
  buf ← fill_uint32 buf 3 (u32 session);
  buf ← copy buf 7 msg ptr s;
  str ← pushlstring buf (s + 7);
  Ok (buf, u32 (sz - s), ptr + s, table ++ [str]).

Definition packreq_multi (session : Z) (msg : list Z) (sz : Z) : res (list (list Z)) :=
  '(_, _, _, table) ← for_range (Z.to_nat (parts_of sz)) 0 (multi_round session msg) (stack_buf, sz, 0, []);
  Ok table.

(** The request, the next session and the parts. *)
Record packed : Set := Packed {
  pk_request : list Z;
  pk_session : Z;
  pk_multi : option (list (list Z))
}.

(** The number of [skynet_free(msg)], and the result. *)
Definition packrequest (addr : cl_addr) (session : Z) (msg : option (list Z)) (sz : Z) (is_push : bool) : res (nat * (cstring + packed)) :=
  match msg with
  | None => Ok (0%nat, inl (str "Invalid request message"))
  | Some msg =>
      let sz := u32 sz in
      let session := i32 session in
      if session <=? 0 then Ok (1%nat, inl (str "Invalid request session " ++ print_d session))
      else
        r ← match addr with
            | AddrNumber z => p ← packreq_number z session msg sz is_push; lua_ret p
            | _ => packreq_string addr session msg sz is_push
            end;
        match r with
        | inl e => Ok (1%nat, inl e)
        | inr (request, multipak) =>
            next ← int_chk (session + 1);
            let next := if next <? 0 then 1 else next in
            if negb (multipak =? 0) then
              parts ← packreq_multi session msg sz;
              Ok (1%nat, inr (Packed request next (Some parts)))
            else Ok (1%nat, inr (Packed request next None))
        end
  end.

Definition lpackrequest addr session msg sz := packrequest addr session msg sz false.
Definition lpackpush addr session msg sz := packrequest addr session msg sz true.

(** ** Unpacking requests *)

Definition unpack_uint32 (buf : list Z) (i : Z) : res Z := word_of buf i.

(** The values the function returns. *)
Definition unpackreq_number (buf : list Z) (sz : Z) : luaR (list lval) :=
  if sz <? 9 then luaL_error (str "Invalid cluster message (size=" ++ print_d sz ++ str ")")
  else
    address ← unpack_uint32 buf 1;
    session ← unpack_uint32 buf 5;
    s ← rd_at buf 9 (sz - 9);
    lua_ret ([LInt address; LInt session; LStr s] ++ (if session =? 0 then [LNil; LBool true] else [])).

Definition unpackmreq_number (buf : list Z) (sz : Z) (is_push : bool) : luaR (list lval) :=
  if negb (sz =? 13) then luaL_error (str "Invalid cluster message size " ++ print_d sz ++ str " (multi req must be 13)")
  else
    address ← unpack_uint32 buf 1;
    session ← unpack_uint32 buf 5;
    size ← unpack_uint32 buf 9;
    lua_ret [LInt address; LInt session; LInt size; LBool true; LBool is_push].

Definition unpackmreq_part (buf : list Z) (sz : Z) : luaR (list lval) :=
  if sz <? 5 then luaL_error (str "Invalid cluster multi part message")
  else
    b ← rd buf 0;
    session ← unpack_uint32 buf 1;
    s ← rd_at buf 5 (sz - 5);
    lua_ret [LBool false; LInt session; LStr s; LBool (b =? 2)].

Definition unpackreq_string (buf : list Z) (sz : Z) : luaR (list lval) :=
  let invalid := luaL_error (str "Invalid cluster message (size=" ++ print_d sz ++ str ")") in
  if sz <? 2 then invalid
  else
    namesz ← rd buf 1;
    if sz <? namesz + 6 then invalid
    else
      name ← rd_at buf 2 namesz;
      session ← unpack_uint32 buf (namesz + 2);
      s ← rd_at buf (2 + namesz + 4) (sz - namesz - 6);
      lua_ret ([LStr name; LInt session; LStr s] ++ (if session =? 0 then [LNil; LBool true] else [])).

Definition unpackmreq_string (buf : list Z) (sz : Z) (is_push : bool) : luaR (list lval) :=
  let invalid := luaL_error (str "Invalid cluster message (size=" ++ print_d sz ++ str ")") in
  if sz <? 2 then invalid
  else
    namesz ← rd buf 1;
    if sz <? namesz + 10 then invalid
    else
      name ← rd_at buf 2 namesz;
      session ← unpack_uint32 buf (namesz + 2);
      size ← unpack_uint32 buf (namesz + 6);
      lua_ret [LStr name; LInt session; LInt size; LBool true; LBool is_push].

(** A Lua string ends with a zero that does not count. *)
Definition lunpackrequest (msg : list Z) : luaR (list lval) :=
  let sz := i32 (Z.of_nat (length msg)) in
  t ← rd (msg ++ [0]) 0;
  if t =? 0 then unpackreq_number msg sz
  else if t =? 1 then unpackmreq_number msg sz false
  else if t =? 0x41 then unpackmreq_number msg sz true
  else if (t =? 2) || (t =? 3) then unpackmreq_part msg sz
  else if t =? 0x80 then unpackreq_string msg sz
  else if t =? 0x81 then unpackmreq_string msg sz false
  else if t =? 0xc1 then unpackmreq_string msg sz true
  else luaL_error (str "Invalid req package type " ++ print_d (if t <? 128 then t else t - 256)).

(** ** Responses *)

Definition response_round (session : Z) (msg : list Z) (_ : Z) (st : buffer * Z * Z * list (list Z)) : res (buffer * Z * Z * list (list Z)) :=
  let '(buf, sz, ptr, table) := st in
  let last := negb (sz >? MULTI_PART) in
  let s := if last then i32 sz else MULTI_PART in
  buf ← wr_at buf 6 [if last then 4 else 3];
  buf ← fill_header buf (s + 5);
  buf ← fill_uint32 buf 2 session;
  buf ← copy buf 7 msg ptr s;
  str ← pushlstring buf (s + 7);
  Ok (buf, u64 (sz - s), ptr + s, table ++ [str]).

(** A string, or a table of strings. *)
Definition lpackresponse (session : Z) (ok : bool) (msg : list Z) (sz : Z) : res (list Z + list (list Z)) :=
  let session := u32 session in
  let sz := u64 sz in
  let single sz :=
    (buf ← fill_header stack_buf (sz + 5);
     buf ← fill_uint32 buf 2 session;
     buf ← wr_at buf 6 [if ok then 1 else 0];
     buf ← copy buf 7 msg 0 sz;
     s ← pushlstring buf (sz + 7);
     Ok (inl s)) in
  if negb ok then single (if sz >? MULTI_PART then MULTI_PART else sz)
  else if sz >? MULTI_PART then
    let part := i32 ((sz - 1) / MULTI_PART + 1) in
    buf ← fill_header stack_buf 9;
    buf ← fill_uint32 buf 2 session;
    buf ← wr_at buf 6 [2];
    buf ← fill_uint32 buf 7 (u32 sz);
    begin ← pushlstring buf 11;
    '(_, _, _, table) ← for_range (Z.to_nat part) 0 (response_round session msg) (buf, sz, 0, [begin]);
    Ok (inr table)
  else single sz.

(** [None] where the function returns nothing. *)
Definition lunpackresponse (buf : list Z) : res (option (list lval)) :=
  let sz := Z.of_nat (length buf) in
  if sz <? 5 then Ok None
  else
    session ← unpack_uint32 buf 0;
    t ← rd buf 4;
    if t =? 0 then s ← rd_at buf 5 (sz - 5); Ok (Some [LInt session; LBool false; LStr s])
    else if (t =? 1) || (t =? 4) then s ← rd_at buf 5 (sz - 5); Ok (Some [LInt session; LBool true; LStr s])
    else if t =? 2 then
      if negb (sz =? 9) then Ok None
      else sz ← unpack_uint32 buf 5; Ok (Some [LInt session; LBool true; LInt sz; LBool true])
    else if t =? 3 then s ← rd_at buf 5 (sz - 5); Ok (Some [LInt session; LBool true; LStr s; LBool true])
    else Ok None.

(** ** Putting a message together *)

(** The strings from index 2 on. *)
Fixpoint concat_loop (sz offset : Z) (buff : buffer) (l : list lval) : res (option (Z * buffer)) :=
  match l with
  | LStr str :: l =>
      let s := Z.of_nat (length str) in
      if u64 (s + offset) >? u64 sz then Ok None
      else
        buff ← wr_at buff offset str;
        offset ← int_chk (offset + s);
        concat_loop sz offset buff l
  | _ => Ok (Some (offset, buff))
  end.

(** An allocation of 2^63 bytes and more ends the process. *)
Definition lconcat (t : list lval) : res (option (list Z)) :=
  match t with
  | LInt n :: l =>
      let sz := i32 n in
      _ ← (if sz <? 0 then Fault ProcessExit else Ok tt);
      o ← concat_loop sz 0 (replicate (Z.to_nat sz) None) l;
      match o with
      | None => Ok None
      | Some (offset, buff) => if negb (offset =? sz) then Ok None else Some <$> init_bytes buff sz
      end
  | _ => Ok None
  end.

(** ** The Lua side

    [command.req] and [command.push] of [clusterd.lua] send, [command.socket] receives a
    request, [dispatch_by_session] of [socketchannel.lua] a response. *)

Definition truthy (v : lval) : bool := match v with LNil | LBool false => false | _ => true end.

(** Value [n] of a call, counted from 0. *)
Definition arg (vals : list lval) (n : nat) : lval := nth n vals LNil.

(** A message to a service of another node. *)
Record request : Set := Request {
  rq_addr : cl_addr;
  rq_msg : list Z;
  rq_push : bool
}.

(** The packages and the next session of the node; a push uses up a session only when it has
    parts. *)
Definition send_request (session : Z) (r : request) : luaR (list (list Z) * Z) :=
  '(_, p) ← packrequest (rq_addr r) session (Some (rq_msg r)) (Z.of_nat (length (rq_msg r))) (rq_push r);
  match p with
  | inl e => luaL_error e
  | inr p =>
      lua_ret (pk_request p :: default [] (pk_multi p),
        if rq_push r && negb (match pk_multi p with Some _ => true | None => false end) then session else pk_session p)
  end.

(** [large_request[session]] *)
Record large : Set := Large {
  lr_addr : lval;
  lr_push : lval;
  lr_list : list lval
}.

(** What happens with a request that is complete. *)
Inductive delivery : Set :=
| Deliver (addr session : lval) (msg : list Z) (is_push : lval)
| InvalidLarge (session : Z).

Definition session_of (v : lval) : Z := match v with LInt z => z | _ => 0 end.
Definition bytes_of (v : lval) : list Z := match v with LStr s => s | _ => [] end.

(** [command.socket] for [data], up to the call of the service. *)
Definition socket_data (larges : gmap Z large) (body : list Z) : luaR (gmap Z large * list delivery) :=
  lbind (lunpackrequest body) (λ vals,
    let session := session_of (arg vals 1) in
    let msg := arg vals 2 in
    if truthy (arg vals 3) then
      let req := default (Large (arg vals 0) (arg vals 4) []) (larges !! session) in
      lua_ret (<[session := Large (lr_addr req) (lr_push req) (lr_list req ++ [msg])]> larges, [])
    else
      match larges !! session with
      | Some req =>
          let larges := delete session larges in
          o ← lconcat (lr_list req ++ [msg]);
          match o with
          | None => lua_ret (larges, [InvalidLarge session])
          | Some msg => lua_ret (larges, [Deliver (lr_addr req) (arg vals 1) msg (lr_push req)])
          end
      | None => lua_ret (larges, [Deliver (arg vals 0) (arg vals 1) (bytes_of msg) (arg vals 4)])
      end).

(** What a waiting coroutine gets: the session, whether it went well, a string, or the
    concatenation of a table, [None] where [concat] fails. *)
Record answer : Set := Answer {
  an_session : Z;
  an_ok : bool;
  an_msg : option (list Z)
}.

(** [self.__thread] with [self.__result_data]: the sessions that are waited for, and the table of
    a response in parts.  [None] is a channel that is closed. *)
Definition dispatch_by_session (threads : gmap Z (option (list lval))) (body : list Z) : res (option (gmap Z (option (list lval)) * list answer)) :=
  o ← lunpackresponse body;
  match o with
  | None => Ok None
  | Some vals =>
      let session := session_of (arg vals 0) in
      let result_ok := truthy (arg vals 1) in
      let data := arg vals 2 in
      match threads !! session with
      | None => Ok (Some (threads, []))
      | Some result =>
          if truthy (arg vals 3) && result_ok then Ok (Some (<[session := Some (default [] result ++ [data])]> threads, []))
          else
            let threads := delete session threads in
            match result with
            | Some l =>
                if result_ok then msg ← lconcat (l ++ [data]); Ok (Some (threads, [Answer session true msg]))
                else Ok (Some (threads, [Answer session false (Some (bytes_of data))]))
            | None => Ok (Some (threads, [Answer session result_ok (Some (bytes_of data))]))
            end
      end
  end.

(** The packages of a response, as [command.socket] writes them. *)
Definition send_response (session : Z) (ok : bool) (msg : list Z) : res (list (list Z)) :=
  r ← lpackresponse session ok msg (Z.of_nat (length msg));
  Ok (match r with inl s => [s] | inr l => l end).
