(* ===== verification/ClusterProps.v ===== *)
(** The packages of a cluster: what the packing functions write and the unpacking functions
    read, one lemma for each kind of package. *)

From S2P Require Import Prelude CString Seri Frames Gate GateProps Crypt CryptDes CryptDh CryptText Words Cluster.
Open Scope Z_scope.

#[local] Opaque TEMP_LENGTH MULTI_PART.

Lemma temp_value : TEMP_LENGTH = 33280. Proof. reflexivity. Qed.
Lemma part_value : MULTI_PART = 32768. Proof. reflexivity. Qed.

Ltac sizes := rewrite ?temp_value, ?part_value in *; lia.

(** ** Writing a package front to back *)

Lemma stack_filled : stack_buf = filled [] (Z.to_nat TEMP_LENGTH).
Proof. reflexivity. Qed.

Lemma stack_length : length stack_buf = Z.to_nat TEMP_LENGTH.
Proof. apply length_replicate. Qed.

#[local] Opaque stack_buf.

Lemma wr_filled o m l : (length l ≤ m)%nat → wr_at (filled o m) (Z.of_nat (length o)) l = Ok (filled (o ++ l) (m - length l)).
Proof. intros Hm. unfold filled. by rewrite wr_at_fill. Qed.

(** At a position that is the length of what is written. *)
Lemma wr_next o m i l : i = Z.of_nat (length o) → (length l ≤ m)%nat → wr_at (filled o m) i l = Ok (filled (o ++ l) (m - length l)).
Proof. intros ->. apply wr_filled. Qed.

Definition header (n : Z) : list Z := [Z.land (Z.shiftr n 8) 0xff; Z.land n 0xff].

Lemma wire_header body : wire body = header (Z.of_nat (length body)) ++ body.
Proof. unfold wire, header. by rewrite Z.shiftr_land. Qed.

Lemma fill_header_lemma m n : n < 0x10000 → (2 ≤ m)%nat → fill_header (filled [] m) n = Ok (filled (header n) (m - 2)).
Proof. intros Hn Hm. unfold fill_header. destruct (Z.ltb_spec n 65536); [|lia]. unfold assertb. rewrite bind_ok. by apply (wr_filled [] m (header n)). Qed.

Lemma copy_next o m i msg off n : i = Z.of_nat (length o) → 0 ≤ off → 0 ≤ n → off + n ≤ Z.of_nat (length msg) → (Z.to_nat n ≤ m)%nat →
  copy (filled o m) i msg off n = Ok (filled (o ++ take (Z.to_nat n) (drop (Z.to_nat off) msg)) (m - Z.to_nat n)).
Proof.
  intros Hi Hoff Hn Hlen Hm. unfold copy. rewrite rd_at_ok, bind_ok by done. assert (El : length (take (Z.to_nat n) (drop (Z.to_nat off) msg)) = Z.to_nat n).
  { rewrite length_take, length_drop. lia. }
  rewrite wr_next by (done || lia). by rewrite El.
Qed.

Lemma copy_whole o m i msg : i = Z.of_nat (length o) → (length msg ≤ m)%nat →
  copy (filled o m) i msg 0 (Z.of_nat (length msg)) = Ok (filled (o ++ msg) (m - length msg)).
Proof. intros Hi Hm. rewrite copy_next by lia. rewrite Nat2Z.id. change (drop (Z.to_nat 0) msg) with msg. by rewrite take_ge. Qed.

Lemma push_filled o m n : n = Z.of_nat (length o) → pushlstring (filled o m) n = Ok o.
Proof. intros ->. apply init_bytes_lemma. Qed.

(** ** The kinds of packages *)

Definition body_number (type addr session : Z) (tail : list Z) : list Z := type :: word_bytes addr ++ word_bytes session ++ tail.
Definition body_string (type : Z) (name : list Z) (session : Z) (tail : list Z) : list Z := type :: Z.of_nat (length name) :: name ++ word_bytes session ++ tail.
Definition body_part (type session : Z) (chunk : list Z) : list Z := type :: word_bytes session ++ chunk.

(** One more field of a package. *)
Ltac next_field := first
  [ rewrite fill_header_lemma by (cbn [length]; sizes)
  | rewrite wr_next by (cbn [length app header]; rewrite ?length_app, ?word_bytes_length; cbn [length header]; rewrite ?length_app, ?word_bytes_length; cbn [length]; sizes)
  | rewrite copy_whole by (cbn [length app header]; rewrite ?length_app, ?word_bytes_length; cbn [length header]; rewrite ?length_app, ?word_bytes_length; cbn [length]; sizes)
  | rewrite push_filled by (cbn [length app header]; rewrite ?length_app, ?word_bytes_length; cbn [length header]; rewrite ?length_app, ?word_bytes_length; cbn [length]; sizes) ];
  rewrite ?bind_ok.

Ltac fields := unfold fill_uint32; fold (word_bytes);
  repeat match goal with |- context [[Z.land ?n 0xff; Z.land (shr ?n 8) 0xff; Z.land (shr ?n 16) 0xff; Z.land (shr ?n 24) 0xff]] =>
    change [Z.land n 0xff; Z.land (shr n 8) 0xff; Z.land (shr n 16) 0xff; Z.land (shr n 24) 0xff] with (word_bytes n) end;
  rewrite stack_filled; repeat next_field.

(** The package is the body with its length. *)
Lemma header_wire n body : n = Z.of_nat (length body) → header n ++ body = wire body.
Proof. intros ->. by rewrite wire_header. Qed.

Ltac same_wire := rewrite <- ?app_assoc; cbn [app]; rewrite header_wire by (cbn [length]; rewrite ?length_app, ?word_bytes_length; cbn [length]; rewrite ?length_app, ?word_bytes_length; cbn [length]; lia).

Section packing.
Context (session : Z) (msg : list Z) (is_push : bool).


Lemma packreq_number_small z : (Z.of_nat (length msg)) < MULTI_PART →
  packreq_number z session msg (Z.of_nat (length msg)) is_push = Ok (wire (body_number 0 (u32 z) (if is_push then 0 else u32 session) msg), 0).
Proof. intros Hn. unfold packreq_number. destruct (Z.ltb_spec (Z.of_nat (length msg)) MULTI_PART); [|lia]. fields. by same_wire. Qed.

Lemma packreq_number_large z : MULTI_PART ≤ (Z.of_nat (length msg)) →
  packreq_number z session msg (Z.of_nat (length msg)) is_push = Ok (wire (body_number (if is_push then 0x41 else 1) (u32 z) (u32 session) (word_bytes (Z.of_nat (length msg)))), parts_of (Z.of_nat (length msg))).
Proof. intros Hn. unfold packreq_number. destruct (Z.ltb_spec (Z.of_nat (length msg)) MULTI_PART); [lia|]. fields. by same_wire. Qed.

Lemma name_ok (name : list Z) : (1 ≤ length name ≤ 255)%nat → (Z.of_nat (length name) <? 1) || (Z.of_nat (length name) >? 255) = false.
Proof. intros Hn. apply orb_false_iff. split; [apply Z.ltb_ge; lia|rewrite Z.gtb_ltb; apply Z.ltb_ge; lia]. Qed.

Lemma packreq_string_small name : (1 ≤ length name ≤ 255)%nat → (Z.of_nat (length msg)) < MULTI_PART →
  packreq_string (AddrString name) session msg (Z.of_nat (length msg)) is_push = lua_ret (wire (body_string 0x80 name (if is_push then 0 else u32 session) msg), 0).
Proof.
  intros Hname Hn. unfold packreq_string. cbv zeta. rewrite (name_ok name Hname). destruct (Z.ltb_spec (Z.of_nat (length msg)) MULTI_PART); [|lia].
  unfold u8. rewrite Z.mod_small by lia. fields. by same_wire.
Qed.

Lemma packreq_string_large name : (1 ≤ length name ≤ 255)%nat → MULTI_PART ≤ (Z.of_nat (length msg)) →
  packreq_string (AddrString name) session msg (Z.of_nat (length msg)) is_push =
    lua_ret (wire (body_string (if is_push then 0xc1 else 0x81) name (u32 session) (word_bytes (Z.of_nat (length msg)))), parts_of (Z.of_nat (length msg))).
Proof.
  intros Hname Hn. unfold packreq_string. cbv zeta. rewrite (name_ok name Hname). destruct (Z.ltb_spec (Z.of_nat (length msg)) MULTI_PART); [lia|].
  unfold u8. rewrite Z.mod_small by lia. fields. by same_wire.
Qed.
End packing.

(** ** Parts *)

Fixpoint split_parts (n : nat) (l : list Z) : list (list Z) :=
  match n with O => [] | S n => take (Z.to_nat MULTI_PART) l :: split_parts n (drop (Z.to_nat MULTI_PART) l) end.

(** All parts but the last have the type [mid]. *)
Fixpoint typed {A} (mid fin : Z) (chunks : list A) : list (Z * A) :=
  match chunks with
  | [] => []
  | c :: cs => (match cs with [] => fin | _ => mid end, c) :: typed mid fin cs
  end.

Definition part_count (l : list Z) : nat := Z.to_nat ((Z.of_nat (length l) - 1) / MULTI_PART + 1).

Lemma part_count_more l : MULTI_PART < Z.of_nat (length l) → part_count l = S (part_count (drop (Z.to_nat MULTI_PART) l)) ∧ part_count (drop (Z.to_nat MULTI_PART) l) ≠ 0%nat.
Proof.
  intros Hl. unfold part_count. rewrite length_drop, Nat2Z.inj_sub, Z2Nat.id by sizes.
  replace (Z.of_nat (length l) - 1) with (Z.of_nat (length l) - MULTI_PART - 1 + 1 * MULTI_PART) by lia. rewrite Z.div_add by sizes.
  pose proof (Z.div_pos (Z.of_nat (length l) - MULTI_PART - 1) MULTI_PART ltac:(lia) ltac:(sizes)). lia.
Qed.

Lemma part_count_one l : 0 < Z.of_nat (length l) ≤ MULTI_PART → part_count l = 1%nat.
Proof. intros Hl. unfold part_count. rewrite Z.div_small by lia. done. Qed.

Lemma parts_of_count l : 0 < Z.of_nat (length l) < 2 ^ 32 → Z.to_nat (parts_of (Z.of_nat (length l))) = part_count l.
Proof.
  intros Hl. unfold parts_of, part_count. rewrite u32_small by lia. rewrite i32_small; [done|].
  pose proof (Z.div_pos (Z.of_nat (length l) - 1) MULTI_PART ltac:(lia) ltac:(sizes)). assert ((Z.of_nat (length l) - 1) / MULTI_PART < 2 ^ 17) by (apply Z.div_lt_upper_bound; sizes). lia.
Qed.

(** Induction over the parts of a message that is not empty. *)
Lemma parts_ind (P : list Z → Prop) :
  (∀ l, 0 < Z.of_nat (length l) ≤ MULTI_PART → P l) →
  (∀ l, MULTI_PART < Z.of_nat (length l) → P (drop (Z.to_nat MULTI_PART) l) → P l) → ∀ l, l ≠ [] → P l.
Proof.
  intros H1 H2 l. remember (length l) as n eqn:E. revert l E. induction n as [n IH] using lt_wf_ind. intros l -> Hne.
  assert (Hpos : (0 < length l)%nat) by (destruct l; [done|cbn; lia]). destruct (Z_le_gt_dec (Z.of_nat (length l)) MULTI_PART); [apply H1; lia|].
  apply H2; [lia|]. apply (IH (length (drop (Z.to_nat MULTI_PART) l))); [rewrite length_drop; sizes|done|].
  intros E. apply (f_equal length) in E. rewrite length_drop in E. cbn in E. sizes.
Qed.

Lemma split_concat l : l ≠ [] → concat (split_parts (part_count l) l) = l.
Proof.
  revert l. apply parts_ind.
  - intros l Hl. rewrite part_count_one by done. cbn [split_parts concat]. rewrite app_nil_r, take_ge by lia. done.
  - intros l Hl IH. destruct (part_count_more l Hl) as [-> _]. cbn [split_parts concat]. by rewrite IH, take_drop.
Qed.

Lemma split_sizes n : ∀ l, Forall (λ c, Z.of_nat (length c) ≤ MULTI_PART) (split_parts n l).
Proof. induction n as [|n IH]; intros l; [constructor|]. cbn [split_parts]. constructor; [|apply IH]. rewrite length_take. sizes. Qed.

(** The seven bytes before a part, on a buffer with old contents. *)
Lemma part_head n ty s (b : buffer) {B} (k : buffer → res B) : n < 0x10000 → (7 ≤ length b)%nat →
  (buf ← wr_at b 2 [ty]; buf ← fill_header buf n; buf ← fill_uint32 buf 3 s; k buf) = k (map Some (header n ++ ty :: word_bytes s) ++ drop 7 b) ∧
  (buf ← wr_at b 6 [ty]; buf ← fill_header buf n; buf ← fill_uint32 buf 2 s; k buf) = k (map Some (header n ++ word_bytes s ++ [ty]) ++ drop 7 b).
Proof.
  intros Hn Hb. do 7 (destruct b as [|? b]; [cbn in Hb; lia|]). unfold fill_header, fill_uint32. destruct (Z.ltb_spec n 65536); [|lia].
  split; cbn [assertb wr_at]; repeat (rewrite wr_ok by (rewrite ?length_insert; cbn [length]; lia); rewrite !bind_ok); reflexivity.
Qed.

Lemma copy_over (o : list Z) (b : buffer) i msg off n : i = Z.of_nat (length o) → 0 ≤ off → 0 ≤ n → off + n ≤ Z.of_nat (length msg) → (Z.to_nat n ≤ length b)%nat →
  let l := take (Z.to_nat n) (drop (Z.to_nat off) msg) in
  copy (map Some o ++ b) i msg off n = Ok (map Some (o ++ l) ++ drop (length l) b) ∧ Z.of_nat (length l) = n.
Proof.
  intros -> Hoff Hn Hlen Hb l. assert (El : length l = Z.to_nat n) by (unfold l; rewrite length_take, length_drop; lia). split; [|lia].
  unfold copy. rewrite rd_at_ok, bind_ok by done. fold l. apply wr_at_over. lia.
Qed.

(** The bytes of a part after the seven before it. *)
Lemma part_tail (h : list Z) (buf : buffer) msg (ptr : nat) s {B} (k : buffer → list Z → res B) :
  length h = 7%nat → length buf = Z.to_nat TEMP_LENGTH → 0 < s ≤ 32768 → Z.of_nat ptr + s ≤ Z.of_nat (length msg) →
  ∃ buf', length buf' = Z.to_nat TEMP_LENGTH ∧
    (buf ← copy (map Some h ++ drop 7 buf) 7 msg (Z.of_nat ptr) s; str ← pushlstring buf (s + 7); k buf str) = k buf' (h ++ take (Z.to_nat s) (drop ptr msg)).
Proof.
  intros Hh Hbuf Hs Hptr. assert (Hb7 : Z.of_nat (length buf) = 33280) by sizes.
  destruct (copy_over h (drop 7 buf) 7 msg (Z.of_nat ptr) s) as [-> Hl]; [lia|lia|lia|lia|rewrite length_drop; lia|]. rewrite bind_ok. rewrite Nat2Z.id in Hl |- *.
  set (c := take (Z.to_nat s) (drop ptr msg)) in *. assert (Hp : ∀ o b, pushlstring (map Some o ++ b) (Z.of_nat (length o)) = Ok o) by (intros; apply init_bytes_lemma).
  replace (s + 7) with (Z.of_nat (length (h ++ c))) by (rewrite length_app; lia). rewrite Hp, bind_ok. eexists. split; [|done].
  rewrite length_app, length_map, length_app, !length_drop. sizes.
Qed.

Definition response_body (session type : Z) (tail : list Z) : list Z := word_bytes session ++ type :: tail.

(** The size of the next part of what is left. *)
Lemma part_size (rest : list Z) : rest ≠ [] → let s := if negb (Z.of_nat (length rest) >? MULTI_PART) then Z.of_nat (length rest) else MULTI_PART in
  0 < s ≤ 32768 ∧ s ≤ Z.of_nat (length rest) ∧ take (Z.to_nat s) rest = take (Z.to_nat MULTI_PART) rest ∧
  Z.of_nat (length rest) - s = Z.of_nat (length (drop (Z.to_nat MULTI_PART) rest)) ∧ Z.of_nat (length (take (Z.to_nat MULTI_PART) rest)) = s.
Proof.
  intros Hne s. assert (Hpos : (0 < length rest)%nat) by (destruct rest; [done|cbn; lia]). rewrite length_drop, length_take. unfold s.
  destruct (Z.gtb_spec (Z.of_nat (length rest)) MULTI_PART); cbn [negb].
  - split; [sizes|]. split; [lia|]. split; [done|]. sizes.
  - split; [sizes|]. split; [lia|]. split; [rewrite !take_ge by lia; done|]. sizes.
Qed.

Section rounds.
Context (session : Z) (msg : list Z) (i : Z) (buf : buffer) (ptr : nat) (table : list (list Z)).
Context (Hbuf : length buf = Z.to_nat TEMP_LENGTH) (Hne : drop ptr msg ≠ []).

Lemma rest_length : (ptr < length msg)%nat ∧ length (drop ptr msg) = (length msg - ptr)%nat.
Proof using Hne. clear Hbuf. rewrite length_drop. split; [|done]. apply not_ge. intros Hge. by rewrite drop_ge in Hne by lia. Qed.

(** One round: [ptr] bytes are sent. *)
Lemma multi_round_lemma : Z.of_nat (length msg) < 2 ^ 32 →
  let rest := drop ptr msg in let c := take (Z.to_nat MULTI_PART) rest in
  ∃ buf', length buf' = Z.to_nat TEMP_LENGTH ∧
    multi_round session msg i (buf, Z.of_nat (length rest), Z.of_nat ptr, table) =
      Ok (buf', Z.of_nat (length (drop (Z.to_nat MULTI_PART) rest)), Z.of_nat (ptr + length c),
        table ++ [wire (body_part (if Z.of_nat (length rest) >? MULTI_PART then 2 else 3) (u32 session) c)]).
Proof using Hbuf Hne.
  intros Hmsg rest c. destruct rest_length as [Hptr Hl]. destruct (part_size rest Hne) as (Hs & Hsl & Ec & Ed & El). fold rest in Hl. fold c in Ec, El.
  unfold multi_round. cbv zeta. set (s := if negb _ then Z.of_nat (length rest) else MULTI_PART) in *. set (last := negb (Z.of_nat (length rest) >? MULTI_PART)) in *.
  rewrite (proj1 (part_head (s + 5) _ _ buf _ ltac:(lia) ltac:(sizes))).
  destruct (part_tail (header (s + 5) ++ (if last then 3 else 2) :: word_bytes (u32 session)) buf msg ptr s
    (λ buf str, Ok (buf, u32 (Z.of_nat (length rest) - s), Z.of_nat ptr + s, table ++ [str]))) as (buf' & Hb' & ->); [done|done|done|lia|].
  exists buf'. split; [done|]. fold rest. rewrite (u32_small (Z.of_nat (length rest) - s)), Ec, Ed by lia. rewrite <- El, <- Nat2Z.inj_add, <- app_assoc, header_wire by (rewrite ?length_app; cbn [length word_bytes]; rewrite ?length_app; cbn [length]; lia).
  unfold body_part, last. by destruct (Z.of_nat (length rest) >? MULTI_PART).
Qed.

Lemma response_round_lemma : Z.of_nat (length msg) < 2 ^ 63 →
  let rest := drop ptr msg in let c := take (Z.to_nat MULTI_PART) rest in
  ∃ buf', length buf' = Z.to_nat TEMP_LENGTH ∧
    response_round session msg i (buf, Z.of_nat (length rest), Z.of_nat ptr, table) =
      Ok (buf', Z.of_nat (length (drop (Z.to_nat MULTI_PART) rest)), Z.of_nat (ptr + length c),
        table ++ [wire (response_body session (if Z.of_nat (length rest) >? MULTI_PART then 3 else 4) c)]).
Proof using Hbuf Hne.
  intros Hmsg rest c. destruct rest_length as [Hptr Hl]. destruct (part_size rest Hne) as (Hs & Hsl & Ec & Ed & El). fold rest in Hl. fold c in Ec, El.
  unfold response_round. cbv zeta. set (last := negb (Z.of_nat (length rest) >? MULTI_PART)) in *.
  assert (Ei : (if last then i32 (Z.of_nat (length rest)) else MULTI_PART) = if last then Z.of_nat (length rest) else MULTI_PART).
  { destruct last; [apply i32_small; lia|done]. }
  rewrite Ei. set (s := if last then Z.of_nat (length rest) else MULTI_PART) in *.
  rewrite (proj2 (part_head (s + 5) _ _ buf _ ltac:(lia) ltac:(sizes))).
  destruct (part_tail (header (s + 5) ++ word_bytes session ++ [if last then 4 else 3]) buf msg ptr s
    (λ buf str, Ok (buf, u64 (Z.of_nat (length rest) - s), Z.of_nat ptr + s, table ++ [str]))) as (buf' & Hb' & ->); [done|done|done|lia|].
  exists buf'. split; [done|]. fold rest. assert (Eu : u64 (Z.of_nat (length rest) - s) = Z.of_nat (length rest) - s) by (unfold u64; apply Z.mod_small; lia).
  rewrite Eu, Ec, Ed, <- El, <- Nat2Z.inj_add, <- !app_assoc. cbn [app]. rewrite header_wire by (rewrite ?length_app; cbn [length word_bytes]; rewrite ?length_app; cbn [length]; lia).
  unfold response_body, last. by destruct (Z.of_nat (length rest) >? MULTI_PART).
Qed.
End rounds.

Lemma typed_cons {A} mid fin (c : A) cs : cs ≠ [] → typed mid fin (c :: cs) = (mid, c) :: typed mid fin cs.
Proof. by destruct cs. Qed.

Lemma split_parts_nonempty n l : n ≠ 0%nat → split_parts n l ≠ [].
Proof. by destruct n. Qed.

(** All the parts, for requests and for responses. *)
Lemma parts_loop (round : Z → buffer * Z * Z * list (list Z) → res (buffer * Z * Z * list (list Z))) (body : Z → list Z → list Z) mid fin msg :
  (∀ i (buf : buffer) ptr table, length buf = Z.to_nat TEMP_LENGTH → drop ptr msg ≠ [] → let rest := drop ptr msg in let c := take (Z.to_nat MULTI_PART) rest in
    ∃ buf', length buf' = Z.to_nat TEMP_LENGTH ∧
      round i (buf, Z.of_nat (length rest), Z.of_nat ptr, table) =
        Ok (buf', Z.of_nat (length (drop (Z.to_nat MULTI_PART) rest)), Z.of_nat (ptr + length c), table ++ [wire (body (if Z.of_nat (length rest) >? MULTI_PART then mid else fin) c)])) →
  ∀ l, l ≠ [] → ∀ i (buf : buffer) ptr table, length buf = Z.to_nat TEMP_LENGTH → drop ptr msg = l →
    ∃ buf' sz ptr', for_range (part_count l) i round (buf, Z.of_nat (length l), Z.of_nat ptr, table) =
      Ok (buf', sz, ptr', table ++ map (λ p, wire (body p.1 p.2)) (typed mid fin (split_parts (part_count l) l))).
Proof.
  intros Hround. refine (parts_ind _ _ _).
  - intros l Hl i buf ptr table Hbuf El. rewrite part_count_one by done. cbn [for_range split_parts typed map fst snd].
    destruct (Hround i buf ptr table Hbuf) as (buf' & Hb' & E); [rewrite El; destruct l; [cbn in Hl; lia|done]|]. rewrite El in E. cbv zeta in E. rewrite E, bind_ok.
    destruct (Z.gtb_spec (Z.of_nat (length l)) MULTI_PART); [lia|]. by eexists _, _, _.
  - intros l Hl IH i buf ptr table Hbuf El. destruct (part_count_more l Hl) as [-> Hn]. cbn [for_range split_parts].
    destruct (Hround i buf ptr table Hbuf) as (buf' & Hb' & E); [rewrite El; destruct l; [cbn in Hl; sizes|done]|]. rewrite El in E. cbv zeta in E. rewrite E, bind_ok.
    destruct (Z.gtb_spec (Z.of_nat (length l)) MULTI_PART) as [_|]; [|lia]. set (c := take (Z.to_nat MULTI_PART) l) in *.
    destruct (IH (i + 1) buf' (ptr + length c)%nat (table ++ [wire (body mid c)]) Hb') as (b2 & z2 & p2 & E2).
    { rewrite <- drop_drop, El. unfold c. rewrite length_take, Nat.min_l by sizes. done. }
    exists b2, z2, p2. rewrite typed_cons by (by apply split_parts_nonempty). cbn [map fst snd]. rewrite <- app_assoc in E2. exact E2.
Qed.

Lemma packreq_multi_lemma session msg : MULTI_PART ≤ Z.of_nat (length msg) < 2 ^ 32 →
  packreq_multi session msg (Z.of_nat (length msg)) =
    Ok (map (λ p, wire (body_part p.1 (u32 session) p.2)) (typed 2 3 (split_parts (part_count msg) msg))).
Proof.
  intros Hm. assert (Hne : msg ≠ []) by (intros ->; cbn in Hm; sizes). unfold packreq_multi. rewrite parts_of_count by sizes.
  destruct (parts_loop (multi_round session msg) (λ ty c, body_part ty (u32 session) c) 2 3 msg
    ltac:(intros i buf ptr table Hb Hd; by apply multi_round_lemma; [| |lia]) msg Hne 0 stack_buf 0%nat [] stack_length eq_refl) as (b & z & p & E).
  change (Z.of_nat 0) with 0 in E. rewrite E, bind_ok. done.
Qed.

(** ** What the sender sends *)

(** The address and the session as the receiver sees them. *)
Definition wire_body (type_number type_string : Z) (addr : cl_addr) (session : Z) (tail : list Z) : list Z :=
  match addr with
  | AddrNumber z => body_number type_number (u32 z) session tail
  | AddrString name => body_string type_string name session tail
  | AddrOther => []
  end.

Definition addr_ok (addr : cl_addr) : Prop :=
  match addr with AddrNumber _ => True | AddrString name => Forall byte name ∧ (1 ≤ length name ≤ 255)%nat | AddrOther => False end.

Definition is_large (r : request) : bool := MULTI_PART <=? Z.of_nat (length (rq_msg r)).

Definition request_bodies (session : Z) (r : request) : list (list Z) :=
  let msg := rq_msg r in
  if is_large r then
    wire_body (if rq_push r then 0x41 else 1) (if rq_push r then 0xc1 else 0x81) (rq_addr r) session (word_bytes (Z.of_nat (length msg))) ::
    map (λ p, body_part p.1 session p.2) (typed 2 3 (split_parts (part_count msg) msg))
  else [wire_body 0 0x80 (rq_addr r) (if rq_push r then 0 else session) msg].

Definition next_session (session : Z) (r : request) : Z := if rq_push r && negb (is_large r) then session else session + 1.

Definition request_ok (r : request) : Prop := addr_ok (rq_addr r) ∧ Forall byte (rq_msg r) ∧ Z.of_nat (length (rq_msg r)) < 2 ^ 31.

Lemma part_count_pos (l : list Z) : l ≠ [] → Z.of_nat (length l) < 2 ^ 32 → parts_of (Z.of_nat (length l)) ≠ 0.
Proof.
  intros Hne Hl E. assert (0 < length l)%nat by (destruct l; [done|cbn; lia]). pose proof (parts_of_count l ltac:(lia)) as Ep. rewrite E in Ep.
  unfold part_count in Ep. pose proof (Z.div_pos (Z.of_nat (length l) - 1) MULTI_PART ltac:(lia) ltac:(sizes)). lia.
Qed.

Lemma send_request_lemma session r : request_ok r → 1 ≤ session < INT_MAX →
  send_request session r = lua_ret (map wire (request_bodies session r), next_session session r).
Proof.
  intros (Ha & Hb & Hl) Hs. unfold INT_MAX in Hs. unfold send_request, packrequest, request_bodies, next_session, is_large. rewrite i32_small by lia.
  rewrite (u32_small (Z.of_nat (length (rq_msg r)))) by lia. cbv zeta. destruct (Z.leb_spec session 0); [lia|].
  destruct (Z.leb_spec MULTI_PART (Z.of_nat (length (rq_msg r)))) as [Hlarge|Hsmall].
  - assert (Hne : rq_msg r ≠ []) by (intros E; rewrite E in Hlarge; cbn in Hlarge; sizes). pose proof (part_count_pos _ Hne ltac:(lia)) as Hp.
    assert (E : (match rq_addr r with AddrNumber z => p ← packreq_number z session (rq_msg r) (Z.of_nat (length (rq_msg r))) (rq_push r); lua_ret p
      | _ => packreq_string (rq_addr r) session (rq_msg r) (Z.of_nat (length (rq_msg r))) (rq_push r) end) =
      lua_ret (wire (wire_body (if rq_push r then 0x41 else 1) (if rq_push r then 0xc1 else 0x81) (rq_addr r) session (word_bytes (Z.of_nat (length (rq_msg r))))), parts_of (Z.of_nat (length (rq_msg r))))).
    { destruct (rq_addr r) as [z|name|]; [| |done].
      - rewrite packreq_number_large, bind_ok by done. by rewrite (u32_small session) by lia.
      - cbn in Ha. rewrite packreq_string_large by (done || tauto). by rewrite (u32_small session) by lia. }
    rewrite E. unfold lua_ret. rewrite bind_ok, int_chk_ok, bind_ok by (unfold INT_MIN, INT_MAX; lia). destruct (Z.ltb_spec (session + 1) 0); [lia|].
    destruct (Z.eqb_spec (parts_of (Z.of_nat (length (rq_msg r)))) 0); [done|]. cbn [negb]. rewrite packreq_multi_lemma, !bind_ok by lia. cbn [pk_multi pk_request pk_session default].
    rewrite (u32_small session) by lia. cbn [map]. rewrite map_map. by destruct (rq_push r).
  - assert (E : (match rq_addr r with AddrNumber z => p ← packreq_number z session (rq_msg r) (Z.of_nat (length (rq_msg r))) (rq_push r); lua_ret p
      | _ => packreq_string (rq_addr r) session (rq_msg r) (Z.of_nat (length (rq_msg r))) (rq_push r) end) =
      lua_ret (wire (wire_body 0 0x80 (rq_addr r) (if rq_push r then 0 else session) (rq_msg r)), 0)).
    { destruct (rq_addr r) as [z|name|]; [| |done].
      - rewrite packreq_number_small, bind_ok by done. by rewrite (u32_small session) by lia.
      - cbn in Ha. rewrite packreq_string_small by (done || tauto). by rewrite (u32_small session) by lia. }
    rewrite E. unfold lua_ret. rewrite bind_ok, int_chk_ok, bind_ok by (unfold INT_MIN, INT_MAX; lia). destruct (Z.ltb_spec (session + 1) 0); [lia|].
    cbn [negb Z.eqb]. rewrite !bind_ok. cbn [pk_multi pk_request pk_session default]. by destruct (rq_push r).
Qed.
