(* ===== verification/ClusterDelivers.v ===== *)
(** Messages between the nodes of a cluster arrive whole: requests of any size, in packages that
    are interleaved on the wire, and their responses. *)

From S2P Require Import Prelude CString Seri Frames Gate GateProps Crypt CryptDes CryptDh CryptText Words Interleave Cluster ClusterProps.
Open Scope Z_scope.

#[local] Opaque TEMP_LENGTH MULTI_PART.

(** ** Unpacking requests *)

Definition addr_val (a : cl_addr) : lval := match a with AddrNumber z => LInt (u32 z) | AddrString s => LStr s | AddrOther => LNil end.

Lemma first_byte t l : rd ((t :: l) ++ [0]) 0 = Ok t.
Proof. by apply (rd_app_0 []). Qed.

Lemma unpack_number t a s tail : 0 ≤ s < 2 ^ 32 → unpackreq_number (body_number t (u32 a) s tail) (Z.of_nat (length (body_number t (u32 a) s tail))) =
  lua_ret ([LInt (u32 a); LInt s; LStr tail] ++ if s =? 0 then [LNil; LBool true] else []).
Proof.
  intros Hs. set (b := body_number t (u32 a) s tail). assert (Hl : Z.of_nat (length b) = 9 + Z.of_nat (length tail)) by (unfold b, body_number; cbn [length]; rewrite !length_app, !word_bytes_length; lia).
  unfold unpackreq_number. destruct (Z.ltb_spec (Z.of_nat (length b)) 9); [lia|].
  rewrite (word_at [t] (u32 a) (word_bytes s ++ tail) 1 eq_refl (u32_range a) : unpack_uint32 b 1 = _), bind_ok.
  pose proof (word_at (t :: word_bytes (u32 a)) s tail 5 eq_refl Hs : unpack_uint32 b 5 = _) as E5. rewrite E5, bind_ok.
  assert (E9 : rd_at b 9 (Z.of_nat (length b) - 9) = Ok tail).
  { pose proof (rest_at (t :: word_bytes (u32 a) ++ word_bytes s) tail 9 (Z.of_nat (length b) - 9) eq_refl ltac:(lia)) as E. rewrite <- E. f_equal. }
  by rewrite E9.
Qed.

Lemma unpack_mnumber t a s n push : 0 ≤ s < 2 ^ 32 → 0 ≤ n < 2 ^ 32 →
  unpackmreq_number (body_number t (u32 a) s (word_bytes n)) 13 push = lua_ret [LInt (u32 a); LInt s; LInt n; LBool true; LBool push].
Proof.
  intros Hs Hn. set (b := body_number t (u32 a) s (word_bytes n)). unfold unpackmreq_number. cbn [Z.eqb Pos.eqb negb].
  rewrite (word_at [t] (u32 a) (word_bytes s ++ word_bytes n) 1 eq_refl (u32_range a) : unpack_uint32 b 1 = _), bind_ok.
  rewrite (word_at (t :: word_bytes (u32 a)) s (word_bytes n) 5 eq_refl Hs : unpack_uint32 b 5 = _), bind_ok.
  pose proof (word_at (t :: word_bytes (u32 a) ++ word_bytes s) n [] 9 eq_refl Hn) as E9. rewrite app_nil_r in E9. cbn [app] in E9. rewrite <- app_assoc in E9. fold b in E9.
  change (unpack_uint32 b 9 = Ok n) in E9. by rewrite E9.
Qed.

Lemma unpack_part t s c : 0 ≤ s < 2 ^ 32 → unpackmreq_part (body_part t s c) (Z.of_nat (length (body_part t s c))) =
  lua_ret [LBool false; LInt s; LStr c; LBool (t =? 2)].
Proof.
  intros Hs. set (b := body_part t s c). assert (Hl : Z.of_nat (length b) = 5 + Z.of_nat (length c)) by (unfold b, body_part; cbn [length]; rewrite length_app, word_bytes_length; lia).
  unfold unpackmreq_part. destruct (Z.ltb_spec (Z.of_nat (length b)) 5); [lia|]. rewrite (rd_app_0 [] _ t : rd b 0 = Ok t), bind_ok.
  rewrite (word_at [t] s c 1 eq_refl Hs : unpack_uint32 b 1 = _), bind_ok.
  by rewrite (rest_at (t :: word_bytes s) c 5 (Z.of_nat (length b) - 5) eq_refl ltac:(lia) : rd_at b 5 _ = _).
Qed.

Lemma field_at pre l rest i n : i = Z.of_nat (length pre) → n = Z.of_nat (length l) → rd_at (pre ++ l ++ rest) i n = Ok l.
Proof. intros -> ->. rewrite rd_at_ok by (rewrite ?length_app; lia). by rewrite !Nat2Z.id, drop_app_length, take_app_length. Qed.

Section named.
Context (t : Z) (name : list Z) (s : Z) (tail : list Z) (Hs : 0 ≤ s < 2 ^ 32).
Let b := body_string t name s tail.

Lemma named_length : Z.of_nat (length b) = 6 + Z.of_nat (length name) + Z.of_nat (length tail).
Proof using. unfold b, body_string. cbn [length]. rewrite !length_app, word_bytes_length. lia. Qed.

(** The length of the name, the name, the session. *)
Lemma named_fields : rd b 1 = Ok (Z.of_nat (length name)) ∧ rd_at b 2 (Z.of_nat (length name)) = Ok name ∧
  unpack_uint32 b (Z.of_nat (length name) + 2) = Ok s.
Proof using Hs.
  split; [by apply (rd_app_1 [])|]. split.
  - by apply (field_at [t; Z.of_nat (length name)] name (word_bytes s ++ tail)).
  - apply (word_at (t :: Z.of_nat (length name) :: name) s tail); [cbn [length]; lia|done].
Qed.
End named.

Lemma unpack_string t name s tail : 0 ≤ s < 2 ^ 32 → unpackreq_string (body_string t name s tail) (Z.of_nat (length (body_string t name s tail))) =
  lua_ret ([LStr name; LInt s; LStr tail] ++ if s =? 0 then [LNil; LBool true] else []).
Proof.
  intros Hs. destruct (named_fields t name s tail Hs) as (E1 & E2 & E3). pose proof (named_length t name s tail) as Hl.
  unfold unpackreq_string. set (b := body_string t name s tail) in *. destruct (Z.ltb_spec (Z.of_nat (length b)) 2); [lia|]. cbv zeta.
  rewrite E1, bind_ok. destruct (Z.ltb_spec (Z.of_nat (length b)) (Z.of_nat (length name) + 6)); [lia|]. rewrite E2, bind_ok, E3, bind_ok.
  assert (E4 : rd_at b (2 + Z.of_nat (length name) + 4) (Z.of_nat (length b) - Z.of_nat (length name) - 6) = Ok tail).
  { pose proof (rest_at (t :: Z.of_nat (length name) :: name ++ word_bytes s) tail (2 + Z.of_nat (length name) + 4) (Z.of_nat (length b) - Z.of_nat (length name) - 6)) as E.
    rewrite <- E; [|cbn [length]; rewrite length_app, word_bytes_length; lia|lia]. f_equal. unfold b, body_string. cbn [app]. by rewrite <- app_assoc. }
  by rewrite E4.
Qed.

Lemma unpack_mstring t name s n push : 0 ≤ s < 2 ^ 32 → 0 ≤ n < 2 ^ 32 →
  unpackmreq_string (body_string t name s (word_bytes n)) (Z.of_nat (length (body_string t name s (word_bytes n)))) push =
  lua_ret [LStr name; LInt s; LInt n; LBool true; LBool push].
Proof.
  intros Hs Hn. destruct (named_fields t name s (word_bytes n) Hs) as (E1 & E2 & E3). pose proof (named_length t name s (word_bytes n)) as Hl. rewrite word_bytes_length in Hl.
  unfold unpackmreq_string. set (b := body_string t name s (word_bytes n)) in *. destruct (Z.ltb_spec (Z.of_nat (length b)) 2); [lia|]. cbv zeta.
  rewrite E1, bind_ok. destruct (Z.ltb_spec (Z.of_nat (length b)) (Z.of_nat (length name) + 10)); [lia|]. rewrite E2, bind_ok, E3, bind_ok.
  assert (E4 : unpack_uint32 b (Z.of_nat (length name) + 6) = Ok n).
  { pose proof (word_at (t :: Z.of_nat (length name) :: name ++ word_bytes s) n [] (Z.of_nat (length name) + 6)) as E. rewrite app_nil_r in E.
    rewrite <- E; [|cbn [length]; rewrite length_app, word_bytes_length; lia|done]. f_equal. unfold b, body_string. cbn [app]. by rewrite <- app_assoc. }
  by rewrite E4.
Qed.

(** The dispatch on the first byte. *)
Lemma unpack_small addr s tail : addr_ok addr → 0 ≤ s < 2 ^ 32 → Z.of_nat (length tail) < 2 ^ 31 - 1000 →
  lunpackrequest (wire_body 0 0x80 addr s tail) = lua_ret ([addr_val addr; LInt s; LStr tail] ++ if s =? 0 then [LNil; LBool true] else []).
Proof.
  intros Ha Hs Ht. unfold lunpackrequest. cbv zeta. destruct addr as [z|name|]; [| |done]; cbn [wire_body addr_val].
  - rewrite i32_small by (unfold body_number; cbn [length]; rewrite !length_app, !word_bytes_length; lia). rewrite (first_byte 0 _ : rd (body_number 0 (u32 z) s tail ++ [0]) 0 = _), bind_ok. by apply unpack_number.
  - cbn in Ha. rewrite i32_small by (pose proof (named_length 0x80 name s tail); lia). rewrite (first_byte 0x80 _ : rd (body_string 0x80 name s tail ++ [0]) 0 = _), bind_ok. by apply unpack_string.
Qed.

Lemma unpack_large addr s n (push : bool) : addr_ok addr → 0 ≤ s < 2 ^ 32 → 0 ≤ n < 2 ^ 32 →
  lunpackrequest (wire_body (if push then 0x41 else 1) (if push then 0xc1 else 0x81) addr s (word_bytes n)) = lua_ret [addr_val addr; LInt s; LInt n; LBool true; LBool push].
Proof.
  intros Ha Hs Hn. unfold lunpackrequest. cbv zeta. destruct addr as [z|name|]; [| |done]; cbn [wire_body addr_val].
  - rewrite (first_byte (if push then 0x41 else 1) _ : rd (body_number _ (u32 z) s (word_bytes n) ++ [0]) 0 = _), bind_ok. destruct push; by apply unpack_mnumber.
  - cbn in Ha. rewrite i32_small by (pose proof (named_length (if push then 0xc1 else 0x81) name s (word_bytes n)); rewrite word_bytes_length in *; lia).
    rewrite (first_byte (if push then 0xc1 else 0x81) _ : rd (body_string _ name s (word_bytes n) ++ [0]) 0 = _), bind_ok. destruct push; by apply unpack_mstring.
Qed.

Lemma unpack_part_body (last : bool) s c : 0 ≤ s < 2 ^ 32 → Z.of_nat (length c) ≤ MULTI_PART →
  lunpackrequest (body_part (if last then 3 else 2) s c) = lua_ret [LBool false; LInt s; LStr c; LBool (negb last)].
Proof.
  intros Hs Hc. unfold lunpackrequest. cbv zeta. rewrite i32_small by (unfold body_part; cbn [length]; rewrite length_app, word_bytes_length; sizes).
  rewrite (first_byte (if last then 3 else 2) _ : rd (body_part _ s c ++ [0]) 0 = _), bind_ok. destruct last; by apply unpack_part.
Qed.

(** ** Concatenation *)

Lemma concat_loop_lemma sz cs : ∀ o m, Z.of_nat (length (o ++ concat cs)) ≤ sz → sz < 2 ^ 31 → (length (concat cs) ≤ m)%nat →
  concat_loop sz (Z.of_nat (length o)) (filled o m) (map LStr cs) = Ok (Some (Z.of_nat (length (o ++ concat cs)), filled (o ++ concat cs) (m - length (concat cs)))).
Proof.
  induction cs as [|c cs IH]; intros o m Hlen Hsz Hm; cbn [map concat_loop concat] in *; [by rewrite app_nil_r, Nat.sub_0_r|].
  rewrite !length_app in Hlen. rewrite length_app in Hm. unfold u64. rewrite !Z.mod_small by lia. destruct (Z.gtb_spec (Z.of_nat (length c) + Z.of_nat (length o)) sz); [lia|].
  rewrite wr_filled, bind_ok, int_chk_ok, bind_ok by (unfold INT_MIN, INT_MAX; lia). replace (Z.of_nat (length o) + Z.of_nat (length c)) with (Z.of_nat (length (o ++ c))) by (rewrite length_app; lia).
  rewrite IH by (rewrite ?length_app; lia). rewrite <- app_assoc, (length_app c). by rewrite Nat.sub_add_distr.
Qed.

Lemma lconcat_lemma cs n : n = Z.of_nat (length (concat cs)) → n < 2 ^ 31 → lconcat (LInt n :: map LStr cs) = Ok (Some (concat cs)).
Proof.
  intros -> Hn. unfold lconcat. rewrite i32_small by lia. destruct (Z.ltb_spec (Z.of_nat (length (concat cs))) 0); [lia|]. cbv zeta. rewrite bind_ok, Nat2Z.id.
  pose proof (concat_loop_lemma (Z.of_nat (length (concat cs))) cs [] (length (concat cs)) (Z.le_refl _) Hn (Nat.le_refl _)) as E. cbn [app length] in E.
  change (Z.of_nat 0) with 0 in E. change (filled [] (length (concat cs))) with (replicate (length (concat cs)) (@None Z)) in E. rewrite E, bind_ok, Z.eqb_refl. cbn [negb].
  unfold filled. by rewrite init_bytes_lemma.
Qed.

(** ** The receiver of requests *)

(** An error in the handler is a fault here. *)
Definition socket_step (larges : gmap Z large) (body : list Z) : res (gmap Z large * list delivery) :=
  r ← socket_data larges body; match r with inr r => Ok r | inl _ => Fault AssertFailed end.

Definition wire_session (s : Z) (r : request) : Z := if is_large r then s else if rq_push r then 0 else s.

Definition delivered (s : Z) (r : request) : delivery :=
  Deliver (addr_val (rq_addr r)) (LInt (wire_session s r)) (rq_msg r) (if is_large r then LBool (rq_push r) else if rq_push r then LBool true else LNil).

Definition chunks (r : request) : list (list Z) := split_parts (part_count (rq_msg r)) (rq_msg r).

Definition request_item (s : Z) (r : request) : item (X := large) (P := list Z) (O := delivery) := Item
  (wire_session s r) (request_bodies s r)
  (λ j, if is_large r && (0 <? j)%nat && (j <=? length (chunks r))%nat then
          Some (Large (addr_val (rq_addr r)) (LBool (rq_push r)) (LInt (Z.of_nat (length (rq_msg r))) :: map LStr (take (j - 1) (chunks r))))
        else None)
  [delivered s r].

Lemma typed_lookup {A} mid fin (cs : list A) : ∀ j, typed mid fin cs !! j = (λ c, (if decide (S j = length cs) then fin else mid, c)) <$> cs !! j.
Proof.
  induction cs as [|c cs IH]; intros j; [done|]. destruct j as [|j]; cbn [typed lookup list_lookup].
  - destruct cs; cbn; [done|]. by destruct (decide _).
  - change (typed mid fin cs !! j = (λ c0, (if decide (S (S j) = length (c :: cs)) then fin else mid, c0)) <$> cs !! j). rewrite IH. destruct (cs !! j); [|done]. cbn. do 2 f_equal.
    destruct (decide (S j = length cs)), (decide (S (S j) = S (length cs))); lia || done.
Qed.

Lemma typed_length {A} mid fin (cs : list A) : length (typed mid fin cs) = length cs.
Proof. induction cs as [|c cs IH]; [done|]. cbn [typed length]. by rewrite IH. Qed.

(** The receiver's step on the values of a package. *)
Lemma socket_padding larges body a s v push : lunpackrequest body = lua_ret [a; LInt s; v; LBool true; push] →
  socket_step larges body = Ok (<[s := let req := default (Large a push []) (larges !! s) in Large (lr_addr req) (lr_push req) (lr_list req ++ [v])]> larges, []).
Proof. intros E. unfold socket_step, socket_data. rewrite E. done. Qed.

Lemma socket_more larges body s v req : lunpackrequest body = lua_ret [LBool false; LInt s; v; LBool true] → larges !! s = Some req →
  socket_step larges body = Ok (<[s := Large (lr_addr req) (lr_push req) (lr_list req ++ [v])]> larges, []).
Proof. intros E Hs. unfold socket_step, socket_data. rewrite E. cbn [lbind lua_ret arg nth session_of truthy]. by rewrite Hs. Qed.

Lemma socket_last larges body s v req msg : lunpackrequest body = lua_ret [LBool false; LInt s; v; LBool false] → larges !! s = Some req →
  lconcat (lr_list req ++ [v]) = Ok (Some msg) → socket_step larges body = Ok (delete s larges, [Deliver (lr_addr req) (LInt s) msg (lr_push req)]).
Proof. intros E Hs Hc. unfold socket_step, socket_data. rewrite E. cbn [lbind lua_ret arg nth session_of truthy]. by rewrite Hs, Hc. Qed.

Lemma socket_small larges body a s msg rest : lunpackrequest body = lua_ret ([a; LInt s; LStr msg] ++ rest) → truthy (nth 0 rest LNil) = false → larges !! s = None →
  socket_step larges body = Ok (larges, [Deliver a (LInt s) msg (nth 1 rest LNil)]).
Proof.
  intros E Hr Hs. unfold socket_step, socket_data. rewrite E. cbn [lbind lua_ret arg nth app session_of bytes_of]. by rewrite Hr, Hs.
Qed.

Lemma chunks_concat r : is_large r = true → concat (chunks r) = rq_msg r ∧ chunks r ≠ [].
Proof.
  unfold is_large. rewrite Z.leb_le. intros Hl. assert (Hne : rq_msg r ≠ []) by (intros E; rewrite E in Hl; cbn in Hl; sizes).
  assert (E : concat (chunks r) = rq_msg r) by (by apply split_concat). split; [done|]. intros Ec. by rewrite Ec in E.
Qed.

Lemma part_chunk_size r j c : chunks r !! j = Some c → Z.of_nat (length c) ≤ MULTI_PART.
Proof. intros Hc. exact (Forall_lookup_1 _ _ _ _ (split_sizes _ _) Hc). Qed.

(** The announcement and the parts. *)
Lemma large_lookup s r j body : is_large r = true → request_bodies s r !! S j = Some body →
  ∃ c, chunks r !! j = Some c ∧ body = body_part (if decide (S j = length (chunks r)) then 3 else 2) s c.
Proof.
  intros Hl. unfold request_bodies. rewrite Hl. cbn [lookup list_lookup]. intros Hb. change (map (λ p, body_part p.1 s p.2) (typed 2 3 (chunks r)) !! j = Some body) in Hb.
  rewrite list_lookup_fmap, typed_lookup in Hb. destruct (chunks r !! j) as [c|]; [|done]. cbn in Hb. injection Hb as <-. by exists c.
Qed.

Lemma request_moves s r : request_ok r → 1 ≤ s < 2 ^ 31 → moves socket_step (request_item s r).
Proof.
  intros (Ha & Hb & Hn) Hs. unfold moves. cbn [request_item it_packages it_partial it_key it_out]. destruct (is_large r) eqn:Hl.
  - destruct (chunks_concat r Hl) as [Hcat Hne]. assert (Hlen : length (request_bodies s r) = S (length (chunks r))).
    { unfold request_bodies. rewrite Hl. cbn [length]. by rewrite length_map, typed_length. }
    assert (Hpos : (0 < length (chunks r))%nat) by (destruct (chunks r); [done|cbn; lia]). unfold wire_session. rewrite Hl, Hlen. cbn [andb].
    split; [destruct (Nat.leb_spec (S (length (chunks r))) (length (chunks r))); [lia|by rewrite andb_false_r]|].
    intros m j body Hj Hm. destruct j as [|j].
    + rewrite decide_False by lia. unfold request_bodies in Hj. rewrite Hl in Hj. injection Hj as <-.
      rewrite (socket_padding m _ _ _ _ _ (unpack_large (rq_addr r) s (Z.of_nat (length (rq_msg r))) (rq_push r) Ha ltac:(lia) ltac:(lia))). cbn in Hm. rewrite Hm. cbn [default lr_addr lr_push lr_list app].
      destruct (Nat.ltb_spec 0 1), (Nat.leb_spec 1 (length (chunks r))); try lia. reflexivity.
    + destruct (large_lookup s r j body Hl Hj) as (c & Hc & ->). pose proof (lookup_lt_Some _ _ _ Hc) as Hjl.
      assert (Em : m !! s = Some (Large (addr_val (rq_addr r)) (LBool (rq_push r)) (LInt (Z.of_nat (length (rq_msg r))) :: map LStr (take j (chunks r))))).
      { rewrite Hm. destruct (Nat.ltb_spec 0 (S j)), (Nat.leb_spec (S j) (length (chunks r))); try lia. cbn [andb]. by replace (S j - 1)%nat with j by lia. }
      assert (Et : map LStr (take j (chunks r)) ++ [LStr c] = map LStr (take (S j) (chunks r))) by (by rewrite (take_S_r _ _ _ Hc), map_app).
      destruct (decide (S j = length (chunks r))) as [Elast|Hmore].
      * rewrite decide_True by lia. rewrite (socket_last m _ s _ _ (rq_msg r) (unpack_part_body true s c ltac:(lia) (part_chunk_size _ _ _ Hc)) Em).
        -- destruct (Nat.leb_spec (S (S j)) (length (chunks r))); [lia|]. rewrite andb_false_r. unfold delivered, wire_session. by rewrite Hl.
        -- cbn [lr_list app]. rewrite Et, take_ge by lia. rewrite (lconcat_lemma (chunks r)); [by rewrite Hcat|by rewrite Hcat|done].
      * rewrite decide_False by lia. rewrite (socket_more m _ s _ _ (unpack_part_body false s c ltac:(lia) (part_chunk_size _ _ _ Hc)) Em). cbn [lr_list lr_addr lr_push app]. rewrite Et.
        destruct (Nat.ltb_spec 0 (S (S j))), (Nat.leb_spec (S (S j)) (length (chunks r))); try lia. cbn [andb]. by replace (S (S j) - 1)%nat with (S j) by lia.
  - cbn [andb]. split; [done|]. intros m j body Hj Hm. unfold request_bodies in Hj. rewrite Hl in Hj. destruct j as [|j]; [|done]. injection Hj as <-. unfold wire_session in *. rewrite Hl in *.
    set (ws := if rq_push r then 0 else s) in *. assert (Hws : 0 ≤ ws < 2 ^ 31 ∧ (ws =? 0) = rq_push r) by (unfold ws; destruct (rq_push r); split; try lia; by destruct (Z.eqb_spec s 0); [lia|]).
    destruct Hws as [Hws Ews]. unfold is_large in Hl. apply Z.leb_gt in Hl.
    pose proof (unpack_small (rq_addr r) ws (rq_msg r) Ha ltac:(lia) ltac:(sizes)) as E. rewrite Ews in E. rewrite (socket_small m _ _ _ _ _ E); [|by destruct (rq_push r)|done].
    rewrite decide_True by (unfold request_bodies, is_large; destruct (Z.leb_spec MULTI_PART (Z.of_nat (length (rq_msg r)))); [lia|done]).
    f_equal. f_equal; [symmetry; exact (delete_id m ws Hm)|]. unfold delivered, wire_session, is_large. destruct (Z.leb_spec MULTI_PART (Z.of_nat (length (rq_msg r)))); [lia|]. unfold ws. by destruct (rq_push r).
Qed.

(** Every package fits its header. *)
Lemma sendable_app t l1 l2 : byte t → Forall byte l1 → Forall byte l2 → Z.of_nat (length l1) + Z.of_nat (length l2) < 0xffff → sendable (t :: l1 ++ l2).
Proof. intros Ht H1 H2 Hl. split; [constructor; [done|by apply Forall_app]|]. cbn [length]. rewrite length_app. lia. Qed.

Lemma wire_body_sendable tn ts addr s tail : byte tn → byte ts → addr_ok addr → Forall byte tail → Z.of_nat (length tail) ≤ MULTI_PART → sendable (wire_body tn ts addr s tail).
Proof.
  intros Hn Hs Ha Ht Hl. destruct addr as [z|name|]; [| |done]; cbn [wire_body].
  - apply sendable_app; [done|apply word_bytes_byte|apply Forall_app; split; [apply word_bytes_byte|done]|]. rewrite length_app, !word_bytes_length. sizes.
  - cbn in Ha. destruct Ha as [Hb Hlen]. unfold body_string. apply (sendable_app ts (Z.of_nat (length name) :: name)); [done| |apply Forall_app; split; [apply word_bytes_byte|done]|].
    + constructor; [unfold byte; lia|done].
    + cbn [length]. rewrite length_app, word_bytes_length. sizes.
Qed.

Lemma split_bytes n : ∀ l, Forall byte l → Forall (Forall byte) (split_parts n l).
Proof. induction n as [|n IH]; intros l Hl; [constructor|]. cbn [split_parts]. constructor; [by apply Forall_take|by apply IH, Forall_drop]. Qed.

Lemma bodies_sendable s r : request_ok r → Forall sendable (request_bodies s r).
Proof.
  intros (Ha & Hb & Hn). unfold request_bodies. destruct (is_large r) eqn:Hl.
  - constructor.
    + apply wire_body_sendable; [unfold byte; by destruct (rq_push r)|unfold byte; by destruct (rq_push r)|done|apply word_bytes_byte|rewrite word_bytes_length; sizes].
    + apply Forall_map, Forall_lookup_2. intros j [ty c] Hj. rewrite typed_lookup in Hj. fold (chunks r) in *. destruct (chunks r !! j) as [c'|] eqn:Hc; [|done]. cbn in Hj. injection Hj as <- <-. cbn [fst snd].
      apply sendable_app; [unfold byte; by destruct (decide _)|apply word_bytes_byte|exact (Forall_lookup_1 _ _ _ _ (split_bytes _ _ Hb) Hc)|]. pose proof (part_chunk_size _ _ _ Hc). rewrite word_bytes_length. sizes.
  - unfold is_large in Hl. apply Z.leb_gt in Hl. apply Forall_singleton, wire_body_sendable; [done|done|done|done|lia].
Qed.

(** ** Histories of requests *)

(** The requests of one node to another, one after the other. *)
Fixpoint send_all (session : Z) (rs : list request) : luaR (list (list (list Z))) :=
  match rs with
  | [] => lua_ret []
  | r :: rs => lbind (send_request session r) (λ '(l, session), lbind (send_all session rs) (λ ls, lua_ret (l :: ls)))
  end.

(** The requests with the sessions they get. *)
Fixpoint numbered (session : Z) (rs : list request) : list (Z * request) :=
  match rs with [] => [] | r :: rs => (session, r) :: numbered (next_session session r) rs end.

Lemma next_range s r : s ≤ next_session s r ≤ s + 1.
Proof. unfold next_session. destruct (_ && _); lia. Qed.

Lemma send_all_lemma rs : ∀ s, Forall request_ok rs → 1 ≤ s → s + Z.of_nat (length rs) ≤ INT_MAX →
  send_all s rs = lua_ret (map (λ p, map wire (request_bodies p.1 p.2)) (numbered s rs)).
Proof.
  induction rs as [|r rs IH]; intros s Hok Hs Hlen; [done|]. apply Forall_cons in Hok as [Hr Hrs]. cbn [length] in Hlen. cbn [send_all numbered map fst snd].
  rewrite send_request_lemma by (done || lia). cbn [lbind lua_ret]. pose proof (next_range s r). rewrite IH by (done || lia). done.
Qed.

Lemma numbered_range rs : ∀ s, Forall (λ p, s ≤ p.1 ≤ s + Z.of_nat (length rs)) (numbered s rs).
Proof.
  induction rs as [|r rs IH]; intros s; [constructor|]. cbn [numbered length]. constructor; [cbn; lia|]. pose proof (next_range s r). eapply Forall_impl; [apply IH|]. cbn. lia.
Qed.

(** Of two requests the later has another session on the wire, or both are pushes in one package. *)
Lemma numbered_apart rs : ∀ s i j a b, 1 ≤ s → (i < j)%nat → numbered s rs !! i = Some a → numbered s rs !! j = Some b →
  apart (request_item a.1 a.2) (request_item b.1 b.2).
Proof.
  induction rs as [|r rs IH]; intros s i j a b Hs Hij Ha Hb; [done|]. pose proof (next_range s r) as Hnr. destruct i as [|i], j as [|j]; [lia| |lia|].
  - cbn in Ha, Hb. injection Ha as <-. cbn [fst snd]. change (numbered (next_session s r) rs !! j = Some b) in Hb. pose proof (Forall_lookup_1 _ _ _ _ (numbered_range rs (next_session s r)) Hb) as Hb1.
    cbn in Hb1. destruct b as [s' r']. cbn [fst snd] in *. unfold apart, next_session in *. cbn [request_item it_key it_partial]. unfold wire_session.
    destruct (is_large r) eqn:Hl, (is_large r') eqn:Hl', (rq_push r) eqn:Hp, (rq_push r') eqn:Hp'; cbn [andb negb] in *; first [left; lia|right; done].
  - cbn in Ha, Hb. apply (IH (next_session s r) i j a b); [lia|lia|done|done].
Qed.

Lemma apart_sym {X P O} (a b : item (X := X) (P := P) (O := O)) : apart a b → apart b a.
Proof. intros [H|[H1 H2]]; [by left|by right]. Qed.

(** C9. Requests between nodes.  Whatever requests and pushes a node sends to another, to
    services by number or by name and with messages of any size below 2^31 bytes: packing
    succeeds and stays in its buffer of 33280 bytes; and whatever the order in which the
    packages of different messages are written to the connection (large messages go
    out with a lower priority than small ones), the byte stream falls apart into the packages, and
    [clusterd]'s table of large requests delivers every message exactly once, whole, under its address,
    session and push flag, and is empty at the end. *)
Theorem cluster_requests rs s : Forall request_ok rs → 1 ≤ s → s + Z.of_nat (length rs) ≤ INT_MAX →
  ∃ packs, send_all s rs = lua_ret packs ∧
    ∀ stream, interleave packs stream → ∃ bodies outs, frames (concat stream) = (bodies, []) ∧
      receive socket_step ∅ bodies = Ok (∅, outs) ∧ outs ≡ₚ map (λ p, delivered p.1 p.2) (numbered s rs).
Proof.
  intros Hok Hs Hlen. eexists. split; [by apply send_all_lemma|]. intros stream Hint. unfold INT_MAX in Hlen.
  assert (Hns : ∀ i p, numbered s rs !! i = Some p → request_ok p.2 ∧ 1 ≤ p.1 < 2 ^ 31).
  { intros i p Hp. split; [|pose proof (Forall_lookup_1 _ _ _ _ (numbered_range rs s) Hp); cbn in *; lia]. clear - Hok Hp. revert s i Hp.
    induction Hok as [|r rs Hr _ IH]; intros s i Hp; [done|]. destruct i; cbn in Hp; [by injection Hp as <-|by eapply IH]. }
  rewrite <- (map_map (λ p, request_bodies p.1 p.2) (map wire)) in Hint. destruct (interleave_map wire _ _ Hint) as (bodies & Hb & ->).
  assert (Hsend : Forall sendable bodies).
  { apply (interleave_Forall _ _ _ Hb), Forall_map, Forall_lookup_2. intros i p Hp. destruct (Hns i p Hp). by apply bodies_sendable. }
  destruct (receive_all socket_step (map (λ p, request_item p.1 p.2) (numbered s rs)) ∅ bodies) as (outs & E & Hperm).
  - by rewrite map_map.
  - apply Forall_map, Forall_lookup_2. intros i p Hp. destruct (Hns i p Hp). by apply request_moves.
  - intros i it i' it' Hne Hi Hi'. rewrite list_lookup_fmap in Hi, Hi'. destruct (numbered s rs !! i) as [a|] eqn:Ea, (numbered s rs !! i') as [b|] eqn:Eb; try done.
    cbn in Hi, Hi'. injection Hi as <-. injection Hi' as <-. destruct (decide (i < i')%nat); [by eapply (numbered_apart rs s i i')|].
    apply apart_sym. eapply (numbered_apart rs s i' i); [done|lia|done|done].
  - intros it Hit. apply list_elem_of_fmap in Hit as (p & -> & _). rewrite lookup_empty. cbn. by rewrite andb_false_r.
  - done.
  - apply Forall_map, Forall_lookup_2. intros i p Hp. cbn. unfold request_bodies. by destruct (is_large p.2).
  - exists bodies, outs. split; [by apply wire_frames|]. split; [done|]. rewrite Hperm, map_map. clear. induction (numbered s rs) as [|p l IH]; [done|]. cbn. by rewrite IH.
Qed.

Definition two_requests : list request := [Request (AddrNumber 3) [1; 2] false; Request (AddrString [97]) (replicate (Z.to_nat 70000) 7) true].

Lemma cluster_requests_witness : Forall request_ok two_requests ∧ 1 ≤ 1 ∧ 1 + Z.of_nat (length two_requests) ≤ INT_MAX ∧
  ∃ packs, send_all 1 two_requests = lua_ret packs ∧
    ∀ stream, interleave packs stream → ∃ bodies outs, frames (concat stream) = (bodies, []) ∧
      receive socket_step ∅ bodies = Ok (∅, outs) ∧ outs ≡ₚ map (λ p, delivered p.1 p.2) (numbered 1 two_requests).
Proof.
  assert (Hok : Forall request_ok two_requests).
  { apply Forall_cons. split; [|apply Forall_cons; split; [|constructor]]; (split; [|split]); cbn [rq_addr rq_msg addr_ok length].
    - done.
    - by repeat constructor.
    - lia.
    - split; [by repeat constructor|lia].
    - by apply Forall_replicate.
    - rewrite length_replicate. lia. }
  assert (Hlen : 1 + Z.of_nat (length two_requests) ≤ INT_MAX) by (unfold INT_MAX; cbn [two_requests length]; lia).
  split; [exact Hok|]. split; [lia|]. split; [exact Hlen|]. exact (cluster_requests two_requests 1 Hok (Z.le_refl 1) Hlen).
Defined.

(** [large_request] is one table for all connections: two nodes that send a large request under
    the same session at the same time.  Neither message arrives; the parts of both go
    to one entry, which is dropped, and the last part comes as a request of its own. *)
Lemma large_requests_mix : ∃ begin1 begin2 last1 last2,
  begin1 = body_number 1 3 1 (word_bytes 2) ∧ last1 = body_part 3 1 [1; 2] ∧ begin2 = body_number 1 4 1 (word_bytes 2) ∧ last2 = body_part 3 1 [8; 9] ∧
  receive socket_step ∅ [begin1; last1; begin2; last2] = Ok (∅, [Deliver (LInt 3) (LInt 1) [1; 2] (LBool false); Deliver (LInt 4) (LInt 1) [8; 9] (LBool false)]) ∧
  receive socket_step ∅ [begin1; begin2; last1; last2] = Ok (∅, [InvalidLarge 1; Deliver (LBool false) (LInt 1) [8; 9] LNil]).
Proof. do 4 eexists. do 4 (split; [reflexivity|]). split; vm_compute; reflexivity. Qed.
