(* ===== verification/ClusterResponses.v ===== *)
(** The responses of a cluster: what [lpackresponse] writes arrives at the coroutine that waits
    for the session, whole, however responses are interleaved. *)

From S2P Require Import Prelude CString Seri Frames Gate GateProps Crypt CryptDes CryptDh CryptText Words Interleave Cluster ClusterProps ClusterDelivers.
Open Scope Z_scope.

#[local] Opaque TEMP_LENGTH MULTI_PART stack_buf.

Record response : Set := Response {
  rs_session : Z;
  rs_ok : bool;
  rs_msg : list Z
}.

Definition response_ok (r : response) : Prop := 0 ≤ rs_session r < 2 ^ 31 ∧ Forall byte (rs_msg r) ∧ Z.of_nat (length (rs_msg r)) < 2 ^ 31.

(** An error message is cut to 32K. *)
Definition response_text (r : response) : list Z := if rs_ok r then rs_msg r else take (Z.to_nat MULTI_PART) (rs_msg r).

Definition in_parts (r : response) : bool := rs_ok r && (MULTI_PART <? Z.of_nat (length (rs_msg r))).

Definition response_chunks (r : response) : list (list Z) := split_parts (part_count (rs_msg r)) (rs_msg r).

Definition response_bodies (r : response) : list (list Z) :=
  let s := rs_session r in
  if in_parts r then
    response_body s 2 (word_bytes (Z.of_nat (length (rs_msg r)))) :: map (λ p, response_body s p.1 p.2) (typed 3 4 (response_chunks r))
  else [response_body s (if rs_ok r then 1 else 0) (response_text r)].

(** ** Packing *)

Lemma response_length s t tail : Z.of_nat (length (response_body s t tail)) = 5 + Z.of_nat (length tail).
Proof. unfold response_body. rewrite length_app, word_bytes_length. cbn [length]. lia. Qed.

Lemma response_single s (ok : bool) msg n : 0 ≤ n ≤ MULTI_PART → n ≤ Z.of_nat (length msg) →
  (buf ← fill_header stack_buf (n + 5); buf ← fill_uint32 buf 2 s; buf ← wr_at buf 6 [if ok then 1 else 0]; buf ← copy buf 7 msg 0 n; str ← pushlstring buf (n + 7); Ok (inl str)) =
  Ok (inl (B := list (list Z)) (wire (response_body s (if ok then 1 else 0) (take (Z.to_nat n) msg)))).
Proof.
  intros Hn Hl. fields. assert (Et : Z.of_nat (length (take (Z.to_nat n) msg)) = n) by (rewrite length_take; lia).
  rewrite copy_next by (rewrite ?length_app, ?word_bytes_length; cbn [length header]; sizes). rewrite bind_ok. change (drop (Z.to_nat 0) msg) with msg.
  rewrite push_filled by (rewrite !length_app, word_bytes_length; cbn [length header]; lia). rewrite bind_ok. do 2 f_equal. rewrite <- !app_assoc. cbn [app]. apply header_wire.
  pose proof (response_length s (if ok then 1 else 0) (take (Z.to_nat n) msg)) as E. rewrite Et in E. etransitivity; [|symmetry; exact E]. lia.
Qed.

(** The buffer after the announcement. *)
Definition begin_buf (s n : Z) : buffer := filled (header 9 ++ word_bytes s ++ [2] ++ word_bytes n) (Z.to_nat TEMP_LENGTH - 11).

Lemma begin_length s n : length (begin_buf s n) = Z.to_nat TEMP_LENGTH.
Proof. unfold begin_buf, filled. rewrite length_app, length_map, length_replicate, !length_app, !word_bytes_length. cbn [length header]. sizes. Qed.

Lemma response_begin {B} s n (k : buffer → list Z → res B) :
  (buf ← fill_header stack_buf 9; buf ← fill_uint32 buf 2 s; buf ← wr_at buf 6 [2]; buf ← fill_uint32 buf 7 n; begin ← pushlstring buf 11; k buf begin) =
  k (begin_buf s n) (wire (response_body s 2 (word_bytes n))).
Proof.
  fields. assert (Ew : ((header 9 ++ word_bytes s) ++ [2]) ++ word_bytes n = wire (response_body s 2 (word_bytes n))).
  { rewrite <- !app_assoc. apply header_wire. pose proof (response_length s 2 (word_bytes n)). rewrite word_bytes_length in *. lia. }
  rewrite Ew. unfold begin_buf. f_equal.
Qed.

Lemma send_response_lemma r : response_ok r → send_response (rs_session r) (rs_ok r) (rs_msg r) = Ok (map wire (response_bodies r)).
Proof.
  intros (Hs & Hb & Hl). unfold send_response, lpackresponse. set (s := rs_session r) in *. set (msg := rs_msg r) in *. cbv zeta. rewrite (u32_small s) by lia.
  assert (Eu : u64 (Z.of_nat (length msg)) = Z.of_nat (length msg)) by (unfold u64; apply Z.mod_small; lia). rewrite Eu. unfold response_bodies, in_parts, response_text. fold s msg.
  destruct (rs_ok r) eqn:Hok; cbn [negb andb].
  - destruct (Z.gtb_spec (Z.of_nat (length msg)) MULTI_PART) as [Hgt|Hle], (Z.ltb_spec MULTI_PART (Z.of_nat (length msg))); try lia.
    + assert (Hne : msg ≠ []) by (intros E; rewrite E in Hgt; cbn in Hgt; sizes). rewrite (u32_small (Z.of_nat (length msg))) by lia. rewrite response_begin.
      set (o := wire (response_body s 2 (word_bytes (Z.of_nat (length msg))))). pose proof (parts_of_count msg ltac:(sizes)) as Ep. unfold parts_of in Ep. rewrite (u32_small (Z.of_nat (length msg) - 1)) in Ep by sizes. rewrite Ep.
      destruct (parts_loop (response_round s msg) (response_body s) 3 4 msg
        ltac:(intros i buf ptr table Hbf Hd; by apply response_round_lemma; [| |lia]) msg Hne 0 _ 0%nat [o] (begin_length s (Z.of_nat (length msg))) eq_refl) as (b & z & p & E).
      change (Z.of_nat 0) with 0 in E. rewrite E, bind_ok, bind_ok. cbn [app map]. by rewrite map_map.
    + rewrite (response_single s true msg) by lia. rewrite bind_ok. cbn [map]. rewrite take_ge by lia. done.
  - set (n := if Z.of_nat (length msg) >? MULTI_PART then MULTI_PART else Z.of_nat (length msg)). assert (Hn : 0 ≤ n ≤ MULTI_PART ∧ n ≤ Z.of_nat (length msg) ∧ take (Z.to_nat n) msg = take (Z.to_nat MULTI_PART) msg).
    { unfold n. destruct (Z.gtb_spec (Z.of_nat (length msg)) MULTI_PART); [split; [sizes|]; split; [sizes|reflexivity]|]. split; [lia|]. split; [lia|]. rewrite !take_ge by lia. done. }
    destruct Hn as (Hn1 & Hn2 & <-). by rewrite (response_single s false msg n Hn1 Hn2).
Qed.

(** ** Unpacking *)

Lemma unpack_response s t tail : 0 ≤ s < 2 ^ 32 → t ≠ 2 → 0 ≤ t ≤ 4 →
  lunpackresponse (response_body s t tail) = Ok (Some ([LInt s; LBool (negb (t =? 0)); LStr tail] ++ if t =? 3 then [LBool true] else [])).
Proof.
  intros Hs Ht Hr. unfold lunpackresponse. pose proof (response_length s t tail) as Hl. set (b := response_body s t tail) in *. cbv zeta. destruct (Z.ltb_spec (Z.of_nat (length b)) 5); [lia|].
  rewrite (word_at [] s (t :: tail) 0 eq_refl Hs : unpack_uint32 b 0 = _), bind_ok. rewrite (rd_app_0 (word_bytes s) tail t : rd b 4 = _), bind_ok.
  assert (E5 : rd_at b 5 (Z.of_nat (length b) - 5) = Ok tail).
  { pose proof (rest_at (word_bytes s ++ [t]) tail 5 (Z.of_nat (length b) - 5) eq_refl ltac:(lia)) as E. rewrite <- E. f_equal. }
  rewrite E5, !bind_ok. assert (Hc : t = 0 ∨ t = 1 ∨ t = 3 ∨ t = 4) by lia. destruct Hc as [->|[->|[->| ->]]]; done.
Qed.

Lemma unpack_begin s n : 0 ≤ s < 2 ^ 32 → 0 ≤ n < 2 ^ 32 →
  lunpackresponse (response_body s 2 (word_bytes n)) = Ok (Some [LInt s; LBool true; LInt n; LBool true]).
Proof.
  intros Hs Hn. unfold lunpackresponse. pose proof (response_length s 2 (word_bytes n)) as Hl. rewrite word_bytes_length in Hl. set (b := response_body s 2 (word_bytes n)) in *. cbv zeta.
  destruct (Z.ltb_spec (Z.of_nat (length b)) 5); [lia|].
  rewrite (word_at [] s (2 :: word_bytes n) 0 eq_refl Hs : unpack_uint32 b 0 = _), bind_ok. rewrite (rd_app_0 (word_bytes s) (word_bytes n) 2 : rd b 4 = _), bind_ok. rewrite Hl.
  pose proof (word_at (word_bytes s ++ [2]) n [] 5 eq_refl Hn) as E. rewrite app_nil_r, <- app_assoc in E. change (unpack_uint32 b 5 = Ok n) in E. cbn [Z.eqb Pos.eqb orb]. change (5 + Z.of_nat 4 =? 9) with true. cbn [negb]. by rewrite E.
Qed.

(** ** The channel that receives *)

(** A channel that closes is a fault here. *)
Definition response_step (threads : gmap Z (option (list lval))) (body : list Z) : res (gmap Z (option (list lval)) * list answer) :=
  o ← dispatch_by_session threads body; match o with Some r => Ok r | None => Fault AssertFailed end.

Definition answered (r : response) : answer := Answer (rs_session r) (rs_ok r) (Some (response_text r)).

Definition response_item (r : response) : item (X := option (list lval)) (P := list Z) (O := answer) := Item
  (rs_session r) (response_bodies r)
  (λ j, if (length (response_bodies r) <=? j)%nat then None
        else Some (if (j =? 0)%nat then None else Some (LInt (Z.of_nat (length (rs_msg r))) :: map LStr (take (j - 1) (response_chunks r)))))
  [answered r].

Lemma response_whole threads body s (ok : bool) msg : lunpackresponse body = Ok (Some [LInt s; LBool ok; LStr msg]) → threads !! s = Some None →
  response_step threads body = Ok (delete s threads, [Answer s ok (Some msg)]).
Proof. intros E Hs. unfold response_step, dispatch_by_session. rewrite E, bind_ok. cbn [arg nth session_of truthy andb bytes_of]. rewrite Hs. by destruct ok. Qed.

Lemma response_more threads body s v result : lunpackresponse body = Ok (Some [LInt s; LBool true; v; LBool true]) → threads !! s = Some result →
  response_step threads body = Ok (<[s := Some (default [] result ++ [v])]> threads, []).
Proof. intros E Hs. unfold response_step, dispatch_by_session. rewrite E, bind_ok. cbn [arg nth session_of truthy andb]. by rewrite Hs. Qed.

Lemma response_last threads body s c l msg : lunpackresponse body = Ok (Some [LInt s; LBool true; LStr c]) → threads !! s = Some (Some l) →
  lconcat (l ++ [LStr c]) = Ok (Some msg) → response_step threads body = Ok (delete s threads, [Answer s true (Some msg)]).
Proof. intros E Hs Hc. unfold response_step, dispatch_by_session. rewrite E, bind_ok. cbn [arg nth session_of truthy andb]. by rewrite Hs, Hc, bind_ok. Qed.

Lemma response_concat r : in_parts r = true → concat (response_chunks r) = rs_msg r ∧ response_chunks r ≠ [] ∧ length (response_bodies r) = S (length (response_chunks r)).
Proof.
  intros Hp. assert (Hl : length (response_bodies r) = S (length (response_chunks r))) by (unfold response_bodies; rewrite Hp; cbn [length]; by rewrite length_map, typed_length).
  unfold in_parts in Hp. apply andb_true_iff in Hp as [_ Hp%Z.ltb_lt]. assert (Hne : rs_msg r ≠ []) by (intros E; rewrite E in Hp; cbn in Hp; sizes).
  assert (E : concat (response_chunks r) = rs_msg r) by (by apply split_concat). split; [done|]. split; [|done]. intros Ec. by rewrite Ec in E.
Qed.

Lemma response_lookup r j body : in_parts r = true → response_bodies r !! S j = Some body →
  ∃ c, response_chunks r !! j = Some c ∧ body = response_body (rs_session r) (if decide (S j = length (response_chunks r)) then 4 else 3) c.
Proof.
  intros Hp. unfold response_bodies. rewrite Hp. cbn [lookup list_lookup]. intros Hb.
  change (map (λ p, response_body (rs_session r) p.1 p.2) (typed 3 4 (response_chunks r)) !! j = Some body) in Hb.
  rewrite list_lookup_fmap, typed_lookup in Hb. destruct (response_chunks r !! j) as [c|]; [|done]. cbn in Hb. injection Hb as <-. by exists c.
Qed.

Lemma response_parts_moves r : response_ok r → in_parts r = true → moves response_step (response_item r).
Proof.
  intros (Hs & Hb & Hn) Hp. destruct (response_concat r Hp) as (Hcat & Hne & Hlen). assert (Hok : rs_ok r = true) by (unfold in_parts in Hp; by destruct (rs_ok r)).
  unfold moves. cbn [response_item it_packages it_partial it_key it_out]. set (s := rs_session r) in *. rewrite Nat.leb_refl. split; [done|]. intros m j body Hj Hm.
  pose proof (lookup_lt_Some _ _ _ Hj) as Hjl. rewrite Hlen in *. destruct (Nat.leb_spec (S (length (response_chunks r))) j) as [|_]; [lia|]. destruct j as [|j].
  - assert (Hpos : (0 < length (response_chunks r))%nat) by (destruct (response_chunks r); [done|cbn; lia]). rewrite decide_False by lia.
    destruct (Nat.leb_spec (S (length (response_chunks r))) 1); [lia|]. unfold response_bodies in Hj. rewrite Hp in Hj. injection Hj as <-. cbn in Hm.
    fold s. by rewrite (response_more m _ _ _ None (unpack_begin s (Z.of_nat (length (rs_msg r))) ltac:(lia) ltac:(lia)) Hm).
  - destruct (response_lookup r j body Hp Hj) as (c & Hc & ->). fold s. cbn [Nat.eqb] in *.
    assert (Et : map LStr (take (S j - 1) (response_chunks r)) ++ [LStr c] = map LStr (take (S (S j) - 1) (response_chunks r))).
    { replace (S j - 1)%nat with j by lia. replace (S (S j) - 1)%nat with (S j) by lia. by rewrite (take_S_r _ _ _ Hc), map_app. }
    destruct (decide (S j = length (response_chunks r))) as [Elast|Hmore].
    + rewrite decide_True by lia. destruct (Nat.leb_spec (S (length (response_chunks r))) (S (S j))); [|lia].
      rewrite (response_last m _ s c _ (rs_msg r) (unpack_response s 4 c ltac:(lia) ltac:(lia) ltac:(lia)) Hm).
      * unfold answered, response_text. by rewrite Hok.
      * cbn [app]. rewrite Et, take_ge by lia. rewrite (lconcat_lemma (response_chunks r)); [by rewrite Hcat|by rewrite Hcat|done].
    + rewrite decide_False by lia. destruct (Nat.leb_spec (S (length (response_chunks r))) (S (S j))); [lia|].
      rewrite (response_more m _ s _ _ (unpack_response s 3 c ltac:(lia) ltac:(lia) ltac:(lia)) Hm). rewrite <- Et. reflexivity.
Qed.

Lemma response_moves r : response_ok r → moves response_step (response_item r).
Proof.
  intros Hr. destruct (in_parts r) eqn:Hp; [by apply response_parts_moves|]. destruct Hr as (Hs & Hb & Hn).
  assert (El : response_bodies r = [response_body (rs_session r) (if rs_ok r then 1 else 0) (response_text r)]) by (unfold response_bodies; by rewrite Hp).
  unfold moves. cbn [response_item it_packages it_partial it_key it_out]. rewrite Nat.leb_refl. split; [done|]. intros m j body Hj Hm. rewrite El in *.
  destruct j as [|j]; [|done]. injection Hj as <-. cbn [length Nat.leb Nat.eqb] in *. rewrite decide_True by done.
  assert (E : lunpackresponse (response_body (rs_session r) (if rs_ok r then 1 else 0) (response_text r)) = Ok (Some [LInt (rs_session r); LBool (rs_ok r); LStr (response_text r)])).
  { pose proof (unpack_response (rs_session r) (if rs_ok r then 1 else 0) (response_text r) ltac:(lia) ltac:(destruct (rs_ok r); lia) ltac:(destruct (rs_ok r); lia)) as E. by destruct (rs_ok r). }
  by rewrite (response_whole m _ _ _ _ E Hm).
Qed.

Lemma response_sendable r : response_ok r → Forall sendable (response_bodies r).
Proof.
  intros (Hs & Hb & Hn). assert (Hbody : ∀ t tail, byte t → Forall byte tail → Z.of_nat (length tail) ≤ MULTI_PART → sendable (response_body (rs_session r) t tail)).
  { intros t tail Ht Htail Hl. split; [|rewrite response_length; sizes]. apply Forall_app. split; [apply word_bytes_byte|by constructor]. }
  unfold response_bodies. destruct (in_parts r) eqn:Hp.
  - constructor; [apply Hbody; [done|apply word_bytes_byte|rewrite word_bytes_length; sizes]|].
    apply Forall_map, Forall_lookup_2. intros j [ty c] Hj. rewrite typed_lookup in Hj. destruct (response_chunks r !! j) as [c'|] eqn:Hc; [|done]. cbn in Hj. injection Hj as <- <-. cbn [fst snd].
    apply Hbody; [unfold byte; by destruct (decide _)|exact (Forall_lookup_1 _ _ _ _ (split_bytes _ _ Hb) Hc)|exact (Forall_lookup_1 _ _ _ _ (split_sizes _ _) Hc)].
  - apply Forall_singleton, Hbody; unfold response_text.
    + unfold byte. by destruct (rs_ok r).
    + destruct (rs_ok r); [done|by apply Forall_take].
    + unfold in_parts in Hp. destruct (rs_ok r); [cbn [andb] in Hp; apply Z.ltb_ge in Hp; lia|]. rewrite length_take. sizes.
Qed.

(** ** Histories of responses *)

Fixpoint send_responses (rs : list response) : res (list (list (list Z))) :=
  match rs with
  | [] => Ok []
  | r :: rs => l ← send_response (rs_session r) (rs_ok r) (rs_msg r); ls ← send_responses rs; Ok (l :: ls)
  end.

Lemma send_responses_lemma rs : Forall response_ok rs → send_responses rs = Ok (map (λ r, map wire (response_bodies r)) rs).
Proof. induction 1 as [|r rs Hr _ IH]; [done|]. cbn [send_responses map]. by rewrite send_response_lemma, bind_ok, IH. Qed.

(** The channel waits for these sessions. *)
Definition waiting_for (rs : list response) : gmap Z (option (list lval)) := list_to_map (map (λ r, (rs_session r, None)) rs).

Lemma waiting_some rs r : NoDup (map rs_session rs) → r ∈ rs → waiting_for rs !! rs_session r = Some None.
Proof.
  intros Hnd Hr. apply elem_of_list_to_map_1; [by rewrite map_map|]. apply list_elem_of_fmap. by exists r.
Qed.

Lemma waiting_none rs k : (∀ r, r ∈ rs → rs_session r ≠ k) → waiting_for rs !! k = None.
Proof.
  intros Hk. apply not_elem_of_list_to_map_1. rewrite map_map. intros Hin. apply list_elem_of_fmap in Hin as (r & -> & Hr). by apply (Hk r).
Qed.

(** C17. Responses between nodes.  Whatever the sessions of a connection are answered with, an error
    or a message of any size below 2^31 bytes: packing succeeds and stays in its buffer; and
    whatever the order in which the packages of different responses are written, the byte stream
    falls apart into the packages, and the channel wakes the coroutine of every session exactly
    once, with the whole message (of an error the first 32K), and waits for no session at the
    end. *)
Theorem cluster_responses rs : Forall response_ok rs → NoDup (map rs_session rs) →
  ∃ packs, send_responses rs = Ok packs ∧
    ∀ stream, interleave packs stream → ∃ bodies outs, frames (concat stream) = (bodies, []) ∧
      receive response_step (waiting_for rs) bodies = Ok (∅, outs) ∧ outs ≡ₚ map answered rs.
Proof.
  intros Hok Hnd. eexists. split; [by apply send_responses_lemma|]. intros stream Hint.
  rewrite <- (map_map response_bodies (map wire)) in Hint. destruct (interleave_map wire _ _ Hint) as (bodies & Hb & ->).
  assert (Hsend : Forall sendable bodies).
  { apply (interleave_Forall _ _ _ Hb), Forall_map. eapply Forall_impl; [exact Hok|]. apply response_sendable. }
  destruct (receive_all response_step (map response_item rs) (waiting_for rs) bodies) as (outs & E & Hperm).
  - by rewrite map_map.
  - apply Forall_map. eapply Forall_impl; [exact Hok|]. apply response_moves.
  - intros i it i' it' Hne Hi Hi'. rewrite list_lookup_fmap in Hi, Hi'. destruct (rs !! i) as [a|] eqn:Ea, (rs !! i') as [b|] eqn:Eb; try done.
    cbn in Hi, Hi'. injection Hi as <-. injection Hi' as <-. left. cbn. intros Ek. apply Hne. eapply NoDup_lookup; [exact Hnd| |]; rewrite list_lookup_fmap.
    + by rewrite Ea.
    + rewrite Eb. cbn. by rewrite Ek.
  - intros it Hit. apply list_elem_of_fmap in Hit as (r & -> & Hr). cbn [response_item it_key it_partial]. rewrite (waiting_some rs r Hnd Hr).
    unfold response_bodies. by destruct (in_parts r).
  - intros k Hk. apply waiting_none. intros r Hr. apply (Hk (response_item r)). apply list_elem_of_fmap. by exists r.
  - apply Forall_map. eapply Forall_impl; [exact Hok|]. intros r _. cbn [response_item it_packages]. unfold response_bodies. by destruct (in_parts r).
  - exists bodies, outs. split; [by apply wire_frames|]. split; [done|]. rewrite Hperm, map_map. clear. induction rs as [|r l IH]; [done|]. cbn. by rewrite IH.
Qed.

Definition two_responses : list response := [Response 5 true (replicate (Z.to_nat 70000) 7); Response 6 false [110; 111]].

Lemma cluster_responses_witness : Forall response_ok two_responses ∧ NoDup (map rs_session two_responses) ∧
  ∃ packs, send_responses two_responses = Ok packs ∧
    ∀ stream, interleave packs stream → ∃ bodies outs, frames (concat stream) = (bodies, []) ∧
      receive response_step (waiting_for two_responses) bodies = Ok (∅, outs) ∧ outs ≡ₚ map answered two_responses.
Proof.
  assert (Hok : Forall response_ok two_responses).
  { apply Forall_cons. split; [|apply Forall_cons; split; [|constructor]]; (split; [|split]); cbn [rs_session rs_msg length].
    - lia.
    - by apply Forall_replicate.
    - rewrite length_replicate. lia.
    - lia.
    - by repeat constructor.
    - lia. }
  assert (Hnd : NoDup (map rs_session two_responses)) by (cbn [two_responses map rs_session]; apply (bool_decide_eq_true_1 (NoDup [5; 6])); reflexivity).
  split; [exact Hok|]. split; [exact Hnd|]. exact (cluster_responses two_responses Hok Hnd).
Defined.
