(* ===== verification/SprotoPack.v ===== *)
(** [lualib-src/sproto/sproto.c], zero packing: [sproto_pack] and [sproto_unpack].

    Eight bytes become a tag, with a bit for every byte that is not zero, and those bytes;
    a run of words with few zeros becomes 0xff, the number of words less one, and the words
    as they are.  A pointer is a block of memory and an offset; a buffer that is too small
    is written as far as it goes, and the size of the whole result is returned.  Sizes and
    counters are [int]s, and one that overflows is a fault. *)

From S2P Require Import Prelude Frames.
Open Scope Z_scope.

(** A pointer into a block of bytes. *)
Definition bptr : Set := list Z * Z.

Definition bget (p : bptr) (i : Z) : res Z := rd p.1 (p.2 + i).
Definition badd (p : bptr) (n : Z) : bptr := (p.1, p.2 + n).

(** ** Packing *)

(** The loop of [pack_seg]: the tag, the number of bytes that are not zero, the place for
    the next one and the room for it. *)
Record seg_state : Set := SegState {
  sg_header : Z;
  sg_notzero : Z;
  sg_buf : buffer;
  sg_pos : Z;
  sg_sz : Z
}.

Definition seg_step (src : bptr) (i : Z) (s : seg_state) : res seg_state :=
  c ← bget src i;
  if negb (c =? 0) then
    let header := u8 (Z.lor (sg_header s) (Z.shiftl 1 i)) in
    if sg_sz s >? 0 then
      buf ← wr (sg_buf s) (sg_pos s) (Some c);
      Ok (SegState header (sg_notzero s + 1) buf (sg_pos s + 1) (sg_sz s - 1))
    else Ok (SegState header (sg_notzero s + 1) (sg_buf s) (sg_pos s) (sg_sz s))
  else Ok s.

Definition pack_seg (src : bptr) (buf : buffer) (pos sz n : Z) : res (Z * buffer) :=
  sz ← int_chk (sz - 1);
  let fits := negb (sz <? 0) in
  s ← for_range 8 0 (seg_step src) (SegState 0 0 buf (pos + 1) sz);
  let notzero := if ((sg_notzero s =? 7) || (sg_notzero s =? 6)) && (n >? 0) then 8 else sg_notzero s in
  if notzero =? 8 then Ok (if n >? 0 then 8 else 10, sg_buf s)
  else
    buf ← (if fits then wr (sg_buf s) pos (Some (sg_header s)) else Ok (sg_buf s));
    Ok (notzero + 1, buf).

Definition write_ff (src : bptr) (buf : buffer) (des n : Z) : res buffer :=
  let align8_n := Z.land (n + 7) (Z.lnot 7) in
  buf ← wr buf des (Some 0xff);
  buf ← wr buf (des + 1) (Some (u8 (align8_n / 8 - 1)));
  l ← rd_at src.1 src.2 n;
  buf ← wr_at buf (des + 2) l;
  wr_at buf (n + 2 + des) (replicate (Z.to_nat (align8_n - n)) 0).

Record pack_state : Set := PackState {
  pk_src : bptr;
  pk_buf : buffer;
  pk_pos : Z;
  pk_bufsz : Z;
  pk_ffsrc : option bptr;
  pk_ffdes : Z;
  pk_ffn : Z;
  pk_size : Z
}.

(** [write_ff] from the start of the run, when there is room for it. *)
Definition flush_ff (s : pack_state) (bufsz n : Z) (buf : buffer) : res buffer :=
  if bufsz >=? 0 then
    src ← or_fault BadPointer (pk_ffsrc s); write_ff src buf (pk_ffdes s) n
  else Ok buf.

(** The last, incomplete word is copied to [tmp] and filled up with zeros. *)
Definition pad_src (src : bptr) (padding : Z) : res bptr :=
  if padding >? 0 then
    l ← rd_at src.1 src.2 (8 - padding);
    Ok (l ++ replicate (Z.to_nat padding) 0, 0)
  else Ok src.

Definition pack_round (srcsz i : Z) (s : pack_state) : res pack_state :=
  i8 ← int_chk (i + 8);
  padding ← int_chk (i8 - srcsz);
  src ← pad_src (pk_src s) padding;
  '(n, buf) ← pack_seg src (pk_buf s) (pk_pos s) (pk_bufsz s) (pk_ffn s);
  bufsz ← int_chk (pk_bufsz s - n);
  '(buf, ffsrc, ffdes, ffn) ←
    (if n =? 10 then Ok (buf, Some src, pk_pos s, 1)
     else if (n =? 8) && (pk_ffn s >? 0) then
       let ff_n := pk_ffn s + 1 in
       if ff_n =? 256 then
         buf ← flush_ff s bufsz (256 * 8) buf; Ok (buf, pk_ffsrc s, pk_ffdes s, 0)
       else Ok (buf, pk_ffsrc s, pk_ffdes s, ff_n)
     else if pk_ffn s >? 0 then
       buf ← flush_ff s bufsz (pk_ffn s * 8) buf; Ok (buf, pk_ffsrc s, pk_ffdes s, 0)
     else Ok (buf, pk_ffsrc s, pk_ffdes s, 0));
  size ← int_chk (pk_size s + n);
  Ok (PackState (badd src 8) buf (pk_pos s + n) bufsz ffsrc ffdes ffn size).

Definition pack_step (srcsz : Z) (st : Z * pack_state) : res (loop (Z * pack_state) pack_state) :=
  let '(i, s) := st in
  if i <? srcsz then s ← pack_round srcsz i s; i ← int_chk (i + 8); Ok (Continue (i, s)) else Ok (Break s).

(** [src] and [srcsz], [buf] and [bufsz]: the packed size and the buffer. *)
Definition sproto_pack (src : list Z) (srcsz : Z) (buf : buffer) (bufsz : Z) : res (Z * buffer) :=
  s ← iterate (S (S (Z.to_nat (srcsz / 8)))) (pack_step srcsz)
        (0, PackState (src, 0) buf 0 bufsz None 0 0 0);
  buf ← (if pk_ffn s =? 1 then flush_ff s (pk_bufsz s) 8 (pk_buf s)
         else if pk_ffn s >? 1 then
           flush_ff s (pk_bufsz s) (srcsz - from_option snd 0 (pk_ffsrc s)) (pk_buf s)
         else Ok (pk_buf s));
  Ok (pk_size s, buf).

(** ** Unpacking *)

Record unpack_state : Set := UnpackState {
  up_src : Z;
  up_srcsz : Z;
  up_buf : buffer;
  up_pos : Z;
  up_bufsz : Z;
  up_size : Z
}.

(** A byte to the buffer, read and written only if there is room. *)
Definition out_byte (byte : res Z) (s : unpack_state) : res (buffer * Z * Z) :=
  if up_bufsz s >? 0 then
    c ← byte;
    buf ← wr (up_buf s) (up_pos s) (Some c); Ok (buf, up_pos s + 1, up_bufsz s - 1)
  else Ok (up_buf s, up_pos s, up_bufsz s).

(** One bit of a tag; [None] when the input has ended. *)
Definition unpack_bit (src : list Z) (header i : Z) (o : option unpack_state) : res (option unpack_state) :=
  match o with
  | None => Ok None
  | Some s =>
      if Z.testbit header i then
        if up_srcsz s <? 0 then Ok None
        else
          '(buf, pos, bufsz) ← out_byte (rd src (up_src s)) s;
          size ← int_chk (up_size s + 1);
          Ok (Some (UnpackState (up_src s + 1) (up_srcsz s - 1) buf pos bufsz size))
      else
        '(buf, pos, bufsz) ← out_byte (Ok 0) s;
        size ← int_chk (up_size s + 1);
        Ok (Some (UnpackState (up_src s) (up_srcsz s) buf pos bufsz size))
  end.

(** A run behind 0xff. *)
Definition unpack_ff (src : list Z) (s : unpack_state) : res (option unpack_state) :=
  if up_srcsz s <? 0 then Ok None
  else
    c ← rd src (up_src s);
    let n := (c + 1) * 8 in
    if up_srcsz s <? n + 1 then Ok None
    else
      buf ← (if up_bufsz s >=? n then
               l ← rd_at src (up_src s + 1) n; wr_at (up_buf s) (up_pos s) l
             else Ok (up_buf s));
      bufsz ← int_chk (up_bufsz s - n);
      size ← int_chk (up_size s + n);
      Ok (Some (UnpackState (up_src s + 1 + n) (up_srcsz s - (n + 1)) buf (up_pos s + n) bufsz size)).

Definition unpack_round (src : list Z) (s : unpack_state) : res (loop unpack_state (Z * buffer)) :=
  if up_srcsz s >? 0 then
    header ← rd src (up_src s);
    let s1 := UnpackState (up_src s + 1) (up_srcsz s - 1) (up_buf s) (up_pos s) (up_bufsz s) (up_size s) in
    o ← (if header =? 0xff then unpack_ff src s1
         else for_range 8 0 (unpack_bit src header) (Some s1));
    match o with
    | None => Ok (Break (-1, up_buf s))
    | Some s => Ok (Continue s)
    end
  else Ok (Break (up_size s, up_buf s)).

(** The unpacked size, or -1; the buffer after a failure is not looked at. *)
Definition sproto_unpack (src : list Z) (srcsz : Z) (buf : buffer) (bufsz : Z) : res (Z * buffer) :=
  iterate (S (Z.to_nat srcsz)) (unpack_round src) (UnpackState 0 srcsz buf 0 bufsz 0).
