(* ===== verification/SprotoPackProps.v ===== *)
(** Zero packing is correct: packing gives the reference encoding in any buffer that is
    large enough, and unpacking inverts it. *)

From S2P Require Import Prelude Frames SprotoPack.
Open Scope Z_scope.

(** ** The reference encoding *)

Definition word : Set := list Z.

(** The input in words of eight bytes, the last one filled up with zeros. *)
Fixpoint words_ (fuel : nat) (s : list Z) : list word :=
  match fuel, s with
  | O, _ | _, [] => []
  | S fuel, s => take 8 (s ++ replicate 7 0) :: words_ fuel (drop 8 s)
  end.

Definition words (s : list Z) : list word := words_ (length s) s.

Definition nonzero (w : list Z) : list Z := filter (λ c, c ≠ 0) w.

(** Bit [i] of the tag is set when byte [i] is not zero. *)
Fixpoint tag (w : word) : Z :=
  match w with
  | [] => 0
  | c :: w => (if c =? 0 then 0 else 1) + 2 * tag w
  end.

Inductive item : Set :=
| Word (w : word)
| Run (ws : list word).

Definition enc_item (x : item) : list Z :=
  match x with
  | Word w => tag w :: nonzero w
  | Run ws => 0xff :: (Z.of_nat (length ws) - 1) :: concat ws
  end.

Definition enc (l : list item) : list Z := concat (map enc_item l).

(** A word without zeros starts a run; words with at most two zeros continue it, up to 256
    words. *)
Definition group_step (st : list item * list word) (w : word) : list item * list word :=
  let '(items, run) := st in
  match run with
  | [] => if (length (nonzero w) =? 8)%nat then (items, [w]) else (items ++ [Word w], [])
  | _ =>
      if (6 <=? length (nonzero w))%nat then
        if (length run =? 255)%nat then (items ++ [Run (run ++ [w])], []) else (items, run ++ [w])
      else (items ++ [Run run; Word w], [])
  end.

Definition group_end (st : list item * list word) : list item :=
  st.1 ++ match st.2 with [] => [] | run => [Run run] end.

Definition groups (ws : list word) : list item := group_end (foldl group_step ([], []) ws).

Definition packed (s : list Z) : list Z := enc (groups (words s)).

(** ** Buffers *)

Definition splice (buf : buffer) (i : nat) (l : list Z) : buffer :=
  take i buf ++ map Some l ++ drop (i + length l) buf.

Lemma splice_length buf i l : (i + length l ≤ length buf)%nat → length (splice buf i l) = length buf.
Proof. intros H. unfold splice. rewrite !length_app, length_map, length_take, length_drop. lia. Qed.

Lemma splice_app buf i l1 l2 : (i + length l1 + length l2 ≤ length buf)%nat →
  splice (splice buf i l1) (i + length l1) l2 = splice buf i (l1 ++ l2).
Proof.
  intros H. unfold splice.
  assert (Hti : length (take i buf) = i) by (rewrite length_take; lia).
  rewrite map_app, length_app.
  rewrite (assoc_L (++) (take i buf)). rewrite take_app_le by (rewrite length_app, length_map; lia).
  rewrite take_ge by (rewrite length_app, length_map; lia).
  rewrite drop_app_ge by (rewrite length_app, length_map; lia).
  rewrite length_app, length_map, Hti, drop_drop, <- !(assoc_L (++)). do 3 f_equal. f_equal. lia.
Qed.

Lemma wr_at_splice l : ∀ buf i, (i + length l ≤ length buf)%nat →
  wr_at buf (Z.of_nat i) l = Ok (splice buf i l).
Proof.
  induction l as [|x l IH]; intros buf i H; cbn [wr_at length] in *.
  - unfold splice. cbn. rewrite Nat.add_0_r, take_drop. done.
  - rewrite wr_ok, bind_ok, Nat2Z.id by lia.
    replace (Z.of_nat i + 1) with (Z.of_nat (i + 1)) by lia.
    assert (E : <[i:=Some x]> buf = splice buf i [x]).
    { unfold splice. cbn [map length app]. rewrite insert_take_drop by lia. by replace (i + 1)%nat with (S i) by lia. }
    rewrite E, IH by (rewrite splice_length by (cbn [length]; lia); lia).
    change (i + 1)%nat with (i + length [x])%nat. rewrite splice_app by (cbn [length]; lia). done.
Qed.

Lemma wr_splice buf i x : (i < length buf)%nat → wr buf (Z.of_nat i) (Some x) = Ok (splice buf i [x]).
Proof.
  intros H. pose proof (wr_at_splice [x] buf i) as E. cbn [wr_at length] in E. specialize (E ltac:(lia)).
  destruct (wr buf (Z.of_nat i) (Some x)); [|done]. by rewrite bind_ok in E.
Qed.

(** [l] is at the front of a buffer. *)
Definition starts (buf : buffer) (l : list Z) : Prop := take (length l) buf = map Some l.

Lemma starts_nil buf : starts buf [].
Proof. done. Qed.

Lemma starts_take buf buf' l n : starts buf l → take n buf' = take n buf → (length l ≤ n)%nat → starts buf' l.
Proof.
  unfold starts. intros Hs Ht Hn. apply (f_equal (take (length l))) in Ht.
  rewrite !take_take, Nat.min_l in Ht by lia. congruence.
Qed.

Lemma starts_app buf l1 l2 : starts buf (l1 ++ l2) ↔
  starts buf l1 ∧ take (length l2) (drop (length l1) buf) = map Some l2.
Proof.
  unfold starts. rewrite length_app, map_app. split.
  - intros E. pose proof (f_equal (take (length l1)) E) as E1. pose proof (f_equal (drop (length l1)) E) as E2.
    rewrite take_take, Nat.min_l, take_app_le, (take_ge (map Some l1)) in E1 by (rewrite ?length_map; lia).
    rewrite drop_app_ge, length_map, Nat.sub_diag, drop_0 in E2 by (rewrite length_map; lia).
    split; [done|]. by rewrite take_drop_commute.
  - intros [E1 E2]. rewrite <- E1, <- E2. rewrite take_take_drop. done.
Qed.

Lemma starts_splice buf l1 l2 : starts buf l1 → (length l1 + length l2 ≤ length buf)%nat →
  starts (splice buf (length l1) l2) (l1 ++ l2).
Proof.
  intros Hs Hl. apply starts_app. unfold splice. split.
  - unfold starts. rewrite take_app_le by (rewrite length_take; lia). by rewrite take_take, Nat.min_id.
  - rewrite drop_app_ge by (rewrite length_take; lia).
    rewrite length_take, Nat.min_l, Nat.sub_diag, drop_0, take_app_le, (take_ge (map Some l2)) by (rewrite ?length_map; lia). done.
Qed.

Lemma take_splice buf i l n : (n ≤ i)%nat → (i ≤ length buf)%nat → take n (splice buf i l) = take n buf.
Proof.
  intros Hn Hi. unfold splice. rewrite take_app_le by (rewrite length_take; lia).
  by rewrite take_take, Nat.min_l by lia.
Qed.

(** A byte in front of what has been written. *)
Lemma splice_cons buf i x l : (i + 1 + length l ≤ length buf)%nat →
  splice (splice buf (i + 1) l) i [x] = splice buf i (x :: l).
Proof.
  intros H. unfold splice at 1. rewrite take_splice by lia. unfold splice. cbn [map length app]. do 3 f_equal.
  rewrite drop_app_ge by (rewrite length_take; lia). rewrite length_take, Nat.min_l by lia.
  replace (i + 1 - (i + 1))%nat with 0%nat by lia. rewrite drop_0. do 2 f_equal. lia.
Qed.

(** ** Words *)

Lemma nonzero_app w1 w2 : nonzero (w1 ++ w2) = nonzero w1 ++ nonzero w2.
Proof. apply filter_app. Qed.

Lemma nonzero_single c : nonzero [c] = if c =? 0 then [] else [c].
Proof.
  unfold nonzero. destruct (Z.eqb_spec c 0) as [->|Hc]; [done|].
  rewrite filter_cons_True by done. done.
Qed.

Lemma tag_snoc w c : tag (w ++ [c]) = tag w + (if c =? 0 then 0 else 2 ^ Z.of_nat (length w)).
Proof.
  induction w as [|x w IH]; cbn [app tag length]; [destruct (c =? 0); reflexivity|].
  rewrite IH, Nat2Z.inj_succ, Z.pow_succ_r by lia. destruct (c =? 0); lia.
Qed.

Lemma tag_range w : 0 ≤ tag w < 2 ^ Z.of_nat (length w).
Proof.
  induction w as [|x w IH]; cbn [tag length]; [lia|]. rewrite Nat2Z.inj_succ, Z.pow_succ_r by lia.
  destruct (x =? 0); lia.
Qed.

(** The pointer [src] points to the bytes of [w]. *)
Definition points_to (src : bptr) (w : word) : Prop :=
  0 ≤ src.2 ∧ length w = 8%nat ∧ take 8 (drop (Z.to_nat src.2) src.1) = w.

Lemma bget_word src w i : points_to src w → 0 ≤ i < 8 →
  ∃ c, w !! Z.to_nat i = Some c ∧ bget src i = Ok c ∧ take (S (Z.to_nat i)) w = take (Z.to_nat i) w ++ [c].
Proof.
  intros (H0 & Hl & Hw) Hi. destruct (lookup_lt_is_Some_2 w (Z.to_nat i)) as [c Hc]; [lia|].
  exists c. split; [done|]. split; [|by apply take_S_r]. unfold bget. apply rd_ok; [lia|].
  rewrite <- Hw, lookup_take_lt, lookup_drop in Hc by lia.
  by replace (Z.to_nat (src.2 + i)) with (Z.to_nat src.2 + Z.to_nat i)%nat by lia.
Qed.

(** ** One word *)

(** After [i] bytes: the bytes that are not zero stand behind the place of the tag, as long
    as there is room. *)
Record seg_inv (buf : buffer) (pos : nat) (w : word) (i : Z) (s : seg_state) : Prop := {
  si_header : sg_header s = tag (take (Z.to_nat i) w);
  si_notzero : sg_notzero s = Z.of_nat (length (nonzero (take (Z.to_nat i) w)));
  si_room : sg_sz s = Z.of_nat (length buf) - sg_pos s;
  si_len : length (sg_buf s) = length buf;
  si_pos : Z.of_nat pos + 1 ≤ sg_pos s;
  si_keep : take pos (sg_buf s) = take pos buf;
  si_fits : (pos + 1 + length (nonzero (take (Z.to_nat i) w)) ≤ length buf)%nat →
    sg_pos s = Z.of_nat (pos + 1 + length (nonzero (take (Z.to_nat i) w))) ∧
    sg_buf s = splice buf (pos + 1) (nonzero (take (Z.to_nat i) w))
}.

Lemma splice_nil buf i : splice buf i [] = buf.
Proof. unfold splice. cbn [map app length]. by rewrite Nat.add_0_r, take_drop. Qed.

Lemma seg_inv_start buf pos w :
  seg_inv buf pos w 0 (SegState 0 0 buf (Z.of_nat pos + 1) (Z.of_nat (length buf) - Z.of_nat pos - 1)).
Proof.
  assert (E : nonzero (take (Z.to_nat 0) w) = []) by done.
  split; rewrite ?E; cbn [sg_header sg_notzero sg_buf sg_pos sg_sz length]; try done; try lia.
  intros Hfit. split; [lia|]. by rewrite splice_nil.
Qed.

Lemma seg_step_lemma buf pos w src i s : points_to src w → 0 ≤ i < 8 → seg_inv buf pos w i s →
  ∃ s', seg_step src i s = Ok s' ∧ seg_inv buf pos w (i + 1) s'.
Proof.
  intros Hsrc Hi [Hh Hn Hr Hl Hp Hk Hf]. destruct (bget_word src w i Hsrc Hi) as (c & Hc & Hg & Ht).
  assert (Hlt : length (take (Z.to_nat i) w) = Z.to_nat i) by (rewrite length_take; destruct Hsrc as (_ & -> & _); lia).
  unfold seg_step. rewrite Hg, bind_ok.
  assert (Ei : Z.to_nat (i + 1) = S (Z.to_nat i)) by lia.
  assert (Htag : tag (take (Z.to_nat (i + 1)) w) = tag (take (Z.to_nat i) w) + (if c =? 0 then 0 else 2 ^ i)).
  { rewrite Ei, Ht, tag_snoc, Hlt, Z2Nat.id by lia. done. }
  assert (Hnz : nonzero (take (Z.to_nat (i + 1)) w) = nonzero (take (Z.to_nat i) w) ++ (if c =? 0 then [] else [c])).
  { by rewrite Ei, Ht, nonzero_app, nonzero_single. }
  destruct (Z.eqb_spec c 0) as [->|Hne]; cbn [negb].
  { exists s. split; [done|]. rewrite app_nil_r in Hnz. split; rewrite ?Hnz, ?Htag; try done. lia. }
  assert (Hhdr : u8 (Z.lor (sg_header s) (Z.shiftl 1 i)) = tag (take (Z.to_nat (i + 1)) w)).
  { rewrite Hh, Htag. pose proof (tag_range (take (Z.to_nat i) w)) as Htr. rewrite Hlt, Z2Nat.id in Htr by lia.
    rewrite lor_shiftl by lia. unfold u8. rewrite Z.mod_small; [lia|].
    assert (2 ^ i * 2 ≤ 2 ^ 8) by (rewrite Z.mul_comm, <- Z.pow_succ_r by lia; apply Z.pow_le_mono_r; lia). lia. }
  cbv zeta. rewrite Hhdr.
  assert (Hn' : sg_notzero s + 1 = Z.of_nat (length (nonzero (take (Z.to_nat (i + 1)) w))))
    by (rewrite Hnz, length_app, Hn; cbn [length]; lia).
  destruct (Z.gtb_spec (sg_sz s) 0) as [Hroom|Hfull].
  - assert (Ewr : wr (sg_buf s) (sg_pos s) (Some c) = Ok (splice (sg_buf s) (Z.to_nat (sg_pos s)) [c])).
    { rewrite <- wr_splice by lia. by rewrite Z2Nat.id by lia. }
    rewrite Ewr, bind_ok.
    eexists. split; [done|]. split; cbn; try done; try lia.
    + rewrite splice_length; [done|]. cbn [length]. lia.
    + rewrite take_splice by lia. done.
    + rewrite Hnz, length_app. cbn [length]. intros Hfit. destruct Hf as [Ep Eb]; [lia|].
      split; [lia|]. rewrite Ep, Nat2Z.id, Eb. rewrite splice_app by (cbn [length]; lia). done.
  - eexists. split; [done|]. split; cbn; try done.
    rewrite Hnz, length_app. cbn [length]. intros Hfit. destruct Hf as [Ep Eb]; [lia|]. lia.
Qed.

(** Whether a word goes into a run of [n] words. *)
Definition in_run (w : word) (n : Z) : bool :=
  (length (nonzero w) =? 8)%nat || ((6 <=? length (nonzero w))%nat && (n >? 0)).

Lemma nonzero_length w : (length (nonzero w) ≤ length w)%nat.
Proof. apply length_filter. Qed.

Lemma pack_seg_lemma src w buf pos n : points_to src w → INT_MIN < Z.of_nat (length buf) - Z.of_nat pos ≤ INT_MAX →
  ∃ buf', pack_seg src buf (Z.of_nat pos) (Z.of_nat (length buf) - Z.of_nat pos) n =
      Ok (if in_run w n then if n >? 0 then 8 else 10 else Z.of_nat (length (nonzero w)) + 1, buf') ∧
    length buf' = length buf ∧ take pos buf' = take pos buf ∧
    (in_run w n = false → (pos + 1 + length (nonzero w) ≤ length buf)%nat →
     buf' = splice buf pos (tag w :: nonzero w)).
Proof.
  intros Hsrc Hint. pose proof Hsrc as (_ & Hl & _).
  set (s0 := SegState 0 0 buf (Z.of_nat pos + 1) (Z.of_nat (length buf) - Z.of_nat pos - 1)).
  destruct (for_range_inv (λ i s, seg_inv buf pos w i s) 8 0 (seg_step src) s0) as (s & Erun & [Hh Hn Hr Hlen Hp Hk Hf]).
  { by apply seg_inv_start. }
  { intros j t Hj Hinv. by apply seg_step_lemma. }
  rewrite take_ge in Hh, Hn, Hf by (rewrite Hl; done).
  unfold pack_seg. rewrite int_chk_ok, bind_ok by lia. fold s0. rewrite Erun, bind_ok. cbv zeta. rewrite Hn, Hh.
  pose proof (nonzero_length w) as Hnl. rewrite Hl in Hnl. set (k := length (nonzero w)) in *.
  assert (Enz : ((if ((Z.of_nat k =? 7) || (Z.of_nat k =? 6)) && (n >? 0) then 8 else Z.of_nat k) =? 8) = in_run w n).
  { unfold in_run. fold k. destruct (Z.eqb_spec (Z.of_nat k) 7), (Z.eqb_spec (Z.of_nat k) 6), (n >? 0),
      (Nat.eqb_spec k 8), (Nat.leb_spec 6 k), (Z.eqb_spec (Z.of_nat k) 8); cbn; lia || done. }
  rewrite Enz. destruct (in_run w n) eqn:Ein.
  { eexists. split; [done|]. done. }
  assert (Ek : (if ((Z.of_nat k =? 7) || (Z.of_nat k =? 6)) && (n >? 0) then 8 else Z.of_nat k) = Z.of_nat k).
  { destruct (((Z.of_nat k =? 7) || (Z.of_nat k =? 6)) && (n >? 0)); [by apply Z.eqb_neq in Enz|done]. }
  rewrite Ek. destruct (Z.ltb_spec (Z.of_nat (length buf) - Z.of_nat pos - 1) 0) as [Hno|Hyes]; cbn [negb].
  - eexists. split; [done|]. split; [done|]. split; [done|]. intros _ Hfit. lia.
  - rewrite wr_splice, bind_ok by lia. eexists. split; [done|].
    rewrite splice_length by (cbn [length]; lia). split; [done|]. rewrite take_splice by lia. split; [done|].
    intros _ Hfit. destruct Hf as [_ ->]; [lia|]. by rewrite splice_cons by lia.
Qed.
