(* ===== verification/SprotoPacking.v ===== *)
(** [sproto_pack] gives the reference encoding of [SprotoPackProps] in every buffer that is
    large enough, and the size of it in every other. *)

From S2P Require Import Prelude Frames SprotoPack SprotoPackProps.
Open Scope Z_scope.

(** ** The words of the input *)

Lemma words_fuel f : ∀ f' s, (length s ≤ f)%nat → (length s ≤ f')%nat → words_ f s = words_ f' s.
Proof.
  induction f as [|f IH]; intros [|f'] [|c s] H H'; cbn [length words_] in *; try done; try lia.
  f_equal. apply IH; rewrite length_drop; cbn [length]; lia.
Qed.

Lemma words_cons s : s ≠ [] → words s = take 8 (s ++ replicate 7 0) :: words (drop 8 s).
Proof.
  destruct s as [|c s]; [done|]. intros _. unfold words at 1. cbn [length words_]. f_equal.
  apply words_fuel; rewrite length_drop; cbn [length]; lia.
Qed.

Lemma words_lookup k : ∀ s, words s !! k =
  if (8 * k <? length s)%nat then Some (take 8 (drop (8 * k) s ++ replicate 7 0)) else None.
Proof.
  induction k as [|k IH]; intros s; (destruct (decide (s = [])) as [->|Hs]; [done|]); rewrite (words_cons s Hs).
  - cbn [lookup list_lookup]. rewrite Nat.mul_0_r, drop_0.
    destruct s; [done|]. done.
  - cbn [lookup list_lookup]. rewrite IH, drop_drop, length_drop.
    replace (8 + 8 * k)%nat with (8 * S k)%nat by lia.
    destruct (Nat.ltb_spec (8 * k) (length s - 8)), (Nat.ltb_spec (8 * S k) (length s)); lia || done.
Qed.

Lemma words_length s : length (words s) = ((length s + 7) / 8)%nat.
Proof.
  assert (H : ∀ k, (k < length (words s) ↔ 8 * k < length s)%nat).
  { intros k. rewrite <- lookup_lt_is_Some, words_lookup.
    destruct (Nat.ltb_spec (8 * k) (length s)); split; intros; [done|by eexists|by destruct H0|lia]. }
  pose proof (H (length (words s))). pose proof (H (length (words s) - 1)%nat).
  pose proof (Nat.div_mod (length s + 7) 8 ltac:(lia)). pose proof (Nat.mod_upper_bound (length s + 7) 8 ltac:(lia)). lia.
Qed.

Lemma word_length s k w : words s !! k = Some w → length w = 8%nat.
Proof.
  rewrite words_lookup. destruct (Nat.ltb_spec (8 * k) (length s)); [|done]. intros [= <-].
  rewrite length_take, length_app, length_drop. cbn [replicate length]. lia.
Qed.

(** The bytes of the words, the zeros at the end included. *)
Definition padded (s : list Z) : list Z := s ++ replicate (8 * length (words s) - length s) 0.

Lemma words_nil : words [] = [].
Proof. done. Qed.

Lemma concat_words n : ∀ s, (length s ≤ n)%nat → concat (words s) = padded s.
Proof.
  induction n as [|n IH]; intros s Hn; (destruct (decide (s = [])) as [->|Hs]; [done|]).
  { destruct s; [done|cbn in Hn; lia]. }
  assert (0 < length s)%nat by (destruct s; [done|cbn; lia]).
  unfold padded. rewrite (words_cons s Hs). cbn [concat length].
  destruct (Nat.leb_spec 8 (length s)) as [Hl|Hl].
  - rewrite IH by (rewrite length_drop; lia). unfold padded. rewrite take_app_le by done.
    rewrite (assoc_L (++)), take_drop, length_drop. do 2 f_equal. lia.
  - rewrite (drop_ge s) by lia. rewrite words_nil. cbn [concat length]. rewrite app_nil_r.
    rewrite take_app_ge by lia. rewrite take_replicate. do 2 f_equal. lia.
Qed.

Lemma words_len8 s : Forall (λ w, length w = 8%nat) (words s).
Proof. apply Forall_lookup. intros k w Hw. by eapply word_length. Qed.

Lemma concat_take8 ws : Forall (λ w : word, length w = 8%nat) ws → ∀ k, concat (take k ws) = take (8 * k) (concat ws).
Proof.
  induction 1 as [|w ws Hw Hws IH]; intros [|k]; [done..|]. cbn [take concat].
  rewrite take_app_ge by lia. rewrite IH, Hw. do 2 f_equal. lia.
Qed.

Lemma concat_drop8 ws : Forall (λ w : word, length w = 8%nat) ws → ∀ k, concat (drop k ws) = drop (8 * k) (concat ws).
Proof.
  induction 1 as [|w ws Hw Hws IH]; intros [|k]; [done..|by rewrite drop_nil|done|]. cbn [drop concat].
  rewrite drop_app_ge by lia. rewrite IH, Hw. f_equal. lia.
Qed.

Lemma length_concat8 ws : Forall (λ w : word, length w = 8%nat) ws → length (concat ws) = (8 * length ws)%nat.
Proof. induction 1 as [|w ws Hw Hws IH]; [done|]. cbn [concat length]. rewrite length_app, IH. lia. Qed.

(** The words [j] to [j + r] from their bytes in the input, of which the last may be missing. *)
Lemma run_bytes s j r n : (j + r ≤ length (words s))%nat → (n ≤ 8 * r)%nat → (8 * j + n ≤ length s)%nat →
  n = (8 * r)%nat ∨ (8 * j + n = length s)%nat →
  concat (take r (drop j (words s))) = take n (drop (8 * j) s) ++ replicate (8 * r - n) 0.
Proof.
  intros Hj Hn Hs Hend. rewrite concat_take8 by (apply Forall_drop, words_len8).
  rewrite concat_drop8 by apply words_len8. rewrite (concat_words (length s) s) by lia.
  unfold padded. rewrite drop_app_le by lia. destruct Hend as [->|Hend].
  - rewrite take_app_le by (rewrite length_drop; lia). by rewrite Nat.sub_diag, app_nil_r.
  - rewrite take_app_ge by (rewrite length_drop; lia). rewrite take_replicate, length_drop.
    rewrite (take_ge (drop _ _)) by (rewrite length_drop; lia). do 2 f_equal. lia.
Qed.

(** ** Writing a run *)

Lemma align8 n r : 8 * (r - 1) < n ≤ 8 * r → Z.land (n + 7) (Z.lnot 7) = 8 * r.
Proof.
  intros H. change (Z.land (n + 7) (Z.lnot 7)) with (Z.land (n + 7) (Z.lnot (Z.ones 3))).
  rewrite <- Z.ldiff_land, Z.ldiff_ones_r, Z.shiftl_mul_pow2, Z.shiftr_div_pow2 by lia.
  change (2 ^ 3) with 8. assert ((n + 7) / 8 = r) by (symmetry; apply (Z.div_unique _ _ _ (n + 7 - 8 * r)); lia). lia.
Qed.

Lemma write_ff_lemma s off buf des n r : (off + n ≤ length s)%nat → (8 * (r - 1) < n ≤ 8 * r)%nat → (r ≤ 256)%nat →
  (des + 2 + 8 * r ≤ length buf)%nat →
  write_ff (s, Z.of_nat off) buf (Z.of_nat des) (Z.of_nat n) =
    Ok (splice buf des (0xff :: (Z.of_nat r - 1) :: take n (drop off s) ++ replicate (8 * r - n) 0)).
Proof.
  intros Hs Hn Hr Hbuf. unfold write_ff. rewrite (align8 _ (Z.of_nat r)) by lia. cbn [fst snd].
  assert (Hlt : length (take n (drop off s)) = n) by (rewrite length_take, length_drop; lia).
  rewrite wr_splice, bind_ok by lia.
  replace (Z.of_nat des + 1) with (Z.of_nat (des + length [0xff])) by (cbn [length]; lia).
  replace (u8 (8 * Z.of_nat r / 8 - 1)) with (Z.of_nat r - 1)
    by (rewrite Z.mul_comm, Z.div_mul by lia; unfold u8; rewrite Z.mod_small; lia).
  rewrite wr_splice, bind_ok by (rewrite splice_length; cbn [length]; lia).
  rewrite splice_app by (cbn [length]; lia).
  rewrite rd_at_ok, !Nat2Z.id, bind_ok by lia.
  replace (Z.of_nat des + 2) with (Z.of_nat (des + length ([0xff] ++ [Z.of_nat r - 1]))) by (cbn [length app]; lia).
  rewrite wr_at_splice, bind_ok by (rewrite splice_length; cbn [length app]; lia).
  rewrite splice_app by (cbn [length app]; lia).
  replace (Z.of_nat n + 2 + Z.of_nat des)
    with (Z.of_nat (des + length (([0xff] ++ [Z.of_nat r - 1]) ++ take n (drop off s))))
    by (rewrite length_app, Hlt; cbn [length app]; lia).
  rewrite wr_at_splice by (rewrite splice_length, ?length_app, ?length_replicate, ?Hlt; cbn [length app]; rewrite ?length_app, ?Hlt; lia).
  rewrite splice_app by (rewrite ?length_app, ?length_replicate, ?Hlt; cbn [length app]; lia).
  rewrite <- !(assoc_L (++)). do 5 f_equal. f_equal. lia.
Qed.

(** The run of the words [j] to [j + r]. *)
Lemma write_run s j r n buf des : (j + r ≤ length (words s))%nat → (0 < r ≤ 256)%nat → (8 * j + n ≤ length s)%nat →
  (n = 8 * r ∨ 8 * j + n = length s)%nat → (8 * (r - 1) < n ≤ 8 * r)%nat → (des + 2 + 8 * r ≤ length buf)%nat →
  write_ff (s, Z.of_nat (8 * j)) buf (Z.of_nat des) (Z.of_nat n) =
    Ok (splice buf des (enc_item (Run (take r (drop j (words s)))))).
Proof.
  intros Hj Hr Hs Hend Hn Hbuf. rewrite (write_ff_lemma s (8 * j) buf des n r) by lia.
  do 2 f_equal. cbn [enc_item]. rewrite (run_bytes s j r n) by lia.
  rewrite length_take, length_drop. do 3 f_equal. lia.
Qed.

(** ** The groups *)

Definition run_size (run : list word) : nat := match run with [] => 0 | _ => 2 + 8 * length run end.

Lemma enc_app l1 l2 : enc (l1 ++ l2) = enc l1 ++ enc l2.
Proof. unfold enc. by rewrite map_app, concat_app. Qed.

Lemma enc_item_one x : enc [x] = enc_item x.
Proof. unfold enc. cbn [map concat]. apply app_nil_r. Qed.

Lemma enc_snoc l x : enc (l ++ [x]) = enc l ++ enc_item x.
Proof. by rewrite enc_app, enc_item_one. Qed.

Lemma enc_run_length run : Forall (λ w, length w = 8%nat) run → run ≠ [] → length (enc_item (Run run)) = run_size run.
Proof.
  intros H Hne. cbn [enc_item length]. rewrite length_concat8 by done. destruct run; [done|]. unfold run_size. lia.
Qed.

Lemma in_run_nil w : in_run w 0 = (length (nonzero w) =? 8)%nat.
Proof. unfold in_run. change (0 >? 0) with false. by rewrite andb_false_r, orb_false_r. Qed.

Lemma in_run_open w n : length w = 8%nat → 0 < n → in_run w n = (6 <=? length (nonzero w))%nat.
Proof.
  intros Hw Hn. unfold in_run. pose proof (nonzero_length w).
  destruct (Z.gtb_spec n 0), (Nat.eqb_spec (length (nonzero w)) 8), (Nat.leb_spec 6 (length (nonzero w))); cbn; lia || done.
Qed.

(** The groups of the first [k] words, and the run that is still open. *)
Record grouped (ws : list word) (k : nat) (items : list item) (run : list word) : Prop := {
  gr_fold : foldl group_step ([], []) (take k ws) = (items, run);
  gr_run : (length run ≤ k ∧ length run < 256)%nat;
  gr_words : run = take (length run) (drop (k - length run) ws);
  gr_head : ∀ w, head run = Some w → length (nonzero w) = 8%nat
}.

Lemma grouped_nil ws : grouped ws 0 [] [].
Proof. by split; cbn; try lia. Qed.

Lemma grouped_snoc ws k items run w : grouped ws k items run → ws !! k = Some w →
  run ++ [w] = take (S (length run)) (drop (k - length run) ws).
Proof.
  intros [_ Hr Hw _] Hk. rewrite (take_S_r _ _ w); [by rewrite <- Hw|].
  rewrite lookup_drop. by replace (k - length run + length run)%nat with k by lia.
Qed.

Lemma grouped_step ws k items run w items' run' : grouped ws k items run → ws !! k = Some w →
  group_step (items, run) w = (items', run') → grouped ws (S k) items' run'.
Proof.
  intros Hg Hk Hst. pose proof (grouped_snoc _ _ _ _ _ Hg Hk) as Hsn. destruct Hg as [Hf Hr Hw Hh].
  assert (Hf' : foldl group_step ([], []) (take (S k) ws) = (items', run'))
    by (rewrite (take_S_r _ _ _ Hk), foldl_app, Hf; done).
  assert (Hnew : run' = [] ∨ run' = run ++ [w] ∧ (length run < 255)%nat ∧ (run = [] → length (nonzero w) = 8%nat)).
  { unfold group_step in Hst. destruct run as [|w0 run0]; [destruct (Nat.eqb_spec (length (nonzero w)) 8)|
      destruct (6 <=? length (nonzero w))%nat; [destruct (Nat.eqb_spec (length (w0 :: run0)) 255)|]];
      injection Hst as <- <-; try (by left); right; cbn [length app] in *; (split; [done|]); split; try lia; done. }
  destruct Hnew as [->|(-> & Hlt & H8)]; [by split; cbn; try lia|].
  assert (Hl : length (run ++ [w]) = S (length run)) by (rewrite length_app; cbn; lia).
  split; [done|lia|..].
  - rewrite Hl. by replace (S k - S (length run))%nat with (k - length run)%nat by lia.
  - destruct run as [|w0 run0]; cbn [app head] in *; [|done]. intros ? [= <-]. by apply H8.
Qed.

(** A full run that ends in the incomplete last word: the case in which [sproto_pack] copies
    bytes from behind the input. *)
Definition overreads (s : list Z) : bool :=
  negb (length s mod 8 =? 0)%nat &&
  match last (groups (words s)) with
  | Some (Run ws) => (length ws =? 256)%nat
  | _ => false
  end.

Lemma not_overread s k items run w : overreads s = false → grouped (words s) k items run →
  words s !! k = Some w → length run = 255%nat → (6 ≤ length (nonzero w))%nat → (8 * S k ≤ length s)%nat.
Proof.
  intros Ho Hg Hk Hr Hn. destruct (Nat.leb_spec (8 * S k) (length s)) as [|Hlt]; [done|exfalso].
  assert (Hstep : group_step (items, run) w = (items ++ [Run (run ++ [w])], [])).
  { unfold group_step. destruct run; [done|]. destruct (Nat.leb_spec 6 (length (nonzero w))); [|lia].
    by destruct (Nat.eqb_spec (length (w0 :: run)) 255). }
  assert (Hlen : length (words s) = S k).
  { pose proof (lookup_lt_Some _ _ _ Hk). rewrite words_length in *.
    pose proof (Nat.div_mod (length s + 7) 8 ltac:(lia)). pose proof (Nat.mod_upper_bound (length s + 7) 8 ltac:(lia)). lia. }
  pose proof (gr_fold _ _ _ _ (grouped_step _ _ _ _ _ _ _ Hg Hk Hstep)) as Hf. rewrite take_ge in Hf by lia.
  assert (Ho' : overreads s = true); [|congruence]. unfold overreads, groups, group_end. rewrite Hf. cbn [fst snd].
  rewrite app_nil_r, last_snoc, length_app, Hr. cbn [length Nat.add Nat.eqb]. rewrite andb_true_r.
  destruct (Nat.eqb_spec (length s mod 8) 0) as [Hz|]; [|done].
  rewrite words_length in Hlen. pose proof (Nat.div_mod (length s) 8 ltac:(lia)).
  pose proof (Nat.div_mod (length s + 7) 8 ltac:(lia)). pose proof (Nat.mod_upper_bound (length s + 7) 8 ltac:(lia)). lia.
Qed.

(** ** Reading a word *)

Lemma nonzero_zeros n : nonzero (replicate n 0) = [].
Proof. induction n as [|n IH]; [done|]. cbn [replicate]. unfold nonzero in *. by rewrite filter_cons_False by (intros []; done). Qed.

Lemma nonzero_word s k w : words s !! k = Some w → (length (nonzero w) + 8 * k ≤ length s)%nat.
Proof.
  intros Hk. pose proof (lookup_lt_Some _ _ _ Hk). rewrite words_lookup in Hk.
  destruct (Nat.ltb_spec (8 * k) (length s)); [|done]. apply (inj Some) in Hk as <-.
  destruct (Nat.leb_spec 8 (length (drop (8 * k) s))) as [Hl|Hl].
  - rewrite length_drop in Hl. pose proof (nonzero_length (take 8 (drop (8 * k) s ++ replicate 7 0))) as Hn.
    rewrite length_take in Hn. lia.
  - rewrite take_app_ge, take_replicate, nonzero_app, nonzero_zeros, app_nil_r by lia.
    pose proof (nonzero_length (drop (8 * k) s)) as Hn. rewrite length_drop in Hn. lia.
Qed.

Lemma pad_src_lemma s k w : words s !! k = Some w →
  ∃ src, pad_src (s, Z.of_nat (8 * k)) (Z.of_nat (8 * k) + 8 - Z.of_nat (length s)) = Ok src ∧ points_to src w ∧
    ((8 * S k ≤ length s)%nat → src = (s, Z.of_nat (8 * k))).
Proof.
  intros Hk. pose proof (word_length _ _ _ Hk) as Hw. rewrite words_lookup in Hk.
  destruct (Nat.ltb_spec (8 * k) (length s)) as [Hlt|]; [|done]. apply (inj Some) in Hk as <-. unfold pad_src. cbn [fst snd].
  destruct (Z.gtb_spec (Z.of_nat (8 * k) + 8 - Z.of_nat (length s)) 0) as [Hp|Hp].
  - rewrite rd_at_ok, bind_ok, Nat2Z.id by lia. eexists. split; [done|]. split; [|lia].
    split; [done|]. split; [done|]. cbn [fst snd]. change (Z.to_nat 0) with 0%nat. rewrite drop_0.
    rewrite (take_ge (drop _ _)) by (rewrite length_drop; lia).
    rewrite !take_app_ge by (rewrite length_drop; lia). rewrite !take_replicate, length_drop. do 2 f_equal. lia.
  - eexists. split; [done|]. split; [|done]. split; [cbn; lia|]. split; [done|]. cbn [fst snd].
    rewrite Nat2Z.id. by rewrite take_app_le by (rewrite length_drop; lia).
Qed.

(** ** The size *)

Lemma enc_word_length w : length (enc_item (Word w)) = S (length (nonzero w)).
Proof. done. Qed.

Lemma run_size_pos run : run ≠ [] → run_size run = (2 + 8 * length run)%nat.
Proof. by destruct run. Qed.

(** What one more word adds to the size. *)
Lemma group_step_size items (run : list word) (w : word) items' run' : Forall (λ w : word, length w = 8%nat) run → length w = 8%nat →
  (length run < 256)%nat → group_step (items, run) w = (items', run') →
  let size := (length (enc items) + run_size run)%nat in
  let size' := (length (enc items') + run_size run')%nat in
  (size' = size + length (nonzero w) + 1 ∧ run' = [] ∧ length (nonzero w) < (match run with [] => 8 | _ => 6 end) ∨
   run = [] ∧ size' = size + 10 ∧ run' = [w] ∧ length (nonzero w) = 8 ∨
   run ≠ [] ∧ size' = size + 8 ∧ 6 ≤ length (nonzero w) ∧
     (run' = [] ∧ length run = 255 ∨ run' = run ++ [w] ∧ length run < 255))%nat.
Proof.
  intros Hrun Hw Hlt Hst. cbv zeta. pose proof (nonzero_length w) as Hnl. unfold group_step in Hst.
  destruct run as [|w0 run0].
  { destruct (Nat.eqb_spec (length (nonzero w)) 8); injection Hst as <- <-.
    - right. left. split; [done|]. cbn [run_size length]. split; [lia|done].
    - left. rewrite enc_snoc, length_app, enc_word_length. cbn [run_size]. split; [lia|]. split; [done|lia]. }
  pose proof (run_size_pos (w0 :: run0) ltac:(done)) as Hrs.
  pose proof (enc_run_length (w0 :: run0) Hrun ltac:(done)) as Hel.
  assert (Hrun' : Forall (λ w, length w = 8%nat) ((w0 :: run0) ++ [w])) by (apply Forall_app; split; [done|by apply Forall_singleton]).
  pose proof (enc_run_length _ Hrun' ltac:(done)) as Hel'. pose proof (run_size_pos ((w0 :: run0) ++ [w]) ltac:(done)) as Hrs'.
  assert (Hlw : length ((w0 :: run0) ++ [w]) = S (length (w0 :: run0))) by (rewrite length_app; cbn [length]; lia).
  cbn [app] in *. destruct (Nat.leb_spec 6 (length (nonzero w))).
  - right. right. split; [done|]. destruct (Nat.eqb_spec (length (w0 :: run0)) 255); injection Hst as <- <-.
    + rewrite enc_snoc, length_app. change (run_size []) with 0%nat. split; [lia|]. split; [done|]. by left.
    + split; [lia|]. split; [done|]. right. split; [done|lia].
  - left. injection Hst as <- <-. change [Run (w0 :: run0); Word w] with ([Run (w0 :: run0)] ++ [Word w]).
    rewrite (assoc_L (++)), !enc_snoc, !length_app, enc_word_length. change (run_size []) with 0%nat. split; [lia|]. done.
Qed.

(** A run costs two bytes more than its words; the word that closes it makes up for them,
    so that only full runs and the open run count. *)
Lemma group_cost ws : Forall (λ w : word, length w = 8%nat) ws → ∀ items run, foldl group_step ([], []) ws = (items, run) →
  Forall (λ w : word, length w = 8%nat) run ∧ (length run < 256)%nat ∧
  ∃ c, (length (enc items) + run_size run ≤ 8 * length ws + 2 * c + (if decide (run = []) then 0 else 2) ∧
        256 * c + length run ≤ length ws)%nat.
Proof.
  intros Hws. induction ws as [|w ws IH] using rev_ind; intros items run Hf.
  { injection Hf as <- <-. split; [done|]. split; [cbn; lia|]. by exists 0%nat. }
  apply Forall_app in Hws as [Hws Hw]. rewrite Forall_singleton in Hw. cbn beta in Hw. rewrite foldl_app in Hf. cbn [foldl] in Hf.
  destruct (foldl group_step ([], []) ws) as [items0 run0]. destruct (IH Hws items0 run0 eq_refl) as (Hr0 & Hl0 & c & Hc1 & Hc2).
  pose proof (group_step_size _ _ _ _ _ Hr0 Hw Hl0 Hf) as Hst. cbv zeta in Hst.
  rewrite length_app. cbn [length].
  destruct Hst as [(Hsz & -> & Hn)|[(-> & Hsz & -> & Hn)|(Hne & Hsz & Hn & [[-> H255]|[-> H255]])]].
  - split; [done|]. split; [cbn; lia|]. exists c. rewrite decide_True by done.
    destruct (decide (run0 = [])) as [->|]; [cbn [length] in *; lia|]. destruct run0; [done|]. cbn [length] in *. lia.
  - split; [by apply Forall_singleton|]. split; [cbn; lia|]. exists c. rewrite decide_True in Hc1 by done.
    rewrite decide_False by done. cbn [length] in *. lia.
  - split; [done|]. split; [cbn; lia|]. exists (S c). rewrite decide_False in Hc1 by done. rewrite decide_True by done.
    cbn [length] in *. lia.
  - split; [apply Forall_app; split; [done|by apply Forall_singleton]|]. rewrite length_app. cbn [length]. split; [lia|].
    exists c. rewrite decide_False in Hc1 by done. rewrite decide_False by (by destruct run0). lia.
Qed.

(** [lpack] in [lualib-src/sproto/lsproto.c] reserves two bytes for 2048 and two more. *)
Definition lpack_maxsz (sz : Z) : Z := (sz + 2047) / 2048 * 2 + sz + 2.

Lemma packed_bound s : Z.of_nat (length (packed s)) ≤ lpack_maxsz (Z.of_nat (length s)).
Proof.
  unfold packed, groups, group_end, lpack_maxsz. destruct (foldl group_step ([], []) (words s)) as [items' run'] eqn:Hf.
  assert (Hmod : ∀ c, 2048 * c < Z.of_nat (length s) → c + 1 ≤ (Z.of_nat (length s) + 2047) / 2048).
  { intros c Hc. apply Z.div_le_lower_bound; lia. }
  cbn [fst snd]. pose proof (words_len8 s) as Hws.
  assert (Hsz : length (enc (items' ++ match run' with [] => [] | w :: l => [Run (w :: l)] end)) =
    (length (enc items') + run_size run')%nat).
  { destruct (group_cost _ Hws _ _ Hf) as (Hr & _). destruct run' as [|w0 run0]; [by rewrite app_nil_r, Nat.add_0_r|].
    by rewrite enc_snoc, length_app, enc_run_length. }
  rewrite Hsz. clear Hsz.
  assert (Hcase : words s = [] ∨ ∃ ws w, words s = ws ++ [w]) by (induction (words s) using rev_ind; eauto).
  destruct Hcase as [Ews|(ws & w & Ews)]; rewrite Ews in Hf, Hws.
  { injection Hf as <- <-. change (length (enc []) + run_size [])%nat with 0%nat.
    pose proof (Z.div_pos (Z.of_nat (length s) + 2047) 2048 ltac:(lia) ltac:(lia)). lia. }
  apply Forall_app in Hws as [Hws Hw]. rewrite Forall_singleton in Hw. cbn beta in Hw. rewrite foldl_app in Hf. cbn [foldl] in Hf.
  assert (Hk : words s !! length ws = Some w) by (rewrite Ews; apply list_lookup_middle; done).
  pose proof (nonzero_word s _ w Hk) as Hnz.
  assert (Hkl : (8 * length ws < length s)%nat) by (rewrite words_lookup in Hk; by destruct (Nat.ltb_spec (8 * length ws) (length s))).
  destruct (foldl group_step ([], []) ws) as [items0 run0] eqn:Hf0.
  destruct (group_cost ws Hws _ _ Hf0) as (Hr0 & Hl0 & c & Hc1 & Hc2). specialize (Hmod (Z.of_nat c)).
  pose proof (group_step_size _ _ _ _ _ Hr0 Hw Hl0 Hf) as Hst. cbv zeta in Hst.
  assert (Hopen : run0 ≠ [] → (0 < length run0)%nat) by (destruct run0; cbn; [done|lia]).
  destruct Hst as [(Hsz & -> & Hn)|[(-> & Hsz & -> & Hn)|(Hne & Hsz & Hn & _)]].
  - destruct (decide (run0 = [])); [|specialize (Hopen ltac:(done))]; lia.
  - rewrite decide_True in Hc1 by done. cbn [length] in *. lia.
  - rewrite decide_False in Hc1 by done. specialize (Hopen Hne). lia.
Qed.

(** The size only grows. *)
Lemma group_sizes ws : Forall (λ w : word, length w = 8%nat) ws → ∀ items run items' run',
  Forall (λ w : word, length w = 8%nat) run → (length run < 256)%nat → foldl group_step (items, run) ws = (items', run') →
  (length (enc items) + run_size run ≤ length (enc items') + run_size run')%nat.
Proof.
  induction 1 as [|w ws Hw _ IH]; intros items run items' run' Hrun Hlt Hf; [by injection Hf as <- <-|]. cbn [foldl] in Hf.
  destruct (group_step (items, run) w) as [items1 run1] eqn:E. pose proof (group_step_size _ _ _ _ _ Hrun Hw Hlt E) as Hsz. cbv zeta in Hsz.
  assert (Hrun1 : Forall (λ w : word, length w = 8%nat) run1 ∧ (length run1 < 256)%nat).
  { destruct Hsz as [(_ & -> & _)|[(-> & _ & -> & _)|(_ & _ & _ & [[-> _]|[-> Hl]])]]; (split; [|cbn; lia]) || split; try done.
    - by apply Forall_singleton.
    - apply Forall_app. split; [done|by apply Forall_singleton].
    - rewrite length_app. cbn. lia. }
  specialize (IH items1 run1 items' run' (proj1 Hrun1) (proj2 Hrun1) Hf). lia.
Qed.

Lemma grouped_size s k items run : grouped (words s) k items run →
  (length (enc items) + run_size run ≤ length (packed s))%nat.
Proof.
  intros Hg. pose proof (words_len8 s) as Hws. destruct (foldl group_step ([], []) (words s)) as [items' run'] eqn:Hf.
  assert (Hsz : length (packed s) = (length (enc items') + run_size run')%nat).
  { unfold packed, groups, group_end. rewrite Hf. cbn [fst snd]. destruct (group_cost _ Hws _ _ Hf) as (Hr & _).
    destruct run' as [|w0 run0]; [by rewrite app_nil_r, Nat.add_0_r|]. by rewrite enc_snoc, length_app, enc_run_length. }
  rewrite Hsz. rewrite <- (take_drop k (words s)), foldl_app, (gr_fold _ _ _ _ Hg) in Hf.
  apply (group_sizes (drop k (words s)) (Forall_drop _ _ _ Hws) _ _ _ _); [|apply (gr_run _ _ _ _ Hg)|exact Hf].
  rewrite (gr_words _ _ _ _ Hg). by apply Forall_take, Forall_drop.
Qed.

(** What [lpack] reserves is an [int]: then nothing overflows. *)
Definition pack_fits (s : list Z) (buf : buffer) : Prop :=
  lpack_maxsz (Z.of_nat (length s)) ≤ INT_MAX ∧ Z.of_nat (length buf) ≤ INT_MAX.

Lemma pack_fits_words s buf : pack_fits s buf → Z.of_nat (8 * length (words s)) ≤ INT_MAX.
Proof.
  intros [Hm _]. rewrite words_length. unfold lpack_maxsz, INT_MAX in *.
  pose proof (Nat.div_mod (length s + 7) 8 ltac:(lia)). pose proof (Z.div_mod (Z.of_nat (length s) + 2047) 2048 ltac:(lia)).
  pose proof (Z.mod_pos_bound (Z.of_nat (length s) + 2047) 2048 ltac:(lia)). lia.
Qed.

Lemma packed_int s buf : pack_fits s buf → Z.of_nat (length (packed s)) ≤ INT_MAX.
Proof. intros [Hm _]. pose proof (packed_bound s). lia. Qed.

(** ** The loop *)

(** After [k] words: the closed groups are encoded at the front of the buffer, as far as
    there is room for them; the open run has its place behind them. *)
Record pack_inv (s : list Z) (buf : buffer) (k : nat) (items : list item) (run : list word) (st : pack_state) : Prop := {
  pi_src : (8 * k < length s)%nat → pk_src st = (s, Z.of_nat (8 * k));
  pi_len : length (pk_buf st) = length buf;
  pi_ffn : pk_ffn st = Z.of_nat (length run);
  pi_pos : pk_pos st = Z.of_nat (length (enc items) + run_size run);
  pi_size : pk_size st = pk_pos st;
  pi_bufsz : pk_bufsz st = Z.of_nat (length buf) - pk_pos st;
  pi_ff : run ≠ [] →
    pk_ffdes st = Z.of_nat (length (enc items)) ∧ pk_ffsrc st = Some (s, Z.of_nat (8 * (k - length run)));
  pi_enc : (length (enc items) ≤ length buf)%nat → starts (pk_buf st) (enc items)
}.

(** Closing the open run: [n] bytes of input, the run as it is then. *)
Lemma flush_lemma s buf k items run st buf1 bufsz run' n :
  pack_inv s buf k items run st → run ≠ [] → (length run ≤ k)%nat → length buf1 = length buf →
  run' = take (length run') (drop (k - length run) (words s)) → (k - length run + length run' ≤ length (words s))%nat →
  (0 < length run' ≤ 256)%nat → (8 * (k - length run) + n ≤ length s)%nat →
  (n = 8 * length run' ∨ 8 * (k - length run) + n = length s)%nat → (8 * (length run' - 1) < n ≤ 8 * length run')%nat →
  (0 ≤ bufsz → (length (enc items) + run_size run' ≤ length buf)%nat) →
  ∃ buf2, flush_ff st bufsz (Z.of_nat n) buf1 = Ok buf2 ∧ length buf2 = length buf ∧
    (0 ≤ bufsz → starts buf1 (enc items) → starts buf2 (enc (items ++ [Run run'])) ∧
      ∀ l, buf1 = splice (pk_buf st) (length (enc items) + run_size run') l →
           (length (enc items) + run_size run' + length l ≤ length buf)%nat →
           starts buf2 (enc (items ++ [Run run']) ++ l)).
Proof.
  intros Hinv Hne Hk Hlen Hrun Hws Hr Hn Hend Hn8 Hroom. destruct (pi_ff _ _ _ _ _ _ Hinv Hne) as [Hdes Hsrc].
  unfold flush_ff. destruct (Z.geb_spec bufsz 0) as [Hb|Hb];
    [|by exists buf1; split; [done|]; split; [done|]; intros; lia].
  specialize (Hroom Hb). assert (Hne' : run' ≠ []) by (destruct run'; cbn in *; [lia|done]).
  rewrite (run_size_pos run') in * by done.
  rewrite Hsrc, Hdes. cbn [or_fault]. rewrite bind_ok, (write_run s _ (length run')) by lia. rewrite <- Hrun.
  assert (Hl8 : Forall (λ w, length w = 8%nat) run') by (rewrite Hrun; apply Forall_take, Forall_drop, words_len8).
  assert (Hel : length (enc_item (Run run')) = (2 + 8 * length run')%nat) by (rewrite enc_run_length, run_size_pos by done; done).
  eexists. split; [done|]. split; [rewrite splice_length; lia|]. intros _ Hst. rewrite enc_snoc.
  split; [apply starts_splice; [done|lia]|]. intros l -> Hl. apply starts_app. split; [apply starts_splice; [done|lia]|].
  rewrite length_app, Hel. unfold splice at 1. rewrite (assoc_L (++)), drop_app_ge
    by (rewrite length_app, length_take, length_map; lia).
  rewrite length_app, length_take, length_map, Hel, Nat.min_l, Nat.sub_diag, drop_0 by lia.
  unfold splice. rewrite drop_app_ge by (rewrite length_take; lia).
  rewrite length_take, Nat.min_l, Nat.sub_diag, drop_0 by (rewrite (pi_len _ _ _ _ _ _ Hinv); lia).
  rewrite take_app_le, take_ge by (rewrite ?length_map; lia). done.
Qed.

(** A round without the checks, and when it is a round. *)
Definition round_free (srcsz i : Z) (s : pack_state) : res pack_state :=
  src ← pad_src (pk_src s) (i + 8 - srcsz);
  '(n, buf) ← pack_seg src (pk_buf s) (pk_pos s) (pk_bufsz s) (pk_ffn s);
  '(buf, ffsrc, ffdes, ffn) ←
    (if n =? 10 then Ok (buf, Some src, pk_pos s, 1)
     else if (n =? 8) && (pk_ffn s >? 0) then
       let ff_n := pk_ffn s + 1 in
       if ff_n =? 256 then
         buf ← flush_ff s (pk_bufsz s - n) (256 * 8) buf; Ok (buf, pk_ffsrc s, pk_ffdes s, 0)
       else Ok (buf, pk_ffsrc s, pk_ffdes s, ff_n)
     else if pk_ffn s >? 0 then
       buf ← flush_ff s (pk_bufsz s - n) (pk_ffn s * 8) buf; Ok (buf, pk_ffsrc s, pk_ffdes s, 0)
     else Ok (buf, pk_ffsrc s, pk_ffdes s, 0));
  Ok (PackState (badd src 8) buf (pk_pos s + n) (pk_bufsz s - n) ffsrc ffdes ffn (pk_size s + n)).

Lemma round_checked srcsz i st st' : round_free srcsz i st = Ok st' →
  0 ≤ i → i + 8 ≤ INT_MAX → 0 ≤ srcsz ≤ INT_MAX →
  INT_MIN ≤ pk_bufsz st' ≤ INT_MAX → INT_MIN ≤ pk_size st' ≤ INT_MAX → pack_round srcsz i st = Ok st'.
Proof.
  unfold round_free, pack_round. intros E Hi Hi8 Hs Hb Hz. rewrite int_chk_ok, bind_ok by (unfold INT_MIN; lia).
  rewrite int_chk_ok, bind_ok by (unfold INT_MIN, INT_MAX in *; lia).
  destruct (pad_src _ _) as [src|]; [|done]. rewrite bind_ok in *. destruct (pack_seg _ _ _ _ _) as [[n buf]|]; [|done]. rewrite bind_ok in *.
  assert (Hn : pk_bufsz st' = pk_bufsz st - n ∧ pk_size st' = pk_size st + n).
  { clear Hb Hz. revert E. set (flush := if n =? 10 then _ else _). destruct flush as [[[[buf' ffsrc] ffdes] ffn]|]; [|done].
    rewrite bind_ok. intros [= <-]. done. }
  destruct Hn as [En Ez]. rewrite En, Ez in *. rewrite (int_chk_ok (pk_bufsz st - n)), bind_ok by done. revert E. set (flush := if n =? 10 then _ else _).
  destruct flush as [[[[buf' ffsrc] ffdes] ffn]|]; [|done]. rewrite !bind_ok. rewrite int_chk_ok, bind_ok by done. done.
Qed.

(** What every round does first. *)
Lemma pack_round_start s buf k items run st w : INT_MIN < pk_bufsz st ≤ INT_MAX →
  pack_inv s buf k items run st → words s !! k = Some w →
  ∃ src buf1, pad_src (pk_src st) (Z.of_nat (8 * k) + 8 - Z.of_nat (length s)) = Ok src ∧
    ((8 * S k ≤ length s)%nat → src = (s, Z.of_nat (8 * k))) ∧
    pack_seg src (pk_buf st) (pk_pos st) (pk_bufsz st) (pk_ffn st) =
      Ok (if in_run w (pk_ffn st) then if pk_ffn st >? 0 then 8 else 10 else Z.of_nat (length (nonzero w)) + 1, buf1) ∧
    length buf1 = length buf ∧
    ((length (enc items) ≤ length buf)%nat → starts buf1 (enc items)) ∧
    (in_run w (pk_ffn st) = false → (length (enc items) + run_size run + length (enc_item (Word w)) ≤ length buf)%nat →
     buf1 = splice (pk_buf st) (length (enc items) + run_size run) (enc_item (Word w))).
Proof.
  intros Hint Hinv Hw. pose proof (lookup_lt_Some _ _ _ Hw) as Hlt. pose proof Hw as Hw'.
  rewrite words_lookup in Hw'. destruct (Nat.ltb_spec (8 * k) (length s)) as [Hks|]; [|done].
  rewrite (pi_src _ _ _ _ _ _ Hinv Hks). destruct (pad_src_lemma s k w Hw) as (src & Epad & Hpt & Hsame).
  rewrite (pi_bufsz _ _ _ _ _ _ Hinv), (pi_pos _ _ _ _ _ _ Hinv), <- (pi_len _ _ _ _ _ _ Hinv) in Hint.
  destruct (pack_seg_lemma src w (pk_buf st) (length (enc items) + run_size run) (pk_ffn st) Hpt Hint)
    as (buf1 & Eseg & Hl1 & Htk & Hc).
  rewrite (pi_len _ _ _ _ _ _ Hinv) in *. exists src, buf1. split; [done|]. split; [done|].
  split. { by rewrite (pi_bufsz _ _ _ _ _ _ Hinv), (pi_pos _ _ _ _ _ _ Hinv). }
  split; [done|]. split.
  - intros Hr. apply (starts_take (pk_buf st) _ _ (length (enc items) + run_size run)); [|done|lia].
    by apply (pi_enc _ _ _ _ _ _ Hinv).
  - intros Hin Hfit. cbn [enc_item length] in Hfit. apply Hc; [done|lia].
Qed.

(** The state of the next round. *)
Definition pack_next (src : bptr) (st : pack_state) (n : Z) (buf : buffer) (ffsrc : option bptr) (ffdes ffn : Z) : pack_state :=
  PackState (badd src 8) buf (pk_pos st + n) (pk_bufsz st - n) ffsrc ffdes ffn (pk_size st + n).

Lemma pack_next_inv s buf k items run st src n buf' ffsrc ffdes items' run' :
  pack_inv s buf k items run st → ((8 * S k ≤ length s)%nat → src = (s, Z.of_nat (8 * k))) → length buf' = length buf →
  Z.of_nat (length (enc items) + run_size run) + n = Z.of_nat (length (enc items') + run_size run') →
  (run' ≠ [] → ffdes = Z.of_nat (length (enc items')) ∧ ffsrc = Some (s, Z.of_nat (8 * (S k - length run')))) →
  ((length (enc items') ≤ length buf)%nat → starts buf' (enc items')) →
  pack_inv s buf (S k) items' run' (pack_next src st n buf' ffsrc ffdes (Z.of_nat (length run'))).
Proof.
  intros [Hsrc Hl Hf Hp Hs Hb _ _] Hsame Hl' Hn Hff He.
  split; cbn [pack_next pk_src pk_buf pk_pos pk_bufsz pk_ffsrc pk_ffdes pk_ffn pk_size]; try done; try lia.
  intros Hk. rewrite Hsame by lia. unfold badd. cbn [fst snd]. f_equal. lia.
Qed.

(** No run is open. *)
Lemma pack_round_closed s buf k items st w : INT_MIN < pk_bufsz st ≤ INT_MAX →
  pack_inv s buf k items [] st → words s !! k = Some w →
  ∃ st', round_free (Z.of_nat (length s)) (Z.of_nat (8 * k)) st = Ok st' ∧
    let '(items', run') := group_step (items, []) w in pack_inv s buf (S k) items' run' st'.
Proof.
  intros Hint Hinv Hw. destruct (pack_round_start s buf k items [] st w Hint Hinv Hw) as (src & buf1 & Epad & Hsame & Eseg & Hl & Hst & Hc).
  pose proof (pi_ffn _ _ _ _ _ _ Hinv) as Hffn. pose proof (pi_pos _ _ _ _ _ _ Hinv) as Hpos.
  cbn [length run_size] in Hffn, Hpos, Hc. change (Z.of_nat 0) with 0 in Hffn.
  unfold round_free. rewrite Epad, bind_ok, Eseg, bind_ok. cbv beta iota zeta. rewrite Hffn, in_run_nil in *.
  change (0 >? 0) with false in *. rewrite andb_false_r. cbv iota.
  pose proof (nonzero_word _ _ _ Hw) as Hnzw. pose proof (nonzero_length w) as Hnl. rewrite (word_length _ _ _ Hw) in Hnl.
  cbn [group_step]. destruct (Nat.eqb_spec (length (nonzero w)) 8) as [H8|H8].
  - change (10 =? 10) with true. cbv iota. rewrite bind_ok. eexists. split; [done|].
    apply (pack_next_inv s buf k items [] st src 10 buf1 (Some src) (pk_pos st) items [w]); cbn [length run_size]; try done; try lia.
    intros _. split; [lia|]. rewrite Hsame by lia. by replace (S k - 1)%nat with k by lia.
  - destruct (Z.eqb_spec (Z.of_nat (length (nonzero w)) + 1) 10); [lia|]. rewrite bind_ok. eexists. split; [done|].
    apply (pack_next_inv s buf k items [] st src _ buf1 _ _ (items ++ [Word w]) []); cbn [length run_size]; try done.
    + rewrite enc_snoc, length_app, enc_word_length. lia.
    + rewrite enc_snoc, length_app, enc_word_length. intros Hfit. rewrite Hc by (rewrite ?enc_word_length; lia || done).
      rewrite Nat.add_0_r. apply starts_splice; [|rewrite enc_word_length, (pi_len _ _ _ _ _ _ Hinv); lia].
      apply (pi_enc _ _ _ _ _ _ Hinv). lia.
Qed.

Lemma grouped_len8 s k items run : grouped (words s) k items run → Forall (λ w, length w = 8%nat) run.
Proof. intros [_ _ -> _]. apply Forall_take, Forall_drop, words_len8. Qed.

(** A word that does not go into the open run. *)
Lemma pack_round_close s buf k items run st w : INT_MIN < pk_bufsz st ≤ INT_MAX →
  pack_inv s buf k items run st → grouped (words s) k items run → words s !! k = Some w → run ≠ [] →
  (length (nonzero w) < 6)%nat →
  ∃ st', round_free (Z.of_nat (length s)) (Z.of_nat (8 * k)) st = Ok st' ∧
    pack_inv s buf (S k) (items ++ [Run run; Word w]) [] st'.
Proof.
  intros Hint Hinv Hg Hw Hne Hnz. pose proof (grouped_len8 _ _ _ _ Hg) as Hl8. destruct Hg as [_ Hrk Hrw _].
  destruct (pack_round_start s buf k items run st w Hint Hinv Hw) as (src & buf1 & Epad & Hsame & Eseg & Hl & Hst & Hc).
  pose proof (pi_ffn _ _ _ _ _ _ Hinv) as Hffn. pose proof (pi_pos _ _ _ _ _ _ Hinv) as Hpos.
  pose proof (pi_bufsz _ _ _ _ _ _ Hinv) as Hbz.
  assert (Hr0 : (0 < length run)%nat) by (destruct run; [done|cbn; lia]).
  assert (Hkw : (k < length (words s))%nat) by (by eapply lookup_lt_Some). pose proof (nonzero_word _ _ _ Hw) as Hks.
  assert (Ein : in_run w (pk_ffn st) = false).
  { rewrite in_run_open by (by eapply word_length || lia). destruct (Nat.leb_spec 6 (length (nonzero w))); [lia|done]. }
  rewrite Ein in *. unfold round_free. rewrite Epad, bind_ok, Eseg, bind_ok. cbv beta iota zeta.
  destruct (Z.eqb_spec (Z.of_nat (length (nonzero w)) + 1) 10); [lia|].
  destruct (Z.eqb_spec (Z.of_nat (length (nonzero w)) + 1) 8); [lia|]. cbn [andb].
  destruct (Z.gtb_spec (pk_ffn st) 0); [|lia].
  destruct (flush_lemma s buf k items run st buf1 (pk_bufsz st - (Z.of_nat (length (nonzero w)) + 1)) run (8 * length run)
    Hinv Hne) as (buf2 & Efl & Hl2 & Hst2); try done; try lia.
  replace (pk_ffn st * 8) with (Z.of_nat (8 * length run)) by lia.
  rewrite Efl, !bind_ok. eexists. split; [done|].
  assert (Hel : length (enc (items ++ [Run run; Word w])) = (length (enc items) + run_size run + S (length (nonzero w)))%nat).
  { change [Run run; Word w] with ([Run run] ++ [Word w]). rewrite (assoc_L (++)), !enc_snoc, !length_app, enc_word_length.
    by rewrite (enc_run_length run Hl8 Hne). }
  apply (pack_next_inv s buf k items run st src _ buf2 _ _ (items ++ [Run run; Word w]) []); try done.
  - rewrite Hel. cbn [run_size]. lia.
  - rewrite Hel. intros Hfit. change [Run run; Word w] with ([Run run] ++ [Word w]). rewrite (assoc_L (++)), enc_snoc.
    destruct Hst2 as [_ Hst2]; [lia|apply Hst; lia|]. apply Hst2; [|rewrite enc_word_length; lia].
    apply Hc; [done|rewrite enc_word_length; lia].
Qed.

(** A word that goes into the open run, and the last one of a full run. *)
Lemma pack_round_extend s buf k items run st w : overreads s = false → INT_MIN < pk_bufsz st ≤ INT_MAX →
  pack_inv s buf k items run st → grouped (words s) k items run → words s !! k = Some w → run ≠ [] →
  (6 ≤ length (nonzero w))%nat →
  ∃ st', round_free (Z.of_nat (length s)) (Z.of_nat (8 * k)) st = Ok st' ∧
    let '(items', run') := if (length run =? 255)%nat then (items ++ [Run (run ++ [w])], []) else (items, run ++ [w]) in
    pack_inv s buf (S k) items' run' st'.
Proof.
  intros Ho Hint Hinv Hg Hw Hne Hnz. pose proof (grouped_snoc _ _ _ _ _ Hg Hw) as Hsn. pose proof (gr_run _ _ _ _ Hg) as Hrk.
  destruct (pack_round_start s buf k items run st w Hint Hinv Hw) as (src & buf1 & Epad & Hsame & Eseg & Hl & Hst & _).
  pose proof (pi_ffn _ _ _ _ _ _ Hinv) as Hffn. pose proof (pi_pos _ _ _ _ _ _ Hinv) as Hpos.
  pose proof (pi_bufsz _ _ _ _ _ _ Hinv) as Hbz. pose proof (run_size_pos run Hne) as Hrs.
  assert (Hr0 : (0 < length run)%nat) by (destruct run; [done|cbn; lia]).
  assert (Hlw : length (run ++ [w]) = S (length run)) by (rewrite length_app; cbn; lia).
  assert (Hne' : run ++ [w] ≠ []) by (by destruct run). pose proof (run_size_pos _ Hne') as Hrs'.
  assert (Ein : in_run w (pk_ffn st) = true).
  { rewrite in_run_open by (by eapply word_length || lia). destruct (Nat.leb_spec 6 (length (nonzero w))); [done|lia]. }
  rewrite Ein in Eseg. unfold round_free. rewrite Epad, bind_ok, Eseg, bind_ok. cbv beta iota zeta.
  destruct (Z.gtb_spec (pk_ffn st) 0); [|lia]. change (8 =? 10) with false. change (8 =? 8) with true. cbn [andb].
  destruct (Nat.eqb_spec (length run) 255) as [H255|H255]; (destruct (Z.eqb_spec (pk_ffn st + 1) 256); [|]); try lia.
  - pose proof (not_overread _ _ _ _ _ Ho Hg Hw H255 Hnz) as Hks.
    assert (Hkw : (k < length (words s))%nat) by (by eapply lookup_lt_Some).
    destruct (flush_lemma s buf k items run st buf1 (pk_bufsz st - 8) (run ++ [w]) 2048 Hinv Hne)
      as (buf2 & Efl & Hl2 & Hst2); try done; try lia; [by rewrite Hlw|].
    change (256 * 8) with (Z.of_nat 2048). rewrite Efl, !bind_ok. eexists. split; [done|].
    assert (Hel : length (enc (items ++ [Run (run ++ [w])])) = (length (enc items) + run_size (run ++ [w]))%nat).
    { rewrite enc_snoc, length_app, (enc_run_length (run ++ [w])); [done| |done].
      apply Forall_app. split; [by eapply grouped_len8|]. apply Forall_singleton. by eapply word_length. }
    apply (pack_next_inv s buf k items run st src _ buf2 _ _ (items ++ [Run (run ++ [w])]) []); try done.
    + rewrite Hel. cbn [run_size]. lia.
    + rewrite Hel. intros Hfit. apply Hst2; [lia|]. apply Hst. lia.
  - rewrite bind_ok. eexists. split; [done|]. replace (pk_ffn st + 1) with (Z.of_nat (length (run ++ [w]))) by lia.
    apply (pack_next_inv s buf k items run st src 8 buf1 _ _ items (run ++ [w])); try done; [lia|].
    intros _. destruct (pi_ff _ _ _ _ _ _ Hinv Hne) as [Hd Hs]. split; [done|]. rewrite Hs, Hlw. do 3 f_equal.
Qed.

Lemma pack_round_lemma s buf k items run st w : overreads s = false → pack_fits s buf →
  pack_inv s buf k items run st → grouped (words s) k items run → words s !! k = Some w →
  ∃ st' items' run', pack_round (Z.of_nat (length s)) (Z.of_nat (8 * k)) st = Ok st' ∧
    pack_inv s buf (S k) items' run' st' ∧ grouped (words s) (S k) items' run'.
Proof.
  intros Ho Hfits Hinv Hg Hw. destruct (group_step (items, run) w) as [items' run'] eqn:Est.
  pose proof (grouped_step _ _ _ _ _ _ _ Hg Hw Est) as Hg'.
  pose proof (packed_int _ _ Hfits) as Hp. pose proof (pack_fits_words _ _ Hfits) as Hws. destruct Hfits as [_ Hbuf].
  assert (Hbound : ∀ k items run st, pack_inv s buf k items run st → grouped (words s) k items run →
    INT_MIN < pk_bufsz st ≤ INT_MAX ∧ INT_MIN ≤ pk_size st ≤ INT_MAX).
  { intros k0 items0 run0 st0 Hi0 Hg0. pose proof (grouped_size _ _ _ _ Hg0).
    rewrite (pi_size _ _ _ _ _ _ Hi0), (pi_bufsz _ _ _ _ _ _ Hi0), (pi_pos _ _ _ _ _ _ Hi0). unfold INT_MIN, INT_MAX in *. lia. }
  destruct (Hbound _ _ _ _ Hinv Hg) as [Hint _].
  cut (∃ st', round_free (Z.of_nat (length s)) (Z.of_nat (8 * k)) st = Ok st' ∧ pack_inv s buf (S k) items' run' st').
  { intros (st' & E & Hinv'). exists st', items', run'. split; [|done]. destruct (Hbound _ _ _ _ Hinv' Hg') as [Hb' Hs'].
    apply lookup_lt_Some in Hw. pose proof (words_length s) as Hwl. pose proof (Nat.div_mod (length s + 7) 8 ltac:(lia)).
    apply round_checked; try done; try lia. pose proof (Nat.mod_upper_bound (length s + 7) 8 ltac:(lia)). lia. }
  destruct run as [|w0 run0]; [by destruct (pack_round_closed _ _ _ _ _ _ Hint Hinv Hw) as (st' & ? & Hi); rewrite Est in Hi; eauto|].
  unfold group_step in Est. destruct (Nat.leb_spec 6 (length (nonzero w))) as [Hnz|Hnz].
  - destruct (pack_round_extend _ _ _ _ _ _ _ Ho Hint Hinv Hg Hw) as (st' & ? & Hi); [done|done|].
    destruct (length (w0 :: run0) =? 255)%nat; injection Est as <- <-; eauto.
  - injection Est as <- <-. by eapply pack_round_close.
Qed.

Lemma words_end s k : (k ≤ length (words s))%nat → (8 * k < length s)%nat ↔ (k < length (words s))%nat.
Proof.
  intros _. rewrite <- (lookup_lt_is_Some (words s)), words_lookup.
  destruct (Nat.ltb_spec (8 * k) (length s)); split; intros; [by eexists|done|lia|by destruct H0].
Qed.

Lemma pack_loop_lemma s buf : overreads s = false → pack_fits s buf →
  ∃ st items run,
    iterate (S (S (Z.to_nat (Z.of_nat (length s) / 8)))) (pack_step (Z.of_nat (length s)))
      (0, PackState (s, 0) buf 0 (Z.of_nat (length buf)) None 0 0 0) = Ok st ∧
    pack_inv s buf (length (words s)) items run st ∧ grouped (words s) (length (words s)) items run.
Proof.
  intros Ho Hfits. pose proof (pack_fits_words _ _ Hfits) as Hws.
  set (I := λ st : Z * pack_state, ∃ k items run, st.1 = Z.of_nat (8 * k) ∧ (k ≤ length (words s))%nat ∧
    pack_inv s buf k items run st.2 ∧ grouped (words s) k items run).
  set (Q := λ st : pack_state, ∃ items run,
    pack_inv s buf (length (words s)) items run st ∧ grouped (words s) (length (words s)) items run).
  destruct (iterate_total I Q (λ st, Z.to_nat (Z.of_nat (length (words s)) - st.1 / 8)) (pack_step (Z.of_nat (length s))))
    with (fuel := S (S (Z.to_nat (Z.of_nat (length s) / 8)))) (s := (0, PackState (s, 0) buf 0 (Z.of_nat (length buf)) None 0 0 0))
    as (st & Hrun & items & run & Hst); [| | |by exists st, items, run].
  - intros [i st] (k & items & run & Hi & Hk & Hinv & Hg). cbn [fst snd] in *. subst i. unfold pack_step.
    pose proof (words_end s k Hk) as Hend.
    destruct (Z.ltb_spec (Z.of_nat (8 * k)) (Z.of_nat (length s))) as [Hlt|Hge].
    + right. destruct (lookup_lt_is_Some_2 (words s) k) as [w Hw]; [apply Hend; lia|].
      destruct (pack_round_lemma s buf k items run st w Ho Hfits Hinv Hg Hw) as (st' & items' & run' & -> & Hinv' & Hg').
      rewrite bind_ok. assert (Hk' : (k < length (words s))%nat) by (apply Hend; lia).
      rewrite int_chk_ok, bind_ok by (unfold INT_MIN; lia).
      eexists. split; [done|]. split.
      * exists (S k), items', run'. cbn [fst snd]. split; [lia|]. split; [lia|done].
      * cbn [fst]. replace (Z.of_nat (8 * k) + 8) with (Z.of_nat (S k) * 8) by lia.
        replace (Z.of_nat (8 * k)) with (Z.of_nat k * 8) by lia. rewrite !Z.div_mul by lia. lia.
    + left. assert (k = length (words s)) as -> by lia. eexists. split; [done|]. by exists items, run.
  - exists 0%nat, [], []. split; [done|]. split; [lia|]. split; [|apply grouped_nil].
    split; cbn [pk_src pk_buf pk_pos pk_bufsz pk_ffsrc pk_ffdes pk_ffn pk_size snd]; try done. cbn. lia.
  - cbn [fst]. rewrite words_length. change (0 / 8) with 0. rewrite Nat2Z.inj_div, Nat2Z.inj_add.
    change (Z.of_nat 7) with 7. change (Z.of_nat 8) with 8.
    assert ((Z.of_nat (length s) + 7) / 8 ≤ Z.of_nat (length s) / 8 + 1).
    { rewrite <- Z.div_add by lia. apply Z.div_le_mono; lia. }
    pose proof (Z.div_pos (Z.of_nat (length s)) 8 ltac:(lia) ltac:(lia)). lia.
Qed.

(** The open run at the end of the input. *)
Lemma pack_end_lemma s buf items run st :
  pack_inv s buf (length (words s)) items run st → grouped (words s) (length (words s)) items run →
  ∃ buf', (if pk_ffn st =? 1 then flush_ff st (pk_bufsz st) 8 (pk_buf st)
           else if pk_ffn st >? 1 then
             flush_ff st (pk_bufsz st) (Z.of_nat (length s) - from_option snd 0 (pk_ffsrc st)) (pk_buf st)
           else Ok (pk_buf st)) = Ok buf' ∧ length buf' = length buf ∧
    ((length (packed s) ≤ length buf)%nat → starts buf' (packed s)) ∧
    pk_size st = Z.of_nat (length (packed s)).
Proof.
  intros Hinv Hg. pose proof (grouped_len8 _ _ _ _ Hg) as Hl8. destruct Hg as [Hf Hrk Hrw Hh].
  pose proof (pi_ffn _ _ _ _ _ _ Hinv) as Hffn. pose proof (pi_pos _ _ _ _ _ _ Hinv) as Hpos.
  pose proof (pi_bufsz _ _ _ _ _ _ Hinv) as Hbz. rewrite take_ge in Hf by lia.
  rewrite (pi_size _ _ _ _ _ _ Hinv). unfold packed, groups, group_end. rewrite Hf. cbn [fst snd].
  destruct (decide (run = [])) as [->|Hne].
  { cbn [length] in Hffn. change (Z.of_nat 0) with 0 in Hffn. rewrite Hffn. cbn [run_size] in Hpos. rewrite app_nil_r.
    exists (pk_buf st). split; [done|]. split; [by apply (pi_len _ _ _ _ _ _ Hinv)|].
    split; [apply (pi_enc _ _ _ _ _ _ Hinv)|lia]. }
  assert (Hr0 : (0 < length run)%nat) by (destruct run; [done|cbn; lia]).
  assert (Hlen : length (enc (items ++ [Run run])) = (length (enc items) + run_size run)%nat)
    by (by rewrite enc_snoc, length_app, enc_run_length).
  assert (Hm : match run with [] => [] | w :: l => [Run (w :: l)] end = [Run run]) by (by destruct run).
  rewrite Hm.
  set (j := (length (words s) - length run)%nat) in *.
  pose proof (words_end s (length (words s) - 1) ltac:(lia)) as Hwl. pose proof (words_end s (length (words s)) ltac:(lia)) as Hwe.
  assert (Hn : ∃ n, (if pk_ffn st =? 1 then flush_ff st (pk_bufsz st) 8 (pk_buf st)
           else if pk_ffn st >? 1 then
             flush_ff st (pk_bufsz st) (Z.of_nat (length s) - from_option snd 0 (pk_ffsrc st)) (pk_buf st)
           else Ok (pk_buf st)) = flush_ff st (pk_bufsz st) (Z.of_nat n) (pk_buf st) ∧
    (8 * j + n ≤ length s ∧ (n = 8 * length run ∨ 8 * j + n = length s) ∧ 8 * (length run - 1) < n ≤ 8 * length run)%nat).
  { destruct (Z.eqb_spec (pk_ffn st) 1) as [H1|H1].
    - exists 8%nat. split; [done|]. destruct (lookup_lt_is_Some_2 (words s) j) as [w Hw]; [unfold j; lia|].
      assert (Hhw : head run = Some w). { rewrite Hrw, head_lookup, lookup_take_lt, lookup_drop, Nat.add_0_r by lia. done. }
      pose proof (nonzero_word s j w Hw) as Hnz. rewrite (Hh w Hhw) in Hnz. lia.
    - destruct (Z.gtb_spec (pk_ffn st) 1); [|lia]. destruct (pi_ff _ _ _ _ _ _ Hinv Hne) as [_ Hsrc].
      exists (length s - 8 * j)%nat. rewrite Hsrc. cbn [from_option snd]. fold j. unfold j in *.
      split; [f_equal|]; lia. }
  destruct Hn as (n & -> & Hn1 & Hn2 & Hn3).
  destruct (flush_lemma s buf (length (words s)) items run st (pk_buf st) (pk_bufsz st) run n Hinv Hne)
    as (buf' & Efl & Hl & Hst); try done; try (unfold j in *; lia); [by apply (pi_len _ _ _ _ _ _ Hinv)|].
  exists buf'. split; [done|]. split; [done|]. rewrite Hlen. split; [|lia].
  intros Hfit. apply Hst; [lia|]. apply (pi_enc _ _ _ _ _ _ Hinv). lia.
Qed.

(** ** The theorem *)

Lemma sproto_pack_lemma s buf : overreads s = false → pack_fits s buf →
  ∃ buf', sproto_pack s (Z.of_nat (length s)) buf (Z.of_nat (length buf)) = Ok (Z.of_nat (length (packed s)), buf') ∧
    length buf' = length buf ∧
    ((length (packed s) ≤ length buf)%nat → take (length (packed s)) buf' = map Some (packed s)).
Proof.
  intros Ho Hfits. destruct (pack_loop_lemma s buf Ho Hfits) as (st & items & run & Eloop & Hinv & Hg).
  destruct (pack_end_lemma s buf items run st Hinv Hg) as (buf' & Eend & Hl & Hst & Hsz).
  exists buf'. unfold sproto_pack. rewrite Eloop, bind_ok, Eend, bind_ok, Hsz. done.
Qed.

(** C34.  Packing is correct, where [overreads] is false.  For every input but those whose last
    full run ends in an incomplete word - there the code copies bytes from behind the end of its
    source, [sproto_pack_overread] - and that [lpack] can reserve a buffer for, and whatever the
    size of the buffer, no [int] overflows, [sproto_pack] returns the size of the reference
    encoding and touches no memory outside the source and the buffer; when the buffer is large
    enough it holds the encoding; and what [lpack] reserves is large enough. *)
Theorem sproto_pack_correct s buf :
  overreads s = false → pack_fits s buf →
  (∃ buf', sproto_pack s (Z.of_nat (length s)) buf (Z.of_nat (length buf)) = Ok (Z.of_nat (length (packed s)), buf') ∧
    length buf' = length buf ∧
    ((length (packed s) ≤ length buf)%nat → take (length (packed s)) buf' = map Some (packed s))) ∧
  Z.of_nat (length (packed s)) ≤ lpack_maxsz (Z.of_nat (length s)).
Proof. intros Ho Hfits. split; [by apply sproto_pack_lemma|apply packed_bound]. Qed.

(** 255 words without zeros and one of seven bytes: the copy of the last run reads the byte
    behind the input. *)
Example sproto_pack_overread :
  let s := replicate 2047 1 in
  overreads s = true ∧
  sproto_pack s 2047 (replicate 2051 None) 2051 = Fault OutOfBounds.
Proof. by vm_compute. Qed.

(** A run of two words, a word that closes it and an incomplete word. *)
Lemma sproto_pack_correct_witness :
  let s := [1; 2; 3; 4; 5; 6; 7; 8; 9; 0; 11; 0; 13; 14; 15; 16; 0; 0; 0; 0; 0; 0; 0; 1; 0; 5] in
  overreads s = false ∧
  packed s = [0xff; 1; 1; 2; 3; 4; 5; 6; 7; 8; 9; 0; 11; 0; 13; 14; 15; 16; 0x80; 1; 2; 5] ∧
  (∃ buf', sproto_pack s 26 (replicate 30 None) 30 = Ok (22, buf') ∧ take 22 buf' = map Some (packed s)) ∧
  22 ≤ lpack_maxsz 26.
Proof.
  cbv zeta. set (s := [1; 2; 3; 4; 5; 6; 7; 8; 9; 0; 11; 0; 13; 14; 15; 16; 0; 0; 0; 0; 0; 0; 0; 1; 0; 5]).
  assert (Ho : overreads s = false) by (by vm_compute).
  assert (Hfits : pack_fits s (replicate 30 None)) by (by vm_compute).
  destruct (sproto_pack_correct s (replicate 30 None) Ho Hfits) as [(buf' & E & _ & Hb) Hm].
  split; [exact Ho|]. split; [by vm_compute|]. split; [|exact Hm].
  exists buf'. split; [exact E|]. apply Hb. apply (bool_decide_unpack _). by vm_compute.
Defined.
