(* ===== verification/SprotoUnpack.v ===== *)
(** [sproto_unpack] against a decoder on lists of bytes, and its inverse, [sproto_pack].

    The length checks of the code let it read one byte behind its input, so that what it
    answers for an input that ends in the middle of a word depends on that byte; the decoder
    has it as an argument. *)

From S2P Require Import Prelude Frames SprotoPack SprotoPackProps SprotoPacking.
Open Scope Z_scope.

(** ** The decoder *)

(** The bytes of a word from its tag: a byte of the input for every bit that is set. *)
Fixpoint spread (n : nat) (i header : Z) (l : list Z) : option (list Z * list Z) :=
  match n with
  | O => Some ([], l)
  | S n =>
      if Z.testbit header i then
        match l with
        | [] => None
        | c :: l => '(w, rest) ← spread n (i + 1) header l; Some (c :: w, rest)
        end
      else '(w, rest) ← spread n (i + 1) header l; Some (0 :: w, rest)
  end.

(** One word or run behind its first byte: its bytes and what is left. *)
Definition decode_item (extra : nat) (header : Z) (r : list Z) : option (list Z * list Z) :=
  if header =? 0xff then
    match r with
    | [] => None
    | c :: r =>
        let n := Z.to_nat ((c + 1) * 8) in
        if (length r <? n + extra)%nat then None else Some (take n r, drop n r)
    end
  else spread 8 0 header r.

(** [extra] is the number of bytes of [l] that are behind the input. *)
Fixpoint decode (extra fuel : nat) (l : list Z) : option (list Z) :=
  match fuel, l with
  | O, _ => None
  | S _, [] => Some []
  | S fuel, header :: r =>
      if (length l <=? extra)%nat then Some []
      else '(w, r) ← decode_item extra header r; out ← decode extra fuel r; Some (w ++ out)
  end.

(** What the packed bytes [s] stand for, if they are valid; [t] is the byte behind them. *)
Definition unpacked (s : list Z) (t : Z) : option (list Z) := decode 1 (S (length s)) (s ++ [t]).

(** How many bytes the decoder gives before it ends or rejects: in a word, and in all.  The code
    counts them in an [int]. *)
Fixpoint spread_count (n : nat) (i header : Z) (l : list Z) : nat :=
  match n with
  | O => 0
  | S n =>
      if Z.testbit header i then
        match l with [] => 0 | _ :: l => S (spread_count n (i + 1) header l) end
      else S (spread_count n (i + 1) header l)
  end.

Definition item_count (extra : nat) (header : Z) (r : list Z) : nat :=
  if header =? 0xff then match decode_item extra header r with Some (w, _) => length w | None => 0 end
  else spread_count 8 0 header r.

Fixpoint decode_count (extra fuel : nat) (l : list Z) : nat :=
  match fuel, l with
  | O, _ | S _, [] => 0
  | S fuel, header :: r =>
      if (length l <=? extra)%nat then 0
      else item_count extra header r +
           match decode_item extra header r with Some (_, r) => decode_count extra fuel r | None => 0 end
  end.

Definition unpacked_count (s : list Z) (t : Z) : Z := Z.of_nat (decode_count 1 (S (length s)) (s ++ [t])).

Lemma spread_count_some n : ∀ i h l w r, spread n i h l = Some (w, r) → spread_count n i h l = length w.
Proof.
  induction n as [|n IH]; intros i h l w r Hs; cbn [spread spread_count] in *; [by injection Hs as <- <-|].
  destruct (Z.testbit h i); [destruct l as [|c l]; [done|]|];
    (destruct (spread n (i + 1) h l) as [[w' r']|] eqn:E; [|done]); injection Hs as <- <-; cbn [length];
    by rewrite (IH _ _ _ _ _ E).
Qed.

Lemma item_count_some extra h r w r' : decode_item extra h r = Some (w, r') → item_count extra h r = length w.
Proof.
  unfold item_count. intros E. rewrite E. unfold decode_item in E. destruct (h =? 0xff); [done|]. by eapply spread_count_some.
Qed.

Lemma decode_count_some extra fuel : ∀ l out, decode extra fuel l = Some out → decode_count extra fuel l = length out.
Proof.
  induction fuel as [|fuel IH]; intros l out E; [done|]. cbn [decode decode_count] in *. destruct l as [|h r]; [by injection E as <-|].
  destruct (_ <=? _)%nat; [by injection E as <-|]. destruct (decode_item extra h r) as [[w r']|] eqn:Ei; [|done]. cbn in E.
  destruct (decode extra fuel r') as [out'|] eqn:Ed; [|done]. cbn in E. injection E as <-.
  by rewrite length_app, (item_count_some _ _ _ _ _ Ei), (IH _ _ Ed).
Qed.

(** ** The state of the loop *)

(** [l] is the rest of the memory that holds the input, [out] what has been decoded. *)
Record unpack_inv (src : list Z) (extra : nat) (buf : buffer) (l out : list Z) (s : unpack_state) : Prop := {
  ui_src : 0 ≤ up_src s ∧ drop (Z.to_nat (up_src s)) src = l;
  ui_srcsz : up_srcsz s = Z.of_nat (length l) - Z.of_nat extra;
  ui_len : length (up_buf s) = length buf;
  ui_pos : 0 ≤ up_pos s;
  ui_bufsz : up_bufsz s = Z.of_nat (length buf) - up_pos s;
  ui_size : up_size s = Z.of_nat (length out);
  ui_int : Z.of_nat (length out) ≤ INT_MAX ∧ Z.of_nat (length buf) - Z.of_nat (length out) ≤ up_bufsz s ≤ INT_MAX;
  ui_out : (length out ≤ length buf)%nat → up_pos s = Z.of_nat (length out) ∧ starts (up_buf s) out
}.

Lemma rd_rest src p (c : Z) l : 0 ≤ p → drop (Z.to_nat p) src = c :: l →
  rd src p = Ok c ∧ drop (Z.to_nat (p + 1)) src = l.
Proof.
  intros Hp Hl. split.
  - apply rd_ok; [done|]. rewrite <- (Nat.add_0_r (Z.to_nat p)), <- lookup_drop, Hl. done.
  - replace (Z.to_nat (p + 1)) with (Z.to_nat p + 1)%nat by lia. by rewrite <- drop_drop, Hl.
Qed.

Lemma out_byte_lemma src extra buf l l' out s c p n :
  unpack_inv src extra buf l out s → 0 ≤ p → drop (Z.to_nat p) src = l' → n = Z.of_nat (length l') - Z.of_nat extra →
  ∃ buf' pos' bufsz', out_byte (Ok c) s = Ok (buf', pos', bufsz') ∧
    (Z.of_nat (length out) < INT_MAX →
     unpack_inv src extra buf l' (out ++ [c]) (UnpackState p n buf' pos' bufsz' (up_size s + 1))).
Proof.
  intros [Hs Hz Hl Hp Hb Hsz Hi Ho] Hp' Hl' Hn. unfold out_byte.
  assert (Hlen : length (out ++ [c]) = S (length out)) by (rewrite length_app; cbn; lia).
  destruct (Z.gtb_spec (up_bufsz s) 0) as [Hroom|Hfull].
  - assert (Ewr : wr (up_buf s) (up_pos s) (Some c) = Ok (splice (up_buf s) (Z.to_nat (up_pos s)) [c])).
    { rewrite <- wr_splice by lia. by rewrite Z2Nat.id by lia. }
    rewrite bind_ok, Ewr, bind_ok. do 3 eexists. split; [done|]. intros Hlt.
    split; cbn [up_src up_srcsz up_buf up_pos up_bufsz up_size]; try done; try lia.
    + rewrite splice_length; [done|cbn [length]; lia].
    + rewrite Hlen. intros Hfit. destruct Ho as [Hpo Hst]; [lia|]. split; [lia|].
      rewrite Hpo, Nat2Z.id. apply starts_splice; [done|]. cbn [length]. lia.
  - do 3 eexists. split; [done|]. intros Hlt. split; cbn [up_src up_srcsz up_buf up_pos up_bufsz up_size]; try done; try lia.
Qed.

(** ** One word *)

Lemma unpack_bit_none src h n : ∀ i, for_range n i (unpack_bit src h) None = Ok None.
Proof. induction n as [|n IH]; intros i; [done|]. cbn [for_range unpack_bit]. rewrite bind_ok. apply IH. Qed.

(** One bit: a byte of the input, or a zero, and the size is checked. *)
Lemma unpack_bit_set src extra buf h i c l out s : Z.testbit h i = true → (extra ≤ 1)%nat →
  unpack_inv src extra buf (c :: l) out s →
  if decide (Z.of_nat (length out) < INT_MAX)
  then ∃ s', unpack_bit src h i (Some s) = Ok (Some s') ∧ unpack_inv src extra buf l (out ++ [c]) s'
  else unpack_bit src h i (Some s) = Fault IntOverflow.
Proof.
  intros Ebit He Hinv. pose proof Hinv as [[Hs0 Hs] Hz _ _ _ Hsz _ _]. destruct (rd_rest _ _ _ _ Hs0 Hs) as [Erd Hrest]. cbn [length] in Hz.
  destruct (out_byte_lemma src extra buf _ l out s c (up_src s + 1) (up_srcsz s - 1) Hinv)
    as (buf' & pos' & bufsz' & Eo & Hinv'); [lia|done|lia|].
  unfold unpack_bit. rewrite Ebit. destruct (Z.ltb_spec (up_srcsz s) 0); [lia|]. rewrite Erd, Eo, bind_ok, Hsz in *.
  destruct (decide _) as [Hlt|Hge]; [|by rewrite int_chk_over by lia].
  rewrite int_chk_ok, bind_ok by (unfold INT_MIN; lia). eexists. split; [done|]. by apply Hinv'.
Qed.

Lemma unpack_bit_clear src extra buf h i l out s : Z.testbit h i = false →
  unpack_inv src extra buf l out s →
  if decide (Z.of_nat (length out) < INT_MAX)
  then ∃ s', unpack_bit src h i (Some s) = Ok (Some s') ∧ unpack_inv src extra buf l (out ++ [0]) s'
  else unpack_bit src h i (Some s) = Fault IntOverflow.
Proof.
  intros Ebit Hinv. pose proof Hinv as [[Hs0 Hs] Hz _ _ _ Hsz _ _].
  destruct (out_byte_lemma src extra buf _ l out s 0 (up_src s) (up_srcsz s) Hinv)
    as (buf' & pos' & bufsz' & Eo & Hinv'); [done|done|done|].
  unfold unpack_bit. rewrite Ebit, Eo, bind_ok, Hsz in *.
  destruct (decide _) as [Hlt|Hge]; [|by rewrite int_chk_over by lia].
  rewrite int_chk_ok, bind_ok by (unfold INT_MIN; lia). eexists. split; [done|]. by apply Hinv'.
Qed.

Lemma unpack_bits src extra buf h n : ∀ i l out s, (extra ≤ 1)%nat →
  unpack_inv src extra buf l out s →
  if decide (Z.of_nat (length out + spread_count n i h l) ≤ INT_MAX)
  then match spread n i h l with
       | Some (w, l') => ∃ s', for_range n i (unpack_bit src h) (Some s) = Ok (Some s') ∧
           unpack_inv src extra buf l' (out ++ w) s'
       | None => extra = 1%nat → for_range n i (unpack_bit src h) (Some s) = Ok None
       end
  else for_range n i (unpack_bit src h) (Some s) = Fault IntOverflow.
Proof.
  induction n as [|n IH]; intros i l out s He Hinv; cbn [spread spread_count for_range].
  { pose proof (ui_int _ _ _ _ _ _ Hinv). destruct (decide _); [|lia]. exists s. by rewrite app_nil_r. }
  assert (Hnext : ∀ c l', (if decide (Z.of_nat (length out) < INT_MAX)
      then ∃ s', unpack_bit src h i (Some s) = Ok (Some s') ∧ unpack_inv src extra buf l' (out ++ [c]) s'
      else unpack_bit src h i (Some s) = Fault IntOverflow) →
    if decide (Z.of_nat (length out + S (spread_count n (i + 1) h l')) ≤ INT_MAX)
    then match ('(w, rest) ← spread n (i + 1) h l'; Some (c :: w, rest)) with
         | Some (w, l'') => ∃ s', (s' ← unpack_bit src h i (Some s); for_range n (i + 1) (unpack_bit src h) s') = Ok (Some s') ∧
             unpack_inv src extra buf l'' (out ++ w) s'
         | None => extra = 1%nat → (s' ← unpack_bit src h i (Some s); for_range n (i + 1) (unpack_bit src h) s') = Ok None
         end
    else (s' ← unpack_bit src h i (Some s); for_range n (i + 1) (unpack_bit src h) s') = Fault IntOverflow).
  { intros c l' Hbit. destruct (decide (Z.of_nat (length out) < INT_MAX)) as [Hlt|Hge].
    - destruct Hbit as (s1 & E & Hinv1). rewrite E, bind_ok. specialize (IH (i + 1) l' (out ++ [c]) s1 He Hinv1).
      rewrite length_app in IH. cbn [length] in IH. rewrite <- Nat.add_assoc in IH. cbn [Nat.add] in IH.
      destruct (decide _); [|done]. destruct (spread n (i + 1) h l') as [[w rest]|]; [|done]. cbn. by rewrite <- (assoc_L (++)) in IH.
    - rewrite Hbit. destruct (decide _); [lia|done]. }
  destruct (Z.testbit h i) eqn:Ebit; [|by apply Hnext, unpack_bit_clear].
  destruct l as [|c l]; [|by apply Hnext, unpack_bit_set].
  pose proof (ui_int _ _ _ _ _ _ Hinv). cbv iota. rewrite Nat.add_0_r, decide_True by lia. intros ->. pose proof (ui_srcsz _ _ _ _ _ _ Hinv) as Hz. cbn [length] in Hz.
  assert (E : unpack_bit src h i (Some s) = Ok None).
  { unfold unpack_bit. rewrite Ebit. destruct (Z.ltb_spec (up_srcsz s) 0); [done|lia]. }
  rewrite E, bind_ok. apply unpack_bit_none.
Qed.

(** ** A run *)

Lemma unpack_ff_lemma src extra buf l out s : (extra ≤ 1)%nat → Forall byte l → unpack_inv src extra buf l out s →
  match l with
  | [] => extra = 1%nat → unpack_ff src s = Ok None
  | c :: r =>
      let n := Z.to_nat ((c + 1) * 8) in
      if (length r <? n + extra)%nat then unpack_ff src s = Ok None
      else if decide (Z.of_nat (length out + length (take n r)) ≤ INT_MAX)
      then ∃ s', unpack_ff src s = Ok (Some s') ∧ unpack_inv src extra buf (drop n r) (out ++ take n r) s'
      else unpack_ff src s = Fault IntOverflow
  end.
Proof.
  intros He Hbyte Hinv. pose proof Hinv as [[Hs0 Hs] Hz Hl Hp Hb Hsz Hi Ho]. unfold unpack_ff. destruct l as [|c r].
  { intros ->. cbn [length] in Hz. by destruct (Z.ltb_spec (up_srcsz s) 0); [|lia]. }
  apply Forall_cons in Hbyte as [Hc _]. unfold byte in Hc. cbn [length] in Hz.
  destruct (rd_rest _ _ _ _ Hs0 Hs) as [Erd Hrest].
  destruct (Z.ltb_spec (up_srcsz s) 0); [lia|]. rewrite Erd, bind_ok. cbv zeta.
  set (n := Z.to_nat ((c + 1) * 8)). assert (Hn : (c + 1) * 8 = Z.of_nat n) by lia. rewrite Hn.
  destruct (Nat.ltb_spec (length r) (n + extra)), (Z.ltb_spec (up_srcsz s) (Z.of_nat n + 1)); try lia; [done|].
  assert (Hlen : length (take n r) = n) by (rewrite length_take; lia).
  assert (Hlen' : length (out ++ take n r) = (length out + n)%nat) by (rewrite length_app; lia).
  assert (Hdrop : drop (Z.to_nat (up_src s + 1 + Z.of_nat n)) src = drop n r).
  { replace (Z.to_nat (up_src s + 1 + Z.of_nat n)) with (Z.to_nat (up_src s + 1) + n)%nat by lia.
    by rewrite <- drop_drop, Hrest. }
  assert (Hchk : ∀ buf2, length buf2 = length buf →
    ((length (out ++ take n r) ≤ length buf)%nat → starts buf2 (out ++ take n r)) →
    if decide (Z.of_nat (length out + length (take n r)) ≤ INT_MAX)
    then ∃ s', (bufsz ← int_chk (up_bufsz s - Z.of_nat n); size ← int_chk (up_size s + Z.of_nat n);
        Ok (Some (UnpackState (up_src s + 1 + Z.of_nat n) (up_srcsz s - (Z.of_nat n + 1)) buf2 (up_pos s + Z.of_nat n) bufsz size))) =
        Ok (Some s') ∧ unpack_inv src extra buf (drop n r) (out ++ take n r) s'
    else (bufsz ← int_chk (up_bufsz s - Z.of_nat n); size ← int_chk (up_size s + Z.of_nat n);
        Ok (Some (UnpackState (up_src s + 1 + Z.of_nat n) (up_srcsz s - (Z.of_nat n + 1)) buf2 (up_pos s + Z.of_nat n) bufsz size))) =
        Fault IntOverflow).
  { intros buf2 Hl2 Hst2. rewrite Hsz, Hlen. assert (n ≤ 2048)%nat by lia. destruct (decide _) as [Hfit|Hover].
    - rewrite !int_chk_ok, bind_ok by (unfold INT_MIN, INT_MAX in *; lia). rewrite bind_ok.
      eexists. split; [done|]. split; cbn [up_src up_srcsz up_buf up_pos up_bufsz up_size]; try (rewrite ?length_drop; lia).
      + split; [lia|done].
      + intros Hfit'. destruct Ho as [Hpo _]; [lia|]. split; [lia|]. by apply Hst2.
    - rewrite (int_chk_over (_ + _)) by lia. by destruct (int_chk _) as [|f] eqn:E; [|unfold int_chk in E; case_bool_decide; [done|injection E as <-]]. }
  destruct (Z.geb_spec (up_bufsz s) (Z.of_nat n)) as [Hroom|Hfull].
  - assert (Hsl : length src = (Z.to_nat (up_src s + 1) + length r)%nat).
    { pose proof (f_equal length Hs) as E. rewrite length_drop in E. cbn [length] in E. lia. }
    rewrite rd_at_ok, !Nat2Z.id, Hrest, bind_ok by lia.
    assert (Ewr : wr_at (up_buf s) (up_pos s) (take n r) = Ok (splice (up_buf s) (Z.to_nat (up_pos s)) (take n r))).
    { rewrite <- wr_at_splice by lia. by rewrite Z2Nat.id by lia. }
    rewrite Ewr, bind_ok. apply Hchk; [rewrite splice_length; lia|].
    intros Hfit. destruct Ho as [Hpo Hst]; [lia|]. rewrite Hpo, Nat2Z.id. apply starts_splice; [done|lia].
  - rewrite bind_ok. apply Hchk; [done|]. intros Hfit. destruct Ho as [Hpo Hst]; lia.
Qed.

(** ** The loop *)

Lemma spread_rest n : ∀ i h l w r, spread n i h l = Some (w, r) → ∃ l1, l = l1 ++ r.
Proof.
  induction n as [|n IH]; intros i h l w r Hs; cbn [spread] in Hs; [injection Hs as <- <-; by exists []|].
  destruct (Z.testbit h i); [destruct l as [|c l]; [done|]|];
    (destruct (spread n (i + 1) h l) as [[w' r']|] eqn:E; [|done]); injection Hs as <- <-;
    destruct (IH _ _ _ _ _ E) as [l1 ->]; [by exists (c :: l1)|by exists l1].
Qed.

Lemma decode_item_rest extra h r w r' : decode_item extra h r = Some (w, r') → ∃ l1, r = l1 ++ r'.
Proof.
  unfold decode_item. destruct (h =? 0xff); [|apply spread_rest]. destruct r as [|c r]; [done|]. cbv zeta.
  destruct (_ <? _)%nat; [done|]. intros [= <- <-]. exists (c :: take (Z.to_nat ((c + 1) * 8)) r). cbn [app]. by rewrite take_drop.
Qed.

Lemma unpack_round_lemma src extra buf h r out s : (extra ≤ 1)%nat → (extra ≤ length r)%nat → Forall byte r →
  unpack_inv src extra buf (h :: r) out s →
  if decide (Z.of_nat (length out + item_count extra h r) ≤ INT_MAX)
  then match decode_item extra h r with
       | Some (w, r') => ∃ s', unpack_round src s = Ok (Continue s') ∧ unpack_inv src extra buf r' (out ++ w) s'
       | None => extra = 1%nat → unpack_round src s = Ok (Break (-1, up_buf s))
       end
  else unpack_round src s = Fault IntOverflow.
Proof.
  intros He Hlen Hbyte Hinv. pose proof Hinv as [[Hs0 Hs] Hz Hl Hp Hb Hsz Hi Ho].
  destruct (rd_rest _ _ _ _ Hs0 Hs) as [Erd Hrest]. cbn [length] in *.
  unfold unpack_round. destruct (Z.gtb_spec (up_srcsz s) 0); [|lia]. rewrite Erd, bind_ok. cbv zeta.
  set (s1 := UnpackState (up_src s + 1) (up_srcsz s - 1) (up_buf s) (up_pos s) (up_bufsz s) (up_size s)).
  assert (Hinv1 : unpack_inv src extra buf r out s1) by (split; unfold s1; cbn; first [done | lia | by split; [lia|]]).
  unfold item_count, decode_item. destruct (h =? 0xff).
  - pose proof (unpack_ff_lemma src extra buf r out s1 He Hbyte Hinv1) as Hff. destruct r as [|c r].
    { destruct (decide _); [|lia]. intros H1. by rewrite (Hff H1), bind_ok. }
    cbv zeta in *. destruct (_ <? _)%nat; [destruct (decide _); [by rewrite Hff, bind_ok|lia]|].
    destruct (decide _); [|by rewrite Hff]. destruct Hff as (s' & -> & Hinv'). rewrite bind_ok. by exists s'.
  - pose proof (unpack_bits src extra buf h 8 0 r out s1 He Hinv1) as Hbits. destruct (decide _); [|by rewrite Hbits].
    destruct (spread 8 0 h r) as [[w r']|]; [|intros H1; by rewrite (Hbits H1), bind_ok].
    destruct Hbits as (s' & -> & Hinv'). rewrite bind_ok. by exists s'.
Qed.

Lemma unpack_loop src extra buf fuel : ∀ l out s, (extra ≤ 1)%nat → Forall byte l → unpack_inv src extra buf l out s →
  (length l - extra < fuel)%nat →
  if decide (Z.of_nat (length out + decode_count extra fuel l) ≤ INT_MAX)
  then match decode extra fuel l with
       | Some out' => ∃ buf', iterate fuel (unpack_round src) s = Ok (Z.of_nat (length (out ++ out')), buf') ∧
           length buf' = length buf ∧ ((length (out ++ out') ≤ length buf)%nat → starts buf' (out ++ out'))
       | None => extra = 1%nat → ∃ buf', iterate fuel (unpack_round src) s = Ok (-1, buf')
       end
  else iterate fuel (unpack_round src) s = Fault IntOverflow.
Proof.
  induction fuel as [|fuel IH]; intros l out s He Hbyte Hinv Hfuel; [lia|].
  pose proof Hinv as [_ Hz Hl _ _ Hsz Hi Ho].
  assert (Hend : up_srcsz s ≤ 0 → ∃ buf', iterate (S fuel) (unpack_round src) s = Ok (Z.of_nat (length (out ++ [])), buf') ∧
      length buf' = length buf ∧ ((length (out ++ []) ≤ length buf)%nat → starts buf' (out ++ []))).
  { intros Hle. assert (E : unpack_round src s = Ok (Break (up_size s, up_buf s)))
      by (unfold unpack_round; destruct (Z.gtb_spec (up_srcsz s) 0); [lia|done]).
    cbn [iterate]. rewrite E, bind_ok, app_nil_r, Hsz. exists (up_buf s). split; [done|]. split; [done|]. intros Hfit. by apply Ho. }
  cbn [decode decode_count]. destruct l as [|h r]; [destruct (decide _); [apply Hend; cbn [length] in Hz|]; lia|].
  destruct (Nat.leb_spec (length (h :: r)) extra) as [Hle|Hgt]; [destruct (decide _); [apply Hend|]; lia|]. clear Hend.
  apply Forall_cons in Hbyte as [_ Hr]. cbn [length] in Hgt, Hfuel.
  pose proof (unpack_round_lemma src extra buf h r out s He ltac:(lia) Hr Hinv) as Hround.
  pose proof (decode_item_rest extra h r) as Hrest. pose proof (item_count_some extra h r) as Hcount. cbn [iterate].
  destruct (decide (Z.of_nat (length out + item_count extra h r) ≤ INT_MAX)) as [Hfit|Hover];
    [|rewrite Hround; destruct (decide _); [lia|done]].
  destruct (decode_item extra h r) as [[w r']|]; cbn;
    [|destruct (decide _); [|lia]; intros H1; rewrite (Hround H1), bind_ok; by eexists].
  destruct Hround as (s' & -> & Hinv'). rewrite bind_ok. destruct (Hrest w r' eq_refl) as [l1 ->]. rewrite (Hcount w r' eq_refl) in *.
  rewrite length_app in Hfuel, Hgt. apply Forall_app in Hr as [_ Hr].
  specialize (IH r' (out ++ w) s' He Hr Hinv' ltac:(lia)). rewrite length_app, <- Nat.add_assoc in IH.
  destruct (decide _); [|done]. destruct (decode extra fuel r') as [out'|]; cbn; [|done]. by rewrite <- (assoc_L (++)) in IH.
Qed.

Lemma unpack_start src extra buf l : Z.of_nat (length buf) ≤ INT_MAX → src = l → (extra ≤ length l)%nat →
  unpack_inv src extra buf l [] (UnpackState 0 (Z.of_nat (length l) - Z.of_nat extra) buf 0 (Z.of_nat (length buf)) 0).
Proof.
  intros Hb -> He. split; cbn [up_src up_srcsz up_buf up_pos up_bufsz up_size length]; try done; try lia.
Qed.

(** C35.  Unpacking is the decoder, for every sequence of bytes, valid or not, and every buffer
    of which the size is an [int].  As long as the number of bytes the decoder gives before it
    ends or rejects is an [int], [sproto_unpack] returns the size of the decoded bytes or -1,
    writes nothing outside the buffer, reads at most one byte behind its input, and fills the
    buffer when it is large enough; when that number is larger, the [int] that counts it
    overflows. *)
Theorem sproto_unpack_correct s t buf :
  Forall byte s → byte t → Z.of_nat (length buf) ≤ INT_MAX →
  (unpacked_count s t ≤ INT_MAX →
   ∃ n buf', sproto_unpack (s ++ [t]) (Z.of_nat (length s)) buf (Z.of_nat (length buf)) = Ok (n, buf') ∧
     match unpacked s t with
     | Some out => n = Z.of_nat (length out) ∧ length buf' = length buf ∧
         ((length out ≤ length buf)%nat → take (length out) buf' = map Some out)
     | None => n = -1
     end) ∧
  (INT_MAX < unpacked_count s t →
   sproto_unpack (s ++ [t]) (Z.of_nat (length s)) buf (Z.of_nat (length buf)) = Fault IntOverflow).
Proof.
  intros Hs Ht Hbuf. unfold sproto_unpack, unpacked, unpacked_count. rewrite Nat2Z.id.
  assert (Hb : Forall byte (s ++ [t])) by (apply Forall_app; split; [done|by apply Forall_singleton]).
  pose proof (unpack_start (s ++ [t]) 1 buf (s ++ [t]) Hbuf eq_refl ltac:(rewrite length_app; cbn; lia)) as Hinv.
  replace (Z.of_nat (length (s ++ [t])) - Z.of_nat 1) with (Z.of_nat (length s)) in Hinv by (rewrite length_app; cbn [length]; lia).
  pose proof (unpack_loop (s ++ [t]) 1 buf (S (length s)) (s ++ [t]) [] _ ltac:(lia) Hb Hinv) as Hloop.
  rewrite length_app in Hloop. specialize (Hloop ltac:(cbn [length]; lia)). cbn [length Nat.add] in Hloop.
  destruct (decide _) as [Hfit|Hover]; [split; [intros _|lia]|split; [lia|done]].
  destruct (decode 1 (S (length s)) (s ++ [t])) as [out|].
  - destruct Hloop as (buf' & E & Hl & Hst). by exists (Z.of_nat (length out)), buf'.
  - destruct (Hloop eq_refl) as [buf' E]. by exists (-1), buf'.
Qed.

(** ** Decoding the encoding *)

Definition item_bytes (x : item) : list Z := match x with Word w => w | Run ws => concat ws end.

Definition item_ok (x : item) : Prop :=
  match x with
  | Word w => length w = 8%nat ∧ (length (nonzero w) < 8)%nat
  | Run ws => (0 < length ws ≤ 256)%nat ∧ Forall (λ w : word, length w = 8%nat) ws
  end.

Lemma tag_cons_bit c w j : 0 ≤ j → Z.testbit (tag (c :: w)) j = if j =? 0 then negb (c =? 0) else Z.testbit (tag w) (j - 1).
Proof.
  intros Hj. cbn [tag]. destruct (Z.eqb_spec j 0) as [->|Hne].
  - destruct (c =? 0); cbn [negb]; rewrite Z.add_comm; [rewrite Z.add_0_r; apply Z.testbit_even_0|apply Z.testbit_odd_0].
  - replace j with (Z.succ (j - 1)) at 1 by lia.
    destruct (c =? 0); rewrite Z.add_comm; [rewrite Z.add_0_r; apply Z.testbit_even_succ|apply Z.testbit_odd_succ]; lia.
Qed.

Lemma nonzero_cons c w : nonzero (c :: w) = if c =? 0 then nonzero w else c :: nonzero w.
Proof.
  change (c :: w) with ([c] ++ w). rewrite nonzero_app, nonzero_single. by destruct (c =? 0).
Qed.

Lemma spread_word h r (w : list Z) : ∀ i, (∀ j, 0 ≤ j → Z.testbit h (i + j) = Z.testbit (tag w) j) →
  spread (length w) i h (nonzero w ++ r) = Some (w, r).
Proof.
  induction w as [|c w IH]; intros i Hbits; [done|]. cbn [length spread].
  assert (Hi : Z.testbit h i = negb (c =? 0)).
  { rewrite <- (Z.add_0_r i), Hbits by lia. rewrite tag_cons_bit by lia. done. }
  assert (Hn : spread (length w) (i + 1) h (nonzero w ++ r) = Some (w, r)).
  { apply IH. intros j Hj. replace (i + 1 + j) with (i + (j + 1)) by lia. rewrite Hbits by lia.
    rewrite tag_cons_bit by lia. destruct (Z.eqb_spec (j + 1) 0); [lia|]. by replace (j + 1 - 1) with j by lia. }
  rewrite Hi, nonzero_cons. destruct (Z.eqb_spec c 0) as [->|Hc]; cbn [negb app]; by rewrite Hn.
Qed.

Lemma tag_full w : tag w = 2 ^ Z.of_nat (length w) - 1 → length (nonzero w) = length w.
Proof.
  induction w as [|c w IH]; [done|]. cbn [tag length]. rewrite Nat2Z.inj_succ, Z.pow_succ_r by lia. intros Ht.
  rewrite nonzero_cons. destruct (c =? 0); [lia|]. cbn [length]. f_equal. apply IH. lia.
Qed.

Lemma decode_item_enc x r : item_ok x →
  ∃ h l, enc_item x = h :: l ∧ decode_item 0 h (l ++ r) = Some (item_bytes x, r).
Proof.
  destruct x as [w|ws]; cbn [item_ok enc_item item_bytes]; intros Hok; do 2 eexists; (split; [done|]); unfold decode_item.
  - destruct Hok as [Hw Hn]. destruct (Z.eqb_spec (tag w) 0xff) as [Ht|Ht].
    { pose proof (tag_full w) as Hf. rewrite Hw in Hf. specialize (Hf Ht). lia. }
    rewrite <- Hw. by apply spread_word.
  - destruct Hok as [Hl Hw]. change (0xff =? 0xff) with true. cbv iota. cbn [app]. cbv zeta.
    replace (Z.to_nat ((Z.of_nat (length ws) - 1 + 1) * 8)) with (length (concat ws)) by (rewrite length_concat8 by done; lia).
    rewrite Nat.add_0_r, length_app. destruct (Nat.ltb_spec (length (concat ws) + length r) (length (concat ws))); [lia|].
    by rewrite take_app_length, drop_app_length.
Qed.

Lemma decode_enc items : Forall item_ok items → ∀ fuel, (length (enc items) < fuel)%nat →
  decode 0 fuel (enc items) = Some (concat (map item_bytes items)).
Proof.
  induction 1 as [|x items Hx Hitems IH]; intros [|fuel] Hfuel; try (cbn in Hfuel; lia); [done|].
  unfold enc in *. cbn [map concat] in *. destruct (decode_item_enc x (concat (map enc_item items)) Hx) as (h & l & E & Ed).
  rewrite E in *. rewrite length_app in Hfuel. cbn [length app] in *. cbn [decode length Nat.leb]. rewrite Ed. cbn.
  by rewrite IH by lia.
Qed.

(** ** The groups of the input *)

Lemma groups_ok ws : Forall (λ w : word, length w = 8%nat) ws → ∀ items run, foldl group_step ([], []) ws = (items, run) →
  Forall item_ok items ∧ concat (map item_bytes items) ++ concat run = concat ws.
Proof.
  intros Hws. induction ws as [|w ws IH] using rev_ind; intros items run Hf.
  { by injection Hf as <- <-. }
  apply Forall_app in Hws as [Hws Hw]. rewrite Forall_singleton in Hw. cbn beta in Hw. rewrite foldl_app in Hf. cbn [foldl] in Hf.
  destruct (foldl group_step ([], []) ws) as [items0 run0] eqn:Hf0.
  destruct (group_cost ws Hws _ _ Hf0) as (Hr0 & Hl0 & _). destruct (IH Hws _ _ eq_refl) as [Hi0 Hc0].
  rewrite concat_app. cbn [concat]. rewrite app_nil_r, <- Hc0. pose proof (nonzero_length w) as Hnl.
  unfold group_step in Hf. destruct run0 as [|w0 run0].
  { destruct (Nat.eqb_spec (length (nonzero w)) 8); injection Hf as <- <-; cbn [concat]; rewrite ?app_nil_r; [done|].
    rewrite map_app, concat_app. cbn [map concat item_bytes]. rewrite app_nil_r. split; [|done].
    apply Forall_app. split; [done|]. apply Forall_singleton. split; [done|lia]. }
  destruct (Nat.leb_spec 6 (length (nonzero w))).
  - destruct (Nat.eqb_spec (length (w0 :: run0)) 255) as [H255|]; injection Hf as <- <-.
    + rewrite map_app, concat_app. cbn [map concat item_bytes]. rewrite !app_nil_r, <- ?(assoc_L (++)).
      split; [|by rewrite concat_app; cbn [concat]; rewrite app_nil_r, <- ?(assoc_L (++))]. apply Forall_app. split; [done|]. apply Forall_singleton.
      change (w0 :: run0 ++ [w]) with ((w0 :: run0) ++ [w]). split; [rewrite length_app; cbn [length] in *; lia|].
      apply Forall_app. split; [done|by apply Forall_singleton].
    + split; [done|]. cbn [concat]. rewrite concat_app. cbn [concat]. by rewrite app_nil_r, <- ?(assoc_L (++)).
  - injection Hf as <- <-. rewrite map_app, concat_app. cbn [map concat item_bytes]. rewrite !app_nil_r, <- ?(assoc_L (++)).
    split; [|done]. apply Forall_app. split; [done|]. apply Forall_cons. split; [split; [cbn [length] in *; lia|done]|].
    apply Forall_singleton. split; [done|lia].
Qed.

Lemma groups_items s : Forall item_ok (groups (words s)) ∧ concat (map item_bytes (groups (words s))) = padded s.
Proof.
  rewrite <- (concat_words (length s) s) by lia. unfold groups, group_end. pose proof (words_len8 s) as Hws.
  destruct (foldl group_step ([], []) (words s)) as [items run] eqn:Hf.
  destruct (group_cost _ Hws _ _ Hf) as (Hr & Hl & _). destruct (groups_ok _ Hws _ _ Hf) as [Hi Hc]. cbn [fst snd].
  destruct run as [|w0 run0]; [by rewrite app_nil_r in *|]. rewrite map_app, concat_app. cbn [map concat item_bytes].
  rewrite app_nil_r. split; [|done]. apply Forall_app. split; [done|]. apply Forall_singleton.
  split; [cbn [length] in *; lia|done].
Qed.

Lemma tag_byte w : length w = 8%nat → byte (tag w).
Proof. intros Hw. pose proof (tag_range w) as Ht. rewrite Hw in Ht. done. Qed.

Lemma packed_bytes s : Forall byte s → Forall byte (packed s).
Proof.
  intros Hs. destruct (groups_items s) as [Hok Hc]. unfold packed.
  assert (Hb : Forall byte (concat (map item_bytes (groups (words s))))).
  { rewrite Hc. unfold padded. apply Forall_app. split; [done|]. by apply Forall_replicate. }
  clear Hc. induction Hok as [|x items Hx Hitems IH]; [done|]. unfold enc in *. cbn [map concat] in *.
  apply Forall_app in Hb as [Hbx Hb]. apply Forall_app. split; [|by apply IH].
  destruct x as [w|ws]; cbn [enc_item item_bytes item_ok] in *.
  - apply Forall_cons. split; [apply tag_byte; by destruct Hx|]. apply Forall_forall. intros y Hy.
    unfold nonzero in Hy. apply list_elem_of_filter in Hy as [_ Hy]. by apply (Forall_elem _ _ _ Hbx).
  - apply Forall_cons. split; [done|]. apply Forall_cons. split; [unfold byte; lia|done].
Qed.

(** C36.  Packing and unpacking are inverse, where [overreads] is false: the other inputs are those
    for which [sproto_pack] copies bytes from behind its source into the last word, which do not
    come back as zeros.  What [sproto_pack] leaves in a buffer that is large enough,
    [sproto_unpack] turns back into the input, filled up with zeros to whole words, without
    reading behind the packed bytes; a buffer that is too small gives the size that is needed.
    No [int] overflows when what [lpack] reserves is one. *)
Theorem sproto_roundtrip s pbuf ubuf :
  Forall byte s → overreads s = false → pack_fits s pbuf → Z.of_nat (length ubuf) ≤ INT_MAX →
  lpack_maxsz (Z.of_nat (length s)) ≤ Z.of_nat (length pbuf) →
  ∃ n pbuf' p ubuf',
    sproto_pack s (Z.of_nat (length s)) pbuf (Z.of_nat (length pbuf)) = Ok (n, pbuf') ∧
    take (Z.to_nat n) pbuf' = map Some p ∧ n = Z.of_nat (length p) ∧
    sproto_unpack p n ubuf (Z.of_nat (length ubuf)) = Ok (Z.of_nat (length (padded s)), ubuf') ∧
    ((length (padded s) ≤ length ubuf)%nat → take (length (padded s)) ubuf' = map Some (padded s)).
Proof.
  intros Hs Ho Hfits Hubuf Hmax. pose proof (packed_bound s) as Hb. pose proof (pack_fits_words _ _ Hfits) as Hwords.
  destruct (sproto_pack_lemma s pbuf Ho Hfits) as (pbuf' & Epack & _ & Hp). destruct (groups_items s) as [Hok Hc].
  pose proof (unpack_start (packed s) 0 ubuf (packed s) Hubuf eq_refl ltac:(lia)) as Hinv. rewrite Z.sub_0_r in Hinv.
  pose proof (unpack_loop (packed s) 0 ubuf (S (length (packed s))) _ _ _ ltac:(lia) (packed_bytes s Hs) Hinv ltac:(lia)) as Hloop.
  assert (Hdec : decode 0 (S (length (packed s))) (packed s) = Some (padded s)).
  { unfold packed at 2. rewrite (decode_enc _ Hok) by (fold (packed s); lia). by rewrite Hc. }
  rewrite (decode_count_some _ _ _ _ Hdec), Hdec in Hloop. cbn [length Nat.add app] in Hloop.
  assert (Hlp : length (padded s) = (8 * length (words s))%nat) by (rewrite <- (concat_words (length s)), length_concat8 by (done || apply words_len8); done).
  destruct (decide _); [|lia]. destruct Hloop as (ubuf' & Eun & _ & Hu).
  exists (Z.of_nat (length (packed s))), pbuf', (packed s), ubuf'.
  split; [done|]. split; [rewrite Nat2Z.id; apply Hp; lia|]. split; [done|]. split; [|done].
  unfold sproto_unpack. by rewrite Nat2Z.id.
Qed.

(** The input ends behind 0xff, or behind a tag: the byte behind it is read. *)
Example sproto_unpack_overread :
  sproto_unpack [0xff] 1 (replicate 64 None) 64 = Fault OutOfBounds ∧
  sproto_unpack [1] 1 (replicate 64 None) 64 = Fault OutOfBounds ∧
  unpacked [1] 7 = Some [7; 0; 0; 0; 0; 0; 0; 0].
Proof. by vm_compute. Qed.

(** A valid stream, and one with a run that is too short. *)
Lemma sproto_unpack_correct_witness :
  (∃ buf', sproto_unpack [5; 1; 2; 0] 3 (replicate 8 None) 8 = Ok (8, buf') ∧
     take 8 buf' = map Some [1; 0; 2; 0; 0; 0; 0; 0]) ∧
  ∃ buf', sproto_unpack [0xff; 1; 2; 0] 3 (replicate 8 None) 8 = Ok (-1, buf').
Proof.
  assert (H1 : Forall byte [5; 1; 2]) by (apply (bool_decide_unpack _); by vm_compute).
  assert (H2 : Forall byte [0xff; 1; 2]) by (apply (bool_decide_unpack _); by vm_compute).
  assert (H0 : byte 0) by (apply (bool_decide_unpack _); by vm_compute).
  assert (Hb : Z.of_nat (length (replicate 8 (@None Z))) ≤ INT_MAX) by (by vm_compute).
  split.
  - destruct (sproto_unpack_correct [5; 1; 2] 0 (replicate 8 None) H1 H0 Hb) as [H _].
    destruct (H ltac:(by vm_compute)) as (n & buf' & E & Hout).
    change (unpacked [5; 1; 2] 0) with (Some [1; 0; 2; 0; 0; 0; 0; 0]) in Hout. destruct Hout as (-> & _ & Hout).
    exists buf'. split; [exact E|]. apply Hout. apply (bool_decide_unpack _). by vm_compute.
  - destruct (sproto_unpack_correct [0xff; 1; 2] 0 (replicate 8 None) H2 H0 Hb) as [H _].
    destruct (H ltac:(by vm_compute)) as (n & buf' & E & Hout).
    change (unpacked [0xff; 1; 2] 0) with (@None (list Z)) in Hout. cbv iota in Hout. subst n. exists buf'. exact E.
Defined.

Lemma sproto_roundtrip_witness :
  let s := [1; 2; 3; 4; 5; 6; 7; 8; 9; 0; 11; 0; 13; 14; 15; 16; 0; 0; 5] in
  ∃ n pbuf' p ubuf',
    sproto_pack s 19 (replicate 40 None) 40 = Ok (n, pbuf') ∧ take (Z.to_nat n) pbuf' = map Some p ∧
    n = Z.of_nat (length p) ∧
    sproto_unpack p n (replicate 24 None) 24 = Ok (24, ubuf') ∧ take 24 ubuf' = map Some (s ++ [0; 0; 0; 0; 0]).
Proof.
  cbv zeta. set (s := [1; 2; 3; 4; 5; 6; 7; 8; 9; 0; 11; 0; 13; 14; 15; 16; 0; 0; 5]).
  assert (Hs : Forall byte s) by (apply (bool_decide_unpack _); by vm_compute).
  assert (Ho : overreads s = false) by (by vm_compute).
  assert (Hm : lpack_maxsz (Z.of_nat (length s)) ≤ Z.of_nat (length (replicate 40 (@None Z)))) by (by vm_compute).
  assert (Hf : pack_fits s (replicate 40 None)) by (by vm_compute).
  assert (Hu : Z.of_nat (length (replicate 24 (@None Z))) ≤ INT_MAX) by (by vm_compute).
  destruct (sproto_roundtrip s (replicate 40 None) (replicate 24 None) Hs Ho Hf Hu Hm) as (n & pbuf' & p & ubuf' & E1 & E2 & E3 & E4 & E5).
  exists n, pbuf', p, ubuf'. split; [exact E1|]. split; [exact E2|]. split; [exact E3|]. split; [exact E4|].
  apply E5. apply (bool_decide_unpack _). by vm_compute.
Defined.
