(* ===== verification/Sproto.v ===== *)
(** [lualib-src/sproto/sproto.c], the schema: its loader and the queries on it.

    A schema comes as a bundle of bytes, itself an sproto message.  A pointer into the bundle is an
    offset, a pointer to a type is its index.  The strings and arrays of a schema are
    allocated from a pool, which is modelled by itself. *)

From S2P Require Import Prelude CString Seri Frames Gate Crypt.
Open Scope Z_scope.

Definition SPROTO_TARRAY : Z := 0x80.
Definition CHUNK_SIZE : Z := 1000.
Definition SIZEOF_LENGTH : Z := 4.
Definition SIZEOF_HEADER : Z := 2.
Definition SIZEOF_FIELD : Z := 2.

Definition SPROTO_TINTEGER : Z := 0.
Definition SPROTO_TBOOLEAN : Z := 1.
Definition SPROTO_TSTRING : Z := 2.
Definition SPROTO_TSTRUCT : Z := 3.

Record field : Set := Field {
  f_tag : Z;
  f_type : Z;
  f_name : option cstring;
  f_st : option Z;
  f_key : Z;
  f_extra : Z
}.

Record stype : Set := SType {
  t_name : option cstring;
  t_n : Z;
  t_base : Z;
  t_maxn : Z;
  t_f : list field
}.

Record protocol : Set := Protocol {
  p_name : option cstring;
  p_tag : Z;
  p_confirm : Z;
  p_request : option Z;
  p_response : option Z
}.

Record sproto : Set := Sproto {
  s_type_n : Z;
  s_protocol_n : Z;
  s_type : list stype;
  s_proto : list protocol
}.

(** ** The pool

    A chunk of [malloc] is its size.  A block is the number of its chunk and its
    offset in it. *)

Record pool : Set := Pool {
  pl_chunks : list Z;
  pl_current : option nat;
  pl_used : Z
}.

Definition pool_init : pool := Pool [] None 0.

(** The chunks are freed along the list, the last first. *)
Definition pool_release (p : pool) : list nat := rev (seq 0 (length (pl_chunks p))).

(** The chunk behind its link. *)
Definition pool_newchunk (p : pool) (sz : Z) : pool * (nat * Z) :=
  (Pool (pl_chunks p ++ [sz]) (pl_current p) (pl_used p), (length (pl_chunks p), 0)).

Definition pool_alloc (p : pool) (sz : Z) : pool * (nat * Z) :=
  let sz := Z.land (u64 (sz + 7)) (Z.lnot 7) in
  if sz >=? CHUNK_SIZE then pool_newchunk p sz
  else
    let p := match pl_current p with
             | None => let '(p, (c, _)) := pool_newchunk p CHUNK_SIZE in Pool (pl_chunks p) (Some c) (pl_used p)
             | Some _ => p
             end in
    if sz + pl_used p <=? CHUNK_SIZE then
      (Pool (pl_chunks p) (pl_current p) (pl_used p + sz), (default 0%nat (pl_current p), pl_used p))
    else if sz >=? pl_used p then pool_newchunk p sz
    else let '(p, ret) := pool_newchunk p CHUNK_SIZE in (Pool (pl_chunks p) (Some ret.1) sz, ret).

(** ** Reading a bundle *)

Definition toword (data : list Z) (i : Z) : res Z :=
  a ← rd data i;
  b ← rd data (i + 1);
  Ok (Z.lor a (Z.shiftl b 8)).

Definition todword (data : list Z) (i : Z) : res Z := word_of data i.

(** The number of elements, -1 where their lengths do not fill the array. *)
Definition count_round (data : list Z) (st : Z * Z * Z) : res (loop (Z * Z * Z) Z) :=
  let '(length, n, stream) := st in
  if negb (length >? 0) then Ok (Break n)
  else if length <? SIZEOF_LENGTH then Ok (Break (-1))
  else
    nsz ← todword data stream;
    let nsz := u32 (nsz + SIZEOF_LENGTH) in
    if nsz >? length then Ok (Break (-1))
    else n ← int_chk (n + 1); Ok (Continue (u32 (length - nsz), n, stream + nsz)).

Definition count_array (data : list Z) (stream : Z) : res Z :=
  len ← todword data stream;
  iterate (S (length data)) (count_round data) (len, 0, stream + SIZEOF_LENGTH).

(** The lengths behind the words that are 0. *)
Fixpoint struct_field_loop (data : list Z) (n : nat) (field stream sz : Z) : res bool :=
  match n with
  | O => Ok true
  | S n =>
      value ← toword data field;
      if negb (value =? 0) then struct_field_loop data n (field + SIZEOF_FIELD) stream sz
      else if sz <? SIZEOF_LENGTH then Ok false
      else
        dsz ← todword data stream;
        let dsz := u32 (SIZEOF_LENGTH + dsz) in
        if sz <? dsz then Ok false
        else struct_field_loop data n (field + SIZEOF_FIELD) (stream + dsz) (sz - dsz)
  end.

Definition struct_field (data : list Z) (stream sz : Z) : res Z :=
  if sz <? SIZEOF_LENGTH then Ok (-1)
  else
    fn ← toword data stream;
    let header := SIZEOF_HEADER + SIZEOF_FIELD * fn in
    if sz <? header then Ok (-1)
    else
      ok ← struct_field_loop data (Z.to_nat fn) (stream + SIZEOF_HEADER) (stream + header) (sz - header);
      Ok (if ok : bool then fn else -1).

(** A C string ends at its first zero. *)
Fixpoint cut0 (s : list Z) : cstring :=
  match s with [] => [] | c :: s => if c =? 0 then [] else c :: cut0 s end.

Definition import_string (data : list Z) (stream : Z) : res cstring :=
  sz ← todword data stream;
  l ← rd_at data (stream + SIZEOF_LENGTH) sz;
  Ok (cut0 l).

Fixpoint calc_pow_ (fuel : nat) (base n : Z) : res Z :=
  match fuel with
  | O => Fault OutOfFuel
  | S fuel =>
      if n =? 0 then Ok 1
      else
        base2 ← int_chk (base * base);
        r ← calc_pow_ fuel base2 (n / 2);
        if negb (Z.land n 1 =? 0) then int_chk (r * base) else Ok r
  end.

Definition calc_pow (base n : Z) : res Z := calc_pow_ 64 base n.

(** ** Fields *)

(** One word of a field that is not a name; [None] is [return NULL]. *)
Definition field_case (type_n tag value array : Z) (f : field) : res (option (field * Z)) :=
  if tag =? 1 then
    if value >=? SPROTO_TSTRUCT then Ok None
    else Ok (Some (Field (f_tag f) value (f_name f) (f_st f) (f_key f) (f_extra f), array))
  else if tag =? 2 then
    if f_type f =? SPROTO_TINTEGER then
      extra ← calc_pow 10 value;
      Ok (Some (Field (f_tag f) (f_type f) (f_name f) (f_st f) (f_key f) extra, array))
    else if f_type f =? SPROTO_TSTRING then Ok (Some (Field (f_tag f) (f_type f) (f_name f) (f_st f) (f_key f) value, array))
    else if value >=? type_n then Ok None
    else if f_type f >=? 0 then Ok None
    else Ok (Some (Field (f_tag f) SPROTO_TSTRUCT (f_name f) (Some value) (f_key f) (f_extra f), array))
  else if tag =? 3 then Ok (Some (Field value (f_type f) (f_name f) (f_st f) (f_key f) (f_extra f), array))
  else if tag =? 4 then Ok (Some (f, if negb (value =? 0) then SPROTO_TARRAY else array))
  else if tag =? 5 then Ok (Some (Field (f_tag f) (f_type f) (f_name f) (f_st f) value (f_extra f), array))
  else Ok None.

Fixpoint import_field_loop (data : list Z) (type_n stream fn : Z) (n : nat) (i tag array : Z) (f : field) : res (option (field * Z)) :=
  match n with
  | O => Ok (Some (f, array))
  | S n =>
      let tag := tag + 1 in
      value ← toword data (stream + SIZEOF_FIELD * i);
      if negb (Z.land value 1 =? 0) then import_field_loop data type_n stream fn n (i + 1) (tag + value / 2) array f
      else if tag =? 0 then
        if negb (value =? 0) then Ok None
        else
          name ← import_string data (stream + fn * SIZEOF_FIELD);
          import_field_loop data type_n stream fn n (i + 1) tag array (Field (f_tag f) (f_type f) (Some name) (f_st f) (f_key f) (f_extra f))
      else if value =? 0 then Ok None
      else
        r ← field_case type_n tag (value / 2 - 1) array f;
        match r with
        | None => Ok None
        | Some (f, array) => import_field_loop data type_n stream fn n (i + 1) tag array f
        end
  end.

(** The field and the place behind it. *)
Definition import_field (data : list Z) (type_n stream : Z) : res (option (field * Z)) :=
  sz ← todword data stream;
  let stream := stream + SIZEOF_LENGTH in
  let result := stream + sz in
  fn ← struct_field data stream sz;
  if fn <? 0 then Ok None
  else
    r ← import_field_loop data type_n (stream + SIZEOF_HEADER) fn (Z.to_nat fn) 0 (-1) 0 (Field (-1) (-1) None None (-1) 0);
    match r with
    | None => Ok None
    | Some (f, array) =>
        if (f_tag f <? 0) || (f_type f <? 0) || (match f_name f with None => true | Some _ => false end) then Ok None
        else Ok (Some (Field (f_tag f) (Z.lor (f_type f) array) (f_name f) (f_st f) (f_key f) (f_extra f), result))
    end.

(** ** Types *)

Fixpoint import_fields (data : list Z) (type_n : Z) (n : nat) (stream last maxn : Z) (fs : list field) : res (option (list field * Z)) :=
  match n with
  | O => Ok (Some (fs, maxn))
  | S n =>
      r ← import_field data type_n stream;
      match r with
      | None => Ok None
      | Some (f, stream) =>
          if f_tag f <=? last then Ok None
          else import_fields data type_n n stream (f_tag f) (if f_tag f >? last + 1 then maxn + 1 else maxn) (fs ++ [f])
      end
  end.

(** The words of a type are all 0. *)
Fixpoint all_data (data : list Z) (n : nat) (stream : Z) : res bool :=
  match n with
  | O => Ok true
  | S n => v ← toword data stream; if negb (v =? 0) then Ok false else all_data data n (stream + SIZEOF_FIELD)
  end.

Definition import_type (data : list Z) (type_n stream : Z) : res (option (stype * Z)) :=
  sz ← todword data stream;
  let stream := stream + SIZEOF_LENGTH in
  let result := stream + sz in
  fn ← struct_field data stream sz;
  if (fn <=? 0) || (fn >? 2) then Ok None
  else
    ok ← all_data data (Z.to_nat fn) (stream + SIZEOF_HEADER);
    if negb ok then Ok None
    else
      let stream := stream + SIZEOF_HEADER + fn * SIZEOF_FIELD in
      name ← import_string data stream;
      if fn =? 1 then Ok (Some (SType (Some name) 0 0 0 [], result))
      else
        len ← todword data stream;
        let stream := stream + len + SIZEOF_LENGTH in
        n ← count_array data stream;
        if n <? 0 then Ok None
        else
          r ← import_fields data type_n (Z.to_nat n) (stream + SIZEOF_LENGTH) (-1) n [];
          match r with
          | None => Ok None
          | Some (fs, maxn) =>
              first ← rd fs 0;
              last ← rd fs (n - 1);
              Ok (Some (SType (Some name) n (if negb (f_tag last - f_tag first + 1 =? n) then -1 else f_tag first) maxn fs, result))
          end.

(** ** Protocols *)

(** The [switch] is on the number of the word, not on the tag. *)
Definition protocol_case (data : list Z) (type_n stream fn i value : Z) (p : protocol) : res (option protocol) :=
  if i =? 0 then
    if negb (value =? -1) then Ok None
    else
      name ← import_string data (stream + SIZEOF_FIELD * fn);
      Ok (Some (Protocol (Some name) (p_tag p) (p_confirm p) (p_request p) (p_response p)))
  else if i =? 1 then
    if value <? 0 then Ok None else Ok (Some (Protocol (p_name p) value (p_confirm p) (p_request p) (p_response p)))
  else if i =? 2 then
    if (value <? 0) || (value >=? type_n) then Ok None else Ok (Some (Protocol (p_name p) (p_tag p) (p_confirm p) (Some value) (p_response p)))
  else if i =? 3 then
    if (value <? 0) || (value >=? type_n) then Ok None else Ok (Some (Protocol (p_name p) (p_tag p) (p_confirm p) (p_request p) (Some value)))
  else if i =? 4 then Ok (Some (Protocol (p_name p) (p_tag p) value (p_request p) (p_response p)))
  else Ok None.

Fixpoint import_protocol_loop (data : list Z) (type_n stream fn : Z) (n : nat) (i : Z) (p : protocol) : res (option protocol) :=
  match n with
  | O => Ok (Some p)
  | S n =>
      value ← toword data (stream + SIZEOF_FIELD * i);
      if negb (Z.land value 1 =? 0) then import_protocol_loop data type_n stream fn n (i + 1) p
      else
        r ← protocol_case data type_n stream fn i (value / 2 - 1) p;
        match r with
        | None => Ok None
        | Some p => import_protocol_loop data type_n stream fn n (i + 1) p
        end
  end.

Definition import_protocol (data : list Z) (type_n stream : Z) : res (option (protocol * Z)) :=
  sz ← todword data stream;
  let stream := stream + SIZEOF_LENGTH in
  let result := stream + sz in
  fn ← struct_field data stream sz;
  r ← import_protocol_loop data type_n (stream + SIZEOF_HEADER) fn (Z.to_nat fn) 0 (Protocol None (-1) 0 None None);
  match r with
  | None => Ok None
  | Some p =>
      if (match p_name p with None => true | Some _ => false end) || (p_tag p <? 0) then Ok None else Ok (Some (p, result))
  end.

(** ** The bundle *)

Fixpoint import_all {A} (import : Z → res (option (A * Z))) (n : nat) (stream : Z) (l : list A) : res (option (list A)) :=
  match n with
  | O => Ok (Some l)
  | S n =>
      r ← import stream;
      match r with
      | None => Ok None
      | Some (a, stream) => import_all import n stream (l ++ [a])
      end
  end.

(** The arrays of a bundle: how many elements and where the first is. *)
Fixpoint bundle_arrays (data : list Z) (n : nat) (stream content : Z) (l : list (Z * Z)) : res (option (list (Z * Z))) :=
  match n with
  | O => Ok (Some l)
  | S n =>
      value ← toword data stream;
      if negb (value =? 0) then Ok None
      else
        k ← count_array data content;
        if k <? 0 then Ok None
        else
          len ← todword data content;
          bundle_arrays data n (stream + SIZEOF_FIELD) (content + u32 (len + SIZEOF_LENGTH)) (l ++ [(k, content + SIZEOF_LENGTH)])
  end.

Definition create_from_bundle (data : list Z) : res (option sproto) :=
  fn ← struct_field data 0 (Z.of_nat (length data));
  if (fn <? 0) || (fn >? 2) then Ok None
  else
    arrays ← bundle_arrays data (Z.to_nat fn) SIZEOF_HEADER (SIZEOF_HEADER + fn * SIZEOF_FIELD) [];
    match arrays with
    | None => Ok None
    | Some arrays =>
        let '(type_n, typedata) := nth 0 arrays (0, 0) in
        let '(protocol_n, protocoldata) := nth 1 arrays (0, 0) in
        types ← import_all (import_type data type_n) (Z.to_nat type_n) typedata [];
        match types with
        | None => Ok None
        | Some types =>
            protos ← import_all (import_protocol data type_n) (Z.to_nat protocol_n) protocoldata [];
            match protos with
            | None => Ok None
            | Some protos => Ok (Some (Sproto type_n protocol_n types protos))
            end
        end
    end.

Definition sproto_create (data : list Z) : res (option sproto) := create_from_bundle data.

(** ** Queries *)

Definition sproto_prototag (sp : sproto) (name : cstring) : Z :=
  match list_find (λ p, strcmp name (default [] (p_name p)) = 0) (s_proto sp) with
  | Some (_, p) => p_tag p
  | None => -1
  end.

(** The binary search of [query_proto] and [findtag]. *)
Definition search_round (tags : list Z) (tag : Z) (st : Z * Z) : res (loop (Z * Z) (option Z)) :=
  let '(begin, end_) := st in
  if negb (begin <? end_) then Ok (Break None)
  else
    let mid := (begin + end_) / 2 in
    t ← rd tags mid;
    if t =? tag then Ok (Break (Some mid))
    else if tag >? t then Ok (Continue (mid + 1, end_))
    else Ok (Continue (begin, mid)).

Definition binary_search (tags : list Z) (n tag : Z) : res (option Z) :=
  iterate (S (Z.to_nat n)) (search_round tags tag) (0, n).

Definition query_proto (sp : sproto) (tag : Z) : res (option protocol) :=
  o ← binary_search (map p_tag (s_proto sp)) (s_protocol_n sp) tag;
  match o with
  | None => Ok None
  | Some i => p ← rd (s_proto sp) i; Ok (Some p)
  end.

(** The type of a request or of a response. *)
Definition sproto_protoquery (sp : sproto) (proto what : Z) : res (option Z) :=
  if (what <? 0) || (what >? 1) then Ok None
  else
    p ← query_proto sp proto;
    Ok (match p with Some p => if what =? 0 then p_request p else p_response p | None => None end).

Definition sproto_protoresponse (sp : sproto) (proto : Z) : res bool :=
  p ← query_proto sp proto;
  Ok (match p with Some p => (match p_response p with Some _ => true | None => false end) || negb (p_confirm p =? 0) | None => false end).

Definition sproto_protoname (sp : sproto) (proto : Z) : res (option cstring) :=
  p ← query_proto sp proto;
  Ok (p ≫= p_name).

Definition sproto_type (sp : sproto) (type_name : cstring) : option Z :=
  match list_find (λ t, strcmp type_name (default [] (t_name t)) = 0) (s_type sp) with
  | Some (i, _) => Some (Z.of_nat i)
  | None => None
  end.

Definition findtag (st : stype) (tag : Z) : res (option field) :=
  if t_base st >=? 0 then
    let tag := tag - t_base st in
    if (tag <? 0) || (tag >=? t_n st) then Ok None
    else f ← rd (t_f st) tag; Ok (Some f)
  else
    o ← binary_search (map f_tag (t_f st)) (t_n st) tag;
    match o with
    | None => Ok None
    | Some i => f ← rd (t_f st) i; Ok (Some f)
    end.
