(* ===== verification/SprotoPool.v ===== *)
(** The pool that a schema is allocated from: blocks lie in their chunks and do not overlap, and
    a release frees every chunk once. *)

From S2P Require Import Prelude CString Seri Frames Gate Crypt SprotoPack SprotoPacking Sproto.
Open Scope Z_scope.

(** A block that was asked for: its chunk, its offset, its size. *)
Definition block : Set := nat * Z * Z.

(** The pool and the blocks of a sequence of allocations, the last first. *)
Definition pool_step (s : pool * list block) (sz : Z) : pool * list block :=
  let '(p, (c, o)) := pool_alloc s.1 sz in (p, (c, o, sz) :: s.2).

Definition pool_run (szs : list Z) : pool * list block := foldl pool_step (pool_init, []) szs.

Definition apart (a b : block) : Prop :=
  let '(c, o, n) := a in let '(c', o', n') := b in c = c' → o + n ≤ o' ∨ o' + n' ≤ o.

(** The block is inside its chunk, and in the current chunk below what is used. *)
Definition inside (p : pool) (b : block) : Prop :=
  let '(c, o, n) := b in 0 ≤ o ∧ (∃ size, pl_chunks p !! c = Some size ∧ o + n ≤ size) ∧ (pl_current p = Some c → o + n ≤ pl_used p).

Record pool_inv (p : pool) (bs : list block) : Prop := {
  pi_inside : Forall (inside p) bs;
  pi_apart : ForallOrdPairs apart bs;
  pi_current : match pl_current p with None => pl_used p = 0 | Some c => pl_chunks p !! c = Some CHUNK_SIZE end;
  pi_used : 0 ≤ pl_used p
}.

Lemma pool_inv_init : pool_inv pool_init [].
Proof. split; cbn; [constructor|constructor|done|lia]. Qed.

Lemma aligned_size sz : 0 ≤ sz < 2 ^ 63 → sz ≤ Z.land (u64 (sz + 7)) (Z.lnot 7).
Proof.
  intros Hsz. unfold u64. rewrite Z.mod_small by lia. pose proof (Z.div_mod (sz + 7) 8 ltac:(lia)). pose proof (Z.mod_pos_bound (sz + 7) 8 ltac:(lia)). rewrite (align8 sz ((sz + 7) / 8)) by lia. lia.
Qed.

(** A block in a new chunk. *)
Lemma fresh_block p bs p' sz size : pool_inv p bs → pl_chunks p' = pl_chunks p ++ [size] → 0 ≤ sz ≤ size → 0 ≤ pl_used p' →
  (pl_current p' = pl_current p ∧ pl_used p' = pl_used p ∨ pl_current p' = Some (length (pl_chunks p)) ∧ size = CHUNK_SIZE ∧ sz ≤ pl_used p') →
  pool_inv p' ((length (pl_chunks p), 0, sz) :: bs).
Proof.
  intros [Hin Hap Hcur Hused] Hch Hsz Hu Hc. assert (Hnew : pl_chunks p' !! length (pl_chunks p) = Some size) by (rewrite Hch; by apply list_lookup_middle).
  assert (Hold : ∀ c x, pl_chunks p !! c = Some x → pl_chunks p' !! c = Some x ∧ c ≠ length (pl_chunks p)) by (intros c x Hx; pose proof (lookup_lt_Some _ _ _ Hx); rewrite Hch; split; [by apply lookup_app_l_Some|lia]).
  split; [|constructor; [|done]| |done].
  - constructor.
    + split; [lia|]. split; [by exists size; split; [|lia]|]. intros E. destruct Hc as [[Hc1 Hc2]|(_ & _ & ?)]; [|lia]. rewrite Hc1 in E. rewrite E in Hcur. by destruct (Hold _ _ Hcur).
    + eapply Forall_impl; [exact Hin|]. intros [[c o] n] (Ho & (x & Hx & Hle) & Hlt). destruct (Hold _ _ Hx) as [Hx' Hne]. split; [done|]. split; [by exists x|]. intros E. destruct Hc as [[Hc1 Hc2]|(Hc1 & _)]; [rewrite Hc2; apply Hlt; congruence|congruence].
  - eapply Forall_impl; [exact Hin|]. intros [[c o] n] (_ & (x & Hx & _) & _) E. destruct (Hold _ _ Hx). done.
  - destruct Hc as [[-> ->]|(-> & -> & _)]; [|done]. destruct (pl_current p) as [c|]; [|done]. by apply Hold.
Qed.

(** A block in the current chunk. *)
Lemma current_block p bs c sz n : pool_inv p bs → pl_current p = Some c → 0 ≤ n ≤ sz → sz + pl_used p ≤ CHUNK_SIZE →
  pool_inv (Pool (pl_chunks p) (pl_current p) (pl_used p + sz)) ((c, pl_used p, n) :: bs).
Proof.
  intros [Hin Hap Hcur Hused] Hc Hn Hfit. rewrite Hc in Hcur. split; [|constructor; [|done]| |cbn; lia].
  - constructor; [split; [done|]; split; [exists CHUNK_SIZE; split; [done|lia]|cbn; lia]|]. eapply Forall_impl; [exact Hin|]. intros [[c' o] m] (Ho & Hs & Hlt). split; [done|]. split; [done|]. cbn. intros E. specialize (Hlt E). lia.
  - eapply Forall_impl; [exact Hin|]. intros [[c' o] m] (Ho & _ & Hlt) <-. right. by apply Hlt.
  - cbn. by rewrite Hc.
Qed.

Lemma pool_step_lemma p bs sz : pool_inv p bs → 0 ≤ sz < 2 ^ 63 → let s := pool_step (p, bs) sz in pool_inv s.1 s.2.
Proof.
  intros Hinv Hsz. pose proof (aligned_size sz Hsz) as Hal. unfold pool_step, pool_alloc. cbn [fst snd]. cbv zeta. set (n := Z.land (u64 (sz + 7)) (Z.lnot 7)) in *. destruct (Z.geb_spec n CHUNK_SIZE); [by apply (fresh_block p bs _ sz n); try done; [lia|apply Hinv|left]|].
  destruct (pl_current p) as [c|] eqn:Ec.
  - destruct (Z.leb_spec (n + pl_used p) CHUNK_SIZE); [pose proof (current_block p bs c n sz Hinv Ec ltac:(lia) ltac:(done)) as E; rewrite Ec in E |- *; exact E|]. destruct (Z.geb_spec n (pl_used p)); [by apply (fresh_block p bs _ sz n); try done; [lia|apply Hinv|left]|].
    cbn [pool_newchunk fst snd]. apply (fresh_block p bs _ sz CHUNK_SIZE); try done; cbn; [unfold CHUNK_SIZE in *; lia|lia|]. right. split; [done|]. split; [done|lia].
  - pose proof (pi_current _ _ Hinv) as Hu. rewrite Ec in Hu. cbn [pool_newchunk pl_chunks pl_current pl_used fst snd default]. rewrite Hu. destruct (Z.leb_spec (n + 0) CHUNK_SIZE); [|lia].
    apply (fresh_block p bs _ sz CHUNK_SIZE); try done; cbn; [lia|lia|]. right. split; [done|]. split; [done|lia].
Qed.

Lemma pool_run_lemma szs : Forall (λ sz, 0 ≤ sz < 2 ^ 63) szs → ∀ s, pool_inv s.1 s.2 → pool_inv (foldl pool_step s szs).1 (foldl pool_step s szs).2.
Proof. induction 1 as [|sz szs Hsz _ IH]; intros [p bs] Hs; [done|]. cbn [foldl]. apply IH. by apply pool_step_lemma. Qed.

(** Whatever is allocated, the blocks lie in their chunks, no two overlap, and a release frees each
    chunk once. *)
Lemma pool_blocks_disjoint szs : Forall (λ sz, 0 ≤ sz < 2 ^ 63) szs → let '(p, bs) := pool_run szs in
  map snd bs = rev szs ∧ Forall (λ '(c, o, n), 0 ≤ o ∧ ∃ size, pl_chunks p !! c = Some size ∧ o + n ≤ size) bs ∧ ForallOrdPairs apart bs ∧ NoDup (pool_release p) ∧ ∀ c, c ∈ pool_release p ↔ (c < length (pl_chunks p))%nat.
Proof.
  intros Hszs. pose proof (pool_run_lemma szs Hszs (pool_init, []) pool_inv_init) as [Hin Hap _ _]. fold (pool_run szs) in *. assert (Hmap : ∀ s, map snd (foldl pool_step s szs).2 = rev szs ++ map snd s.2).
  { clear. induction szs as [|sz szs IH]; intros [p bs]; [done|]. cbn [foldl rev]. rewrite IH. unfold pool_step. cbn [fst]. destruct (pool_alloc p sz) as [p' [c o]]. cbn [snd map]. by rewrite <- app_assoc. }
  specialize (Hmap (pool_init, [])). fold (pool_run szs) in Hmap. destruct (pool_run szs) as [p bs]. cbn [fst snd map] in *. rewrite app_nil_r in Hmap. split; [done|].
  split; [eapply Forall_impl; [exact Hin|]; intros [[c o] n] (? & ? & _); done|]. split; [done|]. unfold pool_release. split; [apply NoDup_ListNoDup, List.NoDup_rev, seq_NoDup|]. intros c. rewrite list_elem_of_In, <- in_rev, in_seq. lia.
Qed.
