(* ===== verification/SprotoCodec.v ===== *)
(** [lualib-src/sproto/sproto.c], [sproto_encode] and [sproto_decode].

    Both walk the fields of a type and call back for the values.  A callback of the encoder gets
    the memory it may write to, [args->length] bytes at [args->value], and returns it; a
    callback of the decoder gets what [args->value] points to.  [U] is what [args->ud]
    points to.

    The encoder's buffer is the list of the bytes from a pointer to the end of the memory, so that
    a pointer that moves drops bytes from the front.  Where the code compares an [int] with a
    [sizeof], the [int] is converted to [size_t] ([u64]). *)

From S2P Require Import Prelude CString Seri Frames Gate Crypt Sproto.
Open Scope Z_scope.

Definition SPROTO_CB_ERROR : Z := -1.
Definition SPROTO_CB_NIL : Z := -2.
Definition SPROTO_CB_NOARRAY : Z := -3.

Record sproto_arg : Set := Arg {
  a_tagname : cstring;
  a_tagid : Z;
  a_type : Z;
  a_subtype : option Z;
  a_index : Z;
  a_mainindex : Z;
  a_length : Z;
  a_extra : Z
}.

(** The arguments of a field. *)
Definition field_arg (f : field) (type index : Z) : sproto_arg :=
  Arg (default [] (f_name f)) (f_tag f) type (f_st f) index (f_key f) 0 (f_extra f).

Definition set_index (i : Z) (a : sproto_arg) : sproto_arg :=
  Arg (a_tagname a) (a_tagid a) (a_type a) (a_subtype a) i (a_mainindex a) (a_length a) (a_extra a).

Definition set_length (n : Z) (a : sproto_arg) : sproto_arg :=
  Arg (a_tagname a) (a_tagid a) (a_type a) (a_subtype a) (a_index a) (a_mainindex a) n (a_extra a).

(** ** Encoding *)

Definition qword_bytes (v : Z) : list Z := word_bytes v ++ word_bytes (Z.shiftr v 32).

(** A union of eight bytes, or an [int]. *)
Definition union_u : buffer := replicate 8 None.

Definition u32_of (u : buffer) : res Z := l ← init_bytes u 4; Ok (le_value l).
Definition u64_of (u : buffer) : res Z := l ← init_bytes u 8; Ok (le_value l).

Definition fill_size (data : buffer) (sz : Z) : res (buffer * Z) :=
  data ← wr_at data 0 (word_bytes sz);
  Ok (data, sz + SIZEOF_LENGTH).

Definition encode_integer (v : Z) (data : buffer) (size : Z) : res (buffer * Z) :=
  if u64 size <? SIZEOF_LENGTH + 4 then Ok (data, -1)
  else data ← wr_at data 4 (word_bytes v); fill_size data 4.

Definition encode_uint64 (v : Z) (data : buffer) (size : Z) : res (buffer * Z) :=
  if u64 size <? SIZEOF_LENGTH + 8 then Ok (data, -1)
  else data ← wr_at data 4 (qword_bytes v); fill_size data 8.

Definition uint32_to_uint64 (negative : bool) (buf : buffer) (i : Z) : res buffer :=
  wr_at buf (i + 4) (if negative then [0xff; 0xff; 0xff; 0xff] else [0; 0; 0; 0]).

(** [memcpy] and [memmove] inside a buffer. *)
Definition move (buf : buffer) (dst src n : Z) : res buffer :=
  l ← init_bytes (drop (Z.to_nat src) buf) n;
  wr_at buf dst l.

(** The integers before place [i], from four bytes to eight, the last first; [header] is at 0. *)
Fixpoint rearrange (n : nat) (buf : buffer) : res buffer :=
  match n with
  | O => Ok buf
  | S n =>
      let i := Z.of_nat n in
      buf ← move buf (1 + i * 8) (1 + i * 4) 4;
      b ← rd_init buf (1 + i * 8 + 3);
      buf ← uint32_to_uint64 (negb (Z.land b 0x80 =? 0)) buf (1 + i * 8);
      rearrange n buf
  end.

Section encoder.

Context {U : Type} (types : list stype) (cb : sproto_arg → U → buffer → luaR (Z * U * buffer)).

Definition encode_object (args : sproto_arg) (u : U) (data : buffer) (size : Z) : luaR (Z * U * buffer) :=
if size <? SIZEOF_LENGTH then lua_ret (-1, u, data)
else
  lbind (cb (set_length (size - SIZEOF_LENGTH) args) u (drop 4 data)) (λ '(sz, u, value),
    let data := take 4 data ++ value in
    if sz <? 0 then lua_ret (if sz =? SPROTO_CB_NIL then 0 else -1, u, data)
    else
      _ ← assertb (sz <=? size - SIZEOF_LENGTH);
      '(data, r) ← fill_size data sz;
      lua_ret (r, u, data)).

(** The position of the buffer, [None] for [NULL]. *)
Fixpoint integer_loop (fuel : nat) (args : sproto_arg) (pos size intlen index : Z) (u : U) (buf : buffer) : luaR (option (Z * Z * bool) * U * buffer) :=
match fuel with
| O => Fault OutOfFuel
| S fuel =>
    lbind (cb (set_length 8 (set_index index args)) u union_u) (λ '(sz, u, v),
      if sz <=? 0 then
        if sz =? SPROTO_CB_NIL then lua_ret (Some (pos, intlen, false), u, buf)
        else if sz =? SPROTO_CB_NOARRAY then lua_ret (Some (pos, intlen, true), u, buf)
        else lua_ret (None, u, buf)
      else if u64 size <? 8 then lua_ret (None, u, buf)
      else if sz =? 4 then
        v ← u32_of v;
        buf ← wr_at buf pos (word_bytes v);
        buf ← (if intlen =? 8 then uint32_to_uint64 (negb (Z.land v 0x80000000 =? 0)) buf pos else Ok buf);
        integer_loop fuel args (pos + intlen) (size - intlen) intlen (index + 1) u buf
      else if negb (sz =? 8) then lua_ret (None, u, buf)
      else
        let grow := if intlen =? 4 then (index - 1) * 4 else 0 in
        if (intlen =? 4) && (u64 (size - grow) <? 8) then lua_ret (None, u, buf)
        else
          buf ← (if intlen =? 4 then rearrange (Z.to_nat (index - 1)) buf else Ok buf);
          v ← u64_of v;
          buf ← wr_at buf (pos + grow) (qword_bytes v);
          integer_loop fuel args (pos + grow + 8) (size - grow - 8) 8 (index + 1) u buf)
end.

(** [None] for [NULL], or the position behind the array and [noarray]. *)
Definition encode_integer_array (args : sproto_arg) (u : U) (buf : buffer) (size : Z) : luaR (option (Z * bool) * U * buffer) :=
if size <? 1 then lua_ret (None, u, buf)
else
  lbind (integer_loop (S (Z.to_nat size)) args 1 (size - 1) 4 1 u buf) (λ '(r, u, buf),
    match r with
    | None => lua_ret (None, u, buf)
    | Some (pos, intlen, noarray) =>
        if pos =? 1 then lua_ret (Some (0, noarray), u, buf)
        else buf ← wr buf 0 (Some (u8 intlen)); lua_ret (Some (pos, noarray), u, buf)
    end).

(** What the loops over booleans and over objects end with: the number of bytes, [NOARRAY], an
  error. *)
Inductive array_end : Set :=
| ArrayEnd (sz : Z)
| NoArray
| ArrayError.

Fixpoint boolean_loop (fuel : nat) (args : sproto_arg) (pos size index : Z) (u : U) (buf : buffer) : luaR (array_end * U * buffer) :=
match fuel with
| O => Fault OutOfFuel
| S fuel =>
    lbind (cb (set_length 4 (set_index index args)) u (replicate 4 (Some 0))) (λ '(sz, u, v),
      if sz <? 0 then
        lua_ret (if sz =? SPROTO_CB_NIL then ArrayEnd pos else if sz =? SPROTO_CB_NOARRAY then NoArray else ArrayError, u, buf)
      else if size <? 1 then lua_ret (ArrayError, u, buf)
      else
        v ← u32_of v;
        buf ← wr buf pos (Some (if v =? 0 then 0 else 1));
        boolean_loop fuel args (pos + 1) (size - 1) (index + 1) u buf)
end.

Fixpoint object_loop (fuel : nat) (args : sproto_arg) (pos size index : Z) (u : U) (buf : buffer) : luaR (array_end * U * buffer) :=
match fuel with
| O => Fault OutOfFuel
| S fuel =>
    if size <? SIZEOF_LENGTH then lua_ret (ArrayError, u, buf)
    else
      let size := size - SIZEOF_LENGTH in
      let at_ := Z.to_nat (pos + SIZEOF_LENGTH) in
      lbind (cb (set_length size (set_index index args)) u (drop at_ buf)) (λ '(sz, u, value),
        let buf := take at_ buf ++ value in
        if sz <? 0 then
          lua_ret (if sz =? SPROTO_CB_NIL then ArrayEnd pos else if sz =? SPROTO_CB_NOARRAY then NoArray else ArrayError, u, buf)
        else
          buf ← wr_at buf pos (word_bytes sz);
          object_loop fuel args (pos + SIZEOF_LENGTH + sz) (size - sz) (index + 1) u buf)
end.

Definition encode_array (args : sproto_arg) (u : U) (data : buffer) (size : Z) : luaR (Z * U * buffer) :=
if size <? SIZEOF_LENGTH then lua_ret (-1, u, data)
else
  let size := size - SIZEOF_LENGTH in
  let buffer := drop 4 data in
  let fuel := S (Z.to_nat size) in
  lbind
    (if a_type args =? SPROTO_TINTEGER then
       lbind (encode_integer_array args u buffer size) (λ '(r, u, buffer),
         lua_ret (match r with None => ArrayError | Some (pos, noarray) => if noarray : bool then NoArray else ArrayEnd pos end, u, buffer))
     else if a_type args =? SPROTO_TBOOLEAN then boolean_loop fuel args 0 size 1 u buffer
     else object_loop fuel args 0 size 1 u buffer)
    (λ '(r, u, buffer),
      let data := take 4 data ++ buffer in
      match r with
      | ArrayError => lua_ret (-1, u, data)
      | NoArray => lua_ret (0, u, data)
      | ArrayEnd sz => '(data, r) ← fill_size data sz; lua_ret (r, u, data)
      end).

(** A value that is not an array: the inline value, or 0, and the size; [None] for [continue],
  with the result where the function returns. *)
Inductive single : Set :=
| SingleNil
| SingleReturn (r : Z)
| Single (value sz : Z).

Definition encode_single (args : sproto_arg) (type : Z) (u : U) (data : buffer) (size : Z) : luaR (single * U * buffer) :=
if (type =? SPROTO_TINTEGER) || (type =? SPROTO_TBOOLEAN) then
  lbind (cb (set_length 8 args) u union_u) (λ '(sz, u, v),
    if sz <? 0 then
      lua_ret (if sz =? SPROTO_CB_NIL then SingleNil else SingleReturn (if sz =? SPROTO_CB_NOARRAY then 0 else -1), u, data)
    else if sz =? 4 then
      v ← u32_of v;
      if v <? 0x7fff then lua_ret (Single ((v + 1) * 2) 2, u, data)
      else '(data, sz) ← encode_integer v data size; lua_ret (Single 0 sz, u, data)
    else if sz =? 8 then
      v ← u64_of v;
      '(data, sz) ← encode_uint64 v data size;
      lua_ret (Single 0 sz, u, data)
    else lua_ret (SingleReturn (-1), u, data))
else if (type =? SPROTO_TSTRUCT) || (type =? SPROTO_TSTRING) then
  lbind (encode_object args u data size) (λ '(sz, u, data), lua_ret (Single 0 sz, u, data))
else lua_ret (Single 0 (-1), u, data).

(** The record of a field with [sz > 0]: [None] where the tag is too far away. *)
Definition put_record (buf : buffer) (index tag value : Z) : res (option (Z * buffer)) :=
let record := SIZEOF_HEADER + SIZEOF_FIELD * index in
if tag >? 0 then
  let tag := (tag - 1) * 2 + 1 in
  if tag >? 0xffff then Ok None
  else
    buf ← wr_at buf record [Z.land tag 0xff; Z.land (Z.shiftr tag 8) 0xff];
    buf ← wr_at buf (record + SIZEOF_FIELD) [Z.land value 0xff; Z.land (Z.shiftr value 8) 0xff];
    Ok (Some (index + 2, buf))
else
  buf ← wr_at buf record [Z.land value 0xff; Z.land (Z.shiftr value 8) 0xff];
  Ok (Some (index + 1, buf)).

(** The end of [sproto_encode]: [data] is the place behind the last data. *)
Definition encode_end (maxn index data : Z) (buf : buffer) : res (Z * buffer) :=
let header_sz := SIZEOF_HEADER + maxn * SIZEOF_FIELD in
buf ← wr_at buf 0 [Z.land index 0xff; Z.land (Z.shiftr index 8) 0xff];
let datasz := data - header_sz in
buf ← (if negb (index =? maxn) then move buf (SIZEOF_HEADER + index * SIZEOF_FIELD) header_sz datasz else Ok buf);
Ok (SIZEOF_HEADER + index * SIZEOF_FIELD + datasz, buf).

(** One field: an array or a single value. *)
Definition encode_field (f : field) (u : U) (data : buffer) (size : Z) : luaR (single * U * buffer) :=
if negb (Z.land (f_type f) SPROTO_TARRAY =? 0) then
  lbind (encode_array (field_arg f (Z.land (f_type f) (Z.lnot SPROTO_TARRAY)) 0) u data size) (λ '(sz, u, data), lua_ret (Single 0 sz, u, data))
else encode_single (field_arg f (f_type f) 0) (f_type f) u data size.

Fixpoint encode_fields (fs : list field) (maxn data size index lasttag : Z) (u : U) (buf : buffer) : luaR (Z * U * buffer) :=
match fs with
| [] => '(r, buf) ← encode_end maxn index data buf; lua_ret (r, u, buf)
| f :: fs =>
    lbind (encode_field f u (drop (Z.to_nat data) buf) size) (λ '(r, u, b),
      let buf := take (Z.to_nat data) buf ++ b in
      match r with
      | SingleNil => encode_fields fs maxn data size index lasttag u buf
      | SingleReturn r => lua_ret (r, u, buf)
      | Single value sz =>
          if sz <? 0 then lua_ret (-1, u, buf)
          else if sz >? 0 then
            let moved := if value =? 0 then sz else 0 in
            r ← put_record buf index (f_tag f - lasttag - 1) value;
            match r with
            | None => lua_ret (-1, u, buf)
            | Some (index, buf) => encode_fields fs maxn (data + moved) (size - moved) index (f_tag f) u buf
            end
          else encode_fields fs maxn data size index lasttag u buf
      end)
end.

Definition sproto_encode (st : stype) (buf : buffer) (size : Z) (u : U) : luaR (Z * U * buffer) :=
let header_sz := SIZEOF_HEADER + t_maxn st * SIZEOF_FIELD in
if size <? header_sz then lua_ret (-1, u, buf)
else encode_fields (take (Z.to_nat (t_n st)) (t_f st)) (t_maxn st) header_sz (size - header_sz) 0 (-1) u buf.

End encoder.

(** ** Decoding *)

(** What [args->value] points to: nothing, a [uint64_t], or bytes of the message. *)
Inductive dvalue : Set :=
| DNull
| DWord (v : Z)
| DBytes (region : list Z).

Definition expand64 (v : Z) : Z := if negb (Z.land v 0x80000000 =? 0) then Z.lor v (u64 (Z.shiftl (2 ^ 64 - 1) 32)) else v.

Section decoder.

Context {U : Type} (cb : sproto_arg → U → dvalue → luaR (Z * U)) (data : list Z).

Fixpoint decode_object_loop (fuel : nat) (args : sproto_arg) (stream sz index : Z) (u : U) : luaR (Z * U) :=
match fuel with
| O => Fault OutOfFuel
| S fuel =>
    if negb (sz >? 0) then lua_ret (0, u)
    else if sz <? SIZEOF_LENGTH then lua_ret (-1, u)
    else
      hsz ← todword data stream;
      let stream := stream + SIZEOF_LENGTH in
      let sz := sz - SIZEOF_LENGTH in
      if hsz >? u32 sz then lua_ret (-1, u)
      else
        lbind (cb (set_length (i32 hsz) (set_index index args)) u (DBytes (drop (Z.to_nat stream) data))) (λ '(r, u),
          if negb (r =? 0) then lua_ret (-1, u)
          else decode_object_loop fuel args (stream + hsz) (sz - hsz) (index + 1) u)
end.

Definition decode_array_object (args : sproto_arg) (stream sz : Z) (u : U) : luaR (Z * U) :=
decode_object_loop (S (length data)) args stream (i32 sz) 1 u.

(** The loops over integers of four and eight bytes and over booleans: [read] is the value at a
  place. *)
Fixpoint decode_values (fuel : nat) (read : Z → res Z) (args : sproto_arg) (n i : Z) (u : U) : luaR (Z * U) :=
match fuel with
| O => Fault OutOfFuel
| S fuel =>
    if negb (i <? n) then lua_ret (0, u)
    else
      v ← read i;
      lbind (cb (set_length 8 (set_index (i + 1) args)) u (DWord v)) (λ '(_, u), decode_values fuel read args n (i + 1) u)
end.

Definition read_int32 (stream i : Z) : res Z := v ← todword data (stream + i * 4); Ok (expand64 v).

Definition read_int64 (stream i : Z) : res Z :=
low ← todword data (stream + i * 8);
hi ← todword data (stream + i * 8 + 4);
Ok (Z.lor low (Z.shiftl hi 32)).

Definition decode_array (args : sproto_arg) (stream : Z) (u : U) : luaR (Z * U) :=
sz ← todword data stream;
if sz =? 0 then lbind (cb (set_length 0 (set_index (-1) args)) u DNull) (λ '(_, u), lua_ret (0, u))
else
  let stream := stream + SIZEOF_LENGTH in
  let fuel := S (length data) in
  if a_type args =? SPROTO_TINTEGER then
    len ← rd data stream;
    let stream := stream + 1 in
    let sz := sz - 1 in
    if len =? 4 then
      if negb (sz mod 4 =? 0) then lua_ret (-1, u) else decode_values fuel (read_int32 stream) args (sz / 4) 0 u
    else if len =? 8 then
      if negb (sz mod 8 =? 0) then lua_ret (-1, u) else decode_values fuel (read_int64 stream) args (sz / 8) 0 u
    else lua_ret (-1, u)
  else if a_type args =? SPROTO_TBOOLEAN then decode_values fuel (λ i, rd data (stream + i)) args sz 0 u
  else if (a_type args =? SPROTO_TSTRING) || (a_type args =? SPROTO_TSTRUCT) then decode_array_object args stream sz u
  else lua_ret (-1, u).

(** The data of a field, from its length on.  [return -1] is a result other than 0. *)
Definition decode_data (f : field) (currentdata : Z) (u : U) : luaR (Z * U) :=
let args := field_arg f (Z.land (f_type f) (Z.lnot SPROTO_TARRAY)) 0 in
if negb (Z.land (f_type f) SPROTO_TARRAY =? 0) then decode_array args currentdata u
else if f_type f =? SPROTO_TINTEGER then
  sz ← todword data currentdata;
  if sz =? 4 then
    v ← todword data (currentdata + SIZEOF_LENGTH);
    lbind (cb (set_length 8 args) u (DWord (expand64 v))) (λ '(_, u), lua_ret (0, u))
  else if negb (sz =? 8) then lua_ret (-1, u)
  else
    v ← read_int64 (currentdata + SIZEOF_LENGTH) 0;
    lbind (cb (set_length 8 args) u (DWord v)) (λ '(_, u), lua_ret (0, u))
else if (f_type f =? SPROTO_TSTRING) || (f_type f =? SPROTO_TSTRUCT) then
  sz ← todword data currentdata;
  cb (set_length (i32 sz) args) u (DBytes (drop (Z.to_nat (currentdata + SIZEOF_LENGTH)) data))
else lua_ret (-1, u).

(** A field with the value in its record. *)
Definition decode_inline (f : field) (value : Z) (u : U) : luaR (Z * U) :=
if negb (f_type f =? SPROTO_TINTEGER) && negb (f_type f =? SPROTO_TBOOLEAN) then lua_ret (-1, u)
else lbind (cb (set_length 8 (field_arg f (Z.land (f_type f) (Z.lnot SPROTO_TARRAY)) 0)) u (DWord value)) (λ '(_, u), lua_ret (0, u)).

Fixpoint decode_fields (st : stype) (n : nat) (total record datastream size tag : Z) (u : U) : luaR (Z * U) :=
match n with
| O => lua_ret (total - size, u)
| S n =>
    value ← toword data record;
    let record := record + SIZEOF_FIELD in
    let tag := tag + 1 in
    if negb (Z.land value 1 =? 0) then decode_fields st n total record datastream size (tag + value / 2) u
    else
      let value := value / 2 - 1 in
      let go (datastream' size : Z) :=
        (o ← findtag st tag;
         match o with
         | None => decode_fields st n total record datastream' size tag u
         | Some f =>
             lbind (if value <? 0 then decode_data f datastream u else decode_inline f value u) (λ '(r, u),
               if negb (r =? 0) then lua_ret (-1, u) else decode_fields st n total record datastream' size tag u)
         end) in
      if value <? 0 then
        if size <? SIZEOF_LENGTH then lua_ret (-1, u)
        else
          sz ← todword data datastream;
          let step := u32 (sz + SIZEOF_LENGTH) in
          if u32 size <? step then lua_ret (-1, u)
          else go (datastream + step) (size - step)
      else go datastream size
end.

Definition sproto_decode (st : stype) (size : Z) (u : U) : luaR (Z * U) :=
let total := size in
if size <? SIZEOF_HEADER then lua_ret (-1, u)
else
  fn ← toword data 0;
  let size := size - SIZEOF_HEADER in
  if size <? fn * SIZEOF_FIELD then lua_ret (-1, u)
  else decode_fields st (Z.to_nat fn) total SIZEOF_HEADER (SIZEOF_HEADER + fn * SIZEOF_FIELD) (size - fn * SIZEOF_FIELD) (-1) u.

End decoder.
