(* ===== verification/SprotoLua.v ===== *)
(** [lualib-src/sproto/lsproto.c]: Lua tables as messages.  [encode] and [decode] are the callbacks
    of [SprotoCodec]; each calls the codec again for a struct inside a struct, to a depth of 64.

    Lua values are those of [Seri].  Tables are read from a heap, without metatables; a
    table that [decode] builds is fresh and is reached only through the field or the element it
    is stored in, so results are trees.  The places of the Lua stack that [tbl_index],
    [array_index] and so on name are fields of a record.  Two names of fields in one type are the
    same pointer exactly when they are the same field, so [array_tag] is a tag. *)

From S2P Require Import Prelude CString Seri Frames Gate Crypt Sproto SprotoCodec.
Open Scope Z_scope.

Definition ENCODE_MAXSIZE : Z := 0x1000000.
Definition ENCODE_BUFFERSIZE : Z := 2050.
Definition ENCODE_DEEPLEVEL : nat := 64.

(** What the Lua VM does with numbers: strings and floats as integers, numbers as strings, and the
    two formulas for decimals, [(lua_Integer)(vn * extra + 0.5)] and the 64 bits of [v / extra]. *)
Class LuaNumbers := {
  lua_cvt2int : list Z → option Z;
  lua_num2str : lval → list Z;
  decimal_in : lval → Z → Z;
  decimal_out : Z → Z → Z
}.

Definition lua_typename (v : lval) : cstring :=
  match v with
  | LNil => str "nil"
  | LBool _ => str "boolean"
  | LInt _ | LReal _ => str "number"
  | LStr _ => str "string"
  | LPointer _ => str "userdata"
  | LTable _ => str "table"
  | LOther => str "no value"
  end.

(** [lua_rawget]; [lua_getfield] on a table without a metatable. *)
Definition rawget (t : ltable) (k : lval) : lval :=
  match list_find (λ e, e.1 = k) (t_entries t) with
  | Some (_, e) => e.2
  | None => LNil
  end.

(** A reference that is not in the heap has no entries. *)
Definition entries_of (H : lheap) (v : lval) : option ltable :=
  match v with LTable r => Some (default (Build_ltable 0 [] None) (H !! r)) | _ => None end.

Section lsproto.

Context {LN : LuaNumbers} (H : lheap) (types : list stype).

Definition lua_tointegerx (v : lval) : option Z :=
match v with
| LInt z => Some z
| LReal bits => real_int bits
| LStr s => lua_cvt2int s
| _ => None
end.

Definition lua_tolstring (v : lval) : option (list Z) :=
match v with
| LStr s => Some s
| LInt _ | LReal _ => Some (lua_num2str v)
| _ => None
end.

Definition should_be (args : sproto_arg) (what : cstring) (v : lval) : cstring :=
str "." ++ a_tagname args ++ str "[" ++ print_d (a_index args) ++ str "] is not " ++ what ++ str " (Is a " ++ lua_typename v ++ str ")".

(** ** Encoding *)

(** The table, the array that is encoded, and how many of its entries [lua_next] has visited. *)
Record encode_ud : Set := EncodeUd {
eu_tbl : ltable;
eu_array_tag : option Z;
eu_array : option ltable;
eu_iter : nat
}.

(** The value to encode: [inr], or [inl] of what the callback returns. *)
Definition encode_get (args : sproto_arg) (u : encode_ud) : luaR ((Z + lval) * encode_ud) :=
if a_index args >? 0 then
  lbind
    (if bool_decide (eu_array_tag u = Some (a_tagid args)) then lua_ret (inr (), u)
     else
       let v := rawget (eu_tbl u) (LStr (a_tagname args)) in
       if bool_decide (v = LNil) then lua_ret (inl SPROTO_CB_NOARRAY, EncodeUd (eu_tbl u) (Some (a_tagid args)) None (eu_iter u))
       else
         match entries_of H v with
         | None => luaL_error (str ".*" ++ a_tagname args ++ str "(" ++ print_d (a_index args) ++ str ") should be a table (Is a " ++ lua_typename v ++ str ")")
         | Some t => lua_ret (inr (), EncodeUd (eu_tbl u) (Some (a_tagid args)) (Some t) (eu_iter u))
         end)
    (λ '(r, u),
      match r with
      | inl r => lua_ret (inl r, u)
      | inr _ =>
          t ← or_fault BadPointer (eu_array u);
          if a_mainindex args >=? 0 then
            match t_entries t !! eu_iter u with
            | None => lua_ret (inl SPROTO_CB_NIL, EncodeUd (eu_tbl u) (eu_array_tag u) (eu_array u) 0)
            | Some (_, v) => lua_ret (inr v, EncodeUd (eu_tbl u) (eu_array_tag u) (eu_array u) (S (eu_iter u)))
            end
          else lua_ret (inr (rawgeti t (a_index args)), u)
      end)
else lua_ret (inr (rawget (eu_tbl u) (LStr (a_tagname args))), u).

Definition encode_int (args : sproto_arg) (v : lval) : luaR Z :=
if negb (a_extra args =? 0) then lua_ret (decimal_in v (a_extra args))
else
  match lua_tointegerx v with
  | None => luaL_error (should_be args (str "an integer") v)
  | Some z => lua_ret z
  end.

Fixpoint encode (lev : nat) (args : sproto_arg) (u : encode_ud) (mem : buffer) : luaR (Z * encode_ud * buffer) :=
match lev with
| O => luaL_error (str "The table is too deep")
| S lev =>
    lbind (encode_get args u) (λ '(r, u),
      match r with
      | inl r => lua_ret (r, u, mem)
      | inr v =>
          if bool_decide (v = LNil) then lua_ret (SPROTO_CB_NIL, u, mem)
          else if a_type args =? SPROTO_TINTEGER then
            lbind (encode_int args v) (λ z,
              let vh := Z.shiftr z 31 in
              if (vh =? 0) || (vh =? -1) then mem ← wr_at mem 0 (le_bytes 4 (u32 z)); lua_ret (4, u, mem)
              else mem ← wr_at mem 0 (le_bytes 8 (u64 z)); lua_ret (8, u, mem))
          else if a_type args =? SPROTO_TBOOLEAN then
            match v with
            | LBool b => mem ← wr_at mem 0 (le_bytes 4 (if b then 1 else 0)); lua_ret (4, u, mem)
            | _ => luaL_error (should_be args (str "a boolean") v)
            end
          else if a_type args =? SPROTO_TSTRING then
            match lua_tolstring v with
            | None => luaL_error (should_be args (str "a string") v)
            | Some s =>
                if Z.of_nat (length s) >? u64 (a_length args) then lua_ret (SPROTO_CB_ERROR, u, mem)
                else mem ← wr_at mem 0 s; lua_ret (i32 (Z.of_nat (length s)), u, mem)
            end
          else if a_type args =? SPROTO_TSTRUCT then
            match entries_of H v with
            | None => luaL_error (should_be args (str "a table") v)
            | Some t =>
                i ← or_fault BadPointer (a_subtype args);
                st ← rd types i;
                lbind (sproto_encode (encode lev) st mem (a_length args) (EncodeUd t None None 0)) (λ '(r, _, mem),
                  lua_ret (if r <? 0 then SPROTO_CB_ERROR else r, u, mem))
            end
          else luaL_error (str "Invalid field type " ++ print_d (a_type args))
      end)
end.

(** [expand_buffer]: the new size. *)
Fixpoint expand_loop (fuel : nat) (osz nsz : Z) : res Z :=
match fuel with
| O => Fault OutOfFuel
| S fuel => osz ← int_chk (osz * 2); if osz <? nsz then expand_loop fuel osz nsz else Ok osz
end.

Definition expand_buffer (osz nsz : Z) : luaR Z :=
osz ← expand_loop 32 osz nsz;
if osz >? ENCODE_MAXSIZE then luaL_error (str "object is too large (>" ++ print_d ENCODE_MAXSIZE ++ str ")") else lua_ret osz.

(** The string, and the size of the buffer that is kept. *)
Fixpoint encode_retry (fuel : nat) (st : stype) (t : ltable) (buf : buffer) (sz : Z) : luaR (list Z * Z) :=
match fuel with
| O => Fault OutOfFuel
| S fuel =>
    lbind (sproto_encode (encode ENCODE_DEEPLEVEL) st buf sz (EncodeUd t None None 0)) (λ '(r, _, buf),
      if r <? 0 then lbind (expand_buffer sz (sz * 2)) (λ nsz, encode_retry fuel st t (replicate (Z.to_nat nsz) None) (sz * 2))
      else s ← init_bytes buf r; lua_ret (s, sz))
end.

(** The type and the table; no type is a response of [nil].  [sz] is the size of the buffer from the call before. *)
Definition lencode (st : option Z) (v : lval) (buf : buffer) (sz : Z) : luaR (list Z * Z) :=
match st with
| None => if bool_decide (v = LNil) then lua_ret ([], sz) else luaL_error (str "nil expected")
| Some i =>
    match entries_of H v with
    | None => luaL_error (str "table expected")
    | Some t => st ← rd types i; encode_retry 32 st t buf sz
    end
end.

(** ** Decoding *)

(** The fields that are set; [array_tag] with the field that [array_index] is the value of; the tag of the
  key and the key. *)
Record decode_ud : Set := DecodeUd {
du_result : list (value * value);
du_array : option (Z * cstring);
du_mainindex_tag : Z;
du_key : value
}.

Definition setfield (es : list (value * value)) (name : cstring) (v : value) : list (value * value) := rawset_entries es (VStr name) v.

(** The entries of the array under a name. *)
Definition array_of (es : list (value * value)) (name : cstring) : list (value * value) :=
match list_find (λ e, key_eqb e.1 (VStr name)) es with Some (_, (_, VTable l)) => l | _ => [] end.

(** [lua_settable] and [lua_seti] on the array in [array_index]. *)
Definition set_element (u : decode_ud) (k v : value) : res decode_ud :=
'(_, name) ← or_fault BadPointer (du_array u);
Ok (DecodeUd (setfield (du_result u) name (VTable (rawset_entries (array_of (du_result u) name) (normal_key k) v)))
  (du_array u) (du_mainindex_tag u) (du_key u)).

(** A new array: the user data, and whether it is an empty one. *)
Definition decode_open (args : sproto_arg) (u : decode_ud) : decode_ud * bool :=
if negb (a_index args =? 0) && negb (bool_decide (fst <$> du_array u = Some (a_tagid args))) then
  (DecodeUd (setfield (du_result u) (a_tagname args) (VTable [])) (Some (a_tagid args, a_tagname args)) (du_mainindex_tag u) (du_key u), a_index args <? 0)
else (u, false).

(** The end of [decode]: the value goes into the array or into the field. *)
Definition decode_store (args : sproto_arg) (u : decode_ud) (v : value) : luaR (Z * decode_ud) :=
if a_index args >? 0 then u ← set_element u (VInt (a_index args)) v; lua_ret (0, u)
else
  let key := if du_mainindex_tag u =? a_tagid args then v else du_key u in
  lua_ret (0, DecodeUd (setfield (du_result u) (a_tagname args) v) (du_array u) (du_mainindex_tag u) key).

Definition word_value (d : dvalue) : res Z := match d with DWord v => Ok v | _ => Fault BadPointer end.
Definition bytes_value (d : dvalue) : res (list Z) := match d with DBytes l => Ok l | _ => Fault BadPointer end.

(** A length below 0 is far above what [lua_pushlstring] takes: an error of the VM. *)
Definition lua_pushlstring (l : list Z) (n : Z) : luaR value :=
if n <? 0 then luaL_error (str "memory allocation error: block too big") else s ← rd_at l 0 n; lua_ret (VStr s).

Fixpoint decode (lev : nat) (args : sproto_arg) (u : decode_ud) (d : dvalue) : luaR (Z * decode_ud) :=
match lev with
| O => luaL_error (str "The table is too deep")
| S lev =>
    let '(u, empty) := decode_open args u in
    if empty : bool then lua_ret (0, u)
    else if a_type args =? SPROTO_TINTEGER then
      v ← word_value d;
      decode_store args u (if negb (a_extra args =? 0) then VReal (decimal_out (i64 v) (a_extra args)) else VInt (i64 v))
    else if a_type args =? SPROTO_TBOOLEAN then
      v ← word_value d;
      decode_store args u (VBool (negb (i32 v =? 0)))
    else if a_type args =? SPROTO_TSTRING then
      l ← bytes_value d;
      lbind (lua_pushlstring l (a_length args)) (decode_store args u)
    else if a_type args =? SPROTO_TSTRUCT then
      l ← bytes_value d;
      i ← or_fault BadPointer (a_subtype args);
      st ← rd types i;
      lbind (sproto_decode (decode lev) l st (a_length args) (DecodeUd [] None (if a_mainindex args >=? 0 then a_mainindex args else -1) VNil)) (λ '(r, sub),
        if r <? 0 then lua_ret (SPROTO_CB_ERROR, u)
        else if negb (r =? a_length args) then lua_ret (r, u)
        else if a_mainindex args >=? 0 then
          if is_vnil (du_key sub) then
            luaL_error (str "Can't find main index (tag=" ++ print_d (a_mainindex args) ++ str ") in [" ++ a_tagname args ++ str "]")
          else
            u ← set_element u (du_key sub) (VTable (du_result sub)); lua_ret (0, u)
        else decode_store args u (VTable (du_result sub)))
    else luaL_error (str "Invalid type")
end.

(** The table and how many bytes were used; [result] has what the caller's table holds already. *)
Definition ldecode (st : option Z) (buf : list Z) (result : list (value * value)) : luaR (option (value * Z)) :=
match st with
| None => lua_ret None
| Some i =>
    st ← rd types i;
    lbind (sproto_decode (decode ENCODE_DEEPLEVEL) buf st (i32 (Z.of_nat (length buf))) (DecodeUd result None (-1) VNil)) (λ '(r, u),
      if r <? 0 then luaL_error (str "decode error") else lua_ret (Some (VTable (du_result u), r)))
end.

End lsproto.
