(* ===== verification/SprotoProps.v ===== *)
(** sproto's messages as trees: the encoding, the memory that encoding takes, and the bytes of
    integers.

    A field that is not set is not in the tree.  The encoding depends on the tags and the values
    alone; a struct keeps how many words the encoder sets aside for its records, the
    [maxn] of its type. *)

From S2P Require Import Prelude CString Seri SeriProps Frames Gate GateProps Crypt CryptDes CryptDh CryptText Words Sproto SprotoCodec.
Open Scope Z_scope.

Inductive tree : Set :=
| TInt (v : Z)
| TBool (b : bool)
| TStr (s : list Z)
| TInts (l : list Z)
| TBools (l : list bool)
| TObjs (l : list tree)
| TStruct (maxn : Z) (fs : list (Z * tree)).

(** ** The encoding *)

Definition half (w : Z) : list Z := [Z.land w 0xff; Z.land (Z.shiftr w 8) 0xff].
Definition sized (l : list Z) : list Z := word_bytes (Z.of_nat (length l)) ++ l.

(** An integer of 32 bits. *)
Definition small (v : Z) : bool := (- 2 ^ 31 <=? v) && (v <? 2 ^ 31).

Definition bit (b : bool) : Z := if b then 1 else 0.

(** The value that fits into the record. *)
Definition inline (t : tree) : option Z :=
  match t with
  | TInt v => if (0 <=? v) && (v <? 0x7fff) then Some v else None
  | TBool b => Some (bit b)
  | _ => None
  end.

Definition int_bytes (wide : bool) (v : Z) : list Z := if wide then qword_bytes v else word_bytes v.

(** The records: a word that skips tags, and a word with the value or 0. *)
Fixpoint record_words {A} (last : Z) (l : list (Z * (option Z * A))) : list Z :=
  match l with
  | [] => []
  | (tag, (i, _)) :: l =>
      (if tag - last - 1 >? 0 then [(tag - last - 2) * 2 + 1] else []) ++ (match i with Some v => (v + 1) * 2 | None => 0 end) :: record_words tag l
  end.

Definition record_data (r : Z * (option Z * list Z)) : list Z := match r.2.1 with Some _ => [] | None => sized r.2.2 end.

Definition struct_bytes (l : list (Z * (option Z * list Z))) : list Z :=
  let ws := record_words (-1) l in
  half (Z.of_nat (length ws)) ++ concat (map half ws) ++ concat (map record_data l).

(** The data of a value, without its length. *)
Fixpoint body (t : tree) : list Z :=
  match t with
  | TInt v => int_bytes (negb (small v)) v
  | TBool b => []
  | TStr s => s
  | TInts [] => []
  | TInts l => (if forallb small l then 4 else 8) :: concat (map (int_bytes (negb (forallb small l))) l)
  | TBools l => map bit l
  | TObjs l => concat (map (λ t, sized (body t)) l)
  | TStruct _ fs => struct_bytes (map (λ '(tag, t), (tag, (inline t, body t))) fs)
  end.

Definition records (fs : list (Z * tree)) : list (Z * (option Z * list Z)) := map (λ '(tag, t), (tag, (inline t, body t))) fs.

(** ** The memory it takes *)

(** Enough bytes for the data of a value with its length. *)
Fixpoint room (t : tree) : Z :=
  match t with
  | TInt _ => 12
  | TBool _ => 0
  | TStr s => 4 + Z.of_nat (length s)
  | TInts l => 5 + 8 * Z.of_nat (length l)
  | TBools l => 4 + Z.of_nat (length l)
  | TObjs l => 8 + foldr Z.add 0 (map room l)
  | TStruct maxn fs => 4 + (10 + 2 * maxn + foldr Z.add 0 (map (λ '(_, t), room t) fs))
  end.

Definition rooms (fs : list (Z * tree)) : Z := foldr Z.add 0 (map (λ '(_, t), room t) fs).

(** In no array does an integer that needs 64 bits come after one that needs 32. *)
Fixpoint tidy (t : tree) : bool :=
  match t with
  | TInts l => match l with [] => true | v :: _ => negb (small v) || forallb small l end
  | TObjs l => forallb tidy l
  | TStruct _ fs => forallb (λ '(_, t), tidy t) fs
  | _ => true
  end.

Definition tidy_fields (fs : list (Z * tree)) : bool := forallb (λ '(_, t), tidy t) fs.

(** ** Bytes of integers *)

Lemma word_bytes_le v : word_bytes v = le_bytes 4 v.
Proof.
  unfold word_bytes, shr, le_bytes. rewrite !land_255, !Z.shiftr_div_pow2 by lia. change (2 ^ 8) with 256. change (2 ^ 16) with (256 * 256). change (2 ^ 24) with (256 * 256 * 256).
  by rewrite <- !Z.div_div by lia.
Qed.

Lemma le_bytes_mod n : ∀ v, le_bytes n (v mod 2 ^ (8 * Z.of_nat n)) = le_bytes n v.
Proof.
  induction n as [|n IH]; intros v; cbn [le_bytes]; [done|]. assert (E : 2 ^ (8 * Z.of_nat (S n)) = 256 * 2 ^ (8 * Z.of_nat n)).
  { replace (8 * Z.of_nat (S n)) with (8 + 8 * Z.of_nat n) by lia. by rewrite Z.pow_add_r by lia. }
  rewrite E. assert (Hp : 0 < 2 ^ (8 * Z.of_nat n)) by (apply Z.pow_pos_nonneg; lia). rewrite <- (IH (v / 256)). rewrite Z.rem_mul_r by lia. f_equal.
  - by rewrite Z.mul_comm, Z.mod_add, Z.mod_mod by lia.
  - f_equal. rewrite Z.mul_comm, Z.div_add by lia. rewrite (Z.div_small (v mod 256)) by (apply Z.mod_pos_bound; lia). done.
Qed.

Lemma word_bytes_u32 v : word_bytes (u32 v) = word_bytes v.
Proof. rewrite !word_bytes_le. apply (le_bytes_mod 4). Qed.

Lemma le_bytes_app n v : ∀ m, le_bytes (m + n) v = le_bytes m v ++ le_bytes n (v / 2 ^ (8 * Z.of_nat m)).
Proof.
  intros m. revert v. induction m as [|m IH]; intros v; [by rewrite Z.div_1_r|]. cbn [Nat.add le_bytes app]. rewrite IH. f_equal. f_equal. f_equal.
  rewrite Z.div_div by (lia || (apply Z.pow_pos_nonneg; lia)). f_equal. replace (8 * Z.of_nat (S m)) with (8 + 8 * Z.of_nat m) by lia. by rewrite Z.pow_add_r by lia.
Qed.

Lemma qword_bytes_le v : qword_bytes v = le_bytes 8 v.
Proof. unfold qword_bytes. rewrite !word_bytes_le, Z.shiftr_div_pow2 by lia. symmetry. apply (le_bytes_app 4 v 4). Qed.

Lemma qword_bytes_u64 v : qword_bytes (u64 v) = qword_bytes v.
Proof. rewrite !qword_bytes_le. apply (le_bytes_mod 8). Qed.

Lemma qword_bytes_length v : length (qword_bytes v) = 8%nat.
Proof. done. Qed.

Lemma int_bytes_length wide v : length (int_bytes wide v) = if wide then 8%nat else 4%nat.
Proof. by destruct wide. Qed.

(** The upper half of a small integer is its sign. *)
Lemma small_high v : small v = true → word_bytes (Z.shiftr v 32) = if v <? 0 then [0xff; 0xff; 0xff; 0xff] else [0; 0; 0; 0].
Proof.
  unfold small. rewrite andb_true_iff, Z.leb_le, Z.ltb_lt. intros Hv. rewrite Z.shiftr_div_pow2 by lia. destruct (Z.ltb_spec v 0).
  - rewrite <- (Z.div_unique v (2 ^ 32) (-1) (v + 2 ^ 32)) by lia. done.
  - rewrite Z.div_small by lia. done.
Qed.

Lemma land_pow2 x k : 0 ≤ k → Z.land x (2 ^ k) = if Z.testbit x k then 2 ^ k else 0.
Proof.
  intros Hk. apply Z.bits_inj'. intros i Hi. rewrite Z.land_spec, Z.pow2_bits_eqb by lia. destruct (Z.eqb_spec k i) as [<-|Hne].
  - destruct (Z.testbit x k); [by rewrite Z.pow2_bits_true by lia|by rewrite Z.bits_0].
  - rewrite andb_false_r. destruct (Z.testbit x k); [by rewrite Z.pow2_bits_false by lia|by rewrite Z.bits_0].
Qed.

(** Bit 31, in a word and in its last byte, is the sign. *)
Lemma sign_bit v : small v = true → Z.testbit v 31 = (v <? 0).
Proof.
  unfold small. rewrite andb_true_iff, Z.leb_le, Z.ltb_lt. intros Hv. rewrite Z.testbit_eqb by lia. destruct (Z.ltb_spec v 0).
  - rewrite <- (Z.div_unique v (2 ^ 31) (-1) (v + 2 ^ 31)) by lia. done.
  - by rewrite Z.div_small by lia.
Qed.

Lemma small_sign v : small v = true → negb (Z.land (u32 v) 0x80000000 =? 0) = (v <? 0).
Proof.
  intros Hv. change 0x80000000 with (2 ^ 31). rewrite land_pow2 by lia. unfold u32. rewrite Z.mod_pow2_bits_low, sign_bit by (done || lia). by destruct (v <? 0).
Qed.

Lemma byte_sign v : small v = true → negb (Z.land (Z.land (shr v 24) 0xff) 0x80 =? 0) = (v <? 0).
Proof.
  intros Hv. change 0x80 with (2 ^ 7). rewrite land_pow2, Z.land_spec by lia. unfold shr. rewrite Z.shiftr_spec by lia. change (Z.testbit 255 7) with true. rewrite andb_true_r.
  change (7 + 24) with 31. rewrite sign_bit by done. by destruct (v <? 0).
Qed.

(** Reading the union the callback has written. *)
Lemma u32_of_bytes v rest : u32_of (map Some (le_bytes 4 v) ++ rest) = Ok (u32 v).
Proof. unfold u32_of. rewrite (init_prefix (le_bytes 4 v)), bind_ok by (by rewrite length_le_bytes). by rewrite le_value_bytes. Qed.

Lemma u64_of_bytes v rest : u64_of (map Some (le_bytes 8 v) ++ rest) = Ok (u64 v).
Proof. unfold u64_of. rewrite (init_prefix (le_bytes 8 v)), bind_ok by (by rewrite length_le_bytes). by rewrite le_value_bytes. Qed.
