(* ===== verification/SprotoSchema.v ===== *)
(** The queries on a schema: the binary search of [findtag] and [query_proto] finds what is there. *)

From S2P Require Import Prelude CString Seri Frames Gate Crypt Sproto.
Open Scope Z_scope.

(** ** Binary search *)

Definition increasing (tags : list Z) : Prop := ∀ i j a b, (i < j)%nat → tags !! i = Some a → tags !! j = Some b → a < b.

Lemma search_round_lemma tags tag b e t : b < e → 0 ≤ (b + e) / 2 → tags !! Z.to_nat ((b + e) / 2) = Some t →
  search_round tags tag (b, e) = Ok (if t =? tag then Break (Some ((b + e) / 2)) else if tag >? t then Continue ((b + e) / 2 + 1, e) else Continue (b, (b + e) / 2)).
Proof.
  intros Hlt Hm Ht. unfold search_round. destruct (Z.ltb_spec b e); [|lia]. cbn [negb]. cbv zeta. rewrite (rd_ok _ _ t), bind_ok by done. by destruct (t =? tag), (tag >? t).
Qed.

Lemma search_round_end tags tag b e : e ≤ b → search_round tags tag (b, e) = Ok (Break None).
Proof. intros Hle. unfold search_round. by destruct (Z.ltb_spec b e); [lia|]. Qed.

Lemma tag_search_lemma tags tag : increasing tags → ∀ fuel b e, 0 ≤ b ≤ e → e ≤ Z.of_nat (length tags) → (Z.to_nat (e - b) < fuel)%nat →
  (∀ i t, tags !! i = Some t → t = tag → b ≤ Z.of_nat i < e) →
  ∃ o, iterate fuel (search_round tags tag) (b, e) = Ok o ∧ match o with Some i => 0 ≤ i ∧ tags !! Z.to_nat i = Some tag | None => tag ∉ tags end.
Proof.
  intros Hinc. induction fuel as [|fuel IH]; intros b e Hb He Hfuel Hin; [lia|]. cbn [iterate]. destruct (Z.ltb_spec b e) as [Hlt|Hge].
  - set (m := (b + e) / 2). assert (Hm : b ≤ m < e) by (split; [apply Z.div_le_lower_bound; lia|apply Z.div_lt_upper_bound; lia]).
    destruct (lookup_lt_is_Some_2 tags (Z.to_nat m)) as [t Ht]; [lia|]. rewrite (search_round_lemma tags tag b e t Hlt ltac:(lia) Ht), bind_ok. fold m.
    destruct (Z.eqb_spec t tag) as [->|Hne]; [exists (Some m); split; [done|split; [lia|done]]|]. destruct (Z.gtb_spec tag t).
    + apply IH; [lia|lia|lia|]. intros i t' Hi ->. pose proof (Hin i tag Hi eq_refl). destruct (decide (Z.to_nat m < i)%nat); [lia|]. destruct (decide (i = Z.to_nat m)) as [->|]; [rewrite Hi in Ht; injection Ht as ->; lia|].
      pose proof (Hinc i (Z.to_nat m) tag t ltac:(lia) Hi Ht). lia.
    + apply IH; [lia|lia|lia|]. intros i t' Hi ->. pose proof (Hin i tag Hi eq_refl). destruct (decide (i < Z.to_nat m)%nat); [lia|]. destruct (decide (i = Z.to_nat m)) as [->|]; [rewrite Hi in Ht; injection Ht as ->; lia|].
      pose proof (Hinc (Z.to_nat m) i t tag ltac:(lia) Ht Hi). lia.
  - rewrite search_round_end, bind_ok by lia. exists None. split; [done|]. intros Hel. apply list_elem_of_lookup in Hel as [i Hi]. pose proof (Hin i tag Hi eq_refl). lia.
Qed.

Lemma binary_search_lemma tags tag : increasing tags →
  ∃ o, binary_search tags (Z.of_nat (length tags)) tag = Ok o ∧ match o with Some i => 0 ≤ i ∧ tags !! Z.to_nat i = Some tag | None => tag ∉ tags end.
Proof.
  intros Hinc. apply tag_search_lemma; [done|lia|lia|lia|]. intros i t Hi _. apply lookup_lt_Some in Hi. lia.
Qed.

(** ** Fields by tag *)

Fixpoint find_field (fs : list field) (tag : Z) : option field :=
  match fs with [] => None | f :: fs => if f_tag f =? tag then Some f else find_field fs tag end.

Lemma find_field_some fs tag f : find_field fs tag = Some f → f ∈ fs ∧ f_tag f = tag.
Proof.
  induction fs as [|g fs IH]; [done|]. cbn [find_field]. destruct (Z.eqb_spec (f_tag g) tag); intros E; [injection E as <-; split; [by left|done]|]. destruct (IH E). split; [by right|done].
Qed.

Lemma find_field_at fs i f : increasing (map f_tag fs) → fs !! i = Some f → find_field fs (f_tag f) = Some f.
Proof.
  revert i. induction fs as [|g fs IH]; intros i Hinc Hi; [done|]. cbn [find_field]. destruct i as [|i]; [injection Hi as ->; by rewrite Z.eqb_refl|]. cbn in Hi.
  assert (Hlt : f_tag g < f_tag f) by (apply (Hinc 0%nat (S i)); [lia|done|by rewrite list_lookup_fmap; cbn; rewrite Hi]). destruct (Z.eqb_spec (f_tag g) (f_tag f)); [lia|].
  apply (IH i); [|done]. intros a b x y Hab Ha Hb. by apply (Hinc (S a) (S b)); [lia|..].
Qed.

Lemma find_field_none fs tag : tag ∉ map f_tag fs → find_field fs tag = None.
Proof.
  intros Hni. destruct (find_field fs tag) as [f|] eqn:E; [|done]. apply find_field_some in E as [Hf <-]. destruct Hni. apply list_elem_of_fmap. by exists f.
Qed.

(** What a type must be like for the decoder. *)
Record readable (st : stype) : Prop := {
  rd_n : t_n st = Z.of_nat (length (t_f st));
  rd_inc : increasing (map f_tag (t_f st));
  rd_base : t_base st < 0 ∨ ∀ i f, t_f st !! i = Some f → f_tag f = t_base st + Z.of_nat i
}.

Lemma findtag_lemma st tag : readable st → findtag st tag = Ok (find_field (t_f st) tag).
Proof.
  intros [Hn Hinc Hbase]. unfold findtag. rewrite Hn. destruct (Z.geb_spec (t_base st) 0) as [Hb|Hb].
  - destruct Hbase as [|Hbase]; [lia|]. cbv zeta. assert (Hout : tag - t_base st < 0 ∨ Z.of_nat (length (t_f st)) ≤ tag - t_base st → find_field (t_f st) tag = None).
    { intros Ho. apply find_field_none. intros Hin. apply list_elem_of_fmap in Hin as (f & -> & Hf). apply list_elem_of_lookup in Hf as [i Hi]. pose proof (Hbase i f Hi). apply lookup_lt_Some in Hi. lia. }
    destruct (Z.ltb_spec (tag - t_base st) 0); [cbn [orb]; by rewrite Hout by lia|]. destruct (Z.geb_spec (tag - t_base st) (Z.of_nat (length (t_f st)))); cbn [orb]; [by rewrite Hout by lia|].
    destruct (lookup_lt_is_Some_2 (t_f st) (Z.to_nat (tag - t_base st))) as [f Hf]; [lia|]. rewrite (rd_ok _ _ f), bind_ok by done. pose proof (Hbase _ _ Hf) as Ht. replace tag with (f_tag f) by lia. by rewrite (find_field_at _ _ _ Hinc Hf).
  - destruct (binary_search_lemma (map f_tag (t_f st)) tag Hinc) as (o & E & Ho). rewrite length_map in E. rewrite E, bind_ok. destruct o as [i|].
    + destruct Ho as [Hi Ho]. rewrite list_lookup_fmap in Ho. destruct (t_f st !! Z.to_nat i) as [f|] eqn:Hf; [|done]. cbn in Ho. injection Ho as <-. rewrite (rd_ok _ _ f), bind_ok by done. by rewrite (find_field_at _ _ _ Hinc Hf).
    + by rewrite find_field_none.
Qed.
