(* ===== verification/SprotoEncode.v ===== *)
(** [sproto_encode] writes the encoding of a message.

    A section fixes a callback.  [elem] says what it does for one element or one field, and
    [fields_run] that its answers for the fields of a type are the fields of a message; then
    the encoder writes the bytes of the message, or returns -1 because the memory is too small. *)

From S2P Require Import Prelude CString Seri SeriProps Frames Gate GateProps Crypt CryptDes CryptDh CryptText Words Sproto SprotoCodec SprotoProps.
Open Scope Z_scope.

(** ** Integers in an array *)

Definition widths (wide : bool) (l : list Z) : list Z := concat (map (int_bytes wide) l).

Lemma widths_length wide l : length (widths wide l) = ((if wide then 8 else 4) * length l)%nat.
Proof. induction l as [|v l IH]; [by destruct wide|]. unfold widths in *. cbn [map concat length]. rewrite length_app, IH, int_bytes_length. destruct wide; lia. Qed.

Lemma widths_app wide l1 l2 : widths wide (l1 ++ l2) = widths wide l1 ++ widths wide l2.
Proof. unfold widths. by rewrite map_app, concat_app. Qed.

Lemma move_mid (pre src post : buffer) (l : list Z) mid rest dst s n :
  n = Z.of_nat (length l) → s = Z.of_nat (length src) → drop (length src) (pre ++ mid ++ rest) = map Some l ++ post →
  dst = Z.of_nat (length pre) → length mid = length l → move (pre ++ mid ++ rest) dst s n = Ok (pre ++ map Some l ++ rest).
Proof.
  intros -> -> Hsrc -> Hmid. unfold move. rewrite Nat2Z.id, Hsrc. rewrite init_prefix, bind_ok by done. by apply wr_at_mid.
Qed.

(** One integer moves from four bytes to eight: [B1] and [B2] are the memory before and at its new
    place. *)
Lemma rearrange_step x l v (J rest : buffer) (n := length l) : small v = true → length J = (4 * S n)%nat →
  ∃ J', length J' = (4 * n)%nat ∧
    (buf ← move (x :: map Some (widths false (l ++ [v])) ++ J ++ rest) (1 + Z.of_nat n * 8) (1 + Z.of_nat n * 4) 4;
     b ← rd_init buf (1 + Z.of_nat n * 8 + 3);
     uint32_to_uint64 (negb (Z.land b 0x80 =? 0)) buf (1 + Z.of_nat n * 8)) = Ok (x :: map Some (widths false l) ++ J' ++ map Some (qword_bytes v) ++ rest).
Proof.
  intros Hv HJ. set (B := map Some (widths false (l ++ [v])) ++ J). assert (HB : length B = (8 * n + 8)%nat).
  { unfold B. rewrite length_app, length_map, widths_length, length_app. cbn [length]. fold n. lia. }
  set (B1 := take (8 * n) B). set (B2 := drop (8 * n) B). assert (H1 : length B1 = (8 * n)%nat) by (unfold B1; rewrite length_take; lia).
  assert (H2 : length B2 = 8%nat) by (unfold B2; rewrite length_drop; lia). assert (EB : B = B1 ++ B2) by (unfold B1, B2; by rewrite take_drop).
  assert (EB1 : ∃ J', length J' = (4 * n)%nat ∧ B1 = map Some (widths false l) ++ J').
  { exists (drop (4 * n) B1). rewrite length_drop. split; [lia|]. rewrite <- (take_drop (4 * n) B1) at 1. f_equal. unfold B1. rewrite take_take, Nat.min_l by lia.
    unfold B. rewrite widths_app, map_app, <- app_assoc. apply take_app_length'. by rewrite length_map, widths_length. }
  destruct EB1 as (J' & HJ' & EB1). exists J'. split; [done|].
  replace (x :: map Some (widths false (l ++ [v])) ++ J ++ rest) with ((x :: B1) ++ take 4 B2 ++ (drop 4 B2 ++ rest)).
  2:{ cbn [app]. f_equal. rewrite (app_assoc (take 4 B2)), take_drop, app_assoc, <- EB. unfold B. by rewrite <- app_assoc. }
  rewrite (move_mid (x :: B1) (x :: map Some (widths false l)) (J ++ rest) (word_bytes v)); cycle 1.
  { done. }
  { cbn [length]. rewrite length_map, widths_length. fold n. lia. }
  { rewrite (app_assoc (take 4 B2)), take_drop. cbn [app length drop]. rewrite app_assoc, <- EB. unfold B. rewrite widths_app, map_app, <- !app_assoc.
    rewrite drop_app_length. unfold widths. cbn [map concat]. by rewrite app_nil_r. }
  { cbn [length]. lia. }
  { rewrite length_take, H2. done. }
  rewrite bind_ok. rewrite !app_comm_cons. assert (Erd : rd_init ((x :: B1) ++ map Some (word_bytes v) ++ drop 4 B2 ++ rest) (1 + Z.of_nat n * 8 + 3) = Ok (Z.land (shr v 24) 0xff)).
  { apply rd_init_ok; [lia|]. replace (Z.to_nat (1 + Z.of_nat n * 8 + 3)) with (3 + length (x :: B1))%nat by (cbn [length]; lia).
    rewrite lookup_app_r, Nat.add_sub by lia. done. }
  rewrite Erd, bind_ok, byte_sign by done. unfold uint32_to_uint64. rewrite <- small_high by done. rewrite app_assoc.
  rewrite (wr_at_mid (word_bytes (Z.shiftr v 32)) ((x :: B1) ++ map Some (word_bytes v)) (drop 4 B2) rest).
  - unfold qword_bytes. rewrite map_app, EB1. cbn [app]. by rewrite <- !app_assoc.
  - rewrite length_app, length_map, word_bytes_length. cbn [length]. lia.
  - rewrite length_drop, H2. done.
Qed.

Lemma rearrange_lemma l : ∀ x (J rest : buffer), forallb small l = true → length J = (4 * length l)%nat →
  rearrange (length l) (x :: map Some (widths false l) ++ J ++ rest) = Ok (x :: map Some (widths true l) ++ rest).
Proof.
  induction l as [|v l IH] using rev_ind; intros x J rest Hs HJ; [by destruct J|]. rewrite forallb_app, andb_true_iff in Hs. destruct Hs as [Hs Hv]. cbn in Hv. rewrite andb_true_r in Hv.
  rewrite length_app in *. cbn [length] in *. rewrite Nat.add_comm in HJ |- *. cbn [Nat.add rearrange].
  destruct (rearrange_step x l v J rest Hv HJ) as (J' & HJ' & E). cbn [Nat.add] in E.
  destruct (move _ _ _ _) as [buf|] eqn:E1; [|done]. rewrite bind_ok in E |- *. destruct (rd_init buf _) as [b|] eqn:E2; [|done]. rewrite bind_ok in E |- *. rewrite E, bind_ok.
  rewrite (IH x J' (map Some (qword_bytes v) ++ rest)) by done. unfold widths. rewrite map_app, concat_app, map_app, <- app_assoc. cbn [map concat]. by rewrite app_nil_r.
Qed.

Section encode.
Context {U : Type} (cb : sproto_arg → U → buffer → luaR (Z * U * buffer)).

(** ** What the callback answers *)

Definition int_elem (args : sproto_arg) (u : U) (v : Z) (u' : U) : Prop :=
∀ mem, length mem = 8%nat → ∃ mem', cb (set_length 8 args) u mem = lua_ret (if small v then 4 else 8, u', map Some (le_bytes (if small v then 4 else 8) v) ++ mem').

(** An [int] in four bytes or more. *)
Definition bool_elem (args : sproto_arg) (u : U) (b : bool) (u' : U) : Prop :=
∀ n mem, (4 ≤ length mem)%nat → ∃ mem', cb (set_length n args) u mem = lua_ret (4, u', map Some (le_bytes 4 (bit b)) ++ mem').

(** Bytes in the memory that is there, or -1 where it is less than [need]. *)
Definition wrote (r : luaR (Z * U * buffer)) (mem : buffer) (bytes : list Z) (need : Z) (u' : U) : Prop :=
∃ n v mem', r = lua_ret (n, v, mem') ∧ length mem' = length mem ∧
  ((n = -1 ∧ Z.of_nat (length mem) < need) ∨ (n = Z.of_nat (length bytes) ∧ v = u' ∧ ∃ rest, mem' = map Some bytes ++ rest)).

Definition obj_elem (args : sproto_arg) (u : U) (t : tree) (u' : U) : Prop :=
Z.of_nat (length (body t)) ≤ room t - 4 ∧
∀ mem, Z.of_nat (length mem) < 2 ^ 31 → tidy t = true ∨ room t - 4 ≤ Z.of_nat (length mem) → wrote (cb (set_length (Z.of_nat (length mem)) args) u mem) mem (body t) (room t - 4) u'.

Definition ends_with (r : Z) (args : sproto_arg) (u u' : U) : Prop := ∀ n mem, cb (set_length n args) u mem = lua_ret (r, u', mem).

(** The elements of an array from an index on. *)
Inductive elements {A} (elem : sproto_arg → U → A → U → Prop) (args : sproto_arg) : Z → U → list A → U → Prop :=
| elements_nil i u u' : ends_with SPROTO_CB_NIL (set_index i args) u u' → elements elem args i u [] u'
| elements_cons i u a u1 l u' : elem (set_index i args) u a u1 → elements elem args (i + 1) u1 l u' → elements elem args i u (a :: l) u'.

(** ** Arrays *)

Definition width (wide : bool) : Z := if wide then 8 else 4.

Definition wide_of (l : list Z) : bool := negb (forallb small l).

(** The bytes that more elements may need behind those that are there. *)
Definition more (l1 l2 : list Z) : Z := 8 * Z.of_nat (length l2) + (if wide_of l1 then 0 else 4 * Z.of_nat (length l1)).

Lemma wide_snoc l v : wide_of (l ++ [v]) = wide_of l || negb (small v).
Proof. unfold wide_of. rewrite forallb_app. cbn. by destruct (forallb small l), (small v). Qed.

(** The step for an integer of four bytes. *)
Lemma put_small x l1 v (rest : buffer) : small v = true → 8 ≤ Z.of_nat (length rest) →
(buf ← wr_at (x :: map Some (widths (wide_of l1) l1) ++ rest) (1 + width (wide_of l1) * Z.of_nat (length l1)) (word_bytes (u32 v));
 (if width (wide_of l1) =? 8 then uint32_to_uint64 (negb (Z.land (u32 v) 0x80000000 =? 0)) buf (1 + width (wide_of l1) * Z.of_nat (length l1)) else Ok buf)) =
Ok (x :: map Some (widths (wide_of (l1 ++ [v])) (l1 ++ [v])) ++ drop (Z.to_nat (width (wide_of l1))) rest).
Proof.
intros Hv Hr. rewrite word_bytes_u32, small_sign, wide_snoc, Hv by done. cbn [negb]. rewrite orb_false_r. set (w := wide_of l1). set (o := x :: map Some (widths w l1)).
assert (Ho : Z.of_nat (length o) = 1 + width w * Z.of_nat (length l1)) by (unfold o; cbn [length]; rewrite length_map, widths_length; destruct w; cbn [width]; lia).
change (x :: map Some (widths w l1) ++ rest) with (o ++ rest). rewrite <- (take_drop 4 rest) at 1. rewrite wr_at_mid, bind_ok by (rewrite ?length_take, ?word_bytes_length; lia).
assert (Ew : ∀ r, x :: map Some (widths w (l1 ++ [v])) ++ r = o ++ map Some (int_bytes w v) ++ r).
{ intros r. rewrite widths_app, map_app. unfold widths at 2. cbn [map concat]. rewrite app_nil_r. unfold o. cbn [app]. by rewrite <- app_assoc. }
rewrite Ew. clearbody w o. destruct w; cbn [width Z.eqb Pos.eqb int_bytes] in *; [|done].
unfold uint32_to_uint64. rewrite <- small_high by done. rewrite <- (take_drop 4 (drop 4 rest)), app_assoc.
rewrite wr_at_mid by (rewrite ?length_app, ?length_map, ?length_take, ?length_drop, ?word_bytes_length; lia). unfold qword_bytes. rewrite map_app, <- !app_assoc, drop_drop. done.
Qed.

(** The step for an integer of eight bytes. *)
Lemma put_wide x l1 v (rest : buffer) (grow := if width (wide_of l1) =? 4 then (Z.of_nat (length l1) + 1 - 1) * 4 else 0) :
small v = false → grow + 8 ≤ Z.of_nat (length rest) →
(buf ← (if width (wide_of l1) =? 4 then rearrange (Z.to_nat (Z.of_nat (length l1) + 1 - 1)) (x :: map Some (widths (wide_of l1) l1) ++ rest) else Ok (x :: map Some (widths (wide_of l1) l1) ++ rest));
 wr_at buf (1 + width (wide_of l1) * Z.of_nat (length l1) + grow) (qword_bytes (u64 v))) =
Ok (x :: map Some (widths (wide_of (l1 ++ [v])) (l1 ++ [v])) ++ drop (Z.to_nat (grow + 8)) rest).
Proof.
intros Hv Hr. rewrite qword_bytes_u64, wide_snoc, Hv. cbn [negb]. rewrite orb_true_r. assert (Eg : drop (Z.to_nat (grow + 8)) rest = drop 8 (drop (Z.to_nat grow) rest)).
{ rewrite drop_drop. f_equal. unfold grow. destruct (_ =? 4); lia. }
assert (E : (if width (wide_of l1) =? 4 then rearrange (Z.to_nat (Z.of_nat (length l1) + 1 - 1)) (x :: map Some (widths (wide_of l1) l1) ++ rest) else Ok (x :: map Some (widths (wide_of l1) l1) ++ rest)) =
  Ok (x :: map Some (widths true l1) ++ drop (Z.to_nat grow) rest)).
{ unfold grow. destruct (wide_of l1) eqn:Hw; cbn [width Z.eqb Pos.eqb]; [done|]. replace (Z.to_nat (Z.of_nat (length l1) + 1 - 1)) with (length l1) by lia.
  rewrite <- (take_drop (4 * length l1) rest) at 1. rewrite rearrange_lemma; [do 3 f_equal; f_equal; lia| |].
  - unfold wide_of in Hw. by destruct (forallb small l1).
  - rewrite length_take. unfold grow in Hr. cbn [width Z.eqb Pos.eqb] in Hr. lia. }
rewrite E, bind_ok, Eg. set (r := drop (Z.to_nat grow) rest). assert (Hlr : (8 ≤ length r)%nat) by (unfold r; rewrite length_drop; unfold grow in *; destruct (_ =? 4); lia).
rewrite <- (take_drop 8 r) at 1. change (x :: map Some (widths true l1) ++ ?q) with ((x :: map Some (widths true l1)) ++ q). rewrite wr_at_mid.
- rewrite widths_app, map_app. unfold widths at 3. cbn [map concat]. rewrite app_nil_r. cbn [app]. by rewrite <- app_assoc.
- cbn [length]. rewrite length_map, widths_length. unfold grow. destruct (wide_of l1); cbn [width Z.eqb Pos.eqb]; lia.
- rewrite length_take, qword_bytes_length. lia.
Qed.
Lemma bind_bind {A B C} (m : res A) (k : A → res B) (g : B → res C) : (x ← m; y ← k x; g y) = (y ← (x ← m; k x); g y).
Proof. by destruct m. Qed.

(** A wide integer comes first, or there is the memory to move what is before it. *)
Lemma grow_room l1 v l2 (size : Z) (grow := if width (wide_of l1) =? 4 then (Z.of_nat (length l1) + 1 - 1) * 4 else 0) :
small v = false → 8 ≤ size → tidy (TInts (l1 ++ v :: l2)) = true ∨ more l1 (v :: l2) ≤ size → grow + 8 ≤ size.
Proof.
intros Hv Hs Hroom. unfold grow, more in *. destruct (wide_of l1) eqn:Hw; cbn [width Z.eqb Pos.eqb] in *; [lia|]. cbn [length] in Hroom. destruct Hroom as [Ht|Hr]; [|lia].
destruct l1 as [|a l1]; [cbn in *; lia|]. exfalso. unfold wide_of in Hw. apply negb_false_iff in Hw. cbn in Hw. apply andb_true_iff in Hw as [Ha _]. cbn in Ht. rewrite Ha in Ht. cbn in Ht.
rewrite forallb_app in Ht. cbn in Ht. rewrite Hv in Ht. by rewrite andb_false_r in Ht.
Qed.

Lemma more_step l1 v l2 (size : Z) : more l1 (v :: l2) ≤ size →
more (l1 ++ [v]) l2 ≤ size - (if small v then width (wide_of l1) else (if width (wide_of l1) =? 4 then (Z.of_nat (length l1) + 1 - 1) * 4 else 0) + 8).
Proof.
unfold more. rewrite wide_snoc, length_app. cbn [length]. destruct (wide_of l1), (small v); cbn [orb negb width Z.eqb Pos.eqb]; lia.
Qed.

(** [need] is a lower bound on what was there when the memory ran out. *)
Definition ints_written (r : luaR (option (Z * Z * bool) * U * buffer)) (x : option Z) (l : list Z) (len need size : Z) (u' : U) : Prop :=
∃ o v buf', r = lua_ret (o, v, buf') ∧ Z.of_nat (length buf') = len ∧
  ((o = None ∧ size < need) ∨
   ∃ rest, o = Some (1 + width (wide_of l) * Z.of_nat (length l), width (wide_of l), false) ∧ v = u' ∧ buf' = x :: map Some (widths (wide_of l) l) ++ rest).

Lemma ints_length x l1 (rest : buffer) : Z.of_nat (length (x :: map Some (widths (wide_of l1) l1) ++ rest)) = 1 + width (wide_of l1) * Z.of_nat (length l1) + Z.of_nat (length rest).
Proof. cbn [length]. rewrite length_app, length_map, widths_length. destruct (wide_of l1); cbn [width]; lia. Qed.

Lemma integer_loop_lemma args i u l2 u' : elements int_elem args i u l2 u' → ∀ fuel l1 x (rest : buffer),
i = Z.of_nat (length l1) + 1 → (length rest < fuel)%nat → Z.of_nat (length rest) < 2 ^ 31 →
tidy (TInts (l1 ++ l2)) = true ∨ more l1 l2 ≤ Z.of_nat (length rest) →
ints_written (integer_loop cb fuel args (1 + width (wide_of l1) * Z.of_nat (length l1)) (Z.of_nat (length rest)) (width (wide_of l1)) i u
  (x :: map Some (widths (wide_of l1) l1) ++ rest)) x (l1 ++ l2) (Z.of_nat (length (x :: map Some (widths (wide_of l1) l1) ++ rest))) (more l1 l2) (Z.of_nat (length rest)) u'.
Proof.
induction 1 as [i u u' Hend|i u v u1 l2 u' Hv Hl2 IH]; intros fuel l1 x rest -> Hfuel Hsz Hroom; (destruct fuel as [|fuel]; [lia|]); cbn [integer_loop].
- rewrite Hend. cbn [lbind lua_ret Z.leb Z.compare Z.eqb Pos.eqb SPROTO_CB_NIL]. rewrite app_nil_r. do 3 eexists. split; [reflexivity|]. split; [done|]. right. by eexists.
- assert (Hu : u64 (Z.of_nat (length rest)) = Z.of_nat (length rest)) by (unfold u64; apply Z.mod_small; lia).
  destruct (Hv union_u eq_refl) as (mem & ->). cbn [lbind lua_ret]. assert (Hpos : (if small v then 4 else 8) <=? 0 = false) by (by destruct (small v)). rewrite Hpos, Hu.
  destruct (Z.ltb_spec (Z.of_nat (length rest)) 8) as [Hlt|Hge].
  { do 3 eexists. split; [reflexivity|]. split; [done|]. left. split; [done|]. unfold more. cbn [length]. destruct (wide_of l1); lia. }
  set (n := if small v then width (wide_of l1) else (if width (wide_of l1) =? 4 then (Z.of_nat (length l1) + 1 - 1) * 4 else 0) + 8).
  assert (Hn : 4 ≤ n ≤ Z.of_nat (length rest) ∧ width (wide_of (l1 ++ [v])) * Z.of_nat (length (l1 ++ [v])) = width (wide_of l1) * Z.of_nat (length l1) + n).
  { rewrite wide_snoc, length_app. cbn [length]. destruct (small v) eqn:Hsm; unfold n; [destruct (wide_of l1); cbn [width orb negb]; lia|].
    pose proof (grow_room l1 v l2 _ Hsm Hge Hroom). destruct (wide_of l1); cbn [width orb negb Z.eqb Pos.eqb] in *; lia. }
  destruct Hn as [Hn Hpos2]. set (rest' := drop (Z.to_nat n) rest). assert (Hr' : Z.of_nat (length rest') = Z.of_nat (length rest) - n) by (unfold rest'; rewrite length_drop; lia).
  assert (Hnext : ints_written (integer_loop cb fuel args (1 + width (wide_of (l1 ++ [v])) * Z.of_nat (length (l1 ++ [v]))) (Z.of_nat (length rest')) (width (wide_of (l1 ++ [v])))
      (Z.of_nat (length l1) + 1 + 1) u1 (x :: map Some (widths (wide_of (l1 ++ [v])) (l1 ++ [v])) ++ rest')) x (l1 ++ v :: l2)
      (Z.of_nat (length (x :: map Some (widths (wide_of l1) l1) ++ rest))) (more l1 (v :: l2)) (Z.of_nat (length rest)) u').
  { destruct (IH fuel (l1 ++ [v]) x rest') as (o & w & b & E & Hlb & Ho); [rewrite length_app; cbn [length]; lia|lia|lia| |].
    - rewrite <- app_assoc. destruct Hroom as [Ht|Hr]; [by left|right]. pose proof (more_step l1 v l2 _ Hr). fold n in H. lia.
    - exists o, w, b. split; [exact E|]. rewrite <- app_assoc in Ho. split; [rewrite Hlb, !ints_length; lia|]. destruct Ho as [[-> Ho]|Ho]; [left; split; [done|]|by right].
      destruct (Z.ltb_spec (Z.of_nat (length rest)) (more l1 (v :: l2))) as [|Hm]; [done|]. pose proof (more_step l1 v l2 _ Hm). fold n in H. lia. }
  rewrite Hpos2, Hr' in Hnext. destruct (small v) eqn:Hsm.
  + cbn [Z.eqb Pos.eqb]. rewrite u32_of_bytes, bind_ok, bind_bind, put_small, bind_ok by done. assert (En : width (wide_of l1) = n) by done. clearbody n.
    assert (Ew : wide_of (l1 ++ [v]) = wide_of l1) by (by rewrite wide_snoc, Hsm, orb_false_r). rewrite Ew in Hnext |- *. unfold rest' in Hnext. rewrite En in Hnext |- *.
    by rewrite Z.add_assoc in Hnext.
  + cbn [Z.eqb Pos.eqb negb]. pose proof (grow_room l1 v l2 _ Hsm Hge Hroom) as Hg. set (grow := if width (wide_of l1) =? 4 then _ else 0) in *.
    assert (Hg0 : 0 ≤ grow) by (unfold grow; destruct (_ =? 4); lia). assert (Eu : u64 (Z.of_nat (length rest) - grow) = Z.of_nat (length rest) - grow) by (unfold u64; apply Z.mod_small; lia).
    rewrite Eu. destruct (Z.ltb_spec (Z.of_nat (length rest) - grow) 8); [lia|]. rewrite andb_false_r.
    rewrite u64_of_bytes. pose proof (put_wide x l1 v rest Hsm Hg) as Ep. fold grow in Ep. match type of Ep with (?m ≫= _) = _ => match goal with |- ints_written (?m' ≫= _) _ _ _ _ _ _ => change m' with m end; destruct m as [b1|]; [|discriminate Ep] end.
    change (wr_at b1 (1 + width (wide_of l1) * Z.of_nat (length l1) + grow) (qword_bytes (u64 v)) = Ok (x :: map Some (widths (wide_of (l1 ++ [v])) (l1 ++ [v])) ++ drop (Z.to_nat (grow + 8)) rest)) in Ep.
    rewrite !bind_ok. rewrite Ep, bind_ok. replace (1 + width (wide_of l1) * Z.of_nat (length l1) + grow + 8) with (1 + (width (wide_of l1) * Z.of_nat (length l1) + n)) by (unfold n; lia).
    replace (Z.of_nat (length rest) - grow - 8) with (Z.of_nat (length rest) - n) by (unfold n; lia). rewrite wide_snoc, Hsm in Hnext |- *. cbn [negb] in Hnext |- *. rewrite orb_true_r in Hnext |- *. exact Hnext.
Qed.
(** What is behind the length of an array: its bytes, or too little memory. *)
Definition array_wrote (r : luaR (array_end * U * buffer)) (mem : buffer) (bytes : list Z) (need : Z) (u' : U) : Prop :=
∃ e v mem', r = lua_ret (e, v, mem') ∧ length mem' = length mem ∧
  ((e = ArrayError ∧ Z.of_nat (length mem) < need) ∨ (e = ArrayEnd (Z.of_nat (length bytes)) ∧ v = u' ∧ ∃ rest, mem' = map Some bytes ++ rest)).

Lemma more_nil l : more [] l = 8 * Z.of_nat (length l).
Proof. unfold more. change (wide_of []) with false. cbn [length Z.of_nat]. lia. Qed.

Lemma encode_integer_array_lemma args u l u' mem : elements int_elem args 1 u l u' → Z.of_nat (length mem) < 2 ^ 31 →
tidy (TInts l) = true ∨ 1 + 8 * Z.of_nat (length l) ≤ Z.of_nat (length mem) →
array_wrote (lbind (encode_integer_array cb args u mem (Z.of_nat (length mem))) (λ '(r, u, buffer),
  lua_ret (match r with None => ArrayError | Some (pos, noarray) => if noarray : bool then NoArray else ArrayEnd pos end, u, buffer))) mem (body (TInts l)) (1 + 8 * Z.of_nat (length l)) u'.
Proof.
intros Hl Hsz Hroom. unfold encode_integer_array. destruct mem as [|x rest].
{ do 3 eexists. split; [reflexivity|]. split; [done|]. left. split; [done|cbn [length]; lia]. }
destruct (Z.ltb_spec (Z.of_nat (length (x :: rest))) 1) as [Hlt|_]; [cbn [length] in Hlt; lia|]. cbn [length] in *. replace (Z.of_nat (S (length rest)) - 1) with (Z.of_nat (length rest)) by lia.
destruct (integer_loop_lemma args 1 u l u' Hl (S (Z.to_nat (Z.of_nat (S (length rest))))) [] x rest) as (o & v & b & E & Hlb & Ho); [done|lia|lia| |].
{ destruct Hroom as [|Hr]; [by left|right]. rewrite more_nil. lia. }
change (x :: map Some (widths (wide_of []) []) ++ rest) with (x :: rest) in E, Hlb. change (1 + width (wide_of []) * Z.of_nat (length [])) with 1 in E. change (width (wide_of [])) with 4 in E.
rewrite E. cbn [lbind lua_ret]. cbn [app length] in *. destruct Ho as [[-> Ho]|(rest' & -> & -> & ->)].
{ cbn [lbind lua_ret]. do 3 eexists. split; [reflexivity|]. split; [cbn [length]; lia|]. left. split; [done|]. rewrite more_nil in Ho. cbn [length]. lia. }
destruct l as [|a l].
- cbn [length Z.of_nat]. rewrite Z.mul_0_r. cbn [Z.add Z.eqb Pos.eqb lbind lua_ret]. do 3 eexists. split; [reflexivity|]. split; [cbn [length] in *; lia|]. right. split; [done|]. split; [done|]. by eexists.
- destruct (Z.eqb_spec (1 + width (wide_of (a :: l)) * Z.of_nat (length (a :: l))) 1) as [E1|_]; [cbn [length] in E1; destruct (wide_of (a :: l)); cbn [width] in E1; lia|].
  set (ws := map Some (widths (wide_of (a :: l)) (a :: l)) ++ rest'). rewrite (wr_mid [] ws 0 x (u8 (width (wide_of (a :: l)))) eq_refl : wr (x :: ws) 0 _ = _), bind_ok. cbn [app]. cbn [lbind lua_ret].
  assert (Eb : map Some (body (TInts (a :: l))) = Some (u8 (width (wide_of (a :: l)))) :: map Some (widths (wide_of (a :: l)) (a :: l))).
  { unfold body, wide_of, widths. by destruct (forallb small (a :: l)). }
  do 3 eexists. split; [reflexivity|]. split; [unfold ws; cbn [app length] in *; lia|]. right. rewrite Eb. split; [|split; [done|by eexists]].
  f_equal. apply (f_equal length) in Eb. rewrite length_map in Eb. rewrite Eb. cbn [length]. rewrite length_map, widths_length. cbn [length]. destruct (wide_of (a :: l)); cbn [width]; lia.
Qed.

Lemma boolean_loop_lemma args i u l u' : elements bool_elem args i u l u' → ∀ fuel (o : list Z) (rest : buffer), (length rest < fuel)%nat →
∃ e v mem', boolean_loop cb fuel args (Z.of_nat (length o)) (Z.of_nat (length rest)) i u (map Some o ++ rest) = lua_ret (e, v, mem') ∧
  length mem' = (length o + length rest)%nat ∧
  ((e = ArrayError ∧ Z.of_nat (length rest) < Z.of_nat (length l)) ∨
   (e = ArrayEnd (Z.of_nat (length (o ++ map bit l))) ∧ v = u' ∧ ∃ rest', mem' = map Some (o ++ map bit l) ++ rest')).
Proof.
induction 1 as [i u u' Hend|i u b u1 l u' Hb Hl IH]; intros fuel o rest Hfuel; (destruct fuel as [|fuel]; [lia|]); cbn [boolean_loop].
- rewrite Hend. cbn [lbind lua_ret Z.ltb Z.compare Z.eqb Pos.eqb SPROTO_CB_NIL map]. rewrite app_nil_r. do 3 eexists. split; [reflexivity|]. split; [by rewrite length_app, length_map|]. right. split; [done|]. split; [done|]. by eexists.
- destruct (Hb 4 (replicate 4 (Some 0)) ltac:(cbn; lia)) as (mem & ->). cbn [lbind lua_ret Z.ltb Z.compare]. destruct rest as [|y rest].
  { cbn [length Z.of_nat Z.ltb Z.compare]. do 3 eexists. split; [reflexivity|]. split; [by rewrite length_app, length_map|]. left. split; [done|]. lia. }
  destruct (Z.ltb_spec (Z.of_nat (length (y :: rest))) 1) as [Hlt|_]; [cbn [length] in Hlt; lia|]. rewrite u32_of_bytes, bind_ok. rewrite wr_mid, bind_ok by (by rewrite length_map).
  assert (Eb : (if u32 (bit b) =? 0 then 0 else 1) = bit b) by (by destruct b). rewrite Eb.
  replace (Z.of_nat (length o) + 1) with (Z.of_nat (length (o ++ [bit b]))) by (rewrite length_app; cbn [length]; lia).
  replace (Z.of_nat (length (y :: rest)) - 1) with (Z.of_nat (length rest)) by (cbn [length]; lia).
  replace (map Some o ++ Some (bit b) :: rest) with (map Some (o ++ [bit b]) ++ rest) by (by rewrite map_app, <- app_assoc).
  destruct (IH fuel (o ++ [bit b]) rest) as (e & v & mem' & E & Hlm & Ho); [cbn [length] in Hfuel; lia|]. rewrite <- app_assoc in Ho. exists e, v, mem'. split; [exact E|].
  rewrite length_app in Hlm. cbn [length] in *. split; [lia|]. destruct Ho as [[-> Ho]|Ho]; [left; split; [done|lia]|by right].
Qed.
Definition obj_rooms (l : list tree) : Z := foldr Z.add 0 (map room l).
Definition obj_bytes (l : list tree) : list Z := concat (map (λ t, sized (body t)) l).

Lemma sized_length l : length (sized l) = (4 + length l)%nat.
Proof. unfold sized. by rewrite length_app, word_bytes_length. Qed.

(** One element: its length is written when its bytes are there. *)
Lemma object_step args u t u1 (o : list Z) (rest : buffer) : obj_elem args u t u1 → 4 ≤ Z.of_nat (length rest) < 2 ^ 31 →
tidy t = true ∨ room t ≤ Z.of_nat (length rest) →
let at_ := Z.to_nat (Z.of_nat (length o) + 4) in
∃ n v value, cb (set_length (Z.of_nat (length rest) - 4) args) u (drop at_ (map Some o ++ rest)) = lua_ret (n, v, value) ∧
  length (take at_ (map Some o ++ rest) ++ value) = (length o + length rest)%nat ∧
  ((n = -1 ∧ Z.of_nat (length rest) < room t) ∨
   (n = Z.of_nat (length (body t)) ∧ v = u1 ∧ ∃ rest', length rest' = (length rest - 4 - length (body t))%nat ∧ (4 + length (body t) ≤ length rest)%nat ∧
     wr_at (take at_ (map Some o ++ rest) ++ value) (Z.of_nat (length o)) (word_bytes (Z.of_nat (length (body t)))) = Ok (map Some (o ++ sized (body t)) ++ rest'))).
Proof.
intros [Hfit Ht] Hr Hroom at_. replace at_ with (length (map (@Some Z) o) + 4)%nat by (rewrite length_map; unfold at_; lia).
rewrite <- drop_drop, drop_app_length. assert (Etake : take (length (map (@Some Z) o) + 4) (map Some o ++ rest) = map Some o ++ take 4 rest) by (by rewrite take_app_add). rewrite Etake.
destruct (Ht (drop 4 rest)) as (n & v & value & E & Hl & Ho); [rewrite length_drop; lia|destruct Hroom as [|Hroom]; [by left|right; rewrite length_drop; lia]|]. rewrite length_drop in E, Hl, Ho.
replace (Z.of_nat (length rest - 4)) with (Z.of_nat (length rest) - 4) in E, Ho by lia. exists n, v, value. split; [exact E|]. split; [rewrite !length_app, length_map, length_take; lia|].
destruct Ho as [[-> Ho]|(-> & -> & rest' & ->)]; [left; split; [done|lia]|right]. split; [done|]. split; [done|]. rewrite length_app, length_map in Hl. exists rest'. split; [lia|]. split; [lia|].
rewrite <- app_assoc. rewrite wr_at_mid; [|by rewrite length_map|rewrite length_take, word_bytes_length; lia]. unfold sized. by rewrite !map_app, <- !app_assoc.
Qed.

Lemma object_loop_lemma args i u l u' : elements obj_elem args i u l u' → ∀ fuel (o : list Z) (rest : buffer), (length rest < fuel)%nat → Z.of_nat (length rest) < 2 ^ 31 →
forallb tidy l = true ∨ 4 + obj_rooms l ≤ Z.of_nat (length rest) →
∃ e v mem', object_loop cb fuel args (Z.of_nat (length o)) (Z.of_nat (length rest)) i u (map Some o ++ rest) = lua_ret (e, v, mem') ∧
  length mem' = (length o + length rest)%nat ∧
  ((e = ArrayError ∧ Z.of_nat (length rest) < 4 + obj_rooms l) ∨
   (e = ArrayEnd (Z.of_nat (length (o ++ obj_bytes l))) ∧ v = u' ∧ ∃ rest', mem' = map Some (o ++ obj_bytes l) ++ rest')).
Proof.
induction 1 as [i u u' Hend|i u t u1 l u' Ht Hl IH]; intros fuel o rest Hfuel Hsz Hroom; (destruct fuel as [|fuel]; [lia|]); cbn [object_loop]; unfold SIZEOF_LENGTH.
- unfold obj_rooms, obj_bytes in *. cbn [map foldr concat] in *. destruct (Z.ltb_spec (Z.of_nat (length rest)) 4).
  { do 3 eexists. split; [reflexivity|]. split; [by rewrite length_app, length_map|]. left. split; [done|lia]. }
  rewrite Hend. cbn [lbind lua_ret Z.ltb Z.compare Z.eqb Pos.eqb SPROTO_CB_NIL]. rewrite take_drop, app_nil_r. do 3 eexists. split; [reflexivity|]. split; [by rewrite length_app, length_map|]. right.
  split; [done|]. split; [done|]. by eexists.
- assert (Ht4 : 4 ≤ room t) by (destruct Ht as [Hfit _]; lia). assert (Hl0 : 0 ≤ obj_rooms l) by (clear - Hl; induction Hl as [|? ? t ? l ? [Ht _] _ IH]; cbn; [lia|]; unfold obj_rooms in *; cbn; lia).
  unfold obj_rooms, obj_bytes in *. cbn [map foldr concat forallb] in *. destruct (Z.ltb_spec (Z.of_nat (length rest)) 4).
  { do 3 eexists. split; [reflexivity|]. split; [by rewrite length_app, length_map|]. left. split; [done|lia]. }
  destruct (object_step (set_index i args) u t u1 o rest Ht) as (n & v & value & E & Hlv & Ho); [lia|destruct Hroom as [Hroom|]; [left; by apply andb_true_iff in Hroom as [? _]|right; lia]|].
  rewrite E. cbn [lbind lua_ret]. destruct Ho as [[-> Ho]|(-> & -> & rest' & Hlr & Hle & Ew)].
  { cbn [Z.ltb Z.compare Z.eqb Pos.eqb SPROTO_CB_NIL SPROTO_CB_NOARRAY]. do 3 eexists. split; [reflexivity|]. split; [done|]. left. split; [done|]. lia. }
  destruct (Z.ltb_spec (Z.of_nat (length (body t))) 0); [lia|]. rewrite Ew, bind_ok. replace (Z.of_nat (length o) + 4 + Z.of_nat (length (body t))) with (Z.of_nat (length (o ++ sized (body t)))) by (rewrite length_app, sized_length; lia).
  replace (Z.of_nat (length rest) - 4 - Z.of_nat (length (body t))) with (Z.of_nat (length rest')) by lia. destruct Ht as [Hfit _].
  destruct (IH fuel (o ++ sized (body t)) rest') as (e & v & mem' & E2 & Hlm & Ho); [lia|lia|destruct Hroom as [Hroom|]; [left; by apply andb_true_iff in Hroom as [_ ?]|right; lia]|].
  exists e, v, mem'. split; [exact E2|]. rewrite length_app, sized_length in Hlm. split; [lia|]. rewrite <- app_assoc in Ho. destruct Ho as [[-> Ho]|Ho]; [left; split; [done|lia]|by right].
Qed.
(** ** One field *)

(** What the callback answers for a field that is set. *)
Inductive answers (f : field) (u : U) : tree → U → Prop :=
| answers_int v u' : f_type f = 0 → int_elem (field_arg f 0 0) u v u' → answers f u (TInt v) u'
| answers_bool b u' : f_type f = 1 → bool_elem (field_arg f 1 0) u b u' → answers f u (TBool b) u'
| answers_str s u' : f_type f = 2 → obj_elem (field_arg f 2 0) u (TStr s) u' → answers f u (TStr s) u'
| answers_struct maxn fs u' : f_type f = 3 → obj_elem (field_arg f 3 0) u (TStruct maxn fs) u' → answers f u (TStruct maxn fs) u'
| answers_ints l u' : f_type f = 0x80 → elements int_elem (field_arg f 0 0) 1 u l u' → answers f u (TInts l) u'
| answers_bools l u' : f_type f = 0x81 → elements bool_elem (field_arg f 1 0) 1 u l u' → answers f u (TBools l) u'
| answers_strs l u' : f_type f = 0x82 → elements obj_elem (field_arg f 2 0) 1 u l u' → answers f u (TObjs l) u'
| answers_structs l u' : f_type f = 0x83 → elements obj_elem (field_arg f 3 0) 1 u l u' → answers f u (TObjs l) u'.

(** And for a field that is not set. *)
Definition skips (f : field) (u u' : U) : Prop :=
(0 ≤ f_type f ≤ 3 ∧ ends_with SPROTO_CB_NIL (field_arg f (f_type f) 0) u u') ∨
(0x80 ≤ f_type f ≤ 0x83 ∧ ends_with SPROTO_CB_NOARRAY (set_index 1 (field_arg f (f_type f - 0x80) 0)) u u').

Lemma fill_size_lemma (mem : buffer) n : (4 ≤ length mem)%nat → fill_size mem n = Ok (map Some (word_bytes n) ++ drop 4 mem, n + 4).
Proof.
intros Hm. unfold fill_size. rewrite <- (take_drop 4 mem) at 1. assert (Hl : length (take 4 mem) = length (word_bytes n)) by (rewrite length_take, word_bytes_length; lia).
by rewrite (wr_at_mid (word_bytes n) [] (take 4 mem) (drop 4 mem) 0 eq_refl Hl : wr_at (take 4 mem ++ drop 4 mem) 0 _ = _).
Qed.

Lemma array_finish r (mem : buffer) bytes need u' : (4 ≤ length mem)%nat → array_wrote r (drop 4 mem) bytes need u' →
wrote (lbind r (λ '(r, u, buffer), let data := take 4 mem ++ buffer in
  match r with ArrayError => lua_ret (-1, u, data) | NoArray => lua_ret (0, u, data) | ArrayEnd sz => '(data, r) ← fill_size data sz; lua_ret (r, u, data) end)) mem (sized bytes) (4 + need) u'.
Proof.
intros Hm (e & v & mem' & -> & Hl & Ho). rewrite length_drop in Hl, Ho. cbn [lbind lua_ret]. destruct Ho as [[-> Ho]|(-> & -> & rest & ->)].
- do 3 eexists. split; [reflexivity|]. split; [rewrite length_app, length_take; lia|]. left. split; [done|lia].
- rewrite fill_size_lemma, bind_ok by (rewrite length_app, length_take; lia). rewrite drop_app_length' by (rewrite length_take; lia).
  do 3 eexists. split; [reflexivity|]. rewrite length_app, length_map in Hl. split; [rewrite !length_app, !length_map, word_bytes_length; lia|]. right. rewrite sized_length. split; [lia|]. split; [done|].
  exists rest. unfold sized. by rewrite map_app, <- app_assoc.
Qed.

Lemma obj_rooms_pos args i u l u' : elements obj_elem args i u l u' → 0 ≤ obj_rooms l.
Proof. induction 1 as [|? ? t ? l ? [Ht _] _ IH]; unfold obj_rooms in *; cbn; lia. Qed.

Lemma objs_lemma args u l u' (mem : buffer) : elements obj_elem args 1 u l u' → Z.of_nat (length mem) < 2 ^ 31 → forallb tidy l = true ∨ 4 + obj_rooms l ≤ Z.of_nat (length mem) →
array_wrote (object_loop cb (S (Z.to_nat (Z.of_nat (length mem)))) args 0 (Z.of_nat (length mem)) 1 u mem) mem (obj_bytes l) (4 + obj_rooms l) u'.
Proof.
intros Hl Hsz Hroom. destruct (object_loop_lemma args 1 u l u' Hl (S (Z.to_nat (Z.of_nat (length mem)))) [] mem) as (e & v & mem' & E & Hlm & Ho); [lia|done|done|].
exists e, v, mem'. split; [exact E|]. split; [exact Hlm|]. exact Ho.
Qed.

Lemma bools_lemma args u l u' (mem : buffer) : elements bool_elem args 1 u l u' →
array_wrote (boolean_loop cb (S (Z.to_nat (Z.of_nat (length mem)))) args 0 (Z.of_nat (length mem)) 1 u mem) mem (map bit l) (Z.of_nat (length l)) u'.
Proof.
intros Hl. destruct (boolean_loop_lemma args 1 u l u' Hl (S (Z.to_nat (Z.of_nat (length mem)))) [] mem) as (e & v & mem' & E & Hlm & Ho); [lia|].
exists e, v, mem'. split; [exact E|]. split; [exact Hlm|]. exact Ho.
Qed.

(** An array of any type. *)
Lemma encode_array_lemma f u t u' (mem : buffer) : answers f u t u' → 0x80 ≤ f_type f → Z.of_nat (length mem) < 2 ^ 31 → tidy t = true ∨ room t ≤ Z.of_nat (length mem) →
wrote (encode_array cb (field_arg f (Z.land (f_type f) (Z.lnot SPROTO_TARRAY)) 0) u mem (Z.of_nat (length mem))) mem (sized (body t)) (room t) u'.
Proof.
intros Ha Hty Hsz Hroom. assert (Hr4 : 4 ≤ room t) by (destruct Ha as [| | | | | |? ? ? H|? ? ? H]; try (cbn in *; lia); pose proof (obj_rooms_pos _ _ _ _ _ H); unfold obj_rooms in *; cbn [room]; lia).
unfold encode_array, SIZEOF_LENGTH. destruct (Z.ltb_spec (Z.of_nat (length mem)) 4).
{ do 3 eexists. split; [reflexivity|]. split; [done|]. left. split; [done|lia]. }
cbv zeta. assert (Hd : Z.of_nat (length mem) - 4 = Z.of_nat (length (drop 4 mem))) by (rewrite length_drop; lia). rewrite Hd.
replace (room t) with (4 + (room t - 4)) by lia. destruct Ha as [v u' E|b u' E|s u' E|maxn fs u' E|l u' E Hl|l u' E Hl|l u' E Hl|l u' E Hl]; rewrite E in *; try lia; apply array_finish; try lia; cbn [a_type field_arg].
- change (Z.land 0x80 (Z.lnot SPROTO_TARRAY)) with 0. cbn [room]. replace (5 + 8 * Z.of_nat (length l) - 4) with (1 + 8 * Z.of_nat (length l)) by lia.
  apply encode_integer_array_lemma; [exact Hl|lia|]. destruct Hroom as [Ht|Hr]; [by left|right; cbn [room] in Hr; lia].
- change (Z.land 0x81 (Z.lnot SPROTO_TARRAY)) with 1. cbn [room]. replace (4 + Z.of_nat (length l) - 4) with (Z.of_nat (length l)) by lia. by apply bools_lemma.
- change (Z.land 0x82 (Z.lnot SPROTO_TARRAY)) with 2. cbn [room]. fold (obj_rooms l). replace (8 + obj_rooms l - 4) with (4 + obj_rooms l) by lia.
  apply objs_lemma; [exact Hl|lia|]. destruct Hroom as [Ht|Hr]; [by left|right; cbn [room] in Hr; fold (obj_rooms l) in Hr; lia].
- change (Z.land 0x83 (Z.lnot SPROTO_TARRAY)) with 3. cbn [room]. fold (obj_rooms l). replace (8 + obj_rooms l - 4) with (4 + obj_rooms l) by lia.
  apply objs_lemma; [exact Hl|lia|]. destruct Hroom as [Ht|Hr]; [by left|right; cbn [room] in Hr; fold (obj_rooms l) in Hr; lia].
Qed.
Definition field_out (r : luaR (single * U * buffer)) (mem : buffer) (t : tree) (u' : U) : Prop :=
∃ s v mem', r = lua_ret (s, v, mem') ∧ length mem' = length mem ∧
  ((s = Single 0 (-1) ∧ Z.of_nat (length mem) < room t) ∨
   (v = u' ∧ match inline t with
             | Some i => s = Single ((i + 1) * 2) 2
             | None => s = Single 0 (Z.of_nat (length (sized (body t)))) ∧ ∃ rest, mem' = map Some (sized (body t)) ++ rest
             end)).

(** [n] bytes and their length. *)
Lemma put_data (mem : buffer) l n : n = Z.of_nat (length l) → (4 + length l ≤ length mem)%nat →
(data ← wr_at mem 4 l; fill_size data n) = Ok (map Some (sized l) ++ drop (4 + length l) mem, n + 4).
Proof.
intros -> Hm. assert (E : mem = take 4 mem ++ take (length l) (drop 4 mem) ++ drop (4 + length l) mem) by (by rewrite <- drop_drop, !take_drop).
rewrite E at 1. assert (H4 : length (take 4 mem) = 4%nat) by (rewrite length_take; lia). assert (Hl : length (take (length l) (drop 4 mem)) = length l) by (rewrite length_take, length_drop; lia).
assert (H4' : 4 = Z.of_nat (length (take 4 mem))) by lia. rewrite (wr_at_mid l (take 4 mem) _ (drop (4 + length l) mem) 4 H4' Hl), bind_ok.
rewrite fill_size_lemma by (rewrite length_app; lia). rewrite drop_app_length' by done. unfold sized. by rewrite map_app, <- app_assoc.
Qed.

Lemma encode_int_lemma f u v u' (mem : buffer) : f_type f = 0 → int_elem (field_arg f 0 0) u v u' → Z.of_nat (length mem) < 2 ^ 31 →
field_out (encode_field cb f u mem (Z.of_nat (length mem))) mem (TInt v) u'.
Proof.
intros E Hv Hsz. unfold encode_field, encode_single. rewrite E. cbn [Z.land SPROTO_TARRAY Z.eqb negb SPROTO_TINTEGER orb]. destruct (Hv union_u eq_refl) as (mem0 & ->). cbn [lbind lua_ret].
assert (Hp : (if small v then 4 else 8) <? 0 = false) by (by destruct (small v)). rewrite Hp. assert (Hu : u64 (Z.of_nat (length mem)) = Z.of_nat (length mem)) by (unfold u64; apply Z.mod_small; lia).
unfold field_out. cbn [inline body room]. destruct (small v) eqn:Hs; cbn [Z.eqb Pos.eqb negb int_bytes].
- rewrite u32_of_bytes, bind_ok. unfold small in Hs. rewrite andb_true_iff, Z.leb_le, Z.ltb_lt in Hs. assert (Hi : (0 <=? v) && (v <? 32767) = (u32 v <? 32767)).
  { unfold u32. destruct (Z.leb_spec 0 v); cbn [andb]; [by rewrite Z.mod_small by lia|]. rewrite <- (Z.mod_add v 1), Z.mod_small by lia. symmetry. apply Z.ltb_ge. lia. }
  rewrite Hi. destruct (Z.ltb_spec (u32 v) 32767) as [Hlt|Hge].
  + do 3 eexists. split; [reflexivity|]. split; [done|]. right. split; [done|]. apply andb_true_iff in Hi as [Hi1%Z.leb_le Hi2%Z.ltb_lt]. by rewrite u32_small by lia.
  + unfold encode_integer, SIZEOF_LENGTH. rewrite Hu. destruct (Z.ltb_spec (Z.of_nat (length mem)) (4 + 4)).
    { rewrite bind_ok. do 3 eexists. split; [reflexivity|]. split; [done|]. left. split; [done|lia]. }
    rewrite word_bytes_u32, (put_data mem (word_bytes v) 4 eq_refl), bind_ok by (rewrite word_bytes_length; lia). rewrite word_bytes_length.
    do 3 eexists. split; [reflexivity|]. split; [rewrite length_app, length_map, sized_length, word_bytes_length, length_drop; lia|]. right. split; [done|]. split; [done|by eexists].
- unfold small in Hs. assert (Hi : (0 <=? v) && (v <? 32767) = false).
  { apply andb_false_iff. apply andb_false_iff in Hs as [Hs%Z.leb_gt|Hs%Z.ltb_ge]; [left; apply Z.leb_gt; lia|right; apply Z.ltb_ge; lia]. }
  rewrite Hi, u64_of_bytes, bind_ok. unfold encode_uint64, SIZEOF_LENGTH. rewrite Hu. destruct (Z.ltb_spec (Z.of_nat (length mem)) (4 + 8)).
  { rewrite bind_ok. do 3 eexists. split; [reflexivity|]. split; [done|]. left. split; [done|lia]. }
  rewrite qword_bytes_u64, (put_data mem (qword_bytes v) 8 eq_refl), bind_ok by (rewrite qword_bytes_length; lia). rewrite qword_bytes_length.
  do 3 eexists. split; [reflexivity|]. split; [rewrite length_app, length_map, sized_length, qword_bytes_length, length_drop; lia|]. right. split; [done|]. split; [done|by eexists].
Qed.

Lemma encode_object_lemma args u t u' (mem : buffer) : obj_elem args u t u' → Z.of_nat (length mem) < 2 ^ 31 → tidy t = true ∨ room t ≤ Z.of_nat (length mem) →
wrote (encode_object cb args u mem (Z.of_nat (length mem))) mem (sized (body t)) (room t) u'.
Proof.
intros [Hfit Ht] Hsz Hroom. unfold encode_object, SIZEOF_LENGTH. destruct (Z.ltb_spec (Z.of_nat (length mem)) 4).
{ do 3 eexists. split; [reflexivity|]. split; [done|]. left. split; [done|lia]. }
destruct (Ht (drop 4 mem)) as (n & v & value & E & Hl & Ho); [rewrite length_drop; lia|destruct Hroom as [|Hr]; [by left|right; rewrite length_drop; lia]|]. rewrite length_drop in E, Hl, Ho.
replace (Z.of_nat (length mem - 4)) with (Z.of_nat (length mem) - 4) in E, Ho by lia. rewrite E. cbn [lbind lua_ret]. destruct Ho as [[-> Ho]|(-> & -> & rest & ->)].
- cbn [Z.ltb Z.compare Z.eqb Pos.eqb SPROTO_CB_NIL]. do 3 eexists. split; [reflexivity|]. split; [rewrite length_app, length_take; lia|]. left. split; [done|lia].
- rewrite length_app, length_map in Hl. destruct (Z.ltb_spec (Z.of_nat (length (body t))) 0); [lia|]. destruct (Z.leb_spec (Z.of_nat (length (body t))) (Z.of_nat (length mem) - 4)); [|lia]. cbn [assertb]. rewrite bind_ok.
  rewrite fill_size_lemma, bind_ok by (rewrite length_app, length_take; lia). rewrite drop_app_length' by (rewrite length_take; lia).
  do 3 eexists. split; [reflexivity|]. split; [rewrite !length_app, !length_map, word_bytes_length; lia|]. right. rewrite sized_length. split; [lia|]. split; [done|]. exists rest. unfold sized. by rewrite map_app, <- app_assoc.
Qed.

Lemma wrote_field r (mem : buffer) t u' : wrote r mem (sized (body t)) (room t) u' → inline t = None →
field_out (lbind r (λ '(sz, u, data), lua_ret (Single 0 sz, u, data))) mem t u'.
Proof.
intros (n & v & mem' & -> & Hl & Ho) Hi. cbn [lbind lua_ret]. do 3 eexists. split; [reflexivity|]. split; [exact Hl|]. rewrite Hi. destruct Ho as [[-> Ho]|(-> & -> & Ho)]; [by left|by right].
Qed.

(** Every field that is set. *)
Lemma encode_field_lemma f u t u' (mem : buffer) : answers f u t u' → Z.of_nat (length mem) < 2 ^ 31 → tidy t = true ∨ room t ≤ Z.of_nat (length mem) →
field_out (encode_field cb f u mem (Z.of_nat (length mem))) mem t u'.
Proof.
intros Ha Hsz Hroom. pose proof Ha as Ha'. destruct Ha' as [v u' E Hv|b u' E Hb|s u' E Hs|maxn fs u' E Hs|l u' E Hl|l u' E Hl|l u' E Hl|l u' E Hl].
- by apply encode_int_lemma.
- unfold encode_field, encode_single. rewrite E. cbn [Z.land SPROTO_TARRAY Z.eqb negb SPROTO_TINTEGER SPROTO_TBOOLEAN Pos.eqb orb]. destruct (Hb 8 union_u) as (mem0 & ->); [cbn; lia|]. cbn [lbind lua_ret Z.ltb Z.compare Z.eqb Pos.eqb].
  rewrite u32_of_bytes, bind_ok. assert (Eb : u32 (bit b) = bit b) by (by destruct b). rewrite Eb. assert (Hlt : bit b <? 32767 = true) by (by destruct b). rewrite Hlt. do 3 eexists. split; [reflexivity|]. split; [done|]. by right.
- unfold encode_field, encode_single. rewrite E. cbn [Z.land Pos.land SPROTO_TARRAY Z.eqb negb SPROTO_TINTEGER SPROTO_TBOOLEAN SPROTO_TSTRUCT SPROTO_TSTRING Pos.eqb orb]. by apply wrote_field; [apply encode_object_lemma|].
- unfold encode_field, encode_single. rewrite E. cbn [Z.land Pos.land SPROTO_TARRAY Z.eqb negb SPROTO_TINTEGER SPROTO_TBOOLEAN SPROTO_TSTRUCT SPROTO_TSTRING Pos.eqb orb]. by apply wrote_field; [apply encode_object_lemma|].
- pose proof (encode_array_lemma f u _ u' mem Ha ltac:(lia) Hsz Hroom) as Hw. unfold encode_field. rewrite E in *. by apply wrote_field.
- pose proof (encode_array_lemma f u _ u' mem Ha ltac:(lia) Hsz Hroom) as Hw. unfold encode_field. rewrite E in *. by apply wrote_field.
- pose proof (encode_array_lemma f u _ u' mem Ha ltac:(lia) Hsz Hroom) as Hw. unfold encode_field. rewrite E in *. by apply wrote_field.
- pose proof (encode_array_lemma f u _ u' mem Ha ltac:(lia) Hsz Hroom) as Hw. unfold encode_field. rewrite E in *. by apply wrote_field.
Qed.
(** A field that is not set. *)
Lemma skip_field_lemma f u u1 (mem : buffer) : skips f u u1 → ∃ s v mem', encode_field cb f u mem (Z.of_nat (length mem)) = lua_ret (s, v, mem') ∧ length mem' = length mem ∧
((s = Single 0 (-1) ∧ Z.of_nat (length mem) < 8) ∨ (v = u1 ∧ (s = SingleNil ∨ s = Single 0 0))).
Proof.
intros [[Hty Hend]|[Hty Hend]]; unfold encode_field.
- assert (Ea : Z.land (f_type f) SPROTO_TARRAY = 0) by (assert (Hc : f_type f = 0 ∨ f_type f = 1 ∨ f_type f = 2 ∨ f_type f = 3) by lia; destruct Hc as [->|[->|[->| ->]]]; done).
  rewrite Ea. cbn [Z.eqb negb]. unfold encode_single, SPROTO_TINTEGER, SPROTO_TBOOLEAN, SPROTO_TSTRUCT, SPROTO_TSTRING.
  destruct (Z.eqb_spec (f_type f) 0), (Z.eqb_spec (f_type f) 1), (Z.eqb_spec (f_type f) 3), (Z.eqb_spec (f_type f) 2); try lia; cbn [orb].
  1, 2: rewrite Hend; cbn [lbind lua_ret Z.ltb Z.compare Z.eqb Pos.eqb SPROTO_CB_NIL]; do 3 eexists; split; [reflexivity|]; split; [done|]; right; split; [done|by left].
  all: unfold encode_object, SIZEOF_LENGTH; destruct (Z.ltb_spec (Z.of_nat (length mem)) 4);
    [cbn [lbind lua_ret]; do 3 eexists; split; [reflexivity|]; split; [done|]; left; split; [done|lia]|].
  all: rewrite Hend; cbn [lbind lua_ret Z.ltb Z.compare Z.eqb Pos.eqb SPROTO_CB_NIL]; do 3 eexists; split; [reflexivity|]; split; [by rewrite take_drop|]; right; split; [done|by right].
- assert (Ea : negb (Z.land (f_type f) SPROTO_TARRAY =? 0) = true ∧ Z.land (f_type f) (Z.lnot SPROTO_TARRAY) = f_type f - 0x80).
  { assert (Hc : f_type f = 0x80 ∨ f_type f = 0x81 ∨ f_type f = 0x82 ∨ f_type f = 0x83) by lia. destruct Hc as [->|[->|[->| ->]]]; done. }
  destruct Ea as [-> ->]. unfold encode_array, SIZEOF_LENGTH. destruct (Z.ltb_spec (Z.of_nat (length mem)) 4).
  { cbn [lbind lua_ret]. do 3 eexists. split; [reflexivity|]. split; [done|]. left. split; [done|lia]. }
  cbv zeta. cbn [a_type field_arg]. destruct (Z.ltb_spec (Z.of_nat (length mem)) 8) as [Hlt|Hge].
  + assert (Hany : ∀ r, (∃ e, r = lua_ret (A := array_end * U * buffer) (e, u1, drop 4 mem) ∧ (e = NoArray ∨ e = ArrayError)) ∨ r = lua_ret (ArrayError, u, drop 4 mem) →
      ∃ s v mem', lbind (lbind r (λ '(r, u0, b), let data := take 4 mem ++ b in match r with ArrayError => lua_ret (-1, u0, data) | NoArray => lua_ret (0, u0, data) | ArrayEnd sz => '(data, r) ← fill_size data sz; lua_ret (r, u0, data) end))
        (λ '(sz, u0, data), lua_ret (Single 0 sz, u0, data)) = lua_ret (s, v, mem') ∧ length mem' = length mem ∧ ((s = Single 0 (-1) ∧ Z.of_nat (length mem) < 8) ∨ (v = u1 ∧ (s = SingleNil ∨ s = Single 0 0)))).
    { intros r [(e & -> & [-> | ->])| ->]; cbn [lbind lua_ret]; do 3 eexists; (split; [reflexivity|]); (split; [by rewrite take_drop|]); [right; split; [done|by right]|by left|by left]. }
    apply Hany. clear Hany. unfold SPROTO_TINTEGER, SPROTO_TBOOLEAN. destruct (Z.eqb_spec (f_type f - 128) 0), (Z.eqb_spec (f_type f - 128) 1); try lia.
    * unfold encode_integer_array. destruct (Z.ltb_spec (Z.of_nat (length mem) - 4) 1); [right; done|]. cbn [integer_loop]. rewrite Hend. left. exists NoArray. split; [done|by left].
    * cbn [boolean_loop]. rewrite Hend. left. exists NoArray. split; [done|by left].
    * cbn [object_loop]. unfold SIZEOF_LENGTH. destruct (Z.ltb_spec (Z.of_nat (length mem) - 4) 4); [right; done|lia].
  + exists (Single 0 0), u1, mem. split; [|split; [done|right; split; [done|by right]]]. unfold SPROTO_TINTEGER, SPROTO_TBOOLEAN. destruct (Z.eqb_spec (f_type f - 128) 0), (Z.eqb_spec (f_type f - 128) 1); try lia.
    * unfold encode_integer_array. destruct (Z.ltb_spec (Z.of_nat (length mem) - 4) 1); [lia|]. cbn [integer_loop]. rewrite Hend. cbn [lbind lua_ret Z.leb Z.compare Z.eqb Pos.eqb SPROTO_CB_NIL SPROTO_CB_NOARRAY]. by rewrite take_drop.
    * cbn [boolean_loop]. rewrite Hend. cbn [lbind lua_ret Z.ltb Z.compare Z.eqb Pos.eqb SPROTO_CB_NIL SPROTO_CB_NOARRAY]. by rewrite take_drop.
    * cbn [object_loop]. unfold SIZEOF_LENGTH. destruct (Z.ltb_spec (Z.of_nat (length mem) - 4) 4); [lia|]. rewrite Hend. cbn [lbind lua_ret Z.ltb Z.compare Z.eqb Pos.eqb SPROTO_CB_NIL SPROTO_CB_NOARRAY]. by rewrite !take_drop.
Qed.
(** ** All fields *)

(** The message the callback answers with. *)
Inductive fields_run : list field → U → list (Z * tree) → U → Prop :=
| fields_run_nil u : fields_run [] u [] u
| fields_run_skip f fs u u1 ts u' : skips f u u1 → fields_run fs u1 ts u' → fields_run (f :: fs) u ts u'
| fields_run_some f fs u t u1 ts u' : answers f u t u1 → fields_run fs u1 ts u' → fields_run (f :: fs) u ((f_tag f, t) :: ts) u'.

(** The records of the fields of a type: two where a tag is skipped. *)
Fixpoint slots (prev : Z) (fs : list field) : Z :=
match fs with [] => 0 | f :: fs => (if f_tag f >? prev + 1 then 2 else 1) + slots (f_tag f) fs end.

Fixpoint ascending (prev : Z) (fs : list field) : Prop :=
match fs with [] => True | f :: fs => prev < f_tag f ≤ 32767 ∧ ascending (f_tag f) fs end.

Lemma slots_pos fs : ∀ prev, 0 ≤ slots prev fs.
Proof. induction fs as [|f fs IH]; intros prev; cbn [slots]; [lia|]. pose proof (IH (f_tag f)). destruct (_ >? _); lia. Qed.

Lemma objs_bytes_room args i u l u' : elements obj_elem args i u l u' → Z.of_nat (length (obj_bytes l)) ≤ obj_rooms l.
Proof.
induction 1 as [|? ? t ? l ? [Ht _] _ IH]; unfold obj_rooms, obj_bytes in *; cbn [map concat foldr length]; [lia|]. rewrite length_app, sized_length. lia.
Qed.

(** What a field takes in the data. *)
Lemma answers_room f u t u' : answers f u t u' → 0 ≤ room t ∧ (inline t = None → Z.of_nat (length (sized (body t))) ≤ room t).
Proof.
intros Ha. rewrite sized_length. destruct Ha as [v u' E Hv|b u' E Hb|s u' E Hs|maxn fs u' E [Hfit _]|l u' E Hl|l u' E Hl|l u' E Hl|l u' E Hl].
- cbn [room body]. rewrite int_bytes_length. destruct (negb (small v)); lia.
- cbn [room]. split; [lia|done].
- cbn [room body]. lia.
- lia.
- cbn [room]. split; [lia|]. intros _. destruct l as [|a l]; [cbn; lia|]. assert (E2 : length (body (TInts (a :: l))) = S (length (widths (wide_of (a :: l)) (a :: l)))) by (unfold widths, wide_of; cbn [body length]; done).
  rewrite E2, widths_length. destruct (wide_of (a :: l)); lia.
- cbn [room body]. rewrite length_map. lia.
- pose proof (objs_bytes_room _ _ _ _ _ Hl). pose proof (obj_rooms_pos _ _ _ _ _ Hl). change (body (TObjs l)) with (obj_bytes l). change (room (TObjs l)) with (8 + obj_rooms l). lia.
- pose proof (objs_bytes_room _ _ _ _ _ Hl). pose proof (obj_rooms_pos _ _ _ _ _ Hl). change (body (TObjs l)) with (obj_bytes l). change (room (TObjs l)) with (8 + obj_rooms l). lia.
Qed.

Lemma fields_rooms fs u ts u' : fields_run fs u ts u' → 0 ≤ rooms ts.
Proof. induction 1 as [|f fs u u1 ts u' _ _ IH|f fs u t u1 ts u' Ha _ IH]; [cbn; lia|done|]. apply answers_room in Ha as [Ha _]. unfold rooms in *. cbn. lia. Qed.

Definition gap_words (gap : Z) : list Z := if gap >? 0 then [(gap - 1) * 2 + 1] else [].

Definition halves (ws : list Z) : list Z := concat (map half ws).

Lemma halves_length ws : length (halves ws) = (2 * length ws)%nat.
Proof. induction ws as [|w ws IH]; [done|]. change (length (half w ++ halves ws) = (2 * S (length ws))%nat). rewrite length_app, IH. cbn [half length]. lia. Qed.

Lemma halves_app a b : halves (a ++ b) = halves a ++ halves b.
Proof. unfold halves. by rewrite map_app, concat_app. Qed.

(** A record goes behind the records that are there. *)
Lemma put_record_lemma (x y : option Z) ws (J tl : buffer) gap value (index := Z.of_nat (length ws)) (new := gap_words gap ++ [value]) :
gap ≤ 32768 → (2 * length new ≤ length J)%nat →
put_record (x :: y :: map Some (halves ws) ++ J ++ tl) index gap value =
  Ok (Some (Z.of_nat (length (ws ++ new)), x :: y :: map Some (halves (ws ++ new)) ++ drop (2 * length new) J ++ tl)).
Proof.
intros Hgap HJ. unfold put_record, gap_words in *. set (P := x :: y :: map Some (halves ws)). assert (HP : Z.of_nat (length P) = 2 + 2 * index) by (unfold P; cbn [length]; rewrite length_map, halves_length; lia).
change (x :: y :: map Some (halves ws) ++ J ++ tl) with (P ++ J ++ tl).
assert (Hput : ∀ (P' : buffer) w (J' : buffer) i, i = Z.of_nat (length P') → (2 ≤ length J')%nat → wr_at (P' ++ J' ++ tl) i [Z.land w 0xff; Z.land (Z.shiftr w 8) 0xff] = Ok ((P' ++ map Some (half w)) ++ drop 2 J' ++ tl)).
{ intros P' w J' i Hi HJ'. rewrite <- (take_drop 2 J') at 1. rewrite <- (app_assoc (take 2 J')). rewrite (wr_at_mid (half w)) by (done || (rewrite length_take; cbn [half length]; lia)). by rewrite <- app_assoc. }
unfold new in *. clear new. unfold SIZEOF_HEADER, SIZEOF_FIELD. destruct (Z.gtb_spec gap 0) as [Hg|Hg]; cbn [app length] in HJ |- *.
- destruct (Z.gtb_spec ((gap - 1) * 2 + 1) 65535); [lia|]. rewrite Hput, bind_ok by lia. rewrite Hput, bind_ok by (rewrite ?length_app, ?length_map, ?length_drop; cbn [half length]; lia).
  do 2 f_equal. f_equal; [rewrite length_app; cbn [length]; lia|]. rewrite drop_drop. unfold P. cbn [app]. do 2 f_equal. rewrite halves_app. unfold halves at 3. cbn [map concat]. rewrite app_nil_r, !map_app, <- !app_assoc. done.
- rewrite Hput, bind_ok by lia. do 2 f_equal. f_equal; [rewrite length_app; cbn [length]; lia|]. unfold P. cbn [app]. do 2 f_equal. rewrite halves_app. unfold halves at 3. cbn [map concat]. by rewrite app_nil_r, !map_app, <- !app_assoc.
Qed.

(** The end: the number of records, and the data moves next to them. *)
Lemma encode_end_lemma (x y : option Z) ws (J R : buffer) (D : list Z) maxn (index := Z.of_nat (length ws)) :
Z.of_nat (length J) = 2 * (maxn - index) →
encode_end maxn index (2 + 2 * maxn + Z.of_nat (length D)) (x :: y :: map Some (halves ws) ++ J ++ map Some D ++ R) =
  Ok (Z.of_nat (length (half index ++ halves ws ++ D)), map Some (half index ++ halves ws ++ D) ++ drop (length D) (J ++ map Some D) ++ R).
Proof.
intros HJ. unfold encode_end, SIZEOF_HEADER, SIZEOF_FIELD. set (tl := map Some (halves ws) ++ J ++ map Some D ++ R). change (x :: y :: tl) with ([] ++ [x; y] ++ tl).
assert (E1 : wr_at ([] ++ [x; y] ++ tl) 0 (half index) = Ok (map Some (half index) ++ tl)) by (by apply wr_at_mid). unfold half in E1 at 1. rewrite E1, bind_ok. clear E1.
assert (El : 2 + index * 2 + (2 + 2 * maxn + Z.of_nat (length D) - (2 + maxn * 2)) = Z.of_nat (length (half index ++ halves ws ++ D))) by (rewrite !length_app, halves_length; cbn [half length]; lia).
rewrite El. destruct (Z.eqb_spec index maxn) as [Em|Em]; cbn [negb].
- assert (HJ0 : J = []) by (apply length_zero_iff_nil; lia). subst J. rewrite bind_ok. unfold tl. cbn [app]. rewrite drop_ge by (by rewrite length_map). by rewrite !map_app, <- !app_assoc.
- assert (Etl : map Some (half index) ++ tl = (map Some (half index ++ halves ws)) ++ take (length D) (J ++ map Some D) ++ (drop (length D) (J ++ map Some D) ++ R)).
  { unfold tl. rewrite map_app, <- !app_assoc. do 2 f_equal. rewrite app_assoc, <- (take_drop (length D) (J ++ map Some D)) at 1. by rewrite <- app_assoc. }
  rewrite Etl. rewrite (move_mid (map Some (half index ++ halves ws)) (map Some (half index ++ halves ws) ++ J) R D); cycle 1.
  + lia.
  + rewrite length_app, length_map, length_app, halves_length. cbn [half length]. lia.
  + rewrite <- Etl. unfold tl. rewrite (app_assoc (map Some (half index))), <- map_app, (app_assoc (map Some (half index ++ halves ws))). apply drop_app_length.
  + rewrite length_map, length_app, halves_length. cbn [half length]. lia.
  + rewrite length_take, length_app, length_map. lia.
  + rewrite bind_ok. by rewrite (app_assoc (half index)), (map_app Some _ D), <- !app_assoc.
Qed.
Definition record_value (i : option Z) : Z := match i with Some v => (v + 1) * 2 | None => 0 end.

Lemma record_words_cons {A} last tag i (d : A) l : record_words last ((tag, (i, d)) :: l) = (gap_words (tag - last - 1) ++ [record_value i]) ++ record_words tag l.
Proof.
cbn [record_words]. unfold gap_words. destruct (Z.gtb_spec (tag - last - 1) 0); [|done]. cbn [app]. do 2 f_equal. lia.
Qed.

(** The bytes when [ws] and [D] are there and [ts] is to come. *)
Definition fields_bytes (ws D : list Z) (last : Z) (ts : list (Z * tree)) : list Z :=
let ws := ws ++ record_words last (records ts) in
half (Z.of_nat (length ws)) ++ halves ws ++ D ++ concat (map record_data (records ts)).

Definition fields_wrote (r : luaR (Z * U * buffer)) (len : nat) (bytes : list Z) (need size : Z) (u' : U) : Prop :=
∃ n v buf', r = lua_ret (n, v, buf') ∧ length buf' = len ∧
  ((n = -1 ∧ size < need) ∨ (n = Z.of_nat (length bytes) ∧ v = u' ∧ ∃ rest, buf' = map Some bytes ++ rest)).

Lemma fields_bytes_cons ws D last tag t ts :
fields_bytes ws D last ((tag, t) :: ts) =
fields_bytes (ws ++ gap_words (tag - last - 1) ++ [record_value (inline t)]) (D ++ record_data (tag, (inline t, body t))) tag ts.
Proof.
unfold fields_bytes, records. cbn [map]. rewrite record_words_cons. cbn [concat]. by rewrite <- !app_assoc.
Qed.

(** The memory in its parts: the count, the records, what is left for records, the data, the
  rest. *)
Definition parts (x y : option Z) (ws : list Z) (J : buffer) (D : list Z) (R : buffer) : buffer := x :: y :: map Some (halves ws) ++ J ++ map Some D ++ R.

Lemma parts_data x y ws (J : buffer) D (R : buffer) maxn : Z.of_nat (length J) = 2 * (maxn - Z.of_nat (length ws)) →
let data := Z.to_nat (2 + 2 * maxn + Z.of_nat (length D)) in
drop data (parts x y ws J D R) = R ∧ ∀ R', take data (parts x y ws J D R) ++ R' = parts x y ws J D R'.
Proof.
intros HJ data. unfold parts. set (F := x :: y :: map Some (halves ws) ++ J ++ map Some D). assert (HF : length F = data).
{ unfold F. cbn [length]. rewrite !length_app, !length_map, halves_length. unfold data. lia. }
assert (E : ∀ R, x :: y :: map Some (halves ws) ++ J ++ map Some D ++ R = F ++ R) by (intros; unfold F; cbn [app]; by rewrite <- !app_assoc).
split; [|intros R']; rewrite !E; [by apply drop_app_length'|by rewrite take_app_length'].
Qed.

Lemma gap_words_length gap : (length (gap_words gap) = if gap >? 0 then 1 else 0)%nat.
Proof. unfold gap_words. by destruct (gap >? 0). Qed.

(** A field that is set, when its value is there. *)
Lemma put_field x y ws (J : buffer) D (R R' : buffer) maxn tag last t (new := gap_words (tag - last - 1) ++ [record_value (inline t)]) :
Z.of_nat (length J) = 2 * (maxn - Z.of_nat (length ws)) → Z.of_nat (length (ws ++ new)) ≤ maxn → tag - last - 1 ≤ 32768 → length R' = length R →
match inline t with Some i => True | None => ∃ rest, R' = map Some (sized (body t)) ++ rest end →
∃ J' rest, put_record (parts x y ws J D R') (Z.of_nat (length ws)) (tag - last - 1) (record_value (inline t)) = Ok (Some (Z.of_nat (length (ws ++ new)), parts x y (ws ++ new) J' (D ++ record_data (tag, (inline t, body t))) rest)) ∧
  Z.of_nat (length J') = 2 * (maxn - Z.of_nat (length (ws ++ new))) ∧ (length rest + length (record_data (tag, (inline t, body t))) = length R)%nat.
Proof.
intros HJ Hmax Hgap HR Hval. rewrite length_app in Hmax. exists (drop (2 * length new) J). unfold parts. rewrite put_record_lemma by (done || (fold new; lia)). fold new.
unfold record_data. cbn [snd fst]. destruct (inline t) as [i|].
- exists R'. rewrite app_nil_r. split; [done|]. rewrite length_drop, !length_app. cbn [length]. lia.
- destruct Hval as (rest & ->). exists rest. rewrite map_app, <- app_assoc. split; [done|]. rewrite length_app, length_map in HR. rewrite length_drop, !length_app. lia.
Qed.

Lemma encode_fields_lemma maxn fs u ts u' : fields_run fs u ts u' → ∀ x y ws (J : buffer) D (R : buffer) prev last,
-1 ≤ last ≤ prev → ascending prev fs → Z.of_nat (length J) = 2 * (maxn - Z.of_nat (length ws)) →
Z.of_nat (length ws) + slots prev fs + (if last =? prev then 0 else 1) ≤ maxn → Z.of_nat (length R) < 2 ^ 31 →
tidy_fields ts = true ∨ 8 + rooms ts ≤ Z.of_nat (length R) →
fields_wrote (encode_fields cb fs maxn (2 + 2 * maxn + Z.of_nat (length D)) (Z.of_nat (length R)) (Z.of_nat (length ws)) last u (parts x y ws J D R))
  (length (parts x y ws J D R)) (fields_bytes ws D last ts) (8 + rooms ts) (Z.of_nat (length R)) u'.
Proof.
induction 1 as [u|f fs u u1 ts u' Hskip Hrun IH|f fs u t u1 ts u' Ha Hrun IH]; intros x y ws J D R prev last Hlast Hasc HJ Hslots HR Hroom; cbn [encode_fields].
- unfold parts. rewrite encode_end_lemma, bind_ok by done. do 3 eexists. split; [reflexivity|]. unfold fields_bytes. cbn [records map record_words concat]. rewrite !app_nil_r.
  split; [|right; split; [done|split; [done|by eexists]]]. rewrite !length_app, !length_map, !length_app, length_drop, length_app, !length_map, halves_length. cbn [half length]. rewrite !length_app, !length_map, halves_length. lia.
- destruct (parts_data x y ws J D R maxn HJ) as [-> Hput]. destruct (skip_field_lemma f u u1 R Hskip) as (s & v & R' & -> & HlR & Hs). cbn [lbind lua_ret]. rewrite Hput.
  assert (Hlen : length (parts x y ws J D R') = length (parts x y ws J D R)) by (unfold parts; cbn [length]; rewrite !length_app; lia). pose proof (fields_rooms _ _ _ _ Hrun) as Hr0.
  destruct Hs as [[-> Hs]|[-> Hs]]; [do 3 eexists; split; [reflexivity|]; split; [done|]; left; split; [done|lia]|].
  cbn [ascending slots] in *. rewrite <- Hlen. specialize (IH x y ws J D R' (f_tag f) last). rewrite HlR in IH.
  destruct Hs as [-> | ->]; [|cbn [Z.ltb Z.gtb Z.compare]]; apply IH; try done; try lia; try tauto;
    destruct (Z.eqb_spec last (f_tag f)), (Z.eqb_spec last prev), (Z.gtb_spec (f_tag f) (prev + 1)); lia.
- destruct (parts_data x y ws J D R maxn HJ) as [-> Hput]. destruct (answers_room f u t u1 Ha) as [Hrt0 Hrt]. pose proof (fields_rooms _ _ _ _ Hrun) as Hr0. unfold rooms, tidy_fields in Hroom. cbn [map foldr forallb] in Hroom. fold (rooms ts) in Hroom.
  destruct (encode_field_lemma f u t u1 R Ha HR) as (s & v & R' & -> & HlR & Hs); [destruct Hroom as [Hroom|]; [left; by apply andb_true_iff in Hroom as [? _]|right; lia]|]. cbn [lbind lua_ret]. rewrite Hput.
  assert (Hlen : length (parts x y ws J D R') = length (parts x y ws J D R)) by (unfold parts; cbn [length]; rewrite !length_app; lia).
  destruct Hs as [[-> Hs]|[-> Hs]].
  { cbn [Z.ltb Z.compare]. do 3 eexists. split; [reflexivity|]. split; [done|]. left. split; [done|]. unfold rooms in *. cbn. lia. }
  cbn [ascending slots] in *. set (new := gap_words (f_tag f - last - 1) ++ [record_value (inline t)]).
  assert (Hnew : Z.of_nat (length (ws ++ new)) + slots (f_tag f) fs ≤ maxn).
  { unfold new. rewrite !length_app, gap_words_length. cbn [length]. destruct (Z.eqb_spec last prev), (Z.gtb_spec (f_tag f) (prev + 1)), (Z.gtb_spec (f_tag f - last - 1) 0); lia. }
  pose proof (slots_pos fs (f_tag f)) as Hsl.
  destruct (put_field x y ws J D R R' maxn (f_tag f) last t HJ) as (J' & rest & Eput & HJ' & Hrest); [fold new; lia|lia|done|destruct (inline t); [done|tauto]|]. fold new in Eput, HJ'.
  set (d := record_data (f_tag f, (inline t, body t))) in *. assert (Hd : Z.of_nat (length d) ≤ room t).
  { unfold d, record_data. cbn [snd fst]. destruct (inline t); [cbn; lia|by apply Hrt]. }
  assert (Es : ∃ sz, s = Single (record_value (inline t)) sz ∧ 0 < sz ∧ (if record_value (inline t) =? 0 then sz else 0) = Z.of_nat (length d)).
  { unfold d, record_data, record_value. cbn [snd fst]. destruct (inline t) as [i|] eqn:Ei.
    - exists 2. split; [done|]. split; [lia|]. assert (Hi : 0 ≤ i) by (destruct t; cbn in Ei; try done; [destruct (Z.leb_spec 0 v); [cbn [andb] in Ei; destruct (v <? 32767); [by injection Ei as <-|done]|done]|injection Ei as <-; by destruct b]).
      by destruct (Z.eqb_spec ((i + 1) * 2) 0); [lia|].
    - destruct Hs as [-> _]. eexists. split; [done|]. rewrite sized_length. split; [lia|done]. }
  destruct Es as (sz & -> & Hsz & Emv). destruct (Z.ltb_spec sz 0); [lia|]. destruct (Z.gtb_spec sz 0); [|lia]. rewrite Eput, bind_ok, Emv.
  replace (2 + 2 * maxn + Z.of_nat (length D) + Z.of_nat (length d)) with (2 + 2 * maxn + Z.of_nat (length (D ++ d))) by (rewrite length_app; lia).
  replace (Z.of_nat (length R) - Z.of_nat (length d)) with (Z.of_nat (length rest)) by lia. rewrite fields_bytes_cons. fold new d.
  destruct (IH x y (ws ++ new) J' (D ++ d) rest (f_tag f) (f_tag f)) as (n & v & buf' & E & Hlb & Ho); [lia|tauto|done|rewrite Z.eqb_refl; lia|lia|destruct Hroom as [Hroom|]; [left; by apply andb_true_iff in Hroom as [_ ?]|right; lia]|].
  exists n, v, buf'. split; [exact E|]. split; [rewrite Hlb; unfold parts; cbn [length]; rewrite !length_app, !length_map, !halves_length, !length_app; rewrite length_app in HJ'; lia|].
  destruct Ho as [[-> Ho]|Ho]; [left; split; [done|]|by right]. unfold rooms in *. cbn. lia.
Qed.
(** The records fit into the slots, the data into the rooms. *)
Lemma fields_fit fs u ts u' : fields_run fs u ts u' → ∀ prev last, -1 ≤ last ≤ prev → ascending prev fs →
Z.of_nat (length (record_words last (records ts))) ≤ slots prev fs + (if last =? prev then 0 else 1) ∧ Z.of_nat (length (concat (map record_data (records ts)))) ≤ rooms ts.
Proof.
induction 1 as [u|f fs u u1 ts u' _ _ IH|f fs u t u1 ts u' Ha _ IH]; intros prev last Hlast Hasc; cbn [slots ascending] in *.
- cbn. destruct (_ =? _); lia.
- destruct Hasc as [Hf Hasc]. destruct (IH (f_tag f) last ltac:(lia) Hasc) as [H1 H2]. split; [|done]. destruct (Z.eqb_spec last (f_tag f)), (Z.eqb_spec last prev), (Z.gtb_spec (f_tag f) (prev + 1)); lia.
- destruct Hasc as [Hf Hasc]. destruct (IH (f_tag f) (f_tag f) ltac:(lia) Hasc) as [H1 H2]. rewrite Z.eqb_refl in H1. destruct (answers_room f u t u1 Ha) as [Hr0 Hr].
  unfold records, rooms in *. cbn [map foldr concat]. fold (records ts) in *. rewrite record_words_cons, !length_app, gap_words_length. cbn [length]. split.
  + destruct (Z.eqb_spec last prev), (Z.gtb_spec (f_tag f) (prev + 1)), (Z.gtb_spec (f_tag f - last - 1) 0); lia.
  + assert (Hd : Z.of_nat (length (record_data (f_tag f, (inline t, body t)))) ≤ room t) by (unfold record_data; cbn [snd fst]; destruct (inline t); [cbn; lia|by apply Hr]). lia.
Qed.

(** What a type must be like for the encoder: tags in order, and [maxn] records are enough. *)
Definition encodable (st : stype) : Prop :=
t_n st = Z.of_nat (length (t_f st)) ∧ ascending (-1) (t_f st) ∧ slots (-1) (t_f st) ≤ t_maxn st.

Lemma struct_fit st u ts u' : encodable st → fields_run (t_f st) u ts u' → Z.of_nat (length (body (TStruct (t_maxn st) ts))) ≤ room (TStruct (t_maxn st) ts) - 4.
Proof.
intros (_ & Hasc & Hslots) Hrun. destruct (fields_fit _ _ _ _ Hrun (-1) (-1) ltac:(lia) Hasc) as [H1 H2]. rewrite Z.eqb_refl in H1.
change (body (TStruct (t_maxn st) ts)) with (struct_bytes (records ts)). change (room (TStruct (t_maxn st) ts)) with (4 + (10 + 2 * t_maxn st + rooms ts)).
unfold struct_bytes. rewrite !length_app. fold (halves (record_words (-1) (records ts))). rewrite halves_length. cbn [half length]. lia.
Qed.

Lemma sproto_encode_lemma st u ts u' (mem : buffer) : encodable st → fields_run (t_f st) u ts u' → Z.of_nat (length mem) < 2 ^ 31 →
tidy (TStruct (t_maxn st) ts) = true ∨ room (TStruct (t_maxn st) ts) - 4 ≤ Z.of_nat (length mem) →
wrote (sproto_encode cb st mem (Z.of_nat (length mem)) u) mem (body (TStruct (t_maxn st) ts)) (room (TStruct (t_maxn st) ts) - 4) u'.
Proof.
intros (Hn & Hasc & Hslots) Hrun Hsz Hroom. pose proof (slots_pos (t_f st) (-1)) as Hs0. pose proof (fields_rooms _ _ _ _ Hrun) as Hr0. set (maxn := t_maxn st) in *.
change (room (TStruct maxn ts)) with (4 + (10 + 2 * maxn + rooms ts)) in *. unfold sproto_encode, SIZEOF_HEADER, SIZEOF_FIELD. fold maxn. destruct (Z.ltb_spec (Z.of_nat (length mem)) (2 + maxn * 2)).
{ do 3 eexists. split; [reflexivity|]. split; [done|]. left. split; [done|lia]. }
rewrite Hn, Nat2Z.id, firstn_all. destruct mem as [|x [|y mem]]; [cbn in *; lia|cbn in *; lia|]. cbn [length] in *.
set (J := take (Z.to_nat (2 * maxn)) mem). set (R := drop (Z.to_nat (2 * maxn)) mem). assert (EJ : length J = Z.to_nat (2 * maxn)) by (unfold J; rewrite length_take; lia).
assert (ER : Z.of_nat (length R) = Z.of_nat (S (S (length mem))) - (2 + maxn * 2)) by (unfold R; rewrite length_drop; lia).
assert (Emem : x :: y :: mem = parts x y [] J [] R) by (unfold parts, J, R; cbn [halves map concat app]; by rewrite take_drop). assert (Elen : length (parts x y [] J [] R) = S (S (length mem))) by (by rewrite <- Emem).
destruct (encode_fields_lemma maxn (t_f st) u ts u' Hrun x y [] J [] R (-1) (-1)) as (n & v & buf' & E & Hl & Ho); [lia|done|cbn [length]; lia|rewrite Z.eqb_refl; cbn [length]; lia|lia| |].
{ destruct Hroom as [Ht|]; [by left|right; lia]. }
exists n, v, buf'. split.
- rewrite Emem, <- ER. etransitivity; [|exact E]. cbn [length Z.of_nat]. f_equal. lia.
- split; [by rewrite Hl, Elen|]. destruct Ho as [[-> Ho]|Ho]; [left; split; [done|cbn [length]; lia]|by right].
Qed.
End encode.
