(* ===== verification/SprotoView.v ===== *)
(** A Lua table as a message: [view] reads the fields of a type out of a table, and [encode], the
    callback of [lsproto.c], answers [sproto_encode] with them. *)

From S2P Require Import Prelude CString Seri SeriProps Frames Gate GateProps Crypt CryptDes CryptDh CryptText Words Sproto SprotoCodec SprotoLua SprotoProps SprotoEncode.
Open Scope Z_scope.

Lemma Forall2_compose {A B C} (P : A → B → Prop) (Q : B → C → Prop) (R : A → C → Prop) xs ys zs :
  (∀ x y z, P x y → Q y z → R x z) → Forall2 P xs ys → Forall2 Q ys zs → Forall2 R xs zs.
Proof. intros HR Hxy. revert zs. induction Hxy as [|x y xs ys HP _ IH]; intros zs Hyz; inversion Hyz; subst; constructor; eauto. Qed.

Definition in64 (z : Z) : bool := (- 2 ^ 63 <=? z) && (z <? 2 ^ 63).

Definition as_int (t : tree) : option Z := match t with TInt v => Some v | _ => None end.
Definition as_bool (t : tree) : option bool := match t with TBool b => Some b | _ => None end.

(** The elements of an array, by the type of the elements. *)
Definition array_tree (type : Z) (ts : list tree) : option tree :=
  if type =? 0 then TInts <$> mapM as_int ts
  else if type =? 1 then TBools <$> mapM as_bool ts
  else Some (TObjs ts).

Section view.
Context {LN : LuaNumbers} (H : lheap) (types : list stype).

(** The values at 1, 2 and so on, up to the first [nil]. *)
Fixpoint seq_values (fuel : nat) (i : Z) (t : ltable) : option (list lval) :=
match fuel with
| O => None
| S fuel => let v := rawgeti t i in if bool_decide (v = LNil) then Some [] else (v ::.) <$> seq_values fuel (i + 1) t
end.

(** A field with a key is a map: its values, in the order of [lua_next]. *)
Definition array_values (f : field) (t : ltable) : option (list lval) :=
if f_key f >=? 0 then Some (map snd (t_entries t)) else seq_values (S (length (t_entries t))) 1 t.

Definition elem_type (f : field) : Z := if f_type f >=? 0x80 then f_type f - 0x80 else f_type f.

Definition valid_field (f : field) : bool := ((0 <=? f_type f) && (f_type f <=? 3)) || ((0x80 <=? f_type f) && (f_type f <=? 0x83)).

Section fields.
Context (vw : Z → option Z → Z → lval → option tree).

(** [Some None] for a field that is [nil]. *)
Definition view_field (f : field) (t : ltable) : option (option tree) :=
let v := rawget t (LStr (default [] (f_name f))) in
if bool_decide (v = LNil) then Some None
else if f_type f >=? 0x80 then
  t ← entries_of H v;
  vs ← array_values f t;
  ts ← mapM (vw (elem_type f) (f_st f) (f_extra f)) vs;
  Some <$> array_tree (elem_type f) ts
else Some <$> vw (f_type f) (f_st f) (f_extra f) v.

Fixpoint view_fields (fs : list field) (t : ltable) : option (list (Z * tree)) :=
match fs with
| [] => Some []
| f :: fs =>
    o ← view_field f t;
    ts ← view_fields fs t;
    Some (match o with Some tr => (f_tag f, tr) :: ts | None => ts end)
end.
End fields.

(** One value; [None] where [encode] raises an error, and for numbers Lua does not have. *)
Fixpoint view (lev : nat) (type : Z) (st : option Z) (extra : Z) (v : lval) : option tree :=
match lev with
| O => None
| S lev =>
    if bool_decide (v = LNil) then None
    else if type =? 0 then
      z ← (if negb (extra =? 0) then Some (decimal_in v extra) else lua_tointegerx v);
      if in64 z then Some (TInt z) else None
    else if type =? 1 then match v with LBool b => Some (TBool b) | _ => None end
    else if type =? 2 then TStr <$> lua_tolstring v
    else if type =? 3 then
      t ← entries_of H v;
      i ← st;
      s ← (if i <? 0 then None else types !! Z.to_nat i);
      if (lev =? 0)%nat then None else TStruct (t_maxn s) <$> view_fields (view lev) (t_f s) t
    else None
end.

(** ** The callback *)

Definition type_ok (st : stype) : Prop := encodable st ∧ Forall valid_field (t_f st).

Context (Htypes : Forall type_ok types).

(** The value is [v], and the state after reading it [u1]. *)
Definition gets (args : sproto_arg) (u : encode_ud) (v : lval) (u1 : encode_ud) : Prop := encode_get H args u = lua_ret (inr v, u1).

Lemma gets_length args u v u1 n : gets args u v u1 → gets (set_length n args) u v u1.
Proof. done. Qed.

(** What [encode] does for a value whose view is a tree. *)
Definition answers_value (lev : nat) (args : sproto_arg) (u : encode_ud) (t : tree) (u1 : encode_ud) : Prop :=
match t with
| TInt z => int_elem (encode H types lev) args u z u1
| TBool b => bool_elem (encode H types lev) args u b u1
| TStr _ | TStruct _ _ => obj_elem (encode H types lev) args u t u1
| _ => False
end.

Definition of_type (type : Z) (t : tree) : Prop :=
match t with TInt z => type = 0 | TBool _ => type = 1 | TStr _ => type = 2 | TStruct _ _ => type = 3 | _ => False end.

Lemma view_type lev type st extra v t : view lev type st extra v = Some t → of_type type t.
Proof.
destruct lev as [|lev]; [done|]. cbn [view]. case_bool_decide; [done|]. destruct (Z.eqb_spec type 0), (Z.eqb_spec type 1), (Z.eqb_spec type 2), (Z.eqb_spec type 3); try lia; intros E; [..|done].
- destruct (if negb (extra =? 0) then _ else _) as [z|]; [|done]. cbn in E. destruct (in64 z); [|done]. by injection E as <-.
- destruct v; try done. by injection E as <-.
- destruct (lua_tolstring v); [|done]. by injection E as <-.
- destruct (entries_of H v); [|done]. cbn in E. destruct st as [i|]; [|done]. cbn in E. destruct (if i <? 0 then _ else _) as [s|]; [|done]. cbn in E. destruct (lev =? 0)%nat; [done|].
  destruct (view_fields _ _ _); [|done]. by injection E as <-.
Qed.

Lemma small_shift z : ((Z.shiftr z 31 =? 0) || (Z.shiftr z 31 =? -1)) = small z.
Proof.
rewrite Z.shiftr_div_pow2 by lia. unfold small. pose proof (Z.div_mod z (2 ^ 31) ltac:(lia)). pose proof (Z.mod_pos_bound z (2 ^ 31) ltac:(lia)).
destruct (Z.eqb_spec (z / 2 ^ 31) 0), (Z.eqb_spec (z / 2 ^ 31) (-1)), (Z.leb_spec (- 2 ^ 31) z), (Z.ltb_spec z (2 ^ 31)); try done; exfalso; nia.
Qed.

(** Bytes into memory that is long enough. *)
Lemma wr_front l (mem : buffer) : (length l ≤ length mem)%nat → wr_at mem 0 l = Ok (map Some l ++ drop (length l) mem).
Proof.
intros Hl. rewrite <- (take_drop (length l) mem) at 1. assert (Ht : length (take (length l) mem) = length l) by (rewrite length_take; lia).
exact (wr_at_mid l [] (take (length l) mem) (drop (length l) mem) 0 eq_refl Ht).
Qed.

Lemma answers_int lev args u v u1 z : gets args u v u1 → v ≠ LNil → a_type args = 0 → encode_int args v = lua_ret z → int_elem (encode H types (S lev)) args u z u1.
Proof.
intros Hg Hv Ha Hz mem Hm. cbn [encode]. rewrite (gets_length _ _ _ _ 8 Hg). cbn [lbind lua_ret]. rewrite bool_decide_eq_false_2 by done.
change (a_type (set_length 8 args)) with (a_type args). rewrite Ha. cbn [Z.eqb SPROTO_TINTEGER]. change (encode_int (set_length 8 args) v) with (encode_int args v). rewrite Hz. cbn [lbind lua_ret]. rewrite small_shift.
destruct (small z); (rewrite wr_front, bind_ok by (rewrite length_le_bytes; lia)); eexists; [|].
- pose proof (le_bytes_mod 4 z) as E. change (8 * Z.of_nat 4) with 32 in E. unfold u32. by rewrite E.
- pose proof (le_bytes_mod 8 z) as E. change (8 * Z.of_nat 8) with 64 in E. unfold u64. by rewrite E.
Qed.

Lemma answers_string lev args u v u1 s : gets args u v u1 → v ≠ LNil → a_type args = 2 → lua_tolstring v = Some s → obj_elem (encode H types (S lev)) args u (TStr s) u1.
Proof.
intros Hg Hv Ha Hs. split; [cbn [body room]; lia|]. intros mem Hsz _. cbn [encode]. rewrite (gets_length _ _ _ _ (Z.of_nat (length mem)) Hg). cbn [lbind lua_ret]. rewrite bool_decide_eq_false_2 by done.
change (a_type (set_length (Z.of_nat (length mem)) args)) with (a_type args). rewrite Ha, Hs. cbn [Z.eqb Pos.eqb SPROTO_TINTEGER SPROTO_TBOOLEAN SPROTO_TSTRING a_length set_length body room].
unfold u64. rewrite Z.mod_small by lia. destruct (Z.gtb_spec (Z.of_nat (length s)) (Z.of_nat (length mem))).
- do 3 eexists. split; [reflexivity|]. split; [done|]. left. split; [done|lia].
- rewrite wr_front, bind_ok by lia. do 3 eexists. split; [reflexivity|]. split; [rewrite length_app, length_map, length_drop; lia|]. right. rewrite i32_small by lia. split; [done|]. split; [done|by eexists].
Qed.

Lemma answers_table lev args u v u1 t i s ts u' : gets args u v u1 → v ≠ LNil → a_type args = 3 → entries_of H v = Some t → a_subtype args = Some i → 0 ≤ i → types !! Z.to_nat i = Some s →
fields_run (encode H types lev) (t_f s) (EncodeUd t None None 0) ts u' → obj_elem (encode H types (S lev)) args u (TStruct (t_maxn s) ts) u1.
Proof using Htypes.
intros Hg Hv Ha Ht Hi Hi0 Hs Hrun. pose proof (Forall_lookup_1 _ _ _ _ Htypes Hs) as [Henc _]. split; [by apply (struct_fit (encode H types lev) s (EncodeUd t None None 0) ts u')|].
intros mem Hsz Hroom. cbn [encode]. rewrite (gets_length _ _ _ _ (Z.of_nat (length mem)) Hg). cbn [lbind lua_ret]. rewrite bool_decide_eq_false_2 by done.
change (a_type (set_length (Z.of_nat (length mem)) args)) with (a_type args). change (a_subtype (set_length (Z.of_nat (length mem)) args)) with (a_subtype args).
rewrite Ha, Ht, Hi. cbn [Z.eqb Pos.eqb SPROTO_TINTEGER SPROTO_TBOOLEAN SPROTO_TSTRING SPROTO_TSTRUCT a_length set_length or_fault]. rewrite bind_ok, (rd_ok _ _ s), bind_ok by done.
destruct (sproto_encode_lemma (encode H types lev) s (EncodeUd t None None 0) ts u' mem Henc Hrun Hsz Hroom) as (n & w & mem' & -> & Hl & Ho). cbn [lbind lua_ret].
do 3 eexists. split; [reflexivity|]. split; [done|]. destruct Ho as [[-> Ho]|(-> & _ & Ho)]; [left; split; [done|done]|right]. destruct (Z.ltb_spec (Z.of_nat (length (body (TStruct (t_maxn s) ts)))) 0); [lia|done].
Qed.
(** ** Arrays *)

(** The state while the array [t] of a field is read, [k] entries of a map visited. *)
Definition reading (tbl : ltable) (f : field) (t : ltable) (k : nat) : encode_ud := EncodeUd tbl (Some (f_tag f)) (Some t) (if f_key f >=? 0 then k else 0%nat).

Lemma gets_element tbl f type t k v : (0 ≤ f_key f → map snd (t_entries t) !! k = Some v) → (f_key f < 0 → rawgeti t (Z.of_nat k + 1) = v) →
gets (set_index (Z.of_nat k + 1) (field_arg f type 0)) (reading tbl f t k) v (reading tbl f t (S k)).
Proof.
intros Hmap Hseq. unfold gets, encode_get, reading. cbn [a_index set_index a_tagid field_arg eu_array_tag eu_tbl eu_array eu_iter a_mainindex]. destruct (Z.gtb_spec (Z.of_nat k + 1) 0); [|lia].
rewrite bool_decide_eq_true_2 by done. cbn [lbind lua_ret eu_array or_fault eu_iter eu_tbl eu_array_tag]. rewrite bind_ok. destruct (Z.geb_spec (f_key f) 0) as [Hk|Hk].
- specialize (Hmap ltac:(lia)). rewrite list_lookup_fmap in Hmap. destruct (t_entries t !! k) as [[k' v']|]; [|done]. cbn in Hmap. injection Hmap as ->. done.
- by rewrite Hseq by lia.
Qed.

(** The end of the array. *)
Lemma ends_array lev tbl f type t k : (0 ≤ f_key f → t_entries t !! k = None) → (f_key f < 0 → rawgeti t (Z.of_nat k + 1) = LNil) →
ends_with (encode H types (S lev)) SPROTO_CB_NIL (set_index (Z.of_nat k + 1) (field_arg f type 0)) (reading tbl f t k) (reading tbl f t 0).
Proof.
intros Hmap Hseq n mem. cbn [encode]. unfold encode_get, reading. cbn [a_index set_index set_length a_tagid field_arg eu_array_tag eu_tbl eu_array eu_iter a_mainindex]. destruct (Z.gtb_spec (Z.of_nat k + 1) 0); [|lia].
rewrite bool_decide_eq_true_2 by done. cbn [lbind lua_ret eu_array or_fault eu_iter eu_tbl eu_array_tag]. rewrite bind_ok. destruct (Z.geb_spec (f_key f) 0) as [Hk|Hk].
- by rewrite Hmap by lia.
- by rewrite Hseq by lia.
Qed.

(** The elements in order. *)
Lemma elements_lemma {A} lev tbl f type t (elem : sproto_arg → encode_ud → A → encode_ud → Prop) (as_ : lval → A → Prop) vs : ∀ l k,
(∀ args u v u1 a, gets args u v u1 → a_type args = type → a_subtype args = f_st f → a_extra args = f_extra f → as_ v a → elem args u a u1) →
Forall2 as_ vs l →
(0 ≤ f_key f → drop k (map snd (t_entries t)) = vs) → (f_key f < 0 → (∀ j v, vs !! j = Some v → rawgeti t (Z.of_nat (k + j) + 1) = v) ∧ rawgeti t (Z.of_nat (k + length vs) + 1) = LNil) →
elements (encode H types (S lev)) elem (field_arg f type 0) (Z.of_nat k + 1) (reading tbl f t k) l (reading tbl f t 0).
Proof.
induction vs as [|v vs IH]; intros l k Helem Hl Hmap Hseq; inversion Hl as [|? a ? l' Ha Hl']; subst.
- constructor. apply ends_array.
  + intros Hk. specialize (Hmap Hk). apply lookup_ge_None. apply (f_equal length) in Hmap. rewrite length_drop, length_map in Hmap. cbn in Hmap. lia.
  + intros Hk. destruct (Hseq Hk) as [_ Hend]. cbn [length] in Hend. by rewrite Nat.add_0_r in Hend.
- apply (elements_cons _ _ _ _ _ a (reading tbl f t (S k))).
  + apply (Helem _ _ v); [|done|done|done|done]. apply gets_element.
    * intros Hk. specialize (Hmap Hk). rewrite <- (Nat.add_0_r k), <- lookup_drop, Hmap. done.
    * intros Hk. destruct (Hseq Hk) as [Hj _]. rewrite <- (Nat.add_0_r k). by apply Hj.
  + replace (Z.of_nat k + 1 + 1) with (Z.of_nat (S k) + 1) by lia. apply IH; [done|done| |].
    * intros Hk. specialize (Hmap Hk). by rewrite <- Nat.add_1_r, <- drop_drop, Hmap.
    * intros Hk. destruct (Hseq Hk) as [Hj Hend]. split; [intros j w Hw; replace (S k + j)%nat with (k + S j)%nat by lia; by apply Hj|]. cbn [length] in Hend. by replace (S k + length vs)%nat with (k + S (length vs))%nat by lia.
Qed.

Lemma seq_values_lemma t : ∀ fuel i vs, seq_values fuel i t = Some vs → (∀ j v, vs !! j = Some v → rawgeti t (i + Z.of_nat j) = v) ∧ rawgeti t (i + Z.of_nat (length vs)) = LNil.
Proof.
induction fuel as [|fuel IH]; intros i vs E; [done|]. cbn [seq_values] in E. case_bool_decide as Hn.
- injection E as <-. split; [done|]. cbn [length Z.of_nat]. by rewrite Z.add_0_r.
- destruct (seq_values fuel (i + 1) t) as [l|] eqn:El; [|done]. injection E as <-. destruct (IH _ _ El) as [Hj Hend]. split.
  + intros [|j] v Hv; [injection Hv as <-; by rewrite Z.add_0_r|]. rewrite <- (Hj j v Hv). f_equal. lia.
  + rewrite <- Hend. f_equal. cbn [length]. lia.
Qed.

(** The first element opens the array. *)
Lemma opens_array tbl f type t tag arr : tag ≠ Some (f_tag f) → rawget tbl (LStr (default [] (f_name f))) ≠ LNil → entries_of H (rawget tbl (LStr (default [] (f_name f)))) = Some t →
encode_get H (set_index 1 (field_arg f type 0)) (EncodeUd tbl tag arr 0) = encode_get H (set_index 1 (field_arg f type 0)) (reading tbl f t 0).
Proof.
intros Htag Hv Ht. unfold encode_get, reading. cbn [a_index set_index a_tagid field_arg eu_array_tag eu_tbl eu_array eu_iter a_mainindex a_tagname Z.gtb Z.compare].
rewrite (bool_decide_eq_false_2 (tag = _)) by done. rewrite (bool_decide_eq_true_2 (Some _ = Some _)) by done. rewrite (bool_decide_eq_false_2 (rawget _ _ = LNil)) by done. rewrite Ht. cbn [lbind lua_ret].
by destruct (f_key f >=? 0).
Qed.

Lemma elements_start {A} (cb : sproto_arg → encode_ud → buffer → luaR (Z * encode_ud * buffer)) (elem : sproto_arg → encode_ud → A → encode_ud → Prop) args i u u0 l u' :
(∀ n mem, cb (set_length n (set_index i args)) u mem = cb (set_length n (set_index i args)) u0 mem) →
(∀ a u1, elem (set_index i args) u0 a u1 → elem (set_index i args) u a u1) →
elements cb elem args i u0 l u' → elements cb elem args i u l u'.
Proof.
intros Hcb Helem He. inversion He as [i' u1 u2 Hend|i' u1 a u2 l' u3 Ha Hl]; subst.
- constructor. intros n mem. rewrite Hcb. apply Hend.
- econstructor; [by apply Helem|done].
Qed.
Section start.
Context (lev : nat) (tbl : ltable) (f : field) (type : Z) (t : ltable) (tag : option Z) (arr : option ltable).
Context (Htag : tag ≠ Some (f_tag f)) (Hv : rawget tbl (LStr (default [] (f_name f))) ≠ LNil) (Ht : entries_of H (rawget tbl (LStr (default [] (f_name f)))) = Some t).

Lemma same_start n mem : encode H types (S lev) (set_length n (set_index 1 (field_arg f type 0))) (EncodeUd tbl tag arr 0) mem =
encode H types (S lev) (set_length n (set_index 1 (field_arg f type 0))) (reading tbl f t 0) mem.
Proof using Htag Hv Ht.
clear Htypes. cbn [encode]. change (encode_get H (set_length n ?a) ?u) with (encode_get H a u). by rewrite (opens_array tbl f type t tag arr).
Qed.

Lemma ints_start l u' : elements (encode H types (S lev)) (int_elem (encode H types (S lev))) (field_arg f type 0) 1 (reading tbl f t 0) l u' →
elements (encode H types (S lev)) (int_elem (encode H types (S lev))) (field_arg f type 0) 1 (EncodeUd tbl tag arr 0) l u'.
Proof using Htag Hv Ht. clear Htypes. apply elements_start; [exact same_start|]. intros a u1 Ha mem Hm. rewrite same_start. by apply Ha. Qed.

Lemma bools_start l u' : elements (encode H types (S lev)) (bool_elem (encode H types (S lev))) (field_arg f type 0) 1 (reading tbl f t 0) l u' →
elements (encode H types (S lev)) (bool_elem (encode H types (S lev))) (field_arg f type 0) 1 (EncodeUd tbl tag arr 0) l u'.
Proof using Htag Hv Ht. clear Htypes. apply elements_start; [exact same_start|]. intros a u1 Ha n mem Hm. rewrite same_start. by apply Ha. Qed.

Lemma objs_start l u' : elements (encode H types (S lev)) (obj_elem (encode H types (S lev))) (field_arg f type 0) 1 (reading tbl f t 0) l u' →
elements (encode H types (S lev)) (obj_elem (encode H types (S lev))) (field_arg f type 0) 1 (EncodeUd tbl tag arr 0) l u'.
Proof using Htag Hv Ht. clear Htypes. apply elements_start; [exact same_start|]. intros a u1 [Hf Ha]. split; [done|]. intros mem Hm. rewrite same_start. by apply Ha. Qed.
End start.

(** ** Values and fields *)

Definition values_answered (lev : nat) : Prop := ∀ args u v u1 t, gets args u v u1 → view lev (a_type args) (a_subtype args) (a_extra args) v = Some t → answers_value lev args u t u1.

Definition fields_answered (lev : nat) : Prop := ∀ fs tbl ts prev tag arr, Forall valid_field fs → ascending prev fs → (∀ k, tag = Some k → k ≤ prev) →
view_fields (view lev) fs tbl = Some ts → ∃ u', fields_run (encode H types lev) fs (EncodeUd tbl tag arr 0) ts u'.

Lemma values_lemma lev : (lev ≠ 0%nat → fields_answered lev) → values_answered (S lev).
Proof using Htypes.
intros Hfields args u v u1 t Hg E. cbn [view] in E. case_bool_decide as Hn; [done|]. destruct (Z.eqb_spec (a_type args) 0) as [Ha|_]; [|destruct (Z.eqb_spec (a_type args) 1) as [Ha|_]; [|destruct (Z.eqb_spec (a_type args) 2) as [Ha|_]; [|destruct (Z.eqb_spec (a_type args) 3) as [Ha|_]; [|done]]]].
- assert (Hz : ∃ z, encode_int args v = lua_ret z ∧ t = TInt z).
  { unfold encode_int. destruct (negb (a_extra args =? 0)); [|destruct (lua_tointegerx v) as [z|]; [|done]]; cbn in E; (destruct (in64 _); [|done]); injection E as <-; by eexists. }
  destruct Hz as (z & Hz & ->). by apply (answers_int lev args u v u1 z).
- destruct v as [|b| | | | | |]; try done. injection E as <-. intros n mem Hm. cbn [encode]. rewrite (gets_length _ _ _ _ n Hg). cbn [lbind lua_ret]. rewrite bool_decide_eq_false_2 by done.
  change (a_type (set_length n args)) with (a_type args). rewrite Ha. cbn [Z.eqb Pos.eqb SPROTO_TINTEGER SPROTO_TBOOLEAN]. rewrite (wr_front (le_bytes 4 (if b then 1 else 0))), bind_ok by done. by eexists.
- destruct (lua_tolstring v) as [s|] eqn:Hs; [|done]. injection E as <-. by apply (answers_string lev args u v u1).
- destruct (entries_of H v) as [tbl|] eqn:Ht; [|done]. cbn in E. destruct (a_subtype args) as [i|] eqn:Hi; [|done]. cbn in E. destruct (Z.ltb_spec i 0); [done|]. destruct (types !! Z.to_nat i) as [s|] eqn:Hs; [|done]. cbn in E.
  destruct (Nat.eqb_spec lev 0) as [|Hl]; [done|]. destruct (view_fields (view lev) (t_f s) tbl) as [ts|] eqn:Ev; [|done]. injection E as <-.
  pose proof (Forall_lookup_1 _ _ _ _ Htypes Hs) as [(_ & Hasc & _) Hval]. destruct (Hfields Hl (t_f s) tbl ts (-1) None None Hval Hasc ltac:(done) Ev) as (u' & Hrun).
  by apply (answers_table lev args u v u1 tbl i s ts u').
Qed.

(** A field that is an array. *)
Lemma array_answers lev f tbl t vs ts tr tag arr : values_answered (S lev) → 0x80 ≤ f_type f ≤ 0x83 → tag ≠ Some (f_tag f) →
rawget tbl (LStr (default [] (f_name f))) ≠ LNil → entries_of H (rawget tbl (LStr (default [] (f_name f)))) = Some t → array_values f t = Some vs →
mapM (view (S lev) (f_type f - 0x80) (f_st f) (f_extra f)) vs = Some ts → array_tree (f_type f - 0x80) ts = Some tr →
answers (encode H types (S lev)) f (EncodeUd tbl tag arr 0) tr (reading tbl f t 0).
Proof.
intros Hval Hty Htag Hv Ht Hvs Hts Htr. set (type := f_type f - 0x80) in *. assert (Hmap : 0 ≤ f_key f → drop 0 (map snd (t_entries t)) = vs).
{ intros Hk. unfold array_values in Hvs. destruct (Z.geb_spec (f_key f) 0); [|lia]. by injection Hvs as <-. }
assert (Hseq : f_key f < 0 → (∀ j v, vs !! j = Some v → rawgeti t (Z.of_nat (0 + j) + 1) = v) ∧ rawgeti t (Z.of_nat (0 + length vs) + 1) = LNil).
{ intros Hk. unfold array_values in Hvs. destruct (Z.geb_spec (f_key f) 0); [lia|]. destruct (seq_values_lemma t _ _ _ Hvs) as [Hj Hend]. split; [intros j v Hjv; rewrite <- (Hj j v Hjv)|rewrite <- Hend]; f_equal; lia. }
apply mapM_Some in Hts. change (Z.of_nat 0 + 1) with 1 in *.
assert (Hobj : type = 2 ∨ type = 3 → elements (encode H types (S lev)) (obj_elem (encode H types (S lev))) (field_arg f type 0) 1 (reading tbl f t 0) ts (reading tbl f t 0)).
{ intros Hc. apply (elements_lemma lev tbl f type t _ (λ v a, view (S lev) type (f_st f) (f_extra f) v = Some a) vs ts 0); [|done|done|done].
  intros args u v u1 a Hg E1 E2 E3 Ha. rewrite <- E1, <- E2, <- E3 in Ha. pose proof (Hval args u v u1 a Hg Ha) as Hans. apply view_type in Ha. rewrite E1 in Ha. destruct a; cbn in Ha; try lia; done. }
unfold array_tree in Htr. assert (Hc : type = 0 ∨ type = 1 ∨ type = 2 ∨ type = 3) by (unfold type; lia). destruct Hc as [Hc|[Hc|Hc]].
- rewrite Hc in *. cbn [Z.eqb] in Htr. destruct (mapM as_int ts) as [l|] eqn:El; [|done]. injection Htr as <-. apply mapM_Some in El. apply answers_ints; [unfold type in Hc; lia|]. apply ints_start with (t := t); [done|done|done|].
  apply (elements_lemma lev tbl f 0 t _ (λ v z, view (S lev) 0 (f_st f) (f_extra f) v = Some (TInt z)) vs l 0); [| |done|done].
  + intros args u v u1 a Hg E1 E2 E3 Ha. rewrite <- E1, <- E2, <- E3 in Ha. exact (Hval args u v u1 (TInt a) Hg Ha).
  + refine (Forall2_compose _ _ _ _ _ _ _ Hts El). intros v a z Ha Hz. destruct a; try done. by injection Hz as ->.
- rewrite Hc in *. cbn [Z.eqb Pos.eqb] in Htr. destruct (mapM as_bool ts) as [l|] eqn:El; [|done]. injection Htr as <-. apply mapM_Some in El. apply answers_bools; [unfold type in Hc; lia|]. apply bools_start with (t := t); [done|done|done|].
  apply (elements_lemma lev tbl f 1 t _ (λ v z, view (S lev) 1 (f_st f) (f_extra f) v = Some (TBool z)) vs l 0); [| |done|done].
  + intros args u v u1 a Hg E1 E2 E3 Ha. rewrite <- E1, <- E2, <- E3 in Ha. exact (Hval args u v u1 (TBool a) Hg Ha).
  + refine (Forall2_compose _ _ _ _ _ _ _ Hts El). intros v a z Ha Hz. destruct a; try done. by injection Hz as ->.
- assert (Etr : tr = TObjs ts) by (destruct Hc as [-> | ->]; cbn in Htr; by injection Htr). subst tr. specialize (Hobj Hc). destruct Hc as [Hc|Hc]; rewrite Hc in Hobj.
  + apply answers_strs; [unfold type in Hc; lia|]. by apply objs_start with (t := t).
  + apply answers_structs; [unfold type in Hc; lia|]. by apply objs_start with (t := t).
Qed.
Lemma view_fields_lemma lev : values_answered (S lev) → fields_answered (S lev).
Proof using Htypes.
intros Hval fs. induction fs as [|f fs IH]; intros tbl ts prev tag arr Hvalid Hasc Htag E; cbn [view_fields ascending] in *; [injection E as <-; eexists; constructor|].
apply Forall_cons in Hvalid as [Hf Hvalid]. destruct Hasc as [Hprev Hasc]. apply bind_Some in E as (o & Eo & E). apply bind_Some in E as (ts' & Ets & E). injection E as <-.
assert (Hne : tag ≠ Some (f_tag f)) by (intros ->; specialize (Htag _ eq_refl); lia). assert (Hty : 0 ≤ f_type f ≤ 3 ∨ 0x80 ≤ f_type f ≤ 0x83).
{ unfold valid_field in Hf. apply Is_true_true, orb_true_iff in Hf. rewrite !andb_true_iff, !Z.leb_le in Hf. lia. }
assert (Hnext : ∀ tag' arr' (u1 := EncodeUd tbl tag' arr' 0), (∀ k, tag' = Some k → k ≤ f_tag f) → ∃ u', fields_run (encode H types (S lev)) fs u1 ts' u') by (intros tag' arr' u1 Hk; exact (IH tbl ts' (f_tag f) tag' arr' Hvalid Hasc Hk Ets)).
unfold view_field in Eo. case_bool_decide as Hn.
- injection Eo as <-. destruct Hty as [Hty|Hty].
  + destruct (Hnext tag arr) as (u' & Hrun); [intros k Hk; specialize (Htag k Hk); lia|]. exists u'. apply (fields_run_skip _ _ _ _ (EncodeUd tbl tag arr 0)); [|done]. left. split; [done|]. intros n mem.
    cbn [encode]. unfold encode_get. cbn [a_index set_length field_arg Z.gtb Z.compare eu_tbl a_tagname]. rewrite Hn. done.
  + destruct (Hnext (Some (f_tag f)) None) as (u' & Hrun); [intros k Hk; injection Hk as <-; lia|]. exists u'. apply (fields_run_skip _ _ _ _ (EncodeUd tbl (Some (f_tag f)) None 0)); [|done]. right. split; [done|]. intros n mem.
    cbn [encode]. unfold encode_get. cbn [a_index set_index set_length field_arg Z.gtb Z.compare eu_tbl a_tagname a_tagid eu_array_tag eu_iter]. rewrite bool_decide_eq_false_2 by done. rewrite Hn. done.
- destruct Hty as [Hty|Hty]; destruct (Z.geb_spec (f_type f) 128); try lia.
  + apply fmap_Some in Eo as (t & Et & ->).
    destruct (Hnext tag arr) as (u' & Hrun); [intros k Hk; specialize (Htag k Hk); lia|]. exists u'. apply (fields_run_some _ _ _ _ _ (EncodeUd tbl tag arr 0)); [|done].
    pose proof (Hval (field_arg f (f_type f) 0) (EncodeUd tbl tag arr 0) _ (EncodeUd tbl tag arr 0) t eq_refl Et) as Ha. apply view_type in Et. destruct t as [z|b|x| | | |m ts0]; cbn in Et; try done; rewrite Et in Ha; by constructor.
  + apply bind_Some in Eo as (t & Ht & Eo). apply bind_Some in Eo as (vs & Hvs & Eo). assert (Ee : elem_type f = f_type f - 0x80) by (unfold elem_type; destruct (Z.geb_spec (f_type f) 128); lia). rewrite Ee in Eo.
    apply bind_Some in Eo as (tsl & Htsl & Eo). apply fmap_Some in Eo as (tr & Htr & ->).
    destruct (Hnext (Some (f_tag f)) (Some t)) as (u' & Hrun); [intros k Hk; injection Hk as <-; lia|]. exists u'. apply (fields_run_some _ _ _ _ _ (reading tbl f t 0)); [by apply (array_answers lev f tbl t vs tsl)|].
    unfold reading. by destruct (f_key f >=? 0).
Qed.

Lemma answered lev : values_answered lev ∧ (lev ≠ 0%nat → fields_answered lev).
Proof using Htypes.
induction lev as [|lev [_ IH]]; [split; [intros args u v u1 t _ E; done|done]|]. assert (Hv : values_answered (S lev)) by (by apply values_lemma). split; [done|]. intros _. by apply view_fields_lemma.
Qed.

(** ** [lencode] *)

Lemma expand_buffer_lemma sz : 1 ≤ sz ≤ 2 ^ 23 → expand_buffer sz (sz * 2) = lua_ret (sz * 2).
Proof.
intros Hs. unfold expand_buffer. cbn [expand_loop]. rewrite int_chk_ok, bind_ok by (unfold INT_MIN, INT_MAX; lia). destruct (Z.ltb_spec (sz * 2) (sz * 2)); [lia|]. rewrite bind_ok.
destruct (Z.gtb_spec (sz * 2) ENCODE_MAXSIZE) as [Hgt|_]; [unfold ENCODE_MAXSIZE in Hgt; lia|done].
Qed.

(** The buffer doubles until the message fits. *)
Lemma encode_retry_lemma st t ts : type_ok st → view_fields (view ENCODE_DEEPLEVEL) (t_f st) t = Some ts →
let m := TStruct (t_maxn st) ts in room m - 4 ≤ 2 ^ 23 →
∀ fuel sz (buf : buffer), Z.of_nat (length buf) = sz → 1 ≤ sz ≤ 2 ^ 24 → tidy m = true ∨ room m - 4 ≤ sz → room m - 4 ≤ sz * 2 ^ (Z.of_nat fuel - 1) → (fuel ≠ 0)%nat →
∃ sz', encode_retry H types fuel st t buf sz = lua_ret (body m, sz') ∧ sz ≤ sz' ≤ 2 ^ 24.
Proof using Htypes.
intros [Henc Hvalid] Hview m Hneed. destruct (proj2 (answered ENCODE_DEEPLEVEL) ltac:(done) (t_f st) t ts (-1) None None Hvalid (proj1 (proj2 Henc)) ltac:(done) Hview) as (u' & Hrun).
induction fuel as [|fuel IH]; intros sz buf Hbuf Hsz Hroom Hfuel Hne; [done|]. cbn [encode_retry].
destruct (sproto_encode_lemma (encode H types ENCODE_DEEPLEVEL) st (EncodeUd t None None 0) ts u' buf Henc Hrun) as (n & v & buf' & E & Hl & Ho); [lia|by rewrite Hbuf|]. rewrite Hbuf in E, Ho. rewrite E. cbn [lbind lua_ret]. fold m in Ho.
destruct Ho as [[-> Ho]|(-> & _ & rest & ->)].
- cbn [Z.ltb Z.compare]. rewrite expand_buffer_lemma by lia. cbn [lbind lua_ret]. destruct fuel as [|fuel]; [change (2 ^ (Z.of_nat 1 - 1)) with 1 in Hfuel; lia|].
  destruct (IH (sz * 2) (replicate (Z.to_nat (sz * 2)) None)) as (sz' & E2 & Hs'); [rewrite length_replicate; lia|lia|destruct Hroom as [|]; [by left|lia]| |done|].
  + replace (Z.of_nat (S (S fuel)) - 1) with (1 + (Z.of_nat (S fuel) - 1)) in Hfuel by lia. rewrite Z.pow_add_r in Hfuel by lia. lia.
  + exists sz'. split; [exact E2|lia].
- destruct (Z.ltb_spec (Z.of_nat (length (body m))) 0); [lia|]. rewrite (init_prefix (body m)), bind_ok by done. exists sz. split; [done|lia].
Qed.

Lemma lencode_lemma i v st t ts (buf : buffer) sz : entries_of H v = Some t → 0 ≤ i → types !! Z.to_nat i = Some st → view_fields (view ENCODE_DEEPLEVEL) (t_f st) t = Some ts →
let m := TStruct (t_maxn st) ts in room m - 4 ≤ 2 ^ 23 → Z.of_nat (length buf) = sz → 1 ≤ sz ≤ 2 ^ 24 → tidy m = true ∨ room m - 4 ≤ sz →
∃ sz', lencode H types (Some i) v buf sz = lua_ret (body m, sz') ∧ sz ≤ sz' ≤ 2 ^ 24.
Proof using Htypes.
intros Ht Hi Hst Hview m Hneed Hbuf Hsz Hroom. unfold lencode. rewrite Ht, (rd_ok _ _ st), bind_ok by done. apply encode_retry_lemma; [exact (Forall_lookup_1 _ _ _ _ Htypes Hst)|done|done|done|done|done| |done].
fold m. change (Z.of_nat 32 - 1) with 31. lia.
Qed.
End view.
