(* ===== verification/SprotoDecode.v ===== *)
(** [sproto_decode] reads back the encoding of a message: [rebuild] is the Lua value the callback
    [decode] of [lsproto.c] builds, with the schema of the reader. *)

From S2P Require Import Prelude CString Seri SeriProps Frames Gate GateProps Crypt CryptDes CryptDh CryptText Words Sproto SprotoCodec SprotoLua SprotoProps SprotoSchema SprotoEncode SprotoView.
Open Scope Z_scope.

(** ** Reading words *)

Lemma split_at (data l : list Z) i : 0 ≤ i → drop (Z.to_nat i) data = l → l ≠ [] → ∃ pre, data = pre ++ l ∧ i = Z.of_nat (length pre).
Proof.
  intros Hi Hd Hl. exists (take (Z.to_nat i) data). split; [by rewrite <- Hd, take_drop|]. rewrite length_take. apply (f_equal length) in Hd. rewrite length_drop in Hd. destruct l; [done|]. cbn in Hd. lia.
Qed.

Lemma todword_at (data : list Z) i n rest : 0 ≤ i → drop (Z.to_nat i) data = word_bytes n ++ rest → todword data i = Ok (u32 n).
Proof.
  intros Hi Hd. destruct (split_at data _ i Hi Hd) as (pre & -> & ->); [done|]. rewrite <- word_bytes_u32. apply word_at; [done|apply u32_range].
Qed.

Lemma toword_at (data : list Z) i w rest : 0 ≤ i → 0 ≤ w < 2 ^ 16 → drop (Z.to_nat i) data = half w ++ rest → toword data i = Ok w.
Proof.
  intros Hi Hw Hd. destruct (split_at data _ i Hi Hd) as (pre & -> & ->); [done|]. unfold toword, half. cbn [app]. rewrite rd_app_0, bind_ok, rd_app_1, bind_ok. f_equal.
  rewrite !land_255, Z.shiftr_div_pow2 by lia. rewrite lor_shiftl by (lia || (pose proof (Z.mod_pos_bound w (2 ^ 8) ltac:(lia)); lia)). rewrite (Z.mod_small (w / 2 ^ 8)) by (split; [apply Z.div_pos; lia|apply Z.div_lt_upper_bound; lia]).
  pose proof (Z.div_mod w (2 ^ 8) ltac:(lia)). lia.
Qed.

Lemma rd_at_drop (data : list Z) i (x : Z) rest : 0 ≤ i → drop (Z.to_nat i) data = x :: rest → rd data i = Ok x.
Proof. intros Hi Hd. destruct (split_at data _ i Hi Hd) as (pre & -> & ->); [done|]. apply rd_app_0. Qed.

Lemma drop_more (data a b : list Z) i : 0 ≤ i → drop (Z.to_nat i) data = a ++ b → drop (Z.to_nat (i + Z.of_nat (length a))) data = b.
Proof. intros Hi Hd. replace (Z.to_nat (i + Z.of_nat (length a))) with (Z.to_nat i + length a)%nat by lia. by rewrite <- drop_drop, Hd, drop_app_length. Qed.

Lemma expand64_small v : small v = true → expand64 (u32 v) = u64 v.
Proof.
  intros Hs. unfold expand64. rewrite small_sign by done. unfold small in Hs. rewrite andb_true_iff, Z.leb_le, Z.ltb_lt in Hs. destruct (Z.ltb_spec v 0).
  - change (u64 (Z.shiftl (2 ^ 64 - 1) 32)) with (Z.shiftl (2 ^ 32 - 1) 32). rewrite lor_shiftl by (lia || apply u32_range). unfold u32, u64. rewrite <- (Z.mod_add v 1 (2 ^ 32)), <- (Z.mod_add v 1 (2 ^ 64)) by lia. rewrite !Z.mod_small by lia. lia.
  - unfold u32, u64. by rewrite !Z.mod_small by lia.
Qed.

Lemma two_words v : Z.lor (u32 v) (Z.shiftl (u32 (Z.shiftr v 32)) 32) = u64 v.
Proof.
  rewrite lor_shiftl by (lia || apply u32_range). rewrite Z.shiftr_div_pow2 by lia. unfold u32, u64. change (2 ^ 64) with (2 ^ 32 * 2 ^ 32). rewrite Z.rem_mul_r by lia. lia.
Qed.

Lemma i64_u64 v : in64 v = true → i64 (u64 v) = v.
Proof.
  unfold in64. rewrite andb_true_iff, Z.leb_le, Z.ltb_lt. intros Hv. unfold i64, u64. rewrite Z.add_mod_idemp_l by lia. rewrite Z.mod_small by lia. lia.
Qed.

Lemma drop_widths wide l rest j v data i : 0 ≤ i → drop (Z.to_nat i) data = widths wide l ++ rest → l !! j = Some v →
  ∃ rest', drop (Z.to_nat (i + Z.of_nat j * (if wide then 8 else 4))) data = int_bytes wide v ++ rest'.
Proof.
  intros Hi Hd Hj. rewrite <- (take_drop_middle l j v Hj) in Hd. rewrite widths_app in Hd. unfold widths at 2 in Hd. cbn [map concat] in Hd. rewrite <- !app_assoc in Hd.
  assert (Hlj : (j < length l)%nat) by (by eapply lookup_lt_Some). assert (El : Z.of_nat (length (widths wide (take j l))) = Z.of_nat j * (if wide then 8 else 4)) by (rewrite widths_length, length_take; destruct wide; lia).
  rewrite <- El. rewrite (drop_more data _ _ i Hi Hd). by eexists.
Qed.

Lemma read_int32_at data i l rest j v : 0 ≤ i → drop (Z.to_nat i) data = widths false l ++ rest → forallb small l = true → l !! j = Some v → read_int32 data i (Z.of_nat j) = Ok (u64 v).
Proof.
  intros Hi Hd Hs Hj. destruct (drop_widths false l rest j v data i Hi Hd Hj) as (rest' & E). unfold read_int32. rewrite (todword_at data _ v rest') by (lia || exact E). rewrite bind_ok. f_equal. apply expand64_small.
  rewrite forallb_forall in Hs. apply Hs. apply list_elem_of_In. by eapply list_elem_of_lookup_2.
Qed.

Lemma read_int64_at data i l rest j v : 0 ≤ i → drop (Z.to_nat i) data = widths true l ++ rest → l !! j = Some v → read_int64 data i (Z.of_nat j) = Ok (u64 v).
Proof.
  intros Hi Hd Hj. destruct (drop_widths true l rest j v data i Hi Hd Hj) as (rest' & E). cbn [int_bytes] in E. unfold qword_bytes in E. rewrite <- app_assoc in E. set (k := i + Z.of_nat j * 8) in *. assert (Hk : 0 ≤ k) by lia.
  unfold read_int64. fold k. rewrite (todword_at data k v _ Hk E), bind_ok. pose proof (drop_more data _ _ k Hk E) as E2. rewrite word_bytes_length in E2. change (Z.of_nat 4) with 4 in E2.
  rewrite (todword_at data (k + 4) _ _ ltac:(lia) E2), bind_ok. f_equal. apply two_words.
Qed.

(** ** The callback *)

Section read.
Context {U : Type} (cb : sproto_arg → U → dvalue → luaR (Z * U)).

Definition int_read (args : sproto_arg) (u : U) (v : Z) (u' : U) : Prop := ∃ r, cb (set_length 8 args) u (DWord (u64 v)) = lua_ret (r, u').

Definition bool_read (args : sproto_arg) (u : U) (b : bool) (u' : U) : Prop := ∃ r, cb (set_length 8 args) u (DWord (bit b)) = lua_ret (r, u').

(** A string or a struct is read from its bytes; what follows them is of no effect. *)
Definition obj_read (args : sproto_arg) (u : U) (t : tree) (u' : U) : Prop :=
∀ rest, Z.of_nat (length (body t)) < 2 ^ 31 → cb (set_length (Z.of_nat (length (body t))) args) u (DBytes (body t ++ rest)) = lua_ret (0, u').

Definition empty_read (args : sproto_arg) (u u' : U) : Prop := ∃ r, cb (set_length 0 (set_index (-1) args)) u DNull = lua_ret (r, u').

(** The elements of an array, from number [i] on. *)
Inductive each {A} (elem : sproto_arg → U → A → U → Prop) (args : sproto_arg) : Z → U → list A → U → Prop :=
| each_nil i u : each elem args i u [] u
| each_cons i u x u1 l u' : elem (set_index i args) u x u1 → each elem args (i + 1) u1 l u' → each elem args i u (x :: l) u'.

Definition array_read {A} (elem : sproto_arg → U → A → U → Prop) (args : sproto_arg) (u : U) (l : list A) (u' : U) : Prop :=
match l with [] => empty_read args u u' | _ => each elem args 1 u l u' end.

(** The value of a field. *)
Definition field_read (f : field) (u : U) (t : tree) (u' : U) : Prop :=
match t with
| TInt v => f_type f = 0 ∧ int_read (field_arg f 0 0) u v u'
| TBool b => f_type f = 1 ∧ bool_read (field_arg f 1 0) u b u'
| TStr _ => f_type f = 2 ∧ obj_read (field_arg f 2 0) u t u'
| TStruct _ _ => f_type f = 3 ∧ obj_read (field_arg f 3 0) u t u'
| TInts l => f_type f = 0x80 ∧ array_read int_read (field_arg f 0 0) u l u'
| TBools l => f_type f = 0x81 ∧ array_read bool_read (field_arg f 1 0) u l u'
| TObjs l => (f_type f = 0x82 ∨ f_type f = 0x83) ∧ array_read obj_read (field_arg f (f_type f - 0x80) 0) u l u'
end.

(** ** Arrays *)

Lemma decode_values_lemma {A} (elem : sproto_arg → U → A → U → Prop) (word : A → Z) read args (all : list A) :
(∀ args u x u', elem args u x u' → ∃ r, cb (set_length 8 args) u (DWord (word x)) = lua_ret (r, u')) →
(∀ j x, all !! j = Some x → read (Z.of_nat j) = Ok (word x)) →
∀ l u u' k fuel, drop k all = l → each elem args (Z.of_nat k + 1) u l u' → (length l < fuel)%nat →
decode_values cb fuel read args (Z.of_nat (length all)) (Z.of_nat k) u = lua_ret (0, u').
Proof.
intros Hcb Hread. induction l as [|x l IH]; intros u u' k fuel Hk Hl Hf; (destruct fuel as [|fuel]; [cbn in Hf; lia|]); cbn [decode_values].
- inversion Hl; subst. apply (f_equal length) in Hk. rewrite length_drop in Hk. cbn in Hk. by destruct (Z.ltb_spec (Z.of_nat k) (Z.of_nat (length all))); [lia|].
- inversion Hl as [|? ? ? u1 ? ? Hx Hr]; subst. assert (Hx' : all !! k = Some x) by (rewrite <- (Nat.add_0_r k), <- lookup_drop, Hk; done). pose proof (lookup_lt_Some _ _ _ Hx') as Hlt.
  destruct (Z.ltb_spec (Z.of_nat k) (Z.of_nat (length all))); [|lia]. cbn [negb]. rewrite (Hread k x Hx'), bind_ok. destruct (Hcb _ _ _ _ Hx) as (r & ->). cbn [lbind lua_ret].
  replace (Z.of_nat k + 1) with (Z.of_nat (S k)) in * by lia. apply IH; [|done|cbn in Hf; lia]. rewrite <- Nat.add_1_r, <- drop_drop, Hk. done.
Qed.

Lemma object_loop_read args data l : ∀ u u' i stream rest fuel, 0 ≤ stream → drop (Z.to_nat stream) data = obj_bytes l ++ rest → Z.of_nat (length (obj_bytes l)) < 2 ^ 31 →
each obj_read args i u l u' → (length l < fuel)%nat → decode_object_loop cb data fuel args stream (Z.of_nat (length (obj_bytes l))) i u = lua_ret (0, u').
Proof.
induction l as [|t l IH]; intros u u' i stream rest fuel Hst Hd Hlen Hl Hf; (destruct fuel as [|fuel]; [cbn in Hf; lia|]); cbn [decode_object_loop]; inversion Hl as [|? ? ? u1 ? ? Ht Hr]; subst; [done|].
change (obj_bytes (t :: l)) with (sized (body t) ++ obj_bytes l) in *. rewrite length_app, sized_length in Hlen. rewrite length_app, sized_length. set (b := body t) in *.
destruct (Z.gtb_spec (Z.of_nat (4 + length b + length (obj_bytes l))) 0); [|lia]. cbn [negb]. unfold SIZEOF_LENGTH. destruct (Z.ltb_spec (Z.of_nat (4 + length b + length (obj_bytes l))) 4); [lia|].
unfold sized in Hd. rewrite <- !app_assoc in Hd. rewrite (todword_at data stream _ _ Hst Hd), bind_ok. pose proof (drop_more data _ _ stream Hst Hd) as Hd2. rewrite word_bytes_length in Hd2. change (Z.of_nat 4) with 4 in Hd2.
assert (Eb : u32 (Z.of_nat (length b)) = Z.of_nat (length b)) by (unfold u32; apply Z.mod_small; lia). rewrite Eb.
replace (Z.of_nat (4 + length b + length (obj_bytes l)) - 4) with (Z.of_nat (length b + length (obj_bytes l))) by lia. unfold u32. rewrite Z.mod_small by lia. destruct (Z.gtb_spec (Z.of_nat (length b)) (Z.of_nat (length b + length (obj_bytes l)))); [lia|].
rewrite i32_small, Hd2 by lia. unfold b. rewrite Ht by (fold b; lia). cbn [lbind lua_ret Z.eqb negb]. fold b. pose proof (drop_more data _ _ (stream + 4) ltac:(lia) Hd2) as Hd3.
replace (Z.of_nat (length b + length (obj_bytes l)) - Z.of_nat (length b)) with (Z.of_nat (length (obj_bytes l))) by lia. eapply IH; [lia|exact Hd3|lia|exact Hr|cbn in Hf; lia].
Qed.
Lemma drop_length_le (data l : list Z) i : drop (Z.to_nat i) data = l → (length l ≤ length data)%nat.
Proof. intros <-. rewrite length_drop. lia. Qed.

(** Where [stream] points to the length of [b], [b] and more. *)
Definition sized_at (data : list Z) (stream : Z) (b : list Z) : Prop := 0 ≤ stream ∧ Z.of_nat (length b) < 2 ^ 31 ∧ ∃ rest, drop (Z.to_nat stream) data = sized b ++ rest.

Lemma sized_at_word data stream b : sized_at data stream b → todword data stream = Ok (Z.of_nat (length b)) ∧ 0 ≤ stream + SIZEOF_LENGTH ∧ ∃ rest, drop (Z.to_nat (stream + SIZEOF_LENGTH)) data = b ++ rest.
Proof.
intros (Hst & Hlen & rest & Hd). unfold sized in Hd. rewrite <- app_assoc in Hd. rewrite (todword_at data stream _ _ Hst Hd). pose proof (drop_more data _ _ stream Hst Hd) as Hd2. rewrite word_bytes_length in Hd2.
split; [f_equal; unfold u32; apply Z.mod_small; lia|]. unfold SIZEOF_LENGTH. split; [lia|]. by exists rest.
Qed.

Lemma bit_at data i l rest j b : 0 ≤ i → drop (Z.to_nat i) data = map bit l ++ rest → l !! j = Some b → rd data (i + Z.of_nat j) = Ok (bit b).
Proof.
intros Hi Hd Hj. assert (Hb : map bit l !! j = Some (bit b)) by (rewrite list_lookup_fmap, Hj; done). apply rd_ok; [lia|]. replace (Z.to_nat (i + Z.of_nat j)) with (Z.to_nat i + j)%nat by lia.
rewrite <- lookup_drop, Hd. by apply lookup_app_l_Some.
Qed.

Lemma ints_body a l : body (TInts (a :: l)) = width (wide_of (a :: l)) :: widths (wide_of (a :: l)) (a :: l).
Proof. unfold widths, wide_of, width. cbn [body]. by destruct (forallb small (a :: l)). Qed.

Lemma decode_ints_lemma args data stream u l u' : a_type args = 0 → sized_at data stream (body (TInts l)) → array_read int_read args u l u' → decode_array cb data args stream u = lua_ret (0, u').
Proof.
intros Ha Hs Hl. apply sized_at_word in Hs as (Hw & Hst & rest & Hd). unfold decode_array. rewrite Hw, bind_ok. destruct l as [|a l]; [destruct Hl as (r & Hl); cbn [body length Z.of_nat Z.eqb]; by rewrite Hl|].
rewrite ints_body in *. set (w := wide_of (a :: l)) in *. set (all := a :: l) in *. set (st := stream + SIZEOF_LENGTH) in *. cbn [length]. rewrite widths_length.
destruct (Z.eqb_spec (Z.of_nat (S ((if w then 8 else 4) * length all))) 0); [lia|]. cbv zeta. fold st. rewrite Ha. cbn [Z.eqb SPROTO_TINTEGER]. cbn [app] in Hd. rewrite (rd_at_drop data st _ _ Hst Hd), bind_ok.
pose proof (drop_more data [width w] _ st Hst Hd) as Hd2. cbn [length] in Hd2. change (Z.of_nat 1) with 1 in Hd2. assert (Hn : (length all < S (length data))%nat).
{ pose proof (drop_length_le _ _ _ Hd2) as Hle. rewrite length_app, widths_length in Hle. destruct w; lia. }
change (array_read int_read args u all u') with (each int_read args 1 u all u') in Hl. change 1 with (Z.of_nat 0 + 1) in Hl.
replace (Z.of_nat (S ((if w then 8 else 4) * length all)) - 1) with (Z.of_nat (length all) * (if w then 8 else 4)) by (destruct w; lia). destruct w eqn:Ew; cbn [width Z.eqb Pos.eqb].
- rewrite Z_mod_mult. cbn [negb Z.eqb]. rewrite Z.div_mul by lia. change 0 with (Z.of_nat 0) at 1. apply (decode_values_lemma int_read u64 _ args all) with (l := all); [by intros|intros j x Hj; exact (read_int64_at data (st + 1) all rest j x ltac:(lia) Hd2 Hj)|done|done|done].
- rewrite Z_mod_mult. cbn [negb Z.eqb]. rewrite Z.div_mul by lia. change 0 with (Z.of_nat 0) at 1. apply (decode_values_lemma int_read u64 _ args all) with (l := all); [by intros| |done|done|done].
  intros j x Hj. apply (read_int32_at data (st + 1) all rest j x); [lia|done| |done]. by apply negb_false_iff.
Qed.

Lemma decode_bools_lemma args data stream u l u' : a_type args = 1 → sized_at data stream (body (TBools l)) → array_read bool_read args u l u' → decode_array cb data args stream u = lua_ret (0, u').
Proof.
intros Ha Hs Hl. apply sized_at_word in Hs as (Hw & Hst & rest & Hd). unfold decode_array. rewrite Hw, bind_ok. cbn [body] in *. rewrite length_map in *. destruct l as [|a l]; [destruct Hl as (r & Hl); cbn [length Z.of_nat Z.eqb]; by rewrite Hl|].
set (all := a :: l) in *. destruct (Z.eqb_spec (Z.of_nat (length all)) 0); [cbn in *; lia|]. cbv zeta. rewrite Ha. cbn [Z.eqb Pos.eqb SPROTO_TINTEGER SPROTO_TBOOLEAN].
change (array_read bool_read args u all u') with (each bool_read args (Z.of_nat 0 + 1) u all u') in Hl. change 0 with (Z.of_nat 0) at 1. apply (decode_values_lemma bool_read bit _ args all) with (l := all); [by intros| |done|done|].
- intros j x Hj. exact (bit_at data _ all rest j x Hst Hd Hj).
- pose proof (drop_length_le _ _ _ Hd) as Hle. rewrite length_app, length_map in Hle. lia.
Qed.

Lemma obj_bytes_count l : (4 * length l ≤ length (obj_bytes l))%nat.
Proof. induction l as [|t l IH]; [done|]. change (obj_bytes (t :: l)) with (sized (body t) ++ obj_bytes l). rewrite length_app, sized_length. cbn [length]. lia. Qed.

Lemma decode_objs_lemma args data stream u l u' : a_type args = 2 ∨ a_type args = 3 → sized_at data stream (obj_bytes l) → array_read obj_read args u l u' → decode_array cb data args stream u = lua_ret (0, u').
Proof.
intros Ha Hs Hl. pose proof Hs as (_ & Hlen & _). apply sized_at_word in Hs as (Hw & Hst & rest & Hd). unfold decode_array. rewrite Hw, bind_ok. destruct l as [|t l]; [destruct Hl as (r & Hl); cbn [obj_bytes map concat length Z.of_nat Z.eqb]; by rewrite Hl|].
set (all := t :: l) in *. pose proof (obj_bytes_count all) as Hc. assert (Hp : (0 < length all)%nat) by (cbn; lia). destruct (Z.eqb_spec (Z.of_nat (length (obj_bytes all))) 0); [lia|]. cbv zeta.
assert (E : ∀ (x y z w : luaR (Z * U)), (if a_type args =? SPROTO_TINTEGER then x else if a_type args =? SPROTO_TBOOLEAN then y else if (a_type args =? SPROTO_TSTRING) || (a_type args =? SPROTO_TSTRUCT) then z else w) = z) by (intros; by destruct Ha as [-> | ->]).
rewrite E. unfold decode_array_object. rewrite i32_small by lia. apply (object_loop_read args data all u u' 1 _ rest); [done|done|done|exact Hl|].
pose proof (drop_length_le _ _ _ Hd) as Hle. rewrite length_app in Hle. lia.
Qed.

(** ** Fields *)

Lemma decode_object_field args data stream u t u' : sized_at data stream (body t) → obj_read args u t u' →
(sz ← todword data stream; cb (set_length (i32 sz) args) u (DBytes (drop (Z.to_nat (stream + SIZEOF_LENGTH)) data))) = lua_ret (0, u').
Proof.
intros Hs Ht. pose proof Hs as (_ & Hlen & _). apply sized_at_word in Hs as (Hw & _ & rest & Hd). rewrite Hw, bind_ok, i32_small, Hd by lia. by apply Ht.
Qed.

Lemma decode_data_lemma f data stream u t u' : inline t = None → sized_at data stream (body t) → field_read f u t u' → decode_data cb data f stream u = lua_ret (0, u').
Proof.
intros Hi Hs Hf. unfold decode_data. destruct t as [v|b|s|l|l|l|m fs]; cbn [field_read] in Hf.
- destruct Hf as [Ety Hv]. rewrite Ety. change (Z.land 0 SPROTO_TARRAY) with 0. cbn [Z.eqb negb SPROTO_TINTEGER]. apply sized_at_word in Hs as (Hw & Hst & rest & Hd). rewrite Hw, bind_ok. cbn [body] in *. rewrite int_bytes_length.
  change (Z.land 0 (Z.lnot SPROTO_TARRAY)) with 0. destruct Hv as (r & Hv). destruct (small v) eqn:Es; cbn [negb].
  + cbn [int_bytes negb] in Hd. cbn [Z.of_nat Z.eqb Pos.eqb Pos.of_succ_nat Pos.succ]. rewrite (todword_at data _ v rest Hst Hd), bind_ok, expand64_small by done. by rewrite Hv.
  + cbn [int_bytes negb] in Hd. cbn [Z.of_nat Z.eqb Pos.eqb Pos.of_succ_nat Pos.succ negb]. assert (E : read_int64 data (stream + SIZEOF_LENGTH) 0 = Ok (u64 v)) by (apply (read_int64_at data (stream + SIZEOF_LENGTH) [v] rest 0 v Hst); [unfold widths; cbn [map concat int_bytes]; rewrite app_nil_r; exact Hd|done]). rewrite E, bind_ok. by rewrite Hv.
- done.
- destruct Hf as [Ety Hv]. rewrite Ety. exact (decode_object_field _ data stream u _ u' Hs Hv).
- destruct Hf as [Ety Hv]. rewrite Ety. exact (decode_ints_lemma (field_arg f 0 0) data stream u l u' eq_refl Hs Hv).
- destruct Hf as [Ety Hv]. rewrite Ety. exact (decode_bools_lemma (field_arg f 1 0) data stream u l u' eq_refl Hs Hv).
- destruct Hf as [[Ety|Ety] Hv]; rewrite Ety in *; (eapply decode_objs_lemma; [|exact Hs|exact Hv]); [by left|by right].
- destruct Hf as [Ety Hv]. rewrite Ety. exact (decode_object_field _ data stream u _ u' Hs Hv).
Qed.

Lemma decode_inline_lemma f u t u' v : inline t = Some v → field_read f u t u' → decode_inline cb f v u = lua_ret (0, u').
Proof.
intros Hi Hf. unfold decode_inline. destruct t as [z|b|s|l|l|l|m fs]; try done; cbn [field_read inline] in *.
- destruct Hf as [Ety (r & Hv)]. rewrite Ety. change (Z.land 0 (Z.lnot SPROTO_TARRAY)) with 0. cbn [Z.eqb negb andb SPROTO_TINTEGER]. destruct (Z.leb_spec 0 z); [|done]. cbn [andb] in Hi. destruct (Z.ltb_spec z 32767); [|done]. injection Hi as <-.
  unfold u64 in Hv. rewrite Z.mod_small in Hv by lia. by rewrite Hv.
- destruct Hf as [Ety (r & Hv)]. rewrite Ety. change (Z.land 1 (Z.lnot SPROTO_TARRAY)) with 1. injection Hi as <-. cbn [Z.eqb Pos.eqb negb andb SPROTO_TINTEGER SPROTO_TBOOLEAN]. by rewrite Hv.
Qed.
(** ** Structs *)

(** The fields the reader knows are read, the others are skipped. *)
Inductive fields_read (st : stype) : list (Z * tree) → U → U → Prop :=
| fields_read_nil u : fields_read st [] u u
| fields_read_some tag t ts f u u1 u' : find_field (t_f st) tag = Some f → field_read f u t u1 → fields_read st ts u1 u' → fields_read st ((tag, t) :: ts) u u'
| fields_read_none tag t ts u u' : find_field (t_f st) tag = None → fields_read st ts u u' → fields_read st ((tag, t) :: ts) u u'.

Fixpoint tags_up (prev : Z) (ts : list (Z * tree)) : Prop :=
match ts with [] => True | (tag, _) :: ts => prev < tag ≤ 32767 ∧ tags_up tag ts end.

Lemma inline_range t v : inline t = Some v → 0 ≤ v < 0x7fff.
Proof.
destruct t as [z|b| | | | |]; try done; cbn [inline]; intros E; [|injection E as <-; by destruct b]. destruct (Z.leb_spec 0 z), (Z.ltb_spec z 32767); cbn [andb] in E; try done. by injection E as <-.
Qed.

(** One word that skips tags. *)
Lemma decode_gap data st n total record datastream size last tag u rest : 0 ≤ record → last < tag - 1 → tag ≤ 32767 → -1 ≤ last →
drop (Z.to_nat record) data = half ((tag - last - 2) * 2 + 1) ++ rest →
decode_fields cb data st (S n) total record datastream size last u = decode_fields cb data st n total (record + 2) datastream size (tag - 1) u.
Proof.
intros Hr Hlt Htag Hlast Hd. cbn [decode_fields]. rewrite (toword_at data record ((tag - last - 2) * 2 + 1) _ Hr ltac:(lia) Hd), bind_ok. assert (E1 : Z.land ((tag - last - 2) * 2 + 1) 1 = 1).
{ change 1 with (Z.ones 1) at 2. rewrite Z.land_ones by lia. change (2 ^ 1) with 2. rewrite Z.add_comm, Z.mod_add by lia. done. }
rewrite E1. cbn [Z.eqb negb]. unfold SIZEOF_FIELD. f_equal. rewrite Z.add_comm with (n := (tag - last - 2) * 2), Z.div_add by lia. change (1 / 2) with 0. lia.
Qed.

(** The word of a field, and its data. *)
Lemma decode_record data st n total record datastream size tag t ts u u' rest1 rest2 : readable st → 0 ≤ record → 0 ≤ datastream →
let d := record_data (tag, (inline t, body t)) in Z.of_nat (length d) ≤ size < 2 ^ 31 → drop (Z.to_nat datastream) data = d ++ rest2 →
drop (Z.to_nat record) data = half (record_value (inline t)) ++ rest1 → fields_read st ((tag, t) :: ts) u u' →
∃ u1, fields_read st ts u1 u' ∧ decode_fields cb data st (S n) total record datastream size (tag - 1) u =
  decode_fields cb data st n total (record + 2) (datastream + Z.of_nat (length d)) (size - Z.of_nat (length d)) tag u1.
Proof.
intros Hst Hr Hds d Hsize Hdata Hrec Hrun. cbn [decode_fields]. assert (Hw : 0 ≤ record_value (inline t) < 2 ^ 16) by (unfold record_value; destruct (inline t) as [v|] eqn:Ev; [apply inline_range in Ev; lia|lia]).
rewrite (toword_at data record _ _ Hr Hw Hrec), bind_ok. replace (tag - 1 + 1) with tag by lia. unfold SIZEOF_FIELD.
assert (E1 : Z.land (record_value (inline t)) 1 = 0 ∧ record_value (inline t) / 2 - 1 = match inline t with Some v => v | None => -1 end).
{ unfold record_value. destruct (inline t) as [v|]; [|done]. split; [change 1 with (Z.ones 1) at 2; rewrite Z.land_ones by lia; apply Z_mod_mult|rewrite Z.div_mul by lia; lia]. }
destruct E1 as [-> ->]. cbn [Z.eqb negb]. unfold record_data in d. cbn [snd fst] in d. rewrite findtag_lemma by done. destruct (inline t) as [v|] eqn:Ev.
- pose proof (inline_range _ _ Ev). destruct (Z.ltb_spec v 0); [lia|]. rewrite bind_ok. subst d. cbn [length Z.of_nat]. rewrite Z.add_0_r, Z.sub_0_r.
  inversion Hrun as [|? ? ? f ? u1 ? Hf Hread Hts|? ? ? ? ? Hf Hts]; subst; rewrite Hf; [|by exists u]. exists u1. split; [done|]. by rewrite (decode_inline_lemma f u t u1 v Ev Hread).
- cbn [Z.ltb Z.compare]. unfold d in *. rewrite sized_length in *. unfold SIZEOF_LENGTH. destruct (Z.ltb_spec size 4); [lia|].
  assert (Hs : sized_at data datastream (body t)) by (split; [done|split; [lia|by exists rest2]]). destruct (sized_at_word _ _ _ Hs) as (-> & _). rewrite bind_ok.
  assert (Eu : u32 (Z.of_nat (length (body t)) + 4) = Z.of_nat (4 + length (body t))) by (unfold u32; rewrite Z.mod_small by lia; lia). rewrite Eu. unfold u32. rewrite Z.mod_small by lia. destruct (Z.ltb_spec size (Z.of_nat (4 + length (body t)))); [lia|]. rewrite bind_ok.
  inversion Hrun as [|? ? ? f ? u1 ? Hf Hread Hts|? ? ? ? ? Hf Hts]; subst; rewrite Hf; [|by exists u]. exists u1. split; [done|]. by rewrite (decode_data_lemma f data datastream u t u1 Ev Hs Hread).
Qed.
Lemma decode_fields_lemma data st total ts : readable st → ∀ last record datastream u u' rest1 rest2,
-1 ≤ last → tags_up last ts → 0 ≤ record → 0 ≤ datastream → let D := concat (map record_data (records ts)) in Z.of_nat (length D) < 2 ^ 31 →
drop (Z.to_nat record) data = halves (record_words last (records ts)) ++ rest1 → drop (Z.to_nat datastream) data = D ++ rest2 → fields_read st ts u u' →
decode_fields cb data st (length (record_words last (records ts))) total record datastream (Z.of_nat (length D)) last u = lua_ret (total, u').
Proof.
intros Hst. induction ts as [|[tag t] ts IH]; intros last record datastream u u' rest1 rest2 Hlast Htags Hr Hds D HD Hrec Hdata Hrun.
{ inversion Hrun; subst. cbn. by rewrite Z.sub_0_r. }
destruct Htags as [Htag Htags]. unfold records in *. cbn [map] in *. fold (records ts) in *. rewrite record_words_cons in *. cbn [concat] in D. set (d := record_data (tag, (inline t, body t))) in *. set (ws := record_words tag (records ts)) in *.
assert (Hstep : ∀ record, 0 ≤ record → drop (Z.to_nat record) data = half (record_value (inline t)) ++ halves ws ++ rest1 →
  decode_fields cb data st (S (length ws)) total record datastream (Z.of_nat (length D)) (tag - 1) u = lua_ret (total, u')).
{ intros rc Hrc Hd. assert (Hdata' : drop (Z.to_nat datastream) data = d ++ concat (map record_data (records ts)) ++ rest2) by (rewrite Hdata; unfold D; by rewrite <- app_assoc).
  unfold D in HD. rewrite length_app in HD. destruct (decode_record data st (length ws) total rc datastream (Z.of_nat (length D)) tag t ts u u' _ _ Hst Hrc Hds ltac:(fold d; unfold D; rewrite length_app; lia) Hdata' Hd Hrun) as (u1 & Hread & ->). fold d.
  replace (Z.of_nat (length D) - Z.of_nat (length d)) with (Z.of_nat (length (concat (map record_data (records ts))))) by (unfold D; rewrite length_app; lia).
  apply (IH tag _ _ u1 u' rest1 rest2); [lia|done|lia|lia|lia| | |done].
  - exact (drop_more data _ _ rc Hrc Hd).
  - exact (drop_more data _ _ datastream Hds Hdata'). }
rewrite !halves_app, <- !app_assoc in Hrec. change (halves [record_value (inline t)]) with (half (record_value (inline t)) ++ []) in Hrec. rewrite app_nil_r in Hrec.
rewrite !length_app, gap_words_length. unfold gap_words in Hrec. destruct (Z.gtb_spec (tag - last - 1) 0) as [Hgap|Hgap]; cbn [length Nat.add].
- change (halves [(tag - last - 1 - 1) * 2 + 1]) with (half ((tag - last - 1 - 1) * 2 + 1) ++ []) in Hrec. rewrite app_nil_r in Hrec. replace (tag - last - 1 - 1) with (tag - last - 2) in Hrec by lia.
  rewrite (decode_gap data st (S (length ws)) total record datastream (Z.of_nat (length D)) last tag u _ Hr ltac:(lia) ltac:(lia) Hlast Hrec). apply Hstep; [lia|]. exact (drop_more data _ _ record Hr Hrec).
- cbn [halves map concat app] in Hrec. replace last with (tag - 1) by lia. by apply Hstep.
Qed.

Lemma records_count ts : ∀ last, -1 ≤ last ≤ 32767 → tags_up last ts → Z.of_nat (length (record_words last (records ts))) ≤ 32767 - last.
Proof.
induction ts as [|[tag t] ts IH]; intros last Hlast Htags; [cbn; lia|]. destruct Htags as [Htag Htags]. unfold records. cbn [map]. fold (records ts). rewrite record_words_cons, !length_app, gap_words_length. cbn [length].
specialize (IH tag ltac:(lia) Htags). destruct (Z.gtb_spec (tag - last - 1) 0); lia.
Qed.

(** A message is read whole, whatever follows it. *)
Lemma sproto_decode_lemma st m ts u u' rest : readable st → tags_up (-1) ts → Z.of_nat (length (body (TStruct m ts))) < 2 ^ 31 → fields_read st ts u u' →
sproto_decode cb (body (TStruct m ts) ++ rest) st (Z.of_nat (length (body (TStruct m ts)))) u = lua_ret (Z.of_nat (length (body (TStruct m ts))), u').
Proof.
intros Hst Htags Hlen Hrun. change (body (TStruct m ts)) with (struct_bytes (records ts)) in *. set (total := Z.of_nat (length (struct_bytes (records ts)))) in *.
pose proof (records_count ts (-1) ltac:(lia) Htags) as Hcount. unfold struct_bytes in *. fold (halves (record_words (-1) (records ts))) in *. set (ws := record_words (-1) (records ts)) in *. set (D := concat (map record_data (records ts))) in *.
assert (Et : total = 2 + 2 * Z.of_nat (length ws) + Z.of_nat (length D)) by (unfold total; rewrite !length_app, halves_length; cbn [half length]; lia).
unfold sproto_decode, SIZEOF_HEADER, SIZEOF_FIELD. destruct (Z.ltb_spec total 2); [lia|]. set (data := (half (Z.of_nat (length ws)) ++ halves ws ++ D) ++ rest).
assert (Hd : drop (Z.to_nat 0) data = half (Z.of_nat (length ws)) ++ halves ws ++ D ++ rest) by (unfold data; by rewrite <- !app_assoc). rewrite (toword_at data 0 (Z.of_nat (length ws)) _ ltac:(lia) ltac:(lia) Hd), bind_ok.
destruct (Z.ltb_spec (total - 2) (Z.of_nat (length ws) * 2)); [lia|]. rewrite Nat2Z.id. pose proof (drop_more data _ _ 0 ltac:(lia) Hd) as Hd2. change (0 + Z.of_nat (length (half (Z.of_nat (length ws))))) with 2 in Hd2.
pose proof (drop_more data _ _ 2 ltac:(lia) Hd2) as Hd3. rewrite halves_length in Hd3. replace (2 + Z.of_nat (2 * length ws)) with (2 + Z.of_nat (length ws) * 2) in Hd3 by lia.
replace (total - 2 - Z.of_nat (length ws) * 2) with (Z.of_nat (length D)) by lia. apply (decode_fields_lemma data st total ts Hst (-1) 2 _ u u' (D ++ rest) rest); try done; [lia|fold D; lia].
Qed.
End read.
