(* ===== verification/SprotoRead.v ===== *)
(** The Lua value of a message: [value_of] is what [decode], the callback of [lsproto.c], builds out
    of a tree with the schema of the reader, which need not be that of the writer. *)

From S2P Require Import Prelude CString Seri SeriProps Frames Gate GateProps Crypt CryptDes CryptDh CryptText Words Sproto SprotoCodec SprotoLua SprotoProps SprotoSchema SprotoEncode SprotoView SprotoDecode.
Open Scope Z_scope.

(** ** Values *)

Section value.
Context {LN : LuaNumbers} (types : list stype).

Definition int_value (f : field) (v : Z) : value := if negb (f_extra f =? 0) then VReal (decimal_out v (f_extra f)) else VInt v.

Definition type_at (o : option Z) : option stype := i ← o; if i <? 0 then None else types !! Z.to_nat i.

Definition field_name (f : field) : cstring := default [] (f_name f).

(** The elements of an array under 1, 2 and so on. *)
Fixpoint numbered (i : Z) (vs : list value) : list (value * value) :=
match vs with [] => [] | v :: vs => (VInt i, v) :: numbered (i + 1) vs end.

Fixpoint find_tree (fs : list (Z * tree)) (tag : Z) : option tree :=
match fs with [] => None | (tag', t) :: fs => if tag' =? tag then Some t else find_tree fs tag end.

Definition scalar_value (f : field) (t : tree) : option value :=
match t with
| TInt v => Some (int_value f v)
| TBool b => Some (VBool b)
| TStr s => Some (VStr s)
| _ => None
end.

(** The key of an element of a map: the value of one of its fields. *)
Definition key_of (f : field) (t : tree) : option value :=
match t, type_at (f_st f) with
| TStruct _ fs, Some st =>
    x ← find_tree fs (f_key f);
    g ← find_field (t_f st) (f_key f);
    scalar_value g x
| _, _ => None
end.

(** The value of a field, or of an element of an array. *)
Fixpoint value_of (f : field) (t : tree) {struct t} : value :=
match t with
| TInt v => int_value f v
| TBool b => VBool b
| TStr s => VStr s
| TInts l => VTable (numbered 1 (map (int_value f) l))
| TBools l => VTable (numbered 1 (map VBool l))
| TObjs l =>
    if f_key f >=? 0 then VTable (set_pairs [] (map (λ t, (default VNil (key_of f t), value_of f t)) l))
    else VTable (numbered 1 (map (value_of f) l))
| TStruct _ fs =>
    VTable (concat (map (λ '(tag, t),
      match type_at (f_st f) ≫= λ st, find_field (t_f st) tag with
      | Some g => [(VStr (field_name g), value_of g t)]
      | None => []
      end) fs))
end.

(** The table of a message: the fields the reader knows. *)
Definition table_of (st : stype) (fs : list (Z * tree)) : list (value * value) :=
concat (map (λ '(tag, t), match find_field (t_f st) tag with Some g => [(VStr (field_name g), value_of g t)] | None => [] end) fs).

(** ** What the reader accepts *)

Section fields.
Context (legible : Z → option Z → tree → bool).

Definition legible_field (f : field) (t : tree) : bool :=
match t with
| TInts l => (f_type f =? 0x80) && forallb in64 l
| TBools l => f_type f =? 0x81
| TObjs l =>
    ((f_type f =? 0x82) || (f_type f =? 0x83)) && forallb (legible (f_type f - 0x80) (f_st f)) l &&
    ((f_key f <? 0) || forallb (λ t, bool_decide (is_Some (key_of f t))) l)
| TStruct _ _ => (f_key f <? 0) && legible (f_type f) (f_st f) t
| _ => legible (f_type f) (f_st f) t
end.

(** The fields that are set, by tag; those the reader knows have its types. *)
Fixpoint legible_fields (st : stype) (prev : Z) (fs : list (Z * tree)) : bool :=
match fs with
| [] => true
| (tag, t) :: fs =>
    (prev <? tag) && (tag <=? 32767) && match find_field (t_f st) tag with Some f => legible_field f t | None => true end && legible_fields st tag fs
end.
End fields.

Fixpoint legible (lev : nat) (type : Z) (st : option Z) (t : tree) : bool :=
match lev with
| O => false
| S lev =>
    match t with
    | TInt v => (type =? 0) && in64 v
    | TBool _ => type =? 1
    | TStr _ => type =? 2
    | TStruct _ fs => (type =? 3) && negb (lev =? 0)%nat && match type_at st with Some s => legible_fields (legible lev) s (-1) fs | None => false end
    | _ => false
    end
end.

(** ** The user data *)

Definition fresh (es : list (value * value)) (name : cstring) : Prop := Forall (λ e, key_eqb e.1 (VStr name) = false) es.

(** While an array is read. *)
Definition in_array (es : list (value * value)) (f : field) (arr : list (value * value)) (mi : Z) (key : value) : decode_ud :=
DecodeUd (es ++ [(VStr (field_name f), VTable arr)]) (Some (f_tag f, field_name f)) mi key.

Lemma key_eqb_str s : key_eqb (VStr s) (VStr s) = true.
Proof. cbn. by apply bool_decide_eq_true. Qed.

Lemma setfield_fresh es name v : fresh es name → is_vnil v = false → setfield es name v = es ++ [(VStr name, v)].
Proof. intros Hes Hv. unfold setfield. rewrite rawset_fresh by done. by rewrite Hv. Qed.

Lemma setfield_again es name v w : fresh es name → is_vnil w = false → setfield (es ++ [(VStr name, v)]) name w = es ++ [(VStr name, w)].
Proof.
intros Hes Hw. unfold setfield. induction Hes as [|[k x] es Hk _ IH]; cbn [rawset_entries app].
- by rewrite key_eqb_str, Hw.
- cbn in Hk. by rewrite Hk, IH.
Qed.

Lemma array_of_last es name l : fresh es name → array_of (es ++ [(VStr name, VTable l)]) name = l.
Proof.
intros Hes. unfold array_of. assert (E : list_find (λ e : value * value, key_eqb e.1 (VStr name)) (es ++ [(VStr name, VTable l)]) = Some (length es, (VStr name, VTable l))).
{ apply list_find_Some. split; [by rewrite lookup_app_r, Nat.sub_diag by lia|]. split; [cbn [fst]; by rewrite key_eqb_str|]. intros j y Hj Hlt Hy. rewrite lookup_app_l in Hj by done. pose proof (Forall_lookup_1 _ _ _ _ Hes Hj) as Hn. cbn in Hn. by rewrite Hn in Hy. }
by rewrite E.
Qed.

Lemma set_element_lemma es f arr mi key k v : fresh es (field_name f) → set_element (in_array es f arr mi key) k v = Ok (in_array es f (rawset_entries arr (normal_key k) v) mi key).
Proof.
intros Hes. unfold set_element, in_array. cbn [du_array or_fault du_result du_mainindex_tag du_key]. rewrite bind_ok. by rewrite array_of_last, setfield_again.
Qed.

(** Reading goes on in the array, which is opened where it is not. *)
Definition opened (u : decode_ud) (es : list (value * value)) (f : field) (arr : list (value * value)) (mi : Z) (key : value) : Prop :=
u = in_array es f arr mi key ∨ (arr = [] ∧ ∃ o, u = DecodeUd es o mi key ∧ fst <$> o ≠ Some (f_tag f)).

Lemma decode_open_lemma args f es arr mi key u : fresh es (field_name f) → opened u es f arr mi key → a_tagid args = f_tag f → a_tagname args = field_name f → 0 < a_index args →
decode_open args u = (in_array es f arr mi key, false).
Proof.
intros Hes Hu Etag Ename Hi. unfold decode_open. destruct (Z.eqb_spec (a_index args) 0); [lia|]. cbn [negb andb]. rewrite Etag, Ename. destruct Hu as [->|(-> & o & -> & Ho)].
- unfold in_array at 1. cbn [du_array fmap option_fmap option_map fst]. by rewrite bool_decide_eq_true_2.
- cbn [du_array]. rewrite bool_decide_eq_false_2 by done. cbn [negb du_result du_mainindex_tag du_key]. rewrite setfield_fresh by done. by destruct (Z.ltb_spec (a_index args) 0); [lia|].
Qed.

(** ** The callback *)

Definition readable_type (st : stype) : Prop := readable st ∧ NoDup (map f_name (t_f st)) ∧ Forall (λ f, 0 ≤ f_tag f ∧ is_Some (f_name f)) (t_f st).

Context (Htypes : Forall readable_type types).

(** The value of [t] is stored. *)
Definition delivers (lev : nat) (args : sproto_arg) (u : decode_ud) (t : tree) (u' : decode_ud) : Prop :=
match t with
| TInt v => int_read (decode types lev) args u v u'
| TBool b => bool_read (decode types lev) args u b u'
| TStr _ | TStruct _ _ => obj_read (decode types lev) args u t u'
| _ => False
end.

(** What [decode] does with a value it has: it is stored, in a map under its key. *)
Definition stores (args : sproto_arg) (u : decode_ud) (f : field) (t : tree) (u' : decode_ud) : Prop :=
match t with
| TStruct _ _ =>
    if a_mainindex args >=? 0 then ∃ k, key_of f t = Some k ∧ set_element u k (value_of f t) = Ok u'
    else decode_store args u (value_of f t) = lua_ret (0, u')
| _ => decode_store args u (value_of f t) = lua_ret (0, u')
end.

(** A struct is read by the codec itself. *)
Definition struct_read (lev : nat) : Prop :=
∀ st ts mi, st ∈ types → legible_fields (legible lev) st (-1) ts = true → ∃ a key, fields_read (decode types lev) st ts (DecodeUd [] None mi VNil) (DecodeUd (table_of st ts) a mi key) ∧
  ∀ x g k, 0 ≤ mi → find_tree ts mi = Some x → find_field (t_f st) mi = Some g → scalar_value g x = Some k → key = k.

Lemma scalar_not_nil f t k : scalar_value f t = Some k → is_vnil k = false.
Proof. destruct t; try done; intros E; injection E as <-; [|done|done]. unfold int_value. by destruct (negb _). Qed.

Lemma lua_pushlstring_lemma s rest : lua_pushlstring (s ++ rest) (Z.of_nat (length s)) = lua_ret (VStr s).
Proof.
unfold lua_pushlstring. destruct (Z.ltb_spec (Z.of_nat (length s)) 0); [lia|]. rewrite rd_at_ok, bind_ok by (rewrite ?length_app; lia). rewrite Nat2Z.id. change (Z.to_nat 0) with 0%nat. by rewrite drop_0, take_app_length.
Qed.

Lemma type_at_some o st : type_at o = Some st → ∃ i, o = Some i ∧ rd types i = Ok st ∧ st ∈ types.
Proof.
destruct o as [i|]; [|done]. unfold type_at. cbn. destruct (Z.ltb_spec i 0); [done|]. intros E. exists i. split; [done|]. split; [by rewrite (rd_ok _ _ st)|by eapply list_elem_of_lookup_2].
Qed.

Lemma tree_tags lev st ts : ∀ prev, legible_fields (legible lev) st prev ts = true → tags_up prev ts.
Proof.
induction ts as [|[tag t] ts IH]; intros prev E; [done|]. cbn [legible_fields] in E. rewrite !andb_true_iff, Z.ltb_lt, Z.leb_le in E. cbn [tags_up]. split; [lia|]. apply IH; tauto.
Qed.

(** The arguments belong to the field. *)
Definition args_of (args : sproto_arg) (f : field) : Prop :=
a_tagid args = f_tag f ∧ a_tagname args = field_name f ∧ a_subtype args = f_st f ∧ a_mainindex args = f_key f ∧ a_extra args = f_extra f.

Lemma deliver_struct lev args u u1 f m ts u' : (lev ≠ 0%nat → struct_read lev) → legible (S lev) (a_type args) (f_st f) (TStruct m ts) = true → args_of args f →
decode_open args u = (u1, false) → stores args u1 f (TStruct m ts) u' → obj_read (decode types (S lev)) args u (TStruct m ts) u'.
Proof using Htypes.
intros Hread Hleg (_ & _ & Esub & Emi & _) Hopen Hstore rest Hlen. cbn [legible] in Hleg. rewrite !andb_true_iff, negb_true_iff, Nat.eqb_neq in Hleg. destruct Hleg as [[Ety Hlev] Hleg]. specialize (Hread Hlev). apply Z.eqb_eq in Ety. destruct (type_at (f_st f)) as [st|] eqn:Est; [|done].
pose proof (type_at_some _ _ Est) as (i & Ei & Hi & Hin). pose proof (tree_tags _ _ _ _ Hleg) as Htags. pose proof (proj1 (Forall_forall _ _) Htypes st Hin) as (Hst & _). set (n := Z.of_nat (length (body (TStruct m ts)))) in *.
cbn [decode]. change (decode_open (set_length n args) u) with (decode_open args u). rewrite Hopen. change (a_type (set_length n args)) with (a_type args). change (a_subtype (set_length n args)) with (a_subtype args).
rewrite Ety, Esub, Ei. cbn [Z.eqb Pos.eqb SPROTO_TINTEGER SPROTO_TBOOLEAN SPROTO_TSTRING SPROTO_TSTRUCT bytes_value or_fault]. rewrite !bind_ok, Hi, bind_ok.
change (a_mainindex (set_length n args)) with (a_mainindex args). change (a_length (set_length n args)) with n.
set (mi := if a_mainindex args >=? 0 then a_mainindex args else -1). destruct (Hread st ts mi Hin Hleg) as (a & key & Hrun & Hkey).
unfold n. rewrite (sproto_decode_lemma (decode types lev) st m ts _ _ rest Hst Htags Hlen Hrun). cbn [lbind lua_ret]. fold n. destruct (Z.ltb_spec n 0); [lia|]. rewrite Z.eqb_refl. cbn [negb du_key du_result].
assert (Ev : VTable (table_of st ts) = value_of f (TStruct m ts)) by (cbn [value_of]; rewrite Est; done). rewrite Ev. cbn [stores] in Hstore. destruct (Z.geb_spec (a_mainindex args) 0) as [Hmi|Hmi]; [|exact Hstore].
destruct Hstore as (k & Hk & Hset). unfold key_of in Hk. rewrite Est in Hk. apply bind_Some in Hk as (x & Hx & Hk). apply bind_Some in Hk as (g & Hg & Hk).
rewrite (Hkey x g k) by (unfold mi; rewrite ?Emi; done || lia). rewrite (scalar_not_nil g x k Hk), Hset. done.
Qed.

Lemma deliver_value lev args u u1 f t u' : (lev ≠ 0%nat → struct_read lev) → legible (S lev) (a_type args) (f_st f) t = true → args_of args f →
decode_open args u = (u1, false) → stores args u1 f t u' → delivers (S lev) args u t u'.
Proof using Htypes.
intros Hread Hleg Hargs Hopen Hstore. destruct t as [v|b|s|l|l|l|m ts]; try done.
- cbn [legible] in Hleg. apply andb_true_iff in Hleg as [Ety Hv]. apply Z.eqb_eq in Ety. exists 0. cbn [decode]. change (decode_open (set_length 8 args) u) with (decode_open args u). rewrite Hopen.
  change (a_type (set_length 8 args)) with (a_type args). rewrite Ety. cbn [Z.eqb SPROTO_TINTEGER word_value]. rewrite bind_ok, i64_u64 by done. destruct Hargs as (_ & _ & _ & _ & Hex). cbn [a_extra set_length]. rewrite Hex. exact Hstore.
- cbn [legible] in Hleg. apply Z.eqb_eq in Hleg. exists 0. cbn [decode]. change (decode_open (set_length 8 args) u) with (decode_open args u). rewrite Hopen.
  change (a_type (set_length 8 args)) with (a_type args). rewrite Hleg. cbn [Z.eqb Pos.eqb SPROTO_TINTEGER SPROTO_TBOOLEAN word_value]. rewrite bind_ok. assert (E : negb (i32 (bit b) =? 0) = b) by (by destruct b). rewrite E. exact Hstore.
- cbn [legible] in Hleg. apply Z.eqb_eq in Hleg. intros rest Hlen. cbn [body] in *. set (n := Z.of_nat (length s)) in *. cbn [decode]. change (decode_open (set_length n args) u) with (decode_open args u). rewrite Hopen.
  change (a_type (set_length n args)) with (a_type args). rewrite Hleg. cbn [Z.eqb Pos.eqb SPROTO_TINTEGER SPROTO_TBOOLEAN SPROTO_TSTRING bytes_value]. rewrite bind_ok. change (a_length (set_length n args)) with n. unfold n. rewrite lua_pushlstring_lemma. exact Hstore.
- exact (deliver_struct lev args u u1 f m ts u' Hread Hleg Hargs Hopen Hstore).
Qed.

(** ** Arrays *)

Definition enter (arr : list (value * value)) (e : value * value) : list (value * value) := rawset_entries arr (normal_key e.1) e.2.

Lemma each_lemma {A} (elem : sproto_arg → decode_ud → A → decode_ud → Prop) (entry : Z → A → value * value) args es f mi key l : ∀ i u arr,
(∀ j x u arr, x ∈ l → 1 ≤ j → opened u es f arr mi key → elem (set_index j args) u x (in_array es f (enter arr (entry j x)) mi key)) →
1 ≤ i → opened u es f arr mi key → (l = [] → u = in_array es f arr mi key) →
each elem args i u l (in_array es f (foldl enter arr (imap (λ k x, entry (i + Z.of_nat k) x) l)) mi key).
Proof.
induction l as [|x l IH]; intros i u arr Helem Hi Hu Hnil; [rewrite Hnil by done; constructor|].
econstructor; [apply Helem; [by left|done|exact Hu]|]. cbn [imap foldl]. rewrite Z.add_0_r. rewrite (imap_ext _ (λ k x, entry (i + 1 + Z.of_nat k) x)) by (intros; cbn; f_equal; lia).
apply IH; [|lia|by left|done]. intros j y w arr' Hy. apply Helem. by right.
Qed.
Lemma enter_pairs es kws : foldl enter es kws = set_pairs es kws.
Proof. revert es. induction kws as [|[k w] kws IH]; intros es; [done|]. cbn [foldl set_pairs]. by rewrite IH. Qed.

Lemma enter_numbered {A} (v : A → value) l : ∀ i acc, (∀ x, is_vnil (v x) = false) → Forall (λ e, ∃ z, e.1 = VInt z ∧ z < i) acc →
foldl enter acc (imap (λ k x, (VInt (i + Z.of_nat k), v x)) l) = acc ++ numbered i (map v l).
Proof.
induction l as [|x l IH]; intros i acc Hv Hacc; cbn [imap foldl map numbered]; [by rewrite app_nil_r|]. rewrite Z.add_0_r. rewrite (imap_ext _ (λ k x, (VInt (i + 1 + Z.of_nat k), v x))) by (intros; cbn; do 2 f_equal; lia).
assert (E : enter acc (VInt i, v x) = acc ++ [(VInt i, v x)]).
{ unfold enter. cbn [fst snd normal_key]. rewrite rawset_fresh; [by rewrite Hv|]. eapply Forall_impl; [exact Hacc|]. intros [k w] (z & Hz & Hlt). cbn in *. rewrite Hz. cbn. by destruct (Z.eqb_spec z i); [lia|]. }
rewrite E, IH; [by rewrite <- app_assoc|done|]. apply Forall_app. split; [eapply Forall_impl; [exact Hacc|]; intros e (z & Hz & Hlt); exists z; split; [done|lia]|]. constructor; [|constructor]. exists i. split; [done|lia].
Qed.

Lemma numbered_array {A} (v : A → value) l : (∀ x, is_vnil (v x) = false) → foldl enter [] (imap (λ k x, (VInt (1 + Z.of_nat k), v x)) l) = numbered 1 (map v l).
Proof. intros Hv. by apply (enter_numbered v l 1 []). Qed.

Lemma value_not_nil f t : is_vnil (value_of f t) = false.
Proof. destruct t; try done; cbn [value_of]; [unfold int_value; by destruct (negb _)|by destruct (_ >=? _)]. Qed.

Lemma field_args f type j : args_of (set_index j (field_arg f type 0)) f.
Proof. done. Qed.

(** An element under its number. *)
Lemma store_numbered args es f arr mi key j v : fresh es (field_name f) → a_index args = j → 1 ≤ j →
decode_store args (in_array es f arr mi key) v = lua_ret (0, in_array es f (enter arr (VInt j, v)) mi key).
Proof. intros Hes Hj Hpos. unfold decode_store. rewrite Hj. destruct (Z.gtb_spec j 0); [|lia]. by rewrite set_element_lemma, bind_ok. Qed.

Lemma array_opened es f o mi key : fst <$> o ≠ Some (f_tag f) → opened (DecodeUd es o mi key) es f [] mi key.
Proof. intros Ho. right. split; [done|]. by exists o. Qed.

(** An array, empty or not. *)
Lemma array_lemma {A} lev (elem : sproto_arg → decode_ud → A → decode_ud → Prop) (entry : Z → A → value * value) type es f o mi key l :
fresh es (field_name f) → fst <$> o ≠ Some (f_tag f) →
(∀ j x u arr, x ∈ l → 1 ≤ j → opened u es f arr mi key → elem (set_index j (field_arg f type 0)) u x (in_array es f (enter arr (entry j x)) mi key)) →
array_read (decode types (S lev)) elem (field_arg f type 0) (DecodeUd es o mi key) l (in_array es f (foldl enter [] (imap (λ k x, entry (1 + Z.of_nat k) x) l)) mi key).
Proof.
intros Hes Ho Helem. destruct l as [|x l].
- exists 0. cbn [decode imap foldl]. unfold decode_open. cbn [a_index set_length set_index Z.eqb negb andb du_array a_tagid field_arg]. rewrite bool_decide_eq_false_2 by done. cbn [negb du_result du_mainindex_tag du_key a_tagname Z.ltb Z.compare].
  fold (field_name f). by rewrite setfield_fresh.
- apply each_lemma; [done|lia|by apply array_opened|done].
Qed.
(** ** Fields *)

Definition field_ok (f : field) : Prop := 0 ≤ f_tag f ∧ is_Some (f_name f).

(** The key after a field: its value, where it is the field of the key and not an array. *)
Definition key_after (mi : Z) (f : field) (t : tree) (key : value) : value :=
match t with TInts _ | TBools _ | TObjs _ => key | _ => if mi =? f_tag f then value_of f t else key end.

Lemma single_lemma lev f t es o mi key : (lev ≠ 0%nat → struct_read lev) → fresh es (field_name f) → legible (S lev) (f_type f) (f_st f) t = true → (∀ m ts, t = TStruct m ts → f_key f < 0) →
delivers (S lev) (field_arg f (f_type f) 0) (DecodeUd es o mi key) t (DecodeUd (es ++ [(VStr (field_name f), value_of f t)]) o mi (key_after mi f t key)).
Proof using Htypes.
intros Hread Hes Hleg Hkey. assert (Hshape : key_after mi f t key = if mi =? f_tag f then value_of f t else key) by (by destruct t). apply (deliver_value lev _ _ (DecodeUd es o mi key) f); [done|done|done|done|].
assert (E : decode_store (field_arg f (f_type f) 0) (DecodeUd es o mi key) (value_of f t) = lua_ret (0, DecodeUd (es ++ [(VStr (field_name f), value_of f t)]) o mi (key_after mi f t key))).
{ unfold decode_store. cbn [a_index field_arg Z.gtb Z.compare du_mainindex_tag a_tagid du_key du_result du_array a_tagname]. fold (field_name f). rewrite setfield_fresh by (done || apply value_not_nil). by rewrite Hshape. }
destruct t as [v|b|s|l|l|l|m ts]; try exact E. cbn [stores a_mainindex field_arg]. destruct (Z.geb_spec (f_key f) 0); [specialize (Hkey m ts eq_refl); lia|exact E].
Qed.

(** An element that is an integer or a boolean. *)
Lemma scalar_element lev f type j u es arr mi key t : (lev ≠ 0%nat → struct_read lev) → fresh es (field_name f) → legible (S lev) type (f_st f) t = true → (∀ m ts, t = TStruct m ts → f_key f < 0) → 1 ≤ j → opened u es f arr mi key →
delivers (S lev) (set_index j (field_arg f type 0)) u t (in_array es f (enter arr (VInt j, value_of f t)) mi key).
Proof using Htypes.
intros Hread Hes Hleg Hkey Hj Hu. apply (deliver_value lev _ _ (in_array es f arr mi key) f); [done|done|done| |].
- apply decode_open_lemma; [done|done|done|done|]. cbn [a_index set_index]. lia.
- assert (E := store_numbered (set_index j (field_arg f type 0)) es f arr mi key j (value_of f t) Hes eq_refl Hj). destruct t as [v|b|s|l|l|l|m ts]; try exact E.
  cbn [stores a_mainindex set_index field_arg]. destruct (Z.geb_spec (f_key f) 0); [specialize (Hkey m ts eq_refl); lia|exact E].
Qed.

(** An element of a map. *)
Lemma keyed_element lev f type j u es arr mi key t k : (lev ≠ 0%nat → struct_read lev) → fresh es (field_name f) → legible (S lev) type (f_st f) t = true → key_of f t = Some k → 0 ≤ f_key f → 1 ≤ j → opened u es f arr mi key →
obj_read (decode types (S lev)) (set_index j (field_arg f type 0)) u t (in_array es f (enter arr (k, value_of f t)) mi key).
Proof using Htypes.
intros Hread Hes Hleg Hkey Hk Hj Hu. destruct t as [v|b|s|l|l|l|m ts]; try done. apply (deliver_struct lev _ _ (in_array es f arr mi key) f); [done|done|done| |].
- apply decode_open_lemma; [done|done|done|done|]. cbn [a_index set_index]. lia.
- cbn [stores a_mainindex set_index field_arg]. destruct (Z.geb_spec (f_key f) 0); [|lia]. exists k. split; [done|]. by apply set_element_lemma.
Qed.

Lemma forallb_elem {A} (P : A → bool) l x : forallb P l = true → x ∈ l → P x = true.
Proof. rewrite forallb_forall. intros HP Hx. apply HP. by apply list_elem_of_In. Qed.

(** A field the reader knows. *)
Lemma field_lemma lev f t es o mi key : (lev ≠ 0%nat → struct_read lev) → field_ok f → fresh es (field_name f) → fst <$> o ≠ Some (f_tag f) → legible_field (legible (S lev)) f t = true →
∃ o', field_read (decode types (S lev)) f (DecodeUd es o mi key) t (DecodeUd (es ++ [(VStr (field_name f), value_of f t)]) o' mi (key_after mi f t key)) ∧ (o' = o ∨ fst <$> o' = Some (f_tag f)).
Proof using Htypes.
intros Hread Hf Hes Ho Hleg. assert (Hsingle : (∀ m ts, t = TStruct m ts → f_key f < 0) → legible (S lev) (f_type f) (f_st f) t = true → ∃ o', field_read (decode types (S lev)) f (DecodeUd es o mi key) t
  (DecodeUd (es ++ [(VStr (field_name f), value_of f t)]) o' mi (key_after mi f t key)) ∧ (o' = o ∨ fst <$> o' = Some (f_tag f))).
{ intros Hk Hl. exists o. split; [|by left]. pose proof (single_lemma lev f t es o mi key Hread Hes Hl Hk) as Hd. cbn [legible] in Hl. destruct t as [v|b|s|l|l|l|m ts]; try done; cbn [field_read delivers] in *;
    repeat (apply andb_true_iff in Hl as [Hl _]); apply Z.eqb_eq in Hl; rewrite Hl in Hd; done. }
destruct t as [v|b|s|l|l|l|m ts]; cbn [legible_field] in Hleg; try (by apply Hsingle).
- apply andb_true_iff in Hleg as [Ety Hl]. apply Z.eqb_eq in Ety. exists (Some (f_tag f, field_name f)). split; [|by right]. split; [done|]. cbn [value_of key_after]. rewrite <- numbered_array by (intros; unfold int_value; by destruct (negb _)).
  apply (array_lemma lev _ (λ j x, (VInt j, int_value f x)) 0); [done|done|]. intros j x u arr Hx Hj Hu. apply (scalar_element lev f 0 j u es arr mi key (TInt x)); try done. cbn [legible Z.eqb andb]. by apply (forallb_elem in64 l).
- apply Z.eqb_eq in Hleg. exists (Some (f_tag f, field_name f)). split; [|by right]. split; [done|]. cbn [value_of key_after]. rewrite <- numbered_array by done.
  apply (array_lemma lev _ (λ j x, (VInt j, VBool x)) 1); [done|done|]. intros j x u arr Hx Hj Hu. by apply (scalar_element lev f 1 j u es arr mi key (TBool x)).
- apply andb_true_iff in Hleg as [Hl Hk]. apply andb_true_iff in Hl as [Ety Hl]. apply orb_true_iff in Ety. rewrite !Z.eqb_eq in Ety. exists (Some (f_tag f, field_name f)). split; [|by right]. split; [done|]. cbn [value_of key_after]. destruct (Z.geb_spec (f_key f) 0) as [Hk0|Hk0].
  + rewrite <- enter_pairs. change (map ?g l) with (g <$> l). rewrite <- (imap_const _ l). apply (array_lemma lev _ (λ j t, (default VNil (key_of f t), value_of f t))); [done|done|]. intros j x u arr Hx Hj Hu.
    destruct (Z.ltb_spec (f_key f) 0); [lia|]. cbn [orb] in Hk. pose proof (forallb_elem _ _ _ Hk Hx) as Hkx. apply bool_decide_eq_true in Hkx as [k Hkx]. rewrite Hkx. cbn [default]. apply (keyed_element lev); try done. exact (forallb_elem _ _ _ Hl Hx).
  + rewrite <- numbered_array by apply value_not_nil. apply (array_lemma lev _ (λ j t, (VInt j, value_of f t))); [done|done|]. intros j x u arr Hx Hj Hu. pose proof (forallb_elem _ _ _ Hl Hx) as Hlx.
    pose proof (scalar_element lev f (f_type f - 0x80) j u es arr mi key x Hread Hes Hlx ltac:(done) Hj Hu) as Hd. cbn [legible] in Hlx. destruct x as [v|b|s|l'|l'|l'|m ts]; try done; destruct Ety as [Ety|Ety]; rewrite Ety in Hlx; done.
- apply andb_true_iff in Hleg as [Hk Hl]. apply Z.ltb_lt in Hk. apply Hsingle; [|done]. by intros.
Qed.
(** ** Messages *)

(** No field behind [prev] has its name in the table. *)
Definition fresh_above (prev : Z) (st : stype) (es : list (value * value)) : Prop := ∀ g, g ∈ t_f st → prev < f_tag g → fresh es (field_name g).

Lemma names_differ st f g : readable_type st → f ∈ t_f st → g ∈ t_f st → f_tag f ≠ f_tag g → field_name f ≠ field_name g.
Proof.
intros (_ & Hnd & Hok) Hf Hg Hne. rewrite Forall_forall in Hok. destruct (Hok f Hf) as [_ [nf Ef]], (Hok g Hg) as [_ [ng Eg]]. unfold field_name. rewrite Ef, Eg. cbn. intros ->.
apply list_elem_of_lookup in Hf as [i Hi], Hg as [j Hj]. assert (i = j) as ->; [|rewrite Hi in Hj; injection Hj as ->; done].
apply (NoDup_lookup (map f_name (t_f st)) i j (Some ng) Hnd); rewrite list_lookup_fmap; [by rewrite Hi, <- Ef|by rewrite Hj, <- Eg].
Qed.

Lemma fresh_snoc es name n v : fresh es name → n ≠ name → fresh (es ++ [(VStr n, v)]) name.
Proof. intros Hes Hn. apply Forall_app. split; [done|]. constructor; [|constructor]. cbn. by apply bool_decide_eq_false. Qed.

Lemma find_tree_above ts : ∀ prev tag, tags_up prev ts → tag ≤ prev → find_tree ts tag = None.
Proof.
induction ts as [|[tag' t'] ts IH]; intros prev tag Hup Hle; [done|]. destruct Hup as [Hb Hup]. cbn [find_tree]. destruct (Z.eqb_spec tag' tag); [lia|]. apply (IH tag'); [done|lia].
Qed.

Lemma fields_read_lemma lev st ts : st ∈ types → (lev ≠ 0%nat → struct_read lev) → ∀ prev es o mi key, -1 ≤ prev → legible_fields (legible (S lev)) st prev ts = true → fresh_above prev st es → (∀ a, fst <$> o = Some a → a ≤ prev) →
∃ o' key', fields_read (decode types (S lev)) st ts (DecodeUd es o mi key) (DecodeUd (es ++ table_of st ts) o' mi key') ∧
  ((mi ≤ prev → key' = key) ∧ ∀ x g k, prev < mi → find_tree ts mi = Some x → find_field (t_f st) mi = Some g → scalar_value g x = Some k → key' = k).
Proof using Htypes.
intros Hin Hread. pose proof (proj1 (Forall_forall _ _) Htypes st Hin) as Hst. induction ts as [|[tag t] ts IH]; intros prev es o mi key Hprev Hleg Hfresh Ho.
{ exists o, key. unfold table_of. cbn. rewrite app_nil_r. split; [constructor|done]. }
cbn [legible_fields] in Hleg. rewrite !andb_true_iff, Z.ltb_lt, Z.leb_le in Hleg. destruct Hleg as [[[Hlt _] Hf] Hleg]. unfold table_of. cbn [map concat]. fold (table_of st ts).
destruct (find_field (t_f st) tag) as [f|] eqn:Ef.
- destruct (find_field_some _ _ _ Ef) as [Hfin Htag]. pose proof (proj1 (Forall_forall _ _) (proj2 (proj2 Hst)) f Hfin) as Hok.
  destruct (field_lemma lev f t es o mi key Hread Hok) as (o1 & Hrd & Ho1); [apply Hfresh; [done|lia]| |done|]; [intros E; apply Ho in E; lia|].
  destruct (IH tag (es ++ [(VStr (field_name f), value_of f t)]) o1 mi (key_after mi f t key)) as (o' & key' & Hrest & Hkey1 & Hkey2); [lia|done| | |].
  + intros g Hg Hgt. apply fresh_snoc; [apply Hfresh; [done|lia]|]. apply (names_differ st); [done|done|done|lia].
  + intros a Ea. destruct Ho1 as [-> |Ho1]; [apply Ho in Ea; lia|]. rewrite Ho1 in Ea. injection Ea as <-. lia.
  + exists o', key'. rewrite <- app_assoc in Hrest. split; [by eapply fields_read_some|]. assert (Hka : mi ≠ f_tag f → key_after mi f t key = key) by (intros Hne; unfold key_after; destruct (Z.eqb_spec mi (f_tag f)); [done|by destruct t]).
    split; [intros Hmi; rewrite Hkey1, Hka by lia; done|]. intros x g k Hmi Hx Hg Hk. cbn [find_tree] in Hx. destruct (Z.eqb_spec tag mi) as [<-|Hne].
    * injection Hx as ->. rewrite Ef in Hg. injection Hg as ->. rewrite Hkey1 by lia. unfold key_after. rewrite Htag, Z.eqb_refl. destruct x; try done; cbn [scalar_value value_of] in *; by injection Hk.
    * destruct (Z.leb_spec mi tag); [|by apply (Hkey2 x g k)]. apply tree_tags in Hleg. by rewrite (find_tree_above ts tag mi) in Hx.
- destruct (IH tag es o mi key) as (o' & key' & Hrest & Hkey1 & Hkey2); [lia|done|intros g Hg Hgt; apply Hfresh; [done|lia]|intros a Ea; apply Ho in Ea; lia|].
  exists o', key'. split; [by eapply fields_read_none|]. split; [intros; apply Hkey1; lia|]. intros x g k Hmi Hx Hg Hk. cbn [find_tree] in Hx. destruct (Z.eqb_spec tag mi) as [<-|Hne]; [by rewrite Ef in Hg|].
  destruct (Z.leb_spec mi tag); [|by apply (Hkey2 x g k)]. apply tree_tags in Hleg. by rewrite (find_tree_above ts tag mi) in Hx.
Qed.
Lemma structs_read lev : lev ≠ 0%nat → struct_read lev.
Proof using Htypes.
induction lev as [|lev IH]; [done|]. intros _ st ts mi Hin Hleg. destruct (fields_read_lemma lev st ts Hin IH (-1) [] None mi VNil) as (o & key & Hrd & _ & Hkey); [lia|done|intros g _ _; constructor|done|].
exists o, key. split; [exact Hrd|]. intros x g k Hmi. apply Hkey. lia.
Qed.

Lemma ldecode_lemma i st m ts : 0 ≤ i → types !! Z.to_nat i = Some st → legible_fields (legible ENCODE_DEEPLEVEL) st (-1) ts = true → Z.of_nat (length (body (TStruct m ts))) < 2 ^ 31 →
ldecode types (Some i) (body (TStruct m ts)) [] = lua_ret (Some (VTable (table_of st ts), Z.of_nat (length (body (TStruct m ts))))).
Proof using Htypes.
intros Hi Hst Hleg Hlen. assert (Hin : st ∈ types) by (by eapply list_elem_of_lookup_2). unfold ldecode. rewrite (rd_ok _ _ st), bind_ok by done.
destruct (structs_read ENCODE_DEEPLEVEL ltac:(done) st ts (-1) Hin Hleg) as (a & key & Hrd & _). pose proof (proj1 (Forall_forall _ _) Htypes st Hin) as (Hread & _).
pose proof (sproto_decode_lemma (decode types ENCODE_DEEPLEVEL) st m ts _ _ [] Hread (tree_tags _ _ _ _ Hleg) Hlen Hrd) as E. rewrite app_nil_r in E. rewrite i32_small, E by lia. cbn [lbind lua_ret].
destruct (Z.ltb_spec (Z.of_nat (length (body (TStruct m ts)))) 0); [lia|done].
Qed.
End value.
