(* ===== verification/SprotoLoad.v ===== *)
(** The loader of a schema: whatever bytes a bundle is made of, the types it gives are what the
    encoder and the decoder rely on. *)

From S2P Require Import Prelude CString Seri SeriProps Frames Gate GateProps Crypt CryptDes CryptDh CryptText Words Sproto SprotoCodec SprotoLua SprotoProps SprotoSchema SprotoEncode SprotoView.
Open Scope Z_scope.

(** A field of one of the types; the type of a struct is among the [n] types. *)
Definition good_type (n : Z) (f : field) : Prop := f_type f = 3 → ∃ i, f_st f = Some i ∧ 0 ≤ i < n.

Definition loaded_field (n : Z) (f : field) : Prop :=
  valid_field f ∧ 0 ≤ f_tag f ≤ 32767 ∧ is_Some (f_name f) ∧ (elem_type f = 3 → ∃ i, f_st f = Some i ∧ 0 ≤ i < n).

(** The fields are in the order of their tags, [maxn] records are enough for them, and [base] is the
    first tag where there is no gap. *)
Definition loaded_type (n : Z) (st : stype) : Prop :=
  t_n st = Z.of_nat (length (t_f st)) ∧ ascending (-1) (t_f st) ∧ slots (-1) (t_f st) = t_maxn st ∧ Forall (loaded_field n) (t_f st) ∧
  (t_base st < 0 ∨ ∀ i f, t_f st !! i = Some f → f_tag f = t_base st + Z.of_nat i).

Section load.
Context (data : list Z) (Hdata : Forall byte data).

Lemma toword_range i v : toword data i = Ok v → 0 ≤ v < 2 ^ 16.
Proof using Hdata.
unfold toword. destruct (rd data i) as [a|] eqn:Ea; [|done]. rewrite bind_ok. destruct (rd data (i + 1)) as [b|] eqn:Eb; [|done]. rewrite bind_ok. intros E. injection E as <-.
apply rd_ok_inv in Ea as [_ Ea], Eb as [_ Eb]. pose proof (Forall_lookup_1 _ _ _ _ Hdata Ea) as Ha. pose proof (Forall_lookup_1 _ _ _ _ Hdata Eb) as Hb. unfold byte in *. rewrite lor_shiftl by lia. lia.
Qed.

(** ** Fields *)

(** A field while it is read, and whether it is an array. *)
Definition half_field (n : Z) (f : field) (array : Z) : Prop := -1 ≤ f_type f ≤ 3 ∧ f_tag f ≤ 32767 ∧ good_type n f ∧ (array = 0 ∨ array = SPROTO_TARRAY).

Lemma field_case_lemma n tag value array f f' array' : 0 ≤ value ≤ 32767 → half_field n f array → field_case n tag value array f = Ok (Some (f', array')) → half_field n f' array'.
Proof.
intros Hv (Hty & Htag & Hst & Har). unfold field_case. destruct (tag =? 1).
{ destruct (Z.geb_spec value SPROTO_TSTRUCT); [done|]. intros E. injection E as <- <-. unfold SPROTO_TSTRUCT in *. repeat split; cbn; try lia; try done. unfold good_type. cbn. lia. }
destruct (tag =? 2).
{ destruct (f_type f =? SPROTO_TINTEGER); [destruct (calc_pow 10 value); [|done]; rewrite bind_ok; intros E; injection E as <- <-; repeat split; cbn; try lia; done|].
  destruct (f_type f =? SPROTO_TSTRING); [intros E; injection E as <- <-; repeat split; cbn; try lia; done|]. destruct (Z.geb_spec value n); [done|]. destruct (Z.geb_spec (f_type f) 0); [done|].
  intros E. injection E as <- <-. unfold SPROTO_TSTRUCT. repeat split; cbn; try lia; try done. intros _. exists value. split; [done|lia]. }
destruct (tag =? 3); [intros E; injection E as <- <-; repeat split; cbn; try lia; done|].
destruct (tag =? 4); [intros E; injection E as <- <-; repeat split; cbn; try lia; try done; destruct (negb _); tauto|].
destruct (tag =? 5); [intros E; injection E as <- <-; repeat split; cbn; try lia; done|done].
Qed.

Lemma import_field_loop_lemma n stream fn k : ∀ i tag array f f' array', half_field n f array → import_field_loop data n stream fn k i tag array f = Ok (Some (f', array')) → half_field n f' array'.
Proof using Hdata.
induction k as [|k IH]; intros i tag array f f' array' Hf; cbn [import_field_loop]; [intros E; by injection E as <- <-|].
destruct (toword data _) as [v|] eqn:Ev; [|done]. rewrite bind_ok. apply toword_range in Ev. destruct (negb (Z.land v 1 =? 0)) eqn:Eodd; [by apply IH|]. destruct (tag + 1 =? 0).
{ destruct (negb (v =? 0)); [done|]. destruct (import_string _ _); [|done]. rewrite bind_ok. apply IH. destruct Hf as (? & ? & ? & ?). done. }
destruct (Z.eqb_spec v 0) as [|Hv0]; [done|]. destruct (field_case _ _ _ _ _) as [[[f1 array1]|]|] eqn:Ec; try done. rewrite bind_ok. apply IH. revert Ec. apply field_case_lemma; [|done].
apply negb_false_iff, Z.eqb_eq in Eodd. change 1 with (Z.ones 1) in Eodd. rewrite Z.land_ones in Eodd by lia. change (2 ^ 1) with 2 in Eodd. pose proof (Z.div_mod v 2 ltac:(lia)). lia.
Qed.

Lemma import_field_lemma n stream f stream' : import_field data n stream = Ok (Some (f, stream')) → loaded_field n f.
Proof using Hdata.
unfold import_field. destruct (todword data stream) as [sz|]; [|done]. rewrite bind_ok. destruct (struct_field _ _ _) as [fn|]; [|done]. rewrite bind_ok. destruct (fn <? 0); [done|].
destruct (import_field_loop _ _ _ _ _ _ _ _ _) as [[[f1 array]|]|] eqn:E; try done. rewrite bind_ok. apply import_field_loop_lemma in E; [|repeat split; unfold good_type; cbn; try lia; try done].
destruct E as (Hty & Htag & Hst & Har). destruct (Z.ltb_spec (f_tag f1) 0); [done|]. destruct (Z.ltb_spec (f_type f1) 0); [done|]. destruct (f_name f1) as [nm|]; [|done]. cbn [orb]. intros E. injection E as <- _.
assert (Ht : f_type f1 = 0 ∨ f_type f1 = 1 ∨ f_type f1 = 2 ∨ f_type f1 = 3) by lia. unfold loaded_field, valid_field, elem_type. cbn [f_type f_tag f_name f_st].
unfold good_type in Hst. unfold SPROTO_TARRAY in Har. destruct Ht as [Ht|[Ht|[Ht|Ht]]], Har as [-> | ->]; rewrite Ht in *; (split; [done|]); (split; [lia|]); (split; [by eexists|]); try done; by intros _; apply Hst.
Qed.

(** ** Types *)

Lemma import_fields_lemma n k : ∀ stream last maxn fs fs' maxn', -1 ≤ last → import_fields data n k stream last maxn fs = Ok (Some (fs', maxn')) →
∃ new, fs' = fs ++ new ∧ length new = k ∧ ascending last new ∧ Forall (loaded_field n) new ∧ slots last new = Z.of_nat k + maxn' - maxn.
Proof using Hdata.
induction k as [|k IH]; intros stream last maxn fs fs' maxn' Hlast; cbn [import_fields].
{ intros E. injection E as <- <-. exists []. rewrite app_nil_r. repeat split; try done. cbn. lia. }
destruct (import_field data n stream) as [[[f stream1]|]|] eqn:Ef; try done. rewrite bind_ok. apply import_field_lemma in Ef. pose proof Ef as (_ & Htag & _). destruct (Z.leb_spec (f_tag f) last); [done|]. intros E.
apply IH in E as (new & -> & Hl & Hasc & Hok & Hsl); [|lia]. exists (f :: new). rewrite <- app_assoc. split; [done|]. split; [cbn; lia|]. cbn [ascending slots]. split; [split; [lia|done]|]. split; [by constructor|].
rewrite Hsl. destruct (Z.gtb_spec (f_tag f) (last + 1)); lia.
Qed.

(** Tags without a gap. *)
Lemma ascending_span fs : ∀ prev i j f g, ascending prev fs → (i ≤ j)%nat → fs !! i = Some f → fs !! j = Some g → Z.of_nat (j - i) ≤ f_tag g - f_tag f.
Proof.
induction fs as [|h fs IH]; intros prev i j f g Hasc Hij Hi Hj; [done|]. destruct Hasc as [Hh Hasc]. destruct i as [|i], j as [|j]; cbn in Hi, Hj; [|..|lia|].
- injection Hi as <-. injection Hj as <-. lia.
- injection Hi as <-. destruct fs as [|h2 fs]; [done|]. pose proof Hasc as [Hh2 _]. pose proof (IH (f_tag h) 0%nat j h2 g Hasc ltac:(lia) eq_refl Hj). lia.
- pose proof (IH (f_tag h) i j f g Hasc ltac:(lia) Hi Hj). lia.
Qed.

Lemma ascending_increasing prev fs : ascending prev fs → increasing (map f_tag fs).
Proof.
intros Hasc i j a b Hij Ha Hb. rewrite list_lookup_fmap in Ha, Hb. apply fmap_Some in Ha as (f & Hf & ->). apply fmap_Some in Hb as (g & Hg & ->).
pose proof (ascending_span fs prev i j f g Hasc ltac:(lia) Hf Hg). lia.
Qed.

Lemma import_type_lemma n stream st stream' : import_type data n stream = Ok (Some (st, stream')) → loaded_type n st.
Proof using Hdata.
unfold import_type. destruct (todword data stream) as [sz|]; [|done]. rewrite bind_ok. destruct (struct_field _ _ _) as [fn|]; [|done]. rewrite bind_ok. destruct (_ || _); [done|].
destruct (all_data _ _ _) as [ok|]; [|done]. rewrite bind_ok. destruct (negb ok); [done|]. destruct (import_string _ _) as [name|]; [|done]. rewrite bind_ok. destruct (fn =? 1).
{ intros E. injection E as <- _. split; [done|]. split; [done|]. split; [done|]. split; [constructor|]. right. by intros [|]. }
destruct (todword data _) as [len|]; [|done]. rewrite bind_ok. destruct (count_array _ _) as [k|]; [|done]. rewrite bind_ok. destruct (Z.ltb_spec k 0); [done|].
destruct (import_fields _ _ _ _ _ _ _) as [[[fs maxn]|]|] eqn:Ef; try done. rewrite bind_ok. apply import_fields_lemma in Ef as (new & -> & Hl & Hasc & Hok & Hsl); [|lia]. cbn [app].
destruct (rd new 0) as [first|] eqn:E1; [|done]. rewrite bind_ok. destruct (rd new (k - 1)) as [last|] eqn:E2; [|done]. rewrite bind_ok. intros E. injection E as <- _. unfold loaded_type. cbn [t_n t_f t_maxn t_base].
split; [lia|]. split; [done|]. split; [lia|]. split; [done|]. destruct (Z.eqb_spec (f_tag last - f_tag first + 1) k) as [Heq|]; cbn [negb]; [right|left; lia]. intros i f Hi.
apply rd_ok_inv in E1 as [_ E1], E2 as [_ E2]. pose proof (lookup_lt_Some _ _ _ Hi). pose proof (ascending_span new (-1) 0 i first f Hasc ltac:(lia) E1 Hi). pose proof (ascending_span new (-1) i (Z.to_nat (k - 1)) f last Hasc ltac:(lia) Hi E2). lia.
Qed.

Lemma import_all_lemma {A} (P : A → Prop) import n : (∀ stream a stream', import stream = Ok (Some (a, stream')) → P a) → ∀ stream l l', Forall P l → import_all import n stream l = Ok (Some l') → Forall P l' ∧ length l' = (length l + n)%nat.
Proof.
intros HP. induction n as [|n IH]; intros stream l l' Hl; cbn [import_all]; [intros E; injection E as <-; split; [done|lia]|].
destruct (import stream) as [[[a s]|]|] eqn:Ei; try done. rewrite bind_ok. intros E. apply IH in E as [H1 H2]; [|apply Forall_app; split; [done|]; constructor; [by eapply HP|done]]. split; [done|]. rewrite length_app in H2. cbn in H2. lia.
Qed.
(** ** Protocols *)

Definition type_in (n : Z) (o : option Z) : Prop := ∀ i, o = Some i → 0 ≤ i < n.

Lemma type_in_some n v : 0 ≤ v < n → type_in n (Some v).
Proof. intros Hv i E. by injection E as <-. Qed.

(** The types of the request and of the response are among the types. *)
Definition loaded_protocol (n : Z) (p : protocol) : Prop := is_Some (p_name p) ∧ 0 ≤ p_tag p ∧ type_in n (p_request p) ∧ type_in n (p_response p).

Lemma protocol_case_lemma n stream fn i value p p' : type_in n (p_request p) ∧ type_in n (p_response p) → protocol_case data n stream fn i value p = Ok (Some p') → type_in n (p_request p') ∧ type_in n (p_response p').
Proof.
intros [Hq Hr]. unfold protocol_case. destruct (i =? 0).
{ destruct (negb (value =? -1)); [done|]. destruct (import_string _ _); [|done]. rewrite bind_ok. intros E. by injection E as <-. }
destruct (i =? 1); [destruct (value <? 0); [done|]; intros E; by injection E as <-|].
destruct (i =? 2); [destruct (Z.ltb_spec value 0); [done|]; destruct (Z.geb_spec value n); [done|]; intros E; injection E as <-; split; [apply type_in_some; lia|done]|].
destruct (i =? 3); [destruct (Z.ltb_spec value 0); [done|]; destruct (Z.geb_spec value n); [done|]; intros E; injection E as <-; split; [done|apply type_in_some; lia]|].
destruct (i =? 4); [intros E; by injection E as <-|done].
Qed.

Lemma import_protocol_loop_lemma n stream fn k : ∀ i p p', type_in n (p_request p) ∧ type_in n (p_response p) → import_protocol_loop data n stream fn k i p = Ok (Some p') → type_in n (p_request p') ∧ type_in n (p_response p').
Proof.
induction k as [|k IH]; intros i p p' Hp; cbn [import_protocol_loop]; [intros E; by injection E as <-|]. destruct (toword data _) as [v|]; [|done]. rewrite bind_ok. destruct (negb (Z.land v 1 =? 0)); [by apply IH|].
destruct (protocol_case _ _ _ _ _ _ _) as [[p1|]|] eqn:Ec; try done. rewrite bind_ok. apply IH. by eapply protocol_case_lemma.
Qed.

Lemma import_protocol_lemma n stream p stream' : import_protocol data n stream = Ok (Some (p, stream')) → loaded_protocol n p.
Proof.
unfold import_protocol. destruct (todword data stream) as [sz|]; [|done]. rewrite bind_ok. destruct (struct_field _ _ _) as [fn|]; [|done]. rewrite bind_ok.
destruct (import_protocol_loop _ _ _ _ _ _ _) as [[p1|]|] eqn:E; try done. rewrite bind_ok. apply import_protocol_loop_lemma in E as [Hq Hr]; [|by split]. destruct (p_name p1) eqn:En; [|done]. destruct (Z.ltb_spec (p_tag p1) 0); [done|]. cbn [orb]. intros E. injection E as <- _.
split; [by rewrite En|]. split; [lia|]. by split.
Qed.

(** ** The bundle *)

Definition loaded (sp : sproto) : Prop :=
s_type_n sp = Z.of_nat (length (s_type sp)) ∧ s_protocol_n sp = Z.of_nat (length (s_proto sp)) ∧
Forall (loaded_type (s_type_n sp)) (s_type sp) ∧ Forall (loaded_protocol (s_type_n sp)) (s_proto sp).

Lemma bundle_arrays_lemma k : ∀ stream content l l', Forall (λ a, 0 ≤ a.1) l → bundle_arrays data k stream content l = Ok (Some l') → Forall (λ a, 0 ≤ a.1) l'.
Proof.
induction k as [|k IH]; intros stream content l l' Hl; cbn [bundle_arrays]; [intros E; by injection E as <-|]. destruct (toword data stream) as [v|]; [|done]. rewrite bind_ok. destruct (negb (v =? 0)); [done|].
destruct (count_array data content) as [n|]; [|done]. rewrite bind_ok. destruct (Z.ltb_spec n 0); [done|]. destruct (todword data content) as [len|]; [|done]. rewrite bind_ok. apply IH. apply Forall_app. split; [done|]. by constructor.
Qed.

Lemma nth_count (l : list (Z * Z)) i : Forall (λ a, 0 ≤ a.1) l → 0 ≤ (nth i l (0, 0)).1.
Proof. intros Hl. destruct (nth_in_or_default i l (0, 0)) as [Hin|E]; [|by rewrite E]. rewrite Forall_forall in Hl. apply Hl. by apply list_elem_of_In. Qed.

Lemma sproto_create_lemma sp : sproto_create data = Ok (Some sp) → loaded sp.
Proof using Hdata.
unfold sproto_create, create_from_bundle. destruct (struct_field _ _ _) as [fn|]; [|done]. rewrite bind_ok. destruct (_ || _); [done|]. destruct (bundle_arrays _ _ _ _ _) as [[arrays|]|] eqn:Ea; try done. rewrite bind_ok.
apply bundle_arrays_lemma in Ea; [|constructor]. pose proof (nth_count arrays 0 Ea) as H0. pose proof (nth_count arrays 1 Ea) as H1. destruct (nth 0 arrays (0, 0)) as [type_n typedata]. destruct (nth 1 arrays (0, 0)) as [protocol_n protocoldata]. cbn [fst] in *.
destruct (import_all (import_type data type_n) _ _ _) as [[types|]|] eqn:Et; try done. rewrite bind_ok. destruct (import_all (import_protocol data type_n) _ _ _) as [[protos|]|] eqn:Ep; try done. rewrite bind_ok. intros E. injection E as <-.
apply (import_all_lemma (loaded_type type_n)) in Et as [Ht Hl]; [|intros stream a s; apply import_type_lemma|constructor]. apply (import_all_lemma (loaded_protocol type_n)) in Ep as [Hp Hpl]; [|intros stream a s; apply import_protocol_lemma|constructor]. unfold loaded. cbn [s_type_n s_protocol_n s_type s_proto]. cbn in *.
split; [lia|]. split; [lia|]. done.
Qed.
End load.

(** ** For the encoder and the decoder *)

Lemma loaded_type_ok n st : loaded_type n st → type_ok st.
Proof.
  intros (Hn & Hasc & Hsl & Hf & _). split; [split; [done|]; split; [done|lia]|]. eapply Forall_impl; [exact Hf|]. by intros f (Hv & _).
Qed.

Lemma loaded_readable n st : loaded_type n st → readable st.
Proof. intros (Hn & Hasc & _ & _ & Hb). split; [done|by eapply ascending_increasing|done]. Qed.
