(* ===== verification/SprotoRoundtrip.v ===== *)
(** [sproto.c] with [lsproto.c]: a table written with one schema is read with another, or with the
    same.  The well-formedness of the types comes from the loader. *)

From S2P Require Import Prelude CString Seri SeriProps Frames Gate GateProps Crypt CryptDes CryptDh CryptText Words Sproto SprotoCodec SprotoLua SprotoProps SprotoSchema SprotoEncode SprotoView SprotoDecode SprotoRead SprotoLoad.
Open Scope Z_scope.

(** The names of the fields of each type are different; the compiler of schemas sees to that, the loader does
    not look. *)
Definition names_differ_in (sp : sproto) : Prop := Forall (λ st, NoDup (map f_name (t_f st))) (s_type sp).

Section loaded.
Context (data : list Z) (sp : sproto) (Hdata : Forall byte data) (Hsp : sproto_create data = Ok (Some sp)).

Lemma types_ok : Forall type_ok (s_type sp).
Proof using Hdata Hsp.
destruct (sproto_create_lemma data Hdata sp Hsp) as (_ & _ & Ht & _). eapply Forall_impl; [exact Ht|]. apply loaded_type_ok.
Qed.

Lemma types_readable : names_differ_in sp → Forall readable_type (s_type sp).
Proof using Hdata Hsp.
intros Hn. destruct (sproto_create_lemma data Hdata sp Hsp) as (_ & _ & Ht & _). unfold names_differ_in in Hn. rewrite Forall_forall in *. intros st Hst. specialize (Ht st Hst). split; [by eapply loaded_readable|].
split; [by apply Hn|]. destruct Ht as (_ & _ & _ & Hf & _). eapply Forall_impl; [exact Hf|]. intros f (_ & Htag & Hname & _). split; [lia|done].
Qed.
End loaded.

(** ** With one schema *)

Section same.
Context {LN : LuaNumbers} (H : lheap) (types : list stype).

Lemma view_legible_field lev f tbl t : (∀ type st extra v t, view H types (S lev) type st extra v = Some t → legible types (S lev) type st t = true) → valid_field f → f_key f < 0 →
view_field H (view H types (S lev)) f tbl = Some (Some t) → legible_field types (legible types (S lev)) f t = true.
Proof.
intros Hval Hf Hk Ev. unfold view_field in Ev. case_bool_decide; [done|]. assert (Hk' : (f_key f <? 0) = true) by (by apply Z.ltb_lt). destruct (Z.geb_spec (f_type f) 128) as [Hty|Hty].
- apply bind_Some in Ev as (tb & _ & Ev). apply bind_Some in Ev as (vs & _ & Ev). apply bind_Some in Ev as (ts & Hts & Ev). apply fmap_Some in Ev as (x & Hx & E). injection E as <-.
  assert (Ee : elem_type f = f_type f - 0x80) by (unfold elem_type; destruct (Z.geb_spec (f_type f) 128); lia). rewrite Ee in *. unfold valid_field in Hf. apply Is_true_true, orb_true_iff in Hf. rewrite !andb_true_iff, !Z.leb_le in Hf.
  apply mapM_Some in Hts. assert (Hl : Forall (λ t, legible types (S lev) (f_type f - 0x80) (f_st f) t = true) ts) by (clear -Hts Hval; induction Hts; constructor; eauto).
  unfold array_tree in Hx. destruct (Z.eqb_spec (f_type f - 128) 0) as [E0|E0]; [|destruct (Z.eqb_spec (f_type f - 128) 1) as [E1|E1]].
  + apply fmap_Some in Hx as (l & El & ->). cbn [legible_field]. apply andb_true_iff. split; [lia|]. apply forallb_forall. intros z Hz. apply list_elem_of_In, list_elem_of_lookup in Hz as [i Hz]. apply mapM_Some in El.
    destruct (Forall2_lookup_r _ _ _ _ _ El Hz) as (y & Hy & Ey). pose proof (Forall_lookup_1 _ _ _ _ Hl Hy) as Hly. destruct y; try done. injection Ey as ->. cbn [legible] in Hly. by apply andb_true_iff in Hly as [_ ?].
  + apply fmap_Some in Hx as (l & El & ->). cbn [legible_field]. lia.
  + injection Hx as <-. cbn [legible_field]. rewrite Hk'. cbn [orb]. rewrite andb_true_r. apply andb_true_iff. split; [lia|]. apply forallb_forall. intros y Hy. apply list_elem_of_In in Hy. rewrite Forall_forall in Hl. by apply Hl.
- apply fmap_Some in Ev as (x & Hx & E). injection E as <-. pose proof (view_type _ _ _ _ _ _ _ _ Hx) as Hof. apply Hval in Hx. destruct t; try done; cbn [legible_field]. by rewrite Hk'.
Qed.

Lemma view_legible_fields lev st : (∀ type st extra v t, view H types (S lev) type st extra v = Some t → legible types (S lev) type st t = true) → increasing (map f_tag (t_f st)) →
∀ fs i prev tbl ts, drop i (t_f st) = fs → Forall valid_field fs → Forall (λ f, f_key f < 0) fs → ascending prev fs →
view_fields H (view H types (S lev)) fs tbl = Some ts → legible_fields types (legible types (S lev)) st prev ts = true.
Proof.
intros Hval Hinc. induction fs as [|f fs IH]; intros i prev tbl ts Hi Hf Hk Hasc Ev; cbn [view_fields] in Ev; [by injection Ev as <-|]. apply bind_Some in Ev as (o & Eo & Ev). apply bind_Some in Ev as (ts' & Ets & Ev). injection Ev as <-.
apply Forall_cons in Hf as [Hf Hfs], Hk as [Hk Hks]. destruct Hasc as [Hprev Hasc]. assert (Hfi : t_f st !! i = Some f) by (rewrite <- (Nat.add_0_r i), <- lookup_drop, Hi; done).
assert (Hnext : drop (S i) (t_f st) = fs) by (rewrite <- Nat.add_1_r, <- drop_drop, Hi; done).
destruct o as [t|].
- cbn [legible_fields]. rewrite (find_field_at _ _ _ Hinc Hfi), (view_legible_field lev f tbl t Hval Hf Hk Eo). rewrite (IH (S i) (f_tag f) tbl ts' Hnext Hfs Hks Hasc Ets). lia.
- assert (Hl : ∀ prev', prev' ≤ f_tag f → legible_fields types (legible types (S lev)) st (f_tag f) ts' = true → legible_fields types (legible types (S lev)) st prev' ts' = true).
  { intros prev' Hle. destruct ts' as [|[tag t] ts']; [done|]. cbn [legible_fields]. rewrite !andb_true_iff, !Z.ltb_lt. intuition lia. }
  apply Hl; [lia|]. exact (IH (S i) (f_tag f) tbl ts' Hnext Hfs Hks Hasc Ets).
Qed.

(** What is read out of a table with the schema of the writer is legible with it. *)
Lemma view_legible : Forall type_ok types → Forall (λ st, Forall (λ f, f_key f < 0) (t_f st)) types → ∀ lev type st extra v t, view H types lev type st extra v = Some t → legible types lev type st t = true.
Proof.
intros Htypes Hkeys. induction lev as [|lev IH]; [done|]. intros type st extra v t Ev. pose proof (view_type _ _ _ _ _ _ _ _ Ev) as Hof. cbn [view] in Ev. case_bool_decide; [done|].
destruct (Z.eqb_spec type 0) as [->|]; [|destruct (Z.eqb_spec type 1) as [->|]; [|destruct (Z.eqb_spec type 2) as [->|]; [|destruct (Z.eqb_spec type 3) as [->|]; [|done]]]].
- apply bind_Some in Ev as (z & _ & Ev). destruct (in64 z) eqn:Ez; [|done]. by injection Ev as <-.
- destruct v; try done. by injection Ev as <-.
- apply fmap_Some in Ev as (s & _ & ->). done.
- apply bind_Some in Ev as (tb & _ & Ev). apply bind_Some in Ev as (i & Ei & Ev). apply bind_Some in Ev as (s & Es & Ev). destruct lev as [|lev]; [done|]. cbn [Nat.eqb] in Ev. apply fmap_Some in Ev as (ts & Ets & ->).
  assert (Hs : types !! Z.to_nat i = Some s) by (by destruct (i <? 0)). pose proof (Forall_lookup_1 _ _ _ _ Htypes Hs) as [(_ & Hasc & _) Hval]. pose proof (Forall_lookup_1 _ _ _ _ Hkeys Hs) as Hk.
  assert (Et : type_at types st = Some s) by (unfold type_at; rewrite Ei; exact Es). pose proof (view_legible_fields lev s IH (ascending_increasing (-1) _ Hasc) (t_f s) 0 (-1) tb ts eq_refl Hval Hk Hasc Ets) as E.
  change (legible types (S (S lev)) 3 st (TStruct (t_maxn s) ts)) with ((3 =? 3) && negb (S lev =? 0)%nat && match type_at types st with Some s => legible_fields types (legible types (S lev)) s (-1) ts | None => false end). by rewrite Et, E.
Qed.
End same.

Section messages.
Context {LN : LuaNumbers} (H : lheap).

Lemma view_size types i st t ts : Forall type_ok types → types !! Z.to_nat i = Some st → view_fields H (view H types ENCODE_DEEPLEVEL) (t_f st) t = Some ts →
Z.of_nat (length (body (TStruct (t_maxn st) ts))) ≤ room (TStruct (t_maxn st) ts) - 4.
Proof.
intros Htypes Hst Hview. pose proof (Forall_lookup_1 _ _ _ _ Htypes Hst) as [Henc Hvalid].
destruct (proj2 (answered H types Htypes ENCODE_DEEPLEVEL) ltac:(done) (t_f st) t ts (-1) None None Hvalid (proj1 (proj2 Henc)) ltac:(done) Hview) as (u' & Hrun).
by apply (struct_fit (encode H types ENCODE_DEEPLEVEL) st (EncodeUd t None None 0) ts u').
Qed.
End messages.

(** ** Properties *)

(** C33. Whatever bytes the loader accepts as a bundle, the schema it gives is sound: the counts are
    those of the types and the protocols, the fields of a type are in the order of their
    tags with [maxn] records enough for them and the offset [base] exact where it is used, each
    field has a name and one of the types, and every index of a type is in range. *)
Theorem sproto_create_sound data sp : Forall byte data → sproto_create data = Ok (Some sp) → loaded sp.
Proof. intros Hdata Hsp. exact (sproto_create_lemma data Hdata sp Hsp). Qed.

(** C21. [lencode] gives the reference encoding of a table, for every schema the loader accepts: a table
    that has the types of the schema is written as [body] says.  When no array has an integer
    of 64 bits behind one of 32 ([tidy]), that holds from a buffer of any size on, as the buffer
    grows until the message fits; a message with such an array must have room in the buffer
    [lencode] starts with, because a smaller one is written past its end ([lencode_overflow]).
    [room] bounds what the message needs. *)
Theorem lencode_correct {LN : LuaNumbers} data sp H i v st t ts (buf : buffer) :
  Forall byte data → sproto_create data = Ok (Some sp) → 0 ≤ i → s_type sp !! Z.to_nat i = Some st →
  entries_of H v = Some t → view_fields H (view H (s_type sp) ENCODE_DEEPLEVEL) (t_f st) t = Some ts →
  let m := TStruct (t_maxn st) ts in let sz := Z.of_nat (length buf) in
  1 ≤ sz ≤ 2 ^ 24 → room m - 4 ≤ 2 ^ 23 → tidy m = true ∨ room m - 4 ≤ sz →
  ∃ sz', lencode H (s_type sp) (Some i) v buf sz = lua_ret (body m, sz') ∧ sz ≤ sz' ≤ 2 ^ 24.
Proof.
  intros Hdata Hsp Hi Hst Ht Hview m sz Hsz Hneed Hroom. pose proof (types_ok data sp Hdata Hsp) as Htypes. exact (lencode_lemma H (s_type sp) Htypes i v st t ts buf sz Ht Hi Hst Hview Hneed eq_refl Hsz Hroom).
Qed.

(** C6. What [lencode] writes with one schema, [ldecode] reads with another: the reader gets exactly the
    fields it knows, with their values, arrays in their order and maps under their keys, and
    uses all bytes; fields that only the writer knows are skipped.  [legible] says that the fields both know have
    the same types; with one schema without maps it holds for every table ([view_legible]). *)
Theorem lsproto_roundtrip {LN : LuaNumbers} data sp data' sp' H i v st t ts (buf : buffer) j st' :
  Forall byte data → sproto_create data = Ok (Some sp) → 0 ≤ i → s_type sp !! Z.to_nat i = Some st →
  Forall byte data' → sproto_create data' = Ok (Some sp') → 0 ≤ j → s_type sp' !! Z.to_nat j = Some st' → names_differ_in sp' →
  entries_of H v = Some t → view_fields H (view H (s_type sp) ENCODE_DEEPLEVEL) (t_f st) t = Some ts →
  let m := TStruct (t_maxn st) ts in let sz := Z.of_nat (length buf) in
  1 ≤ sz ≤ 2 ^ 24 → room m - 4 ≤ 2 ^ 23 → tidy m = true ∨ room m - 4 ≤ sz →
  legible_fields (s_type sp') (legible (s_type sp') ENCODE_DEEPLEVEL) st' (-1) ts = true →
  ∃ s sz', lencode H (s_type sp) (Some i) v buf sz = lua_ret (s, sz') ∧
    ldecode (s_type sp') (Some j) s [] = lua_ret (Some (VTable (table_of (s_type sp') st' ts), Z.of_nat (length s))).
Proof.
  intros Hdata Hsp Hi Hst Hdata' Hsp' Hj Hst' Hnames Ht Hview m sz Hsz Hneed Hroom Hleg. pose proof (types_ok data sp Hdata Hsp) as Htypes. pose proof (types_readable data' sp' Hdata' Hsp' Hnames) as Htypes'.
  destruct (lencode_lemma H (s_type sp) Htypes i v st t ts buf sz Ht Hi Hst Hview Hneed eq_refl Hsz Hroom) as (sz' & E & _). exists (body m), sz'. split; [exact E|].
  pose proof (view_size H (s_type sp) i st t ts Htypes Hst Hview) as Hsize. apply ldecode_lemma; [done|done|done|done|]. fold m in Hsize. fold m. lia.
Qed.

(** ** Witnesses *)

(** A bundle is itself a message. *)
Definition meta_field (name : string) (rest : list (Z * Z)) : tree := TStruct 6 ((0, TStr (str name)) :: map (λ '(tag, v), (tag, TInt v)) rest).
Definition meta_type (name : string) (fs : list tree) : tree := TStruct 2 [(0, TStr (str name)); (1, TObjs fs)].
Definition meta (types : list tree) : list Z := body (TStruct 2 [(0, TObjs types)]).

Definition writer_bundle : list Z :=
  meta [meta_type "Person" [meta_field "name" [(1, 2); (3, 0)]; meta_field "age" [(1, 0); (3, 1)]; meta_field "marital" [(1, 1); (3, 2)]; meta_field "children" [(2, 0); (3, 3); (4, 1)]; meta_field "scores" [(1, 0); (3, 5); (4, 1)]];
        meta_type "Book" [meta_field "people" [(2, 0); (3, 0); (4, 1)]]].

(** The reader knows fewer fields of a person and keeps the people by age. *)
Definition reader_bundle : list Z :=
  meta [meta_type "Book" [meta_field "byage" [(2, 1); (3, 0); (4, 1); (5, 1)]; meta_field "title" [(1, 2); (3, 1)]];
        meta_type "Person" [meta_field "name" [(1, 2); (3, 0)]; meta_field "years" [(1, 0); (3, 1)]; meta_field "scores" [(1, 0); (3, 5); (4, 1)]]].

Definition schema (data : list Z) : sproto := match sproto_create data with Ok (Some sp) => sp | _ => Sproto 0 0 [] [] end.

(** Numbers without conversions and decimals. *)
Definition plain_numbers : LuaNumbers := {| lua_cvt2int _ := None; lua_num2str _ := []; decimal_in _ _ := 0; decimal_out v _ := v |}.

Definition lua_table (l : list (lval * lval)) : ltable := Build_ltable 0 l None.

Definition people_heap : lheap := list_to_map
  [(1%positive, lua_table [(LStr (str "people"), LTable 2%positive)]);
   (2%positive, lua_table [(LInt 1, LTable 3%positive); (LInt 2, LTable 4%positive)]);
   (3%positive, lua_table [(LStr (str "name"), LStr (str "Alice")); (LStr (str "age"), LInt 13); (LStr (str "marital"), LBool false)]);
   (4%positive, lua_table [(LStr (str "name"), LStr (str "Bob")); (LStr (str "age"), LInt 40000); (LStr (str "children"), LTable 5%positive); (LStr (str "scores"), LTable 6%positive)]);
   (5%positive, lua_table [(LInt 1, LTable 3%positive)]);
   (6%positive, lua_table [(LInt 1, LInt (-7)); (LInt 2, LInt 5)])].

Definition people_tree : list (Z * tree) :=
  let alice := TStruct 6 [(0, TStr (str "Alice")); (1, TInt 13); (2, TBool false)] in
  [(0, TObjs [alice; TStruct 6 [(0, TStr (str "Bob")); (1, TInt 40000); (3, TObjs [alice]); (5, TInts [-7; 5])]])].

Lemma writer_bytes : Forall byte writer_bundle.
Proof. apply (bool_decide_eq_true_1 (Forall (λ x, 0 ≤ x < 256) writer_bundle)). vm_compute. reflexivity. Qed.

Lemma reader_bytes : Forall byte reader_bundle.
Proof. apply (bool_decide_eq_true_1 (Forall (λ x, 0 ≤ x < 256) reader_bundle)). vm_compute. reflexivity. Qed.

Lemma sproto_create_sound_witness : sproto_create writer_bundle = Ok (Some (schema writer_bundle)) ∧ s_type_n (schema writer_bundle) = 2 ∧ loaded (schema writer_bundle).
Proof. split; [vm_compute; reflexivity|]. split; [vm_compute; reflexivity|]. apply (sproto_create_sound writer_bundle); [exact writer_bytes|vm_compute; reflexivity]. Defined.

Definition people_message : list Z := body (TStruct 1 people_tree).

(** The buffer of 16 bytes is doubled. *)
Lemma lencode_correct_witness : ∃ sz', lencode (LN := plain_numbers) people_heap (s_type (schema writer_bundle)) (Some 1) (LTable 1%positive) (replicate 16 None) 16 = lua_ret (people_message, sz') ∧ 16 ≤ sz' ≤ 2 ^ 24.
Proof.
  apply (@lencode_correct plain_numbers writer_bundle (schema writer_bundle) people_heap 1 (LTable 1%positive) (SType (Some (str "Book")) 1 0 1 [Field 0 0x83 (Some (str "people")) (Some 0) (-1) 0]) (lua_table [(LStr (str "people"), LTable 2%positive)]) people_tree (replicate 16 None)).
  - exact writer_bytes.
  - vm_compute. reflexivity.
  - lia.
  - vm_compute. reflexivity.
  - vm_compute. reflexivity.
  - vm_compute. reflexivity.
  - cbn. lia.
  - vm_compute. discriminate.
  - left. vm_compute. reflexivity.
Defined.

Lemma lsproto_roundtrip_witness : ∃ s sz', lencode (LN := plain_numbers) people_heap (s_type (schema writer_bundle)) (Some 1) (LTable 1%positive) (replicate 16 None) 16 = lua_ret (s, sz') ∧
  ldecode (LN := plain_numbers) (s_type (schema reader_bundle)) (Some 0) s [] = lua_ret (Some (VTable [(VStr (str "byage"), VTable
    [(VInt 13, VTable [(VStr (str "name"), VStr (str "Alice")); (VStr (str "years"), VInt 13)]);
     (VInt 40000, VTable [(VStr (str "name"), VStr (str "Bob")); (VStr (str "years"), VInt 40000); (VStr (str "scores"), VTable [(VInt 1, VInt (-7)); (VInt 2, VInt 5)])])])], Z.of_nat (length s))).
Proof.
  apply (@lsproto_roundtrip plain_numbers writer_bundle (schema writer_bundle) reader_bundle (schema reader_bundle) people_heap 1 (LTable 1%positive) (SType (Some (str "Book")) 1 0 1 [Field 0 0x83 (Some (str "people")) (Some 0) (-1) 0])
    (lua_table [(LStr (str "people"), LTable 2%positive)]) people_tree (replicate 16 None) 0
    (SType (Some (str "Book")) 2 0 2 [Field 0 0x83 (Some (str "byage")) (Some 1) 1 0; Field 1 2 (Some (str "title")) None (-1) 0])).
  - exact writer_bytes.
  - vm_compute. reflexivity.
  - lia.
  - vm_compute. reflexivity.
  - exact reader_bytes.
  - vm_compute. reflexivity.
  - lia.
  - vm_compute. reflexivity.
  - apply (bool_decide_eq_true_1 (Forall (λ st, NoDup (map f_name (t_f st))) (s_type (schema reader_bundle)))). vm_compute. reflexivity.
  - vm_compute. reflexivity.
  - vm_compute. reflexivity.
  - cbn. lia.
  - vm_compute. discriminate.
  - left. vm_compute. reflexivity.
  - vm_compute. reflexivity.
Defined.

(** ** Where memory is left *)

Definition numbers_heap : lheap := list_to_map
  [(1%positive, lua_table [(LStr (str "scores"), LTable 2%positive)]);
   (2%positive, lua_table (map (λ i, (LInt i, LInt (if i =? 301 then 2 ^ 40 else 1))) (seqZ 1 301)))].

(** The check for room before the integers are widened compares an [int] below 0 as a [size_t]: in the
    buffer [lsproto.c] starts with, 300 integers of 32 bits and one of 64 are written past its end. *)
Lemma lencode_overflow : lencode (LN := plain_numbers) numbers_heap (s_type (schema writer_bundle)) (Some 0) (LTable 1%positive) (replicate 2050 None) ENCODE_BUFFERSIZE = Fault OutOfBounds.
Proof. vm_compute. reflexivity. Qed.

(** The length of an array, [0xfffffffd], and the four bytes of the length itself add up to 1: the
    message passes the check and is read past its end. *)
Lemma ldecode_overread : ldecode (LN := plain_numbers) (s_type (schema writer_bundle)) (Some 0) [2; 0; 9; 0; 0; 0; 0xfd; 0xff; 0xff; 0xff; 4; 1; 0; 0; 0] [] = Fault OutOfBounds.
Proof. vm_compute. reflexivity. Qed.
