(* ===== verification/SprotoBind.v ===== *)
(** The rest of [lualib-src/sproto/lsproto.c]: schemas and their queries, the schemas that Lua states
    share, packing with the buffer that grows, and the table of defaults.  Of
    [luaL_argerror] the text is its extra message. *)

From S2P Require Import Prelude CString Seri SeriProps Frames Gate GateProps Crypt CryptDes CryptDh CryptText Words SprotoPack SprotoPacking Sproto SprotoCodec SprotoLua SprotoProps SprotoSchema SprotoEncode SprotoView SprotoDecode SprotoRead SprotoLoad.
Open Scope Z_scope.

Definition MAX_GLOBALSPROTO : Z := 16.

Definition sproto_release (s : option pool) : list nat := match s with None => [] | Some p => pool_release p end.
Definition sproto_name (st : stype) : cstring := default [] (t_name st).

(** ** Schemas *)

Definition lnewproto (buffer : list Z) : res (option sproto) := sproto_create buffer.

Definition lquerytype (sp : option sproto) (type_name : list Z) : luaR (option Z) :=
  match sp with
  | None => luaL_error (str "Need a sproto object")
  | Some sp => lua_ret (sproto_type sp (cut0 type_name))
  end.

(** A type, no type, or the [NULL] that stands for a response without content. *)
Inductive type_ref : Set :=
| RefNil
| RefNull
| RefType (i : Z).

Definition lprotocol {LN : LuaNumbers} (sp : option sproto) (v : lval) : luaR (option (value * type_ref * type_ref)) :=
  match sp with
  | None => luaL_error (str "Need a sproto_type object")
  | Some sp =>
      lbind
        (match v with
         | LInt _ | LReal _ =>
             let tag := i32 (default 0 (lua_tointegerx v)) in
             name ← sproto_protoname sp tag;
             lua_ret (match name with None => None | Some name => Some (tag, VStr name) end)
         | _ =>
             match lua_tolstring v with
             | None => luaL_error (str "Should be number or string")
             | Some name =>
                 let tag := sproto_prototag sp (cut0 name) in
                 lua_ret (if tag <? 0 then None else Some (tag, VInt tag))
             end
         end)
        (λ o,
          match o with
          | None => lua_ret None
          | Some (tag, v) =>
              request ← sproto_protoquery sp tag 0;
              response ← sproto_protoquery sp tag 1;
              match response with
              | Some i => lua_ret (Some (v, match request with None => RefNil | Some i => RefType i end, RefType i))
              | None =>
                  confirm ← sproto_protoresponse sp tag;
                  lua_ret (Some (v, match request with None => RefNil | Some i => RefType i end, if confirm : bool then RefNull else RefNil))
              end
          end)
  end.

(** [G_sproto]: a pointer per slot. *)
Definition lsaveproto {P} (G : list (option P)) (sp : option P) (index : Z) : luaR (list (option P)) :=
  let index := i32 index in
  if (index <? 0) || (index >=? MAX_GLOBALSPROTO) then luaL_error (str "Invalid global slot index " ++ print_d index)
  else lua_ret (<[Z.to_nat index := sp]> G).

Definition lloadproto {P} (G : list (option P)) (index : Z) : luaR P :=
  let index := i32 index in
  if (index <? 0) || (index >=? MAX_GLOBALSPROTO) then luaL_error (str "Invalid global slot index " ++ print_d index)
  else
    sp ← rd G index;
    match sp with None => luaL_error (str "nil sproto at index " ++ print_d index) | Some sp => lua_ret sp end.

(** ** Packing

    A Lua string is followed by a zero.  The result has the buffer, which is kept for the
    next call. *)
Definition lpack (s : list Z) (output : buffer) (osz : Z) : luaR (list Z * buffer * Z) :=
  let sz := Z.of_nat (length s) in
  let maxsz := lpack_maxsz sz in
  lbind
    (if u64 osz <? maxsz then lbind (expand_buffer osz maxsz) (λ osz, lua_ret (replicate (Z.to_nat osz) None, osz)) else lua_ret (output, osz))
    (λ '(output, osz),
      '(bytes, output) ← sproto_pack (s ++ [0]) (i32 sz) output (i32 maxsz);
      if u64 bytes >? maxsz then luaL_error (str "packing error, return size = " ++ print_d bytes)
      else r ← init_bytes output bytes; lua_ret (r, output, osz)).

Definition lunpack (s : list Z) (output : buffer) (osz : Z) : luaR (list Z * buffer * Z) :=
  let sz := Z.of_nat (length s) in
  '(r, output) ← sproto_unpack (s ++ [0]) (i32 sz) output osz;
  if r <? 0 then luaL_error (str "Invalid unpack stream")
  else
    lbind
      (if r >? osz then
         lbind (expand_buffer osz r) (λ nsz,
           '(r, output) ← sproto_unpack (s ++ [0]) (i32 sz) (replicate (Z.to_nat nsz) None) r;
           if r <? 0 then luaL_error (str "Invalid unpack stream") else lua_ret (r, output, nsz))
       else lua_ret (r, output, osz))
      (λ '(r, output, osz), l ← init_bytes output r; lua_ret (l, output, osz)).

(** ** Defaults *)

Section default.
Context (types : list stype).

(** [array] is whether the value stands for the elements of an array. *)
Definition push_default (args : sproto_arg) (array : bool) : luaR value :=
  if a_type args =? SPROTO_TINTEGER then lua_ret (if negb (a_extra args =? 0) then VReal 0 else VInt 0)
  else if a_type args =? SPROTO_TBOOLEAN then lua_ret (VBool false)
  else if a_type args =? SPROTO_TSTRING then lua_ret (VStr [])
  else if a_type args =? SPROTO_TSTRUCT then
    i ← or_fault BadPointer (a_subtype args);
    st ← rd types i;
    lua_ret (if array then VStr (sproto_name st) else VTable [(VStr (str "__type"), VStr (sproto_name st))])
  else luaL_error (str "Invalid type " ++ print_d (a_type args)).

(** [args->ud] is the Lua state with the table on top. *)
Definition encode_default (args : sproto_arg) (u : list (value * value)) (mem : buffer) : luaR (Z * list (value * value) * buffer) :=
  if a_index args >? 0 then
    lbind (push_default args true) (λ v, lua_ret (SPROTO_CB_NOARRAY, setfield u (a_tagname args) (VTable [(VStr (str "__array"), v)]), mem))
  else lbind (push_default args false) (λ v, lua_ret (SPROTO_CB_NIL, setfield u (a_tagname args) v, mem)).

Fixpoint default_retry (fuel : nat) (st : stype) (sz : Z) (u : list (value * value)) : luaR value :=
  match fuel with
  | O => Fault OutOfFuel
  | S fuel =>
      lbind (sproto_encode encode_default st (replicate (Z.to_nat sz) None) sz u) (λ '(ret, u, _),
        if ret >=? 0 then lua_ret (VTable u)
        else sz ← int_chk (sz * 2); default_retry fuel st sz u)
  end.

Definition ldefault (st : option Z) : luaR value :=
  match st with
  | None => luaL_error (str "Need a sproto_type object")
  | Some i =>
      st ← rd types i;
      lbind (sproto_encode encode_default st (replicate 64 None) 64 []) (λ '(ret, u, _),
        if ret <? 0 then default_retry 32 st 128 u else lua_ret (VTable u))
  end.

(** ** The table of defaults *)

Definition default_value (f : field) (array : bool) : value :=
  if elem_type f =? 0 then if negb (f_extra f =? 0) then VReal 0 else VInt 0
  else if elem_type f =? 1 then VBool false
  else if elem_type f =? 2 then VStr []
  else
    let name := match type_at types (f_st f) with Some st => sproto_name st | None => [] end in
    if array then VStr name else VTable [(VStr (str "__type"), VStr name)].

Definition default_entry (f : field) : value * value :=
  (VStr (field_name f), if f_type f >=? 0x80 then VTable [(VStr (str "__array"), default_value f true)] else default_value f false).

Lemma default_not_nil f : is_vnil (default_entry f).2 = false.
Proof. unfold default_entry, default_value. cbn [snd]. destruct (f_type f >=? 128); [done|]. destruct (_ =? 0); [by destruct (negb _)|]. destruct (_ =? 1); [done|]. by destruct (_ =? 2). Qed.

Lemma push_default_lemma n f index array len : n = Z.of_nat (length types) → loaded_field n f →
  push_default (set_length len (set_index index (field_arg f (elem_type f) 0))) array = lua_ret (default_value f array).
Proof.
  intros -> (Hf & _ & _ & Hst). unfold push_default, default_value. cbn [a_type a_extra a_subtype set_length set_index field_arg]. unfold SPROTO_TINTEGER, SPROTO_TBOOLEAN, SPROTO_TSTRING, SPROTO_TSTRUCT.
  destruct (Z.eqb_spec (elem_type f) 0); [done|]. destruct (Z.eqb_spec (elem_type f) 1); [done|]. destruct (Z.eqb_spec (elem_type f) 2); [done|].
  assert (E3 : elem_type f = 3). { unfold elem_type, valid_field in *. apply Is_true_true, orb_true_iff in Hf. rewrite !andb_true_iff, !Z.leb_le in Hf. destruct (Z.geb_spec (f_type f) 128); lia. }
  rewrite E3. cbn [Z.eqb Pos.eqb]. destruct (Hst E3) as (i & -> & Hi). cbn [or_fault]. rewrite bind_ok. destruct (lookup_lt_is_Some_2 types (Z.to_nat i)) as [st Hs]; [lia|]. rewrite (rd_ok _ _ st), bind_ok by (done || lia).
  unfold type_at. cbn [mbind option_bind]. destruct (Z.ltb_spec i 0); [lia|]. rewrite Hs. by destruct array.
Qed.

Lemma encode_default_lemma n f es : n = Z.of_nat (length types) → loaded_field n f → fresh es (field_name f) → skips encode_default f es (es ++ [default_entry f]).
Proof.
  intros Hn Hf Hes. pose proof Hf as (Hv & _). unfold valid_field in Hv. apply Is_true_true, orb_true_iff in Hv. rewrite !andb_true_iff, !Z.leb_le in Hv. pose proof (default_not_nil f) as Hnil. unfold default_entry in *. cbn [snd] in Hnil. destruct Hv as [Hv|Hv].
  - left. split; [done|]. intros len mem. unfold encode_default. cbn [a_index set_length field_arg Z.gtb Z.compare]. assert (Ee : elem_type f = f_type f) by (unfold elem_type; destruct (Z.geb_spec (f_type f) 128); lia). rewrite <- Ee.
    pose proof (push_default_lemma n f 0 false len Hn Hf) as E. change (set_index 0 (field_arg f (elem_type f) 0)) with (field_arg f (elem_type f) 0) in E. rewrite E. cbn [lbind lua_ret].
    destruct (Z.geb_spec (f_type f) 128); [lia|]. destruct (Z.geb_spec (elem_type f) 128); [lia|]. cbn [a_tagname set_length field_arg]. fold (field_name f). by rewrite setfield_fresh.
  - right. split; [done|]. intros len mem. unfold encode_default. cbn [a_index set_length set_index field_arg Z.gtb Z.compare]. destruct (Z.geb_spec (f_type f) 128); [|lia]. assert (Ee : f_type f - 0x80 = elem_type f) by (unfold elem_type; destruct (Z.geb_spec (f_type f) 128); lia). rewrite Ee.
    rewrite (push_default_lemma n f 1 true len Hn Hf). cbn [lbind lua_ret a_tagname set_length set_index field_arg]. fold (field_name f). by rewrite setfield_fresh.
Qed.

Lemma default_fields n fs : n = Z.of_nat (length types) → ∀ es, Forall (loaded_field n) fs → NoDup (map f_name fs) → (∀ f, f ∈ fs → fresh es (field_name f)) →
  fields_run encode_default fs es [] (es ++ map default_entry fs).
Proof.
  intros Hn. induction fs as [|f fs IH]; intros es Hf Hnd Hes; cbn [map]; [rewrite app_nil_r; constructor|]. apply Forall_cons in Hf as [Hf Hfs]. cbn [map] in Hnd. apply NoDup_cons in Hnd as [Hni Hnd].
  eapply fields_run_skip; [apply (encode_default_lemma n f es Hn Hf); apply Hes; by left|]. change (default_entry f :: map default_entry fs) with ([default_entry f] ++ map default_entry fs). rewrite app_assoc. apply IH; [done|done|].
  intros g Hg. apply fresh_snoc; [apply Hes; by right|]. intros Heq. apply Hni. apply list_elem_of_fmap. exists g. split; [|done]. destruct Hf as (_ & _ & [nf Ef] & _). rewrite Forall_forall in Hfs. destruct (Hfs g Hg) as (_ & _ & [ng Eg] & _).
  unfold field_name in Heq. rewrite Ef, Eg in *. cbn in Heq. by subst.
Qed.

(** The dummy buffer is always enough, except for types with more than 27 fields. *)
Lemma ldefault_lemma n i st : n = Z.of_nat (length types) → 0 ≤ i → types !! Z.to_nat i = Some st → loaded_type n st → NoDup (map f_name (t_f st)) → t_maxn st ≤ 27 →
  ldefault (Some i) = lua_ret (VTable (map default_entry (t_f st))).
Proof.
  intros Hn Hi Hst Hload Hnd Hmax. pose proof (loaded_type_ok n st Hload) as [Henc _]. destruct Hload as (_ & _ & _ & Hf & _). unfold ldefault. rewrite (rd_ok _ _ st), bind_ok by done.
  pose proof (default_fields n (t_f st) Hn [] Hf Hnd ltac:(intros; constructor)) as Hrun. cbn [app] in Hrun.
  destruct (sproto_encode_lemma encode_default st [] [] _ (replicate 64 None) Henc Hrun) as (r & v & mem' & E & _ & Ho); [by rewrite length_replicate|by left|]. rewrite length_replicate in E, Ho. change (Z.of_nat 64) with 64 in *. rewrite E. cbn [lbind lua_ret].
  change (room (TStruct (t_maxn st) [])) with (4 + (10 + 2 * t_maxn st + 0)) in Ho. destruct Ho as [[_ Ho]|(-> & -> & _)]; [lia|]. by destruct (Z.ltb_spec (Z.of_nat (length (body (TStruct (t_maxn st) [])))) 0); [lia|].
Qed.
End default.
